(* ===== verification/_CoqProject ===== *)
-Q . S2P
Prelude.v
Bits.v
FusionIsa.v
FusionOpc.v
Endian.v
GasHash.v
BfdReloc.v
FusionReloc.v
ElfReloc.v
FusionLink.v
ElfGc.v
ElfGcOk.v
ElfGcSweep.v
FusionDis.v
GasState.v
Scrub.v
ScrubRef.v
ScrubWp.v
ScrubText.v
ScrubOk.v
GasSymbols.v
GasResolve.v
GasSymbolsOk.v
GasResolveOk.v
GasResolveVal.v
GasDenote.v
GasLabels.v
GasExpr.v
GasExprEnds.v
FusionParse.v
GasNumber.v
GasConst.v
Leb128.v
LebOk.v
FusionAsm.v
FusionFix.v
ConstLine.v
GasData.v
GasDataOk.v
GasWrite.v
FusionChain.v
FusionObject.v
BfdHash.v
LinkAdd.v
LinkOk.v
LinkFiles.v
LinkSyms.v
LinkInputs.v
LinkArchive.v
LinkPull.v
ElfStrtab.v
StrtabSort.v
StrtabList.v
StrtabMerge.v
StrtabFinal.v
