(* ===== verification/Prelude.v ===== *)
(** * Fusion-Core binutils: a verification library

    The repository is GNU binutils with a port to the Fusion-Core processor, a
    32-bit big-endian machine with nine instruction formats.  This library
    models the port and the generic code it stands on, and proves what makes
    the tools agree: what the assembler writes, what the linker patches and what
    the disassembler prints are one and the same instruction.  All paths below
    are relative to src/binutils/.

    ** The parts and how they interact

    - The instruction set: include/opcode/fusion.h and fusion-opc.h hold the
      field masks and the macros that build and take apart a word;
      opcodes/fusion-opc.c the table the assembler hashes and the nine tables
      the disassembler indexes.
    - The assembler: gas/config/tc-fusion.c.  [md_begin] fills two hash tables
      (gas/hash.c); [md_assemble] parses one line, builds the word, asks
      gas/frags.c for four bytes, stores the word there and leaves a fixup
      (gas/write.c).  At the end [fixup_segment] gives every fixup a value,
      [md_apply_fix] puts it into the word, and [tc_gen_reloc] turns what is
      left into relocations.
    - The preprocessor: gas/app.c.  [do_scrub_chars] takes comments and idle white space
      out of the text before [md_assemble] or any directive sees a line of it.
    - The data directives: gas/read.c.  [cons] (.byte to .octa) parses expressions and puts
      their values, or zeros and fixups, into the frags; [stringer] puts strings there
      character by character; the encoders of LEB128 numbers are there too, their readers
      in bfd/libbfd.c.
    - Symbols and expressions: gas/symbols.c and gas/expr.c.  [expr] reads the text
      of an expression, a compound one becomes a symbol of the section expr_section
      ([make_expr_symbol]), and [resolve_symbol_value] computes what every symbol
      stands for when the input is over.
    - The linker: bfd/elf32-fusion.c.  [fusion_elf_relocate_section] resolves
      each relocation's symbol and patches its field, through the generic
      bfd/reloc.c or its own code for branches.
    - The linker's symbol table: bfd/linker.c over the hash tables of bfd/hash.c.
      Every input file's symbols are merged into it by a state table
      ([_bfd_generic_link_add_one_symbol]), and an archive's elements are pulled in
      for the symbols it still wants.
    - Garbage collection: bfd/elflink.c.  [bfd_elf_gc_sections] (ld --gc-sections) follows
      the relocations of the input sections, their groups and unwind entries from the
      sections to keep, and excludes those it does not come to.
    - The string tables of the output file: bfd/elf-strtab.c, over the same hash
      tables; entered with counts, then sorted and merged, then written.
    - The disassembler: opcodes/fusion-dis.c.
    - All of them read and write words through bfd/libbfd.c.

    ** The files

    - Prelude: the result type [res] of code that can fault, C integers as [Z]
      with their wrap-around ([u32], [s32], [u64], ...), byte buffers ([rd],
      [wr], out of range is a fault), tactics, hint databases, shared lemmas.
    - Bits: a reflective decision procedure for equations between words built
      from fields by masks and shifts (tactic [isa] of FusionIsa uses it).
    - FusionIsa: the macros of fusion.h and fusion-opc.h, one definition each;
      [insn], [encode] and [decode], the instruction set as data.
    - FusionOpc: the tables of opcodes/fusion-opc.c, row by row.
    - Endian: the accessors of libbfd.c and gas's [number_to_chars].
    - GasHash: gas/hash.c, entries on an obstack with their lifetime.
    - BfdReloc: bfd/reloc.c, the howto structure and relocation of one field.
    - FusionReloc: the Fusion howto table and the relocation of one
      instruction; [patched] and [reloc_insn] are its specification.
    - FusionLink: [fusion_elf_relocate_section] and [fusion_elf_check_relocs]
      with the macros they expand, symbol resolution and discarded sections.
    - ElfGc: [bfd_elf_gc_sections] and what it calls (elflink.c, elf-eh-frame.c,
      section.c), marks as sets of indices.  ElfGcOk: references as a relation ([step]),
      the data the code relies on ([gc_wf]), what marking adds ([grown]).  ElfGcSweep:
      reachability ([reaches]), the debugging and special sections, the sweep.
    - FusionDis: [print_insn_fusion].
    - GasState: the state of the assembler (input buffer, frags on their
      obstack, fixups, symbols, the two tables, diagnostics), the
      state-and-fault monad [M] its code runs in, frags.c, the creation of
      fixups.
    - Scrub: gas/app.c as built for Fusion, its two buffers and the static state between
      calls explicit, [goto tofull] and [goto fromeof] as exits of a monad [K].  ScrubRef:
      the machine on characters it computes ([delta], [scrubs]).  ScrubWp: a calculus for
      [K], what is owed of the output ([due]).  ScrubText: the cases of the states of
      text.  ScrubOk: the other states, the loop, a call, the calls for a whole text.
    - GasSymbols: the symbol table of gas/symbols.c, in a monad [SM] of its own: real
      and local symbols in a heap, conversion, the chain, the two hash tables,
      look-up, the S_ and symbol_ accessors, cloning.  GasSymbolsOk: its
      well-formedness [syms_ok] and a calculus [wp] for the monad.
    - GasResolve: values of symbols ([resolve_symbol_value], [S_GET_VALUE],
      [snapshot_symbol], [resolve_expression]), expression symbols, [fix_new_exp].
      GasResolveOk: that they return.  GasResolveVal: what a symbol denotes, a
      reference evaluator [sym_value]; GasDenote: resolving computes it.
    - GasLabels: local labels of both kinds and the definition of a label ([colon]).
    - GasExpr: the expression parser of gas/expr.c.  GasExprEnds: it ends.
      GasNumber: integers and bignums.  GasConst: constant expressions, printed and
      parsed.
    - Leb128: LEB128 numbers as gas writes and BFD reads them.  LebOk: what such bytes
      denote ([leb_value]), the shortest form ([written]).
    - FusionParse: the operand parsers of tc-fusion.c.
    - FusionAsm: [md_begin], [md_assemble], the macro instructions.  ConstLine: the
      assembler with gas's own expression parser.
    - GasData: [cons_worker] with [emit_expr], [stringer] with [next_char_of_string].
      GasDataOk: lines of numbers and of strings, what they put out ([put_out]).
    - FusionFix: [fixup_segment], [md_apply_fix], [tc_gen_reloc].
    - ElfReloc: relocation records in the file, [elf_write_relocs] (elfcode.h) and
      [elf_link_read_relocs_from_section] (elflink.c).
    - GasWrite: [adjust_reloc_syms], [install_reloc], [write_relocs] (gas/write.c).
    - FusionChain, FusionObject: one reference, then a whole section, followed from
      the fixup to the linked word; no code of their own but the composition.
    - BfdHash: bfd/hash.c, entries in a heap and chains of their indices; the
      interface [StringTable] with its laws [StringTableLaws], which the linker's
      files use and bfd/hash.c implements ([bfd_table_laws]).
    - LinkAdd: the symbol table of bfd/linker.c, a state monad [L] over the heap of
      entries, the name table, the list of undefined symbols and the events
      reported; every action of the state table.
    - LinkOk: the invariant [ok] of that table and that every call keeps it.
    - LinkFiles: reading the symbols of a file, the walk over them and the search
      of an archive, in a second monad [G] with the files' symbols in memory.
    - LinkSyms: what a sequence of symbols amounts to, as a specification
      ([resolved_type]), and that one call computes one step of it.
    - LinkInputs, LinkArchive, LinkPull: whole files; the search of an archive with
      any checking function; the search with the generic one.

    - ElfStrtab: bfd/elf-strtab.c, its entries in a heap, [qsort] by [strrevcmp] as a
      merge sort.  StrtabSort: the order [strrevcmp] is.  StrtabList: the table as a list
      of strings with counts ([strtab_ok]).  StrtabMerge: the passes of finalize.
      StrtabFinal: the section they produce ([section_of]).

    ** What the theorems show

    - Encoding and decoding are inverse on all nine formats, and the assembler's
      table agrees with the disassembler's entry by entry (FusionIsa, FusionOpc,
      [mnemonic_roundtrip]).
    - The preprocessor puts out what a machine without buffers gives for the text,
      however the text and the output are cut ([scrub_refines]); it never leaves its
      buffers and keeps its state well formed on any input ([scrub_keeps_ok]); the lines
      of the text keep their numbers ([scrub_keeps_lines]).
    - A well-formed line assembles to exactly the four bytes of its instruction
      and one fixup ([md_assemble_encodes]), with gas's own parser for its immediate
      where that is a constant expression ([constant_line]); [macros_expand] says what
      the macros expand to, and for which operands they do; register names parse to their numbers; the bits a fixup adds
      for a constant are those already there, with the one exception stated.
    - Relocating refines a specification on instructions
      ([relocate_insn_refines]); a whole section is relocated completely and
      touches nothing else ([relocate_section_complete]); the generic overflow
      test is the mathematical one.
    - The parts compose: for a section of references to local labels,
      [local_references_link] follows every fixup through the assembler's three
      passes, the relocation section of the file and the final link, and says
      which immediate each instruction ends up with.
    - The linker's symbol table stays well formed under every kind of symbol
      ([add_one_symbol_ok], but for two faults on names of constructors) and resolves each name to the strongest of its symbols
      whatever the files ([symbols_resolve]); the search of an archive ends
      ([archive_search_returns]) and leaves none of the archive's symbols undefined
      ([archive_search_complete]).
    - Marking is reachability by references from the sections to keep
      ([gc_marks_reachable]); after the whole collection those reached are as they were,
      the others excluded, and nothing kept refers to an excluded section
      ([gc_sections_safe]).
    - An ELF string table is a list of strings with counts ([strtab_refines_list]), and
      the section written from it has every used string once, those that end another
      inside it, where the offsets say ([strtab_written]).
    - Resolving symbols returns on every well-formed table, cycles included
      ([resolve_returns]); where symbols are not defined by themselves it returns what
      they denote, in any order ([resolve_denotes]).  Local label names decode to
      their label ([label_name_decodes]) and references find the nearest definition
      ([fb_references]).
    - The expression parser ends ([parse_ends]); integers of any length and constant
      expressions parse to their values ([integer_constant_value],
      [constant_expression]).
    - A line of a data directive puts out the bytes of its strings ([string_directive]) or
      numbers ([number_directive]), and warns for the numbers that do not fit.  LEB128
      numbers are written in the fewest bytes and read back ([leb128_roundtrip]); those of
      any length denote the number, with the one exception stated ([leb128_numbers]).
    - The disassembler prints the decoded instruction for every word.
    - The hash tables of gas and of BFD are finite maps under any sequence of
      calls, the former where deletions free entries in the order an obstack asks for, the
      latter while it grows and rehashes; growing frags
      always terminates; following symbol links terminates.
    - Where the code does not do what it means to, a theorem states what it does
      ([return_reloc_table], [jump_reach], [branch_to_symbol],
      [relocate_section_unsupported], [print_word_overread],
      [self_indirect_loops], [finalize_without_memory], [equated_again],
      [octal_wraps], ...).

    ** Conventions

    The host is LP64: [int] 32 bits, [long], pointers, [bfd_vma] and [valueT]
    64 bits.  A fault ([Fail]) is a call of [abort], a fatal error, an access
    outside an object, a read of an unset variable, a shift or a quotient C leaves
    undefined, or a loop that does not end; a theorem that ends in [= Ret _] therefore says the code returns.  Loops that
    are not structural take fuel computed from the data: the number of hash
    entries for links, the length of the buffer for scans, of the opcode table
    for [md_begin], the room on the obstack for [frag_grow], twice the number of
    entries for the loop that adds a symbol, the number of entries of the symbol
    table for the search of an archive, the number of symbols not being resolved for
    [resolve_symbol_value], twice the characters left for the expression parser, for the preprocessor the
    characters to read plus twice the room for output, the number of sections for marking
    and for a round of a group, the number of symbols for indirect ones, ten turns of seven
    bits for a LEB128 number of 64 bits, three for each littlenum of a bignum, the
    characters of the buffer for the lines of data directives;
    theorems show it is enough.

    ** Parameters

    Code outside the model enters as an argument: for the operand parsers gas's
    [expression] (class [ExprParser]; ConstLine has the instance), for the expression parser [atof_generic] (class
    [FloatParser]), for the fixups the resolved symbol table (class [SymTab]), merge.c's
    [_bfd_merged_section_offset] and the linker's [unwrap_hash_lookup], whether
    BFD accepts the architecture, the memory the disassembler reads, and the
    contents of fresh frag memory.  For the linker's symbol table: what the
    allocator can give (class [Memory]), the notice callback's answer, the sections a
    file has, the symbol reader of the object format, the archive reader and the
    add_archive_element callback; for the preprocessor the buffers its argument get
    returns; the theorems name what they assume of them (memory
    does not run out, callbacks accept, files can be read).  For the string tables: the
    new hash table and whether [bfd_bwrite] writes.  For garbage collection: the
    relocations and local symbols that can be read, the sections of a file by name and by
    number, the FDEs [_bfd_elf_parse_eh_frame] found, the matching of version scripts.
    For data directives: the flags of the output sections, and the flag [X_unsigned] of a
    parsed expression.

    ** Outside the theorems

    Weakref symbols: resolving them is modelled ([through_weakref]), but the well-formed
    tables of [resolve_returns] and [resolve_denotes] have none.  Symbols asked for on the
    command line (ld -u), which no file owns, are left out of the check of archives.

    ** Not modelled

    Of the target-independent front end of gas: read.c's directives other than those of
    data, and of these check_eh_frame, the line counters, the search for DWARF 1 file names
    and LEB128 numbers with symbols; the reading of files (input-file.c, input-scrub.c), the options of app.c other targets set, flonums
    (atof-generic.c), and of symbols.c the printing, the walk that resolves the local
    symbols and the complex relocations (OBJ_COMPLEX_RELC, not defined for ELF);
    relaxation, line-number and listing output, the ELF linker
    (elflink.c) but its garbage collection, the parsing of .eh_frame, the ELF file formats, the output half of linker.c, its
    [bfd_link_repair_undef_list] and [bfd_link_hash_traverse], the string tables of
    hash.c, entries without a file (ld -u), ld's driver and scripts, the
    command-line tools, and the other targets. *)
From stdpp Require Export base list gmap strings.
From Stdlib Require Export ZArith Lia Btauto.
#[global] Open Scope Z_scope.

(** ** Faults and the result type of code that can stop or misbehave *)

(** How a C routine of the port can fail to return: it calls [abort], it
    reports a fatal diagnostic and exits, it reads or writes outside an object,
    it reads a variable no statement has assigned, it divides by zero, it
    evaluates an operation C leaves undefined (a shift by the width of the type or
    more, a quotient that does not fit), or it loops for ever. *)
Inductive fault : Type :=
| Fabort
| Ffatal (msg : string)
| Foob
| Funinit
| Fdiv0
| Fub
| Floop.

Inductive res (A : Type) : Type :=
| Ret (a : A)
| Fail (f : fault).
Arguments Ret {A} a.
Arguments Fail {A} f.

Definition rbind {A B : Type} (m : res A) (k : A -> res B) : res B :=
  match m with
  | Ret a => k a
  | Fail f => Fail f
  end.

Declare Scope c_scope.
Delimit Scope c_scope with c.
Notation "'let!' x := m 'in' k" := (rbind m (fun x => k))
  (at level 10, x pattern, m at level 100, k at level 200) : c_scope.
#[global] Open Scope c_scope.

Definition is_ret {A : Type} (m : res A) : bool :=
  match m with Ret _ => true | Fail _ => false end.

(** ** Machine integers of an LP64 host *)

(** [uint32_t] / [unsigned int]. *)
Definition u32 (x : Z) : Z := x mod 2 ^ 32.
(** [uint64_t] / [unsigned long] / [bfd_vma] / [valueT]. *)
Definition u64 (x : Z) : Z := x mod 2 ^ 64.
(** [int]. *)
Definition s32 (x : Z) : Z := (x + 2 ^ 31) mod 2 ^ 32 - 2 ^ 31.
(** [long] / [bfd_signed_vma] / [offsetT]. *)
Definition s64 (x : Z) : Z := (x + 2 ^ 63) mod 2 ^ 64 - 2 ^ 63.
(** [signed char], the host's [char]. *)
Definition s8 (x : Z) : Z := (x + 2 ^ 7) mod 2 ^ 8 - 2 ^ 7.

(** Sign extension of the low [n] bits, and the unsigned residue. *)
Definition sext (n x : Z) : Z := (x + 2 ^ (n - 1)) mod 2 ^ n - 2 ^ (n - 1).

(** ** Byte blocks *)

Definition is_byte (b : Z) : Prop := 0 <= b < 256.

Definition bytes_ok (m : list Z) : Prop := Forall is_byte m.

(** [m[i]] and [m[i] = v] for a C byte array: outside the array both fault. *)
Definition rd (m : list Z) (i : Z) : res Z :=
  if 0 <=? i then
    match m !! Z.to_nat i with Some b => Ret b | None => Fail Foob end
  else Fail Foob.

Definition wr (m : list Z) (i v : Z) : res (list Z) :=
  if (0 <=? i) && (i <? Z.of_nat (length m)) then
    Ret (<[Z.to_nat i := v]> m)
  else Fail Foob.

(** ** Lemmas on machine integers *)

Lemma u32_range (x : Z) : 0 <= u32 x < 2 ^ 32.
Proof. apply Z.mod_pos_bound. lia. Qed.

Lemma u64_range (x : Z) : 0 <= u64 x < 2 ^ 64.
Proof. apply Z.mod_pos_bound. lia. Qed.

Lemma s32_small (x : Z) : - 2 ^ 31 <= x < 2 ^ 31 -> s32 x = x.
Proof. intros Hx. unfold s32. rewrite Z.mod_small by lia. lia. Qed.

Lemma u32_small (x : Z) : 0 <= x < 2 ^ 32 -> u32 x = x.
Proof. apply Z.mod_small. Qed.

Lemma u64_small (x : Z) : 0 <= x < 2 ^ 64 -> u64 x = x.
Proof. apply Z.mod_small. Qed.

Lemma u32_land (x : Z) : u32 x = Z.land x 0xffffffff.
Proof. unfold u32. by rewrite <- Z.land_ones by lia. Qed.

Lemma u64_land (x : Z) : u64 x = Z.land x 0xffffffffffffffff.
Proof. unfold u64. by rewrite <- Z.land_ones by lia. Qed.

Lemma u32_u64 (x : Z) : u32 (u64 x) = u32 x.
Proof.
  unfold u32, u64. apply Z.mod_mod_divide. by exists (2 ^ 32).
Qed.

(** Equations and bounds of 32- and 64-bit wrapped arithmetic. *)
Ltac wrap64 := unfold u64, u32, s64, s32 in *; Z.to_euclidean_division_equations; lia.

Lemma u64_s64 (x : Z) : u64 (s64 x) = u64 x.
Proof. wrap64. Qed.

Lemma sext_spec (n x : Z) :
  0 < n -> - 2 ^ (n - 1) <= sext n x < 2 ^ (n - 1) /\ (sext n x) mod 2 ^ n = x mod 2 ^ n.
Proof.
  intros Hn. unfold sext.
  assert (Hp : 2 ^ n = 2 * 2 ^ (n - 1)).
  { rewrite <- Z.pow_succ_r by lia. f_equal. lia. }
  assert (0 < 2 ^ (n - 1)) by (apply Z.pow_pos_nonneg; lia).
  pose proof (Z.mod_pos_bound (x + 2 ^ (n - 1)) (2 ^ n) ltac:(lia)).
  split; [lia|].
  rewrite Zminus_mod_idemp_l. f_equal. lia.
Qed.

Lemma sext_unique (n x y : Z) :
  0 < n -> - 2 ^ (n - 1) <= y < 2 ^ (n - 1) -> x mod 2 ^ n = y mod 2 ^ n -> sext n x = y.
Proof.
  intros Hn Hy Hxy. unfold sext.
  assert (Hp : 2 ^ n = 2 * 2 ^ (n - 1)).
  { rewrite <- Z.pow_succ_r by lia. f_equal. lia. }
  rewrite <- Zplus_mod_idemp_l, Hxy, Zplus_mod_idemp_l.
  rewrite Z.mod_small; lia.
Qed.

(** ** Bit-level reasoning *)

Lemma testbit_u (k x i : Z) : 0 <= x < 2 ^ k -> k <= i -> Z.testbit x i = false.
Proof.
  intros [H0 H1] Hi. destruct (Z.ltb_spec i 0) as [Hn|Hn].
  - apply Z.testbit_neg_r. lia.
  - destruct (decide (x = 0)) as [->|Hx]; [apply Z.bits_0|].
    apply Z.bits_above_log2; [done|].
    apply Z.lt_le_trans with k; [|done]. apply Z.log2_lt_pow2; lia.
Qed.

Lemma testbit_range (k x : Z) :
  0 <= k -> (forall i, k <= i -> Z.testbit x i = false) -> 0 <= x < 2 ^ k.
Proof.
  intros Hk Hb.
  assert (x mod 2 ^ k = x) as <-; [|apply Z.mod_pos_bound; apply Z.pow_pos_nonneg; lia].
  apply Z.bits_inj'. intros i Hi. destruct (Z.ltb_spec i k).
  - by rewrite Z.mod_pow2_bits_low.
  - rewrite Z.mod_pow2_bits_high by lia. symmetry. by apply Hb.
Qed.

Lemma land_range_r (n x m : Z) : 0 <= n -> 0 <= m < 2 ^ n -> 0 <= Z.land x m < 2 ^ n.
Proof.
  intros Hn Hm. apply testbit_range; [done|]. intros i Hi.
  by rewrite Z.land_spec, (testbit_u n m), andb_false_r.
Qed.

Lemma land_range_l (n x m : Z) : 0 <= n -> 0 <= m < 2 ^ n -> 0 <= Z.land m x < 2 ^ n.
Proof. rewrite Z.land_comm. apply land_range_r. Qed.

Lemma lor_range (n x y : Z) :
  0 <= n -> 0 <= x < 2 ^ n -> 0 <= y < 2 ^ n -> 0 <= Z.lor x y < 2 ^ n.
Proof.
  intros Hn Hx Hy. apply testbit_range; [done|]. intros i Hi.
  by rewrite Z.lor_spec, (testbit_u n x), (testbit_u n y).
Qed.

Lemma shiftl_range (n x s : Z) :
  0 <= s <= n -> 0 <= x < 2 ^ (n - s) -> 0 <= Z.shiftl x s < 2 ^ n.
Proof.
  intros Hs Hx. apply testbit_range; [lia|]. intros i Hi.
  rewrite Z.shiftl_spec by lia. apply (testbit_u (n - s)); [done|lia].
Qed.

Lemma shiftr_range (n x s : Z) :
  0 <= n -> 0 <= s -> 0 <= x < 2 ^ n -> 0 <= Z.shiftr x s < 2 ^ n.
Proof.
  intros Hn Hs Hx. apply testbit_range; [done|]. intros i Hi.
  rewrite Z.shiftr_spec by lia. apply (testbit_u n); [done|lia].
Qed.

Ltac is_poscst p :=
  lazymatch p with xH => idtac | xO ?q => is_poscst q | xI ?q => is_poscst q end.
Ltac is_Zcst t :=
  lazymatch t with Z0 => idtac | Zpos ?p => is_poscst p | Zneg ?p => is_poscst p end.

(** Splits a conjunction of two-sided bounds into its bounds. *)
Ltac split_ranges := repeat match goal with |- (_ <= _ < _) /\ _ => split end.

(** A two-sided bound between closed terms. *)
Ltac cst_range := split; vm_compute; congruence.

(** [urange] proves [0 <= e < 2 ^ n] for [e] built from masks and shifts. *)
Ltac urange :=
  lazymatch goal with
  | |- 0 <= u32 _ < _ => apply u32_range
  | |- 0 <= u64 _ < _ => apply u64_range
  | |- 0 <= Z.lor _ _ < _ => apply lor_range; [lia|urange|urange]
  | |- 0 <= Z.land ?a ?m < _ =>
      first [ is_Zcst m; apply land_range_r; lia
            | is_Zcst a; apply land_range_l; lia
            | apply land_range_l; [lia|urange]
            | apply land_range_r; [lia|urange] ]
  | |- 0 <= Z.shiftl _ ?s < 2 ^ ?n =>
      apply shiftl_range; [lia|];
      let k := eval vm_compute in (n - s) in change (n - s) with k; urange
  | |- 0 <= Z.shiftr _ _ < _ => apply shiftr_range; [lia|lia|urange]
  | |- _ => lia
  end.

(** ** Reading and writing blocks *)

Lemma rd_ret (m : list Z) (i : Z) :
  0 <= i < Z.of_nat (length m) -> exists b, rd m i = Ret b /\ m !! Z.to_nat i = Some b.
Proof.
  intros [H0 H1]. unfold rd. rewrite (proj2 (Z.leb_le 0 i) H0).
  destruct (lookup_lt_is_Some_2 m (Z.to_nat i)) as [b Hb]; [lia|]. rewrite Hb. eauto.
Qed.

Lemma rd_oob (m : list Z) (i : Z) : ~ (0 <= i < Z.of_nat (length m)) -> rd m i = Fail Foob.
Proof.
  intros H. unfold rd. destruct (Z.leb_spec 0 i); [|done].
  rewrite lookup_ge_None_2 by lia. done.
Qed.

Lemma rd_byte (m : list Z) (i b : Z) : bytes_ok m -> rd m i = Ret b -> is_byte b.
Proof.
  unfold rd, bytes_ok. intros Hm. destruct (0 <=? i); [|done].
  destruct (m !! Z.to_nat i) eqn:Hl; [|done]. intros [= <-].
  by eapply Forall_lookup_1.
Qed.

Lemma wr_ret (m : list Z) (i v : Z) :
  0 <= i < Z.of_nat (length m) -> wr m i v = Ret (<[Z.to_nat i := v]> m).
Proof.
  intros [H0 H1]. unfold wr.
  by rewrite (proj2 (Z.leb_le 0 i) H0), (proj2 (Z.ltb_lt _ _) H1).
Qed.

Lemma wr_oob (m : list Z) (i v : Z) :
  ~ (0 <= i < Z.of_nat (length m)) -> wr m i v = Fail Foob.
Proof.
  intros H. unfold wr. destruct (Z.leb_spec 0 i), (Z.ltb_spec i (Z.of_nat (length m))); try done. lia.
Qed.

Lemma rd_insert (m : list Z) (i j v : Z) :
  0 <= i < Z.of_nat (length m) ->
  rd (<[Z.to_nat i := v]> m) j = if i =? j then Ret v else rd m j.
Proof.
  intros Hi. unfold rd. destruct (Z.eqb_spec i j) as [->|Hne].
  - rewrite (proj2 (Z.leb_le 0 j)) by lia. rewrite list_lookup_insert_eq by lia. done.
  - destruct (Z.leb_spec 0 j); [|done]. rewrite list_lookup_insert_ne by lia. done.
Qed.

Lemma bytes_ok_insert (m : list Z) (i : nat) (v : Z) :
  bytes_ok m -> is_byte v -> bytes_ok (<[i := v]> m).
Proof. apply Forall_insert. Qed.

(** Two blocks of one length that agree outside [\[p, p + n)]. *)
Definition same_outside (m m' : list Z) (p n : Z) : Prop :=
  length m' = length m /\ forall j, ~ (p <= j < p + n) -> rd m' j = rd m j.

Lemma same_outside_refl (m : list Z) (p n : Z) : same_outside m m p n.
Proof. by split. Qed.

Lemma same_outside_trans (m1 m2 m3 : list Z) (p n : Z) :
  same_outside m1 m2 p n -> same_outside m2 m3 p n -> same_outside m1 m3 p n.
Proof. intros [? H1] [? H2]. split; [congruence|]. intros j Hj. rewrite H2, H1; auto. Qed.

Lemma same_outside_insert (m : list Z) (i v p n : Z) :
  0 <= i < Z.of_nat (length m) -> p <= i < p + n ->
  same_outside m (<[Z.to_nat i := v]> m) p n.
Proof.
  intros Hi Hp. split; [by rewrite length_insert|]. intros j Hj.
  rewrite rd_insert by done. destruct (Z.eqb_spec i j); [lia|done].
Qed.

Lemma land_byte (x : Z) : is_byte (Z.land x 0xff).
Proof. unfold is_byte. change 256 with (2 ^ 8). apply land_range_r; lia. Qed.

(** ** Tables of lists *)

Lemma concat_insert_perm {A : Type} (tb : list (list A)) (i : nat) (l l' : list A) :
  tb !! i = Some l -> Permutation (l ++ concat (<[i := l']> tb)) (l' ++ concat tb).
Proof.
  revert i. induction tb as [|x tb IH]; intros [|i] H; cbn in *; simplify_eq.
  - by rewrite Permutation_app_swap_app.
  - rewrite Permutation_app_swap_app, (Permutation_app_swap_app l' x).
    by apply Permutation_app_head, IH.
Qed.

Lemma concat_insert_same {A : Type} (tb : list (list A)) (i : nat) (l l' : list A) :
  tb !! i = Some l -> Permutation l' l -> Permutation (concat (<[i := l']> tb)) (concat tb).
Proof.
  intros H HP. apply (Permutation_app_inv_l l). rewrite (concat_insert_perm _ _ _ _ H).
  by apply Permutation_app_tail.
Qed.

Lemma elem_of_concat {A : Type} (tb : list (list A)) (x : A) :
  x ∈ concat tb <-> exists i l, tb !! i = Some l /\ x ∈ l.
Proof.
  split.
  - induction tb as [|l tb IH]; cbn; [set_solver|]. intros [H|H]%elem_of_app.
    + by exists 0%nat, l.
    + destruct (IH H) as (i & l' & ? & ?). by exists (S i), l'.
  - intros (i & l & Hl & Hx). revert i Hl. induction tb as [|l' tb IH]; intros [|i] Hl; cbn in *;
      simplify_eq; apply elem_of_app; [by left|right; by eapply IH].
Qed.

Lemma nodup_fmap_inj {A B : Type} (f : A -> B) (l : list A) (x y : A) :
  NoDup (f <$> l) -> x ∈ l -> y ∈ l -> f x = f y -> x = y.
Proof.
  intros Hnd (i & Hi)%list_elem_of_lookup (j & Hj)%list_elem_of_lookup Heq.
  assert (i = j) as ->; [|congruence].
  apply (NoDup_lookup (f <$> l) i j (f x)); [done|..]; rewrite list_lookup_fmap.
  - by rewrite Hi.
  - by rewrite Hj, Heq.
Qed.

(** Updating an element that is there. *)
Lemma list_alter_at {A : Type} (f : A -> A) (i : nat) (l : list A) (x : A) :
  l !! i = Some x -> alter f i l = <[i := f x]> l.
Proof.
  intros Hx. apply list_eq. intros j. destruct (decide (i = j)) as [<-|Hne].
  - rewrite list_lookup_alter_eq, Hx, list_lookup_insert_eq by by eapply lookup_lt_Some. done.
  - by rewrite list_lookup_alter_ne, list_lookup_insert_ne.
Qed.
