(* ===== verification/Bits.v ===== *)
(** * Equations between instruction words, decided bit by bit

    Every word the port builds is an expression in [&], [|], [^], [~], [<<] and
    [>>] over a few variables and constant masks.  [bit_check] decides an
    equation between two such expressions by computing, for each bit, which
    variable bits it is the disjunction of; [bit_check_sound] turns the
    computation into a proof, and the tactic [bits] applies it to a goal. *)
From S2P Require Import Prelude.
#[local] Open Scope Z_scope.

Inductive bexp : Type :=
| BVar (v : nat)
| BCst (c : Z)
| BAnd (a b : bexp)
| BOr (a b : bexp)
| BXor (a b : bexp)
| BNot (a : bexp)
| BShl (a : bexp) (n : Z)
| BShr (a : bexp) (n : Z).

(** A variable's value and, when it is known to be an unsigned [k]-bit number,
    [Some k]. *)
Definition benv : Type := list (Z * option Z).

Definition bval (E : benv) (v : nat) : Z := (nth v E (0, None)).1.
Definition widths (E : benv) : list (option Z) := map snd E.

Fixpoint beval (E : benv) (e : bexp) : Z :=
  match e with
  | BVar v => bval E v
  | BCst c => c
  | BAnd a b => Z.land (beval E a) (beval E b)
  | BOr a b => Z.lor (beval E a) (beval E b)
  | BXor a b => Z.lxor (beval E a) (beval E b)
  | BNot a => Z.lnot (beval E a)
  | BShl a n => Z.shiftl (beval E a) n
  | BShr a n => Z.shiftr (beval E a) n
  end.

Definition benv_ok (E : benv) : Prop :=
  Forall (fun p => match p.2 with Some k => 0 <= p.1 < 2 ^ k | None => True end) E.

(** The value of one bit: a constant, or the disjunction of variable bits. *)
Inductive bit : Type :=
| KTrue
| KAtoms (l : list (nat * Z)).

Definition kval (E : benv) (k : bit) : bool :=
  match k with
  | KTrue => true
  | KAtoms l => existsb (fun p => Z.testbit (bval E p.1) p.2) l
  end.

Definition atom_eqb (p q : nat * Z) : bool := Nat.eqb p.1 q.1 && Z.eqb p.2 q.2.
Definition incl_b (l1 l2 : list (nat * Z)) : bool :=
  forallb (fun p => existsb (atom_eqb p) l2) l1.

Definition bit_eqb (a b : bit) : bool :=
  match a, b with
  | KTrue, KTrue => true
  | KAtoms l1, KAtoms l2 => incl_b l1 l2 && incl_b l2 l1
  | _, _ => false
  end.

Definition kand (a b : option bit) : option bit :=
  match a, b with
  | Some (KAtoms []), _ | _, Some (KAtoms []) => Some (KAtoms [])
  | Some KTrue, k | k, Some KTrue => k
  | Some x, Some y => if bit_eqb x y then Some x else None
  | _, _ => None
  end.

Definition kor (a b : option bit) : option bit :=
  match a, b with
  | Some KTrue, _ | _, Some KTrue => Some KTrue
  | Some (KAtoms l1), Some (KAtoms l2) => Some (KAtoms (l1 ++ l2))
  | _, _ => None
  end.

Definition kxor (a b : option bit) : option bit :=
  match a, b with
  | Some (KAtoms []), k | k, Some (KAtoms []) => k
  | Some x, Some y => if bit_eqb x y then Some (KAtoms []) else None
  | _, _ => None
  end.

Definition knot (a : option bit) : option bit :=
  match a with
  | Some (KAtoms []) => Some KTrue
  | Some KTrue => Some (KAtoms [])
  | _ => None
  end.

(** Bit [i] of [e], for [0 <= i]. *)
Fixpoint bnorm (W : list (option Z)) (e : bexp) (i : Z) : option bit :=
  match e with
  | BVar v =>
      match nth v W None with
      | Some k => Some (KAtoms (if k <=? i then [] else [(v, i)]))
      | None => Some (KAtoms [(v, i)])
      end
  | BCst c => Some (if Z.testbit c i then KTrue else KAtoms [])
  | BAnd a b => kand (bnorm W a i) (bnorm W b i)
  | BOr a b => kor (bnorm W a i) (bnorm W b i)
  | BXor a b => kxor (bnorm W a i) (bnorm W b i)
  | BNot a => knot (bnorm W a i)
  | BShl a n => if n <=? i then bnorm W a (i - n) else Some (KAtoms [])
  | BShr a n => if 0 <=? n then bnorm W a (i + n) else None
  end.

(** A bound above which every bit of [e] is 0. *)
Fixpoint btop (W : list (option Z)) (e : bexp) : option Z :=
  match e with
  | BVar v => nth v W None
  | BCst c => if 0 <=? c then Some (Z.log2 c + 1) else None
  | BAnd a b =>
      match btop W a, btop W b with
      | Some x, Some y => Some (Z.min x y)
      | Some x, None | None, Some x => Some x
      | None, None => None
      end
  | BOr a b | BXor a b =>
      match btop W a, btop W b with
      | Some x, Some y => Some (Z.max x y)
      | _, _ => None
      end
  | BNot _ => None
  | BShl a n => if 0 <=? n then (fun t => t + n) <$> btop W a else None
  | BShr a n => if 0 <=? n then btop W a else None
  end.

Definition below (t : option Z) (n : Z) : bool :=
  match t with Some x => x <=? n | None => false end.

Definition bit_check (n : nat) (W : list (option Z)) (e1 e2 : bexp) : bool :=
  below (btop W e1) (Z.of_nat n) && below (btop W e2) (Z.of_nat n) &&
  forallb (fun i =>
    match bnorm W e1 i, bnorm W e2 i with
    | Some x, Some y => bit_eqb x y
    | _, _ => false
    end) (seqZ 0 (Z.of_nat n)).

(** ** Soundness *)

Lemma atom_eqb_eq p q : atom_eqb p q = true -> p = q.
Proof.
  destruct p, q. unfold atom_eqb. cbn. intros [H1%Nat.eqb_eq H2%Z.eqb_eq]%andb_prop. congruence.
Qed.

Lemma incl_b_val E l1 l2 :
  incl_b l1 l2 = true -> kval E (KAtoms l1) = true -> kval E (KAtoms l2) = true.
Proof.
  unfold incl_b. rewrite forallb_forall. intros Hin. cbn.
  rewrite !existsb_exists. intros (p & Hp & Hv).
  apply Hin in Hp. apply existsb_exists in Hp as (q & Hq & Heq%atom_eqb_eq). subst. eauto.
Qed.

Lemma bit_eqb_val E a b : bit_eqb a b = true -> kval E a = kval E b.
Proof.
  destruct a as [|l1], b as [|l2]; try done. intros [H1 H2]%andb_prop.
  apply eq_bool_prop_intro.
  split; intros H%Is_true_true; apply Is_true_true; eauto using incl_b_val.
Qed.

Lemma kand_val E a b x y k :
  (forall u, a = Some u -> x = kval E u) -> (forall u, b = Some u -> y = kval E u) ->
  kand a b = Some k -> x && y = kval E k.
Proof.
  intros Ha Hb. unfold kand.
  destruct a as [[|[|p l]]|], b as [[|[|q m]]|]; intros; simplify_eq;
    repeat (case_match; simplify_eq);
    rewrite ?(Ha _ eq_refl), ?(Hb _ eq_refl); cbn [kval existsb];
    rewrite ?andb_false_r, ?andb_true_r; try done.
  match goal with H : bit_eqb _ _ = true |- _ => apply (bit_eqb_val E) in H; cbn in H; rewrite <- H end.
  by rewrite andb_diag.
Qed.

Lemma kor_val E a b x y k :
  (forall u, a = Some u -> x = kval E u) -> (forall u, b = Some u -> y = kval E u) ->
  kor a b = Some k -> x || y = kval E k.
Proof.
  intros Ha Hb. unfold kor.
  destruct a as [[|l]|], b as [[|m]|]; intros; simplify_eq;
    rewrite ?(Ha _ eq_refl), ?(Hb _ eq_refl); cbn [kval];
    rewrite ?orb_true_r, ?existsb_app; try done.
Qed.

Lemma kxor_val E a b x y k :
  (forall u, a = Some u -> x = kval E u) -> (forall u, b = Some u -> y = kval E u) ->
  kxor a b = Some k -> xorb x y = kval E k.
Proof.
  intros Ha Hb. unfold kxor.
  destruct a as [[|[|p l]]|], b as [[|[|q m]]|]; intros; simplify_eq;
    repeat (case_match; simplify_eq);
    rewrite ?(Ha _ eq_refl), ?(Hb _ eq_refl); cbn [kval existsb];
    rewrite ?xorb_false_r, ?xorb_false_l; try done.
  match goal with H : bit_eqb _ _ = true |- _ => apply (bit_eqb_val E) in H; cbn in H; rewrite <- H end.
  by rewrite xorb_nilpotent.
Qed.

Lemma knot_val E a x k :
  (forall u, a = Some u -> x = kval E u) -> knot a = Some k -> negb x = kval E k.
Proof.
  intros Ha. unfold knot.
  destruct a as [[|[|p l]]|]; intros; simplify_eq; by rewrite (Ha _ eq_refl).
Qed.

Lemma width_ok E v k : benv_ok E -> nth v (widths E) None = Some k -> 0 <= bval E v < 2 ^ k.
Proof.
  unfold benv_ok, widths, bval. change None with (snd (0, @None Z)) at 1.
  rewrite map_nth, Forall_forall. intros HE Hk.
  destruct (nth_in_or_default v E (0, None)) as [Hin|Hd]; [|by rewrite Hd in Hk].
  apply list_elem_of_In in Hin. apply HE in Hin. by rewrite Hk in Hin.
Qed.

Lemma bnorm_val E e : benv_ok E -> forall i k,
  0 <= i -> bnorm (widths E) e i = Some k -> Z.testbit (beval E e) i = kval E k.
Proof.
  intros HE. induction e as [v|c|a IHa b IHb|a IHa b IHb|a IHa b IHb|a IHa|a IHa n|a IHa n];
    cbn [bnorm beval]; intros i k Hi Hk.
  - destruct (nth v (widths E) None) as [w|] eqn:Hw; simplify_eq; cbn; [|by rewrite orb_false_r].
    apply width_ok in Hw; [|done].
    destruct (Z.leb_spec w i); cbn; [by apply (testbit_u w)|by rewrite orb_false_r].
  - simplify_eq. by destruct (Z.testbit c i).
  - rewrite Z.land_spec. eapply kand_val; eauto.
  - rewrite Z.lor_spec. eapply kor_val; eauto.
  - rewrite Z.lxor_spec. eapply kxor_val; eauto.
  - rewrite Z.lnot_spec by done. eapply knot_val; eauto.
  - rewrite Z.shiftl_spec by done. destruct (Z.leb_spec n i); [apply IHa; [lia|done]|].
    simplify_eq. apply Z.testbit_neg_r. lia.
  - destruct (Z.leb_spec 0 n); [|done]. rewrite Z.shiftr_spec by done. apply IHa; [lia|done].
Qed.

Lemma btop_val E e : benv_ok E -> forall t i,
  btop (widths E) e = Some t -> t <= i -> 0 <= i -> Z.testbit (beval E e) i = false.
Proof.
  intros HE. induction e as [v|c|a IHa b IHb|a IHa b IHb|a IHa b IHb|a IHa|a IHa n|a IHa n];
    cbn [btop beval]; intros t i Ht Hi H0.
  - apply (testbit_u t); [by apply width_ok|done].
  - destruct (Z.leb_spec 0 c); simplify_eq. apply Z.bits_above_log2; lia.
  - rewrite Z.land_spec. apply andb_false_iff.
    destruct (btop (widths E) a), (btop (widths E) b); simplify_eq; eauto.
    destruct (Z.min_spec z z0) as [[? Hm]|[? Hm]]; rewrite Hm in Hi; eauto.
  - rewrite Z.lor_spec. destruct (btop (widths E) a), (btop (widths E) b); simplify_eq.
    rewrite (IHa z i), (IHb z0 i); auto; lia.
  - rewrite Z.lxor_spec. destruct (btop (widths E) a), (btop (widths E) b); simplify_eq.
    rewrite (IHa z i), (IHb z0 i); auto; lia.
  - done.
  - destruct (Z.leb_spec 0 n); [|done].
    destruct (btop (widths E) a) as [u|]; simplify_eq/=. rewrite Z.shiftl_spec by done.
    destruct (Z.ltb_spec i n); [apply Z.testbit_neg_r; lia|apply (IHa u); auto; lia].
  - destruct (Z.leb_spec 0 n); [|done]. rewrite Z.shiftr_spec by done. apply (IHa t); auto; lia.
Qed.

Lemma bit_check_sound (n : nat) (E : benv) (e1 e2 : bexp) :
  benv_ok E -> bit_check n (widths E) e1 e2 = true -> beval E e1 = beval E e2.
Proof.
  intros HE Hc. unfold bit_check in Hc. apply andb_prop in Hc as [[H1 H2]%andb_prop Hf].
  rewrite forallb_forall in Hf. apply Z.bits_inj'. intros i Hi.
  destruct (Z.ltb_spec i (Z.of_nat n)) as [Hlt|Hge].
  - specialize (Hf i). rewrite <- list_elem_of_In, elem_of_seqZ in Hf. specialize (Hf ltac:(lia)).
    repeat case_match; try done.
    erewrite !bnorm_val by eauto. by apply bit_eqb_val.
  - unfold below in *. repeat case_match; try done.
    erewrite !btop_val; eauto; lia.
Qed.

(** ** The tactic *)

Ltac in_env x E :=
  lazymatch E with
  | nil => constr:(false)
  | (x, _) :: _ => constr:(true)
  | _ :: ?E' => in_env x E'
  end.

(** The width a hypothesis [0 <= x < c] gives to [x]. *)
Ltac width_of x :=
  match goal with
  | H : 0 <= x < ?c |- _ => let k := eval vm_compute in (Z.log2_up c) in constr:(Some k)
  | _ => constr:(@None Z)
  end.

Ltac add_env x E :=
  lazymatch in_env x E with
  | true => E
  | false => let w := width_of x in constr:((x, w) :: E)
  end.

Ltac collect e E :=
  lazymatch e with
  | Z.land ?a ?b => let E' := collect a E in collect b E'
  | Z.lor ?a ?b => let E' := collect a E in collect b E'
  | Z.lxor ?a ?b => let E' := collect a E in collect b E'
  | Z.lnot ?a => collect a E
  | Z.shiftl ?a _ => collect a E
  | Z.shiftr ?a _ => collect a E
  | Z0 => E
  | Zpos _ => E
  | Zneg _ => E
  | ?x => add_env x E
  end.

Ltac index_of x E :=
  lazymatch E with
  | (x, _) :: _ => constr:(O)
  | _ :: ?E' => let n := index_of x E' in constr:(S n)
  end.

Ltac reify e E :=
  lazymatch e with
  | Z.land ?a ?b => let x := reify a E in let y := reify b E in constr:(BAnd x y)
  | Z.lor ?a ?b => let x := reify a E in let y := reify b E in constr:(BOr x y)
  | Z.lxor ?a ?b => let x := reify a E in let y := reify b E in constr:(BXor x y)
  | Z.lnot ?a => let x := reify a E in constr:(BNot x)
  | Z.shiftl ?a ?n => let x := reify a E in constr:(BShl x n)
  | Z.shiftr ?a ?n => let x := reify a E in constr:(BShr x n)
  | Z0 => constr:(BCst e)
  | Zpos _ => constr:(BCst e)
  | Zneg _ => constr:(BCst e)
  | ?x => let n := index_of x E in constr:(BVar n)
  end.

(** [x mod 2 ^ k] as a mask. *)
Ltac mod_to_land :=
  repeat match goal with
  | |- context [?x mod 2 ^ ?n] =>
      rewrite <- (Z.land_ones x n) by lia;
      let c := eval vm_compute in (Z.ones n) in change (Z.ones n) with c
  end.

(** [bits]: an equation between two words of at most 64 bits. *)
Ltac bits :=
  rewrite ?u32_land, ?u64_land; mod_to_land;
  lazymatch goal with
  | |- ?a = ?b =>
      let E0 := collect a (@nil (Z * option Z)) in
      let E := collect b E0 in
      let x := reify a E in
      let y := reify b E in
      change (beval E x = beval E y);
      apply (bit_check_sound 64);
      [ repeat (apply Forall_cons; split); [..|apply Forall_nil; exact I];
        cbn [fst snd]; first [exact I | lia]
      | vm_compute; reflexivity ]
  end.
