(* ===== verification/FusionIsa.v ===== *)
(** * The Fusion-Core instruction word

    The macros of include/opcode/fusion.h (field masks, field extraction,
    opcode tests) and of include/opcode/fusion-opc.h (field generation and
    instruction construction), one definition per macro, and the theorems that
    every field written by a [MAKE_*] macro is the field its [GET_*] macro
    reads.  A macro is a function on [Z]: C's [&], [|], [<<], [>>] are [Z.land],
    [Z.lor], [Z.shiftl], [Z.shiftr] on two's complement integers; a macro whose
    value is stored in an [insn_t] is taken modulo [2^32] where it is stored. *)
From S2P Require Import Prelude Bits.
#[local] Open Scope Z_scope.

(** ** Operand kinds, table sizes *)
Definition USE_NONE : Z := 0.
Definition USE_RDAB : Z := 1.
Definition USE_RDAI : Z := 2.
Definition USE_RDI : Z := 3.
Definition USE_RABI : Z := 4.
Definition USE_RAI : Z := 5.
Definition USE_I : Z := 6.
Definition USE_RDA : Z := 7.
Definition USE_RAB : Z := 8.
Definition USE_RABI_O : Z := 9.
Definition USE_RDAI_O : Z := 10.
Definition USE_RAI_O : Z := 11.
Definition MAX_USE_OP : Z := 12.

Definition NUM_INSN_R : Z := 17.
Definition NUM_INSN_I : Z := 16.
Definition NUM_INSN_L : Z := 4.
Definition NUM_INSN_LI : Z := 32.
Definition NUM_INSN_S : Z := 4.
Definition NUM_INSN_J : Z := 2.
Definition NUM_INSN_JL : Z := 2.
Definition NUM_INSN_B : Z := 4.
Definition NUM_INSN_SYS : Z := 256.
Definition NUM_INSN : Z :=
  NUM_INSN_R + NUM_INSN_I + NUM_INSN_L + NUM_INSN_LI + NUM_INSN_S + NUM_INSN_J
  + NUM_INSN_JL + NUM_INSN_SYS.

(** ** Field masks and shift amounts *)
Definition MASK_RD : Z := 0x03e00000.
Definition MASK_RSA : Z := 0x001f0000.
Definition MASK_RSB : Z := 0x0000f800.
Definition MASK_SHFT : Z := 0x000007f0.
Definition MASK_ALUOP : Z := 0x0000000f.
Definition MASK_IMM_I : Z := 0x0000fff0.
Definition MASK_IMM_L : Z := 0x00003fff.
Definition MASK_FUNCT_L : Z := 0x0000c000.
Definition MASK_DSEL_LI : Z := 0x001e0000.
Definition MASK_IMM_LI : Z := 0x0000ffff.
Definition MASK_FUNCT_S : Z := 0x0f000000.
Definition MASK_IMM_S : Z := 0x00e007ff.
Definition MASK_IMM_HI_S : Z := 0x00e00000.
Definition MASK_IMM_LO_S : Z := 0x000007ff.
Definition MASK_IMM_J : Z := 0x03e0ffff.
Definition MASK_IMM_HI_J : Z := 0x03e00000.
Definition MASK_IMM_LO_J : Z := 0x0000ffff.
Definition MASK_IMM_B : Z := 0x03e007fc.
Definition MASK_IMM_HI_B : Z := 0x03e00000.
Definition MASK_IMM_LO_B : Z := 0x000007fc.
Definition MASK_FUNCT_B : Z := 0x00000003.
Definition MASK_FUNCT_SYS : Z := 0x0000ff00.
Definition MASK_IMM_SYS : Z := 0x000000ff.
Definition SPLIT_S_IMM_LO : Z := 0x000007ff.
Definition SPLIT_S_IMM_HI : Z := 0x00003800.
Definition SPLIT_J_IMM_LO : Z := 0x0000ffff.
Definition SPLIT_J_IMM_HI : Z := 0x001f0000.
Definition SPLIT_B_IMM_LO : Z := 0x000001ff.
Definition SPLIT_B_IMM_HI : Z := 0x00003e00.
Definition SHFT_IMM_HI_S : Z := 10.
Definition SHFT_IMM_HI_J : Z := 5.
Definition SHFT_IMM_HI_B : Z := 12.
Definition SHFT_IMM_LO_B : Z := 2.

(** ** Field extraction *)
Definition GET_RD (i : Z) : Z := Z.shiftr (Z.land MASK_RD i) 21.
Definition GET_RSA (i : Z) : Z := Z.shiftr (Z.land MASK_RSA i) 16.
Definition GET_RSB (i : Z) : Z := Z.shiftr (Z.land MASK_RSB i) 11.
Definition GET_SHFT (i : Z) : Z := Z.shiftr (Z.land MASK_SHFT i) 4.
Definition GET_ALUOP (i : Z) : Z := Z.land MASK_ALUOP i.
Definition GET_IMM_I (i : Z) : Z := Z.shiftr (Z.land MASK_IMM_I i) 4.
Definition GET_IMM_L (i : Z) : Z := Z.land MASK_IMM_L i.
Definition GET_FUNCT_L (i : Z) : Z := Z.shiftr (Z.land MASK_FUNCT_L i) 14.
Definition GET_DSEL_LI (i : Z) : Z := Z.shiftr (Z.land MASK_DSEL_LI i) 17.
Definition GET_IMM_LI (i : Z) : Z := Z.land MASK_IMM_LI i.
Definition GET_FUNCT_S (i : Z) : Z := Z.land (Z.shiftr (Z.land MASK_FUNCT_S i) 24) 0x3.
Definition GET_IMM_S (i : Z) : Z :=
  Z.lor (Z.land MASK_IMM_LO_S i) (Z.shiftr (Z.land MASK_IMM_HI_S i) 10).
Definition GET_IMM_J (i : Z) : Z :=
  Z.lor (Z.land MASK_IMM_LO_J i) (Z.shiftr (Z.land MASK_IMM_HI_J i) SHFT_IMM_HI_J).
Definition GET_IMM_B (i : Z) : Z :=
  Z.lor (Z.shiftr (Z.land MASK_IMM_LO_B i) SHFT_IMM_LO_B)
        (Z.shiftr (Z.land MASK_IMM_HI_B i) SHFT_IMM_HI_B).
Definition GET_FUNCT_B (i : Z) : Z := Z.land MASK_FUNCT_B i.
Definition GET_FUNCT_SYS (i : Z) : Z := Z.shiftr (Z.land MASK_FUNCT_SYS i) 8.
Definition GET_IMM_SYS (i : Z) : Z := Z.land MASK_IMM_SYS i.

(** ** Opcodes *)
Definition OPC_INT : Z := 0x13.
Definition OPC_IMM : Z := 0x16.
Definition OPC_LD : Z := 0x1e.
Definition OPC_LI : Z := 0x10.
Definition OPC_ST : Z := 0x1d.
Definition OPC_JMP : Z := 0x0c.
Definition OPC_JLNK : Z := 0x04.
Definition OPC_BRANCH : Z := 0x0d.
Definition OPC_SYS : Z := 0x20.

Definition MASK_OPC : Z := 0xfc000000.
Definition MASK_MSB_OPC : Z := 0x11000000.
Definition MASK_NO_IMM : Z := 0x00000000.
Definition MASK_R_OPC : Z := OPC_INT.
Definition MASK_LI_OPC : Z := OPC_LI.
Definition MASK_IMM_OPC : Z := OPC_IMM.
Definition MASK_B_OPC : Z := OPC_BRANCH.
Definition MASK_JMP_OPC : Z := OPC_JMP.
Definition MASK_JLNK_OPC : Z := OPC_JLNK.
Definition MASK_RMEM_OPC : Z := OPC_LD.
Definition MASK_WMEM_OPC : Z := OPC_ST.
Definition MASK_SYS_OPC : Z := OPC_SYS.
Definition GET_OPC (i : Z) : Z := Z.shiftr (Z.land MASK_OPC i) 26.

Definition IS_CP_INSN (i : Z) : bool := GET_OPC i =? MASK_MSB_OPC.
Definition IS_R_INSN (i : Z) : bool := GET_OPC i =? MASK_R_OPC.
Definition IS_LI_INSN (i : Z) : bool := GET_OPC i =? MASK_LI_OPC.
Definition IS_IMM_INSN (i : Z) : bool := GET_OPC i =? MASK_IMM_OPC.
Definition IS_B_INSN (i : Z) : bool := GET_OPC i =? MASK_B_OPC.
Definition IS_JMP_INSN (i : Z) : bool := GET_OPC i =? MASK_JMP_OPC.
Definition IS_JLNK_INSN (i : Z) : bool := GET_OPC i =? MASK_JLNK_OPC.
Definition IS_RMEM_INSN (i : Z) : bool := GET_OPC i =? MASK_RMEM_OPC.
Definition IS_WMEM_INSN (i : Z) : bool := GET_OPC i =? MASK_WMEM_OPC.
Definition IS_SYS_INSN (i : Z) : bool := GET_OPC i =? MASK_SYS_OPC.

Definition IS_R_TYPE (i : Z) : bool := IS_R_INSN i.
Definition IS_I_TYPE (i : Z) : bool := IS_IMM_INSN i.
Definition IS_L_TYPE (i : Z) : bool := IS_RMEM_INSN i.
Definition IS_LI_TYPE (i : Z) : bool := IS_LI_INSN i.
Definition IS_S_TYPE (i : Z) : bool := IS_WMEM_INSN i.
Definition IS_J_TYPE (i : Z) : bool := IS_JMP_INSN i.
Definition IS_JL_TYPE (i : Z) : bool := IS_JLNK_INSN i.
Definition IS_B_TYPE (i : Z) : bool := IS_B_INSN i.
Definition IS_SYS_TYPE (i : Z) : bool := IS_SYS_INSN i.

(** ** Formats, coprocessor numbers, ABI register numbers *)
Definition FRMT_R : Z := 0.
Definition FRMT_I : Z := 1.
Definition FRMT_L : Z := 2.
Definition FRMT_LI : Z := 3.
Definition FRMT_S : Z := 4.
Definition FRMT_J : Z := 5.
Definition FRMT_B : Z := 6.
Definition FRMT_SYS : Z := 7.
Definition FRMT_MAX : Z := 9.
Definition CPID_MAIN : Z := 0.
Definition CPID_MACRO : Z := 1.
Definition CPID_MAX : Z := 2.

Definition X_RA : Z := 4.
Definition X_SP : Z := 1.
Definition X_GP : Z := 3.
Definition X_T0 : Z := 22.
Definition X_T1 : Z := 23.
Definition X_T2 : Z := 24.
Definition X_T3 : Z := 25.
Definition X_T4 : Z := 26.
Definition X_T5 : Z := 27.
Definition X_T6 : Z := 28.
Definition X_T7 : Z := 29.
Definition NGPR : Z := 32.
Definition NFPR : Z := 32.

(** Macro instruction numbers (an anonymous [enum]). *)
Definition M_LA : Z := 0.
Definition M_CALL : Z := 1.
Definition M_RET : Z := 2.
Definition M_MAX : Z := 3.

(** ** Opcode table entries *)

(** [name = None] is the null name that ends [fusion_insn_all]. *)
Record fusion_opc_info_t : Type := mk_opc {
  name : option string;
  index : Z;
  args : Z;
  frmt : Z;
  cpid : Z;
  imm_mask : Z;
  opc : Z
}.

#[global] Instance fusion_opc_info_t_eq_dec : EqDecision fusion_opc_info_t.
Proof. solve_decision. Defined.

(** ** Field generation (fusion-opc.h) *)
Definition GET_SPLIT_S_IMM_HI (IMM : Z) : Z := Z.shiftl (Z.land IMM SPLIT_S_IMM_HI) SHFT_IMM_HI_S.
Definition GET_SPLIT_S_IMM_LO (IMM : Z) : Z := Z.land IMM SPLIT_S_IMM_LO.
Definition GET_SPLIT_J_IMM_HI (IMM : Z) : Z := Z.shiftl (Z.land IMM SPLIT_J_IMM_HI) SHFT_IMM_HI_J.
Definition GET_SPLIT_J_IMM_LO (IMM : Z) : Z := Z.land IMM SPLIT_J_IMM_LO.
Definition GET_SPLIT_B_IMM_HI (IMM : Z) : Z := Z.shiftl (Z.land IMM SPLIT_B_IMM_HI) SHFT_IMM_HI_B.
Definition GET_SPLIT_B_IMM_LO (IMM : Z) : Z := Z.shiftl (Z.land IMM SPLIT_B_IMM_LO) SHFT_IMM_LO_B.

Definition GEN_OPC (OPC : Z) : Z := Z.land (Z.shiftl OPC 26) 0xfc000000.
Definition GEN_RD (RD : Z) : Z := Z.land (Z.shiftl RD 21) MASK_RD.
Definition GEN_RSA (RSA : Z) : Z := Z.land (Z.shiftl RSA 16) MASK_RSA.
Definition GEN_RSB (RSB : Z) : Z := Z.land (Z.shiftl RSB 11) MASK_RSB.
Definition GEN_SHFT (SHFT : Z) : Z := Z.land (Z.shiftl SHFT 4) MASK_SHFT.
Definition GEN_ALUOP (OP : Z) : Z := GET_ALUOP OP.
Definition GEN_FUNCT_L (F : Z) : Z := Z.shiftl (Z.land F 0x03) 14.
Definition GEN_FUNCT_S (F : Z) : Z := Z.shiftl (Z.land F 0x03) 24.
Definition GEN_DSEL_LI (F : Z) : Z := Z.shiftl (Z.land F 0x0f) 17.
Definition GEN_I_IMM (IMM : Z) : Z := Z.land (Z.shiftl IMM 4) MASK_IMM_I.
Definition GEN_S_IMM (IMM : Z) : Z :=
  Z.land (Z.lor (GET_SPLIT_S_IMM_HI IMM) (GET_SPLIT_S_IMM_LO IMM)) MASK_IMM_S.
Definition GEN_J_IMM (IMM : Z) : Z :=
  Z.land (Z.lor (GET_SPLIT_J_IMM_HI IMM) (GET_SPLIT_J_IMM_LO IMM)) MASK_IMM_J.
Definition GEN_B_IMM (IMM : Z) : Z :=
  Z.land (Z.lor (GET_SPLIT_B_IMM_HI IMM) (GET_SPLIT_B_IMM_LO IMM)) MASK_IMM_B.
Definition GEN_SYS_IMM (IMM : Z) : Z := Z.land IMM MASK_IMM_SYS.
Definition GEN_L_IMM (IMM : Z) : Z := GET_IMM_L IMM.
Definition GEN_LI_IMM (IMM : Z) : Z := GET_IMM_LI IMM.

(** ** Instruction construction (fusion-opc.h) *)
Definition MAKE_R_TYPE (RD RSA RSB SHFT ALUOP : Z) : Z :=
  Z.lor (Z.lor (Z.lor (Z.lor (Z.lor
    (Z.shiftl (Z.land RD 0x1f) 21) (Z.shiftl (Z.land RSA 0x1f) 16))
    (Z.shiftl (Z.land RSB 0x3f) 11)) (Z.land (Z.shiftl SHFT 4) 0x7f))
    (Z.land ALUOP 0x0f)) (Z.shiftl (Z.land OPC_INT 0x3f) 26).

Definition MAKE_I_TYPE (RD RSA IMM ALUOP : Z) : Z :=
  Z.lor (Z.lor (Z.lor (Z.lor
    (Z.shiftl (Z.land RD 0x1f) 21) (Z.shiftl (Z.land RSA 0x1f) 16))
    (GEN_I_IMM IMM)) (Z.land ALUOP 0x0f)) (Z.shiftl (Z.land OPC_IMM 0x3f) 26).

Definition MAKE_L_TYPE (RD RSA FUNCT IMM : Z) : Z :=
  Z.lor (Z.lor (Z.lor (Z.lor
    (Z.shiftl (Z.land RD 0x1f) 21) (Z.shiftl (Z.land RSA 0x1f) 16))
    (Z.shiftl (Z.land FUNCT 0x3) 14)) (Z.land IMM 0x3fff))
    (Z.shiftl (Z.land OPC_LD 0x3f) 26).

Definition MAKE_LI_TYPE (RD DSEL IMM : Z) : Z :=
  Z.lor (Z.lor (Z.lor
    (Z.shiftl (Z.land RD 0x1f) 21) (Z.shiftl (Z.land DSEL 0xf) 17))
    (Z.land IMM 0xffff)) (Z.shiftl (Z.land OPC_LI 0x3f) 26).

Definition MAKE_S_TYPE (FUNCT RSA RSB IMM : Z) : Z :=
  Z.lor (Z.lor (Z.lor (Z.lor
    (Z.shiftl (Z.land FUNCT 0x3) 24) (GEN_S_IMM IMM))
    (Z.shiftl (Z.land RSA 0x1f) 16)) (Z.shiftl (Z.land RSB 0x1f) 11))
    (Z.shiftl (Z.land OPC_ST 0x3f) 26).

Definition MAKE_J_TYPE (RSA IMM : Z) : Z :=
  Z.lor (Z.lor (GEN_RSA RSA) (GEN_J_IMM IMM)) (Z.shiftl (Z.land OPC_JMP 0x3f) 26).

Definition MAKE_JL_TYPE (RSA IMM : Z) : Z :=
  Z.lor (Z.lor (Z.shiftl (Z.land RSA 0x1f) 16) (GEN_J_IMM IMM))
    (Z.shiftl (Z.land OPC_JLNK 0x3f) 26).

Definition MAKE_B_TYPE (RSA RSB IMM FUNCT : Z) : Z :=
  Z.lor (Z.lor (Z.lor (Z.lor
    (Z.shiftl (Z.land RSA 0x1f) 16) (Z.shiftl (Z.land RSB 0x1f) 11))
    (GEN_B_IMM IMM)) (Z.land FUNCT 0x3)) (Z.shiftl (Z.land OPC_BRANCH 0x3f) 26).

Definition MAKE_SYS_TYPE (RD RSA FUNCT IMM : Z) : Z :=
  Z.lor (Z.lor (Z.lor (Z.lor
    (Z.shiftl (Z.land RD 0x1f) 21) (Z.shiftl (Z.land RSA 0x1f) 16))
    (Z.shiftl (Z.land FUNCT 0xff) 8)) (GEN_SYS_IMM IMM))
    (Z.shiftl (Z.land OPC_SYS 0x3f) 26).

(** ** The instruction set the word encodes: an abstract specification

    [insn] is an instruction with its operands, [encode] builds its word with
    the [MAKE_*] macros, and [decode] reads a word back with the opcode tests in
    the order [print_insn_fusion] makes them and the [GET_*] macros. *)
Inductive insn : Type :=
| InsnR (op rd rsa rsb : Z)
| InsnI (op rd rsa imm : Z)
| InsnL (f rd rsa imm : Z)
| InsnLI (dsel rd imm : Z)
| InsnS (f rsb rsa imm : Z)
| InsnJ (rsa imm : Z)
| InsnJL (rsa imm : Z)
| InsnB (f rsa rsb imm : Z)
| InsnSYS (f rd rsa imm : Z).

Definition encode (i : insn) : Z :=
  match i with
  | InsnR op rd rsa rsb => MAKE_R_TYPE rd rsa rsb 0 op
  | InsnI op rd rsa imm => MAKE_I_TYPE rd rsa imm op
  | InsnL f rd rsa imm => MAKE_L_TYPE rd rsa f imm
  | InsnLI dsel rd imm => MAKE_LI_TYPE rd dsel imm
  | InsnS f rsb rsa imm => MAKE_S_TYPE f rsa rsb imm
  | InsnJ rsa imm => MAKE_J_TYPE rsa imm
  | InsnJL rsa imm => MAKE_JL_TYPE rsa imm
  | InsnB f rsa rsb imm => MAKE_B_TYPE rsa rsb imm f
  | InsnSYS f rd rsa imm => MAKE_SYS_TYPE rd rsa f imm
  end.

Definition decode (w : Z) : option insn :=
  if IS_R_TYPE w then Some (InsnR (GET_ALUOP w) (GET_RD w) (GET_RSA w) (GET_RSB w))
  else if IS_I_TYPE w then Some (InsnI (GET_ALUOP w) (GET_RD w) (GET_RSA w) (GET_IMM_I w))
  else if IS_L_TYPE w then Some (InsnL (GET_FUNCT_L w) (GET_RD w) (GET_RSA w) (GET_IMM_L w))
  else if IS_LI_TYPE w then Some (InsnLI (GET_DSEL_LI w) (GET_RD w) (GET_IMM_LI w))
  else if IS_S_TYPE w then Some (InsnS (GET_FUNCT_S w) (GET_RSB w) (GET_RSA w) (GET_IMM_S w))
  else if IS_J_TYPE w then Some (InsnJ (GET_RSA w) (GET_IMM_J w))
  else if IS_JL_TYPE w then Some (InsnJL (GET_RSA w) (GET_IMM_J w))
  else if IS_B_TYPE w then Some (InsnB (GET_FUNCT_B w) (GET_RSA w) (GET_RSB w) (GET_IMM_B w))
  else if IS_SYS_TYPE w then
    Some (InsnSYS (GET_FUNCT_SYS w) (GET_RD w) (GET_RSA w) (GET_IMM_SYS w))
  else None.

(** A register number. *)
Definition is_reg (r : Z) : Prop := 0 <= r < 32.

(** Every operand fits its field. *)
Definition insn_wf (i : insn) : Prop :=
  match i with
  | InsnR op rd rsa rsb => 0 <= op < 16 /\ is_reg rd /\ is_reg rsa /\ is_reg rsb
  | InsnI op rd rsa imm => 0 <= op < 16 /\ is_reg rd /\ is_reg rsa /\ 0 <= imm < 2 ^ 12
  | InsnL f rd rsa imm => 0 <= f < 4 /\ is_reg rd /\ is_reg rsa /\ 0 <= imm < 2 ^ 14
  | InsnLI dsel rd imm => 0 <= dsel < 16 /\ is_reg rd /\ 0 <= imm < 2 ^ 16
  | InsnS f rsb rsa imm => 0 <= f < 4 /\ is_reg rsb /\ is_reg rsa /\ 0 <= imm < 2 ^ 14
  | InsnJ rsa imm => is_reg rsa /\ 0 <= imm < 2 ^ 21
  | InsnJL rsa imm => is_reg rsa /\ 0 <= imm < 2 ^ 21
  | InsnB f rsa rsb imm => 0 <= f < 4 /\ is_reg rsa /\ is_reg rsb /\ 0 <= imm < 2 ^ 14
  | InsnSYS f rd rsa imm => 0 <= f < 256 /\ is_reg rd /\ is_reg rsa /\ 0 <= imm < 2 ^ 8
  end.

(** The bits of a word its format uses: R leaves the 7 shift bits 4 to 10
    unused, LI leaves bit 16 unused, the others use all 32. *)
Definition used_bits (i : insn) : Z :=
  match i with
  | InsnR _ _ _ _ => 0xfffff80f
  | InsnLI _ _ _ => 0xfffeffff
  | _ => 0xffffffff
  end.

(** ** Fields read back what the constructors wrote *)

(** [isa] unfolds the macros and decides the equation of words that is left. *)
Ltac isa :=
  cbv [MAKE_R_TYPE MAKE_I_TYPE MAKE_L_TYPE MAKE_LI_TYPE MAKE_S_TYPE MAKE_J_TYPE MAKE_JL_TYPE
       MAKE_B_TYPE MAKE_SYS_TYPE GEN_OPC GEN_RD GEN_RSA GEN_RSB GEN_SHFT GEN_ALUOP GEN_FUNCT_L
       GEN_FUNCT_S GEN_DSEL_LI GEN_I_IMM GEN_S_IMM GEN_J_IMM GEN_B_IMM GEN_SYS_IMM GEN_L_IMM
       GEN_LI_IMM GET_SPLIT_S_IMM_HI GET_SPLIT_S_IMM_LO GET_SPLIT_J_IMM_HI GET_SPLIT_J_IMM_LO
       GET_SPLIT_B_IMM_HI GET_SPLIT_B_IMM_LO GET_RD GET_RSA GET_RSB GET_SHFT GET_ALUOP GET_IMM_I
       GET_IMM_L GET_FUNCT_L GET_DSEL_LI GET_IMM_LI GET_FUNCT_S GET_IMM_S GET_IMM_J GET_IMM_B
       GET_FUNCT_B GET_FUNCT_SYS GET_IMM_SYS GET_OPC
       MASK_RD MASK_RSA MASK_RSB MASK_SHFT MASK_ALUOP MASK_IMM_I MASK_IMM_L MASK_FUNCT_L
       MASK_DSEL_LI MASK_IMM_LI MASK_FUNCT_S MASK_IMM_S MASK_IMM_HI_S MASK_IMM_LO_S MASK_IMM_J
       MASK_IMM_HI_J MASK_IMM_LO_J MASK_IMM_B MASK_IMM_HI_B MASK_IMM_LO_B MASK_FUNCT_B
       MASK_FUNCT_SYS MASK_IMM_SYS SPLIT_S_IMM_LO SPLIT_S_IMM_HI SPLIT_J_IMM_LO SPLIT_J_IMM_HI
       SPLIT_B_IMM_LO SPLIT_B_IMM_HI SHFT_IMM_HI_S SHFT_IMM_HI_J SHFT_IMM_HI_B SHFT_IMM_LO_B
       MASK_OPC OPC_INT OPC_IMM OPC_LD OPC_LI OPC_ST OPC_JMP OPC_JLNK OPC_BRANCH OPC_SYS];
  bits.

(** Splits a conjunction of field equations and decides each. *)
Ltac fields := unfold is_reg; cbv zeta; intros; split_and!; isa.

Lemma MAKE_R_fields (rd rsa rsb op : Z) :
  is_reg rd -> is_reg rsa -> is_reg rsb -> 0 <= op < 16 ->
  let w := MAKE_R_TYPE rd rsa rsb 0 op in
  GET_OPC w = OPC_INT /\ GET_RD w = rd /\ GET_RSA w = rsa /\ GET_RSB w = rsb
  /\ GET_SHFT w = 0 /\ GET_ALUOP w = op /\ u32 w = w.
Proof. fields. Qed.

Lemma MAKE_I_fields (rd rsa imm op : Z) :
  is_reg rd -> is_reg rsa -> 0 <= op < 16 ->
  let w := MAKE_I_TYPE rd rsa imm op in
  GET_OPC w = OPC_IMM /\ GET_RD w = rd /\ GET_RSA w = rsa
  /\ GET_IMM_I w = imm mod 2 ^ 12 /\ GET_ALUOP w = op /\ u32 w = w.
Proof. fields. Qed.

Lemma MAKE_L_fields (rd rsa f imm : Z) :
  is_reg rd -> is_reg rsa -> 0 <= f < 4 ->
  let w := MAKE_L_TYPE rd rsa f imm in
  GET_OPC w = OPC_LD /\ GET_RD w = rd /\ GET_RSA w = rsa
  /\ GET_IMM_L w = imm mod 2 ^ 14 /\ GET_FUNCT_L w = f /\ u32 w = w.
Proof. fields. Qed.

Lemma MAKE_LI_fields (rd dsel imm : Z) :
  is_reg rd -> 0 <= dsel < 16 ->
  let w := MAKE_LI_TYPE rd dsel imm in
  GET_OPC w = OPC_LI /\ GET_RD w = rd /\ GET_DSEL_LI w = dsel
  /\ GET_IMM_LI w = imm mod 2 ^ 16 /\ u32 w = w.
Proof. fields. Qed.

Lemma MAKE_S_fields (f rsa rsb imm : Z) :
  is_reg rsa -> is_reg rsb -> 0 <= f < 4 ->
  let w := MAKE_S_TYPE f rsa rsb imm in
  GET_OPC w = OPC_ST /\ GET_RSA w = rsa /\ GET_RSB w = rsb
  /\ GET_IMM_S w = imm mod 2 ^ 14 /\ GET_FUNCT_S w = f /\ u32 w = w.
Proof. fields. Qed.

Lemma MAKE_J_fields (rsa imm : Z) :
  is_reg rsa ->
  let w := MAKE_J_TYPE rsa imm in
  GET_OPC w = OPC_JMP /\ GET_RSA w = rsa /\ GET_IMM_J w = imm mod 2 ^ 21 /\ u32 w = w.
Proof. fields. Qed.

Lemma MAKE_JL_fields (rsa imm : Z) :
  is_reg rsa ->
  let w := MAKE_JL_TYPE rsa imm in
  GET_OPC w = OPC_JLNK /\ GET_RSA w = rsa /\ GET_IMM_J w = imm mod 2 ^ 21 /\ u32 w = w.
Proof. fields. Qed.

Lemma MAKE_B_fields (rsa rsb imm f : Z) :
  is_reg rsa -> is_reg rsb -> 0 <= f < 4 ->
  let w := MAKE_B_TYPE rsa rsb imm f in
  GET_OPC w = OPC_BRANCH /\ GET_RSA w = rsa /\ GET_RSB w = rsb
  /\ GET_IMM_B w = imm mod 2 ^ 14 /\ GET_FUNCT_B w = f /\ u32 w = w.
Proof. fields. Qed.

Lemma MAKE_SYS_fields (rd rsa f imm : Z) :
  is_reg rd -> is_reg rsa -> 0 <= f < 256 ->
  let w := MAKE_SYS_TYPE rd rsa f imm in
  GET_OPC w = OPC_SYS /\ GET_RD w = rd /\ GET_RSA w = rsa
  /\ GET_FUNCT_SYS w = f /\ GET_IMM_SYS w = imm mod 2 ^ 8 /\ u32 w = w.
Proof. fields. Qed.

(** Every field is a number of its own width, whatever the word. *)
Lemma GET_reg_range (w : Z) : is_reg (GET_RD w) /\ is_reg (GET_RSA w) /\ is_reg (GET_RSB w).
Proof.
  unfold is_reg, GET_RD, GET_RSA, GET_RSB, MASK_RD, MASK_RSA, MASK_RSB.
  change 32 with (2 ^ 5). rewrite !Z.shiftr_land.
  split_ranges; apply land_range_l; first [ lia | cst_range ].
Qed.

Lemma GET_sel_range (w : Z) :
  0 <= GET_OPC w < 64 /\ 0 <= GET_ALUOP w < 16 /\ 0 <= GET_FUNCT_L w < 4 /\ 0 <= GET_DSEL_LI w < 16
  /\ 0 <= GET_FUNCT_S w < 4 /\ 0 <= GET_FUNCT_B w < 4 /\ 0 <= GET_FUNCT_SYS w < 256.
Proof.
  unfold GET_OPC, GET_ALUOP, GET_FUNCT_L, GET_DSEL_LI, GET_FUNCT_S, GET_FUNCT_B, GET_FUNCT_SYS,
    MASK_OPC, MASK_ALUOP, MASK_FUNCT_L, MASK_DSEL_LI, MASK_FUNCT_S, MASK_FUNCT_B, MASK_FUNCT_SYS.
  rewrite !Z.shiftr_land.
  split_ranges;
    [ apply (land_range_l 6) | apply (land_range_l 4) | apply (land_range_l 2)
    | apply (land_range_l 4) | apply (land_range_r 2) | apply (land_range_l 2)
    | apply (land_range_l 8) ]; first [ lia | cst_range ].
Qed.

Lemma GET_imm_range (w : Z) :
  0 <= GET_IMM_I w < 2 ^ 12 /\ 0 <= GET_IMM_L w < 2 ^ 14 /\ 0 <= GET_IMM_LI w < 2 ^ 16
  /\ 0 <= GET_IMM_S w < 2 ^ 14 /\ 0 <= GET_IMM_J w < 2 ^ 21 /\ 0 <= GET_IMM_B w < 2 ^ 14
  /\ 0 <= GET_IMM_SYS w < 2 ^ 8.
Proof.
  unfold GET_IMM_I, GET_IMM_L, GET_IMM_LI, GET_IMM_S, GET_IMM_J, GET_IMM_B, GET_IMM_SYS,
    MASK_IMM_I, MASK_IMM_L, MASK_IMM_LI, MASK_IMM_LO_S, MASK_IMM_HI_S, MASK_IMM_LO_J,
    MASK_IMM_HI_J, MASK_IMM_LO_B, MASK_IMM_HI_B, MASK_IMM_SYS, SHFT_IMM_HI_J, SHFT_IMM_LO_B,
    SHFT_IMM_HI_B.
  rewrite !Z.shiftr_land.
  split_ranges; repeat first [ apply lor_range; [lia| |] | apply land_range_l ]; first [ lia | cst_range ].
Qed.

(** ** The encoding is faithful *)

(** The opcode test of every format but the word's own fails. *)
Lemma decode_by_opc (w : Z) :
  decode w =
    let o := GET_OPC w in
    if o =? OPC_INT then Some (InsnR (GET_ALUOP w) (GET_RD w) (GET_RSA w) (GET_RSB w))
    else if o =? OPC_IMM then Some (InsnI (GET_ALUOP w) (GET_RD w) (GET_RSA w) (GET_IMM_I w))
    else if o =? OPC_LD then Some (InsnL (GET_FUNCT_L w) (GET_RD w) (GET_RSA w) (GET_IMM_L w))
    else if o =? OPC_LI then Some (InsnLI (GET_DSEL_LI w) (GET_RD w) (GET_IMM_LI w))
    else if o =? OPC_ST then Some (InsnS (GET_FUNCT_S w) (GET_RSB w) (GET_RSA w) (GET_IMM_S w))
    else if o =? OPC_JMP then Some (InsnJ (GET_RSA w) (GET_IMM_J w))
    else if o =? OPC_JLNK then Some (InsnJL (GET_RSA w) (GET_IMM_J w))
    else if o =? OPC_BRANCH then
      Some (InsnB (GET_FUNCT_B w) (GET_RSA w) (GET_RSB w) (GET_IMM_B w))
    else if o =? OPC_SYS then
      Some (InsnSYS (GET_FUNCT_SYS w) (GET_RD w) (GET_RSA w) (GET_IMM_SYS w))
    else None.
Proof. reflexivity. Qed.

(** The fields of a word of the instruction's format. *)
Definition has_fields (w : Z) (i : insn) : Prop :=
  match i with
  | InsnR op rd rsa rsb =>
      GET_OPC w = OPC_INT /\ GET_ALUOP w = op /\ GET_RD w = rd /\ GET_RSA w = rsa /\ GET_RSB w = rsb
  | InsnI op rd rsa imm =>
      GET_OPC w = OPC_IMM /\ GET_ALUOP w = op /\ GET_RD w = rd /\ GET_RSA w = rsa /\ GET_IMM_I w = imm
  | InsnL f rd rsa imm =>
      GET_OPC w = OPC_LD /\ GET_FUNCT_L w = f /\ GET_RD w = rd /\ GET_RSA w = rsa /\ GET_IMM_L w = imm
  | InsnLI dsel rd imm =>
      GET_OPC w = OPC_LI /\ GET_DSEL_LI w = dsel /\ GET_RD w = rd /\ GET_IMM_LI w = imm
  | InsnS f rsb rsa imm =>
      GET_OPC w = OPC_ST /\ GET_FUNCT_S w = f /\ GET_RSB w = rsb /\ GET_RSA w = rsa /\ GET_IMM_S w = imm
  | InsnJ rsa imm => GET_OPC w = OPC_JMP /\ GET_RSA w = rsa /\ GET_IMM_J w = imm
  | InsnJL rsa imm => GET_OPC w = OPC_JLNK /\ GET_RSA w = rsa /\ GET_IMM_J w = imm
  | InsnB f rsa rsb imm =>
      GET_OPC w = OPC_BRANCH /\ GET_FUNCT_B w = f /\ GET_RSA w = rsa /\ GET_RSB w = rsb
      /\ GET_IMM_B w = imm
  | InsnSYS f rd rsa imm =>
      GET_OPC w = OPC_SYS /\ GET_FUNCT_SYS w = f /\ GET_RD w = rd /\ GET_RSA w = rsa
      /\ GET_IMM_SYS w = imm
  end.

Lemma decode_fields (w : Z) (i : insn) : decode w = Some i <-> has_fields w i.
Proof.
  rewrite decode_by_opc. cbv zeta. split.
  - repeat (match goal with |- context [GET_OPC w =? ?o] =>
              destruct (Z.eqb_spec (GET_OPC w) o) as [Ho|_] end;
      [intros [= <-]; cbn [has_fields]; auto|]). done.
  - destruct i; cbn [has_fields]; intros H; decompose [and] H; clear H; subst;
      match goal with H : GET_OPC w = _ |- _ => rewrite H end; reflexivity.
Qed.

(** Rewrites with the field equations in the context. *)
Ltac rewrite_fields :=
  repeat match goal with
  | H : ?f ?x = _ |- context [?f ?x] => rewrite H
  end.

Lemma decode_encode_wf (i : insn) :
  insn_wf i -> decode (encode i) = Some i /\ u32 (encode i) = encode i.
Proof.
  rewrite decode_by_opc. destruct i; cbn [insn_wf encode]; intros H; destruct_and? H;
  [ pose proof (MAKE_R_fields rd rsa rsb op ltac:(done) ltac:(done) ltac:(done) ltac:(done)) as F
  | pose proof (MAKE_I_fields rd rsa imm op ltac:(done) ltac:(done) ltac:(done)) as F
  | pose proof (MAKE_L_fields rd rsa f imm ltac:(done) ltac:(done) ltac:(done)) as F
  | pose proof (MAKE_LI_fields rd dsel imm ltac:(done) ltac:(done)) as F
  | pose proof (MAKE_S_fields f rsa rsb imm ltac:(done) ltac:(done) ltac:(done)) as F
  | pose proof (MAKE_J_fields rsa imm ltac:(done)) as F
  | pose proof (MAKE_JL_fields rsa imm ltac:(done)) as F
  | pose proof (MAKE_B_fields rsa rsb imm f ltac:(done) ltac:(done) ltac:(done)) as F
  | pose proof (MAKE_SYS_fields rd rsa f imm ltac:(done) ltac:(done) ltac:(done)) as F ];
  cbv zeta in F |- *; decompose [and] F; clear F; rewrite_fields;
  rewrite ?Z.mod_small by lia; done.
Qed.

(** A word is its opcode and its low 26 bits. *)
Lemma word_split (w o : Z) :
  0 <= w < 2 ^ 32 -> GET_OPC w = o -> Z.lor (Z.land w 0x03ffffff) (Z.shiftl o 26) = w.
Proof. intros ? <-. isa. Qed.

Lemma decode_wf (w : Z) (i : insn) : decode w = Some i -> insn_wf i.
Proof.
  rewrite decode_by_opc. cbv zeta.
  pose proof (GET_reg_range w). pose proof (GET_sel_range w). pose proof (GET_imm_range w).
  repeat (case_match; [intros [= <-]; cbn [insn_wf]; tauto|]). done.
Qed.

Lemma encode_decode_used (w : Z) (i : insn) :
  0 <= w < 2 ^ 32 -> decode w = Some i -> encode i = Z.land w (used_bits i).
Proof.
  intros Hw. rewrite decode_by_opc. cbv zeta.
  repeat (match goal with |- context [GET_OPC w =? ?o] => destruct (Z.eqb_spec (GET_OPC w) o) as [Ho|_] end;
    [ intros [= <-]; cbn [encode used_bits];
      match goal with |- _ = Z.land w ?m =>
        transitivity (Z.land (Z.lor (Z.land w 0x03ffffff) (Z.shiftl (GET_OPC w) 26)) m);
        [ rewrite Ho; clear Ho; isa | by rewrite word_split ] end | ]).
  done.
Qed.

(** C1.  Every instruction of the nine formats whose operands fit their fields
    survives the encoding: the word the [MAKE_*] macros build fits in 32 bits,
    the opcode tests recognise its format, and every [GET_*] macro returns the
    operand that was put in. *)
Theorem decode_encode (i : insn) :
  insn_wf i -> 0 <= encode i < 2 ^ 32 /\ decode (encode i) = Some i.
Proof.
  intros Hi. destruct (decode_encode_wf i Hi) as [Hd Hu].
  split; [|done]. rewrite <- Hu. apply u32_range.
Qed.

Lemma decode_encode_witness :
  insn_wf (InsnB 1 11 31 0x3ffd) /\ encode (InsnB 1 11 31 0x3ffd) = 0x37ebfff5
  /\ decode (encode (InsnB 1 11 31 0x3ffd)) = Some (InsnB 1 11 31 0x3ffd).
Proof.
  assert (insn_wf (InsnB 1 11 31 0x3ffd)) as H by (cbn; unfold is_reg; lia).
  split; [exact H|]. split; [reflexivity|]. exact (proj2 (decode_encode _ H)).
Defined.

(** Every 32-bit word the opcode tests recognise is, in the bits its format
    uses, the encoding of the instruction it decodes to: the decoder invents
    nothing, loses nothing, and yields only operands that fit their fields. *)
Theorem encode_decode (w : Z) (i : insn) :
  0 <= w < 2 ^ 32 -> decode w = Some i -> insn_wf i /\ encode i = Z.land w (used_bits i).
Proof. eauto using decode_wf, encode_decode_used. Qed.

Lemma encode_decode_witness :
  decode 0x4c220805 = Some (InsnR 5 1 2 1) /\ encode (InsnR 5 1 2 1) = 0x4c220805.
Proof.
  split; [reflexivity|].
  rewrite (proj2 (encode_decode 0x4c220805 (InsnR 5 1 2 1) ltac:(lia) eq_refl)). reflexivity.
Defined.

(** The coprocessor test can never succeed: it compares a 6-bit opcode with
    the 29-bit mask [MASK_MSB_OPC], so no word is a coprocessor instruction. *)
Theorem IS_CP_INSN_never (w : Z) : IS_CP_INSN w = false.
Proof.
  unfold IS_CP_INSN. destruct (GET_sel_range w) as [Hr _].
  apply Z.eqb_neq. unfold MASK_MSB_OPC. lia.
Qed.
