(* ===== verification/FusionOpc.v ===== *)
(** * The opcode tables of opcodes/fusion-opc.c

    The register names and the per-format tables the disassembler indexes, the
    assembler's table [fusion_insn_all], and the theorems that the tables agree:
    an entry stands at its own index, the assembler's mnemonics are distinct,
    and every instruction the assembler knows is the one the disassembler
    prints for its opcode and index.  A C array whose initialiser is shorter
    than its declared size ends in zeroed entries ([opc_zero]). *)
From S2P Require Import Prelude FusionIsa.
#[local] Open Scope Z_scope.

(** ** Registers *)
Definition fusion_gpreg_name : list string :=
  ["zero"; "sp"; "fp"; "gp"; "ra"; "arg0"; "arg1"; "arg2"; "arg3"; "rval0"; "rval1";
   "gr0"; "gr1"; "gr2"; "gr3"; "gr4"; "gr5"; "gr6"; "gr7"; "gr8"; "gr9"; "gr10"; "tmp0";
   "tmp1"; "tmp2"; "tmp3"; "tmp4"; "tmp5"; "tmp6"; "tmp7"; "hi0"; "low0"]%string.

Definition fusion_gpreg_num : list string :=
  ["R0"; "R1"; "R2"; "R3"; "R4"; "R5"; "R6"; "R7"; "R8"]%string
  ++ ["R9"; "R10"; "R11"; "R12"; "R13"; "R14"; "R15"; "R16"]%string
  ++ ["R17"; "R18"; "R19"; "R20"; "R21"; "R22"; "R23"; "R24"]%string
  ++ ["R25"; "R26"; "R27"; "R28"; "R29"; "R30"; "R31"]%string.

Definition fusion_spreg_name : list string :=
  ["CPUREV"; "CPNUM"; "CPO0"; "n/a"; "CPO0"; "n/a"; "CPO1"; "n/a"; "CPO3"; "n/a"; "STAT";
   "n/a"; "OPCAR"]%string.

(** ** Tables *)

(** An entry no initialiser sets. *)
Definition opc_zero : fusion_opc_info_t := mk_opc None 0 0 0 0 0 0.

#[local] Open Scope string_scope.
#[local] Open Scope Z_scope.

Definition fusion_insn_R : list fusion_opc_info_t := [
  mk_opc (Some "add") 0x00 USE_RDAB FRMT_R CPID_MAIN MASK_NO_IMM OPC_INT;
  mk_opc (Some "sub") 0x01 USE_RDAB FRMT_R CPID_MAIN MASK_NO_IMM OPC_INT;
  mk_opc (Some "addu") 0x02 USE_RDAB FRMT_R CPID_MAIN MASK_NO_IMM OPC_INT;
  mk_opc (Some "subu") 0x03 USE_RDAB FRMT_R CPID_MAIN MASK_NO_IMM OPC_INT;
  mk_opc (Some "not") 0x04 USE_RDAB FRMT_R CPID_MAIN MASK_NO_IMM OPC_INT;
  mk_opc (Some "and") 0x05 USE_RDAB FRMT_R CPID_MAIN MASK_NO_IMM OPC_INT;
  mk_opc (Some "or") 0x06 USE_RDAB FRMT_R CPID_MAIN MASK_NO_IMM OPC_INT;
  mk_opc (Some "xor") 0x07 USE_RDAB FRMT_R CPID_MAIN MASK_NO_IMM OPC_INT;
  mk_opc (Some "sal") 0x08 USE_RDAB FRMT_R CPID_MAIN MASK_NO_IMM OPC_INT;
  mk_opc (Some "sar") 0x09 USE_RDAB FRMT_R CPID_MAIN MASK_NO_IMM OPC_INT;
  mk_opc (Some "sll") 0x0a USE_RDAB FRMT_R CPID_MAIN MASK_NO_IMM OPC_INT;
  mk_opc (Some "slr") 0x0b USE_RDAB FRMT_R CPID_MAIN MASK_NO_IMM OPC_INT;
  mk_opc (Some "comp") 0x0c USE_RDAB FRMT_R CPID_MAIN MASK_NO_IMM OPC_INT;
  mk_opc (Some "nri") 0x0d USE_NONE FRMT_R CPID_MAIN MASK_NO_IMM OPC_INT;
  mk_opc (Some "nri") 0x0e USE_NONE FRMT_R CPID_MAIN MASK_NO_IMM OPC_INT;
  mk_opc (Some "nri") 0x0f USE_NONE FRMT_R CPID_MAIN MASK_NO_IMM OPC_INT;
  mk_opc (Some "nop") 0x10 USE_NONE FRMT_R CPID_MAIN MASK_NO_IMM OPC_INT
].

Definition fusion_insn_I : list fusion_opc_info_t := [
  mk_opc (Some "addi") 0x00 USE_RDAI FRMT_I CPID_MAIN MASK_IMM_I OPC_IMM;
  mk_opc (Some "subi") 0x01 USE_RDAI FRMT_I CPID_MAIN MASK_IMM_I OPC_IMM;
  mk_opc (Some "addui") 0x02 USE_RDAI FRMT_I CPID_MAIN MASK_IMM_I OPC_IMM;
  mk_opc (Some "subui") 0x03 USE_RDAI FRMT_I CPID_MAIN MASK_IMM_I OPC_IMM;
  mk_opc (Some "noti") 0x04 USE_RDI FRMT_I CPID_MAIN MASK_IMM_I OPC_IMM;
  mk_opc (Some "andi") 0x05 USE_RDAI FRMT_I CPID_MAIN MASK_IMM_I OPC_IMM;
  mk_opc (Some "ori") 0x06 USE_RDAI FRMT_I CPID_MAIN MASK_IMM_I OPC_IMM;
  mk_opc (Some "xori") 0x07 USE_RDAI FRMT_I CPID_MAIN MASK_IMM_I OPC_IMM;
  mk_opc (Some "sali") 0x08 USE_RDAI FRMT_I CPID_MAIN MASK_IMM_I OPC_IMM;
  mk_opc (Some "sari") 0x09 USE_RDAI FRMT_I CPID_MAIN MASK_IMM_I OPC_IMM;
  mk_opc (Some "slli") 0x0a USE_RDAI FRMT_I CPID_MAIN MASK_IMM_I OPC_IMM;
  mk_opc (Some "slri") 0x0b USE_RDAI FRMT_I CPID_MAIN MASK_IMM_I OPC_IMM;
  mk_opc (Some "compi") 0x0c USE_RDAI FRMT_I CPID_MAIN MASK_IMM_I OPC_IMM;
  mk_opc (Some "nri") 0x0d USE_NONE FRMT_I CPID_MAIN MASK_NO_IMM OPC_IMM;
  mk_opc (Some "nri") 0x0e USE_NONE FRMT_I CPID_MAIN MASK_NO_IMM OPC_IMM;
  mk_opc (Some "nri") 0x0f USE_NONE FRMT_I CPID_MAIN MASK_NO_IMM OPC_IMM
].

Definition fusion_insn_L : list fusion_opc_info_t := [
  mk_opc (Some "lw") 0x0 USE_RDAI FRMT_L CPID_MAIN MASK_IMM_L OPC_LD;
  mk_opc (Some "lh") 0x1 USE_RDAI FRMT_L CPID_MAIN MASK_IMM_L OPC_LD;
  mk_opc (Some "lth") 0x2 USE_RDAI FRMT_L CPID_MAIN MASK_IMM_L OPC_LD;
  mk_opc (Some "lb") 0x3 USE_RDAI FRMT_L CPID_MAIN MASK_IMM_L OPC_LD
].

Definition fusion_insn_LI : list fusion_opc_info_t := [
  mk_opc (Some "li") 0x0 USE_RDI FRMT_LI CPID_MAIN MASK_IMM_LI OPC_LI;
  mk_opc (Some "lsi") 0x1 USE_RDI FRMT_LI CPID_MAIN MASK_IMM_LI OPC_LI;
  mk_opc (Some "lgi") 0x2 USE_RDI FRMT_LI CPID_MAIN MASK_IMM_LI OPC_LI;
  mk_opc (Some "nri") 0x3 USE_NONE FRMT_LI CPID_MAIN MASK_NO_IMM OPC_LI;
  mk_opc (Some "lui") 0x4 USE_RDI FRMT_LI CPID_MAIN MASK_IMM_LI OPC_LI;
  mk_opc (Some "lusi") 0x5 USE_RDI FRMT_LI CPID_MAIN MASK_IMM_LI OPC_LI;
  mk_opc (Some "lugi") 0x6 USE_RDI FRMT_LI CPID_MAIN MASK_IMM_LI OPC_LI;
  mk_opc (Some "nri") 0x7 USE_NONE FRMT_LI CPID_MAIN MASK_NO_IMM OPC_LI;
  mk_opc (Some "lni") 0x8 USE_RDI FRMT_LI CPID_MAIN MASK_IMM_LI OPC_LI;
  mk_opc (Some "lnsi") 0x9 USE_RDI FRMT_LI CPID_MAIN MASK_IMM_LI OPC_LI;
  mk_opc (Some "lngi") 0xa USE_RDI FRMT_LI CPID_MAIN MASK_IMM_LI OPC_LI;
  mk_opc (Some "nri") 0xb USE_NONE FRMT_LI CPID_MAIN MASK_NO_IMM OPC_LI;
  mk_opc (Some "luni") 0xc USE_RDI FRMT_LI CPID_MAIN MASK_IMM_LI OPC_LI;
  mk_opc (Some "lunsi") 0xd USE_RDI FRMT_LI CPID_MAIN MASK_IMM_LI OPC_LI;
  mk_opc (Some "lungi") 0xe USE_RDI FRMT_LI CPID_MAIN MASK_IMM_LI OPC_LI;
  mk_opc (Some "nri") 0xf USE_NONE FRMT_LI CPID_MAIN MASK_NO_IMM OPC_LI
] ++ replicate 16 opc_zero.

Definition fusion_insn_S : list fusion_opc_info_t := [
  mk_opc (Some "sw") 0x0 USE_RABI FRMT_S CPID_MAIN MASK_IMM_S OPC_ST;
  mk_opc (Some "sh") 0x1 USE_RABI FRMT_S CPID_MAIN MASK_IMM_S OPC_ST;
  mk_opc (Some "sth") 0x2 USE_RABI FRMT_S CPID_MAIN MASK_IMM_S OPC_ST;
  mk_opc (Some "sb") 0x3 USE_RABI FRMT_S CPID_MAIN MASK_IMM_S OPC_ST
].

Definition fusion_insn_J : list fusion_opc_info_t := [
  mk_opc (Some "j") 0x0 USE_I FRMT_J CPID_MAIN MASK_IMM_J OPC_JMP;
  mk_opc (Some "jr") 0x1 USE_RAI FRMT_J CPID_MAIN MASK_IMM_J OPC_JMP
].

Definition fusion_insn_JL : list fusion_opc_info_t := [
  mk_opc (Some "jal") 0x0 USE_I FRMT_J CPID_MAIN MASK_IMM_J OPC_JLNK;
  mk_opc (Some "jrl") 0x1 USE_RAI FRMT_J CPID_MAIN MASK_IMM_J OPC_JLNK
].

Definition fusion_insn_B : list fusion_opc_info_t := [
  mk_opc (Some "beq") 0x0 USE_RABI FRMT_B CPID_MAIN MASK_IMM_B OPC_BRANCH;
  mk_opc (Some "bne") 0x1 USE_RABI FRMT_B CPID_MAIN MASK_IMM_B OPC_BRANCH;
  mk_opc (Some "bgt") 0x2 USE_RABI FRMT_B CPID_MAIN MASK_IMM_B OPC_BRANCH;
  mk_opc (Some "blt") 0x3 USE_RABI FRMT_B CPID_MAIN MASK_IMM_B OPC_BRANCH
].

(** [{"nri", i, USE_NONE, FRMT_SYS, CPID_MAIN, MASK_NO_IMM, 0x08}], the row of
    every system function number not yet used. *)
Definition nri_sys (i : Z) : fusion_opc_info_t :=
  mk_opc (Some "nri") i USE_NONE FRMT_SYS CPID_MAIN MASK_NO_IMM 0x08.

Definition fusion_insn_SYS_used : list fusion_opc_info_t := [
  mk_opc (Some "syscall") 0x00 USE_RDAI FRMT_SYS CPID_MAIN MASK_IMM_SYS OPC_SYS;
  mk_opc (Some "sysret") 0x01 USE_RDAI FRMT_SYS CPID_MAIN MASK_IMM_SYS OPC_SYS;
  mk_opc (Some "stspr") 0x02 USE_RDA FRMT_SYS CPID_MAIN MASK_IMM_SYS OPC_SYS;
  mk_opc (Some "ldspr") 0x03 USE_RDA FRMT_SYS CPID_MAIN MASK_IMM_SYS OPC_SYS;
  mk_opc (Some "sync") 0x04 USE_NONE FRMT_SYS CPID_MAIN MASK_NO_IMM OPC_SYS;
  mk_opc (Some "pmir") 0x05 USE_I FRMT_SYS CPID_MAIN MASK_IMM_SYS OPC_SYS;
  mk_opc (Some "pmd") 0x06 USE_I FRMT_SYS CPID_MAIN MASK_IMM_SYS OPC_SYS
].

Definition fusion_insn_SYS_nri_lo : list fusion_opc_info_t := nri_sys <$> seqZ 0x07 0x79.
Definition fusion_insn_SYS_nri_hi : list fusion_opc_info_t := nri_sys <$> seqZ 0x80 0x80.

Definition fusion_insn_SYS : list fusion_opc_info_t :=
  fusion_insn_SYS_used ++ fusion_insn_SYS_nri_lo ++ fusion_insn_SYS_nri_hi.

Definition fusion_insn_all : list fusion_opc_info_t := [
  mk_opc (Some "nop") 0x00 USE_NONE FRMT_R CPID_MAIN MASK_NO_IMM 0x00;
  mk_opc (Some "add") 0x00 USE_RDAB FRMT_R CPID_MAIN MASK_NO_IMM OPC_INT;
  mk_opc (Some "sub") 0x01 USE_RDAB FRMT_R CPID_MAIN MASK_NO_IMM OPC_INT;
  mk_opc (Some "addu") 0x02 USE_RDAB FRMT_R CPID_MAIN MASK_NO_IMM OPC_INT;
  mk_opc (Some "subu") 0x03 USE_RDAB FRMT_R CPID_MAIN MASK_NO_IMM OPC_INT;
  mk_opc (Some "not") 0x04 USE_RDAB FRMT_R CPID_MAIN MASK_NO_IMM OPC_INT;
  mk_opc (Some "and") 0x05 USE_RDAB FRMT_R CPID_MAIN MASK_NO_IMM OPC_INT;
  mk_opc (Some "or") 0x06 USE_RDAB FRMT_R CPID_MAIN MASK_NO_IMM OPC_INT;
  mk_opc (Some "xor") 0x07 USE_RDAB FRMT_R CPID_MAIN MASK_NO_IMM OPC_INT;
  mk_opc (Some "sal") 0x08 USE_RDAB FRMT_R CPID_MAIN MASK_NO_IMM OPC_INT;
  mk_opc (Some "sar") 0x09 USE_RDAB FRMT_R CPID_MAIN MASK_NO_IMM OPC_INT;
  mk_opc (Some "sll") 0x0a USE_RDAB FRMT_R CPID_MAIN MASK_NO_IMM OPC_INT;
  mk_opc (Some "slr") 0x0b USE_RDAB FRMT_R CPID_MAIN MASK_NO_IMM OPC_INT;
  mk_opc (Some "comp") 0x0c USE_RDAB FRMT_R CPID_MAIN MASK_NO_IMM OPC_INT;
  mk_opc (Some "nri") 0x0d USE_NONE FRMT_R CPID_MAIN MASK_NO_IMM OPC_INT;
  mk_opc (Some "addi") 0x00 USE_RDAI FRMT_I CPID_MAIN MASK_IMM_I OPC_IMM;
  mk_opc (Some "subi") 0x01 USE_RDAI FRMT_I CPID_MAIN MASK_IMM_I OPC_IMM;
  mk_opc (Some "addui") 0x02 USE_RDAI FRMT_I CPID_MAIN MASK_IMM_I OPC_IMM;
  mk_opc (Some "subui") 0x03 USE_RDAI FRMT_I CPID_MAIN MASK_IMM_I OPC_IMM;
  mk_opc (Some "noti") 0x04 USE_RDI FRMT_I CPID_MAIN MASK_IMM_I OPC_IMM;
  mk_opc (Some "andi") 0x05 USE_RDAI FRMT_I CPID_MAIN MASK_IMM_I OPC_IMM;
  mk_opc (Some "ori") 0x06 USE_RDAI FRMT_I CPID_MAIN MASK_IMM_I OPC_IMM;
  mk_opc (Some "xori") 0x07 USE_RDAI FRMT_I CPID_MAIN MASK_IMM_I OPC_IMM;
  mk_opc (Some "sali") 0x08 USE_RDAI FRMT_I CPID_MAIN MASK_IMM_I OPC_IMM;
  mk_opc (Some "sari") 0x09 USE_RDAI FRMT_I CPID_MAIN MASK_IMM_I OPC_IMM;
  mk_opc (Some "slli") 0x0a USE_RDAI FRMT_I CPID_MAIN MASK_IMM_I OPC_IMM;
  mk_opc (Some "slri") 0x0b USE_RDAI FRMT_I CPID_MAIN MASK_IMM_I OPC_IMM;
  mk_opc (Some "compi") 0x0c USE_RDAI FRMT_I CPID_MAIN MASK_IMM_I OPC_IMM;
  mk_opc (Some "lw") 0x0 USE_RDAI_O FRMT_L CPID_MAIN MASK_IMM_L OPC_LD;
  mk_opc (Some "lh") 0x1 USE_RDAI_O FRMT_L CPID_MAIN MASK_IMM_L OPC_LD;
  mk_opc (Some "lth") 0x2 USE_RDAI_O FRMT_L CPID_MAIN MASK_IMM_L OPC_LD;
  mk_opc (Some "lb") 0x3 USE_RDAI_O FRMT_L CPID_MAIN MASK_IMM_L OPC_LD;
  mk_opc (Some "li") 0x0 USE_RDI FRMT_LI CPID_MAIN MASK_IMM_LI OPC_LI;
  mk_opc (Some "lsi") 0x1 USE_RDI FRMT_LI CPID_MAIN MASK_IMM_LI OPC_LI;
  mk_opc (Some "lgi") 0x2 USE_RDI FRMT_LI CPID_MAIN MASK_IMM_LI OPC_LI;
  mk_opc (Some "lui") 0x4 USE_RDI FRMT_LI CPID_MAIN MASK_IMM_LI OPC_LI;
  mk_opc (Some "lusi") 0x5 USE_RDI FRMT_LI CPID_MAIN MASK_IMM_LI OPC_LI;
  mk_opc (Some "lugi") 0x6 USE_RDI FRMT_LI CPID_MAIN MASK_IMM_LI OPC_LI;
  mk_opc (Some "lni") 0x8 USE_RDI FRMT_LI CPID_MAIN MASK_IMM_LI OPC_LI;
  mk_opc (Some "lnsi") 0x9 USE_RDI FRMT_LI CPID_MAIN MASK_IMM_LI OPC_LI;
  mk_opc (Some "lngi") 0xa USE_RDI FRMT_LI CPID_MAIN MASK_IMM_LI OPC_LI;
  mk_opc (Some "luni") 0xc USE_RDI FRMT_LI CPID_MAIN MASK_IMM_LI OPC_LI;
  mk_opc (Some "lunsi") 0xd USE_RDI FRMT_LI CPID_MAIN MASK_IMM_LI OPC_LI;
  mk_opc (Some "lungi") 0xe USE_RDI FRMT_LI CPID_MAIN MASK_IMM_LI OPC_LI;
  mk_opc (Some "sw") 0x0 USE_RABI_O FRMT_S CPID_MAIN MASK_IMM_S OPC_ST;
  mk_opc (Some "sh") 0x1 USE_RABI_O FRMT_S CPID_MAIN MASK_IMM_S OPC_ST;
  mk_opc (Some "sth") 0x2 USE_RABI_O FRMT_S CPID_MAIN MASK_IMM_S OPC_ST;
  mk_opc (Some "sb") 0x3 USE_RABI_O FRMT_S CPID_MAIN MASK_IMM_S OPC_ST;
  mk_opc (Some "j") 0x0 USE_I FRMT_J CPID_MAIN MASK_IMM_J OPC_JMP;
  mk_opc (Some "jr") 0x1 USE_RAI_O FRMT_J CPID_MAIN MASK_IMM_J OPC_JMP;
  mk_opc (Some "jal") 0x0 USE_I FRMT_J CPID_MAIN MASK_IMM_J OPC_JLNK;
  mk_opc (Some "jrl") 0x1 USE_RAI_O FRMT_J CPID_MAIN MASK_IMM_J OPC_JLNK;
  mk_opc (Some "beq") 0x0 USE_RABI FRMT_B CPID_MAIN MASK_IMM_B OPC_BRANCH;
  mk_opc (Some "bne") 0x1 USE_RABI FRMT_B CPID_MAIN MASK_IMM_B OPC_BRANCH;
  mk_opc (Some "bgt") 0x2 USE_RABI FRMT_B CPID_MAIN MASK_IMM_B OPC_BRANCH;
  mk_opc (Some "blt") 0x3 USE_RABI FRMT_B CPID_MAIN MASK_IMM_B OPC_BRANCH;
  mk_opc (Some "syscall") 0x00 USE_RDAI FRMT_SYS CPID_MAIN MASK_IMM_SYS OPC_SYS;
  mk_opc (Some "sysret") 0x01 USE_RDAI FRMT_SYS CPID_MAIN MASK_IMM_SYS OPC_SYS;
  mk_opc (Some "stspr") 0x02 USE_RDA FRMT_SYS CPID_MAIN MASK_IMM_SYS OPC_SYS;
  mk_opc (Some "ldspr") 0x03 USE_RDA FRMT_SYS CPID_MAIN MASK_IMM_SYS OPC_SYS;
  mk_opc (Some "sync") 0x04 USE_NONE FRMT_SYS CPID_MAIN MASK_NO_IMM OPC_SYS;
  mk_opc (Some "pmir") 0x05 USE_I FRMT_SYS CPID_MAIN MASK_IMM_SYS OPC_SYS;
  mk_opc (Some "pmd") 0x06 USE_I FRMT_SYS CPID_MAIN MASK_IMM_SYS OPC_SYS;
  mk_opc (Some "call") M_CALL USE_RAI_O FRMT_J CPID_MACRO MASK_IMM_J OPC_JLNK;
  mk_opc (Some "la") M_LA USE_RDI FRMT_LI CPID_MACRO MASK_IMM_LI OPC_LI;
  mk_opc (Some "ret") M_RET USE_RAI_O FRMT_J CPID_MACRO MASK_IMM_J OPC_JMP;
  mk_opc None 0 0 0 0 0 0
] ++ replicate 266 opc_zero.


(** ** The tables agree *)

(** The table the disassembler indexes for an opcode. *)
Definition table_of (o : Z) : list fusion_opc_info_t :=
  if o =? OPC_INT then fusion_insn_R else if o =? OPC_IMM then fusion_insn_I
  else if o =? OPC_LD then fusion_insn_L else if o =? OPC_LI then fusion_insn_LI
  else if o =? OPC_ST then fusion_insn_S else if o =? OPC_JMP then fusion_insn_J
  else if o =? OPC_JLNK then fusion_insn_JL else if o =? OPC_BRANCH then fusion_insn_B
  else if o =? OPC_SYS then fusion_insn_SYS else [].

(** The entries before the null name: what the assembler hashes. *)
Fixpoint until_null (l : list fusion_opc_info_t) : list fusion_opc_info_t :=
  match l with
  | e :: l' => match name e with Some _ => e :: until_null l' | None => [] end
  | [] => []
  end.

Definition insn_names : list string := omap name (until_null fusion_insn_all).

(** The declared size of every table is the number of its entries. *)
Definition table_sizes : list (Z * nat) :=
  [(NUM_INSN_R, length fusion_insn_R); (NUM_INSN_I, length fusion_insn_I);
   (NUM_INSN_L, length fusion_insn_L); (NUM_INSN_LI, length fusion_insn_LI);
   (NUM_INSN_S, length fusion_insn_S); (NUM_INSN_J, length fusion_insn_J);
   (NUM_INSN_JL, length fusion_insn_JL); (NUM_INSN_B, length fusion_insn_B);
   (NUM_INSN_SYS, length fusion_insn_SYS); (NUM_INSN, length fusion_insn_all)].

Lemma table_sizes_ok : Forall (fun p => p.1 = Z.of_nat p.2) table_sizes.
Proof. repeat constructor. Qed.

(** An entry of the table of its opcode, found under its own index with its own
    mnemonic, format and immediate mask. *)
Definition entry_agrees (e : fusion_opc_info_t) : bool :=
  match table_of (opc e) !! Z.to_nat (index e) with
  | Some d =>
      bool_decide (name d = name e) && (frmt d =? frmt e) && (imm_mask d =? imm_mask e)
      && (opc d =? opc e) && (index d =? index e)
  | None => false
  end.

Definition real_insn (e : fusion_opc_info_t) : bool := (cpid e =? CPID_MAIN) && negb (opc e =? 0).

Lemma entries_agree :
  forallb (fun e => negb (real_insn e) || entry_agrees e) (until_null fusion_insn_all) = true.
Proof. vm_compute. reflexivity. Qed.

Lemma insn_names_nodup : NoDup insn_names.
Proof. apply (bool_decide_unpack _). vm_compute. exact I. Qed.

(** The number of entries of a per-format table that stand for an instruction
    word, and the fact that each is at its index. *)
Definition self_indexed (t : list fusion_opc_info_t) : bool :=
  forallb (fun p => match name (p.2 : fusion_opc_info_t) with
                    | Some _ => index p.2 =? Z.of_nat p.1 | None => true end)
          (imap pair t).

Lemma tables_self_indexed :
  forallb self_indexed
    [fusion_insn_R; fusion_insn_I; fusion_insn_L; fusion_insn_LI; fusion_insn_S; fusion_insn_J;
     fusion_insn_JL; fusion_insn_B; fusion_insn_SYS] = true.
Proof. vm_compute. reflexivity. Qed.

(** Assembler and disassembler agree on the instruction set: every entry of
    [fusion_insn_all] that stands for one machine instruction is, under its own
    opcode and index, the entry with the same mnemonic, format and immediate
    mask in the table the disassembler consults for that opcode. *)
Theorem insn_tables_agree (e : fusion_opc_info_t) :
  e ∈ until_null fusion_insn_all -> cpid e = CPID_MAIN -> opc e <> 0 ->
  exists d, table_of (opc e) !! Z.to_nat (index e) = Some d
    /\ name d = name e /\ frmt d = frmt e /\ imm_mask d = imm_mask e /\ opc d = opc e.
Proof.
  intros Hin Hc Ho. pose proof entries_agree as H. rewrite forallb_forall in H.
  apply list_elem_of_In in Hin. specialize (H e Hin).
  assert (real_insn e = true) as Hr.
  { unfold real_insn. rewrite Hc. apply Z.eqb_neq in Ho. by rewrite Ho. }
  rewrite Hr in H. cbn in H. unfold entry_agrees in H.
  destruct (table_of (opc e) !! Z.to_nat (index e)) as [d|]; [|done].
  exists d. rewrite !andb_true_iff, bool_decide_eq_true, !Z.eqb_eq in H. tauto.
Qed.

Lemma insn_tables_agree_witness :
  let e := mk_opc (Some "lungi") 0xe USE_RDI FRMT_LI CPID_MAIN MASK_IMM_LI OPC_LI in
  exists d, fusion_insn_LI !! 14%nat = Some d /\ name d = Some "lungi".
Proof.
  intros e.
  assert (e ∈ until_null fusion_insn_all) as Hin.
  { apply (bool_decide_unpack _). vm_compute. exact I. }
  destruct (insn_tables_agree e Hin eq_refl ltac:(discriminate)) as (d & Hd & Hn & _).
  exists d. split; [exact Hd|exact Hn].
Defined.
