(* ===== verification/Endian.v ===== *)
(** * Byte order: bfd/libbfd.c and gas/write.c

    The fixed-width accessors [bfd_getb16] ... [bfd_putl64], the loops
    [bfd_put_bits] and [bfd_get_bits], and the assembler's
    [number_to_chars_bigendian] / [number_to_chars_littleendian].  A pointer
    is a block and an offset; a routine that touches a byte outside the block
    faults.  The theorems: writing then reading returns the value modulo the
    field's width and disturbs no other byte; every fixed-width accessor is the
    general loop at its width; the assembler and BFD lay a word out alike. *)
From S2P Require Import Prelude Bits.
#[local] Open Scope Z_scope.

(** ** Fixed-width reads *)
Definition COERCE16 (x : Z) : Z := u64 (Z.lxor (u64 x) 0x8000 - 0x8000).
Definition COERCE32 (x : Z) : Z := u64 (Z.lxor (u64 x) 0x80000000 - 0x80000000).
Definition COERCE64 (x : Z) : Z :=
  u64 (Z.lxor (u64 x) (Z.shiftl 1 63) - Z.shiftl 1 63).

Definition bfd_getb16 (m : list Z) (p : Z) : res Z :=
  let! a0 := rd m p in
  let! a1 := rd m (p + 1) in
  Ret (Z.lor (Z.shiftl a0 8) a1).

Definition bfd_getl16 (m : list Z) (p : Z) : res Z :=
  let! a1 := rd m (p + 1) in
  let! a0 := rd m p in
  Ret (Z.lor (Z.shiftl a1 8) a0).

Definition bfd_getb_signed_16 (m : list Z) (p : Z) : res Z :=
  let! a0 := rd m p in
  let! a1 := rd m (p + 1) in
  Ret (s64 (COERCE16 (Z.lor (Z.shiftl a0 8) a1))).

Definition bfd_getl_signed_16 (m : list Z) (p : Z) : res Z :=
  let! a1 := rd m (p + 1) in
  let! a0 := rd m p in
  Ret (s64 (COERCE16 (Z.lor (Z.shiftl a1 8) a0))).

Definition bfd_getb32 (m : list Z) (p : Z) : res Z :=
  let! a0 := rd m p in
  let! a1 := rd m (p + 1) in
  let! a2 := rd m (p + 2) in
  let! a3 := rd m (p + 3) in
  Ret (Z.lor (Z.lor (Z.lor (Z.shiftl a0 24) (Z.shiftl a1 16)) (Z.shiftl a2 8)) a3).

Definition bfd_getl32 (m : list Z) (p : Z) : res Z :=
  let! a0 := rd m p in
  let! a1 := rd m (p + 1) in
  let! a2 := rd m (p + 2) in
  let! a3 := rd m (p + 3) in
  Ret (Z.lor (Z.lor (Z.lor a0 (Z.shiftl a1 8)) (Z.shiftl a2 16)) (Z.shiftl a3 24)).

Definition bfd_getb_signed_32 (m : list Z) (p : Z) : res Z :=
  let! a0 := rd m p in
  let! a1 := rd m (p + 1) in
  let! a2 := rd m (p + 2) in
  let! a3 := rd m (p + 3) in
  Ret (s64 (COERCE32
    (Z.lor (Z.lor (Z.lor (Z.shiftl a0 24) (Z.shiftl a1 16)) (Z.shiftl a2 8)) a3))).

Definition bfd_getl_signed_32 (m : list Z) (p : Z) : res Z :=
  let! a0 := rd m p in
  let! a1 := rd m (p + 1) in
  let! a2 := rd m (p + 2) in
  let! a3 := rd m (p + 3) in
  Ret (s64 (COERCE32
    (Z.lor (Z.lor (Z.lor a0 (Z.shiftl a1 8)) (Z.shiftl a2 16)) (Z.shiftl a3 24)))).

(** [v <<= 8; v |= b] on a [bfd_uint64_t]. *)
Definition shift_in (v b : Z) : Z := Z.lor (u64 (Z.shiftl v 8)) b.

Definition bfd_getb64 (m : list Z) (p : Z) : res Z :=
  let! a0 := rd m p in let! a1 := rd m (p + 1) in
  let! a2 := rd m (p + 2) in let! a3 := rd m (p + 3) in
  let! a4 := rd m (p + 4) in let! a5 := rd m (p + 5) in
  let! a6 := rd m (p + 6) in let! a7 := rd m (p + 7) in
  Ret (shift_in (shift_in (shift_in (shift_in (shift_in (shift_in (shift_in a0 a1) a2) a3) a4)
    a5) a6) a7).

Definition bfd_getl64 (m : list Z) (p : Z) : res Z :=
  let! a7 := rd m (p + 7) in let! a6 := rd m (p + 6) in
  let! a5 := rd m (p + 5) in let! a4 := rd m (p + 4) in
  let! a3 := rd m (p + 3) in let! a2 := rd m (p + 2) in
  let! a1 := rd m (p + 1) in let! a0 := rd m p in
  Ret (shift_in (shift_in (shift_in (shift_in (shift_in (shift_in (shift_in a7 a6) a5) a4) a3)
    a2) a1) a0).

Definition bfd_getb_signed_64 (m : list Z) (p : Z) : res Z :=
  let! v := bfd_getb64 m p in Ret (s64 (COERCE64 v)).

Definition bfd_getl_signed_64 (m : list Z) (p : Z) : res Z :=
  let! v := bfd_getl64 m p in Ret (s64 (COERCE64 v)).

(** ** Fixed-width writes *)
Definition bfd_putb16 (data : Z) (m : list Z) (p : Z) : res (list Z) :=
  let! m := wr m p (Z.land (Z.shiftr data 8) 0xff) in
  wr m (p + 1) (Z.land data 0xff).

Definition bfd_putl16 (data : Z) (m : list Z) (p : Z) : res (list Z) :=
  let! m := wr m p (Z.land data 0xff) in
  wr m (p + 1) (Z.land (Z.shiftr data 8) 0xff).

Definition bfd_putb32 (data : Z) (m : list Z) (p : Z) : res (list Z) :=
  let! m := wr m p (Z.land (Z.shiftr data 24) 0xff) in
  let! m := wr m (p + 1) (Z.land (Z.shiftr data 16) 0xff) in
  let! m := wr m (p + 2) (Z.land (Z.shiftr data 8) 0xff) in
  wr m (p + 3) (Z.land data 0xff).

Definition bfd_putl32 (data : Z) (m : list Z) (p : Z) : res (list Z) :=
  let! m := wr m p (Z.land data 0xff) in
  let! m := wr m (p + 1) (Z.land (Z.shiftr data 8) 0xff) in
  let! m := wr m (p + 2) (Z.land (Z.shiftr data 16) 0xff) in
  wr m (p + 3) (Z.land (Z.shiftr data 24) 0xff).

Definition bfd_putb64 (data : Z) (m : list Z) (p : Z) : res (list Z) :=
  let! m := wr m p (Z.land (Z.shiftr data (7 * 8)) 0xff) in
  let! m := wr m (p + 1) (Z.land (Z.shiftr data (6 * 8)) 0xff) in
  let! m := wr m (p + 2) (Z.land (Z.shiftr data (5 * 8)) 0xff) in
  let! m := wr m (p + 3) (Z.land (Z.shiftr data (4 * 8)) 0xff) in
  let! m := wr m (p + 4) (Z.land (Z.shiftr data (3 * 8)) 0xff) in
  let! m := wr m (p + 5) (Z.land (Z.shiftr data (2 * 8)) 0xff) in
  let! m := wr m (p + 6) (Z.land (Z.shiftr data (1 * 8)) 0xff) in
  wr m (p + 7) (Z.land (Z.shiftr data (0 * 8)) 0xff).

Definition bfd_putl64 (data : Z) (m : list Z) (p : Z) : res (list Z) :=
  let! m := wr m (p + 7) (Z.land (Z.shiftr data (7 * 8)) 0xff) in
  let! m := wr m (p + 6) (Z.land (Z.shiftr data (6 * 8)) 0xff) in
  let! m := wr m (p + 5) (Z.land (Z.shiftr data (5 * 8)) 0xff) in
  let! m := wr m (p + 4) (Z.land (Z.shiftr data (4 * 8)) 0xff) in
  let! m := wr m (p + 3) (Z.land (Z.shiftr data (3 * 8)) 0xff) in
  let! m := wr m (p + 2) (Z.land (Z.shiftr data (2 * 8)) 0xff) in
  let! m := wr m (p + 1) (Z.land (Z.shiftr data (1 * 8)) 0xff) in
  wr m p (Z.land (Z.shiftr data (0 * 8)) 0xff).

(** ** The loops *)

(** The [k] iterations from [i] of [bfd_put_bits]. *)
Fixpoint put_bits_loop (k : nat) (i bytes : Z) (big_p : bool) (data : Z) (m : list Z) (p : Z)
  : res (list Z) :=
  match k with
  | O => Ret m
  | S k' =>
      let addr_index := if big_p then bytes - i - 1 else i in
      let! m := wr m (p + addr_index) (Z.land data 0xff) in
      put_bits_loop k' (i + 1) bytes big_p (Z.shiftr data 8) m p
  end.

Definition bfd_put_bits (data : Z) (m : list Z) (p bits : Z) (big_p : bool) : res (list Z) :=
  if negb (Z.rem bits 8 =? 0) then Fail Fabort
  else
    let bytes := Z.quot bits 8 in
    put_bits_loop (Z.to_nat bytes) 0 bytes big_p data m p.

Fixpoint get_bits_loop (k : nat) (i bytes : Z) (big_p : bool) (data : Z) (m : list Z) (p : Z)
  : res Z :=
  match k with
  | O => Ret data
  | S k' =>
      let addr_index := if big_p then i else bytes - i - 1 in
      let! b := rd m (p + addr_index) in
      get_bits_loop k' (i + 1) bytes big_p (Z.lor (u64 (Z.shiftl data 8)) b) m p
  end.

Definition bfd_get_bits (m : list Z) (p bits : Z) (big_p : bool) : res Z :=
  if negb (Z.rem bits 8 =? 0) then Fail Fabort
  else
    let bytes := Z.quot bits 8 in
    get_bits_loop (Z.to_nat bytes) 0 bytes big_p 0 m p.

(** [while (n--) { buf[n] = val & 0xff; val >>= 8; }] *)
Fixpoint chars_big_loop (n : nat) (val : Z) (buf : list Z) (p : Z) : res (list Z) :=
  match n with
  | O => Ret buf
  | S n' =>
      let! buf := wr buf (p + Z.of_nat n') (Z.land val 0xff) in
      chars_big_loop n' (Z.shiftr val 8) buf p
  end.

Definition number_to_chars_bigendian (buf : list Z) (p val n : Z) : res (list Z) :=
  if n <=? 0 then Fail Fabort else chars_big_loop (Z.to_nat n) val buf p.

(** [while (n--) { *buf++ = val & 0xff; val >>= 8; }] *)
Fixpoint chars_little_loop (n : nat) (val : Z) (buf : list Z) (p : Z) : res (list Z) :=
  match n with
  | O => Ret buf
  | S n' =>
      let! buf := wr buf p (Z.land val 0xff) in
      chars_little_loop n' (Z.shiftr val 8) buf (p + 1)
  end.

Definition number_to_chars_littleendian (buf : list Z) (p val n : Z) : res (list Z) :=
  if n <=? 0 then Fail Fabort else chars_little_loop (Z.to_nat n) val buf p.

(** ** Sequences of byte writes *)

(** Writes in order; the fixed-width writers and the loops are instances. *)
Fixpoint writes (l : list (Z * Z)) (m : list Z) : res (list Z) :=
  match l with
  | [] => Ret m
  | (i, v) :: l' => let! m := wr m i v in writes l' m
  end.

Lemma wr_comm (i j v w : Z) (m : list Z) :
  i <> j -> (let! m1 := wr m i v in wr m1 j w) = (let! m1 := wr m j w in wr m1 i v).
Proof.
  intros Hne. unfold wr.
  destruct ((0 <=? i) && (i <? Z.of_nat (length m))) eqn:Ei,
           ((0 <=? j) && (j <? Z.of_nat (length m))) eqn:Ej; cbn;
    rewrite ?length_insert, ?Ei, ?Ej; try done.
  rewrite list_insert_insert_ne; [done|]. rewrite andb_true_iff, !Z.leb_le in *. lia.
Qed.

Lemma writes_perm (l1 l2 : list (Z * Z)) (m : list Z) :
  Permutation l1 l2 -> NoDup (map fst l1) -> writes l1 m = writes l2 m.
Proof.
  intros HP. revert m. induction HP as [|[i v] l1 l2 HP IH|[i v] [j w] l|l1 l2 l3 H1 IH1 H2 IH2];
    intros m Hnd; cbn in *.
  - done.
  - apply NoDup_cons in Hnd as [_ Hnd]. destruct (wr m i v); cbn; [by apply IH|done].
  - apply NoDup_cons in Hnd as [Hni Hnd].
    assert (i <> j) as Hne by set_solver.
    pose proof (wr_comm i j v w m Hne) as Hc.
    destruct (wr m i v) as [m1|] eqn:E1, (wr m j w) as [m2|] eqn:E2; cbn in *; try done.
    + destruct (wr m1 j w), (wr m2 i v); cbn; congruence.
    + by rewrite Hc.
    + by rewrite <- Hc.
  - rewrite IH1 by done. apply IH2.
    by rewrite <- (fmap_Permutation fst _ _ H1).
Qed.

(** ** The loops as writes *)

(** Where the byte of weight [256 ^ j] of a [bytes]-byte field goes. *)
Definition byte_pos (big_p : bool) (bytes j : Z) : Z := if big_p then bytes - j - 1 else j.

(** The byte of weight [256 ^ j]. *)
Definition byte_of (data j : Z) : Z := Z.land (Z.shiftr data (8 * j)) 0xff.

Definition field_writes (big_p : bool) (bytes p data : Z) (js : list Z) : list (Z * Z) :=
  (fun j => (p + byte_pos big_p bytes j, byte_of data j)) <$> js.

Lemma put_bits_loop_writes (k : nat) (i bytes : Z) (big_p : bool) (data : Z) (m : list Z) (p : Z) :
  0 <= i ->
  put_bits_loop k i bytes big_p (Z.shiftr data (8 * i)) m p
  = writes (field_writes big_p bytes p data (seqZ i (Z.of_nat k))) m.
Proof.
  revert i m. induction k as [|k IH]; intros i m Hi; [done|].
  rewrite seqZ_cons by lia. cbn [put_bits_loop field_writes fmap list_fmap writes].
  change (Z.land (Z.shiftr data (8 * i)) 0xff) with (byte_of data i).
  change (if big_p then bytes - i - 1 else i) with (byte_pos big_p bytes i).
  destruct (wr m (p + byte_pos big_p bytes i) (byte_of data i)) as [m'|]; cbn [rbind]; [|done].
  rewrite Z.shiftr_shiftr by lia. replace (8 * i + 8) with (8 * (i + 1)) by lia.
  replace (Z.pred (Z.of_nat (S k))) with (Z.of_nat k) by lia.
  apply (IH (i + 1) m'). lia.
Qed.

Lemma put_bits_writes (n : nat) (data : Z) (m : list Z) (p : Z) (big_p : bool) :
  bfd_put_bits data m p (8 * Z.of_nat n) big_p
  = writes (field_writes big_p (Z.of_nat n) p data (seqZ 0 (Z.of_nat n))) m.
Proof.
  unfold bfd_put_bits. rewrite Z.mul_comm, Z.rem_mul, Z.quot_mul, Nat2Z.id by lia.
  cbn [negb]. rewrite <- put_bits_loop_writes by lia. done.
Qed.

Lemma field_writes_nodup (big_p : bool) (bytes p data i k : Z) :
  NoDup (map fst (field_writes big_p bytes p data (seqZ i k))).
Proof.
  unfold field_writes. rewrite <- list_fmap_compose. apply NoDup_fmap_2; [|apply NoDup_seqZ].
  intros x y. cbn. unfold byte_pos. destruct big_p; lia.
Qed.

(** A sequence of writes inside the block succeeds, changes only the bytes it
    names and leaves in each the last value written there. *)
Lemma writes_spec (l : list (Z * Z)) (m : list Z) :
  NoDup (map fst l) -> Forall (fun w => 0 <= w.1 < Z.of_nat (length m)) l ->
  exists m', writes l m = Ret m' /\ length m' = length m
    /\ (forall i v, (i, v) ∈ l -> rd m' i = Ret v)
    /\ (forall j, j ∉ map fst l -> rd m' j = rd m j)
    /\ (bytes_ok m -> Forall (fun w => is_byte w.2) l -> bytes_ok m').
Proof.
  revert m. induction l as [|[i v] l IH]; intros m Hnd Hr; cbn.
  { exists m. split_and!; auto. intros i v Hin. by apply not_elem_of_nil in Hin. }
  apply NoDup_cons in Hnd as [Hni Hnd]. apply Forall_cons in Hr as [Hi Hr]. cbn in Hi.
  rewrite wr_ret by done. cbn [rbind].
  destruct (IH (<[Z.to_nat i:=v]> m)) as (m' & Hm' & Hlen & Hin & Hout & Hok); [done|by rewrite length_insert|].
  exists m'. split_and!; [done|by rewrite Hlen, length_insert|..].
  - intros i' v' [[= -> ->]|Hin']%elem_of_cons; [|by apply Hin].
    rewrite Hout by done. rewrite rd_insert by done. by rewrite Z.eqb_refl.
  - intros j [Hji Hj]%not_elem_of_cons. rewrite Hout by done. rewrite rd_insert by done.
    destruct (Z.eqb_spec i j); congruence.
  - intros Hm [Hv Hl]%Forall_cons. apply Hok; [|done]. by apply bytes_ok_insert.
Qed.

Lemma field_writes_range (big_p : bool) (n : nat) (p data len : Z) :
  0 <= p -> p + Z.of_nat n <= len ->
  Forall (fun w => 0 <= w.1 < len) (field_writes big_p (Z.of_nat n) p data (seqZ 0 (Z.of_nat n))).
Proof.
  intros Hp Hl. apply Forall_fmap, Forall_forall. intros j Hj%elem_of_seqZ. cbn.
  unfold byte_pos. destruct big_p; lia.
Qed.

Lemma put_bits_spec (n : nat) (data : Z) (m : list Z) (p : Z) (big_p : bool) :
  0 <= p -> p + Z.of_nat n <= Z.of_nat (length m) ->
  exists m', bfd_put_bits data m p (8 * Z.of_nat n) big_p = Ret m'
    /\ same_outside m m' p (Z.of_nat n)
    /\ (forall j, 0 <= j < Z.of_nat n ->
          rd m' (p + byte_pos big_p (Z.of_nat n) j) = Ret (byte_of data j))
    /\ (bytes_ok m -> bytes_ok m').
Proof.
  intros Hp Hl. rewrite put_bits_writes.
  destruct (writes_spec (field_writes big_p (Z.of_nat n) p data (seqZ 0 (Z.of_nat n))) m)
    as (m' & Hm & Hlen & Hin & Hout & Hok);
    [apply field_writes_nodup|by apply field_writes_range|].
  exists m'. split_and!; [done|split; [done|]|..].
  - intros j Hj. apply Hout. unfold field_writes. rewrite <- list_fmap_compose.
    intros (x & -> & Hx%elem_of_seqZ)%list_elem_of_fmap. cbn in Hj. unfold byte_pos in Hj.
    destruct big_p; lia.
  - intros j Hj. apply Hin. apply list_elem_of_fmap. exists j. split; [done|].
    apply elem_of_seqZ. lia.
  - intros Hm'. apply Hok; [done|]. apply Forall_fmap, Forall_forall. intros x _. apply land_byte.
Qed.

(** Shifting in the next byte extends the most significant part of the value. *)
Lemma shift_in_step (D k : Z) :
  0 <= D < 2 ^ 64 -> 0 <= k ->
  Z.lor (u64 (Z.shiftl (Z.shiftr D (8 * (k + 1))) 8)) (byte_of D k) = Z.shiftr D (8 * k).
Proof.
  intros HD Hk. unfold u64, byte_of. change 0xff with (Z.ones 8). rewrite <- Z.land_ones by lia.
  apply Z.bits_inj'. intros n Hn.
  rewrite Z.lor_spec, !Z.land_spec, Z.shiftl_spec, (Z.shiftr_spec D (8 * k)) by lia.
  destruct (Z.ltb_spec n 8).
  - rewrite (Z.testbit_neg_r _ (n - 8)), (Z.ones_spec_low 8) by lia. by rewrite andb_true_r.
  - rewrite (Z.ones_spec_high 8) by lia. rewrite andb_false_r, orb_false_r.
    rewrite !Z.shiftr_spec by lia. replace (n - 8 + 8 * (k + 1)) with (n + 8 * k) by lia.
    destruct (Z.ltb_spec n 64); [rewrite Z.ones_spec_low, andb_true_r by lia; done|].
    rewrite Z.ones_spec_high, andb_false_r by lia. symmetry. apply (testbit_u 64); lia.
Qed.

Lemma get_bits_loop_spec (k : nat) (i : Z) (n : nat) (big_p : bool) (D : Z) (m : list Z) (p : Z) :
  0 <= D < 2 ^ 64 -> 0 <= i -> i + Z.of_nat k = Z.of_nat n ->
  (forall j, 0 <= j < Z.of_nat n -> rd m (p + byte_pos big_p (Z.of_nat n) j) = Ret (byte_of D j)) ->
  get_bits_loop k i (Z.of_nat n) big_p (Z.shiftr D (8 * (Z.of_nat n - i))) m p = Ret D.
Proof.
  intros HD. revert i. induction k as [|k IH]; intros i Hi Hn Hrd; cbn [get_bits_loop].
  { replace (Z.of_nat n - i) with 0 by lia. done. }
  replace (if big_p then i else Z.of_nat n - i - 1)
    with (byte_pos big_p (Z.of_nat n) (Z.of_nat n - i - 1)) by (unfold byte_pos; destruct big_p; lia).
  rewrite Hrd by lia. cbn [rbind].
  replace (Z.of_nat n - i) with ((Z.of_nat n - (i + 1)) + 1) at 1 by lia.
  replace (Z.of_nat n - i - 1) with (Z.of_nat n - (i + 1)) by lia.
  rewrite shift_in_step by lia. apply IH; [lia|lia|done].
Qed.

Lemma byte_of_mod (data : Z) (n : nat) (j : Z) :
  0 <= j < Z.of_nat n -> byte_of (data mod 2 ^ (8 * Z.of_nat n)) j = byte_of data j.
Proof.
  intros Hj. unfold byte_of. change 0xff with (Z.ones 8).
  apply Z.bits_inj'. intros i Hi. rewrite !Z.land_spec, !Z.shiftr_spec by lia.
  destruct (Z.ltb_spec i 8).
  - rewrite Z.mod_pow2_bits_low by lia. done.
  - by rewrite Z.ones_spec_high, !andb_false_r by lia.
Qed.

Lemma get_bits_ret (n : nat) (data : Z) (m : list Z) (p : Z) (big_p : bool) :
  (n <= 8)%nat ->
  (forall j, 0 <= j < Z.of_nat n -> rd m (p + byte_pos big_p (Z.of_nat n) j) = Ret (byte_of data j)) ->
  bfd_get_bits m p (8 * Z.of_nat n) big_p = Ret (data mod 2 ^ (8 * Z.of_nat n)).
Proof.
  intros Hn Hrd. unfold bfd_get_bits.
  rewrite (Z.mul_comm 8), Z.rem_mul, Z.quot_mul, Nat2Z.id, <- (Z.mul_comm 8) by lia. cbn [negb].
  set (D := data mod 2 ^ (8 * Z.of_nat n)).
  assert (HD : 0 <= D < 2 ^ (8 * Z.of_nat n)) by (apply Z.mod_pos_bound; apply Z.pow_pos_nonneg; lia).
  assert (2 ^ (8 * Z.of_nat n) <= 2 ^ 64) by (apply Z.pow_le_mono_r; lia).
  transitivity (get_bits_loop n 0 (Z.of_nat n) big_p (Z.shiftr D (8 * (Z.of_nat n - 0))) m p).
  - f_equal. rewrite Z.sub_0_r, Z.shiftr_div_pow2 by lia. symmetry. by apply Z.div_small.
  - apply get_bits_loop_spec; [lia|lia|lia|]. intros j Hj. unfold D. rewrite byte_of_mod; auto.
Qed.

(** Writing a field of up to eight bytes in either byte order and reading it
    back returns the value modulo the field's width; the write leaves every
    byte outside the field as it was. *)
Theorem bfd_get_put_bits (n : nat) (data : Z) (m : list Z) (p : Z) (big_p : bool) :
  (n <= 8)%nat -> 0 <= p -> p + Z.of_nat n <= Z.of_nat (length m) ->
  exists m', bfd_put_bits data m p (8 * Z.of_nat n) big_p = Ret m'
    /\ bfd_get_bits m' p (8 * Z.of_nat n) big_p = Ret (data mod 2 ^ (8 * Z.of_nat n))
    /\ same_outside m m' p (Z.of_nat n).
Proof.
  intros Hn Hp Hl. destruct (put_bits_spec n data m p big_p Hp Hl) as (m' & Hm & Hs & Hb & _).
  exists m'. split_and!; [done| |done]. by apply get_bits_ret.
Qed.

Lemma bfd_get_put_bits_witness :
  exists m', bfd_put_bits 0x123456789 [9; 9; 9; 9; 9; 9] 1 32 true = Ret m'
    /\ bfd_get_bits m' 1 32 true = Ret 0x23456789.
Proof.
  destruct (bfd_get_put_bits 4 0x123456789 [9; 9; 9; 9; 9; 9] 1 true) as (m' & H1 & H2 & _);
    [lia|lia|cbn; lia|].
  exists m'. split; [exact H1|exact H2].
Defined.

(** ** The fixed-width accessors are the loops *)

Lemma rd_cases (m : list Z) (i : Z) :
  bytes_ok m -> (exists b, rd m i = Ret b /\ is_byte b) \/ rd m i = Fail Foob.
Proof.
  intros Hm. destruct (decide (0 <= i < Z.of_nat (length m))) as [Hi|Hi].
  - destruct (rd_ret m i Hi) as (b & Hb & _). left. exists b. split; [done|]. by eapply rd_byte.
  - right. by apply rd_oob.
Qed.

(** Normalises the closed offsets an unfolded loop computes. *)
Ltac offsets :=
  repeat (progress (
    try change (0 + 1) with 1; try change (1 + 1) with 2; try change (2 + 1) with 3;
    try change (3 + 1) with 4; try change (4 + 1) with 5; try change (5 + 1) with 6;
    try change (6 + 1) with 7;
    try change (2 - 0 - 1) with 1; try change (2 - 1 - 1) with 0;
    try change (4 - 0 - 1) with 3; try change (4 - 1 - 1) with 2;
    try change (4 - 2 - 1) with 1; try change (4 - 3 - 1) with 0;
    try change (8 - 0 - 1) with 7; try change (8 - 1 - 1) with 6;
    try change (8 - 2 - 1) with 5; try change (8 - 3 - 1) with 4;
    try change (8 - 4 - 1) with 3; try change (8 - 5 - 1) with 2;
    try change (8 - 6 - 1) with 1; try change (8 - 7 - 1) with 0));
  rewrite ?Z.add_0_r.

(** Case analysis on the read at each offset in turn. *)
Ltac read_at m i Hm :=
  let b := fresh "b" in let Hb := fresh "Hb" in let E := fresh "E" in
  destruct (rd_cases m i Hm) as [(b & E & Hb)|E]; rewrite ?E; cbn [rbind]; offsets;
  [unfold is_byte in Hb; change 256 with (2 ^ 8) in Hb|].

(** Unfolds the reading loop at a closed width. *)
Ltac unloop :=
  unfold bfd_get_bits; change (negb _) with false; cbv iota;
  match goal with |- context [get_bits_loop (Z.to_nat ?e) 0 _ _ 0 _ _] =>
    let v := eval vm_compute in e in change e with v;
    let n := eval vm_compute in (Z.to_nat e) in change (Z.to_nat v) with n end;
  cbn [get_bits_loop]; offsets.

Lemma getb16_bits m p : bytes_ok m -> bfd_getb16 m p = bfd_get_bits m p 16 true.
Proof.
  intros Hm. unfold bfd_getb16. unloop.
  read_at m p Hm; [|done].
  read_at m (p + 1) Hm; [|done].
  f_equal. bits.
Qed.

Lemma getl16_bits m p : bytes_ok m -> bfd_getl16 m p = bfd_get_bits m p 16 false.
Proof.
  intros Hm. unfold bfd_getl16. unloop.
  read_at m (p + 1) Hm; [|done].
  read_at m p Hm; [|done].
  f_equal; bits.
Qed.

Lemma getb32_bits m p : bytes_ok m -> bfd_getb32 m p = bfd_get_bits m p 32 true.
Proof.
  intros Hm. unfold bfd_getb32. unloop.
  read_at m p Hm; [|done].
  read_at m (p + 1) Hm; [|done].
  read_at m (p + 2) Hm; [|done].
  read_at m (p + 3) Hm; [|done].
  f_equal. bits.
Qed.

Lemma getl32_bits m p : bytes_ok m -> bfd_getl32 m p = bfd_get_bits m p 32 false.
Proof.
  intros Hm. unfold bfd_getl32. unloop.
  read_at m p Hm; read_at m (p + 1) Hm; read_at m (p + 2) Hm; read_at m (p + 3) Hm; try done.
  f_equal. bits.
Qed.

Lemma getb64_bits m p : bytes_ok m -> bfd_getb64 m p = bfd_get_bits m p 64 true.
Proof.
  intros Hm. unfold bfd_getb64, shift_in. unloop.
  read_at m p Hm; [|done].
  read_at m (p + 1) Hm; [|done].
  read_at m (p + 2) Hm; [|done].
  read_at m (p + 3) Hm; [|done].
  read_at m (p + 4) Hm; [|done].
  read_at m (p + 5) Hm; [|done].
  read_at m (p + 6) Hm; [|done].
  read_at m (p + 7) Hm; [|done].
  done.
Qed.

Lemma getl64_bits m p : bytes_ok m -> bfd_getl64 m p = bfd_get_bits m p 64 false.
Proof.
  intros Hm. unfold bfd_getl64, shift_in. unloop.
  read_at m (p + 7) Hm; [|done].
  read_at m (p + 6) Hm; [|done].
  read_at m (p + 5) Hm; [|done].
  read_at m (p + 4) Hm; [|done].
  read_at m (p + 3) Hm; [|done].
  read_at m (p + 2) Hm; [|done].
  read_at m (p + 1) Hm; [|done].
  read_at m p Hm; [|done].
  f_equal; bits.
Qed.


(** The writers as loops: both are writes of the same bytes at the same
    offsets, in another order. *)
Lemma put_writes_eq (n : nat) (big_p : bool) (data : Z) (m : list Z) (p : Z) (l : list (Z * Z)) :
  Permutation l (field_writes big_p (Z.of_nat n) p data (seqZ 0 (Z.of_nat n))) ->
  writes l m = bfd_put_bits data m p (8 * Z.of_nat n) big_p.
Proof.
  intros HP. rewrite put_bits_writes. symmetry. apply writes_perm; [done|].
  apply field_writes_nodup.
Qed.

Lemma wr_cons (i j v : Z) (l : list (Z * Z)) (k : list Z -> res (list Z)) (m : list Z) :
  i = j -> (forall m', k m' = writes l m') -> rbind (wr m i v) k = writes ((j, v) :: l) m.
Proof. intros <- Hk. cbn. destruct (wr m i v); cbn; auto. Qed.

Lemma wr_last (i j v : Z) (m : list Z) : i = j -> wr m i v = writes [(j, v)] m.
Proof. intros <-. cbn. by destruct (wr m i v). Qed.

(** A fixed-width writer is [writes] of its literal list of bytes. *)
Ltac by_writes :=
  repeat (apply wr_cons; [lia|intros ?]); apply wr_last; lia.

(** The bytes [js] of [data] at their places in an [n]-byte field. *)
Ltac put_as_bits n big_p data m p js :=
  transitivity (writes (field_writes big_p (Z.of_nat n) p data js) m);
  [cbv [field_writes byte_pos fmap list_fmap]; by_writes
  |apply (put_writes_eq n big_p); apply fmap_Permutation;
   first [reflexivity | apply Permutation_rev]].

Lemma putb16_bits data m p : bfd_putb16 data m p = bfd_put_bits data m p 16 true.
Proof. put_as_bits 2%nat true data m p [1; 0]. Qed.

Lemma putl16_bits data m p : bfd_putl16 data m p = bfd_put_bits data m p 16 false.
Proof. put_as_bits 2%nat false data m p [0; 1]. Qed.

Lemma putb32_bits data m p : bfd_putb32 data m p = bfd_put_bits data m p 32 true.
Proof. put_as_bits 4%nat true data m p [3; 2; 1; 0]. Qed.

Lemma putl32_bits data m p : bfd_putl32 data m p = bfd_put_bits data m p 32 false.
Proof. put_as_bits 4%nat false data m p [0; 1; 2; 3]. Qed.

Lemma putb64_bits data m p : bfd_putb64 data m p = bfd_put_bits data m p 64 true.
Proof. put_as_bits 8%nat true data m p [7; 6; 5; 4; 3; 2; 1; 0]. Qed.

Lemma putl64_bits data m p : bfd_putl64 data m p = bfd_put_bits data m p 64 false.
Proof. put_as_bits 8%nat false data m p [7; 6; 5; 4; 3; 2; 1; 0]. Qed.

Lemma chars_big_writes (n : nat) (i bytes val : Z) (buf : list Z) (p : Z) :
  bytes = i + Z.of_nat n ->
  chars_big_loop n val buf p = put_bits_loop n i bytes true val buf p.
Proof.
  revert i val buf. induction n as [|n IH]; intros i val buf Hb; [done|]. cbn [chars_big_loop put_bits_loop].
  replace (bytes - i - 1) with (Z.of_nat n) by lia.
  destruct (wr buf (p + Z.of_nat n) (Z.land val 0xff)); cbn [rbind]; [|done]. apply IH. lia.
Qed.

Lemma chars_little_writes (n : nat) (i bytes val : Z) (buf : list Z) (p : Z) :
  chars_little_loop n val buf (p + i) = put_bits_loop n i bytes false val buf p.
Proof.
  revert i val buf. induction n as [|n IH]; intros i val buf; [done|]. cbn [chars_little_loop put_bits_loop].
  destruct (wr buf (p + i) (Z.land val 0xff)); cbn [rbind]; [|done].
  rewrite <- IH. by rewrite Z.add_assoc.
Qed.

Lemma number_to_chars_bits (buf : list Z) (p val : Z) (n : nat) :
  (0 < n)%nat ->
  number_to_chars_bigendian buf p val (Z.of_nat n) = bfd_put_bits val buf p (8 * Z.of_nat n) true
  /\ number_to_chars_littleendian buf p val (Z.of_nat n)
     = bfd_put_bits val buf p (8 * Z.of_nat n) false.
Proof.
  intros Hn. unfold number_to_chars_bigendian, number_to_chars_littleendian, bfd_put_bits.
  rewrite (Z.mul_comm 8), Z.rem_mul, Z.quot_mul, Nat2Z.id by lia. cbn [negb].
  rewrite (proj2 (Z.leb_gt _ _)) by lia. split.
  - apply chars_big_writes. lia.
  - rewrite <- (chars_little_writes n 0). by rewrite Z.add_0_r.
Qed.

(** ** The signed readers *)
Lemma lxor_sign (k x : Z) : 
  0 <= k -> 0 <= x < 2 ^ (k + 1) ->
  Z.lxor x (2 ^ k) - 2 ^ k = sext (k + 1) x.
Proof.
  intros Hk Hx. symmetry. rewrite Z.pow_add_r in Hx by lia. change (2 ^ 1) with 2 in Hx.
  assert (Hp : 0 < 2 ^ k) by (apply Z.pow_pos_nonneg; lia).
  assert (Hs : Z.lxor x (2 ^ k) = if Z.testbit x k then x - 2 ^ k else x + 2 ^ k).
  { destruct (Z.testbit x k) eqn:E.
    - rewrite Z.sub_nocarry_ldiff.
      + apply Z.bits_inj'. intros i Hi. rewrite Z.lxor_spec, Z.ldiff_spec, Z.pow2_bits_eqb by lia.
        destruct (Z.eqb_spec k i) as [->|]; [by rewrite E|]. by rewrite xorb_false_r, andb_true_r.
      + apply Z.bits_inj'. intros i Hi. rewrite Z.ldiff_spec, Z.bits_0, Z.pow2_bits_eqb by lia.
        destruct (Z.eqb_spec k i) as [->|]; [by rewrite E|done].
    - rewrite Z.add_nocarry_lxor; [done|]. apply Z.bits_inj'. intros i Hi.
      rewrite Z.land_spec, Z.bits_0, Z.pow2_bits_eqb by lia.
      destruct (Z.eqb_spec k i) as [->|]; [by rewrite E|by rewrite andb_false_r]. }
  assert (Ht : Z.testbit x k = (2 ^ k <=? x)).
  { rewrite Z.testbit_eqb by lia.
    destruct (Z.leb_spec (2 ^ k) x).
    - replace (x / 2 ^ k) with 1; [done|]. apply Z.div_unique with (x - 2 ^ k); lia.
    - rewrite Z.div_small by lia. done. }
  apply sext_unique; [lia|..]; rewrite Hs, Ht; replace (k + 1 - 1) with k by lia;
    destruct (Z.leb_spec (2 ^ k) x); try lia.
  - rewrite Z.pow_add_r by lia. change (2 ^ 1) with 2.
    replace (x - 2 ^ k - 2 ^ k) with (x + (-1) * (2 ^ k * 2)) by lia. by rewrite Z_mod_plus_full.
  - f_equal. lia.
Qed.

(** The [COERCE] macros, read back through [bfd_signed_vma], sign-extend. *)
Lemma coerce_sext (k c v : Z) :
  0 <= k <= 63 -> c = 2 ^ k -> 0 <= v < 2 ^ (k + 1) ->
  s64 (u64 (Z.lxor (u64 v) c - c)) = sext (k + 1) v.
Proof.
  intros Hk -> Hv.
  assert (H64 : 2 ^ (k + 1) <= 2 ^ 64) by (apply Z.pow_le_mono_r; lia).
  rewrite (u64_small v) by lia. rewrite lxor_sign by lia.
  destruct (sext_spec (k + 1) v) as [Hr _]; [lia|]. replace (k + 1 - 1) with k in Hr by lia.
  assert (2 ^ k <= 2 ^ 63) by (apply Z.pow_le_mono_r; lia).
  change s64 with (sext 64). apply sext_unique; [lia|cbn; lia|].
  unfold u64. by rewrite Z.mod_mod by lia.
Qed.

Lemma get_bits_range (n : nat) (m : list Z) (p v : Z) (big_p : bool) :
  (n <= 8)%nat -> bytes_ok m ->
  bfd_get_bits m p (8 * Z.of_nat n) big_p = Ret v -> 0 <= v < 2 ^ (8 * Z.of_nat n).
Proof.
  intros Hn Hm. unfold bfd_get_bits.
  rewrite (Z.mul_comm 8), Z.rem_mul, Z.quot_mul, Nat2Z.id, <- (Z.mul_comm 8) by lia. cbn [negb].
  assert (Hgen : forall k i acc, 0 <= acc < 2 ^ (8 * (Z.of_nat n - Z.of_nat k)) -> (k <= n)%nat ->
    get_bits_loop k i (Z.of_nat n) big_p acc m p = Ret v -> 0 <= v < 2 ^ (8 * Z.of_nat n)).
  { induction k as [|k IH]; intros i acc Hacc Hk; cbn [get_bits_loop].
    - intros [= <-]. by rewrite Z.sub_0_r in Hacc.
    - set (j := p + _). destruct (rd_cases m j Hm) as [(b & E & Hb)|E]; rewrite E; cbn [rbind]; [|done].
      apply IH; [|lia]. set (w := 8 * (Z.of_nat n - Z.of_nat k)).
      apply lor_range; [lia| |].
      + assert (Hs : 0 <= Z.shiftl acc 8 < 2 ^ w).
        { apply shiftl_range; [lia|]. by replace (w - 8) with (8 * (Z.of_nat n - Z.of_nat (S k))) by lia. }
        assert (2 ^ w <= 2 ^ 64) by (apply Z.pow_le_mono_r; lia). by rewrite u64_small by lia.
      + unfold is_byte in Hb. assert (2 ^ 8 <= 2 ^ w) by (apply Z.pow_le_mono_r; lia). lia. }
  apply Hgen; [|lia]. rewrite Z.sub_diag. cbn. lia.
Qed.

Lemma get_bits_total (n : nat) (m : list Z) (p : Z) (big_p : bool) :
  (n <= 8)%nat -> bytes_ok m -> 0 <= p -> p + Z.of_nat n <= Z.of_nat (length m) ->
  exists v, bfd_get_bits m p (8 * Z.of_nat n) big_p = Ret v /\ 0 <= v < 2 ^ (8 * Z.of_nat n).
Proof.
  intros Hn Hm Hp Hl.
  assert (exists v, bfd_get_bits m p (8 * Z.of_nat n) big_p = Ret v) as (v & Hv).
  { unfold bfd_get_bits. rewrite (Z.mul_comm 8), Z.rem_mul, Z.quot_mul, Nat2Z.id by lia. cbn [negb].
    assert (Hgen : forall k i acc, 0 <= i -> i + Z.of_nat k <= Z.of_nat n ->
      exists v, get_bits_loop k i (Z.of_nat n) big_p acc m p = Ret v).
    { induction k as [|k IH]; intros i acc Hi Hk; cbn [get_bits_loop]; [eauto|].
      destruct (rd_ret m (p + (if big_p then i else Z.of_nat n - i - 1))) as (b & -> & _);
        [destruct big_p; lia|]. apply IH; lia. }
    apply Hgen; lia. }
  exists v. split; [done|]. by eapply get_bits_range.
Qed.

Lemma rbind_assoc {A B C : Type} (m : res A) (f : A -> res B) (g : B -> res C) :
  rbind (rbind m f) g = rbind m (fun a => rbind (f a) g).
Proof. by destruct m. Qed.

Lemma rbind_ext {A B : Type} (m : res A) (f g : A -> res B) :
  (forall a, f a = g a) -> rbind m f = rbind m g.
Proof. intros H. destruct m; cbn; auto. Qed.

(** Reassociates the reads of an inlined reader. *)
Ltac same_reads := repeat (rewrite rbind_assoc; apply rbind_ext; intros ?); done.

(** The signed reader of a width is the unsigned one, then a sign extension. *)
Ltac signed_reader eq n big :=
  let v := fresh "v" in let E := fresh "E" in
  match goal with |- _ = rbind ?g _ => destruct g as [v|] eqn:E end; cbn [rbind]; [|done];
  rewrite eq in E by done; apply (get_bits_range n _ _ _ big) in E; [|lia|done];
  f_equal; (apply (coerce_sext (8 * Z.of_nat n - 1)); [lia|reflexivity|exact E]).

(** Every fixed-width accessor of libbfd.c, in both byte orders, is the
    general bit loop at its width, and the assembler's [number_to_chars]
    routines lay out a field exactly as BFD's [bfd_put_bits] does. *)
Theorem accessors_are_loops (m : list Z) (p data : Z) (n : nat) :
  bytes_ok m -> (0 < n)%nat ->
  (bfd_getb16 m p = bfd_get_bits m p 16 true /\ bfd_getl16 m p = bfd_get_bits m p 16 false
   /\ bfd_getb32 m p = bfd_get_bits m p 32 true /\ bfd_getl32 m p = bfd_get_bits m p 32 false
   /\ bfd_getb64 m p = bfd_get_bits m p 64 true /\ bfd_getl64 m p = bfd_get_bits m p 64 false)
  /\ (bfd_putb16 data m p = bfd_put_bits data m p 16 true
   /\ bfd_putl16 data m p = bfd_put_bits data m p 16 false
   /\ bfd_putb32 data m p = bfd_put_bits data m p 32 true
   /\ bfd_putl32 data m p = bfd_put_bits data m p 32 false
   /\ bfd_putb64 data m p = bfd_put_bits data m p 64 true
   /\ bfd_putl64 data m p = bfd_put_bits data m p 64 false)
  /\ number_to_chars_bigendian m p data (Z.of_nat n) = bfd_put_bits data m p (8 * Z.of_nat n) true
  /\ number_to_chars_littleendian m p data (Z.of_nat n)
     = bfd_put_bits data m p (8 * Z.of_nat n) false.
Proof.
  intros Hm Hn. split_and!;
    auto using getb16_bits, getl16_bits, getb32_bits, getl32_bits, getb64_bits, getl64_bits,
      putb16_bits, putl16_bits, putb32_bits, putl32_bits, putb64_bits, putl64_bits;
    by apply number_to_chars_bits.
Qed.

Lemma accessors_are_loops_witness :
  bytes_ok [1; 2; 3; 4; 5; 6; 7; 8]
  /\ bfd_getb32 [1; 2; 3; 4; 5; 6; 7; 8] 2 = bfd_get_bits [1; 2; 3; 4; 5; 6; 7; 8] 2 32 true.
Proof.
  assert (H : bytes_ok [1; 2; 3; 4; 5; 6; 7; 8]) by (repeat constructor; lia).
  split; [exact H|].
  exact (proj1 (proj2 (proj2 (proj1 (accessors_are_loops _ 2 0 1 H (Nat.lt_0_succ 0)))))).
Defined.

Lemma getb_signed_32_sext (m : list Z) (p : Z) :
  bytes_ok m -> bfd_getb_signed_32 m p = (let! v := bfd_getb32 m p in Ret (sext 32 v)).
Proof.
  intros Hm. transitivity (let! v := bfd_getb32 m p in Ret (s64 (COERCE32 v))).
  - unfold bfd_getb_signed_32, bfd_getb32. symmetry. same_reads.
  - signed_reader getb32_bits 4%nat true.
Qed.

(** Each signed reader returns the unsigned reader's value sign-extended
    from its width, and faults exactly when the unsigned one does. *)
Theorem signed_readers (m : list Z) (p : Z) :
  bytes_ok m ->
  bfd_getb_signed_16 m p = (let! v := bfd_getb16 m p in Ret (sext 16 v))
  /\ bfd_getl_signed_16 m p = (let! v := bfd_getl16 m p in Ret (sext 16 v))
  /\ bfd_getb_signed_32 m p = (let! v := bfd_getb32 m p in Ret (sext 32 v))
  /\ bfd_getl_signed_32 m p = (let! v := bfd_getl32 m p in Ret (sext 32 v))
  /\ bfd_getb_signed_64 m p = (let! v := bfd_getb64 m p in Ret (sext 64 v))
  /\ bfd_getl_signed_64 m p = (let! v := bfd_getl64 m p in Ret (sext 64 v)).
Proof.
  intros Hm. split_and!.
  - transitivity (let! v := bfd_getb16 m p in Ret (s64 (COERCE16 v))).
    + unfold bfd_getb_signed_16, bfd_getb16. symmetry. same_reads.
    + signed_reader getb16_bits 2%nat true.
  - transitivity (let! v := bfd_getl16 m p in Ret (s64 (COERCE16 v))).
    + unfold bfd_getl_signed_16, bfd_getl16. symmetry. same_reads.
    + signed_reader getl16_bits 2%nat false.
  - by apply getb_signed_32_sext.
  - transitivity (let! v := bfd_getl32 m p in Ret (s64 (COERCE32 v))).
    + unfold bfd_getl_signed_32, bfd_getl32. symmetry. same_reads.
    + signed_reader getl32_bits 4%nat false.
  - unfold bfd_getb_signed_64. signed_reader getb64_bits 8%nat true.
  - unfold bfd_getl_signed_64. signed_reader getl64_bits 8%nat false.
Qed.

Lemma signed_readers_witness :
  bytes_ok [255; 254] /\ bfd_getb_signed_16 [255; 254] 0 = Ret (-2).
Proof.
  assert (H : bytes_ok [255; 254]) by (repeat constructor; lia).
  split; [exact H|]. rewrite (proj1 (signed_readers [255; 254] 0 H)). reflexivity.
Defined.

(** ** The target's 32-bit accessors, for the clients below *)

(** [bfd_get_32] and [bfd_put_32] of the target vector fusion_elf32_vec, which
    is big-endian. *)
Definition bfd_get_32 (m : list Z) (p : Z) : res Z := bfd_getb32 m p.
Definition bfd_put_32 (data : Z) (m : list Z) (p : Z) : res (list Z) := bfd_putb32 data m p.

Lemma bfd_put_32_spec (data : Z) (m : list Z) (p : Z) :
  0 <= p -> p + 4 <= Z.of_nat (length m) -> bytes_ok m ->
  exists m', bfd_put_32 data m p = Ret m' /\ bfd_get_32 m' p = Ret (u32 data)
    /\ same_outside m m' p 4 /\ bytes_ok m'.
Proof.
  intros Hp Hl Hm. unfold bfd_put_32, bfd_get_32. rewrite putb32_bits.
  destruct (put_bits_spec 4 data m p true Hp Hl) as (m' & H1 & Hs & Hb & Hok).
  exists m'. split_and!; [exact H1| |exact Hs|auto]. rewrite getb32_bits by auto.
  apply (get_bits_ret 4 data m' p true); [lia|exact Hb].
Qed.

Lemma bfd_get_32_ret (m : list Z) (p : Z) :
  0 <= p -> p + 4 <= Z.of_nat (length m) -> bytes_ok m ->
  exists x, bfd_get_32 m p = Ret x /\ 0 <= x < 2 ^ 32.
Proof.
  intros Hp Hl Hm. unfold bfd_get_32.
  destruct (rd_ret m p) as (a & Ha & _); [lia|]. destruct (rd_ret m (p + 1)) as (b & Hb & _); [lia|].
  destruct (rd_ret m (p + 2)) as (c & Hc & _); [lia|].
  destruct (rd_ret m (p + 3)) as (d & Hd & _); [lia|].
  destruct (bfd_getb32 m p) as [x|] eqn:E.
  - exists x. split; [done|]. rewrite getb32_bits in E by done.
    by apply (get_bits_range 4) in E; [|lia|].
  - unfold bfd_getb32 in E. by rewrite Ha, Hb, Hc, Hd in E.
Qed.

Lemma bfd_get_32_oob (m : list Z) (p : Z) :
  ~ (0 <= p /\ p + 4 <= Z.of_nat (length m)) -> bfd_get_32 m p = Fail Foob.
Proof.
  intros H. unfold bfd_get_32, bfd_getb32.
  destruct (decide (0 <= p < Z.of_nat (length m))) as [H0|H0]; [|by rewrite rd_oob by done].
  destruct (rd_ret m p H0) as (a & -> & _). cbn [rbind].
  destruct (decide (p + 1 < Z.of_nat (length m))) as [H1|H1]; [|by rewrite rd_oob by lia].
  destruct (rd_ret m (p + 1)) as (b & -> & _); [lia|]. cbn [rbind].
  destruct (decide (p + 2 < Z.of_nat (length m))) as [H2|H2]; [|by rewrite rd_oob by lia].
  destruct (rd_ret m (p + 2)) as (c & -> & _); [lia|]. cbn [rbind].
  by rewrite rd_oob by lia.
Qed.

(** ** A word written where it already is *)
Lemma byte_bit (a i : Z) : is_byte a -> ~ (0 <= i < 8) -> Z.testbit a i = false.
Proof.
  intros [H1 H2] Hi. destruct (Z.ltb_spec i 0); [by apply Z.testbit_neg_r|].
  destruct (Z.eqb_spec a 0) as [->|]; [apply Z.bits_0|].
  apply Z.bits_above_log2; [done|]. apply Z.lt_le_trans with 8; [|lia]. apply Z.log2_lt_pow2; [lia|done].
Qed.

Lemma word_bytes (a0 a1 a2 a3 i : Z) :
  is_byte a0 -> is_byte a1 -> is_byte a2 -> is_byte a3 -> 0 <= i < 8 ->
  let w := Z.lor (Z.lor (Z.lor (Z.shiftl a0 24) (Z.shiftl a1 16)) (Z.shiftl a2 8)) a3 in
  Z.testbit w (i + 24) = Z.testbit a0 i /\ Z.testbit w (i + 16) = Z.testbit a1 i
  /\ Z.testbit w (i + 8) = Z.testbit a2 i /\ Z.testbit w i = Z.testbit a3 i.
Proof.
  intros H0 H1 H2 H3 Hi w. unfold w. rewrite !Z.lor_spec, !Z.shiftl_spec by lia.
  split_and!;
    repeat match goal with
    | H : is_byte ?a |- context [Z.testbit ?a ?j] => rewrite (byte_bit a j H) by lia
    end; rewrite ?orb_false_l, ?orb_false_r; f_equal; lia.
Qed.

Lemma same_word (m l : list Z) (p w : Z) :
  bytes_ok m -> bytes_ok l -> same_outside m l p 4 -> bfd_getb32 m p = Ret w -> bfd_getb32 l p = Ret w -> l = m.
Proof.
  intros Hm Hl [_ Hs] Em El.
  assert (forall m, bytes_ok m -> bfd_getb32 m p = Ret w -> forall k i, 0 <= k < 4 -> 0 <= i < 8 ->
    exists a, rd m (p + k) = Ret a /\ is_byte a /\ Z.testbit a i = Z.testbit w (i + 8 * (3 - k))) as Hb.
  { clear. intros m Hm E k i Hk Hi. unfold bfd_getb32 in E.
    destruct (rd m p) as [a0|] eqn:R0; [|done]. destruct (rd m (p + 1)) as [a1|] eqn:R1; [|done].
    destruct (rd m (p + 2)) as [a2|] eqn:R2; [|done]. destruct (rd m (p + 3)) as [a3|] eqn:R3; [|done].
    injection E as <-.
    destruct (word_bytes a0 a1 a2 a3 i (rd_byte _ _ _ Hm R0) (rd_byte _ _ _ Hm R1) (rd_byte _ _ _ Hm R2)
      (rd_byte _ _ _ Hm R3) Hi) as (W0 & W1 & W2 & W3).
    assert (k = 0 \/ k = 1 \/ k = 2 \/ k = 3) as [-> | [-> | [-> | ->]]] by lia; [rewrite Z.add_0_r| | |];
      eexists; (split; [eassumption|]); (split; [by eapply rd_byte|]);
      [rewrite <- W0|rewrite <- W1|rewrite <- W2|rewrite <- W3]; f_equal; lia. }
  apply list_eq. intros n.
  assert (rd l (Z.of_nat n) = rd m (Z.of_nat n)) as E.
  { destruct (decide (p <= Z.of_nat n < p + 4)) as [Hn|Hn]; [|by apply Hs].
    replace (Z.of_nat n) with (p + (Z.of_nat n - p)) by lia.
    destruct (Hb m Hm Em (Z.of_nat n - p) 0 ltac:(lia) ltac:(lia)) as (a & Ra & Ba & _).
    destruct (Hb l Hl El (Z.of_nat n - p) 0 ltac:(lia) ltac:(lia)) as (b & Rb & Bb & _).
    rewrite Ra, Rb. f_equal. apply Z.bits_inj'. intros i _.
    destruct (decide (0 <= i < 8)) as [Hi|Hi]; [|by rewrite !byte_bit].
    destruct (Hb m Hm Em (Z.of_nat n - p) i ltac:(lia) Hi) as (a' & Ra' & _ & Ha).
    destruct (Hb l Hl El (Z.of_nat n - p) i ltac:(lia) Hi) as (b' & Rb' & _ & Hb').
    rewrite Ra in Ra'. rewrite Rb in Rb'. injection Ra' as <-. injection Rb' as <-. congruence. }
  unfold rd in E. rewrite (proj2 (Z.leb_le 0 _)), Nat2Z.id in E by lia.
  destruct (l !! n) eqn:E1, (m !! n) eqn:E2; congruence.
Qed.
