(* ===== verification/GasHash.v ===== *)
(** * The assembler's string hash table: gas/hash.c

    A table is an array of chains of entries.  Every lookup moves the entry it
    finds to the head of its chain; [hash_delete] relies on that and aborts
    otherwise.  Entries live in an obstack, so each carries the stamp of its
    allocation: the stamp stands for the entry's address, and freeing an entry
    frees every entry allocated after it.  A C string is the sequence of
    characters before its NUL.  The refinement theorem says that any sequence
    of calls returns what the same calls return on a finite map, if deletions that free
    are of the entry allocated last, as the obstack asks. *)
From Stdlib Require Import Sorting.Sorted.
From S2P Require Import Prelude.
#[local] Open Scope Z_scope.

Section hash.
  Context {V : Type} (NULL : V).

(** ** Data *)
Record hash_entry : Type := mk_entry {
  stamp : nat;
  string_ : string;
  hash_ : Z;
  data : V
}.

Record hash_control : Type := mk_control {
  table : list (list hash_entry);
  size : Z;
  (** The obstack: the stamps of its live objects, newest first, and the
      stamp of the next one. *)
  memory : list nat;
  next_stamp : nat
}.

Definition hash_new_sized (sz : Z) : hash_control :=
  mk_control (replicate (Z.to_nat sz) []) (u32 sz) [] 0.

(** The default of [gas_hash_table_size]. *)
Definition gas_hash_table_size : Z := 65537.

Definition hash_new : hash_control := hash_new_sized gas_hash_table_size.

(** ** The hash function *)

(** [c = key[n]]: a signed [char] widened to [unsigned int]. *)
Definition key_char (c : Ascii.ascii) : Z := u32 (s8 (Z.of_N (Ascii.N_of_ascii c))).

(** [hash += c + (c << 17); hash ^= hash >> 2], the addend in 32 bits. *)
Definition hash_step (hash c : Z) : Z :=
  let hash := u64 (hash + u32 (c + u32 (Z.shiftl c 17))) in
  Z.lxor hash (Z.shiftr hash 2).

Fixpoint hash_loop (key : string) (len : nat) (hash : Z) : res Z :=
  match len with
  | O => Ret hash
  | S n =>
      match key with
      | EmptyString => Fail Foob
      | String c key' => hash_loop key' n (hash_step hash (key_char c))
      end
  end.

(** The last step mixes in the length, as a 64-bit [size_t]. *)
Definition hash_code (key : string) (len : nat) : res Z :=
  let! hash := hash_loop key len 0 in
  let hash := u64 (hash + u64 (Z.of_nat len + u64 (Z.shiftl (Z.of_nat len) 17))) in
  Ret (Z.lxor hash (Z.shiftr hash 2)).

(** ** Lookup *)

(** [strncmp (s, key, len) == 0] *)
Fixpoint strncmp_eq (s key : string) (len : nat) : bool :=
  match len with
  | O => true
  | S n =>
      match s, key with
      | EmptyString, EmptyString => true
      | String c s', String d key' => Ascii.eqb c d && strncmp_eq s' key' n
      | _, _ => false
      end
  end.

(** [s[len] == '\0'] *)
Fixpoint ends_at (s : string) (len : nat) : res bool :=
  match len, s with
  | O, EmptyString => Ret true
  | O, String _ _ => Ret false
  | S n, String _ s' => ends_at s' n
  | S n, EmptyString => Fail Foob
  end.

(** Reading through a pointer to a freed entry. *)
Definition deref (mem : list nat) (p : hash_entry) : res hash_entry :=
  if decide (stamp p ∈ mem) then Ret p else Fail Foob.

(** The search of one chain, [prev] being the entries already passed, last
    first.  The result is the entry found and the chain as it is left. *)
Fixpoint chain_search (mem : list nat) (hash : Z) (key : string) (len : nat)
    (prev l : list hash_entry) : res (option hash_entry * list hash_entry) :=
  match l with
  | [] => Ret (None, rev prev)
  | q :: rest =>
      let! p := deref mem q in
      if hash_ p =? hash then
        let! here := (if strncmp_eq (string_ p) key len then ends_at (string_ p) len
                      else Ret false) in
        if (here : bool) then
          Ret (Some p, match prev with [] => l | _ => p :: rev prev ++ rest end)
        else chain_search mem hash key len (p :: prev) rest
      else chain_search mem hash key len (p :: prev) rest
  end.

Definition set_table (t : hash_control) (tb : list (list hash_entry)) : hash_control :=
  mk_control tb (size t) (memory t) (next_stamp t).

(** Returns the table, the entry, the chain's index ([*plist]) and [*phash]. *)
Definition hash_lookup (t : hash_control) (key : string) (len : nat)
  : res (hash_control * option hash_entry * nat * Z) :=
  let! hash := hash_code key len in
  if size t =? 0 then Fail Fdiv0 else
  let hindex := Z.to_nat (hash mod size t) in
  match table t !! hindex with
  | None => Fail Foob
  | Some list =>
      let! r := chain_search (memory t) hash key len [] list in
      Ret (set_table t (<[hindex := r.2]> (table t)), r.1, hindex, hash)
  end.

(** ** Operations *)

(** [p = obstack_alloc (...); ...; p->next = *list; *list = p] *)
Definition push_entry (t : hash_control) (list : nat) (key : string) (hash : Z) (val : V)
  : hash_control :=
  let p := mk_entry (next_stamp t) key hash val in
  mk_control (alter (cons p) list (table t)) (size t) (next_stamp t :: memory t)
    (S (next_stamp t)).

(** [p->data = val]: the entry is found by its address wherever it is. *)
Definition store_data (t : hash_control) (p : hash_entry) (val : V) : hash_control :=
  set_table t
    (map (map (fun e => if decide (stamp e = stamp p)
                        then mk_entry (stamp e) (string_ e) (hash_ e) val else e)) (table t)).

Definition hash_insert (t : hash_control) (key : string) (val : V)
  : res (hash_control * option string) :=
  let! r := hash_lookup t key (String.length key) in
  let '(t, p, list, hash) := r in
  match p with
  | Some _ => Ret (t, Some "exists"%string)
  | None => Ret (push_entry t list key hash val, None)
  end.

Definition hash_jam (t : hash_control) (key : string) (val : V)
  : res (hash_control * option string) :=
  let! r := hash_lookup t key (String.length key) in
  let '(t, p, list, hash) := r in
  match p with
  | Some p => Ret (store_data t p val, None)
  | None => Ret (push_entry t list key hash val, None)
  end.

Definition hash_replace (t : hash_control) (key : string) (value : V) : res (hash_control * V) :=
  let! r := hash_lookup t key (String.length key) in
  let '(t, p, _, _) := r in
  match p with
  | None => Ret (t, NULL)
  | Some p => Ret (store_data t p value, data p)
  end.

Definition hash_find_n (t : hash_control) (key : string) (len : nat) : res (hash_control * V) :=
  let! r := hash_lookup t key len in
  let '(t, p, _, _) := r in
  match p with
  | None => Ret (t, NULL)
  | Some p => Ret (t, data p)
  end.

Definition hash_find (t : hash_control) (key : string) : res (hash_control * V) :=
  let! r := hash_lookup t key (String.length key) in
  let '(t, p, _, _) := r in
  match p with
  | None => Ret (t, NULL)
  | Some p => Ret (t, data p)
  end.

(** [obstack_free (&memory, p)]: [p] and everything allocated after it. *)
Fixpoint obstack_free (mem : list nat) (p : nat) : list nat :=
  match mem with
  | [] => []
  | q :: mem' => if decide (q = p) then mem' else obstack_free mem' p
  end.

(** The final [return p->data] comes after the entry has been given back to
    the obstack, which leaves its bytes in place. *)
Definition hash_delete (t : hash_control) (key : string) (freeme : bool)
  : res (hash_control * V) :=
  let! r := hash_lookup t key (String.length key) in
  let '(t, p, list, _) := r in
  match p with
  | None => Ret (t, NULL)
  | Some p =>
      match table t !! list with
      | Some (q :: next) =>
          if decide (stamp p = stamp q) then
            let t := set_table t (<[list := next]> (table t)) in
            let mem := if freeme then obstack_free (memory t) (stamp p) else memory t in
            Ret (mk_control (table t) (size t) mem (next_stamp t), data p)
          else Fail Fabort
      | _ => Fail Fabort
      end
  end.

(** The calls the two loops of [hash_traverse] make, in order. *)
Fixpoint traverse_chain (mem : list nat) (l : list hash_entry) : res (list (string * V)) :=
  match l with
  | [] => Ret []
  | q :: l' =>
      let! p := deref mem q in
      let! r := traverse_chain mem l' in
      Ret ((string_ p, data p) :: r)
  end.

Fixpoint traverse_slots (mem : list nat) (tb : list (list hash_entry)) : res (list (string * V)) :=
  match tb with
  | [] => Ret []
  | l :: tb' =>
      let! here := traverse_chain mem l in
      let! r := traverse_slots mem tb' in
      Ret (here ++ r)
  end.

Definition hash_traverse (t : hash_control) : res (list (string * V)) :=
  traverse_slots (memory t) (take (Z.to_nat (size t)) (table t)).

(** ** The hash of a key *)

(** The first [len] characters of a buffer. *)
Definition key_of (key : string) (len : nat) : string := String.substring 0 len key.

Definition hcode (key : string) : Z :=
  match hash_code key (String.length key) with Ret h => h | Fail _ => 0 end.

Lemma key_of_full (key : string) : key_of key (String.length key) = key.
Proof. unfold key_of. induction key as [|c key IH]; cbn; [done|by rewrite IH]. Qed.

Lemma key_of_length (key : string) (len : nat) :
  (len <= String.length key)%nat -> String.length (key_of key len) = len.
Proof.
  unfold key_of. revert len. induction key as [|c key IH]; intros [|len] H; cbn in *; try lia; try done.
  by rewrite IH by lia.
Qed.

Lemma hash_loop_key (key : string) (len : nat) (h : Z) :
  (len <= String.length key)%nat -> exists r, hash_loop key len h = Ret r
    /\ hash_loop (key_of key len) len h = Ret r.
Proof.
  unfold key_of. revert len h. induction key as [|c key IH]; intros [|len] h H; cbn in *; eauto; [lia|].
  apply IH. lia.
Qed.

Lemma hash_code_key (key : string) (len : nat) :
  (len <= String.length key)%nat -> hash_code key len = Ret (hcode (key_of key len)).
Proof.
  intros H. unfold hcode, hash_code. rewrite key_of_length by done.
  destruct (hash_loop_key key len 0 H) as (r & -> & ->). done.
Qed.

Lemma match_spec (s key : string) (len : nat) :
  (len <= String.length key)%nat ->
  (if strncmp_eq s key len then ends_at s len else Ret false)
  = Ret (bool_decide (s = key_of key len)).
Proof.
  unfold key_of. revert s key. induction len as [|len IH]; intros s key H.
  - destruct key, s; cbn; case_bool_decide; congruence.
  - destruct key as [|d key]; cbn in H; [lia|]. destruct s as [|c s]; cbn.
    + by rewrite bool_decide_false.
    + destruct (Ascii.eqb_spec c d) as [->|Hne]; cbn.
      * rewrite IH by lia. f_equal. apply bool_decide_ext. split; congruence.
      * rewrite bool_decide_false by congruence. done.
Qed.

(** ** The representation invariant and the map a table stands for *)
Definition entries (t : hash_control) : list hash_entry := concat (table t).

Definition slot_of (t : hash_control) (key : string) : nat := Z.to_nat (hcode key mod size t).

Record hash_ok (t : hash_control) : Prop := {
  ok_size : 0 < size t;
  ok_len : Z.of_nat (length (table t)) = size t;
  ok_slot : forall i l e, table t !! i = Some l -> e ∈ l ->
    hash_ e = hcode (string_ e) /\ slot_of t (string_ e) = i;
  ok_live : forall e, e ∈ entries t -> stamp e ∈ memory t;
  ok_fresh : forall n, n ∈ memory t -> (n < next_stamp t)%nat;
  ok_stack : StronglySorted (fun a b => (b < a)%nat) (memory t);
  ok_keys : NoDup (string_ <$> entries t);
  ok_stamps : NoDup (stamp <$> entries t)
}.

Definition hash_map (t : hash_control) : gmap string V :=
  list_to_map ((fun e => (string_ e, data e)) <$> entries t).

Lemma slot_lt (t : hash_control) (key : string) :
  hash_ok t -> exists l, table t !! slot_of t key = Some l.
Proof.
  intros Hok. apply lookup_lt_is_Some_2. unfold slot_of.
  pose proof (Z.mod_pos_bound (hcode key) (size t) (ok_size _ Hok)).
  pose proof (ok_len _ Hok). lia.
Qed.

(** The search of a chain: an entry with the key, or the chain as it was. *)
Lemma chain_search_spec (mem : list nat) (key : string) (len : nat) (prev l : list hash_entry) :
  (len <= String.length key)%nat ->
  (forall e, e ∈ l -> stamp e ∈ mem /\ hash_ e = hcode (string_ e)) ->
  let k := key_of key len in
  (exists p pre post, l = pre ++ p :: post /\ string_ p = k
     /\ chain_search mem (hcode k) key len prev l = Ret (Some p, p :: rev prev ++ pre ++ post))
  \/ ((forall e, e ∈ l -> string_ e <> k)
     /\ chain_search mem (hcode k) key len prev l = Ret (None, rev prev ++ l)).
Proof.
  intros Hlen Hl k. revert prev. induction l as [|q l IH]; intros prev; cbn [chain_search].
  { right. split; [set_solver|]. by rewrite app_nil_r. }
  destruct (Hl q) as [Hmem Hq]; [by left|].
  unfold deref. rewrite decide_True by done. cbn [rbind].
  rewrite match_spec by done. cbn [rbind]. fold k.
  destruct (decide (string_ q = k)) as [Hk|Hk].
  - left. exists q, [], l. rewrite (bool_decide_true (_ = _)) by done.
    rewrite Hq, Hk, Z.eqb_refl. split_and!; [done|done|]. by destruct prev.
  - rewrite (bool_decide_false (_ = _)) by done.
    assert (IH' := IH (fun e He => Hl e (list_elem_of_further _ _ _ He)) (q :: prev)).
    assert (Hstep : forall b : bool, (if b then chain_search mem (hcode k) key len (q :: prev) l
      else chain_search mem (hcode k) key len (q :: prev) l)
      = chain_search mem (hcode k) key len (q :: prev) l) by (by intros []).
    rewrite Hstep. cbn [rev] in IH'. destruct IH' as [(p & pre & post & -> & Hp & E)|[Hnone E]].
    + left. exists p, (q :: pre), post. rewrite E. split_and!; [done|done|].
      by rewrite <- app_assoc.
    + right. rewrite E. split; [|by rewrite <- app_assoc].
      intros e [->|He]%elem_of_cons; auto.
Qed.

(** The invariant depends on the chains only as sets of entries. *)
Lemma hash_ok_perm (t t' : hash_control) :
  hash_ok t -> size t' = size t -> memory t' = memory t -> next_stamp t' = next_stamp t ->
  length (table t') = length (table t) -> Permutation (entries t') (entries t) ->
  (forall i l e, table t' !! i = Some l -> e ∈ l -> exists l0, table t !! i = Some l0 /\ e ∈ l0) ->
  hash_ok t' /\ hash_map t' = hash_map t.
Proof.
  intros Hok Hsz Hmem Hn Hlen HP Hsub. split; [split|].
  - rewrite Hsz. apply Hok.
  - rewrite Hlen, Hsz. apply Hok.
  - intros i l e Hl He. destruct (Hsub i l e Hl He) as (l0 & Hl0 & He0).
    unfold slot_of. rewrite Hsz. by apply (ok_slot _ Hok i l0).
  - intros e He. rewrite Hmem. apply (ok_live _ Hok). by rewrite <- HP.
  - rewrite Hmem, Hn. apply Hok.
  - rewrite Hmem. apply Hok.
  - rewrite HP. apply Hok.
  - rewrite HP. apply Hok.
  - apply list_to_map_proper; [|by rewrite HP].
    rewrite <- list_fmap_compose. change (NoDup (string_ <$> entries t')). rewrite HP. apply Hok.
Qed.

Lemma hash_map_lookup (t : hash_control) (e : hash_entry) :
  hash_ok t -> e ∈ entries t -> hash_map t !! string_ e = Some (data e).
Proof.
  intros Hok He. apply elem_of_list_to_map_1.
  - rewrite <- list_fmap_compose. apply (ok_keys _ Hok).
  - apply list_elem_of_fmap. by exists e.
Qed.

Lemma hash_map_none (t : hash_control) (key : string) :
  (forall e, e ∈ entries t -> string_ e <> key) -> hash_map t !! key = None.
Proof.
  intros H. apply not_elem_of_list_to_map_1. rewrite <- list_fmap_compose.
  intros (e & -> & He)%list_elem_of_fmap. by eapply H.
Qed.

(** What a lookup leaves and returns: the same map, and the entry at the head
    of its chain when there is one. *)
Lemma hash_lookup_spec (t : hash_control) (key : string) (len : nat) :
  hash_ok t -> (len <= String.length key)%nat ->
  let k := key_of key len in
  exists t' o, hash_lookup t key len = Ret (t', o, slot_of t k, hcode k)
    /\ hash_ok t' /\ hash_map t' = hash_map t /\ size t' = size t
    /\ Permutation (entries t') (entries t)
    /\ hash_map t !! k = data <$> o
    /\ exists l, table t' !! slot_of t k = Some l /\
       match o with
       | Some p => string_ p = k /\ exists next, l = p :: next
       | None => forall e, e ∈ entries t' -> string_ e <> k
       end.
Proof.
  intros Hok Hlen k. destruct (slot_lt t k Hok) as [l Hl].
  assert (Hidx : forall e, e ∈ entries t -> string_ e = k -> e ∈ l).
  { intros e (i & l' & Hl' & He)%elem_of_concat Hk.
    destruct (ok_slot _ Hok i l' e Hl' He) as [_ Hi]. rewrite Hk in Hi. congruence. }
  unfold hash_lookup. rewrite hash_code_key by done. cbn [rbind]. fold k.
  rewrite (proj2 (Z.eqb_neq _ _)) by (pose proof (ok_size _ Hok); lia).
  fold (slot_of t k). rewrite Hl.
  destruct (chain_search_spec (memory t) key len [] l Hlen) as [(p & pre & post & El & Hp & E)|[Hn E]].
  { intros e He. split; [apply (ok_live _ Hok), elem_of_concat; eauto|]. by apply (ok_slot _ Hok _ _ _ Hl). }
  all: fold k in E; rewrite E; cbn [rbind fst snd rev app]; try fold k in Hp; try fold k in Hn; clearbody k.
  - subst l. assert (HP : Permutation (p :: pre ++ post) (pre ++ p :: post)) by apply Permutation_middle.
    destruct (hash_ok_perm t (set_table t (<[slot_of t k := p :: pre ++ post]> (table t)))) as [H1 H2];
      try done.
    { cbn. by rewrite length_insert. }
    { apply (concat_insert_same _ _ _ _ Hl HP). }
    { intros i l' e Hl' He. destruct (decide (i = slot_of t k)) as [->|Hne].
      - cbn in Hl'. rewrite list_lookup_insert_eq in Hl' by (by eapply lookup_lt_Some).
        simplify_eq. eexists. split; [exact Hl|]. by rewrite <- HP.
      - cbn in Hl'. rewrite list_lookup_insert_ne in Hl' by done. eauto. }
    do 2 eexists. split; [done|]. split_and!; try done.
    + apply (concat_insert_same _ _ _ _ Hl HP).
    + rewrite <- Hp. apply hash_map_lookup; [done|]. apply elem_of_concat. eexists _, _. split; [exact Hl|].
      set_solver.
    + eexists. split; [cbn; apply list_lookup_insert_eq; by eapply lookup_lt_Some|]. eauto.
  - assert (set_table t (<[slot_of t k := l]> (table t)) = t) as Et.
    { unfold set_table. rewrite list_insert_id by done. by destruct t. }
    rewrite Et. do 2 eexists. split; [done|]. split_and!; try done.
    + apply hash_map_none. intros e He Hk. by apply (Hn e); [apply Hidx|].
    + eexists. split; [done|]. intros e He Hk. by apply (Hn e); [apply Hidx|].
Qed.

Lemma alter_insert {A : Type} (f : A -> A) (l : list A) (i : nat) (x : A) :
  l !! i = Some x -> alter f i l = <[i := f x]> l.
Proof.
  intros H. apply list_eq. intros j. destruct (decide (i = j)) as [->|Hne].
  - rewrite list_lookup_alter_eq, H, list_lookup_insert_eq by (by eapply lookup_lt_Some). done.
  - by rewrite list_lookup_alter_ne, list_lookup_insert_ne by done.
Qed.

(** Pushing a new entry on its chain adds a binding. *)
Lemma push_entry_ok (t : hash_control) (key : string) (val : V) (l : list hash_entry) :
  hash_ok t -> table t !! slot_of t key = Some l ->
  (forall e, e ∈ entries t -> string_ e <> key) ->
  let t' := push_entry t (slot_of t key) key (hcode key) val in
  hash_ok t' /\ hash_map t' = <[key := val]> (hash_map t).
Proof.
  intros Hok Hl Hnew t'.
  set (p := mk_entry (next_stamp t) key (hcode key) val).
  assert (HP : Permutation (entries t') (p :: entries t)).
  { unfold entries, t'. cbn. rewrite (alter_insert _ _ _ _ Hl).
    apply (Permutation_app_inv_l l). rewrite (concat_insert_perm _ _ _ _ Hl). fold p. cbn.
    by rewrite Permutation_middle. }
  assert (Hfresh : forall e, e ∈ entries t -> (stamp e < next_stamp t)%nat).
  { intros e He. by apply (ok_fresh _ Hok), (ok_live _ Hok). }
  split; [split|].
  - apply Hok.
  - cbn. rewrite length_alter. apply Hok.
  - intros i l' e Hl' He. unfold slot_of. cbn. cbn in Hl'.
    destruct (decide (i = slot_of t key)) as [->|Hne].
    + rewrite list_lookup_alter_eq, Hl in Hl'. cbn in Hl'. simplify_eq.
      apply elem_of_cons in He as [->|He]; [done|]. by apply (ok_slot _ Hok _ _ _ Hl).
    + rewrite list_lookup_alter_ne in Hl' by done. by apply (ok_slot _ Hok _ _ _ Hl').
  - intros e. rewrite HP. intros [->|He]%elem_of_cons; cbn; [by left|].
    right. by apply (ok_live _ Hok).
  - cbn. intros n [->|Hn]%elem_of_cons; [lia|]. pose proof (ok_fresh _ Hok n Hn). lia.
  - cbn. constructor; [apply Hok|]. apply Forall_forall, Hok.
  - rewrite HP. cbn. apply NoDup_cons. split; [|apply Hok].
    intros (e & Hk & He)%list_elem_of_fmap. by apply (Hnew e).
  - rewrite HP. cbn. apply NoDup_cons. split; [|apply Hok].
    intros (e & Hk & He)%list_elem_of_fmap. specialize (Hfresh e He). lia.
  - unfold hash_map. erewrite list_to_map_proper; [| |by rewrite HP]; [done|].
    rewrite <- list_fmap_compose. change (NoDup (string_ <$> entries t')). rewrite HP. cbn.
    apply NoDup_cons. split; [|apply Hok]. intros (e & Hk & He)%list_elem_of_fmap. by apply (Hnew e).
Qed.

(** Storing through an entry's address rebinds its key and nothing else. *)
Lemma store_data_ok (t : hash_control) (p : hash_entry) (val : V) :
  hash_ok t -> p ∈ entries t ->
  hash_ok (store_data t p val) /\ hash_map (store_data t p val) = <[string_ p := val]> (hash_map t).
Proof.
  intros Hok Hp.
  set (f := fun e => if decide (stamp e = stamp p)
                     then mk_entry (stamp e) (string_ e) (hash_ e) val else e).
  assert (Hs : forall e, string_ (f e) = string_ e) by (intros e; unfold f; by case_decide).
  assert (Ht : forall e, stamp (f e) = stamp e) by (intros e; unfold f; by case_decide).
  assert (Hh : forall e, hash_ (f e) = hash_ e) by (intros e; unfold f; by case_decide).
  assert (HE : entries (store_data t p val) = f <$> entries t) by (symmetry; apply concat_map).
  assert (Hks : string_ <$> (f <$> entries t) = string_ <$> entries t).
  { rewrite <- list_fmap_compose. apply list_fmap_ext. intros i e _. apply Hs. }
  assert (Hst : stamp <$> (f <$> entries t) = stamp <$> entries t).
  { rewrite <- list_fmap_compose. apply list_fmap_ext. intros i e _. apply Ht. }
  assert (Hok' : hash_ok (store_data t p val)).
  { split.
    - apply Hok.
    - cbn. rewrite length_map. apply Hok.
    - intros i l e Hl He. cbn in Hl. rewrite list_lookup_fmap in Hl.
      destruct (table t !! i) as [l0|] eqn:Hl0; [|done]. cbn in Hl. simplify_eq.
      apply list_elem_of_fmap in He as (e0 & -> & He0). fold (f e0). unfold slot_of. cbn.
      rewrite Hs, Hh. by apply (ok_slot _ Hok _ _ _ Hl0).
    - intros e. rewrite HE. intros (e0 & -> & He)%list_elem_of_fmap. rewrite Ht. by apply (ok_live _ Hok).
    - apply Hok.
    - apply Hok.
    - rewrite HE, Hks. apply Hok.
    - rewrite HE, Hst. apply Hok. }
  split; [done|]. apply map_eq. intros k.
  destruct (decide (Exists (fun e => string_ e = k) (entries t)))
    as [(e & He & <-)%Exists_exists|Hno]; [|rewrite Exists_exists in Hno].
  - rewrite <- (Hs e) at 1. rewrite hash_map_lookup; [|done|].
    2:{ rewrite HE. apply list_elem_of_fmap. eauto. }
    unfold f. case_decide as Hd; cbn.
    + assert (e = p) as -> by (by eapply (nodup_fmap_inj stamp); [apply Hok|..]).
      by rewrite lookup_insert_eq.
    + rewrite lookup_insert_ne; [by rewrite hash_map_lookup|].
      intros Heq. apply Hd. f_equal. by eapply (nodup_fmap_inj string_); [apply Hok|..].
  - rewrite hash_map_none.
    + rewrite lookup_insert_ne, hash_map_none; [done|..]; intros; intros ?; apply Hno; eauto.
    + rewrite HE. intros e (e0 & -> & He0)%list_elem_of_fmap Hk. apply Hno. exists e0. by rewrite <- Hk, Hs.
Qed.

Lemma hash_new_ok (sz : Z) :
  0 < sz < 2 ^ 32 -> hash_ok (hash_new_sized sz) /\ hash_map (hash_new_sized sz) = ∅.
Proof.
  intros Hsz.
  assert (HE : entries (hash_new_sized sz) = []).
  { unfold entries. cbn. induction (Z.to_nat sz); cbn; auto. }
  assert (Hnil : forall i l, table (hash_new_sized sz) !! i = Some l -> l = []).
  { intros i l Hl. cbn in Hl. by apply lookup_replicate in Hl as [-> _]. }
  split; [split|]; rewrite ?HE.
  - cbn. rewrite u32_small; lia.
  - cbn. rewrite length_replicate, u32_small; lia.
  - intros i l e Hl%Hnil He. subst. by apply not_elem_of_nil in He.
  - intros e He. by apply not_elem_of_nil in He.
  - intros n He. by apply not_elem_of_nil in He.
  - constructor.
  - constructor.
  - constructor.
  - unfold hash_map. by rewrite HE.
Qed.

Lemma obstack_free_sub (mem : list nat) (p n : nat) : n ∈ obstack_free mem p -> n ∈ mem.
Proof.
  induction mem as [|q mem IH]; cbn; [done|]. case_decide; intros Hn; right; auto.
Qed.

Lemma obstack_free_sorted (mem : list nat) (p : nat) :
  StronglySorted (fun a b => (b < a)%nat) mem ->
  StronglySorted (fun a b => (b < a)%nat) (obstack_free mem p).
Proof. induction 1; cbn; [constructor|]. by case_decide. Qed.

Lemma obstack_free_older (mem : list nat) (p n : nat) :
  StronglySorted (fun a b => (b < a)%nat) mem -> p ∈ mem ->
  (n < p)%nat -> n ∈ mem -> n ∈ obstack_free mem p.
Proof.
  induction 1 as [|q mem Hs IH Hq]; cbn; [set_solver|].
  rewrite Forall_forall in Hq. intros Hp Hlt Hn. case_decide as E.
  - subst. apply elem_of_cons in Hn as [->|Hn]; [lia|done].
  - apply elem_of_cons in Hp as [->|Hp]; [done|].
    apply elem_of_cons in Hn as [->|Hn]; [|by apply IH].
    specialize (Hq p Hp). lia.
Qed.

(** Unlinking the head of a chain removes its binding. *)
Lemma unlink_ok (t : hash_control) (p : hash_entry) (next : list hash_entry) (i : nat)
    (freeme : bool) :
  hash_ok t -> table t !! i = Some (p :: next) ->
  (freeme = true -> forall e, e ∈ entries t -> (stamp e <= stamp p)%nat) ->
  let mem := if freeme then obstack_free (memory t) (stamp p) else memory t in
  let t' := mk_control (<[i := next]> (table t)) (size t) mem (next_stamp t) in
  hash_ok t' /\ hash_map t' = delete (string_ p) (hash_map t).
Proof.
  intros Hok Hl Hnew mem t'.
  assert (HP : Permutation (entries t) (p :: entries t')).
  { unfold entries. cbn. apply (Permutation_app_inv_l next).
    rewrite <- (concat_insert_perm _ _ _ next Hl). cbn. apply Permutation_middle. }
  pose proof (ok_keys _ Hok) as Hk. pose proof (ok_stamps _ Hok) as Hst.
  rewrite HP in Hk, Hst. cbn in Hk, Hst. apply NoDup_cons in Hk as [Hk1 Hk2].
  apply NoDup_cons in Hst as [Hst1 Hst2].
  assert (Hsub : forall e, e ∈ entries t' -> e ∈ entries t) by (intros e He; rewrite HP; by right).
  split; [split|].
  - apply Hok.
  - cbn. rewrite length_insert. apply Hok.
  - intros j l e Hj He. unfold slot_of. cbn. cbn in Hj. destruct (decide (i = j)) as [<-|Hne].
    + rewrite list_lookup_insert_eq in Hj by (by eapply lookup_lt_Some). simplify_eq.
      apply (ok_slot _ Hok _ _ _ Hl). by right.
    + rewrite list_lookup_insert_ne in Hj by done. by apply (ok_slot _ Hok _ _ _ Hj).
  - intros e He. pose proof (ok_live _ Hok e (Hsub e He)) as Hlive. cbn. unfold mem.
    destruct freeme; [|done]. apply obstack_free_older; [apply Hok| |  |done].
    + apply (ok_live _ Hok). rewrite HP. by left.
    + assert (stamp e <> stamp p).
      { intros Heq. apply Hst1. rewrite <- Heq. apply list_elem_of_fmap. eauto. }
      specialize (Hnew eq_refl e (Hsub e He)). lia.
  - cbn. intros n Hn. apply (ok_fresh _ Hok). unfold mem in Hn. destruct freeme; [|done].
    by eapply obstack_free_sub.
  - cbn. unfold mem. destruct freeme; [apply obstack_free_sorted|]; apply Hok.
  - done.
  - done.
  - apply map_eq. intros k. destruct (decide (string_ p = k)) as [<-|Hne].
    + rewrite lookup_delete_eq. apply hash_map_none. intros e He Heq. apply Hk1.
      rewrite <- Heq. apply list_elem_of_fmap. eauto.
    + rewrite lookup_delete_ne by done. unfold hash_map at 2.
      rewrite (list_to_map_proper _ ((fun e => (string_ e, data e)) <$> (p :: entries t')));
        [cbn; by rewrite lookup_insert_ne| |by rewrite HP].
      rewrite <- list_fmap_compose. apply (ok_keys _ Hok).
Qed.

(** ** Each operation on the map *)

(** Runs a lookup of a whole key. *)
Ltac lookup_key Hok key :=
  let H := fresh in
  destruct (hash_lookup_spec _ key (String.length key) Hok (Nat.le_refl _)) as
    (t1 & o & E & Hok1 & Hmap & Hsz & HP & Hval & l & Hl & H);
  rewrite key_of_full in E, Hval, Hl, H; rewrite E; cbn [rbind];
  destruct o as [p|]; cbn in Hval; [destruct H as (Hp & next & ->)|rename H into Hnone].

Lemma head_in (t : hash_control) (i : nat) (p : hash_entry) (next : list hash_entry) :
  table t !! i = Some (p :: next) -> p ∈ entries t.
Proof. intros H. apply elem_of_concat. exists i, (p :: next). split; [done|by left]. Qed.

Lemma push_after_lookup (t t1 : hash_control) (key : string) (val : V) (l : list hash_entry) :
  hash_ok t1 -> hash_map t1 = hash_map t -> size t1 = size t ->
  table t1 !! slot_of t key = Some l -> (forall e, e ∈ entries t1 -> string_ e <> key) ->
  hash_ok (push_entry t1 (slot_of t key) key (hcode key) val)
  /\ hash_map (push_entry t1 (slot_of t key) key (hcode key) val) = <[key := val]> (hash_map t).
Proof.
  intros Hok Hm Hsz Hl Hnone. assert (slot_of t key = slot_of t1 key) as Hs.
  { unfold slot_of. by rewrite Hsz. }
  rewrite Hs in *. rewrite <- Hm. by apply (push_entry_ok t1 key val l).
Qed.

Lemma hash_insert_spec (t : hash_control) (key : string) (val : V) :
  hash_ok t -> exists t', hash_ok t' /\
    match hash_map t !! key with
    | Some _ => hash_insert t key val = Ret (t', Some "exists"%string) /\ hash_map t' = hash_map t
    | None => hash_insert t key val = Ret (t', None) /\ hash_map t' = <[key := val]> (hash_map t)
    end.
Proof.
  intros Hok. unfold hash_insert. lookup_key Hok key; rewrite Hval.
  - eauto.
  - destruct (push_after_lookup t t1 key val l Hok1 Hmap Hsz Hl Hnone). eauto.
Qed.

Lemma hash_jam_spec (t : hash_control) (key : string) (val : V) :
  hash_ok t -> exists t', hash_jam t key val = Ret (t', None) /\ hash_ok t'
    /\ hash_map t' = <[key := val]> (hash_map t).
Proof.
  intros Hok. unfold hash_jam. lookup_key Hok key.
  - destruct (store_data_ok t1 p val Hok1 (head_in _ _ _ _ Hl)) as [H1 H2].
    rewrite Hp, Hmap in H2. eauto.
  - destruct (push_after_lookup t t1 key val l Hok1 Hmap Hsz Hl Hnone). eauto.
Qed.

Lemma hash_replace_spec (t : hash_control) (key : string) (val : V) :
  hash_ok t -> exists t', hash_replace t key val = Ret (t', default NULL (hash_map t !! key))
    /\ hash_ok t' /\ hash_map t' = (if hash_map t !! key is Some _ then <[key := val]> (hash_map t) else hash_map t).
Proof.
  intros Hok. unfold hash_replace. lookup_key Hok key; rewrite Hval; cbn.
  - destruct (store_data_ok t1 p val Hok1 (head_in _ _ _ _ Hl)) as [H1 H2].
    rewrite Hp, Hmap in H2. eauto.
  - eauto.
Qed.

Lemma hash_find_n_spec (t : hash_control) (key : string) (len : nat) :
  hash_ok t -> (len <= String.length key)%nat ->
  exists t', hash_find_n t key len = Ret (t', default NULL (hash_map t !! key_of key len))
    /\ hash_ok t' /\ hash_map t' = hash_map t.
Proof.
  intros Hok Hlen. unfold hash_find_n.
  destruct (hash_lookup_spec t key len Hok Hlen) as (t1 & o & -> & Hok1 & Hmap & _ & _ & -> & _).
  destruct o; cbn; eauto.
Qed.

Lemma hash_find_spec (t : hash_control) (key : string) :
  hash_ok t -> exists t', hash_find t key = Ret (t', default NULL (hash_map t !! key))
    /\ hash_ok t' /\ hash_map t' = hash_map t.
Proof.
  intros Hok. destruct (hash_find_n_spec t key (String.length key) Hok (Nat.le_refl _)) as (t' & H).
  rewrite key_of_full in H. eauto.
Qed.

Lemma hash_delete_spec (t : hash_control) (key : string) (freeme : bool) :
  hash_ok t ->
  (freeme = true -> forall p e, p ∈ entries t -> string_ p = key -> e ∈ entries t ->
     (stamp e <= stamp p)%nat) ->
  exists t', hash_delete t key freeme = Ret (t', default NULL (hash_map t !! key))
    /\ hash_ok t' /\ hash_map t' = delete key (hash_map t).
Proof.
  intros Hok Hnew. unfold hash_delete. lookup_key Hok key; rewrite Hval; cbn [from_option].
  - rewrite Hl, decide_True by done.
    destruct (unlink_ok t1 p next (slot_of t key) freeme Hok1 Hl) as [H1 H2].
    { intros Hf e He. rewrite HP in He. apply (Hnew Hf p e); [|done|done].
      rewrite <- HP. by eapply head_in. }
    rewrite Hp, Hmap in H2. eauto.
  - eexists. split; [done|]. split; [done|]. by rewrite delete_id.
Qed.

(** ** Sequences of calls *)
Inductive hash_op : Type :=
| Oinsert (key : string) (val : V)
| Ojam (key : string) (val : V)
| Oreplace (key : string) (val : V)
| Ofind (key : string)
| Ofind_n (key : string) (len : nat)
| Odelete (key : string) (freeme : bool).

Inductive hash_out : Type :=
| Rmsg (m : option string)
| Rval (v : V).

(** The keys of a table, the one entered last first. *)
Definition keys_after (keys : list string) (o : hash_op) : list string :=
  match o with
  | Oinsert k _ | Ojam k _ => if decide (k ∈ keys) then keys else k :: keys
  | Odelete k _ => filter (fun k' => k' <> k) keys
  | _ => keys
  end.

(** A deletion that frees gives back the entries made later too: of the keys in the table
    its own must be the last one entered, if it is there. *)
Definition op_valid (keys : list string) (o : hash_op) : Prop :=
  match o with
  | Ofind_n key len => (len <= String.length key)%nat
  | Odelete k true => k ∈ keys -> head keys = Some k
  | _ => True
  end.

Fixpoint ops_valid (keys : list string) (os : list hash_op) : Prop :=
  match os with
  | [] => True
  | o :: os => op_valid keys o /\ ops_valid (keys_after keys o) os
  end.

(** A call on the table. *)
Definition hash_call (t : hash_control) (o : hash_op) : res (hash_control * hash_out) :=
  match o with
  | Oinsert k v => let! (t, m) := hash_insert t k v in Ret (t, Rmsg m)
  | Ojam k v => let! (t, m) := hash_jam t k v in Ret (t, Rmsg m)
  | Oreplace k v => let! (t, x) := hash_replace t k v in Ret (t, Rval x)
  | Ofind k => let! (t, x) := hash_find t k in Ret (t, Rval x)
  | Ofind_n k n => let! (t, x) := hash_find_n t k n in Ret (t, Rval x)
  | Odelete k f => let! (t, x) := hash_delete t k f in Ret (t, Rval x)
  end.

(** The same call on a finite map: the interface's promise. *)
Definition map_call (m : gmap string V) (o : hash_op) : gmap string V * hash_out :=
  match o with
  | Oinsert k v =>
      match m !! k with
      | Some _ => (m, Rmsg (Some "exists"%string))
      | None => (<[k := v]> m, Rmsg None)
      end
  | Ojam k v => (<[k := v]> m, Rmsg None)
  | Oreplace k v =>
      (if m !! k is Some _ then <[k := v]> m else m, Rval (default NULL (m !! k)))
  | Ofind k => (m, Rval (default NULL (m !! k)))
  | Ofind_n k n => (m, Rval (default NULL (m !! key_of k n)))
  | Odelete k _ => (delete k m, Rval (default NULL (m !! k)))
  end.

Fixpoint hash_calls (t : hash_control) (os : list hash_op) : res (hash_control * list hash_out) :=
  match os with
  | [] => Ret (t, [])
  | o :: os' =>
      let! (t, r) := hash_call t o in
      let! (t, rs) := hash_calls t os' in
      Ret (t, r :: rs)
  end.

Fixpoint map_calls (m : gmap string V) (os : list hash_op) : gmap string V * list hash_out :=
  match os with
  | [] => (m, [])
  | o :: os' =>
      let '(m, r) := map_call m o in
      let '(m, rs) := map_calls m os' in
      (m, r :: rs)
  end.

(** *** The order of the allocations *)

Definition births (t : hash_control) : list (string * nat) := (fun e => (string_ e, stamp e)) <$> entries t.

(** [keys] are the keys of the table, in the order of their entries, the newest first. *)
Definition in_order (t : hash_control) (keys : list string) : Prop :=
  exists bs, bs ≡ₚ births t /\ StronglySorted (fun a b => (b < a)%nat) bs.*2 /\ keys = bs.*1.

Lemma in_order_perm (t t' : hash_control) (keys : list string) :
  births t' ≡ₚ births t -> in_order t keys -> in_order t' keys.
Proof. intros H (bs & Hb & Hs & Hk). exists bs. by rewrite H. Qed.

Lemma in_order_elem (t : hash_control) (keys : list string) (e : hash_entry) :
  in_order t keys -> e ∈ entries t -> string_ e ∈ keys.
Proof.
  intros (bs & Hb & _ & ->) He. apply list_elem_of_fmap. exists (string_ e, stamp e). split; [done|].
  rewrite Hb. apply list_elem_of_fmap. eauto.
Qed.

Lemma in_order_map (t : hash_control) (keys : list string) (k : string) :
  hash_ok t -> in_order t keys -> k ∈ keys <-> is_Some (hash_map t !! k).
Proof.
  intros Hok Ho. split.
  - destruct Ho as (bs & Hb & _ & ->). intros (x & -> & Hx)%list_elem_of_fmap.
    rewrite Hb in Hx. apply list_elem_of_fmap in Hx as (e & -> & He). cbn. rewrite hash_map_lookup by done. eauto.
  - intros [v Hv]. apply elem_of_list_to_map_2 in Hv. apply list_elem_of_fmap in Hv as (e & [= -> ->] & He).
    by eapply in_order_elem.
Qed.

Lemma in_order_head (t : hash_control) (keys : list string) (k : string) (p e : hash_entry) :
  hash_ok t -> in_order t keys -> head keys = Some k ->
  p ∈ entries t -> string_ p = k -> e ∈ entries t -> (stamp e <= stamp p)%nat.
Proof.
  intros Hok (bs & Hb & Hs & ->) Hh Hp Hk He. destruct bs as [|[k0 n0] bs]; [done|]. cbn in Hh, Hs. injection Hh as ->.
  apply StronglySorted_inv in Hs as [_ Hs]. rewrite Forall_forall in Hs.
  assert (Hin : forall x, x ∈ entries t -> (string_ x, stamp x) = (k, n0) \/ (stamp x < n0)%nat).
  { intros x Hx. assert ((string_ x, stamp x) ∈ (k, n0) :: bs) as H by (rewrite Hb; apply list_elem_of_fmap; eauto).
    apply elem_of_cons in H as [H|H]; [by left|right]. apply Hs. apply list_elem_of_fmap. by exists (string_ x, stamp x). }
  assert (exists q, q ∈ entries t /\ string_ q = k /\ stamp q = n0) as (q & Hq & Hqk & Hqn).
  { assert ((k, n0) ∈ births t) as H by (rewrite <- Hb; by left).
    apply list_elem_of_fmap in H as (q & [= -> ->] & Hq). eauto. }
  assert (p = q) as -> by (eapply (nodup_fmap_inj string_); [apply (ok_keys _ Hok)|done|done|congruence]).
  destruct (Hin e He) as [[= _ ->]|]; lia.
Qed.

Lemma in_order_push (t : hash_control) (keys : list string) (key : string) (val : V) (l : list hash_entry) :
  hash_ok t -> table t !! slot_of t key = Some l -> in_order t keys ->
  in_order (push_entry t (slot_of t key) key (hcode key) val) (key :: keys).
Proof.
  intros Hok Hl (bs & Hb & Hs & ->). exists ((key, next_stamp t) :: bs). split_and!; [|cbn; constructor; [done|]|done].
  - rewrite Hb. unfold births, entries. cbn. rewrite (alter_insert _ _ _ _ Hl).
    set (p := mk_entry _ _ _ _). transitivity ((fun e => (string_ e, stamp e)) <$> p :: concat (table t)); [done|].
    apply fmap_Permutation. apply (Permutation_app_inv_l l). rewrite (concat_insert_perm _ _ _ _ Hl). cbn.
    by rewrite Permutation_middle.
  - apply Forall_forall. intros n (x & -> & Hx)%list_elem_of_fmap. rewrite Hb in Hx.
    apply list_elem_of_fmap in Hx as (e & -> & He). by apply (ok_fresh _ Hok), (ok_live _ Hok).
Qed.

Lemma store_births (t : hash_control) (p : hash_entry) (val : V) : births (store_data t p val) = births t.
Proof.
  unfold births, entries, store_data. cbn. rewrite <- concat_map. change (map ?f ?l) with (f <$> l).
  rewrite <- list_fmap_compose. apply list_fmap_ext. intros i e _. cbn. by case_decide.
Qed.

Lemma order_push (t t1 : hash_control) (keys : list string) (key : string) (val : V) (l : list hash_entry) :
  hash_ok t1 -> size t1 = size t -> table t1 !! slot_of t key = Some l -> in_order t1 keys ->
  in_order (push_entry t1 (slot_of t key) key (hcode key) val) (key :: keys).
Proof.
  intros Hok Hsz Hl Ho. assert (slot_of t key = slot_of t1 key) as Hs by (unfold slot_of; by rewrite Hsz).
  rewrite Hs in *. by eapply in_order_push.
Qed.

Lemma filter_id {A : Type} (P : A -> Prop) `{!forall x, Decision (P x)} (l : list A) : Forall P l -> filter P l = l.
Proof. induction 1 as [|x l Hx _ IH]; [done|]. rewrite filter_cons_True by done. by rewrite IH. Qed.

(** Taking the head of a chain away takes its key out. *)
Lemma in_order_unlink (t : hash_control) (keys : list string) (p : hash_entry) (next : list hash_entry) (i : nat)
    (mem : list nat) :
  hash_ok t -> table t !! i = Some (p :: next) -> in_order t keys ->
  in_order (mk_control (<[i := next]> (table t)) (size t) mem (next_stamp t)) (filter (fun k => k <> string_ p) keys).
Proof.
  intros Hok Hl (bs & Hb & Hs & ->). set (t' := mk_control _ _ _ _).
  assert (HP : entries t ≡ₚ p :: entries t').
  { unfold entries. cbn. apply (Permutation_app_inv_l next).
    rewrite <- (concat_insert_perm _ _ _ next Hl). cbn. apply Permutation_middle. }
  pose proof (ok_keys _ Hok) as Hk. rewrite HP in Hk. cbn in Hk. apply NoDup_cons in Hk as [Hk _].
  exists (filter (fun x => x.1 <> string_ p) bs). split_and!.
  - rewrite Hb. unfold births. rewrite HP, fmap_cons, filter_cons_False by (cbn; tauto).
    rewrite filter_id; [done|]. apply Forall_forall. intros x (e & -> & He)%list_elem_of_fmap. cbn.
    intros E. apply Hk. rewrite <- E. apply list_elem_of_fmap. eauto.
  - clear Hb. induction bs as [|[k n] bs IH]; cbn; [constructor|]. apply StronglySorted_inv in Hs as [Hs Hf].
    case_decide; cbn; [constructor|]; [by apply IH| |by apply IH].
    apply Forall_forall. intros m (x & -> & Hx)%list_elem_of_fmap. rewrite Forall_forall in Hf.
    apply list_elem_of_filter in Hx as [_ Hx]. apply Hf, list_elem_of_fmap. eauto.
  - clear. induction bs as [|[k n] bs IH]; [done|]. rewrite fmap_cons, !filter_cons. cbn [fst].
    case_decide; [rewrite fmap_cons|]; by rewrite IH.
Qed.

(** What the calls do to the order. *)
Lemma hash_call_order (t t' : hash_control) (keys : list string) (o : hash_op) (x : hash_out) :
  hash_ok t -> in_order t keys -> op_valid keys o -> hash_call t o = Ret (t', x) -> in_order t' (keys_after keys o).
Proof.
  intros Hok Ho Hv. pose proof (fun k => in_order_map t keys k Hok Ho) as Hk.
  assert (Hperm : forall t1, entries t1 ≡ₚ entries t -> in_order t1 keys).
  { intros t1 HP. eapply in_order_perm; [|exact Ho]. unfold births. by rewrite HP. }
  destruct o as [k v|k v|k v|k|k n|k f]; cbn [hash_call keys_after].
  - unfold hash_insert. lookup_key Hok k; intros [= <- _]; specialize (Hk k); rewrite Hval in Hk.
    + rewrite decide_True by (apply Hk; eauto). by apply Hperm.
    + rewrite decide_False by (intros [? [=]]%Hk). apply (order_push t t1 keys k v l Hok1); auto.
  - unfold hash_jam. lookup_key Hok k; intros [= <- _]; specialize (Hk k); rewrite Hval in Hk.
    + rewrite decide_True by (apply Hk; eauto). eapply in_order_perm; [by rewrite store_births|]. by apply Hperm.
    + rewrite decide_False by (intros [? [=]]%Hk). apply (order_push t t1 keys k v l Hok1); auto.
  - unfold hash_replace. lookup_key Hok k; intros [= <- _]; [|by apply Hperm].
    eapply in_order_perm; [by rewrite store_births|]. by apply Hperm.
  - unfold hash_find. lookup_key Hok k; intros [= <- _]; by apply Hperm.
  - unfold hash_find_n. destruct (hash_lookup_spec t k n Hok Hv) as (t1 & o & -> & _ & _ & _ & HP & _).
    cbn [rbind]. destruct o; intros [= <- _]; by apply Hperm.
  - unfold hash_delete. lookup_key Hok k.
    + rewrite Hl, decide_True by done. intros [= <- _]. subst k.
      exact (in_order_unlink t1 keys p next _ _ Hok1 Hl (Hperm t1 HP)).
    + intros [= <- _]. rewrite filter_id; [by apply Hperm|]. apply Forall_forall. intros k' Hin ->.
      specialize (Hk k). rewrite Hval in Hk. by apply Hk in Hin as [? [=]].
Qed.

Lemma hash_call_sim (t : hash_control) (keys : list string) (o : hash_op) :
  hash_ok t -> in_order t keys -> op_valid keys o ->
  exists t', hash_call t o = Ret (t', (map_call (hash_map t) o).2)
    /\ hash_ok t' /\ hash_map t' = (map_call (hash_map t) o).1 /\ in_order t' (keys_after keys o).
Proof.
  intros Hok Ho Hv.
  assert (exists t', hash_call t o = Ret (t', (map_call (hash_map t) o).2)
    /\ hash_ok t' /\ hash_map t' = (map_call (hash_map t) o).1) as (t' & E & H1 & H2).
  2:{ exists t'. split; [exact E|]. split; [exact H1|]. split; [exact H2|]. exact (hash_call_order _ _ _ _ _ Hok Ho Hv E). }
  destruct o as [k v|k v|k v|k|k n|k f]; cbn.
  - destruct (hash_insert_spec t k v Hok) as (t' & Hok' & H).
    destruct (hash_map t !! k); destruct H as [-> H]; cbn; eauto.
  - destruct (hash_jam_spec t k v Hok) as (t' & -> & H); cbn; eauto.
  - destruct (hash_replace_spec t k v Hok) as (t' & -> & H); cbn; eauto.
  - destruct (hash_find_spec t k Hok) as (t' & -> & H); cbn; eauto.
  - destruct (hash_find_n_spec t k n Hok Hv) as (t' & -> & H); cbn; eauto.
  - destruct (hash_delete_spec t k f Hok) as (t' & -> & H); [|cbn; eauto].
    intros -> p e Hp Hpk He. cbn in Hv. eapply (in_order_head t keys k); try done. apply Hv.
    rewrite <- Hpk. by eapply in_order_elem.
Qed.

Lemma hash_calls_sim (os : list hash_op) (t : hash_control) (keys : list string) :
  hash_ok t -> in_order t keys -> ops_valid keys os ->
  exists t', hash_calls t os = Ret (t', (map_calls (hash_map t) os).2)
    /\ hash_ok t' /\ hash_map t' = (map_calls (hash_map t) os).1.
Proof.
  revert t keys. induction os as [|o os IH]; intros t keys Hok Hi Hv; cbn; [eauto|].
  destruct Hv as [Ho Hos].
  destruct (hash_call_sim t keys o Hok Hi Ho) as (t1 & -> & Hok1 & Hm1 & Hi1). cbn.
  destruct (IH t1 _ Hok1 Hi1 Hos) as (t2 & -> & Hok2 & Hm2). rewrite Hm1 in Hm2 |- *. cbn.
  destruct (map_call (hash_map t) o) as [m r]. cbn in *.
  destruct (map_calls m os) as [m' rs]. cbn in *. eauto.
Qed.

(** The calls a traversal makes cover the map, each binding once. *)
Lemma traverse_chain_ok (mem : list nat) (l : list hash_entry) :
  (forall e, e ∈ l -> stamp e ∈ mem) ->
  traverse_chain mem l = Ret ((fun e => (string_ e, data e)) <$> l).
Proof.
  induction l as [|q l IH]; intros Hlive; [done|]. cbn.
  unfold deref. rewrite decide_True by (apply Hlive; by left). cbn.
  by rewrite IH by (intros e He; apply Hlive; by right).
Qed.

Lemma traverse_slots_ok (mem : list nat) (tb : list (list hash_entry)) :
  (forall e, e ∈ concat tb -> stamp e ∈ mem) ->
  traverse_slots mem tb = Ret ((fun e => (string_ e, data e)) <$> concat tb).
Proof.
  induction tb as [|l tb IH]; intros Hlive; [done|]. cbn in *.
  rewrite traverse_chain_ok by (intros e He; apply Hlive, elem_of_app; by left). cbn.
  rewrite IH by (intros e He; apply Hlive, elem_of_app; by right). cbn. by rewrite fmap_app.
Qed.

Lemma hash_traverse_ok (t : hash_control) :
  hash_ok t -> exists l, hash_traverse t = Ret l /\ Permutation l (map_to_list (hash_map t)).
Proof.
  intros Hok. unfold hash_traverse. rewrite take_ge by (pose proof (ok_len _ Hok); lia).
  rewrite traverse_slots_ok by apply Hok. eexists. split; [done|].
  symmetry. apply map_to_list_to_map. rewrite <- list_fmap_compose. apply (ok_keys _ Hok).
Qed.

(** C8.  Refinement.  Whatever sequence of insert, jam, replace, find, find_n and
    delete calls is made on a fresh table of any size, no call faults or
    aborts, each returns what the same call returns on a finite map from
    strings, and a traversal at the end visits exactly the map's bindings.  The
    sequence must obey what an obstack asks for: a key that is deleted with [freeme] set is
    not in the table or is the last one entered of those in it ([ops_valid]); as
    [hash_delete_older_dangles] shows, other deletions free what is still in use. *)
Theorem hash_refines_map (sz : Z) (os : list hash_op) :
  0 < sz < 2 ^ 32 -> ops_valid [] os ->
  exists t l, hash_calls (hash_new_sized sz) os = Ret (t, (map_calls ∅ os).2)
    /\ hash_traverse t = Ret l /\ Permutation l (map_to_list (map_calls ∅ os).1).
Proof.
  intros Hsz Hv. destruct (hash_new_ok sz Hsz) as [Hok Hm].
  assert (Ho : in_order (hash_new_sized sz) []).
  { exists []. split_and!; [|constructor|done]. unfold births, entries. cbn. by induction (Z.to_nat sz). }
  destruct (hash_calls_sim os _ [] Hok Ho Hv) as (t & E & Hok' & Hm'). rewrite Hm in E, Hm'.
  destruct (hash_traverse_ok t Hok') as (l & Hl & HP). rewrite Hm' in HP. eauto.
Qed.
End hash.

(** As [macro_expand_body] uses it: the locals are deleted from the last one on, and only
    the first one, which is the last left, is freed. *)
Lemma hash_refines_map_witness :
  exists t l, hash_calls 0 (hash_new_sized 2)
      [Oinsert "add" 1; Oinsert "sub" 2; Oinsert "add" 3; Ofind_n "subu" 3; Ojam "add" 4;
       Oreplace "mul" 5; Oinsert "mul" 6; Odelete "mul" false; Odelete "sub" true; Ofind "sub"; Ofind "add"]
    = Ret (t, [Rmsg None; Rmsg None; Rmsg (Some "exists"%string); Rval 2; Rmsg None;
               Rval 0; Rmsg None; Rval 6; Rval 2; Rval 0; Rval 4])
    /\ hash_traverse t = Ret l /\ Permutation l [("add"%string, 4)].
Proof.
  destruct (hash_refines_map 0 2
      [Oinsert "add" 1; Oinsert "sub" 2; Oinsert "add" 3; Ofind_n "subu" 3; Ojam "add" 4;
       Oreplace "mul" 5; Oinsert "mul" 6; Odelete "mul" false; Odelete "sub" true; Ofind "sub"; Ofind "add"])
    as (t & l & H1 & H2 & H3).
  - lia.
  - cbn. repeat split; auto with arith.
  - exists t, l. split; [exact H1|]. split; [exact H2|exact H3].
Defined.

(** Deleting an older entry with [freeme] set frees the newer ones with it:
    the next lookup that walks past one reads freed memory. *)
Example hash_delete_older_dangles :
  exists t r, hash_calls 0 (hash_new_sized 1) [Oinsert "a" 1; Oinsert "b" 2] = Ret r
    /\ hash_delete 0 r.1 "a" true = Ret (t, 1) /\ hash_find 0 t "b" = Fail Foob.
Proof. eexists _, _. split_and!; vm_compute; reflexivity. Qed.
