(* ===== verification/BfdReloc.v ===== *)
(** * Generic relocation: bfd/reloc.c

    The howto record and the routines that apply one to section contents:
    [bfd_check_overflow], [_bfd_relocate_contents], [_bfd_final_link_relocate],
    [_bfd_clear_contents], [bfd_perform_relocation] and
    [bfd_install_relocation].  Section contents are a byte block; the target is
    big-endian.  The theorems characterise the overflow test arithmetically,
    show that a relocation changes exactly the masked bits of its field and no
    other byte, that a bad address changes nothing, and that the two final-link
    routines agree. *)
From S2P Require Import Prelude Bits Endian.
#[local] Open Scope Z_scope.

(** ** Data *)
Inductive bfd_reloc_status : Type :=
| bfd_reloc_ok
| bfd_reloc_overflow
| bfd_reloc_outofrange
| bfd_reloc_continue
| bfd_reloc_notsupported
| bfd_reloc_other
| bfd_reloc_undefined
| bfd_reloc_dangerous.

#[global] Instance bfd_reloc_status_eq_dec : EqDecision bfd_reloc_status.
Proof. solve_decision. Defined.

Inductive complain_overflow : Type :=
| complain_overflow_dont
| complain_overflow_bitfield
| complain_overflow_signed
| complain_overflow_unsigned.

#[global] Instance complain_overflow_eq_dec : EqDecision complain_overflow.
Proof. solve_decision. Defined.

(** The special functions a howto of this port can name. *)
Inductive special_function_t : Type :=
| sf_bfd_elf_generic_reloc.

Record reloc_howto : Type := HOWTO {
  type : Z;
  rightshift : Z;
  size : Z;
  bitsize : Z;
  pc_relative : bool;
  bitpos : Z;
  complain_on_overflow : complain_overflow;
  special_function : option special_function_t;
  name : option string;
  partial_inplace : bool;
  src_mask : Z;
  dst_mask : Z;
  pcrel_offset : bool
}.

Definition EMPTY_HOWTO (C : Z) : reloc_howto :=
  HOWTO C 0 0 0 false 0 complain_overflow_dont None None false 0 0 false.

(** The parts of [bfd_arch_info_type] and [bfd] relocation looks at. *)
Record bfd_arch_info : Type := mk_arch {
  bits_per_word : Z;
  bits_per_address : Z;
  bits_per_byte : Z;
  arch_name : string
}.

Record bfd : Type := mk_bfd {
  write_direction : bool;
  coff_flavour : bool;
  xvec_name : string;
  arch_info : bfd_arch_info
}.

(** Which of the global sections a section is, if any. *)
Inductive section_kind : Type := sec_normal | sec_und | sec_abs | sec_com.

#[global] Instance section_kind_eq_dec : EqDecision section_kind.
Proof. solve_decision. Defined.

Record asection : Type := mk_section {
  sec_name : string;
  sec_kind : section_kind;
  sec_size : Z;
  rawsize : Z;
  output_offset : Z;
  (** The [vma] of [output_section], if there is one. *)
  output_vma : option Z
}.

Record asymbol : Type := mk_symbol {
  value : Z;
  weak : bool;
  section_sym : bool;
  section : asection
}.

Record arelent : Type := mk_arelent {
  address : Z;
  addend : Z;
  howto_of : option reloc_howto;
  sym : asymbol
}.

Definition set_address (r : arelent) (a : Z) : arelent :=
  mk_arelent a (addend r) (howto_of r) (sym r).
Definition set_addend (r : arelent) (a : Z) : arelent :=
  mk_arelent (address r) a (howto_of r) (sym r).

Definition bfd_arch_bits_per_address (abfd : bfd) : Z := bits_per_address (arch_info abfd).
Definition bfd_octets_per_byte (abfd : bfd) : Z := Z.quot (bits_per_byte (arch_info abfd)) 8.

Definition bfd_get_section_limit_octets (abfd : bfd) (sec : asection) : Z :=
  if negb (write_direction abfd) && negb (rawsize sec =? 0) then rawsize sec else sec_size sec.

(** ** Sizes and overflow *)
Definition bfd_get_reloc_size (howto : reloc_howto) : res Z :=
  let s := size howto in
  if s =? 0 then Ret 1 else if s =? 1 then Ret 2 else if s =? 2 then Ret 4
  else if s =? 3 then Ret 0 else if s =? 4 then Ret 8 else if s =? 8 then Ret 16
  else if s =? -1 then Ret 2 else if s =? -2 then Ret 4 else Fail Fabort.

Definition N_ONES (n : Z) : Z :=
  Z.lor (u64 (Z.shiftl (u64 (u64 (Z.shiftl 1 (n - 1)) - 1)) 1)) 1.

Definition bfd_check_overflow (how : complain_overflow) (bitsize rightshift addrsize relocation : Z)
  : bfd_reloc_status :=
  let fieldmask := N_ONES bitsize in
  let signmask := u64 (Z.lnot fieldmask) in
  let addrmask := Z.lor (N_ONES addrsize) (u64 (Z.shiftl fieldmask rightshift)) in
  let a := Z.shiftr (Z.land relocation addrmask) rightshift in
  let bitfield signmask :=
    let ss := Z.land a signmask in
    if negb (ss =? 0) && negb (ss =? Z.land (Z.shiftr addrmask rightshift) signmask)
    then bfd_reloc_overflow else bfd_reloc_ok in
  match how with
  | complain_overflow_dont => bfd_reloc_ok
  | complain_overflow_signed => bitfield (u64 (Z.lnot (Z.shiftr fieldmask 1)))
  | complain_overflow_bitfield => bitfield signmask
  | complain_overflow_unsigned =>
      if negb (Z.land a signmask =? 0) then bfd_reloc_overflow else bfd_reloc_ok
  end.

Definition reloc_offset_in_range (howto : reloc_howto) (abfd : bfd) (section : asection)
    (octet : Z) : res bool :=
  let octet_end := bfd_get_section_limit_octets abfd section in
  let! reloc_size := bfd_get_reloc_size howto in
  Ret ((octet <=? octet_end) && (u64 (octet + reloc_size) <=? octet_end)).

(** ** Access by size *)
Definition bfd_get_8 (m : list Z) (p : Z) : res Z := let! b := rd m p in Ret (Z.land b 0xff).
Definition bfd_put_8 (x : Z) (m : list Z) (p : Z) : res (list Z) := wr m p (Z.land x 0xff).

(** The [switch (size)] that reads the field, the sizes below 1 apart. *)
Definition get_field (sz : Z) (m : list Z) (p : Z) : res Z :=
  if sz =? 1 then bfd_get_8 m p else if sz =? 2 then bfd_getb16 m p
  else if sz =? 4 then bfd_getb32 m p else if sz =? 8 then bfd_getb64 m p else Fail Fabort.

Definition put_field (sz x : Z) (m : list Z) (p : Z) : res (list Z) :=
  if sz =? 1 then bfd_put_8 x m p else if sz =? 2 then bfd_putb16 x m p
  else if sz =? 4 then bfd_putb32 x m p else if sz =? 8 then bfd_putb64 x m p else Fail Fabort.

(** ** Relocating a field *)

(** The overflow test of [_bfd_relocate_contents], which also looks at the
    addend held in the field. *)
Definition contents_overflow (howto : reloc_howto) (addrsize relocation x : Z)
  : bfd_reloc_status :=
  let fieldmask := N_ONES (bitsize howto) in
  let signmask := u64 (Z.lnot fieldmask) in
  let addrmask := Z.lor (N_ONES addrsize) (u64 (Z.shiftl fieldmask (rightshift howto))) in
  let a := Z.shiftr (Z.land relocation addrmask) (rightshift howto) in
  let b := Z.shiftr (Z.land (Z.land x (src_mask howto)) addrmask) (bitpos howto) in
  let addrmask := Z.shiftr addrmask (rightshift howto) in
  let bitfield signmask :=
    let ss := Z.land a signmask in
    let flag := if negb (ss =? 0) && negb (ss =? Z.land addrmask signmask)
                then bfd_reloc_overflow else bfd_reloc_ok in
    let ss := Z.land (Z.shiftr (u64 (Z.lnot (src_mask howto))) 1) (src_mask howto) in
    let ss := Z.shiftr ss (bitpos howto) in
    let b := u64 (Z.lxor b ss - ss) in
    let sum := u64 (a + b) in
    if negb (Z.land (Z.land (Z.land (u64 (Z.lnot (Z.lxor a b))) (Z.lxor a sum)) signmask)
               addrmask =? 0)
    then bfd_reloc_overflow else flag in
  match complain_on_overflow howto with
  | complain_overflow_dont => bfd_reloc_ok
  | complain_overflow_signed => bitfield (u64 (Z.lnot (Z.shiftr fieldmask 1)))
  | complain_overflow_bitfield => bitfield signmask
  | complain_overflow_unsigned =>
      let sum := Z.land (u64 (a + b)) addrmask in
      if negb (Z.land (Z.lor (Z.lor a b) sum) signmask =? 0)
      then bfd_reloc_overflow else bfd_reloc_ok
  end.

(** [x = (x & ~dst_mask) | (((x & src_mask) + relocation) & dst_mask)] *)
Definition DOIT (howto : reloc_howto) (relocation x : Z) : Z :=
  Z.lor (Z.land x (u64 (Z.lnot (dst_mask howto))))
        (Z.land (u64 (Z.land x (src_mask howto) + relocation)) (dst_mask howto)).

(** [relocation >>= rightshift; relocation <<= bitpos] *)
Definition place (howto : reloc_howto) (relocation : Z) : Z :=
  u64 (Z.shiftl (Z.shiftr relocation (rightshift howto)) (bitpos howto)).

Definition _bfd_relocate_contents (howto : reloc_howto) (input_bfd : bfd) (relocation : Z)
    (m : list Z) (location : Z) : res (bfd_reloc_status * list Z) :=
  let relocation := if size howto <? 0 then u64 (- relocation) else relocation in
  let! sz := bfd_get_reloc_size howto in
  if sz =? 0 then Ret (bfd_reloc_ok, m)
  else
    let! x := get_field sz m location in
    let flag := contents_overflow howto (bfd_arch_bits_per_address input_bfd) relocation x in
    let x := DOIT howto (place howto relocation) x in
    let! m := put_field sz x m location in
    Ret (flag, m).

(** [input_section->output_section->vma]: a null dereference without one. *)
Definition out_vma (sec : asection) : res Z :=
  match output_vma sec with Some v => Ret v | None => Fail Foob end.

Definition _bfd_final_link_relocate (howto : reloc_howto) (input_bfd : bfd)
    (input_section : asection) (contents : list Z) (address value addend : Z)
  : res (bfd_reloc_status * list Z) :=
  let octets := u64 (address * bfd_octets_per_byte input_bfd) in
  let! ok := reloc_offset_in_range howto input_bfd input_section octets in
  if negb ok then Ret (bfd_reloc_outofrange, contents)
  else
    let relocation := u64 (value + addend) in
    let! relocation :=
      (if pc_relative howto then
         let! vma := out_vma input_section in
         let relocation := u64 (relocation - u64 (vma + output_offset input_section)) in
         Ret (if pcrel_offset howto then u64 (relocation - address) else relocation)
       else Ret relocation) in
    _bfd_relocate_contents howto input_bfd relocation contents
      (u64 (address * bfd_octets_per_byte input_bfd)).

Definition _bfd_clear_contents (howto : reloc_howto) (input_section : asection)
    (m : list Z) (location : Z) : res (list Z) :=
  let! sz := bfd_get_reloc_size howto in
  if sz =? 0 then Ret m
  else
    let! x := get_field sz m location in
    let x := Z.land x (u64 (Z.lnot (dst_mask howto))) in
    let x := if String.eqb (sec_name input_section) ".debug_ranges"
                && negb (Z.land (dst_mask howto) 1 =? 0)
             then Z.lor x 1 else x in
    put_field sz x m location.

(** ** Relocations as [arelent]s *)

(** elf.c: the special function of the port's howtos. *)
Definition bfd_elf_generic_reloc (reloc_entry : arelent) (symbol : asymbol)
    (input_section : asection) (output_bfd : bool) : res (bfd_reloc_status * arelent) :=
  match howto_of reloc_entry with
  | None => Fail Foob
  | Some howto =>
      if output_bfd && negb (section_sym symbol)
         && (negb (partial_inplace howto) || (addend reloc_entry =? 0))
      then Ret (bfd_reloc_ok,
                set_address reloc_entry (u64 (address reloc_entry + output_offset input_section)))
      else Ret (bfd_reloc_continue, reloc_entry)
  end.

Definition run_special (f : option special_function_t) (r : arelent) (s : asymbol)
    (input_section : asection) (output_bfd : bool) : res (bfd_reloc_status * arelent) :=
  match f with
  | None => Ret (bfd_reloc_continue, r)
  | Some sf_bfd_elf_generic_reloc => bfd_elf_generic_reloc r s input_section output_bfd
  end.

(** The value computed before any output: symbol, section and addend, less the
    place when the relocation is relative. *)
Definition perform_value (howto : reloc_howto) (r : arelent) (input_section : asection)
    (output_bfd : bool) : res Z :=
  let symbol := sym r in
  let relocation := if decide (sec_kind (section symbol) = sec_com) then 0 else value symbol in
  let output_base :=
    match output_vma (section symbol) with
    | None => 0
    | Some vma => if output_bfd && negb (partial_inplace howto) then 0 else vma
    end in
  let relocation := u64 (relocation + u64 (output_base + output_offset (section symbol))) in
  let relocation := u64 (relocation + addend r) in
  if pc_relative howto then
    let! vma := out_vma input_section in
    let relocation := u64 (relocation - u64 (vma + output_offset input_section)) in
    Ret (if pcrel_offset howto then u64 (relocation - address r) else relocation)
  else Ret relocation.

(** A COFF target other than the two Intel ones. *)
Definition other_coff (abfd : bfd) : bool :=
  coff_flavour abfd && negb (String.eqb (xvec_name abfd) "coff-Intel-little")
  && negb (String.eqb (xvec_name abfd) "coff-Intel-big").

(** The final [switch (howto->size)]; [None] is [bfd_reloc_other].  A [char],
    [short] or [long] variable holds the field. *)
Definition perform_store (howto : reloc_howto) (relocation : Z) (m : list Z) (p : Z)
  : res (option (list Z)) :=
  let s := size howto in
  if s =? 0 then
    let! x := bfd_get_8 m p in
    let! m := bfd_put_8 (u64 (s8 (DOIT howto relocation (u64 (s8 x))))) m p in Ret (Some m)
  else if s =? 1 then
    let! x := bfd_getb16 m p in
    let! m := bfd_putb16 (u64 (sext 16 (DOIT howto relocation (u64 (sext 16 x))))) m p in Ret (Some m)
  else if s =? 2 then
    let! x := bfd_getb32 m p in
    let! m := bfd_putb32 (DOIT howto relocation x) m p in Ret (Some m)
  else if s =? -2 then
    let! x := bfd_getb32 m p in
    let! m := bfd_putb32 (DOIT howto (u64 (- relocation)) x) m p in Ret (Some m)
  else if s =? -1 then
    let! x := bfd_getb16 m p in
    let! m := bfd_putb16 (DOIT howto (u64 (- relocation)) x) m p in Ret (Some m)
  else if s =? 3 then Ret (Some m)
  else if s =? 4 then
    let! x := bfd_getb64 m p in
    let! m := bfd_putb64 (DOIT howto relocation x) m p in Ret (Some m)
  else Ret None.

(** [output_bfd] says whether the output is relocatable. *)
Definition bfd_perform_relocation (abfd : bfd) (reloc_entry : arelent) (data : list Z)
    (input_section : asection) (output_bfd : bool)
  : res (bfd_reloc_status * arelent * list Z) :=
  let symbol := sym reloc_entry in
  let flag := if bool_decide (sec_kind (section symbol) = sec_und) && negb (weak symbol)
                 && negb output_bfd
              then bfd_reloc_undefined else bfd_reloc_ok in
  let! (cont, reloc_entry) :=
    match howto_of reloc_entry with
    | Some howto => run_special (special_function howto) reloc_entry symbol input_section output_bfd
    | None => Ret (bfd_reloc_continue, reloc_entry)
    end in
  if negb (bool_decide (cont = bfd_reloc_continue)) then Ret (cont, reloc_entry, data)
  else if bool_decide (sec_kind (section symbol) = sec_abs) && output_bfd then
    Ret (bfd_reloc_ok,
         set_address reloc_entry (u64 (address reloc_entry + output_offset input_section)), data)
  else
    match howto_of reloc_entry with
    | None => Ret (bfd_reloc_undefined, reloc_entry, data)
    | Some howto =>
        let octets := u64 (address reloc_entry * bfd_octets_per_byte abfd) in
        let! ok := reloc_offset_in_range howto abfd input_section octets in
        if negb ok then Ret (bfd_reloc_outofrange, reloc_entry, data)
        else
          let! relocation := perform_value howto reloc_entry input_section output_bfd in
          let moved := set_address reloc_entry (u64 (address reloc_entry + output_offset input_section)) in
          if output_bfd && negb (partial_inplace howto) then
            Ret (flag, set_addend moved relocation, data)
          else
            let '(relocation, reloc_entry) :=
              if output_bfd then
                if other_coff abfd then (u64 (relocation - addend moved), set_addend moved 0)
                else (relocation, set_addend moved relocation)
              else (relocation, reloc_entry) in
            let flag :=
              if negb (bool_decide (complain_on_overflow howto = complain_overflow_dont))
                 && bool_decide (flag = bfd_reloc_ok)
              then bfd_check_overflow (complain_on_overflow howto) (bitsize howto)
                     (rightshift howto) (bfd_arch_bits_per_address abfd) relocation
              else flag in
            let! stored := perform_store howto (place howto relocation) data octets in
            match stored with
            | Some data => Ret (flag, reloc_entry, data)
            | None => Ret (bfd_reloc_other, reloc_entry, data)
            end
    end.

(** The value [bfd_install_relocation] computes. *)
Definition install_value (howto : reloc_howto) (r : arelent) (input_section : asection) : res Z :=
  let symbol := sym r in
  let relocation := if decide (sec_kind (section symbol) = sec_com) then 0 else value symbol in
  let! output_base := (if negb (partial_inplace howto) then Ret 0 else out_vma (section symbol)) in
  let relocation := u64 (relocation + u64 (output_base + output_offset (section symbol))) in
  let relocation := u64 (relocation + addend r) in
  if pc_relative howto then
    let! vma := out_vma input_section in
    let relocation := u64 (relocation - u64 (vma + output_offset input_section)) in
    Ret (if pcrel_offset howto && partial_inplace howto
         then u64 (relocation - address r) else relocation)
  else Ret relocation.

(** Its [switch (howto->size)] lacks the case -1 of [perform_store]. *)
Definition install_store (howto : reloc_howto) (relocation : Z) (m : list Z) (p : Z)
  : res (option (list Z)) :=
  if size howto =? -1 then Ret None else perform_store howto relocation m p.

Definition bfd_install_relocation (abfd : bfd) (reloc_entry : arelent) (data_start : list Z)
    (data_start_offset : Z) (input_section : asection)
  : res (bfd_reloc_status * arelent * list Z) :=
  let symbol := sym reloc_entry in
  let! (cont, reloc_entry) :=
    match howto_of reloc_entry with
    | Some howto => run_special (special_function howto) reloc_entry symbol input_section true
    | None => Ret (bfd_reloc_continue, reloc_entry)
    end in
  if negb (bool_decide (cont = bfd_reloc_continue)) then Ret (cont, reloc_entry, data_start)
  else
    let moved := set_address reloc_entry (u64 (address reloc_entry + output_offset input_section)) in
    if bool_decide (sec_kind (section symbol) = sec_abs) then Ret (bfd_reloc_ok, moved, data_start)
    else
      match howto_of reloc_entry with
      | None => Fail Foob
      | Some howto =>
          let octets := u64 (address reloc_entry * bfd_octets_per_byte abfd) in
          let! ok := reloc_offset_in_range howto abfd input_section octets in
          if negb ok then Ret (bfd_reloc_outofrange, reloc_entry, data_start)
          else
            let! relocation := install_value howto reloc_entry input_section in
            if negb (partial_inplace howto) then
              Ret (bfd_reloc_ok, set_addend moved relocation, data_start)
            else
              let '(relocation, reloc_entry) :=
                if other_coff abfd then
                  (u64 (relocation - addend moved),
                   if String.eqb (xvec_name abfd) "coff-z8k" then moved else set_addend moved 0)
                else (relocation, set_addend moved relocation) in
              let flag :=
                if bool_decide (complain_on_overflow howto = complain_overflow_dont)
                then bfd_reloc_ok
                else bfd_check_overflow (complain_on_overflow howto) (bitsize howto)
                       (rightshift howto) (bfd_arch_bits_per_address abfd) relocation in
              let! stored := install_store howto (place howto relocation) data_start
                               (octets - data_start_offset) in
              match stored with
              | Some data => Ret (flag, reloc_entry, data)
              | None => Ret (bfd_reloc_other, reloc_entry, data_start)
              end
      end.

(** ** Masks *)

Lemma shiftl_1_minus_1 (n : Z) : 1 <= n <= 64 -> u64 (u64 (Z.shiftl 1 (n - 1)) - 1) = Z.ones (n - 1).
Proof.
  intros Hn. rewrite Z.shiftl_1_l.
  assert (0 < 2 ^ (n - 1)) by (apply Z.pow_pos_nonneg; lia).
  assert (2 ^ (n - 1) <= 2 ^ 63) by (apply Z.pow_le_mono_r; lia).
  rewrite (u64_small (2 ^ (n - 1))) by lia. rewrite u64_small by lia.
  rewrite Z.ones_equiv. lia.
Qed.

Lemma N_ONES_ones (n : Z) : 1 <= n <= 64 -> N_ONES n = Z.ones n.
Proof.
  intros Hn. unfold N_ONES. rewrite shiftl_1_minus_1 by done.
  apply Z.bits_inj'. intros i Hi. unfold u64.
  rewrite Z.lor_spec. change 1 with (2 ^ 0) at 3. rewrite Z.pow2_bits_eqb by lia.
  destruct (Z.eqb_spec 0 i) as [<-|Hi0].
  { rewrite orb_true_r. symmetry. apply Z.ones_spec_low. lia. }
  rewrite orb_false_r. destruct (Z.ltb_spec i 64).
  - rewrite Z.mod_pow2_bits_low, Z.shiftl_spec by lia.
    destruct (Z.ltb_spec i n).
    + rewrite !Z.ones_spec_low by lia. done.
    + rewrite !Z.ones_spec_high by lia. done.
  - rewrite Z.mod_pow2_bits_high, Z.ones_spec_high by lia. done.
Qed.

Lemma lnot_u64_testbit (x i : Z) : 0 <= i -> Z.testbit (u64 (Z.lnot x)) i = (i <? 64) && negb (Z.testbit x i).
Proof.
  intros Hi. unfold u64. destruct (Z.ltb_spec i 64).
  - by rewrite Z.mod_pow2_bits_low, Z.lnot_spec by lia.
  - by rewrite Z.mod_pow2_bits_high by lia.
Qed.

(** With the field inside the address, the address mask is [addrsize] ones. *)
Lemma addrmask_ones (b r w : Z) :
  1 <= b -> 0 <= r -> b + r <= w <= 64 ->
  Z.lor (N_ONES w) (u64 (Z.shiftl (N_ONES b) r)) = Z.ones w.
Proof.
  intros Hb Hr Hw. rewrite !N_ONES_ones by lia.
  assert (Hs : 0 <= Z.shiftl (Z.ones b) r < 2 ^ w).
  { apply shiftl_range; [lia|]. rewrite Z.ones_equiv.
    assert (2 ^ b <= 2 ^ (w - r)) by (apply Z.pow_le_mono_r; lia).
    assert (0 < 2 ^ b) by (apply Z.pow_pos_nonneg; lia). lia. }
  rewrite u64_small; [|assert (2 ^ w <= 2 ^ 64) by (apply Z.pow_le_mono_r; lia); lia].
  apply Z.bits_inj'. intros i Hi. rewrite Z.lor_spec.
  destruct (Z.ltb_spec i w).
  - by rewrite Z.ones_spec_low by lia.
  - rewrite Z.ones_spec_high by lia. by apply (testbit_u w).
Qed.

Lemma shiftr_ones (w r : Z) : 0 <= r <= w -> Z.shiftr (Z.ones w) r = Z.ones (w - r).
Proof.
  intros H. apply Z.bits_inj'. intros i Hi. rewrite Z.shiftr_spec by lia.
  destruct (Z.ltb_spec (i + r) w).
  - by rewrite !Z.ones_spec_low by lia.
  - by rewrite !Z.ones_spec_high by lia.
Qed.

Lemma shiftr_land_ones (x w r : Z) :
  0 <= r <= w -> Z.shiftr (Z.land x (Z.ones w)) r = (Z.shiftr x r) mod 2 ^ (w - r).
Proof. intros H. rewrite Z.shiftr_land, shiftr_ones by done. apply Z.land_ones. lia. Qed.

(** The bits of a [w]-bit number above bit [k] are all clear iff it is below
    [2 ^ k], and all set iff it is at least [2 ^ w - 2 ^ k]. *)
Lemma high_bits (k w a : Z) :
  0 <= k <= w -> w <= 64 -> 0 <= a < 2 ^ w ->
  Z.land a (u64 (Z.lnot (Z.ones k))) = Z.shiftl (a / 2 ^ k) k.
Proof.
  intros Hk Hw Ha. apply Z.bits_inj'. intros i Hi.
  rewrite Z.land_spec, lnot_u64_testbit, Z.shiftl_spec by lia.
  destruct (Z.ltb_spec i k).
  - rewrite Z.ones_spec_low, (Z.testbit_neg_r _ (i - k)) by lia. cbn. by rewrite !andb_false_r.
  - rewrite Z.ones_spec_high by lia. cbn [negb]. rewrite andb_true_r.
    rewrite Z.div_pow2_bits by lia. replace (i - k + k) with i by lia.
    destruct (Z.ltb_spec i 64); [by rewrite andb_true_r|]. rewrite andb_false_r.
    symmetry. apply (testbit_u w); lia.
Qed.

Lemma high_bits_clear (k w a : Z) :
  0 <= k <= w -> w <= 64 -> 0 <= a < 2 ^ w ->
  Z.land a (u64 (Z.lnot (Z.ones k))) = 0 <-> a < 2 ^ k.
Proof.
  intros Hk Hw Ha. rewrite (high_bits k w) by done.
  assert (0 < 2 ^ k) by (apply Z.pow_pos_nonneg; lia).
  rewrite Z.shiftl_mul_pow2 by lia. split; intros H1.
  - assert (a / 2 ^ k = 0) by nia. by apply Z.div_small_iff in H0; lia.
  - rewrite Z.div_small; lia.
Qed.

Lemma high_bits_set (k w a : Z) :
  0 <= k <= w -> w <= 64 -> 0 <= a < 2 ^ w ->
  Z.land a (u64 (Z.lnot (Z.ones k))) = Z.land (Z.ones w) (u64 (Z.lnot (Z.ones k)))
  <-> 2 ^ w - 2 ^ k <= a.
Proof.
  intros Hk Hw Ha.
  assert (Hp : 2 ^ w = 2 ^ (w - k) * 2 ^ k) by (rewrite <- Z.pow_add_r by lia; f_equal; lia).
  assert (0 < 2 ^ k) by (apply Z.pow_pos_nonneg; lia).
  assert (0 < 2 ^ (w - k)) by (apply Z.pow_pos_nonneg; lia).
  rewrite !(high_bits k w) by (rewrite ?Z.ones_equiv; lia).
  rewrite !Z.shiftl_mul_pow2 by lia.
  replace (Z.ones w / 2 ^ k) with (2 ^ (w - k) - 1).
  2:{ rewrite Z.ones_equiv. apply Z.div_unique with (2 ^ k - 1); lia. }
  split; intros H1.
  - assert (a / 2 ^ k = 2 ^ (w - k) - 1) by nia. pose proof (Z.mul_div_le a (2 ^ k)). nia.
  - f_equal. symmetry. apply Z.div_unique with (a - (2 ^ w - 2 ^ k)); lia.
Qed.

Lemma sext_window (k w a : Z) :
  0 <= k < w -> 0 <= a < 2 ^ w ->
  - 2 ^ k <= sext w a < 2 ^ k <-> a < 2 ^ k \/ 2 ^ w - 2 ^ k <= a.
Proof.
  intros Hk Ha.
  assert (Hp : 2 ^ w = 2 * 2 ^ (w - 1)) by (rewrite <- Z.pow_succ_r by lia; f_equal; lia).
  assert (2 ^ k <= 2 ^ (w - 1)) by (apply Z.pow_le_mono_r; lia).
  assert (0 < 2 ^ k) by (apply Z.pow_pos_nonneg; lia).
  assert (sext w a = if a <? 2 ^ (w - 1) then a else a - 2 ^ w) as ->.
  { apply sext_unique; [lia|destruct (Z.ltb_spec a (2 ^ (w - 1))); lia|].
    destruct (Z.ltb_spec a (2 ^ (w - 1))); [done|].
    replace (a - 2 ^ w) with (a + (-1) * 2 ^ w) by lia. by rewrite Z_mod_plus_full. }
  destruct (Z.ltb_spec a (2 ^ (w - 1))); lia.
Qed.

(** ** The overflow test *)

(** What a field of [b] bits admits, of a [w]-bit value [a]. *)
Definition fits (how : complain_overflow) (b w a : Z) : Prop :=
  match how with
  | complain_overflow_dont => True
  | complain_overflow_signed => - 2 ^ (b - 1) <= sext w a < 2 ^ (b - 1)
  | complain_overflow_bitfield => - 2 ^ b <= sext w a < 2 ^ b
  | complain_overflow_unsigned => a < 2 ^ b
  end.

(** "Some, but not all, of the bits outside the field are set." *)
Lemma window_test (k w a : Z) :
  0 <= k <= w -> 0 < w <= 64 -> 0 <= a < 2 ^ w ->
  negb (Z.land a (u64 (Z.lnot (Z.ones k))) =? 0)
    && negb (Z.land a (u64 (Z.lnot (Z.ones k))) =? Z.land (Z.ones w) (u64 (Z.lnot (Z.ones k)))) = false
  <-> - 2 ^ k <= sext w a < 2 ^ k.
Proof.
  intros Hk Hw Ha. rewrite andb_false_iff, !negb_false_iff, !Z.eqb_eq.
  rewrite (high_bits_clear k w), (high_bits_set k w) by lia.
  destruct (decide (k = w)) as [->|Hne].
  - destruct (sext_spec w a) as [Hs _]; [lia|].
    assert (2 ^ w = 2 * 2 ^ (w - 1)) by (rewrite <- Z.pow_succ_r by lia; f_equal; lia). lia.
  - symmetry. apply sext_window; lia.
Qed.

Lemma check_overflow_ok (how : complain_overflow) (b r w relocation : Z) :
  1 <= b -> 0 <= r -> b + r <= w <= 64 ->
  bfd_check_overflow how b r w relocation = bfd_reloc_ok
  <-> fits how b (w - r) (Z.shiftr relocation r mod 2 ^ (w - r)).
Proof.
  intros Hb Hr Hw. unfold bfd_check_overflow.
  rewrite addrmask_ones, shiftr_land_ones, shiftr_ones, N_ONES_ones by lia.
  assert (Ha : 0 <= Z.shiftr relocation r mod 2 ^ (w - r) < 2 ^ (w - r)).
  { apply Z.mod_pos_bound, Z.pow_pos_nonneg; lia. }
  set (a := Z.shiftr relocation r mod 2 ^ (w - r)) in *.
  destruct how; cbn [fits].
  - done.
  - rewrite <- (window_test b (w - r) a) by lia. by destruct (_ && _).
  - rewrite shiftr_ones by lia. rewrite <- (window_test (b - 1) (w - r) a) by lia. by destruct (_ && _).
  - rewrite <- (high_bits_clear b (w - r) a) by lia. rewrite <- Z.eqb_eq. by destruct (_ =? 0).
Qed.

Lemma check_overflow_cases (how : complain_overflow) (b r w relocation : Z) :
  bfd_check_overflow how b r w relocation = bfd_reloc_ok
  \/ bfd_check_overflow how b r w relocation = bfd_reloc_overflow.
Proof. unfold bfd_check_overflow. destruct how; repeat case_match; auto. Qed.

(** C23.  The overflow test accepts exactly the values the field can hold: for a
    field of [bitsize] bits inside the address, [complain_overflow_signed]
    accepts a two's-complement value of [bitsize] bits, [_bitfield] one of
    [bitsize + 1] bits, [_unsigned] a natural number of [bitsize] bits, and
    every other value is reported as an overflow. *)
Theorem bfd_check_overflow_spec (how : complain_overflow) (b r w relocation : Z) :
  1 <= b -> 0 <= r -> b + r <= w <= 64 ->
  let a := Z.shiftr relocation r mod 2 ^ (w - r) in
  (fits how b (w - r) a -> bfd_check_overflow how b r w relocation = bfd_reloc_ok)
  /\ (~ fits how b (w - r) a -> bfd_check_overflow how b r w relocation = bfd_reloc_overflow).
Proof.
  intros Hb Hr Hw a. split; intros Hf.
  - by apply check_overflow_ok.
  - destruct (check_overflow_cases how b r w relocation) as [H|H]; [|done].
    apply check_overflow_ok in H; [done|lia..].
Qed.

Lemma bfd_check_overflow_spec_witness :
  bfd_check_overflow complain_overflow_signed 16 0 32 0xffff8000 = bfd_reloc_ok
  /\ bfd_check_overflow complain_overflow_signed 16 0 32 0x8000 = bfd_reloc_overflow.
Proof.
  split.
  - apply (bfd_check_overflow_spec complain_overflow_signed 16 0 32 0xffff8000); [lia..|].
    split; vm_compute; congruence.
  - apply (bfd_check_overflow_spec complain_overflow_signed 16 0 32 0x8000); [lia..|].
    intros [_ H]. vm_compute in H. congruence.
Defined.

(** ** Fields *)

(** The field sizes the routines handle. *)
Definition field_size (sz : Z) : Prop := sz = 1 \/ sz = 2 \/ sz = 4 \/ sz = 8.

Lemma get_field_bits (sz : Z) (m : list Z) (p : Z) :
  field_size sz -> bytes_ok m -> get_field sz m p = bfd_get_bits m p (8 * sz) true.
Proof.
  intros [->|[->|[->| ->]]] Hm; unfold get_field; cbn [Z.eqb Pos.eqb].
  - unfold bfd_get_8. unloop. read_at m p Hm; [|done]. f_equal. bits.
  - by apply getb16_bits.
  - by apply getb32_bits.
  - by apply getb64_bits.
Qed.

Lemma put_field_bits (sz x : Z) (m : list Z) (p : Z) :
  field_size sz -> put_field sz x m p = bfd_put_bits x m p (8 * sz) true.
Proof.
  intros [->|[->|[->| ->]]]; unfold put_field; cbn [Z.eqb Pos.eqb].
  - unfold bfd_put_8. change (bfd_put_bits x m p (8 * 1) true)
      with (let! m := wr m (p + 0) (Z.land x 0xff) in Ret m).
    rewrite Z.add_0_r. by destruct (wr m p _).
  - apply putb16_bits.
  - apply putb32_bits.
  - apply putb64_bits.
Qed.

Lemma field_size_nat (sz : Z) : field_size sz -> exists n, sz = Z.of_nat n /\ (1 <= n <= 8)%nat.
Proof. intros H. exists (Z.to_nat sz). unfold field_size in H. lia. Qed.

Lemma get_field_total (sz : Z) (m : list Z) (p : Z) :
  field_size sz -> bytes_ok m -> 0 <= p -> p + sz <= Z.of_nat (length m) ->
  exists x, get_field sz m p = Ret x /\ 0 <= x < 2 ^ (8 * sz).
Proof.
  intros Hsz Hm Hp Hl. rewrite get_field_bits by done.
  destruct (field_size_nat sz Hsz) as (n & -> & Hn). apply get_bits_total; auto. lia.
Qed.

Lemma put_field_spec (sz x : Z) (m : list Z) (p : Z) :
  field_size sz -> bytes_ok m -> 0 <= p -> p + sz <= Z.of_nat (length m) ->
  exists m', put_field sz x m p = Ret m' /\ get_field sz m' p = Ret (x mod 2 ^ (8 * sz))
    /\ same_outside m m' p sz /\ bytes_ok m'.
Proof.
  intros Hsz Hm Hp Hl. rewrite put_field_bits by done.
  destruct (field_size_nat sz Hsz) as (n & E & Hn). rewrite E in *.
  destruct (put_bits_spec n x m p true Hp Hl) as (m' & H1 & Hs & Hb & Hok).
  exists m'. split_and!; [exact H1| |exact Hs|auto].
  rewrite get_field_bits by auto. apply get_bits_ret; [lia|done].
Qed.

(** ** Relocating a field without an in-place addend *)
Lemma contents_overflow_rela (howto : reloc_howto) (w relocation x : Z) :
  src_mask howto = 0 -> 0 <= rightshift howto -> 0 <= relocation < 2 ^ 64 ->
  contents_overflow howto w relocation x
  = bfd_check_overflow (complain_on_overflow howto) (bitsize howto) (rightshift howto) w relocation.
Proof.
  intros Hs Hr Hrel. unfold contents_overflow, bfd_check_overflow. rewrite Hs.
  set (am := Z.lor (N_ONES w) _). set (a := Z.shiftr (Z.land relocation am) (rightshift howto)).
  assert (Ha : 0 <= a < 2 ^ 64).
  { apply shiftr_range; [lia|done|]. apply land_range_l; [lia|done]. }
  assert (Ham : Z.land a (Z.shiftr am (rightshift howto)) = a).
  { unfold a. rewrite <- Z.shiftr_land, <- Z.land_assoc, Z.land_diag. done. }
  rewrite ?Z.land_0_r, ?Z.land_0_l, ?Z.shiftr_0_l.
  change (u64 (Z.lxor 0 0 - 0)) with 0. rewrite Z.add_0_r, (u64_small a) by done.
  rewrite Z.lxor_nilpotent, Z.land_0_r, !Z.land_0_l, Z.eqb_refl. cbn [negb].
  rewrite Ham, Z.lor_0_r, Z.lor_diag. done.
Qed.

Lemma DOIT_range (howto : reloc_howto) (n r x : Z) :
  0 <= n -> 0 <= x < 2 ^ n -> 0 <= dst_mask howto < 2 ^ n -> 0 <= DOIT howto r x < 2 ^ n.
Proof.
  intros Hn Hx Hd. apply lor_range; [done| |].
  - by apply land_range_l.
  - by apply land_range_r.
Qed.

(** The masked bits come from the relocation, the others from the field. *)
Lemma DOIT_rela (howto : reloc_howto) (n r x : Z) :
  src_mask howto = 0 -> 0 <= n <= 64 -> 0 <= x < 2 ^ n -> 0 <= dst_mask howto < 2 ^ n ->
  Z.land (DOIT howto r x) (dst_mask howto) = Z.land r (dst_mask howto)
  /\ Z.ldiff (DOIT howto r x) (dst_mask howto) = Z.ldiff x (dst_mask howto).
Proof.
  intros Hs Hn Hx Hd. unfold DOIT. rewrite Hs, Z.land_0_r, Z.add_0_l.
  assert (Hhi : forall i, 64 <= i -> Z.testbit (dst_mask howto) i = false /\ Z.testbit x i = false).
  { intros i Hi. split; apply (testbit_u n); lia. }
  assert (Hu : forall i, 0 <= i < 64 -> Z.testbit (u64 r) i = Z.testbit r i).
  { intros i Hi. unfold u64. by rewrite Z.mod_pow2_bits_low by lia. }
  split; apply Z.bits_inj'; intros i Hi; rewrite ?Z.ldiff_spec, ?Z.land_spec, ?Z.lor_spec, ?Z.land_spec;
    rewrite !lnot_u64_testbit by done; destruct (Z.ltb_spec i 64) as [Hlt|Hge];
    try (rewrite Hu by lia); try (destruct (Hhi i Hge) as [-> ->]); cbn [andb negb];
    btauto.
Qed.

(** A howto of a RELA target: a field of a supported size, no addend in it. *)
Record rela_howto (howto : reloc_howto) (sz : Z) : Prop := {
  rh_size : bfd_get_reloc_size howto = Ret sz;
  rh_field : field_size sz;
  rh_src : src_mask howto = 0;
  rh_dst : 0 <= dst_mask howto < 2 ^ (8 * sz);
  rh_shift : 0 <= rightshift howto;
  rh_bitpos : 0 <= bitpos howto
}.

(** The value stored: negated for a negative size. *)
Definition signed_reloc (howto : reloc_howto) (relocation : Z) : Z :=
  if size howto <? 0 then u64 (- relocation) else relocation.

Lemma signed_reloc_range (howto : reloc_howto) (r : Z) :
  0 <= r < 2 ^ 64 -> 0 <= signed_reloc howto r < 2 ^ 64.
Proof. intros Hr. unfold signed_reloc. destruct (size howto <? 0); [apply u64_range|done]. Qed.

(** [y] is [x] with the bits of [dst_mask] taken from [r], bit [rightshift] of
    [r] at [bitpos]. *)
Definition relocated (howto : reloc_howto) (r x y : Z) : Prop :=
  forall i, 0 <= i < 64 ->
  Z.testbit y i
  = if Z.testbit (dst_mask howto) i
    then (bitpos howto <=? i) && Z.testbit r (i - bitpos howto + rightshift howto)
    else Z.testbit x i.

(** The stored word, bit by bit. *)
Lemma DOIT_place (howto : reloc_howto) (n r x : Z) :
  src_mask howto = 0 -> 0 <= n <= 64 -> 0 <= x < 2 ^ n -> 0 <= dst_mask howto < 2 ^ n ->
  0 <= rightshift howto -> 0 <= bitpos howto -> relocated howto r x (DOIT howto (place howto r) x).
Proof.
  intros Hs Hn Hx Hd Hr Hb i Hi.
  destruct (DOIT_rela howto n (place howto r) x Hs Hn Hx Hd) as [H1 H2].
  apply (f_equal (fun z => Z.testbit z i)) in H1, H2.
  rewrite !Z.land_spec in H1. rewrite !Z.ldiff_spec in H2.
  destruct (Z.testbit (dst_mask howto) i).
  - rewrite !andb_true_r in H1. rewrite H1. unfold place, u64.
    rewrite Z.mod_pow2_bits_low by lia. destruct (Z.leb_spec (bitpos howto) i).
    + rewrite Z.shiftl_spec, Z.shiftr_spec by lia. cbn [andb]. reflexivity.
    + rewrite Z.shiftl_spec_low by lia. reflexivity.
  - cbn [negb] in H2. by rewrite !andb_true_r in H2.
Qed.

Lemma relocate_contents_rela (howto : reloc_howto) (sz : Z) (abfd : bfd) (r : Z) (m : list Z) (p : Z) :
  rela_howto howto sz -> 0 <= r < 2 ^ 64 -> bytes_ok m -> 0 <= p -> p + sz <= Z.of_nat (length m) ->
  exists x y m', get_field sz m p = Ret x
    /\ _bfd_relocate_contents howto abfd r m p
       = Ret (bfd_check_overflow (complain_on_overflow howto) (bitsize howto) (rightshift howto)
                (bfd_arch_bits_per_address abfd) (signed_reloc howto r), m')
    /\ get_field sz m' p = Ret y /\ relocated howto (signed_reloc howto r) x y
    /\ same_outside m m' p sz /\ bytes_ok m'.
Proof.
  intros [Hs Hf Hsrc Hd Hsh Hbp] Hr Hm Hp Hl.
  destruct (get_field_total sz m p Hf Hm Hp Hl) as (x & Ex & Hx).
  pose proof (signed_reloc_range howto r Hr) as Hr'.
  set (y := DOIT howto (place howto (signed_reloc howto r)) x).
  destruct (put_field_spec sz y m p Hf Hm Hp Hl) as (m' & Ep & Eg & Hso & Hok).
  assert (Hsz : 0 <= 8 * sz <= 64) by (unfold field_size in Hf; lia).
  rewrite Z.mod_small in Eg by (apply DOIT_range; [lia|done|done]).
  exists x, y, m'. split_and!; auto.
  - unfold _bfd_relocate_contents. fold (signed_reloc howto r). rewrite Hs. cbn [rbind].
    rewrite (proj2 (Z.eqb_neq sz 0)) by (unfold field_size in Hf; lia).
    rewrite Ex. cbn [rbind]. fold y. rewrite Ep. cbn [rbind].
    by rewrite contents_overflow_rela.
  - by apply (DOIT_place howto (8 * sz)).
Qed.

(** ** Final links *)

(** The howto's field lies in the section. *)
Definition in_section (abfd : bfd) (sec : asection) (sz address : Z) : bool :=
  (address <=? bfd_get_section_limit_octets abfd sec)
  && (u64 (address + sz) <=? bfd_get_section_limit_octets abfd sec).

(** [S + A], less the place for a relative howto. *)
Definition reloc_value (howto : reloc_howto) (vma offset address value addend : Z) : Z :=
  u64 (value + addend
       - (if pc_relative howto then vma + offset + (if pcrel_offset howto then address else 0) else 0)).

(** C24.  [_bfd_final_link_relocate] rejects a field outside the section as
    [bfd_reloc_outofrange] and then leaves the contents alone; otherwise it
    stores S + A (minus the place for a relative howto), shifted right by
    [rightshift] and left by [bitpos], in the bits of [dst_mask], keeps every
    other bit of the field and every other byte of the section, and reports what [bfd_check_overflow] says of that value. *)
Theorem final_link_relocate_spec (howto : reloc_howto) (sz : Z) (abfd : bfd) (sec : asection)
    (m : list Z) (addr val add vma : Z) :
  rela_howto howto sz -> bfd_octets_per_byte abfd = 1 -> 0 <= addr < 2 ^ 64 -> bytes_ok m ->
  output_vma sec = Some vma ->
  bfd_get_section_limit_octets abfd sec <= Z.of_nat (length m) <= 2 ^ 63 ->
  if in_section abfd sec sz addr then
    let r := signed_reloc howto (reloc_value howto vma (output_offset sec) addr val add) in
    exists x y m', get_field sz m addr = Ret x
      /\ _bfd_final_link_relocate howto abfd sec m addr val add
         = Ret (bfd_check_overflow (complain_on_overflow howto) (bitsize howto) (rightshift howto)
                  (bfd_arch_bits_per_address abfd) r, m')
      /\ get_field sz m' addr = Ret y /\ relocated howto r x y
      /\ same_outside m m' addr sz /\ bytes_ok m'
  else _bfd_final_link_relocate howto abfd sec m addr val add = Ret (bfd_reloc_outofrange, m).
Proof.
  intros Hh Ho Ha Hm Hv Hlim. unfold _bfd_final_link_relocate.
  rewrite Ho, Z.mul_1_r, (u64_small addr) by done.
  unfold reloc_offset_in_range. rewrite (rh_size _ _ Hh). cbn [rbind]. fold (in_section abfd sec sz addr).
  destruct (in_section abfd sec sz addr) eqn:Ein; cbn [negb]; [|done].
  unfold in_section in Ein. rewrite andb_true_iff, !Z.leb_le in Ein.
  assert (Hf := rh_field _ _ Hh). unfold field_size in Hf.
  rewrite u64_small in Ein by lia. unfold out_vma. rewrite Hv.
  set (r := signed_reloc howto _).
  match goal with |- context [rbind ?e (fun z => _bfd_relocate_contents howto abfd z m addr)] =>
    replace e with (Ret (reloc_value howto vma (output_offset sec) addr val add)) end.
  - cbn [rbind]. apply relocate_contents_rela; auto; [apply u64_range|lia|lia].
  - unfold reloc_value. destruct (pc_relative howto), (pcrel_offset howto); cbn [rbind];
      f_equal; wrap64.
Qed.

(** A 16-bit field in the low half of a word, as the LI-format relocations use. *)
Definition demo_howto : reloc_howto :=
  HOWTO 1 0 2 16 true 0 complain_overflow_signed (Some sf_bfd_elf_generic_reloc) None false 0
    0xffff true.
Definition demo_bfd : bfd := mk_bfd false false "elf32-fusion" (mk_arch 32 32 8 "fusion").
Definition demo_section : asection := mk_section ".text" sec_normal 8 0 0x10 (Some 0x1000).

Lemma demo_rela : rela_howto demo_howto 4.
Proof. by split; unfold field_size; cbn; auto; lia. Qed.

Lemma final_link_relocate_spec_witness :
  exists m', _bfd_final_link_relocate demo_howto demo_bfd demo_section
               [1; 2; 3; 4; 5; 6; 7; 8] 4 0x1000 8 = Ret (bfd_reloc_ok, m')
    /\ same_outside [1; 2; 3; 4; 5; 6; 7; 8] m' 4 4.
Proof.
  pose proof (final_link_relocate_spec demo_howto 4 demo_bfd demo_section [1; 2; 3; 4; 5; 6; 7; 8]
                4 0x1000 8 0x1000) as H.
  destruct H as (x & y & m' & _ & H1 & _ & _ & H2 & _).
  - exact demo_rela.
  - reflexivity.
  - lia.
  - repeat constructor; lia.
  - reflexivity.
  - cbn. lia.
  - exists m'. split; [exact H1|exact H2].
Defined.

(** ** The two final-link routines agree *)
Lemma byte_of_ext (n : nat) (x y j : Z) :
  x mod 2 ^ (8 * Z.of_nat n) = y mod 2 ^ (8 * Z.of_nat n) -> 0 <= j < Z.of_nat n ->
  byte_of x j = byte_of y j.
Proof. intros H Hj. by rewrite <- (byte_of_mod x n), <- (byte_of_mod y n), H. Qed.

Lemma put_field_mod (sz x y : Z) (m : list Z) (p : Z) :
  field_size sz -> x mod 2 ^ (8 * sz) = y mod 2 ^ (8 * sz) ->
  put_field sz x m p = put_field sz y m p.
Proof.
  intros Hf H. rewrite !put_field_bits by done. destruct (field_size_nat sz Hf) as (n & -> & Hn).
  rewrite !put_bits_writes. f_equal. apply list_fmap_ext. intros i j Hj.
  apply list_elem_of_lookup_2, elem_of_seqZ in Hj. f_equal. apply (byte_of_ext n); [done|lia].
Qed.

Lemma mod_pow2_testbit (n x y : Z) :
  0 <= n -> (forall i, 0 <= i < n -> Z.testbit x i = Z.testbit y i) -> x mod 2 ^ n = y mod 2 ^ n.
Proof.
  intros Hn H. apply Z.bits_inj'. intros i Hi. destruct (Z.ltb_spec i n).
  - rewrite !Z.mod_pow2_bits_low by lia. apply H. lia.
  - by rewrite !Z.mod_pow2_bits_high by lia.
Qed.

Lemma testbit_mod_pow2 (n x y i : Z) :
  x mod 2 ^ n = y mod 2 ^ n -> 0 <= i < n -> Z.testbit x i = Z.testbit y i.
Proof. intros H Hi. by rewrite <- (Z.mod_pow2_bits_low x n), H, Z.mod_pow2_bits_low by lia. Qed.

(** Only the low bits of the field's old value reach the low bits of the new. *)
Lemma DOIT_mod (howto : reloc_howto) (n r x y : Z) :
  src_mask howto = 0 -> 0 <= n <= 64 -> x mod 2 ^ n = y mod 2 ^ n ->
  DOIT howto r x mod 2 ^ n = DOIT howto r y mod 2 ^ n.
Proof.
  intros Hs Hn H. apply mod_pow2_testbit; [lia|]. intros i Hi. unfold DOIT.
  rewrite Hs, !Z.land_0_r, !Z.lor_spec, !Z.land_spec. by rewrite (testbit_mod_pow2 n x y i H Hi).
Qed.

Lemma u64_sext_mod (n x : Z) : 0 < n <= 64 -> u64 (sext n x) mod 2 ^ n = x mod 2 ^ n.
Proof.
  intros Hn. unfold u64. rewrite Z.mod_mod_divide.
  - apply sext_spec. lia.
  - exists (2 ^ (64 - n)). rewrite <- Z.pow_add_r by lia. f_equal. lia.
Qed.

(** Holding the field in a signed variable makes no difference. *)
Lemma perform_store_field (howto : reloc_howto) (sz r : Z) (m : list Z) (p : Z) :
  rela_howto howto sz -> 0 <= size howto ->
  perform_store howto r m p
  = let! x := get_field sz m p in let! m := put_field sz (DOIT howto r x) m p in Ret (Some m).
Proof.
  intros [Hs Hf Hsrc Hd Hsh] H0. unfold bfd_get_reloc_size in Hs. unfold perform_store.
  destruct (Z.eqb_spec (size howto) 0) as [_|_].
  { injection Hs as <-. change (get_field 1 m p) with (bfd_get_8 m p). apply rbind_ext. intros x.
    change bfd_put_8 with (put_field 1). f_equal. apply put_field_mod; [done|].
    change s8 with (sext 8). change (8 * 1) with 8. rewrite u64_sext_mod by lia.
    apply DOIT_mod; [done|lia|]. by apply u64_sext_mod. }
  destruct (Z.eqb_spec (size howto) 1) as [_|_].
  { injection Hs as <-. change (get_field 2 m p) with (bfd_getb16 m p). apply rbind_ext. intros x.
    change bfd_putb16 with (put_field 2). f_equal. apply put_field_mod; [done|].
    change (8 * 2) with 16. rewrite u64_sext_mod by lia.
    apply DOIT_mod; [done|lia|]. by apply u64_sext_mod. }
  destruct (Z.eqb_spec (size howto) 2) as [_|_]; [by injection Hs as <-|].
  rewrite (proj2 (Z.eqb_neq (size howto) (-2))), (proj2 (Z.eqb_neq (size howto) (-1))) by lia.
  rewrite (proj2 (Z.eqb_neq (size howto) (-2))), (proj2 (Z.eqb_neq (size howto) (-1))) in Hs by lia.
  destruct (Z.eqb_spec (size howto) 3) as [_|_].
  { injection Hs as <-. unfold field_size in Hf. lia. }
  destruct (Z.eqb_spec (size howto) 4) as [_|_]; [by injection Hs as <-|].
  destruct (size howto =? 8); [|done]. injection Hs as <-. unfold field_size in Hf. lia.
Qed.

(** A symbol the final link can resolve: defined or weak, and not common. *)
Definition resolvable (s : asymbol) : Prop :=
  (sec_kind (section s) <> sec_und \/ weak s = true) /\ sec_kind (section s) <> sec_com.

Lemma perform_value_final (howto : reloc_howto) (r : arelent) (sec : asection) (svma vma : Z) :
  resolvable (sym r) -> output_vma (section (sym r)) = Some svma -> output_vma sec = Some vma ->
  perform_value howto r sec false
  = Ret (reloc_value howto vma (output_offset sec) (address r)
           (u64 (value (sym r) + svma + output_offset (section (sym r)))) (addend r)).
Proof.
  intros [_ Hc] Hs Hv. unfold perform_value, reloc_value, out_vma. rewrite Hs, Hv.
  rewrite decide_False by done. cbn [andb rbind].
  destruct (pc_relative howto), (pcrel_offset howto); cbn [rbind]; f_equal; wrap64.
Qed.

(** In a final link against a defined symbol, [bfd_perform_relocation] and
    [_bfd_final_link_relocate] agree for every howto without an in-place addend
    and with a non-negative size: same status, same contents, same faults,
    whether the field is in range or not; the relocation entry is not changed. *)
Theorem perform_agrees_with_final_link (abfd : bfd) (howto : reloc_howto) (sz : Z)
    (sec : asection) (s : asymbol) (addr add vma svma : Z) (data : list Z) :
  rela_howto howto sz -> 0 <= size howto -> bfd_octets_per_byte abfd = 1 -> 0 <= addr < 2 ^ 64 ->
  resolvable s -> output_vma (section s) = Some svma -> output_vma sec = Some vma ->
  let e := mk_arelent addr add (Some howto) s in
  bfd_perform_relocation abfd e data sec false
  = let! (st, d) := _bfd_final_link_relocate howto abfd sec data addr
                      (u64 (value s + svma + output_offset (section s))) add in
    Ret (st, e, d).
Proof.
  intros Hh H0 Ho Ha Hres Hs Hv e. unfold bfd_perform_relocation, _bfd_final_link_relocate.
  change (sym e) with s. change (howto_of e) with (Some howto). change (address e) with addr.
  assert (Hsp : run_special (special_function howto) e s sec false = Ret (bfd_reloc_continue, e))
    by (destruct (special_function howto) as [[]|]; reflexivity).
  cbv beta iota zeta. fold e. rewrite Hsp.
  cbn [rbind]. rewrite (bool_decide_true (bfd_reloc_continue = _)) by done. cbn [negb].
  rewrite (andb_false_r (bool_decide (_ = sec_abs))). unfold reloc_offset_in_range.
  change (howto_of e) with (Some howto). change (address e) with addr.
  cbv beta iota. rewrite Ho, Z.mul_1_r, (u64_small addr) by done.
  rewrite (rh_size _ _ Hh). cbn [rbind].
  fold (in_section abfd sec sz addr). destruct (in_section abfd sec sz addr); cbn [negb]; [|done].
  fold e. rewrite (perform_value_final howto e sec svma vma) by done.
  replace (bool_decide (sec_kind (section s) = sec_und) && negb (weak s) && true) with false.
  2:{ destruct Hres as [[Hu| ->] _]; [by rewrite bool_decide_false|by rewrite andb_false_r]. }
  set (r := reloc_value howto vma _ _ _ _). unfold out_vma. rewrite Hv.
  match goal with |- context [rbind ?x (fun z => _bfd_relocate_contents howto abfd z data addr)] =>
    replace x with (Ret r) end.
  2:{ unfold r, reloc_value, e. cbn. destruct (pc_relative howto), (pcrel_offset howto); cbn; f_equal; wrap64. }
  cbn [rbind]. rewrite (perform_store_field howto sz) by done.
  unfold _bfd_relocate_contents. rewrite (proj2 (Z.ltb_ge (size howto) 0)) by done.
  rewrite (rh_size _ _ Hh). cbn [rbind].
  assert (Hf := rh_field _ _ Hh). rewrite (proj2 (Z.eqb_neq sz 0)) by (unfold field_size in Hf; lia).
  destruct (get_field sz data addr) as [x|]; cbn [rbind]; [|done].
  destruct (put_field sz _ data addr) as [d|]; cbn [rbind]; [|done].
  rewrite contents_overflow_rela by (try apply Hh; apply u64_range).
  rewrite andb_true_r. case_bool_decide as Hd; cbn [negb]; [by rewrite Hd|done].
Qed.

Lemma perform_agrees_with_final_link_witness :
  let e := mk_arelent 4 8 (Some demo_howto) (mk_symbol 0x20 false false demo_section) in
  bfd_perform_relocation demo_bfd e [1; 2; 3; 4; 5; 6; 7; 8] demo_section false
  = Ret (bfd_reloc_ok, e, [1; 2; 3; 4; 5; 6; 0; 0x24]).
Proof.
  intros e.
  rewrite (perform_agrees_with_final_link demo_bfd demo_howto 4 demo_section
             (mk_symbol 0x20 false false demo_section) 4 8 0x1000 0x1000);
    [reflexivity|exact demo_rela|cbn; lia|reflexivity|lia|split; [left|]; discriminate
    |reflexivity|reflexivity].
Defined.

Lemma install_rela (abfd : bfd) (e : arelent) (howto : reloc_howto) (sz vma off : Z)
    (data : list Z) (sec : asection) :
  howto_of e = Some howto -> special_function howto = Some sf_bfd_elf_generic_reloc ->
  partial_inplace howto = false -> bfd_get_reloc_size howto = Ret sz ->
  bfd_octets_per_byte abfd = 1 -> 0 <= address e < 2 ^ 64 ->
  sec_kind (section (sym e)) <> sec_com -> output_vma sec = Some vma ->
  let moved := set_address e (u64 (address e + output_offset sec)) in
  bfd_install_relocation abfd e data off sec
  = Ret (if negb (section_sym (sym e)) || bool_decide (sec_kind (section (sym e)) = sec_abs)
         then (bfd_reloc_ok, moved, data)
         else if in_section abfd sec sz (address e) then
           (bfd_reloc_ok,
            set_addend moved
              (u64 (value (sym e) + output_offset (section (sym e)) + addend e
                    - (if pc_relative howto then vma + output_offset sec else 0))), data)
         else (bfd_reloc_outofrange, e, data)).
Proof.
  intros Hh Hsp Hp Hsz Ho Ha Hc Hv moved. unfold bfd_install_relocation.
  rewrite Hh, Hsp. cbn [run_special]. unfold bfd_elf_generic_reloc. rewrite Hh, Hp. cbn [negb orb andb].
  rewrite andb_true_r. destruct (section_sym (sym e)); cbn [negb orb rbind]; [|done].
  rewrite (bool_decide_true (_ = bfd_reloc_continue)) by done. cbn [negb].
  case_bool_decide; [done|]. rewrite Hh, Ho, Z.mul_1_r, (u64_small (address e)) by done.
  unfold reloc_offset_in_range. rewrite Hsz. cbn [rbind].
  fold (in_section abfd sec sz (address e)). destruct (in_section abfd sec sz (address e)); cbn [negb]; [|done].
  unfold install_value, out_vma. rewrite Hp, Hv. rewrite decide_False by done. cbn [negb rbind].
  rewrite andb_false_r. destruct (pc_relative howto); cbn [rbind]; do 4 f_equal; wrap64.
Qed.

(** For a howto without in-place addends, [bfd_install_relocation] never
    touches the contents: the section-relative address is adjusted, an entry
    against a section symbol takes the symbol's value and addend (less the
    section's address when relative) as its new addend, an entry against an
    ordinary symbol keeps its own, and a field outside the section is reported
    with the entry unchanged. *)
Theorem install_relocation_rela (abfd : bfd) (e : arelent) (howto : reloc_howto) (sz vma off : Z)
    (data : list Z) (sec : asection) :
  howto_of e = Some howto -> special_function howto = Some sf_bfd_elf_generic_reloc ->
  partial_inplace howto = false -> bfd_get_reloc_size howto = Ret sz ->
  bfd_octets_per_byte abfd = 1 -> 0 <= address e < 2 ^ 64 ->
  sec_kind (section (sym e)) <> sec_com -> output_vma sec = Some vma ->
  let moved := set_address e (u64 (address e + output_offset sec)) in
  bfd_install_relocation abfd e data off sec
  = Ret (if negb (section_sym (sym e)) || bool_decide (sec_kind (section (sym e)) = sec_abs)
         then (bfd_reloc_ok, moved, data)
         else if in_section abfd sec sz (address e) then
           (bfd_reloc_ok,
            set_addend moved
              (u64 (value (sym e) + output_offset (section (sym e)) + addend e
                    - (if pc_relative howto then vma + output_offset sec else 0))), data)
         else (bfd_reloc_outofrange, e, data)).
Proof. apply install_rela. Qed.

Lemma install_relocation_rela_witness :
  let e := mk_arelent 4 8 (Some demo_howto) (mk_symbol 0x20 false true demo_section) in
  bfd_install_relocation demo_bfd e [1; 2; 3; 4; 5; 6; 7; 8] 0 demo_section
  = Ret (bfd_reloc_ok, set_addend (set_address e 0x14) (u64 (0x38 - 0x1010)), [1; 2; 3; 4; 5; 6; 7; 8]).
Proof.
  intros e.
  rewrite (install_relocation_rela demo_bfd e demo_howto 4 0x1000 0 _ demo_section);
    [reflexivity|reflexivity|reflexivity|reflexivity|reflexivity|reflexivity|cbn; lia
    |discriminate|reflexivity].
Defined.

(** [_bfd_clear_contents] zeroes exactly the bits of [dst_mask], except that
    in [.debug_ranges] bit 0 of the mask is set; every other bit of the field
    and every other byte of the section is kept. *)
Theorem clear_contents_spec (howto : reloc_howto) (sz : Z) (sec : asection) (m : list Z) (p : Z) :
  rela_howto howto sz -> bytes_ok m -> 0 <= p -> p + sz <= Z.of_nat (length m) ->
  exists x m', get_field sz m p = Ret x
    /\ _bfd_clear_contents howto sec m p = Ret m'
    /\ get_field sz m' p
       = Ret (Z.lor (Z.ldiff x (dst_mask howto))
                    (if String.eqb (sec_name sec) ".debug_ranges"
                     then Z.land (dst_mask howto) 1 else 0))
    /\ same_outside m m' p sz.
Proof.
  intros [Hs Hf _ Hd _ _] Hm Hp Hl.
  destruct (get_field_total sz m p Hf Hm Hp Hl) as (x & Ex & Hx).
  assert (Hsz : 8 <= 8 * sz <= 64) by (unfold field_size in Hf; lia).
  assert (Hc : Z.land x (u64 (Z.lnot (dst_mask howto))) = Z.ldiff x (dst_mask howto)).
  { apply Z.bits_inj'. intros i Hi. rewrite Z.land_spec, Z.ldiff_spec, lnot_u64_testbit by done.
    destruct (Z.ltb_spec i 64); [done|]. rewrite (testbit_u (8 * sz) x) by lia. done. }
  set (v := Z.lor (Z.ldiff x (dst_mask howto)) (if String.eqb (sec_name sec) ".debug_ranges"
                     then Z.land (dst_mask howto) 1 else 0)).
  assert (Hv : 0 <= v < 2 ^ (8 * sz)).
  { apply lor_range; [lia| |].
    - rewrite <- Hc. apply land_range_l; [lia|done].
    - destruct (String.eqb _ _); [apply land_range_l; [lia|done]|]. split; [lia|].
      apply Z.pow_pos_nonneg; lia. }
  destruct (put_field_spec sz v m p Hf Hm Hp Hl) as (m' & Ep & Eg & Hso & Hok).
  rewrite Z.mod_small in Eg by done.
  exists x, m'. split_and!; [done| |done|done].
  unfold _bfd_clear_contents. rewrite Hs. cbn [rbind]. rewrite (proj2 (Z.eqb_neq sz 0)) by lia.
  rewrite Ex. cbn [rbind]. rewrite Hc, <- Ep. f_equal. unfold v.
  destruct (String.eqb _ _); cbn [andb]; [|by rewrite Z.lor_0_r].
  change 1 with (Z.ones 1). rewrite Z.land_ones by lia. change (2 ^ 1) with 2.
  rewrite Zmod_odd. destruct (Z.odd (dst_mask howto)); cbn [Z.eqb negb]; [done|by rewrite Z.lor_0_r].
Qed.

Lemma clear_contents_spec_witness :
  exists m', _bfd_clear_contents demo_howto
               (mk_section ".debug_ranges" sec_normal 8 0 0 (Some 0)) [1; 2; 3; 4] 0 = Ret m'
    /\ get_field 4 m' 0 = Ret 0x01020001.
Proof.
  destruct (clear_contents_spec demo_howto 4 (mk_section ".debug_ranges" sec_normal 8 0 0 (Some 0))
              [1; 2; 3; 4] 0) as (x & m' & Hx & H1 & H2 & _).
  - exact demo_rela.
  - repeat constructor; lia.
  - lia.
  - cbn. lia.
  - exists m'. split; [exact H1|]. rewrite H2. vm_compute in Hx. injection Hx as <-. reflexivity.
Defined.
