(* ===== verification/FusionReloc.v ===== *)
(** * Fusion relocations: bfd/elf32-fusion.c (part 1), include/elf/fusion.h

    The relocation numbers, the howto table, the map from BFD relocation codes
    and the three lookups, then the two routines that patch a place:
    [fusion_final_link_relocate] and [perform_relocation].  An abstract
    specification says what each relocation does to the instruction at its
    place; the routines implement it on the bytes. *)
From S2P Require Import Prelude Bits FusionIsa Endian BfdReloc.
#[local] Open Scope Z_scope.

(** ** Relocation numbers *)
Definition R_FUSION_NONE : Z := 0.
Definition R_FUSION_32 : Z := 1.
Definition R_FUSION_LI : Z := 2.
Definition R_FUSION_LUI : Z := 3.
Definition R_FUSION_LI_PCREL : Z := 4.
Definition R_FUSION_LUI_PCREL : Z := 5.
Definition R_FUSION_SYS : Z := 6.
Definition R_FUSION_I : Z := 7.
Definition R_FUSION_RELATIVE : Z := 8.
Definition R_FUSION_LOAD : Z := 9.
Definition R_FUSION_STORE : Z := 10.
Definition R_FUSION_BRANCH : Z := 11.
Definition R_FUSION_JUMP : Z := 12.
Definition R_FUSION_JUMP_O : Z := 13.
Definition R_FUSION_max : Z := 14.

(** The BFD relocation codes the port uses. *)
Inductive bfd_reloc_code_real : Type :=
| BFD_RELOC_NONE | BFD_RELOC_64 | BFD_RELOC_32 | BFD_RELOC_24 | BFD_RELOC_16 | BFD_RELOC_8
| BFD_RELOC_16_PCREL | BFD_RELOC_HI16_PCREL
| BFD_RELOC_FUSION_HI16 | BFD_RELOC_FUSION_12 | BFD_RELOC_FUSION_STORE | BFD_RELOC_FUSION_LOAD
| BFD_RELOC_FUSION_14_PCREL | BFD_RELOC_FUSION_21_PCREL | BFD_RELOC_FUSION_21
| BFD_RELOC_RVA | BFD_RELOC_UNUSED.

#[global] Instance bfd_reloc_code_real_eq_dec : EqDecision bfd_reloc_code_real.
Proof. solve_decision. Defined.

(** ** The howto table *)
Definition MASK_ALL : Z := 0xffffffff.

Definition generic : option special_function_t := Some sf_bfd_elf_generic_reloc.

(** The first half of the table, up to the system constants. *)
Definition howto_table_lo : list reloc_howto := [
  HOWTO R_FUSION_NONE 0 3 0 false 0 complain_overflow_dont generic
    (Some "R_FUSION_NONE"%string) false 0 0 false;
  HOWTO R_FUSION_32 0 2 32 false 0 complain_overflow_dont generic
    (Some "R_FUSION_32"%string) false 0xffffffff 0xffffffff false;
  HOWTO R_FUSION_LI 0 2 32 false 0 complain_overflow_dont generic
    (Some "R_FUSION_LI"%string) false 0 0x0000ffff false;
  HOWTO R_FUSION_LUI 16 2 32 false 0 complain_overflow_dont generic
    (Some "R_FUSION_LUI"%string) false 0 0x0000ffff false;
  HOWTO R_FUSION_LI_PCREL 0 2 32 false 0 complain_overflow_dont generic
    (Some "R_FUSION_LI_PCREL"%string) false 0 (GEN_LI_IMM MASK_IMM_LI) true;
  HOWTO R_FUSION_LUI_PCREL 0 2 32 false 0 complain_overflow_dont generic
    (Some "R_FUSION_LUI_PCREL"%string) false 0 (GEN_LI_IMM MASK_IMM_LI) true;
  HOWTO R_FUSION_SYS 0 2 32 false 0 complain_overflow_dont generic
    (Some "R_FUSION_SYS"%string) false 0xffffffff (GEN_SYS_IMM MASK_ALL) false ].

Definition howto_table_hi : list reloc_howto := [
  HOWTO R_FUSION_I 0 2 32 false 0 complain_overflow_dont generic
    (Some "R_FUSION_I"%string) false 0xffffffff 0xffffffff false;
  HOWTO R_FUSION_RELATIVE 0 2 32 true 0 complain_overflow_dont generic
    (Some "R_FUSION_RELATIVE"%string) false 0 0xffffffff false;
  HOWTO R_FUSION_LOAD 0 2 14 true 0 complain_overflow_dont generic
    (Some "R_FUSION_LOAD"%string) false 0 (GEN_L_IMM MASK_ALL) false;
  HOWTO R_FUSION_STORE 0 2 32 true 0 complain_overflow_dont generic
    (Some "R_FUSION_STORE"%string) false 0 (GEN_S_IMM MASK_ALL) false;
  HOWTO R_FUSION_BRANCH 0 2 32 true 0 complain_overflow_dont generic
    (Some "R_FUSION_BRANCH"%string) false 0 (GEN_B_IMM MASK_ALL) true;
  HOWTO R_FUSION_JUMP 0 2 32 true 0 complain_overflow_dont generic
    (Some "R_FUSION_JUMP"%string) false 0 (GEN_J_IMM MASK_ALL) true;
  HOWTO R_FUSION_JUMP_O 0 2 32 false 0 complain_overflow_dont generic
    (Some "R_FUSION_JUMP_O"%string) false 0 (GEN_J_IMM MASK_ALL) false ].

Definition fusion_elf_howto_table : list reloc_howto := howto_table_lo ++ howto_table_hi.

Definition fusion_reloc_map : list (bfd_reloc_code_real * Z) := [
  (BFD_RELOC_NONE, R_FUSION_NONE);
  (BFD_RELOC_32, R_FUSION_32);
  (BFD_RELOC_16, R_FUSION_LI);
  (BFD_RELOC_FUSION_HI16, R_FUSION_LUI);
  (BFD_RELOC_16_PCREL, R_FUSION_LI_PCREL);
  (BFD_RELOC_HI16_PCREL, R_FUSION_LUI_PCREL);
  (BFD_RELOC_8, R_FUSION_SYS);
  (BFD_RELOC_FUSION_12, R_FUSION_I);
  (BFD_RELOC_FUSION_STORE, R_FUSION_STORE);
  (BFD_RELOC_FUSION_LOAD, R_FUSION_LOAD);
  (BFD_RELOC_FUSION_14_PCREL, R_FUSION_BRANCH);
  (BFD_RELOC_FUSION_21_PCREL, R_FUSION_JUMP);
  (BFD_RELOC_FUSION_21, R_FUSION_JUMP_O) ].

(** [fusion_elf_howto_table + i], for an entry of the table. *)
Definition howto_at (i : Z) : option reloc_howto :=
  if i <? 0 then None else fusion_elf_howto_table !! Z.to_nat i.

(** ** Lookups *)

(** [for (i = n; i--; ) if (map[i].bfd_reloc_val == code) return ...]: the
    search runs from the last entry. *)
Fixpoint type_lookup_loop (i : nat) (code : bfd_reloc_code_real) : option reloc_howto :=
  match i with
  | O => None
  | S i' =>
      match fusion_reloc_map !! i' with
      | Some (val, r) => if decide (val = code) then howto_at r else type_lookup_loop i' code
      | None => type_lookup_loop i' code
      end
  end.

Definition fusion_reloc_type_lookup (code : bfd_reloc_code_real) : option reloc_howto :=
  type_lookup_loop (length fusion_reloc_map) code.

(** [tolower] of the C locale, and [strcasecmp (a, b) == 0]. *)
Definition tolower (c : Ascii.ascii) : Ascii.ascii :=
  let n := Ascii.N_of_ascii c in
  if (65 <=? n)%N && (n <=? 90)%N then Ascii.ascii_of_N (n + 32) else c.

Fixpoint strcasecmp_eq (a b : string) : bool :=
  match a, b with
  | EmptyString, EmptyString => true
  | String c a', String d b' => Ascii.eqb (tolower c) (tolower d) && strcasecmp_eq a' b'
  | _, _ => false
  end.

Fixpoint name_lookup_loop (t : list reloc_howto) (r_name : string) : option reloc_howto :=
  match t with
  | [] => None
  | h :: t' =>
      match name h with
      | Some n => if strcasecmp_eq n r_name then Some h else name_lookup_loop t' r_name
      | None => name_lookup_loop t' r_name
      end
  end.

Definition fusion_reloc_name_lookup (r_name : string) : option reloc_howto :=
  name_lookup_loop fusion_elf_howto_table r_name.

(** ** ELF relocation entries *)
Record Elf_Internal_Rela : Type := mk_rela {
  r_offset : Z;
  r_info : Z;
  r_addend : Z
}.

Definition ELF32_R_TYPE (i : Z) : Z := Z.land i 0xff.
Definition ELF32_R_SYM (i : Z) : Z := Z.shiftr i 8.
Definition ELF32_R_INFO (s t : Z) : Z := Z.shiftl s 8 + Z.land t 0xff.

(** Returns the howto and whether the "invalid Fusion reloc number" error was
    reported. *)
Definition fusion_info_to_howto (dst : Elf_Internal_Rela) : option reloc_howto * bool :=
  let r_type := ELF32_R_TYPE (r_info dst) in
  if R_FUSION_max <=? r_type then (howto_at 0, true) else (howto_at r_type, false).

(** ** Patching a place *)
Definition sec_addr (sec : asection) : res Z :=
  let! vma := out_vma sec in Ret (u64 (vma + output_offset sec)).

(** [int] arithmetic of the constant mask in the branch case. *)
Definition ones_int (bitsize : Z) : Z :=
  u64 (s32 (Z.lor (s32 (Z.shiftl (s32 (s32 (Z.shiftl 1 (bitsize - 1)) - 1)) 1)) 1)).

(** [rvalue1 = bfd_get_32 (hit_data); relocation |= rvalue1; bfd_put_32 (...)] *)
Definition or_into (relocation : Z) (contents : list Z) (off : Z) : res (list Z) :=
  let! rvalue1 := bfd_get_32 contents off in
  bfd_put_32 (Z.lor relocation rvalue1) contents off.

Definition fusion_final_link_relocate (howto : reloc_howto) (input_bfd : bfd)
    (input_section : asection) (contents : list Z) (rel : Elf_Internal_Rela) (relocation : Z)
  : res (bfd_reloc_status * list Z) :=
  if type howto =? R_FUSION_LOAD then
    let relocation := Z.land (GEN_L_IMM relocation) (dst_mask howto) in
    let! contents := or_into relocation contents (r_offset rel) in
    Ret (bfd_reloc_ok, contents)
  else if type howto =? R_FUSION_STORE then
    let relocation := Z.land (GEN_S_IMM relocation) (dst_mask howto) in
    let! contents := or_into relocation contents (r_offset rel) in
    Ret (bfd_reloc_ok, contents)
  else if type howto =? R_FUSION_BRANCH then
    let! _ := out_vma input_section in
    let relocation := ones_int (bitsize howto) in
    let relocation := Z.land (GEN_B_IMM relocation) (dst_mask howto) in
    let! contents := or_into relocation contents (r_offset rel) in
    Ret (bfd_reloc_ok, contents)
  else
    _bfd_final_link_relocate howto input_bfd input_section contents (r_offset rel)
      relocation (r_addend rel).

(** [bfd_get (bits, ...)] and [bfd_put (bits, ...)]. *)
Definition bfd_get (bits : Z) (m : list Z) (p : Z) : res Z :=
  if bits =? 8 then bfd_get_8 m p else if bits =? 16 then bfd_getb16 m p
  else if bits =? 32 then bfd_get_32 m p else if bits =? 64 then bfd_getb64 m p else Fail Fabort.

Definition bfd_put (bits val : Z) (m : list Z) (p : Z) : res (list Z) :=
  if bits =? 8 then bfd_put_8 val m p else if bits =? 16 then bfd_putb16 val m p
  else if bits =? 32 then bfd_put_32 val m p else if bits =? 64 then bfd_putb64 val m p
  else Fail Fabort.

(** The [switch] on the type: the value as it goes into the word, or
    [bfd_reloc_notsupported]. *)
Definition reloc_bits (r_type value : Z) : option Z :=
  if (r_type =? R_FUSION_NONE) || (r_type =? R_FUSION_32) || (r_type =? R_FUSION_LI)
     || (r_type =? R_FUSION_LUI) || (r_type =? R_FUSION_LI_PCREL)
     || (r_type =? R_FUSION_LUI_PCREL) || (r_type =? R_FUSION_SYS) || (r_type =? R_FUSION_I)
     || (r_type =? R_FUSION_JUMP) || (r_type =? R_FUSION_JUMP_O) then Some value
  else if r_type =? R_FUSION_LOAD then Some (GEN_L_IMM value)
  else if r_type =? R_FUSION_STORE then Some (GEN_S_IMM value)
  else if r_type =? R_FUSION_BRANCH then Some (GEN_B_IMM value)
  else None.

Definition perform_relocation (howto : reloc_howto) (rel : Elf_Internal_Rela) (value : Z)
    (input_section : asection) (contents : list Z) : res (bfd_reloc_status * list Z) :=
  let! value :=
    (if pc_relative howto then
       let! a := sec_addr input_section in
       Ret (u64 (value - u64 (a + r_offset rel)))
     else Ret value) in
  let value := u64 (value + r_addend rel) in
  match reloc_bits (ELF32_R_TYPE (r_info rel)) value with
  | None => Ret (bfd_reloc_notsupported, contents)
  | Some value =>
      let! word := bfd_get (bitsize howto) contents (r_offset rel) in
      let word := Z.lor (Z.land word (u64 (Z.lnot (dst_mask howto))))
                        (Z.land value (dst_mask howto)) in
      let! contents := bfd_put (bitsize howto) word contents (r_offset rel) in
      Ret (bfd_reloc_ok, contents)
  end.

(** ** What each relocation does to the word at its place

    [S] is the symbol's address, [A] the addend, [P] the place, [w] the word. *)
Definition merge (mask v w : Z) : Z := Z.lor (Z.ldiff w mask) (Z.land v mask).

Definition patched (r_type S A P w : Z) : Z :=
  if r_type =? R_FUSION_NONE then w
  else if (r_type =? R_FUSION_32) || (r_type =? R_FUSION_I) then u32 (w + S + A)
  else if (r_type =? R_FUSION_LI) || (r_type =? R_FUSION_LI_PCREL)
          || (r_type =? R_FUSION_LUI_PCREL) then merge 0xffff (S + A) w
  else if r_type =? R_FUSION_LUI then merge 0xffff (Z.shiftr (S + A) 16) w
  else if r_type =? R_FUSION_SYS then merge 0xff (w + S + A) w
  else if r_type =? R_FUSION_LOAD then Z.lor (GEN_L_IMM S) w
  else if r_type =? R_FUSION_STORE then Z.lor (GEN_S_IMM S) w
  else if r_type =? R_FUSION_BRANCH then merge MASK_IMM_B (GEN_B_IMM (S + A - P)) w
  else if r_type =? R_FUSION_JUMP then merge MASK_IMM_J (S + A - P) w
  else if r_type =? R_FUSION_JUMP_O then merge MASK_IMM_J (S + A) w
  else w.

(** The types [fusion_elf_relocate_section] applies. *)
Definition supported (r_type : Z) : bool :=
  (0 <=? r_type) && (r_type <? R_FUSION_max) && negb (r_type =? R_FUSION_RELATIVE).

(** Reads the fields of a word off its decoding, and proves the fields of the
    patched word one by one. *)
Ltac patch_fields :=
  intros Hw Hd; apply decode_fields in Hd; apply decode_fields; cbn [has_fields] in *;
  decompose [and] Hd; clear Hd; subst;
  match goal with |- context [patched ?t ?S ?A ?P ?w] =>
    let p := eval cbv [patched merge R_FUSION_NONE R_FUSION_32 R_FUSION_LI R_FUSION_LUI
      R_FUSION_LI_PCREL R_FUSION_LUI_PCREL R_FUSION_SYS R_FUSION_I R_FUSION_LOAD R_FUSION_STORE
      R_FUSION_BRANCH R_FUSION_JUMP R_FUSION_JUMP_O Z.eqb Pos.eqb orb] in (patched t S A P w) in
    change (patched t S A P w) with p end;
  rewrite ?Z.ldiff_land; split_and!;
  match goal with
  | H : GET_OPC ?w = ?o |- GET_OPC _ = ?o => rewrite <- H; clear H; isa
  | _ => isa
  end.

Lemma patch_branch (S A P w f ra rb imm : Z) :
  0 <= w < 2 ^ 32 -> decode w = Some (InsnB f ra rb imm) ->
  decode (patched R_FUSION_BRANCH S A P w) = Some (InsnB f ra rb ((S + A - P) mod 2 ^ 14)).
Proof. patch_fields. Qed.

Lemma patch_li (t S A P w d rd imm : Z) :
  t = R_FUSION_LI \/ t = R_FUSION_LI_PCREL \/ t = R_FUSION_LUI_PCREL ->
  0 <= w < 2 ^ 32 -> decode w = Some (InsnLI d rd imm) ->
  decode (patched t S A P w) = Some (InsnLI d rd ((S + A) mod 2 ^ 16)).
Proof. intros [->|[->| ->]]; patch_fields. Qed.

Lemma patch_lui (S A P w d rd imm : Z) :
  0 <= w < 2 ^ 32 -> decode w = Some (InsnLI d rd imm) ->
  decode (patched R_FUSION_LUI S A P w) = Some (InsnLI d rd (Z.shiftr (S + A) 16 mod 2 ^ 16)).
Proof. patch_fields. Qed.

Lemma patch_load (S A P w f rd ra imm : Z) :
  0 <= w < 2 ^ 32 -> decode w = Some (InsnL f rd ra imm) ->
  decode (patched R_FUSION_LOAD S A P w) = Some (InsnL f rd ra (Z.lor imm (S mod 2 ^ 14))).
Proof. patch_fields. Qed.

Lemma patch_store (S A P w f rb ra imm : Z) :
  0 <= w < 2 ^ 32 -> decode w = Some (InsnS f rb ra imm) ->
  decode (patched R_FUSION_STORE S A P w) = Some (InsnS f rb ra (Z.lor imm (S mod 2 ^ 14))).
Proof. patch_fields. Qed.

(** The jump field as the linker fills it: bits 0-15 and 21-25 of the value. *)
Definition jump_field (v : Z) : Z := Z.lor (Z.land v 0xffff) (Z.shiftl (Z.shiftr v 21 mod 2 ^ 5) 16).

Lemma patch_jump (S A P w ra imm : Z) :
  0 <= w < 2 ^ 32 -> decode w = Some (InsnJ ra imm) ->
  decode (patched R_FUSION_JUMP S A P w) = Some (InsnJ ra (jump_field (S + A - P))).
Proof. unfold jump_field. patch_fields. Qed.

Lemma patch_jump_l (S A P w ra imm : Z) :
  0 <= w < 2 ^ 32 -> decode w = Some (InsnJL ra imm) ->
  decode (patched R_FUSION_JUMP S A P w) = Some (InsnJL ra (jump_field (S + A - P))).
Proof. unfold jump_field. patch_fields. Qed.

Lemma patch_jump_o (S A P w ra imm : Z) :
  0 <= w < 2 ^ 32 -> decode w = Some (InsnJL ra imm) ->
  decode (patched R_FUSION_JUMP_O S A P w) = Some (InsnJL ra (jump_field (S + A))).
Proof. unfold jump_field. patch_fields. Qed.

Lemma patch_sys (S A P w f rd ra imm : Z) :
  0 <= w < 2 ^ 32 -> decode w = Some (InsnSYS f rd ra imm) ->
  decode (patched R_FUSION_SYS S A P w) = Some (InsnSYS f rd ra ((w + S + A) mod 2 ^ 8)).
Proof. patch_fields. Qed.

(** The linker's jump field is the displacement exactly when bits 21 to 25 of
    the displacement repeat bits 16 to 20. *)
Lemma jump_field_ok (v : Z) :
  jump_field v = v mod 2 ^ 21 <-> Z.shiftr v 21 mod 2 ^ 5 = Z.shiftr v 16 mod 2 ^ 5.
Proof.
  assert (H1 : jump_field v mod 2 ^ 16 = v mod 2 ^ 16) by (unfold jump_field; bits).
  assert (H2 : Z.shiftr (jump_field v) 16 = Z.shiftr v 21 mod 2 ^ 5) by (unfold jump_field; bits).
  assert (H3 : Z.shiftr (v mod 2 ^ 21) 16 = Z.shiftr v 16 mod 2 ^ 5) by bits.
  split; intros H.
  - by rewrite <- H2, <- H3, H.
  - assert (Hb : forall x, x = Z.lor (x mod 2 ^ 16) (Z.shiftl (Z.shiftr x 16) 16)).
    { intros x. apply Z.bits_inj'. intros i Hi. rewrite Z.lor_spec, Z.shiftl_spec by lia.
      destruct (Z.ltb_spec i 16).
      - rewrite Z.mod_pow2_bits_low, (Z.testbit_neg_r _ (i - 16)) by lia. by rewrite orb_false_r.
      - rewrite Z.mod_pow2_bits_high, Z.shiftr_spec by lia. cbn [orb]. f_equal. lia. }
    rewrite (Hb (jump_field v)), (Hb (v mod 2 ^ 21)), H1, H2, H3, H. f_equal. bits.
Qed.

Lemma jump_field_near (v : Z) : - 2 ^ 16 <= v < 2 ^ 16 -> jump_field v = v mod 2 ^ 21.
Proof.
  intros Hv. apply jump_field_ok. rewrite !Z.shiftr_div_pow2 by lia.
  destruct (decide (0 <= v)).
  - rewrite !Z.div_small by lia. done.
  - replace (v / 2 ^ 21) with (-1) by (apply Z.div_unique with (v + 2 ^ 21); lia).
    replace (v / 2 ^ 16) with (-1) by (apply Z.div_unique with (v + 2 ^ 16); lia). done.
Qed.

(** ** The routines implement the specification *)

(** The dispatch of the relocation loop; [None] is its [default]. *)
Definition relocate_one (input_bfd : bfd) (input_section : asection) (contents : list Z)
    (rel : Elf_Internal_Rela) (relocation : Z) : res (option (bfd_reloc_status * list Z)) :=
  let r_type := ELF32_R_TYPE (r_info rel) in
  if supported r_type then
    match howto_at r_type with
    | None => Fail Foob
    | Some howto =>
        let! r := (if r_type =? R_FUSION_BRANCH
                   then perform_relocation howto rel relocation input_section contents
                   else fusion_final_link_relocate howto input_bfd input_section contents rel relocation) in
        Ret (Some r)
    end
  else Ret None.

(** A 32-bit field of a big-endian ELF32 section in memory. *)
Record placed (input_bfd : bfd) (sec : asection) (m : list Z) (off vma : Z) : Prop := {
  pl_octets : bfd_octets_per_byte input_bfd = 1;
  pl_vma : output_vma sec = Some vma;
  pl_limit : bfd_get_section_limit_octets input_bfd sec = Z.of_nat (length m);
  pl_small : Z.of_nat (length m) < 2 ^ 63;
  pl_bytes : bytes_ok m;
  pl_off : 0 <= off /\ off + 4 <= Z.of_nat (length m)
}.

Lemma placed_after (b : bfd) (sec : asection) (m m' : list Z) (off off' vma : Z) :
  placed b sec m off vma -> same_outside m m' off' 4 -> bytes_ok m' -> placed b sec m' off vma.
Proof. intros [] [Hl _] Hok. split; rewrite ?Hl; auto. Qed.

Section place.
  Context (b : bfd) (sec : asection) (m : list Z) (off vma : Z) (Hpl : placed b sec m off vma).
  Context (S : Z) (HS : 0 <= S < 2 ^ 64).

Lemma place_word : exists w, bfd_get_32 m off = Ret w /\ 0 <= w < 2 ^ 32.
Proof. destruct Hpl as [? ? ? ? Hok [? ?]]. by apply bfd_get_32_ret. Qed.

(** Storing a word at the place. *)
Lemma place_put (x : Z) :
  exists m', bfd_put_32 x m off = Ret m' /\ bfd_get_32 m' off = Ret (u32 x)
    /\ same_outside m m' off 4 /\ bytes_ok m'.
Proof. destruct Hpl as [? ? ? ? Hok [? ?]]. by apply bfd_put_32_spec. Qed.

Lemma final_link_word (howto : reloc_howto) (A w : Z) :
  size howto = 2 -> complain_on_overflow howto = complain_overflow_dont ->
  bfd_get_32 m off = Ret w ->
  exists m', _bfd_final_link_relocate howto b sec m off S A = Ret (bfd_reloc_ok, m')
    /\ bfd_get_32 m' off
       = Ret (u32 (DOIT howto (place howto (reloc_value howto vma (output_offset sec) off S A)) w))
    /\ same_outside m m' off 4 /\ bytes_ok m'.
Proof.
  intros Hsz Hc Hw. destruct Hpl as [Ho Hv Hlim Hsm Hok [H0 Hl]].
  unfold _bfd_final_link_relocate. rewrite Ho, Z.mul_1_r, (u64_small off) by lia.
  unfold reloc_offset_in_range, bfd_get_reloc_size. rewrite Hsz, Hlim. cbn [Z.eqb Pos.eqb rbind].
  rewrite (u64_small (off + 4)) by lia.
  rewrite (proj2 (Z.leb_le off _)), (proj2 (Z.leb_le (off + 4) _)) by lia. cbn [andb negb].
  unfold out_vma. rewrite Hv.
  match goal with |- context [rbind ?x (fun z => _bfd_relocate_contents howto b z m off)] =>
    replace x with (Ret (reloc_value howto vma (output_offset sec) off S A)) end.
  2:{ unfold reloc_value. destruct (pc_relative howto), (pcrel_offset howto); cbn; f_equal; wrap64. }
  cbn [rbind]. unfold _bfd_relocate_contents, bfd_get_reloc_size, contents_overflow.
  rewrite Hsz, Hc. cbn [Z.eqb Pos.eqb rbind Z.ltb Z.compare Pos.compare].
  change (get_field 4 m off) with (bfd_get_32 m off). rewrite Hw. cbn [rbind].
  destruct (place_put (DOIT howto (place howto (reloc_value howto vma (output_offset sec) off S A)) w))
    as (m' & E & Hg & Hs & Hb).
  exists m'. change (put_field 4) with bfd_put_32. rewrite E. done.
Qed.
End place.

(** The words of the generic relocations. *)
Lemma generic_word (t S A vma off0 off w : Z) (h : reloc_howto) :
  0 <= S < 2 ^ 64 -> 0 <= w < 2 ^ 32 ->
  howto_at t = Some h -> supported t = true -> t <> R_FUSION_NONE ->
  t <> R_FUSION_LOAD -> t <> R_FUSION_STORE -> t <> R_FUSION_BRANCH ->
  size h = 2 /\ complain_on_overflow h = complain_overflow_dont /\
  u32 (DOIT h (place h (reloc_value h vma off0 off S A)) w) = patched t S A (vma + off0 + off) w.
Proof.
  intros HS Hw Hh Hsup. unfold supported in Hsup. rewrite !andb_true_iff, Z.leb_le, Z.ltb_lt in Hsup.
  destruct Hsup as [[H0 H1] H2]. unfold R_FUSION_max in H1.
  assert (t = 0 \/ t = 1 \/ t = 2 \/ t = 3 \/ t = 4 \/ t = 5 \/ t = 6 \/ t = 7 \/ t = 8 \/ t = 9
          \/ t = 10 \/ t = 11 \/ t = 12 \/ t = 13) as Ht by lia. clear H0 H1.
  repeat destruct Ht as [Ht|Ht]; subst t; try done; injection Hh as <-; intros _ _ _ _;
    (split; [reflexivity|]); (split; [reflexivity|]);
    unfold DOIT, place, reloc_value; cbn [rightshift bitpos pc_relative pcrel_offset src_mask dst_mask];
    match goal with |- _ = patched ?t ?S ?A ?P ?w =>
      let p := eval cbv [patched merge R_FUSION_NONE R_FUSION_32 R_FUSION_LI R_FUSION_LUI
        R_FUSION_LI_PCREL R_FUSION_LUI_PCREL R_FUSION_SYS R_FUSION_I R_FUSION_LOAD R_FUSION_STORE
        R_FUSION_BRANCH R_FUSION_JUMP R_FUSION_JUMP_O Z.eqb Pos.eqb orb] in (patched t S A P w) in
      change (patched t S A P w) with p end;
    rewrite ?Z.ldiff_land, ?Z.land_0_r, ?Z.add_0_l, ?Z.sub_0_r, ?Z.shiftl_0_r, ?Z.shiftr_0_r;
    try replace (Z.land w 4294967295) with w by bits;
    try replace (u64 (w + u64 (u64 (S + A)))) with (u64 (w + S + A)) by wrap64;
    unfold MASK_ALL; isa.
Qed.

Section one.
  Context (b : bfd) (sec : asection) (m : list Z) (vma : Z) (rel : Elf_Internal_Rela).
  Context (Hpl : placed b sec m (r_offset rel) vma).
  Context (S : Z) (HS : 0 <= S < 2 ^ 64).

(** What one relocation achieves: status, word and frame. *)
Definition relocates (t : Z) (r : res (option (bfd_reloc_status * list Z))) : Prop :=
  exists w m', bfd_get_32 m (r_offset rel) = Ret w
    /\ r = Ret (Some (bfd_reloc_ok, m'))
    /\ bfd_get_32 m' (r_offset rel)
       = Ret (patched t S (r_addend rel) (vma + output_offset sec + r_offset rel) w)
    /\ same_outside m m' (r_offset rel) 4 /\ bytes_ok m'.

Lemma or_into_word (x : Z) (w : Z) :
  bfd_get_32 m (r_offset rel) = Ret w ->
  exists m', or_into x m (r_offset rel) = Ret m'
    /\ bfd_get_32 m' (r_offset rel) = Ret (u32 (Z.lor x w))
    /\ same_outside m m' (r_offset rel) 4 /\ bytes_ok m'.
Proof.
  intros Hw. unfold or_into. rewrite Hw. cbn [rbind].
  exact (place_put b sec m _ vma Hpl (Z.lor x w)).
Qed.

Lemma relocate_none : ELF32_R_TYPE (r_info rel) = R_FUSION_NONE ->
  relocates R_FUSION_NONE (relocate_one b sec m rel S).
Proof.
  intros Ht. destruct (place_word b sec m _ vma Hpl) as (w & Hw & _).
  exists w, m. unfold relocate_one. rewrite Ht.
  destruct Hpl as [Ho _ Hlim Hsm Hok [H0 Hl]].
  split_and!; [done| |done|by split|done].
  set (h := HOWTO R_FUSION_NONE 0 3 0 false 0 complain_overflow_dont generic
    (Some "R_FUSION_NONE"%string) false 0 0 false).
  change ((let! r := _bfd_final_link_relocate h b sec m (r_offset rel) S (r_addend rel) in Ret (Some r))
          = Ret (Some (bfd_reloc_ok, m))).
  unfold _bfd_final_link_relocate. rewrite Ho, Z.mul_1_r, (u64_small (r_offset rel)) by lia.
  unfold reloc_offset_in_range. change (bfd_get_reloc_size h) with (Ret 0). cbn [rbind].
  rewrite Hlim, Z.add_0_r, (u64_small (r_offset rel)) by lia.
  rewrite (proj2 (Z.leb_le (r_offset rel) _)) by lia. reflexivity.
Qed.

Lemma relocate_generic (t : Z) :
  ELF32_R_TYPE (r_info rel) = t -> supported t = true -> t <> R_FUSION_NONE ->
  t <> R_FUSION_LOAD -> t <> R_FUSION_STORE -> t <> R_FUSION_BRANCH ->
  relocates t (relocate_one b sec m rel S).
Proof.
  intros Ht Hs H0 H9 H10 H11. destruct (place_word b sec m _ vma Hpl) as (w & Hw & Hr).
  unfold relocate_one. rewrite Ht, Hs.
  destruct (howto_at t) as [h|] eqn:Hh.
  2:{ exfalso. unfold supported in Hs. rewrite !andb_true_iff, Z.leb_le, Z.ltb_lt in Hs.
      unfold howto_at, R_FUSION_max in *. destruct (Z.ltb_spec t 0); [lia|].
      apply lookup_ge_None in Hh. cbn in Hh. lia. }
  destruct (generic_word t S (r_addend rel) vma (output_offset sec) (r_offset rel) w h)
    as (Hsz & Hc & E); try done.
  assert (Hty : type h = t).
  { unfold howto_at in Hh. destruct (t <? 0); [done|].
    assert (Hall : Forall (fun p => type p.2 = Z.of_nat p.1) (imap pair fusion_elf_howto_table))
      by (repeat constructor).
    rewrite Forall_lookup in Hall. specialize (Hall (Z.to_nat t) (Z.to_nat t, h)).
    rewrite list_lookup_imap, Hh in Hall. cbn in Hall. rewrite Hall by done.
    unfold supported in Hs. rewrite !andb_true_iff, Z.leb_le, Z.ltb_lt in Hs. lia. }
  rewrite (proj2 (Z.eqb_neq t R_FUSION_BRANCH)) by done.
  unfold fusion_final_link_relocate. rewrite Hty.
  rewrite (proj2 (Z.eqb_neq t R_FUSION_LOAD)), (proj2 (Z.eqb_neq t R_FUSION_STORE)),
    (proj2 (Z.eqb_neq t R_FUSION_BRANCH)) by done.
  destruct (final_link_word b sec m _ vma Hpl S HS h (r_addend rel) w Hsz Hc Hw) as (m' & Em & Hg & Hf & Hb).
  exists w, m'. rewrite Em, Hg, E. done.
Qed.

Lemma relocate_load_store (t : Z) :
  ELF32_R_TYPE (r_info rel) = t -> t = R_FUSION_LOAD \/ t = R_FUSION_STORE ->
  relocates t (relocate_one b sec m rel S).
Proof.
  intros Ht Hor. destruct (place_word b sec m _ vma Hpl) as (w & Hw & Hr).
  assert (Hx : exists x, relocate_one b sec m rel S
      = (let! r := (let! c := or_into x m (r_offset rel) in Ret (bfd_reloc_ok, c)) in Ret (Some r))
    /\ u32 (Z.lor x w) = patched t S (r_addend rel) (vma + output_offset sec + r_offset rel) w).
  { unfold relocate_one. rewrite Ht. destruct Hor as [->| ->]; eexists.
    - split; [reflexivity|].
      change (patched R_FUSION_LOAD S (r_addend rel) (vma + output_offset sec + r_offset rel) w)
        with (Z.lor (GEN_L_IMM S) w). cbn [dst_mask]. unfold MASK_ALL. isa.
    - split; [reflexivity|].
      change (patched R_FUSION_STORE S (r_addend rel) (vma + output_offset sec + r_offset rel) w)
        with (Z.lor (GEN_S_IMM S) w). cbn [dst_mask]. unfold MASK_ALL. isa. }
  destruct Hx as (x & -> & Ex). destruct (or_into_word x w Hw) as (m' & Em & Hg & Hf & Hb).
  exists w, m'. rewrite Em, Hg, Ex. done.
Qed.

Lemma relocate_branch :
  ELF32_R_TYPE (r_info rel) = R_FUSION_BRANCH ->
  relocates R_FUSION_BRANCH (relocate_one b sec m rel S).
Proof.
  intros Ht. destruct (place_word b sec m _ vma Hpl) as (w & Hw & Hr).
  unfold relocate_one. rewrite Ht.
  change (supported R_FUSION_BRANCH) with true.
  change (howto_at R_FUSION_BRANCH) with (fusion_elf_howto_table !! 11%nat).
  cbn [lookup list_lookup app fusion_elf_howto_table howto_table_lo howto_table_hi]. unfold perform_relocation.
  cbn [pc_relative bitsize dst_mask]. rewrite Ht. unfold sec_addr, out_vma. rewrite (pl_vma _ _ _ _ _ Hpl).
  cbn [rbind]. change (R_FUSION_BRANCH =? R_FUSION_BRANCH) with true. cbv iota.
  set (P := vma + output_offset sec + r_offset rel).
  replace (u64 (u64 (S - u64 (u64 (vma + output_offset sec) + r_offset rel)) + r_addend rel))
    with (u64 (S + r_addend rel - P)) by (unfold P; wrap64).
  change (reloc_bits R_FUSION_BRANCH (u64 (S + r_addend rel - P)))
    with (Some (GEN_B_IMM (u64 (S + r_addend rel - P)))). cbv iota.
  change (bfd_get 32) with bfd_get_32. change (bfd_put 32) with bfd_put_32. rewrite Hw. cbn [rbind].
  set (x := Z.lor _ _). destruct (place_put b sec m _ vma Hpl x) as (m' & Em & Hg & Hf & Hb).
  exists w, m'. rewrite Em, Hg. split_and!; try done. f_equal. fold P.
  change (patched R_FUSION_BRANCH S (r_addend rel) P w)
    with (merge MASK_IMM_B (GEN_B_IMM (S + r_addend rel - P)) w).
  unfold x, merge, MASK_ALL. rewrite Z.ldiff_land. isa.
Qed.

Lemma relocate_supported (t : Z) :
  ELF32_R_TYPE (r_info rel) = t -> supported t = true -> relocates t (relocate_one b sec m rel S).
Proof.
  intros Ht Hs.
  destruct (decide (t = R_FUSION_NONE)) as [->|]; [by apply relocate_none|].
  destruct (decide (t = R_FUSION_LOAD)) as [->|]; [apply relocate_load_store; auto|].
  destruct (decide (t = R_FUSION_STORE)) as [->|]; [apply relocate_load_store; auto|].
  destruct (decide (t = R_FUSION_BRANCH)) as [->|]; [by apply relocate_branch|].
  by apply relocate_generic.
Qed.
End one.

(** ** Instructions *)

(** The abstract effect on an instruction: which immediate the relocation
    leaves, for the relocations that belong to the instruction's format. *)
Definition reloc_insn (t S A P : Z) (i : insn) : option insn :=
  match i with
  | InsnLI d rd _ =>
      if (t =? R_FUSION_LI) || (t =? R_FUSION_LI_PCREL) || (t =? R_FUSION_LUI_PCREL)
      then Some (InsnLI d rd ((S + A) mod 2 ^ 16))
      else if t =? R_FUSION_LUI then Some (InsnLI d rd ((S + A) / 2 ^ 16 mod 2 ^ 16)) else None
  | InsnL f rd ra imm =>
      if t =? R_FUSION_LOAD then Some (InsnL f rd ra (Z.lor imm (S mod 2 ^ 14))) else None
  | InsnS f rb ra imm =>
      if t =? R_FUSION_STORE then Some (InsnS f rb ra (Z.lor imm (S mod 2 ^ 14))) else None
  | InsnB f ra rb _ =>
      if t =? R_FUSION_BRANCH then Some (InsnB f ra rb ((S + A - P) mod 2 ^ 14)) else None
  | InsnJ ra _ =>
      if t =? R_FUSION_JUMP then Some (InsnJ ra (jump_field (S + A - P))) else None
  | InsnJL ra _ =>
      if t =? R_FUSION_JUMP then Some (InsnJL ra (jump_field (S + A - P)))
      else if t =? R_FUSION_JUMP_O then Some (InsnJL ra (jump_field (S + A))) else None
  | InsnSYS f rd ra imm =>
      if t =? R_FUSION_SYS then Some (InsnSYS f rd ra ((imm + S + A) mod 2 ^ 8)) else None
  | InsnR _ _ _ _ | InsnI _ _ _ _ => None
  end.

Lemma sys_imm_sum (w S A imm : Z) :
  GET_IMM_SYS w = imm -> (w + S + A) mod 2 ^ 8 = (imm + S + A) mod 2 ^ 8.
Proof.
  intros <-. unfold GET_IMM_SYS, MASK_IMM_SYS. rewrite Z.land_comm. change 255 with (Z.ones 8).
  rewrite Z.land_ones by lia. rewrite <- !Z.add_assoc. by rewrite Zplus_mod_idemp_l.
Qed.

Lemma patched_insn (t S A P w : Z) (i i' : insn) :
  0 <= w < 2 ^ 32 -> decode w = Some i -> reloc_insn t S A P i = Some i' ->
  decode (patched t S A P w) = Some i' /\ supported t = true.
Proof.
  intros Hw Hd Hr. destruct i; cbn [reloc_insn] in Hr; try done;
    repeat match type of Hr with context [t =? ?c] =>
      destruct (Z.eqb_spec t c) as [->|]; cbn [orb] in Hr end; try done;
    injection Hr as <-; (split; [|reflexivity]).
  - eapply patch_load; eauto.
  - eapply patch_li; eauto.
  - eapply patch_li; eauto.
  - eapply patch_li; eauto.
  - rewrite <- Z.shiftr_div_pow2 by lia. eapply patch_lui; eauto.
  - eapply patch_store; eauto.
  - eapply patch_jump; eauto.
  - eapply patch_jump_l; eauto.
  - eapply patch_jump_o; eauto.
  - eapply patch_branch; eauto.
  - rewrite <- (sys_imm_sum w) by (by apply decode_fields in Hd as (_ & _ & _ & _ & ?)).
    eapply patch_sys; eauto.
Qed.

Lemma relocate_one_insn (b : bfd) (sec : asection) (m : list Z) (vma : Z) (rel : Elf_Internal_Rela)
    (S w : Z) (i i' : insn) :
  placed b sec m (r_offset rel) vma -> 0 <= S < 2 ^ 64 ->
  bfd_get_32 m (r_offset rel) = Ret w -> decode w = Some i ->
  reloc_insn (ELF32_R_TYPE (r_info rel)) S (r_addend rel)
    (vma + output_offset sec + r_offset rel) i = Some i' ->
  exists w' m', relocate_one b sec m rel S = Ret (Some (bfd_reloc_ok, m'))
    /\ bfd_get_32 m' (r_offset rel) = Ret w' /\ decode w' = Some i'
    /\ same_outside m m' (r_offset rel) 4 /\ bytes_ok m'.
Proof.
  intros Hpl HS Hw Hd Hr.
  destruct (place_word b sec m _ vma Hpl) as (w0 & Hw0 & Hrange).
  assert (w0 = w) as -> by congruence.
  destruct (patched_insn _ S _ _ w i i' Hrange Hd Hr) as [Hd' Hs].
  destruct (relocate_supported b sec m vma rel Hpl S HS _ eq_refl Hs)
    as (w1 & m' & Hw1 & E & Hg & Hf & Hb).
  assert (w1 = w) as -> by congruence. eauto 10.
Qed.

(** C5.  Relocation implements its specification on instructions: patching a
    place that holds an instruction of the relocation's format succeeds, leaves
    there an instruction with the same operation and registers whose immediate
    is the one [reloc_insn] gives (S + A for LI, its upper half for LUI, S + A - P
    for branches, and so on), and changes no other byte of the section. *)
Theorem relocate_insn_refines (b : bfd) (sec : asection) (m : list Z) (vma : Z)
    (rel : Elf_Internal_Rela) (S w : Z) (i i' : insn) :
  placed b sec m (r_offset rel) vma -> 0 <= S < 2 ^ 64 ->
  bfd_get_32 m (r_offset rel) = Ret w -> decode w = Some i ->
  reloc_insn (ELF32_R_TYPE (r_info rel)) S (r_addend rel)
    (vma + output_offset sec + r_offset rel) i = Some i' ->
  exists w' m', relocate_one b sec m rel S = Ret (Some (bfd_reloc_ok, m'))
    /\ bfd_get_32 m' (r_offset rel) = Ret w' /\ decode w' = Some i'
    /\ same_outside m m' (r_offset rel) 4.
Proof.
  intros Hpl HS Hw Hd Hr.
  destruct (relocate_one_insn b sec m vma rel S w i i') as (w' & m' & ? & ? & ? & ? & ?); eauto 10.
Qed.

(** A word at [off] of [m] that another relocation does not touch. *)
Lemma get_32_outside (m m' : list Z) (off off' : Z) :
  same_outside m m' off' 4 -> off + 4 <= off' \/ off' + 4 <= off ->
  bfd_get_32 m' off = bfd_get_32 m off.
Proof.
  intros [_ H] Hd. unfold bfd_get_32, bfd_getb32. by rewrite !H by lia.
Qed.

(** An LI/LUI pair against one symbol loads its 32-bit address: after the two
    relocations, at two places that do not overlap, the two instructions'
    immediates are the low and the high half of (S + A) modulo 2^32. *)
Theorem li_lui_pair (b : bfd) (sec : asection) (m : list Z) (vma : Z)
    (r1 r2 : Elf_Internal_Rela) (S w1 w2 d1 d2 rd1 rd2 x1 x2 : Z) :
  placed b sec m (r_offset r1) vma -> placed b sec m (r_offset r2) vma -> 0 <= S < 2 ^ 64 ->
  r_offset r1 + 4 <= r_offset r2 \/ r_offset r2 + 4 <= r_offset r1 ->
  ELF32_R_TYPE (r_info r1) = R_FUSION_LI -> ELF32_R_TYPE (r_info r2) = R_FUSION_LUI ->
  r_addend r1 = r_addend r2 ->
  bfd_get_32 m (r_offset r1) = Ret w1 -> decode w1 = Some (InsnLI d1 rd1 x1) ->
  bfd_get_32 m (r_offset r2) = Ret w2 -> decode w2 = Some (InsnLI d2 rd2 x2) ->
  exists m1 m2 v1 v2 lo hi,
    relocate_one b sec m r1 S = Ret (Some (bfd_reloc_ok, m1))
    /\ relocate_one b sec m1 r2 S = Ret (Some (bfd_reloc_ok, m2))
    /\ bfd_get_32 m2 (r_offset r1) = Ret v1 /\ decode v1 = Some (InsnLI d1 rd1 lo)
    /\ bfd_get_32 m2 (r_offset r2) = Ret v2 /\ decode v2 = Some (InsnLI d2 rd2 hi)
    /\ hi * 2 ^ 16 + lo = (S + r_addend r1) mod 2 ^ 32.
Proof.
  intros Hp1 Hp2 HS Hdis Ht1 Ht2 HA Hw1 Hd1 Hw2 Hd2.
  destruct (relocate_one_insn b sec m vma r1 S w1 _ (InsnLI d1 rd1 ((S + r_addend r1) mod 2 ^ 16))
              Hp1 HS Hw1 Hd1) as (v1 & m1 & E1 & G1 & D1 & F1 & B1); [by rewrite Ht1|].
  assert (Hw2' : bfd_get_32 m1 (r_offset r2) = Ret w2).
  { rewrite <- Hw2. eapply get_32_outside; [done|lia]. }
  destruct (relocate_one_insn b sec m1 vma r2 S w2 _
              (InsnLI d2 rd2 ((S + r_addend r2) / 2 ^ 16 mod 2 ^ 16))
              (placed_after _ _ _ _ _ _ _ Hp2 F1 B1) HS Hw2' Hd2)
    as (v2 & m2 & E2 & G2 & D2 & F2 & B2); [by rewrite Ht2|].
  exists m1, m2, v1, v2, ((S + r_addend r1) mod 2 ^ 16), ((S + r_addend r2) / 2 ^ 16 mod 2 ^ 16).
  split_and!; auto.
  - rewrite <- G1. eapply get_32_outside; [done|lia].
  - rewrite <- HA. generalize (S + r_addend r1). intros v. Z.to_euclidean_division_equations. lia.
Qed.

(** A jump is relocated to its target exactly when bits 21 to 25 of the
    displacement S + A - P repeat bits 16 to 20, since the linker does not split
    the value into the two parts of the jump field; so it is right for every
    displacement within 64 KiB, and wrong for a target 64 KiB to 128 KiB ahead. *)
Theorem jump_reach (b : bfd) (sec : asection) (m : list Z) (vma : Z) (rel : Elf_Internal_Rela)
    (S w ra imm : Z) :
  placed b sec m (r_offset rel) vma -> 0 <= S < 2 ^ 64 ->
  ELF32_R_TYPE (r_info rel) = R_FUSION_JUMP ->
  bfd_get_32 m (r_offset rel) = Ret w -> decode w = Some (InsnJ ra imm) ->
  let v := S + r_addend rel - (vma + output_offset sec + r_offset rel) in
  exists w' m' imm', relocate_one b sec m rel S = Ret (Some (bfd_reloc_ok, m'))
    /\ bfd_get_32 m' (r_offset rel) = Ret w' /\ decode w' = Some (InsnJ ra imm')
    /\ (imm' = v mod 2 ^ 21 <-> Z.shiftr v 21 mod 2 ^ 5 = Z.shiftr v 16 mod 2 ^ 5)
    /\ (- 2 ^ 16 <= v < 2 ^ 16 -> imm' = v mod 2 ^ 21)
    /\ (2 ^ 16 <= v < 2 ^ 17 -> imm' <> v mod 2 ^ 21).
Proof.
  intros Hpl HS Ht Hw Hd v.
  destruct (relocate_one_insn b sec m vma rel S w _ (InsnJ ra (jump_field v)) Hpl HS Hw Hd)
    as (w' & m' & E & Hg & Hd' & _); [by rewrite Ht|].
  exists w', m', (jump_field v). split_and!; auto using jump_field_ok, jump_field_near.
  intros Hv. rewrite jump_field_ok, !Z.shiftr_div_pow2 by lia.
  rewrite (Z.div_small v (2 ^ 21)) by lia.
  replace (v / 2 ^ 16) with 1 by (apply Z.div_unique with (v - 2 ^ 16); lia). done.
Qed.

(** ** Lookups *)

(** A sentence of the table that evaluation settles entry by entry. *)
Lemma howto_table_indexed :
  Forall (fun p => type p.2 = Z.of_nat p.1 /\ src_mask p.2 <= MASK_ALL /\ dst_mask p.2 <= MASK_ALL)
    (imap pair fusion_elf_howto_table).
Proof. repeat constructor; vm_compute; congruence. Qed.

Lemma howto_at_type (t : Z) (h : reloc_howto) : howto_at t = Some h -> type h = t.
Proof.
  unfold howto_at. destruct (Z.ltb_spec t 0); [done|]. intros Hh.
  pose proof howto_table_indexed as Hall. rewrite Forall_lookup in Hall.
  specialize (Hall (Z.to_nat t) (Z.to_nat t, h)). rewrite list_lookup_imap, Hh in Hall. cbn in Hall.
  destruct Hall as [-> _]; [done|lia].
Qed.

Fixpoint lower (s : string) : string :=
  match s with EmptyString => EmptyString | String c s' => String (tolower c) (lower s') end.

Lemma strcasecmp_lower (a c : string) : strcasecmp_eq a c = true <-> lower a = lower c.
Proof.
  revert c. induction a as [|x a IH]; intros [|y c]; cbn; try done.
  rewrite andb_true_iff, Ascii.eqb_eq, IH. split; [intros [-> ->]; done|intros [= -> ->]; done].
Qed.

Lemma name_lookup_first (t : list reloc_howto) (s : string) (h : reloc_howto) :
  NoDup (fmap lower <$> (name <$> t)) -> h ∈ t ->
  (exists n, name h = Some n /\ lower n = lower s) -> name_lookup_loop t s = Some h.
Proof.
  intros Hnd Hin (n & Hn & Hl). induction t as [|h0 t IH]; [by apply not_elem_of_nil in Hin|].
  cbn in Hnd |- *. apply NoDup_cons in Hnd as [Hni Hnd].
  apply elem_of_cons in Hin as [<-|Hin].
  - rewrite Hn. by rewrite (proj2 (strcasecmp_lower n s) Hl).
  - destruct (name h0) as [n0|] eqn:E0; [|by apply IH].
    destruct (strcasecmp_eq n0 s) eqn:Ec; [|by apply IH].
    exfalso. apply Hni. apply strcasecmp_lower in Ec. cbn. rewrite Ec, <- Hl.
    apply list_elem_of_fmap. exists (Some n). split; [done|]. rewrite <- Hn.
    by apply list_elem_of_fmap_2.
Qed.

(** The lookups agree with the table: the entry at a relocation number has
    that number as its type, every BFD code of [fusion_reloc_map] is found and
    yields the howto of its Fusion number, every other code yields NULL, a howto
    is found by its own name in any letter case, and a number out of range is
    reported and treated as R_FUSION_NONE. *)
Theorem reloc_lookups_correct :
  (forall code t, (code, t) ∈ fusion_reloc_map ->
     exists h, fusion_reloc_type_lookup code = Some h /\ type h = t)
  /\ (forall code, code ∉ fusion_reloc_map.*1 -> fusion_reloc_type_lookup code = None)
  /\ (forall h n s, h ∈ fusion_elf_howto_table -> name h = Some n -> lower n = lower s ->
        fusion_reloc_name_lookup s = Some h)
  /\ (forall rel, exists h, (fusion_info_to_howto rel).1 = Some h
        /\ type h = if ELF32_R_TYPE (r_info rel) <? R_FUSION_max
                    then ELF32_R_TYPE (r_info rel) else R_FUSION_NONE).
Proof.
  split_and!.
  - intros code t Hin. destruct (fusion_reloc_type_lookup code) as [h|] eqn:E.
    + exists h. split; [done|]. repeat (apply elem_of_cons in Hin as [[= -> ->]|Hin];
        [vm_compute in E; by injection E as <-|]). by apply not_elem_of_nil in Hin.
    + repeat (apply elem_of_cons in Hin as [[= -> ->]|Hin]; [done|]). by apply not_elem_of_nil in Hin.
  - intros code Hn. destruct code; try done; exfalso; apply Hn; cbn; set_solver.
  - intros h n s Hin Hn Hl. apply name_lookup_first; [|done|eauto].
    apply (bool_decide_unpack _). by vm_compute.
  - intros rel. unfold fusion_info_to_howto.
    assert (Ht : 0 <= ELF32_R_TYPE (r_info rel) < 2 ^ 8) by (apply land_range_r; lia).
    set (t := ELF32_R_TYPE (r_info rel)) in *. unfold R_FUSION_max.
    destruct (Z.leb_spec 14 t), (Z.ltb_spec t 14); try lia; cbn [fst]; [by eexists|].
    destruct (howto_at t) as [h|] eqn:Hh; [eauto using howto_at_type|].
    exfalso. unfold howto_at in Hh. destruct (Z.ltb_spec t 0); [lia|].
    apply lookup_ge_None in Hh. cbn in Hh. lia.
Qed.

(** ** Witnesses *)
Definition demo_text : asection := mk_section ".text" sec_normal 8 0 0x10 (Some 0x1000).

(** [li r1, 0 ; li r2, 0] and [jmp r0, 0] with a word after it. *)
Definition demo_li : list Z := [0x40; 0x20; 0; 0; 0x40; 0x42; 0; 0].
Definition demo_jmp : list Z := [0x30; 0; 0; 0; 0; 0; 0; 0].

Lemma demo_placed (m : list Z) (off : Z) :
  length m = 8%nat -> bytes_ok m -> 0 <= off <= 4 -> placed demo_bfd demo_text m off 0x1000.
Proof. intros Hl Hm Ho. split; rewrite ?Hl; auto; cbn; lia. Qed.

Lemma relocate_insn_refines_witness :
  exists w' m', relocate_one demo_bfd demo_text demo_li (mk_rela 4 (ELF32_R_INFO 1 R_FUSION_LUI) 0)
                  0x12345678 = Ret (Some (bfd_reloc_ok, m'))
    /\ bfd_get_32 m' 4 = Ret w' /\ decode w' = Some (InsnLI 1 2 0x1234).
Proof.
  destruct (relocate_insn_refines demo_bfd demo_text demo_li 0x1000
              (mk_rela 4 (ELF32_R_INFO 1 R_FUSION_LUI) 0) 0x12345678 0x40420000
              (InsnLI 1 2 0) (InsnLI 1 2 0x1234)) as (w' & m' & H1 & H2 & H3 & _).
  - apply demo_placed; [reflexivity|repeat constructor; lia|cbn; lia].
  - lia.
  - reflexivity.
  - reflexivity.
  - reflexivity.
  - exists w', m'. split; [exact H1|]. split; [exact H2|exact H3].
Defined.

Lemma li_lui_pair_witness :
  exists m1 m2 lo hi,
    relocate_one demo_bfd demo_text demo_li (mk_rela 0 (ELF32_R_INFO 1 R_FUSION_LI) 8) 0x12345678
      = Ret (Some (bfd_reloc_ok, m1))
    /\ relocate_one demo_bfd demo_text m1 (mk_rela 4 (ELF32_R_INFO 1 R_FUSION_LUI) 8) 0x12345678
       = Ret (Some (bfd_reloc_ok, m2))
    /\ hi * 2 ^ 16 + lo = 0x12345680.
Proof.
  destruct (li_lui_pair demo_bfd demo_text demo_li 0x1000
              (mk_rela 0 (ELF32_R_INFO 1 R_FUSION_LI) 8) (mk_rela 4 (ELF32_R_INFO 1 R_FUSION_LUI) 8)
              0x12345678 0x40200000 0x40420000 0 1 1 2 0 0)
    as (m1 & m2 & v1 & v2 & lo & hi & H1 & H2 & _ & _ & _ & _ & H3);
    try reflexivity; try lia;
    try (apply demo_placed; [reflexivity|repeat constructor; lia|cbn; lia]); [cbn; lia|].
  exists m1, m2, lo, hi. split; [exact H1|]. split; [exact H2|exact H3].
Defined.

Lemma jump_reach_witness :
  exists w' m' imm',
    relocate_one demo_bfd demo_text demo_jmp (mk_rela 0 (ELF32_R_INFO 1 R_FUSION_JUMP) 0) 0x21010
      = Ret (Some (bfd_reloc_ok, m'))
    /\ bfd_get_32 m' 0 = Ret w' /\ decode w' = Some (InsnJ 0 imm').
Proof.
  destruct (jump_reach demo_bfd demo_text demo_jmp 0x1000
              (mk_rela 0 (ELF32_R_INFO 1 R_FUSION_JUMP) 0) 0x21010 0x30000000 0 0)
    as (w' & m' & imm' & H1 & H2 & H3 & _);
    try reflexivity; try lia;
    [apply demo_placed; [reflexivity|repeat constructor; lia|cbn; lia]|].
  exists w', m', imm'. split; [exact H1|]. split; [exact H2|exact H3].
Defined.
