(* ===== verification/ElfReloc.v ===== *)
(** * Relocations in the object file: bfd/elfcode.h, bfd/elflink.c

    The assembler's relocation entries ([arelent]) are written as 12-byte
    external records ([elf_write_relocs]) and the linker reads them back
    ([elf_link_read_relocs_from_section]).  The file is 32-bit big-endian.  A
    symbol's index in the symbol table, which [_bfd_elf_symbol_from_bfd_symbol]
    reads off the symbol, is the function [sym_index]; every symbol of a
    relocation belongs to the output file. *)
From S2P Require Import Prelude Endian BfdReloc FusionReloc.
#[local] Open Scope Z_scope.

(** ** External records *)
Definition SIZEOF_REL : Z := 8.
Definition SIZEOF_RELA : Z := 12.

Definition elf_swap_reloc_in (s : list Z) (p : Z) : res Elf_Internal_Rela :=
  let! offset := bfd_getb32 s p in
  let! info := bfd_getb32 s (p + 4) in
  Ret (mk_rela offset info 0).

(** [r_addend] is unsigned: the signed word is converted to [bfd_vma]. *)
Definition elf_swap_reloca_in (s : list Z) (p : Z) : res Elf_Internal_Rela :=
  let! offset := bfd_getb32 s p in
  let! info := bfd_getb32 s (p + 4) in
  let! addend := bfd_getb_signed_32 s (p + 8) in
  Ret (mk_rela offset info (u64 addend)).

Definition elf_swap_reloc_out (src : Elf_Internal_Rela) (d : list Z) (p : Z) : res (list Z) :=
  let! d := bfd_putb32 (r_offset src) d p in
  bfd_putb32 (r_info src) d (p + 4).

Definition elf_swap_reloca_out (src : Elf_Internal_Rela) (d : list Z) (p : Z) : res (list Z) :=
  let! d := bfd_putb32 (r_offset src) d p in
  let! d := bfd_putb32 (r_info src) d (p + 4) in
  bfd_putb32 (r_addend src) d (p + 8).

(** ** Writing *)
Section write.
  Context (sym_index : asymbol -> Z) (rela : bool) (addr_offset : Z).

Definition swap_out (src : Elf_Internal_Rela) (d : list Z) (p : Z) : res (list Z) :=
  if rela then elf_swap_reloca_out src d p else elf_swap_reloc_out src d p.
Definition extsize : Z := if rela then SIZEOF_RELA else SIZEOF_REL.

(** The symbol's index; [None] where the function fails.  The source keeps the
    last symbol's index instead of asking twice. *)
Definition reloc_symndx (s : asymbol) : option Z :=
  if bool_decide (sec_kind (section s) = sec_abs) && (value s =? 0) then Some 0
  else let n := sym_index s in if n <? 0 then None else Some n.

(** The [for] loop; [None] is [*failedp]. *)
Fixpoint write_relocs_loop (relocs : list arelent) (dst : list Z) (dst_rela : Z)
  : res (option (list Z)) :=
  match relocs with
  | [] => Ret (Some dst)
  | ptr :: relocs' =>
      match reloc_symndx (BfdReloc.sym ptr), howto_of ptr with
      | None, _ => Ret None
      | Some _, None => Fail Foob
      | Some n, Some howto =>
          let src_rela := mk_rela (u64 (address ptr + addr_offset))
                            (u64 (ELF32_R_INFO n (type howto))) (addend ptr) in
          let! dst := swap_out src_rela dst dst_rela in
          write_relocs_loop relocs' dst (dst_rela + extsize)
      end
  end.

(** [alloc] is what [bfd_alloc] returns: a block of unset bytes. *)
Definition elf_write_relocs (relocs : list arelent) (alloc : list Z) : res (option (list Z)) :=
  write_relocs_loop relocs alloc 0.
End write.

(** ** Reading *)
Section read.
  Context (sh_entsize nsyms : Z).

Definition swap_in (s : list Z) (p : Z) : res Elf_Internal_Rela :=
  if sh_entsize =? SIZEOF_REL then elf_swap_reloc_in s p else elf_swap_reloca_in s p.

(** A symbol index the file's symbol table has, or none where it has no table. *)
Definition symndx_ok (r_symndx : Z) : bool :=
  if 0 <? nsyms then negb (nsyms <=? r_symndx) else r_symndx =? 0.

(** [while (erela < erelaend)]; [None] is the return value [FALSE]. *)
Fixpoint read_relocs_loop (fuel : nat) (relocs : list Z) (erela : Z)
  : res (option (list Elf_Internal_Rela)) :=
  match fuel with
  | O => Fail Floop
  | S fuel' =>
      if erela <? Z.of_nat (length relocs) then
        let! irela := swap_in relocs erela in
        if symndx_ok (ELF32_R_SYM (r_info irela)) then
          let! rest := read_relocs_loop fuel' relocs (erela + sh_entsize) in
          Ret (cons irela <$> rest)
        else Ret None
      else Ret (Some [])
  end.

(** The bytes of the relocation section, already read from the file. *)
Definition elf_link_read_relocs_from_section (relocs : list Z)
  : res (option (list Elf_Internal_Rela)) :=
  if (sh_entsize =? SIZEOF_REL) || (sh_entsize =? SIZEOF_RELA)
  then read_relocs_loop (S (length relocs)) relocs 0 else Ret None.
End read.

(** ** Round trip *)

(** What is left of a relocation that went through the file: 32 bits of the
    address and of the info word, the addend sign-extended from 32 bits. *)
Definition through_file (n : Z) (howto : reloc_howto) (e : arelent) : Elf_Internal_Rela :=
  mk_rela (u32 (address e)) (u32 (ELF32_R_INFO n (type howto))) (u64 (sext 32 (u32 (addend e)))).

Lemma getb32_outside (m m' : list Z) (off p n : Z) :
  same_outside m m' p n -> off + 4 <= p \/ p + n <= off -> bfd_getb32 m' off = bfd_getb32 m off.
Proof. intros [_ H] Hd. unfold bfd_getb32. by rewrite !H by lia. Qed.

Lemma reloca_swap (src : Elf_Internal_Rela) (d : list Z) (p : Z) :
  0 <= p -> p + 12 <= Z.of_nat (length d) -> bytes_ok d ->
  exists d', elf_swap_reloca_out src d p = Ret d' /\ bytes_ok d' /\ same_outside d d' p 12
    /\ elf_swap_reloca_in d' p
       = Ret (mk_rela (u32 (r_offset src)) (u32 (r_info src)) (u64 (sext 32 (u32 (r_addend src))))).
Proof.
  intros Hp Hl Hd. unfold elf_swap_reloca_out, elf_swap_reloca_in.
  destruct (bfd_put_32_spec (r_offset src) d p) as (d1 & E1 & G1 & O1 & B1); [lia|lia|done|].
  destruct (bfd_put_32_spec (r_info src) d1 (p + 4)) as (d2 & E2 & G2 & O2 & B2);
    [lia|rewrite (proj1 O1); lia|done|].
  destruct (bfd_put_32_spec (r_addend src) d2 (p + 8)) as (d3 & E3 & G3 & O3 & B3);
    [lia|rewrite (proj1 O2), (proj1 O1); lia|done|].
  unfold bfd_put_32, bfd_get_32 in *. exists d3. rewrite E1. cbn [rbind]. rewrite E2. cbn [rbind].
  split; [done|]. split; [done|]. split.
  - split; [by rewrite (proj1 O3), (proj1 O2), (proj1 O1)|]. intros j Hj.
    rewrite (proj2 O3), (proj2 O2), (proj2 O1) by lia. done.
  - rewrite (getb32_outside _ _ p _ _ O3), (getb32_outside _ _ p _ _ O2), G1 by lia. cbn [rbind].
    rewrite (getb32_outside _ _ (p + 4) _ _ O3), G2 by lia. cbn [rbind].
    rewrite getb_signed_32_sext, G3 by done. reflexivity.
Qed.

(** [e] has a howto and a symbol index the symbol table has, and [r] is what is
    left of it. *)
Definition writable (sym_index : asymbol -> Z) (nsyms : Z) (e : arelent) (r : Elf_Internal_Rela)
  : Prop :=
  exists howto n, howto_of e = Some howto /\ reloc_symndx sym_index (BfdReloc.sym e) = Some n
    /\ n < nsyms /\ r = through_file n howto e.

Lemma reloc_symndx_pos (sym_index : asymbol -> Z) (s : asymbol) (n : Z) :
  reloc_symndx sym_index s = Some n -> 0 <= n.
Proof.
  unfold reloc_symndx. destruct (_ && _); [intros [= <-]; lia|].
  destruct (Z.ltb_spec (sym_index s) 0); [done|]. intros [= <-]. lia.
Qed.

Lemma r_sym_info (n t : Z) : 0 <= n < 2 ^ 24 -> ELF32_R_SYM (u32 (u64 (ELF32_R_INFO n t))) = n.
Proof.
  intros Hn. unfold ELF32_R_SYM, ELF32_R_INFO.
  assert (Ht : 0 <= Z.land t 0xff < 2 ^ 8) by (apply land_range_r; [lia|cst_range]).
  rewrite Z.shiftl_mul_pow2 by lia. rewrite u64_small, u32_small by lia.
  rewrite Z.shiftr_div_pow2 by lia. rewrite Z.div_add_l, (Z.div_small (Z.land t 0xff)) by lia. lia.
Qed.

Section roundtrip.
  Context (sym_index : asymbol -> Z) (nsyms : Z) (Hn : nsyms <= 2 ^ 24).

(** The swapped-out record reads back, and its index is accepted. *)
Lemma record_roundtrip (e : arelent) (r : Elf_Internal_Rela) (dst : list Z) (p : Z)
    (rest : list arelent) :
  writable sym_index nsyms e r -> 0 <= p -> p + 12 <= Z.of_nat (length dst) -> bytes_ok dst ->
  exists d, write_relocs_loop sym_index true 0 (e :: rest) dst p
            = write_relocs_loop sym_index true 0 rest d (p + 12)
    /\ bytes_ok d /\ same_outside dst d p 12 /\ elf_swap_reloca_in d p = Ret r
    /\ symndx_ok nsyms (ELF32_R_SYM (r_info r)) = true.
Proof.
  intros (howto & n & Hh & Hi & Hlt & ->) Hp Hl Hd. pose proof (reloc_symndx_pos _ _ _ Hi) as H0.
  set (src := mk_rela (u64 (address e + 0)) (u64 (ELF32_R_INFO n (type howto))) (addend e)).
  destruct (reloca_swap src dst p Hp Hl Hd) as (d & E & B & O & R).
  exists d. split; [|split; [done|split; [done|]]].
  - cbn [write_relocs_loop]. rewrite Hi, Hh. unfold swap_out. fold src. by rewrite E.
  - cbn [r_offset r_info r_addend src] in R. rewrite Z.add_0_r, !u32_u64 in R.
    split; [exact R|]. cbn [r_info through_file]. rewrite <- u32_u64, r_sym_info by lia.
    unfold symndx_ok. destruct (Z.ltb_spec 0 nsyms); [|lia]. by destruct (Z.leb_spec nsyms n); [lia|].
Qed.

Lemma swap_in_outside (d d' : list Z) (p q n : Z) :
  bytes_ok d -> bytes_ok d' -> same_outside d d' q n -> p + 12 <= q ->
  elf_swap_reloca_in d' p = elf_swap_reloca_in d p.
Proof.
  intros H1 H2 Ho Hq. unfold elf_swap_reloca_in. rewrite !getb_signed_32_sext by done.
  by rewrite !(getb32_outside _ _ _ _ _ Ho) by lia.
Qed.

Lemma loops_roundtrip (es : list arelent) (rs : list Elf_Internal_Rela) :
  Forall2 (writable sym_index nsyms) es rs -> forall (dst : list Z) (p : Z) (fuel : nat),
  0 <= p -> bytes_ok dst -> p + 12 * Z.of_nat (length es) = Z.of_nat (length dst) ->
  (length es < fuel)%nat ->
  exists d, write_relocs_loop sym_index true 0 es dst p = Ret (Some d) /\ bytes_ok d
    /\ same_outside dst d p (12 * Z.of_nat (length es))
    /\ read_relocs_loop 12 nsyms fuel d p = Ret (Some rs).
Proof.
  induction 1 as [|e r es rs He _ IH]; intros dst p fuel Hp Hd Hl Hf; (destruct fuel as [|fuel]; [lia|]).
  - exists dst. cbn in Hl |- *. split; [done|]. split; [done|]. split; [apply same_outside_refl|].
    by destruct (Z.ltb_spec p (Z.of_nat (length dst))); [lia|].
  - cbn [length] in *. destruct (record_roundtrip e r dst p es He) as (d1 & E & B1 & O1 & R1 & S1);
      [lia|lia|done|].
    destruct (IH d1 (p + 12) fuel) as (d & E2 & B & O & R); [lia|done|rewrite (proj1 O1); lia|lia|].
    exists d. split; [by rewrite E|]. split; [done|]. split.
    { split; [by rewrite (proj1 O), (proj1 O1)|]. intros j Hj. rewrite (proj2 O), (proj2 O1) by lia. done. }
    cbn [read_relocs_loop]. rewrite (proj1 O), (proj1 O1).
    destruct (Z.ltb_spec p (Z.of_nat (length dst))); [|lia]. unfold swap_in.
    change (12 =? SIZEOF_REL) with false. cbv iota.
    rewrite (swap_in_outside d1 d p (p + 12) _ B1 B O), R1 by lia. cbn [rbind]. rewrite S1, R. reflexivity.
Qed.

Lemma file_roundtrip (es : list arelent) (rs : list Elf_Internal_Rela) (alloc : list Z) :
  Forall2 (writable sym_index nsyms) es rs -> bytes_ok alloc ->
  length alloc = (12 * length es)%nat ->
  exists d, elf_write_relocs sym_index true 0 es alloc = Ret (Some d)
    /\ elf_link_read_relocs_from_section SIZEOF_RELA nsyms d = Ret (Some rs).
Proof.
  intros H Ha Hl. destruct (loops_roundtrip es rs H alloc 0 (S (length alloc))) as (d & E & B & O & R);
    [lia|done|lia|lia|].
  exists d. split; [done|]. unfold elf_link_read_relocs_from_section. 
  change ((SIZEOF_RELA =? SIZEOF_REL) || (SIZEOF_RELA =? SIZEOF_RELA)) with true. cbv iota.
  by rewrite (proj1 O).
Qed.
(** C32.  Relocations survive the object file: writing any list of relocation
    entries that have a howto and a symbol the table has, and reading the
    section back, succeeds and returns them in order, each with its address and
    info word in 32 bits and its addend sign-extended from 32 bits. *)
Theorem relocs_roundtrip (es : list arelent) (rs : list Elf_Internal_Rela) (alloc : list Z) :
  Forall2 (writable sym_index nsyms) es rs -> bytes_ok alloc ->
  length alloc = (12 * length es)%nat ->
  exists d, elf_write_relocs sym_index true 0 es alloc = Ret (Some d)
    /\ elf_link_read_relocs_from_section SIZEOF_RELA nsyms d = Ret (Some rs).
Proof. apply file_roundtrip. Qed.
End roundtrip.

(** Two relocations against symbols 1 and 3, one addend negative. *)
Definition demo_relocs (s : asymbol) : list arelent :=
  [mk_arelent 4 8 (howto_at R_FUSION_LI) s; mk_arelent 0x10 (2 ^ 64 - 4) (howto_at R_FUSION_BRANCH) s].
Definition demo_asym : asymbol := mk_symbol 0 false true demo_section.

Lemma relocs_roundtrip_witness :
  exists d, elf_write_relocs (fun _ => 3) true 0 (demo_relocs demo_asym) (replicate 24 0xcc) = Ret (Some d)
    /\ elf_link_read_relocs_from_section SIZEOF_RELA 4 d
       = Ret (Some [mk_rela 4 0x302 8; mk_rela 0x10 0x30b (2 ^ 64 - 4)]).
Proof.
  apply (relocs_roundtrip (fun _ => 3) 4 ltac:(lia)).
  - constructor; [|constructor; [|constructor]]; eexists _, 3; (split; [reflexivity|]);
      (split; [reflexivity|]); (split; [lia|]); vm_compute; reflexivity.
  - repeat constructor; lia.
  - reflexivity.
Defined.
