(* ===== verification/FusionLink.v ===== *)
(** * The link step: bfd/elf32-fusion.c (part 2), elf-bfd.h, elf.c

    [fusion_elf_relocate_section]: the loop over a section's relocations, with
    the symbol resolution of [RELOC_FOR_GLOBAL_SYMBOL] and
    [_bfd_elf_rela_local_sym], the treatment of discarded sections, the dispatch
    on the relocation type and the callbacks.  Also [fusion_elf_check_relocs]
    and the garbage-collection hook.  Global symbols live in a store addressed
    by index, because indirect and warning symbols point at others. *)
From S2P Require Import Prelude Bits FusionIsa Endian BfdReloc FusionReloc.
#[local] Open Scope Z_scope.

(** ** Sections, symbols, link state *)
Record lsec : Type := mk_lsec {
  ls : asection;
  output_abs : bool;
  flag_merge : bool;
  flag_exclude : bool;
  flag_debugging : bool;
  info_merge : bool;
  info_just_syms : bool
}.

Definition discarded_section (s : lsec) : bool :=
  negb (bool_decide (sec_kind (ls s) = sec_abs)) && output_abs s && negb (info_merge s)
  && negb (info_just_syms s).

(** [struct elf_link_hash_entry]: [root.type] with the union it selects. *)
Inductive link_hash_type : Type :=
| bfd_link_hash_new
| bfd_link_hash_undefined
| bfd_link_hash_undefweak
| bfd_link_hash_defined (value : Z) (section : option lsec)
| bfd_link_hash_defweak (value : Z) (section : option lsec)
| bfd_link_hash_common (section : lsec)
| bfd_link_hash_indirect (link : nat)
| bfd_link_hash_warning (link : nat).

Record link_hash_entry : Type := mk_hash {
  h_string : string;
  h_type : link_hash_type;
  h_visibility : Z;
  non_ir_ref_regular : bool
}.

Definition STV_DEFAULT : Z := 0.
Definition STT_SECTION : Z := 3.
Definition ELF_ST_TYPE (st_info : Z) : Z := Z.land st_info 0xf.

(** A local symbol with its name in the string table, if it has one. *)
Record Elf_Internal_Sym : Type := mk_sym {
  st_name : option string;
  st_value : Z;
  st_info : Z;
  st_shndx : nat
}.

Inductive report_method : Type :=
| RM_NOT_YET_SET | RM_IGNORE | RM_GENERATE_WARNING | RM_GENERATE_ERROR.

#[global] Instance report_method_eq_dec : EqDecision report_method.
Proof. solve_decision. Defined.

Record bfd_link_info : Type := mk_info {
  relocatable : bool;
  unresolved_syms_in_objects : report_method;
  wrap_hash : bool
}.

(** The calls made through [info->callbacks]. *)
Inductive link_event : Type :=
| ev_reloc_overflow (name : string) (howto : option string) (offset : Z)
| ev_undefined_symbol (name : string) (offset : Z) (err : bool)
| ev_warning (msg name : string) (offset : Z).

(** What the loop changes: contents, the relocations already passed, the
    [sh_size] of the two relocation section headers, and the callbacks made. *)
Record lstate : Type := mk_lstate {
  contents : list Z;
  passed : list Elf_Internal_Rela;
  out_hdr_size : Z;
  in_hdr_size : Z;
  events : list link_event
}.

Definition set_contents (st : lstate) (c : list Z) : lstate :=
  mk_lstate c (passed st) (out_hdr_size st) (in_hdr_size st) (events st).
Definition pass (st : lstate) (r : Elf_Internal_Rela) : lstate :=
  mk_lstate (contents st) (passed st ++ [r]) (out_hdr_size st) (in_hdr_size st) (events st).
Definition emit (st : lstate) (e : link_event) : lstate :=
  mk_lstate (contents st) (passed st) (out_hdr_size st) (in_hdr_size st) (events st ++ [e]).

Section link.
  (** merge.c's [_bfd_merged_section_offset]: the section and offset an offset
      of a merged section ends up at. *)
  Context (merged_section_offset : lsec -> Z -> lsec * Z).
  (** linker.c's [unwrap_hash_lookup]. *)
  Context (unwrap_hash_lookup : nat -> nat).

(** ** Symbol values *)

(** elf.c: returns the value, the section and the entry's new addend. *)
Definition _bfd_elf_rela_local_sym (sym : Elf_Internal_Sym) (sec : lsec) (rel : Elf_Internal_Rela)
  : res (Z * lsec * Elf_Internal_Rela) :=
  let! vma := out_vma (ls sec) in
  let relocation := u64 (vma + output_offset (ls sec) + st_value sym) in
  if flag_merge sec && (ELF_ST_TYPE (st_info sym) =? STT_SECTION) && info_merge sec then
    let '(sec', off) := merged_section_offset sec (u64 (st_value sym + r_addend rel)) in
    let! vma' := out_vma (ls sec') in
    let addend := u64 (u64 (off - relocation) + u64 (vma' + output_offset (ls sec'))) in
    Ret (relocation, sec', mk_rela (r_offset rel) (r_info rel) addend)
  else Ret (relocation, sec, rel).

(** [while (type == indirect || type == warning) h = link]. *)
Fixpoint follow (fuel : nat) (hs : list link_hash_entry) (h : nat) : res (nat * link_hash_entry) :=
  match fuel with
  | O => Fail Floop
  | S fuel' =>
      match hs !! h with
      | None => Fail Foob
      | Some e =>
          match h_type e with
          | bfd_link_hash_indirect l | bfd_link_hash_warning l => follow fuel' hs l
          | _ => Ret (h, e)
          end
      end
  end.

(** A chain that visits more entries than there are has come back on itself. *)
Definition resolve (hs : list link_hash_entry) (h : nat) : res (nat * link_hash_entry) :=
  follow (S (length hs)) hs h.

(** [RELOC_FOR_GLOBAL_SYMBOL]: the entry, the section, the value and the
    [undefined_symbol] callback if one was made. *)
Definition global_symbol (info : bfd_link_info) (input_debugging : bool)
    (hs : list link_hash_entry) (h : nat) (offset : Z)
  : res (link_hash_entry * option lsec * Z * option link_event) :=
  let h := if wrap_hash info && input_debugging then unwrap_hash_lookup h else h in
  let! (_, e) := resolve hs h in
  match h_type e with
  | bfd_link_hash_defined v sec | bfd_link_hash_defweak v sec =>
      match sec with
      | None => Ret (e, sec, 0, None)
      | Some s =>
          match output_vma (ls s) with
          | None => Ret (e, sec, 0, None)
          | Some vma => Ret (e, sec, u64 (v + vma + output_offset (ls s)), None)
          end
      end
  | bfd_link_hash_undefweak => Ret (e, None, 0, None)
  | _ =>
      if bool_decide (unresolved_syms_in_objects info = RM_IGNORE)
         && (h_visibility e =? STV_DEFAULT) then Ret (e, None, 0, None)
      else if negb (relocatable info) then
        let err := bool_decide (unresolved_syms_in_objects info = RM_GENERATE_ERROR)
                   || negb (h_visibility e =? STV_DEFAULT) in
        Ret (e, None, 0, Some (ev_undefined_symbol (h_string e) offset err))
      else Ret (e, None, 0, None)
  end.

(** ** The loop *)
Context (input_bfd : bfd) (info : bfd_link_info) (input : lsec) (sh_info sh_entsize : Z).
Context (local_syms : list Elf_Internal_Sym) (local_sections : list lsec).
Context (sym_hashes : option (list nat)) (hashes : list link_hash_entry).

(** What the first half of the body finds out about a relocation. *)
Record target : Type := mk_target {
  tg_value : Z;
  tg_sec : option lsec;
  tg_name : string;
  tg_rel : Elf_Internal_Rela;
  tg_event : option link_event
}.

(** [None] is the [return FALSE] of [RELOC_FOR_GLOBAL_SYMBOL]. *)
Definition find_target (rel : Elf_Internal_Rela) : res (option target) :=
  let r_symndx := ELF32_R_SYM (r_info rel) in
  if r_symndx <? sh_info then
    match local_syms !! Z.to_nat r_symndx, local_sections !! Z.to_nat r_symndx with
    | Some sym, Some sec =>
        let! (relocation, sec, rel) := _bfd_elf_rela_local_sym sym sec rel in
        let name := match st_name sym with Some n => n | None => sec_name (ls sec) end in
        Ret (Some (mk_target relocation (Some sec) name rel None))
    | _, _ => Fail Foob
    end
  else
    match sym_hashes with
    | None => Ret None
    | Some tbl =>
        match tbl !! Z.to_nat (r_symndx - sh_info) with
        | None => Fail Foob
        | Some h =>
            let! (e, sec, relocation, ev) :=
              global_symbol info (flag_debugging input) hashes h (r_offset rel) in
            Ret (Some (mk_target relocation sec (h_string e) rel ev))
        end
    end.

(** [RELOC_AGAINST_DISCARDED_SECTION] with a count of 1. *)
Definition discard (st : lstate) (rel : Elf_Internal_Rela) : res lstate :=
  match howto_at (ELF32_R_TYPE (r_info rel)) with
  | None => Fail Foob
  | Some howto =>
      let! c := _bfd_clear_contents howto (ls input) (contents st) (r_offset rel) in
      let st := set_contents st c in
      if relocatable info && flag_debugging input && (sh_entsize <? out_hdr_size st) then
        Ret (mk_lstate (contents st) (passed st) (u64 (out_hdr_size st - sh_entsize))
               (u64 (in_hdr_size st - sh_entsize)) (events st))
      else Ret (pass st (mk_rela (r_offset rel) 0 0))
  end.

(** The [switch (r)] after a relocation that did not succeed. *)
Definition report (r : bfd_reloc_status) (t : target) (howto : option string) : list link_event :=
  let off := r_offset (tg_rel t) in
  match r with
  | bfd_reloc_ok => []
  | bfd_reloc_overflow => [ev_reloc_overflow (tg_name t) howto off]
  | bfd_reloc_undefined => [ev_undefined_symbol (tg_name t) off true]
  | bfd_reloc_outofrange =>
      [ev_warning "internal error: relocation out of range" (tg_name t) off]
  | bfd_reloc_notsupported =>
      [ev_warning "internal error: unsupported relocation" (tg_name t) off]
  | bfd_reloc_dangerous =>
      [ev_warning "internal error: dangerous relocation" (tg_name t) off]
  | _ => [ev_warning "internal error: who knows what the hell happened, I don't" (tg_name t) off]
  end.

Definition TRUE : Z := 1.
Definition FALSE : Z := 0.

(** The value of an enumerator as the [bfd_boolean] returned. *)
Definition status_code (r : bfd_reloc_status) : Z :=
  match r with
  | bfd_reloc_ok => 0 | bfd_reloc_overflow => 1 | bfd_reloc_outofrange => 2
  | bfd_reloc_continue => 3 | bfd_reloc_notsupported => 4 | bfd_reloc_other => 5
  | bfd_reloc_undefined => 6 | bfd_reloc_dangerous => 7
  end.

(** One iteration: the new state, and the value returned if it returns. *)
Definition relocate_step (st : lstate) (rel : Elf_Internal_Rela) : res (lstate * option Z) :=
  let! t := find_target rel in
  match t with
  | None => Ret (st, Some FALSE)
  | Some t =>
      let st := match tg_event t with Some e => emit st e | None => st end in
      let rel := tg_rel t in
      if match tg_sec t with Some s => discarded_section s | None => false end then
        let! st := discard st rel in Ret (st, None)
      else if relocatable info then Ret (pass st rel, None)
      else
        let! r := relocate_one input_bfd (ls input) (contents st) rel (tg_value t) in
        match r with
        | None => Ret (st, Some (status_code bfd_reloc_notsupported))
        | Some (r, c) =>
            let howto := howto_at (ELF32_R_TYPE (r_info rel)) ≫= name in
            let st := fold_left emit (report r t howto) (set_contents st c) in
            Ret (pass st rel, None)
        end
  end.

Fixpoint relocate_loop (st : lstate) (relocs : list Elf_Internal_Rela) : res (lstate * Z) :=
  match relocs with
  | [] => Ret (st, TRUE)
  | rel :: relocs' =>
      let! (st, ret) := relocate_step st rel in
      match ret with
      | Some v => Ret (st, v)
      | None => relocate_loop st relocs'
      end
  end.

(** The section's contents and relocations, the headers' sizes; the state left
    and the [bfd_boolean] returned. *)
Definition fusion_elf_relocate_section (c : list Z) (out_size in_size : Z)
    (relocs : list Elf_Internal_Rela) : res (lstate * Z) :=
  relocate_loop (mk_lstate c [] out_size in_size []) relocs.

(** ** Marking *)

(** [None] for a NULL section. *)
Definition _bfd_elf_gc_mark_hook (section_from_elf_index : nat -> option lsec)
    (h : option link_hash_entry) (sym : Elf_Internal_Sym) : option lsec :=
  match h with
  | Some e =>
      match h_type e with
      | bfd_link_hash_defined _ s | bfd_link_hash_defweak _ s => s
      | bfd_link_hash_common s => Some s
      | _ => None
      end
  | None => section_from_elf_index (st_shndx sym)
  end.

Definition fusion_elf_gc_mark_hook (section_from_elf_index : nat -> option lsec)
    (h : option link_hash_entry) (sym : Elf_Internal_Sym) : option lsec :=
  _bfd_elf_gc_mark_hook section_from_elf_index h sym.

Definition mark_ref (e : link_hash_entry) : link_hash_entry :=
  mk_hash (h_string e) (h_type e) (h_visibility e) true.

Fixpoint check_relocs_loop (tbl : list nat) (hs : list link_hash_entry)
    (relocs : list Elf_Internal_Rela) : res (list link_hash_entry) :=
  match relocs with
  | [] => Ret hs
  | rel :: relocs' =>
      let r_symndx := ELF32_R_SYM (r_info rel) in
      if r_symndx <? sh_info then check_relocs_loop tbl hs relocs'
      else
        match tbl !! Z.to_nat (r_symndx - sh_info) with
        | None => Fail Foob
        | Some h =>
            let! (h, e) := resolve hs h in
            check_relocs_loop tbl (<[h := mark_ref e]> hs) relocs'
        end
  end.

Definition fusion_elf_check_relocs (tbl : list nat) (hs : list link_hash_entry)
    (relocs : list Elf_Internal_Rela) : res (list link_hash_entry * Z) :=
  if relocatable info then Ret (hs, TRUE)
  else let! hs := check_relocs_loop tbl hs relocs in Ret (hs, TRUE).

(** ** A section whose relocations are all good *)

(** The place of a target's field. *)
Definition tg_off (t : target) : Z := r_offset (tg_rel t).

(** [rel] resolves to [t]: a value, no callback, a section that is kept, and a
    type the loop applies. *)
Record good (rel : Elf_Internal_Rela) (t : target) : Prop := {
  g_find : find_target rel = Ret (Some t);
  g_event : tg_event t = None;
  g_kept : match tg_sec t with Some s => discarded_section s | None => false end = false;
  g_type : supported (ELF32_R_TYPE (r_info (tg_rel t))) = true;
  g_value : 0 <= tg_value t < 2 ^ 64
}.

(** The word a target's relocation leaves, from the word that was there. *)
Definition tg_patched (vma : Z) (t : target) (w : Z) : Z :=
  patched (ELF32_R_TYPE (r_info (tg_rel t))) (tg_value t) (r_addend (tg_rel t))
    (vma + output_offset (ls input) + tg_off t) w.

(** The two fields do not overlap. *)
Definition apart (t1 t2 : target) : Prop :=
  tg_off t1 + 4 <= tg_off t2 \/ tg_off t2 + 4 <= tg_off t1.

Lemma step_good (st : lstate) (rel : Elf_Internal_Rela) (t : target) (vma : Z) :
  relocatable info = false -> good rel t ->
  placed input_bfd (ls input) (contents st) (tg_off t) vma ->
  exists w m', bfd_get_32 (contents st) (tg_off t) = Ret w
    /\ relocate_step st rel = Ret (pass (set_contents st m') (tg_rel t), None)
    /\ bfd_get_32 m' (tg_off t) = Ret (tg_patched vma t w)
    /\ same_outside (contents st) m' (tg_off t) 4 /\ bytes_ok m'.
Proof.
  intros Hr [Hf He Hk Ht Hv] Hpl.
  destruct (relocate_supported input_bfd (ls input) (contents st) vma (tg_rel t) Hpl
              (tg_value t) Hv _ eq_refl Ht) as (w & m' & Hw & E & Hg & Hs & Hb).
  exists w, m'. split_and!; try done. unfold relocate_step. rewrite Hf. cbn [rbind].
  rewrite He, Hk, Hr, E. done.
Qed.

Lemma loop_good (st : lstate) (rels : list Elf_Internal_Rela) (ts : list target) (vma : Z) :
  relocatable info = false -> Forall2 good rels ts ->
  Forall (fun t => placed input_bfd (ls input) (contents st) (tg_off t) vma) ts ->
  exists m',
    (forall rest, relocate_loop st (rels ++ rest)
     = relocate_loop (mk_lstate m' (passed st ++ (tg_rel <$> ts)) (out_hdr_size st) (in_hdr_size st)
                        (events st)) rest)
    /\ length m' = length (contents st)
    /\ (forall j, Forall (fun t => ~ (tg_off t <= j < tg_off t + 4)) ts -> rd m' j = rd (contents st) j)
    /\ (ForallOrdPairs apart ts ->
        Forall (fun t => exists w, bfd_get_32 (contents st) (tg_off t) = Ret w
                  /\ bfd_get_32 m' (tg_off t) = Ret (tg_patched vma t w)) ts).
Proof.
  intros Hr HF. revert st. induction HF as [|rel t rels ts Hg HF IH]; intros st Hpl.
  { exists (contents st). cbn. rewrite app_nil_r. destruct st. repeat split; constructor. }
  apply Forall_cons in Hpl as [Hp Hpl].
  destruct (step_good st rel t vma Hr Hg Hp) as (w & m1 & Hw & E & Hg1 & Hs1 & Hb1).
  destruct (IH (pass (set_contents st m1) (tg_rel t))) as (m' & E' & Hlen & Hout & Hin).
  { eapply Forall_impl; [exact Hpl|]. intros t' Ht'. exact (placed_after _ _ _ _ _ _ _ Ht' Hs1 Hb1). }
  cbn in *. exists m'. split_and!.
  - intros rest. rewrite E. cbn [rbind]. by rewrite E', <- app_assoc.
  - rewrite Hlen. by destruct Hs1.
  - intros j [Hj Hjs]%Forall_cons. rewrite Hout by done. by apply Hs1.
  - intros Hap. inversion_clear Hap as [|? ? Ha Hap']. apply Forall_cons. split.
    + exists w. split; [done|]. rewrite <- Hg1. unfold bfd_get_32, bfd_getb32.
      assert (Hsame : forall j, tg_off t <= j < tg_off t + 4 -> rd m' j = rd m1 j).
      { intros j Hj. apply Hout. eapply Forall_impl; [apply List.Forall_forall; intros x Hx;
          eapply (proj1 (List.Forall_forall _ _) Ha x Hx)|]. unfold apart. cbn. lia. }
      by rewrite !Hsame by lia.
    + specialize (Hin Hap'). rewrite List.Forall_forall in *. intros t' Ht'.
      destruct (Hin t' Ht') as (w' & Hw' & Hg'). exists w'. split; [|done].
      rewrite <- Hw'. symmetry. eapply get_32_outside; [exact Hs1|].
      specialize (Ha t' Ht'). unfold apart in Ha. lia.
Qed.

(** C6.  A final link applies every relocation of a section: when each one
    resolves, is of a supported type and lies in the section, the loop returns
    TRUE without any callback, keeps the relocations, changes no byte outside the
    relocated fields, and (the fields not overlapping) leaves in each field the
    word its relocation prescribes for the word that was there at the start. *)
Theorem relocate_section_complete (c : list Z) (out_size in_size vma : Z)
    (rels : list Elf_Internal_Rela) (ts : list target) :
  relocatable info = false -> Forall2 good rels ts ->
  Forall (fun t => placed input_bfd (ls input) c (tg_off t) vma) ts ->
  exists m',
    fusion_elf_relocate_section c out_size in_size rels
    = Ret (mk_lstate m' (tg_rel <$> ts) out_size in_size [], TRUE)
    /\ length m' = length c
    /\ (forall j, Forall (fun t => ~ (tg_off t <= j < tg_off t + 4)) ts -> rd m' j = rd c j)
    /\ (ForallOrdPairs apart ts ->
        Forall (fun t => exists w, bfd_get_32 c (tg_off t) = Ret w
                  /\ bfd_get_32 m' (tg_off t) = Ret (tg_patched vma t w)) ts).
Proof.
  intros Hr Hg Hp.
  destruct (loop_good (mk_lstate c [] out_size in_size []) rels ts vma Hr Hg Hp) as (m' & E & H).
  specialize (E []). rewrite app_nil_r in E. exists m'. split; [exact E|exact H].
Qed.

(** A relocation of an unsupported type (R_FUSION_RELATIVE, or a number past
    the table) ends the loop: the function returns [bfd_reloc_notsupported],
    which a caller testing a [bfd_boolean] takes for success, no callback is
    made, and the relocations after it are never applied. *)
Theorem relocate_section_unsupported (c : list Z) (out_size in_size vma : Z)
    (rels rest : list Elf_Internal_Rela) (ts : list target) (bad : Elf_Internal_Rela) (t : target) :
  relocatable info = false -> Forall2 good rels ts ->
  Forall (fun t => placed input_bfd (ls input) c (tg_off t) vma) ts ->
  find_target bad = Ret (Some t) -> tg_event t = None ->
  match tg_sec t with Some s => discarded_section s | None => false end = false ->
  supported (ELF32_R_TYPE (r_info (tg_rel t))) = false ->
  exists m' ret,
    fusion_elf_relocate_section c out_size in_size (rels ++ bad :: rest)
    = Ret (mk_lstate m' (tg_rel <$> ts) out_size in_size [], ret)
    /\ ret <> FALSE
    /\ fusion_elf_relocate_section c out_size in_size rels
       = Ret (mk_lstate m' (tg_rel <$> ts) out_size in_size [], TRUE).
Proof.
  intros Hr Hg Hp Hf He Hk Hs.
  destruct (loop_good (mk_lstate c [] out_size in_size []) rels ts vma Hr Hg Hp) as (m' & E & _).
  exists m', (status_code bfd_reloc_notsupported). split_and!; [|done|].
  - unfold fusion_elf_relocate_section. rewrite E. cbn [relocate_loop]. unfold relocate_step.
    rewrite Hf. cbn [rbind]. rewrite He, Hk, Hr. unfold relocate_one. rewrite Hs. done.
  - specialize (E []). rewrite app_nil_r in E. exact E.
Qed.

End link.

Section marks.
  Context (info : bfd_link_info) (sh_info : Z).

(** ** Links between symbols *)

(** No chain of indirect and warning symbols comes back on itself, and every
    link leads to an entry. *)
Definition links_ok (hs : list link_hash_entry) (rank : nat -> nat) : Prop :=
  forall h e l, hs !! h = Some e ->
    h_type e = bfd_link_hash_indirect l \/ h_type e = bfd_link_hash_warning l ->
    (l < length hs)%nat /\ (rank l < rank h)%nat.

Definition is_link (e : link_hash_entry) : Prop :=
  exists l, h_type e = bfd_link_hash_indirect l \/ h_type e = bfd_link_hash_warning l.

Lemma follow_ok (hs : list link_hash_entry) (rank : nat -> nat) (fuel h : nat) (seen : list nat) :
  links_ok hs rank -> (h < length hs)%nat -> NoDup seen ->
  Forall (fun x => (x < length hs)%nat /\ (rank h < rank x)%nat) seen ->
  (length hs < fuel + length seen)%nat ->
  exists h' e, follow fuel hs h = Ret (h', e) /\ hs !! h' = Some e /\ ~ is_link e.
Proof.
  intros Hok. revert h seen. induction fuel as [|fuel IH]; intros h seen Hh Hnd Hseen Hfuel.
  { exfalso. assert (length seen <= length (seq 0 (length hs)))%nat as Hle;
      [|rewrite length_seq in Hle; lia].
    apply NoDup_incl_length.
    - by apply NoDup_ListNoDup.
    - intros x Hx%list_elem_of_In. apply in_seq. rewrite Forall_forall in Hseen.
      destruct (Hseen x Hx). lia. }
  cbn [follow]. destruct (lookup_lt_is_Some_2 hs h Hh) as [e He]. rewrite He.
  assert (Hnext : forall l, h_type e = bfd_link_hash_indirect l \/ h_type e = bfd_link_hash_warning l ->
    exists h' e, follow fuel hs l = Ret (h', e) /\ hs !! h' = Some e /\ ~ is_link e).
  { intros l Hl. destruct (Hok h e l He Hl) as [Hlen Hrk]. apply (IH l (h :: seen)); [done|..].
    - apply NoDup_cons. split; [|done]. rewrite Forall_forall in Hseen. intros Hin.
      destruct (Hseen h Hin). lia.
    - apply Forall_cons. split; [lia|]. eapply Forall_impl; [exact Hseen|]. cbn. lia.
    - cbn. lia. }
  destruct (h_type e) eqn:Et; try (apply Hnext; auto); exists h, e; (split_and!; [done|done|]);
    intros (l & [Hl|Hl]); congruence.
Qed.

Lemma resolve_ok (hs : list link_hash_entry) (rank : nat -> nat) (h : nat) :
  links_ok hs rank -> (h < length hs)%nat ->
  exists h' e, resolve hs h = Ret (h', e) /\ hs !! h' = Some e /\ ~ is_link e.
Proof.
  intros Hok Hh. apply (follow_ok hs rank _ h []); auto; [constructor|cbn; lia].
Qed.

(** Resolution of a global symbol terminates: when the links between hash
    entries are acyclic and lead to entries, the loop that follows them ends, at
    an entry that is neither indirect nor a warning, within as many steps as
    there are entries. *)
Theorem resolve_terminates (hs : list link_hash_entry) (rank : nat -> nat) (h : nat) :
  links_ok hs rank -> (h < length hs)%nat ->
  exists h' e, resolve hs h = Ret (h', e) /\ hs !! h' = Some e /\ ~ is_link e.
Proof. apply resolve_ok. Qed.

(** Marking keeps the links. *)
Lemma links_ok_mark (hs : list link_hash_entry) (rank : nat -> nat) (h : nat) (e : link_hash_entry) :
  links_ok hs rank -> hs !! h = Some e -> links_ok (<[h := mark_ref e]> hs) rank.
Proof.
  intros Hok He h0 e0 l Hh0 Hl. rewrite length_insert.
  destruct (decide (h = h0)) as [<-|Hne].
  - rewrite list_lookup_insert_eq in Hh0 by (by eapply lookup_lt_Some). injection Hh0 as <-.
    by apply (Hok h e l).
  - rewrite list_lookup_insert_ne in Hh0 by done. by apply (Hok h0 e0 l).
Qed.

(** The entry a relocation's symbol resolves to. *)
Definition refers (tbl : list nat) (hs : list link_hash_entry) (rel : Elf_Internal_Rela) (h : nat) : Prop :=
  sh_info <= ELF32_R_SYM (r_info rel)
  /\ exists h0 e, tbl !! Z.to_nat (ELF32_R_SYM (r_info rel) - sh_info) = Some h0
     /\ resolve hs h0 = Ret (h, e).

(** Two stores that differ only in the reference marks. *)
Definition same_links (hs hs' : list link_hash_entry) : Prop :=
  h_type <$> hs = h_type <$> hs'.

Lemma same_links_lookup (hs hs' : list link_hash_entry) (h : nat) (e : link_hash_entry) :
  same_links hs hs' -> hs !! h = Some e -> exists e', hs' !! h = Some e' /\ h_type e' = h_type e.
Proof.
  intros Hs He. assert (Hl : (h_type <$> hs) !! h = (h_type <$> hs') !! h) by (by rewrite Hs).
  rewrite !list_lookup_fmap, He in Hl. cbn in Hl. destruct (hs' !! h) as [e'|]; [|done].
  cbn in Hl. injection Hl as ->. eauto.
Qed.

Lemma same_links_length (hs hs' : list link_hash_entry) : same_links hs hs' -> length hs = length hs'.
Proof. intros Hs. by rewrite <- (length_fmap h_type hs), Hs, length_fmap. Qed.

Lemma follow_same (hs hs' : list link_hash_entry) (fuel h h' : nat) (e : link_hash_entry) :
  same_links hs hs' -> follow fuel hs h = Ret (h', e) ->
  exists e', follow fuel hs' h = Ret (h', e') /\ h_type e' = h_type e.
Proof.
  intros Hs. revert h. induction fuel as [|fuel IH]; intros h; cbn; [done|].
  destruct (hs !! h) as [e0|] eqn:E0; [|done].
  destruct (same_links_lookup _ _ _ _ Hs E0) as (e1 & -> & Ht). rewrite Ht.
  destruct (h_type e0) eqn:Et; intros H; try (by apply IH);
    injection H as <- <-; exists e1; split; congruence.
Qed.

Lemma resolve_same (hs hs' : list link_hash_entry) (h h' : nat) (e : link_hash_entry) :
  same_links hs hs' -> resolve hs h = Ret (h', e) ->
  exists e', resolve hs' h = Ret (h', e') /\ h_type e' = h_type e.
Proof.
  intros Hs. unfold resolve. rewrite (same_links_length _ _ Hs). by apply follow_same.
Qed.

Lemma same_links_sym (hs hs' : list link_hash_entry) : same_links hs hs' -> same_links hs' hs.
Proof. intros H. symmetry. exact H. Qed.

Lemma refers_same (tbl : list nat) (hs hs' : list link_hash_entry) (rel : Elf_Internal_Rela) (h : nat) :
  same_links hs hs' -> refers tbl hs rel h -> refers tbl hs' rel h.
Proof.
  intros Hs (Hi & h0 & e & Ht & Hr). destruct (resolve_same hs hs' h0 h e Hs Hr) as (e' & Hr' & _).
  split; eauto.
Qed.

Lemma mark_same_links (hs : list link_hash_entry) (h : nat) (e : link_hash_entry) :
  hs !! h = Some e -> same_links hs (<[h := mark_ref e]> hs).
Proof.
  intros He. unfold same_links. rewrite list_fmap_insert. symmetry. apply list_insert_id.
  by rewrite list_lookup_fmap, He.
Qed.

(** Whether the entry is marked as referenced from a regular object. *)
Definition marked (hs : list link_hash_entry) (h : nat) : Prop :=
  exists e, hs !! h = Some e /\ non_ir_ref_regular e = true.

Lemma check_relocs_loop_spec (tbl : list nat) (rank : nat -> nat)
    (rels : list Elf_Internal_Rela) (hs : list link_hash_entry) :
  links_ok hs rank -> Forall (fun h => (h < length hs)%nat) tbl ->
  Forall (fun r => ELF32_R_SYM (r_info r) - sh_info < Z.of_nat (length tbl)) rels ->
  exists hs', check_relocs_loop sh_info tbl hs rels = Ret hs' /\ same_links hs hs'
    /\ forall h, marked hs' h <-> marked hs h \/ Exists (fun r => refers tbl hs r h) rels.
Proof.
  revert hs. induction rels as [|r rels IH]; intros hs Hok Htbl Hr; cbn [check_relocs_loop].
  { exists hs. split_and!; [done|done|]. intros h. rewrite Exists_nil. tauto. }
  apply Forall_cons in Hr as [Hr Hrs].
  destruct (Z.ltb_spec (ELF32_R_SYM (r_info r)) sh_info) as [Hlt|Hge].
  { destruct (IH hs Hok Htbl Hrs) as (hs' & E & Hs & Hm). exists hs'. split_and!; [done|done|].
    intros h. rewrite Hm, Exists_cons. unfold refers at 2. intuition lia. }
  destruct (lookup_lt_is_Some_2 tbl (Z.to_nat (ELF32_R_SYM (r_info r) - sh_info))) as [h0 Hh0]; [lia|].
  rewrite Hh0. rewrite Forall_forall in Htbl.
  destruct (resolve_ok hs rank h0 Hok) as (h1 & e1 & E1 & He1 & _).
  { apply Htbl. by eapply list_elem_of_lookup_2. }
  rewrite E1. cbn [rbind].
  pose proof (mark_same_links hs h1 e1 He1) as Hs1.
  destruct (IH (<[h1 := mark_ref e1]> hs)) as (hs' & E & Hs & Hm); [by apply links_ok_mark| |done|].
  { apply Forall_forall. rewrite length_insert. exact Htbl. }
  exists hs'. split_and!; [done|by etransitivity|]. intros h. rewrite Hm, Exists_cons.
  assert (Hmk : marked (<[h1 := mark_ref e1]> hs) h <-> marked hs h \/ h = h1).
  { unfold marked. destruct (decide (h = h1)) as [->|Hne].
    - rewrite list_lookup_insert_eq by (by eapply lookup_lt_Some). split; [tauto|]. intros _.
      eexists. split; [done|done].
    - rewrite list_lookup_insert_ne by done. tauto. }
  assert (Hre : refers tbl hs r h <-> h = h1).
  { unfold refers. rewrite Hh0. split.
    - intros (_ & h2 & e2 & [= <-] & Hr2). congruence.
    - intros ->. split; [lia|]. eauto. }
  rewrite Hmk, Hre, !Exists_exists. split.
  - intros [[?|?]|(x & Hx & Hrx)]; [tauto|tauto|]. right. right. exists x. split; [done|].
    eapply refers_same; [|exact Hrx]. by apply same_links_sym.
  - intros [?|[?|(x & Hx & Hrx)]]; [tauto|tauto|]. right. exists x. split; [done|].
    by eapply refers_same.
Qed.

(** [fusion_elf_check_relocs] marks exactly the global symbols the section's
    relocations resolve to, through any chain of links, changes nothing else
    about the symbols' links, and returns TRUE. *)
Theorem check_relocs_marks (tbl : list nat) (rank : nat -> nat) (rels : list Elf_Internal_Rela)
    (hs : list link_hash_entry) :
  relocatable info = false -> links_ok hs rank -> Forall (fun h => (h < length hs)%nat) tbl ->
  Forall (fun r => ELF32_R_SYM (r_info r) - sh_info < Z.of_nat (length tbl)) rels ->
  exists hs', fusion_elf_check_relocs info sh_info tbl hs rels = Ret (hs', TRUE) /\ same_links hs hs'
    /\ forall h, marked hs' h <-> marked hs h \/ Exists (fun r => refers tbl hs r h) rels.
Proof.
  intros Hr Hok Htbl Hrels. destruct (check_relocs_loop_spec tbl rank rels hs Hok Htbl Hrels)
    as (hs' & E & H). exists hs'. unfold fusion_elf_check_relocs. rewrite Hr, E. done.
Qed.
End marks.

(** ** Witnesses *)

(** A [.text] with a branch at 0, an LI at 4 and a word at 8; local symbol 1 is
    its section symbol, global symbol 2 is a warning about an indirect symbol
    for [f], defined at 0x20 of the section. *)
Definition w_sec : lsec :=
  mk_lsec (mk_section ".text" sec_normal 12 0 0x10 (Some 0x1000)) false false false false false false.
Definition w_syms : list Elf_Internal_Sym := [mk_sym None 0 0 0; mk_sym None 0 3 1].
Definition w_hashes : list link_hash_entry :=
  [mk_hash "f_w" (bfd_link_hash_warning 1) 0 false;
   mk_hash "f_i" (bfd_link_hash_indirect 2) 0 false;
   mk_hash "f" (bfd_link_hash_defined 0x20 (Some w_sec)) 0 false].
Definition w_info : bfd_link_info := mk_info false RM_GENERATE_ERROR false.
Definition w_text : list Z := [0x34; 0; 0; 0; 0x40; 0x20; 0; 0; 0; 0; 0; 0].
Definition w_rels : list Elf_Internal_Rela :=
  [mk_rela 0 (ELF32_R_INFO 2 R_FUSION_BRANCH) 0; mk_rela 4 (ELF32_R_INFO 1 R_FUSION_LI) 8].
Definition w_targets : list target :=
  [mk_target 0x1030 (Some w_sec) "f" (mk_rela 0 (ELF32_R_INFO 2 R_FUSION_BRANCH) 0) None;
   mk_target 0x1010 (Some w_sec) ".text" (mk_rela 4 (ELF32_R_INFO 1 R_FUSION_LI) 8) None].

(** merge.c is not reached: the section is not a merged one. *)
Definition w_merge (s : lsec) (off : Z) : lsec * Z := (s, off).

Lemma w_good :
  Forall2 (good w_merge id w_info w_sec 2 w_syms [w_sec; w_sec] (Some [0%nat]) w_hashes) w_rels w_targets.
Proof. repeat constructor; vm_compute; congruence. Qed.

Lemma w_placed : Forall (fun t => placed demo_bfd (ls w_sec) w_text (tg_off t) 0x1000) w_targets.
Proof. repeat constructor; cbn; lia. Qed.

Lemma relocate_section_complete_witness :
  exists m', fusion_elf_relocate_section w_merge id demo_bfd w_info w_sec 2 12 w_syms [w_sec; w_sec]
               (Some [0%nat]) w_hashes w_text 24 24 w_rels
             = Ret (mk_lstate m' w_rels 24 24 [], TRUE)
    /\ length m' = 12%nat.
Proof.
  destruct (relocate_section_complete w_merge id demo_bfd w_info w_sec 2 12 w_syms [w_sec; w_sec]
              (Some [0%nat]) w_hashes w_text 24 24 0x1000 w_rels w_targets
              eq_refl w_good w_placed) as (m' & H1 & H2 & _).
  exists m'. split; [exact H1|exact H2].
Defined.

Lemma relocate_section_unsupported_witness :
  exists m' ret,
    fusion_elf_relocate_section w_merge id demo_bfd w_info w_sec 2 12 w_syms [w_sec; w_sec]
      (Some [0%nat]) w_hashes w_text 24 24
      (w_rels ++ mk_rela 8 (ELF32_R_INFO 2 R_FUSION_RELATIVE) 0
         :: [mk_rela 8 (ELF32_R_INFO 2 R_FUSION_32) 0])
    = Ret (mk_lstate m' w_rels 24 24 [], ret) /\ ret <> FALSE.
Proof.
  destruct (relocate_section_unsupported w_merge id demo_bfd w_info w_sec 2 12 w_syms [w_sec; w_sec]
              (Some [0%nat]) w_hashes w_text 24 24 0x1000 w_rels
              [mk_rela 8 (ELF32_R_INFO 2 R_FUSION_32) 0] w_targets
              (mk_rela 8 (ELF32_R_INFO 2 R_FUSION_RELATIVE) 0)
              (mk_target 0x1030 (Some w_sec) "f" (mk_rela 8 (ELF32_R_INFO 2 R_FUSION_RELATIVE) 0) None)
              eq_refl w_good w_placed eq_refl eq_refl eq_refl eq_refl) as (m' & ret & H1 & H2 & _).
  exists m', ret. split; [exact H1|exact H2].
Defined.

Lemma w_links : links_ok w_hashes (fun h => (2 - h)%nat).
Proof.
  intros h e l Hh Hl. destruct h as [|[|[|h]]]; cbn in Hh; simplify_eq; cbn in Hl;
    destruct Hl as [Hl|Hl]; simplify_eq; cbn; lia.
Qed.

Lemma resolve_terminates_witness :
  exists h' e, resolve w_hashes 0 = Ret (h', e) /\ ~ is_link e.
Proof.
  destruct (resolve_terminates w_hashes (fun h => (2 - h)%nat) 0 w_links) as (h' & e & H1 & _ & H2);
    [cbn; lia|].
  exists h', e. split; [exact H1|exact H2].
Defined.

Lemma check_relocs_marks_witness :
  exists hs', fusion_elf_check_relocs w_info 2 [0%nat] w_hashes w_rels = Ret (hs', TRUE)
    /\ same_links w_hashes hs'.
Proof.
  destruct (check_relocs_marks w_info 2 [0%nat] (fun h => (2 - h)%nat) w_rels w_hashes)
    as (hs' & H1 & H2 & _).
  - reflexivity.
  - exact w_links.
  - repeat constructor.
  - repeat constructor.
  - exists hs'. split; [exact H1|exact H2].
Defined.
