(* ===== verification/ElfGc.v ===== *)
(** * Garbage collection of sections: bfd/elflink.c, elf-eh-frame.c, section.c

    [bfd_elf_gc_sections] (ld --gc-sections) with everything it calls: the sections to
    keep, marking, the sections of debugging information, sweeping.  Fusion-Core turns it
    on ([elf_backend_can_gc_sections]) with the default hooks; it has no sweep hook, and
    no relocation of it records a vtable, so the two traversals for vtables change nothing.

    Sections, input files, global symbols and the entries of .eh_frame sections lie in
    heaps and are named by their index; the files are in link order.  [gc_mark] and
    [mark] are sets of indices.  What the passes before left is data: the relocations and
    local symbols that can be read, the FDEs and the eh_frame_section that
    _bfd_elf_parse_eh_frame found. *)
From S2P Require Import Prelude FusionReloc.
#[local] Open Scope Z_scope.

Definition SEC_ALLOC : Z := 0x001.
Definition SEC_LOAD : Z := 0x002.
Definition SEC_RELOC : Z := 0x004.
Definition SEC_CODE : Z := 0x010.
Definition SEC_DEBUGGING : Z := 0x2000.
Definition SEC_EXCLUDE : Z := 0x8000.
Definition SEC_LINKER_CREATED : Z := 0x100000.
Definition SEC_KEEP : Z := 0x200000.
Definition SEC_GROUP : Z := 0x2000000.
Definition SHT_NOTE : Z := 7.
Definition STN_UNDEF : Z := 0.
Definition STB_LOCAL : Z := 0.
Definition STV_INTERNAL : Z := 1.
Definition STV_HIDDEN : Z := 2.
Definition ELF_ST_BIND (val : Z) : Z := Z.shiftr (u32 val) 4.
Definition ELF_ST_VISIBILITY (v : Z) : Z := Z.land v 0x3.

(** ** The data *)

(** The owner of a section; the standard sections have none. *)
Inductive owner : Type :=
| bfd_abs_section | bfd_und_section | bfd_com_section | bfd_ind_section
| of_bfd (b : nat).

(** [chain]: the sections after it in the chain of its hash entry.  [relocs]: what
    [_bfd_elf_link_read_relocs] returns. *)
Record asection : Type := mk_section {
  s_name : string;
  s_owner : owner;
  s_flags : Z;
  s_size : Z;
  chain : list nat;
  just_syms : bool;
  reloc_count : nat;
  relocs : option (list Elf_Internal_Rela);
  sh_type : Z;
  next_in_group : option nat;
  fde_list : list nat;
  eh_frame_entry : option nat
}.

Record local_sym : Type := mk_local_sym { st_info : Z; st_shndx : nat }.

(** [symtab]: the local symbols in memory or read from the file.  [elfsections]: the
    sections of the headers. *)
Record ibfd : Type := mk_bfd {
  elf_flavour : bool;
  dynamic_object : bool;
  relocs_compatible : bool;
  sections : list nat;
  section_named : string -> option nat;
  bad_symtab : bool;
  symtab_sh_size : Z;
  symtab_sh_info : Z;
  symtab : option (list local_sym);
  sym_hashes : list (option nat);
  elfsections : list (option nat);
  eh_frame_section : option nat
}.

Inductive link_hash_type : Type :=
| bfd_link_hash_new
| bfd_link_hash_undefined
| bfd_link_hash_undefweak
| bfd_link_hash_defined (section : nat)
| bfd_link_hash_defweak (section : nat)
| bfd_link_hash_common (section : nat)
| bfd_link_hash_indirect (link : nat)
| bfd_link_hash_warning (link : nat).

Record link_hash_entry : Type := mk_hash {
  h_string : string;
  h_type : link_hash_type;
  weakdef : option nat;
  start_stop_section : option nat;
  ref_dynamic : bool;
  def_regular : bool;
  def_dynamic : bool;
  h_dynamic : bool;
  h_other : Z;
  h_versioned : bool
}.

Record eh_cie_fde : Type := mk_eh {
  cie_inf : option nat;
  reloc_index : nat;
  eh_size : Z;
  eh_offset : Z
}.

Record marks : Type := mk_marks {
  gc_mark : gset nat;
  h_mark : gset nat;
  cie_mark : gset nat
}.

Definition mark_sec (i : nat) (m : marks) : marks := mk_marks ({[i]} ∪ gc_mark m) (h_mark m) (cie_mark m).
Definition mark_sym (h : nat) (m : marks) : marks := mk_marks (gc_mark m) ({[h]} ∪ h_mark m) (cie_mark m).
Definition mark_cie (k : nat) (m : marks) : marks := mk_marks (gc_mark m) (h_mark m) ({[k]} ∪ cie_mark m).
Definition clear_sec (i : nat) (m : marks) : marks := mk_marks (gc_mark m ∖ {[i]}) (h_mark m) (cie_mark m).

Definition at_index {A : Type} (l : list A) (i : nat) : res A :=
  match l !! i with Some a => Ret a | None => Fail Foob end.

Definition has (f mask : Z) : bool := negb (Z.land f mask =? 0).

(** ** Marking *)
Section mark.
Context (bfds : list ibfd) (secs : list asection) (hashes : list link_hash_entry) (ents : list eh_cie_fde).

(** The file of a section; a standard one has a null pointer. *)
Definition file_of (s : asection) : res ibfd :=
  match s_owner s with of_bfd b => at_index bfds b | _ => Fail Foob end.

(** *** Sections of one name *)
Definition bfd_get_section_by_name (b : ibfd) (name : string) : option nat := section_named b name.

Fixpoint section_in_files (fs : list ibfd) (name : string) : option nat :=
  match fs with
  | [] => None
  | b :: fs => match bfd_get_section_by_name b name with Some s => Some s | None => section_in_files fs name end
  end.

Fixpoint same_name (l : list nat) (name : string) : res (option nat) :=
  match l with
  | [] => Ret None
  | i :: l => let! s := at_index secs i in if String.eqb (s_name s) name then Ret (Some i) else same_name l name
  end.

(** [after]: the files after [ibfd], none for a null [ibfd]. *)
Definition bfd_get_next_section_by_name (after : list ibfd) (sec : nat) : res (option nat) :=
  let! s := at_index secs sec in
  let! r := same_name (chain s) (s_name s) in
  match r with Some i => Ret (Some i) | None => Ret (section_in_files after (s_name s)) end.

(** *** The section a relocation refers to *)
Definition bfd_section_from_elf_index (b : ibfd) (i : nat) : option nat :=
  match elfsections b !! i with Some s => s | None => None end.

Definition mark_hook : Type :=
  nat -> Elf_Internal_Rela -> option link_hash_entry -> option local_sym -> res (option nat).

Definition _bfd_elf_gc_mark_hook : mark_hook := fun sec rel h sym =>
  match h with
  | Some e =>
      match h_type e with
      | bfd_link_hash_defined s | bfd_link_hash_defweak s => Ret (Some s)
      | bfd_link_hash_common s => Ret (Some s)
      | _ => Ret None
      end
  | None =>
      let! s := at_index secs sec in
      let! b := file_of s in
      match sym with Some y => Ret (bfd_section_from_elf_index b (st_shndx y)) | None => Fail Foob end
  end.

Definition fusion_elf_gc_mark_hook : mark_hook := fun sec rel h sym => _bfd_elf_gc_mark_hook sec rel h sym.

Definition elf_gc_mark_debug_section : mark_hook := fun _ _ h _ =>
  match h with
  | Some e =>
      match h_type e with
      | bfd_link_hash_defined i | bfd_link_hash_defweak i =>
          let! s := at_index secs i in
          Ret (if has (s_flags s) SEC_DEBUGGING then Some i else None)
      | _ => Ret None
      end
  | None => Ret None
  end.

(** *** Cookies *)
Record elf_reloc_cookie : Type := mk_cookie {
  rels : list Elf_Internal_Rela;
  locsyms : list local_sym;
  c_sym_hashes : list (option nat);
  locsymcount : Z;
  extsymoff : Z;
  r_sym_shift : Z
}.

(** [sizeof_sym] is 16, [arch_size] 32; the relocations are filled in below. *)
Definition init_reloc_cookie (b : ibfd) : option elf_reloc_cookie :=
  let count := if bad_symtab b then symtab_sh_size b / 16 else symtab_sh_info b in
  let off := if bad_symtab b then 0 else symtab_sh_info b in
  match symtab b with
  | Some l => Some (mk_cookie [] l (sym_hashes b) count off 8)
  | None => if count =? 0 then Some (mk_cookie [] [] (sym_hashes b) count off 8) else None
  end.

Definition init_reloc_cookie_rels (c : elf_reloc_cookie) (s : asection) : option elf_reloc_cookie :=
  let set l := mk_cookie l (locsyms c) (c_sym_hashes c) (locsymcount c) (extsymoff c) (r_sym_shift c) in
  if (reloc_count s =? 0)%nat then Some (set [])
  else match relocs s with Some l => Some (set (take (reloc_count s) l)) | None => None end.

Definition init_reloc_cookie_for_section (sec : nat) : res (option elf_reloc_cookie) :=
  let! s := at_index secs sec in
  let! b := file_of s in
  match init_reloc_cookie b with
  | Some c => Ret (init_reloc_cookie_rels c s)
  | None => Ret None
  end.

(** *** Symbols *)

(** [while (h->root.type == indirect || warning)]. *)
Fixpoint real_symbol (fuel : nat) (h : nat) : res (nat * link_hash_entry) :=
  match fuel with
  | O => Fail Floop
  | S n =>
      let! e := at_index hashes h in
      match h_type e with
      | bfd_link_hash_indirect l | bfd_link_hash_warning l => real_symbol n l
      | _ => Ret (h, e)
      end
  end.

(** The section and whether [*start_stop] is set ([start_stop] is not null). *)
Definition _bfd_elf_gc_mark_rsec (hook : mark_hook) (sec : nat) (c : elf_reloc_cookie) (rel : Elf_Internal_Rela)
    (m : marks) : res (option nat * bool * marks) :=
  let r_symndx := Z.shiftr (r_info rel) (r_sym_shift c) in
  if r_symndx =? STN_UNDEF then Ret (None, false, m)
  else
    let! local :=
      if locsymcount c <=? r_symndx then Ret None
      else let! y := at_index (locsyms c) (Z.to_nat r_symndx) in
           Ret (if ELF_ST_BIND (st_info y) =? STB_LOCAL then Some y else None) in
    match local with
    | Some y => let! o := hook sec rel None (Some y) in Ret (o, false, m)
    | None =>
        if r_symndx <? extsymoff c then Fail Foob
        else
          let! h := at_index (c_sym_hashes c) (Z.to_nat (r_symndx - extsymoff c)) in
          match h with
          | None => Fail (Ffatal "corrupt input")
          | Some h =>
              let! (h, e) := real_symbol (S (length hashes)) h in
              let m := mark_sym h m in
              let m := match weakdef e with Some d => mark_sym d m | None => m end in
              match start_stop_section e with
              | Some s => Ret (Some s, negb (bool_decide (s ∈ gc_mark m)), m)
              | None => let! o := hook sec rel (Some e) None in Ret (o, false, m)
              end
          end
    end.

(** The two functions that mark call each other; [mark] is [_bfd_elf_gc_mark]. *)
Section loops.
Context (mark : nat -> marks -> res (bool * marks)).

(** [while (rsec != NULL)]: no more turns than there are sections. *)
Fixpoint mark_sections (fuel : nat) (start_stop : bool) (rsec : option nat) (m : marks) : res (bool * marks) :=
  match rsec with
  | None => Ret (true, m)
  | Some r =>
      match fuel with
      | O => Fail Floop
      | S n =>
          let! (ok, m) :=
            if bool_decide (r ∈ gc_mark m) then Ret (true, m)
            else
              let! s := at_index secs r in
              let! b := file_of s in
              if negb (elf_flavour b) || dynamic_object b then Ret (true, mark_sec r m)
              else mark r m in
          if negb ok then Ret (false, m)
          else if negb start_stop then Ret (true, m)
          else
            let! s := at_index secs r in
            let! next := bfd_get_next_section_by_name
              (match s_owner s with of_bfd b => drop (S b) bfds | _ => [] end) r in
            mark_sections n start_stop next m
      end
  end.

Definition _bfd_elf_gc_mark_reloc (hook : mark_hook) (sec : nat) (c : elf_reloc_cookie) (rel : Elf_Internal_Rela)
    (m : marks) : res (bool * marks) :=
  let! (rsec, start_stop, m) := _bfd_elf_gc_mark_rsec hook sec c rel m in
  mark_sections (S (length secs)) start_stop rsec m.

Fixpoint mark_relocs (hook : mark_hook) (sec : nat) (c : elf_reloc_cookie) (l : list Elf_Internal_Rela)
    (m : marks) : res (bool * marks) :=
  match l with
  | [] => Ret (true, m)
  | rel :: l =>
      let! (ok, m) := _bfd_elf_gc_mark_reloc hook sec c rel m in
      if negb ok then Ret (false, m) else mark_relocs hook sec c l m
  end.

(** The relocations of an entry: from its first one to the first beyond its end. *)
Fixpoint within (e : eh_cie_fde) (l : list Elf_Internal_Rela) : list Elf_Internal_Rela :=
  match l with
  | [] => []
  | rel :: l => if r_offset rel <? u32 (eh_offset e + eh_size e) then rel :: within e l else []
  end.

Definition entry_relocs (c : elf_reloc_cookie) (e : eh_cie_fde) : list Elf_Internal_Rela :=
  within e (drop (reloc_index e) (rels c)).

Definition mark_entry (hook : mark_hook) (sec : nat) (e : eh_cie_fde) (c : elf_reloc_cookie) (m : marks)
  : res (bool * marks) := mark_relocs hook sec c (entry_relocs c e) m.

Fixpoint mark_fde_list (hook : mark_hook) (eh_frame : nat) (c : elf_reloc_cookie) (l : list nat) (m : marks)
  : res (bool * marks) :=
  match l with
  | [] => Ret (true, m)
  | k :: l =>
      let! fde := at_index ents k in
      let! (ok, m) := mark_entry hook eh_frame fde c m in
      if negb ok then Ret (false, m)
      else
        let! (ok, m) :=
          match cie_inf fde with
          | None => Ret (true, m)
          | Some k =>
              let! cie := at_index ents k in
              if bool_decide (k ∈ cie_mark m) then Ret (true, m)
              else mark_entry hook eh_frame cie c (mark_cie k m)
          end in
        if negb ok then Ret (false, m) else mark_fde_list hook eh_frame c l m
  end.

Definition _bfd_elf_gc_mark_fdes (hook : mark_hook) (s : asection) (eh_frame : nat) (c : elf_reloc_cookie)
    (m : marks) : res (bool * marks) := mark_fde_list hook eh_frame c (fde_list s) m.

(** The parts of [_bfd_elf_gc_mark]. *)
Definition mark_linked (o : option nat) (m : marks) : res (bool * marks) :=
  match o with
  | Some g => if bool_decide (g ∈ gc_mark m) then Ret (true, m) else mark g m
  | None => Ret (true, m)
  end.

Definition mark_own_relocs (hook : mark_hook) (sec : nat) (s : asection) (eh_frame : option nat) (m : marks)
  : res (bool * marks) :=
  if has (s_flags s) SEC_RELOC && (0 <? reloc_count s)%nat && negb (bool_decide (Some sec = eh_frame)) then
    let! c := init_reloc_cookie_for_section sec in
    match c with
    | None => Ret (false, m)
    | Some c => mark_relocs hook sec c (rels c) m
    end
  else Ret (true, m).

Definition mark_fdes (hook : mark_hook) (s : asection) (eh_frame : option nat) (m : marks) : res (bool * marks) :=
  match eh_frame, fde_list s with
  | Some eh, _ :: _ =>
      let! c := init_reloc_cookie_for_section eh in
      match c with
      | None => Ret (false, m)
      | Some c => _bfd_elf_gc_mark_fdes hook s eh c m
      end
  | _, _ => Ret (true, m)
  end.
End loops.

(** Only an unmarked section is entered from another one. *)
Fixpoint _bfd_elf_gc_mark (fuel : nat) (hook : mark_hook) (sec : nat) (m : marks) : res (bool * marks) :=
  match fuel with
  | O => Fail Floop
  | S n =>
      let mark := _bfd_elf_gc_mark n hook in
      let! s := at_index secs sec in
      let! b := file_of s in
      let! (ok, m) := mark_linked mark (next_in_group s) (mark_sec sec m) in
      if negb ok then Ret (false, m)
      else
        let! (ok, m) := mark_own_relocs mark hook sec s (eh_frame_section b) m in
        if negb ok then Ret (false, m)
        else
          let! (ok, m) := mark_fdes mark hook s (eh_frame_section b) m in
          if negb ok then Ret (false, m) else mark_linked mark (eh_frame_entry s) m
  end.

Definition gc_mark_section (hook : mark_hook) (sec : nat) (m : marks) : res (bool * marks) :=
  _bfd_elf_gc_mark (S (length secs)) hook sec m.

(** *** The sections to start from *)
Definition swept_file (b : ibfd) : res bool :=
  if negb (elf_flavour b) || negb (relocs_compatible b) then Ret false
  else
    match sections b with
    | [] => Ret false
    | o :: _ => let! s := at_index secs o in Ret (negb (just_syms s))
    end.

Definition is_root (s : asection) : bool :=
  negb (has (s_flags s) SEC_EXCLUDE)
  && (has (s_flags s) SEC_KEEP || ((sh_type s =? SHT_NOTE) && bool_decide (next_in_group s = None))).

Fixpoint mark_root_sections (hook : mark_hook) (l : list nat) (m : marks) : res (bool * marks) :=
  match l with
  | [] => Ret (true, m)
  | o :: l =>
      let! s := at_index secs o in
      let! (ok, m) := if negb (bool_decide (o ∈ gc_mark m)) && is_root s then gc_mark_section hook o m
                      else Ret (true, m) in
      if negb ok then Ret (false, m) else mark_root_sections hook l m
  end.

Fixpoint mark_roots (hook : mark_hook) (fs : list ibfd) (m : marks) : res (bool * marks) :=
  match fs with
  | [] => Ret (true, m)
  | sub :: fs =>
      let! swept := swept_file sub in
      let! (ok, m) := if (swept : bool) then mark_root_sections hook (sections sub) m else Ret (true, m) in
      if negb ok then Ret (false, m) else mark_roots hook fs m
  end.
End mark.

(** ** Debugging and special sections *)
Section extra.
Context (bfds : list ibfd) (secs : list asection) (hashes : list link_hash_entry) (ents : list eh_cie_fde).

Definition next_member (i : nat) : res nat :=
  let! s := at_index secs i in
  match next_in_group s with Some j => Ret j | None => Fail Foob end.

(** [do ... while (msec != ssec)], a round of the group. *)
Fixpoint scan_group (fuel : nat) (ssec msec : nat) (debug special : bool) : res (bool * bool) :=
  match fuel with
  | O => Fail Floop
  | S n =>
      let! s := at_index secs msec in
      let debug := debug && has (s_flags s) SEC_DEBUGGING in
      let special := special && negb (has (s_flags s) (Z.lor SEC_ALLOC (Z.lor SEC_LOAD SEC_RELOC))) in
      let! msec := next_member msec in
      if (msec =? ssec)%nat then Ret (debug, special) else scan_group n ssec msec debug special
  end.

Fixpoint mark_group (fuel : nat) (ssec msec : nat) (m : marks) : res marks :=
  match fuel with
  | O => Fail Floop
  | S n =>
      let m := mark_sec msec m in
      let! msec := next_member msec in
      if (msec =? ssec)%nat then Ret m else mark_group n ssec msec m
  end.

Definition _bfd_elf_gc_mark_debug_special_section_group (grp : nat) (m : marks) : res marks :=
  let! ssec := next_member grp in
  let! (debug, special) := scan_group (S (length secs)) ssec ssec true true in
  if debug || special then mark_group (S (length secs)) ssec ssec m else Ret m.

(** The four loops over the sections of a file. *)
Fixpoint keep_created (l : list nat) (m : marks) (some_kept debug_frag_seen : bool) : res (marks * bool * bool) :=
  match l with
  | [] => Ret (m, some_kept, debug_frag_seen)
  | i :: l =>
      let! s := at_index secs i in
      let created := has (s_flags s) SEC_LINKER_CREATED in
      let kept := negb created && bool_decide (i ∈ gc_mark m) && has (s_flags s) SEC_ALLOC
                  && negb (sh_type s =? SHT_NOTE) in
      let frag := has (s_flags s) SEC_DEBUGGING && String.prefix ".debug_line." (s_name s) in
      keep_created l (if created then mark_sec i m else m) (some_kept || kept) (debug_frag_seen || frag)
  end.

Fixpoint keep_special (l : list nat) (m : marks) (kept_debug : bool) : res (marks * bool) :=
  match l with
  | [] => Ret (m, kept_debug)
  | i :: l =>
      let! s := at_index secs i in
      let! m :=
        if has (s_flags s) SEC_GROUP then _bfd_elf_gc_mark_debug_special_section_group i m
        else if (has (s_flags s) SEC_DEBUGGING
                 || negb (has (s_flags s) (Z.lor SEC_ALLOC (Z.lor SEC_LOAD SEC_RELOC))))
                && bool_decide (next_in_group s = None)
        then Ret (mark_sec i m) else Ret m in
      keep_special l m (kept_debug || (bool_decide (i ∈ gc_mark m) && has (s_flags s) SEC_DEBUGGING))
  end.

(** [dlen > ilen] and the last [ilen] characters are those of [iname]. *)
Definition longer_ending (dname iname : string) : bool :=
  let dlen := String.length dname in
  let ilen := String.length iname in
  (ilen <? dlen)%nat && String.eqb (String.substring (dlen - ilen) ilen dname) iname.

Fixpoint drop_fragments_of (iname : string) (l : list nat) (m : marks) : res marks :=
  match l with
  | [] => Ret m
  | d :: l =>
      let! s := at_index secs d in
      let gone := bool_decide (d ∈ gc_mark m) && has (s_flags s) SEC_DEBUGGING && longer_ending (s_name s) iname in
      drop_fragments_of iname l (if gone then clear_sec d m else m)
  end.

Fixpoint drop_fragments (all l : list nat) (m : marks) : res marks :=
  match l with
  | [] => Ret m
  | i :: l =>
      let! s := at_index secs i in
      let! m := if has (s_flags s) SEC_CODE && negb (bool_decide (i ∈ gc_mark m))
                then drop_fragments_of (s_name s) all m else Ret m in
      drop_fragments all l m
  end.

Fixpoint mark_debug (l : list nat) (m : marks) : res (bool * marks) :=
  match l with
  | [] => Ret (true, m)
  | i :: l =>
      let! s := at_index secs i in
      let! (ok, m) :=
        if bool_decide (i ∈ gc_mark m) && has (s_flags s) SEC_DEBUGGING
        then gc_mark_section bfds secs hashes ents (elf_gc_mark_debug_section secs) i m else Ret (true, m) in
      if negb ok then Ret (false, m) else mark_debug l m
  end.

Definition extra_sections_of (b : ibfd) (m : marks) : res (bool * marks) :=
  let! considered :=
    if negb (elf_flavour b) then Ret false
    else match sections b with
         | [] => Ret false
         | o :: _ => let! s := at_index secs o in Ret (negb (just_syms s))
         end in
  if negb considered then Ret (true, m)
  else
    let! (m, some_kept, debug_frag_seen) := keep_created (sections b) m false false in
    if negb some_kept then Ret (true, m)
    else
      let! (m, kept_debug) := keep_special (sections b) m false in
      let! m := if (debug_frag_seen : bool) then drop_fragments (sections b) (sections b) m else Ret m in
      if (kept_debug : bool) then mark_debug (sections b) m else Ret (true, m).

Fixpoint _bfd_elf_gc_mark_extra_sections (fs : list ibfd) (m : marks) : res (bool * marks) :=
  match fs with
  | [] => Ret (true, m)
  | b :: fs =>
      let! (ok, m) := extra_sections_of b m in
      if negb ok then Ret (false, m) else _bfd_elf_gc_mark_extra_sections fs m
  end.
End extra.

(** ** Sweeping *)
Definition set_flags (f : Z) (s : asection) : asection :=
  mk_section (s_name s) (s_owner s) f (s_size s) (chain s) (just_syms s) (reloc_count s) (relocs s) (sh_type s)
    (next_in_group s) (fde_list s) (eh_frame_entry s).

Definition or_flag (mask : Z) (i : nat) (secs : list asection) : res (list asection) :=
  let! s := at_index secs i in Ret (<[i := set_flags (Z.lor (s_flags s) mask) s]> secs).

(** The sections, the marks and the names of the sections reported as removed. *)
Record swept : Type := mk_swept { w_secs : list asection; w_marks : marks; removed : list string }.

Definition sweep_section (print_gc_sections : bool) (o : nat) (w : swept) : res swept :=
  let! s := at_index (w_secs w) o in
  let! m :=
    if has (s_flags s) SEC_GROUP then
      match next_in_group s with
      | None => Fail Foob
      | Some first =>
          let! _ := at_index (w_secs w) first in
          Ret (if bool_decide (first ∈ gc_mark (w_marks w)) then mark_sec o (w_marks w) else clear_sec o (w_marks w))
      end
    else Ret (w_marks w) in
  if bool_decide (o ∈ gc_mark m) || has (s_flags s) SEC_EXCLUDE then Ret (mk_swept (w_secs w) m (removed w))
  else
    let! secs := or_flag SEC_EXCLUDE o (w_secs w) in
    Ret (mk_swept secs m (if print_gc_sections && negb (s_size s =? 0) then removed w ++ [s_name s] else removed w)).

Fixpoint sweep_sections (print_gc_sections : bool) (l : list nat) (w : swept) : res swept :=
  match l with
  | [] => Ret w
  | o :: l => let! w := sweep_section print_gc_sections o w in sweep_sections print_gc_sections l w
  end.

Fixpoint elf_gc_sweep (print_gc_sections : bool) (fs : list ibfd) (w : swept) : res (bool * swept) :=
  match fs with
  | [] => Ret (true, w)
  | sub :: fs =>
      let! considered := swept_file (w_secs w) sub in
      let! w := if (considered : bool) then sweep_sections print_gc_sections (sections sub) w else Ret w in
      elf_gc_sweep print_gc_sections fs w
  end.

(** ** What is kept from the start *)

(** [dynamic_list], [hide_sym_by_version]: the matching of version scripts. *)
Record link_info : Type := mk_info {
  gc_sym_list : list string;
  print_gc_sections : bool;
  gc_keep_exported : bool;
  export_dynamic : bool;
  executable : bool;
  dynamic_sections_created : bool;
  dynamic_list : option (string -> bool);
  hide_sym_by_version : string -> bool
}.

Definition defined_in (e : link_hash_entry) : option nat :=
  match h_type e with
  | bfd_link_hash_defined s | bfd_link_hash_defweak s => Some s
  | _ => None
  end.

Definition is_abs_or_und (s : asection) : bool :=
  match s_owner s with bfd_abs_section | bfd_und_section => true | _ => false end.

Fixpoint gc_keep_loop (htab : gmap string nat) (hashes : list link_hash_entry) (l : list string)
    (secs : list asection) : res (list asection) :=
  match l with
  | [] => Ret secs
  | name :: l =>
      let! secs :=
        match htab !! name with
        | None => Ret secs
        | Some h =>
            let! e := at_index hashes h in
            match defined_in e with
            | None => Ret secs
            | Some i => let! s := at_index secs i in if is_abs_or_und s then Ret secs else or_flag SEC_KEEP i secs
            end
        end in
      gc_keep_loop htab hashes l secs
  end.

Definition _bfd_elf_gc_keep (info : link_info) (htab : gmap string nat) (hashes : list link_hash_entry)
    (secs : list asection) : res (list asection) := gc_keep_loop htab hashes (gc_sym_list info) secs.

Definition ELF_COMMON_DEF_P (e : link_hash_entry) : bool :=
  negb (def_regular e) && negb (def_dynamic e)
  && match h_type e with bfd_link_hash_defined _ => true | _ => false end.

Definition dynamically_referenced (info : link_info) (e : link_hash_entry) : bool :=
  ref_dynamic e
  || ((def_regular e || ELF_COMMON_DEF_P e)
      && negb (ELF_ST_VISIBILITY (h_other e) =? STV_INTERNAL)
      && negb (ELF_ST_VISIBILITY (h_other e) =? STV_HIDDEN)
      && (negb (executable info) || gc_keep_exported info || export_dynamic info
          || (h_dynamic e && match dynamic_list info with Some match_ => match_ (h_string e) | None => false end))
      && (h_versioned e || negb (hide_sym_by_version info (h_string e)))).

Definition bfd_elf_gc_mark_dynamic_ref_symbol (info : link_info) (e : link_hash_entry) (secs : list asection)
  : res (list asection) :=
  match defined_in e with
  | Some i => if dynamically_referenced info e then or_flag SEC_KEEP i secs else Ret secs
  | None => Ret secs
  end.

Fixpoint mark_dynamic_refs (info : link_info) (l : list link_hash_entry) (secs : list asection) : res (list asection) :=
  match l with
  | [] => Ret secs
  | e :: l => let! secs := bfd_elf_gc_mark_dynamic_ref_symbol info e secs in mark_dynamic_refs info l secs
  end.

(** ** The whole *)

(** The flags SEC_KEEP set before marking. *)
Definition set_keep_flags (info : link_info) (htab : gmap string nat) (hashes : list link_hash_entry)
    (secs : list asection) : res (list asection) :=
  let! secs := _bfd_elf_gc_keep info htab hashes secs in
  if dynamic_sections_created info || gc_keep_exported info then mark_dynamic_refs info hashes secs else Ret secs.

(** What is returned by the pass over the extra sections is not looked at. *)
Definition bfd_elf_gc_sections (info : link_info) (bfds : list ibfd) (htab : gmap string nat)
    (hashes : list link_hash_entry) (ents : list eh_cie_fde) (secs : list asection) (m : marks)
  : res (bool * swept) :=
  let! secs := set_keep_flags info htab hashes secs in
  let! (ok, m) := mark_roots bfds secs hashes ents (fusion_elf_gc_mark_hook bfds secs) bfds m in
  if negb ok then Ret (false, mk_swept secs m [])
  else
    let! (_, m) := _bfd_elf_gc_mark_extra_sections bfds secs hashes ents bfds m in
    elf_gc_sweep (print_gc_sections info) bfds (mk_swept secs m []).
