(* ===== verification/ElfGcOk.v ===== *)
(** * Marking is reachability

    [_bfd_elf_gc_mark] goes through a graph whose nodes are the sections and the CIEs:
    [step] gives its edges.  From well-formed data it returns TRUE, marks nothing that
    cannot be reached, and everything it marks has all its successors marked. *)
From S2P Require Import Prelude FusionReloc ElfGc.
#[local] Open Scope Z_scope.

Inductive node : Type := NSec (i : nat) | NCie (k : nat).

#[global] Instance node_eq_dec : EqDecision node.
Proof. solve_decision. Defined.

Definition marked (m : marks) (x : node) : Prop :=
  match x with NSec i => i ∈ gc_mark m | NCie k => k ∈ cie_mark m end.

#[global] Instance marked_dec (m : marks) (x : node) : Decision (marked m x).
Proof. destruct x; cbn; apply _. Defined.

Lemma at_index_some {A : Type} (l : list A) (i : nat) (a : A) : l !! i = Some a -> at_index l i = Ret a.
Proof. unfold at_index. by intros ->. Qed.

Section graph.
Context (bfds : list ibfd) (secs : list asection) (hashes : list link_hash_entry) (ents : list eh_cie_fde).
Context (hook : mark_hook).

(** ** What a relocation refers to, without the marks *)

(** The section, whether through a __start or __stop symbol, and the symbols marked. *)
Definition rsec_of (sec : nat) (c : elf_reloc_cookie) (rel : Elf_Internal_Rela)
  : res (option nat * bool * list nat) :=
  let r_symndx := Z.shiftr (r_info rel) (r_sym_shift c) in
  if r_symndx =? STN_UNDEF then Ret (None, false, [])
  else
    let! local :=
      if locsymcount c <=? r_symndx then Ret None
      else let! y := at_index (locsyms c) (Z.to_nat r_symndx) in
           Ret (if ELF_ST_BIND (st_info y) =? STB_LOCAL then Some y else None) in
    match local with
    | Some y => let! o := hook sec rel None (Some y) in Ret (o, false, [])
    | None =>
        if r_symndx <? extsymoff c then Fail Foob
        else
          let! h := at_index (c_sym_hashes c) (Z.to_nat (r_symndx - extsymoff c)) in
          match h with
          | None => Fail (Ffatal "corrupt input")
          | Some h =>
              let! (h, e) := real_symbol hashes (S (length hashes)) h in
              let syms := match weakdef e with Some d => [h; d] | None => [h] end in
              match start_stop_section e with
              | Some s => Ret (Some s, true, syms)
              | None => let! o := hook sec rel (Some e) None in Ret (o, false, syms)
              end
          end
    end.

Definition mark_syms (l : list nat) (m : marks) : marks := fold_left (fun m h => mark_sym h m) l m.

(** The walk over the sections of the name goes on only if the first is unmarked. *)
Definition goes_on (o : option nat) (ss : bool) (m : marks) : bool :=
  match o with Some s => ss && negb (bool_decide (s ∈ gc_mark m)) | None => false end.

Lemma gc_mark_syms (l : list nat) (m : marks) : gc_mark (mark_syms l m) = gc_mark m /\ cie_mark (mark_syms l m) = cie_mark m.
Proof. revert m. induction l as [|h l IH]; intros m; [done|]. exact (IH (mark_sym h m)). Qed.

Lemma mark_rsec_of (sec : nat) (c : elf_reloc_cookie) (rel : Elf_Internal_Rela) (m : marks)
    (o : option nat) (ss : bool) (l : list nat) :
  rsec_of sec c rel = Ret (o, ss, l) ->
  _bfd_elf_gc_mark_rsec hashes hook sec c rel m = Ret (o, goes_on o ss m, mark_syms l m).
Proof.
  unfold rsec_of, _bfd_elf_gc_mark_rsec. destruct (_ =? STN_UNDEF); [by intros [= <- <- <-]|].
  destruct (if locsymcount c <=? _ then _ else _) as [[y|]|]; cbn [rbind]; [| |done].
  - destruct (hook sec rel None (Some y)) as [o'|]; cbn [rbind]; [|done]. intros [= <- <- <-]. cbn. by destruct o'.
  - destruct (_ <? extsymoff c); [done|]. destruct (at_index _ _) as [[h|]|]; cbn [rbind]; [|done|done].
    destruct (real_symbol hashes _ h) as [[h' e]|]; cbn [rbind]; [|done].
    destruct (start_stop_section e) as [s|].
    + intros [= <- <- <-]. by destruct (weakdef e).
    + destruct (hook sec rel (Some e) None) as [o'|]; cbn [rbind]; [|done]. intros [= <- <- <-].
      destruct o'; by destruct (weakdef e).
Qed.

(** ** The graph *)
Definition enters (i : nat) : Prop :=
  exists s b f, secs !! i = Some s /\ s_owner s = of_bfd b /\ bfds !! b = Some f /\
    elf_flavour f = true /\ dynamic_object f = false.

Definition file_at (s : asection) (f : ibfd) : Prop := exists b, s_owner s = of_bfd b /\ bfds !! b = Some f.

Definition next_name (r : nat) : res (option nat) :=
  let! s := at_index secs r in
  bfd_get_next_section_by_name secs (match s_owner s with of_bfd b => drop (S b) bfds | _ => [] end) r.

(** The sections of the name of [r], from [r] on. *)
Inductive in_chain : nat -> nat -> Prop :=
| chain_here r : in_chain r r
| chain_next r r' j : next_name r = Ret (Some r') -> in_chain r' j -> in_chain r j.

Definition cookie (i : nat) (c : elf_reloc_cookie) : Prop := init_reloc_cookie_for_section bfds secs i = Ret (Some c).

(** [loose]: with all the sections of the name for a __start or __stop symbol. *)
Definition rel_target (loose : bool) (i : nat) (c : elf_reloc_cookie) (rel : Elf_Internal_Rela) (j : nat) : Prop :=
  exists s ss l, rsec_of i c rel = Ret (Some s, ss, l) /\ (s = j \/ (loose = true /\ ss = true /\ in_chain s j)).

Definition own_relocs (i : nat) (s : asection) (f : ibfd) : bool :=
  has (s_flags s) SEC_RELOC && (0 <? reloc_count s)%nat && negb (bool_decide (Some i = eh_frame_section f)).

(** The .eh_frame section a CIE belongs to. *)
Context (home : nat -> nat).

Inductive step (loose : bool) : node -> node -> Prop :=
| step_group i s g : enters i -> secs !! i = Some s -> next_in_group s = Some g -> step loose (NSec i) (NSec g)
| step_entry i s g : enters i -> secs !! i = Some s -> eh_frame_entry s = Some g -> step loose (NSec i) (NSec g)
| step_reloc i s f c rel j :
    enters i -> secs !! i = Some s -> file_at s f -> own_relocs i s f = true -> cookie i c -> rel ∈ rels c ->
    rel_target loose i c rel j -> step loose (NSec i) (NSec j)
| step_fde i s f e c k fde rel j :
    enters i -> secs !! i = Some s -> file_at s f -> eh_frame_section f = Some e -> k ∈ fde_list s ->
    ents !! k = Some fde -> cookie e c -> rel ∈ entry_relocs c fde -> rel_target loose e c rel j ->
    step loose (NSec i) (NSec j)
| step_cie i s f e k fde k' :
    enters i -> secs !! i = Some s -> file_at s f -> eh_frame_section f = Some e -> k ∈ fde_list s ->
    ents !! k = Some fde -> cie_inf fde = Some k' -> step loose (NSec i) (NCie k')
| step_cie_reloc k cie c rel j :
    ents !! k = Some cie -> cookie (home k) c -> rel ∈ entry_relocs c cie -> rel_target loose (home k) c rel j ->
    step loose (NCie k) (NSec j).

(** ** Well-formed data *)

(** The standard sections, marked from the start. *)
Context (std : gset nat) (rank : nat -> nat).

Definition place_ok (j : nat) : Prop :=
  exists s, secs !! j = Some s /\ (j ∈ std \/ exists f, file_at s f).

Definition rel_ok (i : nat) (c : elf_reloc_cookie) (rel : Elf_Internal_Rela) : Prop :=
  exists o ss l, rsec_of i c rel = Ret (o, ss, l) /\ forall j, o = Some j -> place_ok j.

Record gc_wf : Prop := {
  wf_group i s g : enters i -> secs !! i = Some s -> next_in_group s = Some g -> enters g;
  wf_entry i s g : enters i -> secs !! i = Some s -> eh_frame_entry s = Some g -> enters g;
  wf_relocs i s f : enters i -> secs !! i = Some s -> file_at s f -> own_relocs i s f = true ->
    exists c, cookie i c /\ Forall (rel_ok i c) (rels c);
  wf_frame i s f e : enters i -> secs !! i = Some s -> file_at s f -> eh_frame_section f = Some e ->
    fde_list s <> [] -> exists c, cookie e c;
  wf_fde i s f e c k : enters i -> secs !! i = Some s -> file_at s f -> eh_frame_section f = Some e ->
    cookie e c -> k ∈ fde_list s ->
    exists fde, ents !! k = Some fde /\ Forall (rel_ok e c) (entry_relocs c fde) /\
      forall k', cie_inf fde = Some k' ->
        home k' = e /\ exists cie, ents !! k' = Some cie /\ Forall (rel_ok e c) (entry_relocs c cie);
  wf_names r : place_ok r -> exists o, next_name r = Ret o /\ forall j, o = Some j -> place_ok j /\ (rank j < rank r)%nat;
  wf_rank r : (rank r <= length secs)%nat
}.

(** ** Progress *)

(** What may be marked: closed under the edges. *)
Context (may : node -> Prop).
Context (may_step : forall x y, may x -> step true x y -> may y).
Context (wf : gc_wf).

(** [m'] after [m]: nothing new but what may be marked, and everything new is left
    with its successors marked. *)
Record grown (m m' : marks) : Prop := {
  grown_mono x : marked m x -> marked m' x;
  grown_new x : marked m' x -> marked m x \/ may x;
  grown_done x y : marked m' x -> ~ marked m x -> step false x y -> marked m' y
}.

Lemma grown_refl (m : marks) : grown m m.
Proof. split; [done|by left|done]. Qed.

Lemma grown_trans (m1 m2 m3 : marks) : grown m1 m2 -> grown m2 m3 -> grown m1 m3.
Proof.
  intros [A1 A2 A3] [B1 B2 B3]. split.
  - auto.
  - intros x Hx. destruct (B2 x Hx) as [H|H]; auto.
  - intros x y Hx Hn Hs. destruct (decide (marked m2 x)) as [H2|H2]; [|by apply (B3 x)]. apply B1. by apply (A3 x).
Qed.

(** Marks of symbols only. *)
Lemma grown_same (m m' : marks) : gc_mark m' = gc_mark m -> cie_mark m' = cie_mark m -> grown m m'.
Proof.
  intros E1 E2. assert (forall x, marked m' x <-> marked m x) as E by (intros [i|k]; cbn; by rewrite ?E1, ?E2).
  split; [by intros x; apply E|by intros x Hx; left; apply E|]. intros x y Hx Hn. by apply E in Hx.
Qed.

(** A section that is not entered. *)
Lemma grown_leaf (m : marks) (r : nat) : ~ enters r -> may (NSec r) -> grown m (mark_sec r m).
Proof.
  intros He Hs. split.
  - intros [i|k]; cbn; [|done]. rewrite elem_of_union. by right.
  - intros [i|k]; cbn; [|by left]. rewrite elem_of_union, elem_of_singleton. intros [->|?]; auto.
  - intros [i|k] y; cbn; [|done]. rewrite elem_of_union, elem_of_singleton. intros [->|?] Hn Hst; [|done].
    exfalso. apply He. by inversion Hst.
Qed.

(** *** A node entered, once its successors are marked *)
Lemma grown_enter (m m0 m' : marks) (x : node) :
  (forall y, marked m0 y <-> y = x \/ marked m y) ->
  may x -> grown m0 m' -> (forall y, step false x y -> marked m' y) -> grown m m'.
Proof.
  intros Hm Hs [A1 A2 A3] Hsucc. split.
  - intros y Hy. apply A1, Hm. auto.
  - intros y Hy. apply A2 in Hy as [Hy|]; [|auto]. apply Hm in Hy as [->|]; auto.
  - intros y z Hy Hn Hst. destruct (decide (y = x)) as [->|Hne]; [auto|]. apply (A3 y); [done| |done].
    rewrite Hm. tauto.
Qed.

Lemma marked_sec (r : nat) (m : marks) (y : node) : marked (mark_sec r m) y <-> y = NSec r \/ marked m y.
Proof.
  destruct y as [i|k]; cbn; [rewrite elem_of_union, elem_of_singleton|].
  - split; [intros [->|Hi]; auto|intros [[= ->]|Hi]; auto].
  - split; [auto|intros [?|Hi]; [discriminate|done]].
Qed.

Lemma marked_cie (r : nat) (m : marks) (y : node) : marked (mark_cie r m) y <-> y = NCie r \/ marked m y.
Proof.
  destruct y as [i|k]; cbn; [|rewrite elem_of_union, elem_of_singleton].
  - split; [auto|intros [?|Hi]; [discriminate|done]].
  - split; [intros [->|Hi]; auto|intros [[= ->]|Hi]; auto].
Qed.

(** The sections not marked yet. *)
Definition unmarked (m : marks) : nat := size (set_seq 0 (length secs) ∖ gc_mark m : gset nat).

Lemma grown_unmarked (m m' : marks) : grown m m' -> (unmarked m' <= unmarked m)%nat.
Proof.
  intros Hg. unfold unmarked. apply subseteq_size. intros i. rewrite !elem_of_difference. intros [Hi Hn]. split; [done|].
  intros Hm. apply Hn. exact (grown_mono _ _ Hg (NSec i) Hm).
Qed.

Lemma unmarked_mark (m : marks) (r : nat) :
  (r < length secs)%nat -> r ∉ gc_mark m -> (unmarked (mark_sec r m) < unmarked m)%nat.
Proof.
  intros Hr Hn. unfold unmarked. apply subset_size. split.
  - intros i. cbn. rewrite !elem_of_difference, elem_of_union. tauto.
  - intros Hsub. specialize (Hsub r). cbn in Hsub. rewrite !elem_of_difference, elem_of_union, elem_of_singleton in Hsub.
    destruct Hsub as [_ Hsub]; [|tauto]. split; [|done]. apply elem_of_set_seq. lia.
Qed.

Lemma enters_place (g : nat) : enters g -> place_ok g.
Proof. intros (s & b & f & E1 & E2 & E3 & _). exists s. split; [done|]. right. exists f, b. done. Qed.

Definition std_in (m : marks) : Prop := std ⊆ gc_mark m.

Lemma grown_std (m m' : marks) : grown m m' -> std_in m -> std_in m'.
Proof. intros Hg Hs i Hi. exact (grown_mono _ _ Hg (NSec i) (Hs i Hi)). Qed.

(** ** The loops *)
Section loops_ok.
Context (mark : nat -> marks -> res (bool * marks)) (n : nat).

(** What [_bfd_elf_gc_mark] does for a section another one refers to. *)
Context (mark_ok : forall g m, enters g -> g ∉ gc_mark m -> std_in m -> may (NSec g) -> (unmarked m <= n)%nat ->
  exists m', mark g m = Ret (true, m') /\ grown m m' /\ g ∈ gc_mark m').

(** A call that returns TRUE, with something marked. *)
Definition yields (r : res (bool * marks)) (m : marks) (post : marks -> Prop) : Prop :=
  exists m', r = Ret (true, m') /\ grown m m' /\ post m'.

Definition ready (m : marks) : Prop := std_in m /\ (unmarked m <= n)%nat.

Lemma grown_ready (m m' : marks) : grown m m' -> ready m -> ready m'.
Proof. intros Hg [H1 H2]. split; [by apply (grown_std m)|]. pose proof (grown_unmarked m m' Hg). lia. Qed.

Lemma mark_linked_ok (o : option nat) (m : marks) :
  ready m -> (forall g, o = Some g -> enters g /\ may (NSec g)) ->
  yields (mark_linked mark o m) m (fun m' => forall g, o = Some g -> g ∈ gc_mark m').
Proof.
  intros [Hs Hu] Ho. unfold mark_linked, yields. destruct o as [g|]; [|exists m; split_and!; [done|apply grown_refl|done]].
  destruct (Ho g eq_refl) as [He Hm]. case_bool_decide as Hg.
  - exists m. split_and!; [done|apply grown_refl|]. intros ? [= <-]. done.
  - destruct (mark_ok g m He Hg Hs Hm Hu) as (m' & E & Hg' & Hin). exists m'. split_and!; [done|done|].
    intros ? [= <-]. done.
Qed.

Lemma mark_sections_ok (fuel : nat) (ss : bool) (r : nat) (m : marks) :
  (rank r < fuel)%nat -> ready m -> place_ok r -> may (NSec r) -> (ss = true -> forall j, in_chain r j -> may (NSec j)) ->
  yields (mark_sections bfds secs mark fuel ss (Some r) m) m (fun m' => r ∈ gc_mark m').
Proof.
  revert r m. induction fuel as [|fuel IH]; intros r m Hf Hr Hp Hm Hss; [lia|].
  destruct Hp as (s & Es & Hplace). cbn [mark_sections].
  assert (yields (if bool_decide (r ∈ gc_mark m) then Ret (true, m)
            else let! s := at_index secs r in let! b := file_of bfds s in
                 if negb (elf_flavour b) || dynamic_object b then Ret (true, mark_sec r m) else mark r m) m
            (fun m' => r ∈ gc_mark m')) as (m1 & E1 & Hg1 & Hr1).
  { case_bool_decide as Hin; [exists m; split_and!; [done|apply grown_refl|done]|].
    destruct Hplace as [Hstd|(f & b & Eo & Eb)]; [by destruct Hin; apply Hr|].
    rewrite (at_index_some _ _ _ Es). cbn [rbind]. unfold file_of. rewrite Eo, (at_index_some _ _ _ Eb). cbn [rbind].
    destruct (negb (elf_flavour f) || dynamic_object f) eqn:El.
    - exists (mark_sec r m). split_and!; [done| |cbn; apply elem_of_union_l, elem_of_singleton; done].
      apply grown_leaf; [|done]. intros (s' & b' & f' & E1 & E2 & E3 & E4 & E5).
      rewrite Es in E1. injection E1 as <-. rewrite Eo in E2. injection E2 as <-. rewrite Eb in E3. injection E3 as <-.
      by rewrite E4, E5 in El.
    - apply orb_false_iff in El as [El1 El2]. apply negb_false_iff in El1.
      apply mark_ok; [by exists s, b, f|done|apply Hr|done|apply Hr]. }
  rewrite E1. cbn [rbind negb]. destruct ss; cbn [negb]; [|by exists m1].
  destruct (wf_names wf r) as (o & Eo & Ho); [by exists s|]. unfold next_name in Eo.
  rewrite (at_index_some _ _ _ Es) in Eo |- *. cbn [rbind] in Eo |- *. rewrite Eo. cbn [rbind].
  destruct o as [r'|]; [|exists m1; destruct fuel; done].
  destruct (Ho r' eq_refl) as [Hp' Hrank].
  assert (in_chain r r') as Hc.
  { apply (chain_next r r'); [|constructor]. unfold next_name. by rewrite (at_index_some _ _ _ Es). }
  destruct (IH r' m1) as (m2 & E2 & Hg2 & _); [lia|by apply (grown_ready m)|done|by apply Hss| |].
  - intros _ j Hj. apply Hss; [done|]. apply (chain_next r r'); [|done]. unfold next_name. by rewrite (at_index_some _ _ _ Es).
  - exists m2. split_and!; [done|by apply (grown_trans m m1)|exact (grown_mono _ _ Hg2 (NSec r) Hr1)].
Qed.

Lemma mark_reloc_ok (i : nat) (c : elf_reloc_cookie) (rel : Elf_Internal_Rela) (m : marks) :
  ready m -> rel_ok i c rel -> (forall j, rel_target true i c rel j -> may (NSec j)) ->
  yields (_bfd_elf_gc_mark_reloc bfds secs hashes mark hook i c rel m) m
    (fun m' => forall j, rel_target false i c rel j -> j ∈ gc_mark m').
Proof.
  intros Hr (o & ss & l & E & Ho) Hm. unfold _bfd_elf_gc_mark_reloc. rewrite (mark_rsec_of _ _ _ _ _ _ _ E). cbn [rbind].
  destruct (gc_mark_syms l m) as [E1 E2]. assert (grown m (mark_syms l m)) as Hg by by apply grown_same.
  destruct o as [s|]; cbn [goes_on mark_sections].
  - destruct (mark_sections_ok (Datatypes.S (length secs)) (ss && negb (bool_decide (s ∈ gc_mark m))) s (mark_syms l m))
      as (m' & E' & Hg' & Hs).
    + pose proof (wf_rank wf s). lia.
    + by apply (grown_ready m).
    + by apply Ho.
    + apply Hm. exists s, ss, l. auto.
    + intros Hss j Hj. apply andb_true_iff in Hss as [Hss _]. apply Hm. exists s, ss, l. auto.
    + exists m'. split_and!; [done|by apply (grown_trans m (mark_syms l m))|].
      intros j (s' & ss' & l' & E0 & [->|[? _]]); [|done]. rewrite E in E0. by injection E0 as <- _ _.
  - exists (mark_syms l m). split_and!; [done|done|]. intros j (s' & ss' & l' & E0 & _). congruence.
Qed.

Lemma mark_relocs_ok (i : nat) (c : elf_reloc_cookie) (l : list Elf_Internal_Rela) (m : marks) :
  ready m -> Forall (rel_ok i c) l -> (forall rel j, rel ∈ l -> rel_target true i c rel j -> may (NSec j)) ->
  yields (mark_relocs bfds secs hashes mark hook i c l m) m
    (fun m' => forall rel j, rel ∈ l -> rel_target false i c rel j -> j ∈ gc_mark m').
Proof.
  revert m. induction l as [|rel l IH]; intros m Hr Hok Hm.
  { exists m. split_and!; [done|apply grown_refl|]. intros rel j Hin. by apply not_elem_of_nil in Hin. }
  apply Forall_cons in Hok as [Hok1 Hok]. cbn [mark_relocs].
  destruct (mark_reloc_ok i c rel m Hr Hok1) as (m1 & E1 & Hg1 & H1);
    [intros j; apply Hm, list_elem_of_here|]. rewrite E1. cbn [rbind negb].
  destruct (IH m1) as (m2 & E2 & Hg2 & H2); [by apply (grown_ready m)|done| |].
  { intros rel' j Hin. apply Hm. by apply list_elem_of_further. }
  exists m2. split_and!; [done|by apply (grown_trans m m1)|].
  intros rel' j Hin Ht. apply elem_of_cons in Hin as [->|Hin]; [|by apply (H2 rel')].
  exact (grown_mono _ _ Hg2 (NSec j) (H1 j Ht)).
Qed.

(** *** The FDEs of a section *)
Section fdes.
Context (i : nat) (s : asection) (f : ibfd) (e : nat) (c : elf_reloc_cookie).
Context (Hi : enters i) (Hs : secs !! i = Some s) (Hf : file_at s f) (He : eh_frame_section f = Some e).
Context (Hc : cookie e c) (Hmay : may (NSec i)).

(** What the FDE [k] stands for is marked. *)
Definition fde_done (k : nat) (m : marks) : Prop :=
  forall fde, ents !! k = Some fde ->
    (forall rel j, rel ∈ entry_relocs c fde -> rel_target false e c rel j -> j ∈ gc_mark m) /\
    (forall k', cie_inf fde = Some k' -> k' ∈ cie_mark m).

Lemma fde_done_grown (k : nat) (m m' : marks) : grown m m' -> fde_done k m -> fde_done k m'.
Proof.
  intros Hg Hd fde E. destruct (Hd fde E) as [H1 H2]. split.
  - intros rel j Hr Ht. exact (grown_mono _ _ Hg (NSec j) (H1 rel j Hr Ht)).
  - intros k' Ek. exact (grown_mono _ _ Hg (NCie k') (H2 k' Ek)).
Qed.

Lemma mark_cie_ok (k' : nat) (cie : eh_cie_fde) (m : marks) :
  ready m -> may (NCie k') -> ents !! k' = Some cie -> home k' = e -> Forall (rel_ok e c) (entry_relocs c cie) ->
  yields (mark_entry bfds secs hashes mark hook e cie c (mark_cie k' m)) m (fun m' => k' ∈ cie_mark m').
Proof.
  intros Hr Hm Ek Hh Hok. unfold mark_entry.
  destruct (mark_relocs_ok e c (entry_relocs c cie) (mark_cie k' m)) as (m1 & E1 & Hg1 & H1); [done|done| |].
  { intros rel j Hin Ht. apply (may_step (NCie k')); [done|]. apply (step_cie_reloc true k' cie c rel j Ek); rewrite ?Hh; done. }
  exists m1. split_and!; [done| |].
  - apply (grown_enter m (mark_cie k' m) m1 (NCie k')); [apply marked_cie|done|done|].
    intros y Hst. inversion Hst as [| | | | |k0 cie0 c0 rel j Ek0 Hc0 Hin Ht]; subst k0 y.
    rewrite Ek in Ek0. injection Ek0 as <-. rewrite Hh in Hc0, Ht. unfold cookie in Hc, Hc0. rewrite Hc in Hc0.
    injection Hc0 as <-. exact (H1 rel j Hin Ht).
  - apply (grown_mono _ _ Hg1 (NCie k')), marked_cie. by left.
Qed.

Lemma mark_fde_list_ok (l : list nat) (m : marks) :
  ready m -> (forall k, k ∈ l -> k ∈ fde_list s) ->
  yields (mark_fde_list bfds secs hashes ents mark hook e c l m) m (fun m' => forall k, k ∈ l -> fde_done k m').
Proof.
  revert m. induction l as [|k l IH]; intros m Hr Hl.
  { exists m. split_and!; [done|apply grown_refl|]. intros k Hin. by apply not_elem_of_nil in Hin. }
  assert (k ∈ fde_list s) as Hk by apply Hl, list_elem_of_here.
  destruct (wf_fde wf i s f e c k Hi Hs Hf He Hc Hk) as (fde & Ek & Hok & Hcie).
  cbn [mark_fde_list]. rewrite (at_index_some _ _ _ Ek). cbn [rbind]. unfold mark_entry at 1.
  destruct (mark_relocs_ok e c (entry_relocs c fde) m Hr Hok) as (m1 & E1 & Hg1 & H1).
  { intros rel j Hin Ht. apply (may_step (NSec i)); [done|]. by apply (step_fde true i s f e c k fde rel j). }
  rewrite E1. cbn [rbind negb].
  assert (yields match cie_inf fde with
                 | Some k' => let! cie := at_index ents k' in
                     if bool_decide (k' ∈ cie_mark m1) then Ret (true, m1)
                     else mark_entry bfds secs hashes mark hook e cie c (mark_cie k' m1)
                 | None => Ret (true, m1)
                 end m1 (fun m' => forall k', cie_inf fde = Some k' -> k' ∈ cie_mark m')) as (m2 & E2 & Hg2 & H2).
  { destruct (cie_inf fde) as [k'|] eqn:Ei; [|exists m1; split_and!; [done|apply grown_refl|done]].
    destruct (Hcie k' eq_refl) as (Hh & cie & Ek' & Hok'). rewrite (at_index_some _ _ _ Ek'). cbn [rbind].
    case_bool_decide as Hin.
    - exists m1. split_and!; [done|apply grown_refl|]. by intros ? [= <-].
    - destruct (mark_cie_ok k' cie m1) as (m2 & E2 & Hg2 & H2); [by apply (grown_ready m)| |done|done|done|].
      { apply (may_step (NSec i)); [done|]. by apply (step_cie true i s f e k fde k'). }
      exists m2. split_and!; [done|done|]. by intros ? [= <-]. }
  rewrite E2. cbn [rbind negb].
  destruct (IH m2) as (m3 & E3 & Hg3 & H3); [by apply (grown_ready m1), (grown_ready m)|intros; by apply Hl, list_elem_of_further|].
  exists m3. split_and!; [done|by apply (grown_trans m m1), (grown_trans m1 m2)|].
  intros k0 Hin. apply elem_of_cons in Hin as [->|Hin]; [|by apply H3].
  apply (fde_done_grown k m2); [done|]. intros fde' Ef. rewrite Ek in Ef. injection Ef as <-. split; [|done].
  intros rel j Hr0 Ht. exact (grown_mono _ _ Hg2 (NSec j) (H1 rel j Hr0 Ht)).
Qed.
End fdes.

(** *** The parts of [_bfd_elf_gc_mark] *)
Section parts.
Context (i : nat) (s : asection) (f : ibfd).
Context (Hi : enters i) (Hs : secs !! i = Some s) (Hf : file_at s f) (Hmay : may (NSec i)).

Lemma mark_own_relocs_ok (m : marks) :
  ready m ->
  yields (mark_own_relocs bfds secs hashes mark hook i s (eh_frame_section f) m) m
    (fun m' => own_relocs i s f = true -> forall c rel j, cookie i c -> rel ∈ rels c -> rel_target false i c rel j ->
       j ∈ gc_mark m').
Proof.
  intros Hr. unfold mark_own_relocs. fold (own_relocs i s f).
  destruct (own_relocs i s f) eqn:Eo; [|exists m; split_and!; [done|apply grown_refl|done]].
  destruct (wf_relocs wf i s f Hi Hs Hf Eo) as (c & Hc & Hok). unfold cookie in Hc. rewrite Hc. cbn [rbind].
  destruct (mark_relocs_ok i c (rels c) m Hr Hok) as (m1 & E1 & Hg1 & H1).
  { intros rel j Hin Ht. apply (may_step (NSec i)); [done|]. by apply (step_reloc true i s f c rel j). }
  exists m1. split_and!; [done|done|]. intros _ c' rel j Hc' Hin Ht. unfold cookie in Hc'. rewrite Hc in Hc'.
  injection Hc' as <-. by apply (H1 rel).
Qed.

Lemma mark_fdes_ok (m : marks) :
  ready m ->
  yields (mark_fdes bfds secs hashes ents mark hook s (eh_frame_section f) m) m
    (fun m' => forall e c k, eh_frame_section f = Some e -> cookie e c -> k ∈ fde_list s -> fde_done e c k m').
Proof.
  intros Hr. unfold mark_fdes. destruct (eh_frame_section f) as [e|] eqn:He;
    [|exists m; split_and!; [done|apply grown_refl|done]].
  destruct (fde_list s) as [|k0 l0] eqn:El.
  { exists m. split_and!; [done|apply grown_refl|]. intros e' c k _ _ Hin. by apply not_elem_of_nil in Hin. }
  assert (fde_list s <> []) as Hne by by rewrite El.
  destruct (wf_frame wf i s f e Hi Hs Hf He Hne) as (c & Hc). rewrite <- El in *.
  unfold cookie in Hc. rewrite Hc. cbn [rbind]. unfold _bfd_elf_gc_mark_fdes.
  destruct (mark_fde_list_ok i s f e c Hi Hs Hf He Hc Hmay (fde_list s) m Hr) as (m1 & E1 & Hg1 & H1); [done|].
  exists m1. split_and!; [done|done|]. intros e' c' k [= <-] Hc' Hin. unfold cookie in Hc'. rewrite Hc in Hc'.
  injection Hc' as <-. by apply H1.
Qed.
End parts.
End loops_ok.

(** ** [_bfd_elf_gc_mark] *)

(** Once its parts are done, the successors of a section are marked. *)
Lemma section_done (i : nat) (s : asection) (f : ibfd) (m : marks) :
  secs !! i = Some s -> file_at s f ->
  (forall g, next_in_group s = Some g -> g ∈ gc_mark m) ->
  (own_relocs i s f = true -> forall c rel j, cookie i c -> rel ∈ rels c -> rel_target false i c rel j -> j ∈ gc_mark m) ->
  (forall e c k, eh_frame_section f = Some e -> cookie e c -> k ∈ fde_list s -> fde_done e c k m) ->
  (forall g, eh_frame_entry s = Some g -> g ∈ gc_mark m) ->
  gc_wf -> enters i -> forall y, step false (NSec i) y -> marked m y.
Proof.
  intros Hs (b & Eb & Ef) H1 H2 H3 H4 Hwf Hi y Hst.
  assert (forall s' f', secs !! i = Some s' -> file_at s' f' -> s' = s /\ f' = f) as Huniq.
  { intros s' f' E (b' & Eb' & Ef'). rewrite Hs in E. injection E as <-. rewrite Eb in Eb'. injection Eb' as <-.
    rewrite Ef in Ef'. by injection Ef' as <-. }
  inversion Hst as [? s' g _ E Eg|? s' g _ E Eg|? s' f' c rel j _ E Hf' Ho Hc Hr Ht|
      ? s' f' e c k fde rel j _ E Hf' He Hk Ek Hc Hr Ht|? s' f' e k fde k' _ E Hf' He Hk Ek Ei|]; subst.
  - rewrite Hs in E. injection E as <-. by apply H1.
  - rewrite Hs in E. injection E as <-. by apply H4.
  - destruct (Huniq s' f' E Hf') as [-> ->]. exact (H2 Ho c rel j Hc Hr Ht).
  - destruct (Huniq s' f' E Hf') as [-> ->]. destruct (H3 e c k He Hc Hk fde Ek) as [Hd _]. exact (Hd rel j Hr Ht).
  - destruct (Huniq s' f' E Hf') as [-> ->].
    destruct (wf_frame Hwf i s f e Hi Hs Hf' He) as (c & Hc); [intros E0; rewrite E0 in Hk; by apply not_elem_of_nil in Hk|].
    destruct (H3 e c k He Hc Hk fde Ek) as [_ Hd]. by apply Hd.
Qed.

Lemma gc_mark_ok (n : nat) (sec : nat) (m : marks) :
  enters sec -> std_in m -> may (NSec sec) -> (unmarked (mark_sec sec m) < n)%nat ->
  exists m', _bfd_elf_gc_mark bfds secs hashes ents n hook sec m = Ret (true, m') /\ grown m m' /\ sec ∈ gc_mark m'.
Proof.
  revert sec m. induction n as [|n IH]; intros sec m He Hstd Hm Hu; [lia|].
  assert (forall g m, enters g -> g ∉ gc_mark m -> std_in m -> may (NSec g) -> (unmarked m <= n)%nat ->
    exists m', _bfd_elf_gc_mark bfds secs hashes ents n hook g m = Ret (true, m') /\ grown m m' /\ g ∈ gc_mark m') as Hok.
  { intros g m0 Hg Hn Hs0 Hm0 Hu0. apply IH; [done|done|done|].
    destruct (enters_place g Hg) as (s & Es & _). apply lookup_lt_Some in Es.
    pose proof (unmarked_mark m0 g Es Hn). lia. }
  pose proof He as (s & b & f & Es & Eb & Ef & Hel & Hdy). assert (file_at s f) as Hf by by exists b.
  set (m0 := mark_sec sec m) in *.
  assert (ready n m0) as Hr0. { split; [|lia]. intros x Hx. cbn. apply elem_of_union_r. by apply Hstd. }
  assert (sec ∈ gc_mark m0) as Hin0 by (cbn; apply elem_of_union_l, elem_of_singleton; done).
  cbn [_bfd_elf_gc_mark]. rewrite (at_index_some _ _ _ Es). cbn [rbind]. unfold file_of.
  rewrite Eb, (at_index_some _ _ _ Ef). cbn [rbind]. fold m0.
  destruct (mark_linked_ok _ n Hok (next_in_group s) m0 Hr0) as (m1 & E1 & Hg1 & H1).
  { intros g Eg. split; [by apply (wf_group wf sec s)|]. apply (may_step (NSec sec)); [done|]. by apply (step_group true sec s). }
  rewrite E1. cbn [rbind negb]. pose proof (grown_ready n _ _ Hg1 Hr0) as Hr1.
  destruct (mark_own_relocs_ok _ n Hok sec s f He Es Hf Hm m1 Hr1) as (m2 & E2 & Hg2 & H2).
  rewrite E2. cbn [rbind negb]. pose proof (grown_ready n _ _ Hg2 Hr1) as Hr2.
  destruct (mark_fdes_ok _ n Hok sec s f He Es Hf Hm m2 Hr2) as (m3 & E3 & Hg3 & H3).
  rewrite E3. cbn [rbind negb]. pose proof (grown_ready n _ _ Hg3 Hr2) as Hr3.
  destruct (mark_linked_ok _ n Hok (eh_frame_entry s) m3 Hr3) as (m4 & E4 & Hg4 & H4).
  { intros g Eg. split; [by apply (wf_entry wf sec s)|]. apply (may_step (NSec sec)); [done|]. by apply (step_entry true sec s). }
  assert (grown m0 m4) as Hg by by apply (grown_trans _ m3), Hg4; apply (grown_trans _ m2), Hg3; apply (grown_trans _ m1).
  exists m4. split_and!; [done| |exact (grown_mono _ _ Hg (NSec sec) Hin0)].
  apply (grown_enter m m0 m4 (NSec sec)); [apply marked_sec|done|done|].
  assert (grown m2 m4) as Hg24 by by apply (grown_trans _ m3).
  assert (grown m1 m4) as Hg14 by by apply (grown_trans _ m2).
  apply (section_done sec s f m4); [done|done| | | |done|done|done].
  - intros g Eg. exact (grown_mono _ _ Hg14 (NSec g) (H1 g Eg)).
  - intros Ho c rel j Hc Hin Ht. exact (grown_mono _ _ Hg24 (NSec j) (H2 Ho c rel j Hc Hin Ht)).
  - intros e c k Hee Hc Hk. apply (fde_done_grown e c k m3); [done|]. by apply H3.
Qed.

(** ** The roots *)
Definition root (o : nat) : Prop :=
  exists b s, b ∈ bfds /\ swept_file secs b = Ret true /\ o ∈ sections b /\ secs !! o = Some s /\ is_root s = true.

(** The files can be read, and a root is a section of an object file. *)
Record files_wf : Prop := {
  wf_swept b : b ∈ bfds -> exists v, swept_file secs b = Ret v;
  wf_sections b o : b ∈ bfds -> swept_file secs b = Ret true -> o ∈ sections b -> is_Some (secs !! o);
  wf_root o : root o -> enters o
}.
Context (fwf : files_wf).

Lemma mark_root_sections_ok (l : list nat) (m : marks) :
  std_in m -> (forall o, o ∈ l -> is_Some (secs !! o)) ->
  (forall o s, o ∈ l -> secs !! o = Some s -> is_root s = true -> enters o /\ may (NSec o)) ->
  exists m', mark_root_sections bfds secs hashes ents hook l m = Ret (true, m') /\ grown m m' /\
    forall o s, o ∈ l -> secs !! o = Some s -> is_root s = true -> o ∈ gc_mark m'.
Proof.
  revert m. induction l as [|o l IH]; intros m Hstd Hl Hroot.
  { exists m. split_and!; [done|apply grown_refl|]. intros o s Hin. by apply not_elem_of_nil in Hin. }
  destruct (Hl o) as [s Es]; [apply list_elem_of_here|]. cbn [mark_root_sections].
  rewrite (at_index_some _ _ _ Es). cbn [rbind].
  assert (exists m1, (if negb (bool_decide (o ∈ gc_mark m)) && is_root s then gc_mark_section bfds secs hashes ents hook o m
                      else Ret (true, m)) = Ret (true, m1) /\ grown m m1 /\ (is_root s = true -> o ∈ gc_mark m1))
    as (m1 & E1 & Hg1 & H1).
  { case_bool_decide as Hin; cbn [negb andb]; [exists m; split_and!; [done|apply grown_refl|done]|].
    destruct (is_root s) eqn:Er; [|exists m; split_and!; [done|apply grown_refl|done]].
    destruct (Hroot o s (list_elem_of_here _ _) Es Er) as [He Hm]. unfold gc_mark_section.
    destruct (gc_mark_ok (Datatypes.S (length secs)) o m He Hstd Hm) as (m1 & E1 & Hg1 & H1); [|by exists m1].
    unfold unmarked. apply le_n_S. etrans; [apply subseteq_size, subseteq_difference_l; reflexivity|].
    by rewrite size_set_seq. }
  rewrite E1. cbn [rbind negb]. destruct (IH m1) as (m2 & E2 & Hg2 & H2).
  - by apply (grown_std m).
  - intros o' Hin. by apply Hl, list_elem_of_further.
  - intros o' s' Hin. by apply Hroot, list_elem_of_further.
  - exists m2. split_and!; [done|by apply (grown_trans m m1)|]. intros o' s' Hin Es' Er.
    apply elem_of_cons in Hin as [->|Hin]; [|by apply (H2 o' s')]. rewrite Es in Es'. injection Es' as <-.
    exact (grown_mono _ _ Hg2 (NSec o) (H1 Er)).
Qed.

Lemma mark_roots_ok (fs : list ibfd) (m : marks) :
  std_in m -> fs ⊆ bfds -> (forall o, root o -> may (NSec o)) ->
  exists m', mark_roots bfds secs hashes ents hook fs m = Ret (true, m') /\ grown m m' /\
    forall b o s, b ∈ fs -> swept_file secs b = Ret true -> o ∈ sections b -> secs !! o = Some s -> is_root s = true ->
      o ∈ gc_mark m'.
Proof.
  revert m. induction fs as [|b fs IH]; intros m Hstd Hfs Hmay.
  { exists m. split_and!; [done|apply grown_refl|]. intros b o s Hin. by apply not_elem_of_nil in Hin. }
  assert (b ∈ bfds) as Hb by apply Hfs, list_elem_of_here.
  destruct (wf_swept fwf b Hb) as [v Ev]. cbn [mark_roots]. rewrite Ev. cbn [rbind].
  assert (exists m1, (if v then mark_root_sections bfds secs hashes ents hook (sections b) m else Ret (true, m))
                     = Ret (true, m1) /\ grown m m1 /\
            forall o s, v = true -> o ∈ sections b -> secs !! o = Some s -> is_root s = true -> o ∈ gc_mark m1)
    as (m1 & E1 & Hg1 & H1).
  { destruct v; [|exists m; split_and!; [done|apply grown_refl|done]].
    destruct (mark_root_sections_ok (sections b) m Hstd) as (m1 & E1 & Hg1 & H1).
    - intros o. by apply (wf_sections fwf b).
    - intros o s Hin Es Er. assert (root o) as Hr by by exists b, s. split; [by apply (wf_root fwf)|by apply Hmay].
    - exists m1. split_and!; [done|done|]. intros o s _. apply H1. }
  rewrite E1. cbn [rbind negb]. destruct (IH m1) as (m2 & E2 & Hg2 & H2);
    [by apply (grown_std m)|intros x Hx; by apply Hfs, list_elem_of_further|done|].
  exists m2. split_and!; [done|by apply (grown_trans m m1)|]. intros b' o s Hin Ev' Ho Es Er.
  apply elem_of_cons in Hin as [->|Hin]; [|by apply (H2 b' o s)]. rewrite Ev in Ev'. injection Ev' as ->.
  exact (grown_mono _ _ Hg2 (NSec o) (H1 o s eq_refl Ho Es Er)).
Qed.
End graph.
