(* ===== verification/ElfGcSweep.v ===== *)
(** * What garbage collection leaves

    Marking from the roots marks what they reach; without debugging information
    [bfd_elf_gc_sections] then excludes exactly the sections that are not marked, and
    no section that is kept refers to one that was excluded. *)
From S2P Require Import Prelude FusionReloc ElfGc ElfGcOk.
#[local] Open Scope Z_scope.

(** ** Marking is reachability *)
Section reach.
Context (bfds : list ibfd) (secs : list asection) (hashes : list link_hash_entry) (ents : list eh_cie_fde).
Context (hook : mark_hook) (home rank : nat -> nat) (m0 : marks).

(** A path from a root; [loose] as for [step]. *)
Definition reaches (loose : bool) (x : node) : Prop :=
  exists o, root bfds secs o /\ rtc (step bfds secs hashes ents hook home loose) (NSec o) x.

(** Nothing is marked at the start but sections nothing can be entered through. *)
Record start_ok : Prop := {
  start_secs i : i ∈ gc_mark m0 -> ~ enters bfds secs i;
  start_cies : cie_mark m0 = ∅
}.

Definition data_wf : Prop :=
  gc_wf bfds secs hashes ents hook home (gc_mark m0) rank /\ files_wf bfds secs.

Lemma marked_is_reachable :
  start_ok -> data_wf ->
  exists m', mark_roots bfds secs hashes ents hook bfds m0 = Ret (true, m') /\
    (forall x, reaches false x -> marked m' x) /\
    (forall x, marked m' x -> marked m0 x \/ reaches true x) /\
    (forall x y, marked m' x -> step bfds secs hashes ents hook home false x y -> marked m' y).
Proof.
  intros [Hs Hc] [Hwf Hfs].
  assert (forall x y, reaches true x -> step bfds secs hashes ents hook home true x y -> reaches true y) as Hmay
    by (intros x y (o & Ho & Hp) Hst; exists o; split; [done|by apply rtc_r with x]).
  destruct (mark_roots_ok bfds secs hashes ents hook home (gc_mark m0) rank (reaches true) Hmay Hwf Hfs bfds m0)
    as (m' & E & Hg & Hroots); [by intros i|by intros b|intros o Ho; by exists o|].
  - assert (forall x y, marked m' x -> step bfds secs hashes ents hook home false x y -> marked m' y) as Hclosed.
    { intros x y Hx Hst. apply (grown_done _ _ _ _ _ _ _ _ _ Hg x y Hx); [|done]. intros H0. destruct x as [i|k]; cbn in H0.
      - apply (Hs i H0). by inversion Hst.
      - rewrite Hc in H0. set_solver. }
    exists m'. split_and!; [done| |exact (grown_new _ _ _ _ _ _ _ _ _ Hg)|done].
    intros x (o & (b & s & Hb & Hsw & Ho & Es & Er) & Hp).
    assert (marked m' (NSec o)) as Hm by exact (Hroots b o s Hb Hsw Ho Es Er).
    clear -Hp Hm Hclosed. induction Hp as [x|x y z Hst _ IH]; [done|]. apply IH. by apply (Hclosed x).
Qed.
End reach.

(** ** The sections of debugging information and the special ones *)
Section extra.
Context (bfds : list ibfd) (secs : list asection) (hashes : list link_hash_entry) (ents : list eh_cie_fde).

(** Not allocated, not loaded, without relocations: .comment and the like. *)
Definition idle (s : asection) : bool := negb (has (s_flags s) (Z.lor SEC_ALLOC (Z.lor SEC_LOAD SEC_RELOC))).
Definition created (s : asection) : bool := has (s_flags s) SEC_LINKER_CREATED.
Definition is_group (s : asection) : bool := has (s_flags s) SEC_GROUP.

(** From [i] around a group back to [ssec]. *)
Inductive round (ssec : nat) : nat -> list nat -> Prop :=
| round_last i s : secs !! i = Some s -> next_in_group s = Some ssec -> round ssec i [i]
| round_more i s j l :
    secs !! i = Some s -> next_in_group s = Some j -> j <> ssec -> round ssec j l -> round ssec i (i :: l).

Record groups_wf : Prop := {
  all_sections b o : b ∈ bfds -> o ∈ sections b -> is_Some (secs !! o);
  no_debug i s : secs !! i = Some s -> has (s_flags s) SEC_DEBUGGING = false;
  group_round o s : secs !! o = Some s -> is_group s = true ->
    exists first l, next_in_group s = Some first /\ round first first l /\ (length l <= length secs)%nat /\
      forall t, secs !! first = Some t -> is_group t = false
}.
Context (gwf : groups_wf).

(** Only sections [P] allows are marked as well. *)
Definition adds (P : nat -> Prop) (m m' : marks) : Prop :=
  gc_mark m ⊆ gc_mark m' /\ forall i, i ∈ gc_mark m' -> i ∈ gc_mark m \/ P i.

Lemma adds_refl (P : nat -> Prop) (m : marks) : adds P m m.
Proof. split; [done|by left]. Qed.

Lemma adds_trans (P : nat -> Prop) (m1 m2 m3 : marks) : adds P m1 m2 -> adds P m2 m3 -> adds P m1 m3.
Proof. intros [A1 A2] [B1 B2]. split; [by etrans|]. intros i Hi. apply B2 in Hi as [Hi|]; auto. Qed.

Lemma adds_one (P : nat -> Prop) (m : marks) (i : nat) : P i -> adds P m (mark_sec i m).
Proof.
  intros Hp. split; cbn; [apply union_subseteq_r|]. intros j. rewrite elem_of_union, elem_of_singleton.
  intros [->|?]; auto.
Qed.

Definition side (i : nat) : Prop := exists s, secs !! i = Some s /\ (created s = true \/ idle s = true).

Lemma next_member_some (i : nat) (s : asection) (j : nat) :
  secs !! i = Some s -> next_in_group s = Some j -> next_member secs i = Ret j.
Proof. intros Es En. unfold next_member. rewrite (at_index_some _ _ _ Es). cbn [rbind]. by rewrite En. Qed.

Lemma scan_group_ok (fuel ssec i : nat) (l : list nat) (d sp : bool) :
  round ssec i l -> (length l <= fuel)%nat ->
  exists sp', scan_group secs fuel ssec i d sp = Ret (false, sp') /\
    (sp' = true -> sp = true /\ forall j, j ∈ l -> side j).
Proof.
  intros Hr. revert fuel d sp. induction Hr as [i s Es En|i s j l Es En Hne Hr IH]; intros fuel d sp Hf;
    (destruct fuel as [|fuel]; [cbn in Hf; lia|]); cbn [scan_group];
    rewrite (at_index_some _ _ _ Es); cbn [rbind]; rewrite (next_member_some i s _ Es En); cbn [rbind];
    rewrite (no_debug gwf i s Es), andb_false_r; fold (idle s).
  - rewrite Nat.eqb_refl. eexists. split; [done|]. intros [Hsp Hid]%andb_true_iff. split; [done|].
    intros j. rewrite list_elem_of_singleton. intros ->. exists s. auto.
  - rewrite (proj2 (Nat.eqb_neq j ssec) Hne). destruct (IH fuel false (sp && idle s)) as (sp' & E & Hsp'); [cbn in Hf; lia|].
    exists sp'. split; [done|]. intros H1. destruct (Hsp' H1) as [[Hsp Hid]%andb_true_iff Hl]. split; [done|].
    intros k Hk. apply elem_of_cons in Hk as [->|Hk]; [exists s; auto|by apply Hl].
Qed.

Lemma mark_group_ok (P : nat -> Prop) (fuel ssec i : nat) (l : list nat) (m : marks) :
  round ssec i l -> (length l <= fuel)%nat -> (forall j, j ∈ l -> P j) ->
  exists m', mark_group secs fuel ssec i m = Ret m' /\ adds P m m'.
Proof.
  intros Hr. revert fuel m. induction Hr as [i s Es En|i s j l Es En Hne Hr IH]; intros fuel m Hf Hp;
    (destruct fuel as [|fuel]; [cbn in Hf; lia|]); cbn [mark_group];
    rewrite (next_member_some i s _ Es En); cbn [rbind].
  - rewrite Nat.eqb_refl. exists (mark_sec i m). split; [done|]. apply adds_one, Hp, list_elem_of_here.
  - rewrite (proj2 (Nat.eqb_neq j ssec) Hne). destruct (IH fuel (mark_sec i m)) as (m' & E & Ha);
      [cbn in Hf; lia|intros k Hk; by apply Hp, list_elem_of_further|].
    exists m'. split; [done|]. eapply adds_trans; [|exact Ha]. apply adds_one, Hp, list_elem_of_here.
Qed.

Lemma special_group_ok (o : nat) (s : asection) (m : marks) :
  secs !! o = Some s -> is_group s = true ->
  exists m', _bfd_elf_gc_mark_debug_special_section_group secs o m = Ret m' /\ adds side m m'.
Proof.
  intros Es Hg. destruct (group_round gwf o s Es Hg) as (first & l & En & Hr & Hl & _).
  unfold _bfd_elf_gc_mark_debug_special_section_group. rewrite (next_member_some o s first Es En). cbn [rbind].
  destruct (scan_group_ok (S (length secs)) first first l true true Hr) as (sp & E & Hsp); [lia|].
  rewrite E. cbn [rbind orb]. destruct sp; [|exists m; split; [done|apply adds_refl]].
  apply (mark_group_ok side _ first first l); [done|lia|]. by apply Hsp.
Qed.

Lemma keep_created_ok (l : list nat) (m : marks) (k d : bool) :
  (forall o, o ∈ l -> is_Some (secs !! o)) ->
  exists m' k' d', keep_created secs l m k d = Ret (m', k', d') /\ adds side m m'.
Proof.
  revert m k d. induction l as [|i l IH]; intros m k d Hl; [exists m, k, d; split; [done|apply adds_refl]|].
  destruct (Hl i (list_elem_of_here _ _)) as [s Es]. cbn [keep_created]. rewrite (at_index_some _ _ _ Es). cbn [rbind].
  fold (created s).
  match goal with |- context [keep_created secs l ?m1 ?k1 ?d1] => destruct (IH m1 k1 d1) as (m' & k' & d' & E & Ha) end;
    [intros o Ho; by apply Hl, list_elem_of_further|].
  exists m', k', d'. split; [done|]. eapply adds_trans; [|exact Ha].
  destruct (created s) eqn:Ec; [|apply adds_refl]. apply adds_one. exists s. auto.
Qed.

Lemma keep_special_ok (l : list nat) (m : marks) :
  (forall o, o ∈ l -> is_Some (secs !! o)) ->
  exists m', keep_special secs l m false = Ret (m', false) /\ adds side m m'.
Proof.
  revert m. induction l as [|i l IH]; intros m Hl; [exists m; split; [done|apply adds_refl]|].
  destruct (Hl i (list_elem_of_here _ _)) as [s Es]. cbn [keep_special]. rewrite (at_index_some _ _ _ Es). cbn [rbind].
  fold (is_group s) (idle s). rewrite (no_debug gwf i s Es). cbn [orb].
  assert (exists m1, (if is_group s then _bfd_elf_gc_mark_debug_special_section_group secs i m
                      else if idle s && bool_decide (next_in_group s = None) then Ret (mark_sec i m) else Ret m) = Ret m1
                     /\ adds side m m1) as (m1 & E1 & Ha1).
  { destruct (is_group s) eqn:Eg; [by apply (special_group_ok i s)|].
    destruct (idle s && _) eqn:Ei; [|exists m; split; [done|apply adds_refl]].
    apply andb_true_iff in Ei as [Ei _]. exists (mark_sec i m). split; [done|]. apply adds_one. exists s. auto. }
  rewrite E1. cbn [rbind]. rewrite andb_false_r.
  destruct (IH m1) as (m' & E & Ha); [intros o Ho; by apply Hl, list_elem_of_further|].
  exists m'. split; [done|]. by apply (adds_trans _ m m1).
Qed.

Lemma drop_fragments_of_ok (name : string) (l : list nat) (m : marks) :
  (forall o, o ∈ l -> is_Some (secs !! o)) -> drop_fragments_of secs name l m = Ret m.
Proof.
  induction l as [|i l IH]; intros Hl; [done|]. destruct (Hl i (list_elem_of_here _ _)) as [s Es].
  cbn [drop_fragments_of]. rewrite (at_index_some _ _ _ Es). cbn [rbind]. rewrite (no_debug gwf i s Es), andb_false_r.
  cbn [andb]. apply IH. intros o Ho. by apply Hl, list_elem_of_further.
Qed.

Lemma drop_fragments_ok (all l : list nat) (m : marks) :
  (forall o, o ∈ all -> is_Some (secs !! o)) -> (forall o, o ∈ l -> is_Some (secs !! o)) ->
  drop_fragments secs all l m = Ret m.
Proof.
  intros Ha. induction l as [|i l IH]; intros Hl; [done|]. destruct (Hl i (list_elem_of_here _ _)) as [s Es].
  cbn [drop_fragments]. rewrite (at_index_some _ _ _ Es). cbn [rbind]. rewrite drop_fragments_of_ok by done.
  destruct (_ && _); cbn [rbind]; apply IH; intros o Ho; by apply Hl, list_elem_of_further.
Qed.

Lemma extra_sections_ok (fs : list ibfd) (m : marks) :
  fs ⊆ bfds ->
  exists m', _bfd_elf_gc_mark_extra_sections bfds secs hashes ents fs m = Ret (true, m') /\ adds side m m'.
Proof.
  revert m. induction fs as [|b fs IH]; intros m Hfs; [exists m; split; [done|apply adds_refl]|].
  assert (b ∈ bfds) as Hb by apply Hfs, list_elem_of_here. cbn [_bfd_elf_gc_mark_extra_sections].
  assert (exists m1, extra_sections_of bfds secs hashes ents b m = Ret (true, m1) /\ adds side m m1) as (m1 & E1 & Ha1).
  { unfold extra_sections_of. pose proof (fun o => all_sections gwf b o Hb) as Hl.
    destruct (negb (elf_flavour b)); cbn [rbind negb]; [exists m; split; [done|apply adds_refl]|].
    destruct (sections b) as [|o l] eqn:Esec; cbn [rbind negb]; [exists m; split; [done|apply adds_refl]|].
    destruct (Hl o (list_elem_of_here _ _)) as [s Es]. rewrite (at_index_some _ _ _ Es). cbn [rbind].
    destruct (negb (negb (just_syms s))); [exists m; split; [done|apply adds_refl]|].
    destruct (keep_created_ok (o :: l) m false false Hl) as (m1 & k & d & E & Ha). rewrite E. cbn [rbind].
    destruct (negb k); [by exists m1|]. destruct (keep_special_ok (o :: l) m1 Hl) as (m2 & E2 & Ha2). rewrite E2.
    cbn [rbind]. rewrite drop_fragments_ok by done. exists m2. split; [by destruct d|]. by apply (adds_trans _ m m1). }
  rewrite E1. cbn [rbind negb]. destruct (IH m1) as (m' & E & Ha); [intros x Hx; by apply Hfs, list_elem_of_further|].
  exists m'. split; [done|]. by apply (adds_trans _ m m1).
Qed.
End extra.

(** ** Sweeping *)
Definition excluded (s : asection) : asection := set_flags (Z.lor (s_flags s) SEC_EXCLUDE) s.

Lemma has_excluded (f : Z) : has (Z.lor f SEC_EXCLUDE) SEC_EXCLUDE = true.
Proof.
  unfold has. rewrite Z.land_lor_distr_l. change (Z.land SEC_EXCLUDE SEC_EXCLUDE) with SEC_EXCLUDE.
  destruct (Z.eqb_spec (Z.lor (Z.land f SEC_EXCLUDE) SEC_EXCLUDE) 0) as [E|]; [|done].
  apply Z.lor_eq_0_iff in E as [_ E]. discriminate.
Qed.

Lemma has_other (f g : Z) : Z.land SEC_EXCLUDE g = 0 -> has (Z.lor f SEC_EXCLUDE) g = has f g.
Proof. intros Hg. unfold has. by rewrite Z.land_lor_distr_l, Hg, Z.lor_0_r. Qed.

Lemma excluded_twice (s : asection) : has (s_flags s) SEC_EXCLUDE = true -> excluded s = s.
Proof.
  intros Hh. unfold excluded. destruct s as [a b f d e g h i j k l o]. cbn in *. unfold set_flags. cbn. f_equal.
  apply Z.bits_inj'. intros n Hn. rewrite Z.lor_spec. destruct (Z.testbit SEC_EXCLUDE n) eqn:E; [|apply orb_false_r].
  assert (n = 15) as -> by (change SEC_EXCLUDE with (2 ^ 15) in E; rewrite Z.pow2_bits_eqb in E by lia; lia).
  symmetry. rewrite orb_true_r. unfold has in Hh. apply negb_true_iff, Z.eqb_neq in Hh.
  destruct (Z.testbit f 15) eqn:E15; [done|]. destruct Hh. apply Z.bits_inj'. intros k0 Hk0.
  rewrite Z.land_spec, Z.bits_0. change SEC_EXCLUDE with (2 ^ 15). rewrite Z.pow2_bits_eqb by lia.
  destruct (Z.eqb_spec 15 k0) as [<-|]; [by rewrite E15|apply andb_false_r].
Qed.

Section sweep.
Context (bfds : list ibfd) (secs : list asection) (m : marks) (print : bool).
Context (gwf : groups_wf bfds secs).

Definition swept_section (i : nat) : Prop :=
  exists b, b ∈ bfds /\ swept_file secs b = Ret true /\ i ∈ sections b.

(** A group is kept with its first member. *)
Definition kept (i : nat) (s : asection) : Prop :=
  if is_group s then match next_in_group s with Some first => first ∈ gc_mark m | None => False end
  else i ∈ gc_mark m.

#[global] Instance kept_dec (i : nat) (s : asection) : Decision (kept i s).
Proof. unfold kept. destruct (is_group s); [destruct (next_in_group s)|]; apply _. Defined.

(** After the sections [seen] were swept. *)
Record sweeping (seen : list nat) (w : swept) : Prop := {
  sweep_kept i s : secs !! i = Some s -> kept i s \/ i ∉ seen -> w_secs w !! i = Some s;
  sweep_gone i s : secs !! i = Some s -> ~ kept i s -> i ∈ seen -> w_secs w !! i = Some (excluded s);
  sweep_marks i s : secs !! i = Some s -> is_group s = false -> i ∈ gc_mark (w_marks w) <-> i ∈ gc_mark m
}.

(** A section of the heap, excluded or not. *)
Lemma sweeping_at (seen : list nat) (w : swept) (o : nat) (s : asection) :
  sweeping seen w -> secs !! o = Some s -> exists t, w_secs w !! o = Some t /\ (t = s \/ t = excluded s).
Proof.
  intros [H1 H2 _] Es. destruct (decide (kept o s)) as [Hk|Hk]; [exists s; auto|].
  destruct (decide (o ∈ seen)); [exists (excluded s); auto|exists s; auto].
Qed.

Lemma either_group (s t : asection) : t = s \/ t = excluded s ->
  is_group t = is_group s /\ next_in_group t = next_in_group s /\ just_syms t = just_syms s.
Proof. intros [->| ->]; [done|]. split_and!; [|done|done]. by apply has_other. Qed.

(** The mark of the section when it is its turn. *)
Lemma sweep_mark_ok (seen : list nat) (o : nat) (s t : asection) (w : swept) :
  sweeping seen w -> secs !! o = Some s -> w_secs w !! o = Some t -> t = s \/ t = excluded s ->
  exists m', (if has (s_flags t) SEC_GROUP then
                match next_in_group t with
                | None => Fail Foob
                | Some first =>
                    let! _ := at_index (w_secs w) first in
                    Ret (if bool_decide (first ∈ gc_mark (w_marks w)) then mark_sec o (w_marks w) else clear_sec o (w_marks w))
                end
              else Ret (w_marks w)) = Ret m' /\
    (o ∈ gc_mark m' <-> kept o s) /\
    forall i u, secs !! i = Some u -> is_group u = false -> i ∈ gc_mark m' <-> i ∈ gc_mark m.
Proof.
  intros Hw Es Et Ht. pose proof Hw as [H1 H2 H3]. destruct (either_group s t Ht) as (Eg & En & _).
  change (has (s_flags t) SEC_GROUP) with (is_group t). rewrite Eg, En. unfold kept.
  destruct (is_group s) eqn:Egs; [|exists (w_marks w); split_and!; [done|by apply (H3 o s)|exact H3]].
  destruct (group_round _ _ gwf o s Es Egs) as (first & l & Ef & Hr & _ & Hng). rewrite Ef.
  assert (exists u, secs !! first = Some u) as [u Eu] by (inversion Hr; eauto).
  destruct (sweeping_at seen w first u Hw Eu) as (v & Ev & _). rewrite (at_index_some _ _ _ Ev). cbn [rbind].
  assert (o <> first) as Hne by (intros ->; rewrite Es in Eu; injection Eu as <-; by rewrite (Hng s Es) in Egs).
  eexists. split; [reflexivity|]. rewrite (bool_decide_ext _ _ (H3 first u Eu (Hng u Eu))).
  split.
  - case_bool_decide as Hf; cbn; rewrite ?elem_of_union, ?elem_of_difference, ?elem_of_singleton; tauto.
  - intros i x Ex Hx. rewrite <- (H3 i x Ex Hx). assert (i <> o) by (intros ->; congruence).
    case_bool_decide as Hf; cbn; rewrite ?elem_of_union, ?elem_of_difference, ?elem_of_singleton; tauto.
Qed.

Lemma sweep_section_ok (seen : list nat) (o : nat) (w : swept) :
  sweeping seen w -> is_Some (secs !! o) -> exists w', sweep_section print o w = Ret w' /\ sweeping (o :: seen) w'.
Proof.
  intros Hw [s Es]. pose proof Hw as [H1 H2 H3]. destruct (sweeping_at seen w o s Hw Es) as (t & Et & Ht).
  destruct (sweep_mark_ok seen o s t w Hw Es Et Ht) as (m' & Em & Hk & Hm'). unfold sweep_section.
  rewrite (at_index_some _ _ _ Et). cbn [rbind]. rewrite Em. cbn [rbind].
  rewrite (bool_decide_ext _ _ Hk).
  case_bool_decide as Hkept; [|destruct (has (s_flags t) SEC_EXCLUDE) eqn:Ex]; cbn [orb].
  - eexists. split; [reflexivity|]. split; cbn; [| |exact Hm'].
    + intros i u Eu [Hi|Hi]; apply (H1 i u Eu); [by left|]. right. by apply not_elem_of_cons in Hi as [_ Hi].
    + intros i u Eu Hn Hi. apply elem_of_cons in Hi as [->|Hi]; [|by apply H2]. rewrite Es in Eu. by injection Eu as <-.
  - eexists. split; [reflexivity|]. split; cbn; [| |exact Hm'].
    + intros i u Eu [Hi|Hi]; apply (H1 i u Eu); [by left|]. right. by apply not_elem_of_cons in Hi as [_ Hi].
    + intros i u Eu Hn Hi. apply elem_of_cons in Hi as [->|Hi]; [|by apply H2]. rewrite Es in Eu. injection Eu as <-.
      rewrite Et. f_equal. destruct Ht as [->| ->]; [|done]. symmetry. by apply excluded_twice.
  - unfold or_flag. rewrite (at_index_some _ _ _ Et). cbn [rbind]. eexists. split; [reflexivity|].
    assert (t = s) as -> by (destruct Ht as [->| ->]; [done|]; cbn in Ex; by rewrite has_excluded in Ex).
    split; cbn; [| |exact Hm'].
    + intros i u Eu Hi. rewrite list_lookup_insert_ne.
      * apply (H1 i u Eu). destruct Hi as [Hi|Hi]; [by left|]. right. by apply not_elem_of_cons in Hi as [_ Hi].
      * intros <-. rewrite Es in Eu. injection Eu as <-. destruct Hi as [Hi|Hi]; [done|]. apply Hi, list_elem_of_here.
    + intros i u Eu Hn Hi. destruct (decide (i = o)) as [->|Hne].
      * rewrite list_lookup_insert_eq by (by apply lookup_lt_Some in Et). rewrite Es in Eu. by injection Eu as <-.
      * rewrite list_lookup_insert_ne by done. apply elem_of_cons in Hi as [?|Hi]; [done|]. by apply H2.
Qed.

Lemma sweep_sections_ok (l seen : list nat) (w : swept) :
  sweeping seen w -> (forall o, o ∈ l -> is_Some (secs !! o)) ->
  exists w' seen', sweep_sections print l w = Ret w' /\ sweeping seen' w' /\ forall i, i ∈ seen' <-> i ∈ seen \/ i ∈ l.
Proof.
  revert seen w. induction l as [|o l IH]; intros seen w Hw Hl; [|cbn [sweep_sections]].
  { exists w, seen. split_and!; [done|done|]. intros i. rewrite elem_of_nil. tauto. }
  destruct (sweep_section_ok seen o w Hw (Hl o (list_elem_of_here _ _))) as (w1 & E1 & Hw1). rewrite E1. cbn [rbind].
  destruct (IH (o :: seen) w1 Hw1) as (w' & seen' & E & Hw' & Hs); [intros x Hx; by apply Hl, list_elem_of_further|].
  exists w', seen'. split_and!; [done|done|]. intros i. rewrite Hs, !elem_of_cons. tauto.
Qed.

Lemma swept_file_same (seen : list nat) (w : swept) (b : ibfd) :
  sweeping seen w -> b ∈ bfds -> swept_file (w_secs w) b = swept_file secs b.
Proof.
  intros Hw Hb. unfold swept_file. destruct (_ || _); [done|]. pose proof (fun o => all_sections _ _ gwf b o Hb) as Hl.
  destruct (sections b) as [|o l]; [done|]. destruct (Hl o (list_elem_of_here _ _)) as [s Es].
  destruct (sweeping_at seen w o s Hw Es) as (t & Et & Ht). rewrite (at_index_some _ _ _ Es), (at_index_some _ _ _ Et).
  cbn [rbind]. by destruct (either_group s t Ht) as (_ & _ & ->).
Qed.

Lemma elf_gc_sweep_ok (fs : list ibfd) (seen : list nat) (w : swept) :
  sweeping seen w -> fs ⊆ bfds -> (forall b, b ∈ bfds -> exists v, swept_file secs b = Ret v) ->
  exists w' seen', elf_gc_sweep print fs w = Ret (true, w') /\ sweeping seen' w' /\
    forall i, i ∈ seen' <-> i ∈ seen \/ exists b, b ∈ fs /\ swept_file secs b = Ret true /\ i ∈ sections b.
Proof.
  revert seen w. induction fs as [|b fs IH]; intros seen w Hw Hfs Hv.
  { exists w, seen. split_and!; [done|done|]. intros i. split; [by left|]. intros [|(b & Hb & _)]; [done|].
    by apply not_elem_of_nil in Hb. }
  assert (b ∈ bfds) as Hb by apply Hfs, list_elem_of_here. destruct (Hv b Hb) as [v Ev]. cbn [elf_gc_sweep].
  rewrite (swept_file_same seen w b Hw Hb), Ev. cbn [rbind].
  assert (exists w1 seen1, (if v then sweep_sections print (sections b) w else Ret w) = Ret w1 /\ sweeping seen1 w1 /\
    forall i, i ∈ seen1 <-> i ∈ seen \/ (v = true /\ i ∈ sections b)) as (w1 & seen1 & E1 & Hw1 & Hs1).
  { destruct v; [|exists w, seen; split_and!; [done|done|intros i; split; [by left|intros [?|[? _]]; done]]].
    destruct (sweep_sections_ok (sections b) seen w Hw) as (w1 & seen1 & E1 & Hw1 & Hs1);
      [intros o; by apply (all_sections _ _ gwf b)|]. exists w1, seen1. split_and!; [done|done|]. intros i. rewrite Hs1. tauto. }
  rewrite E1. cbn [rbind]. destruct (IH seen1 w1 Hw1) as (w' & seen' & E & Hw' & Hs);
    [intros x Hx; by apply Hfs, list_elem_of_further|done|].
  exists w', seen'. split_and!; [done|done|]. intros i. rewrite Hs, Hs1. split.
  - intros [[Hi|[-> Hi]]|(b' & Hb' & Hi)]; [by left|right; exists b|right; exists b']; rewrite elem_of_cons; auto.
  - intros [Hi|(b' & Hb' & Ev' & Hi)]; [tauto|]. apply elem_of_cons in Hb' as [->|Hb']; [|eauto].
    rewrite Ev in Ev'. injection Ev' as ->. tauto.
Qed.

Lemma sweeping_start : sweeping [] (mk_swept secs m []).
Proof. split; cbn; [done| |done]. intros i s _ _ Hi. by apply not_elem_of_nil in Hi. Qed.
End sweep.

(** ** The whole *)
Section whole.
Context (info : link_info) (bfds : list ibfd) (htab : gmap string nat) (hashes : list link_hash_entry).
Context (ents : list eh_cie_fde) (secs : list asection) (home rank : nat -> nat) (m0 : marks).

Definition fusion_reaches (loose : bool) (i : nat) : Prop :=
  reaches bfds secs hashes ents (fusion_elf_gc_mark_hook bfds secs) home loose (NSec i).

Definition refers (i j : nat) : Prop :=
  step bfds secs hashes ents (fusion_elf_gc_mark_hook bfds secs) home false (NSec i) (NSec j).

(** What the sections are after the collection. *)
Record collected (ws : list asection) : Prop := {
  reached_stay i s : secs !! i = Some s -> is_group s = false -> fusion_reaches false i -> ws !! i = Some s;
  unreached_go i s : secs !! i = Some s -> is_group s = false -> swept_section bfds secs i ->
    i ∉ gc_mark m0 -> ~ fusion_reaches true i -> created s = false -> idle s = false -> ws !! i = Some (excluded s);
  no_dangling i s j t : secs !! i = Some s -> is_group s = false -> swept_section bfds secs i ->
    created s = false -> idle s = false -> has (s_flags s) SEC_EXCLUDE = false -> ws !! i = Some s ->
    refers i j -> secs !! j = Some t -> is_group t = false -> ws !! j = Some t;
  others_stay i s : secs !! i = Some s -> ~ swept_section bfds secs i -> ws !! i = Some s
}.

Lemma collection_ok :
  start_ok bfds secs m0 ->
  data_wf bfds secs hashes ents (fusion_elf_gc_mark_hook bfds secs) home rank m0 -> groups_wf bfds secs ->
  exists m1 m2 w, mark_roots bfds secs hashes ents (fusion_elf_gc_mark_hook bfds secs) bfds m0 = Ret (true, m1) /\
    _bfd_elf_gc_mark_extra_sections bfds secs hashes ents bfds m1 = Ret (true, m2) /\
    elf_gc_sweep (print_gc_sections info) bfds (mk_swept secs m2 []) = Ret (true, w) /\ collected (w_secs w).
Proof.
  intros Hst Hwf Hgwf.
  destruct (marked_is_reachable _ _ _ _ _ _ _ _ Hst Hwf) as (m1 & E1 & Hlow & Hup & Hclosed).
  destruct (extra_sections_ok bfds secs hashes ents Hgwf bfds m1) as (m2 & E2 & Hsub & Hadd); [by intros b|].
  destruct Hwf as [_ Hfs].
  destruct (elf_gc_sweep_ok bfds secs m2 (print_gc_sections info) Hgwf bfds [] _ (sweeping_start _ _) ltac:(by intros b)
    (wf_swept _ _ Hfs)) as (w & seen & E3 & [W1 W2 _] & Hseen).
  assert (forall i, i ∈ seen <-> swept_section bfds secs i) as Hsw.
  { intros i. rewrite Hseen, elem_of_nil. unfold swept_section. tauto. }
  exists m1, m2, w. split_and!; [done|done|done|]. split.
  - intros i s Es Eg Hr. apply (W1 i s Es). left. unfold kept. rewrite Eg. by apply Hsub, (Hlow (NSec i)).
  - intros i s Es Eg Hin H0 Hn Hc Hid. apply (W2 i s Es); [|by apply Hsw]. unfold kept. rewrite Eg. intros Hk.
    apply Hadd in Hk as [Hk|(s' & Es' & Hk)].
    + destruct (Hup (NSec i) Hk) as [Hk'|Hk']; [by apply H0|by apply Hn].
    + rewrite Es in Es'. injection Es' as <-. destruct Hk; congruence.
  - intros i s j t Es Eg Hin Hc Hid Hex Hw Hst' Et Egt. apply (W1 j t Et). left. unfold kept. rewrite Egt. apply Hsub.
    apply (Hclosed (NSec i) (NSec j)); [|done]. cbn.
    destruct (decide (kept m2 i s)) as [Hk|Hk].
    + unfold kept in Hk. rewrite Eg in Hk. apply Hadd in Hk as [Hk|(s' & Es' & Hk)]; [done|].
      rewrite Es in Es'. injection Es' as <-. destruct Hk; congruence.
    + rewrite (W2 i s Es Hk) in Hw by by apply Hsw. injection Hw as Hw. rewrite <- Hw in Hex. cbn in Hex.
      by rewrite has_excluded in Hex.
  - intros i s Es Hn. apply (W1 i s Es). right. by rewrite Hsw.
Qed.
End whole.

(** ** The claims *)

(** C14.  From well-formed data the marking phase of the garbage collection returns TRUE
    and marks the sections that can be reached from the roots: every section and CIE a
    path of references leads to from a root is marked, and whatever is marked was so at
    the start or is reached by such a path, where a reference to a __start or __stop
    symbol may count for all sections of the name. *)
Theorem gc_marks_reachable (bfds : list ibfd) (secs : list asection) (hashes : list link_hash_entry)
    (ents : list eh_cie_fde) (home rank : nat -> nat) (m0 : marks) :
  start_ok bfds secs m0 ->
  data_wf bfds secs hashes ents (fusion_elf_gc_mark_hook bfds secs) home rank m0 ->
  exists m', mark_roots bfds secs hashes ents (fusion_elf_gc_mark_hook bfds secs) bfds m0 = Ret (true, m') /\
    (forall x, reaches bfds secs hashes ents (fusion_elf_gc_mark_hook bfds secs) home false x -> marked m' x) /\
    (forall x, marked m' x ->
       marked m0 x \/ reaches bfds secs hashes ents (fusion_elf_gc_mark_hook bfds secs) home true x).
Proof.
  intros Hs Hwf. destruct (marked_is_reachable _ _ _ _ _ _ _ _ Hs Hwf) as (m' & E & H1 & H2 & _).
  by exists m'.
Qed.

(** C13.  Without debugging information bfd_elf_gc_sections returns TRUE; of the sections
    of the files it sweeps, groups apart, those the roots reach stay as they are, those
    they do not reach are excluded (but for sections the linker made and those that
    are neither allocated nor relocated), and no section that stays refers to one that
    was excluded; the other sections stay as they are. *)
Theorem gc_sections_safe (info : link_info) (bfds : list ibfd) (htab : gmap string nat)
    (hashes : list link_hash_entry) (ents : list eh_cie_fde) (secs0 secs : list asection) (home rank : nat -> nat)
    (m0 : marks) :
  set_keep_flags info htab hashes secs0 = Ret secs -> start_ok bfds secs m0 ->
  data_wf bfds secs hashes ents (fusion_elf_gc_mark_hook bfds secs) home rank m0 -> groups_wf bfds secs ->
  exists w, bfd_elf_gc_sections info bfds htab hashes ents secs0 m0 = Ret (true, w) /\
    collected bfds hashes ents secs home m0 (w_secs w).
Proof.
  intros Ek Hst Hwf Hgwf.
  destruct (collection_ok info bfds hashes ents secs home rank m0 Hst Hwf Hgwf) as (m1 & m2 & w & E1 & E2 & E3 & Hw).
  exists w. split; [|done]. unfold bfd_elf_gc_sections. rewrite Ek. cbn [rbind]. rewrite E1. cbn [rbind negb].
  rewrite E2. cbn [rbind]. exact E3.
Qed.

(** *** Witnesses *)

(** One object file: main refers to f, by a local symbol, and through an indirect symbol to
    an absolute one; f refers back to main; unused refers to f.  The FDE of main has
    a CIE whose personality routine is in a section of its own. *)
Definition CODE_FLAGS : Z := 0x17.

Definition ex_section (name : string) (flags : Z) (rs : list Elf_Internal_Rela) (fdes : list nat) : asection :=
  mk_section name (of_bfd 0) flags 8 [] false (length rs) (Some rs) 1 None fdes None.

Definition ex_rel (off sym : Z) : Elf_Internal_Rela := mk_rela off (Z.shiftl sym 8) 0.

Definition ex_secs : list asection :=
  [mk_section "*ABS*" bfd_abs_section 0 0 [] false 0 None 0 None [] None;
   ex_section ".text.main" CODE_FLAGS [ex_rel 0 1; ex_rel 4 3] [1%nat];
   ex_section ".text.f" CODE_FLAGS [ex_rel 0 2] [];
   ex_section ".text.unused" CODE_FLAGS [ex_rel 0 1] [];
   ex_section ".eh_frame" (Z.lor SEC_KEEP CODE_FLAGS) [ex_rel 4 4; ex_rel 20 2] [];
   ex_section ".text.pers" CODE_FLAGS [] [];
   ex_section ".comment" 0 [] []].

Definition ex_hash (name : string) (ty : link_hash_type) : link_hash_entry :=
  mk_hash name ty None None false true false false 0 false.

Definition ex_hashes : list link_hash_entry :=
  [ex_hash "main" (bfd_link_hash_defined 1); ex_hash "alias" (bfd_link_hash_indirect 2);
   ex_hash "abs" (bfd_link_hash_defined 0); ex_hash "pers" (bfd_link_hash_defweak 5)].

Definition ex_bfds : list ibfd :=
  [mk_bfd true false true [1; 2; 3; 4; 5; 6]%nat (fun _ => None) false 0 2
     (Some [mk_local_sym 0 0; mk_local_sym 3 2]) [Some 0; Some 1; Some 3]%nat
     [None; Some 1; Some 2; Some 3]%nat (Some 4%nat)].

Definition ex_ents : list eh_cie_fde := [mk_eh None 0 16 0; mk_eh (Some 0%nat) 1 16 16].
Definition ex_marks : marks := mk_marks {[0%nat]} ∅ ∅.
Definition ex_info : link_info := mk_info ["main"] true false false true false None (fun _ => false).
Definition ex_htab : gmap string nat := {["main" := 0%nat]}.

Definition ex_kept : list asection := <[1%nat := ex_section ".text.main" (Z.lor SEC_KEEP CODE_FLAGS) [ex_rel 0 1; ex_rel 4 3] [1%nat]]> ex_secs.

Lemma ex_keep : set_keep_flags ex_info ex_htab ex_hashes ex_secs = Ret ex_kept.
Proof. vm_compute. reflexivity. Qed.

Tactic Notation "each_section" ident(i) ident(H) :=
  destruct i as [|[|[|[|[|[|[|i]]]]]]]; [cbv in H; injection H as <-..|discriminate H].

Lemma ex_enters (i : nat) : enters ex_bfds ex_kept i <-> (1 <= i <= 6)%nat.
Proof.
  split.
  - intros (s & b & f & Es & Eo & _). each_section i Es; cbv in Eo; try discriminate; lia.
  - intros Hi. destruct i as [|[|[|[|[|[|[|i]]]]]]]; try lia; eexists _, 0%nat, _; repeat (split; [reflexivity|]); reflexivity.
Qed.

Lemma ex_start : start_ok ex_bfds ex_kept ex_marks.
Proof.
  split; [|done]. intros i Hi He. cbn in Hi. apply elem_of_singleton in Hi as ->. apply ex_enters in He. lia.
Qed.

Lemma ex_groups : groups_wf ex_bfds ex_kept.
Proof.
  split.
  - intros b o Hb Ho. apply list_elem_of_singleton in Hb as ->. cbn in Ho. rewrite !elem_of_cons, elem_of_nil in Ho.
    destruct_or! Ho; subst; try done; by eexists.
  - intros i s Es. each_section i Es; reflexivity.
  - intros o s Es Hg. each_section o Es; discriminate.
Qed.

Definition ex_file : ibfd := default (mk_bfd false false false [] (fun _ => None) false 0 0 None [] [] None) (head ex_bfds).

Lemma ex_file_at (s : asection) (f : ibfd) : file_at ex_bfds s f -> f = ex_file.
Proof. intros (b & _ & Eb). destruct b as [|b]; [by injection Eb|discriminate]. Qed.

Lemma ex_place (j : nat) : (j <= 6)%nat -> place_ok ex_bfds ex_kept {[0%nat]} j.
Proof.
  intros Hj. destruct j as [|j]; [eexists; split; [reflexivity|left; by apply elem_of_singleton]|].
  destruct j as [|[|[|[|[|[|j]]]]]]; try lia; eexists; (split; [reflexivity|right; exists ex_file, 0%nat; done]).
Qed.

Definition ex_hook : mark_hook := fusion_elf_gc_mark_hook ex_bfds ex_kept.

(** A relocation whose section is computed. *)
Ltac good_rel := eexists _, _, _; split; [reflexivity|intros ? [= <-]; apply ex_place; lia].

Lemma ex_data : data_wf ex_bfds ex_kept ex_hashes ex_ents ex_hook (fun _ => 4%nat) (fun _ => 0%nat) ex_marks.
Proof.
  split; [split|split].
  - intros i s g _ Es En. each_section i Es; discriminate.
  - intros i s g _ Es En. each_section i Es; discriminate.
  - intros i s f _ Es Hf Ho. apply ex_file_at in Hf as ->.
    each_section i Es; try discriminate; (eexists; split; [reflexivity|]); repeat constructor; good_rel.
  - intros i s f e _ Es Hf He _. apply ex_file_at in Hf as ->. injection He as <-. eexists. reflexivity.
  - intros i s f e c k _ Es Hf He Hc Hk. apply ex_file_at in Hf as ->. injection He as <-.
    cbv in Hc. injection Hc as <-. each_section i Es; cbv in Hk; try (by apply not_elem_of_nil in Hk).
    apply list_elem_of_singleton in Hk as ->. eexists. split; [reflexivity|]. split; [repeat constructor; good_rel|].
    intros k' [= <-]. split; [done|]. eexists. split; [reflexivity|]. repeat constructor; good_rel.
  - intros r (s & Es & _). exists None. split; [|done]. each_section r Es; reflexivity.
  - intros r. lia.
  - intros b Hb. apply list_elem_of_singleton in Hb as ->. exists true. reflexivity.
  - intros b o Hb _ Ho. apply list_elem_of_singleton in Hb as ->. cbn in Ho. rewrite !elem_of_cons, elem_of_nil in Ho.
    destruct_or! Ho; subst; try done; by eexists.
  - intros o (b & s & Hb & _ & Ho & Es & Er). apply ex_enters. apply list_elem_of_singleton in Hb as ->.
    cbn in Ho. rewrite !elem_of_cons, elem_of_nil in Ho. destruct_or! Ho; subst; try done; lia.
Qed.

Lemma gc_marks_reachable_witness :
  exists m', mark_roots ex_bfds ex_kept ex_hashes ex_ents ex_hook ex_bfds ex_marks = Ret (true, m') /\
    (forall x, reaches ex_bfds ex_kept ex_hashes ex_ents ex_hook (fun _ => 4%nat) false x -> marked m' x) /\
    (forall x, marked m' x -> marked ex_marks x \/ reaches ex_bfds ex_kept ex_hashes ex_ents ex_hook (fun _ => 4%nat) true x).
Proof. apply (gc_marks_reachable _ _ _ _ _ (fun _ => 0%nat)); [exact ex_start|exact ex_data]. Defined.

Lemma gc_sections_safe_witness :
  exists w, bfd_elf_gc_sections ex_info ex_bfds ex_htab ex_hashes ex_ents ex_secs ex_marks = Ret (true, w) /\
    collected ex_bfds ex_hashes ex_ents ex_kept (fun _ => 4%nat) ex_marks (w_secs w).
Proof.
  apply (gc_sections_safe _ _ _ _ _ _ _ _ (fun _ => 0%nat)); [exact ex_keep|exact ex_start|exact ex_data|exact ex_groups].
Defined.

(** Of the example only the unused function goes. *)
Example ex_removed :
  match bfd_elf_gc_sections ex_info ex_bfds ex_htab ex_hashes ex_ents ex_secs ex_marks with
  | Ret (ok, w) => (ok, removed w, cie_mark (w_marks w)) = (true, [".text.unused"], {[0%nat]})
  | Fail _ => False
  end.
Proof. vm_compute. reflexivity. Qed.
