(* ===== verification/FusionDis.v ===== *)
(** * The disassembler: opcodes/fusion-dis.c

    [print_insn_fusion] reads four bytes through the client's
    [read_memory_func] and prints one instruction through its [fprintf_func].
    The model returns the text printed, the value returned and the call to
    [memory_error_func], if any.  An independent printer of abstract
    instructions ([render]) is the specification: the disassembler prints the
    instruction the word decodes to, with its signed immediates, and reads
    outside a table exactly for system-register numbers past the table. *)
From stdpp Require Import pretty.
From S2P Require Import Prelude Bits FusionIsa FusionOpc Endian.
#[local] Open Scope Z_scope.

(** ** Formatting *)
Definition cat (l : list string) : string := String.concat "" l.
Definition tab : string := String (Ascii.ascii_of_nat 9) "".

(** [%d] of an [unsigned int] argument: read as an [int]. *)
Definition fmt_d (x : Z) : string := pretty (s32 x).

Definition hex_digit (d : Z) : Ascii.ascii :=
  Ascii.ascii_of_N (Z.to_N (if d <? 10 then 48 + d else 87 + d)).

(** The hexadecimal digits of a number below [16 ^ fuel], most significant
    first. *)
Fixpoint hex (fuel : nat) (x : Z) (acc : string) : string :=
  match fuel with
  | O => acc
  | S fuel' =>
      let acc := String (hex_digit (x mod 16)) acc in
      if x / 16 =? 0 then acc else hex fuel' (x / 16) acc
  end.

Fixpoint zeros (n : nat) : string :=
  match n with O => ""%string | S n' => String (hex_digit 0) (zeros n') end.

(** [%0<width>x] of a number of at most 64 bits. *)
Definition fmt_x (width : nat) (x : Z) : string :=
  let s := hex 16 x "" in cat [zeros (width - String.length s); s].

(** [%c] of a [(char) b]. *)
Definition fmt_c (b : Z) : string := String (Ascii.ascii_of_N (Z.to_N b)) "".

(** ** Sign extension *)
Definition SEXT_14B (N : Z) : Z :=
  Z.lor (Z.land N 0x3fff) (if Z.land N 0x2000 =? 0 then 0 else 0xffffc000).
Definition SEXT_12B (N : Z) : Z :=
  Z.lor (Z.land N 0xfff) (if Z.land N 0x800 =? 0 then 0 else 0xfffff000).
Definition SEXT_21B (N : Z) : Z :=
  Z.lor (Z.land N 0x1fffff) (if Z.land N 0x100000 =? 0 then 0 else 0xffe00000).

(** ** Tables *)
Definition at_ {A : Type} (l : list A) (i : Z) : res A :=
  if i <? 0 then Fail Foob else
  match l !! Z.to_nat i with Some x => Ret x | None => Fail Foob end.

Definition gpreg (i : Z) : res string := at_ fusion_gpreg_name i.
Definition spreg (i : Z) : res string := at_ fusion_spreg_name i.

(** [insn->name] as the argument of a [%s]. *)
Definition insn_name (e : fusion_opc_info_t) : res string :=
  match name e with Some n => Ret n | None => Fail Foob end.

(** ** One branch of the function per format *)
Definition dis_R (insn_word : Z) : res string :=
  let! insn := at_ fusion_insn_R (GET_ALUOP insn_word) in
  let! n := insn_name insn in
  let! rd := gpreg (GET_RD insn_word) in
  let! rsa := gpreg (GET_RSA insn_word) in
  let! rsb := gpreg (GET_RSB insn_word) in
  Ret (cat [n; tab; rd; ","; tab; rsa; ","; tab; rsb]).

Definition dis_I (insn_word : Z) : res string :=
  let! insn := at_ fusion_insn_I (GET_ALUOP insn_word) in
  let aluop := index insn in
  let! rd := gpreg (GET_RD insn_word) in
  if bool_decide (aluop ∈ [0; 1; 8; 9; 10; 11; 12]) then
    let! n := insn_name insn in
    let! rsa := gpreg (GET_RSA insn_word) in
    Ret (cat [n; tab; rd; ","; tab; rsa; ","; tab; fmt_d (SEXT_12B (GET_IMM_I insn_word))])
  else if bool_decide (aluop ∈ [2; 3; 5; 6; 7]) then
    let! n := insn_name insn in
    let! rsa := gpreg (GET_RSA insn_word) in
    Ret (cat [n; tab; rd; ","; tab; rsa; ","; tab; "0x"; fmt_x 3 (GET_IMM_I insn_word)])
  else if aluop =? 4 then
    let! n := insn_name insn in
    Ret (cat [n; tab; rd; ","; tab; "0x"; fmt_x 3 (GET_IMM_I insn_word)])
  else
    let! rsa := gpreg (GET_RSA insn_word) in
    Ret (cat ["nri"%string; tab; rd; ","; tab; rsa; ","; tab; "0x"; fmt_x 3 (GET_IMM_I insn_word)]).

Definition dis_L (insn_word : Z) : res string :=
  let! insn := at_ fusion_insn_L (GET_FUNCT_L insn_word) in
  let! n := insn_name insn in
  let! rd := gpreg (GET_RD insn_word) in
  let! rsa := gpreg (GET_RSA insn_word) in
  Ret (cat [n; tab; rd; ","; tab; "0x"; fmt_x 3 (GET_IMM_L insn_word); "("; rsa; ")"]).

Definition dis_LI (insn_word : Z) : res string :=
  let! insn := at_ fusion_insn_LI (GET_DSEL_LI insn_word) in
  let! n := insn_name insn in
  let! rd := gpreg (GET_RD insn_word) in
  Ret (cat [n; tab; rd; ","; tab; "0x"; fmt_x 4 (GET_IMM_LI insn_word)]).

Definition dis_S (insn_word : Z) : res string :=
  let! insn := at_ fusion_insn_S (GET_FUNCT_S insn_word) in
  let! n := insn_name insn in
  let! rsb := gpreg (GET_RSB insn_word) in
  let! rsa := gpreg (GET_RSA insn_word) in
  Ret (cat [n; tab; rsb; ","; tab; "0x"; fmt_x 3 (GET_IMM_S insn_word); "("; rsa; ")"]).

Definition dis_J (insn_word : Z) : res string :=
  if GET_RSA insn_word =? 0 then
    if IS_JLNK_INSN insn_word then
      Ret (cat ["jal"%string; tab; fmt_d (SEXT_21B (GET_IMM_J insn_word))])
    else if IS_JMP_INSN insn_word then
      Ret (cat ["j"%string; tab; fmt_d (SEXT_21B (GET_IMM_J insn_word))])
    else Ret "nri"%string
  else
    if IS_JLNK_INSN insn_word then
      let! rsa := gpreg (GET_RSA insn_word) in
      Ret (cat ["jrl"%string; tab; "0x"; fmt_x 6 (GET_IMM_J insn_word); "("; rsa; ")"])
    else if IS_JMP_INSN insn_word then
      let! rsa := gpreg (GET_RSA insn_word) in
      Ret (cat ["jr"%string; tab; "0x"; fmt_x 6 (GET_IMM_J insn_word); "("; rsa; ")"])
    else Ret "nri"%string.

Definition dis_B (insn_word : Z) : res string :=
  let! insn := at_ fusion_insn_B (GET_FUNCT_B insn_word) in
  let! n := insn_name insn in
  let! rsa := gpreg (GET_RSA insn_word) in
  let! rsb := gpreg (GET_RSB insn_word) in
  Ret (cat [n; tab; rsa; ","; tab; rsb; ","; tab; fmt_d (SEXT_14B (GET_IMM_B insn_word))]).

Definition dis_SYS (insn_word : Z) : res string :=
  let! insn := at_ fusion_insn_SYS (GET_FUNCT_SYS insn_word) in
  let! n := insn_name insn in
  let a := args insn in
  if a =? USE_NONE then Ret n
  else if a =? USE_I then Ret (cat [n; tab; "0x"; fmt_x 2 (GET_IMM_SYS insn_word)])
  else if a =? USE_RAI then
    let! rsa := gpreg (GET_RSA insn_word) in
    Ret (cat [n; tab; rsa; ","; tab; "0x"; fmt_x 2 (GET_IMM_SYS insn_word)])
  else if a =? USE_RDA then
    if GET_FUNCT_SYS insn_word =? 0x02 then
      let! rd := spreg (GET_RD insn_word) in
      let! rsa := gpreg (GET_RSA insn_word) in
      Ret (cat [n; tab; rd; ","; tab; rsa])
    else if GET_FUNCT_SYS insn_word =? 0x03 then
      let! rd := gpreg (GET_RD insn_word) in
      let! rsa := spreg (GET_RSA insn_word) in
      Ret (cat [n; tab; rd; ","; tab; rsa])
    else Ret ""%string
  else if a =? USE_RDI then
    let! rd := gpreg (GET_RD insn_word) in
    Ret (cat [n; tab; rd; ","; tab; "0x"; fmt_x 2 (GET_IMM_SYS insn_word)])
  else if a =? USE_RDAI then
    let! rd := gpreg (GET_RD insn_word) in
    let! rsa := gpreg (GET_RSA insn_word) in
    Ret (cat [n; tab; rd; ","; tab; rsa; ","; tab; "0x"; fmt_x 2 (GET_IMM_SYS insn_word)])
  else Ret "nri_sys"%string.

(** The chain of format tests. *)
Definition print_word (insn_word : Z) : res string :=
  let opc := GET_OPC insn_word in
  if IS_R_TYPE insn_word then dis_R insn_word
  else if IS_I_TYPE insn_word then dis_I insn_word
  else if IS_L_TYPE insn_word then dis_L insn_word
  else if IS_LI_TYPE insn_word then dis_LI insn_word
  else if IS_S_TYPE insn_word then dis_S insn_word
  else if (opc =? OPC_JMP) || (opc =? OPC_JLNK) then dis_J insn_word
  else if IS_B_TYPE insn_word then dis_B insn_word
  else if IS_SYS_TYPE insn_word then dis_SYS insn_word
  else if IS_CP_INSN insn_word then Ret "cpinsn?"%string
  else if insn_word =? 0 then Ret "nop"%string
  else Ret "nri_unk"%string.

(** The returned value, the text and the [memory_error_func (status, addr)]
    call. *)
Record dis_result : Type := mk_dis {
  dis_ret : Z;
  dis_out : string;
  dis_err : option (Z * Z)
}.

(** [read_memory] is the client's [read_memory_func]: a nonzero status, or the
    four bytes. *)
Definition print_insn_fusion (read_memory : Z -> Z + list Z) (addr : Z) : res dis_result :=
  match read_memory addr with
  | inl status => Ret (mk_dis (-1) "" (Some (status, addr)))
  | inr buf =>
      if 0x2000000 <? addr then
        let! b3 := rd buf 3 in let! b2 := rd buf 2 in
        let! b1 := rd buf 1 in let! b0 := rd buf 0 in
        Ret (mk_dis 4 (cat ["ASCII: "; fmt_c b3; " "; fmt_c b2; " "; fmt_c b1; " "; fmt_c b0]) None)
      else
        let! insn_word := bfd_getb32 buf 0 in
        let! s := print_word insn_word in
        Ret (mk_dis 4 s None)
  end.

(** ** Specification: printing an abstract instruction *)
Definition mnem (t : list fusion_opc_info_t) (i : Z) : string :=
  match t !! Z.to_nat i with Some e => default ""%string (name e) | None => ""%string end.

Definition reg (r : Z) : string := default ""%string (fusion_gpreg_name !! Z.to_nat r).

(** A mnemonic and its operands, separated by a comma and a tab. *)
Definition line (n : string) (ops : list string) : string :=
  (n ++ tab ++ String.concat ("," ++ tab) ops)%string.

Definition dec (x : Z) : string := pretty x.
Definition hexa (width : nat) (x : Z) : string := ("0x" ++ fmt_x width x)%string.
Definition based (width : nat) (imm r : Z) : string := (hexa width imm ++ "(" ++ reg r ++ ")")%string.

(** [None]: the special-register number is past the end of the table. *)
Definition render (i : insn) : option string :=
  match i with
  | InsnR op rd ra rb => Some (line (mnem fusion_insn_R op) [reg rd; reg ra; reg rb])
  | InsnI op rd ra imm =>
      Some (if bool_decide (op ∈ [0; 1; 8; 9; 10; 11; 12]) then
              line (mnem fusion_insn_I op) [reg rd; reg ra; dec (sext 12 imm)]
            else if op =? 4 then line (mnem fusion_insn_I op) [reg rd; hexa 3 imm]
            else line (mnem fusion_insn_I op) [reg rd; reg ra; hexa 3 imm])
  | InsnL f rd ra imm => Some (line (mnem fusion_insn_L f) [reg rd; based 3 imm ra])
  | InsnLI d rd imm => Some (line (mnem fusion_insn_LI d) [reg rd; hexa 4 imm])
  | InsnS f rb ra imm => Some (line (mnem fusion_insn_S f) [reg rb; based 3 imm ra])
  | InsnJ ra imm =>
      Some (if ra =? 0 then line "j" [dec (sext 21 imm)] else line "jr" [based 6 imm ra])
  | InsnJL ra imm =>
      Some (if ra =? 0 then line "jal" [dec (sext 21 imm)] else line "jrl" [based 6 imm ra])
  | InsnB f ra rb imm => Some (line (mnem fusion_insn_B f) [reg ra; reg rb; dec (sext 14 imm)])
  | InsnSYS f rd ra imm =>
      if f <? 2 then Some (line (mnem fusion_insn_SYS f) [reg rd; reg ra; hexa 2 imm])
      else if f =? 2 then
        s ← fusion_spreg_name !! Z.to_nat rd; Some (line "stspr" [s; reg ra])
      else if f =? 3 then
        s ← fusion_spreg_name !! Z.to_nat ra; Some (line "ldspr" [reg rd; s])
      else if f =? 4 then Some "sync"%string
      else if f <? 7 then Some (line (mnem fusion_insn_SYS f) [hexa 2 imm])
      else Some "nri"%string
  end.

(** ** Sign extension *)
Lemma testbit_top (k x : Z) : 0 <= k -> 0 <= x < 2 ^ (k + 1) -> Z.testbit x k = (2 ^ k <=? x).
Proof.
  intros Hk Hx. rewrite Z.pow_add_r in Hx by lia. change (2 ^ 1) with 2 in Hx.
  assert (0 < 2 ^ k) by (apply Z.pow_pos_nonneg; lia).
  rewrite Z.testbit_eqb by lia. destruct (Z.leb_spec (2 ^ k) x).
  - replace (x / 2 ^ k) with 1; [done|]. apply Z.div_unique with (x - 2 ^ k); lia.
  - by rewrite Z.div_small by lia.
Qed.

Lemma disjoint_high (n x : Z) :
  0 <= n <= 32 -> 0 <= x < 2 ^ n -> Z.land x (2 ^ 32 - 2 ^ n) = 0.
Proof.
  intros Hn Hx.
  assert (2 ^ 32 - 2 ^ n = Z.shiftl (Z.ones (32 - n)) n) as ->.
  { rewrite Z.shiftl_mul_pow2, Z.ones_equiv by lia.
    assert (2 ^ 32 = 2 ^ (32 - n) * 2 ^ n) by (rewrite <- Z.pow_add_r by lia; f_equal; lia). lia. }
  apply Z.bits_inj'. intros i Hi. rewrite Z.land_spec, Z.bits_0, Z.shiftl_spec by lia.
  destruct (Z.ltb_spec i n).
  - by rewrite (Z.testbit_neg_r _ (i - n)), andb_false_r by lia.
  - by rewrite (testbit_u n x) by lia.
Qed.

Lemma sext_or (k x : Z) :
  0 <= k < 31 -> 0 <= x < 2 ^ (k + 1) ->
  s32 (Z.lor x (if Z.land x (2 ^ k) =? 0 then 0 else 2 ^ 32 - 2 ^ (k + 1))) = sext (k + 1) x.
Proof.
  intros Hk Hx.
  assert (Hp : 2 ^ (k + 1) = 2 * 2 ^ k) by (rewrite Z.add_1_r, Z.pow_succ_r by lia; lia).
  assert (H0 : 0 < 2 ^ k) by (apply Z.pow_pos_nonneg; lia).
  assert (H31 : 2 ^ (k + 1) <= 2 ^ 31) by (apply Z.pow_le_mono_r; lia).
  assert (Hz : (Z.land x (2 ^ k) =? 0) = negb (2 ^ k <=? x)).
  { rewrite <- testbit_top by lia. destruct (Z.testbit x k) eqn:E; cbn.
    - apply Z.eqb_neq. intros Hc. apply (f_equal (fun y => Z.testbit y k)) in Hc.
      by rewrite Z.land_spec, E, Z.pow2_bits_true, Z.bits_0 in Hc by lia.
    - apply Z.eqb_eq. apply Z.bits_inj'. intros i Hi.
      rewrite Z.land_spec, Z.pow2_bits_eqb, Z.bits_0 by lia.
      destruct (Z.eqb_spec k i) as [<-|]; [by rewrite E|by rewrite andb_false_r]. }
  rewrite Hz. destruct (Z.leb_spec (2 ^ k) x); cbn [negb].
  - rewrite <- Z.lxor_lor, <- Z.add_nocarry_lxor.
    + change s32 with (sext 32).
      assert (sext (k + 1) x = x - 2 ^ (k + 1)) as ->.
      { apply sext_unique; [lia|replace (k + 1 - 1) with k by lia; lia|].
        replace (x - 2 ^ (k + 1)) with (x + (-1) * 2 ^ (k + 1)) by lia. by rewrite Z_mod_plus_full. }
      apply sext_unique; [lia|cbn; lia|].
      replace (x + (2 ^ 32 - 2 ^ (k + 1))) with (x - 2 ^ (k + 1) + 1 * 2 ^ 32) by lia.
      by rewrite Z_mod_plus_full.
    + apply disjoint_high; lia.
    + apply disjoint_high; lia.
  - rewrite Z.lor_0_r. assert (sext (k + 1) x = x) as ->.
    { apply sext_unique; [lia|replace (k + 1 - 1) with k by lia; lia|done]. }
    change s32 with (sext 32). apply sext_unique; [lia|cbn; lia|done].
Qed.

Lemma land_low (n x : Z) : 0 <= n -> 0 <= x < 2 ^ n -> Z.land x (Z.ones n) = x.
Proof. intros Hn Hx. rewrite Z.land_ones by done. by apply Z.mod_small. Qed.

Lemma SEXT_12B_ok (x : Z) : 0 <= x < 2 ^ 12 -> fmt_d (SEXT_12B x) = dec (sext 12 x).
Proof.
  intros Hx. unfold fmt_d, SEXT_12B, dec. f_equal. change 0xfff with (Z.ones 12).
  rewrite land_low by lia. by apply (sext_or 11).
Qed.

Lemma SEXT_14B_ok (x : Z) : 0 <= x < 2 ^ 14 -> fmt_d (SEXT_14B x) = dec (sext 14 x).
Proof.
  intros Hx. unfold fmt_d, SEXT_14B, dec. f_equal. change 0x3fff with (Z.ones 14).
  rewrite land_low by lia. by apply (sext_or 13).
Qed.

Lemma SEXT_21B_ok (x : Z) : 0 <= x < 2 ^ 21 -> fmt_d (SEXT_21B x) = dec (sext 21 x).
Proof.
  intros Hx. unfold fmt_d, SEXT_21B, dec. f_equal. change 0x1fffff with (Z.ones 21).
  rewrite land_low by lia. by apply (sext_or 20).
Qed.

(** ** Tables *)
Lemma gpreg_reg (r : Z) : is_reg r -> gpreg r = Ret (reg r).
Proof.
  intros Hr. unfold is_reg in Hr. unfold gpreg, at_, reg.
  rewrite (proj2 (Z.ltb_ge r 0)) by lia.
  destruct (lookup_lt_is_Some_2 fusion_gpreg_name (Z.to_nat r)) as [s Hs].
  { change (length fusion_gpreg_name) with 32%nat. lia. }
  by rewrite Hs.
Qed.

Lemma spreg_at (r : Z) :
  0 <= r -> spreg r = match fusion_spreg_name !! Z.to_nat r with Some s => Ret s | None => Fail Foob end.
Proof. intros Hr. unfold spreg, at_. by rewrite (proj2 (Z.ltb_ge r 0)) by lia. Qed.

(** The row of a table at an index: its name, its index field, its arguments. *)
Definition row_ok (t : list fusion_opc_info_t) (i : Z) : bool :=
  match t !! Z.to_nat i with
  | Some e => match name e with Some _ => index e =? i | None => false end
  | None => false
  end.

Lemma row_at (t : list fusion_opc_info_t) (n i : Z) :
  forallb (row_ok t) (seqZ 0 n) = true -> 0 <= i < n ->
  exists e, at_ t i = Ret e /\ t !! Z.to_nat i = Some e /\ insn_name e = Ret (mnem t i) /\ index e = i.
Proof.
  intros Hall Hi. rewrite forallb_forall in Hall. specialize (Hall i).
  unfold row_ok in Hall. unfold at_, mnem, insn_name. rewrite (proj2 (Z.ltb_ge i 0)) by lia.
  assert (Hin : In i (seqZ 0 n)) by (apply list_elem_of_In, elem_of_seqZ; lia).
  specialize (Hall Hin). destruct (t !! Z.to_nat i) as [e|]; [|done].
  destruct (name e) eqn:En; [|done]. apply Z.eqb_eq in Hall. exists e. rewrite En. done.
Qed.

(** The argument kinds of the system instructions. *)
Definition sys_args (f : Z) : Z :=
  if f <? 2 then USE_RDAI else if f <? 4 then USE_RDA else if f =? 4 then USE_NONE
  else if f <? 7 then USE_I else USE_NONE.

Lemma sys_row (f : Z) :
  0 <= f < 256 -> exists e, at_ fusion_insn_SYS f = Ret e /\ insn_name e = Ret (mnem fusion_insn_SYS f)
    /\ args e = sys_args f /\ (7 <= f -> mnem fusion_insn_SYS f = "nri"%string).
Proof.
  intros Hf. destruct (row_at fusion_insn_SYS 256 f) as (e & Ha & Hl & Hn & Hi);
    [by vm_compute|done|].
  exists e. split; [done|]. split; [done|].
  assert (Hall : forallb (fun f => match fusion_insn_SYS !! Z.to_nat f with
    | Some e => (args e =? sys_args f) && ((f <? 7) || String.eqb (mnem fusion_insn_SYS f) "nri")
    | None => false end) (seqZ 0 256) = true) by (by vm_compute).
  rewrite forallb_forall in Hall. specialize (Hall f).
  rewrite Hl in Hall. rewrite andb_true_iff, Z.eqb_eq, orb_true_iff, Z.ltb_lt, String.eqb_eq in Hall.
  destruct Hall as [H1 H2]; [apply list_elem_of_In, elem_of_seqZ; lia|].
  split; [done|]. intros H7. destruct H2; [lia|done].
Qed.

(** Runs the register lookups of a branch. *)
Ltac regs :=
  repeat match goal with
  | H : is_reg ?r |- context [gpreg ?r] => rewrite (gpreg_reg r H); cbn [rbind]
  end.

Lemma dis_I_ok (w : Z) :
  dis_I w = Ret (default ""%string (render (InsnI (GET_ALUOP w) (GET_RD w) (GET_RSA w) (GET_IMM_I w)))).
Proof.
  destruct (GET_reg_range w) as (Hd & Ha & Hb). destruct (GET_sel_range w) as (_ & Hop & _).
  destruct (GET_imm_range w) as (Hi & _).
  destruct (row_at fusion_insn_I 16 (GET_ALUOP w)) as (e & E & _ & En & Ei); [by vm_compute|done|].
  unfold dis_I. rewrite E. cbn [rbind]. rewrite Ei, En. regs. cbn [default render].
  set (op := GET_ALUOP w) in *.
  case_bool_decide as H1; cbn [rbind]; [by rewrite SEXT_12B_ok|].
  case_bool_decide as H2; cbn [rbind].
  - destruct (Z.eqb_spec op 4) as [E4|]; [|done]. rewrite E4 in H2.
    apply (bool_decide_pack _) in H2. by vm_compute in H2.
  - destruct (Z.eqb_spec op 4) as [|Hn4]; cbn [rbind]; [done|].
    assert (op = 13 \/ op = 14 \/ op = 15) as Hop'.
    { rewrite !not_elem_of_cons in H1. rewrite !not_elem_of_cons in H2.
      decompose [and] H1. decompose [and] H2. lia. }
    destruct Hop' as [->|[->| ->]]; reflexivity.
Qed.

Lemma dis_SYS_ok (w : Z) :
  dis_SYS w = match render (InsnSYS (GET_FUNCT_SYS w) (GET_RD w) (GET_RSA w) (GET_IMM_SYS w)) with
              | Some s => Ret s | None => Fail Foob end.
Proof.
  destruct (GET_reg_range w) as (Hd & Ha & Hb).
  destruct (GET_sel_range w) as (_ & _ & _ & _ & _ & _ & Hf).
  destruct (sys_row (GET_FUNCT_SYS w) Hf) as (e & E & En & Ea & H7).
  unfold dis_SYS. rewrite E. cbn [rbind]. rewrite En, Ea. cbn [rbind render]. unfold sys_args.
  set (f := GET_FUNCT_SYS w) in *. clear E En Ea.
  destruct (Z.ltb_spec f 2); [cbn [Z.eqb]; regs; done|].
  destruct (Z.eqb_spec f 2) as [->|H2].
  { cbn. rewrite spreg_at by (unfold is_reg in Hd; lia).
    destruct (fusion_spreg_name !! Z.to_nat (GET_RD w)); cbn [rbind]; [|done]. regs. done. }
  destruct (Z.eqb_spec f 3) as [->|H3].
  { cbn. regs. rewrite spreg_at by (unfold is_reg in Ha; lia).
    destruct (fusion_spreg_name !! Z.to_nat (GET_RSA w)); done. }
  rewrite (proj2 (Z.ltb_ge f 4)) by lia.
  destruct (Z.eqb_spec f 4) as [->|H4]; [reflexivity|].
  destruct (Z.ltb_spec f 7); [done|]. cbn [Z.eqb]. by rewrite H7.
Qed.

(** The printer of every word that decodes. *)
Lemma print_word_ok (w : Z) (i : insn) :
  decode w = Some i ->
  print_word w = match render i with Some s => Ret s | None => Fail Foob end.
Proof.
  intros Hd. apply decode_fields in Hd.
  destruct (GET_reg_range w) as (Hrd & Hra & Hrb).
  destruct (GET_sel_range w) as (_ & Hop & HfL & HdL & HfS & HfB & _).
  destruct (GET_imm_range w) as (_ & _ & _ & _ & HiJ & HiB & _).
  unfold print_word, IS_R_TYPE, IS_I_TYPE, IS_L_TYPE, IS_LI_TYPE, IS_S_TYPE, IS_B_TYPE, IS_SYS_TYPE,
    IS_R_INSN, IS_IMM_INSN, IS_RMEM_INSN, IS_LI_INSN, IS_WMEM_INSN, IS_B_INSN, IS_SYS_INSN.
  destruct i; cbn [has_fields] in Hd; decompose [and] Hd; clear Hd; subst;
    match goal with H : GET_OPC w = _ |- _ => rewrite H; rename H into Ho end; cbn [Z.eqb Pos.eqb orb].
  - unfold dis_R. destruct (row_at fusion_insn_R 16 (GET_ALUOP w)) as (e & -> & _ & En & _); [by vm_compute|done|].
    cbn [rbind]. rewrite En. cbn [rbind]. regs. done.
  - apply dis_I_ok.
  - unfold dis_L. destruct (row_at fusion_insn_L 4 (GET_FUNCT_L w)) as (e & -> & _ & En & _); [by vm_compute|done|].
    cbn [rbind]. rewrite En. cbn [rbind]. regs. done.
  - unfold dis_LI. destruct (row_at fusion_insn_LI 16 (GET_DSEL_LI w)) as (e & -> & _ & En & _); [by vm_compute|done|].
    cbn [rbind]. rewrite En. cbn [rbind]. regs. done.
  - unfold dis_S. destruct (row_at fusion_insn_S 4 (GET_FUNCT_S w)) as (e & -> & _ & En & _); [by vm_compute|done|].
    cbn [rbind]. rewrite En. cbn [rbind]. regs. done.
  - unfold dis_J, IS_JLNK_INSN, IS_JMP_INSN. rewrite Ho. cbn [Z.eqb Pos.eqb render].
    destruct (GET_RSA w =? 0); [by rewrite SEXT_21B_ok|]. regs. done.
  - unfold dis_J, IS_JLNK_INSN, IS_JMP_INSN. rewrite Ho. cbn [Z.eqb Pos.eqb render].
    destruct (GET_RSA w =? 0); [by rewrite SEXT_21B_ok|]. regs. done.
  - unfold dis_B. destruct (row_at fusion_insn_B 4 (GET_FUNCT_B w)) as (e & -> & _ & En & _); [by vm_compute|done|].
    cbn [rbind]. rewrite En. cbn [rbind]. regs. by rewrite SEXT_14B_ok.
  - apply dis_SYS_ok.
Qed.

Lemma print_word_unknown (w : Z) :
  decode w = None -> print_word w = Ret (if w =? 0 then "nop"%string else "nri_unk"%string).
Proof.
  intros Hd. rewrite decode_by_opc in Hd. cbv zeta in Hd.
  unfold print_word, IS_R_TYPE, IS_I_TYPE, IS_L_TYPE, IS_LI_TYPE, IS_S_TYPE, IS_B_TYPE, IS_SYS_TYPE,
    IS_R_INSN, IS_IMM_INSN, IS_RMEM_INSN, IS_LI_INSN, IS_WMEM_INSN, IS_B_INSN, IS_SYS_INSN,
    MASK_R_OPC, MASK_IMM_OPC, MASK_RMEM_OPC, MASK_LI_OPC, MASK_WMEM_OPC, MASK_B_OPC, MASK_SYS_OPC.
  repeat match type of Hd with context [if ?c then _ else _] => destruct c; [done|] end. cbn [orb].
  assert (IS_CP_INSN w = false) as ->.
  { unfold IS_CP_INSN, MASK_MSB_OPC. apply Z.eqb_neq. destruct (GET_sel_range w). lia. }
  by destruct (w =? 0).
Qed.

(** What the disassembler prints for a word. *)
Definition print_spec (w : Z) : option string :=
  match decode w with
  | Some i => render i
  | None => Some (if w =? 0 then "nop"%string else "nri_unk"%string)
  end.

(** C7.  The disassembler prints exactly the instruction its word encodes: for an
    address in the code area it returns 4 and prints the mnemonic and operands
    of the decoded instruction, immediates sign-extended where the instruction
    is signed, "nop" for a zero word and "nri_unk" for any other word no format
    claims; above 0x2000000 it prints four characters; when the memory cannot
    be read it reports the status and returns -1. *)
Theorem print_insn_fusion_spec (read_memory : Z -> Z + list Z) (addr : Z) :
  match read_memory addr with
  | inl status => print_insn_fusion read_memory addr = Ret (mk_dis (-1) "" (Some (status, addr)))
  | inr buf =>
      length buf = 4%nat -> bytes_ok buf ->
      exists w, bfd_getb32 buf 0 = Ret w /\
        print_insn_fusion read_memory addr
        = if 0x2000000 <? addr then
            Ret (mk_dis 4 (cat ("ASCII: "%string :: fmt_c (Z.land w 0xff) :: " "%string
                   :: fmt_c (Z.land (Z.shiftr w 8) 0xff) :: " "%string
                   :: fmt_c (Z.land (Z.shiftr w 16) 0xff) :: " "%string
                   :: [fmt_c (Z.shiftr w 24)])) None)
          else match print_spec w with Some s => Ret (mk_dis 4 s None) | None => Fail Foob end
  end.
Proof.
  unfold print_insn_fusion. destruct (read_memory addr) as [status|buf]; [done|].
  intros Hl Hb. destruct buf as [|b0 [|b1 [|b2 [|b3 [|]]]]]; try done.
  apply Forall_cons in Hb as [H0 Hb]. apply Forall_cons in Hb as [H1 Hb].
  apply Forall_cons in Hb as [H2 Hb]. apply Forall_cons in Hb as [H3 Hb].
  unfold is_byte in *. change 256 with (2 ^ 8) in *.
  eexists. split; [reflexivity|].
  change (bfd_getb32 [b0; b1; b2; b3] 0)
    with (Ret (Z.lor (Z.lor (Z.lor (Z.shiftl b0 24) (Z.shiftl b1 16)) (Z.shiftl b2 8)) b3)).
  set (w := Z.lor _ b3).
  destruct (0x2000000 <? addr).
  - change (rd [b0; b1; b2; b3] 3) with (Ret b3). change (rd [b0; b1; b2; b3] 2) with (Ret b2).
    change (rd [b0; b1; b2; b3] 1) with (Ret b1). change (rd [b0; b1; b2; b3] 0) with (Ret b0).
    cbn [rbind].
    replace (Z.land w 255) with b3 by (unfold w; bits).
    replace (Z.land (Z.shiftr w 8) 255) with b2 by (unfold w; bits).
    replace (Z.land (Z.shiftr w 16) 255) with b1 by (unfold w; bits).
    replace (Z.shiftr w 24) with b0 by (unfold w; bits). done.
  - cbn [rbind]. unfold print_spec. destruct (decode w) as [i|] eqn:Hd.
    + rewrite (print_word_ok w i Hd). by destruct (render i).
    + by rewrite print_word_unknown.
Qed.

(** The disassembler reads past a table for exactly the words whose system
    instruction names a special register the table does not have: [stspr] to a
    number of 13 or more, or [ldspr] from one. *)
Theorem print_word_overread (w : Z) :
  print_word w = Fail Foob
  <-> (exists rd ra imm, 13 <= rd /\ decode w = Some (InsnSYS 2 rd ra imm))
      \/ (exists rd ra imm, 13 <= ra /\ decode w = Some (InsnSYS 3 rd ra imm)).
Proof.
  assert (Hsp : forall r, 0 <= r -> (fusion_spreg_name !! Z.to_nat r = None <-> 13 <= r)).
  { intros r Hr. rewrite lookup_ge_None. cbn. lia. }
  destruct (decode w) as [i|] eqn:Hd.
  2:{ rewrite print_word_unknown by done. split; [done|]. by intros [(? & ? & ? & ? & ?)|(? & ? & ? & ? & ?)]. }
  rewrite (print_word_ok w i Hd). apply decode_wf in Hd.
  destruct i; cbn [render insn_wf] in *;
    try (split; [done|by intros [(? & ? & ? & ? & ?)|(? & ? & ? & ? & ?)]]).
  destruct Hd as (Hf & Hrd & Hra & _). unfold is_reg in *.
  destruct (Z.ltb_spec f 2).
  { split; [done|]. intros [(? & ? & ? & ? & [= ? ? ? ?])|(? & ? & ? & ? & [= ? ? ? ?])]; lia. }
  destruct (Z.eqb_spec f 2) as [->|].
  { specialize (Hsp rd ltac:(lia)). destruct (fusion_spreg_name !! Z.to_nat rd); cbn.
    - split; [done|]. intros [(? & ? & ? & Hx & [= <- ? ?])|(? & ? & ? & ? & [=])].
      apply Hsp in Hx. done.
    - split; [|done]. intros _. left. exists rd, rsa, imm. split; [by apply Hsp|done]. }
  destruct (Z.eqb_spec f 3) as [->|].
  { specialize (Hsp rsa ltac:(lia)). destruct (fusion_spreg_name !! Z.to_nat rsa); cbn.
    - split; [done|]. intros [(? & ? & ? & ? & [=])|(? & ? & ? & Hx & [= ? <- ?])].
      apply Hsp in Hx. done.
    - split; [|done]. intros _. right. exists rd, rsa, imm. split; [by apply Hsp|done]. }
  split; [by repeat case_match|].
  intros [(? & ? & ? & ? & [= ? ? ? ?])|(? & ? & ? & ? & [= ? ? ? ?])]; lia.
Qed.

(** ** The mnemonic survives assembly *)

(** The text before the first tab. *)
Fixpoint first_field (s : string) : string :=
  match s with
  | EmptyString => EmptyString
  | String c s' => if Ascii.eqb c (Ascii.ascii_of_nat 9) then EmptyString else String c (first_field s')
  end.

(** The instruction an entry of the assembler's table stands for, with given
    operands. *)
Definition insn_of (e : fusion_opc_info_t) (rd ra rb imm : Z) : insn :=
  let i := index e in
  if opc e =? OPC_INT then InsnR i rd ra rb
  else if opc e =? OPC_IMM then InsnI i rd ra imm
  else if opc e =? OPC_LD then InsnL i rd ra imm
  else if opc e =? OPC_LI then InsnLI i rd imm
  else if opc e =? OPC_ST then InsnS i rb ra imm
  else if opc e =? OPC_JMP then InsnJ (if args e =? USE_I then 0 else ra) imm
  else if opc e =? OPC_JLNK then InsnJL (if args e =? USE_I then 0 else ra) imm
  else if opc e =? OPC_BRANCH then InsnB i ra rb imm
  else InsnSYS i rd ra imm.

(** The hardware instructions of the table: neither macros nor the all-zero
    [nop]. *)
Definition hardware (e : fusion_opc_info_t) : bool :=
  (cpid e =? CPID_MAIN) && negb (opc e =? 0).

Definition opc_is_jump (e : fusion_opc_info_t) : bool :=
  ((opc e =? OPC_JMP) || (opc e =? OPC_JLNK)) && negb (args e =? USE_I).

(** A special register the table of names does not have (it ends at 12). *)
Definition names_no_special (e : fusion_opc_info_t) (rd ra : Z) : bool :=
  (opc e =? OPC_SYS) && (((index e =? 2) && (13 <=? rd)) || ((index e =? 3) && (13 <=? ra))).

(** C37.  Mnemonics round-trip: encoding any hardware instruction of the
    assembler's table with any operands that fit their fields, and disassembling the
    word, prints a line that begins with the entry's own mnemonic, with two exceptions:
    a register jump through r0, [jr] or [jrl], prints as the jump [j] or [jal] without a
    register, and [stspr] to or [ldspr] from a special register above 12 reads past the
    table of names. *)
Theorem mnemonic_roundtrip (e : fusion_opc_info_t) (n : string) (rd ra rb imm : Z) :
  e ∈ fusion_insn_all -> name e = Some n -> hardware e = true ->
  insn_wf (insn_of e rd ra rb imm) ->
  if names_no_special e rd ra then print_word (encode (insn_of e rd ra rb imm)) = Fail Foob
  else exists s, print_word (encode (insn_of e rd ra rb imm)) = Ret s /\
    first_field s = if opc_is_jump e && (ra =? 0) then (if opc e =? OPC_JMP then "j"%string else "jal"%string) else n.
Proof.
  intros Hin Hn Hh Hwf.
  destruct (decode_encode_wf _ Hwf) as [Hd _]. rewrite (print_word_ok _ _ Hd). clear Hd.
  assert (Hsp : forall r, 0 <= r < 32 -> if 13 <=? r then fusion_spreg_name !! Z.to_nat r = None
    else exists s, fusion_spreg_name !! Z.to_nat r = Some s).
  { intros r Hr. destruct (Z.leb_spec 13 r); [apply lookup_ge_None_2|apply lookup_lt_is_Some_2]; cbn; lia. }
  unfold fusion_insn_all in Hin. apply elem_of_app in Hin as [Hin|Hin].
  2:{ apply elem_of_replicate in Hin as [-> _]. done. }
  repeat (apply elem_of_cons in Hin as [->|Hin];
    [ try done; injection Hn as <-;
      first
      [ eexists; split; [reflexivity|reflexivity]
      | cbn in Hwf |- *; eexists; split; [reflexivity|]; by destruct (ra =? 0)
      | cbn in Hwf; unfold is_reg in Hwf; specialize (Hsp rd ltac:(lia)); cbn; destruct (13 <=? rd);
        [by rewrite Hsp|destruct Hsp as [s ->]; eexists; split; [reflexivity|reflexivity]]
      | cbn in Hwf; unfold is_reg in Hwf; specialize (Hsp ra ltac:(lia)); cbn; destruct (13 <=? ra);
        [by rewrite Hsp|destruct Hsp as [s ->]; eexists; split; [reflexivity|reflexivity]] ]
    | ]).
  by apply not_elem_of_nil in Hin.
Qed.

Lemma mnemonic_roundtrip_witness :
  (exists s, print_word (encode (insn_of
      (mk_opc (Some "beq"%string) 0x0 USE_RABI FRMT_B CPID_MAIN MASK_IMM_B OPC_BRANCH) 0 30 31 0x3ffc))
    = Ret s /\ first_field s = "beq"%string)
  /\ print_word (encode (insn_of
      (mk_opc (Some "stspr"%string) 0x2 USE_RDA FRMT_SYS CPID_MAIN MASK_IMM_SYS OPC_SYS) 13 3 0 0)) = Fail Foob.
Proof.
  split.
  - apply (mnemonic_roundtrip
             (mk_opc (Some "beq"%string) 0x0 USE_RABI FRMT_B CPID_MAIN MASK_IMM_B OPC_BRANCH)).
    + apply (bool_decide_unpack _). vm_compute. exact I.
    + reflexivity.
    + reflexivity.
    + cbn. unfold is_reg. lia.
  - apply (mnemonic_roundtrip
             (mk_opc (Some "stspr"%string) 0x2 USE_RDA FRMT_SYS CPID_MAIN MASK_IMM_SYS OPC_SYS) "stspr"%string 13 3 0 0).
    + apply (bool_decide_unpack _). vm_compute. exact I.
    + reflexivity.
    + reflexivity.
    + cbn. unfold is_reg. lia.
Defined.
