(* ===== verification/GasState.v ===== *)
(** * The assembler's working state: gas/frags.c, obstacks, fixups, symbols' data

    What the Fusion back end changes while it assembles a line: the input
    buffer with [input_line_pointer], the frags of the current subsegment on
    their obstack, the fixups, the symbols, the bignum of the expression parser and
    the diagnostics; a state-and-fault monad over it; the services the back end calls
    ([ignore_rest_of_line], [frag_more], [fix_new_internal]).

    Pointers into the input buffer are offsets from its start, pointers to frags
    and fixups are positions in their lists ([None] is the null pointer), and an
    obstack is described by offsets from the start of its current chunk, which
    the allocator aligns.  The current section is one that holds frags (not the
    absolute section) and no MRI common block is open, so [frag_alloc_check]
    passes. *)
From Stdlib Require Import Ascii.
From S2P Require Import Prelude FusionIsa GasHash BfdReloc FusionReloc.
#[local] Open Scope Z_scope.

(** ** Data *)

(** A pointer to a [struct symbol] or a [struct local_symbol]: its place among
    the symbols allocated so far ([heap]). *)
Inductive symbolS : Type :=
| Sym (n : nat).

#[global] Instance symbolS_eq_dec : EqDecision symbolS.
Proof. solve_decision. Defined.

Inductive operatorT : Type :=
| O_illegal | O_absent | O_constant | O_symbol | O_symbol_rva | O_register | O_big
| O_uminus | O_bit_not | O_logical_not | O_multiply | O_divide | O_modulus
| O_left_shift | O_right_shift | O_bit_inclusive_or | O_bit_or_not
| O_bit_exclusive_or | O_bit_and | O_add | O_subtract | O_eq | O_ne | O_lt | O_le
| O_ge | O_gt | O_logical_and | O_logical_or | O_index | O_md (n : nat).

#[global] Instance operatorT_eq_dec : EqDecision operatorT.
Proof. solve_decision. Defined.

(** The fields the back end and the fixup code read. *)
Record expressionS : Type := mk_expr {
  X_add_symbol : option symbolS;
  X_op_symbol : option symbolS;
  X_add_number : Z;
  X_op : operatorT
}.

(** A section: one of the pseudo-sections, or a section of the output. *)
Inductive segT : Type :=
| seg_absolute | seg_undefined | seg_reg | seg_expr | seg_common | seg_normal (n : nat).

#[global] Instance segT_eq_dec : EqDecision segT.
Proof. solve_decision. Defined.

Definition SEG_NORMAL (s : segT) : bool :=
  match s with seg_normal _ | seg_common => true | _ => false end.

Inductive relax_state : Type := rs_dummy | rs_fill.

Record frag : Type := mk_frag {
  fr_address : Z;
  fr_fix : Z;
  fr_var : Z;
  fr_offset : Z;
  fr_type : relax_state;
  (** The bytes allocated after the [struct frag] so far. *)
  fr_literal : list Z
}.

Record obstack : Type := mk_obstack {
  chunk_size : Z;
  object_base : Z;
  next_free : Z;
  chunk_limit : Z
}.

Record fixS : Type := mk_fix {
  fx_pcrel : bool;
  fx_tcbit : Z;
  fx_done : bool;
  fx_no_overflow : bool;
  fx_signed : bool;
  fx_size : Z;
  fx_frag : option nat;
  fx_where : Z;
  fx_addsy : option symbolS;
  fx_subsy : option symbolS;
  fx_offset : Z;
  fx_dot_value : Z;
  fx_dot_frag : option nat;
  fx_r_type : bfd_reloc_code_real;
  fx_addnumber : Z
}.

(** A diagnostic, by its format string. *)
Inductive diag : Type :=
| Bad (fmt : string)
| Warn (fmt : string).

(** A pointer to a frag: one of the two static frags, or a frag of the chain. *)
Inductive fragP : Type :=
| zero_address_frag | predefined_address_frag | Frag (n : nat).

#[global] Instance fragP_eq_dec : EqDecision fragP.
Proof. solve_decision. Defined.

(** The union of [struct local_symbol]. *)
Inductive lsy_union : Type :=
| lsy_frag (f : fragP)
| lsy_sym (s : symbolS).

Record local_symbol : Type := mk_local {
  lsy_resolved : bool;
  lsy_section : segT;
  lsy_name : string;
  lsy_u : lsy_union;
  lsy_value : Z
}.

(** [struct symbol_flags] less [sy_local_symbol], which is the constructor of
    [symbol] below. *)
Record symbol_flags : Type := mk_flags {
  sy_written : bool;
  sy_resolved : bool;
  sy_resolving : bool;
  sy_used_in_reloc : bool;
  sy_used : bool;
  sy_volatile : bool;
  sy_forward_ref : bool;
  sy_mri_common : bool;
  sy_weakrefr : bool;
  sy_weakrefd : bool
}.

(** [bsym]: the fields of the BFD symbol gas reads; its value lives in
    [sy_value].  [OBJ_SYMFIELD_TYPE] is left out. *)
Record struct_symbol : Type := mk_struct {
  sy_flags : symbol_flags;
  bsym_name : string;
  bsym_flags : Z;
  bsym_section : segT;
  sy_value : expressionS;
  sy_next : option symbolS;
  sy_previous : option symbolS;
  sy_frag : fragP
}.

Inductive symbol : Type :=
| Local (l : local_symbol)
| Real (s : struct_symbol).

(** The state of symbols.c and of expr.c's expression symbols. *)
Record syms : Type := mk_syms {
  heap : list symbol;
  sy_hash : @hash_control (option symbolS);
  local_hash : @hash_control (option symbolS);
  symbol_rootP : option symbolS;
  symbol_lastP : option symbolS;
  (** [expr_symbol_lines], latest first. *)
  expr_symbol_lines : list symbolS;
  finalize_syms : bool;
  symbol_table_frozen : bool;
  (** [dollar_labels], [dollar_label_instances], [dollar_label_defines] *)
  dollar_labels : list (Z * Z * bool);
  fb_low_counter : list Z;
  (** [fb_labels], [fb_label_instances] from [FB_LABEL_SPECIAL] on. *)
  fb_labels : list (Z * Z);
  sy_log : list diag
}.

(** What else the expression parser reads and writes: the current section and
    the offset in the absolute section, the bignum and the sign of the flonum
    being built. *)
Record xstate : Type := mk_xstate {
  now_seg : segT;
  abs_section_offset : Z;
  generic_bignum : list Z;
  flonum_sign : Z
}.

Record gas : Type := mk_gas {
  buffer : list Z;
  buffer_limit : Z;
  input_line_pointer : Z;
  frags : list frag;
  frch_obstack : obstack;
  fixes : list fixS;
  dot_value : Z;
  dot_frag : option nat;
  symtab : syms;
  xst : xstate;
  (** tc-fusion.c's own: [expr_end], [pending_reloc] and the two hash tables;
      a pointer to an entry of [fusion_insn_all] is the entry. *)
  expr_end : Z;
  pending_reloc : Z;
  op_hash_ctrl : @hash_control (option fusion_opc_info_t);
  reg_names_hash : @hash_control Z;
  log : list diag
}.

(** ** The monad *)
Definition M (A : Type) : Type := gas -> res (A * gas).

#[global] Instance M_ret : MRet M := fun A a g => Ret (a, g).
#[global] Instance M_bind : MBind M :=
  fun A B k m g => match m g with Ret (a, g') => k a g' | Fail f => Fail f end.

Definition fail {A : Type} (f : fault) : M A := fun _ => Fail f.
Definition gets {A : Type} (f : gas -> A) : M A := fun g => Ret (f g, g).
Definition modify (f : gas -> gas) : M unit := fun g => Ret (tt, f g).
Definition lift {A : Type} (r : res A) : M A := fun g => let! a := r in Ret (a, g).
Definition when (b : bool) (m : M unit) : M unit := if b then m else mret tt.

(** [gas_assert] *)
Definition gas_assert (b : bool) : M unit := if b then mret tt else fail Fabort.

Definition set_buffer (b : list Z) (g : gas) : gas :=
  mk_gas b (buffer_limit g) (input_line_pointer g) (frags g) (frch_obstack g) (fixes g)
    (dot_value g) (dot_frag g) (symtab g) (xst g) (expr_end g) (pending_reloc g)
    (op_hash_ctrl g) (reg_names_hash g) (log g).
Definition set_ilp (p : Z) (g : gas) : gas :=
  mk_gas (buffer g) (buffer_limit g) p (frags g) (frch_obstack g) (fixes g)
    (dot_value g) (dot_frag g) (symtab g) (xst g) (expr_end g) (pending_reloc g)
    (op_hash_ctrl g) (reg_names_hash g) (log g).
Definition set_frags (fs : list frag) (ob : obstack) (g : gas) : gas :=
  mk_gas (buffer g) (buffer_limit g) (input_line_pointer g) fs ob (fixes g)
    (dot_value g) (dot_frag g) (symtab g) (xst g) (expr_end g) (pending_reloc g)
    (op_hash_ctrl g) (reg_names_hash g) (log g).
Definition set_fixes (xs : list fixS) (g : gas) : gas :=
  mk_gas (buffer g) (buffer_limit g) (input_line_pointer g) (frags g) (frch_obstack g) xs
    (dot_value g) (dot_frag g) (symtab g) (xst g) (expr_end g) (pending_reloc g)
    (op_hash_ctrl g) (reg_names_hash g) (log g).
Definition set_dot (v : Z) (f : option nat) (g : gas) : gas :=
  mk_gas (buffer g) (buffer_limit g) (input_line_pointer g) (frags g) (frch_obstack g) (fixes g)
    v f (symtab g) (xst g) (expr_end g) (pending_reloc g)
    (op_hash_ctrl g) (reg_names_hash g) (log g).
Definition set_symtab (st : syms) (g : gas) : gas :=
  mk_gas (buffer g) (buffer_limit g) (input_line_pointer g) (frags g) (frch_obstack g) (fixes g)
    (dot_value g) (dot_frag g) st (xst g) (expr_end g) (pending_reloc g)
    (op_hash_ctrl g) (reg_names_hash g) (log g).
Definition set_xst (x : xstate) (g : gas) : gas :=
  mk_gas (buffer g) (buffer_limit g) (input_line_pointer g) (frags g) (frch_obstack g) (fixes g)
    (dot_value g) (dot_frag g) (symtab g) x (expr_end g) (pending_reloc g)
    (op_hash_ctrl g) (reg_names_hash g) (log g).
Definition set_expr_end (p : Z) (g : gas) : gas :=
  mk_gas (buffer g) (buffer_limit g) (input_line_pointer g) (frags g) (frch_obstack g) (fixes g)
    (dot_value g) (dot_frag g) (symtab g) (xst g) p (pending_reloc g)
    (op_hash_ctrl g) (reg_names_hash g) (log g).
Definition set_op_hash (h : @hash_control (option fusion_opc_info_t)) (g : gas) : gas :=
  mk_gas (buffer g) (buffer_limit g) (input_line_pointer g) (frags g) (frch_obstack g) (fixes g)
    (dot_value g) (dot_frag g) (symtab g) (xst g) (expr_end g) (pending_reloc g)
    h (reg_names_hash g) (log g).
Definition set_reg_hash (h : @hash_control Z) (g : gas) : gas :=
  mk_gas (buffer g) (buffer_limit g) (input_line_pointer g) (frags g) (frch_obstack g) (fixes g)
    (dot_value g) (dot_frag g) (symtab g) (xst g) (expr_end g) (pending_reloc g)
    (op_hash_ctrl g) h (log g).
Definition set_log (l : list diag) (g : gas) : gas :=
  mk_gas (buffer g) (buffer_limit g) (input_line_pointer g) (frags g) (frch_obstack g) (fixes g)
    (dot_value g) (dot_frag g) (symtab g) (xst g) (expr_end g) (pending_reloc g)
    (op_hash_ctrl g) (reg_names_hash g) l.

(** ** Diagnostics (messages.c) *)
Definition as_bad (fmt : string) : M unit := modify (fun g => set_log (log g ++ [Bad fmt]) g).
Definition as_warn (fmt : string) : M unit := modify (fun g => set_log (log g ++ [Warn fmt]) g).
Definition as_fatal {A : Type} (fmt : string) : M A := fail (Ffatal fmt).

(** ** The input buffer *)

(** [*p]: the host's [char] is signed. *)
Definition peek (p : Z) : M Z := fun g => let! b := rd (buffer g) p in Ret (s8 b, g).
(** [*p = c] *)
Definition poke (p c : Z) : M unit :=
  fun g => let! b := wr (buffer g) p (Z.land c 0xff) in Ret (tt, set_buffer b g).

Definition chr (c : Ascii.ascii) : Z := s8 (Z.of_N (Ascii.N_of_ascii c)).

(** [while (f ( *p )) p++;]: every turn reads one character of the buffer. *)
Fixpoint skip_loop (fuel : nat) (f : Z -> bool) (p : Z) : M Z :=
  match fuel with
  | O => fail Floop
  | S n => c ← peek p; if f c then skip_loop n f (p + 1) else mret p
  end.

Definition skip_while (f : Z -> bool) (p : Z) : M Z :=
  fun g => skip_loop (S (Z.to_nat (Z.of_nat (length (buffer g)) - p))) f p g.

(** [is_end_of_line] after [read_begin] has added the line separator [;]. *)
Definition is_end_of_line (c : Z) : bool := (c =? 0) || (c =? 10) || (c =? chr ";"%char).

Fixpoint eol_loop (fuel : nat) (p : Z) : M Z :=
  match fuel with
  | O => fail Floop
  | S n =>
      limit ← gets buffer_limit;
      if p <? limit then
        c ← peek p; if is_end_of_line (Z.land c 0xff) then mret p else eol_loop n (p + 1)
      else mret p
  end.

(** [know] is compiled out. *)
Definition ignore_rest_of_line : M unit :=
  fun g =>
    (p ← eol_loop (S (Z.to_nat (buffer_limit g - input_line_pointer g))) (input_line_pointer g);
     modify (set_ilp (p + 1))) g.

(** ** Obstacks (libiberty/obstack.c, include/obstack.h) *)

(** [struct _obstack_chunk]'s [limit] and [prev] before its contents. *)
Definition CHUNK_HEADER : Z := 16.
Definition DEFAULT_MASK : Z := 15.

Definition obstack_room (ob : obstack) : Z := chunk_limit ob - next_free ob.

Definition align_up (p mask : Z) : Z := Z.land (p + mask) (Z.lnot mask).

(** [obstack_finish]: the next object starts at the next aligned address. *)
Definition obstack_finish (mask : Z) (ob : obstack) : obstack :=
  let n := align_up (next_free ob) mask in
  let n := if chunk_limit ob <? n then chunk_limit ob else n in
  mk_obstack (chunk_size ob) n n (chunk_limit ob).

Definition _obstack_newchunk (mask : Z) (ob : obstack) (length : Z) : obstack :=
  let obj_size := next_free ob - object_base ob in
  let sum2 := obj_size + length + mask in
  let new_size := sum2 + Z.shiftr obj_size 3 + 100 in
  let new_size := if new_size <? chunk_size ob then chunk_size ob else new_size in
  let base := align_up CHUNK_HEADER mask in
  mk_obstack (chunk_size ob) base (base + obj_size) new_size.

Definition obstack_blank_fast (n : Z) (ob : obstack) : obstack :=
  mk_obstack (chunk_size ob) (object_base ob) (next_free ob + n) (chunk_limit ob).

Definition obstack_blank (mask length : Z) (ob : obstack) : obstack :=
  obstack_blank_fast length
    (if obstack_room ob <? length then _obstack_newchunk mask ob length else ob).

Definition obstack_alloc (mask length : Z) (ob : obstack) : obstack :=
  obstack_finish mask (obstack_blank mask length ob).

Definition set_chunk_size (n : Z) (ob : obstack) : obstack :=
  mk_obstack n (object_base ob) (next_free ob) (chunk_limit ob).

(** ** Frags (frags.c) *)

(** The offset of [fr_literal] in [struct frag] on an LP64 host. *)
Definition SIZEOF_STRUCT_FRAG : Z := 100.

(** A frag [memset] has cleared, and the obstack after its allocation. *)
Definition frag_alloc (ob : obstack) : frag * obstack :=
  let ob := obstack_alloc DEFAULT_MASK 0 ob in
  (mk_frag 0 0 0 0 rs_dummy [], obstack_alloc 0 SIZEOF_STRUCT_FRAG ob).

(** [frag_now] is the last frag of the chain. *)
Definition frag_now : M nat := gets (fun g => Nat.pred (length (frags g))).

Definition get_frag (f : option nat) : M frag :=
  fun g => match f with
           | Some i => match frags g !! i with Some x => Ret (x, g) | None => Fail Foob end
           | None => Fail Foob
           end.

Definition put_frag (i : nat) (x : frag) : M unit :=
  modify (fun g => set_frags (<[i := x]> (frags g)) (frch_obstack g) g).

Definition frag_wane (i : nat) : M unit :=
  x ← get_frag (Some i);
  put_frag i (mk_frag (fr_address x) (fr_fix x) 0 0 rs_fill (fr_literal x)).

Definition frag_new (old_frags_var_max_size : Z) : M unit :=
  now ← frag_now;
  x ← get_frag (Some now);
  _ ← put_frag now (mk_frag (fr_address x)
                      (Z.of_nat (length (fr_literal x)) - old_frags_var_max_size)
                      (fr_var x) (fr_offset x) (fr_type x) (fr_literal x));
  _ ← gas_assert (match fr_type x with rs_dummy => false | rs_fill => true end);
  modify (fun g =>
    let (y, ob) := frag_alloc (obstack_finish DEFAULT_MASK (frch_obstack g)) in
    set_frags (frags g ++ [y]) ob g).

Fixpoint grow_loop (fuel : nat) (nchars : Z) : M unit :=
  match fuel with
  | O => fail Floop
  | S n =>
      ob ← gets frch_obstack;
      if obstack_room ob <? nchars then
        now ← frag_now; _ ← frag_wane now; _ ← frag_new 0; grow_loop n nchars
      else mret tt
  end.

(** Every turn of the loop uses [SIZEOF_STRUCT_FRAG] bytes of the chunk or
    starts a new one, so the room left bounds their number. *)
Definition frag_grow (nchars : Z) : M unit :=
  ob ← gets frch_obstack;
  if obstack_room ob <? nchars then
    let newc := (if nchars <? 0x10000 then 2 * nchars else nchars + 0x10000)
                + SIZEOF_STRUCT_FRAG in
    let newc := u64 newc in
    if newc <? nchars then as_fatal "can't extend frag %lu chars" else
    let oldc := chunk_size ob in
    _ ← when (oldc <? newc)
          (modify (fun g => set_frags (frags g) (set_chunk_size newc (frch_obstack g)) g));
    _ ← grow_loop (S (S (Z.to_nat (obstack_room ob)))) nchars;
    modify (fun g => set_frags (frags g) (set_chunk_size oldc (frch_obstack g)) g)
  else mret tt.

(** Returns the offset of the new bytes in the current frag's [fr_literal]; the
    bytes hold [junk] until they are written. *)
Definition frag_more (junk : Z) (nchars : Z) : M Z :=
  _ ← frag_grow nchars;
  now ← frag_now;
  x ← get_frag (Some now);
  _ ← put_frag now (mk_frag (fr_address x) (fr_fix x) (fr_var x) (fr_offset x) (fr_type x)
                      (fr_literal x ++ replicate (Z.to_nat nchars) junk));
  _ ← modify (fun g => set_frags (frags g) (obstack_blank_fast nchars (frch_obstack g)) g);
  mret (Z.of_nat (length (fr_literal x))).

(** ** Fixups (write.c) *)

(** The new fixup goes to the end of the section's list. *)
Definition fix_new_internal (frag : option nat) (where_ size : Z) (add sub : option symbolS)
    (offset : Z) (pcrel : bool) (r_type : bfd_reloc_code_real) : M nat :=
  if negb (Z.land size 0xff =? size) then
    _ ← as_bad "field fx_size too small to hold %d"; fail Fabort
  else
  fun g =>
    let fixP := mk_fix pcrel 0 false false false size frag where_ add sub (u64 offset)
                  (dot_value g) (dot_frag g) r_type 0 in
    Ret (length (fixes g), set_fixes (fixes g ++ [fixP]) g).

(** [for (; fixP; fixP = fixP->fx_next)]: the fixups from the [i]th on, each
    replaced by what [body] leaves of it. *)
Fixpoint fix_loop (body : fixS -> M fixS) (n i : nat) : M unit :=
  match n with
  | O => mret tt
  | S n' =>
      f ← (fun g => match fixes g !! i with Some f => Ret (f, g) | None => Fail Foob end);
      f ← body f;
      _ ← modify (fun g => set_fixes (<[i := f]> (fixes g)) g);
      fix_loop body n' (S i)
  end.

Definition for_fixes (body : fixS -> M fixS) : M unit :=
  n ← gets (fun g => length (fixes g)); fix_loop body n 0.

(** ** Running the monad *)
Lemma mbind_ret {A B : Type} (m : M A) (k : A -> M B) (g g' : gas) (a : A) :
  m g = Ret (a, g') -> (x ← m; k x) g = k a g'.
Proof. unfold mbind, M_bind. by intros ->. Qed.

Lemma mbind_fail {A B : Type} (m : M A) (k : A -> M B) (g : gas) (f : fault) :
  m g = Fail f -> (x ← m; k x) g = Fail f.
Proof. unfold mbind, M_bind. by intros ->. Qed.

(** [mrun] runs the steps whose result is known by computation or by a
    hypothesis. *)
Ltac mrun :=
  repeat (erewrite mbind_ret;
          [| first [reflexivity | eassumption | progress cbn; reflexivity]]; cbn [fst snd]).

(** ** Frags: growth terminates and keeps what was assembled *)

(** The bytes of the subsegment in order. *)
Definition image (fs : list frag) : list Z := concat (fr_literal <$> fs).

Lemma image_bytes (fs : list frag) (n : nat) (x : frag) :
  bytes_ok (image fs) -> fs !! n = Some x -> bytes_ok (fr_literal x).
Proof.
  unfold bytes_ok, image. intros H Hx. rewrite Forall_concat, Forall_fmap in H.
  exact (Forall_lookup_1 _ _ _ _ H Hx).
Qed.

Record obstack_ok (ob : obstack) : Prop := {
  ob_base : 0 <= object_base ob;
  ob_next : object_base ob <= next_free ob;
  ob_limit : next_free ob <= chunk_limit ob;
  ob_chunk : 0 <= chunk_size ob
}.

(** [f'] is [f] later: at the same address, with its bytes first. *)
Definition frag_ext (f f' : frag) : Prop :=
  fr_address f' = fr_address f /\ fr_literal f `prefix_of` fr_literal f'.

(** [fs'] is the chain [fs] later. *)
Definition chain_ext (fs fs' : list frag) : Prop :=
  forall i f, fs !! i = Some f -> exists f', fs' !! i = Some f' /\ frag_ext f f'.

Lemma frag_ext_refl (f : frag) : frag_ext f f.
Proof. by split. Qed.

Lemma chain_ext_refl (fs : list frag) : chain_ext fs fs.
Proof. intros i f Hf. exists f. split; [done|]. by apply frag_ext_refl. Qed.

Lemma chain_ext_trans (f1 f2 f3 : list frag) :
  chain_ext f1 f2 -> chain_ext f2 f3 -> chain_ext f1 f3.
Proof.
  intros H1 H2 i f Hf. destruct (H1 i f Hf) as (f' & Hf' & [Ha Hp]).
  destruct (H2 i f' Hf') as (f'' & Hf'' & [Ha' Hp']). exists f''. split; [done|].
  split; [congruence|]. by transitivity (fr_literal f').
Qed.

Lemma chain_ext_last (fs : list frag) (x y : frag) :
  frag_ext x y -> chain_ext (fs ++ [x]) (fs ++ [y]).
Proof.
  intros He i f Hf. destruct (decide (i < length fs)%nat) as [Hi|Hi].
  - rewrite lookup_app_l in Hf |- * by done. exists f. split; [done|apply frag_ext_refl].
  - rewrite lookup_app_r in Hf |- * by lia. apply list_lookup_singleton_Some in Hf.
    destruct Hf as [Hi0 <-]. exists y. by rewrite Hi0.
Qed.

Lemma chain_ext_snoc (fs : list frag) (y : frag) : chain_ext fs (fs ++ [y]).
Proof.
  intros i f Hf. exists f. split; [|apply frag_ext_refl].
  apply lookup_app_l_Some, Hf.
Qed.

Lemma align_up_bounds (p mask k : Z) :
  0 <= k -> mask = 2 ^ k - 1 -> 0 <= p -> p <= align_up p mask <= p + mask.
Proof.
  intros Hk -> Hp. unfold align_up.
  assert (0 < 2 ^ k) by (apply Z.pow_pos_nonneg; lia).
  assert (Z.land (p + (2 ^ k - 1)) (Z.lnot (2 ^ k - 1)) = (p + (2 ^ k - 1)) / 2 ^ k * 2 ^ k) as ->.
  { replace (2 ^ k - 1) with (Z.ones k) by (rewrite Z.ones_equiv; lia).
    rewrite <- Z.ldiff_land, Z.ldiff_ones_r by lia. by rewrite Z.shiftl_mul_pow2, Z.shiftr_div_pow2. }
  pose proof (Z.div_mod (p + (2 ^ k - 1)) (2 ^ k) ltac:(lia)).
  pose proof (Z.mod_pos_bound (p + (2 ^ k - 1)) (2 ^ k) ltac:(lia)). lia.
Qed.

Lemma obstack_finish_ok (mask k : Z) (ob : obstack) :
  0 <= k -> mask = 2 ^ k - 1 -> obstack_ok ob ->
  let ob' := obstack_finish mask ob in
  obstack_ok ob' /\ obstack_room ob' <= obstack_room ob
  /\ object_base ob' = next_free ob' /\ chunk_size ob' = chunk_size ob
  /\ next_free ob <= next_free ob'
  /\ (k = 0 -> obstack_room ob' = obstack_room ob).
Proof.
  intros Hk Hm [H1 H2 H3 H4]. pose proof (align_up_bounds (next_free ob) mask k Hk Hm ltac:(lia)).
  cbv zeta. unfold obstack_finish, obstack_room.
  assert (k = 0 -> mask = 0) by (intros ->; lia).
  destruct (Z.ltb_spec (chunk_limit ob) (align_up (next_free ob) mask)); cbn;
    split_and!; try lia; split; cbn; lia.
Qed.

(** After a frag is allocated, either the chunk has lost at least the frag's
    header or a new chunk has begun, with room for 84 bytes and for what the
    chunk size allows. *)
Lemma frag_alloc_room (ob : obstack) :
  obstack_ok ob ->
  let ob' := (frag_alloc (obstack_finish DEFAULT_MASK ob)).2 in
  obstack_ok ob' /\ chunk_size ob' = chunk_size ob
  /\ (obstack_room ob' <= obstack_room ob - SIZEOF_STRUCT_FRAG
      \/ obstack_room ob' >= Z.max 84 (chunk_size ob - CHUNK_HEADER - SIZEOF_STRUCT_FRAG)).
Proof.
  intros Hok. cbv zeta. unfold frag_alloc. cbn [snd].
  destruct (obstack_finish_ok DEFAULT_MASK 4 ob ltac:(lia) eq_refl Hok) as (Ok1 & R1 & B1 & C1 & _ & _).
  set (ob1 := obstack_finish DEFAULT_MASK ob) in *.
  assert (obstack_blank DEFAULT_MASK 0 ob1 = ob1) as Hb.
  { destruct Ok1. unfold obstack_blank, obstack_room.
    destruct (Z.ltb_spec (chunk_limit ob1 - next_free ob1) 0); [lia|].
    unfold obstack_blank_fast. destruct ob1; cbn. f_equal. lia. }
  assert (obstack_alloc DEFAULT_MASK 0 ob1 = obstack_finish DEFAULT_MASK ob1) as ->.
  { unfold obstack_alloc. by rewrite Hb. }
  destruct (obstack_finish_ok DEFAULT_MASK 4 ob1 ltac:(lia) eq_refl Ok1) as (Ok2 & R2 & B2 & C2 & _ & _).
  set (ob2 := obstack_finish DEFAULT_MASK ob1) in *. clearbody ob2.
  unfold obstack_alloc, obstack_blank.
  destruct (Z.ltb_spec (obstack_room ob2) SIZEOF_STRUCT_FRAG) as [Hlt|Hge].
  - set (ob3 := obstack_blank_fast _ _).
    assert (Ok3 : obstack_ok ob3 /\ chunk_size ob3 = chunk_size ob
      /\ obstack_room ob3 >= Z.max 84 (chunk_size ob - CHUNK_HEADER - SIZEOF_STRUCT_FRAG)).
    { subst ob3. unfold obstack_blank_fast, _obstack_newchunk, obstack_room.
      destruct Ok2. rewrite B2, Z.sub_diag. rewrite <- C1, <- C2.
      change (align_up CHUNK_HEADER 0) with 16. change (Z.shiftr 0 3) with 0. change CHUNK_HEADER with 16.
      change SIZEOF_STRUCT_FRAG with 100 in *. cbn -[Z.max].
      split; [split; cbn|split; [done|]]; repeat case_match; lia. }
    destruct Ok3 as (Ok3 & C3 & R3).
    destruct (obstack_finish_ok 0 0 ob3 ltac:(lia) eq_refl Ok3) as (Ok4 & _ & _ & C4 & _ & E4).
    split; [done|]. split; [congruence|]. right. rewrite E4 by done. done.
  - assert (obstack_ok (obstack_blank_fast SIZEOF_STRUCT_FRAG ob2)) as Ok3.
    { destruct Ok2. unfold obstack_room, SIZEOF_STRUCT_FRAG in *. split; cbn; lia. }
    destruct (obstack_finish_ok 0 0 _ ltac:(lia) eq_refl Ok3) as (Ok4 & R4 & _ & C4 & _ & E4).
    split; [done|]. split; [etransitivity; [exact C4|cbn; congruence]|]. left. rewrite E4 by done.
    unfold obstack_room in *. cbn. lia.
Qed.

(** ** Frames: which parts of the state a step leaves alone *)

(** The states agree on everything but the frags, their obstack, the fixups and
    the diagnostics. *)
Record same_input (g g' : gas) : Prop := {
  si_buffer : buffer g' = buffer g;
  si_limit : buffer_limit g' = buffer_limit g;
  si_ilp : input_line_pointer g' = input_line_pointer g;
  si_pending : pending_reloc g' = pending_reloc g;
  si_op : op_hash_ctrl g' = op_hash_ctrl g;
  si_reg : reg_names_hash g' = reg_names_hash g
}.

Lemma same_input_refl (g : gas) : same_input g g.
Proof. by split. Qed.

Lemma same_input_trans (g1 g2 g3 : gas) : same_input g1 g2 -> same_input g2 g3 -> same_input g1 g3.
Proof. intros [] []. split; congruence. Qed.

(** Frag operations change the chain and the obstack only. *)
Definition frags_only (g g' : gas) : Prop := g' = set_frags (frags g') (frch_obstack g') g.

Lemma frags_only_trans (g1 g2 g3 : gas) : frags_only g1 g2 -> frags_only g2 g3 -> frags_only g1 g3.
Proof. unfold frags_only. destruct g1, g2, g3; cbn. intros [=] [=]. by subst. Qed.

Lemma insert_last {A : Type} (l : list A) (x y : A) : <[length l := y]> (l ++ [x]) = l ++ [y].
Proof. rewrite <- (Nat.add_0_r (length l)), insert_app_r. done. Qed.

Lemma image_snoc (fs : list frag) (x : frag) : image (fs ++ [x]) = image fs ++ fr_literal x.
Proof. unfold image. rewrite fmap_app, concat_app. cbn. by rewrite app_nil_r. Qed.

Lemma frag_now_last (g : gas) (fs : list frag) (x : frag) :
  frags g = fs ++ [x] -> frag_now g = Ret (length fs, g).
Proof. intros H. unfold frag_now, gets. rewrite H, length_app. cbn. by rewrite Nat.add_1_r. Qed.

Lemma get_frag_last (g : gas) (fs : list frag) (x : frag) :
  frags g = fs ++ [x] -> get_frag (Some (length fs)) g = Ret (x, g).
Proof.
  intros H. unfold get_frag. rewrite H, lookup_app_r by lia. by rewrite Nat.sub_diag.
Qed.

Lemma put_frag_last (g : gas) (fs : list frag) (x y : frag) :
  frags g = fs ++ [x] ->
  put_frag (length fs) y g = Ret (tt, set_frags (fs ++ [y]) (frch_obstack g) g).
Proof. intros H. unfold put_frag, modify. by rewrite H, insert_last. Qed.

(** One turn of the growing loop. *)
Lemma frag_new_step (g : gas) (fs : list frag) (x : frag) {A : Type} (k : M A) :
  frags g = fs ++ [x] ->
  let ob' := (frag_alloc (obstack_finish DEFAULT_MASK (frch_obstack g))).2 in
  let x' := mk_frag (fr_address x) (Z.of_nat (length (fr_literal x)) - 0) 0 0 rs_fill (fr_literal x) in
  let y := mk_frag 0 0 0 0 rs_dummy [] in
  (now ← frag_now; _ ← frag_wane now; _ ← frag_new 0; k) g
  = k (set_frags ((fs ++ [x']) ++ [y]) ob' g).
Proof.
  intros Hfs. cbv zeta. rewrite (mbind_ret _ _ _ _ _ (frag_now_last g fs x Hfs)).
  erewrite mbind_ret; last first.
  { unfold frag_wane. rewrite (mbind_ret _ _ _ _ _ (get_frag_last g fs x Hfs)).
    by apply (put_frag_last g fs x). }
  set (g1 := set_frags _ _ _). set (w := mk_frag _ _ _ _ _ _) in g1.
  assert (H1 : frags g1 = fs ++ [w]) by done.
  erewrite mbind_ret; [reflexivity|]. unfold frag_new.
  rewrite (mbind_ret _ _ _ _ _ (frag_now_last g1 fs w H1)).
  rewrite (mbind_ret _ _ _ _ _ (get_frag_last g1 fs w H1)).
  rewrite (mbind_ret _ _ _ _ _ (put_frag_last g1 fs w _ H1)). reflexivity.
Qed.

(** What frag operations keep: the bytes, the frags and the rest of the state. *)
Record frags_kept (g g' : gas) : Prop := {
  fk_only : frags_only g g';
  fk_image : image (frags g') = image (frags g);
  fk_ext : chain_ext (frags g) (frags g');
  fk_last : exists fs x, frags g' = fs ++ [x];
  fk_ok : obstack_ok (frch_obstack g');
  fk_chunk : chunk_size (frch_obstack g') = chunk_size (frch_obstack g)
}.

Lemma frags_kept_trans (g1 g2 g3 : gas) : frags_kept g1 g2 -> frags_kept g2 g3 -> frags_kept g1 g3.
Proof.
  intros [A1 A2 A3 A4 A5 A6] [B1 B2 B3 B4 B5 B6]. split; [|congruence| |done|done|congruence].
  - by apply (frags_only_trans g1 g2 g3).
  - by apply (chain_ext_trans _ (frags g2)).
Qed.

Lemma grow_loop_spec (fuel : nat) (n : Z) (g : gas) (fs : list frag) (x : frag) :
  frags g = fs ++ [x] -> obstack_ok (frch_obstack g) ->
  n <= Z.max 84 (chunk_size (frch_obstack g) - CHUNK_HEADER - SIZEOF_STRUCT_FRAG) ->
  (1 <= fuel)%nat ->
  n <= obstack_room (frch_obstack g) \/ obstack_room (frch_obstack g) + 2 <= Z.of_nat fuel ->
  exists g', grow_loop fuel n g = Ret (tt, g') /\ frags_kept g g'
    /\ n <= obstack_room (frch_obstack g').
Proof.
  revert g fs x. induction fuel as [|fuel IH]; [lia|].
  intros g fs x Hfs Hok Hn _ Hroom. cbn [grow_loop].
  erewrite mbind_ret; [|reflexivity].
  destruct (Z.ltb_spec (obstack_room (frch_obstack g)) n) as [Hlt|Hge].
  - destruct Hroom as [Hroom|Hroom]; [lia|].
    assert (0 <= obstack_room (frch_obstack g)) by (destruct Hok; unfold obstack_room; lia).
    rewrite (frag_new_step g fs x _ Hfs).
    pose proof (frag_alloc_room _ Hok) as (Hok' & Hc & Hr). cbv zeta in Hok', Hc, Hr.
    set (ob' := (frag_alloc _).2) in *. clearbody ob'.
    set (g1 := set_frags _ _ g).
    destruct (IH g1 _ _ eq_refl) as (g' & Hg & Hk & Hroom'); [done|cbn; by rewrite Hc|lia| |].
    { change (frch_obstack g1) with ob'. unfold SIZEOF_STRUCT_FRAG in *.
      destruct Hr as [Hr|Hr]; [right|left]; lia. }
    exists g'. split; [exact Hg|]. split; [|done]. apply (frags_kept_trans _ g1); [|done].
    split; [done| | |eauto|done|exact Hc].
    + unfold g1. cbn [set_frags frags]. rewrite Hfs, !image_snoc. cbn [fr_literal].
      apply app_nil_r.
    + cbn. rewrite Hfs. eapply chain_ext_trans; [|apply chain_ext_snoc].
      apply chain_ext_last. by split.
  - exists g. split; [done|]. split; [|lia]. split; [|done|apply chain_ext_refl|eauto|done|done].
    unfold frags_only. by destruct g.
Qed.

Lemma frags_kept_chunk (g : gas) (c : Z) :
  0 <= c -> obstack_ok (frch_obstack g) -> (exists fs x, frags g = fs ++ [x]) ->
  let g' := set_frags (frags g) (set_chunk_size c (frch_obstack g)) g in
  frags_only g g' /\ image (frags g') = image (frags g) /\ chain_ext (frags g) (frags g')
  /\ (exists fs x, frags g' = fs ++ [x]) /\ obstack_ok (frch_obstack g').
Proof.
  intros Hc Hok Hl. cbv zeta. split_and!; [by destruct g|done|apply chain_ext_refl|done|].
  destruct Hok. by split.
Qed.

Lemma frag_grow_spec (n : Z) (g : gas) :
  0 <= n < 2 ^ 63 -> (exists fs x, frags g = fs ++ [x]) -> obstack_ok (frch_obstack g) ->
  exists g', frag_grow n g = Ret (tt, g') /\ frags_kept g g'
    /\ n <= obstack_room (frch_obstack g').
Proof.
  intros Hn Hl Hok. unfold frag_grow. erewrite mbind_ret; [|reflexivity].
  destruct (Z.ltb_spec (obstack_room (frch_obstack g)) n) as [Hlt|Hge].
  2:{ exists g. split; [done|]. split; [|lia]. split; [|done|apply chain_ext_refl|done|done|done].
      unfold frags_only. by destruct g. }
  set (newc := u64 _).
  assert (Hnew : n <= Z.max 84 (newc - CHUNK_HEADER - SIZEOF_STRUCT_FRAG) /\ n <= newc).
  { subst newc. unfold SIZEOF_STRUCT_FRAG, CHUNK_HEADER.
    destruct (Z.ltb_spec n 0x10000); rewrite u64_small by lia; lia. }
  rewrite (proj2 (Z.ltb_ge newc n)) by lia. cbv zeta.
  set (c := chunk_size (frch_obstack g)).
  set (g1 := if c <? newc then set_frags (frags g) (set_chunk_size newc (frch_obstack g)) g else g).
  assert (Hc0 : 0 <= c) by (destruct Hok; done).
  assert (Hg1 : frags g1 = frags g /\ chunk_size (frch_obstack g1) = Z.max c newc
    /\ obstack_room (frch_obstack g1) = obstack_room (frch_obstack g)
    /\ obstack_ok (frch_obstack g1) /\ frags_only g g1).
  { subst g1. destruct (Z.ltb_spec c newc).
    - destruct (frags_kept_chunk g newc ltac:(lia) Hok Hl) as (? & ? & ? & ? & ?).
      split_and!; [done|cbn; lia|done|done|done].
    - split_and!; [done|subst c; lia|done|done|by destruct g]. }
  destruct Hg1 as (F1 & C1 & R1 & O1 & K1). destruct Hl as (fs & x & Hfs).
  erewrite (mbind_ret _ _ g g1 tt); [|unfold when, g1; by destruct (c <? newc)].
  destruct (grow_loop_spec (S (S (Z.to_nat (obstack_room (frch_obstack g))))) n g1 fs x)
    as (g2 & Hg2 & Hk & Hr); [congruence|done|rewrite C1; lia|lia| |].
  { rewrite R1. right. destruct Hok. unfold obstack_room. lia. }
  rewrite (mbind_ret _ _ _ _ _ Hg2). eexists. split; [reflexivity|].
  destruct Hk as [A1 A2 A3 A4 A5 A6].
  destruct (frags_kept_chunk g2 c Hc0 A5 A4) as (B1 & B2 & B3 & B4 & B5).
  split; [split; [|congruence| |exact B4|exact B5|done]|exact Hr].
  - by apply (frags_only_trans g g1), (frags_only_trans g1 g2).
  - rewrite F1 in A3. exact (chain_ext_trans _ _ _ A3 B3).
Qed.

(** The state has a current frag, on a consistent obstack. *)
Definition frags_ok (g : gas) : Prop :=
  (exists fs x, frags g = fs ++ [x]) /\ obstack_ok (frch_obstack g).

Lemma frag_more_ok (junk n : Z) (g : gas) :
  0 <= n < 2 ^ 63 -> frags_ok g ->
  exists g' fs x l, frag_more junk n g = Ret (Z.of_nat (length l), g')
    /\ frags g' = fs ++ [x] /\ fr_literal x = l ++ replicate (Z.to_nat n) junk
    /\ image (frags g) = image fs ++ l
    /\ (forall y, fr_address y = fr_address x -> l `prefix_of` fr_literal y ->
          chain_ext (frags g) (fs ++ [y]))
    /\ frags_only g g' /\ frags_ok g'.
Proof.
  intros Hn [Hl Hok]. destruct (frag_grow_spec n g Hn Hl Hok) as (g1 & Hg1 & [A1 A2 A3 A4 A5 A6] & Hr).
  unfold frag_more. rewrite (mbind_ret _ _ _ _ _ Hg1). destruct A4 as (fs & x & Hfs).
  rewrite (mbind_ret _ _ _ _ _ (frag_now_last g1 fs x Hfs)).
  rewrite (mbind_ret _ _ _ _ _ (get_frag_last g1 fs x Hfs)).
  rewrite (mbind_ret _ _ _ _ _ (put_frag_last g1 fs x _ Hfs)).
  set (y := mk_frag _ _ _ _ _ _).
  erewrite mbind_ret; [|reflexivity].
  set (g2 := set_frags _ _ (set_frags _ _ _)).
  exists g2, fs, y, (fr_literal x).
  split; [reflexivity|]. split; [reflexivity|]. split; [reflexivity|]. split_and!.
  - by rewrite <- A2, Hfs, image_snoc.
  - intros z Hz Hp. apply (chain_ext_trans _ _ _ A3). rewrite Hfs. by apply chain_ext_last.
  - apply (frags_only_trans g g1); [done|]. unfold frags_only. reflexivity.
  - split; [eauto|]. destruct A5. unfold obstack_room in Hr. split; cbn; lia.
Qed.

(** Any number of requests for bytes. *)
Definition frag_mores (junk : Z) (ns : list Z) : M (list Z) := mapM (frag_more junk) ns.

(** Asking for bytes always succeeds, whatever room the obstack has left: the
    growing loop ends, every request gets its bytes contiguously at the end of
    the subsegment, in order, and the frags there were keep their addresses and
    their bytes. *)
Theorem frag_mores_total (junk : Z) (ns : list Z) (g : gas) :
  frags_ok g -> Forall (fun n => 0 <= n < 2 ^ 63) ns ->
  exists offs g', frag_mores junk ns g = Ret (offs, g')
    /\ image (frags g') = image (frags g) ++ concat ((fun n => replicate (Z.to_nat n) junk) <$> ns)
    /\ chain_ext (frags g) (frags g') /\ frags_only g g' /\ frags_ok g'.
Proof.
  intros Hg Hns. unfold frag_mores. revert g Hg. induction Hns as [|n ns Hn Hns IH]; intros g Hg.
  - exists [], g. cbn. rewrite app_nil_r. split_and!; [done|done|apply chain_ext_refl| |done].
    unfold frags_only. by destruct g.
  - destruct (frag_more_ok junk n g Hn Hg) as (g1 & fs & x & l & H1 & H2 & H3 & H4 & H5 & H6 & H7).
    destruct (IH g1 H7) as (offs & g2 & J1 & J2 & J3 & J4 & J5).
    eexists (_ :: offs), g2. split.
    + cbn. rewrite (mbind_ret _ _ _ _ _ H1), (mbind_ret _ _ _ _ _ J1). reflexivity.
    + assert (chain_ext (frags g) (frags g1)) by (rewrite H2; apply H5; [done|rewrite H3; by eexists]).
      split_and!; [|by eapply chain_ext_trans|by eapply frags_only_trans|done].
      rewrite J2, H2, image_snoc, H3, H4. cbn. by rewrite <- !app_assoc.
Qed.

(** A state just after [subseg_new], before any byte: a chunk of 4064 bytes with
    one frag in it. *)
(** No symbols yet. *)
Definition no_syms : syms :=
  mk_syms [] (hash_new_sized 1) (hash_new_sized 1) None None [] false false []
    (replicate 10 0) [] [].

Definition demo_gas : gas :=
  mk_gas [] 0 0 [mk_frag 0 0 0 0 rs_fill []] (mk_obstack 4064 116 116 130) [] 0 None no_syms
    (mk_xstate (seg_normal 0) 0 [] 0)
    0 0 (hash_new_sized 1) (hash_new_sized 1) [].

Lemma demo_gas_ok : frags_ok demo_gas.
Proof. split; [by exists [], (mk_frag 0 0 0 0 rs_fill [])|]. split; cbn; lia. Qed.

Lemma frag_mores_total_witness :
  exists offs g', frag_mores 0xcc [4; 4; 4; 300; 4] demo_gas = Ret (offs, g')
    /\ length (image (frags g')) = 316%nat.
Proof.
  destruct (frag_mores_total 0xcc [4; 4; 4; 300; 4] demo_gas demo_gas_ok) as (offs & g' & H & Hi & _).
  { repeat constructor; lia. }
  exists offs, g'. split; [exact H|]. rewrite Hi. vm_compute. reflexivity.
Defined.
