(* ===== verification/Scrub.v ===== *)
(** * The character preprocessor: gas/app.c

    [do_scrub_chars] as it is built for Fusion-Core: ['#'] starts a comment
    ([comment_chars] and [line_comment_chars] of tc-fusion.c), [';'] separates
    statements, and none of the options of other targets is on (so [mri_state] is
    always NULL).  The states are those of the code.

    A buffer is what is left of it from [from] on and how many of its characters lie
    before ([behind]): [UNGET] there at the start of the buffer is a fault.  [get] is
    the list of the buffers it will return.  [out_buf] is the string [out_string]
    points into.  The output is a list with the room left for it. *)
From Stdlib Require Import Ascii.
From S2P Require Import Prelude GasState.
#[local] Open Scope Z_scope.

(** ** Character classes *)
Definition LEX_IS_SYMBOL_COMPONENT : Z := 1.
Definition LEX_IS_WHITESPACE : Z := 2.
Definition LEX_IS_LINE_SEPARATOR : Z := 3.
Definition LEX_IS_COMMENT_START : Z := 4.
Definition LEX_IS_LINE_COMMENT_START : Z := 5.
Definition LEX_IS_TWOCHAR_COMMENT_1ST : Z := 6.
Definition LEX_IS_STRINGQUOTE : Z := 8.
Definition LEX_IS_COLON : Z := 9.
Definition LEX_IS_NEWLINE : Z := 10.
Definition LEX_IS_ONECHAR_QUOTE : Z := 11.
Definition LEX_IS_PARALLEL_SEPARATOR : Z := 14.

Definition EOF : Z := -1.
Definition NL : Z := 10.
Definition DQ : Z := 34.
Definition SQ : Z := 39.
Definition BACKSLASH : Z := 92.

Definition symbol_chars : string :=
  "$._ABCDEFGHIJKLMNOPQRSTUVWXYZabcdefghijklmnopqrstuvwxyz0123456789".
Definition comment_chars : string := "#".
Definition line_comment_chars : string := "#".
Definition line_separator_chars : string := ";".

(** The bytes of a C string. *)
Definition bytes (w : string) : list Z :=
  (fun c => Z.of_N (N_of_ascii c)) <$> String.list_ascii_of_string w.

(** [for (p = w; *p; ++p) lex[(unsigned char) *p] = v;] *)
Definition set_lex (w : string) (v : Z) (lex : list Z) : list Z :=
  fold_left (fun lex c => <[Z.to_nat c := v]> lex) (bytes w) lex.

Definition high_loop (lex : list Z) : list Z :=
  fold_left (fun lex c => <[c := LEX_IS_SYMBOL_COMPONENT]> lex) (seq 128 128) lex.

Definition do_scrub_begin (lex : list Z) : list Z :=
  let lex := <[32%nat := LEX_IS_WHITESPACE]> lex in
  let lex := <[9%nat := LEX_IS_WHITESPACE]> lex in
  let lex := <[13%nat := LEX_IS_WHITESPACE]> lex in
  let lex := <[10%nat := LEX_IS_NEWLINE]> lex in
  let lex := <[58%nat := LEX_IS_COLON]> lex in
  let lex := <[34%nat := LEX_IS_STRINGQUOTE]> lex in
  let lex := <[39%nat := LEX_IS_ONECHAR_QUOTE]> lex in
  let lex := set_lex symbol_chars LEX_IS_SYMBOL_COMPONENT lex in
  let lex := high_loop lex in
  let lex := set_lex comment_chars LEX_IS_COMMENT_START lex in
  let lex := set_lex line_comment_chars LEX_IS_LINE_COMMENT_START lex in
  let lex := set_lex line_separator_chars LEX_IS_LINE_SEPARATOR lex in
  if default 0 (lex !! 47%nat) =? 0 then <[47%nat := LEX_IS_TWOCHAR_COMMENT_1ST]> lex else lex.

(** [lex], a static array, after [do_scrub_begin]; its index is a character, the
    code tests for [EOF] first. *)
Definition lex_table : list Z := do_scrub_begin (repeat 0 256).
Definition lex (c : Z) : Z := if 0 <=? c then default 0 (lex_table !! Z.to_nat c) else 0.

Definition IS_SYMBOL_COMPONENT (c : Z) : bool := lex c =? LEX_IS_SYMBOL_COMPONENT.
Definition IS_WHITESPACE (c : Z) : bool := lex c =? LEX_IS_WHITESPACE.
Definition IS_LINE_SEPARATOR (c : Z) : bool := lex c =? LEX_IS_LINE_SEPARATOR.
Definition IS_PARALLEL_SEPARATOR (c : Z) : bool := lex c =? LEX_IS_PARALLEL_SEPARATOR.
Definition IS_COMMENT (c : Z) : bool := lex c =? LEX_IS_COMMENT_START.
Definition IS_NEWLINE (c : Z) : bool := lex c =? LEX_IS_NEWLINE.

Definition process_escape (ch : Z) : Z :=
  if ch =? 98 then 8 else if ch =? 102 then 12 else if ch =? 110 then 10
  else if ch =? 114 then 13 else if ch =? 116 then 9 else ch.

(** [sprintf (out_buf, "%d", (int) (unsigned char) ch)] *)
Definition decimal_of (ch : Z) : list Z :=
  let v := Z.land ch 0xff in
  (if 100 <=? v then [48 + v / 100] else [])
  ++ (if 10 <=? v then [48 + v / 10 mod 10] else []) ++ [48 + v mod 10].

(** ** The state *)
Record app_state : Type := mk_app {
  state : Z;
  old_state : Z;
  out_string : list Z;
  add_newlines : Z;
  quotechar : Z;
  warned : list string
}.

(** The static variables between two calls; a saved buffer with the characters
    before it. *)
Record scrubber : Type := mk_scrubber {
  sc_app : app_state;
  saved_input : option (nat * list Z)
}.

Record io : Type := mk_io {
  ap : app_state;
  from : list Z;
  behind : nat;
  get : list (list Z);
  to : list Z;
  room : Z
}.

Definition set_state (v : Z) (s : io) : io :=
  let a := ap s in
  mk_io (mk_app v (old_state a) (out_string a) (add_newlines a) (quotechar a) (warned a))
    (from s) (behind s) (get s) (to s) (room s).
Definition set_old_state (v : Z) (s : io) : io :=
  let a := ap s in
  mk_io (mk_app (state a) v (out_string a) (add_newlines a) (quotechar a) (warned a))
    (from s) (behind s) (get s) (to s) (room s).
Definition set_out_string (v : list Z) (s : io) : io :=
  let a := ap s in
  mk_io (mk_app (state a) (old_state a) v (add_newlines a) (quotechar a) (warned a))
    (from s) (behind s) (get s) (to s) (room s).
Definition set_add_newlines (v : Z) (s : io) : io :=
  let a := ap s in
  mk_io (mk_app (state a) (old_state a) (out_string a) v (quotechar a) (warned a))
    (from s) (behind s) (get s) (to s) (room s).
Definition set_quotechar (v : Z) (s : io) : io :=
  let a := ap s in
  mk_io (mk_app (state a) (old_state a) (out_string a) (add_newlines a) v (warned a))
    (from s) (behind s) (get s) (to s) (room s).
Definition set_warned (v : list string) (s : io) : io :=
  let a := ap s in
  mk_io (mk_app (state a) (old_state a) (out_string a) (add_newlines a) (quotechar a) v)
    (from s) (behind s) (get s) (to s) (room s).
Definition set_input (f : list Z) (b : nat) (g : list (list Z)) (s : io) : io :=
  mk_io (ap s) f b g (to s) (room s).
Definition set_output (t : list Z) (r : Z) (s : io) : io :=
  mk_io (ap s) (from s) (behind s) (get s) t r.

(** ** Control: [goto tofull] and [goto fromeof] leave the loop *)
Inductive exit (A : Type) : Type :=
| Next (a : A) (s : io)
| Tofull (s : io)
| Fromeof (s : io)
| Fault (f : fault).
Arguments Next {A} a s.
Arguments Tofull {A} s.
Arguments Fromeof {A} s.
Arguments Fault {A} f.

Definition K (A : Type) : Type := io -> exit A.
#[global] Instance K_ret : MRet K := fun A a s => Next a s.
#[global] Instance K_bind : MBind K :=
  fun A B k m s =>
    match m s with Next a s' => k a s' | Tofull s' => Tofull s' | Fromeof s' => Fromeof s' | Fault f => Fault f end.

Definition kfail {A : Type} (f : fault) : K A := fun _ => Fault f.
Definition kget {A : Type} (f : app_state -> A) : K A := fun s => Next (f (ap s)) s.
Definition kput (f : io -> io) : K unit := fun s => Next tt (f s).
Definition kwhen (b : bool) (m : K unit) : K unit := if b then m else mret tt.
Definition kwarn (w : string) : K unit := kput (fun s => set_warned (warned (ap s) ++ [w]) s).
Definition fromeof {A : Type} : K A := fun s => Fromeof s.
Definition tofull {A : Type} : K A := fun s => Tofull s.
Definition ask {A : Type} (f : io -> A) : K A := fun s => Next (f s) s.

Definition GET : K Z := fun s =>
  match from s with
  | c :: l => Next c (set_input l (S (behind s)) (get s) s)
  | [] =>
      match get s with
      | (c :: l) :: g => Next c (set_input l 1 g s)
      | [] :: g => Next EOF (set_input [] 0 g s)
      | [] => Next EOF (set_input [] 0 [] s)
      end
  end.

Definition UNGET (c : Z) : K unit := fun s =>
  match behind s with
  | O => Fault Foob
  | S n => Next tt (set_input (Z.land c 0xff :: from s) n (get s) s)
  end.

(** [*to++ = c] *)
Definition emit (c : Z) : K unit := fun s =>
  if room s <=? 0 then Fault Foob
  else Next tt (set_output (to s ++ [Z.land c 0xff]) (room s - 1) s).

Definition if_full : K unit := full ← ask (fun s => room s <=? 0); if (full : bool) then tofull else mret tt.

Definition PUT (c : Z) : K unit :=
  _ ← emit c; if_full.

(** [to + 1 < toend] *)
Definition has_room : K bool := ask (fun s => 1 <? room s).

(** Every turn of a loop reads a character. *)
Definition rest (s : io) : list Z := from s ++ concat (get s).
Definition in_fuel : K nat := ask (fun s => S (length (rest s))).

(** [do { ch = GET (); } while (ch != EOF && p (ch));] *)
Fixpoint get_loop (fuel : nat) (p : Z -> bool) : K Z :=
  match fuel with
  | O => kfail Floop
  | S n => ch ← GET; if negb (ch =? EOF) && p ch then get_loop n p else mret ch
  end.
Definition get_while (p : Z -> bool) : K Z := n ← in_fuel; get_loop n p.

(** [while (ch != EOF && p (ch)) ch = GET ();] *)
Definition while_get (p : Z -> bool) (ch : Z) : K Z :=
  if negb (ch =? EOF) && p ch then get_while p else mret ch.

(** ** The loops *)

(** A comment of two characters, from after its [*] on: the [*/] is read, the
    newlines in it counted.  The result is [/] or [EOF]. *)
Fixpoint to_star (fuel : nat) : K Z :=
  match fuel with
  | O => kfail Floop
  | S n =>
      ch2 ← GET;
      _ ← kwhen (negb (ch2 =? EOF) && IS_NEWLINE ch2)
            (kput (fun s => set_add_newlines (add_newlines (ap s) + 1) s));
      if negb (ch2 =? EOF) && negb (ch2 =? chr "*") then to_star n else mret ch2
  end.

Fixpoint block_comment (fuel : nat) : K Z :=
  match fuel with
  | O => kfail Floop
  | S n =>
      k ← in_fuel;
      ch2 ← to_star k;
      ch2 ← while_get (fun c => c =? chr "*") ch2;
      if (ch2 =? EOF) || (ch2 =? chr "/") then mret ch2
      else _ ← UNGET ch2; block_comment n
  end.

(** State -2 (not entered: it is for a line comment character [/]). *)
Fixpoint flush_to_star (fuel : nat) : K unit :=
  match fuel with
  | O => kfail Floop
  | S n =>
      ch ← GET;
      if ch =? EOF then _ ← kwarn "end of file in comment"; fromeof
      else
        _ ← kwhen (ch =? NL) (PUT NL);
        if negb (ch =? chr "*") then flush_to_star n else mret tt
  end.

Fixpoint flush_comment (fuel : nat) : K unit :=
  match fuel with
  | O => kfail Floop
  | S n =>
      k ← in_fuel;
      _ ← flush_to_star k;
      ch ← get_while (fun c => c =? chr "*");
      if ch =? EOF then _ ← kwarn "end of file in comment"; fromeof
      else if ch =? chr "/" then mret tt
      else _ ← UNGET ch; flush_comment n
  end.

(** ** The states with a switch of their own *)
Definition put_string : K unit :=
  o ← kget out_string;
  match o with
  | [] => kfail Foob
  | ch :: o =>
      _ ← kput (set_out_string o);
      _ ← kwhen (bool_decide (o = [])) (kput (fun s => set_old_state 3 (set_state (old_state (ap s)) s)));
      PUT ch
  end.

Definition flush_state : K unit :=
  n ← in_fuel;
  _ ← flush_comment n;
  _ ← kput (fun s => set_state (old_state (ap s)) s);
  UNGET 32.

Definition linefile_state : K unit :=
  ch ← GET;
  if ch =? EOF then fromeof
  else if (48 <=? ch) && (ch <=? 57) then PUT ch
  else
    ch ← while_get IS_WHITESPACE ch;
    if ch =? DQ then
      _ ← kput (fun s => set_old_state 3 (set_state 5 (set_quotechar ch s)));
      PUT ch
    else
      ch ← while_get (fun c => negb (c =? NL)) ch;
      _ ← kput (set_state 0);
      PUT ch.

(** The characters of the buffer up to the first that [p] accepts. *)
Fixpoint run_before (p : Z -> bool) (l : list Z) : nat :=
  match l with [] => O | c :: l => if p c then O else S (run_before p l) end.

(** [memcpy (to, from, len); to += len; from += len;] *)
Definition copy (len : nat) : K unit := fun s =>
  if room s <? Z.of_nat len then Fault Foob
  else Next tt (set_output (to s ++ take len (from s)) (room s - Z.of_nat len)
                  (set_input (drop len (from s)) (behind s + len) (get s) s)).

Definition string_state : K unit :=
  q ← kget quotechar;
  len ← ask (fun s => Z.min (Z.of_nat (run_before (fun c => (c =? BACKSLASH) || (c =? q) || (c =? NL)) (from s)))
                          (room s));
  _ ← kwhen (0 <? len) (_ ← copy (Z.to_nat len); if_full);
  ch ← GET;
  if ch =? EOF then
    _ ← kwarn "end of file in string; '%c' inserted";
    _ ← kput (fun s => set_input [] 1 (get s) (set_state (old_state (ap s)) s));
    _ ← UNGET NL;
    PUT q
  else if ch =? q then _ ← kput (fun s => set_state (old_state (ap s)) s); PUT ch
  else if ch =? BACKSLASH then _ ← kput (set_state 6); PUT ch
  else PUT ch.

(** The known escapes and the others are put out alike. *)
Definition escape_state : K unit :=
  _ ← kput (set_state 5);
  ch ← GET;
  if ch =? NL then
    _ ← UNGET 110;
    _ ← kput (fun s => set_add_newlines (add_newlines (ap s) + 1) s);
    PUT BACKSLASH
  else if ch =? EOF then
    _ ← kwarn "end of file in string; '%c' inserted";
    q ← kget quotechar; PUT q
  else PUT ch.

(** ** The states of text *)
Definition in_states (l : list Z) : K bool := st ← kget state; mret (bool_decide (st ∈ l)).

(** [de_fault:] *)
Definition de_fault (ch : Z) : K unit :=
  st ← kget state;
  if st =? 0 then _ ← kput (set_state 11); PUT ch
  else if st =? 1 then _ ← kput (set_state 2); PUT ch
  else if st =? 9 then
    _ ← kwhen (negb (IS_SYMBOL_COMPONENT ch)) (kput (set_state 3)); PUT ch
  else if st =? 10 then
    if ch =? BACKSLASH then
      more ← has_room;
      if (more : bool) then _ ← emit 32; _ ← kput (set_state 3); PUT ch
      else _ ← UNGET ch; tofull
    else _ ← kput (set_state 3); PUT ch
  else PUT ch.

(** After white space in the states 1, 2, 3 and 9 to 11; [None] is [break], a
    character [goto recycle]. *)
Definition white_state (ch : Z) : K (option Z) :=
  st ← kget state;
  if st =? 1 then mret (Some ch)
  else if st =? 2 then
    _ ← kput (set_state 3);
    more ← has_room;
    if (more : bool) then _ ← PUT 32; mret (Some ch) else _ ← UNGET ch; _ ← PUT 32; mret None
  else if st =? 3 then mret (Some ch)
  else if (st =? 9) || (st =? 10) then _ ← kput (set_state 10); mret (Some ch)
  else if st =? 11 then _ ← kput (set_state 3); _ ← UNGET ch; _ ← PUT 32; mret None
  else kfail Fabort.

(** [case LEX_IS_WHITESPACE:] *)
Definition whitespace : K (option Z) :=
  ch ← get_while IS_WHITESPACE;
  if ch =? EOF then fromeof else
  st ← kget state;
  if st =? 0 then _ ← kput (set_state 1); _ ← UNGET ch; _ ← PUT 32; mret None
  else if IS_COMMENT ch || (ch =? chr "/") || IS_LINE_SEPARATOR ch || IS_PARALLEL_SEPARATOR ch
  then mret (Some ch)
  else if ((st =? 2) || (st =? 11)) && (lex ch =? LEX_IS_COLON)
  then _ ← kput (set_state 1); _ ← PUT ch; mret None
  else white_state ch.

(** [case LEX_IS_TWOCHAR_COMMENT_1ST:] *)
Definition slash (ch : Z) : K (option Z) :=
  ch2 ← GET;
  if ch2 =? chr "*" then
    n ← in_fuel;
    ch2 ← block_comment n;
    _ ← kwhen (ch2 =? EOF) (kwarn "end of file in multiline comment");
    mret (Some 32)
  else
    _ ← kwhen (negb (ch2 =? EOF)) (UNGET ch2);
    b ← in_states [9; 10];
    _ ← kwhen b (kput (set_state 3));
    _ ← PUT ch; mret None.

Definition string_quote (ch : Z) : K unit :=
  _ ← kput (set_quotechar ch);
  st ← kget state;
  ch ← (if st =? 10 then
          _ ← UNGET ch; _ ← kput (set_state 3); _ ← PUT 32;
          ch ← GET; _ ← kput (set_old_state 3); mret ch
        else _ ← kput (set_old_state (if st =? 9 then 3 else st)); mret ch);
  _ ← kput (set_state 5);
  PUT ch.

(** [if (strlen (out_buf) == 1)]: the other digits are put out in the state -1. *)
Definition put_decimal (out_buf : list Z) : K unit :=
  match out_buf with
  | [] => kfail Foob
  | [d] => PUT d
  | d :: ds =>
      st ← kget state;
      _ ← kput (fun s => set_out_string ds (set_state (-1) (set_old_state (if st =? 9 then 3 else st) s)));
      PUT d
  end.

(** The closing quote, which may be missing. *)
Definition quote_end (out_buf : list Z) : K unit :=
  ch ← GET;
  _ ← kwhen (negb (ch =? SQ) && negb (ch =? EOF)) (UNGET ch);
  put_decimal out_buf.

Definition onechar_quote (ch : Z) : K unit :=
  st ← kget state;
  if st =? 10 then _ ← UNGET ch; _ ← kput (set_state 3); PUT 32 else
  ch ← GET;
  ch ← (if ch =? EOF then
          _ ← kwarn "end of file after a one-character quote; \0 inserted"; mret 0
        else mret ch);
  ch ← (if ch =? BACKSLASH then
          ch ← GET;
          if ch =? EOF then _ ← kwarn "end of file in escape character"; mret BACKSLASH
          else mret (process_escape ch)
        else mret ch);
  quote_end (decimal_of ch).

Definition colon (ch : Z) : K unit :=
  st ← kget state;
  _ ← (if (st =? 9) || (st =? 10) then kput (set_state 3)
       else if negb (st =? 3) then kput (set_state 1) else mret tt);
  PUT ch.

Definition newline (ch : Z) : K unit :=
  n ← kget add_newlines;
  _ ← kwhen (negb (n =? 0)) (_ ← kput (set_add_newlines (n - 1)); UNGET ch);
  _ ← kput (set_state 0); PUT ch.

(** [case LEX_IS_COMMENT_START:] *)
Definition comment : K unit :=
  ch ← get_while (fun c => negb (IS_NEWLINE c));
  _ ← kwhen (ch =? EOF) (kwarn "end of file in comment; newline inserted");
  _ ← kput (set_state 0);
  PUT NL.

Definition LINEFILE : list Z := 9 :: bytes ".linefile ".

Definition line_comment_at_start (startch : Z) : K unit :=
  ch ← get_while IS_WHITESPACE;
  if ch =? EOF then _ ← kwarn "end of file in comment; newline inserted"; PUT NL
  else
    st ← kget state;
    if (ch <? 48) || (57 <? ch) || negb (st =? 0) || negb (startch =? chr "#") then
      ch ← while_get (fun c => negb (IS_NEWLINE c)) ch;
      _ ← (if ch =? EOF then _ ← kwarn "end of file in comment; newline inserted"; PUT NL
           else UNGET ch);
      kput (set_state 0)
    else
      _ ← UNGET ch;
      _ ← kput (fun s => set_out_string (tail LINEFILE) (set_state (-1) (set_old_state 4 s)));
      PUT (hd 0 LINEFILE).

(** [case LEX_IS_LINE_COMMENT_START:] *)
Definition line_comment (ch : Z) : K unit :=
  into ← (if ch =? chr "/" then
            ch2 ← GET;
            if ch2 =? chr "*" then mret true
            else _ ← kwhen (negb (ch2 =? EOF)) (UNGET ch2); mret false
          else mret false);
  if (into : bool) then kput (fun s => set_state (-2) (set_old_state 3 s)) else
  start ← in_states [0; 1];
  if (start : bool) then line_comment_at_start ch
  else if bool_decide (ch ∈ bytes comment_chars) then comment else de_fault ch.

(** The end of a run of symbol characters and characters of no class. *)
Definition ends_run (c : Z) : bool := negb (lex c =? 0) && negb (IS_SYMBOL_COMPONENT c).

(** [case LEX_IS_SYMBOL_COMPONENT:]; all but the last character of a run are
    copied at once. *)
Definition symbol_component (ch : Z) : K unit :=
  st ← kget state;
  if st =? 10 then _ ← UNGET ch; _ ← kput (set_state 3); PUT 32 else
  _ ← kwhen (st =? 3) (kput (set_state 9));
  more ← has_room;
  ch ← (if (more : bool) then
          len ← ask (fun s => Z.min (Z.of_nat (Nat.pred (run_before ends_run (from s)))) (room s - 1));
          if 0 <? len then _ ← PUT ch; _ ← copy (Z.to_nat len); _ ← if_full; GET else mret ch
        else mret ch);
  de_fault ch.

(** [recycle:]; every turn after the first has read a character. *)
Fixpoint recycle (fuel : nat) (ch : Z) : K unit :=
  match fuel with
  | O => kfail Floop
  | S n =>
      let again (m : K (option Z)) := r ← m; match r with Some ch => recycle n ch | None => mret tt end in
      if ch =? EOF then
        st ← kget state;
        _ ← kwhen (negb (st =? 0))
              (_ ← kwarn "end of file not at end of a line; newline inserted"; _ ← kput (set_state 0); PUT NL);
        fromeof
      else
        let class := lex ch in
        if class =? LEX_IS_WHITESPACE then again whitespace
        else if class =? LEX_IS_TWOCHAR_COMMENT_1ST then again (slash ch)
        else if class =? LEX_IS_STRINGQUOTE then string_quote ch
        else if class =? LEX_IS_ONECHAR_QUOTE then onechar_quote ch
        else if class =? LEX_IS_COLON then colon ch
        else if class =? LEX_IS_NEWLINE then newline ch
        else if class =? LEX_IS_LINE_SEPARATOR then _ ← kput (set_state 0); PUT ch
        else if class =? LEX_IS_PARALLEL_SEPARATOR then _ ← kput (set_state 1); PUT ch
        else if class =? LEX_IS_LINE_COMMENT_START then line_comment ch
        else if class =? LEX_IS_COMMENT_START then comment
        else if class =? LEX_IS_SYMBOL_COMPONENT then symbol_component ch
        else de_fault ch
  end.

(** One turn of [while (1)]. *)
Definition turn : K unit :=
  st ← kget state;
  if st =? -1 then put_string
  else if st =? -2 then flush_state
  else if st =? 4 then linefile_state
  else if st =? 5 then string_state
  else if st =? 6 then escape_state
  else ch ← GET; n ← in_fuel; recycle (S n) ch.

Fixpoint turns (fuel : nat) : K unit :=
  match fuel with
  | O => kfail Floop
  | S n => _ ← turn; turns n
  end.

(** ** The function *)

(** [tofull:] *)
Definition save_input (s : io) : option (nat * list Z) :=
  if bool_decide (from s = []) then None else Some (behind s, from s).

(** What [get] has left, the characters put out and the static state.  Every turn of the
    loop but one reads a character or puts one out, the end of a string that the text
    ends in puts the newline back. *)
Definition do_scrub_chars (sc : scrubber) (get : list (list Z)) (tolen : Z)
  : res (list Z * scrubber * list (list Z)) :=
  let run s :=
    match turns (S (length (rest s) + 2 * Z.to_nat tolen)) s with
    | Next _ _ => Fail Floop
    | Tofull s => Ret (to s, mk_scrubber (ap s) (save_input s), Scrub.get s)
    | Fromeof s => Ret (to s, mk_scrubber (ap s) None, Scrub.get s)
    | Fault f => Fail f
    end in
  match saved_input sc with
  | Some (b, l) => run (mk_io (sc_app sc) l b get [] tolen)
  | None =>
      match get with
      | [] => Ret ([], sc, [])
      | [] :: g => Ret ([], sc, g)
      | l :: g => run (mk_io (sc_app sc) l O g [] tolen)
      end
  end.

(** ** Nested input *)
Definition app_push (sc : scrubber) : scrubber * scrubber :=
  let a := sc_app sc in
  (sc, mk_scrubber (mk_app 0 (old_state a) (out_string a) 0 (quotechar a) (warned a)) None).

(** The characters before the saved input are gone; [quotechar] and what was
    reported are not part of what is saved. *)
Definition app_pop (saved sc : scrubber) : res scrubber :=
  let a := sc_app saved in
  let a' := mk_app (state a) (old_state a) (out_string a) (add_newlines a)
              (quotechar (sc_app sc)) (warned (sc_app sc)) in
  match saved_input saved with
  | None => Ret (mk_scrubber a' None)
  | Some (_, l) =>
      if Z.of_nat (length l) <=? 32 * 1024 then Ret (mk_scrubber a' (Some (O, l))) else Fail Fabort
  end.

(** ** Examples *)
Definition scrub0 : scrubber := mk_scrubber (mk_app 0 0 [] 0 0 []) None.

Definition ascii_bytes (s : string) : list Z := bytes s.

(** A call after another until one returns nothing. *)
Fixpoint scrub_calls (fuel : nat) (sc : scrubber) (get : list (list Z)) (tolen : Z) : res (list Z) :=
  match fuel with
  | O => Fail Floop
  | S n =>
      let! (o, sc', g') := do_scrub_chars sc get tolen in
      if bool_decide (o = []) then Ret [] else let! os := scrub_calls n sc' g' tolen in Ret (o ++ os)
  end.
