(* ===== verification/ScrubRef.v ===== *)
(** * The preprocessor as a machine on characters

    What [do_scrub_chars] computes, without buffers: a machine that reads one
    character after the other ([delta]) and answers each with what it puts out.  The
    calls of [do_scrub_chars] put out exactly that, however the text is cut into
    buffers and whatever room they are given. *)
From S2P Require Import Prelude GasState Scrub.
#[local] Open Scope Z_scope.

(** ** The machine *)

(** [Text]: the states of the code for text.  [White], [Slash]: after white space, after
    a [/].  [Block]: in a comment of two characters, after a [*] or not.  [Str], [Esc]:
    in a string, after a backslash in it, with the state after it.  [Quote],
    [QuoteEsc], [QuoteEnd]: after a single quote, a backslash after it, the
    character.  [Hash]: after the [#] that begins a line.  [Skip], [Comment]: to the
    end of the line.  [Line], [LineWhite], [LineSkip]: the number, the white space and
    the rest of a cpp line. *)
Inductive mode : Type :=
| Text (st : Z) | White (st : Z) | Slash (st : Z) | Block (st : Z) (star : bool)
| Str (old : Z) | Esc (old : Z)
| Quote (st : Z) | QuoteEsc (st : Z) | QuoteEnd (st v : Z)
| Hash (st : Z) | Skip | Comment | Line | LineWhite | LineSkip.

Definition digit (c : Z) : bool := (48 <=? c) && (c <=? 57).

(** Newlines read inside comments and strings are put out at the next one. *)
Definition newlines (n : Z) : list Z := repeat NL (S (Z.to_nat n)).

(** A character in the state [st]. *)
Definition text_char (st n c : Z) : mode * Z * list Z :=
  let class := lex c in
  if class =? LEX_IS_WHITESPACE then (White st, n, [])
  else if class =? LEX_IS_TWOCHAR_COMMENT_1ST then (Slash st, n, [])
  else if class =? LEX_IS_STRINGQUOTE then
    if st =? 10 then (Str 3, n, [32; c]) else (Str (if st =? 9 then 3 else st), n, [c])
  else if class =? LEX_IS_ONECHAR_QUOTE then
    if st =? 10 then (Quote 3, n, [32]) else (Quote st, n, [])
  else if class =? LEX_IS_COLON then
    (Text (if (st =? 9) || (st =? 10) || (st =? 3) then 3 else 1), n, [c])
  else if class =? LEX_IS_NEWLINE then (Text 0, 0, newlines n)
  else if class =? LEX_IS_LINE_SEPARATOR then (Text 0, n, [c])
  else if class =? LEX_IS_LINE_COMMENT_START then
    if (st =? 0) || (st =? 1) then (Hash st, n, []) else (Comment, n, [])
  else
    let sym := class =? LEX_IS_SYMBOL_COMPONENT in
    if st =? 10 then
      if sym then (Text 9, n, [32; c])
      else (Text 3, n, if c =? BACKSLASH then [32; c] else [c])
    else
      (Text (if st =? 0 then 11 else if st =? 1 then 2
             else if st =? 9 then if sym then 9 else 3
             else if (st =? 3) && sym then 9 else st), n, [c]).

Definition before (o : list Z) (r : mode * Z * list Z) : mode * Z * list Z :=
  let '(m, n, o') := r in (m, n, o ++ o').

(** The character after white space. *)
Definition after_white (st n c : Z) : mode * Z * list Z :=
  if st =? 0 then before [32] (text_char 1 n c)
  else if (c =? 47) || IS_LINE_SEPARATOR c then text_char st n c
  else if ((st =? 2) || (st =? 11)) && (lex c =? LEX_IS_COLON) then (Text 1, n, [c])
  else if (st =? 2) || (st =? 11) then before [32] (text_char 3 n c)
  else if (st =? 9) || (st =? 10) then text_char 10 n c
  else text_char st n c.

Definition line_char (m : mode) (n c : Z) : mode * Z * list Z :=
  if IS_WHITESPACE c then (m, n, [])
  else if c =? DQ then (Str 3, n, [c])
  else if c =? NL then (Text 0, n, [c])
  else (LineSkip, n, []).

Definition delta (m : mode) (n c : Z) : mode * Z * list Z :=
  match m with
  | Text st => text_char st n c
  | White st => if IS_WHITESPACE c then (White st, n, []) else after_white st n c
  | Slash st =>
      if c =? 42 then (Block st false, n, [])
      else before [47] (text_char (if (st =? 9) || (st =? 10) then 3 else st) n c)
  | Block st star =>
      if c =? 42 then (Block st true, n, [])
      else if star && (c =? 47) then (White st, n, [])
      else (Block st false, if IS_NEWLINE c then n + 1 else n, [])
  | Str old =>
      if c =? DQ then (Text old, n, [c]) else if c =? BACKSLASH then (Esc old, n, [c]) else (Str old, n, [c])
  | Esc old => if c =? NL then (Str old, n + 1, [BACKSLASH; 110]) else (Str old, n, [c])
  | Quote st => if c =? BACKSLASH then (QuoteEsc st, n, []) else (QuoteEnd st c, n, [])
  | QuoteEsc st => (QuoteEnd st (process_escape c), n, [])
  | QuoteEnd st v =>
      let o := decimal_of v in
      let st := if (st =? 9) && (10 <=? v) then 3 else st in
      if c =? SQ then (Text st, n, o) else before o (text_char st n c)
  | Hash st =>
      if IS_WHITESPACE c then (Hash st, n, [])
      else if digit c && (st =? 0) then (Line, n, LINEFILE ++ [c])
      else if IS_NEWLINE c then text_char 0 n c
      else (Skip, n, [])
  | Skip => if IS_NEWLINE c then text_char 0 n c else (Skip, n, [])
  | Comment => if IS_NEWLINE c then (Text 0, n, [NL]) else (Comment, n, [])
  | Line => if digit c then (Line, n, [c]) else line_char LineWhite n c
  | LineWhite => line_char LineWhite n c
  | LineSkip => if c =? NL then (Text 0, n, [c]) else (LineSkip, n, [])
  end.

Fixpoint feed (m : mode) (n : Z) (l : list Z) : mode * Z * list Z :=
  match l with
  | [] => (m, n, [])
  | c :: l => let '(m, n, o) := delta m n c in before o (feed m n l)
  end.

(** Nothing is left of a text, or it ends in a newline. *)
Definition ends_line (l : list Z) : Prop := default NL (last l) = NL.

(** The text ends at the end of a line, outside comments and strings, and scrubs to
    [o]. *)
Definition scrubs (l o : list Z) : Prop := ends_line l /\ exists n, feed (Text 0) 0 l = (Text 0, n, o).

(** ** Character classes *)
Lemma lex_cases (P : Z -> Z -> bool) (c : Z) :
  forallb (fun c => P (Z.of_nat c) (lex (Z.of_nat c))) (seq 0 256) = true -> is_byte c -> P c (lex c) = true.
Proof.
  intros H [H0 H1]. rewrite forallb_forall in H. rewrite <- (Z2Nat.id c) by done.
  apply (H (Z.to_nat c)), list_elem_of_In, elem_of_seq. lia.
Qed.

(** The characters of a class, [k] where only one character is in it. *)
Definition class_is (k v c l : Z) : bool := negb (l =? k) || (c =? v).

Lemma lex_class (k v c : Z) :
  forallb (fun c => class_is k v (Z.of_nat c) (lex (Z.of_nat c))) (seq 0 256) = true ->
  is_byte c -> lex c = k -> c = v.
Proof.
  intros H Hc Hk. apply (lex_cases _ c H) in Hc. unfold class_is in Hc.
  rewrite Hk, Z.eqb_refl in Hc. cbn in Hc. by apply Z.eqb_eq.
Qed.

Lemma lex_slash (c : Z) : is_byte c -> lex c = 6 -> c = 47.
Proof. apply lex_class. vm_compute. reflexivity. Qed.
Lemma lex_quote (c : Z) : is_byte c -> lex c = 8 -> c = 34.
Proof. apply lex_class. vm_compute. reflexivity. Qed.
Lemma lex_single (c : Z) : is_byte c -> lex c = 11 -> c = 39.
Proof. apply lex_class. vm_compute. reflexivity. Qed.
Lemma lex_colon (c : Z) : is_byte c -> lex c = 9 -> c = 58.
Proof. apply lex_class. vm_compute. reflexivity. Qed.
Lemma lex_newline (c : Z) : is_byte c -> lex c = 10 -> c = 10.
Proof. apply lex_class. vm_compute. reflexivity. Qed.
Lemma lex_separator (c : Z) : is_byte c -> lex c = 3 -> c = 59.
Proof. apply lex_class. vm_compute. reflexivity. Qed.
Lemma lex_hash (c : Z) : is_byte c -> lex c = 5 -> c = 35.
Proof. apply lex_class. vm_compute. reflexivity. Qed.

(** The classes there are. *)
Lemma lex_range (c : Z) : is_byte c -> lex c ∈ [0; 1; 2; 3; 5; 6; 8; 9; 10; 11].
Proof.
  intros Hc. pose proof (lex_cases (fun _ l => bool_decide (l ∈ [0; 1; 2; 3; 5; 6; 8; 9; 10; 11])) c) as H.
  apply (bool_decide_unpack _). rewrite H; [exact I|vm_compute; reflexivity|done].
Qed.
