(* ===== verification/ScrubWp.v ===== *)
(** * Reasoning about the preprocessor

    A weakest-precondition calculus for the control of [do_scrub_chars], what is owed of
    the machine's output ([due]), the well-formed states, and the bounds kept in the
    middle of a turn ([mid]). *)
From S2P Require Import Prelude GasState Scrub ScrubRef.
#[local] Open Scope Z_scope.

(** ** A calculus for [K] *)
Section wp.
Context {A : Type}.

(** [Q] holds where [m] goes on, [F] at [tofull], [E] at [fromeof]; no fault. *)
Definition wp (m : K A) (Q : A -> io -> Prop) (F E : io -> Prop) (s : io) : Prop :=
  match m s with Next a s' => Q a s' | Tofull s' => F s' | Fromeof s' => E s' | Fault _ => False end.
End wp.

Lemma k_bind {A B : Type} (m : K A) (k : A -> K B) (Q : B -> io -> Prop) (F E : io -> Prop) (s : io) :
  wp m (fun a s' => wp (k a) Q F E s') F E s -> wp (m ≫= k) Q F E s.
Proof. unfold wp, mbind, K_bind. by destruct (m s). Qed.

Lemma k_mono {A : Type} (m : K A) (Q Q' : A -> io -> Prop) (F E : io -> Prop) (s : io) :
  wp m Q F E s -> (forall a s', Q a s' -> Q' a s') -> wp m Q' F E s.
Proof. unfold wp. destruct (m s); auto. Qed.

(** ** Input *)
Definition nonempty (g : list (list Z)) : Prop := Forall (fun l => l <> []) g.

Lemma wp_GET (Q : Z -> io -> Prop) (F E : io -> Prop) (a : app_state) (f : list Z) (b : nat) (g : list (list Z))
    (t : list Z) (r : Z) :
  nonempty g ->
  (f ++ concat g = [] -> Q EOF (mk_io a [] 0 [] t r)) ->
  (forall c f' b' g', f ++ concat g = c :: f' ++ concat g' -> nonempty g' -> Q c (mk_io a f' (S b') g' t r)) ->
  wp GET Q F E (mk_io a f b g t r).
Proof.
  intros Hg He Hc. unfold wp, GET. cbn. destruct f as [|c f]; [|by apply Hc].
  destruct g as [|[|c l] g]; [by apply He|by inversion Hg|].
  inversion Hg as [|? ? _ Hg']. by apply Hc.
Qed.

Lemma wp_GET_cons (Q : Z -> io -> Prop) (F E : io -> Prop) (a : app_state) (c : Z) (f : list Z) (b : nat)
    (g : list (list Z)) (t : list Z) (r : Z) :
  Q c (mk_io a f (S b) g t r) -> wp GET Q F E (mk_io a (c :: f) b g t r).
Proof. done. Qed.

Lemma wp_UNGET (Q : unit -> io -> Prop) (F E : io -> Prop) (a : app_state) (f : list Z) (b : nat) (g : list (list Z))
    (t : list Z) (r c : Z) :
  is_byte c -> Q tt (mk_io a (c :: f) b g t r) -> wp (UNGET c) Q F E (mk_io a f (S b) g t r).
Proof.
  intros Hc H. unfold wp, UNGET. cbn. unfold set_input. cbn.
  change 0xff with (Z.ones 8). rewrite Z.land_ones, Z.mod_small by (unfold is_byte in Hc; lia). exact H.
Qed.

Lemma byte_land (c : Z) : is_byte c -> Z.land c 0xff = c.
Proof. intros Hc. change 0xff with (Z.ones 8). rewrite Z.land_ones, Z.mod_small by (unfold is_byte in Hc; lia). done. Qed.

Lemma wp_emit (Q : unit -> io -> Prop) (F E : io -> Prop) (a : app_state) (f : list Z) (b : nat) (g : list (list Z))
    (t : list Z) (r c : Z) :
  is_byte c -> 0 < r -> Q tt (mk_io a f b g (t ++ [c]) (r - 1)) -> wp (emit c) Q F E (mk_io a f b g t r).
Proof.
  intros Hc Hr H. unfold wp, emit. cbn. rewrite (proj2 (Z.leb_gt _ _) Hr), (byte_land c Hc). exact H.
Qed.

Lemma wp_PUT (Q : unit -> io -> Prop) (F E : io -> Prop) (a : app_state) (f : list Z) (b : nat) (g : list (list Z))
    (t : list Z) (r c : Z) :
  is_byte c -> 0 < r -> (r - 1 = 0 -> F (mk_io a f b g (t ++ [c]) (r - 1))) ->
  (0 < r - 1 -> Q tt (mk_io a f b g (t ++ [c]) (r - 1))) -> wp (PUT c) Q F E (mk_io a f b g t r).
Proof.
  intros Hc Hr HF HQ. unfold PUT. apply k_bind, wp_emit; [done|done|].
  unfold wp, if_full, ask, mbind, K_bind. cbn. destruct (Z.leb_spec (r - 1) 0); [apply HF|apply HQ]; lia.
Qed.

Lemma wp_get_loop (fuel : nat) (p : Z -> bool) (Q : Z -> io -> Prop) (F E : io -> Prop) (a : app_state)
    (f : list Z) (b : nat) (g : list (list Z)) (t : list Z) (r : Z) :
  nonempty g -> bytes_ok (f ++ concat g) -> (length (f ++ concat g) < fuel)%nat ->
  (forallb p (f ++ concat g) = true -> Q EOF (mk_io a [] 0 [] t r)) ->
  (forall w c f' b' g', f ++ concat g = w ++ c :: f' ++ concat g' -> forallb p w = true -> p c = false ->
    nonempty g' -> Q c (mk_io a f' (S b') g' t r)) ->
  wp (get_loop fuel p) Q F E (mk_io a f b g t r).
Proof.
  revert f b g. induction fuel as [|fuel IH]; intros f b g Hg Hb Hf He Hc; [lia|].
  cbn [get_loop]. apply k_bind, wp_GET; [done| |].
  - intros E0. apply He. by rewrite E0.
  - intros c f' b' g' E0 Hg'. rewrite E0 in *. inversion Hb as [|? ? Hbc Hb']; subst.
    rewrite (proj2 (Z.eqb_neq c EOF)) by (unfold is_byte, EOF in *; lia). cbn [negb andb].
    destruct (p c) eqn:Ep; [|by apply (Hc [])].
    apply IH; [done|done|cbn in Hf; lia| |].
    + intros H. apply He. cbn. by rewrite Ep.
    + intros w c' f'' b'' g'' E1 Hw Hc' Hg''. apply (Hc (c :: w)); [by rewrite E1|cbn; by rewrite Ep|done|done].
Qed.

Lemma wp_get_while (p : Z -> bool) (Q : Z -> io -> Prop) (F E : io -> Prop) (a : app_state)
    (f : list Z) (b : nat) (g : list (list Z)) (t : list Z) (r : Z) :
  nonempty g -> bytes_ok (f ++ concat g) ->
  (forallb p (f ++ concat g) = true -> Q EOF (mk_io a [] 0 [] t r)) ->
  (forall w c f' b' g', f ++ concat g = w ++ c :: f' ++ concat g' -> forallb p w = true -> p c = false ->
    nonempty g' -> Q c (mk_io a f' (S b') g' t r)) ->
  wp (get_while p) Q F E (mk_io a f b g t r).
Proof.
  intros Hg Hb He Hc. unfold get_while. apply k_bind. unfold wp at 1, in_fuel, ask.
  apply wp_get_loop; try done. cbn. lia.
Qed.

Lemma wp_while_get (p : Z -> bool) (Q : Z -> io -> Prop) (F E : io -> Prop) (a : app_state) (c : Z)
    (f : list Z) (b : nat) (g : list (list Z)) (t : list Z) (r : Z) :
  nonempty g -> bytes_ok (c :: f ++ concat g) ->
  (forallb p (c :: f ++ concat g) = true -> Q EOF (mk_io a [] 0 [] t r)) ->
  (forall w c' f' b' g', c :: f ++ concat g = w ++ c' :: f' ++ concat g' -> forallb p w = true -> p c' = false ->
    nonempty g' -> Q c' (mk_io a f' (S b') g' t r)) ->
  wp (while_get p c) Q F E (mk_io a f (S b) g t r).
Proof.
  intros Hg Hb He Hc. unfold while_get. apply Forall_cons in Hb as [Hcb Hb].
  rewrite (proj2 (Z.eqb_neq c EOF)) by (unfold is_byte, EOF in *; lia). cbn [negb andb].
  destruct (p c) eqn:Ep; [|by apply (Hc [])]. apply wp_get_while; [done|done| |].
  - intros Hall. apply He. cbn. by rewrite Ep.
  - intros w c' f' b' g' E0 Hw. apply (Hc (c :: w)); [by rewrite E0|cbn; by rewrite Ep].
Qed.

(** ** What is owed *)

Lemma before_nil (r : mode * Z * list Z) : before [] r = r.
Proof. by destruct r as [[? ?] ?]. Qed.
Lemma before_app (o1 o2 : list Z) (r : mode * Z * list Z) : before o1 (before o2 r) = before (o1 ++ o2) r.
Proof. destruct r as [[? ?] ?]. cbn. by rewrite app_assoc. Qed.

Lemma ends_line_tail (c : Z) (l : list Z) : ends_line (c :: l) -> ends_line l /\ (l = [] -> c = NL).
Proof.
  unfold ends_line. rewrite last_cons. destruct (last l) eqn:E; cbn; [|done].
  split; [done|]. intros ->. discriminate.
Qed.

(** [H] says which texts the whole output may be: of these [t] has been put out, [o]
    is put out next, and the machine in the mode [m] gives the rest from [l]. *)
Definition due (H : list Z -> Prop) (o : list Z) (m : mode) (n : Z) (l t : list Z) : Prop :=
  forall all, H all -> ends_line l /\ exists o' n', feed m n l = (Text 0, n', o') /\ t ++ o ++ o' = all.

Lemma due_step (H : list Z -> Prop) (o o' : list Z) (m m' : mode) (n n' c : Z) (l t : list Z) :
  delta m n c = (m', n', o') -> due H o m n (c :: l) t -> due H (o ++ o') m' n' l t.
Proof.
  intros Hd Hdue all Hall. destruct (Hdue all Hall) as (Hl & o1 & n1 & E & Ho). cbn in E. rewrite Hd in E.
  split; [by apply ends_line_tail in Hl as [? _]|].
  destruct (feed m' n' l) as [[m2 n2] o2]. injection E as -> -> <-. exists o2, n1. split; [done|].
  rewrite <- Ho. by rewrite <- app_assoc.
Qed.

Lemma due_put (H : list Z -> Prop) (c : Z) (o : list Z) (m : mode) (n : Z) (l t : list Z) :
  due H (c :: o) m n l t -> due H o m n l (t ++ [c]).
Proof.
  intros Hdue all Hall. destruct (Hdue all Hall) as (Hl & o1 & n1 & E & Ho). split; [done|]. exists o1, n1.
  split; [done|]. rewrite <- Ho. by rewrite <- app_assoc.
Qed.

Lemma due_skip (H : list Z -> Prop) (p : Z -> bool) (o : list Z) (m : mode) (n : Z) (w l t : list Z) :
  (forall c, p c = true -> delta m n c = (m, n, [])) -> forallb p w = true ->
  due H o m n (w ++ l) t -> due H o m n l t.
Proof.
  intros Hd. revert o. induction w as [|c w IH]; intros o Hw Hdue; [done|].
  cbn in Hw. apply andb_true_iff in Hw as [Hc Hw]. apply IH; [done|].
  rewrite <- (app_nil_r o). by apply (due_step H o [] m m n n c _ _ (Hd c Hc)).
Qed.

(** The machine does not stop in another mode. *)
Lemma due_dead (H : list Z -> Prop) (o o' : list Z) (m m' : mode) (n n' : Z) (l t t' : list Z) :
  m <> Text 0 -> due H o m n [] t -> due H o' m' n' l t'.
Proof. intros Hm Hdue all Hall. destruct (Hdue all Hall) as (_ & o1 & n1 & E & Ho). cbn in E. congruence. Qed.

Lemma due_dead_all (H : list Z -> Prop) (o : list Z) (m : mode) (n : Z) (t : list Z) :
  m <> Text 0 -> due H o m n [] t -> forall all, H all -> False.
Proof. intros Hm Hdue all Hall. destruct (Hdue all Hall) as (_ & o1 & n1 & E & Ho). cbn in E. congruence. Qed.

Lemma due_end (H : list Z -> Prop) (m : mode) (n : Z) (t : list Z) :
  due H [] m n [] t -> forall all, H all -> t = all.
Proof.
  intros Hdue all Hall. destruct (Hdue all Hall) as (_ & o1 & n1 & E & Ho). cbn in E. injection E as _ _ <-.
  by rewrite <- Ho, app_nil_r.
Qed.

Lemma due_eq (H : list Z -> Prop) (o : list Z) (m m' : mode) (n n' c : Z) (l t : list Z) :
  delta m n c = before o (delta m' n' c) -> due H [] m n (c :: l) t -> due H o m' n' (c :: l) t.
Proof.
  intros Hd Hdue all Hall. destruct (Hdue all Hall) as (Hl & o1 & n1 & E & Ho). split; [done|].
  cbn [feed] in E |- *. rewrite Hd in E.
  destruct (delta m' n' c) as [[m2 n2] o2]. cbn in E. destruct (feed m2 n2 l) as [[m3 n3] o3].
  injection E as -> -> <-. exists (o2 ++ o3), n1. split; [done|]. rewrite <- Ho. cbn. by rewrite <- app_assoc.
Qed.

(** What is put out after a character other than a newline is put out before the
    text ends. *)
Lemma due_more (H : list Z -> Prop) (o : list Z) (m : mode) (n c : Z) (l t : list Z) :
  c <> NL -> due H o m n (c :: l) t -> forall all, H all -> l <> [].
Proof. intros Hc Hdue all Hall ->. destruct (Hdue all Hall) as (Hl & _). apply ends_line_tail in Hl as [_ Hl]. auto. Qed.

Lemma due_puts (H : list Z -> Prop) (o1 o : list Z) (m : mode) (n : Z) (l t : list Z) :
  due H (o1 ++ o) m n l t -> due H o m n l (t ++ o1).
Proof.
  revert t. induction o1 as [|c o1 IH]; intros t Hd; [by rewrite app_nil_r|].
  change (c :: o1) with ([c] ++ o1). rewrite app_assoc. apply IH. by apply due_put.
Qed.

(** ** Well-formed states *)
Definition TEXT : list Z := [0; 1; 2; 3; 9; 10; 11].

Definition base (st : Z) : mode := if st =? 4 then Line else Text st.

Definition mode_of (a : app_state) : mode :=
  if state a =? -1 then base (old_state a) else if state a =? 5 then Str (old_state a)
  else if state a =? 6 then Esc (old_state a) else base (state a).

Definition pend (a : app_state) : list Z := if state a =? -1 then out_string a else [].

Inductive app_ok (a : app_state) : Prop :=
| app_text : 0 <= add_newlines a -> state a ∈ 4 :: TEXT -> app_ok a
| app_string : 0 <= add_newlines a -> state a ∈ [5; 6] -> old_state a ∈ TEXT -> quotechar a = DQ -> app_ok a
| app_out : 0 <= add_newlines a -> state a = -1 -> out_string a <> [] -> bytes_ok (out_string a) ->
    old_state a ∈ 4 :: TEXT -> app_ok a.

Record inv (T : Z) (s : io) : Prop := {
  inv_get : nonempty (get s);
  inv_bytes : bytes_ok (rest s);
  inv_app : app_ok (ap s);
  inv_room : 0 <= room s;
  inv_size : room s + Z.of_nat (length (to s)) = T
}.

(** A turn reads, or puts out more than it puts back. *)
Definition measure (s : io) : Z := Z.of_nat (length (rest s)) + 2 * room s.

Section turn.
Context (H : list Z -> Prop) (T : Z).

Definition good (s : io) : Prop := due H (pend (ap s)) (mode_of (ap s)) (add_newlines (ap s)) (rest s) (to s).

(** Nothing is left to be put out where the text ends. *)
Definition finished (s : io) : Prop := forall all, H all -> rest s = [] -> pend (ap s) = [].

(** After a turn; at [tofull] the room is used up, but for one character at most. *)
Definition goes (M : Z) (s : io) : Prop := inv T s /\ good s /\ finished s /\ 0 < room s /\ measure s < M.
Definition stops (s : io) : Prop := inv T s /\ good s /\ finished s /\ room s <= 1.
Definition ends (s : io) : Prop := inv T s /\ rest s = [] /\ forall all, H all -> to s = all.

(** In the middle of a turn. *)
Record mid (M n : Z) (f : list Z) (g : list (list Z)) (t : list Z) (r : Z) : Prop := {
  mid_get : nonempty g;
  mid_bytes : bytes_ok (f ++ concat g);
  mid_newlines : 0 <= n;
  mid_room : 0 < r;
  mid_size : r + Z.of_nat (length t) = T;
  mid_measure : Z.of_nat (length (f ++ concat g)) + 2 * r <= M + 1
}.

Lemma last_put (M c : Z) (a : app_state) (f : list Z) (b : nat) (g : list (list Z)) (t : list Z) (r : Z) :
  app_ok a -> mid M (add_newlines a) f g t r -> is_byte c ->
  (forall all, H all -> f ++ concat g = [] -> pend a = []) ->
  due H (c :: pend a) (mode_of a) (add_newlines a) (f ++ concat g) t ->
  wp (PUT c) (fun _ => goes M) stops ends (mk_io a f b g t r).
Proof.
  intros Ha [H1 H2 H3 H4 H5 H6] Hc Hfin Hd. apply due_put in Hd.
  assert (inv T (mk_io a f b g (t ++ [c]) (r - 1))) as Hi.
  { split; cbn; [done|done|done|lia|]. rewrite length_app. cbn. lia. }
  apply wp_PUT; [done|done| |]; intros Hr.
  - split; [exact Hi|]. split; [exact Hd|]. split; [exact Hfin|]. cbn. lia.
  - split; [exact Hi|]. split; [exact Hd|]. split; [exact Hfin|]. split; [exact Hr|]. unfold measure, rest in *. cbn in *. lia.
Qed.

Lemma mid_unget (M n c : Z) (f : list Z) (g : list (list Z)) (t : list Z) (r : Z) :
  mid M n f g t r -> is_byte c -> Z.of_nat (length (f ++ concat g)) + 2 * r < M + 1 -> mid M n (c :: f) g t r.
Proof. intros [H1 H2 H3 H4 H5 H6] Hc Hm. split; try done; [by constructor|]. cbn in *. lia. Qed.

Lemma mid_unget_lt (M n c : Z) (f : list Z) (g : list (list Z)) (t : list Z) (r : Z) :
  mid M n f g t r -> is_byte c -> Z.of_nat (length (f ++ concat g)) + 2 * r < M -> mid M n (c :: f) g t r.
Proof. intros Hm Hc Hlt. apply mid_unget; [done|done|lia]. Qed.

Lemma mid_put (M n c : Z) (f : list Z) (g : list (list Z)) (t : list Z) (r : Z) :
  mid M n f g t r -> 1 < r -> mid M n f g (t ++ [c]) (r - 1).
Proof. intros [H1 H2 H3 H4 H5 H6] Hm. split; try done; [lia|rewrite length_app; cbn; lia|lia]. Qed.

Lemma text_ok (a : app_state) : 0 <= add_newlines a -> state a ∈ TEXT -> app_ok a.
Proof. intros Hn Hs. apply app_text; [done|]. by apply list_elem_of_further. Qed.

Lemma text_mode (a : app_state) : state a ∈ TEXT -> mode_of a = Text (state a) /\ pend a = [].
Proof.
  unfold mode_of, pend, base. intros Hs. unfold TEXT in Hs. rewrite !elem_of_cons in Hs.
  by destruct_or! Hs; rewrite ?Hs; [..|by apply not_elem_of_nil in Hs].
Qed.
End turn.

Lemma wp_kget {A B : Type} (f : app_state -> A) (k : A -> K B) Q F E s :
  wp (kget f ≫= k) Q F E s = wp (k (f (ap s))) Q F E s.
Proof. reflexivity. Qed.
Lemma wp_kput {B : Type} (f : io -> io) (k : unit -> K B) Q F E s :
  wp (kput f ≫= k) Q F E s = wp (k tt) Q F E (f s).
Proof. reflexivity. Qed.
Lemma wp_ask {A B : Type} (f : io -> A) (k : A -> K B) Q F E s :
  wp (ask f ≫= k) Q F E s = wp (k (f s)) Q F E s.
Proof. reflexivity. Qed.
Lemma k_ret {A B : Type} (a : A) (k : A -> K B) Q F E s : wp (mret a ≫= k) Q F E s = wp (k a) Q F E s.
Proof. reflexivity. Qed.
Lemma wp_assoc {A B C : Type} (m : K A) (k : A -> K B) (k' : B -> K C) Q F E s :
  wp (mbind k' (mbind k m)) Q F E s = wp (mbind (fun a => mbind k' (k a)) m) Q F E s.
Proof. unfold wp, mbind, K_bind. by destruct (m s). Qed.

Lemma wp_kwhen {B : Type} (c : bool) (f : io -> io) (k : unit -> K B) Q F E s :
  wp (kwhen c (kput f) ≫= k) Q F E s = wp (k tt) Q F E (if c then f s else s).
Proof. by destruct c. Qed.

Lemma wp_when_false {B : Type} (m : K unit) (k : unit -> K B) Q F E s :
  wp (kwhen false m ≫= k) Q F E s = wp (k tt) Q F E s.
Proof. reflexivity. Qed.
Lemma wp_when_true {B : Type} (m : K unit) (k : unit -> K B) Q F E s :
  wp (kwhen true m ≫= k) Q F E s = wp (m ≫= k) Q F E s.
Proof. reflexivity. Qed.

(** Runs what only reads or sets the state. *)
Ltac kstep :=
  first [rewrite wp_kget | rewrite wp_kput | rewrite wp_ask | rewrite k_ret | rewrite wp_when_false | rewrite wp_when_true | rewrite wp_assoc
        | progress unfold kwarn | progress unfold has_room | progress unfold in_fuel];
  unfold set_state, set_old_state, set_out_string, set_add_newlines, set_quotechar, set_warned, set_input, set_output;
  cbn [set_state set_old_state set_out_string set_add_newlines set_quotechar set_warned set_input set_output
       ap from behind get to room state old_state out_string add_newlines quotechar warned kwhen].
Ltac krun := repeat kstep.

Lemma text_states (st : Z) :
  st ∈ TEXT -> st = 0 \/ st = 1 \/ st = 2 \/ st = 3 \/ st = 9 \/ st = 10 \/ st = 11.
Proof. unfold TEXT. rewrite !elem_of_cons, elem_of_nil. tauto. Qed.

Ltac states Hst := apply text_states in Hst; destruct_or! Hst; subst.

(** A number is one of the states of text. *)
Ltac text_state := unfold TEXT; repeat first [apply list_elem_of_here|apply list_elem_of_further].

Section steps.
Context (H : list Z -> Prop) (T : Z).

(** The last character of a turn in a state of text. *)
Lemma last_text (M st n c old q : Z) (os : list Z) (w : list string) (f : list Z) (b : nat)
    (g : list (list Z)) (t : list Z) (r : Z) :
  st ∈ TEXT -> is_byte c -> mid T M n f g t r -> due H [c] (Text st) n (f ++ concat g) t ->
  wp (PUT c) (fun _ => goes H T M) (stops H T) (ends H T) (mk_io (mk_app st old os n q w) f b g t r).
Proof.
  intros Hst Hc Hm Hdue. destruct (text_mode (mk_app st old os n q w) Hst) as [Em Ep].
  apply last_put; [|done|done|done|by rewrite Em, Ep].
  destruct Hm. by apply text_ok.
Qed.

Lemma put_text (M st st' n n' c d old q : Z) (os : list Z) (w : list string) (f : list Z) (b : nat)
    (g : list (list Z)) (t : list Z) (r : Z) :
  delta (Text st) n d = (Text st', n', [c]) -> st' ∈ TEXT -> 0 <= n' -> is_byte c -> mid T M n f g t r ->
  due H [] (Text st) n (d :: f ++ concat g) t ->
  wp (PUT c) (fun _ => goes H T M) (stops H T) (ends H T) (mk_io (mk_app st' old os n' q w) f b g t r).
Proof.
  intros Hd Hst Hn Hc Hm Hdue. apply last_text; [done|done|by destruct Hm|].
  exact (due_step H [] [c] _ _ _ _ _ _ _ Hd Hdue).
Qed.

(** From a state of text on, as from the start of a turn. *)
Lemma text_stops (st n old q : Z) (os : list Z) (w : list string) (f : list Z) (b : nat)
    (g : list (list Z)) (t : list Z) (r : Z) :
  st ∈ TEXT -> nonempty g -> bytes_ok (f ++ concat g) -> 0 <= n -> 0 <= r <= 1 -> r + Z.of_nat (length t) = T ->
  due H [] (Text st) n (f ++ concat g) t -> stops H T (mk_io (mk_app st old os n q w) f b g t r).
Proof.
  intros Hst Hg Hb Hn Hr Ht Hd. destruct (text_mode (mk_app st old os n q w) Hst) as [Em Ep].
  split; [|split; [unfold good; cbn [ap]; by rewrite Em, Ep|split; [intros ? ? ?; exact Ep|cbn; lia]]].
  split; cbn; [done|done|by apply text_ok|lia|done].
Qed.
End steps.
