(* ===== verification/ScrubText.v ===== *)
(** * The states of text

    Each case of the switch of [do_scrub_chars], from a state of text: it does not
    fault, keeps the state well formed, and leaves of what the machine owes exactly
    what it has not put out yet. *)
From Stdlib Require Import Ascii.
From S2P Require Import Prelude GasState Scrub ScrubRef ScrubWp.
#[local] Open Scope Z_scope.

Section text.
Context (H : list Z -> Prop) (T : Z).

Lemma text_char_plain (st n c : Z) :
  lex c = 0 \/ lex c = 1 ->
  text_char st n c =
    if st =? 10 then
      if lex c =? 1 then (Text 9, n, [32; c]) else (Text 3, n, if c =? BACKSLASH then [32; c] else [c])
    else (Text (if st =? 0 then 11 else if st =? 1 then 2 else if st =? 9 then if lex c =? 1 then 9 else 3
                else if (st =? 3) && (lex c =? 1) then 9 else st), n, [c]).
Proof. intros Hc. unfold text_char. by destruct Hc as [-> | ->]. Qed.

Lemma byte_32 : is_byte 32.
Proof. by split. Qed.

(** [c] is not a symbol character in the states 3 and 10: there its own case comes first. *)
Lemma de_fault_ok (M st n c old q : Z) (os : list Z) (w : list string) (f : list Z) (b : nat)
    (g : list (list Z)) (t : list Z) (r : Z) :
  st ∈ TEXT -> is_byte c -> lex c = 0 \/ (lex c = 1 /\ st <> 3 /\ st <> 10) -> mid T M n f g t r ->
  Z.of_nat (length (f ++ concat g)) + 2 * r < M ->
  due H [] (Text st) n (c :: f ++ concat g) t ->
  wp (de_fault c) (fun _ => goes H T M) (stops H T) (ends H T)
    (mk_io (mk_app st old os n q w) f (S b) g t r).
Proof.
  intros Hst Hc Hl Hm Hlt Hdue. pose proof (mid_newlines _ _ _ _ _ _ _ Hm) as Hn.
  assert (lex c = 0 \/ lex c = 1) as Hl' by tauto.
  assert (lex c = 1 -> IS_SYMBOL_COMPONENT c = true) as H1 by (unfold IS_SYMBOL_COMPONENT; by intros ->).
  assert (lex c = 0 -> IS_SYMBOL_COMPONENT c = false) as H0 by (unfold IS_SYMBOL_COMPONENT; by intros ->).
  pose proof (text_char_plain st n c Hl') as Hd. unfold de_fault. krun.
  states Hst; cbn [Z.eqb Pos.eqb andb] in Hd |- *; krun.
  all: try (eapply put_text; [exact Hd| | | | |exact Hdue]; [text_state|done|done|done]).
  - destruct Hl as [Hl|[_ [? _]]]; [|done]. rewrite Hl in Hd.
    eapply put_text; [exact Hd| | | | |exact Hdue]; [text_state|done|done|done].
  - destruct Hl as [Hl|[Hl _]]; rewrite Hl in Hd; rewrite ?(H0 Hl), ?(H1 Hl); cbn [negb]; krun;
      (eapply put_text; [exact Hd| | | | |exact Hdue]; [text_state|done|done|done]).
  - destruct Hl as [Hl|[_ [_ ?]]]; [|done]. rewrite Hl in Hd. cbn [Z.eqb] in Hd.
    destruct (c =? BACKSLASH) eqn:Eb; krun;
      [|eapply put_text; [exact Hd| | | | |exact Hdue]; [text_state|done|done|done]].

    destruct (Z.ltb_spec 1 r) as [Hr|Hr]; krun.
    + apply k_bind, wp_emit; [exact byte_32|lia|]. krun. apply last_text; [text_state|done|by apply mid_put|].
      apply (due_put H 32). exact (due_step H [] [32; c] (Text 10) (Text 3) n n c _ _ Hd Hdue).
    + apply k_bind, wp_UNGET; [done|]. destruct Hm as [M1 M2 M3 M4 M5 M6].
      apply text_stops; [text_state|done|by constructor|done|lia|done|exact Hdue].
Qed.

(** *** Symbol characters *)
Definition runs (c : Z) : Prop := is_byte c /\ ends_run c = false.

Lemma runs_class (c : Z) : runs c -> lex c = 0 \/ lex c = 1.
Proof.
  intros [_ Hr]. unfold ends_run, IS_SYMBOL_COMPONENT in Hr.
  change LEX_IS_SYMBOL_COMPONENT with 1 in Hr.
  destruct (lex c =? 0) eqn:E0; [left; by apply Z.eqb_eq|].
  destruct (lex c =? 1) eqn:E1; [right; by apply Z.eqb_eq|done].
Qed.

Lemma run_before_split (p : Z -> bool) (f : list Z) (k : nat) :
  (k < run_before p f)%nat ->
  exists f1 x f2, f = f1 ++ x :: f2 /\ length f1 = k /\ Forall (fun c => p c = false) (f1 ++ [x]).
Proof.
  revert k. induction f as [|c f IH]; intros k Hk; cbn in Hk; [lia|].
  destruct (p c) eqn:Ec; [lia|]. destruct k as [|k].
  - exists [], c, f. split; [done|]. split; [done|]. by constructor.
  - destruct (IH k ltac:(lia)) as (f1 & x & f2 & -> & Hl & Hf). exists (c :: f1), x, f2.
    split; [done|]. split; [cbn; lia|by constructor].
Qed.

(** Inside a run of such characters the state does not matter. *)
Lemma due_run (st n x : Z) (c : Z) (l1 l t : list Z) :
  st ∈ TEXT -> st <> 3 -> st <> 10 -> runs c -> Forall runs l1 -> runs x ->
  due H [] (Text st) n (c :: l1 ++ x :: l) t -> due H (c :: l1) (Text st) n (x :: l) t.
Proof.
  intros Hst H3 H10. assert (forall c x l o t, runs c -> runs x ->
    due H o (Text st) n (c :: x :: l) t -> due H (o ++ [c]) (Text st) n (x :: l) t) as Hone.
  { clear -Hst H3 H10. intros c x l o t Hc Hx Hdue.
    apply runs_class in Hc, Hx. pose proof (text_char_plain st n c Hc) as Ec.
    pose proof (text_char_plain st n x Hx) as Ex.
    rewrite (proj2 (Z.eqb_neq _ _) H10), (proj2 (Z.eqb_neq _ _) H3) in Ec, Ex. cbn [andb] in Ec, Ex.
    pose proof (due_step H o _ (Text st) _ n n c _ _ Ec Hdue) as Hd.
    intros all Hall. destruct (Hd all Hall) as (Hl & o' & n' & E & Ho). split; [done|]. exists o', n'. split; [|exact Ho].
    rewrite <- E. cbn [feed delta]. rewrite Ex.
    states Hst; cbn [Z.eqb Pos.eqb]; try done;
      try (destruct Hc as [-> | ->]; cbn [Z.eqb Pos.eqb]);
      rewrite (text_char_plain _ n x Hx); cbn [Z.eqb Pos.eqb andb]; try done;
      by destruct Hx as [-> | ->]. }
  intros Hc Hl Hx. enough (forall o c l1, runs c -> Forall runs l1 -> due H o (Text st) n (c :: l1 ++ x :: l) t ->
    due H (o ++ c :: l1) (Text st) n (x :: l) t) as HH by (intros; by apply (HH [])).
  clear c Hc l1 Hl. intros o c l1. revert o c. induction l1 as [|d l1 IH]; intros o c Hc Hl Hdue.
  - by apply Hone.
  - inversion Hl as [|? ? Hd' Hl']; subst. change (c :: d :: l1) with ([c] ++ d :: l1). rewrite app_assoc. apply IH; [done|done|]. by apply Hone.
Qed.

Lemma wp_copy (Q : unit -> io -> Prop) (F E : io -> Prop) (a : app_state) (f1 f2 : list Z) (b : nat)
    (g : list (list Z)) (t : list Z) (r : Z) :
  Z.of_nat (length f1) <= r ->
  Q tt (mk_io a f2 (b + length f1) g (t ++ f1) (r - Z.of_nat (length f1))) ->
  wp (copy (length f1)) Q F E (mk_io a (f1 ++ f2) b g t r).
Proof.
  intros Hr HQ. unfold wp, copy. cbn. rewrite (proj2 (Z.ltb_ge _ _) Hr).
  unfold set_output, set_input. cbn. by rewrite take_app_length, drop_app_length.
Qed.

Lemma wp_if_full (Q : unit -> io -> Prop) (F E : io -> Prop) (a : app_state) (f : list Z) (b : nat)
    (g : list (list Z)) (t : list Z) (r : Z) :
  (r <= 0 -> F (mk_io a f b g t r)) -> (0 < r -> Q tt (mk_io a f b g t r)) -> wp if_full Q F E (mk_io a f b g t r).
Proof.
  intros HF HQ. unfold wp, if_full, ask, mbind, K_bind. cbn. destruct (Z.leb_spec r 0); [apply HF|apply HQ]; lia.
Qed.

Lemma symbol_component_ok (M st n c old q : Z) (os : list Z) (w : list string) (f : list Z) (b : nat)
    (g : list (list Z)) (t : list Z) (r : Z) :
  st ∈ TEXT -> is_byte c -> lex c = 1 -> mid T M n f g t r -> Z.of_nat (length (f ++ concat g)) + 2 * r < M ->
  due H [] (Text st) n (c :: f ++ concat g) t ->
  wp (symbol_component c) (fun _ => goes H T M) (stops H T) (ends H T)
    (mk_io (mk_app st old os n q w) f (S b) g t r).
Proof.
  intros Hst Hc Hl Hm Hlt Hdue. pose proof (mid_newlines _ _ _ _ _ _ _ Hm) as Hn.
  unfold symbol_component. krun. destruct (Z.eqb_spec st 10) as [->|H10].
  { apply k_bind, wp_UNGET; [done|]. krun. apply last_text; [text_state|done|by apply mid_unget_lt|].
    apply (due_eq H [32] (Text 10) (Text 3) n n c); [|exact Hdue]. cbn [delta].
    rewrite !text_char_plain by auto. by rewrite Hl. }
  set (st' := if st =? 3 then 9 else st).
  assert (st' ∈ TEXT /\ st' <> 3 /\ st' <> 10) as (Hst' & H3 & H10').
  { unfold st'. destruct (Z.eqb_spec st 3); [|done]. split; [text_state|done]. }
  assert (due H [] (Text st') n (c :: f ++ concat g) t) as Hdue'.
  { apply (due_eq H [] (Text st) (Text st') n n c); [|exact Hdue]. rewrite before_nil. unfold st'.
    destruct (Z.eqb_spec st 3) as [->|]; [|done]. cbn [delta]. rewrite !text_char_plain by auto. by rewrite Hl. }
  rewrite wp_kwhen. replace (if st =? 3 then _ else _) with (mk_io (mk_app st' old os n q w) f (S b) g t r)
    by (unfold st'; by destruct (st =? 3)).
  clearbody st'. clear Hdue Hst st H10. krun.
  destruct (Z.ltb_spec 1 r) as [Hr|Hr]; krun; [|by apply de_fault_ok; auto].
  set (len := Z.min _ _). destruct (Z.ltb_spec 0 len) as [H0|H0]; krun; [|by apply de_fault_ok; auto].
  destruct (run_before_split ends_run f (Z.to_nat len)) as (f1 & x & f2 & -> & Hlen & Hrun); [lia|].
  destruct Hm as [M1 M2 M3 M4 M5 M6].
  rewrite <- app_assoc in M2, M6, Hlt, Hdue'. cbn [app] in M2, M6, Hlt, Hdue'.
  assert (Forall runs (f1 ++ [x])) as Hruns.
  { apply (proj2 (@Forall_and Z is_byte (fun c => ends_run c = false) _)). split; [|exact Hrun]. change (f1 ++ x :: f2 ++ concat g) with (f1 ++ [x] ++ f2 ++ concat g) in M2.
    rewrite app_assoc in M2. by apply Forall_app in M2 as [? _]. }
  apply Forall_app in Hruns as [Hr1 Hrx]. apply Forall_cons in Hrx as [Hrx _].
  assert (runs c) as Hrc by (split; [done|]; unfold ends_run, IS_SYMBOL_COMPONENT; by rewrite Hl).
  apply (due_run st' n x c f1 (f2 ++ concat g) t Hst' H3 H10' Hrc Hr1 Hrx) in Hdue'.
  apply k_bind, wp_PUT; [done|lia|lia|]. intros _. krun.
  assert (Z.of_nat (length f1) <= r - 1) as Hfit by lia.
  apply k_bind. rewrite <- Hlen. apply wp_copy; [done|]. krun. apply k_bind, wp_if_full; intros Hroom.
  - apply Forall_app in M2 as [_ M2]. eapply text_stops; try eassumption; [lia| |].
    + rewrite !length_app. cbn. lia.
    + rewrite <- app_assoc. apply due_puts. by rewrite app_nil_r.
  - apply Forall_app in M2 as [_ M2]. rewrite length_app in Hlt, M6.
    apply k_bind, wp_GET; [done|done|]. intros x' f' b' g' Hin Hg'.
    cbn [app] in Hin. rewrite Hin in *. assert (x' = x) as -> by congruence.
    apply de_fault_ok; [done|by destruct Hrx| |split; try done| |].
    + apply runs_class in Hrx as [|]; auto.
    + by inversion M2.
    + rewrite !length_app. cbn. lia.
    + cbn in M6. lia.
    + cbn in Hlt. lia.
    + rewrite <- app_assoc. apply due_puts. by rewrite app_nil_r.
Qed.

(** *** What is read in a turn *)
Lemma mid_read (M n c : Z) (v f f' : list Z) (g g' : list (list Z)) (t : list Z) (r : Z) :
  mid T M n f g t r -> f ++ concat g = v ++ c :: f' ++ concat g' -> nonempty g' ->
  mid T M n f' g' t r /\ is_byte c /\ (length (f' ++ concat g') < length (f ++ concat g))%nat.
Proof.
  intros [H1 H2 H3 H4 H5 H6] E Hg. rewrite E in *. apply Forall_app in H2 as [_ H2]. apply Forall_cons in H2 as [Hc H2].
  rewrite length_app in H6. cbn [length] in H6. split; [split; try done; lia|]. split; [done|].
  rewrite (length_app v). cbn. lia.
Qed.

Lemma mid_eof (M n : Z) (f : list Z) (g : list (list Z)) (t : list Z) (r : Z) :
  mid T M n f g t r -> mid T M n [] [] t r.
Proof. intros [H1 H2 H3 H4 H5 H6]. split; try done; [by constructor|by constructor|cbn; lia]. Qed.

(** The text ends outside the text of a line. *)
Lemma text_ends (M st n old q : Z) (os : list Z) (w : list string) (f : list Z) (b : nat)
    (g : list (list Z)) (t : list Z) (r : Z) (m : mode) (n' : Z) (o t' : list Z) :
  st ∈ TEXT -> mid T M n f g t r -> m <> Text 0 -> due H o m n' [] t' ->
  ends H T (mk_io (mk_app st old os n q w) [] b [] t r).
Proof.
  intros Hst [H1 H2 H3 H4 H5 H6] Hm Hdue. split; [split; cbn; [by constructor|by constructor|by apply text_ok|lia|done]|].
  split; [done|]. intros all Hall. by destruct (due_dead_all H o m n' t' Hm Hdue all Hall).
Qed.

(** A character read with which [goto recycle]. *)
Definition again (M : Z) (k : nat) (c : Z) (s : io) : Prop :=
  exists st old os n q w f b g t r,
    s = mk_io (mk_app st old os n q w) f b g t r /\ st ∈ TEXT /\ is_byte c /\ ((0 < b)%nat \/ c = 32) /\
    mid T M n f g t r /\ (length (f ++ concat g) < k)%nat /\ Z.of_nat (length (f ++ concat g)) + 2 * r < M /\
    due H [] (Text st) n (c :: f ++ concat g) t.

Definition after (M : Z) (k : nat) (o : option Z) (s : io) : Prop :=
  match o with Some c => again M k c s | None => goes H T M s end.

Lemma byte_no_comment (c : Z) :
  is_byte c -> IS_COMMENT c || (c =? chr "/") || IS_LINE_SEPARATOR c || IS_PARALLEL_SEPARATOR c
               = (c =? 47) || IS_LINE_SEPARATOR c.
Proof.
  intros Hc. apply Bool.eqb_true_iff. refine (lex_cases (fun c l => eqb ((l =? 4) || (c =? chr "/") || (l =? 3) || (l =? 14))
    ((c =? 47) || (l =? 3))) c _ Hc). vm_compute. reflexivity.
Qed.

Lemma wp_none {A : Type} (M : Z) (k : nat) (m : K A) (s : io) :
  wp m (fun _ => goes H T M) (stops H T) (ends H T) s ->
  wp (m ≫= fun _ => mret None) (after M k) (stops H T) (ends H T) s.
Proof. intros Hm. by apply k_bind. Qed.

(** A blank in front of a character that is read again. *)
Lemma put_blank (M st n x old q : Z) (os : list Z) (w : list string) (f : list Z) (b : nat)
    (g : list (list Z)) (t : list Z) (r : Z) :
  st ∈ TEXT -> is_byte x -> mid T M n f g t r -> Z.of_nat (length (f ++ concat g)) + 2 * r < M ->
  due H [32] (Text st) n (x :: f ++ concat g) t ->
  wp (UNGET x ≫= fun _ => PUT 32) (fun _ => goes H T M) (stops H T) (ends H T)
    (mk_io (mk_app st old os n q w) f (S b) g t r).
Proof.
  intros Hst Hx Hm Hlt Hdue. apply k_bind, wp_UNGET; [done|].
  apply last_text; [done|exact byte_32|by apply mid_unget_lt|exact Hdue].
Qed.

(** *** White space *)
Lemma whitespace_ok (M st n c old q : Z) (os : list Z) (w : list string) (f : list Z) (b : nat)
    (g : list (list Z)) (t : list Z) (r : Z) :
  st ∈ TEXT -> lex c = 2 -> mid T M n f g t r -> Z.of_nat (length (f ++ concat g)) + 2 * r < M ->
  due H [] (Text st) n (c :: f ++ concat g) t ->
  wp whitespace (after M (length (f ++ concat g))) (stops H T) (ends H T)
    (mk_io (mk_app st old os n q w) f b g t r).
Proof.
  intros Hst Hl Hm Hlt Hdue.
  assert (delta (Text st) n c = (White st, n, [])) as Hd by (cbn; unfold text_char; by rewrite Hl).
  apply (due_step H [] [] _ _ _ _ _ _ _ Hd) in Hdue.
  assert (forall c, IS_WHITESPACE c = true -> delta (White st) n c = (White st, n, [])) as Hw
    by (intros c' Hc'; cbn; by rewrite Hc').
  unfold whitespace. apply k_bind, wp_get_while; [by destruct Hm|by destruct Hm| |].
  - intros Hall. cbn. eapply text_ends; [done|done| |]; [|apply (due_skip H IS_WHITESPACE [] _ _ (f ++ concat g) []);
      [exact Hw|done|by rewrite app_nil_r]]. done.
  - intros v x f' b' g' E Hv Hx Hg'. destruct (mid_read _ _ _ _ _ _ _ _ _ _ Hm E Hg') as (Hm' & Hxb & Hlen).
    rewrite E in Hdue. apply (due_skip H IS_WHITESPACE [] _ _ v) in Hdue; [|exact Hw|done].
    rewrite (proj2 (Z.eqb_neq x EOF)) by (unfold is_byte, EOF in *; lia).
    assert (Hlt' : Z.of_nat (length (f' ++ concat g')) + 2 * r < M) by lia.
    clear Hm E Hv v Hd Hw Hl Hlt. revert Hlen. generalize (length (f ++ concat g)) as k. intros k Hk.
    assert (Hd : delta (White st) n x = after_white st n x) by (cbn; by rewrite Hx).
    krun. rewrite (byte_no_comment x Hxb). unfold after_white in Hd.
    destruct (Z.eqb_spec st 0) as [->|H0]; cbn [orb andb] in Hd |- *; krun.
    { rewrite <- wp_assoc. apply wp_none, put_blank; [text_state|done|done|done|exact (due_eq H [32] (White 0) (Text 1) n n x _ _ Hd Hdue)]. }
    assert (forall st' o, delta (White st) n x = before o (text_char st' n x) ->
      due H o (Text st') n (x :: f' ++ concat g') t) as Heq
      by (intros st' o Hd'; exact (due_eq H o (White st) (Text st') n n x _ _ Hd' Hdue)).
    assert (forall st', st' ∈ TEXT -> delta (White st) n x = text_char st' n x ->
      wp (mret (Some x)) (after M k) (stops H T) (ends H T) (mk_io (mk_app st' old os n q w) f' (S b') g' t r)) as Hag.
    { intros st' Hst' Hd'. exists st', old, os, n, q, w, f', (S b'), g', t, r. split_and!; try done; [left; lia|].
      apply Heq. by rewrite before_nil. }
    destruct ((x =? 47) || IS_LINE_SEPARATOR x); [by apply Hag|].
    destruct (((st =? 2) || (st =? 11)) && (lex x =? LEX_IS_COLON)).
    { krun. apply wp_none. apply last_text; [text_state|done|done|].
      exact (due_step H [] [x] _ _ _ _ _ _ _ Hd Hdue). }
    unfold white_state. krun. states Hst; cbn [Z.eqb Pos.eqb orb] in Hd |- *; krun; cbn [set_state ap from behind get to room old_state out_string add_newlines quotechar warned]; try done.
    + apply Hag; [text_state|done].
    + destruct (Z.ltb_spec 1 r) as [Hr|Hr]; krun.
      * apply k_bind, wp_PUT; [exact byte_32|lia|lia|]. intros _.
        exists 3, old, os, n, q, w, f', (S b'), g', (t ++ [32]), (r - 1).
        split_and!; try done; [text_state|left; lia|by apply mid_put|lia|]. apply due_put. by apply Heq.
      * rewrite <- wp_assoc. apply wp_none, put_blank; [text_state|done|done|done|]. by apply Heq.
    + apply Hag; [text_state|done].
    + apply Hag; [text_state|done].
    + apply Hag; [text_state|done].
    + rewrite <- wp_assoc. apply wp_none, put_blank; [text_state|done|done|done|]. by apply Heq.
Qed.

(** *** Comments of two characters *)

(** At the end of the text, which no text that may be put out reaches; or before the
    rest of the comment. *)
Definition block_eof (M st old q : Z) (os t : list Z) (r : Z) (s : io) : Prop :=
  exists n w, s = mk_io (mk_app st old os n q w) [] 0 [] t r /\ mid T M n [] [] t r /\ (forall all, H all -> False).

Definition block_at (m : mode) (M : Z) (k : nat) (st old q : Z) (os t : list Z) (r : Z) (s : io) : Prop :=
  exists n w f b g, s = mk_io (mk_app st old os n q w) f (S b) g t r /\ mid T M n f g t r /\
    (length (f ++ concat g) < k)%nat /\ due H [] m n (f ++ concat g) t.

Lemma to_star_ok (fuel : nat) (M st n old q : Z) (os : list Z) (w : list string) (f : list Z) (b : nat)
    (g : list (list Z)) (t : list Z) (r : Z) :
  mid T M n f g t r -> (length (f ++ concat g) < fuel)%nat ->
  due H [] (Block st false) n (f ++ concat g) t ->
  wp (to_star fuel)
    (fun c s => (c = EOF /\ block_eof M st old q os t r s) \/
                (c = 42 /\ block_at (Block st true) M (length (f ++ concat g)) st old q os t r s))
    (stops H T) (ends H T) (mk_io (mk_app st old os n q w) f b g t r).
Proof.
  revert n f b g. induction fuel as [|fuel IH]; intros n f b g Hm Hf Hdue; [lia|]. cbn [to_star].
  apply k_bind, wp_GET; [by destruct Hm| |].
  - intros E. rewrite E in Hdue. cbn. left. split; [done|]. exists n, w. split; [done|]. split; [by apply mid_eof in Hm|].
    by apply (due_dead_all H [] (Block st false) n t).
  - intros c f' b' g' E Hg'. destruct (mid_read _ _ _ [] _ _ _ _ _ _ Hm E Hg') as (Hm' & Hc & Hlen).
    rewrite (proj2 (Z.eqb_neq c EOF)) by (unfold is_byte, EOF in *; lia). cbn [negb andb].
    change (chr "*") with 42. rewrite E in Hdue. destruct (Z.eqb_spec c 42) as [->|H42]; cbn [negb].
    + change (IS_NEWLINE 42) with false. krun. right. split; [done|]. exists n, w, f', b', g'.
      split_and!; try done. exact (due_step H [] [] (Block st false) (Block st true) n n 42 _ _ eq_refl Hdue).
    + assert (Hd : delta (Block st false) n c = (Block st false, if IS_NEWLINE c then n + 1 else n, []))
        by (cbn; by rewrite (proj2 (Z.eqb_neq _ _) H42)).
      pose proof (due_step H [] [] _ _ _ _ _ _ _ Hd Hdue) as Hdue'. rewrite wp_kwhen.
      set (n' := if IS_NEWLINE c then n + 1 else n) in *.
      replace (if IS_NEWLINE c then _ else _) with (mk_io (mk_app st old os n' q w) f' (S b') g' t r)
        by (unfold n'; by destruct (IS_NEWLINE c)).
      assert (mid T M n' f' g' t r) as Hm'' by (destruct Hm'; split; try done; unfold n'; destruct (IS_NEWLINE c); lia).
      eapply k_mono; [apply IH; [done|lia|exact Hdue']|].
      intros c' s' [?|[? (n1 & w1 & f1 & b1 & g1 & ? & ? & ? & ?)]]; [by left|right]. split; [done|].
      exists n1, w1, f1, b1, g1. split_and!; try done. lia.
Qed.

Lemma block_comment_ok (fuel : nat) (M st n old q : Z) (os : list Z) (w : list string) (f : list Z) (b : nat)
    (g : list (list Z)) (t : list Z) (r : Z) :
  mid T M n f g t r -> (length (f ++ concat g) < fuel)%nat ->
  due H [] (Block st false) n (f ++ concat g) t ->
  wp (block_comment fuel)
    (fun c s => (c = EOF /\ block_eof M st old q os t r s) \/
                (c = 47 /\ block_at (White st) M (length (f ++ concat g)) st old q os t r s))
    (stops H T) (ends H T) (mk_io (mk_app st old os n q w) f b g t r).
Proof.
  revert n w f b g. induction fuel as [|fuel IH]; intros n w f b g Hm Hf Hdue; [lia|]. cbn [block_comment]. krun.
  apply k_bind. eapply k_mono; [apply to_star_ok; [done|unfold rest; cbn; lia|done]|].
  intros ? ? [[-> (n1 & w1 & -> & Hm1 & Hno)]|[-> (n1 & w1 & f1 & b1 & g1 & -> & Hm1 & Hl1 & Hd1)]].
  { cbn. left. split; [done|]. by exists n1, w1. }
  change (while_get (fun c => c =? chr "*") 42) with (get_while (fun c => c =? 42)).
  assert (Hstar : forall c, (c =? 42) = true -> delta (Block st true) n1 c = (Block st true, n1, []))
    by (intros c Hc; cbn; by rewrite Hc).
  apply k_bind, wp_get_while; [by destruct Hm1|by destruct Hm1| |].
  - intros Hall. cbn. left. split; [done|]. exists n1, w1. split; [done|]. split; [by apply mid_eof in Hm1|].
    apply (due_dead_all H [] (Block st true) n1 t); [done|].
    apply (due_skip H _ [] _ _ (f1 ++ concat g1) [] t Hstar Hall). by rewrite app_nil_r.
  - intros v c f2 b2 g2 E Hv Hc Hg2. destruct (mid_read _ _ _ _ _ _ _ _ _ _ Hm1 E Hg2) as (Hm2 & Hcb & Hl2).
    rewrite E in Hd1. apply (due_skip H _ [] _ _ v _ t Hstar Hv) in Hd1.
    rewrite (proj2 (Z.eqb_neq c EOF)) by (unfold is_byte, EOF in *; lia). cbn [orb].
    change (chr "/") with 47. destruct (Z.eqb_spec c 47) as [->|H47].
    + cbn. right. split; [done|]. exists n1, w1, f2, b2, g2. split_and!; try done; [lia|].
      exact (due_step H [] [] (Block st true) (White st) n1 n1 47 _ _ eq_refl Hd1).
    + apply k_bind, wp_UNGET; [done|].
      assert (mid T M n1 (c :: f2) g2 t r) as Hm3.
      { destruct Hm2 as [A1 A2 A3 A4 A5 A6]. split; try done; [by constructor|]. destruct Hm1. cbn. lia. }
      eapply k_mono; [apply IH; [done|cbn; lia|]|].
      * apply (due_eq H [] (Block st true) _ n1); [|done]. cbn. by rewrite Hc, (proj2 (Z.eqb_neq _ _) H47).
      * intros c' s' [?|[? (n3 & w3 & f3 & b3 & g3 & ? & ? & Hl3 & ?)]]; [by left|right]. split; [done|].
        exists n3, w3, f3, b3, g3. cbn in Hl3. split_and!; try done. lia.
Qed.

(** *** Slashes *)

(** A comment is read as a blank. *)
Lemma due_blank (st n : Z) (l t : list Z) : due H [] (White st) n l t -> due H [] (Text st) n (32 :: l) t.
Proof.
  intros Hdue all Hall. destruct (Hdue all Hall) as (Hl & o & n' & E & Ho). split.
  - unfold ends_line in *. rewrite last_cons. destruct l as [|c l]; [discriminate|].
    destruct (last (c :: l)) eqn:E1; [done|]. by apply last_None in E1.
  - exists o, n'. split; [|done]. cbn [feed delta]. change (text_char st n 32) with (White st, n, @nil Z).
    cbn beta iota. by rewrite E.
Qed.

Lemma slash_ok (M st n old q : Z) (os : list Z) (w : list string) (f : list Z) (b : nat)
    (g : list (list Z)) (t : list Z) (r : Z) :
  st ∈ TEXT -> mid T M n f g t r -> Z.of_nat (length (f ++ concat g)) + 2 * r < M ->
  due H [] (Text st) n (47 :: f ++ concat g) t ->
  wp (slash 47) (after M (length (f ++ concat g))) (stops H T) (ends H T)
    (mk_io (mk_app st old os n q w) f b g t r).
Proof.
  intros Hst Hm Hlt Hdue. apply (due_step H [] [] (Text st) (Slash st) n n 47 _ _ eq_refl) in Hdue.
  set (st' := if (st =? 9) || (st =? 10) then 3 else st).
  assert (st' ∈ TEXT) as Hst' by (unfold st'; destruct ((st =? 9) || (st =? 10)); [text_state|done]).
  assert (forall k f b g, mid T M n f g t r -> due H [47] (Text st') n (f ++ concat g) t ->
    wp (b ← in_states [9; 10]; _ ← kwhen b (kput (set_state 3)); _ ← PUT 47; mret None)
      (after M k) (stops H T) (ends H T) (mk_io (mk_app st old os n q w) f b g t r)) as Hput.
  { intros k f0 b0 g0 Hm0 Hd0. unfold in_states. krun. rewrite wp_kwhen.
    replace (if bool_decide _ then _ else _) with (mk_io (mk_app st' old os n q w) f0 b0 g0 t r)
      by (unfold st'; states Hst; done).
    apply wp_none, last_text; [done|done|done|done]. }
  unfold slash. apply k_bind, wp_GET; [by destruct Hm| |].
  - intros E. change (EOF =? chr "*") with false. change (EOF =? EOF) with true. rewrite E in Hdue. cbn [negb]. rewrite wp_when_false.
    apply Hput; [by apply mid_eof in Hm|]. by apply (due_dead H [] _ (Slash st) _ n _ [] t).
  - intros c f' b' g' E Hg'. destruct (mid_read _ _ _ [] _ _ _ _ _ _ Hm E Hg') as (Hm' & Hc & Hlen).
    rewrite E in Hdue. change (chr "*") with 42. destruct (Z.eqb_spec c 42) as [->|H42].
    + krun. apply (due_step H [] [] (Slash st) (Block st false) n n 42 _ _ eq_refl) in Hdue.
      apply k_bind. eapply k_mono; [apply block_comment_ok; [done|unfold rest; cbn; lia|done]|].
      intros c s' [[-> (n1 & w1 & -> & Hm1 & Hno)]|[-> (n1 & w1 & f1 & b1 & g1 & -> & Hm1 & Hl1 & Hd1)]]; krun.
      * exists st, old, os, n1, q, (w1 ++ ["end of file in multiline comment"]), [], O, [], t, r.
        split_and!; try done; [by right|cbn; lia|cbn; lia|]. intros all Hall. by destruct (Hno all Hall).
      * exists st, old, os, n1, q, w1, f1, (S b1), g1, t, r. split_and!; try done; [left; lia|lia|lia|].
        by apply due_blank.
    + rewrite (proj2 (Z.eqb_neq c EOF)) by (unfold is_byte, EOF in *; lia). cbn [negb]. krun.
      apply k_bind, wp_UNGET; [done|]. apply Hput; [by apply mid_unget; [..|lia]|].
      apply (due_eq H [47] (Slash st) (Text st') n n c); [|exact Hdue]. cbn. by rewrite (proj2 (Z.eqb_neq _ _) H42).
Qed.

(** *** Quotes *)
Lemma put_quote (M n old : Z) (os : list Z) (w : list string) (f : list Z) (b : nat)
    (g : list (list Z)) (t : list Z) (r : Z) :
  old ∈ TEXT -> mid T M n f g t r -> due H [DQ] (Str old) n (f ++ concat g) t ->
  wp (PUT DQ) (fun _ => goes H T M) (stops H T) (ends H T) (mk_io (mk_app 5 old os n DQ w) f b g t r).
Proof.
  intros Hst Hm Hdue. apply last_put; [|done|done|done|exact Hdue].
  destruct Hm. by apply app_string; [|text_state|..].
Qed.

Lemma string_quote_ok (M st n old q : Z) (os : list Z) (w : list string) (f : list Z) (b : nat)
    (g : list (list Z)) (t : list Z) (r : Z) :
  st ∈ TEXT -> mid T M n f g t r -> Z.of_nat (length (f ++ concat g)) + 2 * r < M ->
  due H [] (Text st) n (DQ :: f ++ concat g) t ->
  wp (string_quote DQ) (fun _ => goes H T M) (stops H T) (ends H T)
    (mk_io (mk_app st old os n q w) f (S b) g t r).
Proof.
  intros Hst Hm Hlt Hdue.
  unfold string_quote. krun. destruct (Z.eqb_spec st 10) as [->|H10]; krun.
  - assert (due H [DQ] (Str 3) n (f ++ concat g) (t ++ [32])) as Hdue'
      by exact (due_put H 32 _ _ _ _ _ (due_step H [] [32; DQ] (Text 10) (Str 3) n n DQ _ _ eq_refl Hdue)).
    apply (due_eq H [32] (Text 10) (Text 3) n n DQ _ _ eq_refl), due_put in Hdue.
    apply k_bind, wp_UNGET; [by split|]. krun.
    destruct Hm as [M1 M2 M3 M4 M5 M6]. apply k_bind, wp_PUT; [exact byte_32|done| |].
    + intros Hr. apply text_stops; [text_state|done|by constructor|done|lia|rewrite length_app; cbn; lia|done].
    + intros Hr. krun. apply k_bind, wp_GET_cons. krun. apply put_quote; [text_state| |exact Hdue'].
      split; [done|done|done|lia|rewrite length_app; cbn; lia|lia].
  - apply put_quote; [destruct (st =? 9); [text_state|done]|done|].
    apply (due_step H [] [DQ] (Text st) _ n n DQ); [|done]. cbn [delta].
    clear -Hst H10. states Hst; try reflexivity. by destruct H10.
Qed.

Lemma decimal_of_byte (v : Z) :
  is_byte v -> bytes_ok (decimal_of v) /\
  ((exists d, decimal_of v = [d] /\ v < 10) \/ (exists d d' ds, decimal_of v = d :: d' :: ds /\ 10 <= v)).
Proof.
  intros Hv. unfold decimal_of. rewrite byte_land by done. unfold is_byte in Hv.
  pose proof (Z.div_mod v 10). pose proof (Z.mod_pos_bound v 10). pose proof (Z.mod_pos_bound (v / 10) 10).
  pose proof (Z.div_mod v 100). pose proof (Z.mod_pos_bound v 100).
  assert (forall a, 0 <= a < 10 -> is_byte (48 + a)) as Hb by (unfold is_byte; lia).
  destruct (Z.leb_spec 100 v), (Z.leb_spec 10 v); cbn [app]; try lia.
  all: split; [repeat constructor; apply Hb; lia|].
  all: first [left; by eexists|right; eexists _, _, _; split; [reflexivity|lia]].
Qed.

Lemma process_escape_byte (c : Z) : is_byte c -> is_byte (process_escape c).
Proof. intros Hc. unfold process_escape. repeat case_match; try done; by split. Qed.

Definition quoted (st v : Z) : Z := if (st =? 9) && (10 <=? v) then 3 else st.

(** The digits are put out; more text follows. *)
Lemma put_decimal_ok (M st n v old q : Z) (os : list Z) (w : list string) (f : list Z) (b : nat)
    (g : list (list Z)) (t : list Z) (r : Z) :
  st ∈ TEXT -> is_byte v -> mid T M n f g t r -> (forall all, H all -> f ++ concat g <> []) ->
  due H (decimal_of v) (Text (quoted st v)) n (f ++ concat g) t ->
  wp (put_decimal (decimal_of v)) (fun _ => goes H T M) (stops H T) (ends H T)
    (mk_io (mk_app st old os n q w) f b g t r).
Proof.
  intros Hst Hv Hm Hmore Hdue. destruct (decimal_of_byte v Hv) as (Hb & [(d & E & Hv10)|(d & d' & ds & E & Hv10)]);
    rewrite E in *; unfold quoted in Hdue.
  - rewrite (proj2 (Z.leb_gt _ _) Hv10), andb_false_r in Hdue. apply last_text; [done| |done|done].
    by apply Forall_cons in Hb as [? _].
  - rewrite (proj2 (Z.leb_le _ _) Hv10), andb_true_r in Hdue. unfold put_decimal. krun.
    apply Forall_cons in Hb as [Hd Hb]. assert ((if st =? 9 then 3 else st) ∈ TEXT) as Hst'
      by (destruct (st =? 9); [text_state|done]).
    apply last_put; [|by destruct Hm|done|..].
    + apply app_out; [by destruct Hm|done|done|done|by apply list_elem_of_further].
    + intros all Hall E0. by destruct (Hmore all Hall).
    + unfold pend, mode_of, base. cbn [state old_state Z.eqb Pos.eqb out_string].
      replace (_ =? 4) with false; [exact Hdue|]. states Hst; done.
Qed.

Lemma quote_end_ok (M st n v old q : Z) (os : list Z) (w : list string) (f : list Z) (b : nat)
    (g : list (list Z)) (t : list Z) (r : Z) :
  st ∈ TEXT -> st <> 10 -> is_byte v -> mid T M n f g t r -> due H [] (QuoteEnd st v) n (f ++ concat g) t ->
  wp (quote_end (decimal_of v)) (fun _ => goes H T M) (stops H T) (ends H T)
    (mk_io (mk_app st old os n q w) f b g t r).
Proof.
  intros Hst H10 Hv Hm Hdue. unfold quote_end. apply k_bind, wp_GET; [by destruct Hm| |].
  - intros E. rewrite E in Hdue. krun. apply put_decimal_ok; [done|done|by apply mid_eof in Hm|..].
    + intros all Hall. by destruct (due_dead_all H [] (QuoteEnd st v) n t ltac:(done) Hdue all Hall).
    + by apply (due_dead H [] _ (QuoteEnd st v) _ n _ [] t).
  - intros c f' b' g' E Hg'. destruct (mid_read _ _ _ [] _ _ _ _ _ _ Hm E Hg') as (Hm' & Hc & Hlen).
    pose proof (mid_measure _ _ _ _ _ _ _ Hm) as HM. rewrite E in Hdue.
    rewrite (proj2 (Z.eqb_neq c EOF)) by (unfold is_byte, EOF in *; lia). rewrite andb_true_r.
    destruct (Z.eqb_spec c SQ) as [->|HSQ]; cbn [negb]; krun.
    + apply put_decimal_ok; [done|done|done|..].
      * intros all Hall. by apply (due_more H [] (QuoteEnd st v) n SQ (f' ++ concat g') t ltac:(done) Hdue all Hall).
      * exact (due_step H [] _ (QuoteEnd st v) (Text (quoted st v)) n n SQ _ _ eq_refl Hdue).
    + apply k_bind, wp_UNGET; [done|]. apply put_decimal_ok; [done|done|apply mid_unget; [done|done|lia]|done|].
      apply (due_eq H _ (QuoteEnd st v) (Text (quoted st v)) n n); [|exact Hdue].
      cbn [delta]. by rewrite (proj2 (Z.eqb_neq _ _) HSQ).
Qed.

Lemma onechar_quote_ok (M st n old q : Z) (os : list Z) (w : list string) (f : list Z) (b : nat)
    (g : list (list Z)) (t : list Z) (r : Z) :
  st ∈ TEXT -> mid T M n f g t r -> Z.of_nat (length (f ++ concat g)) + 2 * r < M ->
  due H [] (Text st) n (SQ :: f ++ concat g) t ->
  wp (onechar_quote SQ) (fun _ => goes H T M) (stops H T) (ends H T)
    (mk_io (mk_app st old os n q w) f (S b) g t r).
Proof.
  intros Hst Hm Hlt Hdue.
  unfold onechar_quote. krun. destruct (Z.eqb_spec st 10) as [->|H10].
  { apply k_bind, wp_UNGET; [done|]. krun. apply last_text; [text_state|exact byte_32|by apply mid_unget_lt|].
    by apply (due_eq H [32] (Text 10) (Text 3) n n SQ). }
  apply (due_step H [] [] (Text st) (Quote st) n n SQ) in Hdue; [|clear -Hst H10; states Hst; try reflexivity; by destruct H10].
  apply k_bind, wp_GET; [by destruct Hm| |].
  { intros E. rewrite E in Hdue. krun. change (0 =? BACKSLASH) with false. krun.
    apply quote_end_ok; [done|done|by split|by apply mid_eof in Hm|].
    by apply (due_dead H [] _ (Quote st) _ n _ [] t). }
  intros c f' b' g' E Hg'. destruct (mid_read _ _ _ [] _ _ _ _ _ _ Hm E Hg') as (Hm' & Hc & Hlen). rewrite E in Hdue.
  rewrite (proj2 (Z.eqb_neq c EOF)) by (unfold is_byte, EOF in *; lia). krun.
  destruct (Z.eqb_spec c BACKSLASH) as [->|Hbs]; krun.
  - apply (due_step H [] [] (Quote st) (QuoteEsc st) n n BACKSLASH _ _ eq_refl) in Hdue.
    apply k_bind, wp_GET; [done| |].
    + intros E2. rewrite E2 in Hdue. krun. apply quote_end_ok; [done|done|by split|by apply mid_eof in Hm'|].
      by apply (due_dead H [] _ (QuoteEsc st) _ n _ [] t).
    + intros c f2 b2 g2 E2 Hg2. destruct (mid_read _ _ _ [] _ _ _ _ _ _ Hm' E2 Hg2) as (Hm2 & Hc2 & _).
      rewrite E2 in Hdue. rewrite (proj2 (Z.eqb_neq c EOF)) by (unfold is_byte, EOF in *; lia). krun.
      apply quote_end_ok; [done|done|by apply process_escape_byte|done|].
      exact (due_step H [] [] (QuoteEsc st) (QuoteEnd st (process_escape c)) n n c _ _ eq_refl Hdue).
  - apply quote_end_ok; [done|done|done|done|]. apply (due_step H [] [] (Quote st) _ n n c); [|done].
    cbn. by rewrite (proj2 (Z.eqb_neq _ _) Hbs).
Qed.

(** *** The ends of labels, statements and lines *)
Lemma colon_ok (M st n old q : Z) (os : list Z) (w : list string) (f : list Z) (b : nat)
    (g : list (list Z)) (t : list Z) (r : Z) :
  st ∈ TEXT -> mid T M n f g t r -> due H [] (Text st) n (58 :: f ++ concat g) t ->
  wp (colon 58) (fun _ => goes H T M) (stops H T) (ends H T)
    (mk_io (mk_app st old os n q w) f b g t r).
Proof.
  intros Hst Hm Hdue. unfold colon. krun.
  set (st' := if (st =? 9) || (st =? 10) || (st =? 3) then 3 else 1).
  assert (st' ∈ TEXT) as Hst' by (unfold st'; destruct ((st =? 9) || (st =? 10) || (st =? 3)); text_state).
  apply (due_step H [] [58] (Text st) (Text st') n n 58 _ _ eq_refl) in Hdue.
  assert (wp (PUT 58) (fun _ => goes H T M) (stops H T) (ends H T) (mk_io (mk_app st' old os n q w) f b g t r)) as Hput
    by by apply last_text.
  clear -Hput Hst. subst st'. revert Hput. states Hst; exact (fun H => H).
Qed.

Lemma newline_ok (M st n old q : Z) (os : list Z) (w : list string) (f : list Z) (b : nat)
    (g : list (list Z)) (t : list Z) (r : Z) :
  mid T M n f g t r -> Z.of_nat (length (f ++ concat g)) + 2 * r < M ->
  due H [] (Text st) n (NL :: f ++ concat g) t ->
  wp (newline NL) (fun _ => goes H T M) (stops H T) (ends H T)
    (mk_io (mk_app st old os n q w) f (S b) g t r).
Proof.
  intros Hm Hlt Hdue. pose proof (mid_newlines _ _ _ _ _ _ _ Hm) as Hn. unfold newline. krun.
  destruct (Z.eqb_spec n 0) as [->|H0]; cbn [negb]; krun.
  - apply last_text; [text_state|by split|done|]. exact (due_step H [] [NL] (Text st) (Text 0) 0 0 NL _ _ eq_refl Hdue).
  - apply k_bind, wp_UNGET; [by split|]. krun. apply last_text; [text_state|by split| |].
    + destruct (mid_unget_lt T M n NL f g t r Hm) as [A1 A2 A3 A4 A5 A6]; [by split|done|]. split; try done. lia.
    + apply (due_eq H [NL] (Text st) (Text 0) n (n - 1) NL); [|exact Hdue].
      change (delta (Text st) n NL) with (Text 0, 0, newlines n).
      change (delta (Text 0) (n - 1) NL) with (Text 0, 0, newlines (n - 1)). cbn [before app].
      unfold newlines. by replace (Z.to_nat n) with (S (Z.to_nat (n - 1))) by lia.
Qed.

Lemma separator_ok (M st n old q : Z) (os : list Z) (w : list string) (f : list Z) (b : nat)
    (g : list (list Z)) (t : list Z) (r : Z) :
  mid T M n f g t r -> due H [] (Text st) n (59 :: f ++ concat g) t ->
  wp (_ ← kput (set_state 0); PUT 59) (fun _ => goes H T M) (stops H T) (ends H T)
    (mk_io (mk_app st old os n q w) f b g t r).
Proof.
  intros Hm Hdue. krun. apply last_text; [text_state|by split|done|].
  exact (due_step H [] [59] (Text st) (Text 0) n n 59 _ _ eq_refl Hdue).
Qed.

(** *** Comments to the end of the line *)
Lemma is_newline (c : Z) : is_byte c -> negb (IS_NEWLINE c) = false -> c = NL.
Proof. intros Hc Hn. apply lex_newline; [done|]. apply negb_false_iff in Hn. by apply Z.eqb_eq. Qed.

Lemma comment_ok (M st n old q : Z) (os : list Z) (w : list string) (f : list Z) (b : nat)
    (g : list (list Z)) (t : list Z) (r : Z) :
  mid T M n f g t r -> due H [] Comment n (f ++ concat g) t ->
  wp comment (fun _ => goes H T M) (stops H T) (ends H T)
    (mk_io (mk_app st old os n q w) f b g t r).
Proof.
  intros Hm Hdue. unfold comment.
  assert (forall c, negb (IS_NEWLINE c) = true -> delta Comment n c = (Comment, n, [])) as Hskip
    by (intros c Hc; apply negb_true_iff in Hc; cbn [delta]; by rewrite Hc).
  apply k_bind, wp_get_while; [by destruct Hm|by destruct Hm| |].
  - intros Hall. change (EOF =? EOF) with true. krun.
    apply last_text; [text_state|by split|by apply mid_eof in Hm|].
    apply (due_dead H [] _ Comment _ n _ [] t); [done|].
    apply (due_skip H _ [] _ _ (f ++ concat g) [] t Hskip Hall). by rewrite app_nil_r.
  - intros v c f' b' g' E Hv Hc Hg'. destruct (mid_read _ _ _ _ _ _ _ _ _ _ Hm E Hg') as (Hm' & Hcb & _).
    apply (is_newline c Hcb) in Hc as ->. change (NL =? EOF) with false. krun.
    rewrite E in Hdue. apply (due_skip H _ [] _ _ v _ t Hskip Hv) in Hdue.
    apply last_text; [text_state|by split|done|].
    exact (due_step H [] [NL] Comment (Text 0) n n NL _ _ eq_refl Hdue).
Qed.

Lemma line_rest_ok (M st n c old q : Z) (os : list Z) (w : list string) (f : list Z) (b : nat)
    (g : list (list Z)) (t : list Z) (r : Z) :
  st ∈ TEXT -> is_byte c -> mid T M n f g t r -> Z.of_nat (S (length (f ++ concat g))) + 2 * r < M ->
  due H [] Skip n (c :: f ++ concat g) t ->
  wp (ch ← while_get (fun c => negb (IS_NEWLINE c)) c;
      _ ← (if ch =? EOF then _ ← kwarn "end of file in comment; newline inserted"; PUT NL
           else UNGET ch);
      kput (set_state 0)) (fun _ => goes H T M) (stops H T) (ends H T)
    (mk_io (mk_app st old os n q w) f (S b) g t r).
Proof.
  intros Hst Hc Hm Hlt Hdue.
  assert (forall c, negb (IS_NEWLINE c) = true -> delta Skip n c = (Skip, n, [])) as Hskip
    by (intros c' Hc'; apply negb_true_iff in Hc'; cbn [delta]; by rewrite Hc').
  apply k_bind, wp_while_get; [by destruct Hm|constructor; [done|by destruct Hm]| |].
  - intros Hall. change (EOF =? EOF) with true. krun. apply (mid_eof _ n f g) in Hm as [A1 A2 A3 A4 A5 A6].
    assert (forall o m, due H o m n [] t) as Hdead.
    { intros o m. apply (due_dead H [] _ Skip _ n _ [] t); [done|].
      apply (due_skip H _ [] _ _ (c :: f ++ concat g) [] t Hskip Hall). by rewrite app_nil_r. }
    apply k_bind, wp_PUT; [by split|done| |]; intros Hr.
    + apply text_stops; [done|done|done|done|lia|rewrite length_app; cbn; lia|]. apply due_put, Hdead.
    + split; [split; cbn; [done|done|by apply text_ok; [|text_state]|lia|rewrite length_app; cbn; lia]|].
      split; [apply due_put, Hdead|]. split; [done|]. split; [exact Hr|]. unfold measure, rest. cbn in *. lia.
  - intros v x f' b' g' E Hv Hx Hg'. rewrite E in Hdue. apply (due_skip H _ [] _ _ v _ t Hskip Hv) in Hdue.
    assert (mid T M n (x :: f') g' t r /\ Z.of_nat (length ((x :: f') ++ concat g')) + 2 * r < M) as [[A1 A2 A3 A4 A5 A6] Hlt'].
    { destruct Hm as [A1 A2 A3 A4 A5 A6]. assert (bytes_ok (c :: f ++ concat g)) as Hb by by constructor.
      rewrite E in Hb. apply Forall_app in Hb as [_ Hb]. apply (f_equal length) in E. rewrite length_app in E. cbn in E |- *.
      split; [split; try done; cbn; lia|lia]. }
    apply Forall_cons in A2 as [Hxb A2]. apply (is_newline x Hxb) in Hx as ->. change (NL =? EOF) with false.
    apply k_bind, wp_UNGET; [by split|].
    split; [split; cbn; [done|by constructor|by apply text_ok; [|text_state]|lia|done]|].
    split; [|split; [done|split; [done|exact Hlt']]].
    exact (due_eq H [] Skip (Text 0) n n NL _ _ eq_refl Hdue).
Qed.

Lemma line_comment_at_start_ok (M st n old q : Z) (os : list Z) (w : list string) (f : list Z) (b : nat)
    (g : list (list Z)) (t : list Z) (r : Z) :
  st ∈ TEXT -> mid T M n f g t r -> Z.of_nat (length (f ++ concat g)) + 2 * r < M ->
  due H [] (Hash st) n (f ++ concat g) t ->
  wp (line_comment_at_start 35) (fun _ => goes H T M) (stops H T) (ends H T)
    (mk_io (mk_app st old os n q w) f b g t r).
Proof.
  intros Hst Hm Hlt Hdue. unfold line_comment_at_start.
  assert (forall c, IS_WHITESPACE c = true -> delta (Hash st) n c = (Hash st, n, [])) as Hskip
    by (intros c' Hc'; cbn [delta]; by rewrite Hc').
  apply k_bind, wp_get_while; [by destruct Hm|by destruct Hm| |].
  - intros Hall. change (EOF =? EOF) with true. krun. apply last_text; [done|by split|by apply mid_eof in Hm|].
    apply (due_dead H [] _ (Hash st) _ n _ [] t); [done|].
    apply (due_skip H _ [] _ _ (f ++ concat g) [] t Hskip Hall). by rewrite app_nil_r.
  - intros v c f' b' g' E Hv Hc Hg'. destruct (mid_read _ _ _ _ _ _ _ _ _ _ Hm E Hg') as (Hm' & Hcb & Hlen).
    rewrite E in Hdue. apply (due_skip H _ [] _ _ v _ t Hskip Hv) in Hdue.
    rewrite (proj2 (Z.eqb_neq c EOF)) by (unfold is_byte, EOF in *; lia). krun.
    change (35 =? chr "#") with true. cbn [negb]. rewrite orb_false_r.
    assert ((c <? 48) || (57 <? c) || negb (st =? 0) = negb (digit c && (st =? 0))) as ->
      by (unfold digit; rewrite negb_andb, negb_andb, <- !Z.ltb_antisym; done).
    assert (Hd : delta (Hash st) n c = if digit c && (st =? 0) then (Line, n, LINEFILE ++ [c])
                                       else if IS_NEWLINE c then text_char 0 n c else (Skip, n, []))
      by (cbn [delta]; by rewrite Hc).
    destruct (digit c && (st =? 0)) eqn:Edig; cbn [negb].
    + apply andb_true_iff in Edig as [Edig E0]. apply k_bind, wp_UNGET; [done|]. krun.
      apply last_put; [|by apply mid_unget; [..|lia]|by split|done|].
      * apply app_out; [by destruct Hm|done|done| |by apply list_elem_of_here].
        apply (bool_decide_unpack (Forall is_byte (tail LINEFILE))). vm_compute. exact I.
      * change (due H LINEFILE Line n (c :: f' ++ concat g') t).
        apply (due_eq H LINEFILE (Hash st) Line n n); [|exact Hdue]. rewrite Hd. cbn [delta]. by rewrite Edig.
    + apply line_rest_ok; [done|done|done|lia|]. apply (due_eq H [] (Hash st) Skip n n); [|exact Hdue].
      rewrite Hd, before_nil. done.
Qed.

Lemma line_comment_ok (M st n old q : Z) (os : list Z) (w : list string) (f : list Z) (b : nat)
    (g : list (list Z)) (t : list Z) (r : Z) :
  st ∈ TEXT -> mid T M n f g t r -> Z.of_nat (length (f ++ concat g)) + 2 * r < M ->
  due H [] (Text st) n (35 :: f ++ concat g) t ->
  wp (line_comment 35) (fun _ => goes H T M) (stops H T) (ends H T)
    (mk_io (mk_app st old os n q w) f (S b) g t r).
Proof.
  intros Hst Hm Hlt Hdue. unfold line_comment. change (35 =? chr "/") with false. unfold in_states. krun.
  assert (bool_decide (st ∈ [0; 1]) = (st =? 0) || (st =? 1)) as -> by (clear -Hst; states Hst; reflexivity).
  destruct ((st =? 0) || (st =? 1)) eqn:E.
  - apply line_comment_at_start_ok; [done|done|done|]. apply (due_step H [] [] (Text st) _ n n 35); [|done].
    change (text_char st n 35 = (Hash st, n, [])).
    change (text_char st n 35) with (if (st =? 0) || (st =? 1) then (Hash st, n, @nil Z) else (Comment, n, [])).
    by rewrite E.
  - change (bool_decide (35 ∈ bytes comment_chars)) with true.
    apply comment_ok; [done|]. apply (due_step H [] [] (Text st) _ n n 35); [|done].
    change (text_char st n 35 = (Comment, n, [])).
    change (text_char st n 35) with (if (st =? 0) || (st =? 1) then (Hash st, n, @nil Z) else (Comment, n, [])).
    by rewrite E.
Qed.

(** *** A character of text *)
Lemma recycle_ok (fuel : nat) (M c : Z) (s : io) :
  again M fuel c s -> wp (recycle fuel c) (fun _ => goes H T M) (stops H T) (ends H T) s.
Proof.
  revert c s. induction fuel as [|fuel IH]; intros c s;
    intros (st & old & os & n & q & w & f & b & g & t & r & -> & Hst & Hc & Hb & Hm & Hk & Hlt & Hdue); [lia|].
  cbn [recycle]. rewrite (proj2 (Z.eqb_neq c EOF)) by (unfold is_byte, EOF in *; lia).
  assert (forall m, wp m (after M (length (f ++ concat g))) (stops H T) (ends H T) (mk_io (mk_app st old os n q w) f b g t r) ->
    wp (r ← m; match r with Some ch => recycle fuel ch | None => mret tt end)
      (fun _ => goes H T M) (stops H T) (ends H T) (mk_io (mk_app st old os n q w) f b g t r)) as Hagain.
  { intros m Hm'. apply k_bind. eapply k_mono; [exact Hm'|]. intros [c'|] s' Ha; [|exact Ha]. apply IH.
    destruct Ha as (st' & old' & os' & n' & q' & w' & f' & b' & g' & t' & r' & Ha). decompose [and] Ha.
    exists st', old', os', n', q', w', f', b', g', t', r'. split_and!; try done. lia. }
  pose proof (lex_range c Hc) as Hl.
  destruct (decide (lex c = 2)) as [E2|N2].
  { rewrite E2. apply Hagain. by apply (whitespace_ok M st n c). }
  assert (exists b', b = S b') as [b' ->].
  { destruct Hb as [Hb| ->]; [destruct b; [lia|by eexists]|]. by destruct N2. }
  rewrite !elem_of_cons, elem_of_nil in Hl. destruct_or! Hl; rewrite Hl; try done.
  - apply de_fault_ok; auto.
  - apply symbol_component_ok; auto.
  - apply (lex_separator c Hc) in Hl as ->. by apply (separator_ok M st n).
  - apply (lex_hash c Hc) in Hl as ->. by apply (line_comment_ok M st n).
  - apply (lex_slash c Hc) in Hl as ->. apply Hagain. by apply (slash_ok M st n).
  - apply (lex_quote c Hc) in Hl as ->. by apply (string_quote_ok M st n).
  - apply (lex_colon c Hc) in Hl as ->. by apply (colon_ok M st n).
  - apply (lex_newline c Hc) in Hl as ->. by apply (newline_ok M st n).
  - apply (lex_single c Hc) in Hl as ->. by apply (onechar_quote_ok M st n).
Qed.
End text.
