(* ===== verification/ScrubOk.v ===== *)
(** * The preprocessor computes the machine

    The states that are not states of text, a turn of the loop, a call of
    [do_scrub_chars] and the calls that scrub a whole text. *)
From S2P Require Import Prelude GasState Scrub ScrubRef ScrubWp ScrubText.
#[local] Open Scope Z_scope.

Section states.
Context (H : list Z -> Prop) (T : Z).

(** *** A string put out *)
Lemma put_string_ok (M n c old q : Z) (os : list Z) (w : list string) (f : list Z) (b : nat)
    (g : list (list Z)) (t : list Z) (r : Z) :
  old ∈ 4 :: TEXT -> bytes_ok (c :: os) -> mid T M n f g t r -> (forall all, H all -> f ++ concat g <> []) ->
  due H (c :: os) (base old) n (f ++ concat g) t ->
  wp put_string (fun _ => goes H T M) (stops H T) (ends H T) (mk_io (mk_app (-1) old (c :: os) n q w) f b g t r).
Proof.
  intros Hold Hb Hm Hmore Hdue. apply Forall_cons in Hb as [Hc Hb]. pose proof (mid_newlines _ _ _ _ _ _ _ Hm) as Hn.
  unfold put_string. krun. destruct (decide (os = [])) as [->|Hos].
  - rewrite bool_decide_eq_true_2 by done. krun.
    assert (pend (mk_app old 3 [] n q w) = [] /\ mode_of (mk_app old 3 [] n q w) = base old) as [Ep Em].
    { clear -Hold. apply elem_of_cons in Hold as [->|Hold]; [done|]. states Hold; done. }
    apply last_put; [by apply app_text|done|done|done|]. by rewrite Ep, Em.
  - rewrite bool_decide_eq_false_2 by done. krun.
    apply last_put; [by apply app_out|done|done| |done]. intros all Hall E. by destruct (Hmore all Hall).
Qed.

(** *** Strings *)
Lemma put_str (M n c old : Z) (os : list Z) (w : list string) (f : list Z) (b : nat)
    (g : list (list Z)) (t : list Z) (r : Z) :
  old ∈ TEXT -> is_byte c -> mid T M n f g t r -> due H [c] (Str old) n (f ++ concat g) t ->
  wp (PUT c) (fun _ => goes H T M) (stops H T) (ends H T) (mk_io (mk_app 5 old os n DQ w) f b g t r).
Proof.
  intros Hst Hc Hm Hdue. apply last_put; [|done|done|done|exact Hdue].
  destruct Hm. by apply app_string; [|text_state|..].
Qed.

Lemma escape_due (old n : Z) (l t : list Z) :
  due H [] (Esc old) n (NL :: l) t -> due H [BACKSLASH] (Str old) (n + 1) (110 :: l) t.
Proof.
  intros Hdue all Hall. destruct (Hdue all Hall) as (Hl & o & n' & E & Ho). cbn [feed] in E |- *.
  change (delta (Esc old) n NL) with (Str old, n + 1, [BACKSLASH; 110]) in E.
  change (delta (Str old) (n + 1) 110) with (Str old, n + 1, [110]). cbn beta iota in E |- *.
  apply ends_line_tail in Hl as [Hl _]. split.
  - unfold ends_line in *. rewrite last_cons. destruct l as [|c l]; [discriminate|].
    destruct (last (c :: l)) eqn:E1; [done|]. by apply last_None in E1.
  - destruct (feed (Str old) (n + 1) l) as [[m1 n1] o1]. cbn in E |- *. injection E as -> -> <-.
    by exists (110 :: o1), n'.
Qed.

Lemma escape_state_ok (M n old : Z) (os : list Z) (w : list string) (f : list Z) (b : nat)
    (g : list (list Z)) (t : list Z) (r : Z) :
  old ∈ TEXT -> mid T M n f g t r -> due H [] (Esc old) n (f ++ concat g) t ->
  wp escape_state (fun _ => goes H T M) (stops H T) (ends H T) (mk_io (mk_app 6 old os n DQ w) f b g t r).
Proof.
  intros Hold Hm Hdue. unfold escape_state. krun. apply k_bind, wp_GET; [by destruct Hm| |].
  - intros E. rewrite E in Hdue. change (EOF =? NL) with false. change (EOF =? EOF) with true. krun.
    apply put_str; [done|by split|by apply mid_eof in Hm|]. by apply (due_dead H [] _ (Esc old) _ n _ [] t).
  - intros c f' b' g' E Hg'. destruct (mid_read _ _ _ _ [] _ _ _ _ _ _ Hm E Hg') as (Hm' & Hc & Hlen).
    pose proof (mid_measure _ _ _ _ _ _ _ Hm) as HM. rewrite E in Hdue.
    destruct (Z.eqb_spec c NL) as [->|HNL]; krun.
    + apply k_bind, wp_UNGET; [by split|]. krun. apply put_str; [done|by split| |by apply escape_due].
      destruct (mid_unget T M n 110 f' g' t r Hm') as [A1 A2 A3 A4 A5 A6]; [by split|lia|]. split; try done. lia.
    + rewrite (proj2 (Z.eqb_neq c EOF)) by (unfold is_byte, EOF in *; lia).
      apply put_str; [done|done|done|]. apply (due_step H [] [c] (Esc old) _ n n c); [|done].
      cbn [delta]. by rewrite (proj2 (Z.eqb_neq _ _) HNL).
Qed.

Definition str_end (c : Z) : bool := (c =? BACKSLASH) || (c =? DQ) || (c =? NL).

Lemma run_before_take (p : Z -> bool) (f : list Z) (k : nat) :
  (k <= run_before p f)%nat -> exists f1 f2, f = f1 ++ f2 /\ length f1 = k /\ Forall (fun c => p c = false) f1.
Proof.
  revert k. induction f as [|c f IH]; intros [|k] Hk; cbn in Hk; try lia; [by exists [], []|by exists [], (c :: f)|].
  destruct (p c) eqn:Ec; [lia|]. destruct (IH k ltac:(lia)) as (f1 & f2 & -> & <- & Hf).
  exists (c :: f1), f2. split_and!; try done. by constructor.
Qed.

Lemma due_str (old n : Z) (l1 l t : list Z) :
  Forall (fun c => str_end c = false) l1 -> due H [] (Str old) n (l1 ++ l) t -> due H [] (Str old) n l (t ++ l1).
Proof.
  revert t. induction l1 as [|c l1 IH]; intros t Hl Hdue; [by rewrite app_nil_r|].
  apply Forall_cons in Hl as [Hc Hl]. change (c :: l1) with ([c] ++ l1). rewrite app_assoc. apply IH; [done|].
  apply due_put. apply (due_step H [] [c] (Str old) _ n n c); [|done].
  apply orb_false_iff in Hc as [[Hb Hq]%orb_false_iff _]. cbn [delta]. by rewrite Hb, Hq.
Qed.

(** A character of a string that is not copied. *)
Lemma string_char_ok (M n old : Z) (os : list Z) (w : list string) (f : list Z) (b : nat)
    (g : list (list Z)) (t : list Z) (r : Z) :
  old ∈ TEXT -> mid T M n f g t r -> Z.of_nat (length (f ++ concat g)) + 2 * r <= M ->
  due H [] (Str old) n (f ++ concat g) t ->
  wp (ch ← GET;
      if ch =? EOF then
        _ ← kwarn "end of file in string; '%c' inserted";
        _ ← kput (fun s => set_input [] 1 (get s) (set_state (old_state (ap s)) s));
        _ ← UNGET NL;
        PUT DQ
      else if ch =? DQ then _ ← kput (fun s => set_state (old_state (ap s)) s); PUT ch
      else if ch =? BACKSLASH then _ ← kput (set_state 6); PUT ch
      else PUT ch) (fun _ => goes H T M) (stops H T) (ends H T) (mk_io (mk_app 5 old os n DQ w) f b g t r).
Proof.
  intros Hold Hm HM Hdue. apply k_bind, wp_GET; [by destruct Hm| |].
  - intros E. rewrite E in Hdue, HM. change (EOF =? EOF) with true. krun. apply k_bind, wp_UNGET; [by split|].
    apply last_text; [done|by split| |by apply (due_dead H [] _ (Str old) _ n _ _ t)].
    apply (mid_unget T M n NL [] []); [by apply mid_eof in Hm|by split|]. cbn in *. lia.
  - intros c f' b' g' E Hg'. destruct (mid_read _ _ _ _ [] _ _ _ _ _ _ Hm E Hg') as (Hm' & Hc & Hlen).
    rewrite E in Hdue. rewrite (proj2 (Z.eqb_neq c EOF)) by (unfold is_byte, EOF in *; lia).
    destruct (Z.eqb_spec c DQ) as [->|HDQ]; krun; [|destruct (Z.eqb_spec c BACKSLASH) as [->|Hbs]; krun].
    + apply last_text; [done|by split|done|].
      exact (due_step H [] [DQ] (Str old) (Text old) n n DQ _ _ eq_refl Hdue).
    + apply last_put; [destruct Hm; by apply app_string; [|text_state|..]|done|by split|done|].
      exact (due_step H [] [BACKSLASH] (Str old) (Esc old) n n BACKSLASH _ _ eq_refl Hdue).
    + apply put_str; [done|done|done|]. apply (due_step H [] [c] (Str old) _ n n c); [|done].
      cbn [delta]. by rewrite (proj2 (Z.eqb_neq _ _) HDQ), (proj2 (Z.eqb_neq _ _) Hbs).
Qed.

Lemma string_state_ok (M n old : Z) (os : list Z) (w : list string) (f : list Z) (b : nat)
    (g : list (list Z)) (t : list Z) (r : Z) :
  old ∈ TEXT -> mid T M n f g t r -> Z.of_nat (length (f ++ concat g)) + 2 * r <= M ->
  due H [] (Str old) n (f ++ concat g) t ->
  wp string_state (fun _ => goes H T M) (stops H T) (ends H T) (mk_io (mk_app 5 old os n DQ w) f b g t r).
Proof.
  intros Hold Hm HM Hdue. unfold string_state. krun. set (len := Z.min _ _).
  destruct (Z.ltb_spec 0 len) as [H0|H0]; krun; [|by apply string_char_ok].
  destruct (run_before_take str_end f (Z.to_nat len)) as (f1 & f2 & -> & Hlen & Hrun);
    [unfold len; change (fun c => (c =? BACKSLASH) || (c =? DQ) || (c =? NL)) with str_end; lia|].
  destruct Hm as [A1 A2 A3 A4 A5 A6]. rewrite <- app_assoc in A2, A6, HM, Hdue. rewrite length_app in A6, HM.
  apply (due_str old n f1 _ t Hrun) in Hdue. apply Forall_app in A2 as [_ A2].
  assert (Z.of_nat (length f1) <= r) as Hfit by lia.
  apply k_bind. rewrite <- Hlen. apply wp_copy; [done|]. krun. apply k_bind, wp_if_full; intros Hroom.
  - split; [split; cbn; [done|done|by apply app_string; [|text_state|..]|lia|rewrite length_app; lia]|].
    split; [exact Hdue|]. split; [done|]. cbn. lia.
  - apply string_char_ok; [done| |lia|done]. split; try done; [rewrite length_app; lia|lia].
Qed.

(** *** The line of a cpp directive *)
Lemma line_skip_ok (M n c old q : Z) (os : list Z) (w : list string) (f : list Z) (b : nat)
    (g : list (list Z)) (t : list Z) (r : Z) :
  is_byte c -> mid T M n f g t r -> due H [] LineSkip n (c :: f ++ concat g) t ->
  wp (ch ← while_get (fun c => negb (c =? NL)) c; _ ← kput (set_state 0); PUT ch)
    (fun _ => goes H T M) (stops H T) (ends H T) (mk_io (mk_app 4 old os n q w) f (S b) g t r).
Proof.
  intros Hc Hm Hdue.
  assert (forall c, negb (c =? NL) = true -> delta LineSkip n c = (LineSkip, n, [])) as Hskip
    by (intros c' Hc'; apply negb_true_iff in Hc'; cbn [delta]; by rewrite Hc').
  assert (bytes_ok (c :: f ++ concat g)) as Hb by (constructor; [done|by destruct Hm]).
  apply k_bind, wp_while_get; [by destruct Hm|done| |].
  - intros Hall. krun. change (PUT EOF) with (PUT 255). apply last_text; [text_state|by split|by apply mid_eof in Hm|].
    apply (due_dead H [] _ LineSkip _ n _ [] t); [done|].
    apply (due_skip H _ [] _ _ (c :: f ++ concat g) [] t Hskip Hall). by rewrite app_nil_r.
  - intros v x f' b' g' E Hv Hx Hg'. rewrite E in Hdue, Hb. apply (due_skip H _ [] _ _ v _ t Hskip Hv) in Hdue.
    apply negb_false_iff, Z.eqb_eq in Hx as ->. krun.
    apply last_text; [text_state|by split| |exact (due_step H [] [NL] LineSkip (Text 0) n n NL _ _ eq_refl Hdue)].
    apply Forall_app in Hb as [_ Hb]. apply Forall_cons in Hb as [_ Hb]. destruct Hm as [A1 A2 A3 A4 A5 A6].
    apply (f_equal length) in E. rewrite length_app in E. cbn [length] in E. split; try done. lia.
Qed.

Lemma linefile_state_ok (M n old q : Z) (os : list Z) (w : list string) (f : list Z) (b : nat)
    (g : list (list Z)) (t : list Z) (r : Z) :
  mid T M n f g t r -> due H [] Line n (f ++ concat g) t ->
  wp linefile_state (fun _ => goes H T M) (stops H T) (ends H T) (mk_io (mk_app 4 old os n q w) f b g t r).
Proof.
  intros Hm Hdue. pose proof (mid_newlines _ _ _ _ _ _ _ Hm) as Hn.
  unfold linefile_state. apply k_bind, wp_GET; [by destruct Hm| |].
  { intros E. rewrite E in Hdue. change (EOF =? EOF) with true. apply (mid_eof _ _ _ f g) in Hm as [A1 A2 A3 A4 A5 A6].
    split; [split; cbn; [done|done|by apply app_text; [|by apply list_elem_of_here]|lia|done]|]. split; [done|].
    intros all Hall. by destruct (due_dead_all H [] Line n t ltac:(done) Hdue all Hall). }
  intros c f' b' g' E Hg'. destruct (mid_read _ _ _ _ [] _ _ _ _ _ _ Hm E Hg') as (Hm' & Hc & _).
  rewrite E in Hdue. rewrite (proj2 (Z.eqb_neq c EOF)) by (unfold is_byte, EOF in *; lia).
  change ((48 <=? c) && (c <=? 57)) with (digit c). destruct (digit c) eqn:Edig.
  { apply last_put; [by apply app_text; [|by apply list_elem_of_here]|done|done|done|].
    apply (due_step H [] [c] Line Line n n c); [|done]. cbn [delta]. by rewrite Edig. }
  apply (due_eq H [] Line LineWhite n n c) in Hdue; [|cbn [delta]; by rewrite Edig, before_nil].
  assert (forall c, IS_WHITESPACE c = true -> delta LineWhite n c = (LineWhite, n, [])) as Hskip
    by (intros c' Hc'; cbn [delta line_char]; unfold line_char; by rewrite Hc').
  assert (bytes_ok (c :: f' ++ concat g')) as Hb by (constructor; [done|by destruct Hm']).
  apply k_bind, wp_while_get; [by destruct Hm'|done| |].
  - intros Hall. change (EOF =? DQ) with false. cbn iota.
    change (while_get (fun ch => negb (ch =? NL)) EOF) with (mret EOF : K Z). krun.
    change (PUT EOF) with (PUT 255). apply last_text; [text_state|by split|by apply mid_eof in Hm|].
    apply (due_dead H [] _ LineWhite _ n _ [] t); [done|].
    apply (due_skip H _ [] _ _ (c :: f' ++ concat g') [] t Hskip Hall). by rewrite app_nil_r.
  - intros v x f2 b2 g2 E2 Hv Hx Hg2. rewrite E2 in Hdue, Hb. apply (due_skip H _ [] _ _ v _ t Hskip Hv) in Hdue.
    assert (mid T M n f2 g2 t r) as Hm2.
    { apply Forall_app in Hb as [_ Hb]. apply Forall_cons in Hb as [_ Hb]. destruct Hm' as [A1 A2 A3 A4 A5 A6].
      destruct Hm as [_ _ _ _ _ A6']. rewrite E in A6'. cbn [app] in A6'. rewrite E2, length_app in A6'. cbn [length] in A6'.
      split; try done. lia. }
    apply Forall_app in Hb as [_ Hb]. apply Forall_cons in Hb as [Hxb _].
    destruct (Z.eqb_spec x DQ) as [->|HDQ]; krun.
    + apply put_quote; [text_state|done|].
      exact (due_step H [] [DQ] LineWhite (Str 3) n n DQ _ _ eq_refl Hdue).
    + apply line_skip_ok; [done|done|]. apply (due_eq H [] LineWhite LineSkip n n x); [|done].
      cbn [delta]. unfold line_char. rewrite Hx, (proj2 (Z.eqb_neq _ _) HDQ), before_nil. done.
Qed.

(** *** A turn of the loop *)
Lemma loop_turn_ok (s : io) :
  inv T s -> good H s -> finished H s -> 0 < room s ->
  wp turn (fun _ => goes H T (measure s)) (stops H T) (ends H T) s.
Proof.
  destruct s as [[st old os n q w] f b g t r]. intros [I1 I2 I3 I4 I5] Hdue Hfin Hr. cbn in Hr, I1, I5.
  set (M := measure _). assert (Z.of_nat (length (f ++ concat g)) + 2 * r <= M) as HM by by apply Z.eq_le_incl.
  clearbody M.
  assert (0 <= n) as Hn by by destruct I3.
  assert (mid T M n f g t r) as Hm by (split; try done; lia). clear I4 I5.
  unfold good, finished in Hdue, Hfin. cbn [ap] in Hdue, Hfin.
  destruct I3 as [_ Hst|_ Hst Hold Hq|_ Hst Hos Hb Hold]; cbn [ap state old_state out_string quotechar from get rest] in *; subst.
  - apply elem_of_cons in Hst as [->|Hst].
    + by apply linefile_state_ok.
    + assert (turn (mk_io (mk_app st old os n q w) f b g t r)
              = (ch ← GET; n ← in_fuel; recycle (S n) ch) (mk_io (mk_app st old os n q w) f b g t r)) as Et
        by (clear -Hst; states Hst; reflexivity).
      assert (due H [] (Text st) n (f ++ concat g) t) as Hd
        by (destruct (text_mode (mk_app st old os n q w) Hst) as [Em Ep]; by rewrite Em, Ep in Hdue).
      enough (wp (ch ← GET; n ← in_fuel; recycle (S n) ch) (fun _ : unit => goes H T M) (stops H T)
        (ends H T) (mk_io (mk_app st old os n q w) f b g t r)) as Hw by (unfold wp in *; by rewrite Et).
      apply k_bind, wp_GET; [by destruct Hm| |].
      * intros E. rewrite E in Hd. krun. cbn [recycle]. change (EOF =? EOF) with true. cbn iota. rewrite wp_kget. cbn [ap state].
        apply mid_eof in Hm as Hm'. destruct (Z.eqb_spec st 0) as [->|H0]; cbn [negb]; krun.
        -- destruct Hm' as [A1 A2 A3 A4 A5 A6].
           split; [split; cbn; [done|done|by apply text_ok; [|text_state]|lia|done]|]. split; [done|].
           exact (due_end H (Text 0) n t Hd).
        -- assert (forall all, H all -> False) as Hno by (apply (due_dead_all H [] (Text st) n t); [congruence|done]).
           apply k_bind. destruct Hm' as [A1 A2 A3 A4 A5 A6].
           apply wp_PUT; [by split|done| |]; intros Hr'.
           ++ apply text_stops; [text_state|done|done|done|lia|rewrite length_app; cbn; lia|].
              intros all Hall. by destruct (Hno all Hall).
           ++ split; [split; cbn; [done|done|by apply text_ok; [|text_state]|lia|rewrite length_app; cbn; lia]|].
              split; [done|]. intros all Hall. by destruct (Hno all Hall).
      * intros c f' b' g' E Hg'. destruct (mid_read _ _ _ _ [] _ _ _ _ _ _ Hm E Hg') as (Hm' & Hc & Hlen).
        rewrite E in Hd. krun. apply recycle_ok. exists st, old, os, n, q, w, f', (S b'), g', t, r.
        split_and!; try done; [left; lia|unfold rest; cbn; lia|lia].
  - rewrite elem_of_cons, list_elem_of_singleton in Hst. destruct Hst as [->| ->].
    + by apply string_state_ok; [..|lia|].
    + by apply escape_state_ok.
  - destruct os as [|c os]; [done|]. apply put_string_ok; [done|done|done| |done].
    intros all Hall E. by apply (Hfin all Hall) in E.
Qed.

(** *** The loop *)
Lemma turns_ok (fuel : nat) (s : io) :
  inv T s -> good H s -> finished H s -> 0 < room s -> measure s < Z.of_nat fuel ->
  wp (turns fuel) (fun _ _ => False) (stops H T) (ends H T) s.
Proof.
  revert s. induction fuel as [|fuel IH]; intros s Hi Hg Hf Hr HM; [unfold measure in HM; lia|].
  cbn [turns]. apply k_bind. eapply k_mono; [by apply loop_turn_ok|].
  intros ? s' (Hi' & Hg' & Hf' & Hr' & HM'). apply IH; try done. lia.
Qed.
End states.

(** ** A call *)

(** What [get] was not asked for yet, and what is saved of the last buffer. *)
Definition pending (sc : scrubber) (g : list (list Z)) : list Z :=
  match saved_input sc with Some (_, l) => l | None => [] end ++ concat g.

(** The static variables and the buffers to come. *)
Record scrubber_ok (sc : scrubber) (g : list (list Z)) : Prop := {
  scrubber_app : app_ok (sc_app sc);
  scrubber_saved : forall b l, saved_input sc = Some (b, l) -> l <> [];
  scrubber_get : nonempty g;
  scrubber_bytes : bytes_ok (pending sc g)
}.

(** The outputs that [H] allows are those the machine owes. *)
Definition owes (H : list Z -> Prop) (sc : scrubber) (g : list (list Z)) : Prop :=
  let a := sc_app sc in
  due H (pend a) (mode_of a) (add_newlines a) (pending sc g) [] /\
  forall all, H all -> pending sc g = [] -> pend a = [].

(** All has been put out; or the room is used up and the rest is owed. *)
Definition called (H : list Z -> Prop) (tolen : Z) (o : list Z) (sc : scrubber) (g : list (list Z)) : Prop :=
  scrubber_ok sc g /\ Z.of_nat (length o) <= tolen /\
  ((saved_input sc = None /\ g = [] /\ forall all, H all -> all = o)
   \/ (tolen - 1 <= Z.of_nat (length o) /\ (forall all, H all -> o `prefix_of` all) /\ owes (fun l => H (o ++ l)) sc g)).

Lemma due_shift (H : list Z -> Prop) (o : list Z) (m : mode) (n : Z) (l t : list Z) :
  due H o m n l t -> due (fun l => H (t ++ l)) o m n l [].
Proof.
  intros Hdue all Hall. destruct (Hdue _ Hall) as (Hl & o' & n' & E & Ho). split; [done|].
  exists o', n'. split; [done|]. by apply app_inv_head in Ho.
Qed.

Lemma no_buffers (g : list (list Z)) : nonempty g -> concat g = [] -> g = [].
Proof. intros Hg E. destruct g as [|l g]; [done|]. apply Forall_cons in Hg as [Hl _]. by apply app_nil in E as [? _]. Qed.

Definition run_loop (tolen : Z) (s : io) : res (list Z * scrubber * list (list Z)) :=
  match turns (S (length (rest s) + 2 * Z.to_nat tolen)) s with
  | Next _ _ => Fail Floop
  | Tofull s => Ret (to s, mk_scrubber (ap s) (save_input s), get s)
  | Fromeof s => Ret (to s, mk_scrubber (ap s) None, get s)
  | Fault f => Fail f
  end.

Lemma run_loop_ok (H : list Z -> Prop) (tolen : Z) (a : app_state) (l : list Z) (b : nat) (g : list (list Z)) :
  0 < tolen -> nonempty g -> bytes_ok (l ++ concat g) -> app_ok a ->
  due H (pend a) (mode_of a) (add_newlines a) (l ++ concat g) [] ->
  (forall all, H all -> l ++ concat g = [] -> pend a = []) ->
  exists o sc' g', run_loop tolen (mk_io a l b g [] tolen) = Ret (o, sc', g') /\ called H tolen o sc' g'.
Proof.
  intros Ht Hg Hb Ha Hdue Hfin. set (s0 := mk_io a l b g [] tolen).
  assert (wp (turns (S (length (rest s0) + 2 * Z.to_nat tolen))) (fun _ _ => False) (stops H tolen) (ends H tolen) s0) as Hok.
  { apply turns_ok; [split; cbn; try done; lia|done|done|done|].
    unfold measure. subst s0. cbn [room]. generalize (length (rest (mk_io a l b g [] tolen))). lia. }
  unfold run_loop. unfold wp in Hok. destruct (turns _ s0) as [? s|s|s|f]; [done| | |done].
  - destruct Hok as (Hi & Hg' & Hf' & Hr).
    eexists _, _, _. split; [reflexivity|]. destruct Hi as [I1 I2 I3 I4 I5].
    assert (pending (mk_scrubber (ap s) (save_input s)) (get s) = rest s) as Ep.
    { unfold pending, save_input, rest. cbn. by destruct (from s). }
    split; [split|split; [lia|right]].
    + done.
    + cbn. intros b' l'. unfold save_input. case_bool_decide; [done|]. congruence.
    + done.
    + by rewrite Ep.
    + split; [lia|]. split.
      { intros all Hall. destruct (Hg' all Hall) as (_ & o' & n' & _ & <-). by eexists. }
      unfold owes. rewrite Ep. split; [by apply due_shift|]. intros all Hall. exact (Hf' _ Hall).
  - destruct Hok as (Hi & Hr & Hall).
    eexists _, _, _. split; [reflexivity|]. destruct Hi as [I1 I2 I3 I4 I5]. apply app_nil in Hr as [_ Hr].
    split; [split; cbn|split; [lia|left]].
    + done.
    + done.
    + done.
    + unfold pending. cbn. rewrite Hr. by constructor.
    + cbn. split; [done|]. split; [by apply no_buffers|]. intros all Ha'. symmetry. by apply Hall.
Qed.

Lemma do_scrub_chars_ok (H : list Z -> Prop) (sc : scrubber) (g : list (list Z)) (tolen : Z) :
  scrubber_ok sc g -> owes H sc g -> 0 < tolen ->
  exists o sc' g', do_scrub_chars sc g tolen = Ret (o, sc', g') /\ called H tolen o sc' g'.
Proof.
  intros Hok [Hdue Hfin] Ht. pose proof Hok as [Ha Hs Hg Hb]. unfold do_scrub_chars, pending in *.
  destruct (saved_input sc) as [[b l]|] eqn:Es.
  - by apply (run_loop_ok H tolen (sc_app sc) l b g).
  - destruct g as [|[|c l] g].
    + eexists _, _, _. split; [reflexivity|]. split; [done|]. split; [cbn; lia|]. left. split_and!; try done.
      intros all Hall. destruct (Hdue all Hall) as (_ & o' & n' & E & Ho). cbn in E. injection E as _ _ <-.
      by rewrite (Hfin all Hall), app_nil_r in Ho.
    + by apply Forall_cons in Hg as [? _].
    + apply Forall_cons in Hg as [_ Hg]. by apply (run_loop_ok H tolen (sc_app sc) (c :: l) 0 g).
Qed.

(** ** The calls that scrub a text *)
Lemma scrub_calls_ok (fuel : nat) (sc : scrubber) (g : list (list Z)) (tolen : Z) (all : list Z) :
  scrubber_ok sc g -> owes (eq all) sc g -> 2 <= tolen -> (S (length all) < fuel)%nat ->
  scrub_calls fuel sc g tolen = Ret all.
Proof.
  revert sc g all. induction fuel as [|fuel IH]; intros sc g all Hok Howes Ht Hf; [lia|].
  destruct (do_scrub_chars_ok (eq all) sc g tolen Hok Howes ltac:(lia)) as (o & sc' & g' & E & Hok' & Hlen & Hcase).
  cbn [scrub_calls]. rewrite E. cbn [rbind]. destruct (decide (o = [])) as [->|Ho].
  - rewrite bool_decide_eq_true_2 by done. destruct Hcase as [(_ & _ & Hall)|(Hl & _)]; [by rewrite (Hall all)|].
    cbn in Hl. lia.
  - rewrite bool_decide_eq_false_2 by done. destruct Hcase as [(Es & -> & Hall)|(Hl & Hpre & Howes')].
    + rewrite <- (Hall all eq_refl). destruct fuel as [|fuel]; [lia|]. cbn [scrub_calls].
      assert (do_scrub_chars sc' [] tolen = Ret ([], sc', [])) as -> by (unfold do_scrub_chars; by rewrite Es).
      cbn [rbind]. rewrite bool_decide_eq_true_2 by done. cbn [rbind]. by rewrite app_nil_r.
    + destruct (Hpre all eq_refl) as [all' ->].
      assert (owes (eq all') sc' g') as Ho'.
      { destruct Howes' as [Hd Hf']. split; [intros ? <-; exact (Hd _ eq_refl)|intros ? <-; exact (Hf' _ eq_refl)]. }
      rewrite (IH sc' g' all' Hok' Ho' Ht); [done|]. rewrite length_app in Hf.
      destruct o; [done|cbn in Hf; lia].
Qed.

Lemma scrub0_ok (bufs : list (list Z)) : nonempty bufs -> bytes_ok (concat bufs) -> scrubber_ok scrub0 bufs.
Proof. intros Hg Hb. split; [by apply app_text; [|apply list_elem_of_further, list_elem_of_here]|done|done|done]. Qed.

Lemma scrub0_owes (bufs : list (list Z)) (o : list Z) : scrubs (concat bufs) o -> owes (eq o) scrub0 bufs.
Proof. intros [Hl [n E]]. split; [|done]. intros ? <-. split; [done|]. by exists o, n. Qed.

(** *** Lines *)
Definition newlines_in (l : list Z) : Z := Z.of_nat (length (filter (fun c => c = NL) l)).

Lemma newlines_app (l1 l2 : list Z) : newlines_in (l1 ++ l2) = newlines_in l1 + newlines_in l2.
Proof. unfold newlines_in. rewrite filter_app, length_app. lia. Qed.

(** Outside the modes of a quoted character. *)
Definition unquoted (m : mode) : Prop :=
  match m with Quote _ | QuoteEsc _ | QuoteEnd _ _ => False | _ => True end.

(** What [c] and the owed newlines count is put out or owed. *)
Definition keeps (n c : Z) (r : mode * Z * list Z) : Prop :=
  let '(m, n', o) := r in unquoted m /\ 0 <= n' /\ newlines_in o + n' = newlines_in [c] + n.

Lemma newlines_cons (c : Z) (l : list Z) : newlines_in (c :: l) = (if c =? NL then 1 else 0) + newlines_in l.
Proof.
  unfold newlines_in. rewrite filter_cons. destruct (Z.eqb_spec c NL) as [->|Hc];
    [rewrite decide_True by done; cbn [length]; lia|by rewrite decide_False].
Qed.

Lemma newlines_nil : newlines_in [] = 0.
Proof. done. Qed.

Lemma newlines_newlines (n : Z) : 0 <= n -> newlines_in (newlines n) = n + 1.
Proof.
  intros Hn. unfold newlines. rewrite <- (Z2Nat.id n) at 2 by done. generalize (Z.to_nat n) as k.
  induction k as [|k IH]; [done|]. change (repeat NL (S (S k))) with (NL :: repeat NL (S k)).
  rewrite newlines_cons, IH. change (NL =? NL) with true. lia.
Qed.

Lemma keeps_before (n c : Z) (o : list Z) (r : mode * Z * list Z) :
  newlines_in o = 0 -> keeps n c r -> keeps n c (before o r).
Proof.
  destruct r as [[m n'] o']. intros Ho (Hm & Hn & E). split_and!; [done|done|]. rewrite newlines_app. lia.
Qed.

(** Nothing but [c] and blanks is put out, the owed newlines stay. *)
Lemma keeps_plain (n c : Z) (m : mode) (o : list Z) :
  unquoted m -> 0 <= n -> c <> NL -> o = [] \/ o = [c] \/ o = [32; c] \/ o = [32] -> keeps n c (m, n, o).
Proof.
  intros Hm Hn Hc Ho. split_and!; [done|done|].
  assert ((c =? NL) = false) as Ec by by apply Z.eqb_neq.
  destruct_or! Ho; rewrite Ho; rewrite ?newlines_cons, ?newlines_nil, Ec; done.
Qed.

Lemma lex_not_newline (c : Z) : lex c <> 10 -> c <> NL.
Proof. intros Hl ->. by destruct Hl. Qed.

Lemma text_keeps (st n c : Z) : 0 <= n -> is_byte c -> c <> SQ -> keeps n c (text_char st n c).
Proof.
  intros Hn Hc HSQ. pose proof (lex_range c Hc) as Hl. unfold text_char.
  destruct (decide (lex c = 10)) as [E10|N10].
  { rewrite E10. apply (lex_newline c Hc) in E10 as ->. split_and!; [done|done|].
    rewrite newlines_newlines by done. rewrite newlines_cons, newlines_nil. cbn. lia. }
  apply lex_not_newline in N10 as Hnl. rewrite !elem_of_cons, elem_of_nil in Hl.
  assert (forall st', unquoted (Text st')) as Ht by done.
  destruct_or! Hl; try (by destruct N10); rewrite Hl;
    cbv [LEX_IS_WHITESPACE LEX_IS_TWOCHAR_COMMENT_1ST LEX_IS_STRINGQUOTE LEX_IS_ONECHAR_QUOTE LEX_IS_COLON
         LEX_IS_NEWLINE LEX_IS_LINE_SEPARATOR LEX_IS_LINE_COMMENT_START LEX_IS_SYMBOL_COMPONENT]; cbn [Z.eqb Pos.eqb].
  all: try (apply (lex_single c Hc) in Hl as ->; by destruct HSQ).
  all: clear Hl N10; repeat match goal with |- context [if ?b then _ else _] => destruct b end;
    apply keeps_plain; first [exact I|exact Hn|exact Hnl|tauto].
Qed.

Lemma delta_keeps (m : mode) (n c : Z) :
  unquoted m -> 0 <= n -> is_byte c -> c <> SQ -> keeps n c (delta m n c).
Proof.
  intros Hm Hn Hc HSQ. pose proof (fun st => text_keeps st n c Hn Hc HSQ) as Ht.
  assert (forall st o, newlines_in o = 0 -> keeps n c (before o (text_char st n c))) as Hbt
    by (intros st o Ho; by apply keeps_before).
  destruct (decide (c = NL)) as [->|Hnl].
  - assert (forall m o, unquoted m -> newlines_in o = 1 -> keeps n NL (m, n, o)) as Hput
      by (intros m' o Hm' Ho; split_and!; [done|done|]; rewrite Ho, newlines_cons, newlines_nil; cbn; lia).
    assert (forall m o, unquoted m -> newlines_in o = 0 -> keeps n NL (m, n + 1, o)) as Howe
      by (intros m' o Hm' Ho; split_and!; [done|lia|]; rewrite Ho, newlines_cons, newlines_nil; cbn; lia).
    destruct m; try (exfalso; exact Hm); cbn [delta]; unfold after_white, line_char;
      change (IS_WHITESPACE NL) with false; change (NL =? 42) with false; change (NL =? 47) with false;
      change (IS_LINE_SEPARATOR NL) with false; change (lex NL =? LEX_IS_COLON) with false;
      change (NL =? DQ) with false; change (NL =? BACKSLASH) with false; change (NL =? NL) with true;
      change (digit NL) with false; change (IS_NEWLINE NL) with true; rewrite ?andb_false_r; cbn [orb andb];
      repeat match goal with |- context [if ?b then _ else _] => destruct b end;
      lazymatch goal with
      | |- keeps _ _ (text_char _ _ _) => apply Ht
      | |- keeps _ _ (before _ _) => apply Hbt; reflexivity
      | |- keeps _ _ (_, _ + 1, _) => apply Howe; [exact I|reflexivity]
      | |- _ => apply Hput; [exact I|reflexivity]
      end.
  - assert (IS_NEWLINE c = false) as Enl
      by (apply Z.eqb_neq; intros E; by apply (lex_newline c Hc) in E).
    assert (forall m o, unquoted m -> o = [] \/ o = [c] -> keeps n c (m, n, o)) as Hput
      by (intros m' o Hm' Ho; apply keeps_plain; [done|done|done|tauto]).
    destruct m; try (exfalso; exact Hm); cbn [delta]; unfold after_white, line_char; rewrite ?Enl, ?(proj2 (Z.eqb_neq c NL) Hnl);
      repeat match goal with |- context [if ?b then _ else _] => destruct b end;
      lazymatch goal with
      | |- keeps _ _ (text_char _ _ _) => apply Ht
      | |- keeps _ _ (before _ _) => apply Hbt; reflexivity
      | |- keeps _ _ (_, _, LINEFILE ++ _) => idtac
      | |- _ => apply Hput; [exact I|tauto]
      end.
    apply (keeps_before n c LINEFILE (Line, n, [c])); [reflexivity|]. apply Hput; [exact I|tauto].
Qed.

Lemma feed_keeps (m : mode) (n : Z) (l : list Z) :
  unquoted m -> 0 <= n -> bytes_ok l -> SQ ∉ l ->
  let '(_, n', o) := feed m n l in 0 <= n' /\ newlines_in o + n' = newlines_in l + n.
Proof.
  revert m n. induction l as [|c l IH]; intros m n Hm Hn Hb HSQ; [done|].
  apply Forall_cons in Hb as [Hc Hb]. rewrite not_elem_of_cons in HSQ. destruct HSQ as [Hcs HSQ].
  pose proof (delta_keeps m n c Hm Hn Hc ltac:(done)) as Hk. cbn [feed].
  destruct (delta m n c) as [[m1 n1] o1]. destruct Hk as (Hm1 & Hn1 & E1).
  pose proof (IH m1 n1 Hm1 Hn1 Hb HSQ) as Hf. destruct (feed m1 n1 l) as [[m2 n2] o2]. cbn [before].
  destruct Hf as [Hn2 E2]. split; [done|]. rewrite newlines_app. rewrite newlines_cons in E1 |- *.
  rewrite newlines_nil in E1. lia.
Qed.

(** ** The claims *)

(** C11.  However a text that ends at the end of a line, outside comments and strings, is
    cut into buffers, and whatever the room of at least two characters the caller
    has, the calls of [do_scrub_chars] from the initial state put out exactly what the
    machine [delta] gives for the text, and then nothing. *)
Theorem scrub_refines (bufs : list (list Z)) (o : list Z) (tolen : Z) :
  nonempty bufs -> bytes_ok (concat bufs) -> scrubs (concat bufs) o -> 2 <= tolen ->
  scrub_calls (S (S (length o))) scrub0 bufs tolen = Ret o.
Proof.
  intros Hg Hb Ho Ht. apply scrub_calls_ok; [by apply scrub0_ok|by apply scrub0_owes|done|lia].
Qed.

(** C12.  From well-formed static variables, whatever bytes [get] returns, malformed text
    included, and whatever the room: [do_scrub_chars] returns, never puts a character
    back before the start of a buffer or out past the end of the caller's, and leaves
    the static variables well formed; and it returns only at the end of the text or
    with the room used up but for one character. *)
Theorem scrub_keeps_ok (sc : scrubber) (bufs : list (list Z)) (tolen : Z) :
  scrubber_ok sc bufs -> 0 < tolen ->
  exists o sc' bufs', do_scrub_chars sc bufs tolen = Ret (o, sc', bufs') /\ scrubber_ok sc' bufs' /\
    Z.of_nat (length o) <= tolen /\
    (saved_input sc' = None /\ bufs' = [] \/ tolen - 1 <= Z.of_nat (length o)).
Proof.
  intros Hok Ht. destruct (do_scrub_chars_ok (fun _ => False) sc bufs tolen Hok) as (o & sc' & g' & E & Hok' & Hl & Hc);
    [by split|done|]. exists o, sc', g'. split_and!; try done.
  destruct Hc as [(? & ? & _)|(? & _)]; [by left|by right].
Qed.

(** C39.  The lines of a text without character quotes are kept: the newlines put out are
    those of the text, the ones inside comments and strings included, but for those
    still owed at its end. *)
Theorem scrub_keeps_lines (bufs : list (list Z)) (o : list Z) (tolen : Z) :
  nonempty bufs -> bytes_ok (concat bufs) -> scrubs (concat bufs) o -> 2 <= tolen -> SQ ∉ concat bufs ->
  exists owed, scrub_calls (S (S (length o))) scrub0 bufs tolen = Ret o /\
    feed (Text 0) 0 (concat bufs) = (Text 0, owed, o) /\ 0 <= owed /\
    newlines_in o + owed = newlines_in (concat bufs).
Proof.
  intros Hg Hb Ho Ht HSQ. pose proof Ho as [_ [n E]]. exists n.
  pose proof (feed_keeps (Text 0) 0 (concat bufs) I ltac:(lia) Hb HSQ) as Hk. rewrite E in Hk. destruct Hk as [Hn Hk].
  split_and!; [|done|done|lia]. apply scrub_calls_ok; [by apply scrub0_ok|by apply scrub0_owes|done|lia].
Qed.

(** *** Witnesses *)

(** A label, blanks, a comment over two lines, a string with an escape, a comment; in two
    buffers, the cut in the comment. *)
Definition ex_bufs : list (list Z) :=
  [bytes "lab :  add   r1 ,r2/* a" ++ [NL] ++ bytes "b *";
   bytes "/ ; .ascii " ++ [DQ] ++ bytes "x\ny" ++ [DQ] ++ bytes " # tail" ++ [NL]].

Definition ex_out : list Z :=
  bytes "lab:add r1,r2; .ascii " ++ [DQ] ++ bytes "x\ny" ++ [DQ; NL].

Lemma ex_bufs_ok : nonempty ex_bufs /\ bytes_ok (concat ex_bufs) /\ SQ ∉ concat ex_bufs.
Proof.
  split; [repeat constructor; discriminate|]. split.
  - apply (bool_decide_unpack (Forall is_byte (concat ex_bufs))). vm_compute. exact I.
  - apply (bool_decide_unpack (SQ ∉ concat ex_bufs)). vm_compute. exact I.
Qed.

Lemma ex_scrubs : scrubs (concat ex_bufs) ex_out.
Proof. split; [vm_compute; reflexivity|exists 1; vm_compute; reflexivity]. Qed.

Lemma scrub_refines_witness : scrub_calls (S (S (length ex_out))) scrub0 ex_bufs 5 = Ret ex_out.
Proof. apply scrub_refines; [apply ex_bufs_ok|apply ex_bufs_ok|apply ex_scrubs|lia]. Defined.

(** In the middle of a string, an escape at the end of the text. *)
Lemma scrub_keeps_ok_witness :
  exists o sc' bufs', do_scrub_chars (mk_scrubber (mk_app 5 2 [] 0 DQ []) (Some (3%nat, [65; BACKSLASH]))) [] 7
                      = Ret (o, sc', bufs') /\ scrubber_ok sc' bufs' /\
    Z.of_nat (length o) <= 7 /\ (saved_input sc' = None /\ bufs' = [] \/ 7 - 1 <= Z.of_nat (length o)).
Proof.
  apply scrub_keeps_ok; [|lia]. split.
  - apply app_string; [done|apply list_elem_of_here|apply (bool_decide_unpack (2 ∈ TEXT)); vm_compute; exact I|done].
  - intros b l E. injection E as _ <-. discriminate.
  - constructor.
  - apply (bool_decide_unpack (Forall is_byte [65; BACKSLASH])). vm_compute. exact I.
Defined.

Lemma scrub_keeps_lines_witness :
  exists owed, scrub_calls (S (S (length ex_out))) scrub0 ex_bufs 2 = Ret ex_out /\
    feed (Text 0) 0 (concat ex_bufs) = (Text 0, owed, ex_out) /\ 0 <= owed /\
    newlines_in ex_out + owed = newlines_in (concat ex_bufs).
Proof.
  apply scrub_keeps_lines; [apply ex_bufs_ok|apply ex_bufs_ok|apply ex_scrubs|lia|apply ex_bufs_ok].
Defined.
