(* ===== verification/GasSymbols.v ===== *)
(** * The assembler's symbols: gas/symbols.c

    The two kinds of symbol, the two tables that map names to them, the chain of
    the symbols that will be written, and the accessors.  A [symbolS *] is a
    place in the [heap] of [syms]; [struct local_symbol] and [struct symbol] are
    the two constructors of [symbol], so reading one as the other is a fault.
    A local symbol starts small and is converted into a real one when more than
    its place is asked for; every later use of the old pointer finds the real
    symbol through it.

    [symbols_case_sensitive] is 1 and the target does not canonicalize names, so
    [save_symbol_name] is the identity; the hooks of the object format keep data
    of their own (symbol sizes, versions), which is not modelled.  What
    frags.c and subsegs.c know about the place being assembled ([now_seg],
    [frag_now], [frag_now_fix]) is an argument, [dot]. *)
From Stdlib Require Import Ascii.
From S2P Require Import Prelude FusionIsa GasHash BfdReloc FusionReloc GasState.
#[local] Open Scope Z_scope.

(** ** The monad of the symbol table *)
Definition SM (A : Type) : Type := syms -> res (A * syms).

#[global] Instance SM_ret : MRet SM := fun A a st => Ret (a, st).
#[global] Instance SM_bind : MBind SM :=
  fun A B k m st => match m st with Ret (a, st') => k a st' | Fail f => Fail f end.

Definition sfail {A : Type} (f : fault) : SM A := fun _ => Fail f.
Definition sgets {A : Type} (f : syms -> A) : SM A := fun st => Ret (f st, st).
Definition smodify (f : syms -> syms) : SM unit := fun st => Ret (tt, f st).
Definition slift {A : Type} (r : res A) : SM A := fun st => let! a := r in Ret (a, st).
Definition swhen (b : bool) (m : SM unit) : SM unit := if b then m else mret tt.
Definition sassert (b : bool) : SM unit := if b then mret tt else sfail Fabort.

Definition set_heap (h : list symbol) (st : syms) : syms :=
  mk_syms h (sy_hash st) (local_hash st) (symbol_rootP st) (symbol_lastP st)
    (expr_symbol_lines st) (finalize_syms st) (symbol_table_frozen st) (dollar_labels st)
    (fb_low_counter st) (fb_labels st) (sy_log st).
Definition set_sy_hash (t : @hash_control (option symbolS)) (st : syms) : syms :=
  mk_syms (heap st) t (local_hash st) (symbol_rootP st) (symbol_lastP st)
    (expr_symbol_lines st) (finalize_syms st) (symbol_table_frozen st) (dollar_labels st)
    (fb_low_counter st) (fb_labels st) (sy_log st).
Definition set_local_hash (t : @hash_control (option symbolS)) (st : syms) : syms :=
  mk_syms (heap st) (sy_hash st) t (symbol_rootP st) (symbol_lastP st)
    (expr_symbol_lines st) (finalize_syms st) (symbol_table_frozen st) (dollar_labels st)
    (fb_low_counter st) (fb_labels st) (sy_log st).
Definition set_chain (root last : option symbolS) (st : syms) : syms :=
  mk_syms (heap st) (sy_hash st) (local_hash st) root last
    (expr_symbol_lines st) (finalize_syms st) (symbol_table_frozen st) (dollar_labels st)
    (fb_low_counter st) (fb_labels st) (sy_log st).
Definition set_lines (l : list symbolS) (st : syms) : syms :=
  mk_syms (heap st) (sy_hash st) (local_hash st) (symbol_rootP st) (symbol_lastP st)
    l (finalize_syms st) (symbol_table_frozen st) (dollar_labels st)
    (fb_low_counter st) (fb_labels st) (sy_log st).
Definition set_dollar (l : list (Z * Z * bool)) (st : syms) : syms :=
  mk_syms (heap st) (sy_hash st) (local_hash st) (symbol_rootP st) (symbol_lastP st)
    (expr_symbol_lines st) (finalize_syms st) (symbol_table_frozen st) l
    (fb_low_counter st) (fb_labels st) (sy_log st).
Definition set_fb (low : list Z) (l : list (Z * Z)) (st : syms) : syms :=
  mk_syms (heap st) (sy_hash st) (local_hash st) (symbol_rootP st) (symbol_lastP st)
    (expr_symbol_lines st) (finalize_syms st) (symbol_table_frozen st) (dollar_labels st)
    low l (sy_log st).
Definition set_sy_log (l : list diag) (st : syms) : syms :=
  mk_syms (heap st) (sy_hash st) (local_hash st) (symbol_rootP st) (symbol_lastP st)
    (expr_symbol_lines st) (finalize_syms st) (symbol_table_frozen st) (dollar_labels st)
    (fb_low_counter st) (fb_labels st) l.

Definition s_bad (fmt : string) : SM unit := smodify (fun st => set_sy_log (sy_log st ++ [Bad fmt]) st).
Definition s_warn (fmt : string) : SM unit := smodify (fun st => set_sy_log (sy_log st ++ [Warn fmt]) st).

(** ** The fields of a symbol *)
Definition no_flags : symbol_flags :=
  mk_flags false false false false false false false false false false.

Definition set_written (b : bool) (f : symbol_flags) : symbol_flags :=
  mk_flags b (sy_resolved f) (sy_resolving f) (sy_used_in_reloc f) (sy_used f) (sy_volatile f)
    (sy_forward_ref f) (sy_mri_common f) (sy_weakrefr f) (sy_weakrefd f).
Definition set_resolved (b : bool) (f : symbol_flags) : symbol_flags :=
  mk_flags (sy_written f) b (sy_resolving f) (sy_used_in_reloc f) (sy_used f) (sy_volatile f)
    (sy_forward_ref f) (sy_mri_common f) (sy_weakrefr f) (sy_weakrefd f).
Definition set_resolving (b : bool) (f : symbol_flags) : symbol_flags :=
  mk_flags (sy_written f) (sy_resolved f) b (sy_used_in_reloc f) (sy_used f) (sy_volatile f)
    (sy_forward_ref f) (sy_mri_common f) (sy_weakrefr f) (sy_weakrefd f).
Definition set_used_in_reloc (b : bool) (f : symbol_flags) : symbol_flags :=
  mk_flags (sy_written f) (sy_resolved f) (sy_resolving f) b (sy_used f) (sy_volatile f)
    (sy_forward_ref f) (sy_mri_common f) (sy_weakrefr f) (sy_weakrefd f).
Definition set_used (b : bool) (f : symbol_flags) : symbol_flags :=
  mk_flags (sy_written f) (sy_resolved f) (sy_resolving f) (sy_used_in_reloc f) b (sy_volatile f)
    (sy_forward_ref f) (sy_mri_common f) (sy_weakrefr f) (sy_weakrefd f).
Definition set_volatile (b : bool) (f : symbol_flags) : symbol_flags :=
  mk_flags (sy_written f) (sy_resolved f) (sy_resolving f) (sy_used_in_reloc f) (sy_used f) b
    (sy_forward_ref f) (sy_mri_common f) (sy_weakrefr f) (sy_weakrefd f).
Definition set_forward_ref (b : bool) (f : symbol_flags) : symbol_flags :=
  mk_flags (sy_written f) (sy_resolved f) (sy_resolving f) (sy_used_in_reloc f) (sy_used f)
    (sy_volatile f) b (sy_mri_common f) (sy_weakrefr f) (sy_weakrefd f).
Definition set_mri_common (b : bool) (f : symbol_flags) : symbol_flags :=
  mk_flags (sy_written f) (sy_resolved f) (sy_resolving f) (sy_used_in_reloc f) (sy_used f)
    (sy_volatile f) (sy_forward_ref f) b (sy_weakrefr f) (sy_weakrefd f).
Definition set_weakrefr (b : bool) (f : symbol_flags) : symbol_flags :=
  mk_flags (sy_written f) (sy_resolved f) (sy_resolving f) (sy_used_in_reloc f) (sy_used f)
    (sy_volatile f) (sy_forward_ref f) (sy_mri_common f) b (sy_weakrefd f).
Definition set_weakrefd (b : bool) (f : symbol_flags) : symbol_flags :=
  mk_flags (sy_written f) (sy_resolved f) (sy_resolving f) (sy_used_in_reloc f) (sy_used f)
    (sy_volatile f) (sy_forward_ref f) (sy_mri_common f) (sy_weakrefr f) b.

Definition upd_flags (f : symbol_flags -> symbol_flags) (r : struct_symbol) : struct_symbol :=
  mk_struct (f (sy_flags r)) (bsym_name r) (bsym_flags r) (bsym_section r) (sy_value r)
    (sy_next r) (sy_previous r) (sy_frag r).
Definition set_bname (n : string) (r : struct_symbol) : struct_symbol :=
  mk_struct (sy_flags r) n (bsym_flags r) (bsym_section r) (sy_value r) (sy_next r)
    (sy_previous r) (sy_frag r).
Definition upd_bflags (f : Z -> Z) (r : struct_symbol) : struct_symbol :=
  mk_struct (sy_flags r) (bsym_name r) (f (bsym_flags r)) (bsym_section r) (sy_value r) (sy_next r)
    (sy_previous r) (sy_frag r).
Definition set_bsection (s : segT) (r : struct_symbol) : struct_symbol :=
  mk_struct (sy_flags r) (bsym_name r) (bsym_flags r) s (sy_value r) (sy_next r) (sy_previous r)
    (sy_frag r).
Definition set_value (e : expressionS) (r : struct_symbol) : struct_symbol :=
  mk_struct (sy_flags r) (bsym_name r) (bsym_flags r) (bsym_section r) e (sy_next r)
    (sy_previous r) (sy_frag r).
Definition set_next (p : option symbolS) (r : struct_symbol) : struct_symbol :=
  mk_struct (sy_flags r) (bsym_name r) (bsym_flags r) (bsym_section r) (sy_value r) p
    (sy_previous r) (sy_frag r).
Definition set_previous (p : option symbolS) (r : struct_symbol) : struct_symbol :=
  mk_struct (sy_flags r) (bsym_name r) (bsym_flags r) (bsym_section r) (sy_value r) (sy_next r) p
    (sy_frag r).
Definition set_sfrag (f : fragP) (r : struct_symbol) : struct_symbol :=
  mk_struct (sy_flags r) (bsym_name r) (bsym_flags r) (bsym_section r) (sy_value r) (sy_next r)
    (sy_previous r) f.

(** ** The BFD symbol flags (bfd-in2.h) *)
Definition BSF_LOCAL : Z := Z.shiftl 1 0.
Definition BSF_GLOBAL : Z := Z.shiftl 1 1.
Definition BSF_DEBUGGING : Z := Z.shiftl 1 2.
Definition BSF_FUNCTION : Z := Z.shiftl 1 3.
Definition BSF_WEAK : Z := Z.shiftl 1 7.
Definition BSF_SECTION_SYM : Z := Z.shiftl 1 8.
Definition BSF_FILE : Z := Z.shiftl 1 14.
Definition BSF_OBJECT : Z := Z.shiftl 1 16.
Definition BSF_THREAD_LOCAL : Z := Z.shiftl 1 18.
Definition BSF_GNU_INDIRECT_FUNCTION : Z := Z.shiftl 1 22.

(** [flags & m] as a condition; [flags | m]; [flags & ~m]. *)
Definition bsf (flags m : Z) : bool := negb (Z.land flags m =? 0).
Definition bset (m flags : Z) : Z := Z.lor flags m.
Definition bclr (m flags : Z) : Z := Z.ldiff flags m.

(** [c == symbol in BSF sense], on a symbol. *)
Definition has_bsf (r : struct_symbol) (m : Z) : bool := bsf (bsym_flags r) m.

(** ** The heap *)
Definition get_sym (p : symbolS) : SM symbol :=
  fun st => let 'Sym i := p in
    match heap st !! i with Some x => Ret (x, st) | None => Fail Foob end.

Definition put_sym (p : symbolS) (x : symbol) : SM unit :=
  let 'Sym i := p in smodify (fun st => set_heap (<[i := x]> (heap st)) st).

Definition alloc (x : symbol) : SM symbolS :=
  fun st => Ret (Sym (length (heap st)), set_heap (heap st ++ [x]) st).

(** [p] as a [struct symbol]. *)
Definition get_real (p : symbolS) : SM struct_symbol :=
  x ← get_sym p; match x with Real r => mret r | Local _ => sfail Foob end.

Definition upd_real (p : symbolS) (f : struct_symbol -> struct_symbol) : SM unit :=
  r ← get_real p; put_sym p (Real (f r)).

Definition local_symbol_converted_p (l : local_symbol) : bool := bool_decide (lsy_section l = seg_reg).

(** [LOCAL_SYMBOL_CHECK (s)]: [inl] is its being true; [inr] is its being
    false, with [s] as the macro leaves it and the symbol there. *)
Definition LOCAL_SYMBOL_CHECK (s : symbolS) : SM (local_symbol + symbolS * struct_symbol) :=
  x ← get_sym s;
  match x with
  | Real r => mret (inr (s, r))
  | Local l =>
      if local_symbol_converted_p l then
        match lsy_u l with
        | lsy_sym s' => r ← get_real s'; mret (inr (s', r))
        | lsy_frag _ => sfail Foob
        end
      else mret (inl l)
  end.

Definition local_symbol_get_frag (l : local_symbol) : SM fragP :=
  match lsy_u l with lsy_frag f => mret f | lsy_sym _ => sfail Foob end.

(** ** The tables of names *)

(** The result of [hash_jam] is an error message. *)
Definition jam_sy (name : string) (v : option symbolS) : SM (option string) :=
  t ← sgets sy_hash; r ← slift (hash_jam t name v); _ ← smodify (set_sy_hash r.1); mret r.2.
Definition jam_local (name : string) (v : option symbolS) : SM (option string) :=
  t ← sgets local_hash; r ← slift (hash_jam t name v); _ ← smodify (set_local_hash r.1); mret r.2.
Definition find_sy (name : string) : SM (option symbolS) :=
  t ← sgets sy_hash; r ← slift (hash_find None t name); _ ← smodify (set_sy_hash r.1); mret r.2.
Definition find_local (name : string) : SM (option symbolS) :=
  t ← sgets local_hash; r ← slift (hash_find None t name); _ ← smodify (set_local_hash r.1); mret r.2.

Definition S_GET_NAME (s : symbolS) : SM string :=
  c ← LOCAL_SYMBOL_CHECK s;
  match c with inl l => mret (lsy_name l) | inr (_, r) => mret (bsym_name r) end.

Definition symbol_table_insert (symbolP : symbolS) : SM unit :=
  c ← LOCAL_SYMBOL_CHECK symbolP;
  match c with
  | inl _ =>
      name ← S_GET_NAME symbolP;
      error_string ← jam_local name (Some symbolP);
      match error_string with
      | Some _ => sfail (Ffatal "inserting into symbol table failed")
      | None => mret tt
      end
  | inr (symbolP, _) =>
      name ← S_GET_NAME symbolP;
      error_string ← jam_sy name (Some symbolP);
      match error_string with
      | Some _ => sfail (Ffatal "inserting into symbol table failed")
      | None => mret tt
      end
  end.

(** ** The chain *)

(** The pointer of a symbol that must not be local. *)
Definition not_local (s : symbolS) : SM (symbolS * struct_symbol) :=
  c ← LOCAL_SYMBOL_CHECK s; match c with inl _ => sfail Fabort | inr sr => mret sr end.

Definition symbol_append (addme : symbolS) (target : option symbolS) : SM unit :=
  '(addme, _) ← not_local addme;
  match target with
  | None =>
      _ ← upd_real addme (set_next None);
      _ ← upd_real addme (set_previous None);
      smodify (set_chain (Some addme) (Some addme))
  | Some target =>
      '(target, t) ← not_local target;
      _ ← match sy_next t with
          | Some n => upd_real n (set_previous (Some addme))
          | None => smodify (fun st => set_chain (symbol_rootP st) (Some addme) st)
          end;
      t ← get_real target;
      _ ← upd_real addme (set_next (sy_next t));
      _ ← upd_real target (set_next (Some addme));
      upd_real addme (set_previous (Some target))
  end.

Definition symbol_clear_list_pointers (symbolP : symbolS) : SM unit :=
  '(symbolP, _) ← not_local symbolP;
  _ ← upd_real symbolP (set_next None);
  upd_real symbolP (set_previous None).

Definition symbol_remove (symbolP : symbolS) : SM unit :=
  '(symbolP, r) ← not_local symbolP;
  root ← sgets symbol_rootP;
  _ ← swhen (bool_decide (Some symbolP = root))
        (smodify (fun st => set_chain (sy_next r) (symbol_lastP st) st));
  last ← sgets symbol_lastP;
  _ ← swhen (bool_decide (Some symbolP = last))
        (smodify (fun st => set_chain (symbol_rootP st) (sy_previous r) st));
  _ ← match sy_next r with
      | Some n => upd_real n (set_previous (sy_previous r)) | None => mret tt
      end;
  r ← get_real symbolP;
  match sy_previous r with
  | Some p => upd_real p (set_next (sy_next r)) | None => mret tt
  end.

Definition symbol_insert (addme target : symbolS) : SM unit :=
  '(addme, _) ← not_local addme;
  '(target, t) ← not_local target;
  _ ← match sy_previous t with
      | Some p => upd_real p (set_next (Some addme))
      | None => smodify (fun st => set_chain (Some addme) (symbol_lastP st) st)
      end;
  t ← get_real target;
  _ ← upd_real addme (set_previous (sy_previous t));
  _ ← upd_real target (set_previous (Some addme));
  upd_real addme (set_next (Some target)).

(** ** Making symbols *)

(** [symbol_create]: a cleared symbol with its name, its section and its value;
    the list pointers are null. *)
Definition symbol_create (name : string) (segment : segT) (valu : Z) (frag : fragP) : SM symbolS :=
  alloc (Real (mk_struct no_flags name 0 segment (mk_expr None None (s64 valu) O_constant)
                 None None frag)).

Definition symbol_new (name : string) (segment : segT) (valu : Z) (frag : fragP) : SM symbolS :=
  symbolP ← symbol_create name segment valu frag;
  frozen ← sgets symbol_table_frozen;
  if (frozen : bool) then sfail Fabort else
  last ← sgets symbol_lastP;
  _ ← symbol_append symbolP last;
  mret symbolP.

Definition local_symbol_make (name : string) (section : segT) (val : Z) (frag : fragP) : SM symbolS :=
  ret ← alloc (Local (mk_local false section name (lsy_frag frag) val));
  _ ← jam_local name (Some ret);
  mret ret.

(** [((struct local_symbol * ) s)], a symbol LOCAL_SYMBOL_CHECK has found local. *)
Definition local_symbol_convert (s : symbolS) : SM symbolS :=
  x ← get_sym s;
  match x with
  | Real _ => sfail Fabort
  | Local l =>
      if local_symbol_converted_p l then
        match lsy_u l with lsy_sym r => mret r | lsy_frag _ => sfail Foob end
      else
        f ← local_symbol_get_frag l;
        ret ← symbol_new (lsy_name l) (lsy_section l) (lsy_value l) f;
        _ ← swhen (lsy_resolved l) (upd_real ret (upd_flags (set_resolved true)));
        _ ← upd_real ret (upd_flags (set_used true));
        _ ← symbol_table_insert ret;
        _ ← put_sym s (Local (mk_local (lsy_resolved l) seg_reg (lsy_name l) (lsy_sym ret)
                                (lsy_value l)));
        _ ← jam_local (lsy_name l) None;
        mret ret
  end.

(** [if (LOCAL_SYMBOL_CHECK (s)) s = local_symbol_convert (s)] *)
Definition converted (s : symbolS) : SM symbolS :=
  c ← LOCAL_SYMBOL_CHECK s;
  match c with inl _ => local_symbol_convert s | inr (s, _) => mret s end.

(** The two shapes of the accessors that change a field: convert a local symbol
    first, or leave it alone. *)
Definition on_converted (f : struct_symbol -> struct_symbol) (s : symbolS) : SM unit :=
  s ← converted s; upd_real s f.

Definition unless_local (f : struct_symbol -> struct_symbol) (s : symbolS) : SM unit :=
  c ← LOCAL_SYMBOL_CHECK s;
  match c with inl _ => mret tt | inr (s, _) => upd_real s f end.

(** The shape of those that read one. *)
Definition on_kind {A : Type} (fl : local_symbol -> A) (fr : struct_symbol -> A) (s : symbolS) : SM A :=
  c ← LOCAL_SYMBOL_CHECK s;
  match c with inl l => mret (fl l) | inr (_, r) => mret (fr r) end.

(** ** Accessors *)
Definition S_IS_FUNCTION (s : symbolS) : SM bool := on_kind (fun _ => false) (fun r => has_bsf r BSF_FUNCTION) s.

(** The sanity check of two accessors: [BSF_LOCAL] and [BSF_GLOBAL] together abort. *)
Definition local_global_check (r : struct_symbol) : SM unit :=
  if has_bsf r BSF_LOCAL && has_bsf r BSF_GLOBAL then sfail Fabort else mret tt.

Definition S_IS_EXTERNAL (s : symbolS) : SM bool :=
  c ← LOCAL_SYMBOL_CHECK s;
  match c with
  | inl _ => mret false
  | inr (_, r) => _ ← local_global_check r; mret (has_bsf r BSF_GLOBAL)
  end.

Definition S_IS_WEAKREFR (s : symbolS) : SM bool := on_kind (fun _ => false) (fun r => sy_weakrefr (sy_flags r)) s.
Definition S_IS_WEAKREFD (s : symbolS) : SM bool := on_kind (fun _ => false) (fun r => sy_weakrefd (sy_flags r)) s.

(** The symbol a weak reference stands for. *)
Definition add_symbol_of (r : struct_symbol) : SM symbolS :=
  match X_add_symbol (sy_value r) with Some a => mret a | None => sfail Foob end.

(** The recursion of [S_IS_WEAK] and of [symbol_mark_used] follows the weak
    references; more steps than there are symbols is a cycle. *)
Fixpoint is_weak_loop (fuel : nat) (s : symbolS) : SM bool :=
  match fuel with
  | O => sfail Floop
  | S n =>
      c ← LOCAL_SYMBOL_CHECK s;
      match c with
      | inl _ => mret false
      | inr (_, r) =>
          if sy_weakrefr (sy_flags r) then a ← add_symbol_of r; is_weak_loop n a
          else mret (has_bsf r BSF_WEAK)
      end
  end.

Definition S_IS_WEAK (s : symbolS) : SM bool :=
  n ← sgets (fun st => length (heap st)); is_weak_loop (S n) s.

Definition S_GET_SEGMENT (s : symbolS) : SM segT := on_kind lsy_section bsym_section s.
Definition S_IS_COMMON (s : symbolS) : SM bool :=
  on_kind (fun _ => false) (fun r => bool_decide (bsym_section r = seg_common)) s.
Definition S_IS_DEFINED (s : symbolS) : SM bool :=
  on_kind (fun l => negb (bool_decide (lsy_section l = seg_undefined)))
          (fun r => negb (bool_decide (bsym_section r = seg_undefined))) s.
Definition S_IS_DEBUG (s : symbolS) : SM bool := on_kind (fun _ => false) (fun r => has_bsf r BSF_DEBUGGING) s.
Definition S_IS_VOLATILE (s : symbolS) : SM bool := on_kind (fun _ => false) (fun r => sy_volatile (sy_flags r)) s.
Definition S_IS_FORWARD_REF (s : symbolS) : SM bool :=
  on_kind (fun _ => false) (fun r => sy_forward_ref (sy_flags r)) s.

(** [EXTERN_FORCE_RELOC] is [IS_ELF]. *)
Definition S_FORCE_RELOC (s : symbolS) (strict : bool) : SM bool :=
  let no_reloc sec := bool_decide (sec = seg_undefined) || bool_decide (sec = seg_common) in
  on_kind (fun l => no_reloc (lsy_section l))
    (fun r => (strict && (has_bsf r BSF_WEAK || has_bsf r BSF_GLOBAL))
              || has_bsf r BSF_GNU_INDIRECT_FUNCTION || no_reloc (bsym_section r)) s.

Definition S_CAN_BE_REDEFINED (s : symbolS) : SM bool :=
  c ← LOCAL_SYMBOL_CHECK s;
  match c with
  | inl l => f ← local_symbol_get_frag l; mret (bool_decide (f = predefined_address_frag))
  | inr (_, r) => mret (bool_decide (bsym_section r = seg_reg))
  end.

(** A symbol whose section is *reg* is converted first; a section symbol keeps
    its section. *)
Definition S_SET_SEGMENT (s : symbolS) (seg : segT) : SM unit :=
  let set_real s :=
    r ← get_real s;
    if has_bsf r BSF_SECTION_SYM then
      if decide (bsym_section r = seg) then mret tt else sfail Fabort
    else put_sym s (Real (set_bsection seg r)) in
  c ← LOCAL_SYMBOL_CHECK s;
  match c with
  | inl l =>
      if decide (seg = seg_reg) then s ← local_symbol_convert s; set_real s
      else
        put_sym s (Local (mk_local (lsy_resolved l) seg (lsy_name l) (lsy_u l) (lsy_value l)))
  | inr (s, _) => set_real s
  end.

Definition S_CLEAR_WEAKREFR (s : symbolS) : SM unit := unless_local (upd_flags (set_weakrefr false)) s.

Definition S_SET_VALUE (s : symbolS) (val : Z) : SM unit :=
  c ← LOCAL_SYMBOL_CHECK s;
  match c with
  | inl l => put_sym s (Local (mk_local (lsy_resolved l) (lsy_section l) (lsy_name l) (lsy_u l) (u64 val)))
  | inr (s, _) =>
      _ ← upd_real s (fun r => set_value (mk_expr (X_add_symbol (sy_value r)) (X_op_symbol (sy_value r))
                                            (s64 val) O_constant) r);
      S_CLEAR_WEAKREFR s
  end.

Definition S_SET_EXTERNAL (s : symbolS) : SM unit :=
  s ← converted s;
  r ← get_real s;
  if has_bsf r BSF_WEAK then mret tt
  else if has_bsf r BSF_SECTION_SYM then s_warn "section symbols are already global"
  else
    seg ← S_GET_SEGMENT s;
    if decide (seg = seg_reg) then s_bad "can't make register symbol `%s' global"
    else
      _ ← upd_real s (upd_bflags (bset BSF_GLOBAL));
      upd_real s (upd_bflags (bclr (Z.lor BSF_LOCAL BSF_WEAK))).

Definition S_CLEAR_EXTERNAL (s : symbolS) : SM unit :=
  unless_local (fun r => if has_bsf r BSF_WEAK then r
                         else upd_bflags (bclr (Z.lor BSF_GLOBAL BSF_WEAK)) (upd_bflags (bset BSF_LOCAL) r)) s.

Definition S_SET_WEAK (s : symbolS) : SM unit :=
  on_converted (fun r => upd_bflags (bclr (Z.lor BSF_GLOBAL BSF_LOCAL)) (upd_bflags (bset BSF_WEAK) r)) s.

Fixpoint mark_used_loop (fuel : nat) (s : symbolS) : SM unit :=
  match fuel with
  | O => sfail Floop
  | S n =>
      c ← LOCAL_SYMBOL_CHECK s;
      match c with
      | inl _ => mret tt
      | inr (s, r) =>
          _ ← upd_real s (upd_flags (set_used true));
          weak ← S_IS_WEAKREFR s;
          if (weak : bool) then a ← add_symbol_of r; mark_used_loop n a else mret tt
      end
  end.

Definition symbol_mark_used (s : symbolS) : SM unit :=
  n ← sgets (fun st => length (heap st)); mark_used_loop (S n) s.

Definition S_SET_WEAKREFR (s : symbolS) : SM unit :=
  s ← converted s;
  _ ← upd_real s (upd_flags (set_weakrefr true));
  r ← get_real s;
  if sy_used (sy_flags r) then a ← add_symbol_of r; symbol_mark_used a else mret tt.

Definition S_SET_WEAKREFD (s : symbolS) : SM unit :=
  s ← converted s; _ ← upd_real s (upd_flags (set_weakrefd true)); S_SET_WEAK s.

Definition S_CLEAR_WEAKREFD (s : symbolS) : SM unit :=
  unless_local (fun r =>
    if sy_weakrefd (sy_flags r) then
      let r := upd_flags (set_weakrefd false) r in
      if has_bsf r BSF_WEAK then upd_bflags (bset BSF_LOCAL) (upd_bflags (bclr BSF_WEAK) r) else r
    else r) s.

Definition S_SET_NAME (s : symbolS) (name : string) : SM unit :=
  c ← LOCAL_SYMBOL_CHECK s;
  match c with
  | inl l => put_sym s (Local (mk_local (lsy_resolved l) (lsy_section l) name (lsy_u l) (lsy_value l)))
  | inr (s, _) => upd_real s (set_bname name)
  end.

Definition S_SET_VOLATILE (s : symbolS) : SM unit := on_converted (upd_flags (set_volatile true)) s.
Definition S_CLEAR_VOLATILE (s : symbolS) : SM unit := unless_local (upd_flags (set_volatile false)) s.
Definition S_SET_FORWARD_REF (s : symbolS) : SM unit := on_converted (upd_flags (set_forward_ref true)) s.

(** [thread_local sec] is [sec->flags & SEC_THREAD_LOCAL]. *)
Definition S_SET_THREAD_LOCAL (thread_local : segT -> bool) (s : symbolS) : SM unit :=
  s ← converted s;
  r ← get_real s;
  if bool_decide (bsym_section r = seg_common) && has_bsf r BSF_THREAD_LOCAL then mret tt else
  _ ← upd_real s (upd_bflags (bset BSF_THREAD_LOCAL));
  if has_bsf r BSF_FUNCTION then s_bad "Accessing function `%s' as thread-local object"
  else if negb (bool_decide (bsym_section r = seg_undefined)) && negb (thread_local (bsym_section r))
  then s_bad "Accessing `%s' as thread-local object" else mret tt.

Definition symbol_previous (s : symbolS) : SM (option symbolS) := sr ← not_local s; mret (sy_previous sr.2).
Definition symbol_next (s : symbolS) : SM (option symbolS) := sr ← not_local s; mret (sy_next sr.2).

(** [*symbol_get_value_expression (s)] *)
Definition symbol_get_value_expression (s : symbolS) : SM expressionS :=
  s ← converted s; r ← get_real s; mret (sy_value r).

Definition symbol_set_value_expression (s : symbolS) (exp : expressionS) : SM unit :=
  s ← converted s; _ ← upd_real s (set_value exp); S_CLEAR_WEAKREFR s.

(** One step from a converted local symbol to its real one. *)
Definition follow (s : symbolS) : SM symbolS :=
  x ← get_sym s;
  match x with
  | Local l => if local_symbol_converted_p l then
                 match lsy_u l with lsy_sym r => mret r | lsy_frag _ => sfail Foob end
               else mret s
  | Real _ => mret s
  end.

Definition symbol_same_p (s1 s2 : symbolS) : SM bool :=
  s1 ← follow s1; s2 ← follow s2; mret (bool_decide (s1 = s2)).

(** [*symbol_X_add_number (s)], read. *)
Definition symbol_X_add_number (s : symbolS) : SM Z :=
  on_kind (fun l => s64 (lsy_value l)) (fun r => X_add_number (sy_value r)) s.

Definition symbol_set_frag (s : symbolS) (f : fragP) : SM unit :=
  c ← LOCAL_SYMBOL_CHECK s;
  match c with
  | inl l => put_sym s (Local (mk_local (lsy_resolved l) (lsy_section l) (lsy_name l) (lsy_frag f) (lsy_value l)))
  | inr (s, _) => _ ← upd_real s (set_sfrag f); S_CLEAR_WEAKREFR s
  end.

Definition symbol_get_frag (s : symbolS) : SM fragP :=
  c ← LOCAL_SYMBOL_CHECK s;
  match c with inl l => local_symbol_get_frag l | inr (_, r) => mret (sy_frag r) end.

Definition symbol_clear_used (s : symbolS) : SM unit := on_converted (upd_flags (set_used false)) s.
Definition symbol_used_p (s : symbolS) : SM bool := on_kind (fun _ => true) (fun r => sy_used (sy_flags r)) s.
Definition symbol_mark_used_in_reloc (s : symbolS) : SM unit := on_converted (upd_flags (set_used_in_reloc true)) s.
Definition symbol_clear_used_in_reloc (s : symbolS) : SM unit := unless_local (upd_flags (set_used_in_reloc false)) s.
Definition symbol_used_in_reloc_p (s : symbolS) : SM bool :=
  on_kind (fun _ => false) (fun r => sy_used_in_reloc (sy_flags r)) s.
Definition symbol_mark_mri_common (s : symbolS) : SM unit := on_converted (upd_flags (set_mri_common true)) s.
Definition symbol_clear_mri_common (s : symbolS) : SM unit := unless_local (upd_flags (set_mri_common false)) s.
Definition symbol_mri_common_p (s : symbolS) : SM bool :=
  on_kind (fun _ => false) (fun r => sy_mri_common (sy_flags r)) s.
Definition symbol_mark_written (s : symbolS) : SM unit := unless_local (upd_flags (set_written true)) s.
Definition symbol_clear_written (s : symbolS) : SM unit := unless_local (upd_flags (set_written false)) s.
Definition symbol_written_p (s : symbolS) : SM bool := on_kind (fun _ => false) (fun r => sy_written (sy_flags r)) s.

Definition symbol_mark_resolved (s : symbolS) : SM unit :=
  c ← LOCAL_SYMBOL_CHECK s;
  match c with
  | inl l => put_sym s (Local (mk_local true (lsy_section l) (lsy_name l) (lsy_u l) (lsy_value l)))
  | inr (s, _) => upd_real s (upd_flags (set_resolved true))
  end.

Definition symbol_resolved_p (s : symbolS) : SM bool := on_kind lsy_resolved (fun r => sy_resolved (sy_flags r)) s.
Definition symbol_section_p (s : symbolS) : SM bool := on_kind (fun _ => false) (fun r => has_bsf r BSF_SECTION_SYM) s.

Definition X_op_is (e : expressionS) (op : operatorT) : bool := bool_decide (X_op e = op).

Definition symbol_equated_p (s : symbolS) : SM bool := on_kind (fun _ => false) (fun r => X_op_is (sy_value r) O_symbol) s.
Definition symbol_equated_reloc_p (s : symbolS) : SM bool :=
  on_kind (fun _ => false)
    (fun r => X_op_is (sy_value r) O_symbol
              && ((sy_resolved (sy_flags r) && bool_decide (is_Some (X_op_symbol (sy_value r))))
                  || bool_decide (bsym_section r = seg_undefined)
                  || bool_decide (bsym_section r = seg_common))) s.
Definition symbol_constant_p (s : symbolS) : SM bool := on_kind (fun _ => true) (fun r => X_op_is (sy_value r) O_constant) s.

(** [s->sy_next == s], [s] being the pointer the macro leaves. *)
Definition symbol_shadow_p (s : symbolS) : SM bool :=
  c ← LOCAL_SYMBOL_CHECK s;
  match c with inl _ => mret false | inr (s, r) => mret (bool_decide (sy_next r = Some s)) end.

Definition COPIED_SYMFLAGS : Z := Z.lor BSF_FUNCTION (Z.lor BSF_OBJECT BSF_GNU_INDIRECT_FUNCTION).

(** [OBJ_COPY_SYMBOL_ATTRIBUTES] copies the size of the ELF symbol. *)
Definition copy_symbol_attributes (dest src : symbolS) : SM unit :=
  dest ← converted dest;
  src ← converted src;
  r ← get_real src;
  upd_real dest (upd_bflags (bset (Z.land (bsym_flags r) COPIED_SYMFLAGS))).

(** ** Local label names (bfd/elf.c, bfd/syms.c) *)
Definition ISDIGIT (c : ascii) : bool := let n := N_of_ascii c in (48 <=? n)%N && (n <=? 57)%N.

Definition char_is (c : ascii) (n : N) : bool := (N_of_ascii c =? n)%N.

(** The loop over the characters after [L<digit>]; [first]: [p == name + 2]. *)
Fixpoint local_label_loop (first ret : bool) (p : string) : bool :=
  match p with
  | EmptyString => ret
  | String c p' =>
      if (char_is c 1 || char_is c 2) && (char_is c 1 && first) then true
      else
        let ret := if char_is c 1 || char_is c 2 then true else ret in
        if negb (ISDIGIT c) then false else local_label_loop false ret p'
  end.

(** [name[i] == c]; the name's NUL equals no [c] asked for. *)
Definition char_at (name : string) (i : nat) (c : ascii) : bool :=
  match String.get i name with Some d => Ascii.eqb d c | None => false end.

Definition _bfd_elf_is_local_label_name (name : string) : bool :=
  if char_at name 0 "." && char_at name 1 "L" then true
  else if char_at name 0 "." && char_at name 1 "." then true
  else if char_at name 0 "_" && char_at name 1 "." && char_at name 2 "L" && char_at name 3 "_" then true
  else
    match name with
    | String l (String d rest) =>
        if Ascii.eqb l "L" && ISDIGIT d then local_label_loop true false rest else false
    | _ => false
    end.

Definition bfd_is_local_label (r : struct_symbol) : bool :=
  if has_bsf r (Z.lor BSF_GLOBAL (Z.lor BSF_WEAK (Z.lor BSF_FILE BSF_SECTION_SYM))) then false
  else _bfd_elf_is_local_label_name (bsym_name r).

Definition DOLLAR_LABEL_CHAR : ascii := ascii_of_N 1.
Definition LOCAL_LABEL_CHAR : ascii := ascii_of_N 2.

(** [strchr (name, c)], [c] not being NUL. *)
Fixpoint strchr (name : string) (c : ascii) : bool :=
  match name with EmptyString => false | String d n => Ascii.eqb d c || strchr n c end.

Definition S_IS_LOCAL (flag_keep_locals flag_strip_local_absolute flag_mri : bool) (s : symbolS) : SM bool :=
  c ← LOCAL_SYMBOL_CHECK s;
  match c with
  | inl _ => mret true
  | inr (s, r) =>
      _ ← local_global_check r;
      if decide (bsym_section r = seg_reg) then mret true
      else if flag_strip_local_absolute && negb (has_bsf r (Z.lor BSF_GLOBAL BSF_FILE))
              && bool_decide (bsym_section r = seg_absolute) then mret true
      else
        name ← S_GET_NAME s;
        debug ← S_IS_DEBUG s;
        mret (negb debug
              && (strchr name DOLLAR_LABEL_CHAR || strchr name LOCAL_LABEL_CHAR
                  || (negb flag_keep_locals
                      && (bfd_is_local_label r
                          || (flag_mri && char_at name 0 "?" && char_at name 1 "?")))))
  end.

(** ** Finding and making symbols by name *)
Section lookup.
  Context (flag_keep_locals : bool).

Definition symbol_find_exact_noref (name : string) (noref : bool) : SM (option symbolS) :=
  locsym ← find_local name;
  match locsym with
  | Some _ => mret locsym
  | None =>
      sym ← find_sy name;
      _ ← match sym with
          | Some p => if noref then mret tt else S_CLEAR_WEAKREFD p
          | None => mret tt
          end;
      mret sym
  end.

Definition symbol_find_exact (name : string) : SM (option symbolS) := symbol_find_exact_noref name false.
Definition symbol_find_noref (name : string) (noref : bool) : SM (option symbolS) :=
  symbol_find_exact_noref name noref.
Definition symbol_find (name : string) : SM (option symbolS) := symbol_find_noref name false.

(** [md_undefined_symbol] is the null pointer. *)
Definition symbol_make (name : string) : SM symbolS := symbol_new name seg_undefined 0 zero_address_frag.

Definition symbol_find_or_make (name : string) : SM symbolS :=
  symbolP ← symbol_find name;
  match symbolP with
  | Some p => mret p
  | None =>
      if negb flag_keep_locals && _bfd_elf_is_local_label_name name then
        local_symbol_make name seg_undefined 0 zero_address_frag
      else
        p ← symbol_make name; _ ← symbol_table_insert p; mret p
  end.

(** ** Cloning *)

(** The two static symbols, allocated first. *)
Definition dot_symbol : symbolS := Sym 0.
Definition abs_symbol : symbolS := Sym 1.

(** [symbol_begin] and [dot_symbol_init], on hash tables of [sz] entries. *)
Definition symbol_begin (sz : Z) : syms :=
  mk_syms
    [Real (mk_struct (set_forward_ref true no_flags) "." 0 seg_undefined (mk_expr None None 0 O_constant)
             None None zero_address_frag);
     Real (mk_struct no_flags "*ABS*" BSF_SECTION_SYM seg_absolute (mk_expr None None 0 O_constant)
             None None zero_address_frag)]
    (hash_new_sized sz) (hash_new_sized sz) None None [] false false [] (replicate 10 0) [] [].

(** [*newsymP = *orgsymP] with a BFD symbol of its own. *)
Definition symbol_clone (orgsymP : symbolS) (replace : bool) : SM symbolS :=
  if decide (orgsymP = dot_symbol) then sfail Fabort else
  orgsymP ← converted orgsymP;
  o ← get_real orgsymP;
  newsymP ← alloc (Real (upd_bflags (bclr BSF_SECTION_SYM) o));
  if replace then
    root ← sgets symbol_rootP;
    _ ← (if decide (root = Some orgsymP) then
           smodify (fun st => set_chain (Some newsymP) (symbol_lastP st) st)
         else match sy_previous o with
              | Some p => _ ← upd_real p (set_next (Some newsymP)); upd_real orgsymP (set_previous None)
              | None => mret tt
              end);
    last ← sgets symbol_lastP;
    _ ← (if decide (last = Some orgsymP) then
           smodify (fun st => set_chain (symbol_rootP st) (Some newsymP) st)
         else
           o ← get_real orgsymP;
           match sy_next o with Some n => upd_real n (set_previous (Some newsymP)) | None => mret tt end);
    _ ← S_CLEAR_EXTERNAL orgsymP;
    _ ← upd_real orgsymP (set_next (Some orgsymP));
    _ ← upd_real orgsymP (set_previous (Some orgsymP));
    _ ← symbol_table_insert newsymP;
    mret newsymP
  else
    _ ← S_CLEAR_EXTERNAL newsymP;
    _ ← upd_real newsymP (set_next (Some newsymP));
    _ ← upd_real newsymP (set_previous (Some newsymP));
    mret newsymP.

(** Where the assembler is: [now_seg], [frag_now], [frag_now_fix ()]. *)
Record dot : Type := mk_dot { d_seg : segT; d_frag : fragP; d_fix : Z }.

Definition FAKE_LABEL_NAME : string := String "L" (String "0" (String (ascii_of_N 1) EmptyString)).

Definition symbol_temp_new (seg : segT) (ofs : Z) (frag : fragP) : SM symbolS :=
  symbol_new FAKE_LABEL_NAME seg ofs frag.
Definition symbol_temp_new_now (d : dot) : SM symbolS := symbol_temp_new (d_seg d) (d_fix d) (d_frag d).
Definition symbol_temp_make : SM symbolS := symbol_make FAKE_LABEL_NAME.

Definition symbol_set_value_now (d : dot) (sym : symbolS) : SM unit :=
  _ ← S_SET_SEGMENT sym (d_seg d);
  _ ← S_SET_VALUE sym (d_fix d);
  symbol_set_frag sym (d_frag d).

(** [if (p && S_IS_VOLATILE (p)) p = symbol_find_exact (S_GET_NAME (p))] *)
Definition current_symbol (p : option symbolS) : SM (option symbolS) :=
  match p with
  | None => mret None
  | Some s =>
      v ← S_IS_VOLATILE s;
      if (v : bool) then name ← S_GET_NAME s; symbol_find_exact name else mret (Some s)
  end.

(** The recursion marks the symbols it is in with [sy_resolving]. *)
Fixpoint clone_loop (fuel : nat) (d : dot) (symbolP : option symbolS) (is_forward : bool)
  : SM (option symbolS) :=
  match fuel with
  | O => sfail Floop
  | S n =>
      match symbolP with
      | None => mret None
      | Some s =>
          c ← LOCAL_SYMBOL_CHECK s;
          match c with
          | inl _ => mret (Some s)
          | inr (s, r) =>
              let add_symbol := X_add_symbol (sy_value r) in
              let op_symbol := X_op_symbol (sy_value r) in
              let is_forward := sy_forward_ref (sy_flags r) || is_forward in
              add_symbol ← (if is_forward then current_symbol add_symbol else mret add_symbol);
              op_symbol ← (if is_forward then current_symbol op_symbol else mret op_symbol);
              r ← get_real s;
              ao ← (if (bool_decide (bsym_section r = seg_expr) || sy_forward_ref (sy_flags r))
                       && negb (sy_resolving (sy_flags r)) then
                      _ ← upd_real s (upd_flags (set_resolving true));
                      add_symbol ← clone_loop n d add_symbol is_forward;
                      op_symbol ← clone_loop n d op_symbol is_forward;
                      _ ← upd_real s (upd_flags (set_resolving false));
                      mret (add_symbol, op_symbol)
                    else mret (add_symbol, op_symbol));
              let '(add_symbol, op_symbol) := ao in
              r ← get_real s;
              s ← (if sy_forward_ref (sy_flags r)
                      || negb (bool_decide (add_symbol = X_add_symbol (sy_value r)))
                      || negb (bool_decide (op_symbol = X_op_symbol (sy_value r))) then
                     if decide (s = dot_symbol) then symbol_temp_new_now d
                     else
                       s ← symbol_clone s false;
                       _ ← upd_real s (upd_flags (set_resolving false));
                       mret s
                   else mret s);
              _ ← upd_real s (fun r => set_value (mk_expr add_symbol op_symbol (X_add_number (sy_value r))
                                                   (X_op (sy_value r))) r);
              mret (Some s)
          end
      end
  end.

Definition symbol_clone_if_forward_ref (d : dot) (symbolP : option symbolS) : SM (option symbolS) :=
  n ← sgets (fun st => length (heap st)); clone_loop (S n) d symbolP false.
End lookup.
