(* ===== verification/GasResolve.v ===== *)
(** * The value of a symbol: gas/symbols.c and gas/expr.c

    [resolve_symbol_value] computes the value of a symbol from its expression,
    resolving the symbols in it first; while [finalize_syms] is off it changes
    nothing but sections, at the end of the assembly it stores what it finds.
    [snapshot_symbol] and [resolve_expression] look at the current value without
    storing anything.  Both mark the symbol they are in with [sy_resolving], which
    stops them on a symbol defined by itself.  Then what is built on them:
    [S_GET_VALUE], expression symbols and the fixups of expressions.

    Complex relocations ([OBJ_COMPLEX_RELC]) are not configured and
    [OCTETS_PER_BYTE] is 1.  A [valueT] is an unsigned 64-bit residue, an
    [offsetT] a signed one; their sums and products wrap, as does a left shift. *)
From S2P Require Import Prelude FusionIsa GasHash BfdReloc FusionReloc GasState GasSymbols.
#[local] Open Scope Z_scope.

Section resolve.
  Context (fs : list frag).

(** ** Frags *)
Definition frag_address (f : fragP) : res Z :=
  match f with
  | Frag n => match fs !! n with Some x => Ret (fr_address x) | None => Fail Foob end
  | _ => Ret 0
  end.

(** The walk from the frag [n] on: the offset of the frag [target], if it is
    reached over frags of fixed size. *)
Fixpoint fixed_walk (fuel n target : nat) (off : Z) : res (option Z) :=
  match fuel with
  | O => Fail Floop
  | S k =>
      match fs !! n with
      | None => Fail Foob
      | Some x =>
          match fr_type x with
          | rs_dummy => Ret None
          | rs_fill =>
              let off := off + (fr_fix x + fr_offset x * fr_var x) in
              if decide (length fs <= S n)%nat then Ret None
              else if decide (S n = target) then Ret (Some off)
              else fixed_walk k (S n) target off
          end
      end
  end.

(** The static frags are not linked to any other. *)
Definition frag_offset_fixed_p (frag1 frag2 : fragP) : res (option Z) :=
  let! a1 := frag_address frag1 in
  let! a2 := frag_address frag2 in
  if decide (frag1 = frag2) then Ret (Some (a1 - a2)) else
  match frag1, frag2 with
  | Frag n1, Frag n2 =>
      let! r1 := fixed_walk (length fs) n1 n2 (a1 - a2) in
      match r1 with
      | Some off => Ret (Some off)
      | None =>
          let! r2 := fixed_walk (length fs) n2 n1 (a2 - a1) in
          Ret (option_map Z.opp r2)
      end
  | _, _ => Ret None
  end.

(** ** Arithmetic on two values *)

(** C's truth value of an [offsetT], and its all-ones truth value. *)
Definition c_bool (b : bool) : Z := if b then 1 else 0.
Definition all_ones (b : bool) : Z := if b then -1 else 0.

Definition INT64_MIN : Z := - 2 ^ 63.

(** [left /= right], [left %= right] on [offsetT]. *)
Definition offset_div (left right : Z) : res Z :=
  if right =? 0 then Fail Fdiv0
  else if (left =? INT64_MIN) && (right =? -1) then Fail Fub else Ret (Z.quot left right).
Definition offset_rem (left right : Z) : res Z :=
  if right =? 0 then Fail Fdiv0
  else if (left =? INT64_MIN) && (right =? -1) then Fail Fub else Ret (Z.rem left right).

Definition shift_ok (count : Z) : bool := (0 <=? count) && (count <? 64).

(** The second [switch] of [resolve_symbol_value] on [offsetT] operands, less
    [O_eq] and [O_ne]; [None] is its [default]. *)
Definition resolve_arith (op : operatorT) (left right : Z) : option (res Z) :=
  match op with
  | O_multiply => Some (Ret (s64 (left * right)))
  | O_divide => Some (offset_div left right)
  | O_modulus => Some (offset_rem left right)
  | O_left_shift => Some (if shift_ok right then Ret (s64 (Z.shiftl left right)) else Fail Fub)
  | O_right_shift => Some (if shift_ok right then Ret (Z.shiftr left right) else Fail Fub)
  | O_bit_inclusive_or => Some (Ret (Z.lor left right))
  | O_bit_or_not => Some (Ret (Z.lor left (Z.lnot right)))
  | O_bit_exclusive_or => Some (Ret (Z.lxor left right))
  | O_bit_and => Some (Ret (Z.land left right))
  | O_add => Some (Ret (s64 (left + right)))
  | O_subtract => Some (Ret (s64 (left - right)))
  | O_lt => Some (Ret (all_ones (left <? right)))
  | O_le => Some (Ret (all_ones (left <=? right)))
  | O_ge => Some (Ret (all_ones (right <=? left)))
  | O_gt => Some (Ret (all_ones (right <? left)))
  | O_logical_and => Some (Ret (c_bool (negb (left =? 0) && negb (right =? 0))))
  | O_logical_or => Some (Ret (c_bool (negb (left =? 0) || negb (right =? 0))))
  | _ => None
  end.

Definition is_unary (op : operatorT) : bool :=
  match op with O_uminus | O_bit_not | O_logical_not => true | _ => false end.

Definition is_binary (op : operatorT) : bool :=
  match op with
  | O_multiply | O_divide | O_modulus | O_left_shift | O_right_shift | O_bit_inclusive_or
  | O_bit_or_not | O_bit_exclusive_or | O_bit_and | O_add | O_subtract | O_eq | O_ne | O_lt
  | O_le | O_ge | O_gt | O_logical_and | O_logical_or => true
  | _ => false
  end.

Definition is_order (op : operatorT) : bool :=
  match op with O_lt | O_le | O_ge | O_gt => true | _ => false end.
Definition is_eq_ne (op : operatorT) : bool := match op with O_eq | O_ne => true | _ => false end.

(** ** Error reports *)
Definition expr_symbol_where (sym : symbolS) : SM bool :=
  sgets (fun st => bool_decide (sym ∈ expr_symbol_lines st)).

(** The operator's name is part of the message only. *)
Definition report_op_error (symp : symbolS) (left : option symbolS) (right : symbolS) : SM unit :=
  _ ← match left with Some l => _ ← S_GET_SEGMENT l; mret tt | None => mret tt end;
  _ ← S_GET_SEGMENT right;
  known ← expr_symbol_where symp;
  s_bad (match left, (known : bool) with
         | Some _, true => "invalid operands (%s and %s sections) for `%s'"
         | None, true => "invalid operand (%s section) for `%s'"
         | Some _, false => "invalid operands (%s and %s sections) for `%s' when setting `%s'"
         | None, false => "invalid operand (%s section) for `%s' when setting `%s'"
         end)%string.

Definition report_div_by_zero (symp : symbolS) : SM unit :=
  known ← expr_symbol_where symp;
  s_bad (if (known : bool) then "division by zero" else "division by zero when setting `%s'")%string.

(** ** Resolving a symbol *)

(** How the [switch] over the operator ends: [o_set] is a [break],
    its absence [goto exit_dont_set_value]. *)
Record outcome : Type := mk_out { o_set : bool; o_val : Z; o_seg : segT; o_resolved : bool }.

Definition set_X (op : operatorT) (add op_symbol : option symbolS) (n : Z) (r : struct_symbol) : struct_symbol :=
  set_value (mk_expr add op_symbol n op) r.

Definition undecided (seg : segT) : bool := bool_decide (seg = seg_expr) || bool_decide (seg = seg_undefined).

(** [if (S_IS_WEAKREFR (symp)) ...]: the symbol meant. *)
Definition through_weakref (symp add_symbol : symbolS) (final_val : Z) : SM symbolS :=
  weak ← S_IS_WEAKREFR symp;
  if (weak : bool) then
    _ ← sassert (final_val =? 0);
    weak' ← S_IS_WEAKREFR add_symbol;
    if (weak' : bool) then
      a ← get_real add_symbol;
      _ ← sassert (X_op_is (sy_value a) O_symbol && (X_add_number (sy_value a) =? 0));
      add_symbol ← add_symbol_of a;
      weak'' ← S_IS_WEAKREFR add_symbol;
      _ ← sassert (negb weak'');
      _ ← upd_real symp (fun r => set_X (X_op (sy_value r)) (Some add_symbol) (X_op_symbol (sy_value r))
                                    (X_add_number (sy_value r)) r);
      mret add_symbol
    else mret add_symbol
  else mret add_symbol.

(** [symp->sy_frag->fr_address], [symp] being real. *)
Definition address_of (symp : symbolS) : SM Z := r ← get_real symp; slift (frag_address (sy_frag r)).

Definition not_resolving (symp : symbolS) : SM unit := upd_real symp (upd_flags (set_resolving false)).

(** The code from the label [do_symbol] on. *)
Definition do_symbol (symp add_symbol : symbolS) (final_val : Z) (final_seg : segT) (left : Z)
    (seg_left : segT) : SM outcome :=
  finalize ← sgets finalize_syms;
  add_symbol ← through_weakref symp add_symbol final_val;
  r ← get_real symp;
  if sy_mri_common (sy_flags r) then
    resolved ← symbol_resolved_p add_symbol; mret (mk_out true final_val final_seg resolved)
  else
  add_symbol ← (if finalize && (final_val =? 0) then
                  add_symbol ← converted add_symbol;
                  _ ← copy_symbol_attributes symp add_symbol;
                  mret add_symbol
                else mret add_symbol);
  defined ← S_IS_DEFINED add_symbol;
  common ← S_IS_COMMON add_symbol;
  let equate := upd_real symp (set_X O_symbol (Some add_symbol) (Some add_symbol) (s64 final_val)) in
  if negb defined || common then
    _ ← swhen finalize equate;
    resolved ← symbol_resolved_p add_symbol;
    _ ← not_resolving symp;
    mret (mk_out false 0 seg_left resolved)
  else
  shadow ← symbol_shadow_p symp;
  address ← address_of symp;
  let value := u64 (final_val + address + left) in
  if finalize && ((bool_decide (final_seg = seg_expr) && negb (bool_decide (seg_left = seg_expr)))
                  || shadow) then
    _ ← equate;
    resolved ← symbol_resolved_p add_symbol;
    _ ← not_resolving symp;
    mret (mk_out false value seg_left resolved)
  else
  let final_seg := if undecided final_seg then seg_left else final_seg in
  resolved ← symbol_resolved_p add_symbol;
  weak ← S_IS_WEAKREFR symp;
  if (weak : bool) then _ ← not_resolving symp; mret (mk_out false value final_seg resolved)
  else mret (mk_out true value final_seg resolved).

(** What follows once the operands of a unary operator have a value. *)
Definition do_unary (symp add_symbol : symbolS) (op : operatorT) (final_val : Z) (final_seg : segT)
    (left : Z) (seg_left : segT) : SM outcome :=
  finalize ← sgets finalize_syms;
  _ ← swhen (negb (bool_decide (op = O_logical_not)) && negb (bool_decide (seg_left = seg_absolute))
             && finalize) (report_op_error symp None add_symbol);
  let final_seg := if undecided final_seg then seg_absolute else final_seg in
  let left := match op with
              | O_uminus => s64 (- left) | O_logical_not => c_bool (left =? 0) | _ => Z.lnot left
              end in
  address ← address_of symp;
  resolved ← symbol_resolved_p add_symbol;
  mret (mk_out true (u64 (final_val + (left + address))) final_seg resolved).

(** The operands a binary operator accepts without an error. *)
Definition operands_ok (op : operatorT) (seg_left seg_right : segT) (same : bool) : bool :=
  (bool_decide (seg_left = seg_absolute) && bool_decide (seg_right = seg_absolute))
  || is_eq_ne op
  || ((bool_decide (op = O_subtract) || is_order op) && bool_decide (seg_left = seg_right)
      && (negb (bool_decide (seg_left = seg_undefined)) || same)).

(** What follows once both operands of a binary operator have a value, less the
    additions and subtractions of a constant. *)
Definition do_binary (symp add_symbol op_symbol : symbolS) (op : operatorT) (final_val : Z)
    (final_seg : segT) (left right : Z) (seg_left seg_right : segT) : SM outcome :=
  finalize ← sgets finalize_syms;
  let same := bool_decide (add_symbol = op_symbol) in
  let ok := operands_ok op seg_left seg_right same in
  _ ← swhen (negb ok && finalize) (report_op_error symp (Some add_symbol) op_symbol);
  let move_seg_ok := ok || finalize in
  let final_seg := if move_seg_ok && undecided final_seg then seg_absolute else final_seg in
  let div0 := (bool_decide (op = O_divide) || bool_decide (op = O_modulus)) && (right =? 0) in
  _ ← swhen (div0 && bool_decide (seg_right = seg_absolute) && finalize) (report_div_by_zero symp);
  let right := if div0 then 1 else right in
  r ← get_real symp;
  let finish left :=
    address ← address_of symp;
    let final_seg :=
      if undecided final_seg then
        if bool_decide (seg_left = seg_undefined) || bool_decide (seg_right = seg_undefined)
        then seg_undefined
        else if bool_decide (seg_left = seg_absolute) then seg_right else seg_left
      else final_seg in
    resolved ← symbol_resolved_p add_symbol;
    resolved' ← (if (resolved : bool) then symbol_resolved_p op_symbol else mret false);
    mret (mk_out true (u64 (final_val + (address + left))) final_seg resolved') in
  match X_op (sy_value r) with
  | O_eq | O_ne =>
      let eq := all_ones ((left =? right) && bool_decide (seg_left = seg_right)
                          && (negb (bool_decide (seg_left = seg_undefined)) || same)) in
      finish (if X_op_is (sy_value r) O_ne then Z.lnot eq else eq)
  | O_illegal | O_absent | O_constant =>
      _ ← s_bad "Invalid operation on symbol"; mret (mk_out false final_val final_seg false)
  | op =>
      match resolve_arith op left right with
      | Some v => lv ← slift v; finish lv
      | None => sfail Fabort
      end
  end.

Definition need (p : option symbolS) : SM symbolS := match p with Some s => mret s | None => sfail Foob end.

(** The [switch] over the operator of [symp], whose [sy_value] is that of [r];
    [rec] is [resolve_symbol_value]. *)
Definition own_part (rec : symbolS -> SM Z) (symp : symbolS) (r : struct_symbol) (final_seg : segT) : SM outcome :=
  let op := X_op (sy_value r) in
  let final_val := u64 (X_add_number (sy_value r)) in
  match op with
  | O_absent | O_constant =>
      address ← address_of symp;
      let final_val := u64 ((if decide (op = O_absent) then 0 else final_val) + address) in
      mret (mk_out true final_val (if decide (final_seg = seg_expr) then seg_absolute else final_seg) true)
  | O_register => mret (mk_out true final_val final_seg true)
  | O_big | O_illegal => mret (mk_out true final_val final_seg false)
  | O_symbol | O_symbol_rva =>
      finalize ← sgets finalize_syms;
      add_symbol ← need (X_add_symbol (sy_value r));
      lv ← rec add_symbol;
      seg_left ← S_GET_SEGMENT add_symbol;
      _ ← swhen finalize
            (upd_real symp (fun r => set_X (X_op (sy_value r)) (X_add_symbol (sy_value r)) None
                                       (X_add_number (sy_value r)) r));
      do_symbol symp add_symbol final_val final_seg (s64 lv) seg_left
  | _ =>
      if is_unary op then
        add_symbol ← need (X_add_symbol (sy_value r));
        lv ← rec add_symbol;
        seg_left ← S_GET_SEGMENT add_symbol;
        do_unary symp add_symbol op final_val final_seg (s64 lv) seg_left
      else if is_binary op then
        add_symbol ← need (X_add_symbol (sy_value r));
        lv ← rec add_symbol;
        op_symbol ← need (X_op_symbol (sy_value r));
        rv ← rec op_symbol;
        seg_left ← S_GET_SEGMENT add_symbol;
        seg_right ← S_GET_SEGMENT op_symbol;
        let left := s64 lv in
        let right := s64 rv in
        if bool_decide (op = O_add) && bool_decide (seg_right = seg_absolute) then
          do_symbol symp add_symbol (u64 (final_val + right)) final_seg left seg_left
        else if bool_decide (op = O_add) && bool_decide (seg_left = seg_absolute) then
          do_symbol symp op_symbol (u64 (final_val + left)) final_seg right seg_right
        else if bool_decide (op = O_subtract) && bool_decide (seg_right = seg_absolute) then
          do_symbol symp add_symbol (u64 (final_val - right)) final_seg left seg_left
        else do_binary symp add_symbol op_symbol op final_val final_seg left right seg_left seg_right
      else sfail (Ffatal "Case value unexpected")
  end.

(** The end of the call: the value, the section and the mark. *)
Definition settle (symp : symbolS) (finalize : bool) (out : outcome) : SM Z :=
  _ ← swhen (o_set out && finalize) (S_SET_VALUE symp (o_val out));
  _ ← S_SET_SEGMENT symp (o_seg out);
  _ ← swhen finalize
        (if o_resolved out then upd_real symp (upd_flags (set_resolved true))
         else
           seg ← S_GET_SEGMENT symp;
           if decide (seg = seg_expr) then mret tt
           else
             _ ← s_bad "can't resolve value for symbol `%s'";
             upd_real symp (upd_flags (set_resolved true)));
  mret (o_val out).

Fixpoint resolve_loop (fuel : nat) (symp : symbolS) : SM Z :=
  match fuel with
  | O => sfail Floop
  | S n =>
      finalize ← sgets finalize_syms;
      c ← LOCAL_SYMBOL_CHECK symp;
      match c with
      | inl locsym =>
          if lsy_resolved locsym then mret (lsy_value locsym) else
          f ← local_symbol_get_frag locsym;
          a ← slift (frag_address f);
          let final_val := u64 (lsy_value locsym + a) in
          _ ← swhen finalize
                (put_sym symp (Local (mk_local true (lsy_section locsym) (lsy_name locsym) (lsy_u locsym)
                                        final_val)));
          mret final_val
      | inr (symp, r) =>
          if sy_resolved (sy_flags r) then
            mret (if X_op_is (sy_value r) O_constant then u64 (X_add_number (sy_value r)) else 0)
          else
          final_seg ← S_GET_SEGMENT symp;
          out ←
            (if sy_resolving (sy_flags r) then
               _ ← swhen finalize (s_bad "symbol definition loop encountered at `%s'");
               mret (mk_out true 0 final_seg true)
             else
               _ ← upd_real symp (upd_flags (set_resolving true));
               out ← own_part (resolve_loop n) symp r final_seg;
               _ ← swhen (o_set out) (not_resolving symp);
               mret out);
          settle symp finalize out
      end
  end.

(** The symbols [resolve_symbol_value] can be called into: real symbols that are
    not being resolved, and local ones, which it may convert. *)
Definition enterable (x : symbol) : bool :=
  match x with
  | Local l => negb (local_symbol_converted_p l)
  | Real r => negb (sy_resolving (sy_flags r))
  end.

Definition pending (st : syms) : nat := length (filter (fun x => enterable x = true) (heap st)).

Definition resolve_symbol_value (symp : symbolS) : SM Z :=
  n ← sgets pending; resolve_loop (S n) symp.

Fixpoint get_value_loop (fuel : nat) (s : symbolS) : SM Z :=
  match fuel with
  | O => sfail Floop
  | S n =>
      finalize ← sgets finalize_syms;
      c ← LOCAL_SYMBOL_CHECK s;
      match c with
      | inl _ => resolve_symbol_value s
      | inr (s, r) =>
          val ← (if sy_resolved (sy_flags r) then mret None else
                 val ← resolve_symbol_value s; mret (if (finalize : bool) then None else Some val));
          match val with
          | Some val => mret val
          | None =>
              weak ← S_IS_WEAKREFR s;
              r ← get_real s;
              if (weak : bool) then a ← add_symbol_of r; get_value_loop n a
              else
                defined ← S_IS_DEFINED s;
                common ← S_IS_COMMON s;
                _ ← swhen (negb (X_op_is (sy_value r) O_constant)
                           && (negb (sy_resolved (sy_flags r)) || negb (X_op_is (sy_value r) O_symbol)
                               || (defined && negb common)))
                      (s_bad "attempt to get value of unresolved symbol `%s'");
                mret (u64 (X_add_number (sy_value r)))
          end
      end
  end.

(** The recursion follows weak references. *)
Definition S_GET_VALUE (s : symbolS) : SM Z :=
  n ← sgets (fun st => length (heap st)); get_value_loop (S (S n)) s.

(** ** The current value of a symbol and of an expression *)

(** [(valueT) x op (valueT) y] for the operators of [resolve_expression], [None]
    being its [default]. *)
Definition snapshot_arith (op : operatorT) (left right : Z) : option (res Z) :=
  match op with
  | O_add => Some (Ret (u64 (left + right)))
  | O_subtract => Some (Ret (u64 (left - right)))
  | O_multiply => Some (Ret (u64 (left * right)))
  | O_divide => Some (let! q := offset_div (s64 left) (s64 right) in Ret (u64 q))
  | O_modulus => Some (let! q := offset_rem (s64 left) (s64 right) in Ret (u64 q))
  | O_left_shift => Some (if shift_ok right then Ret (u64 (Z.shiftl left right)) else Fail Fub)
  | O_right_shift => Some (if shift_ok right then Ret (Z.shiftr left right) else Fail Fub)
  | O_bit_inclusive_or => Some (Ret (Z.lor left right))
  | O_bit_or_not => Some (Ret (Z.lor left (u64 (Z.lnot right))))
  | O_bit_exclusive_or => Some (Ret (Z.lxor left right))
  | O_bit_and => Some (Ret (Z.land left right))
  | O_lt => Some (Ret (u64 (all_ones (s64 left <? s64 right))))
  | O_le => Some (Ret (u64 (all_ones (s64 left <=? s64 right))))
  | O_ge => Some (Ret (u64 (all_ones (s64 right <=? s64 left))))
  | O_gt => Some (Ret (u64 (all_ones (s64 right <? s64 left))))
  | O_logical_and => Some (Ret (c_bool (negb (left =? 0) && negb (right =? 0))))
  | O_logical_or => Some (Ret (c_bool (negb (left =? 0) || negb (right =? 0))))
  | _ => None
  end.

(** A symbol as [snapshot_symbol] reports it: [*symbolPP], [*valueP], [*segP],
    [*fragPP]. *)
Record view : Type := mk_view { v_sym : symbolS; v_val : Z; v_seg : segT; v_frag : fragP }.

(** What [resolve_expression] makes of two views: the operator stays ([ToConst])
    or one operand is the answer ([Keep], with the operand, its original symbol
    and the addition to [final_val]). *)
Inductive combined : Type :=
| Keep (v : view) (orig : option symbolS) (final_val : Z)
| ToConst (left : Z).

(** The identities on operands that are not both absolute, up to the second
    [switch]: [Some] is a decision ([None] inside it [return 0]). *)
Definition identities (op : operatorT) (l r : view) (add0 op0 : option symbolS) (final_val : Z)
  : option (option combined) :=
  let abs v := bool_decide (v_seg v = seg_absolute) in
  let same := bool_decide (v_sym l = v_sym r) in
  let keep_l := Some (Some (Keep l add0 final_val)) in
  let keep_r := Some (Some (Keep r op0 final_val)) in
  if (abs l && (v_val l =? 0)) || (abs r && (v_val r =? 0)) then
    match op with
    | O_bit_exclusive_or | O_bit_inclusive_or => if abs r && (v_val r =? 0) then keep_l else keep_r
    | O_left_shift | O_right_shift => if abs l && (v_val l =? 0) then None else keep_l
    | O_multiply | O_bit_or_not | O_bit_and => None
    | _ => Some None
    end
  else if bool_decide (op = O_multiply) && abs l && (v_val l =? 1) then keep_r
  else if (bool_decide (op = O_multiply) || bool_decide (op = O_divide)) && abs r && (v_val r =? 1) then keep_l
  else if negb ((v_val l =? v_val r)
                && ((bool_decide (v_seg l = seg_reg) && bool_decide (v_seg r = seg_reg))
                    || (bool_decide (v_seg l = seg_undefined) && bool_decide (v_seg r = seg_undefined) && same)))
  then Some None
  else match op with
       | O_bit_and | O_bit_inclusive_or => keep_l
       | O_bit_exclusive_or | O_bit_or_not => None
       | _ => Some None
       end.

Definition combine (finalize : bool) (op : operatorT) (l r : view) (add0 op0 : option symbolS) (final_val : Z)
  : res (option combined) :=
  let abs v := bool_decide (v_seg v = seg_absolute) in
  let same := bool_decide (v_sym l = v_sym r) in
  if bool_decide (op = O_add) && abs r then Ret (Some (Keep l add0 (u64 (final_val + v_val r))))
  else if bool_decide (op = O_add) && abs l then Ret (Some (Keep r op0 (u64 (final_val + v_val l))))
  else if bool_decide (op = O_subtract) && abs r then Ret (Some (Keep l add0 (u64 (final_val - v_val r))))
  else
    let! off :=
      (if (bool_decide (op = O_subtract) || is_order op) && bool_decide (v_seg l = v_seg r)
          && negb (abs l && abs r) && negb finalize
       then frag_offset_fixed_p (v_frag l) (v_frag r) else Ret (Some 0)) in
    let ordered :=
      (bool_decide (op = O_subtract) || is_order op) && bool_decide (v_seg l = v_seg r)
      && bool_decide (is_Some off)
      && (negb (bool_decide (v_seg l = seg_reg)) || (v_val l =? v_val r))
      && (negb (bool_decide (v_seg l = seg_undefined)) || same) in
    let decision :=
      if (abs l && abs r) || is_eq_ne op || ordered then None else identities op l r add0 op0 final_val in
    match decision with
    | Some d => Ret d
    | None =>
        let left := v_val l in
        let right := u64 (v_val r + default 0 off) in
        if is_eq_ne op then
          let eq := u64 (all_ones ((left =? right) && bool_decide (v_seg l = v_seg r)
                          && (finalize || bool_decide (v_frag l = v_frag r))
                          && (negb (bool_decide (v_seg l = seg_undefined)) || same))) in
          Ret (Some (ToConst (if decide (op = O_ne) then u64 (Z.lnot eq) else eq)))
        else if (bool_decide (op = O_divide) || bool_decide (op = O_modulus)) && (right =? 0) then Ret None
        else
          match snapshot_arith op left right with
          | Some v => let! lv := v in Ret (Some (ToConst lv))
          | None => Fail Fabort
          end
    end.

(** The end of [resolve_expression]. *)
Definition finish_symbol (e : expressionS) (v : view) (orig : option symbolS) (final_val : Z)
  : SM (option expressionS) :=
  orig ← need orig;
  if decide (v_seg v = seg_absolute) then
    mret (Some (mk_expr (Some (v_sym v)) (X_op_symbol e) (s64 (final_val + v_val v)) O_constant))
  else if decide (v_seg v = seg_reg /\ final_val = 0) then
    mret (Some (mk_expr (Some (v_sym v)) (X_op_symbol e) (s64 (final_val + v_val v)) O_register))
  else
    same ← symbol_same_p (v_sym v) orig;
    mret (Some (mk_expr (Some (v_sym v)) (X_op_symbol e)
                  (s64 (if (same : bool) then final_val else final_val + v_val v)) O_symbol)).

Definition finish_const (e : expressionS) (final_val left : Z) : option expressionS :=
  Some (mk_expr (X_add_symbol e) (X_op_symbol e) (s64 (final_val + left)) O_constant).

(** [resolve_expression], given [snapshot_symbol]: [None] is [return 0], and the
    expression is changed only by [return 1]. *)
Definition expression_with (snap : symbolS -> SM (option view)) (e : expressionS)
  : SM (option expressionS) :=
  let final_val := u64 (X_add_number e) in
  match X_op e with
  | O_constant | O_register => mret (Some e)
  | O_symbol =>
      s ← need (X_add_symbol e);
      l ← snap s;
      match l with
      | None => mret None
      | Some v => finish_symbol e v (X_add_symbol e) final_val
      end
  | O_symbol_rva =>
      s ← need (X_add_symbol e);
      l ← snap s;
      mret (match l with None => None | Some _ => Some e end)
  | op =>
      if is_unary op then
        s ← need (X_add_symbol e);
        l ← snap s;
        match l with
        | None => mret None
        | Some v =>
            if decide (v_seg v = seg_absolute) then
              mret (finish_const e final_val
                      (match op with
                       | O_logical_not => c_bool (v_val v =? 0) | O_uminus => u64 (- v_val v)
                       | _ => u64 (Z.lnot (v_val v))
                       end))
            else mret None
        end
      else if is_binary op then
        s ← need (X_add_symbol e);
        l ← snap s;
        match l with
        | None => mret None
        | Some l =>
            s' ← need (X_op_symbol e);
            r ← snap s';
            match r with
            | None => mret None
            | Some r =>
                finalize ← sgets finalize_syms;
                c ← slift (combine finalize op l r (X_add_symbol e) (X_op_symbol e) final_val);
                match c with
                | None => mret None
                | Some (Keep v orig final_val) => finish_symbol e v orig final_val
                | Some (ToConst lv) => mret (finish_const e final_val lv)
                end
            end
        end
      else mret None
  end.

(** What [snapshot_symbol] reports of [symbolP], [exp] being its value. *)
Definition view_of (symbolP : symbolS) (exp : expressionS) : SM view :=
  c ← LOCAL_SYMBOL_CHECK symbolP;
  v ← match c with
      | inl l => f ← local_symbol_get_frag l; mret (mk_view symbolP (lsy_value l) (lsy_section l) f)
      | inr (p, r) => mret (mk_view symbolP (u64 (X_add_number exp)) (bsym_section r) (sy_frag r))
      end;
  mret (if decide (v_seg v = seg_expr) then
          match X_op exp with
          | O_constant => mk_view (v_sym v) (v_val v) seg_absolute (v_frag v)
          | O_register => mk_view (v_sym v) (v_val v) seg_reg (v_frag v)
          | _ => v
          end
        else v).

Fixpoint snapshot_loop (fuel : nat) (symbolP : symbolS) : SM (option view) :=
  match fuel with
  | O => sfail Floop
  | S n =>
      c ← LOCAL_SYMBOL_CHECK symbolP;
      match c with
      | inl l => f ← local_symbol_get_frag l; mret (Some (mk_view symbolP (lsy_value l) (lsy_section l) f))
      | inr (symbolP, r) =>
          let exp := sy_value r in
          if negb (sy_resolved (sy_flags r)) && negb (X_op_is exp O_illegal) then
            if sy_resolving (sy_flags r) then mret None else
            _ ← upd_real symbolP (upd_flags (set_resolving true));
            resolved ← expression_with (snapshot_loop n) exp;
            _ ← upd_real symbolP (upd_flags (set_resolving false));
            match resolved with
            | None => mret None
            | Some exp =>
                equated ← symbol_equated_p symbolP;
                match X_op exp with
                | O_constant | O_register =>
                    if (equated : bool) then
                      s ← need (X_add_symbol exp); v ← view_of s exp; mret (Some v)
                    else v ← view_of symbolP exp; mret (Some v)
                | O_symbol | O_symbol_rva => s ← need (X_add_symbol exp); v ← view_of s exp; mret (Some v)
                | _ => mret None
                end
            end
          else v ← view_of symbolP exp; mret (Some v)
      end
  end.

Definition snapshot_symbol (symbolP : symbolS) : SM (option view) :=
  n ← sgets pending; snapshot_loop (S n) symbolP.

Definition resolve_expression (e : expressionS) : SM (option expressionS) :=
  n ← sgets pending; expression_with (snapshot_loop (S n)) e.

(** ** Expression symbols (expr.c) *)

(** [as_where] is part of the diagnostics only. *)
Definition make_expr_symbol (e : expressionS) : SM (option symbolS) :=
  if X_op_is e O_symbol && (X_add_number e =? 0) then mret (X_add_symbol e) else
  e ← (if X_op_is e O_big then
         _ ← s_bad (if 0 <? X_add_number e then "bignum invalid" else "floating point number invalid");
         mret (mk_expr None None 0 O_constant)
       else mret e);
  symbolP ← symbol_create FAKE_LABEL_NAME
              (match X_op e with O_constant => seg_absolute | O_register => seg_reg | _ => seg_expr end)
              0 zero_address_frag;
  _ ← symbol_set_value_expression symbolP e;
  _ ← (if X_op_is e O_constant then _ ← resolve_symbol_value symbolP; mret tt else mret tt);
  _ ← smodify (fun st => set_lines (symbolP :: expr_symbol_lines st) st);
  mret (Some symbolP).

Definition expr_build_uconstant (value : Z) : SM (option symbolS) :=
  make_expr_symbol (mk_expr None None value O_constant).
End resolve.

(** ** The symbol table of the assembler *)

(** A symbol operation as part of the assembler: its diagnostics go to the
    assembler's log. *)
Definition with_syms {A : Type} (m : list frag -> SM A) : M A :=
  fun g =>
    let! r := m (frags g) (set_sy_log (log g) (symtab g)) in
    Ret (r.1, set_log (sy_log r.2) (set_symtab (set_sy_log [] r.2) g)).

(** ** The fixup of an expression (write.c) *)

(** [exp] is also an output: an [O_add] is rewritten into a symbol, and the
    call repeated (once: the operator is [O_symbol] then). *)
Definition fix_new_exp (frag : option nat) (where_ size : Z) (exp : expressionS) (pcrel : bool)
    (r_type : bfd_reloc_code_real) : M (nat * expressionS) :=
  let new add sub off r exp :=
    i ← fix_new_internal frag where_ size add sub off pcrel r; mret (i, exp) in
  match X_op exp with
  | O_absent => new None None 0 r_type exp
  | O_register => _ ← as_bad "register value used as expression"; new None None 0 r_type exp
  | O_add =>
      stmp ← with_syms (fun fs => make_expr_symbol fs exp);
      new stmp None 0 r_type (mk_expr stmp None 0 O_symbol)
  | O_symbol_rva => new (X_add_symbol exp) None (X_add_number exp) BFD_RELOC_RVA exp
  | O_uminus => new None (X_add_symbol exp) (X_add_number exp) r_type exp
  | O_subtract => new (X_add_symbol exp) (X_op_symbol exp) (X_add_number exp) r_type exp
  | O_symbol => new (X_add_symbol exp) None (X_add_number exp) r_type exp
  | O_constant => new None None (X_add_number exp) r_type exp
  | _ => add ← with_syms (fun fs => make_expr_symbol fs exp); new add None 0 r_type exp
  end.
