(* ===== verification/GasSymbolsOk.v ===== *)
(** * The symbol table stays well formed

    [syms_ok]: every pointer in a symbol leads to a symbol, those that must lead
    to a real symbol do, a converted local symbol has its real one and the other
    local symbols have a frag; every operator has its operands.  [later st st']:
    what later states keep of earlier ones.  The rules for the symbol operations
    are in the form of weakest preconditions, with the faults that are let
    through as a parameter. *)
From S2P Require Import Prelude FusionIsa GasHash BfdReloc FusionReloc GasState GasSymbols GasResolve.
#[local] Open Scope Z_scope.

(** ** Weakest preconditions *)
Definition wp {A : Type} (F : fault -> Prop) (m : SM A) (st : syms) (Q : A -> syms -> Prop) : Prop :=
  match m st with Ret (a, st') => Q a st' | Fail f => F f end.

Lemma wp_bind {A B : Type} (F : fault -> Prop) (m : SM A) (k : A -> SM B) (st : syms)
    (Q : B -> syms -> Prop) :
  wp F m st (fun a st' => wp F (k a) st' Q) -> wp F (m ≫= k) st Q.
Proof. unfold wp, mbind, SM_bind. by destruct (m st) as [[a st']|f]. Qed.

Lemma wp_mono {A : Type} (F : fault -> Prop) (m : SM A) (st : syms) (P Q : A -> syms -> Prop) :
  wp F m st P -> (forall a st', P a st' -> Q a st') -> wp F m st Q.
Proof. unfold wp. destruct (m st) as [[a st']|f]; auto. Qed.

(** A step of a sequence, by its rule. *)
Lemma wp_step {A B : Type} (F : fault -> Prop) (m : SM A) (k : A -> SM B) (st : syms)
    (P : A -> syms -> Prop) (Q : B -> syms -> Prop) :
  wp F m st P -> (forall a st', P a st' -> wp F (k a) st' Q) -> wp F (m ≫= k) st Q.
Proof. intros Hm Hk. apply wp_bind. by eapply wp_mono. Qed.

Lemma sbind_ret {A B : Type} (m : SM A) (k : A -> SM B) (st st' : syms) (a : A) :
  m st = Ret (a, st') -> (m ≫= k) st = k a st'.
Proof. unfold mbind, SM_bind. by intros ->. Qed.

Lemma wp_eq {A B : Type} (F : fault -> Prop) (m : SM A) (k : A -> SM B) (st st' : syms) (a : A)
    (Q : B -> syms -> Prop) :
  m st = Ret (a, st') -> wp F (k a) st' Q -> wp F (m ≫= k) st Q.
Proof. unfold wp. intros H. by rewrite (sbind_ret _ _ _ _ _ H). Qed.

Lemma wp_ret {A : Type} (F : fault -> Prop) (a : A) (st : syms) (Q : A -> syms -> Prop) :
  Q a st -> wp F (mret a) st Q.
Proof. done. Qed.

(** The first step is a read of the state. *)
Lemma wp_gets {A B : Type} (F : fault -> Prop) (f : syms -> A) (k : A -> SM B) (st : syms)
    (Q : B -> syms -> Prop) :
  wp F (k (f st)) st Q -> wp F (sgets f ≫= k) st Q.
Proof. done. Qed.

(** ** Well-formed symbols *)
(** The operators whose value C may leave undefined. *)
Definition risky (op : operatorT) : bool :=
  match op with O_divide | O_modulus | O_left_shift | O_right_shift => true | _ => false end.

(** [calm]: no symbol's value has such an operator. *)
Section ok.
  Context (fs : list frag) (calm : bool).

Definition at_ (h : list symbol) (p : symbolS) : option symbol := let 'Sym i := p in h !! i.
Definition ptr_in (h : list symbol) (p : symbolS) : Prop := is_Some (at_ h p).
Definition real_in (h : list symbol) (p : symbolS) : Prop := exists r, at_ h p = Some (Real r).
Definition opt (P : symbolS -> Prop) (p : option symbolS) : Prop := match p with Some s => P s | None => True end.

Definition frag_ok (f : fragP) : Prop := match f with Frag n => is_Some (fs !! n) | _ => True end.

(** The operator is one the resolution knows and has its operands. *)
Definition value_ok (h : list symbol) (e : expressionS) : Prop :=
  (calm = true -> risky (X_op e) = false) /\
  opt (ptr_in h) (X_add_symbol e) /\ opt (ptr_in h) (X_op_symbol e) /\
  match X_op e with
  | O_absent | O_constant | O_register | O_big | O_illegal => True
  | O_symbol | O_symbol_rva => is_Some (X_add_symbol e)
  | op => (is_unary op = true /\ is_Some (X_add_symbol e))
          \/ (is_binary op = true /\ is_Some (X_add_symbol e) /\ is_Some (X_op_symbol e))
  end.

(** A section symbol keeps a constant value, in its own section. *)
Definition section_sym_ok (r : struct_symbol) : Prop :=
  has_bsf r BSF_SECTION_SYM = true -> X_op (sy_value r) = O_constant /\ bsym_section r <> seg_expr.

Record real_ok (h : list symbol) (r : struct_symbol) : Prop := {
  rk_value : value_ok h (sy_value r);
  rk_next : opt (real_in h) (sy_next r);
  rk_prev : opt (real_in h) (sy_previous r);
  rk_frag : frag_ok (sy_frag r);
  rk_weak : sy_weakrefr (sy_flags r) = false;
  rk_section : section_sym_ok r
}.

Definition local_ok (h : list symbol) (l : local_symbol) : Prop :=
  if local_symbol_converted_p l
  then exists p, lsy_u l = lsy_sym p /\ real_in h p
  else exists f, lsy_u l = lsy_frag f /\ frag_ok f.

Definition entry_ok (h : list symbol) (x : symbol) : Prop :=
  match x with Local l => local_ok h l | Real r => real_ok h r end.

Definition table_ok (h : list symbol) (t : @hash_control (option symbolS)) : Prop :=
  hash_ok t /\ forall name p, hash_map t !! name = Some (Some p) -> ptr_in h p.

Record syms_ok (st : syms) : Prop := {
  so_heap : Forall (entry_ok (heap st)) (heap st);
  so_root : opt (real_in (heap st)) (symbol_rootP st);
  so_last : opt (real_in (heap st)) (symbol_lastP st);
  so_sy : table_ok (heap st) (sy_hash st);
  so_local : table_ok (heap st) (local_hash st)
}.

(** ** What later states keep *)

(** A symbol keeps its kind, a converted one its real symbol, and a section
    symbol is one for ever; one that is being resolved stays so and keeps its operator, unless it is given a value. *)
Definition evolves (x x' : symbol) : Prop :=
  match x, x' with
  | Real r, Real r' =>
      has_bsf r' BSF_SECTION_SYM = has_bsf r BSF_SECTION_SYM
      /\ (sy_resolving (sy_flags r) = true ->
          sy_resolving (sy_flags r') = true
          /\ (X_op (sy_value r') = X_op (sy_value r) \/ X_op (sy_value r') = O_constant))
  | Local l, Local l' => local_symbol_converted_p l = true -> l' = l
  | _, _ => False
  end.

Record later (st st' : syms) : Prop := {
  lt_heap : forall p x, at_ (heap st) p = Some x -> exists x', at_ (heap st') p = Some x' /\ evolves x x';
  lt_final : finalize_syms st' = finalize_syms st;
  lt_frozen : symbol_table_frozen st' = symbol_table_frozen st
}.

Lemma evolves_refl (x : symbol) : evolves x x.
Proof. destruct x; cbn; auto. Qed.

Lemma evolves_trans (x y z : symbol) : evolves x y -> evolves y z -> evolves x z.
Proof.
  destruct x as [l|r], y as [l'|r'], z as [l''|r'']; cbn; try done.
  - intros H1 H2 Hc. rewrite (H1 Hc) in H2. by apply H2.
  - intros [B1 H1] [B2 H2]. split; [congruence|]. intros Hr. destruct (H1 Hr) as [Hr' Ho]. destruct (H2 Hr') as [Hr'' Ho']. split; [done|].
    destruct Ho' as [->|]; [done|by right].
Qed.

Lemma later_refl (st : syms) : later st st.
Proof. split; [|done|done]. intros p x Hx. exists x. split; [done|apply evolves_refl]. Qed.

Lemma later_trans (s1 s2 s3 : syms) : later s1 s2 -> later s2 s3 -> later s1 s3.
Proof.
  intros [H1 F1 Z1] [H2 F2 Z2]. split; [|congruence|congruence].
  intros p x Hx. destruct (H1 p x Hx) as (y & Hy & Exy). destruct (H2 p y Hy) as (z & Hz & Eyz).
  exists z. split; [done|by eapply evolves_trans].
Qed.

Lemma later_same (st st' : syms) :
  heap st' = heap st -> finalize_syms st' = finalize_syms st ->
  symbol_table_frozen st' = symbol_table_frozen st -> later st st'.
Proof.
  intros H Hf Hz. split; [|done|done]. rewrite H. intros p x Hx. exists x. split; [done|apply evolves_refl].
Qed.

Lemma ptr_later (st st' : syms) (p : symbolS) : later st st' -> ptr_in (heap st) p -> ptr_in (heap st') p.
Proof. intros [H _ _] [x Hx]. destruct (H p x Hx) as (x' & Hx' & _). by exists x'. Qed.

Lemma real_later (st st' : syms) (p : symbolS) : later st st' -> real_in (heap st) p -> real_in (heap st') p.
Proof.
  intros [H _ _] [r Hr]. destruct (H p _ Hr) as (x' & Hx' & E). destruct x'; [done|]. by eexists.
Qed.

Lemma real_ptr (h : list symbol) (p : symbolS) : real_in h p -> ptr_in h p.
Proof. intros [r Hr]. by exists (Real r). Qed.

(** ** Pointers survive an update that keeps the kinds *)

(** [h'] has a symbol of the same kind wherever [h] has one. *)
Definition keeps (h h' : list symbol) : Prop :=
  (forall p, ptr_in h p -> ptr_in h' p) /\ (forall p, real_in h p -> real_in h' p).

Lemma opt_mono (P Q : symbolS -> Prop) (p : option symbolS) :
  (forall s, P s -> Q s) -> opt P p -> opt Q p.
Proof. destruct p; cbn; auto. Qed.

Lemma value_keeps (h h' : list symbol) (e : expressionS) : keeps h h' -> value_ok h e -> value_ok h' e.
Proof. intros [H _] (H0 & H1 & H2 & H3). split_and!; [done|by eapply opt_mono..|done]. Qed.

Lemma entry_keeps (h h' : list symbol) (x : symbol) : keeps h h' -> entry_ok h x -> entry_ok h' x.
Proof.
  intros K. destruct x as [l|r]; cbn.
  - unfold local_ok. destruct (local_symbol_converted_p l); [|done].
    intros (p & Hu & Hp). exists p. split; [done|by apply K].
  - intros []. split; [by eapply value_keeps| | |done..]; (eapply opt_mono; [|done]; apply K).
Qed.

Lemma table_keeps (h h' : list symbol) (t : @hash_control (option symbolS)) :
  keeps h h' -> table_ok h t -> table_ok h' t.
Proof. intros [K _] [H1 H2]. split; [done|]. eauto. Qed.

Lemma at_insert (h : list symbol) (i : nat) (x : symbol) (q : symbolS) :
  (i < length h)%nat -> at_ (<[i := x]> h) q = if decide (q = Sym i) then Some x else at_ h q.
Proof.
  intros Hi. destruct q as [j]. cbn. destruct (decide (Sym j = Sym i)) as [[= ->]|Hne].
  - by rewrite list_lookup_insert_eq.
  - rewrite list_lookup_insert_ne; [done|]. congruence.
Qed.

Lemma at_lt (h : list symbol) (i : nat) (x : symbol) : at_ h (Sym i) = Some x -> (i < length h)%nat.
Proof. apply lookup_lt_Some. Qed.

Definition same_kind (x x' : symbol) : Prop :=
  match x, x' with Local _, Local _ | Real _, Real _ => True | _, _ => False end.

Lemma keeps_insert (h : list symbol) (i : nat) (x x' : symbol) :
  at_ h (Sym i) = Some x -> same_kind x x' -> keeps h (<[i := x']> h).
Proof.
  intros Hx Hk. pose proof (at_lt _ _ _ Hx) as Hi. split; intros p.
  - intros [y Hy]. unfold ptr_in. rewrite at_insert by done. destruct (decide (p = Sym i)); [done|by exists y].
  - intros [r Hr]. unfold real_in. rewrite at_insert by done. destruct (decide (p = Sym i)) as [->|]; [|eauto].
    rewrite Hx in Hr. injection Hr as ->. destruct x'; [done|eauto].
Qed.

Lemma at_app (h : list symbol) (x : symbol) (p : symbolS) (y : symbol) :
  at_ h p = Some y -> at_ (h ++ [x]) p = Some y.
Proof. destruct p. cbn. apply lookup_app_l_Some. Qed.

Lemma keeps_app (h : list symbol) (x : symbol) : keeps h (h ++ [x]).
Proof. split; intros p [y Hy]; exists y; by apply at_app. Qed.

(** ** Updating the state *)
Lemma ok_lookup (st : syms) (p : symbolS) (x : symbol) :
  syms_ok st -> at_ (heap st) p = Some x -> entry_ok (heap st) x.
Proof. intros [H _ _ _ _]. destruct p. cbn. by apply Forall_lookup_1. Qed.

Lemma ok_real (st : syms) (p : symbolS) (r : struct_symbol) :
  syms_ok st -> at_ (heap st) p = Some (Real r) -> real_ok (heap st) r.
Proof. intros Hok H. exact (ok_lookup st p _ Hok H). Qed.

(** Replacing a symbol by one of its kind. *)
Lemma ok_put (st : syms) (i : nat) (x x' : symbol) :
  syms_ok st -> at_ (heap st) (Sym i) = Some x -> same_kind x x' ->
  entry_ok (<[i := x']> (heap st)) x' -> syms_ok (set_heap (<[i := x']> (heap st)) st).
Proof.
  intros [H1 H2 H3 H4 H5] Hx Hk Hok. pose proof (keeps_insert _ _ _ _ Hx Hk) as K.
  split; cbn; try (by eapply table_keeps); try (eapply opt_mono; [|done]; apply K).
  apply Forall_insert; [|done]. eapply Forall_impl; [exact H1|]. intros y. by apply entry_keeps.
Qed.

Lemma later_put (st : syms) (i : nat) (x x' : symbol) :
  at_ (heap st) (Sym i) = Some x -> evolves x x' -> later st (set_heap (<[i := x']> (heap st)) st).
Proof.
  intros Hx He. split; [|done|done]. intros p y Hy. cbn. rewrite at_insert by by eapply at_lt.
  destruct (decide (p = Sym i)) as [->|]; [|exists y; split; [done|apply evolves_refl]].
  exists x'. split; [done|]. congruence.
Qed.

Lemma evolves_kind (x x' : symbol) : evolves x x' -> same_kind x x'.
Proof. by destruct x, x'. Qed.

(** ** How many symbols the resolution can enter *)
Definition weight (x : symbol) : nat := if enterable x then 1 else 0.

Lemma pending_sum (st : syms) : pending st = sum_list_with weight (heap st).
Proof.
  unfold pending. induction (heap st) as [|x h IH]; [done|]. rewrite filter_cons. cbn [sum_list_with].
  rewrite <- IH. unfold weight. destruct (enterable x); by destruct (decide _).
Qed.

Lemma sum_insert (h : list symbol) (i : nat) (x x' : symbol) :
  h !! i = Some x ->
  (sum_list_with weight (<[i := x']> h) + weight x = sum_list_with weight h + weight x')%nat.
Proof.
  revert i. induction h as [|y h IH]; intros [|i] H; [done|done| |].
  - injection H as ->. cbn [sum_list_with insert list_insert]. change (<[0%nat:=x']> (x :: h)) with (x' :: h).
    cbn [sum_list_with]. lia.
  - specialize (IH i H). change (<[S i:=x']> (y :: h)) with (y :: <[i:=x']> h). cbn [sum_list_with]. lia.
Qed.

Lemma pending_put (st : syms) (i : nat) (x x' : symbol) :
  at_ (heap st) (Sym i) = Some x ->
  (pending (set_heap (<[i := x']> (heap st)) st) + weight x = pending st + weight x')%nat.
Proof. intros Hx. rewrite !pending_sum. by apply sum_insert. Qed.

Lemma pending_app (st : syms) (x : symbol) :
  pending (set_heap (heap st ++ [x]) st) = (pending st + weight x)%nat.
Proof. rewrite !pending_sum. cbn. rewrite sum_list_with_app. cbn. lia. Qed.

(** A step of the symbol table: it stays well formed, it is later, and no more
    symbols can be entered. *)
Record good (st st' : syms) : Prop := {
  g_ok : syms_ok st';
  g_later : later st st';
  g_pending : (pending st' <= pending st)%nat
}.

Lemma good_refl (st : syms) : syms_ok st -> good st st.
Proof. intros H. split; [done|apply later_refl|done]. Qed.

Lemma good_trans (s1 s2 s3 : syms) : good s1 s2 -> good s2 s3 -> good s1 s3.
Proof. intros [] []. split; [done|by eapply later_trans|lia]. Qed.

(** ** Reading and writing one symbol *)
Lemma get_sym_eq (st : syms) (p : symbolS) (x : symbol) :
  at_ (heap st) p = Some x -> get_sym p st = Ret (x, st).
Proof. destruct p as [i]. cbn. by intros ->. Qed.

Lemma get_real_eq (st : syms) (p : symbolS) (r : struct_symbol) :
  at_ (heap st) p = Some (Real r) -> get_real p st = Ret (r, st).
Proof. intros H. unfold get_real. by rewrite (sbind_ret _ _ _ _ _ (get_sym_eq _ _ _ H)). Qed.

(** The state with the symbol at [p] replaced. *)
Definition put_at (p : symbolS) (x : symbol) (st : syms) : syms :=
  let 'Sym i := p in set_heap (<[i := x]> (heap st)) st.

Lemma put_log (p : symbolS) (x : symbol) (st : syms) : sy_log (put_at p x st) = sy_log st.
Proof. by destruct p. Qed.

Lemma put_lines (p : symbolS) (x : symbol) (st : syms) :
  expr_symbol_lines (put_at p x st) = expr_symbol_lines st.
Proof. by destruct p. Qed.

Lemma put_sym_eq (st : syms) (p : symbolS) (x : symbol) : put_sym p x st = Ret (tt, put_at p x st).
Proof. by destruct p. Qed.

Lemma upd_real_eq (st : syms) (p : symbolS) (r : struct_symbol) (f : struct_symbol -> struct_symbol) :
  at_ (heap st) p = Some (Real r) -> upd_real p f st = Ret (tt, put_at p (Real (f r)) st).
Proof.
  intros H. unfold upd_real. rewrite (sbind_ret _ _ _ _ _ (get_real_eq _ _ _ H)). apply put_sym_eq.
Qed.

Lemma at_put (st : syms) (p q : symbolS) (x y : symbol) :
  at_ (heap st) p = Some y ->
  at_ (heap (put_at p x st)) q = if decide (q = p) then Some x else at_ (heap st) q.
Proof. destruct p as [i]. intros H. apply at_insert. by eapply at_lt. Qed.

(** What the macro finds at a valid pointer. *)
Definition checked (st : syms) (p : symbolS) (c : local_symbol + symbolS * struct_symbol) : Prop :=
  match c with
  | inl l => at_ (heap st) p = Some (Local l) /\ local_symbol_converted_p l = false
             /\ exists f, lsy_u l = lsy_frag f /\ frag_ok f
  | inr (q, r) => at_ (heap st) q = Some (Real r)
                  /\ (q = p \/ exists l, at_ (heap st) p = Some (Local l)
                        /\ local_symbol_converted_p l = true /\ lsy_u l = lsy_sym q)
  end.

Lemma check_eq (st : syms) (p : symbolS) :
  syms_ok st -> ptr_in (heap st) p ->
  exists c, LOCAL_SYMBOL_CHECK p st = Ret (c, st) /\ checked st p c.
Proof.
  intros Hok [x Hx]. unfold LOCAL_SYMBOL_CHECK. rewrite (sbind_ret _ _ _ _ _ (get_sym_eq _ _ _ Hx)).
  pose proof (ok_lookup _ _ _ Hok Hx) as He. destruct x as [l|r]; cbn in He.
  - unfold local_ok in He. destruct (local_symbol_converted_p l) eqn:Hc.
    + destruct He as (q & Hu & r & Hr). rewrite Hu, (sbind_ret _ _ _ _ _ (get_real_eq _ _ _ Hr)).
      exists (inr (q, r)). split; [done|]. split; [done|]. right. by exists l.
    + exists (inl l). done.
  - exists (inr (p, r)). split; [done|]. split; [done|]. by left.
Qed.

Lemma check_real (st : syms) (p : symbolS) (r : struct_symbol) :
  at_ (heap st) p = Some (Real r) -> LOCAL_SYMBOL_CHECK p st = Ret (inr (p, r), st).
Proof. intros H. unfold LOCAL_SYMBOL_CHECK. by rewrite (sbind_ret _ _ _ _ _ (get_sym_eq _ _ _ H)). Qed.

(** The readers change nothing. *)
Lemma on_kind_eq {A : Type} (fl : local_symbol -> A) (fr : struct_symbol -> A) (st : syms) (p : symbolS) :
  syms_ok st -> ptr_in (heap st) p -> exists a, on_kind fl fr p st = Ret (a, st).
Proof.
  intros Hok Hp. destruct (check_eq st p Hok Hp) as (c & Hc & _). unfold on_kind.
  rewrite (sbind_ret _ _ _ _ _ Hc). destruct c as [l|[q r]]; eauto.
Qed.

Lemma on_kind_real {A : Type} (fl : local_symbol -> A) (fr : struct_symbol -> A) (st : syms) (p : symbolS)
    (r : struct_symbol) :
  at_ (heap st) p = Some (Real r) -> on_kind fl fr p st = Ret (fr r, st).
Proof. intros H. unfold on_kind. by rewrite (sbind_ret _ _ _ _ _ (check_real _ _ _ H)). Qed.

Section rules.
  Context (F : fault -> Prop).

(** Updating a real symbol. *)
Lemma put_good (st : syms) (p : symbolS) (x x' : symbol) :
  syms_ok st -> at_ (heap st) p = Some x -> evolves x x' -> entry_ok (heap st) x' ->
  (weight x' <= weight x)%nat -> good st (put_at p x' st).
Proof.
  destruct p as [i]. intros Hok Hx He Hk Hw. cbn. split.
  - eapply ok_put; [done|done|by apply evolves_kind|]. eapply entry_keeps; [|done].
    eapply keeps_insert; [done|by apply evolves_kind].
  - by eapply later_put.
  - pose proof (pending_put st i x x' Hx). lia.
Qed.

(** ** The chain *)

(** Only the list pointers differ; a symbol out of the chain is not put back
    nor a symbol in it taken out. *)
Definition links (p : symbolS) (x x' : symbol) : Prop :=
  match x, x' with
  | Local l, Local l' => l' = l
  | Real r, Real r' => r' = set_previous (sy_previous r') (set_next (sy_next r') r)
                       /\ (sy_next r' = Some p -> sy_next r = Some p)
  | _, _ => False
  end.

Record linked (st st' : syms) : Prop := {
  lk_ok : syms_ok st';
  lk_heap : forall p x, at_ (heap st) p = Some x -> exists x', at_ (heap st') p = Some x' /\ links p x x';
  lk_length : length (heap st') = length (heap st);
  lk_pending : pending st' = pending st;
  lk_rest : set_chain None None (set_heap [] st') = set_chain None None (set_heap [] st)
}.

Lemma links_refl (p : symbolS) (x : symbol) : links p x x.
Proof. destruct x as [l|[]]; cbn; auto. Qed.

Lemma links_trans (p : symbolS) (x y z : symbol) : links p x y -> links p y z -> links p x z.
Proof.
  destruct x as [l|r], y as [l'|r'], z as [l''|r'']; cbn; try done; [congruence|].
  intros [E1 N1] [E2 N2]. split; [|auto]. rewrite E2, E1. done.
Qed.

Lemma links_flags (p : symbolS) (f : symbol_flags -> symbol_flags) (a b : struct_symbol) :
  links p (Real a) (Real b) -> links p (Real (upd_flags f a)) (Real (upd_flags f b)).
Proof.
  destruct a, b. cbn. intros [[= -> -> -> -> -> ->] N]. by split.
Qed.

Lemma linked_refl (st : syms) : syms_ok st -> linked st st.
Proof. intros H. split; try done. intros p x Hx. exists x. split; [done|apply links_refl]. Qed.

Lemma linked_trans (s1 s2 s3 : syms) : linked s1 s2 -> linked s2 s3 -> linked s1 s3.
Proof.
  intros [O1 H1 L1 P1 R1] [O2 H2 L2 P2 R2]. split; [done| |congruence..].
  intros p x Hx. destruct (H1 p x Hx) as (y & Hy & Exy). destruct (H2 p y Hy) as (z & Hz & Eyz).
  exists z. split; [done|by eapply links_trans].
Qed.

Lemma links_evolves (p : symbolS) (x x' : symbol) : links p x x' -> evolves x x' /\ weight x' = weight x.
Proof.
  destruct x as [l|r], x' as [l'|r']; cbn; try done.
  - by intros ->.
  - intros [-> _]. cbn. auto.
Qed.

Lemma linked_later (st st' : syms) : linked st st' -> later st st'.
Proof.
  intros [_ H _ _ R]. split.
  - intros p x Hx. destruct (H p x Hx) as (x' & Hx' & E). exists x'. split; [done|by apply (links_evolves p)].
  - by injection R.
  - by injection R.
Qed.

Lemma linked_good (st st' : syms) : linked st st' -> good st st'.
Proof. intros H. split; [apply H|by apply linked_later|by rewrite (lk_pending _ _ H)]. Qed.

Lemma upd_linked (st : syms) (p : symbolS) (f : struct_symbol -> struct_symbol) :
  syms_ok st -> real_in (heap st) p ->
  (forall r, links p (Real r) (Real (f r))) ->
  (forall r, real_ok (heap st) r -> opt (real_in (heap st)) (sy_next (f r))
             /\ opt (real_in (heap st)) (sy_previous (f r))) ->
  wp F (upd_real p f) st (fun _ st' => linked st st').
Proof.
  intros Hok [r Hr] Hl Hreal. unfold wp. rewrite (upd_real_eq _ _ _ _ Hr).
  destruct (Hreal r (ok_real _ _ _ Hok Hr)) as [Hn Hp]. pose proof (links_evolves _ _ _ (Hl r)) as [He Hw].
  assert (Hk : entry_ok (heap st) (Real (f r))).
  { pose proof (ok_real _ _ _ Hok Hr) as []. specialize (Hl r). destruct Hl as [E _].
    cbn. rewrite E in Hn, Hp |- *. split; done. }
  destruct p as [i]. split.
  - eapply g_ok, (put_good st (Sym i)); [done|exact Hr|done..|lia].
  - intros q y Hy. rewrite (at_put _ _ _ _ _ Hr). destruct (decide (q = Sym i)) as [->|].
    + rewrite Hr in Hy. injection Hy as <-. eexists. split; [done|apply Hl].
    + exists y. split; [done|apply links_refl].
  - apply length_insert.
  - pose proof (pending_put st i _ (Real (f r)) Hr) as H. rewrite Hw in H. unfold put_at. lia.
  - done.
Qed.

Lemma chain_linked (st : syms) (root last : option symbolS) :
  syms_ok st -> opt (real_in (heap st)) root -> opt (real_in (heap st)) last ->
  linked st (set_chain root last st).
Proof.
  intros [] Hr Hl. split; [split; done| |done..].
  intros p x Hx. exists x. split; [done|apply links_refl].
Qed.

Lemma linked_real (st st' : syms) (p : symbolS) : linked st st' -> real_in (heap st) p -> real_in (heap st') p.
Proof. intros H. apply real_later, linked_later, H. Qed.

Lemma not_local_eq (st : syms) (p : symbolS) (r : struct_symbol) :
  at_ (heap st) p = Some (Real r) -> not_local p st = Ret ((p, r), st).
Proof. intros H. unfold not_local. by rewrite (sbind_ret _ _ _ _ _ (check_real _ _ _ H)). Qed.

Lemma next_linked (st : syms) (p : symbolS) (n : option symbolS) :
  syms_ok st -> real_in (heap st) p -> opt (real_in (heap st)) n -> n <> Some p ->
  wp F (upd_real p (set_next n)) st (fun _ st' => linked st st').
Proof.
  intros Hok Hp Hn Hne. apply upd_linked; [done|done| |].
  - intros []. split; [done|]. cbn. by intros ->.
  - intros r []. by split.
Qed.

Lemma prev_linked (st : syms) (p : symbolS) (n : option symbolS) :
  syms_ok st -> real_in (heap st) p -> opt (real_in (heap st)) n ->
  wp F (upd_real p (set_previous n)) st (fun _ st' => linked st st').
Proof.
  intros Hok Hp Hn. apply upd_linked; [done|done| |].
  - intros []. by split.
  - intros r []. by split.
Qed.

Lemma opt_linked (st st' : syms) (p : option symbolS) :
  linked st st' -> opt (real_in (heap st)) p -> opt (real_in (heap st')) p.
Proof. intros H. apply opt_mono. intros s. by apply linked_real. Qed.

Lemma symbol_append_linked (st : syms) (addme : symbolS) (target : option symbolS) :
  syms_ok st -> real_in (heap st) addme -> opt (real_in (heap st)) target ->
  target <> Some addme ->
  (forall t r, target = Some t -> at_ (heap st) t = Some (Real r) -> sy_next r <> Some addme) ->
  wp F (symbol_append addme target) st (fun _ st' => linked st st').
Proof.
  intros Hok Ha Ht Hne Hun. unfold symbol_append. pose proof Ha as [ra Hra].
  eapply wp_eq; [apply not_local_eq, Hra|]. cbv beta iota.
  destruct target as [t|].
  - cbn in Ht. pose proof Ht as [rt Hrt]. specialize (Hun t rt eq_refl Hrt).
    pose proof (ok_real _ _ _ Hok Hrt) as [_ Hnx _ _ _ _].
    eapply wp_eq; [apply not_local_eq, Hrt|]. cbv beta iota.
    eapply (wp_step _ _ _ _ (fun _ st' => linked st st' /\
        exists r, at_ (heap st') t = Some (Real r) /\ sy_next r = sy_next rt)).
    { destruct (sy_next rt) as [n|] eqn:En.
      - cbn in Hnx. pose proof Hnx as [rn Hrn].
        pose proof (prev_linked st n (Some addme) Hok Hnx Ha) as L. revert L. unfold wp.
        rewrite (upd_real_eq _ _ _ _ Hrn). intros L. split; [done|].
        rewrite (at_put _ _ _ _ _ Hrn). destruct (decide (t = n)) as [->|]; [|by exists rt].
        eexists. split; [done|]. cbn. congruence.
      - split; [apply chain_linked; [done|apply Hok|done]|]. by exists rt. }
    intros _ st1 [L1 (rt1 & Hrt1 & En)]. pose proof (lk_ok _ _ L1) as Hok1.
    eapply wp_eq; [apply get_real_eq, Hrt1|]. rewrite En.
    eapply wp_step.
    { apply next_linked; [done|by eapply linked_real|by eapply opt_linked|done]. }
    intros ? st2 L2; cbv beta in L2. pose proof (linked_trans _ _ _ L1 L2) as L12.
    eapply wp_step.
    { apply next_linked; [apply L2|by eapply linked_real|by eapply (linked_real _ _ _ L12)|congruence]. }
    intros ? st3 L3; cbv beta in L3. pose proof (linked_trans _ _ _ L12 L3) as L13.
    eapply wp_mono.
    { apply prev_linked; [apply L3|by eapply linked_real|by eapply (linked_real _ _ _ L13)]. }
    intros ? st4 L4; cbv beta in L4. by eapply linked_trans.
  - eapply wp_step; [by apply next_linked|]. intros ? st1 L1; cbv beta in L1.
    eapply wp_step; [apply prev_linked; [apply L1|by eapply linked_real|done]|]. intros ? st2 L2; cbv beta in L2.
    pose proof (linked_trans _ _ _ L1 L2) as L12.
    apply (linked_trans _ _ _ L12), chain_linked; [apply L2|by eapply (linked_real _ _ _ L12)..].
Qed.

(** ** Allocation *)

(** [x] is allocated, at the place returned; the symbols that were there are
    where they were. *)
Lemma alloc_ok (st : syms) (x : symbol) :
  syms_ok st -> entry_ok (heap st) x -> syms_ok (set_heap (heap st ++ [x]) st).
Proof.
  intros [H1 H2 H3 H4 H5] Hx. pose proof (keeps_app (heap st) x) as K.
  split; cbn; try (by eapply table_keeps); try (eapply opt_mono; [|done]; apply K).
  apply Forall_app. split; [|by repeat constructor; eapply entry_keeps].
  eapply Forall_impl; [exact H1|]. intros y. by apply entry_keeps.
Qed.

Lemma alloc_later (st : syms) (x : symbol) : later st (set_heap (heap st ++ [x]) st).
Proof.
  split; [|done|done]. intros p y Hy. exists y. split; [by apply at_app|apply evolves_refl].
Qed.

Definition fresh (st : syms) : symbolS := Sym (length (heap st)).

Lemma at_fresh (st : syms) (x : symbol) : at_ (heap st ++ [x]) (fresh st) = Some x.
Proof. unfold fresh. cbn. by rewrite lookup_app_r, Nat.sub_diag by lia. Qed.

Lemma not_fresh (st : syms) (p : symbolS) : ptr_in (heap st) p -> p <> fresh st.
Proof. intros [x Hx] ->. unfold fresh in Hx. cbn in Hx. apply lookup_lt_Some in Hx. lia. Qed.

(** The symbol [symbol_create] makes. *)
Definition created (name : string) (segment : segT) (valu : Z) (frag : fragP) : struct_symbol :=
  mk_struct no_flags name 0 segment (mk_expr None None (s64 valu) O_constant) None None frag.

Lemma created_ok (h : list symbol) (name : string) (segment : segT) (valu : Z) (frag : fragP) :
  frag_ok frag -> real_ok h (created name segment valu frag).
Proof. intros Hf. by split; try split. Qed.

Lemma symbol_new_spec (st : syms) (name : string) (segment : segT) (valu : Z) (frag : fragP) :
  syms_ok st -> symbol_table_frozen st = false -> frag_ok frag ->
  wp F (symbol_new name segment valu frag) st (fun q st' =>
    q = fresh st /\ linked (set_heap (heap st ++ [Real (created name segment valu frag)]) st) st').
Proof.
  intros Hok Hz Hf. unfold symbol_new. set (r := created name segment valu frag).
  set (st1 := set_heap (heap st ++ [Real r]) st).
  assert (Hok1 : syms_ok st1) by (apply alloc_ok; [done|by apply created_ok]).
  eapply wp_eq; [reflexivity|]. fold (fresh st). apply wp_gets.
  change (symbol_table_frozen _) with (symbol_table_frozen st). rewrite Hz. apply wp_gets.
  change (symbol_lastP _) with (symbol_lastP st). fold st1.
  assert (Hlast : opt (real_in (heap st)) (symbol_lastP st)) by apply Hok.
  eapply wp_step.
  { apply (symbol_append_linked st1 (fresh st) (symbol_lastP st)); [done| | | |].
    - exists r. apply at_fresh.
    - eapply opt_mono; [|exact Hlast]. apply keeps_app.
    - destruct (symbol_lastP st) as [l|]; [|done]. intros [= ->].
      by apply (not_fresh st (fresh st) (real_ptr _ _ Hlast)).
    - intros t rt Et Hrt Hn. rewrite Et in Hlast. destruct Hlast as [rt' Hrt'].
      pose proof (at_app _ (Real r) _ _ Hrt') as Hrt2. change (heap st1) with (heap st ++ [Real r]) in Hrt.
      rewrite Hrt in Hrt2. injection Hrt2 as <-.
      pose proof (ok_real _ _ _ Hok Hrt') as [_ Hnx _ _ _ _]. rewrite Hn in Hnx.
      by apply (not_fresh st (fresh st) (real_ptr _ _ Hnx)). }
  intros ? st2 L; cbv beta in L. by apply wp_ret.
Qed.
End rules.

(** A rule that lets no fault through. *)
Lemma wp_total {A : Type} (m : SM A) (st : syms) (Q : A -> syms -> Prop) :
  wp (fun _ => False) m st Q -> exists a st', m st = Ret (a, st') /\ Q a st'.
Proof. unfold wp. destruct (m st) as [[a st']|]; [eauto|done]. Qed.

(** ** The tables *)
Lemma table_jam (h : list symbol) (t : @hash_control (option symbolS)) (name : string)
    (v : option symbolS) :
  table_ok h t -> opt (ptr_in h) v ->
  exists t', hash_jam t name v = Ret (t', None) /\ table_ok h t' /\ hash_map t' = <[name := v]> (hash_map t).
Proof.
  intros [Hok Hp] Hv. destruct (hash_jam_spec t name v Hok) as (t' & Hj & Hok' & Hm).
  exists t'. split; [done|]. split; [|done]. split; [done|]. intros n q. rewrite Hm, lookup_insert.
  destruct (decide (name = n)); [|apply Hp]. by intros [= ->].
Qed.

Lemma sy_hash_good (st : syms) (t : @hash_control (option symbolS)) :
  syms_ok st -> table_ok (heap st) t -> good st (set_sy_hash t st).
Proof. intros [] Ht. split; [split; done|by apply later_same|done]. Qed.

Lemma local_hash_good (st : syms) (t : @hash_control (option symbolS)) :
  syms_ok st -> table_ok (heap st) t -> good st (set_local_hash t st).
Proof. intros [] Ht. split; [split; done|by apply later_same|done]. Qed.

Lemma jam_sy_eq (st : syms) (name : string) (v : option symbolS) :
  syms_ok st -> opt (ptr_in (heap st)) v ->
  exists t, jam_sy name v st = Ret (None, set_sy_hash t st) /\ table_ok (heap st) t
    /\ hash_map t = <[name := v]> (hash_map (sy_hash st)).
Proof.
  intros Hok Hv. destruct (table_jam _ _ name v (so_sy _ Hok) Hv) as (t & Hj & Ht & Hm).
  exists t. split; [|done]. unfold jam_sy. erewrite sbind_ret; [|reflexivity].
  unfold slift. erewrite sbind_ret; [|by rewrite Hj]. reflexivity.
Qed.

Lemma jam_local_eq (st : syms) (name : string) (v : option symbolS) :
  syms_ok st -> opt (ptr_in (heap st)) v ->
  exists t, jam_local name v st = Ret (None, set_local_hash t st) /\ table_ok (heap st) t
    /\ hash_map t = <[name := v]> (hash_map (local_hash st)).
Proof.
  intros Hok Hv. destruct (table_jam _ _ name v (so_local _ Hok) Hv) as (t & Hj & Ht & Hm).
  exists t. split; [|done]. unfold jam_local. erewrite sbind_ret; [|reflexivity].
  unfold slift. erewrite sbind_ret; [|by rewrite Hj]. reflexivity.
Qed.

Lemma insert_real_eq (st : syms) (p : symbolS) (r : struct_symbol) :
  syms_ok st -> at_ (heap st) p = Some (Real r) ->
  exists t, symbol_table_insert p st = Ret (tt, set_sy_hash t st) /\ table_ok (heap st) t
    /\ hash_map t = <[bsym_name r := Some p]> (hash_map (sy_hash st)).
Proof.
  intros Hok Hr. unfold symbol_table_insert. rewrite (sbind_ret _ _ _ _ _ (check_real _ _ _ Hr)).
  cbv beta iota. unfold S_GET_NAME. erewrite sbind_ret; [|rewrite (sbind_ret _ _ _ _ _ (check_real _ _ _ Hr)); reflexivity].
  destruct (jam_sy_eq st (bsym_name r) (Some p) Hok) as (t & Hj & Ht); [by eexists|].
  exists t. by rewrite (sbind_ret _ _ _ _ _ Hj).
Qed.

(** ** Converting a local symbol *)

(** The local symbol [l] at [p], with the frag [f], has become the real symbol
    [q]; nothing else has changed but the chain and the tables. *)
Record converts (st : syms) (p : symbolS) (l : local_symbol) (f : fragP) (q : symbolS) (st' : syms) : Prop := {
  cv_good : good st st';
  cv_new : q = fresh st;
  cv_at : at_ (heap st') p
          = Some (Local (mk_local (lsy_resolved l) seg_reg (lsy_name l) (lsy_sym q) (lsy_value l)));
  cv_real : exists r, at_ (heap st') q = Some (Real r)
              /\ links q (Real (upd_flags (set_used true)
                                 (upd_flags (set_resolved (lsy_resolved l))
                                    (created (lsy_name l) (lsy_section l) (lsy_value l) f)))) (Real r);
  cv_else : forall p' x, p' <> p -> at_ (heap st) p' = Some x ->
              exists x', at_ (heap st') p' = Some x' /\ links p' x x';
  cv_log : sy_log st' = sy_log st;
  cv_lines : expr_symbol_lines st' = expr_symbol_lines st
}.

Lemma convert_spec (st : syms) (p : symbolS) (l : local_symbol) (f : fragP) :
  syms_ok st -> symbol_table_frozen st = false -> at_ (heap st) p = Some (Local l) ->
  local_symbol_converted_p l = false -> lsy_u l = lsy_frag f -> frag_ok f ->
  exists q st', local_symbol_convert p st = Ret (q, st') /\ converts st p l f q st'.
Proof.
  intros Hok Hz Hp Hc Hu Hf. unfold local_symbol_convert.
  rewrite (sbind_ret _ _ _ _ _ (get_sym_eq _ _ _ Hp)), Hc.
  erewrite sbind_ret; [|unfold local_symbol_get_frag; by rewrite Hu].
  set (c := created (lsy_name l) (lsy_section l) (lsy_value l) f).
  set (st1 := set_heap (heap st ++ [Real c]) st).
  destruct (wp_total _ _ _ (symbol_new_spec (fun _ => False) st (lsy_name l) (lsy_section l) (lsy_value l) f
    Hok Hz Hf)) as (q & st2 & E2 & Hq & L2). fold c st1 in L2. rewrite (sbind_ret _ _ _ _ _ E2).
  destruct (lk_heap _ _ L2 q _ ltac:(rewrite Hq; apply at_fresh)) as ([|r2] & Hr2 & Hl2); [done|].
  set (r4 := upd_flags (set_used true) (upd_flags (set_resolved (lsy_resolved l)) r2)).
  set (st4 := put_at q (Real r4) st2).
  assert (Hat4 : at_ (heap st4) q = Some (Real r4)).
  { unfold st4. rewrite (at_put _ _ _ _ _ Hr2). by destruct (decide _). }
  assert (G4 : good st2 st4).
  { apply (put_good st2 q (Real r2)); [apply L2|done|by cbn; auto| |done].
    pose proof (ok_real _ _ _ (lk_ok _ _ L2) Hr2) as []. by split. }
  assert (Efl : sy_flags r2 = no_flags) by (destruct Hl2 as [-> _]; done).
  assert (E4 : (_ ← swhen (lsy_resolved l) (upd_real q (upd_flags (set_resolved true)));
                upd_real q (upd_flags (set_used true))) st2 = Ret (tt, st4)).
  { unfold swhen, st4, r4. destruct (lsy_resolved l) eqn:Er.
    - rewrite (sbind_ret _ _ _ _ _ (upd_real_eq _ _ _ _ Hr2)).
      erewrite upd_real_eq; [|rewrite (at_put _ _ _ _ _ Hr2); by destruct (decide _)].
      do 2 f_equal. destruct q. cbn. by rewrite list_insert_insert_eq.
    - erewrite sbind_ret; [|reflexivity]. rewrite (upd_real_eq _ _ _ _ Hr2).
      do 3 f_equal. unfold upd_flags. cbn. by rewrite Efl. }
  destruct (insert_real_eq st4 q r4 (g_ok _ _ G4) Hat4) as (t1 & E5 & Ht1 & _).
  set (st5 := set_sy_hash t1 st4).
  pose proof (good_trans _ _ _ G4 (sy_hash_good st4 t1 (g_ok _ _ G4) Ht1)) as G5. fold st5 in G5.
  set (l' := mk_local (lsy_resolved l) seg_reg (lsy_name l) (lsy_sym q) (lsy_value l)).
  assert (Hpq : p <> q) by (rewrite Hq; apply not_fresh; by exists (Local l)).
  assert (Hp1 : at_ (heap st1) p = Some (Local l)) by (apply at_app, Hp).
  assert (Hp5 : at_ (heap st5) p = Some (Local l)).
  { destruct (lk_heap _ _ L2 p _ Hp1) as (x & Hx & Hlx). destruct x; [|done]. rewrite Hlx in Hx.
    change (heap st5) with (heap st4). unfold st4. by rewrite (at_put _ _ _ _ _ Hr2), decide_False. }
  set (st6 := put_at p (Local l') st5).
  assert (G6 : good st5 st6).
  { apply (put_good st5 p (Local l)); [apply G5|done| | |apply Nat.le_0_l].
    - cbn. by rewrite Hc.
    - cbn. unfold local_ok. cbn. exists q. split; [done|]. by exists r4. }
  destruct (jam_local_eq st6 (lsy_name l) None (g_ok _ _ G6) I) as (t2 & E7 & Ht2 & _).
  set (st7 := set_local_hash t2 st6).
  pose proof (local_hash_good st6 t2 (g_ok _ _ G6) Ht2) as G7. fold st7 in G7.
  exists q, st7. split.
  { revert E4. unfold mbind, SM_bind. destruct (swhen _ _ st2) as [[[] st3]|]; [|done]. intros ->.
    rewrite E5. fold st5. rewrite put_sym_eq. fold l' st6. rewrite E7. done. }
  assert (Hlast : forall p' x, p' <> p -> p' <> q -> at_ (heap st2) p' = Some x ->
    at_ (heap st7) p' = Some x).
  { intros p' x H1 H2 Hx. change (heap st7) with (heap st6). unfold st6.
    rewrite (at_put _ _ _ _ _ Hp5), decide_False by done. change (heap st5) with (heap st4). unfold st4.
    by rewrite (at_put _ _ _ _ _ Hr2), decide_False. }
  assert (Hp7 : at_ (heap st7) p = Some (Local l')).
  { change (heap st7) with (heap st6). unfold st6. by rewrite (at_put _ _ _ _ _ Hp5), decide_True. }
  assert (Hq7 : at_ (heap st7) q = Some (Real r4)).
  { change (heap st7) with (heap st6). unfold st6. by rewrite (at_put _ _ _ _ _ Hp5), decide_False. }
  split; [split| | | | | |]; [| | |exact Hq|exact Hp7| | | |].
  - apply G7.
  - apply (later_trans _ st1); [apply alloc_later|]. apply (later_trans _ st2); [by apply linked_later|].
    apply (later_trans _ st5), (later_trans _ st6); [apply G5|apply G6|apply G7].
  - destruct G5 as [_ _ P5], G7 as [_ _ P7]. destruct p as [i].
    pose proof (pending_put st5 i _ (Local l') Hp5) as P6. fold (put_at (Sym i) (Local l') st5) st6 in P6.
    pose proof (pending_app st (Real c)) as P1. fold st1 in P1. pose proof (lk_pending _ _ L2) as P2.
    assert (weight (Local l) = 1%nat) as W by (unfold weight; cbn; by rewrite Hc).
    rewrite W in P6. change (weight (Local l')) with 0%nat in P6. change (weight (Real c)) with 1%nat in P1. lia.
  - exists r4. split; [done|]. by apply links_flags, links_flags.
  - intros p' x H1 Hx. destruct (lk_heap _ _ L2 p' _ (at_app _ (Real c) _ _ Hx)) as (x2 & Hx2 & Hl).
    exists x2. split; [|done]. apply Hlast; [done| |done]. rewrite Hq. apply not_fresh. by exists x.
  - change (sy_log st7) with (sy_log (put_at p (Local l') st5)). rewrite put_log.
    change (sy_log st5) with (sy_log (put_at q (Real r4) st2)). rewrite put_log.
    exact (f_equal sy_log (lk_rest _ _ L2)).
  - change (expr_symbol_lines st7) with (expr_symbol_lines (put_at p (Local l') st5)). rewrite put_lines.
    change (expr_symbol_lines st5) with (expr_symbol_lines (put_at q (Real r4) st2)). rewrite put_lines.
    exact (f_equal expr_symbol_lines (lk_rest _ _ L2)).
Qed.
(** ** Giving a real symbol its value and its section *)
Lemma real_put (st : syms) (p : symbolS) (r r' : struct_symbol) :
  syms_ok st -> at_ (heap st) p = Some (Real r) -> real_ok (heap st) r' ->
  has_bsf r' BSF_SECTION_SYM = has_bsf r BSF_SECTION_SYM ->
  (sy_resolving (sy_flags r') = sy_resolving (sy_flags r)) ->
  (X_op (sy_value r') = X_op (sy_value r) \/ X_op (sy_value r') = O_constant) ->
  good st (put_at p (Real r') st).
Proof.
  intros Hok Hr Hr' Hb Hs Hx. apply (put_good st p (Real r)); [done|done| |done|].
  - split; [done|]. rewrite Hs. auto.
  - unfold weight. cbn. by rewrite Hs.
Qed.

Lemma put_put (st : syms) (p : symbolS) (x y : symbol) : put_at p y (put_at p x st) = put_at p y st.
Proof. destruct p. unfold put_at, set_heap. cbn. by rewrite list_insert_insert_eq. Qed.

Lemma at_put_eq (st : syms) (p : symbolS) (x y : symbol) :
  at_ (heap st) p = Some y -> at_ (heap (put_at p x st)) p = Some x.
Proof. intros H. by rewrite (at_put _ _ _ _ _ H), decide_True. Qed.

Lemma at_put_ne (st : syms) (p q : symbolS) (x y : symbol) :
  at_ (heap st) p = Some y -> q <> p -> at_ (heap (put_at p x st)) q = at_ (heap st) q.
Proof. intros H Hne. by rewrite (at_put _ _ _ _ _ H), decide_False. Qed.

Lemma unless_local_real (f : struct_symbol -> struct_symbol) (st : syms) (p : symbolS) (r : struct_symbol) :
  at_ (heap st) p = Some (Real r) -> unless_local f p st = Ret (tt, put_at p (Real (f r)) st).
Proof.
  intros H. unfold unless_local. rewrite (sbind_ret _ _ _ _ _ (check_real _ _ _ H)). by apply upd_real_eq.
Qed.

(** The symbol [S_SET_VALUE] leaves. *)
Definition valued (v : Z) (r : struct_symbol) : struct_symbol :=
  upd_flags (set_weakrefr false)
    (set_value (mk_expr (X_add_symbol (sy_value r)) (X_op_symbol (sy_value r)) (s64 v) O_constant) r).

Lemma S_SET_VALUE_real (st : syms) (p : symbolS) (r : struct_symbol) (v : Z) :
  at_ (heap st) p = Some (Real r) -> S_SET_VALUE p v st = Ret (tt, put_at p (Real (valued v r)) st).
Proof.
  intros H. unfold S_SET_VALUE. rewrite (sbind_ret _ _ _ _ _ (check_real _ _ _ H)). cbv beta iota.
  rewrite (sbind_ret _ _ _ _ _ (upd_real_eq _ _ _ _ H)).
  unfold S_CLEAR_WEAKREFR. erewrite unless_local_real by by eapply at_put_eq. by rewrite put_put.
Qed.

Lemma valued_ok (h : list symbol) (v : Z) (r : struct_symbol) : real_ok h r -> real_ok h (valued v r).
Proof.
  intros [(_ & H1 & H2 & _) Hn Hp Hf Hw Hs]. split; try done. intros Hb. split; [done|]. by apply Hs.
Qed.

Lemma S_SET_SEGMENT_real (st : syms) (p : symbolS) (r : struct_symbol) (seg : segT) :
  at_ (heap st) p = Some (Real r) ->
  (has_bsf r BSF_SECTION_SYM = true -> seg = bsym_section r) ->
  S_SET_SEGMENT p seg st = Ret (tt, put_at p (Real (set_bsection seg r)) st).
Proof.
  intros H Hs. unfold S_SET_SEGMENT. rewrite (sbind_ret _ _ _ _ _ (check_real _ _ _ H)). cbv beta iota.
  rewrite (sbind_ret _ _ _ _ _ (get_real_eq _ _ _ H)).
  destruct (has_bsf r BSF_SECTION_SYM) eqn:Hb; [|apply put_sym_eq].
  rewrite (Hs eq_refl), decide_True by done. unfold mret, SM_ret. do 2 f_equal.
  destruct p as [i]. cbn in H |- *. destruct r, st. cbn in *. unfold set_heap. cbn. f_equal.
  symmetry. by apply list_insert_id.
Qed.

Lemma set_bsection_ok (h : list symbol) (seg : segT) (r : struct_symbol) :
  real_ok h r -> (has_bsf r BSF_SECTION_SYM = true -> seg = bsym_section r) ->
  real_ok h (set_bsection seg r).
Proof.
  intros [Hv Hn Hp Hf Hw Hs] Hb. split; try done. intros H. split; [by apply Hs|].
  cbn. rewrite (Hb H). by apply Hs.
Qed.

Lemma set_flags_ok (h : list symbol) (f : symbol_flags -> symbol_flags) (r : struct_symbol) :
  real_ok h r -> sy_weakrefr (f (sy_flags r)) = false -> real_ok h (upd_flags f r).
Proof. intros [] H. by split. Qed.

Lemma log_good (st : syms) (l : list diag) : syms_ok st -> good st (set_sy_log l st).
Proof. intros []. split; [by split|by apply later_same|done]. Qed.

(** The pointer is real already, or its symbol is converted. *)
Lemma converted_eq (st : syms) (p : symbolS) :
  syms_ok st -> symbol_table_frozen st = false -> ptr_in (heap st) p ->
  exists q st', converted p st = Ret (q, st') /\ good st st' /\ real_in (heap st') q
    /\ ((st' = st /\ exists r, checked st p (inr (q, r)))
        \/ exists l f, checked st p (inl l) /\ converts st p l f q st').
Proof.
  intros Hok Hz Hp. destruct (check_eq st p Hok Hp) as (c & Hc & Hch). unfold converted.
  rewrite (sbind_ret _ _ _ _ _ Hc). destruct c as [l|[q r]].
  - pose proof Hch as (Hl & Hcv & f & Hu & Hf).
    destruct (convert_spec st p l f Hok Hz Hl Hcv Hu Hf) as (q & st' & E & C).
    exists q, st'. split; [done|]. split; [apply C|]. split; [|right; eauto].
    destruct (cv_real _ _ _ _ _ _ C) as (r & Hr & _). by exists r.
  - exists q, st. split; [done|]. split; [by apply good_refl|]. pose proof Hch as [Hq _].
    split; [by exists r|]. left. eauto.
Qed.

Lemma converted_real (st : syms) (p : symbolS) (r : struct_symbol) :
  at_ (heap st) p = Some (Real r) -> converted p st = Ret (p, st).
Proof. intros H. unfold converted. by rewrite (sbind_ret _ _ _ _ _ (check_real _ _ _ H)). Qed.

(** The flags [copy_symbol_attributes] hands on. *)
Definition with_attributes (src dest : struct_symbol) : struct_symbol :=
  upd_bflags (bset (Z.land (bsym_flags src) COPIED_SYMFLAGS)) dest.

Lemma copy_attributes_real (st : syms) (p q : symbolS) (rp rq : struct_symbol) :
  at_ (heap st) p = Some (Real rp) -> at_ (heap st) q = Some (Real rq) ->
  copy_symbol_attributes p q st = Ret (tt, put_at p (Real (with_attributes rq rp)) st).
Proof.
  intros Hp Hq. unfold copy_symbol_attributes.
  rewrite (sbind_ret _ _ _ _ _ (converted_real _ _ _ Hp)), (sbind_ret _ _ _ _ _ (converted_real _ _ _ Hq)).
  rewrite (sbind_ret _ _ _ _ _ (get_real_eq _ _ _ Hq)). by apply upd_real_eq.
Qed.

Lemma attributes_section (src dest : struct_symbol) :
  has_bsf (with_attributes src dest) BSF_SECTION_SYM = has_bsf dest BSF_SECTION_SYM.
Proof.
  unfold has_bsf, bsf, with_attributes, upd_bflags, bset. cbn [bsym_flags]. do 2 f_equal.
  rewrite Z.land_lor_distr_l, <- Z.land_assoc.
  change (Z.land COPIED_SYMFLAGS BSF_SECTION_SYM) with 0. by rewrite Z.land_0_r, Z.lor_0_r.
Qed.

Lemma attributes_ok (h : list symbol) (src dest : struct_symbol) :
  real_ok h dest -> real_ok h (with_attributes src dest).
Proof.
  intros [Hv Hn Hp Hf Hw Hs]. split; try done. intros H. rewrite attributes_section in H. by apply Hs.
Qed.

(** ** Deciding it *)
Definition ptr_b (h : list symbol) (p : symbolS) : bool :=
  match at_ h p with Some _ => true | None => false end.
Definition real_b (h : list symbol) (p : symbolS) : bool :=
  match at_ h p with Some (Real _) => true | _ => false end.
Definition opt_b (P : symbolS -> bool) (p : option symbolS) : bool :=
  match p with Some s => P s | None => true end.
Definition some_b {A : Type} (p : option A) : bool := match p with Some _ => true | None => false end.
Definition frag_b (f : fragP) : bool := match f with Frag n => some_b (fs !! n) | _ => true end.

Definition value_b (h : list symbol) (e : expressionS) : bool :=
  negb (calm && risky (X_op e)) && opt_b (ptr_b h) (X_add_symbol e) && opt_b (ptr_b h) (X_op_symbol e) &&
  match X_op e with
  | O_absent | O_constant | O_register | O_big | O_illegal => true
  | O_symbol | O_symbol_rva => some_b (X_add_symbol e)
  | op => (is_unary op && some_b (X_add_symbol e))
          || (is_binary op && some_b (X_add_symbol e) && some_b (X_op_symbol e))
  end.

Definition real_okb (h : list symbol) (r : struct_symbol) : bool :=
  value_b h (sy_value r) && opt_b (real_b h) (sy_next r) && opt_b (real_b h) (sy_previous r)
  && frag_b (sy_frag r) && negb (sy_weakrefr (sy_flags r))
  && (negb (has_bsf r BSF_SECTION_SYM)
      || (bool_decide (X_op (sy_value r) = O_constant) && negb (bool_decide (bsym_section r = seg_expr)))).

Definition entry_b (h : list symbol) (x : symbol) : bool :=
  match x with
  | Local l =>
      match lsy_u l with
      | lsy_sym p => local_symbol_converted_p l && real_b h p
      | lsy_frag f => negb (local_symbol_converted_p l) && frag_b f
      end
  | Real r => real_okb h r
  end.

Lemma ptr_b_ok (h : list symbol) (p : symbolS) : ptr_b h p = true -> ptr_in h p.
Proof. unfold ptr_b, ptr_in. by destruct (at_ h p). Qed.

Lemma real_b_ok (h : list symbol) (p : symbolS) : real_b h p = true -> real_in h p.
Proof. unfold real_b, real_in. destruct (at_ h p) as [[l|r]|]; [done|eauto|done]. Qed.

Lemma opt_b_ok (P : symbolS -> Prop) (b : symbolS -> bool) (p : option symbolS) :
  (forall s, b s = true -> P s) -> opt_b b p = true -> opt P p.
Proof. destruct p; cbn; auto. Qed.

Lemma some_b_ok {A : Type} (p : option A) : some_b p = true -> is_Some p.
Proof. by destruct p. Qed.

Lemma frag_b_ok (f : fragP) : frag_b f = true -> frag_ok f.
Proof. destruct f; cbn; [done|done|apply some_b_ok]. Qed.

Lemma value_b_ok (h : list symbol) (e : expressionS) : value_b h e = true -> value_ok h e.
Proof.
  unfold value_b. rewrite !andb_true_iff, negb_true_iff, andb_false_iff. intros [[[H0 H1] H2] H3].
  split_and!.
  - intros ->. by destruct H0.
  - eapply opt_b_ok; [apply ptr_b_ok|done].
  - eapply opt_b_ok; [apply ptr_b_ok|done].
  - destruct (X_op e); try done; try (by apply some_b_ok); cbn in H3 |- *;
      destruct (X_add_symbol e), (X_op_symbol e); try done; by eauto.
Qed.

Lemma entry_b_ok (h : list symbol) (x : symbol) : entry_b h x = true -> entry_ok h x.
Proof.
  destruct x as [l|r]; cbn.
  - unfold local_ok. destruct (lsy_u l) as [f|p]; rewrite andb_true_iff.
    + rewrite negb_true_iff. intros [-> Hf]. exists f. split; [done|by apply frag_b_ok].
    + intros [-> Hp]. exists p. split; [done|by apply real_b_ok].
  - unfold real_okb. rewrite !andb_true_iff, !negb_true_iff. intros [[[[[H1 H2] H3] H4] H5] H6].
    split; [by apply value_b_ok|by eapply opt_b_ok; [apply real_b_ok|]..|by apply frag_b_ok|done|].
    intros Hb. rewrite Hb in H6. apply andb_true_iff in H6 as [H6 H7].
    apply negb_true_iff in H7.
    split; [by apply bool_decide_eq_true_1 in H6|by apply bool_decide_eq_false_1 in H7].
Qed.

Lemma table_new_ok (h : list symbol) : table_ok h (hash_new_sized 1).
Proof.
  destruct (hash_new_ok (V := option symbolS) 1 ltac:(lia)) as [H1 H2]. split; [done|].
  intros n p. by rewrite H2, lookup_empty.
Qed.

(** A table whose names have not been entered yet. *)
Lemma syms_b_ok (st : syms) :
  forallb (entry_b (heap st)) (heap st) && opt_b (real_b (heap st)) (symbol_rootP st)
  && opt_b (real_b (heap st)) (symbol_lastP st) = true ->
  sy_hash st = hash_new_sized 1 -> local_hash st = hash_new_sized 1 -> syms_ok st.
Proof.
  rewrite !andb_true_iff. intros [[H1 H2] H3] E1 E2. split.
  - apply Forall_forall. intros x Hx. rewrite forallb_forall in H1.
    by apply entry_b_ok, H1, list_elem_of_In.
  - by eapply opt_b_ok; [apply real_b_ok|].
  - by eapply opt_b_ok; [apply real_b_ok|].
  - rewrite E1. apply table_new_ok.
  - rewrite E2. apply table_new_ok.
Qed.
End ok.
