(* ===== verification/GasResolveOk.v ===== *)
(** * Resolving symbols always ends

    The recursion of [resolve_symbol_value] is bounded by the symbols it can
    still enter: each call marks the symbol it is in.  On a well-formed table the
    call returns, whatever loops the definitions have, unless it evaluates a shift
    or a quotient C does not define. *)
From S2P Require Import Prelude FusionIsa GasHash BfdReloc FusionReloc GasState GasSymbols GasResolve.
From S2P Require Import GasSymbolsOk.
#[local] Open Scope Z_scope.

Section total.
  Context (fs : list frag) (calm : bool).

#[local] Abbreviation ok := (syms_ok fs calm).
#[local] Abbreviation good := (good fs calm).

(** The only fault: an operation C leaves undefined, if there is one. *)
Definition undefined_op (f : fault) : Prop := calm = false /\ f = Fub.

(** ** Inside the call for one symbol *)

(** The symbols that can be entered, but for [s]. *)
Definition others (s : symbolS) (st : syms) : nat :=
  (pending st - match at_ (heap st) s with Some x => weight x | None => 0 end)%nat.

(** [st'] is a later state of the call for [s], begun at [st]: nothing is
    known of [s] but that it is real, and a section symbol or not. *)
Record within (s : symbolS) (st st' : syms) : Prop := {
  w_ok : ok st';
  w_else : forall p x, p <> s -> at_ (heap st) p = Some x ->
             exists x', at_ (heap st') p = Some x' /\ evolves x x';
  w_self : forall r, at_ (heap st) s = Some (Real r) ->
             exists r', at_ (heap st') s = Some (Real r')
               /\ has_bsf r' BSF_SECTION_SYM = has_bsf r BSF_SECTION_SYM;
  w_final : finalize_syms st' = finalize_syms st;
  w_frozen : symbol_table_frozen st' = symbol_table_frozen st;
  w_others : (others s st' <= others s st)%nat
}.

Lemma within_refl (s : symbolS) (st : syms) : ok st -> within s st st.
Proof.
  intros H. split; try done; [|eauto]. intros p x _ Hx. exists x. split; [done|apply evolves_refl].
Qed.

Lemma within_trans (s : symbolS) (s1 s2 s3 : syms) : within s s1 s2 -> within s s2 s3 -> within s s1 s3.
Proof.
  intros [O1 E1 S1 F1 Z1 P1] [O2 E2 S2 F2 Z2 P2]. split; [done| | |congruence|congruence|lia].
  - intros p x Hp Hx. destruct (E1 p x Hp Hx) as (y & Hy & Exy). destruct (E2 p y Hp Hy) as (z & Hz & Eyz).
    exists z. split; [done|by eapply evolves_trans].
  - intros r Hr. destruct (S1 r Hr) as (r' & Hr' & B). destruct (S2 r' Hr') as (r'' & Hr'' & B').
    exists r''. split; [done|congruence].
Qed.

Lemma within_put (s : symbolS) (st : syms) (r r' : struct_symbol) :
  ok st -> at_ (heap st) s = Some (Real r) -> real_ok fs calm (heap st) r' ->
  has_bsf r' BSF_SECTION_SYM = has_bsf r BSF_SECTION_SYM ->
  within s st (put_at s (Real r') st).
Proof.
  intros Hok Hr Hr' Hb. split; try (by destruct s).
  - destruct s as [i]. eapply ok_put; [done|exact Hr|done|]. eapply entry_keeps; [|exact Hr'].
    by eapply keeps_insert.
  - intros p x Hp Hx. exists x. rewrite (at_put_ne _ _ _ _ _ Hr Hp). split; [done|apply evolves_refl].
  - intros r0 Hr0. exists r'. rewrite (at_put_eq _ _ _ _ Hr). split; [done|]. congruence.
  - unfold others. rewrite (at_put_eq _ _ _ _ Hr), Hr. destruct s as [i].
    pose proof (pending_put st i _ (Real r') Hr) as H. unfold put_at. lia.
Qed.

Lemma resolving_weight (r : struct_symbol) : sy_resolving (sy_flags r) = true -> weight (Real r) = 0%nat.
Proof. unfold weight. cbn. by intros ->. Qed.

(** A good step, [s] being marked. *)
Lemma within_good (s : symbolS) (st st' : syms) (r : struct_symbol) :
  at_ (heap st) s = Some (Real r) -> sy_resolving (sy_flags r) = true -> good st st' ->
  within s st st'
  /\ exists r', at_ (heap st') s = Some (Real r') /\ sy_resolving (sy_flags r') = true
       /\ (X_op (sy_value r') = X_op (sy_value r) \/ X_op (sy_value r') = O_constant).
Proof.
  intros Hr Hs [G1 [G2 G3 G4] G5]. destruct (G2 s _ Hr) as ([|r'] & Hr' & E); [done|].
  destruct E as [Hb He].
  specialize (He Hs). split; [|by exists r'].
  split; [done| | |done|done|].
  - intros p x _. apply G2.
  - intros r0 Hr0. exists r'. split; [done|]. congruence.
  - unfold others. rewrite Hr, Hr'. rewrite !resolving_weight by tauto. lia.
Qed.

(** The call for [s] is over. *)
Lemma within_done (s : symbolS) (st st' : syms) (r : struct_symbol) :
  at_ (heap st) s = Some (Real r) -> sy_resolving (sy_flags r) = false -> within s st st' -> good st st'.
Proof.
  intros Hr Hs [W1 W2 W3 W4 W5 W6]. destruct (W3 r Hr) as (r' & Hr' & Hb). split; [done| |].
  - split; [|done|done]. intros p x Hx. destruct (decide (p = s)) as [->|Hne]; [|by apply W2].
    exists (Real r'). split; [done|]. rewrite Hr in Hx. injection Hx as <-. split; [done|]. by rewrite Hs.
  - unfold others in W6. rewrite Hr, Hr' in W6.
    assert (weight (Real r) = 1%nat) as Hw by (unfold weight; cbn; by rewrite Hs). rewrite Hw in W6.
    assert (1 <= pending st)%nat as Hp.
    { rewrite pending_sum. destruct s as [i]. pose proof (sum_insert _ i _ (Real (upd_flags (set_resolving true) r)) Hr) as H.
      rewrite Hw in H. change (weight (Real (upd_flags (set_resolving true) r))) with 0%nat in H. lia. }
    assert (weight (Real r') <= 1)%nat by (unfold weight; case_match; lia). lia.
Qed.

(** ** The parts of the call *)

(** Where the call for [s] is: the table is well formed, [s] is real and not a
    section symbol. *)
Record inside (s : symbolS) (st : syms) : Prop := {
  in_ok : ok st;
  in_frozen : symbol_table_frozen st = false;
  in_real : exists r, at_ (heap st) s = Some (Real r) /\ has_bsf r BSF_SECTION_SYM = false
}.

Lemma inside_within (s : symbolS) (st st' : syms) : inside s st -> within s st st' -> inside s st'.
Proof.
  intros [H1 H2 (r & Hr & Hb)] [W1 W2 W3 W4 W5 W6]. split; [done|congruence|].
  destruct (W3 r Hr) as (r' & Hr' & B). exists r'. split; [done|congruence].
Qed.

Lemma within_ptr (s p : symbolS) (st st' : syms) :
  inside s st -> within s st st' -> ptr_in (heap st) p -> ptr_in (heap st') p.
Proof.
  intros Hi W [x Hx]. destruct (decide (p = s)) as [->|Hne].
  - destruct (in_real _ _ (inside_within _ _ _ Hi W)) as (r & Hr & _). by exists (Real r).
  - destruct (w_else _ _ _ W p x Hne Hx) as (x' & Hx' & _). by exists x'.
Qed.

Lemma real_with_value (h : list symbol) (e : expressionS) (r : struct_symbol) :
  real_ok fs calm h r -> has_bsf r BSF_SECTION_SYM = false -> value_ok calm h e -> real_ok fs calm h (set_value e r).
Proof.
  intros [] Hb He. split; try done. intros H. change (has_bsf (set_value e r) BSF_SECTION_SYM)
    with (has_bsf r BSF_SECTION_SYM) in H. congruence.
Qed.

Section rules.
  Context (s : symbolS).

Lemma upd_within (f : struct_symbol -> struct_symbol) (st : syms) :
  inside s st ->
  (forall r, real_ok fs calm (heap st) r -> has_bsf r BSF_SECTION_SYM = false ->
     real_ok fs calm (heap st) (f r) /\ has_bsf (f r) BSF_SECTION_SYM = false) ->
  wp undefined_op (upd_real s f) st (fun _ st' => within s st st').
Proof.
  intros [Hok _ (r & Hr & Hb)] Hf. unfold wp. rewrite (upd_real_eq _ _ _ _ Hr).
  destruct (Hf r (ok_real _ _ _ _ _ Hok Hr) Hb) as [Hk Hb'].
  eapply within_put; [done|done|done|congruence].
Qed.

Lemma not_resolving_within (st : syms) :
  inside s st -> wp undefined_op (not_resolving s) st (fun _ st' => within s st st').
Proof.
  intros Hi. apply upd_within; [done|]. intros r Hr Hb. split; [|done].
  apply set_flags_ok; [done|]. apply Hr.
Qed.

Lemma equate_within (st : syms) (add : symbolS) (n : Z) :
  inside s st -> ptr_in (heap st) add ->
  wp undefined_op (upd_real s (set_X O_symbol (Some add) (Some add) n)) st (fun _ st' => within s st st').
Proof.
  intros Hi Ha. apply upd_within; [done|]. intros r Hr Hb. split; [|done].
  apply real_with_value; [done|done|]. split_and!; [done|done|done|by eexists].
Qed.

Lemma address_eq (st : syms) : inside s st -> exists a, address_of fs s st = Ret (a, st).
Proof.
  intros [Hok _ (r & Hr & _)]. unfold address_of. rewrite (sbind_ret _ _ _ _ _ (get_real_eq _ _ _ Hr)).
  pose proof (rk_frag _ _ _ _ (ok_real _ _ _ _ _ Hok Hr)) as Hf. unfold slift, frag_address.
  destruct (sy_frag r) as [| |n]; [by eexists..|]. destruct Hf as [x Hx]. rewrite Hx. by eexists.
Qed.

Lemma read_eq {A : Type} (fl : local_symbol -> A) (fr : struct_symbol -> A) (st : syms) (p : symbolS) :
  inside s st -> ptr_in (heap st) p -> exists a, on_kind fl fr p st = Ret (a, st).
Proof. intros Hi. apply (on_kind_eq fs calm), Hi. Qed.

Lemma weakref_eq (st : syms) : inside s st -> S_IS_WEAKREFR s st = Ret (false, st).
Proof.
  intros [Hok _ (r & Hr & _)]. unfold S_IS_WEAKREFR. rewrite (on_kind_real _ _ _ _ _ Hr).
  by rewrite (rk_weak _ _ _ _ (ok_real _ _ _ _ _ Hok Hr)).
Qed.

Lemma shadow_eq (st : syms) : inside s st -> exists b, symbol_shadow_p s st = Ret (b, st).
Proof.
  intros [_ _ (r & Hr & _)]. unfold symbol_shadow_p. rewrite (sbind_ret _ _ _ _ _ (check_real _ _ _ Hr)). eauto.
Qed.

(** [rnext E]: the next step reads the state. *)
Ltac rnext E := let a := fresh "a" in let H := fresh "H" in
  destruct E as [a H]; eapply wp_eq; [exact H|]; clear H.

(** The choice of the symbol, with its attributes: [s] is marked. *)
Lemma attributes_within (st : syms) (add : symbolS) (b : bool) :
  inside s st -> ptr_in (heap st) add ->
  (exists r, at_ (heap st) s = Some (Real r) /\ sy_resolving (sy_flags r) = true) ->
  wp undefined_op
    (if b then add ← converted add; _ ← copy_symbol_attributes s add; mret add else mret add) st
    (fun add' st' => within s st st' /\ ptr_in (heap st') add').
Proof.
  intros Hi Ha (r & Hr & Hs). destruct b; [|by split; [apply within_refl, Hi|]].
  destruct (converted_eq fs calm st add (in_ok _ _ Hi) (in_frozen _ _ Hi) Ha) as (q & st1 & E & G & Hq & _).
  eapply wp_eq; [exact E|]. destruct (within_good s st st1 r Hr Hs G) as [W1 (r1 & Hr1 & _)].
  pose proof (inside_within _ _ _ Hi W1) as Hi1. destruct Hq as [rq Hrq].
  eapply wp_eq; [by apply (copy_attributes_real st1 s q r1 rq)|]. apply wp_ret.
  assert (W2 : within s st1 (put_at s (Real (with_attributes rq r1)) st1)).
  { eapply within_put; [apply Hi1|done| |apply attributes_section].
    apply attributes_ok. by eapply ok_real; [apply Hi1|]. }
  split; [by eapply within_trans|]. eapply within_ptr; [done|done|]. by exists (Real rq).
Qed.

Lemma do_symbol_within (st : syms) (add : symbolS) (final_val : Z) (final_seg : segT) (lv : Z) (seg_left : segT) :
  inside s st -> ptr_in (heap st) add ->
  (exists r, at_ (heap st) s = Some (Real r) /\ sy_resolving (sy_flags r) = true) ->
  wp undefined_op (do_symbol fs s add final_val final_seg lv seg_left) st (fun _ st' => within s st st').
Proof.
  intros Hi Ha Hr. unfold do_symbol. apply wp_gets. set (finalize := finalize_syms st).
  eapply wp_eq; [unfold through_weakref; by rewrite (sbind_ret _ _ _ _ _ (weakref_eq st Hi))|].
  destruct Hr as (r & Hr & Hs). eapply wp_eq; [by apply get_real_eq|].
  destruct (sy_mri_common (sy_flags r)).
  { rnext (read_eq lsy_resolved (fun r => sy_resolved (sy_flags r)) st add Hi Ha).
    apply wp_ret, within_refl, Hi. }
  eapply wp_step; [apply attributes_within; eauto|]. intros add' st1 [W1 Ha1].
  pose proof (inside_within _ _ _ Hi W1) as Hi1.
  rnext (read_eq (fun l => negb (bool_decide (lsy_section l = seg_undefined)))
          (fun r => negb (bool_decide (bsym_section r = seg_undefined))) st1 add' Hi1 Ha1).
  rnext (read_eq (fun _ => false) (fun r => bool_decide (bsym_section r = seg_common)) st1 add' Hi1 Ha1).
  cbv zeta. set (equate := upd_real s _).
  assert (Heq : wp undefined_op (swhen finalize equate) st1 (fun _ st' => within s st1 st')).
  { unfold swhen. destruct finalize; [by apply equate_within|]. apply wp_ret, within_refl, Hi1. }
  assert (Hend : forall st2 (k : bool -> outcome),
    within s st1 st2 ->
    wp undefined_op (resolved ← symbol_resolved_p add'; _ ← not_resolving s; mret (k resolved)) st2
      (fun _ st' => within s st st')).
  { intros st2 k W2. pose proof (inside_within _ _ _ Hi1 W2) as Hi2.
    pose proof (within_ptr _ _ _ _ Hi1 W2 Ha1) as Ha2.
    rnext (read_eq lsy_resolved (fun r => sy_resolved (sy_flags r)) st2 add' Hi2 Ha2).
    eapply wp_step; [by apply not_resolving_within|]. intros ? st3 W3. cbv beta in W3. apply wp_ret.
    by eapply within_trans, within_trans. }
  destruct (negb a || a0).
  { eapply wp_step; [exact Heq|]. intros ? st2 W2. by apply (Hend st2 (mk_out false 0 seg_left)). }
  rnext (shadow_eq st1 Hi1). rnext (address_eq st1 Hi1).
  match goal with |- context [if (finalize && ?c) then _ else _] => destruct (finalize && c) eqn:Hc end.
  { apply andb_true_iff in Hc as [Hf _]. eapply wp_step; [by apply equate_within|].
    intros ? st2 W2. by apply Hend. }
  rnext (read_eq lsy_resolved (fun r => sy_resolved (sy_flags r)) st1 add' Hi1 Ha1).
  eapply wp_eq; [by apply weakref_eq|]. by apply wp_ret.
Qed.

Lemma report_eq (st : syms) (l : option symbolS) (r : symbolS) :
  inside s st -> opt (ptr_in (heap st)) l -> ptr_in (heap st) r ->
  exists log, report_op_error s l r st = Ret (tt, set_sy_log log st).
Proof.
  intros Hi Hl Hr. unfold report_op_error.
  destruct (read_eq lsy_section bsym_section st r Hi Hr) as [b Eb].
  destruct l as [l|].
  - destruct (read_eq lsy_section bsym_section st l Hi Hl) as [a Ea].
    erewrite sbind_ret; [|by rewrite (sbind_ret _ _ _ _ _ Ea)].
    rewrite (sbind_ret _ _ _ _ _ Eb). eexists. reflexivity.
  - erewrite sbind_ret; [|reflexivity]. rewrite (sbind_ret _ _ _ _ _ Eb). eexists. reflexivity.
Qed.

Lemma log_within (st : syms) (l : list diag) : inside s st -> within s st (set_sy_log l st).
Proof.
  intros [Hok _ _]. destruct (log_good fs calm st l Hok) as [G1 [G2 G3 G4] G5].
  split; [done| |eauto|done|done|done]. intros p x _. apply G2.
Qed.

(** Reporting, when [b]. *)
Lemma report_within (st : syms) (b : bool) (l : option symbolS) (r : symbolS) :
  inside s st -> opt (ptr_in (heap st)) l -> ptr_in (heap st) r ->
  wp undefined_op (swhen b (report_op_error s l r)) st (fun _ st' => within s st st').
Proof.
  intros Hi Hl Hr. unfold swhen. destruct b; [|by apply wp_ret, within_refl, Hi].
  destruct (report_eq st l r Hi Hl Hr) as [log E]. unfold wp. rewrite E. by apply log_within.
Qed.

Lemma do_unary_within (st : syms) (add : symbolS) (op : operatorT) (final_val : Z) (final_seg : segT)
    (lv : Z) (seg_left : segT) :
  inside s st -> ptr_in (heap st) add ->
  wp undefined_op (do_unary fs s add op final_val final_seg lv seg_left) st (fun _ st' => within s st st').
Proof.
  intros Hi Ha. unfold do_unary. apply wp_gets.
  eapply wp_step; [by apply report_within|]. intros ? st1 W1. cbv beta in W1.
  pose proof (inside_within _ _ _ Hi W1) as Hi1. pose proof (within_ptr _ _ _ _ Hi W1 Ha) as Ha1.
  rnext (address_eq st1 Hi1).
  rnext (read_eq lsy_resolved (fun r => sy_resolved (sy_flags r)) st1 add Hi1 Ha1). by apply wp_ret.
Qed.

(** The operators of [resolve_arith] stay in C's arithmetic or fault. *)
Lemma resolve_arith_faults (op : operatorT) (lv rv : Z) (v : res Z) :
  resolve_arith op lv rv = Some v -> (rv <> 0 \/ (op <> O_divide /\ op <> O_modulus)) ->
  (exists x, v = Ret x) \/ (v = Fail Fub /\ risky op = true).
Proof.
  intros H Hz. destruct op; try done; injection H as <-; eauto.
  - unfold offset_div. destruct (Z.eqb_spec rv 0); [by destruct Hz as [|[]]|]. case_match; eauto.
  - unfold offset_rem. destruct (Z.eqb_spec rv 0); [by destruct Hz as [|[]]|]. case_match; eauto.
  - case_match; eauto.
  - case_match; eauto.
Qed.

Lemma is_binary_arith (op : operatorT) (lv rv : Z) :
  is_binary op = true -> is_eq_ne op = false -> exists v, resolve_arith op lv rv = Some v.
Proof. destruct op; try done; intros _ _; by eexists. Qed.

(** A step that only reports something. *)
Lemma reports_within (st : syms) (b : bool) (m : SM unit) :
  inside s st -> (exists log, m st = Ret (tt, set_sy_log log st)) ->
  wp undefined_op (swhen b m) st (fun _ st' => within s st st' /\ heap st' = heap st).
Proof.
  intros Hi [log E]. unfold swhen. destruct b; [|by apply wp_ret; split; [apply within_refl, Hi|]].
  unfold wp. rewrite E. split; [by apply log_within|done].
Qed.

Lemma do_binary_within (st : syms) (r : struct_symbol) (add op_symbol : symbolS) (op : operatorT)
    (final_val : Z) (final_seg : segT) (lv rv : Z) (seg_left seg_right : segT) :
  inside s st -> ptr_in (heap st) add -> ptr_in (heap st) op_symbol -> is_binary op = true ->
  (calm = true -> risky op = false) -> at_ (heap st) s = Some (Real r) -> X_op (sy_value r) = op \/ X_op (sy_value r) = O_constant ->
  wp undefined_op (do_binary fs s add op_symbol op final_val final_seg lv rv seg_left seg_right) st
    (fun _ st' => within s st st').
Proof.
  intros Hi Ha Ho Hb Hcalm Hr Hx. unfold do_binary. apply wp_gets. cbv zeta.
  eapply wp_step; [by apply reports_within, report_eq|]. intros ? st1 [W1 H1].
  pose proof (inside_within _ _ _ Hi W1) as Hi1.
  eapply wp_step; [apply reports_within; [done|by eexists]|]. intros ? st2 [W2 H2].
  pose proof (inside_within _ _ _ Hi1 W2) as Hi2. pose proof (within_trans _ _ _ _ W1 W2) as W12.
  rewrite <- H1, <- H2 in Ha, Ho, Hr.
  eapply wp_eq; [by apply get_real_eq|].
  assert (Hfin : forall lv seg, wp undefined_op
    (address ← address_of fs s;
     resolved ← symbol_resolved_p add;
     resolved' ← (if (resolved : bool) then symbol_resolved_p op_symbol else mret false);
     mret (mk_out true (u64 (final_val + (address + lv))) seg resolved')) st2 (fun _ st' => within s st st')).
  { intros lv' seg. rnext (address_eq st2 Hi2).
    destruct (read_eq lsy_resolved (fun r => sy_resolved (sy_flags r)) st2 add Hi2 Ha) as [b0 Eb0].
    eapply wp_eq; [exact Eb0|].
    destruct (read_eq lsy_resolved (fun r => sy_resolved (sy_flags r)) st2 op_symbol Hi2 Ho) as [b Eb].
    destruct b0; [eapply wp_eq; [exact Eb|]|eapply wp_eq; [reflexivity|]]; by apply wp_ret. }
  destruct Hx as [Hx|Hx]; rewrite Hx.
  2:{ eapply wp_eq; [reflexivity|]. apply wp_ret. eapply within_trans; [exact W12|]. by apply log_within. }
  unfold X_op_is. rewrite Hx.
  assert (Harith : forall o rv', o = op -> is_eq_ne o = false -> (rv' <> 0 \/ (o <> O_divide /\ o <> O_modulus)) ->
    forall k, (forall lv, wp undefined_op (k lv) st2 (fun _ st' => within s st st')) ->
    wp undefined_op
      (match resolve_arith o lv rv' with Some v => lv ← slift v; k lv | None => sfail Fabort end) st2
      (fun (_ : outcome) st' => within s st st')).
  { intros o rv' -> Hne Hz k Hk. destruct (is_binary_arith op lv rv' Hb Hne) as [v Hv]. rewrite Hv.
    destruct (resolve_arith_faults op lv rv' v Hv Hz) as [[x ->]|[-> Hrk]].
    2:{ split; [|done]. destruct calm eqn:Ec; [|done]. by rewrite Hcalm in Hrk. }
    eapply wp_eq; [reflexivity|]. apply Hk. }
  destruct op; try done; try apply Hfin; try (apply Harith; [done|done| |intros; apply Hfin]);
    try (by right); left; cbn; destruct (Z.eqb_spec rv 0); done.
Qed.
End rules.

Lemma put_log_comm (p : symbolS) (x : symbol) (l : list diag) (st : syms) :
  put_at p x (set_sy_log l st) = set_sy_log l (put_at p x st).
Proof. by destruct p. Qed.

(** What it may do to the symbol. *)
Record settles (h : list symbol) (r r' : struct_symbol) : Prop := {
  se_ok : real_ok fs calm h r';
  se_section : has_bsf r' BSF_SECTION_SYM = has_bsf r BSF_SECTION_SYM;
  se_resolving : sy_resolving (sy_flags r') = sy_resolving (sy_flags r);
  se_op : X_op (sy_value r') = X_op (sy_value r) \/ X_op (sy_value r') = O_constant
}.

Lemma settle_eq (st : syms) (s : symbolS) (r : struct_symbol) (finalize : bool) (out : outcome) :
  ok st -> at_ (heap st) s = Some (Real r) ->
  (has_bsf r BSF_SECTION_SYM = true -> o_seg out = bsym_section r) ->
  exists r' log, settle s finalize out st = Ret (o_val out, set_sy_log log (put_at s (Real r') st))
    /\ settles (heap st) r r'.
Proof.
  intros Hok Hr Hs. unfold settle.
  set (r1 := if o_set out && finalize then valued (o_val out) r else r).
  set (r2 := set_bsection (o_seg out) r1). set (r3 := upd_flags (set_resolved true) r2).
  pose proof (ok_real _ _ _ _ _ Hok Hr) as Hk.
  assert (Hk1 : real_ok fs calm (heap st) r1) by (unfold r1; case_match; [by apply valued_ok|done]).
  assert (Hb1 : has_bsf r1 BSF_SECTION_SYM = true -> o_seg out = bsym_section r1).
  { unfold r1. case_match; exact Hs. }
  assert (Hk2 : real_ok fs calm (heap st) r2) by (by apply set_bsection_ok).
  assert (Hset : settles (heap st) r r2).
  { split; [done|unfold r2, r1; by case_match..| ]. unfold r2, r1. case_match; [by right|by left]. }
  assert (Hid : put_at s (Real r) st = st).
  { destruct s as [i], st. unfold put_at, set_heap. cbn. f_equal. by apply list_insert_id. }
  assert (E1 : swhen (o_set out && finalize) (S_SET_VALUE s (o_val out)) st = Ret (tt, put_at s (Real r1) st)).
  { unfold swhen, r1. destruct (o_set out && finalize); [by apply S_SET_VALUE_real|by rewrite Hid]. }
  rewrite (sbind_ret _ _ _ _ _ E1). pose proof (at_put_eq st s (Real r1) (Real r) Hr) as Hr1.
  rewrite (sbind_ret _ _ _ _ _ (S_SET_SEGMENT_real _ s r1 (o_seg out) Hr1 Hb1)). fold r2. rewrite put_put.
  pose proof (at_put_eq st s (Real r2) (Real r) Hr) as Hr2.
  assert (Hlog : forall x, x = set_sy_log (sy_log x) x) by (by intros []).
  assert (Hset3 : settles (heap st) r r3).
  { destruct Hset. split; try done. apply set_flags_ok; [done|]. apply Hk2. }
  match goal with |- context [(_ ← ?m; mret (o_val out)) _] => set (last := m) end.
  assert (E3 : exists r' log, last (put_at s (Real r2) st) = Ret (tt, set_sy_log log (put_at s (Real r') st))
                 /\ (r' = r2 \/ r' = r3)).
  { unfold last, swhen. destruct finalize; [destruct (o_resolved out)|].
    - exists r3. eexists. rewrite (upd_real_eq _ _ _ _ Hr2), put_put. split; [|by right]. by rewrite <- Hlog.
    - assert (E : S_GET_SEGMENT s (put_at s (Real r2) st) = Ret (bsym_section r2, put_at s (Real r2) st))
        by by apply on_kind_real.
      rewrite (sbind_ret _ _ _ _ _ E). destruct (decide (bsym_section r2 = seg_expr)).
      + exists r2. eexists. split; [|by left]. unfold mret, SM_ret. by rewrite <- Hlog.
      + exists r3. eexists. split; [|by right]. erewrite sbind_ret; [|reflexivity].
        unfold smodify. rewrite (upd_real_eq _ s r2); [by rewrite put_log_comm, put_put|exact Hr2].
    - exists r2. eexists. split; [|by left]. unfold mret, SM_ret. by rewrite <- Hlog. }
  destruct E3 as (r' & log & E3 & Hr'). exists r', log. rewrite (sbind_ret _ _ _ _ _ E3).
  split; [done|]. by destruct Hr' as [-> | ->].
Qed.


(** ** The call *)
Section call.
  Context (rec : symbolS -> SM Z) (n : nat).
  Context (IH : forall q st, ok st -> symbol_table_frozen st = false -> ptr_in (heap st) q ->
    (pending st < n)%nat -> wp undefined_op (rec q) st (fun _ st' => good st st')).

(** Resolving an operand while [s] is marked. *)
Lemma operand_within (s q : symbolS) (st : syms) (r : struct_symbol) :
  inside s st -> at_ (heap st) s = Some (Real r) -> sy_resolving (sy_flags r) = true ->
  ptr_in (heap st) q -> (pending st < n)%nat ->
  wp undefined_op (rec q) st (fun _ st' => within s st st' /\ inside s st' /\ (pending st' < n)%nat
    /\ (forall p, ptr_in (heap st) p -> ptr_in (heap st') p)
    /\ exists r', at_ (heap st') s = Some (Real r') /\ sy_resolving (sy_flags r') = true
         /\ (X_op (sy_value r') = X_op (sy_value r) \/ X_op (sy_value r') = O_constant)).
Proof.
  intros Hi Hr Hs Hq Hn. eapply wp_mono; [apply IH; [apply Hi|apply Hi|done|done]|].
  intros ? st' G. cbv beta in G. destruct (within_good s st st' r Hr Hs G) as [W Hr'].
  split_and!; [done|by eapply inside_within|pose proof (g_pending _ _ _ _ G); lia| |done].
  intros p. by eapply within_ptr.
Qed.

(** The marked symbol with its operator, in the states the operands are resolved in. *)
Definition marked (s : symbolS) (op : operatorT) (st : syms) : Prop :=
  exists r, at_ (heap st) s = Some (Real r) /\ sy_resolving (sy_flags r) = true
    /\ (X_op (sy_value r) = op \/ X_op (sy_value r) = O_constant).

Lemma operand_marked (s q : symbolS) (op : operatorT) (st : syms) :
  inside s st -> marked s op st -> ptr_in (heap st) q -> (pending st < n)%nat ->
  wp undefined_op (rec q) st (fun _ st' => within s st st' /\ inside s st' /\ (pending st' < n)%nat
    /\ (forall p, ptr_in (heap st) p -> ptr_in (heap st') p) /\ marked s op st').
Proof.
  intros Hi (r & Hr & Hs & Hx) Hq Hn. eapply wp_mono; [by eapply operand_within|].
  intros ? st' (W & Hi' & Hn' & Hp & r' & Hr' & Hs' & Hx'). split_and!; try done.
  exists r'. split; [done|]. split; [done|]. destruct Hx' as [->|]; [done|by right].
Qed.

Lemma marked_put_ok (s : symbolS) (op : operatorT) (st : syms) :
  marked s op st -> exists r, at_ (heap st) s = Some (Real r) /\ sy_resolving (sy_flags r) = true.
Proof. intros (r & ? & ? & _). eauto. Qed.

Lemma seg_eq (s : symbolS) (st : syms) (p : symbolS) :
  inside s st -> ptr_in (heap st) p -> exists seg, S_GET_SEGMENT p st = Ret (seg, st).
Proof. intros Hi Hp. by apply (read_eq s). Qed.

Lemma symbol_within (s a : symbolS) (st : syms) (op : operatorT) (final_val : Z) (final_seg : segT) :
  inside s st -> marked s op st -> op = O_symbol \/ op = O_symbol_rva ->
  ptr_in (heap st) a -> (pending st < n)%nat ->
  wp undefined_op
    (finalize ← sgets finalize_syms;
     add_symbol ← need (Some a);
     lv ← rec add_symbol;
     seg_left ← S_GET_SEGMENT add_symbol;
     _ ← swhen finalize
           (upd_real s (fun r => set_X (X_op (sy_value r)) (X_add_symbol (sy_value r)) None
                                   (X_add_number (sy_value r)) r));
     do_symbol fs s add_symbol final_val final_seg (s64 lv) seg_left) st (fun _ st' => within s st st').
Proof.
  intros Hi Hm Hop Ha Hn. apply wp_gets. eapply wp_eq; [reflexivity|].
  eapply wp_step; [by apply (operand_marked s a op)|]. intros lv st1 (W1 & Hi1 & Hn1 & Hp1 & Hm1).
  destruct (seg_eq s st1 a Hi1 (Hp1 a Ha)) as [seg E]. eapply wp_eq; [exact E|].
  set (f := fun r => set_X (X_op (sy_value r)) (X_add_symbol (sy_value r)) None (X_add_number (sy_value r)) r).
  destruct Hm1 as (r1 & Hr1 & Hs1 & Hx1). pose proof (ok_real _ _ _ _ _ (in_ok _ _ Hi1) Hr1) as Hk1.
  assert (Hb1 : has_bsf r1 BSF_SECTION_SYM = false).
  { destruct (in_real _ _ Hi1) as (r' & Hr' & Hb). congruence. }
  assert (Hf : real_ok fs calm (heap st1) (f r1)).
  { apply real_with_value; [done|done|]. destruct (rk_value _ _ _ _ Hk1) as (H0 & H1 & H2 & H3).
    split_and!; [done|done|done|]. cbn. revert H3.
    by destruct Hx1 as [-> | ->]; [destruct Hop as [-> | ->]|]. }
  eapply wp_step with (P := fun _ st2 => within s st1 st2 /\ exists r2,
    at_ (heap st2) s = Some (Real r2) /\ sy_resolving (sy_flags r2) = true).
  { unfold swhen. destruct (finalize_syms st).
    - unfold wp. rewrite (upd_real_eq _ _ _ _ Hr1). split; [by apply (within_put s st1 r1); [apply Hi1|..]|].
      exists (f r1). split; [by eapply at_put_eq|exact Hs1].
    - apply wp_ret. split; [apply within_refl, Hi1|eauto]. }
  intros ? st2 [W2 Hr2]. pose proof (inside_within _ _ _ Hi1 W2) as Hi2.
  eapply wp_mono; [apply do_symbol_within; [done| |done]|].
  - eapply within_ptr; [exact Hi1|done|]. by apply Hp1.
  - intros ? st3 W3. cbv beta in W3. by eapply within_trans, within_trans.
Qed.

Lemma unary_within (s a : symbolS) (st : syms) (op : operatorT) (final_val : Z) (final_seg : segT) :
  inside s st -> marked s op st -> ptr_in (heap st) a -> (pending st < n)%nat ->
  wp undefined_op
    (add_symbol ← need (Some a);
     lv ← rec add_symbol;
     seg_left ← S_GET_SEGMENT add_symbol;
     do_unary fs s add_symbol op final_val final_seg (s64 lv) seg_left) st (fun _ st' => within s st st').
Proof.
  intros Hi Hm Ha Hn. eapply wp_eq; [reflexivity|].
  eapply wp_step; [by apply (operand_marked s a op)|]. intros lv st1 (W1 & Hi1 & Hn1 & Hp1 & Hm1).
  destruct (seg_eq s st1 a Hi1 (Hp1 a Ha)) as [seg E]. eapply wp_eq; [exact E|].
  eapply wp_mono; [apply do_unary_within; [done|by apply Hp1]|].
  intros ? st2 W2. cbv beta in W2. by eapply within_trans.
Qed.

Lemma binary_within (s a b : symbolS) (st : syms) (op : operatorT) (final_val : Z) (final_seg : segT) :
  inside s st -> marked s op st -> is_binary op = true -> (calm = true -> risky op = false) -> ptr_in (heap st) a -> ptr_in (heap st) b ->
  (pending st < n)%nat ->
  wp undefined_op
    (add_symbol ← need (Some a);
     lv ← rec add_symbol;
     op_symbol ← need (Some b);
     rv ← rec op_symbol;
     seg_left ← S_GET_SEGMENT add_symbol;
     seg_right ← S_GET_SEGMENT op_symbol;
     let left := s64 lv in
     let right := s64 rv in
     if bool_decide (op = O_add) && bool_decide (seg_right = seg_absolute) then
       do_symbol fs s add_symbol (u64 (final_val + right)) final_seg left seg_left
     else if bool_decide (op = O_add) && bool_decide (seg_left = seg_absolute) then
       do_symbol fs s op_symbol (u64 (final_val + left)) final_seg right seg_right
     else if bool_decide (op = O_subtract) && bool_decide (seg_right = seg_absolute) then
       do_symbol fs s add_symbol (u64 (final_val - right)) final_seg left seg_left
     else do_binary fs s add_symbol op_symbol op final_val final_seg left right seg_left seg_right)
    st (fun _ st' => within s st st').
Proof.
  intros Hi Hm Hb Hcalm Ha Hb' Hn. eapply wp_eq; [reflexivity|].
  eapply wp_step; [by apply (operand_marked s a op)|]. intros lv st1 (W1 & Hi1 & Hn1 & Hp1 & Hm1).
  eapply wp_eq; [reflexivity|].
  eapply wp_step; [apply (operand_marked s b op); auto|]. intros rv st2 (W2 & Hi2 & Hn2 & Hp2 & Hm2).
  pose proof (Hp2 a (Hp1 a Ha)) as Ha2. pose proof (Hp2 b (Hp1 b Hb')) as Hb2.
  destruct (seg_eq s st2 a Hi2 Ha2) as [sl El]. eapply wp_eq; [exact El|].
  destruct (seg_eq s st2 b Hi2 Hb2) as [sr Er]. eapply wp_eq; [exact Er|].
  pose proof (within_trans _ _ _ _ W1 W2) as W12. cbv zeta.
  eapply wp_mono with (P := fun _ st' => within s st2 st');
    [|intros ? st3 W3; by eapply within_trans].
  pose proof (marked_put_ok _ _ _ Hm2) as Hr2. destruct Hm2 as (r2 & Hr & _ & Hx).
  repeat (case_match; [by apply do_symbol_within|]). by eapply do_binary_within.
Qed.

Lemma own_part_within (s : symbolS) (st : syms) (r : struct_symbol) (final_seg : segT) :
  inside s st -> marked s (X_op (sy_value r)) st -> value_ok calm (heap st) (sy_value r) -> (pending st < n)%nat ->
  wp undefined_op (own_part fs rec s r final_seg) st (fun _ st' => within s st st').
Proof.
  intros Hi Hm (Hcalm & Ha & Ho & Hv) Hn. assert (W0 : within s st st) by apply within_refl, Hi.
  unfold own_part. destruct (address_eq s st Hi) as [addr Eaddr].
  destruct (X_op (sy_value r)) eqn:Eop; cbv zeta;
    try (by apply wp_ret); try (eapply wp_eq; [exact Eaddr|]; by apply wp_ret);
    try (destruct (X_add_symbol (sy_value r)) as [a|]; [|by destruct Hv]; eapply symbol_within; eauto; fail);
    try (by destruct Hv as [[? _]|[? _]]);
    cbn [is_unary is_binary];
    (destruct Hv as [[Hu (a & Ea)]|(Hb & (a & Ea) & (b & Eb))]; [try done|try done]).
  all: rewrite Ea in Ha |- *.
  all: try (apply unary_within; done).
  all: rewrite Eb in Ho |- *; apply binary_within; done.
Qed.
End call.

Lemma mark_pending (s : symbolS) (st : syms) (r : struct_symbol) :
  at_ (heap st) s = Some (Real r) -> sy_resolving (sy_flags r) = false ->
  pending st = S (pending (put_at s (Real (upd_flags (set_resolving true) r)) st)).
Proof.
  intros Hr Hs. destruct s as [i].
  pose proof (pending_put st i _ (Real (upd_flags (set_resolving true) r)) Hr) as H.
  assert (weight (Real r) = 1%nat) as W by (unfold weight; cbn; by rewrite Hs). rewrite W in H.
  change (weight (Real (upd_flags (set_resolving true) r))) with 0%nat in H. unfold put_at. lia.
Qed.

(** The result of [settle], in the call and outside it. *)
Lemma settle_good (st : syms) (s : symbolS) (r : struct_symbol) (finalize : bool) (out : outcome) :
  ok st -> at_ (heap st) s = Some (Real r) ->
  (has_bsf r BSF_SECTION_SYM = true -> o_seg out = bsym_section r) ->
  wp undefined_op (settle s finalize out) st (fun _ st' => good st st').
Proof.
  intros Hok Hr Hb. destruct (settle_eq st s r finalize out Hok Hr Hb) as (r' & log & E & []).
  unfold wp. rewrite E. pose proof (real_put fs calm st s r r' Hok Hr) as G.
  eapply good_trans; [by apply G|]. apply log_good. by apply G.
Qed.

Lemma settle_within (st : syms) (s : symbolS) (r : struct_symbol) (finalize : bool) (out : outcome) :
  ok st -> at_ (heap st) s = Some (Real r) ->
  (has_bsf r BSF_SECTION_SYM = true -> o_seg out = bsym_section r) ->
  wp undefined_op (settle s finalize out) st (fun _ st' => within s st st').
Proof.
  intros Hok Hr Hb. destruct (settle_eq st s r finalize out Hok Hr Hb) as (r' & log & E & []).
  unfold wp. rewrite E. assert (W : within s st (put_at s (Real r') st)) by by eapply within_put.
  eapply within_trans; [exact W|]. destruct (log_good fs calm _ log (w_ok _ _ _ W)) as [G1 [G2 G3 G4] G5].
  split; [done| |eauto|done|done|done]. intros p x _. apply G2.
Qed.

Lemma resolve_loop_good (n : nat) (p : symbolS) (st : syms) :
  ok st -> symbol_table_frozen st = false -> ptr_in (heap st) p -> (pending st < n)%nat ->
  wp undefined_op (resolve_loop fs n p) st (fun _ st' => good st st').
Proof.
  revert p st. induction n as [|n IH]; [lia|]. intros p st Hok Hz Hp Hn. cbn [resolve_loop].
  apply wp_gets. destruct (check_eq fs calm st p Hok Hp) as (c & E & Hc). eapply wp_eq; [exact E|].
  destruct c as [l|[s r]].
  { destruct Hc as (Hl & Hcv & f & Hu & Hf). destruct (lsy_resolved l); [by apply wp_ret, good_refl|].
    eapply wp_eq; [unfold local_symbol_get_frag; by rewrite Hu|].
    assert (exists a, frag_address fs f = Ret a) as [a Ea].
    { destruct f as [| |k]; [by eexists..|]. destruct Hf as [x Hx]. cbn. rewrite Hx. by eexists. }
    eapply wp_eq; [unfold slift; by rewrite Ea|]. unfold swhen. destruct (finalize_syms st).
    2:{ eapply wp_eq; [reflexivity|]. by apply wp_ret, good_refl. }
    eapply wp_eq; [apply put_sym_eq|]. apply wp_ret. eapply put_good; [done|exact Hl| | |].
    - cbn. by rewrite Hcv.
    - cbn. unfold local_ok. unfold local_symbol_converted_p in *. cbn. rewrite Hcv. eauto.
    - unfold weight. cbn. unfold local_symbol_converted_p in *. cbn. by rewrite Hcv. }
  destruct Hc as [Hr _]. pose proof (ok_real _ _ _ _ _ Hok Hr) as Hk.
  destruct (sy_resolved (sy_flags r)); [by apply wp_ret, good_refl|].
  eapply wp_eq; [by apply on_kind_real|].
  destruct (sy_resolving (sy_flags r)) eqn:Hs.
  { set (st1 := if finalize_syms st then
       set_sy_log (sy_log st ++ [Bad "symbol definition loop encountered at `%s'"]) st else st).
    assert (G : good st st1) by (unfold st1; case_match; [by apply log_good|by apply good_refl]).
    eapply wp_eq; [instantiate (1 := st1); unfold st1, swhen; by destruct (finalize_syms st)|].
    eapply wp_mono; [apply (settle_good st1 s r); [apply G| |done]|].
    - unfold st1. by case_match.
    - intros ? st2 G2. cbv beta in G2. by eapply good_trans. }
  set (r1 := upd_flags (set_resolving true) r). set (st1 := put_at s (Real r1) st).
  assert (W1 : within s st st1).
  { eapply within_put; [done|exact Hr| |done]. apply set_flags_ok; [done|apply Hk]. }
  assert (Hr1 : at_ (heap st1) s = Some (Real r1)) by by eapply at_put_eq.
  pose proof (mark_pending s st r Hr Hs) as Hpd. fold r1 st1 in Hpd.
  eapply wp_mono; [|intros ? st' W; exact (within_done s st st' r Hr Hs W)].
  eapply wp_step with (P := fun out st2 => within s st st2 /\ exists r2, at_ (heap st2) s = Some (Real r2)
    /\ (has_bsf r2 BSF_SECTION_SYM = true -> o_seg out = bsym_section r2)).
  2:{ intros out st2 [W2 (r2 & Hr2 & Hb2)]. eapply wp_mono; [apply (settle_within st2 s r2); [apply W2|done|done]|].
      intros ? st3 W3. cbv beta in W3. by eapply within_trans. }
  eapply wp_eq; [by apply upd_real_eq|]. fold r1 st1.
  (* [own_part], then the mark is removed *)
  assert (Hclear : forall st2 (out : outcome), within s st1 st2 ->
    (forall r2, at_ (heap st2) s = Some (Real r2) -> has_bsf r2 BSF_SECTION_SYM = true -> o_seg out = bsym_section r2) ->
    wp undefined_op (_ ← swhen (o_set out) (not_resolving s); mret out) st2
      (fun out st3 => within s st st3 /\ exists r2, at_ (heap st3) s = Some (Real r2)
        /\ (has_bsf r2 BSF_SECTION_SYM = true -> o_seg out = bsym_section r2))).
  { intros st2 out W2 Hb2. destruct (w_self _ _ _ W2 r1 Hr1) as (r2 & Hr2 & _).
    specialize (Hb2 r2 Hr2). pose proof (ok_real _ _ _ _ _ (w_ok _ _ _ W2) Hr2) as Hk2.
    unfold swhen. destruct (o_set out).
    - eapply wp_eq; [by apply upd_real_eq|]. apply wp_ret. split.
      + eapply within_trans, within_trans; [exact W1|exact W2|].
        apply (within_put s st2 r2); [apply W2|done| |done]. apply set_flags_ok; [done|apply Hk2].
      + eexists. split; [by eapply at_put_eq|]. exact Hb2.
    - eapply wp_eq; [reflexivity|]. apply wp_ret. split; [by eapply within_trans|eauto]. }
  destruct (has_bsf r BSF_SECTION_SYM) eqn:Hb.
  { destruct (rk_section _ _ _ _ Hk Hb) as [Hop Hseg]. unfold own_part. cbv zeta. rewrite Hop.
    assert (exists a, address_of fs s st1 = Ret (a, st1)) as [a Ea].
    { unfold address_of. rewrite (sbind_ret _ _ _ _ _ (get_real_eq _ _ _ Hr1)).
      pose proof (rk_frag _ _ _ _ Hk) as Hf. unfold slift, frag_address. change (sy_frag r1) with (sy_frag r).
      destruct (sy_frag r) as [| |k]; [by eexists..|]. destruct Hf as [x Hx]. rewrite Hx. by eexists. }
    eapply wp_eq; [rewrite (sbind_ret _ _ _ _ _ Ea), (decide_False (P := bsym_section r = seg_expr)) by done; reflexivity|].
    apply Hclear; [apply within_refl, W1|]. intros r2 Hr2 _. rewrite Hr1 in Hr2. by injection Hr2 as <-. }
  assert (Hi1 : inside s st1).
  { split; [apply W1|unfold st1; by destruct s|]. exists r1. done. }
  eapply wp_step; [apply (own_part_within (resolve_loop fs n) n)|].
  - intros q st' Hok' Hz' Hq Hlt. by apply IH.
  - done.
  - exists r1. split; [done|]. split; [done|]. by left.
  - apply (rk_value _ _ _ _ (ok_real _ _ _ _ _ (w_ok _ _ _ W1) Hr1)).
  - lia.
  - intros out st2 W2. cbv beta in W2. apply Hclear; [done|]. intros r2 Hr2.
    destruct (in_real _ _ (inside_within _ _ _ Hi1 W2)) as (r2' & Hr2' & Hb2). congruence.
Qed.

(** C17.  Resolving a symbol of a well-formed table always ends, also when symbols
    are defined by themselves: no pointer is followed out of the table, nothing
    aborts, no symbol is taken for one of the other kind, and the table is well
    formed afterwards with every symbol of the kind it was.  The one fault is a
    shift or a quotient C leaves undefined, and only a table with such an operator
    can have it. *)
Theorem resolve_returns (p : symbolS) (st : syms) :
  ok st -> symbol_table_frozen st = false -> ptr_in (heap st) p ->
  (exists v st', resolve_symbol_value fs p st = Ret (v, st') /\ ok st' /\ later st st')
  \/ (calm = false /\ resolve_symbol_value fs p st = Fail Fub).
Proof.
  intros Hok Hz Hp. pose proof (resolve_loop_good (S (pending st)) p st Hok Hz Hp ltac:(lia)) as H.
  unfold wp in H. change (resolve_loop fs _ p st) with (resolve_symbol_value fs p st) in H.
  destruct (resolve_symbol_value fs p st) as [[v st']|f].
  - left. exists v, st'. split; [done|]. split; apply H.
  - right. destruct H as [? ->]. done.
Qed.
End total.

(** [a] is defined as [b - c] and [b] as [a + 1]; [c] is a local label. *)
Definition real_sym (name : string) (seg : segT) (e : expressionS) (next : option symbolS) : symbol :=
  Real (mk_struct no_flags name 0 seg e next None zero_address_frag).

Definition loop_syms : syms :=
  mk_syms
    (heap (symbol_begin 1) ++
     [real_sym "a" seg_expr (mk_expr (Some (Sym 3)) (Some (Sym 4)) 0 O_subtract) (Some (Sym 3));
      real_sym "b" seg_expr (mk_expr (Some (Sym 2)) None 1 O_symbol) None;
      Local (mk_local false (seg_normal 0) ".Lc" (lsy_frag zero_address_frag) 8)])
    (hash_new_sized 1) (hash_new_sized 1) (Some (Sym 2)) (Some (Sym 3)) [] true false [] [] [] [].

Lemma loop_syms_ok : syms_ok [] true loop_syms.
Proof. by apply syms_b_ok. Qed.

Lemma resolve_returns_witness :
  (exists v st', resolve_symbol_value [] (Sym 2) loop_syms = Ret (v, st') /\ syms_ok [] true st'
     /\ later loop_syms st')
  /\ exists st', resolve_symbol_value [] (Sym 2) loop_syms = Ret (0, st') /\ length (sy_log st') = 4%nat.
Proof.
  split; [|eexists; split; [vm_compute; reflexivity|reflexivity]].
  destruct (resolve_returns [] true (Sym 2) loop_syms loop_syms_ok eq_refl) as [H|[H _]].
  - by eexists.
  - exact H.
  - discriminate.
Defined.
