(* ===== verification/GasResolveVal.v ===== *)
(** * What symbols resolve to

    [sym_value] is the value and the section a symbol denotes, computed from the
    definitions alone: no state, no marks, no order.  When the symbols are being
    finalized, [resolve_symbol_value] returns that value, reports nothing and
    leaves every symbol denoting what it did, so the order of the calls and their
    number do not matter.  The reference covers the symbols that end up with a
    value: those equated to an undefined or common symbol, or to a label plus a
    constant through an expression symbol, keep an expression for the relocation
    code; [equated_again] is about the latter. *)
From S2P Require Import Prelude FusionIsa GasHash BfdReloc FusionReloc GasState GasSymbols GasResolve.
From S2P Require Import GasSymbolsOk GasResolveOk.
#[local] Open Scope Z_scope.

Section reference.
  Context (fs : list frag).

(** ** The reference *)

(** A section a value can be relative to. *)
Definition settled (s : segT) : bool :=
  match s with seg_absolute | seg_reg | seg_normal _ => true | _ => false end.

Definition address (f : fragP) : option Z :=
  match frag_address fs f with Ret a => Some a | Fail _ => None end.

(** The symbol [a] plus the constant [n]. *)
Definition plus_symbol (n addr : Z) (sec : segT) (a : Z * segT) : option (Z * segT) :=
  if decide (sec = seg_expr) then None
  else Some (u64 (n + addr + s64 a.1), if undecided sec then a.2 else sec).

Definition unary_value (op : operatorT) (x : Z) : Z :=
  match op with O_uminus => s64 (- x) | O_logical_not => c_bool (x =? 0) | _ => Z.lnot x end.

(** A binary operator on two values, [same] being whether they are one symbol's. *)
Definition binary_value (op : operatorT) (x y : Z) (sx sy : segT) (same : bool) : option Z :=
  if negb (operands_ok op sx sy same) then None
  else if is_eq_ne op then
    let eq := all_ones ((x =? y) && bool_decide (sx = sy) && (negb (bool_decide (sx = seg_undefined)) || same)) in
    Some (if decide (op = O_ne) then Z.lnot eq else eq)
  else if (bool_decide (op = O_divide) || bool_decide (op = O_modulus)) && (y =? 0) then None
  else match resolve_arith op x y with Some (Ret v) => Some v | _ => None end.

(** An expression in the section [sec], given what its symbols denote. *)
Definition expr_value (val : symbolS -> option (Z * segT)) (e : expressionS) (addr : Z) (sec : segT)
  : option (Z * segT) :=
  let n := u64 (X_add_number e) in
  match X_op e with
  | O_absent => Some (u64 (0 + addr), if decide (sec = seg_expr) then seg_absolute else sec)
  | O_constant => Some (u64 (n + addr), if decide (sec = seg_expr) then seg_absolute else sec)
  | O_register => Some (n, sec)
  | O_symbol | O_symbol_rva =>
      a ← X_add_symbol e; va ← val a; plus_symbol n addr sec va
  | op =>
      let sec' := if undecided sec then seg_absolute else sec in
      if is_unary op then
        a ← X_add_symbol e; va ← val a;
        if negb (bool_decide (op = O_logical_not)) && negb (bool_decide (va.2 = seg_absolute)) then None
        else Some (u64 (n + (unary_value op (s64 va.1) + addr)), sec')
      else if is_binary op then
        a ← X_add_symbol e; b ← X_op_symbol e; va ← val a; vb ← val b;
        let x := s64 va.1 in
        let y := s64 vb.1 in
        if bool_decide (op = O_add) && bool_decide (vb.2 = seg_absolute) then plus_symbol (u64 (n + y)) addr sec va
        else if bool_decide (op = O_add) && bool_decide (va.2 = seg_absolute) then
          plus_symbol (u64 (n + x)) addr sec vb
        else if bool_decide (op = O_subtract) && bool_decide (vb.2 = seg_absolute) then
          plus_symbol (u64 (n - y)) addr sec va
        else z ← binary_value op x y va.2 vb.2 (bool_decide (a = b)); Some (u64 (n + (addr + z)), sec')
      else None
  end.

Definition when_settled (w : option (Z * segT)) : option (Z * segT) :=
  w ← w; if settled w.2 then Some w else None.

(** The symbol [x] at [t]. *)
Definition entry_value (val : symbolS -> option (Z * segT)) (t : symbolS) (x : symbol) : option (Z * segT) :=
  match x with
  | Local l =>
      when_settled
        (if lsy_resolved l then
           if u64 (lsy_value l) =? lsy_value l then Some (lsy_value l, lsy_section l) else None
         else match lsy_u l with
              | lsy_frag f => a ← address f; Some (u64 (lsy_value l + a), lsy_section l)
              | lsy_sym _ => None
              end)
  | Real r =>
      if sy_mri_common (sy_flags r) || bool_decide (sy_next r = Some t) then None
      else if sy_resolved (sy_flags r) then
        if X_op_is (sy_value r) O_constant
        then when_settled (Some (u64 (X_add_number (sy_value r)), bsym_section r)) else None
      else a ← address (sy_frag r); when_settled (expr_value val (sy_value r) a (bsym_section r))
  end.

(** The symbol a pointer leads to. *)
Definition look (h : list symbol) (p : symbolS) : option (symbolS * symbol) :=
  match at_ h p with
  | Some (Local l) =>
      if local_symbol_converted_p l then
        match lsy_u l with
        | lsy_sym q => match at_ h q with Some (Real r) => Some (q, Real r) | _ => None end
        | lsy_frag _ => None
        end
      else Some (p, Local l)
  | Some (Real r) => Some (p, Real r)
  | None => None
  end.

(** What [p] denotes, definitions nested at most [n] deep. *)
Fixpoint sym_value (n : nat) (h : list symbol) (p : symbolS) : option (Z * segT) :=
  match n with
  | O => None
  | S k => match look h p with Some (t, x) => entry_value (sym_value k h) t x | None => None end
  end.

(** ** More is known with more symbols *)
Definition less_known (v1 v2 : symbolS -> option (Z * segT)) : Prop :=
  forall q w, v1 q = Some w -> v2 q = Some w.

Lemma expr_value_mono (v1 v2 : symbolS -> option (Z * segT)) (e : expressionS) (a : Z) (sec : segT)
    (w : Z * segT) :
  less_known v1 v2 -> expr_value v1 e a sec = Some w -> expr_value v2 e a sec = Some w.
Proof.
  intros Hl. unfold expr_value. cbv zeta.
  assert (H1 : forall (A : Type) o (k1 k2 : Z * segT -> option A) u,
    (forall va, k1 va = Some u -> k2 va = Some u) ->
    (a ← o; va ← v1 a; k1 va) = Some u -> (a ← o; va ← v2 a; k2 va) = Some u).
  { intros A o k1 k2 u Hk. destruct o as [s|]; [|done]. cbn. destruct (v1 s) as [va|] eqn:E; [|done].
    rewrite (Hl s va E). apply Hk. }
  assert (H2 : forall o o' (k : symbolS -> symbolS -> Z * segT -> Z * segT -> option (Z * segT)),
    (a ← o; b ← o'; va ← v1 a; vb ← v1 b; k a b va vb) = Some w ->
    (a ← o; b ← o'; va ← v2 a; vb ← v2 b; k a b va vb) = Some w).
  { intros o o' k. destruct o as [s|], o' as [s'|]; try done. cbn.
    destruct (v1 s) as [va|] eqn:E; [|done]. destruct (v1 s') as [vb|] eqn:E'; [|done].
    by rewrite (Hl s va E), (Hl s' vb E'). }
  destruct (X_op e); try done; cbn [is_unary is_binary]; try (apply H1; done); apply H2.
Qed.

Lemma entry_value_mono (v1 v2 : symbolS -> option (Z * segT)) (t : symbolS) (x : symbol) (w : Z * segT) :
  less_known v1 v2 -> entry_value v1 t x = Some w -> entry_value v2 t x = Some w.
Proof.
  intros Hl. destruct x as [l|r]; [done|]. cbn. case_match; [done|]. case_match; [done|].
  destruct (address (sy_frag r)) as [a|]; [|done]. cbn. unfold when_settled.
  destruct (expr_value v1 _ _ _) as [u|] eqn:E; [|done]. by rewrite (expr_value_mono _ _ _ _ _ _ Hl E).
Qed.

Lemma sym_value_mono (n m : nat) (h : list symbol) (p : symbolS) (w : Z * segT) :
  (n <= m)%nat -> sym_value n h p = Some w -> sym_value m h p = Some w.
Proof.
  revert m p w. induction n as [|n IH]; intros [|m] p w Hnm; try done; [lia|]. cbn.
  destruct (look h p) as [[t x]|]; [|done]. apply entry_value_mono. intros q u. apply IH. lia.
Qed.

Lemma settled_of (w : option (Z * segT)) (u : Z * segT) :
  when_settled w = Some u -> w = Some u /\ settled u.2 = true.
Proof. unfold when_settled. destruct w as [v|]; [|done]. cbn. case_match; [|done]. by intros [= <-]. Qed.

Lemma entry_settled (val : symbolS -> option (Z * segT)) (t : symbolS) (x : symbol) (w : Z * segT) :
  entry_value val t x = Some w -> settled w.2 = true.
Proof.
  destruct x as [l|r]; cbn -[when_settled]; [by intros [_ ?]%settled_of|].
  case_match; [done|]. case_match.
  - case_match; [|done]. by intros [_ ?]%settled_of.
  - destruct (address _); [|done]. cbn -[when_settled]. by intros [_ ?]%settled_of.
Qed.

(** ** A table with the values of its symbols *)
Section model.
  Context (calm : bool).
  (** The value of each symbol of the table and how deep its definition goes. *)
  Context (val : symbolS -> option (Z * segT)) (rank : symbolS -> nat).

#[local] Abbreviation ok := (syms_ok fs calm).

Definition below (k : nat) (q : symbolS) : option (Z * segT) := if decide (rank q < k)%nat then val q else None.

(** In every state each symbol means what it did, the symbols of its definition
    being less deep; two pointers to one symbol are as deep. *)
Record model (st : syms) : Prop := {
  mo_value : forall p w, val p = Some w ->
    exists t x, look (heap st) p = Some (t, x) /\ entry_value (below (rank p)) t x = Some w;
  mo_alias : forall p q t x y, is_Some (val p) -> is_Some (val q) ->
    look (heap st) p = Some (t, x) -> look (heap st) q = Some (t, y) -> rank p = rank q
}.

Definition resolving (x : symbol) : bool :=
  match x with Local _ => false | Real r => sy_resolving (sy_flags r) end.
Definition resolved (x : symbol) : bool :=
  match x with Local l => lsy_resolved l | Real r => sy_resolved (sy_flags r) end.
Definition section (x : symbol) : segT :=
  match x with Local l => lsy_section l | Real r => bsym_section r end.

(** No symbol less deep than [m] is being resolved. *)
Definition quiet (m : nat) (st : syms) : Prop :=
  forall p w t x, val p = Some w -> (rank p < m)%nat -> look (heap st) p = Some (t, x) -> resolving x = false.

(** What the call for [p] leaves of the other symbols: those as deep as [p] are
    not touched, no symbol is unresolved again. *)
Record frame (p : symbolS) (st st' : syms) : Prop := {
  fr_same : forall q u t x, val q = Some u -> look (heap st) q = Some (t, x) -> (rank p <= rank q)%nat ->
    (forall y, look (heap st) p <> Some (t, y)) ->
    exists x', look (heap st') q = Some (t, x') /\ links t x x';
  fr_resolved : forall q u t x, val q = Some u -> look (heap st) q = Some (t, x) ->
    exists t' x', look (heap st') q = Some (t', x') /\ (resolved x = true -> resolved x' = true)
      /\ (t' = t \/ ~ ptr_in (heap st) t');
  fr_grows : forall q, ptr_in (heap st) q -> ptr_in (heap st') q
}.

Lemma look_at (h : list symbol) (p t : symbolS) (x : symbol) :
  look h p = Some (t, x) -> at_ h t = Some x
  /\ match x with Local l => t = p /\ local_symbol_converted_p l = false | Real _ => True end.
Proof.
  unfold look. destruct (at_ h p) as [[l|r]|] eqn:E; [|by intros [= <- <-]|done].
  destruct (local_symbol_converted_p l) eqn:Hc; [|by intros [= <- <-]].
  destruct (lsy_u l) as [f|q]; [done|]. destruct (at_ h q) as [[l'|r]|] eqn:Eq; try done.
  by intros [= <- <-].
Qed.

Lemma look_ptr (h : list symbol) (p t : symbolS) (x : symbol) : look h p = Some (t, x) -> ptr_in h p.
Proof. unfold look. destruct (at_ h p) eqn:E; [by eexists|done]. Qed.

Lemma look_place (h : list symbol) (p t : symbolS) (x : symbol) : look h p = Some (t, x) -> ptr_in h t.
Proof. intros H. exists x. apply (look_at _ _ _ _ H). Qed.

Lemma look_same (h : list symbol) (p q t : symbolS) (x y : symbol) :
  look h p = Some (t, x) -> look h q = Some (t, y) -> x = y.
Proof. intros H1 H2. pose proof (look_at _ _ _ _ H1) as []. pose proof (look_at _ _ _ _ H2) as []. congruence. Qed.

Lemma frame_refl (p : symbolS) (st : syms) : frame p st st.
Proof.
  split; [|intros q u t x _ Hq; exists t, x; auto|done].
  intros q u t x _ Hq _ _. exists x. split; [done|apply links_refl].
Qed.

Lemma frame_trans (p : symbolS) (w : Z * segT) (s1 s2 s3 : syms) :
  val p = Some w -> is_Some (look (heap s1) p) -> frame p s1 s2 -> frame p s2 s3 -> frame p s1 s3.
Proof.
  intros Hw [[s y] Hs] F1 F2. split; [| |intros q Hq; apply F2, F1, Hq].
  - intros q u t x Hu Hq Hr Hne. destruct (fr_same _ _ _ F1 q u t x Hu Hq Hr Hne) as (x1 & H1 & L1).
    destruct (fr_same _ _ _ F2 q u t x1 Hu H1 Hr) as (x2 & H2 & L2).
    + intros y' Hy'. destruct (fr_resolved _ _ _ F1 p w s y Hw Hs) as (s' & y'' & Hs' & _ & Hp).
      rewrite Hy' in Hs'. injection Hs' as <- <-. destruct Hp as [<-|Hp]; [by apply (Hne y)|].
      by apply Hp, (look_place _ _ _ _ Hq).
    + exists x2. split; [done|by eapply links_trans].
  - intros q u t x Hu Hq. destruct (fr_resolved _ _ _ F1 q u t x Hu Hq) as (t1 & x1 & H1 & R1 & P1).
    destruct (fr_resolved _ _ _ F2 q u t1 x1 Hu H1) as (t2 & x2 & H2 & R2 & P2).
    exists t2, x2. split_and!; [done|auto|]. destruct P2 as [->|P2]; [done|]. right. intros Hin.
    by apply P2, F1.
Qed.

(** A call for a symbol of the definition of [p]. *)
Lemma frame_lower (a p : symbolS) (st st' : syms) :
  model st -> is_Some (val a) -> (rank a < rank p)%nat -> frame a st st' -> frame p st st'.
Proof.
  intros Hm Ha Hlt [F1 F2 F3]. split; [|done|done].
  intros q u t x Hu Hq Hr _. apply (F1 q u); [done|done|lia|].
  intros y Hy. assert (rank a = rank q); [|lia]. by eapply mo_alias; [| |by eexists|exact Hy|exact Hq].
Qed.

(** Looking after the symbol at [t] has changed, but not its kind. *)
Definition stays (x x' : symbol) : Prop :=
  match x, x' with
  | Local l, Local l' => local_symbol_converted_p l = false /\ local_symbol_converted_p l' = false
  | Real _, Real _ => True
  | _, _ => False
  end.

Lemma look_put (st : syms) (t : symbolS) (x x' : symbol) (q : symbolS) :
  at_ (heap st) t = Some x -> stays x x' ->
  look (heap (put_at t x' st)) q
  = match look (heap st) q with
    | Some (u, y) => if decide (u = t) then Some (t, x') else Some (u, y)
    | None => None
    end.
Proof.
  intros Ht Hs. unfold look. rewrite (at_put _ _ _ _ _ Ht). destruct (decide (q = t)) as [->|Hne].
  - rewrite Ht. destruct x as [l|r], x' as [l'|r']; try done.
    + destruct Hs as [-> ->]. by rewrite decide_True.
    + by rewrite decide_True.
  - destruct (at_ (heap st) q) as [[l|r]|] eqn:Eq; [|by rewrite decide_False|done].
    destruct (local_symbol_converted_p l) eqn:Hc; [|by rewrite decide_False].
    destruct (lsy_u l) as [f|u]; [done|]. rewrite (at_put _ _ _ _ _ Ht).
    destruct (decide (u = t)) as [->|].
    + rewrite Ht. destruct x as [lx|rx], x' as [lx'|rx']; try done. by rewrite decide_True.
    + destruct (at_ (heap st) u) as [[lu|ru]|]; try done. by rewrite decide_False.
Qed.

(** Changing the symbol [p] leads to, but not what it denotes. *)
Lemma put_model (st : syms) (p t : symbolS) (x x' : symbol) (w : Z * segT) :
  model st -> val p = Some w -> look (heap st) p = Some (t, x) -> stays x x' ->
  entry_value (below (rank p)) t x' = Some w -> (resolved x = true -> resolved x' = true) ->
  let st' := put_at t x' st in
  model st' /\ frame p st st' /\ look (heap st') p = Some (t, x') /\ (quiet (rank p) st -> quiet (rank p) st').
Proof.
  intros [Mv Ma] Hw Hp Hs Hv Hd. cbv zeta. pose proof (proj1 (look_at _ _ _ _ Hp)) as Ht.
  pose proof (look_put st t x x') as Hl.
  assert (Hsame : forall q u y, val q = Some u -> look (heap st) q = Some (t, y) -> rank p = rank q /\ w = u).
  { intros q u y Hu Hq. assert (rank p = rank q) as E by (by eapply Ma; [by eexists|by eexists| |]).
    split; [done|]. destruct (Mv p w Hw) as (t1 & x1 & H1 & V1). destruct (Mv q u Hu) as (t2 & x2 & H2 & V2).
    rewrite E in V1. rewrite Hq in H2. rewrite Hp in H1. injection H1 as <- <-. injection H2 as <- <-.
    rewrite (look_same _ _ _ _ _ _ Hp Hq) in V1. congruence. }
  split_and!; [split|split| |].
  - intros q u Hu. destruct (Mv q u Hu) as (t1 & x1 & Hq & Hq'). rewrite (Hl q Ht Hs), Hq.
    destruct (decide (t1 = t)) as [->|]; [|by exists t1, x1]. exists t, x'. split; [done|].
    destruct (Hsame q u x1 Hu Hq) as [<- <-]. done.
  - intros q1 q2 t0 y1 y2 H1 H2. rewrite !(Hl _ Ht Hs).
    destruct (look (heap st) q1) as [[t1 x1]|] eqn:E1; [|done].
    destruct (look (heap st) q2) as [[t2 x2]|] eqn:E2; [|done]. intros L1 L2.
    assert (t1 = t2) as ->; [|by eapply Ma].
    destruct (decide (t1 = t)) as [->|], (decide (t2 = t)) as [->|]; congruence.
  - intros q u t1 x1 Hu Hq _ Hne. rewrite (Hl q Ht Hs), Hq. destruct (decide (t1 = t)) as [->|].
    + by destruct (Hne x).
    + exists x1. split; [done|apply links_refl].
  - intros q u t1 x1 Hu Hq. rewrite (Hl q Ht Hs), Hq. destruct (decide (t1 = t)) as [->|].
    + exists t, x'. rewrite <- (look_same _ _ _ _ _ _ Hp Hq). auto.
    + exists t1, x1. auto.
  - intros q [y Hq]. unfold ptr_in. rewrite (at_put _ _ _ _ _ Ht). case_match; [done|by exists y].
  - rewrite (Hl p Ht Hs), Hp. by rewrite decide_True.
  - intros Hqt q u t1 x1 Hu Hr. rewrite (Hl q Ht Hs). destruct (look (heap st) q) as [[t2 x2]|] eqn:E; [|done].
    destruct (decide (t2 = t)) as [->|].
    + destruct (Hsame q u x2 Hu E) as [E' _]. lia.
    + intros [= <- <-]. by eapply Hqt.
Qed.

(** The list pointers do not matter to a value. *)
Lemma entry_links (v : symbolS -> option (Z * segT)) (t : symbolS) (x x' : symbol) (w : Z * segT) :
  links t x x' -> entry_value v t x = Some w -> entry_value v t x' = Some w.
Proof.
  destruct x as [l|r], x' as [l'|r']; cbn [links]; [by intros ->|done|done|]. intros [E N].
  unfold entry_value. rewrite E. cbn [sy_flags sy_next sy_value sy_frag bsym_section set_previous set_next].
  destruct (sy_mri_common (sy_flags r)); [done|]. cbn [orb].
  destruct (decide (sy_next r = Some t)) as [Hn|Hn].
  - by rewrite (bool_decide_eq_true_2 _ Hn).
  - rewrite (bool_decide_eq_false_2 _ Hn), bool_decide_eq_false_2 by auto. done.
Qed.

Lemma links_same (t : symbolS) (x x' : symbol) :
  links t x x' -> resolving x' = resolving x /\ resolved x' = resolved x /\ section x' = section x.
Proof. destruct x as [l|r], x' as [l'|r']; cbn [links]; [by intros ->|done|done|]. by intros [-> _]. Qed.

(** The local symbol of [a] has become real. *)
Lemma converts_look (st st' : syms) (a : symbolS) (l : local_symbol) (f : fragP) (q : symbolS) (w : Z * segT) :
  model st -> val a = Some w -> look (heap st) a = Some (a, Local l) -> lsy_resolved l = true ->
  converts fs calm st a l f q st' ->
  (exists r, look (heap st') a = Some (q, Real r) /\ at_ (heap st') q = Some (Real r)
     /\ sy_resolved (sy_flags r) = true /\ bsym_section r = w.2 /\ sy_resolving (sy_flags r) = false
     /\ entry_value (below (rank a)) q (Real r) = Some w)
  /\ (forall p t x, p <> a -> look (heap st) p = Some (t, x) ->
        exists x', look (heap st') p = Some (t, x') /\ links t x x').
Proof.
  intros [Mv _] Hw Ha Hl [Hg Hq Hat (r & Hr & Hlk) Hel _ _]. split.
  - destruct (Mv a w Hw) as (t & x & Ht & Hv). rewrite Ha in Ht. injection Ht as <- <-.
    cbn in Hv. rewrite Hl in Hv. apply settled_of in Hv as [Hv Hset].
    destruct (Z.eqb_spec (u64 (lsy_value l)) (lsy_value l)) as [Hu|]; [|done]. injection Hv as <-.
    exists r. unfold look. rewrite Hat. cbn. rewrite Hr. destruct Hlk as [E N].
    split_and!; [done|done|by rewrite E|by rewrite E|by rewrite E|].
    rewrite E. unfold entry_value. cbn [sy_flags sy_next sy_value bsym_section set_previous set_next upd_flags
      created set_used set_resolved no_flags sy_mri_common sy_resolved X_add_number].
    rewrite bool_decide_eq_false_2 by (intros H; by apply N in H). cbn [orb]. rewrite Hl.
    unfold when_settled. cbn in Hset |- *. by rewrite u64_s64, Hu, Hset.
  - intros p t x Hne Hp. pose proof (look_at _ _ _ _ Hp) as [Ht Hk].
    assert (t <> a) as Hta.
    { intros ->. pose proof (look_at _ _ _ _ Ha) as [Ha' _]. rewrite Ha' in Ht. injection Ht as <-.
      by destruct Hk. }
    unfold look in Hp |- *. destruct (at_ (heap st) p) as [y|] eqn:Ey; [|done].
    destruct (Hel p y Hne Ey) as (y' & Hy' & Ly). rewrite Hy'. destruct y as [l0|r0], y' as [l1|r1]; try done.
    + cbn in Ly. subst l1. destruct (local_symbol_converted_p l0).
      * destruct (lsy_u l0) as [|s]; [done|]. destruct (at_ (heap st) s) as [[l1|r1]|] eqn:Es; try done.
        injection Hp as <- <-. destruct (Hel s _ Hta Es) as ([l2|r2] & H2 & L2); [done|]. rewrite H2.
        by exists (Real r2).
      * injection Hp as <- <-. by exists (Local l0).
    + injection Hp as <- <-. by exists (Real r1).
Qed.

Lemma converts_model (st st' : syms) (a : symbolS) (l : local_symbol) (f : fragP) (q : symbolS) (w : Z * segT)
    (m : nat) :
  model st -> val a = Some w -> look (heap st) a = Some (a, Local l) -> lsy_resolved l = true ->
  converts fs calm st a l f q st' -> quiet m st -> model st' /\ frame a st st' /\ quiet m st'.
Proof.
  intros Hm Hw Ha Hl C Hqt. destruct (converts_look _ _ _ _ _ _ _ Hm Hw Ha Hl C) as [(r & Hr & Hat & Hrd & Hsec & Hrv & Hv) Hel].
  pose proof (cv_new _ _ _ _ _ _ _ _ C) as Hq. destruct Hm as [Mv Ma].
  assert (Hnew : forall p t x, look (heap st) p = Some (t, x) -> t <> q).
  { intros p t x Hp ->. apply look_place in Hp. rewrite Hq in Hp. by apply (not_fresh st (fresh st) Hp). }
  assert (Hback : forall p t y, is_Some (val p) -> look (heap st') p = Some (t, y) ->
    (p = a /\ t = q) \/ (p <> a /\ exists x, look (heap st) p = Some (t, x) /\ links t x y)).
  { intros p t y [u Hu] Hy. destruct (decide (p = a)) as [->|Hne]; [left; split; congruence|].
    right. split; [done|]. destruct (Mv p u Hu) as (t1 & x1 & H1 & _). destruct (Hel p t1 x1 Hne H1) as (x2 & H2 & L2).
    exists x1. rewrite Hy in H2. injection H2 as <- <-. done. }
  split_and!; [split|split|].
  - intros p u Hu. destruct (decide (p = a)) as [->|Hne].
    + exists q, (Real r). split; [done|]. congruence.
    + destruct (Mv p u Hu) as (t & x & Hp & Hpv). destruct (Hel p t x Hne Hp) as (x' & Hx' & L).
      exists t, x'. split; [done|by eapply entry_links].
  - intros p1 p2 t y1 y2 H1 H2 L1 L2.
    destruct (Hback p1 t y1 H1 L1) as [[-> Ht']|[Hn1 (x1 & E1 & _)]],
             (Hback p2 t y2 H2 L2) as [[-> Ht]|[Hn2 (x2 & E2 & _)]]; [done| | |by eapply Ma].
    + by destruct (Hnew _ _ _ E2 Ht').
    + by destruct (Hnew _ _ _ E1 Ht).
  - intros p u t x Hu Hp _ Hne. apply (Hel p t x); [|done]. intros ->. by apply (Hne x).
  - intros p u t x Hu Hp. destruct (decide (p = a)) as [->|Hne].
    + exists q, (Real r). split_and!; [done|done|]. right. rewrite Hq. intros H. by apply (not_fresh st (fresh st) H).
    + destruct (Hel p t x Hne Hp) as (x' & Hx' & L). exists t, x'.
      destruct (links_same _ _ _ L) as (_ & -> & _). auto.
  - intros p. apply ptr_later, (cv_good _ _ _ _ _ _ _ _ C).
  - intros p u t y Hu Hlt Hy. destruct (Hback p t y ltac:(by eexists) Hy) as [[-> ->]|[_ (x & Hx & L)]].
    + rewrite Hr in Hy. by injection Hy as <-.
    + destruct (links_same _ _ _ L) as (-> & _ & _). by eapply Hqt.
Qed.

(** A model is what the reference says. *)
Lemma model_value (st : syms) (p : symbolS) (w : Z * segT) :
  model st -> val p = Some w -> sym_value (S (rank p)) (heap st) p = Some w.
Proof.
  intros [Mv _]. remember (rank p) as k eqn:Ek. revert p w Ek.
  induction (lt_wf k) as [k _ IH]. intros p w Ek Hw. destruct (Mv p w Hw) as (t & x & Hp & Hv).
  change (sym_value (S k) (heap st) p) with
    (match look (heap st) p with Some (t, x) => entry_value (sym_value k (heap st)) t x | None => None end).
  rewrite Hp. eapply entry_value_mono; [|exact Hv]. intros q u Hu. unfold below in Hu.
  destruct (decide (rank q < rank p)%nat); [|done]. apply sym_value_mono with (n := S (rank q)); [lia|].
  by eapply (IH (rank q)); [lia| |].
Qed.
End model.
End reference.
