(* ===== verification/GasDenote.v ===== *)
(** * Resolving a symbol gives what it denotes

    The proof that [resolve_symbol_value] computes the reference [sym_value] when
    the symbols are being finalized, by induction on the depth of the
    definitions, and what follows for a list of symbols. *)
From S2P Require Import Prelude FusionIsa GasHash BfdReloc FusionReloc GasState GasSymbols GasResolve.
From S2P Require Import GasSymbolsOk GasResolveOk GasResolveVal.
#[local] Open Scope Z_scope.

Section denote.
  Context (fs : list frag) (calm : bool).
  Context (val : symbolS -> option (Z * segT)) (rank : symbolS -> nat).

#[local] Abbreviation ok := (syms_ok fs calm).
#[local] Abbreviation good := (good fs calm).
#[local] Abbreviation model := (model fs val rank).
#[local] Abbreviation quiet := (quiet val rank).
#[local] Abbreviation frame := (frame val rank).
#[local] Abbreviation below := (below val rank).

(** No fault. *)
Definition never (f : fault) : Prop := False.

Lemma below_some (k : nat) (q : symbolS) (u : Z * segT) : below k q = Some u -> val q = Some u /\ (rank q < k)%nat.
Proof. unfold GasResolveVal.below. by destruct (decide _). Qed.

(** A resolved symbol shows its value. *)
Lemma entry_resolved (v : symbolS -> option (Z * segT)) (t : symbolS) (x : symbol) (w : Z * segT) :
  entry_value fs v t x = Some w -> resolved x = true -> section x = w.2.
Proof.
  destruct x as [l|r]; cbn [resolved section]; intros H Hr.
  - unfold entry_value in H. rewrite Hr in H. apply settled_of in H as [H _]. case_match; [|done].
    by injection H as <-.
  - unfold entry_value in H. case_match; [done|]. rewrite Hr in H. case_match; [|done].
    apply settled_of in H as [H _]. by injection H as <-.
Qed.

Lemma check_look (st : syms) (p t : symbolS) (x : symbol) :
  look (heap st) p = Some (t, x) ->
  LOCAL_SYMBOL_CHECK p st = Ret (match x with Local l => inl l | Real r => inr (t, r) end, st).
Proof.
  unfold look, LOCAL_SYMBOL_CHECK. destruct (at_ (heap st) p) as [[l|r]|] eqn:E; [|by intros [= <- <-]; rewrite (sbind_ret _ _ _ _ _ (get_sym_eq _ _ _ E))|done].
  rewrite (sbind_ret _ _ _ _ _ (get_sym_eq _ _ _ E)).
  destruct (local_symbol_converted_p l); [|by intros [= <- <-]].
  destruct (lsy_u l) as [f|q]; [done|]. destruct (at_ (heap st) q) as [[l'|r]|] eqn:Eq; [done| |done].
  intros [= <- <-]. by rewrite (sbind_ret _ _ _ _ _ (get_real_eq _ _ _ Eq)).
Qed.

Lemma kind_look {A : Type} (fl : local_symbol -> A) (fr : struct_symbol -> A) (st : syms) (p t : symbolS) (x : symbol) :
  look (heap st) p = Some (t, x) ->
  on_kind fl fr p st = Ret (match x with Local l => fl l | Real r => fr r end, st).
Proof. intros H. unfold on_kind. rewrite (sbind_ret _ _ _ _ _ (check_look _ _ _ _ H)). by destruct x. Qed.

Lemma address_lift (f : fragP) (a : Z) (st : syms) :
  address fs f = Some a -> slift (frag_address fs f) st = Ret (a, st).
Proof. unfold address, slift. destruct (frag_address fs f); [|done]. by intros [= ->]. Qed.

(** ** Inside the call for [p], a name of the real symbol at [s] *)
Section inner.
  Context (p s : symbolS) (r : struct_symbol) (w : Z * segT).
  Context (Hw : val p = Some w) (Hr : entry_value fs (below (rank p)) s (Real r) = Some w)
    (Hun : sy_resolved (sy_flags r) = false) (Hmark : sy_resolving (sy_flags r) = true).

(** The symbol but for what does not matter to its value. *)
Record alike (r' : struct_symbol) : Prop := {
  al_flags : sy_flags r' = sy_flags r;
  al_op : X_op (sy_value r') = X_op (sy_value r);
  al_add : X_add_symbol (sy_value r') = X_add_symbol (sy_value r);
  al_number : X_add_number (sy_value r') = X_add_number (sy_value r);
  al_other : is_binary (X_op (sy_value r)) = true -> X_op_symbol (sy_value r') = X_op_symbol (sy_value r);
  al_frag : sy_frag r' = sy_frag r;
  al_section : bsym_section r' = bsym_section r;
  al_next : sy_next r' = Some s -> sy_next r = Some s
}.

Lemma alike_links (r1 r2 : struct_symbol) : alike r1 -> links s (Real r1) (Real r2) -> alike r2.
Proof.
  intros [] [E N]. rewrite E. split; cbn; try done. auto.
Qed.

Lemma alike_value (r' : struct_symbol) : alike r' -> entry_value fs (below (rank p)) s (Real r') = Some w.
Proof.
  intros [E1 E2 E3 E4 E5 E6 E7 E8]. revert Hr. unfold entry_value. rewrite E1, E6, E7, Hun.
  destruct (sy_mri_common (sy_flags r)); [done|]. cbn [orb].
  destruct (bool_decide (sy_next r = Some s)) eqn:En; [done|]. apply bool_decide_eq_false in En.
  rewrite bool_decide_eq_false_2 by auto.
  destruct (address fs (sy_frag r)); [|done]. cbn [mbind option_bind].
  intros H. rewrite <- H. f_equal. unfold expr_value. rewrite E2, E3, E4. cbv zeta.
  destruct (X_op (sy_value r)); cbn [is_unary is_binary] in E5 |- *; try done; by rewrite E5.
Qed.

(** The state inside the call. *)
Record busy (st : syms) : Prop := {
  bu_inside : inside fs calm s st;
  bu_model : model st;
  bu_quiet : quiet (rank p) st;
  bu_at : exists r', look (heap st) p = Some (s, Real r') /\ alike r';
  bu_final : finalize_syms st = true
}.

Record doing (st st' : syms) : Prop := {
  do_busy : busy st';
  do_within : within fs calm s st st';
  do_frame : frame p st st';
  do_log : sy_log st' = sy_log st
}.

Lemma doing_refl (st : syms) : busy st -> doing st st.
Proof. intros H. split; [done|apply within_refl, H|apply frame_refl|done]. Qed.

Lemma doing_trans (s1 s2 s3 : syms) : busy s1 -> doing s1 s2 -> doing s2 s3 -> doing s1 s3.
Proof.
  intros [_ _ _ (r' & H & _) _] [] []. split; [done|by eapply within_trans| |congruence].
  by eapply frame_trans.
Qed.

Lemma busy_at (st : syms) : busy st -> exists r', at_ (heap st) s = Some (Real r') /\ alike r'
  /\ look (heap st) p = Some (s, Real r').
Proof.
  intros [_ _ _ (r' & H & A) _]. exists r'. split_and!; [|done|done]. by apply (look_at (heap st) p s (Real r')).
Qed.

Lemma put_doing (st : syms) (f : struct_symbol -> struct_symbol) :
  busy st ->
  (forall r', alike r' -> alike (f r')) ->
  (forall r', alike r' -> real_ok fs calm (heap st) r' -> real_ok fs calm (heap st) (f r')) ->
  (forall r', has_bsf (f r') BSF_SECTION_SYM = has_bsf r' BSF_SECTION_SYM) ->
  exists st', upd_real s f st = Ret (tt, st') /\ doing st st'.
Proof.
  intros Hb Ha Hk Hs. destruct (busy_at st Hb) as (r' & Hat & A & Hl). destruct Hb as [Hi Hm Hq _ Hf].
  rewrite (upd_real_eq _ _ _ _ Hat). eexists. split; [done|].
  assert (W : within fs calm s st (put_at s (Real (f r')) st)).
  { eapply within_put; [apply Hi|done| |done]. apply Hk; [done|]. eapply ok_real; [apply Hi|done]. }
  destruct (put_model fs val rank st p s (Real r') (Real (f r')) w Hm Hw Hl I) as (Hm' & F & L & Q).
  { by apply alike_value, Ha. }
  { cbn. by rewrite (al_flags _ (Ha _ A)), (al_flags _ A). }
  split; [split|done|done|apply put_log].
  - by eapply inside_within.
  - done.
  - by apply Q.
  - exists (f r'). split; [done|by apply Ha].
  - by rewrite (w_final _ _ _ _ _ W).
Qed.

(** ** An operand that has its value *)
Definition seen (a : symbolS) (u : Z * segT) (st : syms) : Prop :=
  exists t x, look (heap st) a = Some (t, x) /\ resolved x = true /\ section x = u.2 /\ t <> s.

Lemma other_place (st : syms) (a t : symbolS) (x : symbol) :
  busy st -> is_Some (val a) -> (rank a < rank p)%nat -> look (heap st) a = Some (t, x) -> t <> s.
Proof.
  intros Hb Ha Hlt Hl ->. destruct (busy_at st Hb) as (r' & _ & _ & Hp).
  assert (rank a = rank p); [|lia]. by eapply (mo_alias _ _ _ _ (bu_model _ Hb)); [|eexists|..].
Qed.

Lemma seen_doing (st st' : syms) (a : symbolS) (u : Z * segT) :
  val a = Some u -> (rank a < rank p)%nat -> seen a u st -> doing st st' -> seen a u st'.
Proof.
  intros Ha Hlt (t & x & Hl & Hres & Hsec & Hne) D.
  destruct (fr_resolved _ _ _ _ _ (do_frame _ _ D) a u t x Ha Hl) as (t' & x' & Hl' & Hres' & _).
  destruct (mo_value _ _ _ _ (bu_model _ (do_busy _ _ D)) a u Ha) as (t2 & x2 & Hl2 & Hv).
  rewrite Hl' in Hl2. injection Hl2 as <- <-.
  exists t', x'. split_and!; [done|auto|by eapply entry_resolved; eauto|].
  by eapply (other_place st' a); [apply D|eexists|..].
Qed.

Lemma seen_put (st : syms) (a : symbolS) (u : Z * segT) (r1 r2 : struct_symbol) :
  at_ (heap st) s = Some (Real r1) -> seen a u st -> seen a u (put_at s (Real r2) st).
Proof.
  intros Hs (t & x & Hl & H1 & H2 & Hne). exists t, x. split_and!; [|done..].
  rewrite (look_put st s (Real r1) (Real r2) a Hs I), Hl. by rewrite decide_False.
Qed.

Lemma seen_section (st : syms) (a : symbolS) (u : Z * segT) : seen a u st -> S_GET_SEGMENT a st = Ret (u.2, st).
Proof. intros (t & x & Hl & _ & <- & _). unfold S_GET_SEGMENT. rewrite (kind_look _ _ _ _ _ _ Hl). by destruct x. Qed.

Lemma seen_resolved (st : syms) (a : symbolS) (u : Z * segT) : seen a u st -> symbol_resolved_p a st = Ret (true, st).
Proof. intros (t & x & Hl & Hres & _). unfold symbol_resolved_p. rewrite (kind_look _ _ _ _ _ _ Hl). by destruct x; cbn in Hres; rewrite Hres. Qed.

Lemma seen_defined (st : syms) (a : symbolS) (u : Z * segT) :
  settled u.2 = true -> seen a u st -> S_IS_DEFINED a st = Ret (true, st) /\ S_IS_COMMON a st = Ret (false, st).
Proof.
  intros Hset (t & x & Hl & _ & Hs & _). unfold S_IS_DEFINED, S_IS_COMMON.
  rewrite !(kind_look _ _ _ _ _ _ Hl). destruct x as [l|r0]; cbn in Hs; rewrite Hs; by destruct u.2.
Qed.

(** A step that leaves [s] alone. *)
Lemma frame_doing (st st' : syms) (a : symbolS) (u : Z * segT) :
  busy st -> val a = Some u -> (rank a < rank p)%nat -> is_Some (look (heap st) a) ->
  good st st' -> model st' -> quiet (rank p) st' -> frame a st st' -> sy_log st' = sy_log st -> doing st st'.
Proof.
  intros Hb Ha Hlt [[t x] Hl] G Hm Hq F Hlog. destruct (busy_at st Hb) as (r' & Hat & A & Hp).
  assert (Hf : sy_resolving (sy_flags r') = true) by (by rewrite (al_flags _ A)).
  destruct (within_good fs calm s st st' r' Hat Hf G) as [W _].
  destruct (fr_same _ _ _ _ _ F p w s (Real r') Hw Hp) as (x' & Hx' & L); [lia| |].
  { intros y Hy. by apply (other_place st a s y); [|eexists|..]. }
  destruct x' as [|r1]; [done|]. split; [split|done| |done].
  - by eapply inside_within; [apply Hb|].
  - done.
  - done.
  - exists r1. split; [done|by eapply alike_links].
  - by rewrite (w_final _ _ _ _ _ W), (bu_final _ Hb).
  - eapply frame_lower; [apply Hb|by eexists|done|done].
Qed.

(** The choice of the symbol in [do_symbol]. *)
Lemma chosen (st : syms) (a : symbolS) (u : Z * segT) (b : bool) :
  busy st -> val a = Some u -> (rank a < rank p)%nat -> seen a u st ->
  exists a' st',
    (if b then add ← converted a; _ ← copy_symbol_attributes s add; mret add else mret a) st = Ret (a', st')
    /\ doing st st' /\ seen a' u st'.
Proof.
  intros Hb Ha Hlt Hs. destruct b; [|exists a, st; split_and!; [done|by apply doing_refl|done]].
  pose proof Hs as (t & x & Hl & Hres & Hsec & Hne).
  assert (Hcopy : forall st1 q rq, busy st1 -> at_ (heap st1) q = Some (Real rq) ->
    exists st', copy_symbol_attributes s q st1 = Ret (tt, st') /\ doing st1 st'
      /\ (seen q u st1 -> seen q u st')).
  { intros st1 q rq Hb1 Hq. destruct (busy_at st1 Hb1) as (r1 & Hat1 & _ & _).
    destruct (put_doing st1 (with_attributes rq) Hb1) as (st' & E & D).
    - intros r' []. by split.
    - intros r' _. apply attributes_ok.
    - intros r'. apply attributes_section.
    - exists st'. rewrite (copy_attributes_real _ _ _ _ _ Hat1 Hq).
      rewrite (upd_real_eq _ _ _ _ Hat1) in E. injection E as <-. split_and!; [done|done|].
      by eapply seen_put. }
  destruct x as [l|rq].
  - pose proof (look_at _ _ _ _ Hl) as [_ [-> Hc]]. cbn in Hres.
    pose proof (check_look _ _ _ _ Hl) as Ec. cbn in Ec.
    destruct (check_eq fs calm st a ltac:(apply Hb) (look_ptr _ _ _ _ Hl)) as (c & Ec' & Hch).
    rewrite Ec in Ec'. injection Ec' as <-. destruct Hch as (Hat & _ & f & Hu & Hf).
    destruct (convert_spec fs calm st a l f ltac:(apply Hb) ltac:(apply Hb) Hat Hc Hu Hf) as (q & st1 & E & C).
    destruct (converts_look fs calm val rank st st1 a l f q u (bu_model _ Hb) Ha Hl Hres C)
      as [(rq & Hl1 & Hq & Hr1 & Hs1 & _) _].
    destruct (converts_model fs calm val rank st st1 a l f q u (rank p) (bu_model _ Hb) Ha Hl Hres C (bu_quiet _ Hb))
      as (Hm1 & F1 & Q1).
    assert (D1 : doing st st1).
    { eapply frame_doing; [done|exact Ha|done|by eexists|apply C|done|done|done|apply C]. }
    destruct (Hcopy st1 q rq ltac:(apply D1) Hq) as (st2 & E2 & D2 & Hs2).
    exists q, st2. unfold converted. split_and!.
    + erewrite sbind_ret; [by rewrite (sbind_ret _ _ _ _ _ E2)|]. by rewrite (sbind_ret _ _ _ _ _ Ec).
    + by eapply doing_trans.
    + apply Hs2. exists q, (Real rq). split_and!; [|done|done|].
      * unfold look. by rewrite Hq.
      * rewrite (cv_new _ _ _ _ _ _ _ _ C). destruct (busy_at st Hb) as (r' & H & _ & _).
        intros <-. by apply (not_fresh st (fresh st)); [eexists|].
  - pose proof (look_at _ _ _ _ Hl) as [Hat _].
    destruct (Hcopy st t rq Hb Hat) as (st1 & E & D & Hs1).
    exists t, st1. split_and!; [|done|].
    + unfold converted. erewrite sbind_ret; [by rewrite (sbind_ret _ _ _ _ _ E)|].
      by rewrite (sbind_ret _ _ _ _ _ (check_look _ _ _ _ Hl)).
    + apply Hs1. exists t, (Real rq). unfold look. by rewrite Hat.
Qed.

(** The address of the symbol's frag. *)
Context (addr : Z) (Haddr : address fs (sy_frag r) = Some addr).

Lemma busy_address (st : syms) : busy st -> address_of fs s st = Ret (addr, st).
Proof.
  intros Hb. destruct (busy_at st Hb) as (r' & Hat & A & _). unfold address_of.
  rewrite (sbind_ret _ _ _ _ _ (get_real_eq _ _ _ Hat)), (al_frag _ A). by apply address_lift.
Qed.

Lemma do_symbol_value (st : syms) (a : symbolS) (u o : Z * segT) (n : Z) (sec : segT) :
  busy st -> val a = Some u -> (rank a < rank p)%nat -> settled u.2 = true -> seen a u st ->
  plus_symbol n addr sec u = Some o ->
  wp never (do_symbol fs s a n sec (s64 u.1) u.2) st
    (fun out st' => out = mk_out true o.1 o.2 true /\ doing st st').
Proof.
  intros Hb Ha Hlt Hset Hs Ho. unfold do_symbol. apply wp_gets. rewrite (bu_final _ Hb).
  pose proof (weakref_eq fs calm s st (bu_inside _ Hb)) as Ew.
  eapply wp_eq; [unfold through_weakref; by rewrite (sbind_ret _ _ _ _ _ Ew)|].
  destruct (busy_at st Hb) as (r' & Hat & A & Hp). eapply wp_eq; [by apply get_real_eq|].
  pose proof (alike_value r' A) as Hv. unfold entry_value in Hv. rewrite (al_flags _ A).
  rewrite (al_flags _ A) in Hv. destruct (sy_mri_common (sy_flags r)); [done|].
  destruct (chosen st a u (true && (n =? 0)) Hb Ha Hlt Hs) as (a' & st1 & E & D & Hs1).
  eapply wp_eq; [exact E|]. pose proof (do_busy _ _ D) as Hb1.
  destruct (seen_defined st1 a' u Hset Hs1) as [E1 E2].
  eapply wp_eq; [exact E1|]. eapply wp_eq; [exact E2|]. cbn [negb orb].
  eapply wp_eq.
  { destruct (busy_at st1 Hb1) as (r1 & Hat1 & A1 & _). unfold symbol_shadow_p.
    rewrite (sbind_ret _ _ _ _ _ (check_real _ _ _ Hat1)), bool_decide_eq_false_2; [done|].
    intros Hn. pose proof (alike_value r1 A1) as H. unfold entry_value in H.
    by rewrite (bool_decide_eq_true_2 _ Hn), orb_true_r in H. }
  eapply wp_eq; [by apply busy_address|]. cbv zeta.
  unfold plus_symbol in Ho. destruct (decide (sec = seg_expr)) as [|Hsec]; [done|]. injection Ho as <-.
  rewrite (bool_decide_eq_false_2 _ Hsec). cbn [andb orb].
  eapply wp_eq; [by eapply seen_resolved|].
  eapply wp_eq; [by eapply weakref_eq, bu_inside|]. apply wp_ret. split; [done|]. exact D.
Qed.

Lemma do_unary_value (st : syms) (a : symbolS) (u : Z * segT) (op : operatorT) (n : Z) (sec : segT) :
  busy st -> seen a u st ->
  negb (bool_decide (op = O_logical_not)) && negb (bool_decide (u.2 = seg_absolute)) = false ->
  is_unary op = true ->
  wp never (do_unary fs s a op n sec (s64 u.1) u.2) st
    (fun out st' => out = mk_out true (u64 (n + (unary_value op (s64 u.1) + addr)))
                            (if undecided sec then seg_absolute else sec) true /\ doing st st').
Proof.
  intros Hb Hs Hok Hu. unfold do_unary. apply wp_gets. rewrite Hok. eapply wp_eq; [done|].
  eapply wp_eq; [by apply busy_address|]. eapply wp_eq; [by eapply seen_resolved|].
  apply wp_ret. split; [|by apply doing_refl]. unfold unary_value. by destruct op.
Qed.

Lemma do_binary_value (st : syms) (a b : symbolS) (u v : Z * segT) (op : operatorT) (n z : Z) (sec : segT) :
  busy st -> seen a u st -> seen b v st -> X_op (sy_value r) = op -> is_binary op = true ->
  binary_value op (s64 u.1) (s64 v.1) u.2 v.2 (bool_decide (a = b)) = Some z ->
  wp never (do_binary fs s a b op n sec (s64 u.1) (s64 v.1) u.2 v.2) st
    (fun out st' => out = mk_out true (u64 (n + (addr + z))) (if undecided sec then seg_absolute else sec) true
                    /\ doing st st').
Proof.
  intros Hb Hsa Hsb Hop Hbin Hz. unfold do_binary. apply wp_gets. cbv zeta. unfold binary_value in Hz.
  destruct (operands_ok op u.2 v.2 (bool_decide (a = b))) eqn:Eok; [|done]. cbn [negb andb orb] in Hz |- *.
  eapply wp_eq; [done|].
  assert (Hd : is_eq_ne op = false -> (bool_decide (op = O_divide) || bool_decide (op = O_modulus)) && (s64 v.1 =? 0) = false).
  { intros He. rewrite He in Hz. by destruct (_ && (s64 v.1 =? 0)). }
  assert (Hd' : (bool_decide (op = O_divide) || bool_decide (op = O_modulus)) && (s64 v.1 =? 0) = false).
  { destruct (is_eq_ne op) eqn:E; [by destruct op|by apply Hd]. }
  rewrite Hd'. cbn [andb]. eapply wp_eq; [done|].
  destruct (busy_at st Hb) as (r' & Hat & A & _). eapply wp_eq; [by apply get_real_eq|].
  set (sec' := if undecided sec then seg_absolute else sec).
  assert (Hu' : undecided sec' = false) by (unfold sec'; destruct (undecided sec) eqn:E; [done|exact E]).
  assert (Hfin : forall z', z' = z ->
    wp never (address ← address_of fs s;
              resolved ← symbol_resolved_p a;
              resolved' ← (if (resolved : bool) then symbol_resolved_p b else mret false);
              mret (mk_out true (u64 (n + (address + z')))
                      (if undecided sec' then
                         if bool_decide (u.2 = seg_undefined) || bool_decide (v.2 = seg_undefined) then seg_undefined
                         else if bool_decide (u.2 = seg_absolute) then v.2 else u.2
                       else sec') resolved')) st
      (fun out st' => out = mk_out true (u64 (n + (addr + z))) sec' true /\ doing st st')).
  { intros z' ->. eapply wp_eq; [by apply busy_address|]. eapply wp_eq; [by eapply seen_resolved|].
    eapply wp_eq; [by eapply seen_resolved|]. apply wp_ret. rewrite Hu'. split; [done|by apply doing_refl]. }
  unfold X_op_is. rewrite (al_op _ A), Hop.
  destruct op; try done; cbn [is_eq_ne] in Hz; rewrite Hd' in Hz || idtac;
    try (apply Hfin; by injection Hz);
    (destruct (resolve_arith _ _ _) as [[y|]|] eqn:Ea in Hz; [|done|done]); rewrite Ea;
    (eapply wp_eq; [reflexivity|]); apply Hfin; by injection Hz.
Qed.

(** ** The symbol's own part *)

(** What a call for the symbol [q] achieves. *)
Definition achieves (q : symbolS) (u : Z * segT) (st : syms) (v : Z) (st' : syms) : Prop :=
  v = u.1 /\ good st st' /\ model st' /\ frame q st st' /\ (forall m, quiet m st -> quiet m st')
  /\ sy_log st' = sy_log st /\ exists t x, look (heap st') q = Some (t, x) /\ resolved x = true.

Section own.
  Context (rec : symbolS -> SM Z) (n : nat).
  Context (IH : forall q u st, ok st -> symbol_table_frozen st = false -> finalize_syms st = true ->
    (pending st < n)%nat -> model st -> val q = Some u -> quiet (S (rank q)) st ->
    wp never (rec q) st (achieves q u st)).

Lemma operand_value (st : syms) (a : symbolS) (u : Z * segT) :
  busy st -> below (rank p) a = Some u -> (pending st < n)%nat ->
  wp never (rec a) st (fun v st' => v = u.1 /\ doing st st' /\ seen a u st' /\ (pending st' < n)%nat).
Proof.
  intros Hb [Ha Hlt]%below_some Hn. pose proof (bu_inside _ Hb) as [Hok Hz _].
  eapply wp_mono; [apply (IH a u); [done|done|apply Hb|done|apply Hb|done|]|].
  { intros q v t x Hq Hlt'. apply (bu_quiet _ Hb q v); [done|lia]. }
  intros v st' (-> & G & Hm & F & Q & Hlog & t & x & Hl & Hres).
  destruct (mo_value _ _ _ _ (bu_model _ Hb) a u Ha) as (t0 & x0 & Hl0 & _).
  assert (D : doing st st').
  { eapply frame_doing; [done|exact Ha|done|by eexists|done|done| |done|done]. apply Q, Hb. }
  split_and!; [done|done| |pose proof (g_pending _ _ _ _ G); lia].
  destruct (mo_value _ _ _ _ Hm a u Ha) as (t1 & x1 & Hl1 & Hv1). rewrite Hl in Hl1. injection Hl1 as <- <-.
  exists t, x. split_and!; [done|done|by eapply entry_resolved; eauto|].
  by eapply (other_place st' a); [apply D|eexists|..].
Qed.

Lemma operand_settled (st : syms) (a : symbolS) (u : Z * segT) :
  busy st -> below (rank p) a = Some u -> settled u.2 = true.
Proof.
  intros Hb [Ha _]%below_some. destruct (mo_value _ _ _ _ (bu_model _ Hb) a u Ha) as (t & x & _ & Hv).
  by eapply entry_settled.
Qed.

Lemma symbol_value (st : syms) (sec : segT) (a : symbolS) (u o : Z * segT) (k : Z) :
  busy st -> (pending st < n)%nat -> below (rank p) a = Some u ->
  X_op (sy_value r) = O_symbol \/ X_op (sy_value r) = O_symbol_rva -> X_add_symbol (sy_value r) = Some a ->
  plus_symbol k addr sec u = Some o ->
  wp never
    (finalize ← sgets finalize_syms;
     add_symbol ← need (Some a);
     lv ← rec add_symbol;
     seg_left ← S_GET_SEGMENT add_symbol;
     _ ← swhen finalize
           (upd_real s (fun r => set_X (X_op (sy_value r)) (X_add_symbol (sy_value r)) None
                                   (X_add_number (sy_value r)) r));
     do_symbol fs s add_symbol k sec (s64 lv) seg_left) st
    (fun out st' => out = mk_out true o.1 o.2 true /\ doing st st').
Proof.
  intros Hb Hn Ha Hop Hadd Ho. pose proof (operand_settled _ _ _ Hb Ha) as Hset.
  pose proof (below_some _ _ _ Ha) as [Hva Hlt]. apply wp_gets. rewrite (bu_final _ Hb). eapply wp_eq; [done|].
  eapply wp_step; [by apply operand_value|]. intros lv st1 (-> & D1 & S1 & _).
  eapply wp_eq; [by apply seen_section|].
  destruct (put_doing st1 (fun r => set_X (X_op (sy_value r)) (X_add_symbol (sy_value r)) None
                             (X_add_number (sy_value r)) r)) as (st2 & E & D2).
  - apply D1.
  - intros r' []. split; try done. cbn. by destruct Hop as [-> | ->].
  - intros r' A H. destruct H as [(H0 & H1 & H2 & H3) Hnx Hp Hf Hwk Hsec]. split; try done.
    split_and!; [done|done|done|]. revert H3. cbn [sy_value set_X set_value X_op]. rewrite (al_op _ A).
    by destruct Hop as [-> | ->].
  - done.
  - eapply wp_eq; [exact E|]. pose proof (doing_trans _ _ _ Hb D1 D2) as D12.
    eapply wp_mono; [by apply do_symbol_value; [apply D2|..|by eapply seen_doing|]|].
    intros out st3 [-> D3]. split; [done|]. by eapply doing_trans.
Qed.

Lemma plus_value (st : syms) (a : symbolS) (u o : Z * segT) (k : Z) (sec : segT) :
  busy st -> below (rank p) a = Some u -> seen a u st -> plus_symbol k addr sec u = Some o ->
  wp never (do_symbol fs s a k sec (s64 u.1) u.2) st
    (fun out st' => out = mk_out true o.1 o.2 true /\ doing st st').
Proof.
  intros Hb Ha Hs Ho. pose proof (operand_settled _ _ _ Hb Ha). pose proof (below_some _ _ _ Ha) as [Hva Hlt].
  by apply do_symbol_value.
Qed.

Lemma own_value (st : syms) (o : Z * segT) :
  busy st -> (pending st < n)%nat ->
  expr_value (below (rank p)) (sy_value r) addr (bsym_section r) = Some o ->
  wp never (own_part fs rec s r (bsym_section r)) st
    (fun out st' => out = mk_out true o.1 o.2 true /\ doing st st').
Proof.
  intros Hb Hn He. pose proof (busy_address st Hb) as Ea. pose proof (doing_refl st Hb) as D0.
  unfold expr_value in He. unfold own_part. cbv zeta in He |- *.
  destruct (X_op (sy_value r)) eqn:Eop; try done; cbn [is_unary is_binary] in He |- *.
  1,2: eapply wp_eq; [exact Ea|]; apply wp_ret; by injection He as <-.
  3: apply wp_ret; by injection He as <-.
  all: destruct (X_add_symbol (sy_value r)) as [a|] eqn:Eadd; [|done]; cbn [mbind option_bind] in He.
  1,2: destruct (below (rank p) a) as [u|] eqn:Eu; [|done]; eapply symbol_value; eauto; fail.
  1-3: destruct (below (rank p) a) as [u|] eqn:Eu; [|done]; cbn [mbind option_bind] in He;
    (eapply wp_eq; [done|]); (eapply wp_step; [by apply operand_value|]);
    intros lv st1 (-> & D1 & S1 & Hn1); (eapply wp_eq; [by apply seen_section|]);
    (case_match eqn:Eok; [done|]); injection He as <-;
    (eapply wp_mono; [by apply do_unary_value; [apply D1|..]|]); intros out st2 [-> D2];
    (split; [done|]); by eapply doing_trans.
  all: destruct (X_op_symbol (sy_value r)) as [b|] eqn:Eother; [|done]; cbn [mbind option_bind] in He;
    destruct (below (rank p) a) as [u|] eqn:Eu; [|done]; cbn [mbind option_bind] in He;
    destruct (below (rank p) b) as [v|] eqn:Ev; [|done]; cbn [mbind option_bind] in He.
  all: eapply wp_eq; [done|]; eapply wp_step; [by apply operand_value|]; intros lv st1 (-> & D1 & S1 & Hn1).
  all: pose proof (do_busy _ _ D1) as Hb1;
    eapply wp_eq; [done|]; eapply wp_step; [by apply operand_value|]; intros rv st2 (-> & D2 & S2 & _).
  all: pose proof (below_some _ _ _ Eu) as [Hva Hlt]; pose proof (seen_doing _ _ _ _ Hva Hlt S1 D2) as S1';
    pose proof (do_busy _ _ D2) as Hb2; pose proof (doing_trans _ _ _ Hb D1 D2) as D12.
  all: eapply wp_eq; [by apply seen_section|]; eapply wp_eq; [by apply seen_section|].
  all: eapply wp_mono with (P := fun out st3 => out = mk_out true o.1 o.2 true /\ doing st2 st3);
    [|intros out st3 [-> D3]; split; [done|by eapply doing_trans]].
  all: repeat (case_match; [by apply plus_value|]);
    destruct (binary_value _ _ _ _ _ _) as [z|] eqn:Ez in He; [|done]; injection He as <-;
    by apply do_binary_value.
Qed.
End own.
End inner.

(** ** The values are residues *)
Lemma u64_idem (x : Z) : u64 (u64 x) = u64 x.
Proof. apply u64_small, u64_range. Qed.

Lemma plus_small (n a : Z) (sec : segT) (u o : Z * segT) : plus_symbol n a sec u = Some o -> u64 o.1 = o.1.
Proof. unfold plus_symbol. case_decide; [done|]. intros [= <-]. apply u64_idem. Qed.

Lemma expr_small (v : symbolS -> option (Z * segT)) (e : expressionS) (a : Z) (sec : segT) (o : Z * segT) :
  expr_value v e a sec = Some o -> u64 o.1 = o.1.
Proof.
  unfold expr_value. cbv zeta.
  destruct (X_op e); try done; cbn [is_unary is_binary]; try (intros [= <-]; apply u64_idem);
    (destruct (X_add_symbol e) as [x|]; [|done]); cbn [mbind option_bind].
  1,2: destruct (v x); [|done]; apply plus_small.
  1-3: destruct (v x); [|done]; cbn [mbind option_bind]; case_match; [done|]; intros [= <-]; apply u64_idem.
  all: destruct (X_op_symbol e) as [y|]; [|done]; cbn [mbind option_bind];
    destruct (v x); [|done]; cbn [mbind option_bind]; destruct (v y); [|done]; cbn [mbind option_bind];
    repeat (case_match; [apply plus_small|]);
    destruct (binary_value _ _ _ _ _ _); [|done]; intros [= <-]; apply u64_idem.
Qed.

Lemma entry_small (v : symbolS -> option (Z * segT)) (t : symbolS) (x : symbol) (o : Z * segT) :
  entry_value fs v t x = Some o -> u64 o.1 = o.1.
Proof.
  destruct x as [l|r]; unfold entry_value.
  - intros [H _]%settled_of. case_match.
    + destruct (Z.eqb_spec (u64 (lsy_value l)) (lsy_value l)) as [E|]; [|done]. by injection H as <-.
    + case_match; [|done]. destruct (address fs f); [|done]. injection H as <-. apply u64_idem.
  - case_match; [done|]. case_match.
    + case_match; [|done]. intros [[= <-] _]%settled_of. apply u64_idem.
    + intros Ho. destruct (address fs (sy_frag r)); [|done]. cbn -[when_settled] in Ho.
      apply settled_of in Ho as [Ho _]. by eapply expr_small.
Qed.

(** ** The end of the call *)
Lemma settle_done (st : syms) (s : symbolS) (r : struct_symbol) (v : Z) (seg : segT) :
  at_ (heap st) s = Some (Real r) -> (has_bsf r BSF_SECTION_SYM = true -> seg = bsym_section r) ->
  settle s true (mk_out true v seg true) st
  = Ret (v, put_at s (Real (upd_flags (set_resolved true) (set_bsection seg (valued v r)))) st).
Proof.
  intros Hr Hs. unfold settle. cbn [o_set o_val o_seg o_resolved andb].
  erewrite sbind_ret; [|by apply S_SET_VALUE_real].
  erewrite sbind_ret; [|by apply S_SET_SEGMENT_real; [eapply at_put_eq|]].
  rewrite put_put. erewrite sbind_ret; [|by unfold swhen; erewrite upd_real_eq; [|by eapply at_put_eq]].
  by rewrite put_put.
Qed.

(** The state of the call for [q], begun at [st], between the parts; the symbol
    is at [t]. *)
Record between (q t : symbolS) (u : Z * segT) (st st' : syms) : Prop := {
  be_model : model st';
  be_quiet : quiet (rank q) st';
  be_frame : frame q st st';
  be_log : sy_log st' = sy_log st;
  be_at : exists r, look (heap st') q = Some (t, Real r)
            /\ (has_bsf r BSF_SECTION_SYM = true -> u.2 = bsym_section r)
}.

Lemma between_put (q t : symbolS) (u : Z * segT) (st st' : syms) (r r' : struct_symbol) :
  val q = Some u -> is_Some (look (heap st) q) -> between q t u st st' ->
  look (heap st') q = Some (t, Real r) -> entry_value fs (below (rank q)) t (Real r') = Some u ->
  (sy_resolved (sy_flags r) = true -> sy_resolved (sy_flags r') = true) ->
  (has_bsf r' BSF_SECTION_SYM = true -> u.2 = bsym_section r') ->
  between q t u st (put_at t (Real r') st') /\ look (heap (put_at t (Real r') st')) q = Some (t, Real r').
Proof.
  intros Hu Hl [Hm Hq F Hlog _] Hr Hv Hres Hsec.
  destruct (put_model fs val rank st' q t (Real r) (Real r') u Hm Hu Hr I Hv Hres) as (Hm' & F' & L & Q).
  split; [|done]. split; [done|by apply Q|by eapply frame_trans|by rewrite put_log|eauto].
Qed.

Lemma finish_value (q t : symbolS) (u : Z * segT) (st st' : syms) :
  val q = Some u -> is_Some (look (heap st) q) -> between q t u st st' ->
  wp never (_ ← not_resolving t; settle t true (mk_out true u.1 u.2 true)) st'
    (fun v st2 => v = u.1 /\ between q t u st st2
       /\ exists r, look (heap st2) q = Some (t, Real r) /\ sy_resolved (sy_flags r) = true
            /\ sy_resolving (sy_flags r) = false).
Proof.
  intros Hu Hl B. destruct (be_at _ _ _ _ _ B) as (r & Hr & Hb).
  pose proof (look_at _ _ _ _ Hr) as [Hat _].
  destruct (mo_value _ _ _ _ (be_model _ _ _ _ _ B) q u Hu) as (t0 & x0 & Hl0 & Hv).
  rewrite Hr in Hl0. injection Hl0 as <- <-.
  set (r1 := upd_flags (set_resolving false) r).
  destruct (between_put q t u st st' r r1 Hu Hl B Hr) as [B1 Hr1]; [exact Hv|done|done|].
  eapply wp_eq; [by apply upd_real_eq|]. fold r1.
  pose proof (look_at _ _ _ _ Hr1) as [Hat1 _]. unfold wp. rewrite (settle_done _ _ _ _ _ Hat1) by done.
  set (r3 := upd_flags (set_resolved true) (set_bsection u.2 (valued u.1 r1))). split; [done|].
  assert (Hv3 : entry_value fs (below (rank q)) t (Real r3) = Some u).
  { pose proof (entry_small _ _ _ _ Hv) as Hsm. pose proof (entry_settled _ _ _ _ _ Hv) as Hset.
    unfold entry_value in Hv |- *. cbn [r3 r1 sy_flags upd_flags set_bsection valued set_value sy_mri_common
      set_resolved set_weakrefr set_resolving sy_next sy_resolved sy_value X_op_is X_op X_add_number bsym_section].
    case_match; [done|]. unfold X_op_is. cbn [X_op]. rewrite bool_decide_eq_true_2 by done.
    rewrite u64_s64, Hsm. unfold when_settled. cbn [mbind option_bind snd]. rewrite Hset. by destruct u. }
  destruct (between_put q t u st _ r1 r3 Hu Hl B1 Hr1 Hv3) as [B3 Hr3]; [done|done|].
  split; [done|]. by exists r3.
Qed.

(** ** The call *)
Lemma wp_and {A : Type} (F : fault -> Prop) (m : SM A) (st : syms) (P Q : A -> syms -> Prop) :
  wp F m st P -> wp never m st Q -> wp never m st (fun a st' => P a st' /\ Q a st').
Proof. unfold wp. by destruct (m st) as [[a st']|]. Qed.

Lemma wp_regroup {A B : Type} (F : fault -> Prop) (m : SM unit) (k : SM A) (g : A -> SM B) (st : syms)
    (Q : B -> syms -> Prop) :
  wp F (_ ← m; k) st (fun a st' => wp F (g a) st' Q) -> wp F (_ ← m; a ← k; g a) st Q.
Proof.
  unfold wp, mbind, SM_bind. destruct (m st) as [[[] st1]|]; [|done]. by destruct (k st1) as [[a st2]|].
Qed.

Lemma look_later (st st' : syms) (p t : symbolS) (r : struct_symbol) :
  later st st' -> look (heap st) p = Some (t, Real r) -> exists r', look (heap st') p = Some (t, Real r').
Proof.
  intros [Hh _ _]. unfold look. destruct (at_ (heap st) p) as [x|] eqn:E; [|done].
  destruct (Hh p x E) as (x' & Hx' & Ev). rewrite Hx'. destruct x as [l|r0], x' as [l'|r1]; try done.
  - destruct (local_symbol_converted_p l) eqn:Hc; [|done]. cbn in Ev. rewrite (Ev Hc), Hc.
    destruct (lsy_u l) as [|s]; [done|]. destruct (at_ (heap st) s) as [[l0|r0]|] eqn:Es; try done.
    destruct (Hh s _ Es) as ([|r1] & Hs' & Ev'); [done|]. intros [= <- <-]. rewrite Hs'. eauto.
  - intros [= <- <-]. eauto.
Qed.

(** No mark is left behind. *)
Lemma quiet_restored (m : nat) (q t : symbolS) (u : Z * segT) (x : symbol) (st st' : syms) :
  val q = Some u -> model st -> later st st' -> frame q st st' -> quiet (rank q) st' ->
  look (heap st') q = Some (t, x) -> resolving x = false -> quiet m st -> quiet m st'.
Proof.
  intros Hu Hm Hlt F Hq Hl Hres Hqt p0 w0 t0 y Hw0 Hr0 Hy.
  destruct (decide (rank p0 < rank q)%nat) as [|Hge]; [by eapply Hq|].
  destruct (mo_value _ _ _ _ Hm p0 w0 Hw0) as (t1 & x1 & H1 & _).
  destruct (mo_value _ _ _ _ Hm q u Hu) as (t2 & x2 & H2 & _).
  destruct (decide (t1 = t2)) as [<-|Hne].
  - assert (look (heap st') p0 = Some (t, x)) as E; [|rewrite Hy in E; by injection E as -> ->].
    pose proof (look_same _ _ _ _ _ _ H1 H2) as E. destruct x1 as [l|r]; subst x2.
    + pose proof (look_at _ _ _ _ H1) as [_ [<- _]]. by pose proof (look_at _ _ _ _ H2) as [_ [<- _]].
    + destruct (look_later _ _ _ _ _ Hlt H1) as (r1 & L1). destruct (look_later _ _ _ _ _ Hlt H2) as (r2 & L2).
      rewrite L1. rewrite Hl in L2. injection L2 as -> ->. f_equal. f_equal. by eapply look_same.
  - destruct (fr_same _ _ _ _ _ F p0 w0 t1 x1 Hw0 H1) as (x' & Hx' & L); [lia|congruence|].
    rewrite Hy in Hx'. injection Hx' as <- <-. destruct (links_same _ _ _ L) as (-> & _). by eapply Hqt.
Qed.

(** What is shown of the call; the rest of [achieves] follows. *)
Definition reaches (q : symbolS) (u : Z * segT) (st : syms) (v : Z) (st' : syms) : Prop :=
  v = u.1 /\ model st' /\ frame q st st' /\ quiet (rank q) st' /\ sy_log st' = sy_log st
  /\ exists t x, look (heap st') q = Some (t, x) /\ resolved x = true /\ resolving x = false.

Lemma reaches_achieves (q : symbolS) (u : Z * segT) (n : nat) (st : syms) :
  val q = Some u -> model st -> ok st -> symbol_table_frozen st = false -> (pending st < n)%nat ->
  wp never (resolve_loop fs n q) st (reaches q u st) -> wp never (resolve_loop fs n q) st (achieves q u st).
Proof.
  intros Hu Hm Hok Hz Hn H. destruct (mo_value _ _ _ _ Hm q u Hu) as (t & x & Hl & _).
  pose proof (resolve_loop_good fs calm n q st Hok Hz (look_ptr _ _ _ _ Hl) Hn) as G.
  eapply wp_mono; [exact (wp_and _ _ _ _ _ G H)|]. intros v st' [G' (-> & Hm' & F & Q & Hlog & t' & x' & Hl' & R1 & R2)].
  split_and!; [done|done|done|done| |done|eauto].
  intros m Hqt. by eapply quiet_restored; [| |apply G'|..].
Qed.

(** A local symbol. *)
Lemma local_call (n : nat) (q : symbolS) (u : Z * segT) (st : syms) (l : local_symbol) :
  finalize_syms st = true -> model st -> val q = Some u -> quiet (rank q) st ->
  look (heap st) q = Some (q, Local l) -> entry_value fs (below (rank q)) q (Local l) = Some u ->
  wp never (resolve_loop fs (S n) q) st (reaches q u st).
Proof.
  intros Hf Hm Hu Hq Hl Hv. cbn [resolve_loop]. apply wp_gets. rewrite Hf.
  eapply wp_eq; [by apply (check_look _ _ _ _ Hl)|]. cbv beta iota. pose proof Hv as Hv0.
  unfold entry_value in Hv. apply settled_of in Hv as [Hv Hset]. destruct (lsy_resolved l) eqn:Hres.
  - apply wp_ret. case_match; [|done]. injection Hv as <-. split_and!; try done; [apply frame_refl|].
    exists q, (Local l). done.
  - destruct (lsy_u l) as [f|] eqn:Hlu; [|done]. eapply wp_eq; [unfold local_symbol_get_frag; by rewrite Hlu|].
    destruct (address fs f) as [a|] eqn:Ha; [|done]. eapply wp_eq; [by apply address_lift|]. cbn [mbind option_bind] in Hv. injection Hv as <-.
    eapply wp_eq; [apply put_sym_eq|]. apply wp_ret.
    pose proof (look_at _ _ _ _ Hl) as [_ [_ Hc]].
    set (l' := mk_local true (lsy_section l) (lsy_name l) (lsy_frag f) (u64 (lsy_value l + a))).
    destruct (put_model fs val rank st q q (Local l) (Local l') _ Hm Hu Hl) as (Hm' & F & L & Q).
    + by split.
    + unfold entry_value, l'. cbn [lsy_resolved lsy_value lsy_section]. rewrite u64_idem, Z.eqb_refl.
      unfold when_settled. cbn [mbind option_bind]. by rewrite Hset.
    + done.
    + split_and!; [done|done|done|by apply Q|by apply put_log|]. exists q, (Local l'). done.
Qed.

(** A real symbol that has no value yet: its own part, with the mark. *)
Lemma own_between (n : nat) (q t : symbolS) (u : Z * segT) (st : syms) (r : struct_symbol) :
  (forall q u st, ok st -> symbol_table_frozen st = false -> finalize_syms st = true ->
    (pending st < n)%nat -> model st -> val q = Some u -> quiet (S (rank q)) st ->
    wp never (resolve_loop fs n q) st (achieves q u st)) ->
  ok st -> symbol_table_frozen st = false -> finalize_syms st = true -> (pending st < S n)%nat -> model st ->
  val q = Some u -> quiet (rank q) st -> look (heap st) q = Some (t, Real r) ->
  entry_value fs (below (rank q)) t (Real r) = Some u -> sy_resolved (sy_flags r) = false ->
  sy_resolving (sy_flags r) = false ->
  wp never (_ ← upd_real t (upd_flags (set_resolving true)); own_part fs (resolve_loop fs n) t r (bsym_section r)) st
    (fun out st2 => out = mk_out true u.1 u.2 true /\ between q t u st st2).
Proof.
  intros IH Hok Hz Hf Hn Hm Hu Hq Hl Hv Hun Hrv. pose proof (look_at _ _ _ _ Hl) as [Hat _].
  set (r1 := upd_flags (set_resolving true) r). set (st1 := put_at t (Real r1) st).
  pose proof (ok_real _ _ _ _ _ Hok Hat) as Hk.
  assert (W : within fs calm t st st1).
  { eapply within_put; [done|exact Hat| |done]. apply set_flags_ok; [done|apply Hk]. }
  destruct (put_model fs val rank st q t (Real r) (Real r1) u Hm Hu Hl I Hv) as (Hm1 & F1 & L1 & Q1); [done|].
  eapply wp_eq; [by apply upd_real_eq|]. fold r1 st1.
  assert (Ha : exists a, address fs (sy_frag r) = Some a
    /\ expr_value (below (rank q)) (sy_value r) a (bsym_section r) = Some u).
  { unfold entry_value in Hv. rewrite Hun in Hv. case_match; [done|].
    destruct (address fs (sy_frag r)) as [a|]; [|done]. exists a. split; [done|].
    by apply settled_of in Hv as [Hv _]. }
  destruct Ha as (a & Ha & He).
  destruct (has_bsf r BSF_SECTION_SYM) eqn:Hb.
  - destruct (rk_section _ _ _ _ Hk Hb) as [Hop Hseg]. unfold own_part. rewrite Hop. cbv zeta.
    eapply wp_eq.
    { unfold address_of. pose proof (at_put_eq st t (Real r1) _ Hat) as Hat1. fold st1 in Hat1.
      rewrite (sbind_ret _ _ _ _ _ (get_real_eq _ _ _ Hat1)). by apply address_lift. }
    unfold expr_value in He. rewrite Hop in He. injection He as <-.
    rewrite (decide_False (P := O_constant = O_absent)) by done. rewrite !(decide_False (P := bsym_section r = seg_expr)) by done.
    apply wp_ret. split; [done|]. split; [done|by apply Q1|done|by apply put_log|]. by exists r1.
  - assert (Hbusy : busy q t r1 st1).
    { split.
      - split; [apply W|by rewrite (w_frozen _ _ _ _ _ W)|]. exists r1. split; [by eapply at_put_eq|done].
      - done.
      - by apply Q1.
      - by exists r1.
      - by rewrite (w_final _ _ _ _ _ W). }
    pose proof (mark_pending t st r Hat Hrv) as Hpd. fold r1 st1 in Hpd.
    eapply wp_mono; [apply (own_value q t r1 u Hu Hv Hun eq_refl a Ha (resolve_loop fs n) n IH st1 u Hbusy)|].
    + lia.
    + done.
    + intros out st2 [-> D]. pose proof (do_busy _ _ _ _ _ D) as Hb2. split; [done|].
      destruct (busy_at _ _ _ _ Hb2) as (r2 & _ & A2 & L2). split.
      * apply Hb2.
      * apply Hb2.
      * by eapply frame_trans; [|by eexists|exact F1|apply D].
      * rewrite (do_log _ _ _ _ _ D). apply put_log.
      * exists r2. split; [done|]. destruct (in_real _ _ _ _ (bu_inside _ _ _ _ Hb2)) as (r3 & Hr3 & Hb3).
        pose proof (look_at _ _ _ _ L2) as [Hr2 _]. rewrite Hr2 in Hr3. injection Hr3 as <-. congruence.
Qed.

Lemma call_value (n : nat) (q : symbolS) (u : Z * segT) (st : syms) :
  ok st -> symbol_table_frozen st = false -> finalize_syms st = true -> (pending st < n)%nat ->
  model st -> val q = Some u -> quiet (S (rank q)) st ->
  wp never (resolve_loop fs n q) st (achieves q u st).
Proof.
  revert q u st. induction n as [|n IH]; [lia|]. intros q u st Hok Hz Hf Hn Hm Hu Hqt.
  apply reaches_achieves; try done. destruct (mo_value _ _ _ _ Hm q u Hu) as (t & x & Hl & Hv).
  assert (Hq : quiet (rank q) st) by (intros p0 w0 t0 y ? ?; eapply Hqt; [done|lia]).
  pose proof (Hqt q u t x Hu ltac:(lia) Hl) as Hrv. destruct x as [l|r].
  { pose proof (look_at _ _ _ _ Hl) as [_ [-> _]]. by apply local_call with (l := l). }
  cbn [resolve_loop]. apply wp_gets. rewrite Hf.
  eapply wp_eq; [by apply (check_look _ _ _ _ Hl)|]. cbv beta iota.
  destruct (sy_resolved (sy_flags r)) eqn:Hun.
  { apply wp_ret. unfold entry_value in Hv. rewrite Hun in Hv. case_match; [done|].
    destruct (X_op_is (sy_value r) O_constant); [|done]. apply settled_of in Hv as [[= <-] _].
    split_and!; try done; [apply frame_refl|]. by exists t, (Real r). }
  pose proof (look_at _ _ _ _ Hl) as [Hat _]. eapply wp_eq; [by apply on_kind_real|].
  cbn in Hrv. rewrite Hrv.
  apply wp_bind, wp_regroup. eapply wp_mono; [by eapply own_between|].
  intros out st2 [-> B].
  pose proof (finish_value q t u st st2 Hu ltac:(by eexists) B) as H. revert H.
  unfold wp, mbind, SM_bind, swhen, mret, SM_ret. cbn [o_set].
  destruct (not_resolving t st2) as [[[] st3]|]; [|done].
  destruct (settle t true (mk_out true u.1 u.2 true) st3) as [[v st4]|]; [|done].
  intros (-> & [] & r4 & Hl4 & H4 & H4'). split_and!; try done. by exists t, (Real r4).
Qed.

(** ** A list of symbols *)
Fixpoint resolve_all (ps : list symbolS) : SM (list Z) :=
  match ps with
  | [] => mret []
  | p :: ps => v ← resolve_symbol_value fs p; vs ← resolve_all ps; mret (v :: vs)
  end.

Definition is_resolved (st : syms) (p : symbolS) : Prop :=
  exists t x, look (heap st) p = Some (t, x) /\ resolved x = true.

Lemma all_value (ps : list symbolS) (ws : list (Z * segT)) (st : syms) :
  ok st -> symbol_table_frozen st = false -> finalize_syms st = true -> model st -> (forall m, quiet m st) ->
  Forall2 (fun p w => val p = Some w) ps ws ->
  exists st', resolve_all ps st = Ret (ws.*1, st') /\ sy_log st' = sy_log st /\ model st'
    /\ (forall q, is_Some (val q) -> is_resolved st q -> is_resolved st' q)
    /\ Forall (is_resolved st') ps.
Proof.
  intros Hok Hz Hf Hm Hq H. revert st Hok Hz Hf Hm Hq.
  induction H as [|p w ps ws Hp _ IH]; intros st Hok Hz Hf Hm Hq; [by exists st|].
  destruct (wp_total _ _ _ (call_value (S (pending st)) p w st Hok Hz Hf ltac:(lia) Hm Hp (Hq _)))
    as (v & st1 & E & -> & G & Hm1 & F & Q & Hlog & Hres).
  destruct (IH st1) as (st2 & E2 & Hlog2 & Hm2 & Hmono & Hall).
  { apply G. } { by rewrite (lt_frozen _ _ (g_later _ _ _ _ G)). } { by rewrite (lt_final _ _ (g_later _ _ _ _ G)). }
  { done. } { intros m. apply Q, Hq. }
  exists st2. split_and!.
  - cbn [resolve_all]. unfold resolve_symbol_value. erewrite sbind_ret; [|exact E].
    by rewrite (sbind_ret _ _ _ _ _ E2).
  - congruence.
  - done.
  - intros q [u Hu] (t & x & Hl & Hx). apply Hmono; [by eexists|].
    destruct (fr_resolved _ _ _ _ _ F q u t x Hu Hl) as (t' & x' & Hl' & Hx' & _). exists t', x'. auto.
  - constructor; [|done]. apply Hmono; [by eexists|]. destruct Hres as (t & x & Hl & Hx). by exists t, x.
Qed.
End denote.

(** ** The model of a table that has not been resolved *)
Section initial.
  Context (fs : list frag) (h : list symbol).

(** How deep the definition of [p] goes. *)
Fixpoint depth (n : nat) (p : symbolS) : nat :=
  match n with
  | O => O
  | S k => match sym_value fs k h p with Some _ => depth k p | None => S k end
  end.

Lemma depth_value (n : nat) (p : symbolS) (w : Z * segT) :
  sym_value fs n h p = Some w -> sym_value fs (depth n p) h p = Some w.
Proof.
  induction n as [|k IH]; [done|]. intros H. cbn [depth]. destruct (sym_value fs k h p) as [u|] eqn:E; [|done].
  rewrite (sym_value_mono _ k (S k) _ _ _ ltac:(lia) E) in H. injection H as ->. by apply IH.
Qed.

Lemma depth_least (n k : nat) (p : symbolS) :
  (k <= n)%nat -> is_Some (sym_value fs k h p) -> (depth n p <= k)%nat.
Proof.
  revert k. induction n as [|m IH]; intros k Hk [w Hw]; [cbn; lia|]. cbn [depth].
  destruct (sym_value fs m h p) as [u|] eqn:E.
  - destruct (decide (k = S m)) as [->|]; [|apply IH; [lia|by eexists]].
    etrans; [apply (IH m); [done|by eexists]|lia].
  - destruct (decide (k = S m)) as [->|]; [done|].
    by rewrite (sym_value_mono _ k m _ _ _ ltac:(lia) Hw) in E.
Qed.

Lemma depth_look (n : nat) (p q t : symbolS) (x y : symbol) :
  look h p = Some (t, x) -> look h q = Some (t, y) -> depth n p = depth n q.
Proof.
  intros Hp Hq. rewrite (look_same _ _ _ _ _ _ Hp Hq) in Hp.
  assert (forall k, sym_value fs k h p = sym_value fs k h q) as E.
  { intros [|k]; [done|]. cbn. by rewrite Hp, Hq. }
  induction n as [|n IH]; [done|]. cbn [depth]. by rewrite E, IH.
Qed.

Lemma initial_model (n : nat) (st : syms) :
  heap st = h -> model fs (sym_value fs n h) (depth n) st.
Proof.
  intros Hh. split; rewrite Hh.
  - intros p w Hw. pose proof (depth_value n p w Hw) as Hd.
    assert (depth n p <= n)%nat as Hdn by (apply depth_least; [done|by eexists]).
    destruct (depth n p) as [|k] eqn:Ek; [done|]. cbn [sym_value] in Hd.
    destruct (look h p) as [[t x]|]; [|done]. exists t, x. split; [done|].
    eapply entry_value_mono; [|exact Hd]. intros q u Hu. unfold below.
    assert (depth n q <= k)%nat by (apply depth_least; [lia|by eexists]).
    rewrite decide_True by lia. eapply sym_value_mono; [|exact Hu]. lia.
  - intros p q t x y _ _. apply depth_look.
Qed.
End initial.

(** C16.  When the symbols are finalized, every symbol resolves to what it denotes,
    computed from the definitions alone: whatever symbols are resolved, in
    whatever order and however often, each call returns that value, nothing is
    reported, the symbols resolved end up in the section of their value, and all
    symbols still denote what they did. *)
Theorem resolve_denotes (fs : list frag) (calm : bool) (n : nat) (st : syms) (ps : list symbolS)
    (ws : list (Z * segT)) :
  syms_ok fs calm st -> symbol_table_frozen st = false -> finalize_syms st = true ->
  Forall (fun x => resolving x = false) (heap st) ->
  Forall2 (fun p w => sym_value fs n (heap st) p = Some w) ps ws ->
  exists st', resolve_all fs ps st = Ret (ws.*1, st') /\ sy_log st' = sy_log st
    /\ Forall2 (fun p w => S_GET_SEGMENT p st' = Ret (w.2, st')) ps ws
    /\ forall q u, sym_value fs n (heap st) q = Some u -> sym_value fs (S n) (heap st') q = Some u.
Proof.
  intros Hok Hz Hf Hq H. set (val := sym_value fs n (heap st)). set (rank := depth fs (heap st) n).
  destruct (all_value fs calm val rank ps ws st Hok Hz Hf (initial_model fs (heap st) n st eq_refl))
    as (st' & E & Hlog & Hm & _ & Hall); [|done|].
  { intros m p w t x _ _ Hl. pose proof (look_at _ _ _ _ Hl) as [Hat _].
    destruct t as [i]. by apply (proj1 (Forall_lookup _ _) Hq i). }
  exists st'. split_and!; [done|done| |].
  - clear E. induction H as [|p w ps ws Hp _ IH]; [done|].
    apply Forall_cons in Hall as [(t & x & Hl & Hx) Hall]. constructor; [|by apply IH].
    destruct (mo_value _ _ _ _ Hm p w Hp) as (t' & x' & Hl' & Hv). rewrite Hl in Hl'. injection Hl' as <- <-.
    unfold S_GET_SEGMENT. rewrite (kind_look _ _ _ _ _ _ Hl).
    rewrite <- (entry_resolved _ _ _ _ _ Hv Hx). by destruct x.
  - intros q u Hu. pose proof (model_value fs val rank st' q u Hm Hu) as Hv.
    eapply sym_value_mono; [|exact Hv]. apply le_n_S. apply depth_least; [done|by eexists].
Qed.

(** [a] is [b - c] and [b] is [d + 4]; [c] is a local label at 8 and [d] one at
    0x20 of the frag at 0x100; [e] is [(a << 0) + 1]. *)
Definition denote_frags : list frag := [mk_frag 0x100 64 0 0 rs_fill []].

Definition denote_syms : syms :=
  mk_syms
    (heap (symbol_begin 1) ++
     [real_sym "a" seg_expr (mk_expr (Some (Sym 3)) (Some (Sym 4)) 0 O_subtract) (Some (Sym 3));
      real_sym "b" (seg_normal 0) (mk_expr (Some (Sym 5)) None 4 O_symbol) None;
      Local (mk_local false (seg_normal 0) ".Lc" (lsy_frag (Frag 0)) 8);
      Local (mk_local false (seg_normal 0) ".Ld" (lsy_frag (Frag 0)) 0x20);
      real_sym "e" seg_expr (mk_expr (Some (Sym 2)) (Some (Sym 1)) 1 O_left_shift) None])
    (hash_new_sized 1) (hash_new_sized 1) (Some (Sym 2)) (Some (Sym 3)) [] true false [] [] [] [].

Lemma resolve_denotes_witness :
  exists st', resolve_all denote_frags [Sym 6; Sym 4; Sym 2; Sym 3; Sym 2; Sym 6] denote_syms
              = Ret ([0x1d; 0x108; 0x1c; 0x124; 0x1c; 0x1d], st') /\ sy_log st' = [].
Proof.
  destruct (resolve_denotes denote_frags false 4 denote_syms [Sym 6; Sym 4; Sym 2; Sym 3; Sym 2; Sym 6]
    [(0x1d, seg_absolute); (0x108, seg_normal 0); (0x1c, seg_absolute); (0x124, seg_normal 0);
     (0x1c, seg_absolute); (0x1d, seg_absolute)]) as (st' & E & Hlog & _).
  - by apply syms_b_ok.
  - reflexivity.
  - reflexivity.
  - repeat constructor.
  - repeat constructor.
  - exists st'. split; [exact E|exact Hlog].
Defined.

(** Out of the reach of [resolve_denotes]: [x] is [f + b], an expression symbol
    with the absolute [b] equal to 4, [y] is [x - f].  [x] is kept as [f] plus 4
    for the relocation code, and its value is 0 from then on: [y] is 4 when it is
    resolved first and [0 - f] when [x] is. *)
Definition equated_syms : syms :=
  mk_syms
    (heap (symbol_begin 1) ++
     [real_sym "x" seg_expr (mk_expr (Some (Sym 4)) (Some (Sym 5)) 0 O_add) (Some (Sym 3));
      real_sym "y" seg_expr (mk_expr (Some (Sym 2)) (Some (Sym 4)) 0 O_subtract) (Some (Sym 4));
      Real (mk_struct no_flags "f" 0 (seg_normal 0) (mk_expr None None 0x20 O_constant) (Some (Sym 5)) None (Frag 0));
      real_sym "b" seg_absolute (mk_expr None None 4 O_constant) None])
    (hash_new_sized 1) (hash_new_sized 1) (Some (Sym 2)) (Some (Sym 5)) [] true false [] [] [] [].

Definition values_of {A : Type} (r : res (A * syms)) : option (A * list diag) :=
  match r with Ret (a, st) => Some (a, sy_log st) | Fail _ => None end.

Example equated_again :
  values_of (resolve_all denote_frags [Sym 3] equated_syms) = Some ([4], [])
  /\ values_of (resolve_all denote_frags [Sym 2; Sym 3] equated_syms) = Some ([0x124; u64 (- 0x120)], []).
Proof. by vm_compute. Qed.
