(* ===== verification/GasLabels.v ===== *)
(** * Local labels and [colon]: gas/symbols.c

    Two kinds of numbered labels that can be defined again and again: [42$],
    whose definitions end at the next ordinary label, and [42:], referred to as
    [42b] and [42f].  Each definition is a symbol of its own, named after the
    number and the count of the definitions so far; a name is built in a buffer of
    24 characters.  Then [colon], which defines a label at the current place.

    The theorems: the name tells the label, the kind and the instance, so no two
    definitions share one; [n f] before a definition and [n b] after it are its
    name. *)
From Stdlib Require Import Ascii.
From S2P Require Import Prelude FusionIsa GasHash BfdReloc FusionReloc GasState GasSymbols GasResolve.
From S2P Require Import GasSymbolsOk.
#[local] Open Scope Z_scope.

(** ** Names *)

(** [i % 10 + '0'], as a [char]. *)
Definition digit_char (d : Z) : ascii := ascii_of_N (Z.to_N ((d + 48) mod 256)).

(** The loop that builds a number backwards; 0 has no digits.  A [long] has at
    most 19, so [symbol_name_temporary] is long enough. *)
Fixpoint digits_loop (fuel : nat) (i : Z) (acc : string) : string :=
  match fuel with
  | O => acc
  | S k => if i =? 0 then acc else digits_loop k (Z.quot i 10) (String (digit_char (Z.rem i 10)) acc)
  end.

Definition number_chars (n : Z) : string := digits_loop 19 n EmptyString.

(** [symbol_name_build], of 24 characters. *)
Definition build_name (mark : ascii) (n instance : Z) : res string :=
  let name := String "." (String "L" (number_chars n ++ String mark (number_chars instance))) in
  if (String.length name <? 24)%nat then Ret name else Fail Foob.

(** ** Dollar labels *)
Definition dollar_label_defined (label : Z) : SM bool :=
  sgets (fun st => match find (fun x => x.1.1 =? label) (dollar_labels st) with
                   | Some x => x.2 | None => false
                   end).

Definition dollar_label_instance (label : Z) : SM Z :=
  sgets (fun st => match find (fun x => x.1.1 =? label) (dollar_labels st) with
                   | Some x => x.1.2 | None => 0
                   end).

Definition dollar_label_clear : SM unit :=
  smodify (fun st => set_dollar (map (fun x => (x.1.1, x.1.2, false)) (dollar_labels st)) st).

(** The array grows as needed. *)
Fixpoint define_dollar (l : list (Z * Z * bool)) (label : Z) : list (Z * Z * bool) :=
  match l with
  | [] => [(label, 1, true)]
  | x :: l => if x.1.1 =? label then (label, x.1.2 + 1, true) :: l else x :: define_dollar l label
  end.

Definition define_dollar_label (label : Z) : SM unit :=
  smodify (fun st => set_dollar (define_dollar (dollar_labels st) label) st).

Definition dollar_label_name (n augend : Z) : SM string :=
  i ← dollar_label_instance n; slift (build_name DOLLAR_LABEL_CHAR n (i + augend)).

(** ** Forward and backward labels *)
Definition FB_LABEL_SPECIAL : Z := 10.

(** [(unsigned long) label < FB_LABEL_SPECIAL] *)
Definition fb_low (label : Z) : bool := u64 label <? FB_LABEL_SPECIAL.

Definition fb_label_init : SM unit := smodify (fun st => set_fb (replicate 10 0) (fb_labels st) st).

Fixpoint fb_inc (l : list (Z * Z)) (label : Z) : list (Z * Z) :=
  match l with
  | [] => [(label, 1)]
  | x :: l => if x.1 =? label then (label, x.2 + 1) :: l else x :: fb_inc l label
  end.

Definition fb_label_instance_inc (label : Z) : SM unit :=
  smodify (fun st =>
    if fb_low label then
      let i := Z.to_nat label in set_fb (<[i := nth i (fb_low_counter st) 0 + 1]> (fb_low_counter st)) (fb_labels st) st
    else set_fb (fb_low_counter st) (fb_inc (fb_labels st) label) st).

Definition fb_label_instance (label : Z) : SM Z :=
  sgets (fun st =>
    if fb_low label then nth (Z.to_nat label) (fb_low_counter st) 0
    else match find (fun x => x.1 =? label) (fb_labels st) with Some x => x.2 | None => 0 end).

Definition fb_label_name (n augend : Z) : SM string :=
  i ← fb_label_instance n; slift (build_name LOCAL_LABEL_CHAR n (i + augend)).

(** ** Back from the name *)

Definition INT_MAX : Z := 2 ^ 31 - 1.

Definition char_code (c : ascii) : Z := Z.of_N (N_of_ascii c).

(** [for (n = 0; ISDIGIT ( *p); ++p) n = (10 * n) + *p - '0'], on [int]. *)
Fixpoint read_int (n : Z) (p : string) : res (Z * string) :=
  match p with
  | String c p' =>
      if ISDIGIT c then
        if 10 * n + char_code c <=? INT_MAX then read_int (10 * n + char_code c - 48) p' else Fail Fub
      else Ret (n, p)
  | EmptyString => Ret (n, p)
  end.

(** [inl] is the name unaltered, [inr] the kind, the label and the instance of
    the message. *)
Definition decode_local_label_name (s : string) : res (string + ascii * Z * Z) :=
  let s' := match s with String c s' => if Ascii.eqb c "." then s' else s | EmptyString => s end in
  match s' with
  | String c p =>
      if Ascii.eqb c "L" then
        let! label := read_int 0 p in
        match label.2 with
        | String mark p =>
            if Ascii.eqb mark DOLLAR_LABEL_CHAR || Ascii.eqb mark LOCAL_LABEL_CHAR then
              let! instance := read_int 0 p in Ret (inr (mark, label.1, instance.1))
            else Ret (inl s)
        | EmptyString => Ret (inl s)
        end
      else Ret (inl s)
  | EmptyString => Ret (inl s)
  end.

(** ** Defining a label *)
Section colon.
  (** The command line's [flag_keep_locals], the sections [colon] knows, the frags
      and the current place. *)
  Context (flag_keep_locals : bool) (data_section bss_section : segT) (fs : list frag) (d : dot).

Definition define_sym_at_dot (symbolP : symbolS) : SM unit :=
  _ ← upd_real symbolP (set_sfrag (d_frag d));
  _ ← S_SET_VALUE symbolP (d_fix d);
  S_SET_SEGMENT symbolP (d_seg d).

Definition quote : ascii := ascii_of_N 34.
Definition defined_as : string :=
  "symbol `%s' is already defined as " ++ String quote ("%s" ++ String quote "/%s%ld").

(** [(!S_IS_DEBUG && (!S_IS_DEFINED || S_IS_COMMON) && S_IS_EXTERNAL)
    || S_GET_SEGMENT == bss_section] *)
Definition may_redefine (symbolP : symbolS) : SM bool :=
  debug ← S_IS_DEBUG symbolP;
  defined ← S_IS_DEFINED symbolP;
  common ← S_IS_COMMON symbolP;
  external ← (if negb debug && (negb defined || common) then S_IS_EXTERNAL symbolP else mret false);
  seg ← S_GET_SEGMENT symbolP;
  mret (external || bool_decide (seg = bss_section)).

Definition colon_defined (symbolP : symbolS) : SM symbolS :=
  c ← LOCAL_SYMBOL_CHECK symbolP;
  match c with
  | inl l =>
      f ← local_symbol_get_frag l;
      if negb (bool_decide (lsy_section l = seg_undefined))
         && (negb (bool_decide (f = d_frag d)) || negb (bool_decide (lsy_section l = d_seg d))
             || negb (lsy_value l =? d_fix d))
      then _ ← s_bad "symbol `%s' is already defined"; mret symbolP
      else
        _ ← put_sym symbolP (Local (mk_local (lsy_resolved l) (d_seg d) (lsy_name l) (lsy_frag (d_frag d)) (d_fix d)));
        mret symbolP
  | inr (symbolP, r) =>
      defined ← S_IS_DEFINED symbolP;
      equated ← symbol_equated_p symbolP;
      common ← S_IS_COMMON symbolP;
      volatile ← S_IS_VOLATILE symbolP;
      if negb (defined || equated) || common || volatile then
        symbolP ← (if (volatile : bool) then
                     s ← symbol_clone symbolP true; _ ← S_SET_VALUE s 0; _ ← S_CLEAR_VOLATILE s; mret s
                   else mret symbolP);
        value ← S_GET_VALUE fs symbolP;
        if value =? 0 then _ ← define_sym_at_dot symbolP; mret symbolP
        else
          may ← may_redefine symbolP;
          seg ← S_GET_SEGMENT symbolP;
          if may && (bool_decide (d_seg d = data_section) || bool_decide (d_seg d = bss_section)
                     || bool_decide (d_seg d = seg))
          then
            if negb (bool_decide (d_seg d = data_section)) then
              value ← S_GET_VALUE fs symbolP;
              _ ← swhen (value <? d_fix d mod 2 ^ 32) (S_SET_VALUE symbolP (d_fix d));
              mret symbolP
            else _ ← define_sym_at_dot symbolP; mret symbolP
          else
            _ ← S_GET_VALUE fs symbolP;
            _ ← s_bad defined_as; mret symbolP
      else
        same ← (if decide (sy_frag r = d_frag d) then
                  value ← S_GET_VALUE fs symbolP;
                  if value =? d_fix d then seg ← S_GET_SEGMENT symbolP; mret (bool_decide (seg = d_seg d))
                  else mret false
                else mret false);
        if (same : bool) then mret symbolP
        else
          _ ← s_bad "symbol `%s' is already defined";
          symbolP ← symbol_clone symbolP false;
          _ ← define_sym_at_dot symbolP;
          mret symbolP
  end.

(** No MRI common block is open; dwarf2's [dwarf2_emit_label] is not modelled. *)
Definition colon (sym_name : string) : SM symbolS :=
  _ ← swhen (negb (_bfd_elf_is_local_label_name sym_name)) dollar_label_clear;
  symbolP ← symbol_find sym_name;
  match symbolP with
  | Some symbolP => _ ← S_CLEAR_WEAKREFR symbolP; colon_defined symbolP
  | None =>
      if negb flag_keep_locals && _bfd_elf_is_local_label_name sym_name then
        local_symbol_make sym_name (d_seg d) (d_fix d) (d_frag d)
      else
        symbolP ← symbol_new sym_name (d_seg d) (d_fix d) (d_frag d);
        _ ← symbol_table_insert symbolP;
        mret symbolP
  end.
End colon.

(** ** The names tell the labels apart *)
Lemma digits_loop_app (k : nat) (i : Z) (acc s : string) :
  (digits_loop k i acc ++ s)%string = digits_loop k i (acc ++ s).
Proof. revert i acc. induction k as [|k IH]; [done|]. intros i acc. cbn. case_match; [done|]. apply IH. Qed.

Lemma digit_code (d : Z) : 0 <= d < 10 ->
  ISDIGIT (digit_char d) = true /\ char_code (digit_char d) = d + 48.
Proof.
  intros H. assert (In d (seqZ 0 10)) as Hd by (apply list_elem_of_In, elem_of_seqZ; lia).
  cbn in Hd. repeat destruct Hd as [<-|Hd]; done.
Qed.

(** Reading a number back, from the digits on. *)
Lemma read_int_digits (k : nat) (i : Z) (acc : string) :
  0 <= i < 10 ^ Z.of_nat k -> i + 48 <= INT_MAX -> read_int 0 (digits_loop k i acc) = read_int i acc.
Proof.
  revert i acc. induction k as [|k IH]; intros i acc Hi Hm.
  - replace i with 0 by (cbn in Hi; lia). done.
  - cbn [digits_loop]. destruct (Z.eqb_spec i 0) as [->|Hne]; [done|].
    assert (Hq : i = 10 * Z.quot i 10 + Z.rem i 10 /\ 0 <= Z.rem i 10 < 10 /\ 0 <= Z.quot i 10 <= i).
    { pose proof (Z.quot_rem i 10 ltac:(lia)). pose proof (Z.rem_bound_pos i 10 ltac:(lia) ltac:(lia)).
      pose proof (Z.quot_pos i 10 ltac:(lia) ltac:(lia)). lia. }
    rewrite IH; [|rewrite Nat2Z.inj_succ, Z.pow_succ_r in Hi by lia; lia|lia].
    destruct (digit_code (Z.rem i 10)) as [Hd Hc]; [lia|]. cbn [read_int]. rewrite Hd, Hc.
    destruct (Z.leb_spec (10 * Z.quot i 10 + (Z.rem i 10 + 48)) INT_MAX); [|lia].
    f_equal. lia.
Qed.

Lemma digits_length (k j : nat) (i : Z) (acc : string) :
  0 <= i < 10 ^ Z.of_nat j -> (String.length (digits_loop k i acc) <= j + String.length acc)%nat.
Proof.
  revert j i acc. induction k as [|k IH]; intros j i acc Hi; cbn; [lia|].
  destruct (Z.eqb_spec i 0) as [->|Hne]; [lia|]. destruct j as [|j]; [cbn in Hi; lia|].
  etrans; [apply (IH j)|cbn; lia].
  rewrite Nat2Z.inj_succ, Z.pow_succ_r in Hi by lia.
  pose proof (Z.quot_rem i 10 ltac:(lia)). pose proof (Z.rem_bound_pos i 10 ltac:(lia) ltac:(lia)).
  pose proof (Z.quot_pos i 10 ltac:(lia) ltac:(lia)). lia.
Qed.

Definition label_mark (c : ascii) : Prop := c = DOLLAR_LABEL_CHAR \/ c = LOCAL_LABEL_CHAR.

Lemma string_length_app (s t : string) : String.length (s ++ t) = (String.length s + String.length t)%nat.
Proof. induction s as [|c s IH]; [done|]. cbn -[String.append]. change (String.append (String c s) t) with (String c (String.append s t)). cbn. by rewrite IH. Qed.

Lemma build_name_decodes (mark : ascii) (n instance : Z) :
  label_mark mark -> 0 <= n <= INT_MAX - 48 -> 0 <= instance <= INT_MAX - 48 ->
  exists name, build_name mark n instance = Ret name
    /\ decode_local_label_name name = Ret (inr (mark, n, instance)).
Proof.
  intros Hm Hn Hi. unfold build_name. set (name := String "." _).
  assert (Hlen : (String.length name < 24)%nat).
  { unfold name. cbn [String.length]. rewrite string_length_app. cbn [String.length].
    pose proof (digits_length 19 10 n EmptyString ltac:(unfold INT_MAX in *; lia)).
    pose proof (digits_length 19 10 instance EmptyString ltac:(unfold INT_MAX in *; lia)).
    unfold number_chars. cbn [String.length] in *. lia. }
  apply Nat.ltb_lt in Hlen. rewrite Hlen. exists name. split; [done|].
  unfold name, decode_local_label_name. rewrite !Ascii.eqb_refl. unfold number_chars.
  rewrite digits_loop_app, read_int_digits by (unfold INT_MAX in *; lia).
  assert (ISDIGIT mark = false) as Hd by (by destruct Hm as [-> | ->]).
  change (String.append EmptyString (String mark (digits_loop 19 instance EmptyString)))
    with (String mark (digits_loop 19 instance EmptyString)).
  cbn [read_int]. rewrite Hd.
  destruct Hm as [-> | ->]; cbn -[digits_loop read_int]; rewrite read_int_digits by (unfold INT_MAX in *; lia); done.
Qed.

(** C27.  The name made for a local label fits its buffer and decodes to the kind,
    the number and the instance it was made from, whatever they are up to the
    largest [int] less 48 (where the decoder's own arithmetic ends): so different
    definitions never share a symbol. *)
Theorem label_name_decodes (mark : ascii) (n instance : Z) :
  label_mark mark -> 0 <= n <= INT_MAX - 48 -> 0 <= instance <= INT_MAX - 48 ->
  exists name, build_name mark n instance = Ret name
    /\ decode_local_label_name name = Ret (inr (mark, n, instance)).
Proof. apply build_name_decodes. Qed.

Lemma label_name_decodes_witness :
  exists name, build_name LOCAL_LABEL_CHAR 4 12 = Ret name
    /\ decode_local_label_name name = Ret (inr (LOCAL_LABEL_CHAR, 4, 12)).
Proof. apply (label_name_decodes LOCAL_LABEL_CHAR 4 12); [by right|unfold INT_MAX; lia..]. Defined.

(** The buffer is long enough for the labels that are defined, which are [int]s,
    but not for all [long]s: the tenth instance of one with 19 digits has a name of
    24 characters, whose terminator would be past the end. *)
Example dollar_name_overflow :
  build_name DOLLAR_LABEL_CHAR (10 ^ 18) 9 <> Fail Foob /\ build_name DOLLAR_LABEL_CHAR (10 ^ 18) 10 = Fail Foob.
Proof. by vm_compute. Qed.

(** ** Forward and backward references *)

(** The state after the definitions [h]. *)
Fixpoint fb_after (h : list Z) (st : syms) : syms :=
  match h with
  | [] => st
  | n :: h =>
      match fb_label_instance_inc n st with Ret (_, st') => fb_after h st' | Fail _ => st end
  end.

(** [n f] (with [augend] 1) or [n b] (with 0) after the definitions [h]. *)
Definition fb_name_after (h : list Z) (n augend : Z) (st : syms) : option string :=
  match fb_label_name n augend (fb_after h st) with Ret (name, _) => Some name | Fail _ => None end.

Definition fb_instance (st : syms) (label : Z) : Z :=
  match fb_label_instance label st with Ret (i, _) => i | Fail _ => 0 end.

Lemma find_inc (l : list (Z * Z)) (n m : Z) :
  match find (fun x => x.1 =? m) (fb_inc l n) with Some x => x.2 | None => 0 end
  = match find (fun x => x.1 =? m) l with Some x => x.2 | None => 0 end + (if decide (m = n) then 1 else 0).
Proof.
  induction l as [|[a i] l IH]; cbn.
  - destruct (Z.eqb_spec n m), (decide (m = n)); congruence || done.
  - destruct (Z.eqb_spec a n) as [->|Hne]; cbn.
    + destruct (Z.eqb_spec n m), (decide (m = n)); try congruence; cbn; lia.
    + destruct (Z.eqb_spec a m) as [->|]; [|apply IH]. cbn. rewrite decide_False by done. lia.
Qed.

Lemma fb_low_range (n : Z) : 0 <= n < 2 ^ 31 -> fb_low n = (n <? 10).
Proof. intros H. unfold fb_low. by rewrite u64_small by lia. Qed.

Lemma nth_nth (l : list Z) (i j : nat) (v : Z) :
  (i < length l)%nat -> nth j (<[i := v]> l) 0 = if decide (j = i) then v else nth j l 0.
Proof.
  intros Hi. rewrite !nth_lookup. destruct (decide (j = i)) as [->|].
  - by rewrite list_lookup_insert_eq.
  - by rewrite list_lookup_insert_ne.
Qed.

Lemma fb_inc_instance (st : syms) (n m : Z) :
  length (fb_low_counter st) = 10%nat -> 0 <= n < 2 ^ 31 -> 0 <= m < 2 ^ 31 ->
  exists st', fb_label_instance_inc n st = Ret (tt, st') /\ length (fb_low_counter st') = 10%nat
    /\ fb_instance st' m = fb_instance st m + (if decide (m = n) then 1 else 0).
Proof.
  intros Hl Hn Hm. eexists. split; [reflexivity|]. unfold fb_instance, fb_label_instance, sgets.
  rewrite (fb_low_range n Hn), (fb_low_range m Hm).
  destruct (Z.ltb_spec n 10) as [Hn'|Hn'], (Z.ltb_spec m 10) as [Hm'|Hm']; cbn [set_fb fb_low_counter fb_labels].
  - split; [by rewrite length_insert|]. rewrite nth_nth by lia.
    destruct (decide (m = n)) as [->|]; [by rewrite decide_True|]. rewrite decide_False by lia. lia.
  - split; [by rewrite length_insert|]. rewrite decide_False by lia. lia.
  - split; [done|]. rewrite decide_False by lia. lia.
  - split; [done|]. apply find_inc.
Qed.

Lemma fb_after_instance (h : list Z) (n : Z) (st : syms) :
  length (fb_low_counter st) = 10%nat -> 0 <= n < 2 ^ 31 -> Forall (fun m => 0 <= m < 2 ^ 31) h ->
  fb_instance (fb_after h st) n = fb_instance st n + Z.of_nat (count_occ Z.eq_dec h n).
Proof.
  intros Hl Hn Hh. revert st Hl. induction Hh as [|m h Hm Hh IH]; intros st Hl; [cbn; lia|].
  destruct (fb_inc_instance st m n Hl Hm Hn) as (st' & E & Hl' & Hi). cbn [fb_after]. rewrite E.
  rewrite (IH st' Hl'), Hi. destruct (decide (n = m)) as [->|Hne].
  - rewrite count_occ_cons_eq by done. lia.
  - rewrite count_occ_cons_neq by congruence. lia.
Qed.

Definition fb_named (n i : Z) : option string :=
  match build_name LOCAL_LABEL_CHAR n i with Ret name => Some name | Fail _ => None end.

Lemma fb_name_instance (h : list Z) (n augend : Z) (st : syms) :
  fb_name_after h n augend st = fb_named n (fb_instance (fb_after h st) n + augend).
Proof.
  unfold fb_named, fb_name_after, fb_label_name, fb_instance. unfold fb_label_instance, sgets, slift, mbind, SM_bind.
  by destruct (build_name _ _ _).
Qed.

(** Its name tells the label and the instance. *)
Lemma fb_named_spec (n i m j : Z) :
  0 <= n <= INT_MAX - 48 -> 0 <= i <= INT_MAX - 48 -> 0 <= m <= INT_MAX - 48 -> 0 <= j <= INT_MAX - 48 ->
  exists name, fb_named n i = Some name /\ (fb_named m j = Some name <-> m = n /\ j = i).
Proof.
  intros Hn Hi Hm Hj.
  destruct (build_name_decodes LOCAL_LABEL_CHAR n i) as (x & Ex & Dx); [by right|done|done|].
  destruct (build_name_decodes LOCAL_LABEL_CHAR m j) as (y & Ey & Dy); [by right|done|done|].
  exists x. unfold fb_named. rewrite Ex, Ey. split; [done|]. split; [|intros [-> ->]; congruence].
  intros [= ->]. rewrite Dx in Dy. by injection Dy.
Qed.

Lemma count_prefix (n : Z) (p q : list Z) :
  p `prefix_of` q -> (count_occ Z.eq_dec p n <= count_occ Z.eq_dec q n)%nat.
Proof. intros [k ->]. rewrite count_occ_app. lia. Qed.

Lemma count_none (n : Z) (l : list Z) : n ∉ l -> count_occ Z.eq_dec l n = 0%nat.
Proof. intros H. apply count_occ_not_In. by rewrite <- list_elem_of_In. Qed.

(** A prefix of a list with as many [n] as the prefix that ends in a certain [n]
    includes that one. *)
Lemma count_reaches (n : Z) (p l q : list Z) :
  p `prefix_of` l -> q ++ [n] `prefix_of` l ->
  (count_occ Z.eq_dec (q ++ [n]) n <= count_occ Z.eq_dec p n)%nat -> q ++ [n] `prefix_of` p.
Proof.
  intros Hp Hq Hc. destruct (prefix_weak_total _ _ _ Hp Hq) as [[k Hk]|H]; [|done].
  destruct k as [|x k _] using rev_ind; [by rewrite app_nil_r in Hk; rewrite Hk|].
  rewrite app_assoc in Hk. apply app_inj_tail in Hk as [-> <-].
  rewrite !count_occ_app in Hc. cbn in Hc. destruct (Z.eq_dec n n); [lia|done].
Qed.

(** Where the references are that count the same definition of [n]. *)
Lemma count_between (n : Z) (before between after p : list Z) (a : Z) :
  before = [] \/ last before = Some n -> n ∉ between ++ after ->
  p `prefix_of` before ++ between ++ n :: after -> a ∈ [0; 1] ->
  Z.of_nat (count_occ Z.eq_dec p n) + a = Z.of_nat (count_occ Z.eq_dec before n) + 1 <->
  if a =? 1 then before `prefix_of` p /\ p `prefix_of` before ++ between
  else before ++ between ++ [n] `prefix_of` p.
Proof.
  intros Hb [N2 N3]%not_elem_of_app Hp Ha.
  assert (Hd : count_occ Z.eq_dec ((before ++ between) ++ [n]) n = S (count_occ Z.eq_dec before n)).
  { rewrite !count_occ_app, (count_none n between N2). cbn. destruct (Z.eq_dec n n); [lia|done]. }
  assert (Hpd : (before ++ between) ++ [n] `prefix_of` before ++ between ++ n :: after).
  { exists after. by rewrite <- !app_assoc. }
  rewrite app_assoc. assert (a = 0 \/ a = 1) as [-> | ->] by set_solver; cbn [Z.eqb Pos.eqb].
  - split; intros H; [apply (count_reaches n p _ _ Hp Hpd); lia|]. apply (count_prefix n) in H as Hle.
    apply (count_prefix n) in Hp as Hge. rewrite !count_occ_app, (count_none n between N2) in Hge.
    rewrite count_occ_cons_eq, (count_none n after N3) in Hge by done. lia.
  - split; intros H.
    + split.
      * destruct Hb as [-> |Hl]; [by exists p|]. apply last_Some in Hl as [l ->].
        apply (count_reaches n p _ _ Hp); [by exists (between ++ n :: after)|lia].
      * assert (Hpb : before ++ between `prefix_of` before ++ between ++ n :: after) by (exists (n :: after); by rewrite app_assoc).
        destruct (prefix_weak_total _ _ _ Hp Hpb) as [Hle|[k Hk]]; [done|].
        destruct k as [|x k]; [by rewrite app_nil_r in Hk; rewrite Hk|].
        exfalso. destruct Hp as [k' Hp]. rewrite Hk, app_assoc, <- (app_assoc _ (x :: k)) in Hp. apply app_inv_head in Hp as [= <- _].
        rewrite Hk, !count_occ_app, count_occ_cons_eq in H by done. lia.
    + destruct H as [H1%(count_prefix n) H2%(count_prefix n)].
      rewrite count_occ_app, (count_none n between N2) in H2. lia.
Qed.

(** C28.  A definition of [n:] has a name, which is given to it and to the references that
    mean it, and to nothing else: among all references in a history of definitions, to
    any label, [n f] has that name exactly from the definition of [n] before it (or the
    start) to it, and [n b] exactly from it on to the next one.  Here [before] ends with
    the definition of [n] before it, if there is one, and [after] comes before the next.
    The labels and the counts are up to the largest [int] less 48, as in
    [build_name_decodes]. *)
Theorem fb_references (st : syms) (before between after : list Z) (n : Z) :
  let all := before ++ between ++ n :: after in
  length (fb_low_counter st) = 10%nat -> Forall (fun m => 0 <= m <= INT_MAX - 48) all ->
  (forall m, 0 <= m <= INT_MAX - 48 -> 0 <= fb_instance st m /\ fb_instance st m + Z.of_nat (length all) < INT_MAX - 48) ->
  before = [] \/ last before = Some n -> n ∉ between ++ after ->
  exists name, fb_name_after (before ++ between ++ [n]) n 0 st = Some name /\
    forall p m augend, p `prefix_of` all -> 0 <= m <= INT_MAX - 48 -> augend ∈ [0; 1] ->
      fb_name_after p m augend st = Some name <->
      m = n /\ if augend =? 1 then before `prefix_of` p /\ p `prefix_of` before ++ between
               else before ++ between ++ [n] `prefix_of` p.
Proof.
  intros all Hl Hr Hi Hb Hni.
  assert (Hr' : Forall (fun m => 0 <= m < 2 ^ 31) all) by (eapply Forall_impl; [exact Hr|]; unfold INT_MAX; cbn; lia).
  assert (Hn : 0 <= n <= INT_MAX - 48).
  { rewrite Forall_forall in Hr. apply Hr. unfold all. rewrite !elem_of_app, elem_of_cons. tauto. }
  assert (Hname : forall p m a, p `prefix_of` all -> 0 <= m <= INT_MAX - 48 ->
    fb_name_after p m a st = fb_named m (fb_instance st m + Z.of_nat (count_occ Z.eq_dec p m) + a)).
  { intros p m a [k Hk] Hm. rewrite fb_name_instance, fb_after_instance; [done|done|unfold INT_MAX in *; lia|].
    eapply proj1, Forall_app. by rewrite <- Hk. }
  assert (Hcount : forall p m, p `prefix_of` all -> (count_occ Z.eq_dec p m <= length all)%nat).
  { intros p m Hp. etrans; [apply (count_prefix m _ _ Hp)|]. apply count_occ_bound. }
  assert (Hdef : before ++ between ++ [n] `prefix_of` all) by (exists after; unfold all; by rewrite <- !app_assoc).
  pose proof (proj2 (count_between n before between after _ 0 Hb Hni Hdef ltac:(set_solver)) (reflexivity _)) as Hc.
  pose proof (Hcount _ n Hdef). pose proof (Hi n Hn). set (i := fb_instance st n + Z.of_nat (count_occ Z.eq_dec (before ++ between ++ [n]) n)).
  destruct (fb_named_spec n i n i) as (name & E & _); [unfold i; lia..|].
  exists name. split; [rewrite (Hname _ _ _ Hdef Hn); fold i; by rewrite Z.add_0_r|].
  intros p m a Hp Hm Ha. rewrite (Hname _ _ _ Hp Hm). pose proof (Hcount _ m Hp). pose proof (Hi m Hm).
  assert (0 <= a <= 1) as Ha' by (assert (a = 0 \/ a = 1) by set_solver; lia).
  destruct (fb_named_spec n i m (fb_instance st m + Z.of_nat (count_occ Z.eq_dec p m) + a))
    as (name' & E' & Hiff); [unfold i; lia..|].
  assert (name' = name) as -> by congruence. rewrite Hiff, <- (count_between n before between after p a Hb Hni Hp Ha).
  split; intros [-> ?]; (split; [done|]); unfold i in *; lia.
Qed.

Lemma fresh_instance (m : Z) : fb_instance no_syms m = 0.
Proof.
  unfold fb_instance, fb_label_instance, sgets. destruct (fb_low m); [|done].
  change (fb_low_counter no_syms) with (replicate 10 0). rewrite nth_lookup.
  by destruct (replicate 10 0 !! Z.to_nat m) eqn:Em; [apply lookup_replicate in Em as [-> _]|].
Qed.

(** In [3: 12: 4: 12: 3:] the reference [12f] after the [4:] and the second [12:] itself
    have one name, which [12b] does not have there. *)
Lemma fb_references_witness :
  exists name, fb_name_after [3; 12; 4; 12] 12 0 no_syms = Some name
    /\ fb_name_after [3; 12; 4] 12 1 no_syms = Some name
    /\ fb_name_after [3; 12; 4; 12; 3] 12 0 no_syms = Some name
    /\ fb_name_after [3; 12; 4] 12 0 no_syms <> Some name.
Proof.
  destruct (fb_references no_syms [3; 12] [4] [3] 12) as (name & E & H).
  - done.
  - repeat constructor; unfold INT_MAX; lia.
  - intros m Hm. rewrite fresh_instance. unfold INT_MAX. cbn. lia.
  - by right.
  - set_solver.
  - exists name. split; [exact E|]. split; [|split].
    + apply H; [by exists [12; 3]|unfold INT_MAX; lia|set_solver|]. cbn [Z.eqb Pos.eqb]. split; [done|].
      split; [by exists [4]|by exists []].
    + apply H; [by exists []|unfold INT_MAX; lia|set_solver|]. cbn [Z.eqb]. split; [done|by exists [3]].
    + intros [_ [k Hk]]%H; [discriminate Hk|by exists [12; 3]|unfold INT_MAX; lia|set_solver].
Defined.
