(* ===== verification/GasExpr.v ===== *)
(** * The expression parser: gas/expr.c

    [integer_constant], [operand], [operatorf], [expr] on the input buffer, with
    the values kept as 64-bit [offsetT]s, and the bignums of long constants.  A
    [char *] is an offset of the buffer, [input_line_pointer] being part of the
    state; a name is cut out of the buffer with a NUL and the character put back.

    As configured: [NUMBERS_WITH_SUFFIX] is 0, both kinds of local labels are on,
    MRI mode is off, [md_operand] does nothing and no [md_] hook of the parser is
    defined.  [X_unsigned] and [X_extrabit], which only the directives for big
    integers read, are left out.  [atof_generic] (gas/atof-generic.c) is a
    parameter: it takes the place to read at and returns the place it stops at and
    an error code. *)
From Stdlib Require Import Ascii.
From S2P Require Import Prelude FusionIsa GasHash BfdReloc FusionReloc GasState GasSymbols GasResolve.
From S2P Require Import GasLabels.
#[local] Open Scope Z_scope.

Class FloatParser : Type := atof_generic : Z -> M (Z * Z).

Inductive expr_mode : Type := expr_evaluate | expr_normal | expr_defer.

#[global] Instance expr_mode_eq_dec : EqDecision expr_mode.
Proof. solve_decision. Defined.

(** ** Characters *)
Definition uchar (c : Z) : Z := Z.land c 0xff.

Definition between (lo hi c : Z) : bool := (lo <=? c) && (c <=? hi).

(** [_hex_value], with [_hex_bad] for the other characters. *)
Definition hex_value (c : Z) : Z :=
  let c := uchar c in
  if between 48 57 c then c - 48 else if between 65 70 c then c - 55 else if between 97 102 c then c - 87 else 99.

(** [lex_type]: the characters a name can begin and go on with. *)
Definition lex_type (c : Z) : Z :=
  let c := uchar c in
  if between 65 90 c || between 97 122 c || (c =? 95) || (c =? 46) || (c =? 36) || (128 <=? c) then 3
  else if between 48 57 c then 1 else 0.
Definition is_name_beginner (c : Z) : bool := negb (Z.land (lex_type c) 2 =? 0).
Definition is_part_of_name (c : Z) : bool := negb (Z.land (lex_type c) 1 =? 0).

Definition end_of_line (c : Z) : bool := is_end_of_line (uchar c).

Definition TOLOWER (c : Z) : Z := if between 65 90 c then c + 32 else c.

Fixpoint in_chars (l : string) (c : Z) : bool :=
  match l with EmptyString => false | String d l => (chr d =? c) || in_chars l c end.
Definition FLT_CHARS : string := "rRsSfFdDxXpP".

(** ** The input *)
Definition ilp : M Z := gets input_line_pointer.
Definition set_ilp_to (p : Z) : M unit := modify (set_ilp p).
Definition advance (n : Z) : M unit := modify (fun g => set_ilp (input_line_pointer g + n) g).

(** [input_line_pointer[k]] *)
Definition look_ahead (k : Z) : M Z := p ← ilp; peek (p + k).
(** [*input_line_pointer++] *)
Definition next_char : M Z := p ← ilp; c ← peek p; _ ← set_ilp_to (p + 1); mret c.

Definition SKIP_WHITESPACE : M unit := c ← look_ahead 0; when (c =? 32) (advance 1).
Definition SKIP_ALL_WHITESPACE : M unit :=
  p ← ilp; q ← skip_while (fun c => c =? 32) p; set_ilp_to q.
Definition SKIP_WHITESPACE_AFTER_NAME : M unit :=
  c ← look_ahead 0; _ ← when (c =? 34) (advance 1); SKIP_WHITESPACE.

(** The [do] loop over a quoted name. *)
Fixpoint quote_loop (fuel : nat) (c : Z) : M Z :=
  match fuel with
  | O => fail Floop
  | S n =>
      let backslash_seen := c =? chr "\" in
      c ← next_char;
      if negb (c =? 0) && (negb (c =? 34) || backslash_seen) then quote_loop n c else mret c
  end.

(** Every turn of a loop over the input reads one character of the buffer. *)
Definition input_fuel : M nat := gets (fun g => S (Z.to_nat (Z.of_nat (length (buffer g)) - input_line_pointer g))).

(** The character that was at the NUL, and where the name starts. *)
Definition get_symbol_name : M (Z * Z) :=
  start ← ilp;
  c ← next_char;
  r ← (if is_name_beginner c || (c =? 1) then
         p ← ilp;
         q ← skip_while (fun c => is_part_of_name c || (c =? 1)) p;
         c ← peek q;
         _ ← set_ilp_to (q + 1);
         mret (c, start)
       else if c =? 34 then
         start ← ilp;
         n ← input_fuel;
         c ← quote_loop n c;
         _ ← when (c =? 0) (as_warn ("missing closing '" ++ String quote "'"));
         mret (c, start)
       else mret (c, start));
  _ ← advance (-1);
  p ← ilp;
  _ ← poke p 0;
  mret r.

Definition restore_line_pointer (c : Z) : M Z :=
  p ← ilp;
  _ ← poke p c;
  if c =? 34 then _ ← advance 1; look_ahead 0 else mret c.

(** The C string at [p]. *)
Fixpoint string_loop (fuel : nat) (p : Z) : M string :=
  match fuel with
  | O => fail Floop
  | S n =>
      c ← peek p;
      if c =? 0 then mret EmptyString
      else s ← string_loop n (p + 1); mret (String (ascii_of_N (Z.to_N (uchar c))) s)
  end.

Definition string_at (p : Z) : M string :=
  fun g => string_loop (S (Z.to_nat (Z.of_nat (length (buffer g)) - p))) p g.

(** ** Bignums *)
Definition SIZE_OF_LARGE_NUMBER : nat := 20.
Definition LITTLENUM_MASK : Z := 0xffff.

Definition big_get (i : nat) : M Z :=
  fun g => match generic_bignum (xst g) !! i with Some v => Ret (v, g) | None => Fail Foob end.

Definition set_bignum (l : list Z) (x : xstate) : xstate :=
  mk_xstate (now_seg x) (abs_section_offset x) l (flonum_sign x).
Definition set_flonum_sign (s : Z) (x : xstate) : xstate :=
  mk_xstate (now_seg x) (abs_section_offset x) (generic_bignum x) s.

(** A [LITTLENUM_TYPE] has 16 bits. *)
Definition big_put (i : nat) (v : Z) : M unit :=
  fun g =>
    let l := generic_bignum (xst g) in
    if decide (i < length l)%nat
    then Ret (tt, set_xst (set_bignum (<[i := Z.land v LITTLENUM_MASK]> l) (xst g)) g) else Fail Foob.

Definition generic_bignum_to_int32 : M Z :=
  b1 ← big_get 1; b0 ← big_get 0; mret (Z.land (Z.lor (Z.shiftl b1 16) b0) 0xffffffff).

Definition generic_bignum_to_int64 : M Z :=
  b3 ← big_get 3; b2 ← big_get 2; b1 ← big_get 1; b0 ← big_get 0;
  mret (Z.lor (Z.shiftl (Z.lor (Z.shiftl (Z.lor (Z.shiftl b3 16) b2) 16) b1) 16) b0).

(** ** Numbers *)

(** The digits at the input pointer: the value, their number and the character
    after them, which is passed. *)
Fixpoint digit_loop (fuel : nat) (radix number count : Z) : M (Z * Z * Z) :=
  match fuel with
  | O => fail Floop
  | S n =>
      c ← next_char;
      if hex_value c <? radix then digit_loop n radix (u64 (number * radix + hex_value c)) (count + 1)
      else mret (number, count, c)
  end.

Definition read_digits (radix : Z) : M (Z * Z * Z) := n ← input_fuel; digit_loop n radix 0 0.

Definition too_many_digits (radix : Z) : Z :=
  if radix =? 2 then 64 + 1 else if radix =? 8 then (64 + 2) / 3 + 1
  else if radix =? 16 then (64 + 3) / 4 + 1 else (64 + 11) / 4.

(** [for (i = ...; i >= 2; i--) generic_bignum[i] = generic_bignum[i - 2]] *)
Fixpoint shift_bignum (i : nat) : M unit :=
  match i with
  | S (S j as k) => v ← big_get j; _ ← big_put i v; shift_bignum k
  | _ => mret tt
  end.

(** The words of a literal with underscores. *)
Fixpoint word_loop (fuel : nat) (num_little_digits : nat) : M (nat * Z) :=
  match fuel with
  | O => fail Floop
  | S n =>
      '(number, ndigit, c) ← read_digits 16;
      _ ← when (8 <? ndigit)
            (as_bad "a bignum with underscores may not have more than 8 hex digits in any word");
      _ ← shift_bignum (Nat.min (num_little_digits + 1) (SIZE_OF_LARGE_NUMBER - 1));
      _ ← big_put 0 number;
      _ ← big_put 1 (Z.shiftr number 16);
      if c =? chr "_" then word_loop n (num_little_digits + 2) else mret ((num_little_digits + 2)%nat, c)
  end.

(** [while (generic_bignum[n - 1] == 0 && n > 1) n--;] *)
Fixpoint trim_bignum (n : nat) : M nat :=
  match n with
  | O => fail Foob
  | S k => v ← big_get k; if (v =? 0) && (1 <? n)%nat then trim_bignum k else mret n
  end.

(** How a number is delivered: whether it is small, its value or its length. *)
Definition small_or_big (n : nat) : M (bool * Z) :=
  if (n <=? 2)%nat then v ← generic_bignum_to_int32; mret (true, v)
  else if (n <=? 4)%nat then v ← generic_bignum_to_int64; mret (true, v)
  else mret (false, Z.of_nat n).

Definition underscore_number (start : Z) : M (bool * Z * Z) :=
  _ ← set_ilp_to start;
  fuel ← input_fuel;
  '(n, c) ← word_loop fuel 0;
  let n := Nat.min n (SIZE_OF_LARGE_NUMBER - 1) in
  _ ← gas_assert (4 <=? n)%nat;
  _ ← when (negb (n =? 8)%nat) (as_bad "a bignum with underscores must have exactly 4 words");
  n ← trim_bignum n;
  '(small, number) ← small_or_big n;
  mret (small, number, c).

(** One digit into the littlenums from [i] to [leader]: the carry. *)
Fixpoint carry_loop (k i : nat) (radix carry : Z) : M Z :=
  match k with
  | O => mret carry
  | S k =>
      v ← big_get i;
      let work := carry + radix * v in
      _ ← big_put i (Z.land work LITTLENUM_MASK);
      carry_loop k (S i) radix (Z.shiftr work 16)
  end.

Fixpoint big_loop (fuel : nat) (radix : Z) (leader : nat) : M (nat * Z) :=
  match fuel with
  | O => fail Floop
  | S n =>
      c ← next_char;
      if hex_value c <? radix then
        carry ← carry_loop (S leader) 0 radix (hex_value c);
        leader ← (if negb (carry =? 0) && (leader <? SIZE_OF_LARGE_NUMBER - 1)%nat
                  then _ ← big_put (S leader) carry; mret (S leader) else mret leader);
        big_loop n radix leader
      else mret (leader, c)
  end.

Definition big_number (radix start : Z) : M (bool * Z * Z) :=
  _ ← big_put 0 0; _ ← big_put 1 0; _ ← big_put 2 0; _ ← big_put 3 0;
  _ ← set_ilp_to start;
  fuel ← input_fuel;
  '(leader, c) ← big_loop fuel radix 0;
  '(small, number) ← small_or_big (S leader);
  mret (small, number, c).

Fixpoint L_loop (fuel : nat) (c : Z) : M Z :=
  match fuel with
  | O => fail Floop
  | S n => if (c =? chr "L") || (c =? chr "l") then c ← next_char; L_loop n c else mret c
  end.

Definition constant (n : Z) : expressionS := mk_expr None None n O_constant.
Definition absent : expressionS := mk_expr None None 0 O_absent.
Definition symbol_expr (s : option symbolS) : expressionS := mk_expr s None 0 O_symbol.

(** ** Operators *)

(** [op_encoding]; [O_SINGLE_EQ] is [O_illegal]. *)
Definition op_encoding (c : Z) : operatorT :=
  if c =? chr "!" then O_bit_or_not else if c =? chr "%" then O_modulus
  else if c =? chr "&" then O_bit_and else if c =? chr "*" then O_multiply
  else if c =? chr "+" then O_add else if c =? chr "-" then O_subtract
  else if c =? chr "/" then O_divide else if c =? chr "<" then O_lt
  else if c =? chr ">" then O_gt else if c =? chr "^" then O_bit_exclusive_or
  else if c =? chr "|" then O_bit_inclusive_or else O_illegal.

Definition op_rank (op : operatorT) : Z :=
  match op with
  | O_uminus | O_bit_not | O_logical_not => 9
  | O_multiply | O_divide | O_modulus | O_left_shift | O_right_shift => 8
  | O_bit_inclusive_or | O_bit_or_not | O_bit_exclusive_or | O_bit_and => 7
  | O_add | O_subtract => 5
  | O_eq | O_ne | O_lt | O_le | O_ge | O_gt => 4
  | O_logical_and => 3
  | O_logical_or => 2
  | O_index => 1
  | _ => 0
  end.

(** The operator at the input pointer and its length. *)
Definition operatorf : M (operatorT * Z) :=
  c ← look_ahead 0;
  if end_of_line c then mret (O_illegal, 1)
  else
    let c := uchar c in
    let single := mret (op_encoding c, 1) in
    if c =? chr "<" then
      d ← look_ahead 1;
      if d =? chr "<" then mret (O_left_shift, 2) else if d =? chr ">" then mret (O_ne, 2)
      else if d =? chr "=" then mret (O_le, 2) else single
    else if c =? chr "=" then d ← look_ahead 1; if d =? chr "=" then mret (O_eq, 2) else single
    else if c =? chr ">" then
      d ← look_ahead 1;
      if d =? chr ">" then mret (O_right_shift, 2) else if d =? chr "=" then mret (O_ge, 2) else single
    else if c =? chr "!" then
      d ← look_ahead 1;
      if d =? chr "!" then mret (O_bit_exclusive_or, 2) else if d =? chr "=" then mret (O_ne, 2) else single
    else if c =? chr "|" then d ← look_ahead 1; if d =? chr "|" then mret (O_logical_or, 2) else single
    else if c =? chr "&" then d ← look_ahead 1; if d =? chr "&" then mret (O_logical_and, 2) else single
    else single.

(** [add_to_result], [subtract_from_result] less the extra bit. *)
Definition add_to_result (e : expressionS) (amount : Z) : expressionS :=
  mk_expr (X_add_symbol e) (X_op_symbol e) (s64 (X_add_number e + amount)) (X_op e).
Definition subtract_from_result (e : expressionS) (amount : Z) : expressionS :=
  mk_expr (X_add_symbol e) (X_op_symbol e) (s64 (X_add_number e - amount)) (X_op e).

(** The [switch] over the operator of two constants; [None] goes to the general
    case.  Right shifts are logical. *)
Definition constant_arith (op : operatorT) (left v : Z) : option (res Z) :=
  match op with
  | O_multiply => Some (Ret (s64 (left * v)))
  | O_divide => Some (offset_div left v)
  | O_modulus => Some (offset_rem left v)
  | O_left_shift => Some (Ret (s64 (Z.shiftl left v)))
  | O_right_shift => Some (Ret (s64 (Z.shiftr (u64 left) v)))
  | O_bit_inclusive_or => Some (Ret (Z.lor left v))
  | O_bit_or_not => Some (Ret (Z.lor left (Z.lnot v)))
  | O_bit_exclusive_or => Some (Ret (Z.lxor left v))
  | O_bit_and => Some (Ret (Z.land left v))
  | O_subtract => Some (Ret (s64 (left - v)))
  | O_eq => Some (Ret (all_ones (left =? v)))
  | O_ne => Some (Ret (all_ones (negb (left =? v))))
  | O_lt => Some (Ret (all_ones (left <? v)))
  | O_le => Some (Ret (all_ones (left <=? v)))
  | O_ge => Some (Ret (all_ones (v <=? left)))
  | O_gt => Some (Ret (all_ones (v <? left)))
  | O_logical_and => Some (Ret (c_bool (negb (left =? 0) && negb (v =? 0))))
  | O_logical_or => Some (Ret (c_bool (negb (left =? 0) || negb (v =? 0))))
  | _ => None
  end.

(** A bignum or a flonum as an operand is taken for 0. *)
Definition no_big (e : expressionS) (bignum float : string) : M expressionS :=
  if X_op_is e O_big then
    _ ← as_warn (if 0 <? X_add_number e then bignum else float); mret (constant 0)
  else mret e.

(** The segment of the result. *)
Definition combine_segments (retval rightseg : segT) : M segT :=
  if decide (retval = rightseg) then mret retval
  else if decide (retval = seg_undefined) then mret retval
  else if decide (rightseg = seg_undefined) then mret rightseg
  else if decide (retval = seg_expr) then mret retval
  else if decide (rightseg = seg_expr) then mret rightseg
  else if decide (retval = seg_reg) then mret retval
  else if decide (rightseg = seg_reg) then mret rightseg
  else if decide (rightseg = seg_absolute) then mret retval
  else if decide (retval = seg_absolute) then mret rightseg
  else _ ← as_bad "operation combines symbols in different segments"; mret retval.

Definition clean_up_expression (e : expressionS) : expressionS :=
  match X_op e with
  | O_illegal | O_absent => mk_expr None None 0 (X_op e)
  | O_big | O_constant | O_register => mk_expr None None (X_add_number e) (X_op e)
  | O_symbol | O_uminus | O_bit_not => mk_expr (X_add_symbol e) None (X_add_number e) (X_op e)
  | _ => e
  end.

Section parser.
  Context {float_parser : FloatParser} (flag_keep_locals : bool).

#[local] Abbreviation sym m := (with_syms (fun _ => m)).

Definition floating_constant : M expressionS :=
  p ← ilp;
  '(q, error_code) ← atof_generic p;
  _ ← set_ilp_to q;
  _ ← when (negb (error_code =? 0))
        (as_bad (if error_code =? 2 then "bad floating-point constant: exponent overflow"
                 else "bad floating-point constant: unknown error code=%d"));
  mret (mk_expr None None (-1) O_big).

(** The character [c] after the small [number] decides what it is. *)
Definition small_constant (number c : Z) : M expressionS :=
  if c =? chr "b" then
    name ← sym (fb_label_name (s32 number) 0);
    symbolP ← sym (symbol_find name);
    defined ← match symbolP with Some s => sym (S_IS_DEFINED s) | None => mret false end;
    if (defined : bool) then mret (symbol_expr symbolP)
    else _ ← as_bad ("backward ref to unknown label " ++ String quote ("%d:" ++ String quote "")); mret (constant 0)
  else if c =? chr "f" then
    name ← sym (fb_label_name (s32 number) 1);
    symbolP ← sym (symbol_find_or_make flag_keep_locals name);
    mret (symbol_expr (Some symbolP))
  else if c =? chr "$" then
    defined ← sym (dollar_label_defined (s64 number));
    if (defined : bool) then
      name ← sym (dollar_label_name (s64 number) 0);
      symbolP ← sym (symbol_find name);
      mret (symbol_expr symbolP)
    else
      name ← sym (dollar_label_name (s64 number) 1);
      symbolP ← sym (symbol_find_or_make flag_keep_locals name);
      mret (symbol_expr (Some symbolP))
  else _ ← advance (-1); mret (constant (s64 number)).

Definition integer_constant (radix : Z) : M expressionS :=
  c ← look_ahead 0;
  if end_of_line c then mret absent
  else
    start ← ilp;
    '(number, count, c) ← read_digits radix;
    '(small, number, c) ←
      (if (radix =? 16) && (c =? chr "_") then underscore_number start
       else if count <? too_many_digits radix then mret (true, number, c)
       else big_number radix start);
    c ← (if (c =? chr "U") || (c =? chr "u") then next_char else mret c);
    n ← input_fuel;
    c ← L_loop n c;
    if (small : bool) then small_constant number c
    else _ ← advance (-1); mret (mk_expr None None (s64 number) O_big).

Definition current_location : M expressionS :=
  x ← gets xst;
  mret (if decide (now_seg x = seg_absolute) then constant (s64 (abs_section_offset x))
        else symbol_expr (Some dot_symbol)).

(** What follows the digit 0. *)
Definition float_prefixed (c : Z) : M expressionS :=
  _ ← advance 1; e ← floating_constant; mret (mk_expr (X_add_symbol e) (X_op_symbol e) (- TOLOWER c) (X_op e)).

Definition zero_default (c : Z) : M expressionS :=
  if negb (c =? 0) && in_chars FLT_CHARS c then float_prefixed c else mret (constant 0).

(** [0f] is a label unless a number follows. *)
Definition zero_f : M expressionS :=
  d ← look_ahead 1;
  is_label ←
    (if negb (end_of_line d) && in_chars FLT_CHARS (chr "f") then
       p ← ilp;
       '(cp, _) ← atof_generic (p + 1);
       sign ← (if cp =? p + 2 then x ← peek (cp - 1); mret ((x =? chr "-") || (x =? chr "+")) else mret false);
       if (cp =? p + 1) || sign then mret true
       else x ← peek cp; mret ((x =? chr "f") || (x =? chr "b"))
     else mret true);
  if (is_label : bool) then _ ← advance (-1); integer_constant 10 else float_prefixed (chr "f").

Definition zero_prefixed : M expressionS :=
  c ← look_ahead 0;
  if (c =? chr "x") || (c =? chr "X") then _ ← advance 1; integer_constant 16
  else if (c =? chr "b") || (c =? chr "B") then
    d ← look_ahead 1;
    let binary := (d =? chr "0") || (d =? chr "1") in
    if (c =? chr "b") && negb binary then _ ← advance (-1); integer_constant 10
    else if binary then _ ← advance 1; integer_constant 2
    else zero_default c
  else if between (chr "0") (chr "7") c then integer_constant 8
  else if c =? chr "f" then zero_f
  else if in_chars "dDFreEgG" c then float_prefixed c
  else if c =? chr "$" then integer_constant 10
  else zero_default c.

(** [strncasecmp (input_line_pointer, w, ...) == 0 && ! is_part_of_name (...)] *)
Fixpoint nocase_at (k : Z) (w : string) : M bool :=
  match w with
  | EmptyString => c ← look_ahead k; mret (negb (is_part_of_name c))
  | String d w' => c ← look_ahead k; if TOLOWER c =? chr d then nocase_at (k + 1) w' else mret false
  end.

Definition startof_sizeof (start : bool) : M expressionS :=
  _ ← advance (if start then 8 else 7);
  _ ← SKIP_WHITESPACE;
  c ← look_ahead 0;
  if negb (c =? chr "(") then _ ← as_bad "syntax error in .startof. or .sizeof."; mret absent
  else
    _ ← advance 1;
    _ ← SKIP_WHITESPACE;
    '(c, name) ← get_symbol_name;
    name ← string_at name;
    match name with
    | EmptyString =>
        _ ← as_bad "expected symbol name";
        _ ← restore_line_pointer c;
        _ ← (if negb (c =? chr ")") then ignore_rest_of_line else advance 1);
        mret absent
    | _ =>
        symbolP ← sym (symbol_make ((if start then ".startof." else ".sizeof.") ++ name));
        p ← ilp;
        _ ← poke p c;
        _ ← SKIP_WHITESPACE_AFTER_NAME;
        c ← look_ahead 0;
        _ ← (if negb (c =? chr ")") then as_bad "syntax error in .startof. or .sizeof." else advance 1);
        mret (symbol_expr (Some symbolP))
    end.

(** An identifier. *)
Definition named (mode : expr_mode) : M expressionS :=
  '(c, name) ← get_symbol_name;
  name ← string_at name;
  symbolP ← sym (symbol_find_or_make flag_keep_locals name);
  segment ← sym (S_GET_SEGMENT symbolP);
  let now := negb (bool_decide (mode = expr_defer)) in
  force ← (if now && bool_decide (segment = seg_absolute) then sym (S_FORCE_RELOC symbolP false)
           else mret false);
  e ← (if now && bool_decide (segment = seg_absolute) && negb force then
         v ← with_syms (fun fs => S_GET_VALUE fs symbolP); mret (constant (s64 v))
       else if now && bool_decide (segment = seg_reg) then
         v ← with_syms (fun fs => S_GET_VALUE fs symbolP); mret (mk_expr None None (s64 v) O_register)
       else mret (symbol_expr (Some symbolP)));
  _ ← restore_line_pointer c;
  mret e.

(** [~] on each littlenum from [i] up to [n]. *)
Fixpoint invert_loop (k i : nat) : M unit :=
  match k with
  | O => mret tt
  | S k => v ← big_get i; _ ← big_put i (Z.lnot v); invert_loop k (S i)
  end.

Fixpoint fill_loop (k i : nat) : M unit :=
  match k with O => mret tt | S k => _ ← big_put i LITTLENUM_MASK; fill_loop k (S i) end.

Fixpoint increment_loop (k i : nat) : M unit :=
  match k with
  | O => mret tt
  | S k =>
      v ← big_get i;
      let v := Z.land (v + 1) LITTLENUM_MASK in
      _ ← big_put i v;
      if v =? 0 then increment_loop k (S i) else mret tt
  end.

Fixpoint all_zero (k i : nat) : M bool :=
  match k with
  | O => mret true
  | S k => v ← big_get i; if v =? 0 then all_zero k (S i) else mret false
  end.

(** A unary operator on a bignum of [n] littlenums. *)
Definition unary_big (c : Z) (e : expressionS) : M expressionS :=
  let n := Z.to_nat (X_add_number e) in
  if (c =? chr "~") || (c =? chr "-") then
    _ ← invert_loop n 0;
    _ ← fill_loop (SIZE_OF_LARGE_NUMBER - n) n;
    let n := Nat.max n SIZE_OF_LARGE_NUMBER in
    _ ← (if c =? chr "-" then increment_loop n 0 else mret tt);
    mret (mk_expr (X_add_symbol e) (X_op_symbol e) (Z.of_nat n) O_big)
  else if c =? chr "!" then
    zero ← all_zero n 0; mret (mk_expr (X_add_symbol e) (X_op_symbol e) (c_bool zero) O_constant)
  else mret e.

(** The operand of a unary operator has been read. *)
Definition unary (c : Z) (e : expressionS) : M expressionS :=
  let with_number n := mret (mk_expr (X_add_symbol e) (X_op_symbol e) n O_constant) in
  sign ← gets (fun g => flonum_sign (xst g));
  if X_op_is e O_constant then
    if c =? chr "-" then with_number (s64 (- X_add_number e))
    else if c =? chr "~" then with_number (Z.lnot (X_add_number e))
    else if c =? chr "!" then with_number (c_bool (X_add_number e =? 0))
    else mret e
  else if X_op_is e O_big && (X_add_number e <=? 0) && (c =? chr "-")
          && ((sign =? chr "+") || (sign =? chr "P")) then
    _ ← modify (fun g => set_xst (set_flonum_sign (if sign =? chr "+" then chr "-" else chr "N") (xst g)) g);
    mret e
  else if X_op_is e O_big && (0 <? X_add_number e) then unary_big c e
  else if negb (X_op_is e O_illegal) && negb (X_op_is e O_absent) then
    if c =? chr "+" then mret e
    else
      s ← with_syms (fun fs => make_expr_symbol fs e);
      mret (mk_expr s (X_op_symbol e) 0
              (if c =? chr "-" then O_uminus else if c =? chr "~" then O_bit_not else O_logical_not))
  else _ ← as_warn "Unary operator %c ignored because bad operand follows"; mret e.

(** Where the assembler is. *)
Definition frag_now_fix : M Z :=
  fun g =>
    if decide (now_seg (xst g) = seg_absolute) then Ret (u64 (abs_section_offset (xst g)), g)
    else (now ← frag_now; x ← get_frag (Some now); mret (Z.of_nat (length (fr_literal x)))) g.

Definition here : M dot :=
  x ← gets xst; now ← frag_now; fix_ ← frag_now_fix; mret (mk_dot (now_seg x) (Frag now) fix_).

Definition clone_operand (s : option symbolS) : M (option symbolS) :=
  d ← here; sym (symbol_clone_if_forward_ref d s).

Definition mark_used (s : option symbolS) : M unit :=
  match s with Some s => sym (symbol_mark_used s) | None => mret tt end.

(** The end of [operand]. *)
Definition finish_operand (mode : expr_mode) (e : expressionS) : M (expressionS * segT) :=
  let e := clean_up_expression e in
  _ ← SKIP_ALL_WHITESPACE;
  _ ← mark_used (X_add_symbol e);
  e ← (if decide (mode = expr_defer) then mret e
       else
         add ← clone_operand (X_add_symbol e);
         other ← clone_operand (X_op_symbol e);
         mret (mk_expr add other (X_add_number e) (X_op e)));
  match X_op e with
  | O_symbol => s ← (match X_add_symbol e with Some s => mret s | None => fail Foob end);
                seg ← sym (S_GET_SEGMENT s); mret (e, seg)
  | O_register => mret (e, seg_reg)
  | _ => mret (e, seg_absolute)
  end.

(** The symbols of [left - right] are in one section, where the distance of their
    places is known. *)
Definition known_distance (l r : symbolS) (same_seg : bool) (seg : segT) : M (option Z) :=
  if negb same_seg then mret None
  else
    ok ← (if SEG_NORMAL seg then
            fl ← sym (S_FORCE_RELOC l false);
            fr ← (if (fl : bool) then mret true else sym (S_FORCE_RELOC r false));
            mret (negb fl && negb fr)
          else mret false);
    if ok || bool_decide (r = l) then
      f1 ← sym (symbol_get_frag l);
      f2 ← sym (symbol_get_frag r);
      with_syms (fun fs => slift (frag_offset_fixed_p fs f1 f2))
    else mret None.

(** Neither symbol forces a relocation and both are in the section [seg]. *)
Definition difference_is_absolute (l r : symbolS) (same_seg : bool) (seg : segT) : M bool :=
  if same_seg && SEG_NORMAL seg then
    fl ← sym (S_FORCE_RELOC l false);
    if (fl : bool) then mret false else fr ← sym (S_FORCE_RELOC r false); mret (negb fr)
  else mret false.

Definition needs (s : option symbolS) : M symbolS := match s with Some s => mret s | None => fail Foob end.

(** The general case: both sides become symbols. *)
Definition general (op : operatorT) (left right : expressionS) : M expressionS :=
  a ← with_syms (fun fs => make_expr_symbol fs left);
  b ← with_syms (fun fs => make_expr_symbol fs right);
  mret (mk_expr a b 0 op).

(** Two symbols: [Some] is their distance. *)
Definition pic_case (op : operatorT) (left right : expressionS) (retval rightseg : segT) : M (option Z) :=
  if bool_decide (op = O_subtract) && X_op_is right O_symbol && X_op_is left O_symbol then
    l ← needs (X_add_symbol left);
    r ← needs (X_add_symbol right);
    off ← known_distance l r (bool_decide (retval = rightseg)) rightseg;
    match off with
    | Some frag_off =>
        v ← with_syms (fun fs => S_GET_VALUE fs l);
        w ← with_syms (fun fs => S_GET_VALUE fs r);
        mret (Some (s64 (s64 (X_add_number left - X_add_number right) - frag_off + s64 (v - w))))
    | None => mret None
    end
  else mret None.

(** The body of the loop of [expr] once the right operand is read: the result
    and its segment. *)
Definition apply_operator (op : operatorT) (left right : expressionS) (retval rightseg : segT)
  : M (expressionS * segT) :=
  lv ← no_big left "left operand is a bignum; integer 0 assumed" "left operand is a float; integer 0 assumed";
  rv ← no_big right "right operand is a bignum; integer 0 assumed" "right operand is a float; integer 0 assumed";
  let finish e rs := seg ← combine_segments retval rs; mret (e, seg) in
  if bool_decide (op = O_add) && X_op_is rv O_constant then
    finish (add_to_result lv (X_add_number rv)) rightseg
  else
  distance ← pic_case op lv rv retval rightseg;
  match distance with
  | Some n => finish (mk_expr None (X_op_symbol lv) n O_constant) rightseg
  | None =>
      if bool_decide (op = O_subtract) && X_op_is rv O_constant then
        finish (subtract_from_result lv (X_add_number rv)) rightseg
      else if bool_decide (op = O_add) && X_op_is lv O_constant then
        mret (mk_expr (X_add_symbol rv) (X_op_symbol rv)
                (s64 (X_add_number lv + X_add_number rv)) (X_op rv), rightseg)
      else if X_op_is lv O_constant && X_op_is rv O_constant then
        let v := X_add_number rv in
        let div0 := (v =? 0) && (bool_decide (op = O_divide) || bool_decide (op = O_modulus)) in
        _ ← when div0 (as_warn "division by zero");
        let v := if div0 then 1 else v in
        let far := (64 <=? u64 v) && (bool_decide (op = O_left_shift) || bool_decide (op = O_right_shift)) in
        _ ← when far (as_warn (if (v <? 1024) && (-1024 <? v)
                               then "%s out of range (%d is not between %d and %d)"
                               else "%s out of range (0x%s is not between 0x%s and 0x%s)"));
        let n := if far then 0 else X_add_number lv in
        let v := if far then 0 else v in
        match constant_arith op n v with
        | Some r => n ← lift r; finish (mk_expr (X_add_symbol lv) (X_op_symbol lv) n O_constant) rightseg
        | None => e ← general op lv rv; finish e rightseg
        end
      else if X_op_is lv O_symbol && X_op_is rv O_symbol
              && (bool_decide (op = O_add) || bool_decide (op = O_subtract)
                  || ((X_add_number lv =? 0) && (X_add_number rv =? 0))) then
        let e n := mk_expr (X_add_symbol lv) (X_add_symbol rv) n op in
        if decide (op = O_add) then finish (e (s64 (X_add_number lv + X_add_number rv))) rightseg
        else if decide (op = O_subtract) then
          l ← needs (X_add_symbol lv);
          r ← needs (X_add_symbol rv);
          abs ← difference_is_absolute l r (bool_decide (retval = rightseg)) retval;
          let e := e (s64 (X_add_number lv - X_add_number rv)) in
          if (abs : bool) then mret (e, seg_absolute) else finish e rightseg
        else finish (e (X_add_number lv)) rightseg
      else e ← general op lv rv; finish e rightseg
  end.

(** ** The recursion *)
Inductive task : Type :=
| Operand
| Expr (rank : Z)
| Loop (rank : Z) (resultP : expressionS) (retval : segT).

(** [operand] and [expr]; [Loop] is the [while] loop of [expr] and what follows it,
    from reading the operator on. *)
Fixpoint parse (fuel : nat) (mode : expr_mode) (t : task) : M (expressionS * segT) :=
  match fuel with
  | O => fail Floop
  | S n =>
      match t with
      | Operand =>
          _ ← SKIP_WHITESPACE;
          c ← next_char;
          let finish m := e ← m; finish_operand mode e in
          let name_here := _ ← advance (-1); named mode in
          if end_of_line c then finish (_ ← advance (-1); mret absent)
          else if between (chr "1") (chr "9") c then finish (_ ← advance (-1); integer_constant 10)
          else if c =? chr "0" then finish zero_prefixed
          else if (c =? chr "[") || (c =? chr "(") then
            '(e, segment) ← parse n mode (Expr 0);
            let close := if c =? chr "(" then chr ")" else chr "]" in
            d ← look_ahead 0;
            _ ← (if negb (d =? close) then
                   as_bad (if negb (d =? 0) then "found '%c', expected: '%c'" else "missing '%c'")
                 else advance 1);
            _ ← SKIP_WHITESPACE;
            mret (e, segment)
          else if c =? chr "'" then finish (d ← next_char; mret (constant d))
          else if in_chars "~!-+" c then
            '(e, _) ← parse n mode Operand; finish (unary c e)
          else if c =? chr "." then
            d ← look_ahead 0;
            if negb (is_part_of_name d) then finish current_location
            else
              startof ← nocase_at 0 "startof.";
              sizeof ← (if (startof : bool) then mret true else nocase_at 0 "sizeof.");
              if startof || sizeof then
                d ← look_ahead 1;
                finish (startof_sizeof ((d =? chr "t") || (d =? chr "T")))
              else finish name_here
          else if c =? chr "," then finish (_ ← advance (-1); mret absent)
          else if is_name_beginner c || (c =? 34) then finish name_here
          else finish (_ ← as_bad "bad expression"; mret (constant 0))
      | Expr rank =>
          _ ← (if rank =? 0 then
                 v ← frag_now_fix; now ← frag_now; modify (set_dot v (Some now))
               else mret tt);
          '(e, retval) ← parse n mode Operand;
          parse n mode (Loop rank e retval)
      | Loop rank resultP retval =>
          '(op_left, op_chars) ← operatorf;
          if bool_decide (op_left <> O_illegal) && (rank <? op_rank op_left) then
            _ ← advance op_chars;
            '(rv, rightseg) ← parse n mode (Expr (op_rank op_left));
            rv ← (if X_op_is rv O_absent
                     then _ ← as_warn "missing operand; zero assumed"; mret (constant 0) else mret rv);
            '(resultP, retval) ← apply_operator op_left resultP rv retval rightseg;
            parse n mode (Loop rank resultP retval)
          else
            _ ← mark_used (X_add_symbol resultP);
            e ← (if (rank =? 0) && bool_decide (mode = expr_evaluate) then
                   r ← with_syms (fun fs => resolve_expression fs resultP);
                   mret (match r with Some e => e | None => resultP end)
                 else mret resultP);
            mret (e, if X_op_is e O_constant then seg_absolute else retval)
      end
  end.

(** Twice the characters left bound the calls: a call that reads nothing is
    followed by one that does. *)
Definition parse_fuel (g : gas) : nat :=
  S (S (S (2 * Z.to_nat (Z.of_nat (length (buffer g)) - input_line_pointer g)))).

Definition expr (rank : Z) (mode : expr_mode) : M (expressionS * segT) :=
  fun g => parse (parse_fuel g) mode (Expr rank) g.
Definition operand (mode : expr_mode) : M (expressionS * segT) :=
  fun g => parse (parse_fuel g) mode Operand g.

Definition get_single_number : M Z := '(e, _) ← operand expr_normal; mret (u32 (X_add_number e)).
End parser.
