(* ===== verification/GasExprEnds.v ===== *)
(** * The expression parser ends

    The parser's calls are bounded by the characters left: [moves k m] says that
    [m], if it returns, has moved the input pointer by [k] at least and kept the
    length of the buffer.  The reads before a recursive call consume a character,
    so the result does not depend on the fuel, once it is twice the characters
    left and three more. *)
From Stdlib Require Import Ascii.
From S2P Require Import Prelude FusionIsa GasHash BfdReloc FusionReloc GasState GasSymbols GasResolve.
From S2P Require Import GasLabels GasExpr.
#[local] Open Scope Z_scope.

(** ** How far a step moves *)
Definition moves {A : Type} (k : Z) (m : M A) : Prop :=
  forall g a g', m g = Ret (a, g') ->
    input_line_pointer g + k <= input_line_pointer g' /\ length (buffer g') = length (buffer g).

Lemma moves_weaken {A : Type} (j k : Z) (m : M A) : moves j m -> k <= j -> moves k m.
Proof. intros H Hk g a g' E. destruct (H g a g' E). split; [lia|done]. Qed.

Lemma bind_inv {A B : Type} (m : M A) (f : A -> M B) (g g' : gas) (b : B) :
  (m ≫= f) g = Ret (b, g') -> exists a g1, m g = Ret (a, g1) /\ f a g1 = Ret (b, g').
Proof. unfold mbind, M_bind. destruct (m g) as [[a g1]|]; [|done]. eauto. Qed.

Lemma moves_bind {A B : Type} (j k : Z) (m : M A) (f : A -> M B) :
  moves j m -> (forall a, moves (k - j) (f a)) -> moves k (m ≫= f).
Proof.
  intros Hm Hf g b g' (a & g1 & E1 & E2)%bind_inv.
  destruct (Hm _ _ _ E1), (Hf a _ _ _ E2). split; [lia|congruence].
Qed.

Lemma moves_ret {A : Type} (a : A) (k : Z) : k <= 0 -> moves k (mret a : M A).
Proof. intros Hk g b g' [= <- <-]. split; [lia|done]. Qed.

Lemma moves_fail {A : Type} (f : fault) (k : Z) : moves k (fail f : M A).
Proof. done. Qed.

(** A step that does not touch the input. *)
Definition still {A : Type} (m : M A) : Prop :=
  forall g a g', m g = Ret (a, g') -> input_line_pointer g' = input_line_pointer g /\ buffer g' = buffer g.

Lemma moves_still {A : Type} (m : M A) (k : Z) : still m -> k <= 0 -> moves k m.
Proof. intros H Hk g a g' E. destruct (H g a g' E) as [-> ->]. split; [lia|done]. Qed.

Lemma still_bind {A B : Type} (m : M A) (f : A -> M B) : still m -> (forall a, still (f a)) -> still (m ≫= f).
Proof.
  intros Hm Hf g b g' (a & g1 & E1 & E2)%bind_inv. destruct (Hm _ _ _ E1), (Hf a _ _ _ E2). split; congruence.
Qed.

Lemma still_ret {A : Type} (a : A) : still (mret a : M A).
Proof. by intros g b g' [= <- <-]. Qed.
Lemma still_fail {A : Type} (f : fault) : still (fail f : M A).
Proof. done. Qed.
Lemma still_gets {A : Type} (f : gas -> A) : still (gets f).
Proof. by intros g b g' [= <- <-]. Qed.
Lemma still_lift {A : Type} (r : res A) : still (lift r).
Proof. intros g b g'. unfold lift. destruct r; [|done]. by intros [= <- <-]. Qed.
Lemma still_bad (s : string) : still (as_bad s).
Proof. by intros g b g' [= <- <-]. Qed.
Lemma still_warn (s : string) : still (as_warn s).
Proof. by intros g b g' [= <- <-]. Qed.
Lemma still_peek (p : Z) : still (peek p).
Proof. intros g b g'. unfold peek. destruct (rd _ _); [|done]. by intros [= <- <-]. Qed.
Lemma still_syms {A : Type} (m : list frag -> SM A) : still (with_syms m).
Proof. intros g b g'. unfold with_syms. destruct (m _ _) as [[a st]|]; [|done]. by intros [= <- <-]. Qed.
Lemma still_when (b : bool) (m : M unit) : still m -> still (when b m).
Proof. unfold when. destruct b; [done|]. intros _. apply still_ret. Qed.
Lemma still_big_get (i : nat) : still (big_get i).
Proof. intros g b g'. unfold big_get. destruct (_ !! _); [|done]. by intros [= <- <-]. Qed.
Lemma still_big_put (i : nat) (v : Z) : still (big_put i v).
Proof. intros g b g'. unfold big_put. destruct (decide _); [|done]. by intros [= <- <-]. Qed.
Lemma still_xst (f : gas -> xstate) : still (modify (fun g => set_xst (f g) g)).
Proof. by intros g b g' [= <- <-]. Qed.
Lemma still_dot (v : Z) (f : option nat) : still (modify (set_dot v f)).
Proof. by intros g b g' [= <- <-]. Qed.
Lemma still_get_frag (f : option nat) : still (get_frag f).
Proof. intros g b g'. unfold get_frag. destruct f; [|done]. destruct (_ !! _); [|done]. by intros [= <- <-]. Qed.
Lemma still_assert (b : bool) : still (gas_assert b).
Proof. unfold gas_assert. destruct b; [apply still_ret|apply still_fail]. Qed.

Create HintDb still.
#[export] Hint Resolve still_ret still_fail still_gets still_lift still_bad still_warn still_peek still_syms
  still_when still_big_get still_big_put still_xst still_dot still_get_frag still_assert : still.

(** Steps of a sequence, branches and matches. *)
Ltac still_tac :=
  repeat first
    [ progress intros
    | solve [eauto with still]
    | apply still_bind
    | match goal with |- still (match ?x with _ => _ end) => destruct x end
    | match goal with |- still (let '(_, _) := ?x in _) => destruct x end ].

Lemma moves_advance (n k : Z) : k <= n -> moves k (advance n).
Proof. intros Hk g b g' [= <- <-]. cbn. split; [lia|done]. Qed.

Lemma still_look (k : Z) : still (look_ahead k).
Proof. unfold look_ahead, ilp. still_tac. Qed.
Lemma still_ilp : still ilp.
Proof. apply still_gets. Qed.
Lemma still_fuel : still input_fuel.
Proof. apply still_gets. Qed.
#[export] Hint Resolve still_look still_ilp still_fuel : still.

Lemma moves_poke (p c k : Z) : k <= 0 -> moves k (poke p c).
Proof.
  intros Hk g b g'. unfold poke, wr. destruct (_ && _); [|done]. cbn. intros [= <- <-]. cbn. rewrite length_insert.
  split; [lia|done].
Qed.

(** Reading the input pointer, to set it later. *)
Lemma moves_ilp {B : Type} (k : Z) (f : Z -> M B) :
  (forall g a g', f (input_line_pointer g) g = Ret (a, g') ->
     input_line_pointer g + k <= input_line_pointer g' /\ length (buffer g') = length (buffer g)) ->
  moves k (p ← ilp; f p).
Proof. intros H g b g'. unfold ilp, gets, mbind, M_bind. apply H. Qed.

Lemma moves_next (k : Z) : k <= 1 -> moves k next_char.
Proof.
  intros Hk. apply moves_ilp. intros g a g' (c & g1 & E & H)%bind_inv.
  destruct (still_peek _ _ _ _ E) as [_ Hb]. destruct (bind_inv _ _ _ _ _ H) as (u & g2 & E2 & H2).
  injection E2 as <- <-. injection H2 as <- <-. cbn. split; [lia|congruence].
Qed.

Lemma skip_loop_moves (n : nat) (f : Z -> bool) (p : Z) (g : gas) (q : Z) (g' : gas) :
  skip_loop n f p g = Ret (q, g') -> p <= q /\ g' = g.
Proof.
  revert p g. induction n as [|n IH]; [done|]. intros p g. cbn [skip_loop].
  intros (c & g1 & E & H)%bind_inv.
  assert (g1 = g) as ->. { revert E. unfold peek. destruct (rd _ _); [|done]. by intros [= <- <-]. }
  destruct (f c); [|injection H as <- <-; split; [lia|done]]. apply IH in H as [? ->]. split; [lia|done].
Qed.

Lemma skip_while_moves (f : Z -> bool) (p : Z) (g : gas) (q : Z) (g' : gas) :
  skip_while f p g = Ret (q, g') -> p <= q /\ g' = g.
Proof. apply skip_loop_moves. Qed.

Lemma moves_skip (k : Z) : k <= 0 -> moves k SKIP_ALL_WHITESPACE.
Proof.
  intros Hk. apply moves_ilp. intros g a g' (q & g1 & E & H)%bind_inv.
  apply skip_while_moves in E as [Hq ->]. injection H as <- <-. cbn. split; [lia|done].
Qed.

Lemma advance_moves (n : Z) : moves n (advance n).
Proof. by apply moves_advance. Qed.
Lemma next_moves : moves 1 next_char.
Proof. by apply moves_next. Qed.
Lemma poke_moves (p c : Z) : moves 0 (poke p c).
Proof. by apply moves_poke. Qed.
Lemma skip_moves : moves 0 SKIP_ALL_WHITESPACE.
Proof. by apply moves_skip. Qed.

Create HintDb moves.
#[export] Hint Resolve advance_moves next_moves poke_moves skip_moves : moves.

(** What is left when the tactic below stops is a loop or a reset of the input
    pointer. *)
Ltac moves_tac :=
  repeat first
    [ apply moves_ret; lia
    | apply moves_fail
    | apply moves_still; [solve [still_tac]|lia]
    | solve [eapply moves_weaken; [eauto with moves nocore|lia]]
    | eapply moves_bind;
      [first [solve [eauto with moves nocore] | apply (moves_still _ 0); [solve [still_tac]|lia]]|intros]
    | eapply (moves_bind 0); [solve [branch_tac]|intros]
    | branch_tac ]
with branch_tac :=
  match goal with
  | |- moves _ (match ?x with _ => _ end) => destruct x; moves_tac
  | |- moves _ (let '(_, _) := ?x in _) => destruct x; moves_tac
  | |- moves _ (when ?b _) => unfold when; destruct b; moves_tac
  end.

Lemma whitespace_moves : moves 0 SKIP_WHITESPACE.
Proof. unfold SKIP_WHITESPACE. moves_tac. Qed.
#[export] Hint Resolve whitespace_moves : moves.

Lemma after_name_moves : moves 0 SKIP_WHITESPACE_AFTER_NAME.
Proof. unfold SKIP_WHITESPACE_AFTER_NAME. moves_tac. Qed.

Lemma quote_loop_moves (n : nat) (c : Z) : moves 0 (quote_loop n c).
Proof. revert c. induction n as [|n IH]; intros c; cbn [quote_loop]; cbv zeta; moves_tac. Qed.

Lemma digit_loop_moves (n : nat) (radix number count : Z) : moves 1 (digit_loop n radix number count).
Proof. revert number count. induction n as [|n IH]; intros number count; cbn [digit_loop]; moves_tac. Qed.

Lemma L_loop_moves (n : nat) (c : Z) : moves 0 (L_loop n c).
Proof. revert c. induction n as [|n IH]; intros c; cbn [L_loop]; moves_tac. Qed.
#[export] Hint Resolve after_name_moves quote_loop_moves digit_loop_moves L_loop_moves : moves.

Lemma read_digits_moves (radix : Z) : moves 1 (read_digits radix).
Proof. unfold read_digits. moves_tac. Qed.

(** The start of a name, then a place not before it. *)
Lemma set_forward {A : Type} (p k : Z) (m : M A) (g : gas) (a : A) (g' : gas) :
  moves k m -> (_ ← set_ilp_to p; m) g = Ret (a, g') ->
  p + k <= input_line_pointer g' /\ length (buffer g') = length (buffer g).
Proof.
  intros Hm (u & g1 & E & H)%bind_inv. injection E as <- <-. apply Hm in H. exact H.
Qed.

Lemma name_moves (k : Z -> M (Z * Z)) (f : Z -> bool) :
  (forall c, moves 0 (k c)) -> moves 1 (p ← ilp; q ← skip_while f p; c ← peek q; _ ← set_ilp_to (q + 1); k c).
Proof.
  intros Hk. apply moves_ilp. intros g a g' (q & g1 & E & H)%bind_inv.
  apply skip_while_moves in E as [Hq ->]. apply bind_inv in H as (c & g2 & E & H).
  destruct (still_peek _ _ _ _ E) as [_ Hb]. eapply set_forward in H; [|apply Hk]. rewrite Hb in H. lia.
Qed.

Lemma get_symbol_name_moves : moves 0 get_symbol_name.
Proof.
  unfold get_symbol_name. eapply (moves_bind 0); [apply moves_still; [still_tac|lia]|intros start].
  eapply (moves_bind 1); [apply next_moves|intros c].
  eapply (moves_bind 0); [|intros r; moves_tac].
  destruct (is_name_beginner c || (c =? 1)).
  - eapply moves_weaken; [apply name_moves|lia]. intros c'. by apply moves_ret.
  - moves_tac.
Qed.

Lemma restore_moves (c : Z) : moves 0 (restore_line_pointer c).
Proof. unfold restore_line_pointer. moves_tac. Qed.
#[export] Hint Resolve read_digits_moves get_symbol_name_moves restore_moves : moves.

Lemma string_loop_still (n : nat) (p : Z) : still (string_loop n p).
Proof. revert p. induction n as [|n IH]; intros p; cbn [string_loop]; still_tac. Qed.

Lemma string_at_still (p : Z) : still (string_at p).
Proof. intros g a g'. apply string_loop_still. Qed.
#[export] Hint Resolve string_at_still : still.

(** ** Bignums do not touch the input *)
Lemma int32_still : still generic_bignum_to_int32.
Proof. unfold generic_bignum_to_int32. still_tac. Qed.
Lemma int64_still : still generic_bignum_to_int64.
Proof. unfold generic_bignum_to_int64. still_tac. Qed.
#[export] Hint Resolve int32_still int64_still : still.

Lemma small_or_big_still (n : nat) : still (small_or_big n).
Proof. unfold small_or_big. still_tac. Qed.

Lemma shift_bignum_still (i : nat) : still (shift_bignum i).
Proof.
  enough (still (shift_bignum i) /\ still (shift_bignum (S i))) by tauto.
  induction i as [|i [IH1 IH2]]; [split; still_tac|]. split; [done|].
  change (shift_bignum (S (S i))) with (v ← big_get i; _ ← big_put (S (S i)) v; shift_bignum (S i)). still_tac.
Qed.

Lemma trim_bignum_still (n : nat) : still (trim_bignum n).
Proof. induction n as [|n IH]; cbn [trim_bignum]; still_tac. Qed.

Lemma carry_loop_still (k i : nat) (radix carry : Z) : still (carry_loop k i radix carry).
Proof. revert i carry. induction k as [|k IH]; intros i carry; cbn [carry_loop]; cbv zeta; still_tac. Qed.
#[export] Hint Resolve small_or_big_still shift_bignum_still trim_bignum_still carry_loop_still : still.

Lemma word_loop_moves (n k : nat) : moves 1 (word_loop n k).
Proof. revert k. induction n as [|n IH]; intros k; cbn [word_loop]; moves_tac. Qed.

Lemma big_loop_moves (n : nat) (radix : Z) (leader : nat) : moves 1 (big_loop n radix leader).
Proof. revert leader. induction n as [|n IH]; intros leader; cbn [big_loop]; moves_tac. Qed.
#[export] Hint Resolve word_loop_moves big_loop_moves : moves.

Lemma invert_still (k i : nat) : still (invert_loop k i).
Proof. revert i. induction k as [|k IH]; intros i; cbn [invert_loop]; still_tac. Qed.
Lemma fill_still (k i : nat) : still (fill_loop k i).
Proof. revert i. induction k as [|k IH]; intros i; cbn [fill_loop]; still_tac. Qed.
Lemma increment_still (k i : nat) : still (increment_loop k i).
Proof. revert i. induction k as [|k IH]; intros i; cbn [increment_loop]; cbv zeta; still_tac. Qed.
Lemma all_zero_still (k i : nat) : still (all_zero k i).
Proof. revert i. induction k as [|k IH]; intros i; cbn [all_zero]; still_tac. Qed.
#[export] Hint Resolve invert_still fill_still increment_still all_zero_still : still.

(** ** The parser *)

(** What the parser relies on: a number is read forwards, and only the caller
    moves the input pointer. *)
Class FloatForward (fp : FloatParser) : Prop :=
  atof_forward : forall p g q e g', atof_generic p g = Ret ((q, e), g') ->
    p <= q /\ input_line_pointer g' = input_line_pointer g /\ length (buffer g') = length (buffer g).

Section parser.
  Context {float_parser : FloatParser} {forward : FloatForward float_parser} (flag_keep_locals : bool).

Lemma underscore_moves (start : Z) (g : gas) (r : bool * Z * Z) (g' : gas) :
  underscore_number start g = Ret (r, g') ->
  start + 1 <= input_line_pointer g' /\ length (buffer g') = length (buffer g).
Proof. unfold underscore_number. apply set_forward. moves_tac. Qed.

Lemma big_number_moves (radix start : Z) (g : gas) (r : bool * Z * Z) (g' : gas) :
  big_number radix start g = Ret (r, g') ->
  start + 1 <= input_line_pointer g' /\ length (buffer g') = length (buffer g).
Proof.
  unfold big_number. intros (u1 & g1 & E1 & H)%bind_inv. apply bind_inv in H as (u2 & g2 & E2 & H).
  apply bind_inv in H as (u3 & g3 & E3 & H). apply bind_inv in H as (u4 & g4 & E4 & H).
  destruct (still_big_put _ _ _ _ _ E1), (still_big_put _ _ _ _ _ E2), (still_big_put _ _ _ _ _ E3),
    (still_big_put _ _ _ _ _ E4).
  eapply set_forward with (k := 1) in H; [|moves_tac]. destruct H. split; [done|congruence].
Qed.

Lemma floating_moves : moves 0 floating_constant.
Proof.
  apply moves_ilp. intros g a g' ([q e] & g1 & E & H)%bind_inv. destruct (atof_forward _ _ _ _ _ E) as (Hq & _ & Hb).
  eapply set_forward with (k := 0) in H; [|moves_tac]. destruct H. split; [lia|congruence].
Qed.

Lemma small_constant_moves (number c : Z) : moves (-1) (small_constant flag_keep_locals number c).
Proof. unfold small_constant. moves_tac. Qed.
#[local] Hint Resolve floating_moves small_constant_moves : moves.

Lemma integer_constant_moves (radix : Z) : moves 0 (integer_constant flag_keep_locals radix).
Proof.
  unfold integer_constant. eapply (moves_bind 0); [apply moves_still; [still_tac|lia]|intros c0].
  destruct (end_of_line c0); [by apply moves_ret|]. apply moves_ilp.
  intros g a g' ([[number count] c] & g1 & E1 & H)%bind_inv. apply read_digits_moves in E1 as [P1 B1].
  apply bind_inv in H as ([[small number'] c'] & g2 & E2 & H).
  assert (P2 : input_line_pointer g + 1 <= input_line_pointer g2 /\ length (buffer g2) = length (buffer g1)).
  { destruct ((radix =? 16) && (c =? chr "_")); [by apply underscore_moves in E2|].
    destruct (count <? too_many_digits radix); [|by apply big_number_moves in E2].
    injection E2 as <- <- <- <-. done. }
  enough (moves (-1) (c ← (if (c' =? chr "U") || (c' =? chr "u") then next_char else mret c');
     n ← input_fuel; c ← L_loop n c;
     (if (small : bool) then small_constant flag_keep_locals number' c
      else _ ← advance (-1); mret (mk_expr None None (s64 number') O_big)))) as K.
  { apply K in H as [P3 B3]. destruct P2 as [P2 B2]. split; [lia|congruence]. }
  moves_tac.
Qed.
#[local] Hint Resolve integer_constant_moves : moves.

Lemma location_still : still current_location.
Proof. unfold current_location. still_tac. Qed.

Lemma atof_moves (p : Z) : moves 0 (atof_generic p).
Proof. intros g [q e] g' E. destruct (atof_forward _ _ _ _ _ E) as (_ & -> & ->). split; [lia|done]. Qed.
#[local] Hint Resolve location_still : still.
#[local] Hint Resolve atof_moves : moves.

Lemma float_prefixed_moves (c : Z) : moves 1 (float_prefixed c).
Proof. unfold float_prefixed. moves_tac. Qed.
#[local] Hint Resolve float_prefixed_moves : moves.

Lemma zero_f_moves : moves (-1) (zero_f flag_keep_locals).
Proof. unfold zero_f. cbv zeta. moves_tac. Qed.

Lemma zero_default_moves (c : Z) : moves 0 (zero_default c).
Proof. unfold zero_default. moves_tac. Qed.
#[local] Hint Resolve zero_f_moves zero_default_moves : moves.

Lemma zero_prefixed_moves : moves (-1) (zero_prefixed flag_keep_locals).
Proof. unfold zero_prefixed. cbv zeta. moves_tac. Qed.

Lemma ignore_moves : moves 1 ignore_rest_of_line.
Proof.
  intros g a g'. unfold ignore_rest_of_line. intros (p & g1 & E & H)%bind_inv. injection H as <- <-. cbn.
  assert (forall n p g q g', eol_loop n p g = Ret (q, g') -> p <= q /\ g' = g) as L.
  { clear. intros n. induction n as [|n IH]; [done|]. intros p g q g'. cbn [eol_loop].
    intros (lim & g1 & E & H)%bind_inv. injection E as <- <-.
    destruct (p <? _); [|injection H as <- <-; split; [lia|done]].
    apply bind_inv in H as (c & g1 & E & H).
    assert (g1 = g) as ->. { revert E. unfold peek. destruct (rd _ _); [|done]. by intros [= <- <-]. }
    destruct (is_end_of_line _); [injection H as <- <-; split; [lia|done]|].
    apply IH in H as [? ->]. split; [lia|done]. }
  apply L in E as [? ->]. split; [lia|done].
Qed.

Lemma nocase_still (k : Z) (s : string) : still (nocase_at k s).
Proof. revert k. induction s as [|c s IH]; intros k; cbn [nocase_at]; still_tac. Qed.
#[local] Hint Resolve zero_prefixed_moves ignore_moves : moves.
#[local] Hint Resolve nocase_still : still.

Lemma startof_moves (start : bool) : moves 0 (startof_sizeof start).
Proof. unfold startof_sizeof. destruct start; moves_tac. Qed.

Lemma named_moves (mode : expr_mode) : moves 0 (named flag_keep_locals mode).
Proof. unfold named. cbv zeta. moves_tac. Qed.

Lemma unary_big_still (c : Z) (e : expressionS) : still (unary_big c e).
Proof. unfold unary_big. cbv zeta. still_tac. Qed.
#[local] Hint Resolve unary_big_still : still.

Lemma unary_still (c : Z) (e : expressionS) : still (unary c e).
Proof. unfold unary. cbv zeta. still_tac. Qed.

Lemma mark_used_still (s : option symbolS) : still (mark_used s).
Proof. unfold mark_used. still_tac. Qed.

Lemma frag_now_fix_still : still frag_now_fix.
Proof.
  assert (still (now ← frag_now; x ← get_frag (Some now); mret (Z.of_nat (length (fr_literal x))))) as H.
  { unfold frag_now. still_tac. }
  intros g a g'. unfold frag_now_fix. destruct (decide _); [by intros [= <- <-]|apply H].
Qed.
#[local] Hint Resolve frag_now_fix_still : still.

Lemma here_still : still here.
Proof. unfold here, frag_now. still_tac. Qed.
#[local] Hint Resolve startof_moves named_moves : moves.
#[local] Hint Resolve unary_still mark_used_still here_still : still.

Lemma finish_operand_moves (mode : expr_mode) (e : expressionS) : moves 0 (finish_operand mode e).
Proof. unfold finish_operand, clone_operand. cbv zeta. moves_tac. Qed.

Lemma operatorf_still : still operatorf.
Proof. unfold operatorf. cbv zeta. still_tac. Qed.

Lemma operatorf_length (g : gas) (op : operatorT) (n : Z) (g' : gas) : operatorf g = Ret ((op, n), g') -> 1 <= n.
Proof.
  unfold operatorf. intros (c & g1 & _ & H)%bind_inv. cbv zeta in H.
  destruct (end_of_line c); [by injection H as _ <- _|].
  repeat (match type of H with
    | (if ?b then _ else _) _ = _ => destruct b
    | (_ ≫= _) _ = _ => let d := fresh "d" in apply bind_inv in H as (d & ? & _ & H)
    end); injection H as _ <- _; lia.
Qed.

Lemma general_still (op : operatorT) (l r : expressionS) : still (general op l r).
Proof. unfold general. still_tac. Qed.

Lemma combine_segments_still (a b : segT) : still (combine_segments a b).
Proof. unfold combine_segments. still_tac. Qed.

Lemma pic_case_still (op : operatorT) (l r : expressionS) (a b : segT) : still (pic_case op l r a b).
Proof. unfold pic_case, known_distance, needs. still_tac. Qed.

Lemma difference_still (l r : symbolS) (b : bool) (seg : segT) : still (difference_is_absolute l r b seg).
Proof. unfold difference_is_absolute. still_tac. Qed.

Lemma no_big_still (e : expressionS) (a b : string) : still (no_big e a b).
Proof. unfold no_big. still_tac. Qed.
#[local] Hint Resolve finish_operand_moves : moves.
#[local] Hint Resolve operatorf_still general_still combine_segments_still pic_case_still difference_still
  no_big_still : still.

Lemma apply_operator_still (op : operatorT) (l r : expressionS) (a b : segT) : still (apply_operator op l r a b).
Proof. unfold apply_operator, needs. cbv zeta. still_tac. Qed.
#[local] Hint Resolve apply_operator_still : still.

Lemma finish_moves (mode : expr_mode) (m : M expressionS) :
  moves (-1) m -> moves (-1) (e ← m; finish_operand mode e).
Proof. intros H. eapply moves_bind; [exact H|]. intros e. eapply moves_weaken; [apply finish_operand_moves|lia]. Qed.

Lemma name_here_moves (mode : expr_mode) : moves (-1) (_ ← advance (-1); named flag_keep_locals mode).
Proof. moves_tac. Qed.

Lemma absent_moves : moves (-1) (_ ← advance (-1); mret absent).
Proof. moves_tac. Qed.

(** What follows the first character of an operand, given the calls. *)
Lemma operand_moves (mode : expr_mode) (c : Z) (rec : task -> M (expressionS * segT)) :
  (forall t, moves 0 (rec t)) ->
  moves (-1)
    (let finish m := e ← m; finish_operand mode e in
     let name_here := _ ← advance (-1); named flag_keep_locals mode in
     if end_of_line c then finish (_ ← advance (-1); mret absent)
     else if between (chr "1") (chr "9") c then finish (_ ← advance (-1); integer_constant flag_keep_locals 10)
     else if c =? chr "0" then finish (zero_prefixed flag_keep_locals)
     else if (c =? chr "[") || (c =? chr "(") then
       '(e, segment) ← rec (Expr 0);
       let close := if c =? chr "(" then chr ")" else chr "]" in
       d ← look_ahead 0;
       _ ← (if negb (d =? close) then
              as_bad (if negb (d =? 0) then "found '%c', expected: '%c'" else "missing '%c'")
            else advance 1);
       _ ← SKIP_WHITESPACE;
       mret (e, segment)
     else if c =? chr "'" then finish (d ← next_char; mret (constant d))
     else if in_chars "~!-+" c then '(e, _) ← rec Operand; finish (unary c e)
     else if c =? chr "." then
       d ← look_ahead 0;
       if negb (is_part_of_name d) then finish current_location
       else
         startof ← nocase_at 0 "startof.";
         sizeof ← (if (startof : bool) then mret true else nocase_at 0 "sizeof.");
         if startof || sizeof then
           d ← look_ahead 1;
           finish (startof_sizeof ((d =? chr "t") || (d =? chr "T")))
         else finish name_here
     else if c =? chr "," then finish (_ ← advance (-1); mret absent)
     else if is_name_beginner c || (c =? 34) then finish name_here
     else finish (_ ← as_bad "bad expression"; mret (constant 0))).
Proof.
  intros Hrec. cbv zeta. pose proof (finish_moves mode) as F. pose proof (name_here_moves mode) as N.
  pose proof absent_moves as A.
  destruct (end_of_line c); [by apply F|]. destruct (between _ _ c); [apply F; moves_tac|].
  destruct (c =? chr "0"); [apply F; moves_tac|].
  destruct ((c =? chr "[") || (c =? chr "(")).
  { eapply (moves_bind 0); [apply Hrec|intros [e seg]]. eapply (moves_bind 0); [moves_tac|intros d]. moves_tac. }
  destruct (c =? chr "'"); [apply F; moves_tac|]. destruct (in_chars _ c).
  { eapply (moves_bind 0); [apply Hrec|intros [e seg]]. apply F. moves_tac. }
  destruct (c =? chr "."); [|destruct (c =? chr ","); [by apply F|];
    destruct (is_name_beginner c || (c =? 34)); apply F; [done|moves_tac]].
  eapply (moves_bind 0); [moves_tac|intros d]. destruct (negb _); [apply F; moves_tac|].
  eapply (moves_bind 0); [moves_tac|intros b1]. eapply (moves_bind 0); [moves_tac|intros b2].
  destruct (b1 || b2); [|by apply F]. eapply (moves_bind 0); [moves_tac|intros d2]. apply F. moves_tac.
Qed.

Lemma parse_moves (n : nat) (mode : expr_mode) (t : task) : moves 0 (parse flag_keep_locals n mode t).
Proof.
  revert t. induction n as [|n IH]; [done|]. intros [|rank|rank e retval]; cbn [parse].
  - eapply (moves_bind 0); [apply whitespace_moves|intros []]. eapply (moves_bind 1); [apply next_moves|intros c].
    by apply (operand_moves mode c (parse flag_keep_locals n mode)).
  - eapply (moves_bind 0); [unfold frag_now; moves_tac|intros []].
    eapply (moves_bind 0); [apply IH|intros [e seg]]. apply IH.
  - intros g a g' ([op k] & g1 & E & H)%bind_inv. pose proof (operatorf_length _ _ _ _ E) as Hk.
    destruct (operatorf_still _ _ _ E) as [Hp Hb]. rewrite <- Hp, <- Hb. clear E Hp Hb. revert g1 a g' H.
    change (moves 0 (if bool_decide (op <> O_illegal) && (rank <? op_rank op) then
      _ ← advance k;
      '(rv, rightseg) ← parse flag_keep_locals n mode (Expr (op_rank op));
      rv ← (if X_op_is rv O_absent then _ ← as_warn "missing operand; zero assumed"; mret (constant 0) else mret rv);
      '(resultP, retval) ← apply_operator op e rv retval rightseg;
      parse flag_keep_locals n mode (Loop rank resultP retval)
    else
      _ ← mark_used (X_add_symbol e);
      e ← (if (rank =? 0) && bool_decide (mode = expr_evaluate) then
             r ← with_syms (fun fs => resolve_expression fs e); mret (match r with Some e => e | None => e end)
           else mret e);
      mret (e, if X_op_is e O_constant then seg_absolute else retval))).
    destruct (_ && _); [|moves_tac]. eapply (moves_bind k); [apply advance_moves|intros []].
    eapply (moves_bind 0); [apply IH|intros [rv rs]]. eapply (moves_bind 0); [moves_tac|intros rv'].
    eapply (moves_bind 0); [moves_tac|intros [e' s']]. eapply moves_weaken; [apply IH|lia].
Qed.

(** ** Enough fuel *)
Definition left_over (g : gas) : nat := Z.to_nat (Z.of_nat (length (buffer g)) - input_line_pointer g).
Definition need (t : task) (g : gas) : nat :=
  (2 * left_over g + match t with Expr _ => 1 | _ => 0 end)%nat.

Lemma bind_ext {A B : Type} (m : M A) (k k' : A -> M B) (g : gas) :
  (forall a g', m g = Ret (a, g') -> k a g' = k' a g') -> (m ≫= k) g = (m ≫= k') g.
Proof. intros H. unfold mbind, M_bind. destruct (m g) as [[a g']|]; [|done]. by apply H. Qed.

Lemma bind_ext_l {A B : Type} (m m' : M A) (k : A -> M B) (g : gas) : m g = m' g -> (m ≫= k) g = (m' ≫= k) g.
Proof. unfold mbind, M_bind. by intros ->. Qed.

Lemma peek_range (p : Z) (g : gas) (c : Z) (g' : gas) :
  peek p g = Ret (c, g') -> 0 <= p < Z.of_nat (length (buffer g)).
Proof.
  unfold peek. intros H. destruct (decide (0 <= p < Z.of_nat (length (buffer g)))) as [|Hn]; [done|].
  by rewrite rd_oob in H.
Qed.

Lemma next_left (g : gas) (c : Z) (g' : gas) : next_char g = Ret (c, g') -> (left_over g' < left_over g)%nat.
Proof.
  intros E. pose proof (next_moves _ _ _ E) as [H1 H2]. unfold left_over.
  assert (0 <= input_line_pointer g < Z.of_nat (length (buffer g))); [|lia].
  revert E. unfold next_char. intros (p & g1 & E & H)%bind_inv. injection E as <- <-.
  apply bind_inv in H as (d & g2 & E & _). by apply peek_range in E.
Qed.

Lemma operatorf_left (g : gas) (r : operatorT * Z) (g' : gas) : operatorf g = Ret (r, g') -> (0 < left_over g)%nat.
Proof.
  unfold operatorf, look_ahead. intros (c & g1 & H & _)%bind_inv. apply bind_inv in H as (p & g2 & E & H).
  injection E as <- <-. apply peek_range in H. unfold left_over. lia.
Qed.

Lemma moves_left {A : Type} (m : M A) (g : gas) (a : A) (g' : gas) :
  moves 0 m -> m g = Ret (a, g') -> (left_over g' <= left_over g)%nat.
Proof. intros Hm E. apply Hm in E as [H1 H2]. unfold left_over. lia. Qed.

Lemma parse_fuel_enough (n m : nat) (mode : expr_mode) (t : task) (g : gas) :
  (need t g < n)%nat -> (need t g < m)%nat ->
  parse flag_keep_locals n mode t g = parse flag_keep_locals m mode t g.
Proof.
  revert m t g. induction n as [|n IH]; [lia|]. intros [|m] t g Hn Hm; [lia|].
  destruct t as [|rank|rank e retval]; cbn [parse]; unfold need in Hn, Hm.
  - apply bind_ext. intros [] g1 E1. apply (moves_left _ _ _ _ whitespace_moves) in E1.
    apply bind_ext. intros c g2 E2. apply next_left in E2. cbv zeta.
    do 3 (match goal with |- (if ?b then _ else _) _ = _ => destruct b; [done|] end).
    destruct (_ || _); [apply bind_ext_l, IH; unfold need; lia|].
    destruct (c =? chr "'"); [done|]. destruct (in_chars _ c); [|done].
    apply bind_ext_l, IH; unfold need; lia.
  - apply bind_ext. intros [] g1 E1.
    assert (left_over g1 <= left_over g)%nat as H1.
    { revert E1. apply moves_left. unfold frag_now. moves_tac. }
    rewrite (bind_ext_l _ (parse flag_keep_locals m mode Operand)); [|apply IH; unfold need; lia].
    apply bind_ext. intros [e seg] g2 E2. apply (moves_left _ _ _ _ (parse_moves m mode Operand)) in E2.
    apply IH; unfold need; lia.
  - apply bind_ext. intros [op k] g1 E1. pose proof (operatorf_left _ _ _ E1) as Hl.
    pose proof (operatorf_length _ _ _ _ E1) as Hk. destruct (operatorf_still _ _ _ E1) as [Hp Hb].
    assert (left_over g1 = left_over g) as H1 by (unfold left_over; congruence).
    destruct (_ && _); [|done]. apply bind_ext. intros [] g2 E2.
    assert (left_over g2 < left_over g1)%nat as H2.
    { apply advance_moves in E2 as [P2 B2]. unfold left_over in *. lia. }
    rewrite (bind_ext_l _ (parse flag_keep_locals m mode (Expr (op_rank op)))); [|apply IH; unfold need; lia].
    apply bind_ext. intros [rv rs] g3 E3. apply (moves_left _ _ _ _ (parse_moves m mode _)) in E3.
    apply bind_ext. intros rv' g4 E4.
    assert (left_over g4 <= left_over g3)%nat as H4 by (revert E4; apply moves_left; moves_tac).
    apply bind_ext. intros [e' s'] g5 E5.
    assert (left_over g5 <= left_over g4)%nat as H5 by (revert E5; apply moves_left; moves_tac).
    apply IH; unfold need; lia.
Qed.

(** C26.  The expression parser always ends: its recursion is bounded by the
    characters left, so more fuel than [parse_fuel] never changes the result; and
    when it returns, the input pointer has not moved backwards and the buffer has
    kept its length. *)
Theorem parse_ends (n : nat) (mode : expr_mode) (rank : Z) (g : gas) :
  (parse_fuel g <= n)%nat ->
  parse flag_keep_locals n mode (Expr rank) g = expr flag_keep_locals rank mode g
  /\ parse flag_keep_locals n mode Operand g = operand flag_keep_locals mode g
  /\ forall r g', expr flag_keep_locals rank mode g = Ret (r, g') ->
       input_line_pointer g <= input_line_pointer g' /\ length (buffer g') = length (buffer g).
Proof.
  intros Hn. assert (forall t, need t g < parse_fuel g)%nat as H.
  { intros t. unfold need, parse_fuel, left_over. destruct t; lia. }
  split_and!; [apply parse_fuel_enough; [|apply H]..|].
  - specialize (H (Expr rank)). lia.
  - specialize (H Operand). lia.
  - intros r g' E. apply (parse_moves (parse_fuel g) mode (Expr rank)) in E. lia.
Qed.
End parser.

(** A line of input, with room for a bignum; a target without floating constants. *)
Definition no_float : FloatParser := fun p => mret (p, 0).

Lemma no_float_forward : FloatForward no_float.
Proof. intros p g q e g' [= <- _ <-]. split_and!; [lia|done|done]. Qed.

Definition expr_gas (s : string) : gas :=
  set_xst (mk_xstate (seg_normal 0) 0 (replicate 26 0) 0)
    (set_symtab (symbol_begin 1)
       (set_buffer ((chr <$> String.list_ascii_of_string s) ++ [10; 0]) demo_gas)).

Lemma parse_ends_witness :
  let g := expr_gas "1+2*(3-foo)" in
  (parse_fuel g <= 1000)%nat
  /\ @parse no_float false 1000 expr_normal (Expr 0) g = @expr no_float false 0 expr_normal g.
Proof.
  intros g. assert (parse_fuel g <= 1000)%nat as H by (vm_compute; lia).
  split; [exact H|]. exact (proj1 (@parse_ends no_float no_float_forward false 1000 expr_normal 0 g H)).
Defined.

(** Multiplication binds tighter; the value of a constant expression. *)
Example expr_rank :
  match @expr no_float false 0 expr_normal (expr_gas "-(0x10 - 077)*0b11 << 2 ,") with
  | Ret ((e, seg), g) => e = mk_expr None None 564 O_constant /\ seg = seg_absolute /\ input_line_pointer g = 24
  | Fail _ => False
  end.
Proof. vm_compute. done. Qed.
