(* ===== verification/FusionParse.v ===== *)
(** * Operand parsing: the [parse_*] functions of gas/config/tc-fusion.c

    A [char *] into the line is an offset of the input buffer; a [char **]
    argument is the offset passed and the offset returned.  [expression], gas's
    own expression parser (gas/expr.c), is a parameter: it reads the buffer at
    [input_line_pointer], which it moves, and may add symbols and diagnostics.
    ([ConstLine] gives gas/expr.c's own.) *)
From Stdlib Require Import Ascii.
From S2P Require Import Prelude FusionIsa FusionOpc GasHash BfdReloc FusionReloc GasState.
#[local] Open Scope Z_scope.

Class ExprParser : Type := expression : M expressionS.

(** ** Scanning *)
Definition is_blank (c : Z) : bool := (c =? chr " "%char) || (c =? 9).

(** [while ( *p == ' ' || *p == '\t') p++;] *)
Definition SKIP_SPACE_TABS (p : Z) : M Z := skip_while is_blank p.

(** [p[0] == w[0] && p[1] == w[1] && ...] *)
Fixpoint looking_at (p : Z) (w : string) : M bool :=
  match w with
  | EmptyString => mret true
  | String c w' => x ← peek p; if x =? chr c then looking_at (p + 1) w' else mret false
  end.

Definition isdigit (c : Z) : bool := (chr "0" <=? c) && (c <=? chr "9").

(** The characters that may follow a register name; [paren] where [')'] may. *)
Definition is_delim (paren : bool) (c : Z) : bool :=
  is_blank c || (c =? chr ",") || (paren && (c =? chr ")")) || (c =? 0).

Definition check_delim (paren : bool) (p : Z) (msg : string) : M unit :=
  c ← peek p; when (negb (is_delim paren c)) (as_bad msg).

(** [as_bad (...); ignore_rest_of_line (); return -1;] *)
Definition bad_operand (msg : string) (ptr : Z) : M (Z * Z) :=
  _ ← as_bad msg; _ ← ignore_rest_of_line; mret (-1, ptr).

(** ** Registers *)

(** The two [$] branches, which compute the number from the same characters and
    leave [ptr]. *)
Definition parse_number (s ptr : Z) : M (Z * Z) :=
  c2 ← peek (s + 2);
  c1 ← peek (s + 1);
  let reg := (if isdigit c2 then (c1 - chr "0") * 10 else 0) + (c2 - chr "0") in
  if 31 <? reg then
    _ ← as_bad "Your register number is too damn high: %s"; mret (-1, ptr)
  else mret (reg, ptr).

(** A name that is one register. *)
Definition one_register (s ptr : Z) (paren : bool) (len reg : Z) : M (Z * Z) :=
  _ ← check_delim paren (s + len) "not a real register: %s"; mret (reg, ptr + len).

(** [s[2] = ','] stands in the condition of the [gp] branch for the comparison:
    it stores a comma over whatever follows the name. *)
Definition gp_register (s ptr : Z) : M (Z * Z) :=
  c ← peek (s + 2);
  _ ← when (negb (is_blank c)) (poke (s + 2) (chr ","));
  mret (3, ptr + 2).

Definition arg_register (s ptr : Z) : M (Z * Z) :=
  c ← peek (s + 3);
  let reg := c - chr "0" in
  if (reg <? 0) || (3 <? reg) then bad_operand "illegal argument register" ptr
  else mret (reg + 5, ptr + 4).

Definition rval_register (s ptr : Z) : M (Z * Z) :=
  _ ← check_delim false (s + 5) "not a real register: %s";
  c ← peek (s + 4);
  let reg := c - chr "0" in
  if (reg <? 0) || (1 <? reg) then bad_operand "illegal return value regsiter" ptr
  else mret (reg + 9, ptr + 5).

Definition gr_register (s ptr : Z) : M (Z * Z) :=
  c ← peek (s + 2);
  let reg := c - chr "0" in
  if (reg <? 0) || (9 <? reg) then bad_operand "illegal general use register" ptr
  else
    ten ← (if c =? chr "1" then c3 ← peek (s + 3); mret (c3 =? chr "0") else mret false);
    if (ten : bool) then mret (21, ptr + 4) else mret (reg + 11, ptr + 3).

Definition tmp_register (s ptr : Z) : M (Z * Z) :=
  _ ← check_delim true (s + 4) "illegal temporary use register: %s";
  c ← peek (s + 3);
  let reg := c - chr "0" in
  if (reg <? 0) || (8 <? reg) then bad_operand "illegal temporary use register" ptr
  else mret (reg + 22, ptr + 4).

(** The chain of name tests, in the order of the source. *)
Definition parse_name (s ptr : Z) : M (Z * Z) :=
  b ← looking_at s "zero"; if (b : bool) then one_register s ptr true 4 0 else
  b ← looking_at s "sp"; if (b : bool) then one_register s ptr false 2 1 else
  b ← looking_at s "fp"; if (b : bool) then one_register s ptr false 2 2 else
  b ← looking_at s "gp"; if (b : bool) then gp_register s ptr else
  b ← looking_at s "ra"; if (b : bool) then one_register s ptr false 2 4 else
  b ← looking_at s "arg"; if (b : bool) then arg_register s ptr else
  b ← looking_at s "rval"; if (b : bool) then rval_register s ptr else
  b ← looking_at s "gr"; if (b : bool) then gr_register s ptr else
  b ← looking_at s "tmp"; if (b : bool) then tmp_register s ptr else
  b ← looking_at s "hi0"; if (b : bool) then one_register s ptr false 3 30 else
  b ← looking_at s "low0"; if (b : bool) then one_register s ptr false 4 31 else
  bad_operand "expecting register, unknown operand:%s" ptr.

(** [*ptr] moves by the length of the name from where it was, which is not
    where the name starts when blanks were skipped here. *)
Definition parse_register_operand (ptr : Z) : M (Z * Z) :=
  s ← SKIP_SPACE_TABS ptr;
  c0 ← peek s;
  if c0 =? chr "$" then
    c1 ← peek (s + 1);
    if isdigit c1 || (c1 =? chr "R") then parse_number s ptr
    else bad_operand "'$' is for number registers only: %s" ptr
  else
    c1 ← peek (s + 1);
    if isdigit c1 || (c1 =? chr "R") then
      bad_operand "number regsiters require '$' or 'R': %s" ptr
    else parse_name s ptr.

(** ** Operand lists without an immediate *)

(** [if ( *p != ',') as_warn (...); p++;] *)
Definition expect_comma (p : Z) (msg : string) : M Z :=
  c ← peek p; _ ← when (negb (c =? chr ",")) (as_warn msg); mret (p + 1).

Definition comma_regs : string := "expecting comma deliminated registers".
Definition comma_ops : string := "expecting comma deliminated operands".

Definition warn_rest (p : Z) : M unit :=
  c ← peek p; when (negb (c =? 0)) (as_warn "ignored rest of line: %s").

Definition parse_rdab (op_end : Z) : M (Z * Z * Z) :=
  p ← SKIP_SPACE_TABS op_end;
  '(rd, p) ← parse_register_operand p;
  p ← expect_comma p comma_regs;
  p ← SKIP_SPACE_TABS p;
  '(rsa, p) ← parse_register_operand p;
  p ← expect_comma p comma_regs;
  p ← SKIP_SPACE_TABS p;
  '(rsb, p) ← parse_register_operand p;
  if rsb =? 4 then mret (rd, rsa, rsb) else
  p ← skip_while (fun c => is_blank c || negb (c =? 0)) p;
  _ ← warn_rest p;
  mret (rd, rsa, rsb).

Definition parse_rda (op_end : Z) : M (Z * Z) :=
  p ← SKIP_SPACE_TABS op_end;
  '(rd, p) ← parse_register_operand p;
  p ← expect_comma p comma_regs;
  p ← SKIP_SPACE_TABS p;
  '(rsa, p) ← parse_register_operand p;
  p ← SKIP_SPACE_TABS p;
  _ ← warn_rest p;
  mret (rd, rsa).

Definition parse_rab (op_end : Z) : M (Z * Z) :=
  p ← SKIP_SPACE_TABS op_end;
  '(rsa, p) ← parse_register_operand p;
  p ← expect_comma p comma_regs;
  p ← SKIP_SPACE_TABS p;
  '(rsb, p) ← parse_register_operand p;
  p ← expect_comma p comma_ops;
  p ← SKIP_SPACE_TABS p;
  _ ← warn_rest p;
  mret (rsa, rsb).

(** ** Operand lists with an immediate *)
Section imm.
  Context `{!ExprParser}.

Definition getExpression (str : Z) : M expressionS :=
  save_in ← gets input_line_pointer;
  _ ← modify (set_ilp str);
  ep ← expression;
  p ← gets input_line_pointer;
  _ ← modify (set_expr_end p);
  _ ← modify (set_ilp save_in);
  mret ep.

(** The immediate, [*op_end] (which only the blanks move) and [*imm_expr]. *)
Definition parse_imm (op_end : Z) (reloc : bfd_reloc_code_real) : M (Z * Z * expressionS) :=
  p ← SKIP_SPACE_TABS op_end;
  e ← getExpression p;
  _ ← (match reloc with
       | BFD_RELOC_FUSION_14_PCREL | BFD_RELOC_FUSION_21_PCREL | BFD_RELOC_16_PCREL
       | BFD_RELOC_HI16_PCREL
       | BFD_RELOC_32 | BFD_RELOC_16 | BFD_RELOC_FUSION_HI16 | BFD_RELOC_8
       | BFD_RELOC_FUSION_LOAD | BFD_RELOC_FUSION_STORE | BFD_RELOC_FUSION_21
       | BFD_RELOC_FUSION_12
       | BFD_RELOC_NONE => mret tt
       | _ => _ ← as_bad "not recognized relocation: %d"; fail Fabort
       end);
  mret (s32 (X_add_number e), p, e).

Definition parse_rdai (op_end : Z) (reloc : bfd_reloc_code_real) : M (Z * Z * Z * Z * expressionS) :=
  p ← SKIP_SPACE_TABS op_end;
  '(rd, p) ← parse_register_operand p;
  p ← expect_comma p comma_ops;
  p ← SKIP_SPACE_TABS p;
  '(rsa, p) ← parse_register_operand p;
  p ← expect_comma p comma_ops;
  p ← SKIP_SPACE_TABS p;
  '(imm, p, e) ← parse_imm p reloc;
  p ← SKIP_SPACE_TABS p;
  mret (rd, rsa, imm, p, e).

(** [parse_rdi] and [parse_rai] have one body: a register and an immediate. *)
Definition parse_ri (op_end : Z) (reloc : bfd_reloc_code_real) : M (Z * Z * Z * expressionS) :=
  p ← SKIP_SPACE_TABS op_end;
  '(r, p) ← parse_register_operand p;
  p ← expect_comma p comma_regs;
  p ← SKIP_SPACE_TABS p;
  '(imm, p, e) ← parse_imm p reloc;
  p ← SKIP_SPACE_TABS p;
  mret (r, imm, p, e).

Definition parse_rdi := parse_ri.
Definition parse_rai := parse_ri.

(** No blanks are skipped before the second register. *)
Definition parse_rabi (op_end : Z) (reloc : bfd_reloc_code_real) : M (Z * Z * Z * Z * expressionS) :=
  p ← SKIP_SPACE_TABS op_end;
  '(rsa, p) ← parse_register_operand p;
  p ← expect_comma p comma_regs;
  '(rsb, p) ← parse_register_operand p;
  p ← expect_comma p comma_regs;
  p ← SKIP_SPACE_TABS p;
  '(imm, p, e) ← parse_imm p reloc;
  p ← SKIP_SPACE_TABS p;
  mret (rsa, rsb, imm, p, e).

Definition is_blank_paren (c : Z) : bool := is_blank c || (c =? chr ")").

(** [while ( *p != '(') { if ( *p == '\0') { as_bad; return -1; } p++; }]: the
    position of the parenthesis, or [None] at the end of the string. *)
Definition find_paren (p : Z) (msg : string) : M (option Z) :=
  p ← skip_while (fun c => negb (c =? chr "(") && negb (c =? 0)) p;
  c ← peek p;
  if c =? 0 then _ ← as_bad msg; mret None else mret (Some p).

(** The [(register)] of an offset operand: [None] where the function returns
    early, leaving the register as the caller set it. *)
Definition offset_register (p : Z) (msg : string) : M (option (Z * Z)) :=
  q ← find_paren p msg;
  match q with
  | None => mret None
  | Some q =>
      '(r, q) ← parse_register_operand (q + 1);
      q ← skip_while is_blank_paren (q + 1);
      mret (Some (r, q))
  end.

(** The registers and the immediate; [rsa] is 0, its caller's initial value,
    when the parenthesis is missing. *)
Definition parse_rdai_offset (op_end : Z) (reloc : bfd_reloc_code_real)
  : M (Z * Z * Z * expressionS) :=
  p ← SKIP_SPACE_TABS op_end;
  '(rd, p) ← parse_register_operand p;
  p ← expect_comma p comma_ops;
  p ← SKIP_SPACE_TABS p;
  '(imm, p, e) ← parse_imm p reloc;
  r ← offset_register p "expecting `(' before end: %s";
  mret (rd, match r with Some (rsa, _) => rsa | None => 0 end, imm, e).

(** A macro instruction has no register: only one character is skipped. *)
Definition parse_rai_offset (op_end : Z) (reloc : bfd_reloc_code_real) (mo : fusion_opc_info_t)
  : M (Z * Z * expressionS) :=
  p ← SKIP_SPACE_TABS op_end;
  '(imm, p, e) ← parse_imm p reloc;
  if negb (cpid mo =? CPID_MACRO) then
    r ← offset_register p "expecting `(' before end";
    mret (match r with Some (rsa, _) => rsa | None => 0 end, imm, e)
  else
    _ ← skip_while is_blank_paren (p + 1);
    mret (0, imm, e).

(** The order of the results is [rsa], [rsb]. *)
Definition parse_rabi_offset (op_end : Z) (reloc : bfd_reloc_code_real)
  : M (Z * Z * Z * expressionS) :=
  p ← SKIP_SPACE_TABS op_end;
  '(rsb, p) ← parse_register_operand p;
  p ← expect_comma p comma_ops;
  p ← SKIP_SPACE_TABS p;
  '(imm, p, e) ← parse_imm p reloc;
  r ← offset_register p "expecting `(' before end";
  mret (match r with Some (rsa, _) => rsa | None => 0 end, rsb, imm, e).

End imm.

(** ** Text of the buffer *)
Definition chars (w : string) : list Z := chr <$> String.list_ascii_of_string w.

(** The 7-bit characters [l] stand in the buffer at [p]. *)
Definition text (g : gas) (p : Z) (l : list Z) : Prop :=
  forall k c, l !! k = Some c -> rd (buffer g) (p + Z.of_nat k) = Ret c /\ 0 <= c < 128.

Lemma peek_rd (g : gas) (p c : Z) :
  rd (buffer g) p = Ret c /\ 0 <= c < 128 -> peek p g = Ret (c, g).
Proof.
  intros [H Hc]. unfold peek. rewrite H. cbn. unfold s8. rewrite Z.mod_small by lia.
  do 2 f_equal. lia.
Qed.

Lemma text_app (g : gas) (p : Z) (l1 l2 : list Z) :
  text g p (l1 ++ l2) <-> text g p l1 /\ text g (p + Z.of_nat (length l1)) l2.
Proof.
  split.
  - intros H. split; intros k c Hk.
    + apply H, lookup_app_l_Some, Hk.
    + rewrite <- Z.add_assoc, <- Nat2Z.inj_add. apply H.
      rewrite lookup_app_r by lia. by replace (_ + _ - _)%nat with k by lia.
  - intros [H1 H2] k c Hk. apply lookup_app_Some in Hk as [Hk|[Hk Hc]]; [by apply H1|].
    replace (p + Z.of_nat k) with (p + Z.of_nat (length l1) + Z.of_nat (k - length l1)) by lia.
    by apply H2.
Qed.

Lemma text_l (g : gas) (p : Z) (l1 l2 : list Z) : text g p (l1 ++ l2) -> text g p l1.
Proof. by intros [H _]%text_app. Qed.

Lemma text_r (g : gas) (p : Z) (l1 l2 : list Z) :
  text g p (l1 ++ l2) -> text g (p + Z.of_nat (length l1)) l2.
Proof. by intros [_ H]%text_app. Qed.

Lemma text_snoc (g : gas) (p c : Z) (l rest : list Z) :
  text g p (l ++ c :: rest) -> text g p (l ++ [c]).
Proof. intros H. apply (text_l g p (l ++ [c]) rest). by rewrite <- app_assoc. Qed.

Lemma text_at (g : gas) (p : Z) (l : list Z) (k : Z) (c : Z) :
  text g p l -> 0 <= k -> l !! Z.to_nat k = Some c -> peek (p + k) g = Ret (c, g).
Proof. intros H Hk Hc. apply H in Hc. rewrite Z2Nat.id in Hc by done. by apply peek_rd. Qed.

Lemma text_head (g : gas) (p c : Z) (l : list Z) : text g p (c :: l) -> peek p g = Ret (c, g).
Proof. intros H. rewrite <- (Z.add_0_r p). by apply peek_rd, (H 0%nat). Qed.

Lemma text_tail (g : gas) (p c : Z) (l : list Z) : text g p (c :: l) -> text g (p + 1) l.
Proof. intros H. apply (proj2 (proj1 (text_app g p [c] l) H)). Qed.

Lemma peek_in (g : gas) (p c : Z) (g' : gas) :
  peek p g = Ret (c, g') -> 0 <= p < Z.of_nat (length (buffer g)).
Proof.
  unfold peek. intros H. destruct (decide (0 <= p < Z.of_nat (length (buffer g)))) as [|Hn]; [done|].
  rewrite rd_oob in H by done. done.
Qed.

Lemma skip_loop_text (fuel : nat) (f : Z -> bool) (l : list Z) (c : Z) (p : Z) (g : gas) :
  text g p (l ++ [c]) -> Forall (fun x => f x = true) l -> f c = false -> (length l < fuel)%nat ->
  skip_loop fuel f p g = Ret (p + Z.of_nat (length l), g).
Proof.
  intros Ht Hl Hc. revert p fuel Ht. induction Hl as [|x l Hx Hl IH]; intros p fuel Ht Hf;
    (destruct fuel as [|fuel]; [cbn in Hf; lia|]); cbn [skip_loop].
  - rewrite (mbind_ret _ _ _ _ _ (text_head _ _ _ _ Ht)), Hc. by rewrite Z.add_0_r.
  - rewrite (mbind_ret _ _ _ _ _ (text_head _ _ _ _ Ht)), Hx. rewrite IH.
    + cbn. do 2 f_equal. lia.
    + by eapply text_tail.
    + cbn in Hf. lia.
Qed.

(** A scan stops at the first character its condition refuses. *)
Lemma skip_while_text (f : Z -> bool) (l : list Z) (c : Z) (p : Z) (g : gas) :
  text g p (l ++ [c]) -> Forall (fun x => f x = true) l -> f c = false ->
  skip_while f p g = Ret (p + Z.of_nat (length l), g).
Proof.
  intros Ht Hl Hc. unfold skip_while. apply skip_loop_text with c; [done..|].
  destruct l as [|x l]; [cbn; lia|]. set (l' := x :: l) in *.
  assert (peek (p + Z.of_nat (length l')) g = Ret (c, g)) as Hp.
  { apply peek_rd, Ht. rewrite lookup_app_r by done. by rewrite Nat.sub_diag. }
  apply peek_in in Hp. apply text_head in Ht. apply peek_in in Ht. lia.
Qed.

Lemma skip_none (f : Z -> bool) (c : Z) (l : list Z) (p : Z) (g : gas) :
  text g p (c :: l) -> f c = false -> skip_while f p g = Ret (p, g).
Proof.
  intros Ht Hc. rewrite (skip_while_text f [] c p g); [by rewrite Z.add_0_r| |done|done].
  apply (proj1 (text_app g p [c] l)), Ht.
Qed.

(** What a comparison with a word says of known characters; [None] when more
    of the buffer is needed. *)
Fixpoint match_pre (l : list Z) (w : string) {struct w} : option bool :=
  match w, l with
  | EmptyString, _ => Some true
  | String c w', x :: l' => if x =? chr c then match_pre l' w' else Some false
  | String _ _, [] => None
  end.

Lemma looking_at_text (g : gas) (p : Z) (l : list Z) (w : string) (b : bool) :
  text g p l -> match_pre l w = Some b -> looking_at p w g = Ret (b, g).
Proof.
  revert p l. induction w as [|c w IH]; intros p l Ht Hm; [injection Hm as <-; reflexivity|].
  destruct l as [|x l]; [done|]. cbn in *. rewrite (mbind_ret _ _ _ _ _ (text_head _ _ _ _ Ht)).
  destruct (x =? chr c); [|injection Hm as <-; reflexivity]. apply IH with l; [by eapply text_tail|done].
Qed.

(** ** Named registers *)

(** [d] may follow the register [n] without a diagnostic or a change of the
    line: a blank, a comma or the end of the string, but after [gp] the end of
    the string is overwritten; a closing parenthesis where the code allows it. *)
Definition ends_reg (n : nat) (d : Z) : bool :=
  is_blank d || (d =? chr ",") || (negb (Nat.eqb n 3) && (d =? 0))
  || (bool_decide (n = 0%nat \/ (5 <= n < 9)%nat \/ (11 <= n < 30)%nat) && (d =? chr ")")).

Lemma ends_reg_delim (n : nat) (d : Z) :
  ends_reg n d = true -> is_delim true d = true /\ isdigit d = false /\ (d =? chr "0") = false.
Proof.
  unfold ends_reg, is_delim, isdigit. intros H.
  assert (is_blank d = true \/ d = chr "," \/ d = 0 \/ d = chr ")") as Hd.
  { rewrite !orb_true_iff, !andb_true_iff, !Z.eqb_eq in H. tauto. }
  unfold is_blank in *. rewrite orb_true_iff, !Z.eqb_eq in Hd.
  destruct Hd as [[->| ->]|[->|[->| ->]]]; split_and!; reflexivity.
Qed.

(** Runs the next step of a parser on known text. *)
Ltac pstep Ht :=
  erewrite mbind_ret;
  [| first [ eapply looking_at_text; [exact Ht|reflexivity]
           | eapply skip_none; [exact Ht|reflexivity]
           | eapply text_head; exact Ht
           | eapply text_at; [exact Ht|done|reflexivity] ] ].

(** Decides a condition on known characters. *)
Ltac pif :=
  lazymatch goal with
  | |- (if ?b then _ else _) _ = _ =>
      let v := eval vm_compute in b in
      lazymatch v with
      | true => change b with true
      | false => change b with false
      end; cbv iota beta
  end.

Lemma check_delim_text (g : gas) (p : Z) (l : list Z) (k d : Z) (paren : bool) (msg : string) :
  text g p l -> 0 <= k -> l !! Z.to_nat k = Some d -> is_delim paren d = true ->
  check_delim paren (p + k) msg g = Ret (tt, g).
Proof.
  intros Ht Hk Hd Hp. unfold check_delim.
  rewrite (mbind_ret _ _ _ _ _ (text_at _ _ _ _ _ Ht Hk Hd)), Hp. done.
Qed.

Lemma poke_same (g : gas) (p c : Z) :
  rd (buffer g) p = Ret c /\ 0 <= c < 128 -> poke p c g = Ret (tt, g).
Proof.
  intros [H Hc]. unfold poke.
  destruct (decide (0 <= p < Z.of_nat (length (buffer g)))) as [Hp|Hp]; [|by rewrite rd_oob in H].
  rewrite wr_ret by done. cbn. rewrite list_insert_id; [by destruct g|].
  destruct (rd_ret (buffer g) p Hp) as (b & Hb & Hl). rewrite Hb in H. injection H as ->.
  rewrite Hl. f_equal. change 0xff with (Z.ones 8). rewrite Z.land_ones, Z.mod_small; lia.
Qed.

Lemma ends_reg_cases (n : nat) (d : Z) :
  ends_reg n d = true ->
  is_delim (bool_decide (n = 0%nat \/ (5 <= n < 9)%nat \/ (11 <= n < 30)%nat)) d = true
  /\ (n = 3%nat -> is_blank d = true \/ d = chr ",").
Proof.
  unfold ends_reg, is_delim.
  rewrite !orb_true_iff, !andb_true_iff, negb_true_iff, Nat.eqb_neq, !Z.eqb_eq, bool_decide_eq_true.
  intros H. split; [tauto|]. intros ->. destruct H as [[[H|H]|[H _]]|[H _]]; [tauto|tauto|done|lia].
Qed.

(** A register name followed by a delimiter parses to the register's number,
    the pointer moves past the name, and nothing else changes. *)
Lemma parse_register_name (n : nat) (w : string) (d p : Z) (g : gas) :
  fusion_gpreg_name !! n = Some w -> text g p (chars w ++ [d]) -> ends_reg n d = true ->
  parse_register_operand p g = Ret ((Z.of_nat n, p + Z.of_nat (String.length w)), g).
Proof.
  intros Hn Ht Hd. pose proof (ends_reg_delim n d Hd) as (_ & _ & Hzero).
  pose proof (ends_reg_cases n d Hd) as [Hdel Hgp].
  unfold parse_register_operand, SKIP_SPACE_TABS. unfold fusion_gpreg_name in Hn.
  repeat lazymatch type of Hn with
  | @lookup _ _ _ _ ?m (_ :: _) = Some _ =>
      destruct m; [cbn in Hn; injection Hn as <-|cbn [lookup list_lookup] in Hn]
  end; [..|done].
  all: cbn [chars String.list_ascii_of_string fmap list_fmap app String.length] in Ht |- *.
  all: repeat first [pif | pstep Ht].
  all: unfold parse_name; repeat first [pif | pstep Ht].
  all: unfold one_register, gp_register, arg_register, rval_register, gr_register, tmp_register;
       cbv zeta.
  all: repeat first [pif | pstep Ht
                    | erewrite mbind_ret; [|eapply check_delim_text; [exact Ht|done|reflexivity|exact Hdel]]].
  all: try reflexivity.
  - erewrite mbind_ret; [reflexivity|]. destruct (Hgp eq_refl) as [-> | ->]; [done|].
    apply poke_same, (Ht 2%nat). reflexivity.
  - erewrite mbind_ret; last first.
    { change (chr "1" =? chr "1") with true. cbv iota. pstep Ht. rewrite Hzero. reflexivity. }
    reflexivity.
  - erewrite mbind_ret; last first.
    { change (chr "1" =? chr "1") with true. cbv iota. pstep Ht. reflexivity. }
    reflexivity.
Qed.

(** ** Operand lists *)
Definition regname (n : nat) : list Z := chars (default "" (fusion_gpreg_name !! n)).

Definition blanks (bl : list Z) : Prop := Forall (fun c => is_blank c = true) bl.

Definition comma : Z := chr ",".

Lemma chars_length (w : string) : length (chars w) = String.length w.
Proof.
  unfold chars. rewrite length_fmap. induction w as [|c w IH]; [done|]. cbn. by rewrite IH.
Qed.

Lemma parse_reg (n : nat) (d p : Z) (rest : list Z) (g : gas) :
  (n < 32)%nat -> text g p (regname n ++ d :: rest) -> ends_reg n d = true ->
  parse_register_operand p g = Ret ((Z.of_nat n, p + Z.of_nat (length (regname n))), g).
Proof.
  intros Hn Ht Hd.
  destruct (lookup_lt_is_Some_2 fusion_gpreg_name n) as [w Hw]; [done|].
  assert (regname n = chars w) as Hr by (unfold regname; by rewrite Hw).
  rewrite Hr in *. rewrite chars_length. apply (parse_register_name n w d p g Hw); [|done].
  exact (text_snoc _ _ _ _ _ Ht).
Qed.

(** A register name starts with a letter. *)
Lemma regname_head (n : nat) :
  (n < 32)%nat -> exists c l, regname n = c :: l /\ is_blank c = false.
Proof.
  intros Hn. do 32 (destruct n as [|n]; [eexists _, _; split; [reflexivity|reflexivity]|]). lia.
Qed.

Lemma skip_blanks (bl : list Z) (c p : Z) (rest : list Z) (g : gas) :
  blanks bl -> is_blank c = false -> text g p (bl ++ c :: rest) ->
  SKIP_SPACE_TABS p g = Ret (p + Z.of_nat (length bl), g).
Proof.
  intros Hb Hc Ht. apply skip_while_text with c; [|done|done]. exact (text_snoc _ _ _ _ _ Ht).
Qed.

Lemma skip_to_reg (bl : list Z) (n : nat) (p : Z) (rest : list Z) (g : gas) :
  (n < 32)%nat -> blanks bl -> text g p (bl ++ regname n ++ rest) ->
  SKIP_SPACE_TABS p g = Ret (p + Z.of_nat (length bl), g)
  /\ text g (p + Z.of_nat (length bl)) (regname n ++ rest).
Proof.
  intros Hn Hb Ht. destruct (regname_head n Hn) as (c & l & Hr & Hc). split.
  - rewrite Hr in Ht. exact (skip_blanks bl c p (l ++ rest) g Hb Hc Ht).
  - exact (text_r _ _ _ _ Ht).
Qed.

Lemma comma_ok (p : Z) (msg : string) (rest : list Z) (g : gas) :
  text g p (comma :: rest) -> expect_comma p msg g = Ret (p + 1, g).
Proof.
  intros Ht. unfold expect_comma. rewrite (mbind_ret _ _ _ _ _ (text_head _ _ _ _ Ht)). reflexivity.
Qed.

Lemma ends_comma (n : nat) : ends_reg n comma = true.
Proof. unfold ends_reg. by rewrite orb_true_r. Qed.

(** One register, after blanks, and the comma after it. *)
Lemma reg_comma (bl : list Z) (n : nat) (p : Z) (msg : string) (rest : list Z) (g : gas) :
  (n < 32)%nat -> blanks bl -> text g p (bl ++ regname n ++ comma :: rest) ->
  let p1 := p + Z.of_nat (length bl) in
  let p2 := p1 + Z.of_nat (length (regname n)) in
  SKIP_SPACE_TABS p g = Ret (p1, g) /\ parse_register_operand p1 g = Ret ((Z.of_nat n, p2), g)
  /\ expect_comma p2 msg g = Ret (p2 + 1, g) /\ text g (p2 + 1) rest.
Proof.
  intros Hn Hb Ht. cbv zeta. destruct (skip_to_reg _ _ _ _ _ Hn Hb Ht) as [Hs Ht1].
  pose proof (text_r _ _ _ _ Ht1) as Hc. split_and!; [done| | |].
  - exact (parse_reg n comma _ rest g Hn Ht1 (ends_comma n)).
  - exact (comma_ok _ msg _ _ Hc).
  - exact (text_tail _ _ _ _ Hc).
Qed.

(** Runs a step whose outcome is known. *)
Ltac pnext E := rewrite (mbind_ret _ _ _ _ _ E); cbv beta iota.

(** The text [rd, rsa, rsb] with blanks where the parser skips them, up to the
    end of the string. *)
Definition rdab_text (b0 b1 b2 : list Z) (rd rsa rsb : nat) (tail : list Z) : list Z :=
  b0 ++ regname rd ++ comma :: b1 ++ regname rsa ++ comma :: b2 ++ regname rsb ++ tail ++ [0].

(** The end of the string can follow any register but [gp]. *)
Definition tail_ok (n : nat) (tail : list Z) : Prop :=
  match tail with [] => n <> 3%nat | d :: _ => ends_reg n d = true /\ Forall (fun c => c <> 0) tail end.

Lemma parse_last_reg (n : nat) (p : Z) (tail : list Z) (g : gas) :
  (n < 32)%nat -> text g p (regname n ++ tail ++ [0]) -> tail_ok n tail ->
  let q := p + Z.of_nat (length (regname n)) in
  parse_register_operand p g = Ret ((Z.of_nat n, q), g) /\ text g q (tail ++ [0])
  /\ Forall (fun c => c <> 0) tail.
Proof.
  intros Hn Ht Htl. cbv zeta. pose proof (text_r _ _ _ _ Ht) as Hc.
  destruct tail as [|d tail].
  - split; [|by split]. apply (parse_reg n 0 p [] g Hn Ht). unfold ends_reg. cbn.
    destruct (Nat.eqb_spec n 3); [done|]. by rewrite !orb_true_r.
  - destruct Htl as [Hd Hf]. split; [|by split]. by apply (parse_reg n d p (tail ++ [0]) g Hn).
Qed.

Lemma skips_nonzero (tail : list Z) :
  Forall (fun c => c <> 0) tail ->
  Forall (fun c => is_blank c || negb (c =? 0) = true) tail.
Proof.
  intros H. eapply Forall_impl; [exact H|]. intros c Hc. cbn.
  apply Z.eqb_neq in Hc. rewrite Hc. apply orb_true_r.
Qed.

Lemma parse_rdab_ok (p : Z) (b0 b1 b2 : list Z) (rd rsa rsb : nat) (tail : list Z) (g : gas) :
  (rd < 32)%nat -> (rsa < 32)%nat -> (rsb < 32)%nat -> blanks b0 -> blanks b1 -> blanks b2 ->
  tail_ok rsb tail -> text g p (rdab_text b0 b1 b2 rd rsa rsb tail) ->
  parse_rdab p g = Ret ((Z.of_nat rd, Z.of_nat rsa, Z.of_nat rsb), g).
Proof.
  intros Hrd Hrsa Hrsb H0 H1 H2 Htl Ht. unfold parse_rdab, rdab_text in *.
  destruct (reg_comma _ _ _ comma_regs _ _ Hrd H0 Ht) as (E1 & E2 & E3 & Ht1).
  pnext E1. pnext E2. pnext E3. clear E1 E2 E3.
  destruct (reg_comma _ _ _ comma_regs _ _ Hrsa H1 Ht1) as (E1 & E2 & E3 & Ht2).
  pnext E1. pnext E2. pnext E3. clear E1 E2 E3.
  destruct (skip_to_reg _ _ _ _ _ Hrsb H2 Ht2) as [E1 Ht3]. pnext E1.
  destruct (parse_last_reg _ _ _ _ Hrsb Ht3 Htl) as (E2 & Ht4 & Hnz). pnext E2.
  destruct (Z.of_nat rsb =? 4); [done|].
  pose proof (skip_while_text (fun c => is_blank c || negb (c =? 0)) tail 0 _ g Ht4) as E3.
  rewrite (mbind_ret _ _ _ _ _ (E3 (skips_nonzero tail Hnz) eq_refl)). unfold warn_rest.
  pose proof (text_head _ _ _ _ (text_r _ _ _ _ Ht4)) as E4.
  erewrite mbind_ret; [reflexivity|]. pnext E4. done.
Qed.

(** ** Operands with an immediate *)
Section imm_ok.
  Context {expr_parser : ExprParser}.

(** Only the symbols, the saved dot and the parser's own state have changed. *)
Definition spares (g g' : gas) : Prop :=
  g' = set_symtab (symtab g') (set_dot (dot_value g') (dot_frag g') (set_xst (xst g') g)).

(** In this state the expression parser, called at [q], returns [e] and stops at
    [r]; [eff] is its effect besides moving [input_line_pointer]. *)
Definition expr_at (g : gas) (q : Z) (e : expressionS) (r : Z) (eff : gas -> gas) : Prop :=
  forall t, let g' := set_op_hash t g in
    expression (set_ilp q g') = Ret (e, set_ilp r (eff g')) /\ spares g' (eff g').

Lemma expr_at_here (g : gas) (q : Z) (e : expressionS) (r : Z) (eff : gas -> gas) :
  expr_at g q e r eff -> expression (set_ilp q g) = Ret (e, set_ilp r (eff g)) /\ spares g (eff g).
Proof. intros H. specialize (H (op_hash_ctrl g)). by destruct g. Qed.

Lemma expr_at_text (g : gas) (q : Z) (e : expressionS) (r : Z) (eff : gas -> gas) (p : Z) (l : list Z) :
  expr_at g q e r eff -> text g p l -> text (set_expr_end r (eff g)) p l.
Proof. intros [_ H]%expr_at_here Ht. rewrite H. exact Ht. Qed.

(** The relocations [parse_imm] knows. *)
Definition imm_reloc_ok (reloc : bfd_reloc_code_real) : bool :=
  match reloc with BFD_RELOC_64 | BFD_RELOC_24 | BFD_RELOC_RVA | BFD_RELOC_UNUSED => false | _ => true end.

Lemma getExpression_ok (g : gas) (q : Z) (e : expressionS) (r : Z) (eff : gas -> gas) :
  expr_at g q e r eff -> getExpression q g = Ret (e, set_expr_end r (eff g)).
Proof.
  intros H. unfold getExpression. mrun.
  apply expr_at_here in H as [H Hs]. rewrite (mbind_ret _ _ _ _ _ H).
  unfold modify, mbind, M_bind, gets, mret, M_ret. cbn. rewrite Hs. by destruct g.
Qed.

Lemma parse_imm_ok (g : gas) (p : Z) (bl : list Z) (c : Z) (rest : list Z)
    (reloc : bfd_reloc_code_real) (e : expressionS) (r : Z) (eff : gas -> gas) :
  blanks bl -> is_blank c = false -> text g p (bl ++ c :: rest) ->
  imm_reloc_ok reloc = true -> expr_at g (p + Z.of_nat (length bl)) e r eff ->
  parse_imm p reloc g
  = Ret ((s32 (X_add_number e), p + Z.of_nat (length bl), e), set_expr_end r (eff g)).
Proof.
  intros Hb Hc Ht Hr He. unfold parse_imm. pnext (skip_blanks bl c p rest g Hb Hc Ht).
  pnext (getExpression_ok g _ e r eff He). by destruct reloc.
Qed.

(** The blanks before an immediate, then the immediate itself. *)
Lemma skip_parse_imm (g : gas) (p : Z) (bl : list Z) (c : Z) (rest : list Z)
    (reloc : bfd_reloc_code_real) (e : expressionS) (r : Z) (eff : gas -> gas) :
  blanks bl -> is_blank c = false -> text g p (bl ++ c :: rest) ->
  imm_reloc_ok reloc = true -> expr_at g (p + Z.of_nat (length bl)) e r eff ->
  let q := p + Z.of_nat (length bl) in
  SKIP_SPACE_TABS p g = Ret (q, g)
  /\ parse_imm q reloc g = Ret ((s32 (X_add_number e), q, e), set_expr_end r (eff g))
  /\ SKIP_SPACE_TABS q (set_expr_end r (eff g)) = Ret (q, set_expr_end r (eff g))
  /\ text (set_expr_end r (eff g)) q (c :: rest).
Proof.
  intros Hb Hc Ht Hr He. cbv zeta. pose proof (text_r _ _ _ _ Ht) as Ht1. pose proof He as He0. split_and!.
  - exact (skip_blanks bl c p rest g Hb Hc Ht).
  - rewrite <- (Z.add_0_r (p + _)) in He.
    pose proof (parse_imm_ok g _ [] c rest reloc e r eff ltac:(constructor) Hc Ht1 Hr He) as H.
    cbn in H. by rewrite !Z.add_0_r in H.
  - exact (skip_none is_blank c rest _ (set_expr_end r (eff g)) (expr_at_text _ _ _ _ _ _ _ He0 Ht1) Hc).
  - exact (expr_at_text _ _ _ _ _ _ _ He0 Ht1).
Qed.

(** [reg, imm] *)
Definition ri_pre (b0 b1 : list Z) (r : nat) : list Z := b0 ++ regname r ++ comma :: b1.

(** [reg, reg, imm] *)
Definition rri_pre (b0 b1 b2 : list Z) (r1 r2 : nat) : list Z :=
  b0 ++ regname r1 ++ comma :: b1 ++ regname r2 ++ comma :: b2.

Lemma ri_pre_length (p : Z) (b0 b1 : list Z) (r : nat) :
  p + Z.of_nat (length (ri_pre b0 b1 r))
  = p + Z.of_nat (length b0) + Z.of_nat (length (regname r)) + 1 + Z.of_nat (length b1).
Proof. unfold ri_pre. rewrite !length_app. cbn [length]. lia. Qed.

Lemma rri_pre_length (p : Z) (b0 b1 b2 : list Z) (r1 r2 : nat) :
  p + Z.of_nat (length (rri_pre b0 b1 b2 r1 r2))
  = p + Z.of_nat (length b0) + Z.of_nat (length (regname r1)) + 1
    + Z.of_nat (length b1) + Z.of_nat (length (regname r2)) + 1 + Z.of_nat (length b2).
Proof. unfold rri_pre. rewrite !length_app. cbn [length]. rewrite !length_app. cbn [length]. lia. Qed.

Lemma parse_ri_ok (p : Z) (b0 b1 : list Z) (n : nat) (c : Z) (rest : list Z)
    (reloc : bfd_reloc_code_real) (e : expressionS) (r : Z) (eff : gas -> gas) (g : gas) :
  (n < 32)%nat -> blanks b0 -> blanks b1 -> is_blank c = false -> imm_reloc_ok reloc = true ->
  text g p (ri_pre b0 b1 n ++ c :: rest) ->
  expr_at g (p + Z.of_nat (length (ri_pre b0 b1 n))) e r eff ->
  parse_ri p reloc g
  = Ret ((Z.of_nat n, s32 (X_add_number e), p + Z.of_nat (length (ri_pre b0 b1 n)), e),
         set_expr_end r (eff g)).
Proof.
  intros Hn H0 H1 Hc Hr Ht He. rewrite ri_pre_length in *. unfold ri_pre in Ht.
  rewrite <- !app_assoc in Ht. cbn in Ht. unfold parse_ri.
  destruct (reg_comma _ _ _ comma_regs _ _ Hn H0 Ht) as (E1 & E2 & E3 & Ht1).
  pnext E1. pnext E2. pnext E3.
  destruct (skip_parse_imm _ _ _ _ _ _ _ _ _ H1 Hc Ht1 Hr He) as (E4 & E5 & E6 & _).
  pnext E4. pnext E5. pnext E6. done.
Qed.

Lemma parse_rdai_ok (p : Z) (b0 b1 b2 : list Z) (rd rsa : nat) (c : Z) (rest : list Z)
    (reloc : bfd_reloc_code_real) (e : expressionS) (r : Z) (eff : gas -> gas) (g : gas) :
  (rd < 32)%nat -> (rsa < 32)%nat -> blanks b0 -> blanks b1 -> blanks b2 ->
  is_blank c = false -> imm_reloc_ok reloc = true ->
  text g p (rri_pre b0 b1 b2 rd rsa ++ c :: rest) ->
  expr_at g (p + Z.of_nat (length (rri_pre b0 b1 b2 rd rsa))) e r eff ->
  parse_rdai p reloc g
  = Ret ((Z.of_nat rd, Z.of_nat rsa, s32 (X_add_number e),
          p + Z.of_nat (length (rri_pre b0 b1 b2 rd rsa)), e), set_expr_end r (eff g)).
Proof.
  intros Hrd Hrsa H0 H1 H2 Hc Hr Ht He. rewrite rri_pre_length in *. unfold rri_pre in Ht.
  rewrite <- !app_assoc in Ht. cbn in Ht. rewrite <- !app_assoc in Ht. cbn in Ht. unfold parse_rdai.
  destruct (reg_comma _ _ _ comma_ops _ _ Hrd H0 Ht) as (E1 & E2 & E3 & Ht1).
  pnext E1. pnext E2. pnext E3. clear E1 E2 E3.
  destruct (reg_comma _ _ _ comma_ops _ _ Hrsa H1 Ht1) as (E1 & E2 & E3 & Ht2).
  pnext E1. pnext E2. pnext E3.
  destruct (skip_parse_imm _ _ _ _ _ _ _ _ _ H2 Hc Ht2 Hr He) as (E4 & E5 & E6 & _).
  pnext E4. pnext E5. pnext E6. done.
Qed.

(** The second register of a branch must follow its comma at once. *)
Lemma parse_rabi_ok (p : Z) (b0 b2 : list Z) (rsa rsb : nat) (c : Z) (rest : list Z)
    (reloc : bfd_reloc_code_real) (e : expressionS) (r : Z) (eff : gas -> gas) (g : gas) :
  (rsa < 32)%nat -> (rsb < 32)%nat -> blanks b0 -> blanks b2 ->
  is_blank c = false -> imm_reloc_ok reloc = true ->
  text g p (rri_pre b0 [] b2 rsa rsb ++ c :: rest) ->
  expr_at g (p + Z.of_nat (length (rri_pre b0 [] b2 rsa rsb))) e r eff ->
  parse_rabi p reloc g
  = Ret ((Z.of_nat rsa, Z.of_nat rsb, s32 (X_add_number e),
          p + Z.of_nat (length (rri_pre b0 [] b2 rsa rsb)), e), set_expr_end r (eff g)).
Proof.
  intros Hrsa Hrsb H0 H2 Hc Hr Ht He. rewrite rri_pre_length in *. unfold rri_pre in Ht.
  rewrite <- !app_assoc in Ht. cbn in Ht. rewrite <- !app_assoc in Ht. cbn in Ht. unfold parse_rabi.
  destruct (reg_comma _ _ _ comma_regs _ _ Hrsa H0 Ht) as (E1 & E2 & E3 & Ht1).
  pnext E1. pnext E2. pnext E3. clear E1 E2 E3. cbn [length Z.of_nat] in *. rewrite Z.add_0_r in *.
  destruct (reg_comma [] _ _ comma_regs _ _ Hrsb ltac:(constructor) Ht1) as (_ & E2 & E3 & Ht2).
  cbn [length Z.of_nat] in *. rewrite Z.add_0_r in *. pnext E2. pnext E3.
  destruct (skip_parse_imm _ _ _ _ _ _ _ _ _ H2 Hc Ht2 Hr He) as (E4 & E5 & E6 & _).
  pnext E4. pnext E5. pnext E6. done.
Qed.

(** [imm(reg)]: the offset [imm] has no parenthesis of its own; [d] follows the
    register, then blanks and parentheses, then another character. *)
Definition base_text (imm : list Z) (n : nat) (d : Z) (cl : list Z) (x : Z) : list Z :=
  imm ++ chr "(" :: regname n ++ d :: cl ++ [x].

Record base_ok (imm : list Z) (n : nat) (d : Z) (cl : list Z) (x : Z) : Prop := {
  bo_reg : (n < 32)%nat;
  bo_imm : Forall (fun c => negb (c =? chr "(") && negb (c =? 0) = true) imm;
  bo_end : ends_reg n d = true;
  bo_close : Forall (fun c => is_blank_paren c = true) cl;
  bo_next : is_blank_paren x = false
}.

Lemma offset_register_ok (g : gas) (q : Z) (imm : list Z) (n : nat) (d : Z) (cl : list Z) (x : Z)
    (msg : string) :
  base_ok imm n d cl x -> text g q (base_text imm n d cl x) ->
  exists q', offset_register q msg g = Ret (Some (Z.of_nat n, q'), g).
Proof.
  intros [Hn Hi Hd Hcl Hx] Ht. unfold offset_register, find_paren, base_text in *.
  pose proof (skip_while_text _ _ _ _ _ (text_snoc _ _ _ _ _ Ht) Hi eq_refl) as E1.
  pose proof (text_r _ _ _ _ Ht) as Ht1. pose proof (text_head _ _ _ _ Ht1) as E2.
  pose proof (text_tail _ _ _ _ Ht1) as Ht2. pose proof (parse_reg _ _ _ _ _ Hn Ht2 Hd) as E3.
  pose proof (text_tail _ _ _ _ (text_r _ _ _ _ Ht2)) as Ht3.
  pose proof (skip_while_text is_blank_paren cl x _ g Ht3 Hcl Hx) as E4.
  eexists. erewrite mbind_ret; [|pnext E1; pnext E2; reflexivity].
  cbv iota. pnext E3. pnext E4. reflexivity.
Qed.

Lemma parse_rdai_offset_ok (p : Z) (b0 b1 : list Z) (rd rsa : nat) (c : Z) (imm : list Z)
    (d : Z) (cl : list Z) (x : Z) (reloc : bfd_reloc_code_real) (e : expressionS) (r : Z) (eff : gas -> gas) (g : gas) :
  (rd < 32)%nat -> blanks b0 -> blanks b1 -> is_blank c = false -> imm_reloc_ok reloc = true ->
  base_ok (c :: imm) rsa d cl x ->
  text g p (ri_pre b0 b1 rd ++ base_text (c :: imm) rsa d cl x) ->
  expr_at g (p + Z.of_nat (length (ri_pre b0 b1 rd))) e r eff ->
  parse_rdai_offset p reloc g
  = Ret ((Z.of_nat rd, Z.of_nat rsa, s32 (X_add_number e), e), set_expr_end r (eff g))
  /\ parse_rabi_offset p reloc g
  = Ret ((Z.of_nat rsa, Z.of_nat rd, s32 (X_add_number e), e), set_expr_end r (eff g)).
Proof.
  intros Hn H0 H1 Hc Hr Hb Ht He. rewrite ri_pre_length in *. unfold ri_pre in Ht.
  rewrite <- !app_assoc in Ht. cbn in Ht.
  destruct (reg_comma _ _ _ comma_ops _ _ Hn H0 Ht) as (E1 & E2 & E3 & Ht1).
  destruct (skip_parse_imm _ _ _ _ _ _ _ _ _ H1 Hc Ht1 Hr He) as (E4 & E5 & _ & Ht2).
  unfold parse_rdai_offset, parse_rabi_offset. split; pnext E1; pnext E2; pnext E3; pnext E4; pnext E5.
  - destruct (offset_register_ok _ _ _ _ _ _ _ "expecting `(' before end: %s" Hb Ht2) as [q' E6].
    by pnext E6.
  - destruct (offset_register_ok _ _ _ _ _ _ _ "expecting `(' before end" Hb Ht2) as [q' E6].
    by pnext E6.
Qed.

Lemma parse_rai_offset_ok (p : Z) (b0 : list Z) (rsa : nat) (c : Z) (imm : list Z)
    (d : Z) (cl : list Z) (x : Z) (reloc : bfd_reloc_code_real) (e : expressionS) (r : Z) (eff : gas -> gas) (g : gas)
    (mo : fusion_opc_info_t) :
  blanks b0 -> is_blank c = false -> imm_reloc_ok reloc = true -> cpid mo = CPID_MAIN ->
  base_ok (c :: imm) rsa d cl x -> text g p (b0 ++ base_text (c :: imm) rsa d cl x) ->
  expr_at g (p + Z.of_nat (length b0)) e r eff ->
  parse_rai_offset p reloc mo g
  = Ret ((Z.of_nat rsa, s32 (X_add_number e), e), set_expr_end r (eff g)).
Proof.
  intros H0 Hc Hr Hm Hb Ht He.
  destruct (skip_parse_imm _ _ _ _ _ _ _ _ _ H0 Hc Ht Hr He) as (E4 & E5 & _ & Ht2).
  unfold parse_rai_offset. pnext E4. pnext E5. rewrite Hm. cbv iota.
  change (negb (CPID_MAIN =? CPID_MACRO)) with true. cbv iota.
  destruct (offset_register_ok _ _ _ _ _ _ _ "expecting `(' before end" Hb Ht2) as [q' E6].
  by pnext E6.
Qed.

(** A macro: the immediate, one character and the blanks after it. *)
Lemma parse_rai_offset_macro (p : Z) (b0 : list Z) (c : Z) (cl : list Z) (x : Z) (rest : list Z)
    (reloc : bfd_reloc_code_real) (e : expressionS) (r : Z) (eff : gas -> gas) (g : gas) (mo : fusion_opc_info_t) :
  blanks b0 -> is_blank c = false -> imm_reloc_ok reloc = true -> cpid mo = CPID_MACRO ->
  Forall (fun c => is_blank_paren c = true) cl -> is_blank_paren x = false ->
  text g p (b0 ++ c :: cl ++ x :: rest) -> expr_at g (p + Z.of_nat (length b0)) e r eff ->
  parse_rai_offset p reloc mo g = Ret ((0, s32 (X_add_number e), e), set_expr_end r (eff g)).
Proof.
  intros H0 Hc Hr Hm Hcl Hx Ht He.
  destruct (skip_parse_imm _ _ _ _ _ _ _ _ _ H0 Hc Ht Hr He) as (E4 & E5 & _ & Ht2).
  unfold parse_rai_offset. pnext E4. pnext E5. rewrite Hm.
  change (negb (CPID_MACRO =? CPID_MACRO)) with false. cbv iota.
  pose proof (skip_while_text is_blank_paren cl x _ _ (text_snoc _ _ _ _ _ (text_tail _ _ _ _ Ht2)) Hcl Hx) as E6.
  by pnext E6.
Qed.
End imm_ok.

(** ** What the claims of this file state *)

(** The registers whose name must not touch a closing parenthesis. *)
Definition strict_reg (n : nat) : bool :=
  bool_decide (n = 1%nat \/ n = 2%nat \/ n = 4%nat \/ n = 9%nat \/ n = 10%nat \/ (30 <= n)%nat).

Lemma check_delim_bad (g : gas) (p : Z) (l : list Z) (k d : Z) (msg : string) :
  text g p l -> 0 <= k -> l !! Z.to_nat k = Some d -> is_delim false d = false ->
  check_delim false (p + k) msg g = Ret (tt, set_log (log g ++ [Bad msg]) g).
Proof.
  intros Ht Hk Hd Hp. unfold check_delim.
  rewrite (mbind_ret _ _ _ _ _ (text_at _ _ _ _ _ Ht Hk Hd)), Hp. done.
Qed.

Lemma parse_strict_paren (n : nat) (w : string) (p : Z) (g : gas) :
  fusion_gpreg_name !! n = Some w -> text g p (chars w ++ [chr ")"]) -> strict_reg n = true ->
  parse_register_operand p g
  = Ret ((Z.of_nat n, p + Z.of_nat (String.length w)),
         set_log (log g ++ [Bad "not a real register: %s"]) g).
Proof.
  intros Hn Ht Hs. apply bool_decide_eq_true in Hs.
  pose proof (lookup_lt_Some _ _ _ Hn) as Hlt. cbn in Hlt.
  assert (n = 1 \/ n = 2 \/ n = 4 \/ n = 9 \/ n = 10 \/ n = 30 \/ n = 31)%nat as Hc by lia.
  unfold parse_register_operand, SKIP_SPACE_TABS.
  destruct Hc as [->|[->|[->|[->|[->|[->| ->]]]]]]; cbn in Hn; injection Hn as <-.
  all: cbn [chars String.list_ascii_of_string fmap list_fmap app String.length] in Ht |- *.
  all: repeat first [pif | pstep Ht].
  all: unfold parse_name; repeat first [pif | pstep Ht].
  all: unfold one_register, rval_register; cbv zeta.
  all: erewrite mbind_ret; [|eapply check_delim_bad; [exact Ht|done|reflexivity|reflexivity]].
  all: try reflexivity.
  all: set (g' := set_log _ g); assert (Ht' : text g' p _) by exact Ht.
  all: repeat first [pif | pstep Ht']; reflexivity.
Qed.

(** Every general-purpose register's own name parses to its number: for each
    of the 32 names in [fusion_gpreg_name], followed by a blank, a comma or the
    end of the line, [parse_register_operand] returns the index, moves past the
    name and changes nothing else (the end of the line after [gp] excepted, see
    [gp_overwrites]); followed by a closing parenthesis it still returns the
    index, but for [sp], [fp], [ra], [rval0], [rval1], [hi0] and [low0] it also
    reports an error, and only for those. *)
Theorem register_names_parse (n : nat) (w : string) (d p : Z) (g : gas) :
  fusion_gpreg_name !! n = Some w -> text g p (chars w ++ [d]) ->
  (is_blank d = true \/ d = chr "," \/ (d = 0 /\ n <> 3%nat) \/ (d = chr ")" /\ n <> 3%nat)) ->
  parse_register_operand p g
  = Ret ((Z.of_nat n, p + Z.of_nat (String.length w)),
         if strict_reg n && (d =? chr ")")
         then set_log (log g ++ [Bad "not a real register: %s"]) g else g).
Proof.
  intros Hn Ht Hd. pose proof (lookup_lt_Some _ _ _ Hn) as Hlt. cbn in Hlt.
  destruct (strict_reg n && (d =? chr ")")) eqn:Hs.
  - apply andb_true_iff in Hs as [Hs ->%Z.eqb_eq]. by apply parse_strict_paren.
  - apply (parse_register_name n w d p g Hn Ht). unfold ends_reg.
    destruct Hd as [->|[->|[[-> Hd]|[-> Hd]]]]; [done|by rewrite orb_true_r| |].
    + apply Nat.eqb_neq in Hd. by rewrite Hd, !orb_true_r.
    + rewrite andb_true_r in Hs. apply bool_decide_eq_false in Hs. apply orb_true_iff. right.
      rewrite andb_true_r. apply bool_decide_eq_true. lia.
Qed.

(** A state whose buffer is the given line and its terminator, before any table
    is built. *)
Definition line_gas (l : string) : gas :=
  set_ilp (Z.of_nat (String.length l)) (set_buffer (chars l ++ [0; 0]) demo_gas).

Lemma register_names_parse_witness :
  parse_register_operand 5 (line_gas "add  tmp3, sp, zero") = Ret ((25, 9), line_gas "add  tmp3, sp, zero").
Proof.
  apply (register_names_parse 25 "tmp3" (chr ",")); [reflexivity| |tauto].
  intros [|[|[|[|[|k]]]]] c Hc; cbn in Hc; try discriminate;
    injection Hc as <-; (split; [reflexivity|split; vm_compute; congruence]).
Defined.

(** After [gp] the character that ends the name is overwritten with a comma,
    the end of the line included: the terminator is gone. *)
Example gp_overwrites :
  parse_register_operand 0 (line_gas "gp")
  = Ret ((3, 2), set_buffer [chr "g"; chr "p"; chr ","; 0] (line_gas "gp")).
Proof. reflexivity. Qed.

(** A numbered register: the number is read from two digits and the pointer
    stays, so the comma the caller expects is not there; with one digit the
    value is the next character's. *)
Example number_register_unmoved :
  parse_register_operand 0 (line_gas "$12,$3,$4") = Ret ((12, 0), line_gas "$12,$3,$4").
Proof. reflexivity. Qed.

Example number_register_one_digit :
  parse_register_operand 0 (line_gas "$3,$4") = Ret ((-4, 0), line_gas "$3,$4").
Proof. reflexivity. Qed.
