(* ===== verification/GasNumber.v ===== *)
(** * Integer constants

    [integer_constant] on the digits of a number, however many: a number below
    2^64 is a constant of that value, in each radix and by either of the two ways
    it is computed; a longer one is a bignum of that value. *)
From Stdlib Require Import Ascii.
From S2P Require Import Prelude FusionIsa GasHash BfdReloc FusionReloc GasState GasSymbols GasResolve.
From S2P Require Import GasLabels GasExpr GasExprEnds FusionParse.
#[local] Open Scope Z_scope.

(** ** The number the digits denote *)
Definition digits_value (radix : Z) (n : Z) (ds : list Z) : Z :=
  fold_left (fun n d => n * radix + hex_value d) ds n.

Definition is_digit (radix c : Z) : Prop := 0 <= hex_value c < radix.

Definition radix_ok (radix : Z) : Prop := radix = 2 \/ radix = 8 \/ radix = 10 \/ radix = 16.

(** The character ends the number and is not a suffix. *)
Definition ends_number (radix c : Z) : Prop :=
  radix <= hex_value c /\ in_chars "UuLlbf$_" c = false.

Lemma hex_value_range (c : Z) : 0 <= hex_value c.
Proof.
  unfold hex_value, between. destruct (_ && _) eqn:E1; [lia|]. destruct (_ && _) eqn:E2 in |- *; [lia|].
  destruct (_ && _) eqn:E3 in |- *; lia.
Qed.

Lemma digits_value_app (radix n : Z) (a b : list Z) :
  digits_value radix n (a ++ b) = digits_value radix (digits_value radix n a) b.
Proof. apply fold_left_app. Qed.

Lemma digits_value_mono (radix n : Z) (ds : list Z) :
  0 <= n -> 2 <= radix -> n <= digits_value radix n ds.
Proof.
  intros Hn Hr. revert n Hn. induction ds as [|d ds IH]; intros n Hn; cbn; [lia|].
  pose proof (hex_value_range d). etrans; [|apply IH; nia]. nia.
Qed.

Lemma digits_value_bound (radix n : Z) (ds : list Z) :
  2 <= radix -> Forall (is_digit radix) ds ->
  digits_value radix n ds < (n + 1) * radix ^ Z.of_nat (length ds).
Proof.
  intros Hr Hd. revert n. induction Hd as [|d ds Hd _ IH]; intros n; [cbn; lia|].
  cbn [digits_value fold_left length]. specialize (IH (n * radix + hex_value d)). unfold digits_value in IH.
  rewrite Nat2Z.inj_succ, Z.pow_succ_r by lia. destruct Hd.
  assert (0 < radix ^ Z.of_nat (length ds)) by (apply Z.pow_pos_nonneg; lia). nia.
Qed.

(** ** What a step may change *)

(** The input pointer is at [q]; only it, the saved dot and the bignum have changed. *)
Definition rest_of (g : gas) : gas := set_ilp 0 (set_dot 0 None (set_xst (set_bignum [] (xst g)) g)).

Definition parsed (q : Z) (g g' : gas) : Prop :=
  input_line_pointer g' = q /\ rest_of g' = rest_of g
  /\ length (generic_bignum (xst g')) = length (generic_bignum (xst g)).

Lemma parsed_trans (p q : Z) (g1 g2 g3 : gas) : parsed p g1 g2 -> parsed q g2 g3 -> parsed q g1 g3.
Proof. intros (_ & H1 & L1) (H2 & H3 & L2). split_and!; [done|congruence|congruence]. Qed.

Lemma parsed_ilp (q : Z) (g : gas) : parsed q g (set_ilp q g).
Proof. by split_and!. Qed.

Lemma rest_buffer (g g' : gas) : rest_of g' = rest_of g -> buffer g' = buffer g.
Proof. intros H. exact (f_equal buffer H). Qed.

Lemma text_parsed (q p : Z) (g g' : gas) (l : list Z) : parsed q g g' -> text g p l -> text g' p l.
Proof. intros (_ & H & _) Ht k c Hk. rewrite (rest_buffer _ _ H). by apply Ht. Qed.

(** ** Reading characters *)
Lemma next_text (g : gas) (c : Z) (l : list Z) :
  text g (input_line_pointer g) (c :: l) ->
  next_char g = Ret (c, set_ilp (input_line_pointer g + 1) g).
Proof.
  intros H. unfold next_char, ilp. mrun. rewrite (mbind_ret _ _ _ _ _ (text_head _ _ _ _ H)). done.
Qed.

Lemma ahead_text (g : gas) (k : nat) (c : Z) (l : list Z) :
  text g (input_line_pointer g) l -> l !! k = Some c -> look_ahead (Z.of_nat k) g = Ret (c, g).
Proof.
  intros H Hk. unfold look_ahead, ilp. mrun. apply (text_at _ _ l); [done|lia|by rewrite Nat2Z.id].
Qed.

Lemma left_text (g : gas) (l : list Z) :
  text g (input_line_pointer g) l -> (length l <= left_over g)%nat.
Proof.
  intros H. induction l as [|x l' _] using rev_ind; [cbn; lia|]. unfold left_over.
  destruct (H (length l') x) as [Hr _]; [by rewrite lookup_app_r, Nat.sub_diag by lia|].
  assert (0 <= input_line_pointer g + Z.of_nat (length l') < Z.of_nat (length (buffer g))).
  { destruct (decide (0 <= input_line_pointer g + Z.of_nat (length l') < Z.of_nat (length (buffer g)))) as [|Hn]; [done|].
    by rewrite rd_oob in Hr. }
  rewrite length_app. cbn. lia.
Qed.

Lemma fuel_left (g : gas) : input_fuel g = Ret (S (left_over g), g).
Proof. done. Qed.

Lemma digit_loop_text (n : nat) (radix number count : Z) (ds : list Z) (c : Z) (rest : list Z) (g : gas) :
  text g (input_line_pointer g) (ds ++ c :: rest) -> Forall (is_digit radix) ds -> radix <= hex_value c ->
  (length ds < n)%nat ->
  digit_loop n radix (u64 number) count g
  = Ret ((u64 (digits_value radix number ds), count + Z.of_nat (length ds), c),
         set_ilp (input_line_pointer g + Z.of_nat (length ds) + 1) g).
Proof.
  intros Ht Hd Hc. revert n number count g Ht. induction Hd as [|d ds Hd _ IH]; intros [|n] number count g Ht Hn;
    try (cbn in Hn; lia); cbn [digit_loop].
  - rewrite (mbind_ret _ _ _ _ _ (next_text _ _ _ Ht)).
    destruct (Z.ltb_spec (hex_value c) radix); [lia|]. cbn. by rewrite !Z.add_0_r.
  - rewrite (mbind_ret _ _ _ _ _ (next_text _ _ _ Ht)). destruct Hd as [Hd0 Hd1].
    destruct (Z.ltb_spec (hex_value d) radix); [|lia].
    replace (u64 (u64 number * radix + hex_value d)) with (u64 (number * radix + hex_value d)).
    2:{ unfold u64. rewrite <- (Z.add_mod_idemp_l (number mod 2 ^ 64 * radix)) by lia.
        rewrite Z.mul_mod_idemp_l by lia. by rewrite Z.add_mod_idemp_l by lia. }
    rewrite IH; [|exact (text_tail _ _ _ _ Ht)|cbn in Hn; lia]. cbn [length set_ilp input_line_pointer].
    do 2 f_equal; [do 2 f_equal; lia|]. unfold set_ilp. cbn. f_equal. lia.
Qed.

Lemma read_digits_text (radix : Z) (ds : list Z) (c : Z) (rest : list Z) (g : gas) :
  text g (input_line_pointer g) (ds ++ c :: rest) -> Forall (is_digit radix) ds -> radix <= hex_value c ->
  read_digits radix g
  = Ret ((u64 (digits_value radix 0 ds), Z.of_nat (length ds), c),
         set_ilp (input_line_pointer g + Z.of_nat (length ds) + 1) g).
Proof.
  intros Ht Hd Hc. unfold read_digits. rewrite (mbind_ret _ _ _ _ _ (fuel_left g)).
  apply (digit_loop_text _ radix 0 0 ds c rest); try done.
  apply left_text in Ht. rewrite length_app in Ht. cbn in Ht. lia.
Qed.

(** ** Littlenums *)
Definition B16 : Z := 2 ^ 16.

(** What [SIZE_OF_LARGE_NUMBER] littlenums can hold. *)
Definition BIG_LIMIT : Z := B16 ^ Z.of_nat 20.

Lemma B16_power (n : nat) : 0 < B16 ^ Z.of_nat n.
Proof. apply Z.pow_pos_nonneg; [reflexivity|apply Nat2Z.is_nonneg]. Qed.

(** The number a list of littlenums denotes, the least first. *)
Definition little_value (l : list Z) : Z := foldr (fun x acc => x + B16 * acc) 0 l.

Definition littles_ok (l : list Z) : Prop := Forall (fun x => 0 <= x < B16) l.

Lemma little_app (a b : list Z) : little_value (a ++ b) = little_value a + B16 ^ Z.of_nat (length a) * little_value b.
Proof.
  induction a as [|x a IH]; [change (little_value b = 0 + 1 * little_value b); lia|].
  cbn [little_value foldr app length]. fold (little_value (a ++ b)).
  fold (little_value a). rewrite IH, Nat2Z.inj_succ, Z.pow_succ_r by lia. ring.
Qed.

Lemma little_bound (l : list Z) : littles_ok l -> 0 <= little_value l < B16 ^ Z.of_nat (length l).
Proof.
  induction 1 as [|x l Hx _ IH]; [by split|]. cbn [little_value foldr length]. fold (little_value l).
  rewrite Nat2Z.inj_succ, Z.pow_succ_r by lia. set (P := B16 ^ Z.of_nat (length l)) in *. clearbody P.
  change B16 with 65536 in *. nia.
Qed.

(** The state with another bignum. *)
Definition with_big (l : list Z) (g : gas) : gas := set_xst (set_bignum l (xst g)) g.

Lemma big_get_eq (g : gas) (i : nat) (v : Z) :
  generic_bignum (xst g) !! i = Some v -> big_get i g = Ret (v, g).
Proof. unfold big_get. by intros ->. Qed.

Lemma big_put_eq (g : gas) (i : nat) (v : Z) :
  (i < length (generic_bignum (xst g)))%nat ->
  big_put i v g = Ret (tt, with_big (<[i := Z.land v LITTLENUM_MASK]> (generic_bignum (xst g))) g).
Proof. intros H. unfold big_put. by rewrite decide_True. Qed.

Lemma land_mask (v : Z) : Z.land v LITTLENUM_MASK = v mod B16.
Proof. change LITTLENUM_MASK with (Z.ones 16). by rewrite Z.land_ones. Qed.

Lemma shift_16 (v : Z) : Z.shiftr v 16 = v / B16.
Proof. by rewrite Z.shiftr_div_pow2. Qed.

(** One digit into the littlenums [mid]: all of them times the radix plus it. *)
Lemma carry_loop_eq (mid pre post : list Z) (radix carry : Z) (g : gas) :
  generic_bignum (xst g) = pre ++ mid ++ post -> littles_ok mid -> 2 <= radix <= 16 -> 0 <= carry < radix ->
  exists mid' carry', carry_loop (length mid) (length pre) radix carry g
      = Ret (carry', with_big (pre ++ mid' ++ post) g)
    /\ length mid' = length mid /\ littles_ok mid' /\ 0 <= carry' < radix
    /\ little_value mid' + B16 ^ Z.of_nat (length mid) * carry' = radix * little_value mid + carry.
Proof.
  intros Hg Hm Hr. revert pre carry g Hg. induction Hm as [|x mid Hx Hm IH]; intros pre carry g Hg Hc.
  - exists [], carry. cbn [length carry_loop]. split_and!; [|done|constructor|lia|lia|cbn; lia].
    unfold mret, M_ret. do 2 f_equal. cbn in Hg |- *. rewrite <- Hg. by destruct g as [? ? ? ? ? ? ? ? ? [] ? ? ? ? ?].
  - cbn [length carry_loop]. cbv zeta.
    rewrite (mbind_ret _ _ _ _ _ (big_get_eq g (length pre) x ltac:(rewrite Hg; by apply list_lookup_middle))).
    erewrite mbind_ret; [|apply big_put_eq; rewrite Hg, !length_app; cbn; lia].
    rewrite Hg, land_mask. rewrite !land_mask, shift_16.
    set (work := carry + radix * x). set (x' := work mod B16 mod B16).
    assert (Hx' : x' = work mod B16) by (unfold x'; by rewrite Z.mod_mod).
    assert (Hins : <[length pre := x']> (pre ++ (x :: mid) ++ post) = (pre ++ [x']) ++ mid ++ post).
    { rewrite <- (Nat.add_0_r (length pre)), insert_app_r, <- app_assoc. done. }
    rewrite Hins.
    assert (Hw : 0 <= work / B16 < radix).
    { change B16 with 65536 in *. unfold work. split; [apply Z.div_pos; nia|]. apply Z.div_lt_upper_bound; nia. }
    destruct (IH (pre ++ [x']) (work / B16) (with_big ((pre ++ [x']) ++ mid ++ post) g) eq_refl Hw)
      as (mid' & carry' & E & L & Hok & Hc' & Hv).
    exists (x' :: mid'), carry'. rewrite length_app, Nat.add_1_r in E. split_and!.
    + rewrite E, <- (app_assoc pre [x'] (mid' ++ post)). reflexivity.
    + cbn [length]. by rewrite L.
    + constructor; [|done]. rewrite Hx'. by apply Z.mod_pos_bound.
    + lia.
    + lia.
    + cbn [little_value foldr length]. fold (little_value mid') (little_value mid).
      rewrite Nat2Z.inj_succ, Z.pow_succ_r by lia.
      pose proof (Z.div_mod work B16 ltac:(done)). unfold work in *. nia.
Qed.

(** The bignum holds [v] in its first [S leader] littlenums, as few as it takes;
    those up to the fourth are cleared. *)
Record big_holds (leader : nat) (v : Z) (l : list Z) : Prop := {
  bh_value : exists ls post, l = ls ++ post /\ length ls = S leader /\ littles_ok ls /\ little_value ls = v;
  bh_least : leader = 0%nat \/ B16 ^ Z.of_nat leader <= v;
  bh_zero : forall i, (S leader <= i < 4)%nat -> l !! i = Some 0;
  bh_length : (20 < length l)%nat;
  bh_leader : (leader < 20)%nat
}.

(** One more digit. *)
Lemma big_step (radix d : Z) (leader : nat) (v : Z) (g : gas) :
  big_holds leader v (generic_bignum (xst g)) -> 2 <= radix <= 16 -> 0 <= d < radix ->
  v * radix + d < BIG_LIMIT ->
  exists leader' l', (carry ← carry_loop (S leader) 0 radix d;
       if negb (carry =? 0) && (leader <? SIZE_OF_LARGE_NUMBER - 1)%nat
       then _ ← big_put (S leader) carry; mret (S leader) else mret leader) g
     = Ret (leader', with_big l' g)
    /\ big_holds leader' (v * radix + d) l' /\ length l' = length (generic_bignum (xst g)).
Proof.
  intros [(ls & post & Hl & Hlen & Hok & Hv) Hleast Hzero Hlong Hlead] Hr Hd Hmax.
  destruct (carry_loop_eq ls [] post radix d g Hl Hok Hr Hd) as (ls' & carry & E & L & Hok' & Hc & Hv').
  rewrite Hlen in E, L, Hv'. rewrite Hv in Hv'. cbn [length app] in E. rewrite (mbind_ret _ _ _ _ _ E).
  assert (Hpost : (length (generic_bignum (xst g)) = S leader + length post)%nat) by (by rewrite Hl, length_app, Hlen).
  pose proof (little_bound _ Hok) as Hb. rewrite Hv in Hb. pose proof (little_bound _ Hok') as Hb'.
  pose proof (B16_power (S leader)) as Hp.
  assert (H20 : leader = 19%nat -> v * radix + d < B16 ^ Z.of_nat (S leader)) by (by intros ->). clear Hmax.
  set (P := B16 ^ Z.of_nat (S leader)) in *.
  destruct (Z.eqb_spec carry 0) as [->|Hne]; cbn [negb andb].
  - exists leader, (ls' ++ post). split; [done|]. split; [split|rewrite !length_app; lia].
    + exists ls', post. split_and!; [done|done|done|lia].
    + destruct Hleast as [->|Hleast]; [by left|right]. nia.
    + intros i Hi. specialize (Hzero i Hi). rewrite Hl in Hzero. rewrite lookup_app_r in Hzero |- * by lia.
      by rewrite L, <- Hlen.
    + rewrite length_app. lia.
    + done.
  - assert (Hlt : (leader < 19)%nat).
    { destruct (decide (leader < 19)%nat) as [|Hge]; [done|]. specialize (H20 ltac:(lia)). nia. }
    rewrite (proj2 (Nat.ltb_lt leader (SIZE_OF_LARGE_NUMBER - 1))) by exact Hlt.
    destruct post as [|x post]; [cbn in Hpost; lia|].
    erewrite mbind_ret; [|apply big_put_eq; cbn; rewrite length_app; cbn; lia].
    set (l' := <[_ := _]> _).
    assert (El : l' = (ls' ++ [carry]) ++ post).
    { unfold l'. cbn [with_big set_xst xst set_bignum generic_bignum]. rewrite land_mask, Z.mod_small by (change B16 with 65536; lia).
      replace (S leader) with (length ls' + 0)%nat by lia. rewrite insert_app_r, <- app_assoc. done. }
    exists (S leader), l'. split; [reflexivity|]. rewrite El. split; [split|].
    + exists (ls' ++ [carry]), post. split_and!; [done|rewrite length_app; cbn; lia| |].
      * apply Forall_app. split; [done|]. constructor; [change B16 with 65536; lia|constructor].
      * rewrite little_app, L. cbn [little_value foldr]. lia.
    + right. nia.
    + intros i Hi. specialize (Hzero i ltac:(lia)). rewrite Hl in Hzero.
      rewrite lookup_app_r in Hzero by lia. rewrite lookup_app_r by (rewrite length_app; cbn; lia).
      rewrite length_app, L. cbn [length]. rewrite Hlen in Hzero.
      replace (i - S leader)%nat with (S (i - (S leader + 1)))%nat in Hzero by lia. exact Hzero.
    + rewrite !length_app in *. cbn in *. lia.
    + lia.
    + rewrite !length_app in *. cbn in *. lia.
Qed.

Lemma big_loop_text (n : nat) (radix : Z) (leader : nat) (v : Z) (ds : list Z) (c : Z) (rest : list Z) (g : gas) :
  text g (input_line_pointer g) (ds ++ c :: rest) -> Forall (is_digit radix) ds -> radix <= hex_value c ->
  2 <= radix <= 16 -> (length ds < n)%nat -> 0 <= v -> digits_value radix v ds < BIG_LIMIT ->
  big_holds leader v (generic_bignum (xst g)) ->
  exists leader' l', big_loop n radix leader g
      = Ret ((leader', c), set_ilp (input_line_pointer g + Z.of_nat (length ds) + 1) (with_big l' g))
    /\ big_holds leader' (digits_value radix v ds) l' /\ length l' = length (generic_bignum (xst g)).
Proof.
  intros Ht Hd Hc Hr. revert n leader v g Ht.
  induction Hd as [|d ds Hd Hds IH]; intros [|n] leader v g Ht Hn Hv Hmax Hb; try (cbn in Hn; lia); cbn [big_loop].
  - rewrite (mbind_ret _ _ _ _ _ (next_text _ _ _ Ht)).
    destruct (Z.ltb_spec (hex_value c) radix); [lia|]. exists leader, (generic_bignum (xst g)).
    split; [|done]. cbn. rewrite Z.add_0_r. unfold mret, M_ret. do 2 f_equal. by destruct g as [? ? ? ? ? ? ? ? ? [] ? ? ? ? ?].
  - rewrite (mbind_ret _ _ _ _ _ (next_text _ _ _ Ht)). pose proof Hd as [Hd0 Hd1].
    destruct (Z.ltb_spec (hex_value d) radix); [|lia].
    set (g1 := set_ilp (input_line_pointer g + 1) g).
    cbn [digits_value fold_left] in Hmax. fold (digits_value radix (v * radix + hex_value d) ds) in Hmax.
    pose proof (digits_value_mono radix (v * radix + hex_value d) ds ltac:(nia) ltac:(lia)) as Hm.
    destruct (big_step radix (hex_value d) leader v g1 Hb Hr Hd ltac:(lia)) as (leader1 & l1 & E1 & Hb1 & L1).
    apply bind_inv in E1 as (carry & g2 & Ea & Eb). rewrite (mbind_ret _ _ _ _ _ Ea), (mbind_ret _ _ _ _ _ Eb).
    destruct (IH n leader1 (v * radix + hex_value d) (with_big l1 g1)) as (leader2 & l2 & E2 & Hb2 & L2);
      [exact (text_tail _ _ _ _ Ht)|cbn in Hn; lia|nia|done|done|].
    exists leader2, l2. split; [|split; [done|cbn in L2; rewrite L2; exact L1]].
    rewrite E2. cbn [length]. do 2 f_equal. unfold g1. cbn. unfold with_big, set_ilp, set_xst. cbn. f_equal. lia.
Qed.

(** ** From littlenums to a value *)
Lemma lor_shift_16 (a b : Z) : 0 <= b < B16 -> Z.lor (Z.shiftl a 16) b = a * B16 + b.
Proof.
  intros Hb. pose proof (Z.add_lor_land (Z.shiftl a 16) b) as H.
  assert (Z.land (Z.shiftl a 16) b = 0) as E.
  { apply Z.bits_inj'. intros k Hk. rewrite Z.land_spec, Z.bits_0.
    destruct (Z.ltb_spec k 16); [by rewrite Z.shiftl_spec_low|].
    by rewrite (testbit_u 16 b k Hb), andb_false_r by done. }
  rewrite E, Z.shiftl_mul_pow2 in H by lia. change (2 ^ 16) with B16 in H. rewrite Z.shiftl_mul_pow2 by lia.
  change (2 ^ 16) with B16. lia.
Qed.

(** The four least littlenums, as [generic_bignum_to_int64] puts them together. *)
Lemma low_words (ls : list Z) :
  littles_ok ls -> (length ls <= 4)%nat ->
  let x i := default 0 (ls !! i) in
  Z.lor (Z.shiftl (Z.lor (Z.shiftl (Z.lor (Z.shiftl (x 3%nat) 16) (x 2%nat)) 16) (x 1%nat)) 16) (x 0%nat)
  = little_value ls.
Proof.
  intros Hok Hlen x. assert (Hx : forall i, 0 <= x i < B16).
  { intros i. unfold x. destruct (ls !! i) as [y|] eqn:E; [|by split].
    exact (proj1 (Forall_lookup _ _) Hok _ _ E). }
  rewrite !lor_shift_16 by apply Hx. subst x. clear Hx Hok.
  do 5 (destruct ls as [|? ls]; [cbn; ring|]). cbn in Hlen. lia.
Qed.

Lemma small_or_big_holds (leader : nat) (v : Z) (g : gas) :
  big_holds leader v (generic_bignum (xst g)) ->
  small_or_big (S leader) g
  = Ret (if v <? 2 ^ 64 then (true, v) else (false, Z.of_nat (S leader)), g).
Proof.
  intros [(ls & post & Hl & Hlen & Hok & Hv) Hleast Hzero _ _]. pose proof (little_bound _ Hok) as Hb.
  rewrite Hv, Hlen in Hb.
  assert (Hget : forall i, (i < 4)%nat -> big_get i g = Ret (default 0 (ls !! i), g)).
  { intros i Hi. apply big_get_eq. destruct (decide (i < S leader)%nat) as [Hlt|Hge].
    - rewrite Hl, lookup_app_l by lia. by destruct (lookup_lt_is_Some_2 ls i ltac:(lia)) as [x ->].
    - rewrite Hzero by lia. by rewrite lookup_ge_None_2 by lia. }
  destruct (decide (leader < 4)%nat) as [Hs|Hs].
  - pose proof (low_words ls Hok ltac:(lia)) as Hw. cbv beta zeta in Hw. rewrite Hv in Hw.
    assert (Hv64 : v < 2 ^ 64).
    { eapply Z.lt_le_trans; [apply Hb|]. change (2 ^ 64) with (B16 ^ Z.of_nat 4).
      apply Z.pow_le_mono_r; [reflexivity|lia]. }
    rewrite (proj2 (Z.ltb_lt _ _) Hv64). unfold small_or_big, generic_bignum_to_int32, generic_bignum_to_int64.
    destruct (Nat.leb_spec (S leader) 2) as [H2|H2]; [|rewrite (proj2 (Nat.leb_le (S leader) 4)) by lia].
    + erewrite mbind_ret; [reflexivity|].
      rewrite (mbind_ret _ _ _ _ _ (Hget 1%nat ltac:(lia))), (mbind_ret _ _ _ _ _ (Hget 0%nat ltac:(lia))).
      rewrite (lookup_ge_None_2 ls 3), (lookup_ge_None_2 ls 2) in Hw by lia. change (default 0 (@None Z)) with 0 in Hw.
      rewrite !Z.shiftl_0_l, !Z.lor_0_l in Hw. unfold mret, M_ret. do 3 f_equal. cbn [from_option id] in Hw.
      rewrite Hw. change 4294967295 with (Z.ones 32).
      rewrite Z.land_ones by lia. apply Z.mod_small. split; [lia|]. eapply Z.lt_le_trans; [apply Hb|].
      change (2 ^ 32) with (B16 ^ Z.of_nat 2). apply Z.pow_le_mono_r; [reflexivity|lia].
    + erewrite mbind_ret; [reflexivity|].
      rewrite (mbind_ret _ _ _ _ _ (Hget 3%nat ltac:(lia))), (mbind_ret _ _ _ _ _ (Hget 2%nat ltac:(lia))),
        (mbind_ret _ _ _ _ _ (Hget 1%nat ltac:(lia))), (mbind_ret _ _ _ _ _ (Hget 0%nat ltac:(lia))).
      by rewrite Hw.
  - assert (Hv64 : 2 ^ 64 <= v).
    { destruct Hleast as [->|Hle]; [lia|]. etrans; [|exact Hle]. change (2 ^ 64) with (B16 ^ Z.of_nat 4).
      apply Z.pow_le_mono_r; [reflexivity|lia]. }
    rewrite (proj2 (Z.ltb_ge _ _) Hv64). unfold small_or_big.
    by rewrite (proj2 (Nat.leb_gt (S leader) 2)), (proj2 (Nat.leb_gt (S leader) 4)) by lia.
Qed.

(** ** The whole constant *)

(** The bignum is cleared before the digits are read again. *)
Lemma clear_bignum (g : gas) :
  (20 < length (generic_bignum (xst g)))%nat -> exists l,
  (forall A (K : M A), (_ ← big_put 0 0; _ ← big_put 1 0; _ ← big_put 2 0; _ ← big_put 3 0; K) g = K (with_big l g))
  /\ big_holds 0 0 l /\ length l = length (generic_bignum (xst g)).
Proof.
  destruct g as [? ? ? ? ? ? ? ? ? [seg off big frg] ? ? ? ? ?]. cbn [xst generic_bignum].
  do 4 (destruct big as [|? big]; [cbn; lia|]). intros H. exists (0 :: 0 :: 0 :: 0 :: big).
  split; [done|]. split; [|done]. split; [|by left| |done|lia].
  - exists [0], (0 :: 0 :: 0 :: big). split_and!; [done|done| |done]. by apply Forall_singleton.
  - intros i Hi. do 4 (destruct i as [|i]; [by lia || done|]). lia.
Qed.

Lemma big_number_text (radix : Z) (ds : list Z) (c : Z) (rest : list Z) (g : gas) (p q : Z) :
  text (set_ilp p g) p (ds ++ c :: rest) -> Forall (is_digit radix) ds -> radix <= hex_value c ->
  2 <= radix <= 16 -> digits_value radix 0 ds < BIG_LIMIT -> (20 < length (generic_bignum (xst g)))%nat ->
  exists leader g',
    big_number radix p (set_ilp q g)
    = Ret ((if digits_value radix 0 ds <? 2 ^ 64 then (true, digits_value radix 0 ds)
            else (false, Z.of_nat (S leader)), c), g')
    /\ parsed (p + Z.of_nat (length ds) + 1) g g'
    /\ big_holds leader (digits_value radix 0 ds) (generic_bignum (xst g')).
Proof.
  intros Ht Hd Hc Hr Hmax Hlen. unfold big_number.
  destruct (clear_bignum (set_ilp q g) Hlen) as (l & E0 & Hl & Hll). rewrite E0.
  unfold set_ilp_to. erewrite mbind_ret; [|reflexivity]. rewrite (mbind_ret _ _ _ _ _ (fuel_left _)).
  pose proof (left_text (set_ilp p g) _ Ht) as Hf. rewrite length_app in Hf. cbn [length] in Hf.
  destruct (big_loop_text (S (left_over (set_ilp p (with_big l (set_ilp q g))))) radix 0 0 ds c rest
    (set_ilp p (with_big l (set_ilp q g)))) as (leader & l' & E & Hb & L'); [exact Ht|done|done|done| |lia|done|exact Hl|].
  { change (left_over _) with (left_over (set_ilp p g)). lia. }
  rewrite (mbind_ret _ _ _ _ _ E). erewrite mbind_ret; [|apply small_or_big_holds; exact Hb].
  do 2 eexists. split; [by destruct (digits_value radix 0 ds <? 2 ^ 64)|]. split; [|exact Hb].
  split_and!; [done..|]. etrans; [exact L'|exact Hll].
Qed.

(** No suffix follows: the character is given back. *)
Lemma not_suffix (radix c : Z) (a : ascii) :
  ends_number radix c -> in_chars "UuLlbf$_" (chr a) = true -> (c =? chr a) = false.
Proof. intros [_ H] Ha. apply Z.eqb_neq. intros ->. congruence. Qed.

Lemma after_number {A : Type} (radix c : Z) (K : Z -> M A) (g : gas) :
  ends_number radix c ->
  (c ← (if (c =? chr "U") || (c =? chr "u") then next_char else mret c); n ← input_fuel; c ← L_loop n c; K c) g
  = K c g.
Proof.
  intros Hc. rewrite !(not_suffix radix c) by done. cbn [orb]. erewrite mbind_ret; [|reflexivity].
  rewrite (mbind_ret _ _ _ _ _ (fuel_left g)). cbn [L_loop]. rewrite !(not_suffix radix c) by done. done.
Qed.

Lemma small_constant_eq (keep : bool) (radix number c : Z) (g : gas) :
  ends_number radix c ->
  small_constant keep number c g
  = Ret (constant (s64 number), set_ilp (input_line_pointer g - 1) g).
Proof. intros Hc. unfold small_constant. rewrite !(not_suffix radix c) by done. done. Qed.

Lemma digit_not_end (radix d : Z) : radix_ok radix -> is_digit radix d -> end_of_line d = false.
Proof.
  intros Hr [_ Hd]. assert (hex_value d < 99) as H by (destruct Hr as [-> | [-> | [-> | ->]]]; lia). clear Hd Hr.
  revert H. unfold hex_value, end_of_line, is_end_of_line, between. change (chr ";") with 59.
  generalize (uchar d) as x. intros x H. destruct (Z.eqb_spec x 0), (Z.eqb_spec x 10), (Z.eqb_spec x 59);
    subst; try done; cbn in H; lia.
Qed.

Lemma s64_u64 (x : Z) : s64 (u64 x) = s64 x.
Proof. unfold s64, u64. f_equal. by rewrite Z.add_mod_idemp_l by done. Qed.

Lemma s64_small (x : Z) : - 2 ^ 63 <= x < 2 ^ 63 -> s64 x = x.
Proof. intros H. unfold s64. rewrite Z.mod_small; lia. Qed.

(** After the digits, in a state where only the pointer and the bignum differ. *)
Lemma delivered (keep : bool) (radix c : Z) (g : gas) (q : Z) (g1 : gas) (small : bool) (number : Z) :
  ends_number radix c -> parsed (q + 1) g g1 ->
  (c ← (if (c =? chr "U") || (c =? chr "u") then next_char else mret c); n ← input_fuel; c ← L_loop n c;
   if small then small_constant keep number c
   else _ ← advance (-1); mret (mk_expr None None (s64 number) O_big)) g1
  = Ret (if small then constant (s64 number) else mk_expr None None (s64 number) O_big, set_ilp q g1).
Proof.
  intros Hc (Hq & _ & _). assert (input_line_pointer g1 - 1 = q) as Hq1 by lia.
  rewrite (after_number radix c _ g1 Hc). destruct small.
  - by rewrite (small_constant_eq keep radix number c g1 Hc), Hq1.
  - rewrite <- Hq1. done.
Qed.

Lemma parsed_back (p q : Z) (g g1 : gas) : parsed p g g1 -> parsed q g (set_ilp q g1).
Proof. by intros (_ & H & L). Qed.

(** The number as the two ways deliver it: small, or the length of the bignum. *)
Lemma number_delivered (keep : bool) (radix : Z) (ds : list Z) (c : Z) (rest : list Z) (g : gas) :
  radix_ok radix -> ds <> [] -> Forall (is_digit radix) ds -> ends_number radix c ->
  text g (input_line_pointer g) (ds ++ c :: rest) ->
  (20 < length (generic_bignum (xst g)))%nat ->
  let v := digits_value radix 0 ds in
  v < BIG_LIMIT ->
  exists (small : bool) (number : Z) (g' : gas), integer_constant keep radix g
      = Ret (if small then constant (s64 number) else mk_expr None None (s64 number) O_big, g')
    /\ parsed (input_line_pointer g + Z.of_nat (length ds)) g g'
    /\ if decide (v < 2 ^ 64 \/ Z.of_nat (length ds) < too_many_digits radix)
       then small = true /\ s64 number = s64 v
       else small = false /\ exists leader, number = Z.of_nat (S leader)
              /\ big_holds leader v (generic_bignum (xst g')).
Proof.
  intros Hr Hne Hd Hc Ht Hlen v Hmax. unfold integer_constant.
  destruct ds as [|d ds]; [done|]. rewrite (mbind_ret _ _ _ _ _ (ahead_text g 0 d _ Ht eq_refl)).
  rewrite (digit_not_end radix d Hr) by by inversion Hd.
  erewrite mbind_ret; [|reflexivity]. destruct (Hc) as [Hc1 _].
  rewrite (mbind_ret _ _ _ _ _ (read_digits_text radix (d :: ds) c rest g Ht Hd Hc1)).
  rewrite (not_suffix radix c "_" Hc eq_refl), andb_false_r.
  assert (2 <= radix <= 16) as Hr2 by (destruct Hr as [-> | [-> | [-> | ->]]]; lia).
  pose proof (parsed_ilp (input_line_pointer g + Z.of_nat (length (d :: ds)) + 1) g) as Hp1.
  destruct (Z.ltb_spec (Z.of_nat (length (d :: ds))) (too_many_digits radix)) as [Hs|Hs].
  - erewrite mbind_ret; [|reflexivity]. exists true. do 2 eexists.
    split; [exact (delivered keep radix c g _ (set_ilp _ g) true _ Hc Hp1)|]. split; [by eapply parsed_back|].
    rewrite decide_True by auto. split; [done|apply s64_u64].
  - destruct (big_number_text radix (d :: ds) c rest g (input_line_pointer g)
      (input_line_pointer g + Z.of_nat (length (d :: ds)) + 1)) as (leader & g1 & E & Hp2 & Hb);
      [by destruct g|done..|].
    rewrite (mbind_ret _ _ _ _ _ E). fold v.
    assert (Hleader : 0 <= Z.of_nat (S leader) < 2 ^ 63) by (pose proof (bh_leader _ _ _ Hb); lia).
    destruct (Z.ltb_spec v (2 ^ 64)) as [Hv|Hv].
    + exists true. do 2 eexists. split; [exact (delivered keep radix c g _ g1 true v Hc Hp2)|].
      split; [by eapply parsed_back|]. by rewrite decide_True by auto.
    + exists false. do 2 eexists. split; [exact (delivered keep radix c g _ g1 false _ Hc Hp2)|].
      split; [by eapply parsed_back|]. rewrite decide_False by lia.
      split; [done|]. by exists leader.
Qed.

Lemma integer_constant_small (keep : bool) (radix : Z) (ds : list Z) (c : Z) (rest : list Z) (g : gas) :
  radix_ok radix -> ds <> [] -> Forall (is_digit radix) ds -> ends_number radix c ->
  text g (input_line_pointer g) (ds ++ c :: rest) ->
  (20 < length (generic_bignum (xst g)))%nat ->
  digits_value radix 0 ds < 2 ^ 64 ->
  exists g', integer_constant keep radix g = Ret (constant (s64 (digits_value radix 0 ds)), g')
    /\ parsed (input_line_pointer g + Z.of_nat (length ds)) g g'.
Proof.
  intros Hr Hne Hd Hc Ht Hlen Hv.
  destruct (number_delivered keep radix ds c rest g Hr Hne Hd Hc Ht Hlen) as (small & number & g' & E & Hp & H).
  { etrans; [exact Hv|]. by vm_compute. }
  rewrite decide_True in H by auto. destruct H as [-> Hn]. exists g'. by rewrite E, Hn.
Qed.

(** C25.  An integer constant, in radix 2, 8, 10 or 16 and with any number of digits.
    A number below 2^64 is parsed as a constant of that value, whichever of the two
    ways computes it; a longer one, up to the 20 littlenums there is room for, as a
    bignum whose littlenums denote it.  A number with fewer digits than the limit of
    the radix is computed in 64 bits and wraps; an octal one of 22 digits can.  The
    input pointer is left at the character after the digits, and nothing but the
    bignum has changed. *)
Theorem integer_constant_value (keep : bool) (radix : Z) (ds : list Z) (c : Z) (rest : list Z) (g : gas) :
  radix_ok radix -> ds <> [] -> Forall (is_digit radix) ds -> ends_number radix c ->
  text g (input_line_pointer g) (ds ++ c :: rest) ->
  (20 < length (generic_bignum (xst g)))%nat ->
  let v := digits_value radix 0 ds in
  v < BIG_LIMIT ->
  exists e g', integer_constant keep radix g = Ret (e, g')
    /\ parsed (input_line_pointer g + Z.of_nat (length ds)) g g'
    /\ if decide (v < 2 ^ 64 \/ Z.of_nat (length ds) < too_many_digits radix) then e = constant (s64 v)
       else exists n, e = mk_expr None None (Z.of_nat n) O_big
              /\ littles_ok (take n (generic_bignum (xst g')))
              /\ little_value (take n (generic_bignum (xst g'))) = v.
Proof.
  intros Hr Hne Hd Hc Ht Hlen v Hmax.
  destruct (number_delivered keep radix ds c rest g Hr Hne Hd Hc Ht Hlen Hmax)
    as (small & number & g' & E & Hp & H). fold v in H.
  do 2 eexists. split; [exact E|]. split; [exact Hp|]. destruct (decide _); destruct H as [-> H].
  - by rewrite H.
  - destruct H as (leader & -> & Hb). exists (S leader). pose proof (bh_leader _ _ _ Hb).
    rewrite s64_small by lia. split; [done|].
    destruct (bh_value _ _ _ Hb) as (ls & post & El & Ll & Hok & Hval).
    rewrite El, take_app_length' by done. done.
Qed.

(** The text in a buffer. *)
Lemma text_buffer (g : gas) (l post : list Z) :
  Forall (fun c => 0 <= c < 128) l -> buffer g = l ++ post -> text g 0 l.
Proof.
  intros Hl Hb k c Hk. split; [|exact (proj1 (Forall_lookup _ _) Hl _ _ Hk)].
  unfold rd. rewrite Z.add_0_l, Nat2Z.id, Hb, (lookup_app_l_Some _ _ _ _ Hk).
  by rewrite (proj2 (Z.leb_le 0 (Z.of_nat k))) by lia.
Qed.

Lemma integer_constant_value_witness :
  let g := expr_gas "18446744073709551616+" in
  exists n g', integer_constant false 10 g = Ret (mk_expr None None (Z.of_nat n) O_big, g')
    /\ little_value (take n (generic_bignum (xst g'))) = 2 ^ 64.
Proof.
  intros g. set (ds := chr <$> String.list_ascii_of_string "18446744073709551616").
  assert (forall l, forallb (fun c => (hex_value c <? 10)) l = true -> Forall (is_digit 10) l) as Hdig.
  { intros l Hl. apply Forall_forall. intros d Hd%list_elem_of_In. rewrite forallb_forall in Hl.
    apply Hl, Z.ltb_lt in Hd. split; [apply hex_value_range|done]. }
  destruct (integer_constant_value false 10 ds (chr "+") [10; 0] g) as (e & g' & E & _ & H);
    [by right; right; left|done|by apply Hdig|by split| |cbn; lia|by vm_compute|].
  - apply text_buffer with []; [|done]. repeat (constructor; [by vm_compute|]). constructor.
  - rewrite decide_False in H by (vm_compute; intros [H1|H1]; discriminate H1).
    destruct H as (n & -> & _ & Hv). exists n, g'. split; [exact E|]. rewrite Hv. by vm_compute.
Defined.

(** An octal constant of 22 digits: 2^64 is 0. *)
Example octal_wraps :
  match integer_constant false 8 (expr_gas "2000000000000000000000;") with
  | Ret (e, g') => e = constant 0 /\ log g' = []
  | Fail _ => False
  end.
Proof. vm_compute. done. Qed.
