(* ===== verification/GasConst.v ===== *)
(** * Constant expressions

    The expression parser on the text of a constant expression: integers in the
    four radixes, the unary and the binary operators, parentheses where the ranks
    of [op_rank] ask for them.  [print] writes the text, [const_value] is the value
    in 64-bit arithmetic, and the parser returns it. *)
From Stdlib Require Import Ascii.
From S2P Require Import Prelude FusionIsa GasHash BfdReloc FusionReloc GasState GasSymbols GasResolve.
From S2P Require Import GasLabels GasExpr GasExprEnds FusionParse GasNumber.
#[local] Open Scope Z_scope.

(** ** Expressions *)
Inductive cexp : Type :=
| Num (radix : Z) (ds : list Z)
| Un (c : Z) (a : cexp)
| Bin (op : operatorT) (a b : cexp).

Definition op_text (op : operatorT) : list Z :=
  chars (match op with
         | O_multiply => "*" | O_divide => "/" | O_modulus => "%"
         | O_left_shift => "<<" | O_right_shift => ">>"
         | O_bit_inclusive_or => "|" | O_bit_or_not => "!" | O_bit_exclusive_or => "^" | O_bit_and => "&"
         | O_add => "+" | O_subtract => "-"
         | O_eq => "==" | O_ne => "<>" | O_lt => "<" | O_le => "<=" | O_ge => ">=" | O_gt => ">"
         | O_logical_and => "&&" | O_logical_or => "||"
         | _ => ""
         end).

Definition binary (op : operatorT) : bool := negb (bool_decide (op_text op = [])).

Definition prefix (radix : Z) : list Z :=
  chars (if radix =? 16 then "0x" else if radix =? 2 then "0b" else if radix =? 8 then "0" else "").

(** The text of [e] where operators of rank [l] and less need parentheses; a
    space follows a binary operator. *)
Fixpoint print (l : Z) (e : cexp) : list Z :=
  match e with
  | Num radix ds => prefix radix ++ ds
  | Un c a => c :: print 8 a
  | Bin op a b =>
      let s := print (op_rank op - 1) a ++ op_text op ++ 32 :: print (op_rank op) b in
      if l <? op_rank op then s else chr "(" :: s ++ [chr ")"]
  end.

(** Digits of the radix, a number below 2^64; a decimal one begins with 1 to 9,
    and the octal one without a digit is 0. *)
Definition number_ok (radix : Z) (ds : list Z) : Prop :=
  radix_ok radix /\ Forall (is_digit radix) ds /\ digits_value radix 0 ds < 2 ^ 64
  /\ (ds = [] -> radix = 8) /\ (radix = 10 -> default 0 (hex_value <$> head ds) <> 0).

Fixpoint cexp_ok (e : cexp) : Prop :=
  match e with
  | Num radix ds => number_ok radix ds
  | Un c a => in_chars "~!-+" c = true /\ cexp_ok a
  | Bin op a b => binary op = true /\ cexp_ok a /\ cexp_ok b
  end.

(** ** Their values *)
Definition unary_const (c v : Z) : Z :=
  if c =? chr "-" then s64 (- v) else if c =? chr "~" then - v - 1
  else if c =? chr "!" then c_bool (v =? 0) else v.

(** No value: a division by 0, the overflow of a division, and a shift by
    a negative number or 64 and more. *)
Definition binary_const (op : operatorT) (a b : Z) : option Z :=
  let defined (ok : bool) (v : Z) := if ok then Some v else None in
  let division := negb (b =? 0) && negb ((a =? - 2 ^ 63) && (b =? -1)) in
  let shift := (0 <=? b) && (b <? 64) in
  match op with
  | O_multiply => Some (s64 (a * b))
  | O_divide => defined division (Z.quot a b)
  | O_modulus => defined division (Z.rem a b)
  | O_left_shift => defined shift (s64 (a * 2 ^ b))
  | O_right_shift => defined shift (s64 (u64 a / 2 ^ b))
  | O_bit_inclusive_or => Some (Z.lor a b)
  | O_bit_or_not => Some (Z.lor a (Z.lnot b))
  | O_bit_exclusive_or => Some (Z.lxor a b)
  | O_bit_and => Some (Z.land a b)
  | O_add => Some (s64 (a + b))
  | O_subtract => Some (s64 (a - b))
  | O_eq => Some (all_ones (a =? b))
  | O_ne => Some (all_ones (negb (a =? b)))
  | O_lt => Some (all_ones (a <? b))
  | O_le => Some (all_ones (a <=? b))
  | O_ge => Some (all_ones (b <=? a))
  | O_gt => Some (all_ones (b <? a))
  | O_logical_and => Some (c_bool (negb (a =? 0) && negb (b =? 0)))
  | O_logical_or => Some (c_bool (negb (a =? 0) || negb (b =? 0)))
  | _ => None
  end.

Fixpoint const_value (e : cexp) : option Z :=
  match e with
  | Num radix ds => Some (s64 (digits_value radix 0 ds))
  | Un c a => unary_const c <$> const_value a
  | Bin op a b => v ← const_value a; w ← const_value b; binary_const op v w
  end.

(** ** What may follow *)

(** A character that ends a number, a name or an operand. *)
Definition delimiter (c : Z) : bool := in_chars "*/%<>|^&!+-=(),:;" c || (c =? 0) || (c =? 10).

(** The text after an expression: its operator, if there is one, has rank [k] at most. *)
Definition follows (k : Z) (rest : list Z) : Prop :=
  (exists c l, rest = c :: l /\ delimiter c = true)
  /\ forall g, text g (input_line_pointer g) rest ->
       exists op n, operatorf g = Ret ((op, n), g) /\ (op = O_illegal \/ op_rank op <= k).

Lemma follows_weaken (j k : Z) (rest : list Z) : follows j rest -> j <= k -> follows k rest.
Proof.
  intros [H1 H2] Hk. split; [done|]. intros g Ht. destruct (H2 g Ht) as (op & n & E & Hop).
  exists op, n. split; [done|]. destruct Hop; [by left|right; lia].
Qed.

(** The end of the expression. *)
Definition closes (c : Z) : bool := in_chars "(),:;" c || (c =? 0) || (c =? 10).

(** A fact of the characters, by cases. *)
Lemma small_char (P : Z -> bool) (c : Z) :
  forallb P (Z.of_nat <$> seq 0 128) = true -> 0 <= c < 128 -> P c = true.
Proof.
  intros H Hc. rewrite forallb_forall in H. apply H, list_elem_of_In, list_elem_of_fmap.
  exists (Z.to_nat c). split; [lia|]. apply elem_of_seq. lia.
Qed.

(** Not part of a number, nor a sign of its radix. *)
Definition number_letters : string := "UuLlbf$_xXbBdDFreEgGrRsSfFdDxXpP ".
Definition plain (c : Z) : bool := (16 <=? hex_value c) && negb (in_chars number_letters c).

Lemma in_chars_subset (l l' : string) (c : Z) :
  forallb (fun d => in_chars l' (chr d)) (String.list_ascii_of_string l) = true ->
  in_chars l' c = false -> in_chars l c = false.
Proof.
  intros H Hc. induction l as [|d l IH]; [done|].
  cbn [in_chars String.list_ascii_of_string forallb] in H |- *. apply andb_true_iff in H as [H1 H2].
  rewrite IH by done. destruct (Z.eqb_spec (chr d) c); [congruence|done].
Qed.

Lemma delimiter_plain (c : Z) : 0 <= c < 128 -> delimiter c = true -> plain c = true.
Proof.
  intros Hc Hd. pose proof (small_char (fun c => negb (delimiter c) || plain c) c eq_refl Hc) as H.
  cbn beta in H. by rewrite Hd in H.
Qed.

Lemma plain_ends (radix c : Z) : radix_ok radix -> plain c = true -> ends_number radix c.
Proof.
  intros Hr [H1 H2]%andb_true_iff. split.
  - apply Z.leb_le in H1. destruct Hr as [-> | [-> | [-> | ->]]]; lia.
  - apply negb_true_iff in H2. by eapply in_chars_subset; [|exact H2].
Qed.

Lemma not_in_chars (l : string) (c : Z) (a : ascii) :
  in_chars l c = false -> in_chars l (chr a) = true -> (c =? chr a) = false.
Proof. intros H Ha. apply Z.eqb_neq. intros ->. congruence. Qed.

(** ** The state *)

(** What the parser reads of the state besides the text. *)
Record ready (g : gas) : Prop := {
  ready_frags : exists fs x, frags g = fs ++ [x];
  ready_log : sy_log (symtab g) = [];
  ready_big : (20 < length (generic_bignum (xst g)))%nat
}.

Lemma parsed_ready (q : Z) (g g' : gas) : parsed q g g' -> ready g -> ready g'.
Proof.
  intros (_ & H & L) [H1 H2 H3].
  assert (frags g' = frags g /\ symtab g' = symtab g) as [E1 E2]
    by (split; [exact (f_equal frags H)|exact (f_equal symtab H)]).
  split; [by rewrite E1|by rewrite E2|by rewrite L].
Qed.

Lemma sym_none (g : gas) (m : SM (option symbolS)) :
  ready g -> (forall st, m st = Ret (None, st)) -> with_syms (fun _ => m) g = Ret (None, g).
Proof.
  intros [_ Hl _] Hm. unfold with_syms. rewrite Hm. cbn. do 2 f_equal. destruct g as [? ? ? ? ? ? ? ? [] ? ? ? ? ? ?]. cbn in *.
  by rewrite Hl.
Qed.

Lemma now_frag (g : gas) : ready g -> is_Some (frags g !! Nat.pred (length (frags g))).
Proof.
  intros [(fs & x & Hf) _ _]. exists x. rewrite Hf, length_app, Nat.add_1_r. cbn.
  by rewrite lookup_app_r, Nat.sub_diag by lia.
Qed.

Lemma now_fix_ready (g : gas) : ready g -> exists v, frag_now_fix g = Ret (v, g).
Proof.
  intros [x Hx]%now_frag. unfold frag_now_fix. destruct (decide _); [by eexists|].
  assert (get_frag (Some (Nat.pred (length (frags g)))) g = Ret (x, g)) as E by (unfold get_frag; by rewrite Hx).
  unfold frag_now. erewrite mbind_ret; [|reflexivity]. rewrite (mbind_ret _ _ _ _ _ E). by eexists.
Qed.

Lemma here_ready (g : gas) : ready g -> exists d, here g = Ret (d, g).
Proof.
  intros Hr. destruct (now_fix_ready g Hr) as [v E]. unfold here.
  do 2 (erewrite mbind_ret; [|reflexivity]). rewrite (mbind_ret _ _ _ _ _ E). by eexists.
Qed.

Lemma no_clone (g : gas) : ready g -> clone_operand None g = Ret (None, g).
Proof.
  intros Hr. destruct (here_ready g Hr) as [d E]. unfold clone_operand. rewrite (mbind_ret _ _ _ _ _ E).
  apply sym_none; [done|]. intros st. reflexivity.
Qed.

Lemma set_ilp_same (g : gas) (q : Z) : q = input_line_pointer g -> set_ilp q g = g.
Proof. intros ->. by destruct g. Qed.

Lemma set_ilp_twice (p q : Z) (g : gas) : set_ilp p (set_ilp q g) = set_ilp p g.
Proof. done. Qed.

(** The end of an operand that is a constant. *)
Lemma finish_constant (mode : expr_mode) (v c : Z) (l : list Z) (g : gas) :
  ready g -> text g (input_line_pointer g) (c :: l) -> c <> 32 ->
  finish_operand mode (constant v) g = Ret ((constant v, seg_absolute), g).
Proof.
  intros Hr Ht Hc. unfold finish_operand, SKIP_ALL_WHITESPACE. cbn [clean_up_expression X_op constant].
  assert ((p ← ilp; q ← skip_while (fun c => c =? 32) p; set_ilp_to q) g = Ret (tt, g)) as E.
  { erewrite mbind_ret; [|reflexivity].
    rewrite (mbind_ret _ _ _ _ _ (skip_none _ c l _ g Ht (proj2 (Z.eqb_neq _ _) Hc))).
    unfold set_ilp_to, modify. by rewrite set_ilp_same. }
  rewrite (mbind_ret _ _ _ _ _ E). erewrite mbind_ret; [|reflexivity]. destruct (decide _) as [_|_]; [done|].
  cbn [X_add_symbol X_op_symbol].
  erewrite mbind_ret; [|rewrite (mbind_ret _ _ _ _ _ (no_clone g Hr)), (mbind_ret _ _ _ _ _ (no_clone g Hr)); reflexivity].
  done.
Qed.

(** ** Operators *)

(** The tests on known characters. *)
Ltac pick :=
  cbv beta zeta;
  repeat match goal with
  | |- (if ?b then _ else _) _ = _ => let v := eval vm_compute in b in change b with v; cbv iota
  end.

Lemma operator_read (op : operatorT) (l : list Z) (g : gas) :
  binary op = true -> text g (input_line_pointer g) (op_text op ++ 32 :: l) ->
  operatorf g = Ret ((op, Z.of_nat (length (op_text op))), g).
Proof.
  intros Hop Ht.
  assert (look_ahead 0 g = Ret (default 0 (head (op_text op)), g)) as E0.
  { destruct op; try discriminate Hop; exact (ahead_text g 0 _ _ Ht eq_refl). }
  assert (look_ahead 1 g = Ret (default 32 (op_text op !! 1%nat), g)) as E1.
  { destruct op; try discriminate Hop; exact (ahead_text g 1 _ _ Ht eq_refl). }
  unfold operatorf. rewrite (mbind_ret _ _ _ _ _ E0).
  destruct op; try discriminate Hop; pick;
    try (rewrite (mbind_ret _ _ _ _ _ E1); pick); reflexivity.
Qed.

Lemma operator_follows (op : operatorT) (l : list Z) :
  binary op = true -> follows (op_rank op) (op_text op ++ 32 :: l).
Proof.
  intros Hop. split.
  - destruct op; try discriminate Hop; by do 2 eexists.
  - intros g Ht. exists op, (Z.of_nat (length (op_text op))). split; [by apply operator_read with l|by right].
Qed.

Lemma end_follows (c : Z) (l : list Z) : closes c = true -> follows 0 (c :: l).
Proof.
  intros Hc. assert (In c [chr "("; chr ")"; chr ","; chr ":"; chr ";"; 0; 10]) as Hin.
  { unfold closes in Hc. cbn [in_chars] in Hc. rewrite !orb_true_iff, !Z.eqb_eq in Hc. cbn [In]. destruct_or! Hc; first [discriminate|subst c; auto 10]. }
  split; [exists c, l; split; [done|]; by destruct Hin as [<- | [<- | [<- | [<- | [<- | [<- | [<- | []]]]]]]]|].
  intros g Ht. exists O_illegal, 1. split; [|by left].
  unfold operatorf. rewrite (mbind_ret _ _ _ _ _ (ahead_text g 0 c _ Ht eq_refl)).
  destruct Hin as [<- | [<- | [<- | [<- | [<- | [<- | [<- | []]]]]]]]; pick; reflexivity.
Qed.

(** ** The parser's calls *)
Section calls.
Context {float_parser : FloatParser} (keep : bool) (mode : expr_mode) (Hmode : mode <> expr_evaluate).

(** With enough fuel the call returns the constant. *)
Definition yields (t : task) (g : gas) (v : Z) (g' : gas) : Prop :=
  exists N, forall n, (N <= n)%nat -> parse keep n mode t g = Ret ((constant v, seg_absolute), g').

(** [operand] and then the loop of [expr], or only the loop. *)
Definition operand_then (rank : Z) (g : gas) (v : Z) (g' : gas) : Prop :=
  exists N, forall n m, (N <= n)%nat -> (N <= m)%nat ->
    ('(e, retval) ← parse keep n mode Operand; parse keep m mode (Loop rank e retval)) g
    = Ret ((constant v, seg_absolute), g').

(** Reading the text of an expression of value [v] is to go on with the loop from
    [constant v] after it. *)
Definition reads (rank : Z) (g : gas) (v : Z) (g1 : gas) : Prop :=
  forall w g', yields (Loop rank (constant v) seg_absolute) g1 w g' -> operand_then rank g w g'.

Lemma yields_reads (rank : Z) (g : gas) (v : Z) (g1 : gas) : yields Operand g v g1 -> reads rank g v g1.
Proof.
  intros [N1 H1] w g' [N2 H2]. exists (N1 + N2)%nat. intros n m Hn Hm.
  rewrite (mbind_ret _ _ _ _ _ (H1 n ltac:(lia))). apply H2. lia.
Qed.

Lemma expr_then (rank : Z) (g : gas) (v : Z) (g' : gas) :
  0 < rank -> operand_then rank g v g' -> yields (Expr rank) g v g'.
Proof.
  intros Hr [N H]. exists (S N). intros [|n] Hn; [lia|]. cbn [parse].
  rewrite (proj2 (Z.eqb_neq rank 0)) by lia. erewrite mbind_ret; [|reflexivity]. apply H; lia.
Qed.

Lemma expr_top (g : gas) :
  ready g -> exists g1, parsed (input_line_pointer g) g g1
    /\ forall v g', operand_then 0 g1 v g' -> yields (Expr 0) g v g'.
Proof.
  intros Hr. destruct (now_fix_ready g Hr) as [d E].
  exists (set_dot d (Some (Nat.pred (length (frags g)))) g). split; [by split_and!|].
  intros v g' [N H]. exists (S N). intros [|n] Hn; [lia|]. cbn [parse]. change (0 =? 0) with true. cbv iota.
  erewrite mbind_ret; [|rewrite (mbind_ret _ _ _ _ _ E); reflexivity]. apply H; lia.
Qed.

(** The loop ends at an operator of its rank or less. *)
Lemma loop_stops (rank k v : Z) (rest : list Z) (g : gas) :
  0 <= k <= rank -> follows k rest -> text g (input_line_pointer g) rest ->
  yields (Loop rank (constant v) seg_absolute) g v g.
Proof.
  intros Hk [_ Hf] Ht. exists 1%nat. intros [|n] Hn; [lia|]. cbn [parse].
  destruct (Hf g Ht) as (op & m & E & Hop). rewrite (mbind_ret _ _ _ _ _ E).
  assert (bool_decide (op <> O_illegal) && (rank <? op_rank op) = false) as ->.
  { destruct Hop as [-> | Hop]; [done|]. by rewrite (proj2 (Z.ltb_ge _ _)), andb_false_r by lia. }
  erewrite mbind_ret; [|reflexivity]. rewrite (bool_decide_false (mode = expr_evaluate)) by done.
  rewrite andb_false_r. reflexivity.
Qed.

(** ** Applying an operator *)
Lemma apply_arith (op : operatorT) (a b v : Z) (g : gas) :
  op <> O_add -> op <> O_subtract ->
  (op = O_divide \/ op = O_modulus -> b <> 0) -> (op = O_left_shift \/ op = O_right_shift -> 0 <= b < 64) ->
  constant_arith op a b = Some (Ret v) ->
  apply_operator op (constant a) (constant b) seg_absolute seg_absolute g = Ret ((constant v, seg_absolute), g).
Proof.
  intros H1 H2 Hdiv Hshift Hv. unfold apply_operator, pic_case. do 2 (erewrite mbind_ret; [|reflexivity]).
  rewrite !(bool_decide_false _ H1), !(bool_decide_false _ H2). cbn [andb].
  erewrite mbind_ret; [|reflexivity]. cbv beta iota. cbn [X_op_is constant X_op X_add_number].
  change (X_op_is (constant a) O_constant && X_op_is (constant b) O_constant) with true. cbv iota.
  assert ((b =? 0) && (bool_decide (op = O_divide) || bool_decide (op = O_modulus)) = false) as ->.
  { destruct (Z.eqb_spec b 0); [|done]. rewrite !bool_decide_false; [done|tauto|tauto]. }
  erewrite mbind_ret; [|reflexivity]. cbv iota.
  assert ((64 <=? u64 b) && (bool_decide (op = O_left_shift) || bool_decide (op = O_right_shift)) = false) as ->.
  { destruct (bool_decide_reflect (op = O_left_shift \/ op = O_right_shift)) as [Hs|Hs].
    - specialize (Hshift Hs). rewrite u64_small by lia. by rewrite (proj2 (Z.leb_gt 64 b)) by lia.
    - rewrite !bool_decide_false by tauto. by rewrite andb_false_r. }
  erewrite mbind_ret; [|reflexivity]. cbv iota. rewrite Hv. erewrite mbind_ret; [|reflexivity]. reflexivity.
Qed.

Lemma apply_constants (op : operatorT) (a b v : Z) (g : gas) :
  binary_const op a b = Some v ->
  apply_operator op (constant a) (constant b) seg_absolute seg_absolute g = Ret ((constant v, seg_absolute), g).
Proof.
  intros Hv. destruct (decide (op = O_add)) as [->|H1]; [by injection Hv as <-|].
  destruct (decide (op = O_subtract)) as [->|H2]; [by injection Hv as <-|].
  apply apply_arith; [done|done| | |].
  - intros [-> | ->] ->; discriminate Hv.
  - intros [-> | ->]; cbn in Hv; destruct (_ && _) eqn:E in Hv; try discriminate; lia.
  - destruct op; try discriminate Hv; try done; cbn in Hv |- *.
    all: try (by injection Hv as <-).
    + unfold offset_div, INT64_MIN. destruct (b =? 0), (a =? - 2 ^ 63), (b =? -1); by inversion Hv.
    + unfold offset_rem, INT64_MIN. destruct (b =? 0), (a =? - 2 ^ 63), (b =? -1); by inversion Hv.
    + destruct (_ && _) eqn:E in Hv; [|done]. injection Hv as <-. by rewrite Z.shiftl_mul_pow2 by lia.
    + destruct (_ && _) eqn:E in Hv; [|done]. injection Hv as <-. by rewrite Z.shiftr_div_pow2 by lia.
Qed.

(** ** Operands *)
Lemma operand_char {A : Type} (K : Z -> M A) (c : Z) (l : list Z) (g : gas) :
  text g (input_line_pointer g) (c :: l) -> c <> 32 ->
  (_ ← SKIP_WHITESPACE; c ← next_char; K c) g = K c (set_ilp (input_line_pointer g + 1) g).
Proof.
  intros Ht Hc. unfold SKIP_WHITESPACE. erewrite mbind_ret.
  2: { rewrite (mbind_ret _ _ _ _ _ (ahead_text g 0 c _ Ht eq_refl)), (proj2 (Z.eqb_neq c 32)) by done. reflexivity. }
  by rewrite (mbind_ret _ _ _ _ _ (next_text _ _ _ Ht)).
Qed.

(** A space before an operand. *)
Lemma operand_blank (c : Z) (l : list Z) (g : gas) (v : Z) (g' : gas) (rank : Z) :
  text g (input_line_pointer g) (32 :: c :: l) -> c <> 32 ->
  operand_then rank (set_ilp (input_line_pointer g + 1) g) v g' -> operand_then rank g v g'.
Proof.
  intros Ht Hc [N H]. exists (S N). intros [|n] m Hn Hm; [lia|]. rewrite <- (H (S n) m) by lia.
  enough (parse keep (S n) mode Operand g
          = parse keep (S n) mode Operand (set_ilp (input_line_pointer g + 1) g)) as E
    by (unfold mbind, M_bind; by rewrite E).
  cbn [parse]. pose proof (text_tail _ _ _ _ Ht) as Ht1.
  rewrite (operand_char _ c l (set_ilp _ g) Ht1 Hc).
  erewrite mbind_ret.
  2: { unfold SKIP_WHITESPACE. rewrite (mbind_ret _ _ _ _ _ (ahead_text g 0 32 _ Ht eq_refl)). reflexivity. }
  by rewrite (mbind_ret _ _ _ _ _ (next_text (set_ilp (input_line_pointer g + 1) g) c l Ht1)).
Qed.

Lemma decimal_char (d : Z) : is_digit 10 d -> hex_value d <> 0 -> 0 <= d < 128 -> between 49 57 d = true.
Proof.
  intros [_ H1] H2 Hd.
  pose proof (small_char (fun d => negb (hex_value d <? 10) || (hex_value d =? 0) || between 49 57 d) d eq_refl Hd) as H.
  cbn beta in H. rewrite (proj2 (Z.ltb_lt (hex_value d) 10)), (proj2 (Z.eqb_neq (hex_value d) 0)) in H by done. exact H.
Qed.

Lemma octal_char (d : Z) :
  is_digit 8 d -> 0 <= d < 128 -> between 48 55 d = true /\ in_chars "xXbB" d = false.
Proof.
  intros [_ H1] Hd.
  pose proof (small_char (fun d => negb (hex_value d <? 8) || between 48 55 d && negb (in_chars "xXbB" d))
    d eq_refl Hd) as H.
  cbn beta in H. rewrite (proj2 (Z.ltb_lt (hex_value d) 8)) in H by done.
  apply andb_true_iff in H as [H H']. by apply negb_true_iff in H'.
Qed.

Lemma binary_char (d : Z) : is_digit 2 d -> 0 <= d < 128 -> (d =? 48) || (d =? 49) = true.
Proof.
  intros [_ H1] Hd.
  pose proof (small_char (fun d => negb (hex_value d <? 2) || ((d =? 48) || (d =? 49))) d eq_refl Hd) as H.
  cbn beta in H. by rewrite (proj2 (Z.ltb_lt (hex_value d) 2)) in H by done.
Qed.

(** An integer and what ends it: the operand is finished. *)
Lemma finish_number (radix : Z) (ds : list Z) (c : Z) (l : list Z) (g : gas) :
  ready g -> radix_ok radix -> ds <> [] -> Forall (is_digit radix) ds -> digits_value radix 0 ds < 2 ^ 64 ->
  plain c = true -> text g (input_line_pointer g) (ds ++ c :: l) ->
  exists g1, (e ← integer_constant keep radix; finish_operand mode e) g
      = Ret ((constant (s64 (digits_value radix 0 ds)), seg_absolute), g1)
    /\ parsed (input_line_pointer g + Z.of_nat (length ds)) g g1.
Proof.
  intros Hr Hrad Hne Hd Hv Hc Ht.
  destruct (integer_constant_small keep radix ds c l g) as (g1 & E & Hp); try done.
  { by apply plain_ends. } { apply Hr. }
  exists g1. split; [|done]. rewrite (mbind_ret _ _ _ _ _ E).
  pose proof (text_parsed _ _ _ _ _ Hp (text_r _ _ _ _ Ht)) as Ht1. destruct Hp as (Hq & Hp).
  apply (finish_constant mode _ c l g1); [by apply (parsed_ready (input_line_pointer g1) g)|by rewrite Hq|].
  intros ->. discriminate Hc.
Qed.

Lemma zero_alone (c : Z) (l : list Z) (g : gas) :
  plain c = true -> text g (input_line_pointer g) (c :: l) ->
  zero_prefixed keep g = Ret (constant 0, g).
Proof.
  intros Hc Ht. pose proof (proj2 (Ht 0%nat c eq_refl)) as Hr.
  assert (between 48 55 c = false) as Hb.
  { pose proof (small_char (fun c => negb (plain c) || negb (between 48 55 c)) c eq_refl Hr) as H.
    cbn beta in H. rewrite Hc in H. by apply negb_true_iff in H. }
  apply andb_true_iff in Hc as [_ Hc]. apply negb_true_iff in Hc.
  unfold zero_prefixed, zero_default. rewrite (mbind_ret _ _ _ _ _ (ahead_text g 0 c _ Ht eq_refl)).
  rewrite !(not_in_chars _ c _ Hc) by done. change (chr "0") with 48. change (chr "7") with 55. rewrite Hb.
  cbn [orb]. rewrite (in_chars_subset "dDFreEgG" number_letters c eq_refl Hc), (in_chars_subset FLT_CHARS number_letters c eq_refl Hc).
  by rewrite andb_false_r.
Qed.

Lemma bind_from {A B : Type} (m m' : M A) (k : A -> M B) (g g' : gas) :
  m g = m' g' -> (m ≫= k) g = (m' ≫= k) g'.
Proof. unfold mbind, M_bind. by intros ->. Qed.

(** The prefix of a number chooses its radix. *)
Lemma number_dispatch (n : nat) (radix d : Z) (ds l : list Z) (g : gas) :
  radix_ok radix -> is_digit radix d -> (radix = 10 -> hex_value d <> 0) ->
  text g (input_line_pointer g) (prefix radix ++ d :: ds ++ l) ->
  parse keep (S n) mode Operand g
  = (e ← integer_constant keep radix; finish_operand mode e)
      (set_ilp (input_line_pointer g + Z.of_nat (length (prefix radix))) g).
Proof.
  intros Hr Hd H10 Ht. cbn [parse].
  assert (0 <= d < 128) as Hd128 by (exact (proj2 (text_r _ _ _ _ Ht 0%nat d eq_refl))).
  destruct Hr as [-> | [-> | [-> | ->]]].
  - rewrite (operand_char _ (chr "0") _ g Ht) by done. pick. apply bind_from. unfold zero_prefixed.
    rewrite (mbind_ret _ _ _ _ _ (ahead_text (set_ilp (input_line_pointer g + 1) g) 0 _ _ (text_tail _ _ _ _ Ht) eq_refl)).
    pick. rewrite (mbind_ret _ _ _ _ _ (ahead_text (set_ilp (input_line_pointer g + 1) g) 1 _ _ (text_tail _ _ _ _ Ht) eq_refl)).
    change (chr "0") with 48. change (chr "1") with 49. cbv beta zeta. rewrite (binary_char d Hd Hd128). pick.
    erewrite mbind_ret; [|reflexivity]. f_equal. unfold set_ilp. cbn. f_equal. lia.
  - rewrite (operand_char _ (chr "0") _ g Ht) by done. pick. apply bind_from. unfold zero_prefixed.
    rewrite (mbind_ret _ _ _ _ _ (ahead_text (set_ilp (input_line_pointer g + 1) g) 0 _ _ (text_tail _ _ _ _ Ht) eq_refl)).
    destruct (octal_char d Hd Hd128) as [Ho Hx]. rewrite !(not_in_chars "xXbB" d _ Hx) by done. cbn [orb].
    change (chr "0") with 48. change (chr "7") with 55. by rewrite Ho.
  - pose proof (decimal_char d Hd (H10 eq_refl) Hd128) as Hb.
    rewrite (operand_char _ d _ g Ht) by (intros ->; discriminate Hb). cbv zeta.
    rewrite (digit_not_end 10 d) by (done || by right; right; left).
    change (chr "1") with 49. change (chr "9") with 57. rewrite Hb. apply bind_from.
    unfold advance, modify, mbind, M_bind. cbn. f_equal. unfold set_ilp. cbn. f_equal. lia.
  - rewrite (operand_char _ (chr "0") _ g Ht) by done. pick. apply bind_from. unfold zero_prefixed.
    rewrite (mbind_ret _ _ _ _ _ (ahead_text (set_ilp (input_line_pointer g + 1) g) 0 _ _ (text_tail _ _ _ _ Ht) eq_refl)).
    pick. erewrite mbind_ret; [|reflexivity]. f_equal. unfold set_ilp. cbn. f_equal. lia.
Qed.

Lemma number_reads (radix : Z) (ds : list Z) (c : Z) (l : list Z) (g : gas) :
  ready g -> number_ok radix ds -> plain c = true ->
  text g (input_line_pointer g) ((prefix radix ++ ds) ++ c :: l) ->
  exists g1, yields Operand g (s64 (digits_value radix 0 ds)) g1
    /\ parsed (input_line_pointer g + Z.of_nat (length (prefix radix ++ ds))) g g1.
Proof.
  intros Hr (Hrad & Hd & Hv & H8 & H10) Hc Ht.
  destruct ds as [|d ds].
  - specialize (H8 eq_refl). subst radix. cbn in Ht. exists (set_ilp (input_line_pointer g + 1) g).
    split; [|done]. exists 1%nat. intros [|n] Hn; [lia|]. cbn [parse].
    rewrite (operand_char _ _ _ g Ht) by done. pick. pose proof (text_tail _ _ _ _ Ht) as Ht1.
    rewrite (mbind_ret _ _ _ _ _ (zero_alone c l (set_ilp _ g) Hc Ht1)).
    apply (finish_constant mode 0 c l); [by destruct Hr|exact Ht1|]. intros ->. discriminate Hc.
  - rewrite <- app_assoc in Ht.
    set (g0 := set_ilp (input_line_pointer g + Z.of_nat (length (prefix radix))) g).
    destruct (finish_number radix (d :: ds) c l g0) as (g1 & E & Hp); try done.
    { by destruct Hr. } { exact (text_r _ _ _ _ Ht). }
    exists g1. split.
    + exists 1%nat. intros [|n] Hn; [lia|].
      rewrite (number_dispatch n radix d ds (c :: l) g Hrad ltac:(by inversion Hd) H10 Ht). exact E.
    + rewrite length_app, Nat2Z.inj_add, Z.add_assoc. exact Hp.
Qed.
(** ** The steps of the recursion *)
Lemma loop_operator (rank : Z) (op : operatorT) (a b v : Z) (l : list Z) (g g1 g' : gas) (w : Z) :
  binary op = true -> rank < op_rank op -> text g (input_line_pointer g) (op_text op ++ 32 :: l) ->
  binary_const op a b = Some v ->
  yields (Expr (op_rank op)) (set_ilp (input_line_pointer g + Z.of_nat (length (op_text op))) g) b g1 ->
  yields (Loop rank (constant v) seg_absolute) g1 w g' ->
  yields (Loop rank (constant a) seg_absolute) g w g'.
Proof.
  intros Hop Hrank Ht Hv [N1 H1] [N2 H2]. exists (S (N1 + N2)). intros [|n] Hn; [lia|]. cbn [parse].
  rewrite (mbind_ret _ _ _ _ _ (operator_read op l g Hop Ht)).
  rewrite (bool_decide_true (op <> O_illegal)) by (intros ->; discriminate Hop).
  rewrite (proj2 (Z.ltb_lt _ _) Hrank). cbn [andb]. erewrite mbind_ret; [|reflexivity].
  rewrite (mbind_ret _ _ _ _ _ (H1 n ltac:(lia))). erewrite mbind_ret; [|reflexivity].
  rewrite (mbind_ret _ _ _ _ _ (apply_constants op a b v g1 Hv)). apply H2. lia.
Qed.

Lemma unary_operand (c v d : Z) (l l' : list Z) (g g1 : gas) :
  in_chars "~!-+" c = true -> text g (input_line_pointer g) (c :: l) ->
  yields Operand (set_ilp (input_line_pointer g + 1) g) v g1 ->
  ready g1 -> text g1 (input_line_pointer g1) (d :: l') -> d <> 32 ->
  yields Operand g (unary_const c v) g1.
Proof.
  intros Hc Ht [N H] Hr Ht1 Hd. exists (S N). intros [|n] Hn; [lia|]. cbn [parse].
  assert (In c [chr "~"; chr "!"; chr "-"; chr "+"]) as Hin.
  { cbn [in_chars] in Hc. rewrite !orb_true_iff, !Z.eqb_eq in Hc. cbn [In].
    destruct_or! Hc; first [discriminate|subst c; auto 10]. }
  rewrite (operand_char _ c l g Ht) by (intros ->; discriminate Hc).
  assert (forall e, unary c (constant v) g1 = Ret (e, g1) -> e = constant (unary_const c v) ->
    ('(e, _) ← parse keep n mode Operand; e ← unary c e; finish_operand mode e) (set_ilp (input_line_pointer g + 1) g)
    = Ret ((constant (unary_const c v), seg_absolute), g1)) as Hfin.
  { intros e E ->. rewrite (mbind_ret _ _ _ _ _ (H n ltac:(lia))), (mbind_ret _ _ _ _ _ E).
    by apply (finish_constant mode _ d l'). }
  destruct Hin as [<- | [<- | [<- | [<- | []]]]]; pick; (eapply Hfin; reflexivity).
Qed.

Lemma paren_operand (v d : Z) (l l' : list Z) (g g1 : gas) :
  text g (input_line_pointer g) (chr "(" :: l) ->
  yields (Expr 0) (set_ilp (input_line_pointer g + 1) g) v g1 ->
  text g1 (input_line_pointer g1) (chr ")" :: d :: l') -> d <> 32 ->
  yields Operand g v (set_ilp (input_line_pointer g1 + 1) g1).
Proof.
  intros Ht [N H] Ht1 Hd. exists (S N). intros [|n] Hn; [lia|]. cbn [parse].
  rewrite (operand_char _ (chr "(") l g Ht) by done. pick.
  rewrite (mbind_ret _ _ _ _ _ (H n ltac:(lia))).
  cbv beta zeta. rewrite (mbind_ret _ _ _ _ _ (ahead_text g1 0 _ _ Ht1 eq_refl)).
  erewrite mbind_ret; [|reflexivity]. pose proof (text_tail _ _ _ _ Ht1) as Ht2.
  set (g2 := set_ilp (input_line_pointer g1 + 1) g1) in *.
  erewrite mbind_ret; [reflexivity|]. unfold SKIP_WHITESPACE.
  rewrite (mbind_ret _ _ _ _ _ (ahead_text g2 0 d _ Ht2 eq_refl)), (proj2 (Z.eqb_neq d 32)) by done. reflexivity.
Qed.

(** ** The text of an expression *)
Lemma print_head (l : Z) (e : cexp) : cexp_ok e -> exists c s, print l e = c :: s /\ c <> 32.
Proof.
  revert l. induction e as [radix ds|c a _|op a IHa b _]; intros l H; cbn [print].
  - destruct H as (Hr & Hd & _ & H8 & _). destruct Hr as [-> | [-> | [-> | ->]]]; try (by do 2 eexists).
    destruct ds as [|d ds]; [by specialize (H8 eq_refl)|]. exists d, ds. split; [done|]. intros ->.
    inversion Hd as [|? ? [_ Hd1] _]. by vm_compute in Hd1.
  - exists c, (print 8 a). split; [done|]. intros ->. by destruct H.
  - destruct H as (_ & Ha & _). cbv zeta. destruct (l <? op_rank op); [|by do 2 eexists].
    destruct (IHa (op_rank op - 1) Ha) as (c & s & -> & Hc). cbn [app]. eauto.
Qed.

Lemma rank_range (op : operatorT) : binary op = true -> 2 <= op_rank op <= 8.
Proof. by destruct op. Qed.

Definition atom_reads (e : cexp) : Prop := forall v rest g,
  const_value e = Some v -> ready g -> text g (input_line_pointer g) (print 8 e ++ rest) -> follows 9 rest ->
  exists g1, parsed (input_line_pointer g + Z.of_nat (length (print 8 e))) g g1 /\ yields Operand g v g1.

Definition level_reads (e : cexp) : Prop := forall v l rank rest g,
  0 <= rank <= l -> l <= 8 -> const_value e = Some v -> ready g ->
  text g (input_line_pointer g) (print l e ++ rest) -> follows (l + 1) rest ->
  exists g1, parsed (input_line_pointer g + Z.of_nat (length (print l e))) g g1 /\ reads rank g v g1.

Lemma atom_level (e : cexp) (l rank v : Z) (rest : list Z) (g : gas) :
  print l e = print 8 e -> atom_reads e -> const_value e = Some v -> ready g ->
  text g (input_line_pointer g) (print l e ++ rest) -> follows 9 rest ->
  exists g1, parsed (input_line_pointer g + Z.of_nat (length (print l e))) g g1 /\ reads rank g v g1.
Proof.
  intros -> He Hv Hr Ht Hf. destruct (He v rest g Hv Hr Ht Hf) as (g1 & Hp & Hy). exists g1.
  split; [exact Hp|by apply yields_reads].
Qed.

(** [text] and [ready] in the state an operand leaves. *)
Lemma after_text (g g1 : gas) (l rest : list Z) :
  text g (input_line_pointer g) (l ++ rest) -> parsed (input_line_pointer g + Z.of_nat (length l)) g g1 ->
  text g1 (input_line_pointer g1) rest.
Proof. intros Ht Hp. pose proof Hp as [-> _]. exact (text_parsed _ _ _ _ _ Hp (text_r _ _ _ _ Ht)). Qed.

Lemma parsed_app (g g1 g2 : gas) (l1 l2 : list Z) :
  parsed (input_line_pointer g + Z.of_nat (length l1)) g g1 ->
  parsed (input_line_pointer g1 + Z.of_nat (length l2)) g1 g2 ->
  parsed (input_line_pointer g + Z.of_nat (length (l1 ++ l2))) g g2.
Proof.
  intros H1 H2. pose proof H1 as [E _]. rewrite E in H2.
  rewrite length_app, Nat2Z.inj_add, Z.add_assoc. by eapply parsed_trans.
Qed.

Lemma skip_parsed (g : gas) (l : list Z) (n : Z) :
  n = Z.of_nat (length l) -> parsed (input_line_pointer g + Z.of_nat (length l)) g (set_ilp (input_line_pointer g + n) g).
Proof. intros ->. apply parsed_ilp. Qed.

Definition bare (op : operatorT) (a b : cexp) : list Z :=
  print (op_rank op - 1) a ++ op_text op ++ 32 :: print (op_rank op) b.

Lemma bare_reads (op : operatorT) (a b : cexp) (rank v : Z) (rest : list Z) (g : gas) :
  level_reads a -> level_reads b -> cexp_ok (Bin op a b) ->
  0 <= rank < op_rank op -> const_value (Bin op a b) = Some v -> ready g ->
  text g (input_line_pointer g) (bare op a b ++ rest) -> follows (op_rank op) rest ->
  exists g1, parsed (input_line_pointer g + Z.of_nat (length (bare op a b))) g g1 /\ reads rank g v g1.
Proof.
  intros IHa IHb (Hop & Hoka & Hokb) Hrank Hv Hr Ht Hf. pose proof (rank_range op Hop) as Hr8.
  cbn [const_value] in Hv. destruct (const_value a) as [va|] eqn:Ea; [|done]. cbn in Hv.
  destruct (const_value b) as [vb|] eqn:Eb; [|done]. cbn in Hv.
  unfold bare in Ht. rewrite <- app_assoc, <- app_assoc in Ht. cbn [app] in Ht.
  destruct (IHa va (op_rank op - 1) rank _ g ltac:(lia) ltac:(lia) Ea Hr Ht) as (ga & Hpa & Hra).
  { rewrite Z.sub_add. by apply operator_follows. }
  pose proof (after_text _ _ _ _ Ht Hpa) as Hta. pose proof (parsed_ready _ _ _ Hpa Hr) as Hrda.
  set (g1 := set_ilp (input_line_pointer ga + Z.of_nat (length (op_text op))) ga).
  pose proof (skip_parsed ga (op_text op) _ eq_refl) as Hp1. fold g1 in Hp1.
  pose proof (after_text _ _ _ _ Hta Hp1) as Ht1. pose proof (parsed_ready _ _ _ Hp1 Hrda) as Hrd1.
  set (g2 := set_ilp (input_line_pointer g1 + 1) g1).
  pose proof (skip_parsed g1 [32] 1 eq_refl) as Hp2. fold g2 in Hp2.
  pose proof (after_text g1 g2 [32] _ Ht1 Hp2) as Ht2. pose proof (parsed_ready _ _ _ Hp2 Hrd1) as Hrd2.
  destruct (IHb vb (op_rank op) (op_rank op) rest g2 ltac:(lia) ltac:(lia) Eb Hrd2 Ht2) as (gb & Hpb & Hrb).
  { apply (follows_weaken (op_rank op)); [done|lia]. }
  exists gb. split.
  - eapply parsed_app; [exact Hpa|]. eapply parsed_app; [exact Hp1|]. exact (parsed_app g1 g2 gb [32] _ Hp2 Hpb).
  - intros w g' Hw. apply Hra.
    apply (loop_operator rank op va vb v _ ga gb g' w Hop (proj2 Hrank) Hta Hv); [|exact Hw].
    apply expr_then; [lia|]. destruct (print_head (op_rank op) b Hokb) as (c & s & Es & Hc).
    rewrite Es in Ht1. apply (operand_blank c (s ++ rest) g1); [exact Ht1|exact Hc|].
    apply Hrb. apply (loop_stops _ (op_rank op) _ rest); [lia|done|]. exact (after_text _ _ _ _ Ht2 Hpb).
Qed.

Lemma follows_head (k : Z) (rest : list Z) (g : gas) :
  follows k rest -> text g (input_line_pointer g) rest ->
  exists c l, rest = c :: l /\ plain c = true /\ c <> 32.
Proof.
  intros [(c & l & -> & Hd) _] Ht. exists c, l. split; [done|].
  pose proof (delimiter_plain c (proj2 (Ht 0%nat c eq_refl)) Hd) as Hp. split; [done|]. intros ->. discriminate Hp.
Qed.

Lemma paren_reads (op : operatorT) (a b : cexp) (v : Z) (rest : list Z) (g : gas) :
  level_reads a -> level_reads b -> cexp_ok (Bin op a b) -> const_value (Bin op a b) = Some v -> ready g ->
  text g (input_line_pointer g) (chr "(" :: bare op a b ++ chr ")" :: rest) -> follows 9 rest ->
  exists g1, parsed (input_line_pointer g + Z.of_nat (length (chr "(" :: bare op a b ++ [chr ")"]))) g g1
    /\ yields Operand g v g1.
Proof.
  intros La Lb Hok Hv Hr Ht Hf. pose proof (rank_range op (proj1 Hok)) as Hr8.
  pose proof (skip_parsed g [chr "("] 1 eq_refl) as Hp0. set (g0 := set_ilp _ g) in Hp0.
  pose proof (after_text g g0 [chr "("] _ Ht Hp0) as Ht0. pose proof (parsed_ready _ _ _ Hp0 Hr) as Hr0.
  destruct (expr_top g0 Hr0) as (g1 & Hp1 & Hexpr). pose proof (parsed_ready _ _ _ Hp1 Hr0) as Hr1.
  assert (text g1 (input_line_pointer g1) (bare op a b ++ chr ")" :: rest)) as Ht1.
  { rewrite (proj1 Hp1). by eapply text_parsed. }
  destruct (bare_reads op a b 0 v (chr ")" :: rest) g1 La Lb Hok ltac:(lia) Hv Hr1 Ht1) as (g2 & Hp2 & Hrd).
  { apply (follows_weaken 0); [by apply end_follows|lia]. }
  pose proof (after_text _ _ _ _ Ht1 Hp2) as Ht2.
  pose proof (skip_parsed g2 [chr ")"] 1 eq_refl) as Hp3. set (g3 := set_ilp _ g2) in Hp3.
  destruct (follows_head 9 rest g3 Hf (after_text g2 g3 [chr ")"] _ Ht2 Hp3)) as (d & l & -> & _ & Hd).
  exists g3. split.
  - apply (parsed_app g g0 g3 [chr "("]); [exact Hp0|]. rewrite <- (proj1 Hp1).
    eapply parsed_trans; [exact Hp1|]. exact (parsed_app g1 g2 g3 _ [chr ")"] Hp2 Hp3).
  - apply (paren_operand v d (bare op a b ++ chr ")" :: d :: l) l g g2 Ht); [|exact Ht2|exact Hd].
    apply Hexpr, Hrd. apply (loop_stops 0 0 v (chr ")" :: d :: l)); [lia|by apply end_follows|exact Ht2].
Qed.

Lemma print_reads (e : cexp) : cexp_ok e -> atom_reads e /\ level_reads e.
Proof.
  induction e as [radix ds|c a IH|op a IHa b IHb]; intros Hok.
  - assert (atom_reads (Num radix ds)) as H.
    { intros v rest g [= <-] Hr Ht Hf.
      destruct (follows_head 9 rest (set_ilp (input_line_pointer g + Z.of_nat (length (print 8 (Num radix ds)))) g) Hf
        (text_r _ _ _ _ Ht)) as (c & l & -> & Hc & _).
      destruct (number_reads radix ds c l g Hr Hok Hc Ht) as (g1 & Hy & Hp). by exists g1. }
    split; [exact H|]. intros v l rank rest g _ Hl Hv Hr Ht Hf.
    apply (atom_level _ l rank v rest); try done. apply (follows_weaken (l + 1)); [done|lia].
  - destruct Hok as [Hc Hoka]. destruct (IH Hoka) as [IHa _].
    assert (atom_reads (Un c a)) as H.
    { intros v rest g Hv Hr Ht Hf. cbn [const_value] in Hv. destruct (const_value a) as [va|] eqn:Ea; [|done].
      injection Hv as <-. cbn [print app] in Ht.
      pose proof (skip_parsed g [c] 1 eq_refl) as Hp0. set (g0 := set_ilp _ g) in Hp0.
      pose proof (after_text g g0 [c] _ Ht Hp0) as Ht0.
      destruct (IHa va rest g0 Ea (parsed_ready _ _ _ Hp0 Hr) Ht0 Hf) as (g1 & Hp & Hy).
      pose proof (after_text _ _ _ _ Ht0 Hp) as Ht1.
      destruct (follows_head 9 rest g1 Hf Ht1) as (d & l & -> & _ & Hd).
      exists g1. split; [exact (parsed_app g g0 g1 [c] _ Hp0 Hp)|].
      apply (unary_operand c va d _ l g g1 Hc Ht Hy); [|exact Ht1|exact Hd].
      exact (parsed_ready _ _ _ Hp (parsed_ready _ _ _ Hp0 Hr)). }
    split; [exact H|]. intros v l rank rest g _ Hl Hv Hr Ht Hf.
    apply (atom_level _ l rank v rest); try done. apply (follows_weaken (l + 1)); [done|lia].
  - pose proof Hok as (Hop & Hoka & Hokb). pose proof (rank_range op Hop) as Hr8.
    destruct (IHa Hoka) as [_ La], (IHb Hokb) as [_ Lb].
    assert (forall l, op_rank op <= l -> print l (Bin op a b) = chr "(" :: bare op a b ++ [chr ")"]) as Hpar.
    { intros l Hl. cbn [print]. by rewrite (proj2 (Z.ltb_ge _ _)) by lia. }
    assert (atom_reads (Bin op a b)) as H.
    { intros v rest g Hv Hr Ht Hf. rewrite Hpar in Ht |- * by lia.
      cbn [app] in Ht. rewrite <- app_assoc in Ht. cbn [app] in Ht.
      by apply (paren_reads op a b v rest g). }
    split; [exact H|]. intros v l rank rest g Hrank Hl Hv Hr Ht Hf.
    destruct (Z.ltb_spec l (op_rank op)) as [Hlt|Hge].
    + assert (print l (Bin op a b) = bare op a b) as E by (cbn [print]; by rewrite (proj2 (Z.ltb_lt _ _) Hlt)).
      rewrite E in Ht |- *. apply (bare_reads op a b rank v rest g La Lb Hok ltac:(lia) Hv Hr Ht).
      apply (follows_weaken (l + 1)); [done|lia].
    + apply (atom_level _ l rank v rest); try done; [by rewrite !Hpar by lia|].
      apply (follows_weaken (l + 1)); [done|lia].
Qed.

Lemma constant_parsed {forward : FloatForward float_parser} (e : cexp) (v c : Z) (rest : list Z) (g : gas) :
  cexp_ok e -> const_value e = Some v -> closes c = true -> ready g ->
  text g (input_line_pointer g) (print 0 e ++ c :: rest) ->
  exists g', expr keep 0 mode g = Ret ((constant v, seg_absolute), g')
    /\ parsed (input_line_pointer g + Z.of_nat (length (print 0 e))) g g'.
Proof.
  intros Hok Hv Hc Hr Ht. destruct (expr_top g Hr) as (g1 & Hp1 & Hexpr).
  assert (text g1 (input_line_pointer g1) (print 0 e ++ c :: rest)) as Ht1.
  { rewrite (proj1 Hp1). by eapply text_parsed. }
  pose proof (end_follows c rest Hc) as Hf.
  destruct (proj2 (print_reads e Hok) v 0 0 (c :: rest) g1) as (g2 & Hp2 & Hrd);
    [lia|lia|done|exact (parsed_ready _ _ _ Hp1 Hr)|exact Ht1|by apply (follows_weaken 0); [|lia]|].
  exists g2. split; [|rewrite <- (proj1 Hp1); by eapply parsed_trans].
  destruct (Hexpr v g2) as [N HN].
  { apply Hrd, (loop_stops 0 0 v (c :: rest)); [lia|done|]. exact (after_text _ _ _ _ Ht1 Hp2). }
  unfold expr. rewrite <- (HN (N + parse_fuel g)%nat ltac:(lia)).
  apply parse_fuel_enough; unfold need, parse_fuel, left_over; lia.
Qed.
(** C15.  The text of a constant expression, printed with the parentheses that the
    ranks of the operators and their association to the left require, is parsed by
    [expr] to a constant: its value in 64-bit arithmetic, with the truth values -1
    and 0 of comparisons and 1 and 0 of logical operators.  The input pointer is at
    the character after the text, nothing is reported, and of the rest of the state
    only the bignum and the saved dot change.  The ranks are those of the table
    [op_rank]; the manual (gas/doc/as.texinfo, Infix Operators) gives + and - the rank of
    the comparisons, left to right, and so another value to 5 < 3 + 4 (see
    [sum_before_comparison]). *)
Theorem constant_expression {forward : FloatForward float_parser} (e : cexp) (v c : Z) (rest : list Z) (g : gas) :
  cexp_ok e -> const_value e = Some v -> closes c = true -> ready g ->
  text g (input_line_pointer g) (print 0 e ++ c :: rest) ->
  exists g', expr keep 0 mode g = Ret ((constant v, seg_absolute), g')
    /\ parsed (input_line_pointer g + Z.of_nat (length (print 0 e))) g g'.
Proof. apply constant_parsed. Qed.
End calls.

(** 5 < 3 + 4 is 5 < 7, and not the 4 that (5 < 3) + 4 gives. *)
Example sum_before_comparison :
  const_value (Bin O_lt (Num 10 (chars "5")) (Bin O_add (Num 10 (chars "3")) (Num 10 (chars "4")))) = Some (-1)
  /\ print 0 (Bin O_lt (Num 10 (chars "5")) (Bin O_add (Num 10 (chars "3")) (Num 10 (chars "4")))) = chars "5< 3+ 4"
  /\ const_value (Bin O_add (Bin O_lt (Num 10 (chars "5")) (Num 10 (chars "3"))) (Num 10 (chars "4"))) = Some 4.
Proof. by vm_compute. Qed.

Definition demo_cexp : cexp :=
  Bin O_subtract (Bin O_subtract (Num 10 (chars "10")) (Num 16 (chars "fF")))
    (Bin O_left_shift (Bin O_add (Num 8 []) (Un (chr "-") (Num 2 (chars "101")))) (Num 10 (chars "2"))).

Lemma constant_expression_witness :
  let g := expr_gas "10- 0xfF- (0+ -0b101)<< 2;" in
  (chars "10- 0xfF- (0+ -0b101)<< 2" = print 0 demo_cexp)
  /\ exists g', @expr no_float false 0 expr_normal g = Ret ((constant (-225), seg_absolute), g')
    /\ input_line_pointer g' = 25.
Proof.
  intros g. split; [reflexivity|].
  destruct (@constant_expression no_float false expr_normal ltac:(done) no_float_forward
    demo_cexp (-225) (chr ";") [10; 0] g) as (g' & E & Hp & _).
  - assert (forall r l, forallb (fun d => hex_value d <? r) l = true -> Forall (is_digit r) l) as Hd.
    { intros r l Hl. apply Forall_forall. intros d Hd%list_elem_of_In. rewrite forallb_forall in Hl.
      apply Hl, Z.ltb_lt in Hd. split; [apply hex_value_range|done]. }
    unfold radix_ok; repeat split; unfold number_ok, radix_ok;
      (tauto || (apply Hd; reflexivity) || discriminate || reflexivity).
  - reflexivity.
  - reflexivity.
  - split; [by exists [], (mk_frag 0 0 0 0 rs_fill [])|reflexivity|cbn; lia].
  - apply text_buffer with []; [|reflexivity]. vm_compute. repeat (constructor; [by split|]). constructor.
  - exists g'. split; [exact E|]. rewrite Hp. reflexivity.
Defined.
