(* ===== verification/Leb128.v ===== *)
(** * LEB128 numbers: gas/read.c writes them, bfd/libbfd.c reads them

    The encoders of the [.uleb128] and [.sleb128] directives for 64-bit values and for
    bignums, what [emit_leb128_expr] puts out for a number, and the three readers of
    BFD (used for DWARF).  The bytes a function stores at its pointer are returned as a
    list; with a null pointer the encoders of bignums store nothing and count the same
    bytes.  [emit_leb128_expr] on an expression with symbols leaves a frag to relax and
    is not modelled. *)
From S2P Require Import Prelude GasExpr GasNumber.
#[local] Open Scope Z_scope.

(** ** Values of 64 bits *)

(** [offsetT] is a signed [long]; ten turns of seven bits empty it. *)
Definition shift_right_7 (value : Z) : Z := Z.lor (Z.shiftr value 7) (Z.lnot (Z.shiftr (-1) 7)).

Definition sleb_more (value byte : Z) : bool :=
  negb (((value =? 0) && (Z.land byte 0x40 =? 0)) || ((value =? -1) && negb (Z.land byte 0x40 =? 0))).

Fixpoint sizeof_sleb128 (fuel : nat) (value : Z) : res nat :=
  match fuel with
  | O => Fail Floop
  | S n =>
      let byte := Z.land value 0x7f in
      let value := shift_right_7 value in
      if sleb_more value byte then let! size := sizeof_sleb128 n value in Ret (S size) else Ret 1%nat
  end.

Fixpoint sizeof_uleb128 (fuel : nat) (value : Z) : res nat :=
  match fuel with
  | O => Fail Floop
  | S n =>
      let value := Z.shiftr value 7 in
      if negb (value =? 0) then let! size := sizeof_uleb128 n value in Ret (S size) else Ret 1%nat
  end.

Definition LEB_TURNS : nat := 10.

Definition sizeof_leb128 (value : Z) (sign : bool) : res nat :=
  if sign then sizeof_sleb128 LEB_TURNS (s64 value) else sizeof_uleb128 LEB_TURNS value.

Fixpoint output_sleb128 (fuel : nat) (value : Z) : res (list Z) :=
  match fuel with
  | O => Fail Floop
  | S n =>
      let byte := Z.land value 0x7f in
      let value := shift_right_7 value in
      if sleb_more value byte then let! p := output_sleb128 n value in Ret (Z.lor byte 0x80 :: p) else Ret [byte]
  end.

Fixpoint output_uleb128 (fuel : nat) (value : Z) : res (list Z) :=
  match fuel with
  | O => Fail Floop
  | S n =>
      let byte := Z.land value 0x7f in
      let value := Z.shiftr value 7 in
      if negb (value =? 0) then let! p := output_uleb128 n value in Ret (Z.lor byte 0x80 :: p) else Ret [byte]
  end.

Definition output_leb128 (value : Z) (sign : bool) : res (list Z) :=
  if sign then output_sleb128 LEB_TURNS (s64 value) else output_uleb128 LEB_TURNS value.

(** ** Bignums, the least littlenum first *)

(** [while (size > 1 && bignum[size - 1] == LITTLENUM_MASK && ...) size--], from the top
    littlenum down. *)
Fixpoint strip_signs (top_first : list Z) : list Z :=
  match top_first with
  | a :: ((b :: _) as rest) => if (a =? LITTLENUM_MASK) && (LITTLENUM_MASK / 2 <? b) then strip_signs rest else top_first
  | _ => top_first
  end.

(** The inner loop; [more]: [size > 0].  The bytes, [val], [loaded] and the last byte. *)
Fixpoint sign_bytes (fuel : nat) (more : bool) (val loaded : Z) : res (list Z * Z * Z * Z) :=
  match fuel with
  | O => Fail Floop
  | S n =>
      let byte := Z.land val 0x7f in
      let loaded := loaded - 7 in
      let val := Z.shiftr val 7 in
      let fill := if Z.land byte 0x40 =? 0 then 0 else Z.shiftl 1 loaded - 1 in
      let byte := if more || negb (val =? fill) then Z.lor byte 0x80 else byte in
      if negb (Z.land byte 0x80 =? 0) && (7 <=? loaded) then
        let! (p, val, loaded, last) := sign_bytes n more val loaded in Ret (byte :: p, val, loaded, last)
      else Ret ([byte], val, loaded, byte)
  end.

(** The bits left over. *)
Definition mop_up (val loaded : Z) : Z :=
  Z.land (if negb (Z.land val (Z.shiftl 1 (loaded - 1)) =? 0) then Z.lor val (u32 (Z.shiftl 0xffffffff loaded)) else val)
    0x7f.

(** At most 22 bits are loaded: three turns. *)
Fixpoint big_sleb_loop (bignum : list Z) (val loaded : Z) : res (list Z) :=
  match bignum with
  | [] => Fail Foob
  | d :: bignum =>
      let val := Z.lor val (Z.shiftl d loaded) in
      let loaded := loaded + 16 in
      let! (p, val, loaded, byte) := sign_bytes 4 (match bignum with [] => false | _ => true end) val loaded in
      match bignum with
      | [] => Ret (if negb (Z.land byte 0x80 =? 0) then p ++ [mop_up val loaded] else p)
      | _ => let! q := big_sleb_loop bignum val loaded in Ret (p ++ q)
      end
  end.

Definition output_big_sleb128 (bignum : list Z) : res (list Z) := big_sleb_loop (rev (strip_signs (rev bignum))) 0 0.

Fixpoint strip_zeros (top_first : list Z) : list Z :=
  match top_first with
  | a :: rest => if a =? 0 then strip_zeros rest else top_first
  | [] => []
  end.

Fixpoint big_uleb_loop (fuel : nat) (bignum : list Z) (val loaded : Z) : res (list Z) :=
  match fuel with
  | O => Fail Floop
  | S n =>
      let '(bignum, val, loaded) :=
        match bignum with
        | d :: rest => if loaded <? 7 then (rest, Z.lor val (Z.shiftl d loaded), loaded + 16) else (bignum, val, loaded)
        | [] => (bignum, val, loaded)
        end in
      let byte := Z.land val 0x7f in
      let loaded := loaded - 7 in
      let val := Z.shiftr val 7 in
      if match bignum with [] => negb (val =? 0) | _ => true end then
        let! p := big_uleb_loop n bignum val loaded in Ret (Z.lor byte 0x80 :: p)
      else Ret [byte]
  end.

(** 16 bits of a littlenum are less than three bytes. *)
Definition output_big_uleb128 (bignum : list Z) : res (list Z) :=
  let bignum := rev (strip_zeros (rev bignum)) in
  big_uleb_loop (S (3 * length bignum)) bignum 0 0.

Definition output_big_leb128 (bignum : list Z) (sign : bool) : res (list Z) :=
  if sign then output_big_sleb128 bignum else output_big_uleb128 bignum.

(** ** What [emit_leb128_expr] puts out for a number *)

(** The littlenums [convert_to_bignum] stores, [X_add_number] of them. *)
Definition convert_to_bignum (X_add_number : Z) (sign : bool) : list Z :=
  let digit i := Z.land (Z.shiftr (u64 X_add_number) (16 * i)) LITTLENUM_MASK in
  [digit 0; digit 1; digit 2; digit 3]
  ++ (if eqb (X_add_number <? 0) (negb sign) then [if sign then LITTLENUM_MASK else 0] else []).

(** The case O_big; [bignum]: the [X_add_number] littlenums in use. *)
Definition emit_big (bignum : list Z) (X_unsigned sign : bool) : res (list Z) :=
  let bignum :=
    if X_unsigned && (length bignum <? SIZE_OF_LARGE_NUMBER)%nat
       && match last bignum with Some top => top =? LITTLENUM_MASK | None => false end
    then bignum ++ [0] else bignum in
  output_big_leb128 bignum sign.

(** The case O_constant. *)
Definition emit_constant (X_add_number : Z) (X_extrabit X_unsigned sign : bool) : res (list Z) :=
  if sign && eqb (X_add_number <? 0) (negb X_extrabit)
  then emit_big (convert_to_bignum X_add_number X_extrabit) X_unsigned sign
  else output_leb128 (u64 X_add_number) sign.

(** ** Reading: bfd/libbfd.c *)

(** [data]: the bytes up to [end].  A shift by 64 or more is undefined. *)
Fixpoint read_loop (data : list Z) (result shift num_read byte : Z) : res (Z * Z * Z * Z) :=
  match data with
  | [] => Ret (result, shift, num_read, byte)
  | byte :: data =>
      if 64 <=? shift then Fail Fub
      else
        let result := Z.lor result (u64 (Z.shiftl (Z.land byte 0x7f) shift)) in
        if Z.land byte 0x80 =? 0 then Ret (result, shift + 7, num_read + 1, byte)
        else read_loop data result (shift + 7) (num_read + 1) byte
  end.

Definition _bfd_safe_read_leb128 (data : list Z) (sign : bool) : res (Z * Z) :=
  let! (result, shift, num_read, byte) := read_loop data 0 0 0 0 in
  Ret (if sign && (shift <? 64) && negb (Z.land byte 0x40 =? 0)
       then Z.lor result (u64 (- u64 (Z.shiftl 1 shift))) else result, num_read).

(** The two readers without an end. *)
Fixpoint unsafe_loop (buf : list Z) (result shift num_read : Z) : res (Z * Z * Z * Z) :=
  match buf with
  | [] => Fail Foob
  | byte :: buf =>
      if 64 <=? shift then Fail Fub
      else
        let result := Z.lor result (u64 (Z.shiftl (Z.land byte 0x7f) shift)) in
        if Z.land byte 0x80 =? 0 then Ret (result, shift + 7, num_read + 1, byte)
        else unsafe_loop buf result (shift + 7) (num_read + 1)
  end.

Definition _bfd_read_unsigned_leb128 (buf : list Z) : res (Z * Z) :=
  let! (result, _, num_read, _) := unsafe_loop buf 0 0 0 in Ret (result, num_read).

Definition _bfd_read_signed_leb128 (buf : list Z) : res (Z * Z) :=
  let! (result, shift, num_read, byte) := unsafe_loop buf 0 0 0 in
  Ret (s64 (if (shift <? 64) && negb (Z.land byte 0x40 =? 0)
            then Z.lor result (u64 (Z.shiftl (u64 (-1)) shift)) else result), num_read).
