(* ===== verification/LebOk.v ===== *)
(** * LEB128 numbers are written as what they are and read back

    [uleb] and [sleb] are the numbers a LEB128 form denotes.  The encoders of gas put
    out a form of their number, the shortest for 64-bit values, and BFD reads it
    back. *)
From S2P Require Import Prelude GasExpr GasNumber Leb128.
#[local] Open Scope Z_scope.

(** ** The numbers forms denote *)
Fixpoint leb_form (l : list Z) : Prop :=
  match l with
  | [] => False
  | [b] => 0 <= b < 128
  | b :: l => 128 <= b < 256 /\ leb_form l
  end.

Fixpoint uleb (l : list Z) : Z :=
  match l with [] => 0 | b :: l => b mod 128 + 128 * uleb l end.

Fixpoint sleb (l : list Z) : Z :=
  match l with [] => 0 | [b] => sext 7 b | b :: l => b mod 128 + 128 * sleb l end.

Definition leb_value (sign : bool) (l : list Z) : Z := if sign then sleb l else uleb l.

(** ** Bits put above others *)
Lemma lor_high (s a b : Z) : 0 <= s -> 0 <= a < 2 ^ s -> Z.lor a (b * 2 ^ s) = a + b * 2 ^ s.
Proof.
  intros Hs Ha. rewrite <- Z.lxor_lor, <- Z.add_nocarry_lxor; try done; apply Z.bits_inj_0; intros i;
    rewrite Z.land_spec, Z.mul_pow2_bits by done;
    (destruct (Z_lt_ge_dec i s) as [Hi|Hi]; [rewrite (Z.testbit_neg_r b) by lia; apply andb_false_r|]);
    by rewrite (testbit_u s) by lia.
Qed.

Lemma lor_shift (s a b : Z) : 0 <= s -> 0 <= a < 2 ^ s -> Z.lor a (Z.shiftl b s) = a + b * 2 ^ s.
Proof. intros Hs Ha. rewrite Z.shiftl_mul_pow2 by done. by apply lor_high. Qed.

Lemma lor_80 (b : Z) : 0 <= b < 128 -> Z.lor b 0x80 = b + 128.
Proof. intros Hb. exact (lor_high 7 b 1 ltac:(lia) Hb). Qed.

Lemma land_7f (v : Z) : Z.land v 0x7f = v mod 128.
Proof. exact (Z.land_ones v 7 ltac:(lia)). Qed.

Lemma shiftr_7 (v : Z) : Z.shiftr v 7 = v / 128.
Proof. exact (Z.shiftr_div_pow2 v 7 ltac:(lia)). Qed.

(** The bit [2 ^ k] of a number. *)
Lemma land_bit (k v : Z) : 0 <= k -> negb (Z.land v (2 ^ k) =? 0) = Z.testbit v k.
Proof.
  intros Hk. destruct (Z.testbit v k) eqn:E.
  - apply negb_true_iff, Z.eqb_neq. intros H. apply (f_equal (fun x => Z.testbit x k)) in H.
    by rewrite Z.land_spec, E, Z.pow2_bits_true, Z.bits_0 in H by done.
  - apply negb_false_iff, Z.eqb_eq, Z.bits_inj_0. intros i. rewrite Z.land_spec.
    destruct (decide (i = k)) as [->|Hi]; [by rewrite E|]. rewrite Z.pow2_bits_false by done. apply andb_false_r.
Qed.

Lemma leb_testbit_top (k v : Z) : 0 <= k -> Z.testbit v k = (2 ^ k <=? v mod 2 ^ (k + 1)).
Proof.
  intros Hk. pose proof (Z.testbit_spec' v k Hk) as H. rewrite Z.pow_add_r, Z.pow_1_r by lia.
  pose proof (Z.pow_pos_nonneg 2 k ltac:(lia) Hk) as Hp. generalize dependent (2 ^ k). intros p H Hp.
  rewrite Z.rem_mul_r by lia. pose proof (Z.mod_pos_bound v p Hp).
  symmetry. destruct (Z.testbit v k); cbn in H; rewrite <- H; [apply Z.leb_le|apply Z.leb_gt]; lia.
Qed.

Lemma bit_6 (v : Z) : negb (Z.land v 0x40 =? 0) = (64 <=? v mod 128).
Proof. change 0x40 with (2 ^ 6). rewrite land_bit by done. by rewrite leb_testbit_top. Qed.

Lemma bit_7 (v : Z) : 0 <= v < 256 -> negb (Z.land v 0x80 =? 0) = (128 <=? v).
Proof. intros Hv. change 0x80 with (2 ^ 7). rewrite land_bit, leb_testbit_top by done. by rewrite Z.mod_small. Qed.

Lemma leb_form_cons (b : Z) (l : list Z) : 0 <= b < 128 -> leb_form l -> leb_form (Z.lor b 0x80 :: l).
Proof. intros Hb Hl. rewrite lor_80 by done. destruct l; [done|]. split; [lia|done]. Qed.

Lemma uleb_cons (b : Z) (l : list Z) : 0 <= b < 128 -> uleb (Z.lor b 0x80 :: l) = b + 128 * uleb l.
Proof. intros Hb. rewrite lor_80 by done. cbn [uleb]. f_equal. Z.to_euclidean_division_equations. lia. Qed.

Lemma sleb_cons (b : Z) (l : list Z) : 0 <= b < 128 -> leb_form l -> sleb (Z.lor b 0x80 :: l) = b + 128 * sleb l.
Proof.
  intros Hb Hl. rewrite lor_80 by done. destruct l as [|c l]; [done|]. change (sleb (b + 128 :: c :: l)) with
    ((b + 128) mod 128 + 128 * sleb (c :: l)). f_equal. Z.to_euclidean_division_equations. lia.
Qed.

Lemma sext_7 (b : Z) : 0 <= b < 128 -> sext 7 b = if 64 <=? b then b - 128 else b.
Proof. intros Hb. unfold sext. change (2 ^ (7 - 1)) with 64. change (2 ^ 7) with 128.
  destruct (Z.leb_spec 64 b); Z.to_euclidean_division_equations; lia. Qed.

(** ** Writing 64-bit values *)
Lemma shift_right_7_eq (v : Z) : shift_right_7 v = v / 128.
Proof. unfold shift_right_7. change (Z.lnot (Z.shiftr (-1) 7)) with 0. by rewrite Z.lor_0_r, shiftr_7. Qed.

Lemma sleb_more_eq (v : Z) : sleb_more (v / 128) (v mod 128) = negb ((-64 <=? v) && (v <? 64)).
Proof.
  unfold sleb_more. f_equal. rewrite <- (negb_involutive (Z.land _ _ =? 0)), bit_6, Z.mod_mod by done.
  pose proof (Z.div_mod v 128 ltac:(done)). pose proof (Z.mod_pos_bound v 128 ltac:(done)).
  destruct (Z.eqb_spec (v / 128) 0), (Z.eqb_spec (v / 128) (-1)), (Z.leb_spec 64 (v mod 128)), (Z.leb_spec (-64) v),
    (Z.ltb_spec v 64); cbn; try done; lia.
Qed.

(** [l] writes [v] in as few bytes as any form does. *)
Record written (sign : bool) (v : Z) (l : list Z) : Prop := {
  w_form : leb_form l;
  w_value : leb_value sign l = v;
  w_short l' : leb_form l' -> leb_value sign l' = v -> (length l <= length l')%nat
}.

Lemma written_one (sign : bool) (v : Z) : (if sign then -64 <= v < 64 else 0 <= v < 128) -> written sign v [v mod 128].
Proof.
  intros Hv. pose proof (Z.mod_pos_bound v 128 ltac:(done)) as Hm. split; [done| |by intros [|]; cbn; [|lia]].
  destruct sign; cbn.
  - rewrite sext_7 by done. destruct (Z.leb_spec 64 (v mod 128)); Z.to_euclidean_division_equations; lia.
  - rewrite Z.mod_mod, Z.mod_small by lia. lia.
Qed.

Lemma written_cons (sign : bool) (v : Z) (l : list Z) :
  ~ (if sign then -64 <= v < 64 else 0 <= v < 128) -> written sign (v / 128) l ->
  written sign v (Z.lor (v mod 128) 0x80 :: l).
Proof.
  intros Hv [F V S]. pose proof (Z.mod_pos_bound v 128 ltac:(done)) as Hm. pose proof (Z.div_mod v 128 ltac:(done)) as Hd.
  split; [by apply leb_form_cons| |].
  - destruct sign; cbn [leb_value] in *; [rewrite sleb_cons by done|rewrite uleb_cons by done]; lia.
  - intros [|b [|c l']]; intros F' V'; [done| |].
    + exfalso. cbn in F'. destruct sign; cbn in V', Hv.
      * rewrite sext_7 in V' by done. destruct (Z.leb_spec 64 b); lia.
      * rewrite Z.mod_small in V' by done. lia.
    + destruct F' as [Hb F']. cbn [length]. apply le_n_S, (S (c :: l')); [done|].
      destruct sign; cbn [leb_value] in *.
      * change (sleb (b :: c :: l')) with (b mod 128 + 128 * sleb (c :: l')) in V'. rewrite <- V'.
        Z.to_euclidean_division_equations. lia.
      * change (uleb (b :: c :: l')) with (b mod 128 + 128 * uleb (c :: l')) in V'. rewrite <- V'.
        Z.to_euclidean_division_equations. lia.
Qed.

Lemma output_sleb_ok (n : nat) (v : Z) : - 2 ^ (7 * Z.of_nat n + 6) <= v < 2 ^ (7 * Z.of_nat n + 6) ->
  exists l, output_sleb128 (S n) v = Ret l /\ sizeof_sleb128 (S n) v = Ret (length l) /\ written true v l
    /\ (length l <= S n)%nat.
Proof.
  revert v. induction n as [|n IH]; intros v Hv.
  - change (2 ^ (7 * Z.of_nat 0 + 6)) with 64 in Hv. exists [v mod 128]. cbn [output_sleb128 sizeof_sleb128].
    rewrite shift_right_7_eq, land_7f, sleb_more_eq. destruct (Z.leb_spec (-64) v), (Z.ltb_spec v 64); try lia.
    split_and!; [done|done|by apply (written_one true)|done].
  - cbn [output_sleb128 sizeof_sleb128]. rewrite shift_right_7_eq, land_7f, sleb_more_eq.
    destruct (decide (-64 <= v < 64)) as [H|H].
    + exists [v mod 128]. destruct (Z.leb_spec (-64) v), (Z.ltb_spec v 64); try lia.
      split_and!; [done|done|by apply (written_one true)|cbn; lia].
    + destruct (IH (v / 128)) as (l & E1 & E2 & W & L).
      { replace (7 * Z.of_nat (S n) + 6) with (7 * Z.of_nat n + 6 + 7) in Hv by lia.
        rewrite Z.pow_add_r in Hv by lia. change (2 ^ 7) with 128 in Hv. Z.to_euclidean_division_equations. lia. }
      exists (Z.lor (v mod 128) 0x80 :: l). cbn [output_sleb128 sizeof_sleb128] in E1, E2. rewrite E1, E2.
      replace ((-64 <=? v) && (v <? 64)) with false by (destruct (Z.leb_spec (-64) v), (Z.ltb_spec v 64); cbn; lia).
      split_and!; [done|done|by apply (written_cons true)|cbn; lia].
Qed.

Lemma output_uleb_eq (n : nat) (v : Z) :
  output_uleb128 (S n) v
  = if negb (v / 128 =? 0) then let! p := output_uleb128 n (v / 128) in Ret (Z.lor (v mod 128) 0x80 :: p)
    else Ret [v mod 128].
Proof. by rewrite <- shiftr_7, <- land_7f. Qed.

Lemma sizeof_uleb_eq (n : nat) (v : Z) :
  sizeof_uleb128 (S n) v
  = if negb (v / 128 =? 0) then let! size := sizeof_uleb128 n (v / 128) in Ret (S size) else Ret 1%nat.
Proof. by rewrite <- shiftr_7. Qed.

Lemma output_uleb_ok (n : nat) (v : Z) : 0 <= v < 2 ^ (7 * Z.of_nat (S n)) ->
  exists l, output_uleb128 (S n) v = Ret l /\ sizeof_uleb128 (S n) v = Ret (length l) /\ written false v l
    /\ (length l <= S n)%nat.
Proof.
  revert v. induction n as [|n IH]; intros v Hv; rewrite output_uleb_eq, sizeof_uleb_eq.
  - change (2 ^ (7 * Z.of_nat 1)) with 128 in Hv. exists [v mod 128]. rewrite Z.div_small by done.
    split_and!; [done|done|by apply (written_one false)|done].
  - destruct (decide (v < 128)) as [H|H].
    + exists [v mod 128]. rewrite Z.div_small by lia. split_and!; [done|done|apply (written_one false); lia|cbn; lia].
    + destruct (IH (v / 128)) as (l & E1 & E2 & W & L).
      { replace (7 * Z.of_nat (S (S n))) with (7 * Z.of_nat (S n) + 7) in Hv by lia.
        rewrite Z.pow_add_r in Hv by lia. change (2 ^ 7) with 128 in Hv. Z.to_euclidean_division_equations. lia. }
      exists (Z.lor (v mod 128) 0x80 :: l). rewrite E1, E2.
      destruct (Z.eqb_spec (v / 128) 0); [Z.to_euclidean_division_equations; lia|].
      split_and!; [done|done|apply (written_cons false); [lia|done]|cbn; lia].
Qed.

Lemma output_ok (v : Z) (sign : bool) : 0 <= v < 2 ^ 64 ->
  exists l, output_leb128 v sign = Ret l /\ sizeof_leb128 v sign = Ret (length l) /\ written sign (if sign then s64 v else v) l
    /\ (length l <= 10)%nat.
Proof.
  intros Hv. unfold output_leb128, sizeof_leb128, LEB_TURNS. destruct sign.
  - apply (output_sleb_ok 9). change (2 ^ (7 * Z.of_nat 9 + 6)) with (2 ^ 69). wrap64.
  - apply (output_uleb_ok 9). change (2 ^ (7 * Z.of_nat 10)) with (2 ^ 70). lia.
Qed.

(** ** Reading *)
Lemma put_bits (s result x : Z) : 0 <= s < 64 -> 0 <= result < 2 ^ s -> 0 <= x < 128 ->
  0 <= Z.lor result (u64 (Z.shiftl x s)) < 2 ^ (s + 7) /\
  Z.lor result (u64 (Z.shiftl x s)) = u64 (result + 2 ^ s * x).
Proof.
  intros Hs Hr Hx. rewrite Z.shiftl_mul_pow2 by lia. unfold u64.
  assert (2 ^ 64 = 2 ^ (64 - s) * 2 ^ s) as E by (rewrite <- Z.pow_add_r by lia; f_equal; lia).
  pose proof (Z.pow_pos_nonneg 2 s ltac:(lia) ltac:(lia)) as P1.
  pose proof (Z.pow_pos_nonneg 2 (64 - s) ltac:(lia) ltac:(lia)) as P2.
  rewrite E, Z.mul_mod_distr_r by lia. rewrite (lor_high s) by (done || lia).
  pose proof (Z.mod_pos_bound x (2 ^ (64 - s)) P2). rewrite Z.pow_add_r by lia. change (2 ^ 7) with 128.
  pose proof (Z.mod_le x (2 ^ (64 - s)) ltac:(lia) P2). split; [nia|].
  pose proof (Z.div_mod x (2 ^ (64 - s)) ltac:(lia)) as D. apply (Z.mod_unique_pos _ _ (x / 2 ^ (64 - s))); [nia|].
  rewrite D at 1. ring.
Qed.

Lemma u64_add_more (a b c s : Z) : 0 <= s -> u64 (u64 (a + 2 ^ s * b) + 2 ^ (s + 7) * c) = u64 (a + 2 ^ s * (b + 128 * c)).
Proof.
  intros Hs. unfold u64. rewrite Zplus_mod_idemp_l. f_equal. rewrite Z.pow_add_r by lia. change (2 ^ 7) with 128. ring.
Qed.

(** The loops from the [k]th byte on. *)
Lemma read_form (l rest : list Z) (result num_read byte : Z) (k : nat) :
  leb_form l -> 0 <= result < 2 ^ (7 * Z.of_nat k) -> (k + length l <= 10)%nat ->
  read_loop (l ++ rest) result (7 * Z.of_nat k) num_read byte
  = Ret (u64 (result + 2 ^ (7 * Z.of_nat k) * uleb l), 7 * Z.of_nat (k + length l), num_read + Z.of_nat (length l),
         List.last l 0) /\
  unsafe_loop (l ++ rest) result (7 * Z.of_nat k) num_read
  = Ret (u64 (result + 2 ^ (7 * Z.of_nat k) * uleb l), 7 * Z.of_nat (k + length l), num_read + Z.of_nat (length l),
         List.last l 0).
Proof.
  revert result num_read byte k. induction l as [|b l IH]; intros result num_read byte k F Hr Hk; [done|].
  cbn [length] in Hk. cbn [app read_loop unsafe_loop]. destruct (Z.leb_spec 64 (7 * Z.of_nat k)); [lia|].
  destruct (put_bits (7 * Z.of_nat k) result (b mod 128) ltac:(lia) Hr (Z.mod_pos_bound b 128 ltac:(done))) as [Hr' Er].
  rewrite land_7f. rewrite <- (negb_involutive (Z.land b 0x80 =? 0)).
  destruct l as [|c l].
  - cbn in F. rewrite bit_7 by lia. destruct (Z.leb_spec 128 b); [lia|]. cbn [negb].
    cbn [uleb length List.last]. rewrite Er, Z.mul_0_r, Z.add_0_r.
    replace (7 * Z.of_nat k + 7) with (7 * Z.of_nat (k + 1)) by lia. done.
  - destruct F as [Hb F]. rewrite bit_7 by lia. destruct (Z.leb_spec 128 b); [|lia]. cbn [negb].
    replace (7 * Z.of_nat k + 7) with (7 * Z.of_nat (S k)) in * by lia.
    destruct (IH _ (num_read + 1) b (S k) F Hr' ltac:(lia)) as [-> ->]. rewrite Er.
    replace (7 * Z.of_nat (S k)) with (7 * Z.of_nat k + 7) by lia. rewrite u64_add_more by lia.
    change (uleb (b :: c :: l)) with (b mod 128 + 128 * uleb (c :: l)).
    change (List.last (b :: c :: l) 0) with (List.last (c :: l) 0).
    replace (k + length (b :: c :: l))%nat with (S k + length (c :: l))%nat by (cbn; lia).
    replace (num_read + Z.of_nat (length (b :: c :: l))) with (num_read + 1 + Z.of_nat (length (c :: l))) by (cbn; lia).
    done.
Qed.

Lemma uleb_bound (l : list Z) : 0 <= uleb l < 2 ^ (7 * Z.of_nat (length l)).
Proof.
  induction l as [|b l IH]; [by split|]. cbn [uleb length]. pose proof (Z.mod_pos_bound b 128 ltac:(done)).
  replace (7 * Z.of_nat (S (length l))) with (7 + 7 * Z.of_nat (length l)) by lia. rewrite Z.pow_add_r by lia.
  change (2 ^ 7) with 128. lia.
Qed.

(** The signed number is the unsigned one less the weight of the sign. *)
Lemma sleb_uleb (l : list Z) : leb_form l ->
  sleb l = uleb l - (if 64 <=? List.last l 0 mod 128 then 2 ^ (7 * Z.of_nat (length l)) else 0).
Proof.
  induction l as [|b [|c l] IH]; intros F; [done| |].
  - cbn in F |- *. rewrite sext_7 by done. rewrite Z.mod_small by done. destruct (64 <=? b); lia.
  - destruct F as [_ F]. change (sleb (b :: c :: l)) with (b mod 128 + 128 * sleb (c :: l)).
    change (uleb (b :: c :: l)) with (b mod 128 + 128 * uleb (c :: l)). rewrite (IH F).
    change (List.last (b :: c :: l) 0) with (List.last (c :: l) 0).
    replace (7 * Z.of_nat (length (b :: c :: l))) with (7 + 7 * Z.of_nat (length (c :: l))) by (cbn [length]; lia).
    rewrite Z.pow_add_r by lia. change (2 ^ 7) with 128. destruct (64 <=? _); lia.
Qed.

(** Filling the bits above the number with ones. *)
Lemma fill_ones (s u : Z) : 0 <= s < 64 -> 0 <= u < 2 ^ s ->
  Z.lor u (u64 (- u64 (Z.shiftl 1 s))) = u64 (u - 2 ^ s) /\ Z.lor u (u64 (Z.shiftl (u64 (-1)) s)) = u64 (u - 2 ^ s).
Proof.
  intros Hs Hu. assert (2 ^ 64 = 2 ^ (64 - s) * 2 ^ s) as E by (rewrite <- Z.pow_add_r by lia; f_equal; lia).
  pose proof (Z.pow_pos_nonneg 2 s ltac:(lia) ltac:(lia)) as P1.
  pose proof (Z.pow_pos_nonneg 2 (64 - s) ltac:(lia) ltac:(lia)) as P2.
  assert (u64 (u - 2 ^ s) = u + (2 ^ (64 - s) - 1) * 2 ^ s) as ->.
  { unfold u64. rewrite E. symmetry. apply (Z.mod_unique_pos _ _ (-1)); nia. }
  assert (u64 (- u64 (Z.shiftl 1 s)) = (2 ^ (64 - s) - 1) * 2 ^ s) as ->.
  { rewrite Z.shiftl_mul_pow2, Z.mul_1_l by lia. rewrite (u64_small (2 ^ s)) by (split; [lia|apply Z.pow_lt_mono_r; lia]).
    unfold u64. rewrite E. symmetry. apply (Z.mod_unique_pos _ _ (-1)); nia. }
  assert (u64 (Z.shiftl (u64 (-1)) s) = (2 ^ (64 - s) - 1) * 2 ^ s) as ->.
  { rewrite Z.shiftl_mul_pow2 by lia. unfold u64. rewrite Zmult_mod_idemp_l. rewrite E. symmetry.
    apply (Z.mod_unique_pos _ _ (-1)); nia. }
  by rewrite lor_high by (done || lia).
Qed.

Lemma sign_filled (l : list Z) (fill : Z) : leb_form l -> (length l <= 10)%nat ->
  fill = u64 (- u64 (Z.shiftl 1 (7 * Z.of_nat (length l)))) \/ fill = u64 (Z.shiftl (u64 (-1)) (7 * Z.of_nat (length l))) ->
  (if (7 * Z.of_nat (length l) <? 64) && negb (Z.land (List.last l 0) 0x40 =? 0) then Z.lor (u64 (uleb l)) fill
   else u64 (uleb l)) = u64 (sleb l).
Proof.
  intros F L Hf. rewrite bit_6, (sleb_uleb l F). pose proof (uleb_bound l) as B.
  destruct (Z.ltb_spec (7 * Z.of_nat (length l)) 64), (64 <=? List.last l 0 mod 128); cbn [andb];
    try by rewrite Z.sub_0_r.
  - rewrite (u64_small (uleb l)); [|split; [lia|]; apply (Z.lt_le_trans _ _ _ (proj2 B)), Z.pow_le_mono_r; lia].
    destruct (fill_ones (7 * Z.of_nat (length l)) (uleb l) ltac:(lia) B). destruct Hf as [-> | ->]; done.
  - assert (length l = 10%nat) as -> by lia. unfold u64.
    apply Z.mod_unique_pos with (uleb l / 2 ^ 64 - 2 ^ 6); [by apply Z.mod_pos_bound|].
    pose proof (Z.div_mod (uleb l) (2 ^ 64) ltac:(done)). change (2 ^ (7 * Z.of_nat 10)) with (2 ^ 64 * 2 ^ 6). lia.
Qed.

(** BFD reads the number of a form of at most ten bytes, modulo 2^64. *)
Lemma safe_read_ok (l rest : list Z) (sign : bool) : leb_form l -> (length l <= 10)%nat ->
  _bfd_safe_read_leb128 (l ++ rest) sign = Ret (u64 (leb_value sign l), Z.of_nat (length l)).
Proof.
  intros F L. unfold _bfd_safe_read_leb128. destruct (read_form l rest 0 0 0 0 F ltac:(done) L) as [E _].
  change (7 * Z.of_nat 0) with 0 in E. rewrite E. cbn [rbind]. rewrite Z.add_0_l, Z.mul_1_l. cbn [Nat.add].
  destruct sign; cbn [leb_value andb]; [|done]. by rewrite (sign_filled l _ F L) by auto.
Qed.

Lemma unsigned_read_ok (l rest : list Z) : leb_form l -> (length l <= 10)%nat ->
  _bfd_read_unsigned_leb128 (l ++ rest) = Ret (u64 (uleb l), Z.of_nat (length l)).
Proof.
  intros F L. unfold _bfd_read_unsigned_leb128. destruct (read_form l rest 0 0 0 0 F ltac:(done) L) as [_ E].
  change (7 * Z.of_nat 0) with 0 in E. rewrite E. cbn [rbind]. by rewrite Z.add_0_l, Z.mul_1_l.
Qed.

Lemma signed_read_ok (l rest : list Z) : leb_form l -> (length l <= 10)%nat ->
  _bfd_read_signed_leb128 (l ++ rest) = Ret (s64 (sleb l), Z.of_nat (length l)).
Proof.
  intros F L. unfold _bfd_read_signed_leb128. destruct (read_form l rest 0 0 0 0 F ltac:(done) L) as [_ E].
  change (7 * Z.of_nat 0) with 0 in E. rewrite E. cbn [rbind]. rewrite Z.add_0_l, Z.mul_1_l. cbn [Nat.add].
  rewrite (sign_filled l _ F L) by auto. do 2 f_equal. by apply s64_u64.
Qed.

(** ** Writing bignums *)

(** The number littlenums denote in two's complement. *)
Fixpoint big_signed (l : list Z) : Z :=
  match l with [] => 0 | [d] => sext 16 d | d :: l => d + B16 * big_signed l end.

Lemma sext_in (n x : Z) : 1 <= n -> 0 <= x < 2 ^ n -> sext n x = if 2 ^ (n - 1) <=? x then x - 2 ^ n else x.
Proof.
  intros Hn Hx. unfold sext. assert (2 ^ n = 2 * 2 ^ (n - 1)) as E by (rewrite <- Z.pow_succ_r by lia; f_equal; lia).
  pose proof (Z.pow_pos_nonneg 2 (n - 1) ltac:(lia) ltac:(lia)) as P. rewrite E in Hx |- *. clear E.
  set (q := 2 ^ (n - 1)) in *. clearbody q. destruct (Z.leb_spec q x).
  - rewrite <- (Z.mod_unique_pos (x + q) (2 * q) 1 (x - q)) by lia. lia.
  - rewrite Z.mod_small; lia.
Qed.

(** Seven bits off the bottom, and [s] bits under it. *)
Lemma sext_step (n x : Z) : 8 <= n -> 0 <= x < 2 ^ n -> sext n x = x mod 128 + 128 * sext (n - 7) (x / 128).
Proof.
  intros Hn Hx. assert (2 ^ n = 128 * 2 ^ (n - 7)) as E by (rewrite <- (Z.pow_add_r 2 7) by lia; f_equal; lia).
  assert (2 ^ (n - 1) = 128 * 2 ^ (n - 7 - 1)) as E' by (rewrite <- (Z.pow_add_r 2 7) by lia; f_equal; lia).
  pose proof (Z.div_mod x 128 ltac:(done)). pose proof (Z.mod_pos_bound x 128 ltac:(done)).
  rewrite (sext_in n x), (sext_in (n - 7) (x / 128)) by lia. rewrite E, E'.
  destruct (Z.leb_spec (128 * 2 ^ (n - 7 - 1)) x), (Z.leb_spec (2 ^ (n - 7 - 1)) (x / 128)); lia.
Qed.

Lemma sext_above (n s x d : Z) : 1 <= n -> 0 <= s -> 0 <= x < 2 ^ s -> 0 <= d < 2 ^ n ->
  sext (s + n) (x + d * 2 ^ s) = x + 2 ^ s * sext n d.
Proof.
  intros Hn Hs Hx Hd. rewrite sext_in; [|lia|rewrite Z.pow_add_r by lia; nia]. rewrite sext_in by lia.
  replace (s + n - 1) with (s + (n - 1)) by lia. rewrite !Z.pow_add_r by lia.
  destruct (Z.leb_spec (2 ^ s * 2 ^ (n - 1)) (x + d * 2 ^ s)), (Z.leb_spec (2 ^ (n - 1)) d); nia.
Qed.

Lemma mop_up_ok (n x : Z) : 1 <= n < 7 -> 0 <= x < 2 ^ n -> 0 <= mop_up x n < 128 /\ sext 7 (mop_up x n) = sext n x.
Proof.
  intros Hn Hx.
  assert (forallb (fun n => forallb (fun x => (0 <=? mop_up x n) && (mop_up x n <? 128) && (sext 7 (mop_up x n) =? sext n x))
            (seqZ 0 (2 ^ n))) (seqZ 1 6) = true) as H by by vm_compute.
  rewrite forallb_forall in H. specialize (H n ltac:(apply list_elem_of_In, elem_of_seqZ; lia)).
  rewrite forallb_forall in H. specialize (H x ltac:(apply list_elem_of_In, elem_of_seqZ; lia)). cbn beta in H.
  rewrite !andb_true_iff, Z.leb_le, Z.ltb_lt, Z.eqb_eq in H. lia.
Qed.

(** What the bits in [val] and the littlenums after them, worth [rest], denote. *)
Definition pending (more : bool) (rest val loaded : Z) : Z :=
  if more then val + 2 ^ loaded * rest else sext loaded val.

Lemma pending_step (more : bool) (rest val loaded : Z) :
  7 <= loaded -> (more = false -> 8 <= loaded) -> 0 <= val < 2 ^ loaded ->
  pending more rest val loaded = val mod 128 + 128 * pending more rest (val / 128) (loaded - 7).
Proof.
  intros Hl Hm Hv. destruct more; cbn [pending]; [|apply sext_step; [by apply Hm|done]].
  assert (2 ^ loaded = 128 * 2 ^ (loaded - 7)) as -> by (rewrite <- (Z.pow_add_r 2 7) by lia; f_equal; lia).
  pose proof (Z.div_mod val 128 ltac:(done)). lia.
Qed.

(** A byte without the continuation bit ends the number. *)
Lemma sign_ends (val loaded : Z) : 7 <= loaded -> 0 <= val < 2 ^ loaded ->
  val / 128 = (if 64 <=? val mod 128 then 2 ^ (loaded - 7) - 1 else 0) -> sext 7 (val mod 128) = sext loaded val.
Proof.
  intros Hl Hv E. pose proof (Z.div_mod val 128 ltac:(done)) as D. pose proof (Z.mod_pos_bound val 128 ltac:(done)) as B.
  rewrite sext_7, (sext_in loaded) by lia.
  assert (2 ^ loaded = 128 * 2 ^ (loaded - 7)) as E1 by (rewrite <- (Z.pow_add_r 2 7) by lia; f_equal; lia).
  assert (2 ^ (loaded - 1) = 64 * 2 ^ (loaded - 7)) as E2 by (rewrite <- (Z.pow_add_r 2 6) by lia; f_equal; lia).
  pose proof (Z.pow_pos_nonneg 2 (loaded - 7) ltac:(lia) ltac:(lia)).
  destruct (Z.leb_spec 64 (val mod 128)), (Z.leb_spec (2 ^ (loaded - 1)) val); lia.
Qed.

(** One turn of the inner loop. *)
Lemma sign_bytes_eq (n : nat) (more : bool) (val loaded : Z) : 7 <= loaded -> 0 <= val < 2 ^ loaded ->
  let stop := negb more && (val / 128 =? (if 64 <=? val mod 128 then 2 ^ (loaded - 7) - 1 else 0)) in
  let byte := if stop then val mod 128 else Z.lor (val mod 128) 0x80 in
  sign_bytes (S n) more val loaded
  = (if negb stop && (7 <=? loaded - 7) then
       let! (p, val, loaded, last) := sign_bytes n more (val / 128) (loaded - 7) in Ret (byte :: p, val, loaded, last)
     else Ret ([byte], val / 128, loaded - 7, byte)).
Proof.
  intros Hl Hv stop byte. pose proof (Z.mod_pos_bound val 128 ltac:(done)) as B.
  cbn [sign_bytes]. rewrite shiftr_7, land_7f. rewrite <- (negb_involutive (Z.land (val mod 128) 0x40 =? 0)), bit_6, Z.mod_mod by done.
  rewrite Z.shiftl_mul_pow2, Z.mul_1_l by lia.
  assert ((if negb (64 <=? val mod 128) then 0 else 2 ^ (loaded - 7) - 1)
          = (if 64 <=? val mod 128 then 2 ^ (loaded - 7) - 1 else 0)) as -> by by destruct (64 <=? _).
  assert (more || negb (val / 128 =? (if 64 <=? val mod 128 then 2 ^ (loaded - 7) - 1 else 0)) = negb stop) as ->
    by (unfold stop; by destruct more, (_ =? _)).
  subst byte. destruct stop; cbn [negb andb].
  - rewrite bit_7 by lia. destruct (Z.leb_spec 128 (val mod 128)); [lia|done].
  - rewrite bit_7 by (rewrite lor_80; lia). rewrite lor_80 by done. destruct (Z.leb_spec 128 (val mod 128 + 128)); [done|lia].
Qed.

(** The inner loop: either the number is over, or less than seven bits are left. *)
Lemma sign_bytes_ok (n : nat) (more : bool) (rest val loaded : Z) :
  7 <= loaded < 7 * (Z.of_nat n + 1) -> 0 <= val < 2 ^ loaded ->
  exists p val' loaded' last, sign_bytes n more val loaded = Ret (p, val', loaded', last) /\ 
    ((more = false /\ Z.land last 0x80 = 0 /\ leb_form p /\ sleb p = pending more rest val loaded) \/
     (Z.land last 0x80 <> 0 /\ 0 <= loaded' < 7 /\ (more = false -> 1 <= loaded') /\ 0 <= val' < 2 ^ loaded' /\
      forall q, leb_form q -> sleb q = pending more rest val' loaded' ->
        leb_form (p ++ q) /\ sleb (p ++ q) = pending more rest val loaded)).
Proof.
  revert val loaded. induction n as [|n IH]; intros val loaded Hl Hv; [lia|].
  pose proof (Z.mod_pos_bound val 128 ltac:(done)) as B. rewrite sign_bytes_eq by (done || lia). cbn zeta.
  destruct (negb more && _) eqn:E; cbn [negb andb].
  - exists [val mod 128], (val / 128), (loaded - 7), (val mod 128). split; [done|]. left.
    apply andb_true_iff in E as [Em E]. apply negb_true_iff in Em as ->. apply Z.eqb_eq in E.
    split_and!; [done| |done|cbn [sleb pending]; by apply sign_ends; [lia|..]].
    apply Z.eqb_eq. rewrite <- (negb_involutive (_ =? 0)), bit_7 by lia. destruct (Z.leb_spec 128 (val mod 128)); [lia|done].
  - assert (2 ^ loaded = 128 * 2 ^ (loaded - 7)) as E1 by (rewrite <- (Z.pow_add_r 2 7) by lia; f_equal; lia).
    assert (0 <= val / 128 < 2 ^ (loaded - 7)) as Hv' by (Z.to_euclidean_division_equations; lia).
    assert (more = false -> 8 <= loaded) as Hm.
    { intros ->. destruct (decide (loaded = 7)) as [->|]; [|lia]. exfalso. change (2 ^ (7 - 7)) with 1 in *.
      assert (val / 128 = 0) as E2 by lia. rewrite E2 in E. by destruct (64 <=? val mod 128). }
    assert (forall q, leb_form q -> sleb q = pending more rest (val / 128) (loaded - 7) ->
      leb_form (Z.lor (val mod 128) 0x80 :: q) /\ sleb (Z.lor (val mod 128) 0x80 :: q) = pending more rest val loaded) as Hq.
    { intros q F S. split; [by apply leb_form_cons|]. rewrite sleb_cons, S by done. symmetry. apply pending_step; [lia|done..]. }
    destruct (Z.leb_spec 7 (loaded - 7)) as [H7|H7].
    + destruct (IH (val / 128) (loaded - 7) ltac:(lia) Hv') as (p & val' & loaded' & last & -> & H). cbn [rbind].
      exists (Z.lor (val mod 128) 0x80 :: p), val', loaded', last. split; [done|].
      destruct H as [(-> & H1 & H2 & H3)|(H1 & H2 & H3 & H4 & H5)]; [left|right].
      * split_and!; [done|done|by apply (Hq p)..].
      * split_and!; [done|lia|lia|done|lia|lia|]. intros q F S. destruct (H5 q F S) as [F' S']. by apply (Hq (p ++ q)).
    + exists [Z.lor (val mod 128) 0x80], (val / 128), (loaded - 7), (Z.lor (val mod 128) 0x80). split; [done|]. right.
      split_and!; [|lia|lia|intros ?; specialize (Hm ltac:(done)); lia|lia|lia|exact Hq].
      apply Z.eqb_neq, negb_true_iff. rewrite bit_7 by (rewrite lor_80; lia). rewrite lor_80 by done. apply Z.leb_le. lia.
Qed.

Lemma big_sleb_loop_ok (bignum : list Z) (val loaded : Z) :
  littles_ok bignum -> bignum <> [] -> 0 <= loaded < 7 -> 0 <= val < 2 ^ loaded ->
  exists l, big_sleb_loop bignum val loaded = Ret l /\ leb_form l /\ sleb l = val + 2 ^ loaded * big_signed bignum.
Proof.
  revert val loaded. induction bignum as [|d bignum IH]; intros val loaded Hok Hne Hl Hv; [done|]. clear Hne.
  apply Forall_cons in Hok as [Hd Hok]. cbn [big_sleb_loop]. rewrite lor_shift by lia.
  assert (0 <= val + d * 2 ^ loaded < 2 ^ (loaded + 16)) as Hv1 by (rewrite Z.pow_add_r by lia; change (2 ^ 16) with B16; nia).
  destruct bignum as [|e bignum].
  - destruct (sign_bytes_ok 4 false 0 (val + d * 2 ^ loaded) (loaded + 16) ltac:(lia) Hv1)
      as (p & val' & loaded' & last & -> & H). cbn [rbind].
    assert (pending false 0 (val + d * 2 ^ loaded) (loaded + 16) = val + 2 ^ loaded * big_signed [d]) as EV
      by (apply sext_above; [done|lia|done|exact Hd]).
    destruct H as [(_ & H1 & H2 & H3)|(H1 & H2 & H3 & H4 & H5)].
    + exists p. rewrite H1. split_and!; [done|done|by rewrite H3].
    + exists (p ++ [mop_up val' loaded']). specialize (H3 ltac:(done)).
      destruct (mop_up_ok loaded' val' ltac:(lia) H4) as [M1 M2].
      destruct (H5 [mop_up val' loaded'] M1 M2) as [F S].
      split_and!; [by apply Z.eqb_neq in H1 as ->|done|by rewrite S].
  - destruct (sign_bytes_ok 4 true (big_signed (e :: bignum)) (val + d * 2 ^ loaded) (loaded + 16) ltac:(lia) Hv1)
      as (p & val' & loaded' & last & -> & H). cbn [rbind].
    destruct H as [(? & _)|(_ & H2 & _ & H4 & H5)]; [done|].
    destruct (IH val' loaded' Hok ltac:(done) H2 H4) as (q & -> & F & S). cbn [rbind].
    destruct (H5 q F S) as [F' S']. exists (p ++ q). split_and!; [done|done|]. rewrite S'. cbn [pending].
    change (big_signed (d :: e :: bignum)) with (d + B16 * big_signed (e :: bignum)). rewrite Z.pow_add_r by lia.
    change (2 ^ 16) with B16. ring.
Qed.

(** *** Leading digits that say nothing *)
Lemma big_signed_sign (l : list Z) (b : Z) : 2 ^ 15 <= b < B16 -> big_signed (l ++ [b; LITTLENUM_MASK]) = big_signed (l ++ [b]).
Proof.
  intros Hb. induction l as [|a l IH].
  - change (big_signed ([] ++ [b; LITTLENUM_MASK])) with (b + B16 * -1). cbn [app big_signed].
    rewrite sext_in by (done || (unfold B16 in *; lia)). change (16 - 1) with 15. unfold B16.
    destruct (Z.leb_spec (2 ^ 15) b); lia.
  - destruct l as [|c l]; cbn [app big_signed] in *; by rewrite IH.
Qed.

Lemma strip_signs_ok (tf : list Z) : littles_ok tf -> tf <> [] ->
  littles_ok (strip_signs tf) /\ strip_signs tf <> [] /\ big_signed (rev (strip_signs tf)) = big_signed (rev tf).
Proof.
  intros Hok Hne. induction tf as [|a [|b tf] IH]; [done|done|].
  change (strip_signs (a :: b :: tf)) with
    (if (a =? LITTLENUM_MASK) && (LITTLENUM_MASK / 2 <? b) then strip_signs (b :: tf) else a :: b :: tf).
  apply Forall_cons in Hok as [Ha Hok].
  destruct (Z.eqb_spec a LITTLENUM_MASK) as [->|]; cbn [andb]; [|split_and!; [by constructor|done|done]].
  destruct (Z.ltb_spec (LITTLENUM_MASK / 2) b) as [Hb|]; [|split_and!; [by constructor|done|done]].
  destruct (IH Hok ltac:(done)) as (H1 & H2 & H3). split_and!; [done|done|]. rewrite H3. cbn [rev].
  rewrite <- app_assoc. symmetry. apply big_signed_sign. apply Forall_cons in Hok as [Hb' _].
  change (LITTLENUM_MASK / 2) with 32767 in Hb. lia.
Qed.

Lemma strip_zeros_ok (tf : list Z) : littles_ok tf ->
  littles_ok (strip_zeros tf) /\ little_value (rev (strip_zeros tf)) = little_value (rev tf).
Proof.
  intros Hok. induction tf as [|a tf IH]; [done|]. cbn [strip_zeros]. destruct (Z.eqb_spec a 0) as [->|]; [|done].
  apply Forall_cons in Hok as [_ Hok]. destruct (IH Hok) as [H1 H2]. split; [done|]. rewrite H2. cbn [rev].
  rewrite little_app. cbn. lia.
Qed.

Lemma littles_rev (l : list Z) : littles_ok l -> littles_ok (rev l).
Proof. intros H. by apply Forall_rev. Qed.

(** The bits in [val] and the littlenums after them. *)
Lemma big_uleb_loop_ok (n : nat) (bignum : list Z) (val loaded : Z) :
  littles_ok bignum -> loaded + 16 * Z.of_nat (length bignum) < 7 * Z.of_nat n ->
  (bignum <> [] -> 0 <= loaded) -> (0 <= loaded /\ 0 <= val < 2 ^ loaded) \/ val = 0 -> (0 < n)%nat ->
  exists l, big_uleb_loop n bignum val loaded = Ret l /\ leb_form l
    /\ uleb l = val + 2 ^ loaded * little_value bignum.
Proof.
  revert bignum val loaded. induction n as [|n IH]; intros bignum val loaded Hok Hn Hl Hv H0; [lia|]. clear H0.
  cbn [big_uleb_loop].
  set (s := match bignum with [] => _ | _ => _ end).
  assert (exists bignum' val' loaded', s = (bignum', val', loaded') /\ littles_ok bignum' /\
    loaded' + 16 * Z.of_nat (length bignum') < 7 * Z.of_nat (S n) /\ (bignum' <> [] -> 7 <= loaded') /\
    ((0 <= loaded' /\ 0 <= val' < 2 ^ loaded') \/ val' = 0) /\
    val' + 2 ^ loaded' * little_value bignum' = val + 2 ^ loaded * little_value bignum) as (b' & v' & l' & -> & A1 & A2 & A3 & A4 & A5).
  { unfold s. destruct bignum as [|d rest]; [exists [], val, loaded; split_and!; done|]. specialize (Hl ltac:(done)).
    assert (0 <= val < 2 ^ loaded) as Hv' by (destruct Hv as [[_ Hv]| ->]; [done|split; [lia|by apply Z.pow_pos_nonneg]]).
    destruct (Z.ltb_spec loaded 7) as [H7|H7]; [|exists (d :: rest), val, loaded; split_and!; try done; by left].
    apply Forall_cons in Hok as [Hd Hok]. exists rest, (Z.lor val (Z.shiftl d loaded)), (loaded + 16).
    rewrite lor_shift by lia. cbn [length] in Hn. split_and!; try done; try lia.
    - left. rewrite Z.pow_add_r by lia. change (2 ^ 16) with B16. nia.
    - rewrite Z.pow_add_r by lia. change (2 ^ 16) with B16.
      change (little_value (d :: rest)) with (d + B16 * little_value rest). ring. }
  rewrite <- A5. rewrite shiftr_7, land_7f. pose proof (Z.mod_pos_bound v' 128 ltac:(done)) as B.
  pose proof (Z.div_mod v' 128 ltac:(done)) as D. clear A5 Hn Hl Hv.
  destruct (decide (b' = [] /\ v' / 128 = 0)) as [[-> E]|Hmore].
  - exists [v' mod 128]. rewrite E. split_and!; [done|done|]. cbn. rewrite Z.mod_mod by done. lia.
  - assert (match b' with [] => negb (v' / 128 =? 0) | _ :: _ => true end = true) as ->.
    { destruct b'; [|done]. apply negb_true_iff, Z.eqb_neq. tauto. }
    assert ((0 <= l' - 7 /\ 0 <= v' / 128 < 2 ^ (l' - 7)) \/ v' / 128 = 0) as Hv.
    { destruct A4 as [[H1 H2]| ->]; [|by right]. destruct (decide (7 <= l')) as [H7|H7].
      - left. assert (2 ^ l' = 128 * 2 ^ (l' - 7)) by (rewrite <- (Z.pow_add_r 2 7) by lia; f_equal; lia). lia.
      - right. pose proof (Z.pow_lt_mono_r 2 l' 7 ltac:(lia) ltac:(lia) ltac:(lia)) as H. change (2 ^ 7) with 128 in H.
        Z.to_euclidean_division_equations. lia. }
    assert (7 <= l') as H7.
    { destruct b' as [|d b']; [|by apply A3]. destruct Hv as [[Hv _]|Hv]; [lia|tauto]. }
    assert (0 < n)%nat as Hn.
    { destruct b' as [|d b']; [|cbn [length] in A2; lia]. destruct n; [|lia]. exfalso. assert (l' < 7) by (cbn in A2; lia). lia. }
    destruct (IH b' (v' / 128) (l' - 7) A1 ltac:(lia) ltac:(lia) Hv Hn) as (l & -> & F & U). cbn [rbind].
    eexists. split_and!; [done|by apply leb_form_cons|]. rewrite uleb_cons by done. rewrite U.
    assert (2 ^ l' = 128 * 2 ^ (l' - 7)) as -> by (rewrite <- (Z.pow_add_r 2 7) by lia; f_equal; lia). lia.
Qed.

Lemma output_big_ok (bignum : list Z) (sign : bool) : littles_ok bignum -> (sign = true -> bignum <> []) ->
  exists l, output_big_leb128 bignum sign = Ret l /\ leb_form l
    /\ leb_value sign l = if sign then big_signed bignum else little_value bignum.
Proof.
  intros Hok Hne. apply littles_rev in Hok as Hr. destruct sign; cbn [output_big_leb128 leb_value].
  - destruct (strip_signs_ok (rev bignum) Hr) as (H1 & H2 & H3).
    { intros E. apply Hne; [done|]. by rewrite <- (rev_involutive bignum), E. }
    rewrite rev_involutive in H3. unfold output_big_sleb128.
    destruct (big_sleb_loop_ok (rev (strip_signs (rev bignum))) 0 0) as (l & -> & F & S); [by apply littles_rev| |done|done|].
    { intros E. apply H2. by rewrite <- (rev_involutive (strip_signs _)), E. }
    exists l. split_and!; [done|done|]. rewrite S, H3. lia.
  - destruct (strip_zeros_ok (rev bignum) Hr) as (H1 & H2). rewrite rev_involutive in H2. unfold output_big_uleb128.
    set (b := rev (strip_zeros (rev bignum))) in *.
    destruct (big_uleb_loop_ok (S (3 * length b)) b 0 0) as (l & -> & F & U); [by apply littles_rev|lia|done|by right|lia|].
    exists l. split_and!; [done|done|]. rewrite U, H2. lia.
Qed.

Lemma big_signed_eq (l : list Z) (top : Z) : littles_ok l -> last l = Some top ->
  big_signed l = little_value l - (if 2 ^ 15 <=? top then B16 ^ Z.of_nat (length l) else 0).
Proof.
  intros Hok. induction l as [|a [|b l] IH]; intros Ht; [done| |].
  - injection Ht as ->. apply Forall_cons in Hok as [Ha _]. cbn [big_signed little_value foldr length].
    rewrite sext_in by (done || exact Ha). change (16 - 1) with 15. change (Z.of_nat 1) with 1. rewrite Z.pow_1_r.
    change (2 ^ 16) with B16. destruct (2 ^ 15 <=? top); lia.
  - apply Forall_cons in Hok as [_ Hok]. change (last (a :: b :: l)) with (last (b :: l)) in Ht.
    change (big_signed (a :: b :: l)) with (a + B16 * big_signed (b :: l)). rewrite (IH Hok Ht).
    change (little_value (a :: b :: l)) with (a + B16 * little_value (b :: l)).
    replace (Z.of_nat (length (a :: b :: l))) with (1 + Z.of_nat (length (b :: l))) by (cbn [length]; lia).
    rewrite Z.pow_add_r, Z.pow_1_r by lia. destruct (2 ^ 15 <=? top); ring.
Qed.

Lemma emit_big_ok (bignum : list Z) (top : Z) (X_unsigned sign : bool) : littles_ok bignum -> last bignum = Some top ->
  exists l, emit_big bignum X_unsigned sign = Ret l /\ leb_form l /\
    leb_value sign l = little_value bignum
      - (if sign && (2 ^ 15 <=? top) && negb (X_unsigned && (length bignum <? SIZE_OF_LARGE_NUMBER)%nat && (top =? LITTLENUM_MASK))
         then B16 ^ Z.of_nat (length bignum) else 0).
Proof.
  intros Hok Ht. unfold emit_big. rewrite Ht. destruct (X_unsigned && _ && (top =? LITTLENUM_MASK)) eqn:E; cbn [negb].
  - destruct (output_big_ok (bignum ++ [0]) sign) as (l & El & F & V).
    { apply Forall_app; split; [done|]. by repeat constructor. }
    { intros _. by destruct bignum. }
    exists l. rewrite andb_false_r. split_and!; [done|done|]. rewrite V.
    rewrite (big_signed_eq _ 0), little_app; [|apply Forall_app; split; [done|by repeat constructor]|by rewrite last_snoc].
    change (2 ^ 15 <=? 0) with false. cbn [little_value foldr]. destruct sign; lia.
  - destruct (output_big_ok bignum sign Hok) as (l & El & F & V); [by intros _ ->|].
    exists l. rewrite andb_true_r. split_and!; [done|done|]. rewrite V, (big_signed_eq _ _ Hok Ht).
    destruct sign; cbn [andb]; lia.
Qed.

Lemma convert_ok (n : Z) (sign : bool) : - 2 ^ 63 <= n < 2 ^ 63 ->
  exists low, convert_to_bignum n sign = low ++ (if eqb (n <? 0) (negb sign) then [if sign then LITTLENUM_MASK else 0] else [])
    /\ length low = 4%nat /\ littles_ok low /\ little_value low = u64 n.
Proof.
  intros Hn. unfold convert_to_bignum. eexists. split; [reflexivity|]. split; [done|]. 
  rewrite !land_mask, !Z.shiftr_div_pow2 by lia. pose proof (u64_range n) as Hu. set (u := u64 n) in *. clearbody u. split.
  - repeat constructor; by apply Z.mod_pos_bound.
  - cbn [little_value foldr]. change (16 * 0) with 0. change (16 * 1) with 16. change (16 * 2) with 32. change (16 * 3) with 48.
    unfold B16. change (2 ^ 0) with 1. Z.to_euclidean_division_equations. lia.
Qed.

Lemma emit_constant_ok (n : Z) (X_extrabit X_unsigned sign : bool) : - 2 ^ 63 <= n < 2 ^ 63 ->
  exists l, emit_constant n X_extrabit X_unsigned sign = Ret l /\ leb_form l /\
    leb_value sign l = u64 n - (if sign && X_extrabit then 2 ^ 64 else 0)
      + (if sign && X_extrabit && X_unsigned && (0 <=? n) then 2 ^ 80 else 0).
Proof.
  intros Hn. unfold emit_constant. destruct sign; cbn [andb].
  - destruct (eqb (n <? 0) (negb X_extrabit)) eqn:E.
    + destruct (convert_ok n X_extrabit Hn) as (low & -> & L & Hok & V). rewrite E.
      destruct (emit_big_ok (low ++ [if X_extrabit then LITTLENUM_MASK else 0]) (if X_extrabit then LITTLENUM_MASK else 0)
        X_unsigned true) as (l & El & F & W).
      { apply Forall_app. split; [done|]. repeat constructor; by destruct X_extrabit. }
      { by rewrite last_snoc. }
      exists l. split_and!; [done|done|]. rewrite W, little_app, V, length_app, L.
      destruct X_extrabit; cbn [andb negb little_value foldr]; [change (2 ^ 15 <=? LITTLENUM_MASK) with true|
        change (2 ^ 15 <=? 0) with false; cbn [andb]; lia].
      cbn [negb] in E. apply eqb_prop in E. change (4 + length [LITTLENUM_MASK])%nat with 5%nat.
      change (5 <? SIZE_OF_LARGE_NUMBER)%nat with true. change (LITTLENUM_MASK =? LITTLENUM_MASK) with true.
      rewrite (proj2 (Z.leb_le 0 n)) by lia.
      change (B16 ^ Z.of_nat 5) with (2 ^ 80). change (B16 ^ Z.of_nat 4) with (2 ^ 64).
      unfold LITTLENUM_MASK. destruct X_unsigned; cbn [andb negb]; lia.
    + destruct (output_ok (u64 n) true (u64_range n)) as (l & El & _ & [F V _] & _). exists l.
      split_and!; [done|done|]. rewrite V, s64_u64, s64_small by done.
      destruct (Z.ltb_spec n 0), X_extrabit; try done; cbn [andb]; [|wrap64].
      rewrite (proj2 (Z.leb_gt 0 n)), andb_false_r by lia. wrap64.
  - destruct (output_ok (u64 n) false (u64_range n)) as (l & El & _ & [F V _] & _). exists l. 
    split_and!; [done|done|]. rewrite V. lia.
Qed.

(** ** The claims *)

(** C35.  gas writes every 64-bit value, signed or unsigned, in the bytes it counted for it,
    which are the shortest LEB128 form of the value, and BFD reads the value and the
    number of bytes back, whatever follows them. *)
Theorem leb128_roundtrip (v : Z) (sign : bool) (rest : list Z) :
  0 <= v < 2 ^ 64 ->
  exists l, output_leb128 v sign = Ret l /\ sizeof_leb128 v sign = Ret (length l) /\
    written sign (if sign then s64 v else v) l /\
    _bfd_safe_read_leb128 (l ++ rest) sign = Ret (v, Z.of_nat (length l)) /\
    (if sign then _bfd_read_signed_leb128 (l ++ rest) = Ret (s64 v, Z.of_nat (length l))
     else _bfd_read_unsigned_leb128 (l ++ rest) = Ret (v, Z.of_nat (length l))).
Proof.
  intros Hv. destruct (output_ok v sign Hv) as (l & E1 & E2 & W & L). exists l. split_and!; [done|done|done|..].
  - rewrite safe_read_ok by (done || apply W). rewrite (w_value _ _ _ W).
    destruct sign; [by rewrite u64_s64, u64_small|by rewrite u64_small].
  - destruct sign.
    + rewrite signed_read_ok by (done || apply W). pose proof (w_value _ _ _ W) as V. cbn [leb_value] in V. rewrite V.
      rewrite s64_small; [done|wrap64].
    + rewrite unsigned_read_ok by (done || apply W). pose proof (w_value _ _ _ W) as V. cbn [leb_value] in V. rewrite V.
      by rewrite u64_small.
Qed.

(** C36.  What the LEB128 directives put out for a number is a LEB128 form, of any length.
    For a constant, [X_extrabit] being its sign beyond the 64 bits, and for a bignum the
    form denotes the number, with two exceptions where a signed number is asked for: a
    constant from -2^64 to -2^63-1 that is also marked unsigned comes out larger by 2^80,
    for a zero littlenum is put above the 0xffff of its sign; and an unsigned bignum whose
    top littlenum is from 0x8000 to 0xfffe (or 0xffff, when all littlenums are in use)
    comes out negative, for none is put above it. *)
Theorem leb128_numbers (n : Z) (X_extrabit X_unsigned sign : bool) (bignum : list Z) (top : Z) :
  - 2 ^ 63 <= n < 2 ^ 63 -> littles_ok bignum -> last bignum = Some top ->
  (exists l, emit_constant n X_extrabit X_unsigned sign = Ret l /\ leb_form l /\
     leb_value sign l = u64 n - (if sign && X_extrabit then 2 ^ 64 else 0)
       + (if sign && X_extrabit && X_unsigned && (0 <=? n) then 2 ^ 80 else 0)) /\
  (exists l, emit_big bignum X_unsigned sign = Ret l /\ leb_form l /\
     leb_value sign l = little_value bignum
       - (if sign && (2 ^ 15 <=? top) &&
             negb (X_unsigned && (length bignum <? SIZE_OF_LARGE_NUMBER)%nat && (top =? LITTLENUM_MASK))
          then B16 ^ Z.of_nat (length bignum) else 0)).
Proof. intros Hn Hok Ht. split; [by apply emit_constant_ok|by apply emit_big_ok]. Qed.

(** *** Witnesses *)
Lemma leb128_roundtrip_witness :
  exists l, output_leb128 (u64 (-123456)) true = Ret l /\ sizeof_leb128 (u64 (-123456)) true = Ret (length l) /\
    written true (s64 (u64 (-123456))) l /\
    _bfd_safe_read_leb128 (l ++ [7]) true = Ret (u64 (-123456), Z.of_nat (length l)) /\
    _bfd_read_signed_leb128 (l ++ [7]) = Ret (s64 (u64 (-123456)), Z.of_nat (length l)).
Proof. exact (leb128_roundtrip (u64 (-123456)) true [7] (u64_range _)). Defined.

(** [.sleb128 5-0x8000000000000010] leaves both flags set. *)
Lemma leb128_numbers_witness :
  (exists l, emit_constant 0x7ffffffffffffff5 true true true = Ret l /\ leb_form l /\
     leb_value true l = 5 - 0x8000000000000010 + 2 ^ 80) /\
  (exists l, emit_big [1; 0xffff] true true = Ret l /\ leb_form l /\
     leb_value true l = little_value [1; 0xffff] - 0).
Proof.
  refine (leb128_numbers 0x7ffffffffffffff5 true true true [1; 0xffff] 0xffff _ _ _); [split; by vm_compute| |done].
  repeat constructor; by vm_compute.
Defined.

(** 2^79 as a signed number is written as its negative. *)
Example big_sign_lost :
  emit_big [0; 0; 0; 0; 0x8000] true true = emit_big [0; 0; 0; 0; 0x8000; 0xffff] false true /\
  little_value [0; 0; 0; 0; 0x8000] = 2 ^ 79.
Proof. by vm_compute. Qed.
