(* ===== verification/FusionAsm.v ===== *)
(** * Assembling an instruction: gas/config/tc-fusion.c

    From [md_begin], which builds the two hash tables, to [md_assemble], which
    turns one line into bytes of the current frag and a fixup: the operand
    parsers of FusionParse.v, the encoding macros of FusionIsa.v, the choice of
    relocation, the macro instructions.  [junk] is what unwritten frag memory
    holds.  Line-number output ([dwarf2_emit_insn]), the architecture of the
    output file and the alignment of [.text] are not part of the state. *)
From Stdlib Require Import Ascii.
From S2P Require Import Prelude FusionOpc Endian GasHash BfdReloc FusionReloc GasState.
From S2P Require Import GasResolve FusionParse FusionIsa.
#[local] Open Scope Z_scope.

(** ** Register and opcode tables *)
Definition REGF_GPR : Z := 0.
Definition REGF_FPR : Z := 1.
Definition REGF_SYS : Z := 2.
Definition REGF_MAX : Z := 3.

(** A table value is a pointer made from an integer: never null. *)
Definition ENCODE_REG_HASH (rf n : Z) : Z := u32 (u32 (n * REGF_MAX) + rf + 1).
Definition DECODE_REG_FILE (hash : Z) : Z := u64 (hash - 1) mod REGF_MAX.
Definition DECODE_REG_NUM (hash : Z) : Z := u64 (hash - 1) / REGF_MAX.

Definition hash_reg_name (regf : Z) (name : string) (n : Z) : M unit :=
  t ← gets reg_names_hash;
  '(t, retval) ← lift (hash_insert t name (ENCODE_REG_HASH regf n));
  _ ← modify (set_reg_hash t);
  match retval with
  | Some _ => as_fatal "internal error: can't hash `%s': %s"
  | None => mret tt
  end.

Fixpoint hash_reg_names (regf : Z) (names : list string) (i : Z) : M unit :=
  match names with
  | [] => mret tt
  | name :: names' => _ ← hash_reg_name regf name i; hash_reg_names regf names' (i + 1)
  end.

(** An [unsigned int]: the failure value is all ones. *)
Definition reg_lookup_internal (s : string) (regf : Z) : M Z :=
  t ← gets reg_names_hash;
  '(t, r) ← lift (hash_find 0 t s);
  _ ← modify (set_reg_hash t);
  mret (if (r =? 0) || negb (DECODE_REG_FILE r =? regf) then u32 (-1) else u32 (DECODE_REG_NUM r)).

Definition tc_fusion_regname_to_dw2regnum (regname : string) : M Z :=
  reg ← reg_lookup_internal regname REGF_GPR;
  let reg := s32 reg in
  if 0 <=? reg then mret reg else
  _ ← as_bad "unknown register `%s'"; mret (-1).

Definition validate_fusion_insn (_ : fusion_opc_info_t) : bool := true.

(** [while (fusion_insn_all[i].name && !strcmp (fusion_insn_all[i].name, name))] after
    the entry just hashed: the rest of the table past the entries of one name. *)
Fixpoint skip_same (nm : string) (l : list fusion_opc_info_t) : M (list fusion_opc_info_t) :=
  match l with
  | e :: l' =>
      match name e with
      | Some n =>
          if decide (n = nm) then
            if validate_fusion_insn e then skip_same nm l'
            else as_fatal "Assembler is broken. Instruction not valid"
          else mret l
      | None => mret l
      end
  | [] => fail Foob
  end.

Fixpoint hash_insns (fuel : nat) (l : list fusion_opc_info_t) : M unit :=
  match fuel, l with
  | O, _ => fail Floop
  | S _, [] => fail Foob
  | S f, e :: l' =>
      match name e with
      | None => mret tt
      | Some nm =>
          t ← gets op_hash_ctrl;
          '(t, hash_error) ← lift (hash_insert t nm (Some e));
          _ ← modify (set_op_hash t);
          match hash_error with
          | Some _ => as_fatal "Assembler is broken. I'm not touching that file, fix me plz."
          | None =>
              if validate_fusion_insn e then rest ← skip_same nm l'; hash_insns f rest
              else as_fatal "Assembler is broken. Instruction not valid"
          end
      end
  end.

(** [arch_ok]: whether [bfd_set_arch_mach] accepts the architecture. *)
Definition md_begin (arch_ok : bool) : M unit :=
  _ ← when (negb arch_ok) (as_warn "Couldn't set architecture and machine");
  _ ← modify (set_op_hash hash_new);
  _ ← hash_insns (length fusion_insn_all) fusion_insn_all;
  _ ← modify (set_reg_hash hash_new);
  _ ← hash_reg_names REGF_GPR fusion_gpreg_name 0;
  hash_reg_names REGF_GPR fusion_gpreg_num 0.

(** ** Instructions being built *)
Record fusion_cl_insn : Type := mk_insn {
  insn_mo : fusion_opc_info_t;
  insn_word : Z;
  insn_frag : option nat;
  frag_offset : Z;
  fixptr : option nat
}.

Definition create_insn (mo : fusion_opc_info_t) : fusion_cl_insn := mk_insn mo (opc mo) None 0 None.

Definition set_word (ip : fusion_cl_insn) (w : Z) : fusion_cl_insn :=
  mk_insn (insn_mo ip) (u32 w) (insn_frag ip) (frag_offset ip) (fixptr ip).

Definition INSERT_OPERAND (operand : Z) (ip : fusion_cl_insn) : fusion_cl_insn :=
  set_word ip (Z.lor (insn_word ip) operand).

Definition md_number_to_chars (buf : list Z) (p use nbytes : Z) : res (list Z) :=
  number_to_chars_bigendian buf p use nbytes.

Definition install_insn (ip : fusion_cl_insn) : M unit :=
  x ← get_frag (insn_frag ip);
  l ← lift (md_number_to_chars (fr_literal x) (frag_offset ip) (insn_word ip) 4);
  match insn_frag ip with
  | Some i => put_frag i (mk_frag (fr_address x) (fr_fix x) (fr_var x) (fr_offset x) (fr_type x) l)
  | None => fail Foob
  end.

(** [fixptr->fx_frag = frag; fixptr->fx_where = frag_offset;] *)
Definition move_fix (frag : option nat) (where_ : Z) (f : fixS) : fixS :=
  mk_fix (fx_pcrel f) (fx_tcbit f) (fx_done f) (fx_no_overflow f) (fx_signed f) (fx_size f)
    frag where_ (fx_addsy f) (fx_subsy f) (fx_offset f) (fx_dot_value f) (fx_dot_frag f)
    (fx_r_type f) (fx_addnumber f).

Definition move_insn (ip : fusion_cl_insn) (frag : nat) (offset : Z) : M fusion_cl_insn :=
  let ip := mk_insn (insn_mo ip) (insn_word ip) (Some frag) offset (fixptr ip) in
  _ ← (match fixptr ip with
       | Some i => modify (fun g => set_fixes (alter (move_fix (Some frag) offset) i (fixes g)) g)
       | None => mret tt
       end);
  _ ← install_insn ip;
  mret ip.

Section asm.
  Context {expr_parser : ExprParser} (junk : Z).

Definition add_fixed_insn (ip : fusion_cl_insn) : M fusion_cl_insn :=
  f ← frag_more junk 4;
  now ← frag_now;
  move_insn ip now f.

(** The relocation applied to a constant, as bits to [or] into the word. *)
Definition fusion_apply_const_reloc (reloc_type : bfd_reloc_code_real) (value : Z) : res Z :=
  match reloc_type with
  | BFD_RELOC_32 => Ret (u32 value)
  | BFD_RELOC_16_PCREL | BFD_RELOC_16 => Ret (u32 (GET_IMM_LI value))
  | BFD_RELOC_HI16_PCREL | BFD_RELOC_FUSION_HI16 => Ret (u32 (GET_IMM_LI (Z.shiftr value 16)))
  | BFD_RELOC_8 => Ret (u32 (GEN_SYS_IMM value))
  | BFD_RELOC_FUSION_STORE => Ret (u32 (GEN_S_IMM value))
  | BFD_RELOC_FUSION_LOAD => Ret (u32 (GEN_L_IMM value))
  | BFD_RELOC_FUSION_12 => Ret (u32 (GEN_I_IMM value))
  | BFD_RELOC_FUSION_21 => Ret (u32 (GEN_J_IMM value))
  | _ => Fail Fabort
  end.

(** Both arms of the inner [switch] are one statement; [fx_tcbit] is 0 already.
    Returns the expression as [fix_new_exp] leaves it. *)
Definition append_insn (ip : fusion_cl_insn) (addr_expr : option expressionS)
    (reloc_type : bfd_reloc_code_real) : M (option expressionS) :=
  '(ip, addr_expr) ←
    (if decide (reloc_type = BFD_RELOC_UNUSED) then mret (ip, addr_expr) else
     match addr_expr with
     | None => fail Fabort
     | Some e =>
         let howto := fusion_reloc_type_lookup reloc_type in
         _ ← (match howto with
              | None => as_bad "Unsupported Fusion-Core relocation number: %d"
              | Some _ => mret tt
              end);
         match howto with
         | None => fail Foob
         | Some howto =>
             size ← lift (bfd_get_reloc_size howto);
             '(i, e) ← fix_new_exp (insn_frag ip) (frag_offset ip) size e false reloc_type;
             mret (mk_insn (insn_mo ip) (insn_word ip) (insn_frag ip) (frag_offset ip) (Some i),
                   Some e)
         end
     end);
  ip ← add_fixed_insn ip;
  _ ← install_insn ip;
  mret addr_expr.

(** ** Macro instructions *)

(** The variable arguments of [macro_build]. *)
Inductive marg : Type :=
| Mint (n : Z)
| Mreloc (r : bfd_reloc_code_real).

(** The loop over [fmt]: the word under construction, the relocation. *)
Fixpoint macro_args (fmt : list Ascii.ascii) (args : list marg) (ep : option expressionS)
    (insn : fusion_cl_insn) (r : bfd_reloc_code_real) : M (fusion_cl_insn * bfd_reloc_code_real) :=
  match fmt with
  | [] => mret (insn, r)
  | c :: fmt' =>
      if (Ascii.eqb c "d" || Ascii.eqb c "a" || Ascii.eqb c "b")%char then
        match args with
        | Mint n :: args' =>
            let operand := if Ascii.eqb c "d" then GEN_RD n else if Ascii.eqb c "a" then GEN_RSA n
                           else GEN_RSB n in
            macro_args fmt' args' ep (INSERT_OPERAND operand insn) r
        | _ => fail Funinit
        end
      else if (Ascii.eqb c "s" || Ascii.eqb c "i" || Ascii.eqb c "u" || Ascii.eqb c "j")%char then
        _ ← gas_assert (bool_decide (ep <> None));
        match args with
        | Mreloc r' :: args' => macro_args fmt' args' ep insn r'
        | _ => fail Funinit
        end
      else if Ascii.eqb c ","%char then macro_args fmt' args ep insn r
      else as_fatal "internal error: invalid macro. nice one"
  end.

(** The index field of the format, for the formats the macros use. *)
Definition macro_index (mo : fusion_opc_info_t) (insn : fusion_cl_insn) : fusion_cl_insn :=
  if opc mo =? OPC_LI then INSERT_OPERAND (GEN_DSEL_LI (index mo)) insn
  else if opc mo =? OPC_IMM then INSERT_OPERAND (GEN_ALUOP (index mo)) insn
  else if opc mo =? OPC_LD then INSERT_OPERAND (GEN_FUNCT_L (index mo)) insn
  else if opc mo =? OPC_ST then INSERT_OPERAND (GEN_FUNCT_S (index mo)) insn
  else insn.

Definition find_insn (nm : string) : M (option fusion_opc_info_t) :=
  t ← gets op_hash_ctrl;
  '(t, mo) ← lift (hash_find None t nm);
  _ ← modify (set_op_hash t);
  mret mo.

Definition macro_build (ep : option expressionS) (nm fmt : string) (args : list marg)
  : M (option expressionS) :=
  mo ← find_insn nm;
  match mo with
  | None => fail Foob
  | Some mo =>
      _ ← gas_assert (bool_decide (name mo = Some nm));
      let insn := set_word (create_insn mo) 0 in
      let insn := macro_index mo (INSERT_OPERAND (GEN_OPC (opc mo)) insn) in
      '(insn, r) ← macro_args (String.list_ascii_of_string fmt) args ep insn BFD_RELOC_UNUSED;
      _ ← gas_assert (if decide (r = BFD_RELOC_UNUSED) then bool_decide (ep = None)
                      else bool_decide (ep <> None));
      append_insn insn ep r
  end.

Definition set_number (e : expressionS) (n : Z) : expressionS :=
  mk_expr (X_add_symbol e) (X_op_symbol e) n (X_op e).

Definition not64 (x : Z) : Z := s64 (Z.lnot x).

Definition IS_SEXT_32BIT_NUM (x : Z) : bool :=
  (Z.land x (not64 0x7fffffff) =? 0) || (Z.land x (not64 0x7fffffff) =? not64 0x7fffffff).

Definition IS_ZEXT_32BIT_NUM (x : Z) : bool :=
  (Z.land x (not64 0xffffffff) =? 0) || (Z.land x (not64 0x7fffffff) =? not64 0xffffffff).

Definition fusion_call (tmp : Z) (ep : expressionS) : M unit :=
  let lower := set_number ep (Z.land (s32 (X_add_number ep)) 0x0000ffff) in
  let upper := set_number ep (s64 (X_add_number ep - X_add_number lower)) in
  _ ← macro_build (Some upper) "lui" "d,i" [Mint tmp; Mreloc BFD_RELOC_FUSION_HI16];
  _ ← macro_build (Some lower) "jrl" "a,j" [Mint tmp; Mreloc BFD_RELOC_FUSION_21];
  mret tt.

Definition fusion_return (ep : expressionS) : M unit :=
  _ ← macro_build (Some (set_number ep 0)) "jr" "a,j" [Mint 4; Mreloc BFD_RELOC_FUSION_21];
  mret tt.

(** Both instructions are built from [ep] itself, as the code has it. *)
Definition load_const (reg : Z) (ep : expressionS) : M unit :=
  let lower := Z.land (u32 (X_add_number ep)) 0xffff in
  let upper := s64 (X_add_number ep - lower) in
  if negb (bool_decide (X_op ep = O_constant)) then as_bad "unsupported large constant" else
  '(hi_reg, ep) ← (if negb (upper =? 0) then
                     e ← macro_build (Some ep) "lui" "d, u" [Mint reg; Mreloc BFD_RELOC_FUSION_HI16];
                     mret (reg, e)
                   else mret (0, Some ep));
  if negb (lower =? 0) || (hi_reg =? 0) then
    _ ← macro_build ep "li" "d, u" [Mint reg; Mreloc BFD_RELOC_16]; mret tt
  else mret tt.

Definition load_address (reg : Z) (ep : expressionS) : M unit :=
  ep ← (if bool_decide (X_op ep = O_constant) || bool_decide (X_op ep = O_symbol) then mret ep else
        _ ← as_bad "expression should be constant or symbol. can't knock on a door without an address. \n No loading in a red zone.";
        mret (mk_expr (X_add_symbol ep) (X_op_symbol ep) (X_add_number ep) O_constant));
  if bool_decide (X_op ep = O_constant) then load_const reg ep
  else if IS_SEXT_32BIT_NUM (X_add_number ep) then
    ep ← macro_build (Some ep) "lui" "d,i" [Mint reg; Mreloc BFD_RELOC_FUSION_HI16];
    _ ← macro_build ep "lni" "d,i" [Mint reg; Mreloc BFD_RELOC_16];
    mret tt
  else mret tt.

Definition macro (ip : fusion_cl_insn) (imm_expr : expressionS) : M unit :=
  let rd := GET_RD (insn_word ip) in
  if negb (cpid (insn_mo ip) =? CPID_MACRO) then as_bad "Not a macro, broken assembler"
  else
    let macro_id := index (insn_mo ip) in
    if macro_id =? M_LA then load_address rd imm_expr
    else if macro_id =? M_CALL then fusion_call 22 imm_expr
    else if macro_id =? M_RET then fusion_return imm_expr
    else as_bad "Macro %s not implemented".

(** ** One line *)
Definition normalize_constant_expr (ex : expressionS) : expressionS :=
  if (bool_decide (X_op ex = O_constant) || bool_decide (X_op ex = O_symbol))
     && IS_ZEXT_32BIT_NUM (X_add_number ex)
  then set_number ex (Z.lxor (Z.land (X_add_number ex) 0xffffffff) 0x80000000 - 0x80000000)
  else ex.

Definition check_absolute_expr (ex : expressionS) : M expressionS :=
  _ ← (if decide (X_op ex = O_big) then as_bad "unsupported large constand; dat num too numb"
       else if decide (X_op ex = O_constant) then mret tt
       else as_bad "instruction %s requires absolute expression; get that outa here");
  mret (normalize_constant_expr ex).

Definition jump_reloc (insn : fusion_opc_info_t) : M bfd_reloc_code_real :=
  if cpid insn =? CPID_MACRO then mret BFD_RELOC_FUSION_21
  else if index insn =? 0 then mret BFD_RELOC_FUSION_21_PCREL
  else if index insn =? 1 then mret BFD_RELOC_FUSION_21
  else as_fatal "What did you do?? That jump insn can't have a third option in whether it uses regs or not".

Definition return_reloc (insn : fusion_opc_info_t) : M bfd_reloc_code_real :=
  let o := opc insn in
  if o =? OPC_INT then mret BFD_RELOC_UNUSED
  else if o =? OPC_IMM then mret BFD_RELOC_FUSION_12
  else if o =? OPC_LD then mret BFD_RELOC_FUSION_LOAD
  else if o =? OPC_ST then mret BFD_RELOC_FUSION_STORE
  else if o =? OPC_LI then
    let dsel := index insn in
    if (dsel =? 3) || (dsel =? 4) || (dsel =? 5) || (dsel =? 11) || (dsel =? 12) || (dsel =? 13)
    then mret BFD_RELOC_FUSION_HI16 else mret BFD_RELOC_16
  else if o =? OPC_JMP then jump_reloc insn
  else if o =? OPC_JLNK then jump_reloc insn
  else if o =? OPC_BRANCH then mret BFD_RELOC_FUSION_14_PCREL
  else if o =? OPC_SYS then
    if imm_mask insn =? MASK_NO_IMM then mret BFD_RELOC_UNUSED else mret BFD_RELOC_8
  else if o =? 0 then mret BFD_RELOC_UNUSED
  else _ ← as_bad "Unknown opcode, how did you manage that?: %s"; mret BFD_RELOC_UNUSED.

(** [Rd], [RSa], [RSb], [imm] and [*imm_expr]. *)
Definition operands : Type := Z * Z * Z * Z * expressionS.

(** [imm_expr->X_op = O_absent]; its other fields are read only after
    [expression] or [fusion_return] has set them. *)
Definition absent : expressionS := mk_expr None None 0 O_absent.

Definition parse_no_imm (args str : Z) : M operands :=
  if args =? USE_NONE then
    p ← SKIP_SPACE_TABS str; _ ← warn_rest p; mret (0, 0, 0, 0, absent)
  else if args =? USE_RDAB then
    '(rd, rsa, rsb) ← parse_rdab str; mret (rd, rsa, rsb, 0, absent)
  else if args =? USE_RDA then
    '(rd, rsa) ← parse_rda str; mret (rd, rsa, 0, 0, absent)
  else if args =? USE_RAB then
    '(rsa, rsb) ← parse_rab str; mret (0, rsa, rsb, 0, absent)
  else mret (0, 0, 0, 0, absent).

(** An [args] with no [case], such as [USE_RDA], parses nothing. *)
Definition parse_with_imm (mo : fusion_opc_info_t) (str : Z) (reloc : bfd_reloc_code_real)
  : M operands :=
  let args := args mo in
  if args =? USE_RDAI then
    '(rd, rsa, imm, _, e) ← parse_rdai str reloc; mret (rd, rsa, 0, imm, e)
  else if args =? USE_RDI then
    '(rd, imm, _, e) ← parse_rdi str reloc; mret (rd, 0, 0, imm, e)
  else if args =? USE_RAI then
    '(rsa, imm, _, e) ← parse_rai str reloc; mret (0, rsa, 0, imm, e)
  else if args =? USE_RABI then
    '(rsa, rsb, imm, _, e) ← parse_rabi str reloc; mret (0, rsa, rsb, imm, e)
  else if args =? USE_RDAI_O then
    '(rd, rsa, imm, e) ← parse_rdai_offset str reloc; mret (rd, rsa, 0, imm, e)
  else if args =? USE_RAI_O then
    '(rsa, imm, e) ← parse_rai_offset str reloc mo; mret (0, rsa, 0, imm, e)
  else if args =? USE_RABI_O then
    '(rsa, rsb, imm, e) ← parse_rabi_offset str reloc; mret (0, rsa, rsb, imm, e)
  else if args =? USE_I then
    '(imm, p, e) ← parse_imm str reloc;
    p ← SKIP_SPACE_TABS p; _ ← peek p; mret (0, 0, 0, imm, e)
  else mret (0, 0, 0, 0, absent).

(** The [switch (opc)] that builds the word: the word, the expression and the
    relocation. *)
Definition build_word (mo : fusion_opc_info_t) (ops : operands) (reloc : bfd_reloc_code_real)
  : M (Z * expressionS * bfd_reloc_code_real) :=
  let '(Rd, RSa, RSb, imm, e) := ops in
  let o := opc mo in
  if o =? OPC_INT then mret (MAKE_R_TYPE Rd RSa RSb 0 (index mo), e, reloc)
  else if o =? OPC_IMM then
    e ← check_absolute_expr e; mret (MAKE_I_TYPE Rd RSa imm (index mo), e, reloc)
  else if o =? OPC_LD then mret (MAKE_L_TYPE Rd RSa (index mo) imm, e, reloc)
  else if o =? OPC_ST then mret (MAKE_S_TYPE (index mo) RSa RSb imm, e, reloc)
  else if o =? OPC_LI then mret (MAKE_LI_TYPE Rd (index mo) imm, e, reloc)
  else if o =? OPC_JMP then
    mret (MAKE_J_TYPE RSa imm, e, if negb (RSa =? 0) then BFD_RELOC_FUSION_21 else reloc)
  else if o =? OPC_JLNK then
    mret (MAKE_JL_TYPE RSa imm, e, if negb (RSa =? 0) then BFD_RELOC_FUSION_21 else reloc)
  else if o =? OPC_BRANCH then mret (MAKE_B_TYPE RSa RSb imm (index mo), e, reloc)
  else if o =? OPC_SYS then mret (MAKE_SYS_TYPE Rd RSa (index mo) imm, e, reloc)
  else if o =? 0 then mret (0, e, reloc)
  else _ ← as_bad "Unknown opcode, how did you manage that?: %s"; mret (0, e, reloc).

(** [None] is the return value [FALSE]. *)
Definition assemble_insn_bin (str : Z) (ip : fusion_cl_insn)
  : M (option (fusion_cl_insn * expressionS * bfd_reloc_code_real)) :=
  let insn := insn_mo ip in
  reloc ← return_reloc insn;
  if CPID_MAX <? cpid insn then
    _ ← as_bad "Unknown co-processor instruction: %s"; mret None
  else if (cpid insn =? CPID_MAIN) || (cpid insn =? CPID_MACRO) then
    if MAX_USE_OP <? args insn then
      _ ← as_bad "Incorrect arguments, what did you do? insn: %s"; mret None
    else
      ops ← (if imm_mask insn =? MASK_NO_IMM then
               ops ← parse_no_imm (args insn) str;
               let '(Rd, RSa, RSb, _, _) := ops in
               if (Rd =? -1) || (RSa =? -1) || (RSb =? -1) then
                 _ ← as_bad "unknown register used %s"; mret None
               else mret (Some ops)
             else ops ← parse_with_imm insn str reloc; mret (Some ops));
      match ops with
      | None => mret None
      | Some ops =>
          '(w, e, reloc) ← build_word insn ops reloc;
          mret (Some (set_word ip w, e, reloc))
      end
  else _ ← as_bad "No co-processor instructions exist yet, don't know what this is: %s"; mret None.

(** The C string at [p]. *)
Fixpoint cstring_loop (fuel : nat) (p : Z) : M string :=
  match fuel with
  | O => fail Floop
  | S n =>
      c ← peek p;
      if c =? 0 then mret EmptyString else
      s ← cstring_loop n (p + 1);
      mret (String (Ascii.ascii_of_N (Z.to_N (c mod 256))) s)
  end.

Definition cstring (p : Z) : M string :=
  fun g => cstring_loop (S (Z.to_nat (Z.of_nat (length (buffer g)) - p))) p g.

(** The character that ends the mnemonic. *)
Definition ends_mnemonic (c : Z) : bool :=
  (c =? 0) || is_end_of_line (Z.land c 0xff) || (c =? chr " "%char).

Definition md_assemble (str : Z) : M unit :=
  op_start ← SKIP_SPACE_TABS str;
  op_end ← skip_while (fun c => negb (ends_mnemonic c)) op_start;
  pend ← peek op_end;
  _ ← poke op_end 0;
  _ ← when (op_end - op_start =? 0) (as_bad "couldn't find instruction");
  nm ← cstring op_start;
  insn ← find_insn nm;
  _ ← poke op_end pend;
  match insn with
  | None => as_bad "Unknown instruction: %s"
  | Some insn =>
      r ← assemble_insn_bin op_end (create_insn insn);
      match r with
      | None => as_bad "Couldn't assemble instruction:%s"
      | Some (ip, imm_expr, imm_reloc) =>
          _ ← (if cpid (insn_mo ip) =? CPID_MACRO then macro ip imm_expr
               else if cpid (insn_mo ip) =? CPID_MAIN then
                 _ ← append_insn ip (Some imm_expr) imm_reloc; mret tt
               else as_fatal "Unimplemented CPID");
          pending ← gets pending_reloc;
          when (negb (pending =? 0)) (as_warn "something forgot to clean up ooooooh\n")
      end
  end.

End asm.

(** ** The tables [md_begin] builds *)

Lemma lift_ret {A B : Type} (r : res A) (a : A) (k : A -> M B) (g : gas) :
  r = Ret a -> (x ← lift r; k x) g = k a g.
Proof. intros ->. reflexivity. Qed.

(** The keys of [kvs] are new to the table, and the table ends with them added. *)
Definition adds {V : Type} (m m' : gmap string V) (kvs : list (string * V)) : Prop :=
  (forall k v, (k, v) ∈ kvs -> m' !! k = Some v) /\
  (forall k, k ∉ kvs.*1 -> m' !! k = m !! k).

Lemma adds_nil {V : Type} (m : gmap string V) : adds m m [].
Proof. split; [|done]. intros k v H. by apply not_elem_of_nil in H. Qed.

Lemma adds_cons {V : Type} (m m' : gmap string V) (k : string) (v : V) (kvs : list (string * V)) :
  k ∉ kvs.*1 -> adds (<[k := v]> m) m' kvs -> adds m m' ((k, v) :: kvs).
Proof.
  intros Hk [H1 H2]. split.
  - intros k' v' [H|H]%elem_of_cons; [|by apply H1].
    injection H as -> ->. by rewrite H2, lookup_insert_eq.
  - intros k' [Hne Hk']%not_elem_of_cons. cbn in Hne. rewrite H2 by done. by rewrite lookup_insert_ne.
Qed.

(** The keys are distinct and none is in the table. *)
Definition fresh {V : Type} (m : gmap string V) (kvs : list (string * V)) : Prop :=
  NoDup kvs.*1 /\ forall k, k ∈ kvs.*1 -> m !! k = None.

Lemma fresh_cons {V : Type} (m : gmap string V) (k : string) (v : V) (kvs : list (string * V)) :
  fresh m ((k, v) :: kvs) -> m !! k = None /\ (k ∉ kvs.*1) /\ fresh (<[k := v]> m) kvs.
Proof.
  intros [Hn Hf]. cbn in Hn. apply NoDup_cons in Hn as [Hk Hn]. split_and!; [|done|].
  - apply Hf. apply list_elem_of_here.
  - split; [done|]. intros k' Hk'. rewrite lookup_insert_ne; [|congruence].
    apply Hf. by apply list_elem_of_further.
Qed.

Definition insn_keys (l : list fusion_opc_info_t) : list (string * option fusion_opc_info_t) :=
  omap (fun e => match name e with Some nm => Some (nm, Some e) | None => None end) (until_null l).

Lemma skip_same_none (nm : string) (l : list fusion_opc_info_t) (g : gas) :
  Exists (fun e => name e = None) l -> nm ∉ ((insn_keys l).*1) -> skip_same nm l g = Ret (l, g).
Proof.
  intros He Hk. destruct l as [|e l]; [by apply Exists_nil in He|]. cbn in *.
  unfold insn_keys in Hk. cbn in Hk. destruct (name e) as [n|] eqn:Hn; [|done].
  cbn in Hk. rewrite Hn in Hk. cbn in Hk. apply not_elem_of_cons in Hk as [Hk _].
  by rewrite decide_False.
Qed.

Lemma hash_insns_ok (fuel : nat) (l : list fusion_opc_info_t) (g : gas) :
  (length l <= fuel)%nat -> Exists (fun e => name e = None) l ->
  hash_ok (op_hash_ctrl g) -> fresh (hash_map (op_hash_ctrl g)) (insn_keys l) ->
  exists t, hash_insns fuel l g = Ret (tt, set_op_hash t g) /\ hash_ok t
    /\ adds (hash_map (op_hash_ctrl g)) (hash_map t) (insn_keys l).
Proof.
  revert fuel g. induction l as [|e l IH]; intros fuel g Hf He Hok Hfr; [by apply Exists_nil in He|].
  destruct fuel as [|fuel]; [cbn in Hf; lia|]. cbn [hash_insns].
  destruct (name e) as [nm|] eqn:Hn.
  - assert (Hkeys : insn_keys (e :: l) = (nm, Some e) :: insn_keys l).
    { unfold insn_keys. cbn. rewrite Hn. cbn. by rewrite Hn. }
    rewrite Hkeys in *. apply fresh_cons in Hfr as (Hnone & Hnk & Hfr).
    apply Exists_cons in He as [He|He]; [congruence|].
    destruct (hash_insert_spec (op_hash_ctrl g) nm (Some e) Hok) as (t & Hok' & Hins).
    rewrite Hnone in Hins. destruct Hins as [Hins Hmap].
    erewrite mbind_ret; [|reflexivity]. rewrite (lift_ret _ _ _ _ Hins). cbv beta iota.
    erewrite mbind_ret; [|reflexivity]. cbn [validate_fusion_insn].
    rewrite (mbind_ret _ _ _ _ _ (skip_same_none nm l _ He Hnk)).
    destruct (IH fuel (set_op_hash t g)) as (t' & Hr & Hok2 & Hadd);
      [cbn in Hf; lia|done|done|cbn; by rewrite Hmap|].
    exists t'. split; [exact Hr|]. split; [done|]. cbn in Hadd. rewrite Hmap in Hadd.
    by apply adds_cons.
  - exists (op_hash_ctrl g). split; [|split; [done|]].
    + unfold mret, M_ret. do 2 f_equal. by destruct g.
    + unfold insn_keys. cbn. rewrite Hn. apply adds_nil.
Qed.

Fixpoint reg_keys (names : list string) (i : Z) : list (string * Z) :=
  match names with
  | [] => []
  | w :: ws => (w, ENCODE_REG_HASH REGF_GPR i) :: reg_keys ws (i + 1)
  end.

Lemma hash_reg_names_ok (names : list string) (i : Z) (g : gas) :
  hash_ok (reg_names_hash g) -> fresh (hash_map (reg_names_hash g)) (reg_keys names i) ->
  exists t, hash_reg_names REGF_GPR names i g = Ret (tt, set_reg_hash t g) /\ hash_ok t
    /\ adds (hash_map (reg_names_hash g)) (hash_map t) (reg_keys names i).
Proof.
  revert i g. induction names as [|w ws IH]; intros i g Hok Hfr.
  - exists (reg_names_hash g). split; [|split; [done|apply adds_nil]].
    cbn. unfold mret, M_ret. do 2 f_equal. by destruct g.
  - cbn [reg_keys hash_reg_names] in *. apply fresh_cons in Hfr as (Hnone & Hnk & Hfr).
    destruct (hash_insert_spec (reg_names_hash g) w (ENCODE_REG_HASH REGF_GPR i) Hok) as (t & Hok' & Hins).
    rewrite Hnone in Hins. destruct Hins as [Hins Hmap].
    assert (hash_reg_name REGF_GPR w i g = Ret (tt, set_reg_hash t g)) as Hone.
    { unfold hash_reg_name. erewrite mbind_ret; [|reflexivity]. rewrite (lift_ret _ _ _ _ Hins).
      cbv beta iota. by erewrite mbind_ret; [|reflexivity]. }
    rewrite (mbind_ret _ _ _ _ _ Hone).
    destruct (IH (i + 1) (set_reg_hash t g)) as (t' & Hr & Hok2 & Hadd);
      [done|cbn; by rewrite Hmap|].
    exists t'. split; [exact Hr|]. split; [done|]. cbn in Hadd. rewrite Hmap in Hadd.
    by apply adds_cons.
Qed.

Lemma fresh_empty {V : Type} (kvs : list (string * V)) : NoDup kvs.*1 -> fresh ∅ kvs.
Proof. intros H. split; [done|]. intros k _. apply lookup_empty. Qed.

Lemma insn_keys_nodup : NoDup (insn_keys fusion_insn_all).*1.
Proof. apply (bool_decide_unpack _). vm_compute. exact I. Qed.

Definition all_reg_keys : list (string * Z) :=
  reg_keys fusion_gpreg_name 0 ++ reg_keys fusion_gpreg_num 0.

Lemma all_reg_keys_nodup : NoDup all_reg_keys.*1.
Proof. apply (bool_decide_unpack _). vm_compute. exact I. Qed.

Lemma reg_keys_lookup (names : list string) (i : Z) (k : nat) (w : string) :
  names !! k = Some w -> (w, ENCODE_REG_HASH REGF_GPR (i + Z.of_nat k)) ∈ reg_keys names i.
Proof.
  revert i k. induction names as [|x ws IH]; intros i k Hk; [done|].
  destruct k as [|k]; cbn in Hk |- *.
  - injection Hk as ->. rewrite Z.add_0_r. apply list_elem_of_here.
  - apply list_elem_of_further. replace (i + Z.of_nat (S k)) with (i + 1 + Z.of_nat k) by lia.
    by apply IH.
Qed.

Lemma insn_keys_in (e : fusion_opc_info_t) (nm : string) (l : list fusion_opc_info_t) :
  e ∈ until_null l -> name e = Some nm -> (nm, Some e) ∈ insn_keys l.
Proof. intros He Hn. unfold insn_keys. apply list_elem_of_omap. exists e. by rewrite Hn. Qed.

Lemma insn_keys_names : (insn_keys fusion_insn_all).*1 = insn_names.
Proof. vm_compute. reflexivity. Qed.

(** What [md_begin] leaves in the tables. *)
Record tables_ok (g : gas) : Prop := {
  to_op : hash_ok (op_hash_ctrl g);
  to_reg : hash_ok (reg_names_hash g);
  to_insn : forall e nm, e ∈ until_null fusion_insn_all -> name e = Some nm ->
    hash_map (op_hash_ctrl g) !! nm = Some (Some e);
  to_no_insn : forall nm, nm ∉ insn_names -> hash_map (op_hash_ctrl g) !! nm = None;
  to_regs : forall (n : nat) w,
    fusion_gpreg_name !! n = Some w \/ fusion_gpreg_num !! n = Some w ->
    hash_map (reg_names_hash g) !! w = Some (ENCODE_REG_HASH REGF_GPR (Z.of_nat n));
  to_no_reg : forall w, w ∉ fusion_gpreg_name ++ fusion_gpreg_num ->
    hash_map (reg_names_hash g) !! w = None
}.

Lemma all_reg_keys_names : all_reg_keys.*1 = fusion_gpreg_name ++ fusion_gpreg_num.
Proof. vm_compute. reflexivity. Qed.

(** The two register lists go in one after the other. *)
Lemma both_reg_names (g : gas) :
  hash_ok (reg_names_hash g) -> hash_map (reg_names_hash g) = ∅ ->
  exists t, (_ ← hash_reg_names REGF_GPR fusion_gpreg_name 0;
             hash_reg_names REGF_GPR fusion_gpreg_num 0) g = Ret (tt, set_reg_hash t g)
    /\ hash_ok t /\ adds ∅ (hash_map t) all_reg_keys.
Proof.
  intros Hok Hm. pose proof all_reg_keys_nodup as Hnd. unfold all_reg_keys in *.
  rewrite fmap_app in Hnd. apply NoDup_app in Hnd as (Hn1 & Hn2 & Hn3).
  destruct (hash_reg_names_ok fusion_gpreg_name 0 g Hok) as (t1 & R1 & O1 & [A1 B1]).
  { rewrite Hm. by apply fresh_empty. }
  rewrite (mbind_ret _ _ _ _ _ R1). rewrite Hm in B1.
  destruct (hash_reg_names_ok fusion_gpreg_num 0 (set_reg_hash t1 g) O1) as (t2 & R2 & O2 & [A2 B2]).
  { split; [done|]. intros k Hk. cbn [reg_names_hash set_reg_hash].
    rewrite B1; [apply lookup_empty|]. intros Hk'. exact (Hn2 k Hk' Hk). }
  exists t2. split; [exact R2|]. split; [done|]. split.
  - intros k v [H|H]%elem_of_app; [|by apply A2].
    rewrite B2; [by apply A1|]. apply Hn2. apply list_elem_of_fmap. by exists (k, v).
  - intros k Hk. rewrite fmap_app in Hk. apply not_elem_of_app in Hk as [H1 H2].
    rewrite B2 by done. by apply B1.
Qed.

(** The table is large: it must not be computed by conversion. *)
#[local] Opaque hash_new_sized.

Lemma md_begin_ok (arch_ok : bool) (g : gas) :
  exists g', md_begin arch_ok g = Ret (tt, g') /\ tables_ok g'
    /\ frags g' = frags g /\ frch_obstack g' = frch_obstack g /\ fixes g' = fixes g
    /\ buffer g' = buffer g /\ pending_reloc g' = pending_reloc g
    /\ symtab g' = symtab g /\ xst g' = xst g.
Proof.
  assert (Hsz : 0 < gas_hash_table_size < 2 ^ 32) by done. unfold md_begin.
  destruct (hash_new_ok (V := option fusion_opc_info_t) gas_hash_table_size Hsz) as [Ho Hm].
  destruct (hash_new_ok (V := Z) gas_hash_table_size Hsz) as [Ho' Hm'].
  set (g0 := if arch_ok then g else set_log (log g ++ [Warn "Couldn't set architecture and machine"]) g).
  rewrite (mbind_ret _ _ g g0 tt); [|by destruct arch_ok].
  erewrite mbind_ret; [|reflexivity].
  destruct (hash_insns_ok (length fusion_insn_all) fusion_insn_all (set_op_hash hash_new g0))
    as (t & R1 & O1 & [A1 B1]); [done| |exact Ho| |].
  { apply Exists_exists. exists (mk_opc None 0 0 0 0 0 0). split; [|done].
    apply (bool_decide_unpack _). vm_compute. exact I. }
  { cbn [op_hash_ctrl set_op_hash]. unfold hash_new. rewrite Hm. apply fresh_empty, insn_keys_nodup. }
  rewrite (mbind_ret _ _ _ _ _ R1). erewrite mbind_ret; [|reflexivity].
  destruct (both_reg_names (set_reg_hash hash_new (set_op_hash t (set_op_hash hash_new g0))) Ho' Hm')
    as (t' & R2 & O2 & [A2 B2]).
  eexists. split; [exact R2|].
  split; [|subst g0; clear; destruct arch_ok; split_and!; reflexivity].
  clear R1 R2. cbn [op_hash_ctrl set_op_hash] in A1, B1. unfold hash_new in B1. rewrite Hm in B1.
  split; cbn [op_hash_ctrl reg_names_hash set_op_hash set_reg_hash]; [done|done| | | |].
  - intros e nm He Hn. by apply A1, insn_keys_in.
  - intros nm Hnm. rewrite B1; [apply lookup_empty|]. by rewrite insn_keys_names.
  - intros n w [Hw|Hw]; apply A2, elem_of_app; [left|right];
      by apply (reg_keys_lookup _ 0 n w Hw).
  - intros w Hw. rewrite B2; [apply lookup_empty|]. by rewrite all_reg_keys_names.
Qed.

Lemma decode_reg (n : nat) :
  (n < 32)%nat -> let h := ENCODE_REG_HASH REGF_GPR (Z.of_nat n) in
  (h =? 0) = false /\ DECODE_REG_FILE h = REGF_GPR /\ DECODE_REG_NUM h = Z.of_nat n.
Proof. intros Hn. do 32 (destruct n as [|n]; [by split_and!|]). lia. Qed.

Lemma reg_lookup_ok (g : gas) (s : string) :
  tables_ok g ->
  exists t, hash_ok t /\ hash_map t = hash_map (reg_names_hash g) /\
  reg_lookup_internal s REGF_GPR g
  = Ret (match hash_map (reg_names_hash g) !! s with
         | Some r => if (r =? 0) || negb (DECODE_REG_FILE r =? REGF_GPR) then u32 (-1)
                     else u32 (DECODE_REG_NUM r)
         | None => u32 (-1) end, set_reg_hash t g).
Proof.
  intros Ht. destruct (hash_find_spec 0 (reg_names_hash g) s (to_reg g Ht)) as (t & Hf & Hok & Hm).
  exists t. split; [done|]. split; [done|]. unfold reg_lookup_internal.
  erewrite mbind_ret; [|reflexivity]. rewrite (lift_ret _ _ _ _ Hf). cbv beta iota.
  erewrite mbind_ret; [|reflexivity]. unfold mret, M_ret. do 3 f_equal.
  by destruct (hash_map (reg_names_hash g) !! s).
Qed.

(** [md_begin] never stops on its "can't hash" errors: it always returns, with
    every mnemonic of [fusion_insn_all] bound to its own table entry and no other
    word, and with the 32 names and the 32 [R] numbers bound to the registers:
    after it [tc_fusion_regname_to_dw2regnum] gives each of those 64 strings the
    register's number, without a diagnostic, and every other string -1 with an
    error. *)
Theorem md_begin_tables (arch_ok : bool) (g : gas) :
  exists g', md_begin arch_ok g = Ret (tt, g') /\ tables_ok g' /\ frags g' = frags g
    /\ (forall (n : nat) w, fusion_gpreg_name !! n = Some w \/ fusion_gpreg_num !! n = Some w ->
          exists g'', tc_fusion_regname_to_dw2regnum w g' = Ret (Z.of_nat n, g'') /\ log g'' = log g')
    /\ (forall w, w ∉ fusion_gpreg_name ++ fusion_gpreg_num ->
          exists g'', tc_fusion_regname_to_dw2regnum w g' = Ret (-1, g'')
            /\ log g'' = log g' ++ [Bad "unknown register `%s'"]).
Proof.
  destruct (md_begin_ok arch_ok g) as (g' & H & Ht & Hf & _). exists g'.
  split; [exact H|]. split; [done|]. split; [done|]. unfold tc_fusion_regname_to_dw2regnum. split.
  - intros n w Hw. destruct (reg_lookup_ok g' w Ht) as (t & _ & _ & Hr).
    rewrite (to_regs g' Ht n w Hw) in Hr.
    assert (Hn : (n < 32)%nat) by (destruct Hw as [Hw|Hw]; apply lookup_lt_Some in Hw; exact Hw).
    destruct (decode_reg n Hn) as (D1 & D2 & D3). rewrite D1, D2, D3 in Hr. cbn [orb negb] in Hr.
    rewrite Z.eqb_refl in Hr. rewrite (mbind_ret _ _ _ _ _ Hr).
    assert (s32 (u32 (Z.of_nat n)) = Z.of_nat n) as -> by wrap64.
    rewrite (proj2 (Z.leb_le _ _)) by lia. eexists. split; [reflexivity|done].
  - intros w Hw. destruct (reg_lookup_ok g' w Ht) as (t & _ & _ & Hr).
    rewrite (to_no_reg g' Ht w Hw) in Hr. rewrite (mbind_ret _ _ _ _ _ Hr).
    eexists. split; [reflexivity|done].
Qed.

(** ** Emitting a word *)

(** The four bytes of a word as the target stores them. *)
Definition be32 (w : Z) : list Z := [byte_of w 3; byte_of w 2; byte_of w 1; byte_of w 0].

Lemma wr_app (l r : list Z) (k : nat) (v : Z) :
  (k < length r)%nat -> wr (l ++ r) (Z.of_nat (length l) + Z.of_nat k) v = Ret (l ++ <[k := v]> r).
Proof.
  intros Hk. rewrite wr_ret by (rewrite length_app; lia).
  replace (Z.to_nat (Z.of_nat (length l) + Z.of_nat k)) with (length l + k)%nat by lia.
  by rewrite insert_app_r.
Qed.

Lemma be32_store (l r : list Z) (w : Z) :
  length r = 4%nat ->
  md_number_to_chars (l ++ r) (Z.of_nat (length l)) w 4 = Ret (l ++ be32 w).
Proof.
  intros Hr. do 4 (destruct r as [|? r]; [done|]). destruct r; [|done].
  unfold md_number_to_chars, number_to_chars_bigendian. cbn [Z.leb Z.compare].
  change (Z.to_nat 4) with 4%nat. cbn [chars_big_loop].
  do 4 (rewrite wr_app by (cbn; lia); cbn [rbind]). cbn [list_insert insert].
  unfold be32, byte_of. rewrite !Z.shiftr_shiftr by lia. rewrite Z.shiftr_0_r. reflexivity.
Qed.

(** The fields of a fixup for an absent, a constant or a symbol expression. *)
Definition simple_expr (e : expressionS) : bool :=
  match X_op e with O_absent | O_constant | O_symbol => true | _ => false end.

Definition expr_sym (e : expressionS) : option symbolS :=
  match X_op e with O_symbol => X_add_symbol e | _ => None end.

Definition expr_off (e : expressionS) : Z :=
  match X_op e with O_absent => 0 | _ => X_add_number e end.

Definition new_fix (g : gas) (e : expressionS) (r : bfd_reloc_code_real) (frag : option nat)
    (where_ : Z) : fixS :=
  mk_fix false 0 false false false 4 frag where_ (expr_sym e) None (u64 (expr_off e))
    (dot_value g) (dot_frag g) r 0.

Lemma fix_new_exp_simple (frag : option nat) (where_ : Z) (e : expressionS)
    (r : bfd_reloc_code_real) (g : gas) :
  simple_expr e = true ->
  fix_new_exp frag where_ 4 e false r g
  = Ret ((length (fixes g), e), set_fixes (fixes g ++ [new_fix g e r frag where_]) g).
Proof.
  unfold fix_new_exp, simple_expr, new_fix, expr_sym, expr_off. by destruct (X_op e).
Qed.

(** [g'] is [g] with the word [w] assembled at the end, and the fixups [fx]
    recorded for it. *)
Record emitted (g g' : gas) (w : Z) (fx : list fixS) : Prop := {
  em_image : image (frags g') = image (frags g) ++ be32 w;
  em_ext : chain_ext (frags g) (frags g');
  em_ok : frags_ok g';
  em_fixes : fixes g' = fixes g ++ fx;
  em_rest : g' = set_fixes (fixes g') (set_frags (frags g') (frch_obstack g') g);
  em_at : Forall (fun f => exists i x l, fx_frag f = Some i /\ frags g' !! i = Some x
                     /\ fr_literal x = l ++ be32 w /\ fx_where f = Z.of_nat (length l)) fx
}.

Lemma install_at (g : gas) (fs : list frag) (x : frag) (l r : list Z) (ip : fusion_cl_insn) :
  frags g = fs ++ [x] -> fr_literal x = l ++ r -> length r = 4%nat ->
  insn_frag ip = Some (length fs) -> frag_offset ip = Z.of_nat (length l) ->
  install_insn ip g
  = Ret (tt, set_frags (fs ++ [mk_frag (fr_address x) (fr_fix x) (fr_var x) (fr_offset x)
                                 (fr_type x) (l ++ be32 (insn_word ip))]) (frch_obstack g) g).
Proof.
  intros Hfs Hx Hr Hf Ho. unfold install_insn. rewrite Hf, Ho.
  rewrite (mbind_ret _ _ _ _ _ (get_frag_last g fs x Hfs)).
  rewrite Hx, (lift_ret _ _ _ _ (be32_store l r (insn_word ip) Hr)).
  by apply (put_frag_last g fs x).
Qed.

Section emit.
  Context {expr_parser : ExprParser} (junk : Z).

(** A fixup list with its last element moved. *)
Lemma alter_last {A : Type} (f : A -> A) (l : list A) (x : A) :
  alter f (length l) (l ++ [x]) = l ++ [f x].
Proof.
  rewrite <- (Nat.add_0_r (length l)). by rewrite alter_app_r.
Qed.

Lemma add_fixed_insn_ok (ip : fusion_cl_insn) (g : gas) (fx : list fixS) (xs : list fixS) :
  frags_ok g -> fixes g = xs ++ fx ->
  (fixptr ip = None /\ fx = [] \/ fixptr ip = Some (length xs) /\ length fx = 1%nat) ->
  exists g' ip' i l x,
    (ip1 ← add_fixed_insn junk ip; _ ← install_insn ip1; mret ip1) g = Ret (ip', g')
    /\ frags g' !! i = Some x /\ fr_literal x = l ++ be32 (insn_word ip)
    /\ emitted (set_fixes xs g) g' (insn_word ip)
         (move_fix (Some i) (Z.of_nat (length l)) <$> fx).
Proof.
  intros Hok Hfix Hcase.
  destruct (frag_more_ok junk 4 g ltac:(lia) Hok) as (g1 & fs & x & l & R1 & F1 & L1 & I1 & C1 & O1 & K1).
  assert (Hfx1 : fixes g1 = fixes g) by (rewrite O1; done).
  set (ip1 := mk_insn (insn_mo ip) (insn_word ip) (Some (length fs)) (Z.of_nat (length l)) (fixptr ip)).
  set (fx' := move_fix (Some (length fs)) (Z.of_nat (length l)) <$> fx).
  set (g2 := set_fixes (xs ++ fx') g1).
  assert (R2 : (match fixptr ip with
       | Some i => modify (fun g => set_fixes (alter (move_fix (Some (length fs)) (Z.of_nat (length l))) i (fixes g)) g)
       | None => mret tt end) g1 = Ret (tt, g2)).
  { destruct Hcase as [[-> ->]|[-> Hl]].
    - unfold mret, M_ret. do 2 f_equal. subst g2 fx'. cbn. rewrite app_nil_r in Hfix |- *.
      rewrite <- Hfix, <- Hfx1. by destruct g1.
    - destruct fx as [|f [|]]; try done. unfold modify. do 2 f_equal. subst g2 fx'.
      by rewrite Hfx1, Hfix, alter_last. }
  set (y := mk_frag (fr_address x) (fr_fix x) (fr_var x) (fr_offset x) (fr_type x)
              (l ++ be32 (insn_word ip))).
  assert (R3 : install_insn ip1 g2 = Ret (tt, set_frags (fs ++ [y]) (frch_obstack g2) g2)).
  { by apply (install_at g2 fs x l (replicate (Z.to_nat 4) junk)). }
  set (g3 := set_frags (fs ++ [y]) (frch_obstack g2) g2) in *.
  assert (R4 : install_insn ip1 g3 = Ret (tt, g3)).
  { rewrite (install_at g3 fs y l (be32 (insn_word ip))); done. }
  exists g3, ip1, (length fs), l, y. split_and!.
  - erewrite mbind_ret; last first.
    { unfold add_fixed_insn. rewrite (mbind_ret _ _ _ _ _ R1).
      rewrite (mbind_ret _ _ _ _ _ (frag_now_last g1 fs x F1)).
      unfold move_insn. cbn [fixptr]. rewrite (mbind_ret _ _ _ _ _ R2).
      rewrite (mbind_ret _ _ _ _ _ R3). reflexivity. }
    by rewrite (mbind_ret _ _ _ _ _ R4).
  - cbn. rewrite lookup_app_r by lia. by rewrite Nat.sub_diag.
  - done.
  - split.
    + cbn [frags set_fixes set_frags g3]. rewrite image_snoc, I1. cbn [fr_literal y].
      by rewrite app_assoc.
    + cbn [frags set_fixes g3 set_frags]. apply C1; [done|]. by eexists.
    + destruct K1 as [_ K1]. split; [by exists fs, y|exact K1].
    + done.
    + subst g3 g2. cbn. rewrite O1. by destruct g.
    + subst fx'. apply Forall_fmap, Forall_true. intros f.
      exists (length fs), y, l. split; [done|]. split; [|done].
      cbn. rewrite lookup_app_r by lia. by rewrite Nat.sub_diag.
Qed.

(** The relocations an instruction can ask for: each has a 4-byte howto. *)
Definition insn_reloc (r : bfd_reloc_code_real) : bool :=
  match r with BFD_RELOC_NONE | BFD_RELOC_64 | BFD_RELOC_24 | BFD_RELOC_RVA | BFD_RELOC_UNUSED => false | _ => true end.

Lemma insn_reloc_howto (r : bfd_reloc_code_real) :
  insn_reloc r = true ->
  exists h, fusion_reloc_type_lookup r = Some h /\ bfd_get_reloc_size h = Ret 4.
Proof. destruct r; try done; intros _; eexists; split; reflexivity. Qed.

Lemma emitted_base (xs : list fixS) (g g' : gas) (w : Z) (fx : list fixS) :
  fixes g = xs -> emitted (set_fixes xs g) g' w fx -> emitted g g' w fx.
Proof. intros <-. by destruct g. Qed.

Definition fixes_for (g : gas) (e : expressionS) (r : bfd_reloc_code_real) (fx : list fixS) : Prop :=
  if decide (r = BFD_RELOC_UNUSED) then fx = []
  else exists i off, fx = [new_fix g e r (Some i) off].

Lemma append_insn_ok (mo : fusion_opc_info_t) (w : Z) (e : expressionS) (r : bfd_reloc_code_real)
    (g : gas) :
  frags_ok g -> simple_expr e = true -> r = BFD_RELOC_UNUSED \/ insn_reloc r = true ->
  exists g' fx, append_insn junk (mk_insn mo w None 0 None) (Some e) r g = Ret (Some e, g')
    /\ emitted g g' w fx /\ fixes_for g e r fx.
Proof.
  intros Hok He Hr. unfold append_insn, fixes_for.
  assert (Hbase : set_fixes (fixes g) g = g) by (by destruct g).
  destruct (decide (r = BFD_RELOC_UNUSED)) as [->|Hne].
  - destruct (add_fixed_insn_ok (mk_insn mo w None 0 None) g [] (fixes g) Hok)
      as (g' & ip' & i & l & x & Hrun & _ & _ & Hem); [by rewrite app_nil_r|by left|].
    exists g', []. rewrite Hbase in Hem. cbn in Hem. split; [|by split].
    erewrite mbind_ret; [|reflexivity]. cbv beta iota. revert Hrun.
    unfold mbind, M_bind, mret, M_ret.
    destruct (add_fixed_insn junk _ g) as [[ip1 g1]|]; [|done].
    destruct (install_insn ip1 g1) as [[[] g2]|]; [|done]. by intros [= -> ->].
  - destruct Hr as [|Hr]; [done|]. destruct (insn_reloc_howto r Hr) as (h & Hh & Hs).
    set (f := new_fix g e r None 0). set (g1 := set_fixes (fixes g ++ [f]) g).
    set (ip1 := mk_insn mo w None 0 (Some (length (fixes g)))).
    destruct (add_fixed_insn_ok ip1 g1 [f] (fixes g) Hok)
      as (g' & ip' & i & l & x & Hrun & _ & _ & Hem); [done|by right|].
    exists g', (move_fix (Some i) (Z.of_nat (length l)) <$> [f]). split_and!.
    + erewrite mbind_ret; last first.
      { rewrite Hh. erewrite mbind_ret; [|reflexivity]. rewrite (lift_ret _ _ _ _ Hs).
        cbn [insn_frag frag_offset]. rewrite (mbind_ret _ _ _ _ _ (fix_new_exp_simple None 0 e r g He)).
        reflexivity. }
      cbv beta iota. revert Hrun. fold f g1 ip1. cbn [insn_mo insn_word insn_frag frag_offset]. fold ip1.
      unfold mbind, M_bind, mret, M_ret.
      destruct (add_fixed_insn junk ip1 g1) as [[ip2 g2]|]; [|done].
      destruct (install_insn ip2 g2) as [[[] g3]|]; [|done]. by intros [= -> ->].
    + apply emitted_base with (fixes g); [done|].
      assert (set_fixes (fixes g) g1 = set_fixes (fixes g) g) as Hg1 by done.
      rewrite <- Hg1. exact Hem.
    + by exists i, (Z.of_nat (length l)).
Qed.
End emit.

(** ** The word of a line's operands *)

(** The instruction a table entry and its operands denote: an immediate is
    taken modulo the width of its field. *)
Definition asm_insn (mo : fusion_opc_info_t) (ops : operands) : option insn :=
  let '(Rd, RSa, RSb, imm, _) := ops in
  let o := opc mo in
  if o =? OPC_INT then Some (InsnR (index mo) Rd RSa RSb)
  else if o =? OPC_IMM then Some (InsnI (index mo) Rd RSa (imm mod 2 ^ 12))
  else if o =? OPC_LD then Some (InsnL (index mo) Rd RSa (imm mod 2 ^ 14))
  else if o =? OPC_ST then Some (InsnS (index mo) RSb RSa (imm mod 2 ^ 14))
  else if o =? OPC_LI then Some (InsnLI (index mo) Rd (imm mod 2 ^ 16))
  else if o =? OPC_JMP then Some (InsnJ RSa (imm mod 2 ^ 21))
  else if o =? OPC_JLNK then Some (InsnJL RSa (imm mod 2 ^ 21))
  else if o =? OPC_BRANCH then Some (InsnB (index mo) RSa RSb (imm mod 2 ^ 14))
  else if o =? OPC_SYS then Some (InsnSYS (index mo) Rd RSa (imm mod 2 ^ 8))
  else None.

(** The index fits the field it goes to. *)
Definition index_fits (mo : fusion_opc_info_t) : bool :=
  let lt k := (0 <=? index mo) && (index mo <? k) in
  let o := opc mo in
  if (o =? OPC_INT) || (o =? OPC_IMM) || (o =? OPC_LI) then lt 16
  else if (o =? OPC_LD) || (o =? OPC_ST) || (o =? OPC_BRANCH) then lt 4
  else if o =? OPC_SYS then lt 256
  else (o =? OPC_JMP) || (o =? OPC_JLNK).

(** The expression and the relocation that go to the fixup. *)
Definition final_expr (mo : fusion_opc_info_t) (e : expressionS) : expressionS :=
  if opc mo =? OPC_IMM then normalize_constant_expr e else e.

Definition final_reloc (mo : fusion_opc_info_t) (RSa : Z) (reloc : bfd_reloc_code_real)
  : bfd_reloc_code_real :=
  if ((opc mo =? OPC_JMP) || (opc mo =? OPC_JLNK)) && negb (RSa =? 0) then BFD_RELOC_FUSION_21
  else reloc.

(** Closes a goal on the fields of a word with a field lemma. *)
Ltac by_fields H := let F := fresh in pose proof H as F; cbv zeta in F; tauto.

Lemma build_word_ok (mo : fusion_opc_info_t) (Rd RSa RSb imm : Z) (e : expressionS)
    (reloc : bfd_reloc_code_real) (g : gas) :
  index_fits mo = true -> is_reg Rd -> is_reg RSa -> is_reg RSb ->
  (opc mo = OPC_IMM -> X_op e = O_constant) ->
  exists w i, build_word mo (Rd, RSa, RSb, imm, e) reloc g
    = Ret ((w, final_expr mo e, final_reloc mo RSa reloc), g)
    /\ asm_insn mo (Rd, RSa, RSb, imm, e) = Some i /\ decode w = Some i /\ u32 w = w.
Proof.
  intros Hf H1 H2 H3 Hi. destruct mo as [nm ix ar fr cp im o].
  unfold build_word, asm_insn, index_fits, final_expr, final_reloc in *.
  cbn [name index args frmt cpid imm_mask opc] in *. cbv zeta in *.
  assert (o = OPC_INT \/ o = OPC_IMM \/ o = OPC_LD \/ o = OPC_ST \/ o = OPC_LI \/ o = OPC_JMP
    \/ o = OPC_JLNK \/ o = OPC_BRANCH \/ o = OPC_SYS) as Ho.
  { repeat match goal with H : context [o =? ?c] |- _ =>
      destruct (Z.eqb_spec o c); [tauto|] end. done. }
  destruct Ho as [->|[->|[->|[->|[->|[->|[->|[->| ->]]]]]]]]; cbn in Hf |- *;
    rewrite ?andb_true_iff, ?Z.leb_le, ?Z.ltb_lt in Hf.
  2:{ unfold check_absolute_expr. rewrite Hi by done. cbn. eexists _, _. split; [reflexivity|].
      split; [reflexivity|]. rewrite decode_fields. cbn [has_fields].
      by_fields (MAKE_I_fields Rd RSa imm ix H1 H2 ltac:(lia)). }
  all: eexists _, _; split; [reflexivity|]; split; [reflexivity|]; rewrite decode_fields; cbn [has_fields].
  - by_fields (MAKE_R_fields Rd RSa RSb ix H1 H2 H3 ltac:(lia)).
  - by_fields (MAKE_L_fields Rd RSa ix imm H1 H2 ltac:(lia)).
  - by_fields (MAKE_S_fields ix RSa RSb imm H2 H3 ltac:(lia)).
  - by_fields (MAKE_LI_fields Rd ix imm H1 ltac:(lia)).
  - by_fields (MAKE_J_fields RSa imm H2).
  - by_fields (MAKE_JL_fields RSa imm H2).
  - by_fields (MAKE_B_fields RSa RSb imm ix H2 H3 ltac:(lia)).
  - by_fields (MAKE_SYS_fields Rd RSa ix imm H1 H2 ltac:(lia)).
Qed.

(** ** The relocation of each instruction *)

(** By format, and for load-immediates by mnemonic: the upper-half loads that
    get the upper-half relocation. *)
Definition reloc_of (mo : fusion_opc_info_t) : bfd_reloc_code_real :=
  if frmt mo =? FRMT_I then BFD_RELOC_FUSION_12
  else if frmt mo =? FRMT_L then BFD_RELOC_FUSION_LOAD
  else if frmt mo =? FRMT_S then BFD_RELOC_FUSION_STORE
  else if frmt mo =? FRMT_LI then
    if bool_decide (name mo ∈ [Some "lui"; Some "lusi"; Some "luni"; Some "lunsi"]%string)
    then BFD_RELOC_FUSION_HI16 else BFD_RELOC_16
  else if frmt mo =? FRMT_J then
    if bool_decide (name mo ∈ [Some "j"; Some "jal"]%string) then BFD_RELOC_FUSION_21_PCREL
    else BFD_RELOC_FUSION_21
  else if frmt mo =? FRMT_B then BFD_RELOC_FUSION_14_PCREL
  else if (frmt mo =? FRMT_SYS) && negb (imm_mask mo =? 0) then BFD_RELOC_8
  else BFD_RELOC_UNUSED.

(** What the proofs use of an entry of the assembler's table. *)
Record entry_ok (mo : fusion_opc_info_t) : Prop := {
  eo_reloc : return_reloc mo = mret (reloc_of mo);
  eo_args : (MAX_USE_OP <? args mo) = false;
  eo_cpid : cpid mo = CPID_MAIN \/ cpid mo = CPID_MACRO;
  eo_index : cpid mo = CPID_MAIN -> opc mo <> 0 -> index_fits mo = true;
  eo_imm : imm_mask mo <> 0 -> insn_reloc (reloc_of mo) = true;
  eo_no_imm : imm_mask mo = 0 -> reloc_of mo = BFD_RELOC_UNUSED
}.

Lemma entries_ok : Forall entry_ok (until_null fusion_insn_all).
Proof.
  cbn [until_null fusion_insn_all app name].
  repeat (constructor; [split; [reflexivity|reflexivity|first [by left|by right]|done|done|done]|]).
  constructor.
Qed.

Lemma entry_ok_in (mo : fusion_opc_info_t) : mo ∈ until_null fusion_insn_all -> entry_ok mo.
Proof. intros H. exact (proj1 (Forall_forall _ _) entries_ok mo H). Qed.

Lemma insn_reloc_imm (r : bfd_reloc_code_real) : insn_reloc r = true -> imm_reloc_ok r = true.
Proof. by destruct r. Qed.

(** [return_reloc] gives every instruction of the table one relocation, and
    neither reports an error nor stops: 12-bit for arithmetic immediates, load
    and store offsets, 14-bit branches, 21-bit jumps (relative without a
    register, absolute with one and in the macros), 8-bit system constants,
    none where there is no immediate; and for load-immediates the upper half
    for [lui], [lusi], [luni] and [lunsi], the lower half for all others, which
    include the upper-half loads [lugi] and [lungi]. *)
Theorem return_reloc_table (mo : fusion_opc_info_t) (g : gas) :
  mo ∈ until_null fusion_insn_all -> return_reloc mo g = Ret (reloc_of mo, g).
Proof. intros H. by rewrite (eo_reloc mo (entry_ok_in mo H)). Qed.

Lemma return_reloc_table_witness :
  let lugi := mk_opc (Some "lugi"%string) 0x6 USE_RDI FRMT_LI CPID_MAIN MASK_IMM_LI OPC_LI in
  return_reloc lugi demo_gas = Ret (BFD_RELOC_16, demo_gas).
Proof.
  intros lugi. apply (return_reloc_table lugi demo_gas).
  apply (bool_decide_unpack _). vm_compute. exact I.
Defined.

(** ** The operands of a line *)
Section line.
  Context {expr_parser : ExprParser} (junk : Z).

(** [operand_line g p mo ops r]: the text at [p] is an operand list of [mo] that
    reads as [ops], the expression parser stopping at [r] with the effect [eff].  One rule for each
    kind of operand list in the table; the last is the entries whose [args]
    has no [case] in the code, for which any text reads as zeroes. *)
Inductive operand_line (g : gas) (p : Z) (mo : fusion_opc_info_t) : operands -> Z -> (gas -> gas) -> Prop :=
| ol_none (bl : list Z) :
    args mo = USE_NONE -> imm_mask mo = 0 -> blanks bl -> text g p (bl ++ [0]) ->
    operand_line g p mo (0, 0, 0, 0, absent) (expr_end g) (fun g => g)
| ol_rdab (b0 b1 b2 : list Z) (rd rsa rsb : nat) (tail : list Z) :
    args mo = USE_RDAB -> imm_mask mo = 0 ->
    (rd < 32)%nat -> (rsa < 32)%nat -> (rsb < 32)%nat -> blanks b0 -> blanks b1 -> blanks b2 ->
    tail_ok rsb tail -> text g p (rdab_text b0 b1 b2 rd rsa rsb tail) ->
    operand_line g p mo (Z.of_nat rd, Z.of_nat rsa, Z.of_nat rsb, 0, absent) (expr_end g) (fun g => g)
| ol_rdai (b0 b1 b2 : list Z) (rd rsa : nat) (c : Z) (rest : list Z) (e : expressionS) (r : Z) (eff : gas -> gas) :
    args mo = USE_RDAI -> imm_mask mo <> 0 -> (rd < 32)%nat -> (rsa < 32)%nat ->
    blanks b0 -> blanks b1 -> blanks b2 -> is_blank c = false ->
    text g p (rri_pre b0 b1 b2 rd rsa ++ c :: rest) ->
    expr_at g (p + Z.of_nat (length (rri_pre b0 b1 b2 rd rsa))) e r eff ->
    operand_line g p mo (Z.of_nat rd, Z.of_nat rsa, 0, s32 (X_add_number e), e) r eff
| ol_rdi (b0 b1 : list Z) (rd : nat) (c : Z) (rest : list Z) (e : expressionS) (r : Z) (eff : gas -> gas) :
    args mo = USE_RDI -> imm_mask mo <> 0 -> (rd < 32)%nat -> blanks b0 -> blanks b1 ->
    is_blank c = false -> text g p (ri_pre b0 b1 rd ++ c :: rest) ->
    expr_at g (p + Z.of_nat (length (ri_pre b0 b1 rd))) e r eff ->
    operand_line g p mo (Z.of_nat rd, 0, 0, s32 (X_add_number e), e) r eff
| ol_rabi (b0 b2 : list Z) (rsa rsb : nat) (c : Z) (rest : list Z) (e : expressionS) (r : Z) (eff : gas -> gas) :
    args mo = USE_RABI -> imm_mask mo <> 0 -> (rsa < 32)%nat -> (rsb < 32)%nat ->
    blanks b0 -> blanks b2 -> is_blank c = false ->
    text g p (rri_pre b0 [] b2 rsa rsb ++ c :: rest) ->
    expr_at g (p + Z.of_nat (length (rri_pre b0 [] b2 rsa rsb))) e r eff ->
    operand_line g p mo (0, Z.of_nat rsa, Z.of_nat rsb, s32 (X_add_number e), e) r eff
| ol_rdai_o (b0 b1 : list Z) (rd rsa : nat) (c : Z) (imm : list Z) (d : Z) (cl : list Z) (x : Z)
    (e : expressionS) (r : Z) (eff : gas -> gas) :
    args mo = USE_RDAI_O -> imm_mask mo <> 0 -> (rd < 32)%nat -> blanks b0 -> blanks b1 ->
    is_blank c = false -> base_ok (c :: imm) rsa d cl x ->
    text g p (ri_pre b0 b1 rd ++ base_text (c :: imm) rsa d cl x) ->
    expr_at g (p + Z.of_nat (length (ri_pre b0 b1 rd))) e r eff ->
    operand_line g p mo (Z.of_nat rd, Z.of_nat rsa, 0, s32 (X_add_number e), e) r eff
| ol_rabi_o (b0 b1 : list Z) (rsb rsa : nat) (c : Z) (imm : list Z) (d : Z) (cl : list Z) (x : Z)
    (e : expressionS) (r : Z) (eff : gas -> gas) :
    args mo = USE_RABI_O -> imm_mask mo <> 0 -> (rsb < 32)%nat -> blanks b0 -> blanks b1 ->
    is_blank c = false -> base_ok (c :: imm) rsa d cl x ->
    text g p (ri_pre b0 b1 rsb ++ base_text (c :: imm) rsa d cl x) ->
    expr_at g (p + Z.of_nat (length (ri_pre b0 b1 rsb))) e r eff ->
    operand_line g p mo (0, Z.of_nat rsa, Z.of_nat rsb, s32 (X_add_number e), e) r eff
| ol_rai_o (b0 : list Z) (rsa : nat) (c : Z) (imm : list Z) (d : Z) (cl : list Z) (x : Z)
    (e : expressionS) (r : Z) (eff : gas -> gas) :
    args mo = USE_RAI_O -> imm_mask mo <> 0 -> blanks b0 -> is_blank c = false ->
    base_ok (c :: imm) rsa d cl x -> text g p (b0 ++ base_text (c :: imm) rsa d cl x) ->
    expr_at g (p + Z.of_nat (length b0)) e r eff ->
    operand_line g p mo (0, Z.of_nat rsa, 0, s32 (X_add_number e), e) r eff
| ol_i (bl : list Z) (c : Z) (rest : list Z) (e : expressionS) (r : Z) (eff : gas -> gas) :
    args mo = USE_I -> imm_mask mo <> 0 -> blanks bl -> is_blank c = false ->
    text g p (bl ++ c :: rest) -> expr_at g (p + Z.of_nat (length bl)) e r eff ->
    operand_line g p mo (0, 0, 0, s32 (X_add_number e), e) r eff
| ol_ignored :
    args mo = USE_RDA -> imm_mask mo <> 0 ->
    operand_line g p mo (0, 0, 0, 0, absent) (expr_end g) (fun g => g).

Lemma operand_line_regs (g : gas) (p : Z) (mo : fusion_opc_info_t) (Rd RSa RSb imm : Z)
    (e : expressionS) (r : Z) (eff : gas -> gas) :
  operand_line g p mo (Rd, RSa, RSb, imm, e) r eff -> is_reg Rd /\ is_reg RSa /\ is_reg RSb.
Proof.
  unfold is_reg. inversion 1; subst; repeat match goal with H : base_ok _ _ _ _ _ |- _ => destruct H end;
    lia.
Qed.

Lemma set_expr_end_id (g : gas) : set_expr_end (expr_end g) g = g.
Proof. by destruct g. Qed.

(** The operand stage of [assemble_insn_bin]. *)
Definition parse_stage (insn : fusion_opc_info_t) (str : Z) (reloc : bfd_reloc_code_real)
  : M (option operands) :=
  if imm_mask insn =? MASK_NO_IMM then
    ops ← parse_no_imm (args insn) str;
    let '(Rd, RSa, RSb, _, _) := ops in
    if (Rd =? -1) || (RSa =? -1) || (RSb =? -1) then
      _ ← as_bad "unknown register used %s"; mret None
    else mret (Some ops)
  else ops ← parse_with_imm insn str reloc; mret (Some ops).

Lemma eqb_neg1 (n : nat) : (Z.of_nat n =? -1) = false.
Proof. apply Z.eqb_neq. lia. Qed.

Lemma parse_stage_ok (g : gas) (p : Z) (mo : fusion_opc_info_t) (ops : operands) (r : Z)
    (eff : gas -> gas) (reloc : bfd_reloc_code_real) :
  operand_line g p mo ops r eff -> cpid mo = CPID_MAIN ->
  (imm_mask mo <> 0 -> imm_reloc_ok reloc = true) ->
  parse_stage mo p reloc g = Ret (Some ops, set_expr_end r (eff g)).
Proof.
  intros Hl Hmain Hr. unfold parse_stage.
  destruct Hl; match goal with
  | H : imm_mask mo = 0 |- _ => rewrite H; change (0 =? MASK_NO_IMM) with true
  | H : imm_mask mo <> 0 |- _ =>
      specialize (Hr H); rewrite (proj2 (Z.eqb_neq (imm_mask mo) MASK_NO_IMM) H)
  end; unfold parse_no_imm, parse_with_imm; cbv zeta;
  match goal with H : args mo = _ |- _ => rewrite H end; cbn -[parse_rdab]; rewrite ?set_expr_end_id.
  - pose proof (skip_blanks bl 0 p [] g ltac:(done) eq_refl ltac:(done)) as E1.
    match goal with Ht : text g p _ |- _ => pose proof (text_head _ _ _ _ (text_r _ _ _ _ Ht)) as E2 end.
    erewrite mbind_ret; [|pnext E1; erewrite mbind_ret; [reflexivity|unfold warn_rest; by pnext E2]].
    done.
  - pose proof (parse_rdab_ok p b0 b1 b2 rd rsa rsb tail g ltac:(done) ltac:(done) ltac:(done)
      ltac:(done) ltac:(done) ltac:(done) ltac:(done) ltac:(done)) as E.
    erewrite mbind_ret; [|by pnext E]. cbv beta iota. by rewrite !eqb_neg1.
  - erewrite mbind_ret; [|pnext (parse_rdai_ok p b0 b1 b2 rd rsa c rest reloc e r eff g
      ltac:(done) ltac:(done) ltac:(done) ltac:(done) ltac:(done) ltac:(done) Hr ltac:(done) ltac:(done));
      reflexivity]. done.
  - erewrite mbind_ret; [|pnext (parse_ri_ok p b0 b1 rd c rest reloc e r eff g
      ltac:(done) ltac:(done) ltac:(done) ltac:(done) Hr ltac:(done) ltac:(done)); reflexivity]. done.
  - erewrite mbind_ret; [|pnext (parse_rabi_ok p b0 b2 rsa rsb c rest reloc e r eff g
      ltac:(done) ltac:(done) ltac:(done) ltac:(done) ltac:(done) Hr ltac:(done) ltac:(done));
      reflexivity]. done.
  - erewrite mbind_ret; [|pnext (proj1 (parse_rdai_offset_ok p b0 b1 rd rsa c imm d cl x reloc e r eff g
      ltac:(done) ltac:(done) ltac:(done) ltac:(done) Hr ltac:(done) ltac:(done) ltac:(done)));
      reflexivity]. done.
  - erewrite mbind_ret; [|pnext (proj2 (parse_rdai_offset_ok p b0 b1 rsb rsa c imm d cl x reloc e r eff g
      ltac:(done) ltac:(done) ltac:(done) ltac:(done) Hr ltac:(done) ltac:(done) ltac:(done)));
      reflexivity]. done.
  - erewrite mbind_ret; [|pnext (parse_rai_offset_ok p b0 rsa c imm d cl x reloc e r eff g mo
      ltac:(done) ltac:(done) Hr Hmain ltac:(done) ltac:(done) ltac:(done)); reflexivity]. done.
  - pose proof (parse_imm_ok g p bl c rest reloc e r eff ltac:(done) ltac:(done) ltac:(done) Hr ltac:(done)) as E1.
    match goal with Ht0 : text g p _ |- _ => pose proof (text_r _ _ _ _ Ht0) as Ht end.
    match goal with He : expr_at g _ e r eff |- _ => pose proof (expr_at_text _ _ _ _ _ _ _ He Ht) as Ht' end.
    pose proof (skip_none is_blank c rest _ _ Ht' ltac:(done)) as E2.
    pose proof (text_head _ _ _ _ Ht') as E3.
    erewrite mbind_ret; [|pnext E1; pnext E2; pnext E3; reflexivity]. done.
  - done.
Qed.

(** Only the buffer and [expr_end] matter. *)
Lemma operand_line_hash (g : gas) (t : @hash_control (option fusion_opc_info_t)) (p : Z)
    (mo : fusion_opc_info_t) (ops : operands) (r : Z) (eff : gas -> gas) :
  operand_line g p mo ops r eff -> operand_line (set_op_hash t g) p mo ops r eff.
Proof.
  intros H. pose (g' := set_op_hash t g).
  assert (Ht : forall p l, text g p l -> text g' p l) by (intros ? ? Ht; exact Ht).
  assert (He : forall q e r eff, expr_at g q e r eff -> expr_at g' q e r eff) by (intros ? ? ? ? He; exact He).
  destruct H;
    [ eapply (ol_none g' p mo bl) | eapply (ol_rdab g' p mo b0 b1 b2 rd rsa rsb tail)
    | eapply (ol_rdai g' p mo b0 b1 b2 rd rsa c rest e r eff) | eapply (ol_rdi g' p mo b0 b1 rd c rest e r eff)
    | eapply (ol_rabi g' p mo b0 b2 rsa rsb c rest e r eff)
    | eapply (ol_rdai_o g' p mo b0 b1 rd rsa c imm d cl x e r eff)
    | eapply (ol_rabi_o g' p mo b0 b1 rsb rsa c imm d cl x e r eff)
    | eapply (ol_rai_o g' p mo b0 rsa c imm d cl x e r eff)
    | eapply (ol_i g' p mo bl c rest e r eff) | eapply (ol_ignored g' p mo) ]; eauto.
Qed.

Lemma spares_refl (g : gas) : spares g g.
Proof. by destruct g. Qed.

Lemma operand_line_spares (g : gas) (p : Z) (mo : fusion_opc_info_t) (ops : operands) (r : Z) (eff : gas -> gas) :
  operand_line g p mo ops r eff -> spares g (eff g).
Proof.
  destruct 1; first [apply spares_refl|match goal with He : expr_at _ _ _ _ _ |- _ => apply (expr_at_here _ _ _ _ _ He) end].
Qed.

(** ** The mnemonic *)

Definition mnemonic_char (c : Ascii.ascii) : bool :=
  negb (ends_mnemonic (chr c)) && negb (is_blank (chr c)) && (0 <? chr c).

Lemma mnemonics_ok :
  Forall (fun nm => nm <> ""%string /\ forallb mnemonic_char (String.list_ascii_of_string nm) = true)
    insn_names.
Proof. vm_compute insn_names. repeat (constructor; [by split|]). constructor. Qed.

Lemma chr_ascii (c : Ascii.ascii) : Ascii.ascii_of_N (Z.to_N (chr c mod 256)) = c.
Proof. destruct c as [[] [] [] [] [] [] [] []]; reflexivity. Qed.

Lemma cstring_loop_text (nm : string) (fuel : nat) (p : Z) (g : gas) :
  forallb mnemonic_char (String.list_ascii_of_string nm) = true -> text g p (chars nm ++ [0]) ->
  (String.length nm < fuel)%nat -> cstring_loop fuel p g = Ret (nm, g).
Proof.
  revert fuel p. induction nm as [|c nm IH]; intros fuel p Hc Ht Hf;
    (destruct fuel as [|fuel]; [lia|]); cbn [cstring_loop].
  - rewrite (mbind_ret _ _ _ _ _ (text_head _ _ _ _ Ht)). done.
  - cbn in Hc. apply andb_true_iff in Hc as [Hc Hcs].
    assert (text g p (chr c :: chars nm ++ [0])) as Ht' by exact Ht.
    rewrite (mbind_ret _ _ _ _ _ (text_head _ _ _ _ Ht')).
    unfold mnemonic_char in Hc. rewrite !andb_true_iff, Z.ltb_lt in Hc.
    rewrite (proj2 (Z.eqb_neq (chr c) 0)) by lia.
    rewrite (mbind_ret _ _ _ _ _ (IH fuel (p + 1) Hcs (text_tail _ _ _ _ Ht') ltac:(cbn in Hf; lia))).
    by rewrite chr_ascii.
Qed.

Lemma cstring_text (nm : string) (p : Z) (g : gas) :
  forallb mnemonic_char (String.list_ascii_of_string nm) = true -> text g p (chars nm ++ [0]) ->
  cstring p g = Ret (nm, g).
Proof.
  intros Hc Ht. unfold cstring. apply cstring_loop_text; [done|done|].
  pose proof (text_head _ _ _ _ (text_r _ _ _ _ Ht)) as H. rewrite chars_length in H.
  apply peek_in in H. lia.
Qed.

Lemma find_insn_ok (nm : string) (mo : fusion_opc_info_t) (g : gas) :
  hash_ok (op_hash_ctrl g) -> hash_map (op_hash_ctrl g) !! nm = Some (Some mo) ->
  exists t, find_insn nm g = Ret (Some mo, set_op_hash t g) /\ hash_ok t
    /\ hash_map t = hash_map (op_hash_ctrl g).
Proof.
  intros Hok Hm. destruct (hash_find_spec None _ nm Hok) as (t & Hf & Hok' & Hm').
  exists t. split; [|done]. unfold find_insn. erewrite mbind_ret; [|reflexivity].
  rewrite (lift_ret _ _ _ _ Hf). cbv beta iota. erewrite mbind_ret; [|reflexivity]. by rewrite Hm.
Qed.

Lemma text_poke (g : gas) (q v p : Z) (l : list Z) :
  0 <= q < Z.of_nat (length (buffer g)) -> p + Z.of_nat (length l) <= q -> text g p l ->
  text (set_buffer (<[Z.to_nat q := v]> (buffer g)) g) p l.
Proof.
  intros Hq Hp Ht k c Hk. destruct (Ht k c Hk) as [Hr Hc]. split; [|done]. cbn.
  rewrite rd_insert by done. apply lookup_lt_Some in Hk.
  destruct (Z.eqb_spec q (p + Z.of_nat k)); [lia|done].
Qed.

Lemma poke_ret (g : gas) (q v : Z) :
  0 <= q < Z.of_nat (length (buffer g)) -> 0 <= v < 128 ->
  poke q v g = Ret (tt, set_buffer (<[Z.to_nat q := v]> (buffer g)) g).
Proof.
  intros Hq Hv. unfold poke. change 0xff with (Z.ones 8). rewrite Z.land_ones, Z.mod_small by lia.
  by rewrite wr_ret.
Qed.

(** Writing the end of the mnemonic and putting its character back. *)
Lemma poke_back (g : gas) (t : @hash_control (option fusion_opc_info_t)) (q d : Z) :
  rd (buffer g) q = Ret d /\ 0 <= d < 128 ->
  let g1 := set_buffer (<[Z.to_nat q := 0]> (buffer g)) g in
  poke q 0 g = Ret (tt, g1) /\ poke q d (set_op_hash t g1) = Ret (tt, set_op_hash t g).
Proof.
  intros [Hd Hr]. cbv zeta.
  destruct (decide (0 <= q < Z.of_nat (length (buffer g)))) as [Hq|Hq]; [|by rewrite rd_oob in Hd].
  split; [apply poke_ret; [done|lia]|].
  rewrite poke_ret; [|cbn; by rewrite length_insert|done]. do 2 f_equal. cbn.
  rewrite list_insert_insert_eq, list_insert_id; [by destruct g|].
  destruct (rd_ret (buffer g) q Hq) as (b & Hb & Hl). rewrite Hb in Hd. by injection Hd as ->.
Qed.

(** The mnemonic is found under its own name, and nothing but the order of its
    hash chain changes. *)
Lemma md_assemble_front (g : gas) (p : Z) (bl : list Z) (nm : string) (d : Z)
    (mo : fusion_opc_info_t) :
  tables_ok g -> mo ∈ until_null fusion_insn_all -> name mo = Some nm -> blanks bl ->
  ends_mnemonic d = true -> text g p (bl ++ chars nm ++ [d]) ->
  let op_end := p + Z.of_nat (length bl) + Z.of_nat (String.length nm) in
  exists t, hash_ok t /\ hash_map t = hash_map (op_hash_ctrl g) /\
  md_assemble junk p g =
    (r ← assemble_insn_bin op_end (create_insn mo);
     match r with
     | None => as_bad "Couldn't assemble instruction:%s"
     | Some (ip, imm_expr, imm_reloc) =>
         _ ← (if cpid (insn_mo ip) =? CPID_MACRO then macro junk ip imm_expr
              else if cpid (insn_mo ip) =? CPID_MAIN then
                _ ← append_insn junk ip (Some imm_expr) imm_reloc; mret tt
              else as_fatal "Unimplemented CPID");
         pending ← gets pending_reloc;
         when (negb (pending =? 0)) (as_warn "something forgot to clean up ooooooh\n")
     end) (set_op_hash t g).
Proof.
  intros Htab Hin Hnm Hbl Hd Ht. cbv zeta.
  assert (Hn : nm ∈ insn_names) by (apply list_elem_of_omap; by exists mo).
  destruct (proj1 (Forall_forall _ _) mnemonics_ok nm Hn) as [Hne Hcs].
  destruct nm as [|c0 nm']; [done|]. set (nm := String c0 nm') in *.
  assert (Hall : Forall (fun x => negb (ends_mnemonic x) = true) (chars nm)).
  { apply Forall_fmap, Forall_forall. intros c Hc. rewrite forallb_forall in Hcs.
    apply list_elem_of_In, Hcs in Hc. unfold mnemonic_char in Hc. rewrite !andb_true_iff in Hc. tauto. }
  assert (Hc0 : is_blank (chr c0) = false).
  { cbn in Hcs. unfold mnemonic_char in Hcs. rewrite !andb_true_iff, !negb_true_iff in Hcs. tauto. }
  assert (E1 : SKIP_SPACE_TABS p g = Ret (p + Z.of_nat (length bl), g)).
  { exact (skip_blanks bl (chr c0) p (chars nm' ++ [d]) g Hbl Hc0 Ht). }
  pose proof (text_r _ _ _ _ Ht) as Ht1. set (s := p + Z.of_nat (length bl)) in *.
  pose proof (skip_while_text (fun c => negb (ends_mnemonic c)) (chars nm) d s g Ht1 Hall) as E2.
  specialize (E2 ltac:(cbn; by rewrite Hd)). rewrite chars_length in E2. set (q := s + Z.of_nat (String.length nm)) in *.
  assert (Hq : rd (buffer g) q = Ret d /\ 0 <= d < 128).
  { pose proof (text_r _ _ _ _ Ht1) as Ht2. rewrite chars_length in Ht2.
    specialize (Ht2 0%nat d eq_refl). by rewrite Z.add_0_r in Ht2. }
  pose proof (peek_rd g q d Hq) as E3.
  set (g1 := set_buffer (<[Z.to_nat q := 0]> (buffer g)) g).
  assert (Hqi : 0 <= q < Z.of_nat (length (buffer g))) by (by apply peek_in in E3).
  assert (Ht3 : text g1 s (chars nm ++ [0])).
  { apply text_app. rewrite chars_length. split.
    - apply text_poke; [done|rewrite chars_length; lia|]. exact (text_l _ _ _ _ Ht1).
    - intros [|k] c Hc; [|done]. injection Hc as <-. split; [|lia]. fold q. rewrite Z.add_0_r. cbn.
      by rewrite rd_insert, Z.eqb_refl. }
  pose proof (cstring_text nm s g1 Hcs Ht3) as E5.
  destruct (find_insn_ok nm mo g1 (to_op g Htab) (to_insn g Htab mo nm Hin Hnm)) as (t & E6 & Hok & Hm).
  destruct (poke_back g t q d Hq) as [E4 E7].
  exists t. split; [done|]. split; [done|]. unfold md_assemble.
  pnext E1. pnext E2. pnext E3. pnext E4.
  assert (E45 : when (q - s =? 0) (as_bad "couldn't find instruction") g1 = Ret (tt, g1)).
  { rewrite (proj2 (Z.eqb_neq (q - s) 0)); [done|]. subst q. unfold nm. cbn [String.length]. lia. }
  pnext E45. pnext E5. pnext E6. pnext E7. reflexivity.
Qed.

Lemma tables_ok_hash (g : gas) (t : @hash_control (option fusion_opc_info_t)) :
  tables_ok g -> hash_ok t -> hash_map t = hash_map (op_hash_ctrl g) -> tables_ok (set_op_hash t g).
Proof. intros [] Hok Hm. split; cbn; rewrite ?Hm; auto. Qed.

Lemma tables_ok_same (g g' : gas) :
  tables_ok g -> op_hash_ctrl g' = op_hash_ctrl g -> reg_names_hash g' = reg_names_hash g ->
  tables_ok g'.
Proof. intros [] H1 H2. split; rewrite ?H1, ?H2; auto. Qed.

(** [build_word] makes the word [w] of the operands. *)
Definition builds (mo : fusion_opc_info_t) (ops : operands) (w : Z) : Prop :=
  let '(_, RSa, _, _, e) := ops in
  exists g, build_word mo ops (reloc_of mo) g
    = Ret ((w, final_expr mo e, final_reloc mo RSa (reloc_of mo)), g).

Lemma assemble_insn_bin_ok (g : gas) (p : Z) (mo : fusion_opc_info_t) (Rd RSa RSb imm : Z)
    (e : expressionS) (r : Z) (eff : gas -> gas) :
  mo ∈ until_null fusion_insn_all -> cpid mo = CPID_MAIN -> opc mo <> 0 ->
  operand_line g p mo (Rd, RSa, RSb, imm, e) r eff -> (opc mo = OPC_IMM -> X_op e = O_constant) ->
  exists w i, assemble_insn_bin p (create_insn mo) g
    = Ret (Some (mk_insn mo w None 0 None, final_expr mo e, final_reloc mo RSa (reloc_of mo)),
           set_expr_end r (eff g))
    /\ asm_insn mo (Rd, RSa, RSb, imm, e) = Some i /\ decode w = Some i /\ u32 w = w
    /\ builds mo (Rd, RSa, RSb, imm, e) w.
Proof.
  intros Hin Hmain Ho Hl Hi. destruct (entry_ok_in mo Hin) as [H1 H2 _ H4 H5 _].
  destruct (operand_line_regs _ _ _ _ _ _ _ _ _ _ Hl) as (R1 & R2 & R3).
  destruct (build_word_ok mo Rd RSa RSb imm e (reloc_of mo) (set_expr_end r (eff g)) (H4 Hmain Ho)
    R1 R2 R3 Hi) as (w & i & Hw & Hi' & Hd & Hu).
  exists w, i. split; [|split_and!; try done; by eexists].
  pose proof (parse_stage_ok g p mo _ r eff (reloc_of mo) Hl Hmain
    (fun H => insn_reloc_imm _ (H5 H))) as Hs.
  unfold assemble_insn_bin. cbn [create_insn insn_mo]. cbv zeta.
  assert (E0 : return_reloc mo g = Ret (reloc_of mo, g)) by (by rewrite H1).
  pnext E0. rewrite Hmain. cbn [Z.ltb Z.eqb orb]. change (CPID_MAX <? CPID_MAIN) with false.
  change ((CPID_MAIN =? CPID_MAIN) || (CPID_MAIN =? CPID_MACRO)) with true. cbv iota.
  rewrite H2. unfold parse_stage in Hs. pnext Hs. pnext Hw.
  unfold set_word, create_insn. cbn [insn_mo insn_frag frag_offset fixptr]. by rewrite Hu.
Qed.

Lemma final_simple (mo : fusion_opc_info_t) (e : expressionS) :
  simple_expr e = true -> simple_expr (final_expr mo e) = true.
Proof.
  intros H. unfold final_expr, normalize_constant_expr. by repeat case_match.
Qed.

Lemma final_insn_reloc (mo : fusion_opc_info_t) (RSa : Z) :
  entry_ok mo ->
  final_reloc mo RSa (reloc_of mo) = BFD_RELOC_UNUSED
  \/ insn_reloc (final_reloc mo RSa (reloc_of mo)) = true.
Proof.
  intros [_ _ _ _ H5 H6]. unfold final_reloc. case_match; [by right|].
  destruct (decide (imm_mask mo = 0)); auto.
Qed.

Lemma md_assemble_line (g : gas) (p : Z) (bl : list Z) (nm : string) (d : Z)
    (mo : fusion_opc_info_t) (Rd RSa RSb imm : Z) (e : expressionS) (r : Z) (eff : gas -> gas) :
  tables_ok g -> frags_ok g -> pending_reloc g = 0 ->
  mo ∈ until_null fusion_insn_all -> name mo = Some nm -> cpid mo = CPID_MAIN -> opc mo <> 0 ->
  blanks bl -> ends_mnemonic d = true -> text g p (bl ++ chars nm ++ [d]) ->
  operand_line g (p + Z.of_nat (length bl) + Z.of_nat (String.length nm)) mo
    (Rd, RSa, RSb, imm, e) r eff ->
  simple_expr e = true -> (opc mo = OPC_IMM -> X_op e = O_constant) ->
  exists g' w i fx t, md_assemble junk p g = Ret (tt, g')
    /\ image (frags g') = image (frags g) ++ be32 w /\ chain_ext (frags g) (frags g')
    /\ asm_insn mo (Rd, RSa, RSb, imm, e) = Some i /\ decode w = Some i /\ 0 <= w < 2 ^ 32
    /\ fixes g' = fixes g ++ fx
    /\ fixes_for (eff (set_op_hash t g)) (final_expr mo e) (final_reloc mo RSa (reloc_of mo)) fx
    /\ Forall (fun f => exists n x l, fx_frag f = Some n /\ frags g' !! n = Some x
          /\ fr_literal x = l ++ be32 w /\ fx_where f = Z.of_nat (length l)) fx
    /\ log g' = log g /\ buffer g' = buffer g /\ tables_ok g' /\ frags_ok g'
    /\ builds mo (Rd, RSa, RSb, imm, e) w.
Proof.
  intros Htab Hfr Hpend Hin Hnm Hmain Ho Hbl Hd Ht Hl He Hi.
  destruct (md_assemble_front g p bl nm d mo Htab Hin Hnm Hbl Hd Ht) as (t & Hok & Hm & ->).
  destruct (assemble_insn_bin_ok (set_op_hash t g) _ mo Rd RSa RSb imm e r eff Hin Hmain Ho
    (operand_line_hash _ t _ _ _ _ _ Hl) Hi) as (w & i & E1 & Hi' & Hdec & Hu & Hbw).
  pnext E1. cbn [insn_mo]. rewrite Hmain. change (CPID_MAIN =? CPID_MACRO) with false.
  change (CPID_MAIN =? CPID_MAIN) with true. cbv iota.
  pose proof (operand_line_spares _ _ _ _ _ _ (operand_line_hash _ t _ _ _ _ _ Hl)) as Hs.
  set (g1 := set_expr_end r (eff (set_op_hash t g))).
  assert (frags_ok g1) as Hfr1 by (unfold frags_ok, g1; rewrite Hs; exact Hfr).
  destruct (append_insn_ok junk mo w (final_expr mo e) (final_reloc mo RSa (reloc_of mo)) g1 Hfr1
    (final_simple mo e He) (final_insn_reloc mo RSa (entry_ok_in mo Hin)))
    as (g' & fx & E2 & Hem & Hfx).
  erewrite mbind_ret; [|pnext E2; reflexivity]. erewrite mbind_ret; [|reflexivity].
  destruct Hem as [M1 M2 M3 M4 M5 M6].
  assert (frags g1 = frags g /\ fixes g1 = fixes g /\ pending_reloc g1 = pending_reloc g /\ log g1 = log g
          /\ buffer g1 = buffer g /\ op_hash_ctrl g1 = t /\ reg_names_hash g1 = reg_names_hash g)
    as (F1 & F2 & F3 & F4 & F5 & F6 & F7) by (unfold g1; rewrite Hs; done).
  assert (pending_reloc g' = 0) as -> by (rewrite M5; exact (eq_trans F3 Hpend)).
  exists g', w, i, fx, t. rewrite F1 in M1, M2. rewrite F2 in M4. split_and!; try done.
  - rewrite <- Hu; apply u32_range.
  - rewrite <- Hu; apply u32_range.
  - rewrite M5. exact F4.
  - rewrite M5. exact F5.
  - apply (tables_ok_same (set_op_hash t g)); [exact (tables_ok_hash g t Htab Hok Hm)| |].
    + rewrite M5. exact F6.
    + rewrite M5. exact F7.
Qed.

(** C2.  A well-formed line of any machine instruction of the table assembles to
    that instruction: [md_assemble] finds the mnemonic, reads the operands the
    line denotes, appends exactly four bytes to the section, big-endian, and they
    decode to the instruction with those operands (the immediate modulo its
    field); with an immediate it records one fixup, which points at those bytes
    and carries the expression and the instruction's relocation; it reports
    nothing, and leaves the tables, the rest of the line and every byte already
    assembled as they were. *)
Theorem md_assemble_encodes (g : gas) (p : Z) (bl : list Z) (nm : string) (d : Z)
    (mo : fusion_opc_info_t) (Rd RSa RSb imm : Z) (e : expressionS) (r : Z) (eff : gas -> gas) :
  tables_ok g -> frags_ok g -> pending_reloc g = 0 ->
  mo ∈ until_null fusion_insn_all -> name mo = Some nm -> cpid mo = CPID_MAIN -> opc mo <> 0 ->
  blanks bl -> ends_mnemonic d = true -> text g p (bl ++ chars nm ++ [d]) ->
  operand_line g (p + Z.of_nat (length bl) + Z.of_nat (String.length nm)) mo
    (Rd, RSa, RSb, imm, e) r eff ->
  simple_expr e = true -> (opc mo = OPC_IMM -> X_op e = O_constant) ->
  exists g' w i fx t, md_assemble junk p g = Ret (tt, g')
    /\ image (frags g') = image (frags g) ++ be32 w /\ chain_ext (frags g) (frags g')
    /\ asm_insn mo (Rd, RSa, RSb, imm, e) = Some i /\ decode w = Some i /\ 0 <= w < 2 ^ 32
    /\ fixes g' = fixes g ++ fx
    /\ fixes_for (eff (set_op_hash t g)) (final_expr mo e) (final_reloc mo RSa (reloc_of mo)) fx
    /\ Forall (fun f => exists n x l, fx_frag f = Some n /\ frags g' !! n = Some x
          /\ fr_literal x = l ++ be32 w /\ fx_where f = Z.of_nat (length l)) fx
    /\ log g' = log g /\ buffer g' = buffer g /\ tables_ok g' /\ frags_ok g'.
Proof.
  intros. edestruct md_assemble_line as (g' & w & i & fx & t & H'); [eassumption..|].
  exists g', w, i, fx, t. tauto.
Qed.
End line.

(** A parser of decimal numbers stands for [expression] in the examples. *)
Fixpoint decimal_loop (l : list Z) (v n : Z) : Z * Z :=
  match l with
  | c :: l' => if isdigit c then decimal_loop l' (10 * v + (c - chr "0")) (n + 1) else (v, n)
  | [] => (v, n)
  end.

Definition decimal : ExprParser := fun g =>
  let (v, n) := decimal_loop (drop (Z.to_nat (input_line_pointer g)) (buffer g)) 0 0 in
  Ret (mk_expr None None v O_constant, set_ilp (input_line_pointer g + n) g).

Lemma decimal_at (g : gas) (q v n : Z) :
  decimal_loop (drop (Z.to_nat q) (buffer g)) 0 0 = (v, n) ->
  @expr_at decimal g q (mk_expr None None v O_constant) (q + n) (fun g => g).
Proof. intros H t. unfold expression, decimal. cbn. rewrite H. split; by destruct g. Qed.

(** Text of a concrete buffer, by computation. *)
Definition textb (b : list Z) (p : Z) (l : list Z) : bool :=
  forallb (fun kc => match rd b (p + Z.of_nat kc.1) with
                     | Ret c => (c =? kc.2) && (0 <=? c) && (c <? 128) | Fail _ => false end)
    (imap pair l).

Lemma textb_text (g : gas) (p : Z) (l : list Z) : textb (buffer g) p l = true -> text g p l.
Proof.
  unfold textb. rewrite forallb_forall. intros H k c Hk. specialize (H (k, c)).
  cbn in H. destruct (rd (buffer g) (p + Z.of_nat k)) as [b|].
  - rewrite !andb_true_iff, Z.eqb_eq, Z.leb_le, Z.ltb_lt in H. destruct H as [[-> ?] ?]; [|done].
    apply list_elem_of_In, elem_of_lookup_imap. eauto.
  - discriminate H. apply list_elem_of_In, elem_of_lookup_imap. eauto.
Qed.

Lemma md_assemble_encodes_witness :
  exists g g' w, md_begin true (line_gas "addi tmp0, arg1, 77") = Ret (tt, g)
    /\ @md_assemble decimal 0xcc 0 g = Ret (tt, g')
    /\ image (frags g') = be32 w /\ decode w = Some (InsnI 0 22 6 77).
Proof.
  destruct (md_begin_ok true (line_gas "addi tmp0, arg1, 77"))
    as (g & Hg & Htab & Hf & Hob & Hx & Hb & Hp & _).
  exists g.
  destruct (@md_assemble_encodes decimal 0xcc g 0 [] "addi" 32
    (mk_opc (Some "addi"%string) 0x00 USE_RDAI FRMT_I CPID_MAIN MASK_IMM_I OPC_IMM)
    22 6 0 77 (mk_expr None None 77 O_constant) (17 + 2) (fun g => g)) as (g' & w & i & fx & t & H1 & H2 & _ & H4 & H5 & _).
  - exact Htab.
  - unfold frags_ok. rewrite Hf, Hob. exact demo_gas_ok.
  - by rewrite Hp.
  - apply (bool_decide_unpack _). vm_compute. exact I.
  - reflexivity.
  - reflexivity.
  - discriminate.
  - constructor.
  - reflexivity.
  - apply textb_text. rewrite Hb. reflexivity.
  - change (@operand_line decimal g 4 (mk_opc (Some "addi"%string) 0x00 USE_RDAI FRMT_I CPID_MAIN MASK_IMM_I OPC_IMM)
      (Z.of_nat 22, Z.of_nat 6, 0, s32 77, mk_expr None None 77 O_constant) (17 + 2) (fun g => g)).
    apply (@ol_rdai decimal g 4 _ [32] [32] [32] 22 6 (chr "7") [chr "7"; 0]
      (mk_expr None None 77 O_constant) (17 + 2) (fun g => g));
      [reflexivity|discriminate|lia|lia|repeat constructor|repeat constructor|repeat constructor
      |reflexivity| |].
    + apply textb_text. rewrite Hb. reflexivity.
    + apply decimal_at. rewrite Hb. reflexivity.
  - reflexivity.
  - reflexivity.
  - exists g', w. split; [exact Hg|]. split; [exact H1|]. split; [rewrite H2, Hf; reflexivity|].
    rewrite H5. rewrite <- H4. reflexivity.
Defined.

(** ** Macro instructions *)

(** The fixup [f] points at the four bytes of [w]. *)
Definition located (fs : list frag) (f : fixS) (w : Z) : Prop :=
  exists n x l, fx_frag f = Some n /\ fs !! n = Some x
    /\ (l ++ be32 w) `prefix_of` fr_literal x /\ fx_where f = Z.of_nat (length l).

Lemma located_ext (fs fs' : list frag) (f : fixS) (w : Z) :
  chain_ext fs fs' -> located fs f w -> located fs' f w.
Proof.
  intros He (n & x & l & H1 & H2 & H3 & H4). destruct (He n x H2) as (x' & Hx & [_ Hp]).
  exists n, x', l. split_and!; [done|done|by transitivity (fr_literal x)|done].
Qed.

(** [g'] is [g] after the words [ws], each with one fixup, and nothing else. *)
Record assembled (g g' : gas) (ws : list Z) (fx : list fixS) : Prop := {
  as_image : image (frags g') = image (frags g) ++ concat (be32 <$> ws);
  as_ext : chain_ext (frags g) (frags g');
  as_fixes : fixes g' = fixes g ++ fx;
  as_located : Forall2 (located (frags g')) fx ws;
  as_tables : tables_ok g';
  as_frags : frags_ok g';
  as_log : log g' = log g;
  as_dot : dot_value g' = dot_value g /\ dot_frag g' = dot_frag g
}.

Lemma assembled_trans (g1 g2 g3 : gas) (ws ws' : list Z) (fx fx' : list fixS) :
  assembled g1 g2 ws fx -> assembled g2 g3 ws' fx' -> assembled g1 g3 (ws ++ ws') (fx ++ fx').
Proof.
  intros [A1 A2 A3 A4 A5 A6 A7 [A8 A9]] [B1 B2 B3 B4 B5 B6 B7 [B8 B9]]. split; try done.
  - rewrite B1, A1, fmap_app, concat_app. by rewrite app_assoc.
  - exact (chain_ext_trans _ _ _ A2 B2).
  - by rewrite B3, A3, app_assoc.
  - apply Forall2_app; [|done]. eapply Forall2_impl; [exact A4|]. intros. by eapply located_ext.
  - congruence.
  - split; congruence.
Qed.

Section macros.
  Context {expr_parser : ExprParser} (junk : Z).

(** A call of [macro_build] that names an instruction of the table and one
    relocated immediate assembles one word with one fixup for the expression. *)
Lemma macro_build_ok (g : gas) (e : expressionS) (nm fmt : string) (args : list marg)
    (mo : fusion_opc_info_t) (w : Z) (rel : bfd_reloc_code_real) :
  tables_ok g -> frags_ok g -> mo ∈ until_null fusion_insn_all -> name mo = Some nm ->
  simple_expr e = true -> insn_reloc rel = true ->
  (forall g', macro_args (String.list_ascii_of_string fmt) args (Some e)
    (macro_index mo (INSERT_OPERAND (GEN_OPC (opc mo)) (set_word (create_insn mo) 0)))
    BFD_RELOC_UNUSED g' = Ret ((mk_insn mo w None 0 None, rel), g')) ->
  exists g' i off, macro_build junk (Some e) nm fmt args g = Ret (Some e, g')
    /\ assembled g g' [w] [new_fix g e rel (Some i) off].
Proof.
  intros Htab Hfr Hin Hnm He Hr Hargs.
  destruct (find_insn_ok nm mo g (to_op g Htab) (to_insn g Htab mo nm Hin Hnm)) as (t & E1 & Hok & Hm).
  destruct (append_insn_ok junk mo w e rel (set_op_hash t g) Hfr He (or_intror Hr))
    as (g' & fx & E2 & [M1 M2 M3 M4 M5 M6] & Hfx).
  unfold fixes_for in Hfx. rewrite decide_False in Hfx by (intros ->; done).
  destruct Hfx as (i & off & ->). exists g', i, off. split.
  - unfold macro_build. pnext E1. rewrite (bool_decide_true (name mo = Some nm)) by done.
    erewrite mbind_ret; [|reflexivity]. cbv zeta. pnext (Hargs (set_op_hash t g)).
    rewrite decide_False by (intros ->; done). rewrite (bool_decide_true (Some e <> None)) by discriminate.
    erewrite mbind_ret; [|reflexivity]. exact E2.
  - apply Forall_cons in M6 as [(n & x & l & N1 & N2 & N3 & N4) _].
    split; [by rewrite M1; cbn|exact M2|exact M4| | |done|by rewrite M5|by rewrite M5].
    + constructor; [|constructor]. exists n, x, l. by rewrite N3.
    + apply (tables_ok_same (set_op_hash t g)); [by apply tables_ok_hash|by rewrite M5|by rewrite M5].
Qed.

Definition lui_entry : fusion_opc_info_t :=
  mk_opc (Some "lui"%string) 0x4 USE_RDI FRMT_LI CPID_MAIN MASK_IMM_LI OPC_LI.
Definition lni_entry : fusion_opc_info_t :=
  mk_opc (Some "lni"%string) 0x8 USE_RDI FRMT_LI CPID_MAIN MASK_IMM_LI OPC_LI.
Definition li_entry : fusion_opc_info_t :=
  mk_opc (Some "li"%string) 0x0 USE_RDI FRMT_LI CPID_MAIN MASK_IMM_LI OPC_LI.
Definition jr_entry : fusion_opc_info_t :=
  mk_opc (Some "jr"%string) 0x1 USE_RAI_O FRMT_J CPID_MAIN MASK_IMM_J OPC_JMP.
Definition jrl_entry : fusion_opc_info_t :=
  mk_opc (Some "jrl"%string) 0x1 USE_RAI_O FRMT_J CPID_MAIN MASK_IMM_J OPC_JLNK.

Lemma macro_entries :
  Forall (.∈ until_null fusion_insn_all) [lui_entry; lni_entry; li_entry; jr_entry; jrl_entry].
Proof. apply (bool_decide_unpack _). vm_compute. exact I. Qed.

Lemma macro_entry_in (e : fusion_opc_info_t) :
  e ∈ [lui_entry; lni_entry; li_entry; jr_entry; jrl_entry] -> e ∈ until_null fusion_insn_all.
Proof. intros H. exact (proj1 (Forall_forall _ _) macro_entries e H). Qed.

(** The words of the macros' instructions, with an immediate still 0. *)
Lemma lui_word (reg : Z) :
  is_reg reg -> u32 (Z.lor (u32 (Z.lor (u32 (Z.lor 0 (GEN_OPC OPC_LI))) (GEN_DSEL_LI 4))) (GEN_RD reg))
                = encode (InsnLI 4 reg 0).
Proof.
  intros H. rewrite <- (Z2Nat.id reg) by (unfold is_reg in H; lia).
  assert (Hn : (Z.to_nat reg < 32)%nat) by (unfold is_reg in H; lia).
  generalize dependent (Z.to_nat reg). intros n Hn.
  do 32 (destruct n as [|n]; [reflexivity|]). lia.
Qed.

Lemma lni_word (reg : Z) :
  is_reg reg -> u32 (Z.lor (u32 (Z.lor (u32 (Z.lor 0 (GEN_OPC OPC_LI))) (GEN_DSEL_LI 8))) (GEN_RD reg))
                = encode (InsnLI 8 reg 0).
Proof.
  intros H. rewrite <- (Z2Nat.id reg) by (unfold is_reg in H; lia).
  assert (Hn : (Z.to_nat reg < 32)%nat) by (unfold is_reg in H; lia).
  generalize dependent (Z.to_nat reg). intros n Hn.
  do 32 (destruct n as [|n]; [reflexivity|]). lia.
Qed.

Ltac macro_step mo :=
  apply (macro_build_ok) with mo;
  [done|done|apply macro_entry_in; set_solver|reflexivity|done|reflexivity|reflexivity].

Lemma build_hi (g : gas) (e : expressionS) (reg : Z) :
  tables_ok g -> frags_ok g -> simple_expr e = true -> is_reg reg ->
  exists g' i off,
    macro_build junk (Some e) "lui" "d,i" [Mint reg; Mreloc BFD_RELOC_FUSION_HI16] g = Ret (Some e, g')
    /\ assembled g g' [encode (InsnLI 4 reg 0)] [new_fix g e BFD_RELOC_FUSION_HI16 (Some i) off].
Proof. intros Ht Hf He Hr. rewrite <- lui_word by done. macro_step lui_entry. Qed.

Lemma build_lo (g : gas) (e : expressionS) (reg : Z) :
  tables_ok g -> frags_ok g -> simple_expr e = true -> is_reg reg ->
  exists g' i off,
    macro_build junk (Some e) "lni" "d,i" [Mint reg; Mreloc BFD_RELOC_16] g = Ret (Some e, g')
    /\ assembled g g' [encode (InsnLI 8 reg 0)] [new_fix g e BFD_RELOC_16 (Some i) off].
Proof. intros Ht Hf He Hr. rewrite <- lni_word by done. macro_step lni_entry. Qed.

Lemma build_jrl (g : gas) (e : expressionS) :
  tables_ok g -> frags_ok g -> simple_expr e = true ->
  exists g' i off,
    macro_build junk (Some e) "jrl" "a,j" [Mint 22; Mreloc BFD_RELOC_FUSION_21] g = Ret (Some e, g')
    /\ assembled g g' [encode (InsnJL 22 0)] [new_fix g e BFD_RELOC_FUSION_21 (Some i) off].
Proof. intros Ht Hf He. macro_step jrl_entry. Qed.

Lemma build_jr (g : gas) (e : expressionS) :
  tables_ok g -> frags_ok g -> simple_expr e = true ->
  exists g' i off,
    macro_build junk (Some e) "jr" "a,j" [Mint 4; Mreloc BFD_RELOC_FUSION_21] g = Ret (Some e, g')
    /\ assembled g g' [encode (InsnJ 4 0)] [new_fix g e BFD_RELOC_FUSION_21 (Some i) off].
Proof. intros Ht Hf He. macro_step jr_entry. Qed.

Lemma new_fix_dot (g g' : gas) (e : expressionS) (r : bfd_reloc_code_real) (i : option nat) (off : Z) :
  dot_value g' = dot_value g /\ dot_frag g' = dot_frag g -> new_fix g' e r i off = new_fix g e r i off.
Proof. intros [H1 H2]. unfold new_fix. by rewrite H1, H2. Qed.

Lemma set_number_simple (e : expressionS) (n : Z) : simple_expr (set_number e n) = simple_expr e.
Proof. done. Qed.

(** The low half a [call] keeps for its jump. *)
Definition call_lower (n : Z) : Z := Z.land (s32 n) 0xffff.

(** A format with a blank in it stops [macro_build]. *)
Lemma bad_format (g : gas) (e : expressionS) (nm : string) (reg : Z) (rel : bfd_reloc_code_real)
    (mo : fusion_opc_info_t) :
  tables_ok g -> mo ∈ until_null fusion_insn_all -> name mo = Some nm ->
  macro_build junk (Some e) nm "d, u" [Mint reg; Mreloc rel] g
  = Fail (Ffatal "internal error: invalid macro. nice one").
Proof.
  intros Ht Hin Hnm.
  destruct (find_insn_ok nm mo g (to_op g Ht) (to_insn g Ht mo nm Hin Hnm)) as (t & E1 & _).
  unfold macro_build. pnext E1. rewrite (bool_decide_true (name mo = Some nm)) by done.
  erewrite mbind_ret; [|reflexivity]. reflexivity.
Qed.

(** Its format strings ["d, u"] contain a blank, which [macro_build] refuses. *)
Lemma load_const_fatal (g : gas) (reg : Z) (ep : expressionS) :
  tables_ok g -> X_op ep = O_constant ->
  load_const junk reg ep g = Fail (Ffatal "internal error: invalid macro. nice one").
Proof.
  intros Ht Hc. unfold load_const. rewrite bool_decide_true by done. cbn [negb]. cbv zeta.
  set (lower := Z.land (u32 (X_add_number ep)) 0xffff).
  destruct (s64 (X_add_number ep - lower) =? 0) eqn:Hu; cbn [negb].
  - erewrite mbind_ret; [|reflexivity]. cbv beta iota. rewrite orb_true_r.
    apply mbind_fail. apply (bad_format g _ "li" _ _ li_entry Ht); [|done].
    apply macro_entry_in. set_solver.
  - apply mbind_fail, mbind_fail. apply (bad_format g _ "lui" _ _ lui_entry Ht); [|done].
    apply macro_entry_in. set_solver.
Qed.

Lemma load_address_fatal (g : gas) (reg : Z) (ep : expressionS) :
  tables_ok g -> X_op ep <> O_symbol ->
  load_address junk reg ep g = Fail (Ffatal "internal error: invalid macro. nice one").
Proof.
  intros Ht Hs. unfold load_address. rewrite (bool_decide_false (X_op ep = O_symbol)), orb_false_r by done.
  destruct (decide (X_op ep = O_constant)) as [Hc|Hc].
  - rewrite bool_decide_true by done. erewrite mbind_ret; [|reflexivity]. rewrite bool_decide_true by done.
    by apply load_const_fatal.
  - rewrite bool_decide_false by done. erewrite mbind_ret; [|reflexivity]. cbn [X_op].
    rewrite bool_decide_true by done. apply load_const_fatal; [|done]. by destruct Ht; split.
Qed.

(** Two instructions, or none when the offset is no sign-extended 32-bit number. *)
Lemma load_address_symbol (g : gas) (reg : Z) (e : expressionS) :
  tables_ok g -> frags_ok g -> is_reg reg -> X_op e = O_symbol ->
  if IS_SEXT_32BIT_NUM (X_add_number e) then
    exists g' i1 o1 i2 o2,
      load_address junk reg e g = Ret (tt, g')
      /\ assembled g g' [encode (InsnLI 4 reg 0); encode (InsnLI 8 reg 0)]
           [new_fix g e BFD_RELOC_FUSION_HI16 (Some i1) o1; new_fix g e BFD_RELOC_16 (Some i2) o2]
  else load_address junk reg e g = Ret (tt, g).
Proof.
  intros Ht Hf Hr Hs. assert (simple_expr e = true) as He by (unfold simple_expr; by rewrite Hs).
  destruct (IS_SEXT_32BIT_NUM (X_add_number e)) eqn:Hn; unfold load_address; rewrite Hs;
    (erewrite mbind_ret; [|reflexivity]); rewrite Hs, Hn; cbn [bool_decide decide_rel];
    rewrite bool_decide_false by done; [|done].
  destruct (build_hi g e reg Ht Hf He Hr) as (g1 & i1 & o1 & E1 & A1).
  destruct (build_lo g1 e reg (as_tables _ _ _ _ A1) (as_frags _ _ _ _ A1) He Hr) as (g2 & i2 & o2 & E2 & A2).
  rewrite (new_fix_dot g g1 _ _ _ _ (as_dot _ _ _ _ A1)) in A2.
  exists g2, i1, o1, i2, o2. split; [pnext E1; pnext E2; reflexivity|]. exact (assembled_trans _ _ _ _ _ _ _ A1 A2).
Qed.

(** C38.  What the three macro instructions assemble to, each word with its own fixup at its
    own bytes and without a report: [call x] is [lui tmp0] with the upper-half relocation
    and [jrl tmp0] with the 21-bit one, the two offsets adding up to the operand's; [ret]
    is [jr ra] with offset 0; [la rd, symbol] is [lui rd] and [lni rd] with the two half
    relocations of the same expression, but nothing at all, without a report, when the
    offset from the symbol is no sign-extended 32-bit number; and [la] with any other operand, the
    constants included, stops the assembler with the internal-error message of
    [macro_build]. *)
Theorem macros_expand (g : gas) (mo : fusion_opc_info_t) (w rd : Z) (e : expressionS) :
  tables_ok g -> frags_ok g -> cpid mo = CPID_MACRO -> GET_RD w = rd ->
  (index mo = M_CALL -> simple_expr e = true -> exists g' i1 o1 i2 o2,
     macro junk (mk_insn mo w None 0 None) e g = Ret (tt, g')
     /\ assembled g g' [encode (InsnLI 4 22 0); encode (InsnJL 22 0)]
          [new_fix g (set_number e (s64 (X_add_number e - call_lower (X_add_number e))))
             BFD_RELOC_FUSION_HI16 (Some i1) o1;
           new_fix g (set_number e (call_lower (X_add_number e))) BFD_RELOC_FUSION_21 (Some i2) o2])
  /\ (index mo = M_RET -> simple_expr e = true -> exists g' i o,
     macro junk (mk_insn mo w None 0 None) e g = Ret (tt, g')
     /\ assembled g g' [encode (InsnJ 4 0)] [new_fix g (set_number e 0) BFD_RELOC_FUSION_21 (Some i) o])
  /\ (index mo = M_LA -> X_op e = O_symbol ->
     if IS_SEXT_32BIT_NUM (X_add_number e) then
       exists g' i1 o1 i2 o2,
         macro junk (mk_insn mo w None 0 None) e g = Ret (tt, g')
         /\ assembled g g' [encode (InsnLI 4 rd 0); encode (InsnLI 8 rd 0)]
              [new_fix g e BFD_RELOC_FUSION_HI16 (Some i1) o1; new_fix g e BFD_RELOC_16 (Some i2) o2]
     else macro junk (mk_insn mo w None 0 None) e g = Ret (tt, g))
  /\ (index mo = M_LA -> X_op e <> O_symbol ->
     macro junk (mk_insn mo w None 0 None) e g = Fail (Ffatal "internal error: invalid macro. nice one")).
Proof.
  intros Ht Hf Hm <-. unfold macro. cbn [insn_mo insn_word]. rewrite Hm.
  change (negb (CPID_MACRO =? CPID_MACRO)) with false. cbv iota zeta. split_and!.
  - intros -> He. change (M_CALL =? M_LA) with false. change (M_CALL =? M_CALL) with true. cbv iota.
    unfold fusion_call. cbv zeta. cbn [X_add_number set_number]. fold (call_lower (X_add_number e)).
    destruct (build_hi g (set_number e (s64 (X_add_number e - call_lower (X_add_number e)))) 22 Ht Hf He)
      as (g1 & i1 & o1 & E1 & A1); [unfold is_reg; lia|].
    destruct (build_jrl g1 (set_number e (call_lower (X_add_number e))) (as_tables _ _ _ _ A1)
      (as_frags _ _ _ _ A1) He) as (g2 & i2 & o2 & E2 & A2).
    rewrite (new_fix_dot g g1 _ _ _ _ (as_dot _ _ _ _ A1)) in A2.
    exists g2, i1, o1, i2, o2. split; [pnext E1; pnext E2; reflexivity|]. exact (assembled_trans _ _ _ _ _ _ _ A1 A2).
  - intros -> He. change (M_RET =? M_LA) with false. change (M_RET =? M_CALL) with false.
    change (M_RET =? M_RET) with true. cbv iota. unfold fusion_return.
    destruct (build_jr g (set_number e 0) Ht Hf He) as (g1 & i1 & o1 & E1 & A1).
    exists g1, i1, o1. split; [pnext E1; reflexivity|exact A1].
  - intros ->. exact (load_address_symbol g _ e Ht Hf (proj1 (GET_reg_range w))).
  - intros ->. by apply load_address_fatal.
Qed.
End macros.

Definition call_entry : fusion_opc_info_t :=
  mk_opc (Some "call"%string) M_CALL USE_RAI_O FRMT_J CPID_MACRO MASK_IMM_J OPC_JLNK.
Definition la_entry : fusion_opc_info_t :=
  mk_opc (Some "la"%string) M_LA USE_RDI FRMT_LI CPID_MACRO MASK_IMM_LI OPC_LI.

Lemma macros_expand_witness :
  exists g g', md_begin true (line_gas "call f") = Ret (tt, g)
    /\ macro 0xcc (mk_insn call_entry 0 None 0 None) (mk_expr (Some (Sym 7)) None 0x12345 O_symbol) g
       = Ret (tt, g')
    /\ image (frags g') = be32 (encode (InsnLI 4 22 0)) ++ be32 (encode (InsnJL 22 0))
    /\ (fx_offset <$> fixes g') = [0x10000; 0x2345]
    /\ macro 0xcc (mk_insn la_entry 0 None 0 None) (mk_expr None None 5 O_constant) g
       = Fail (Ffatal "internal error: invalid macro. nice one")
    /\ macro 0xcc (mk_insn la_entry 0 None 0 None) (mk_expr (Some (Sym 7)) None 0x100000000 O_symbol) g = Ret (tt, g).
Proof.
  destruct (md_begin_ok true (line_gas "call f")) as (g & Hg & Htab & Hf & Hob & Hx & _ & _).
  assert (Hok : frags_ok g) by (unfold frags_ok; rewrite Hf, Hob; exact demo_gas_ok).
  destruct (macros_expand 0xcc g call_entry 0 0 (mk_expr (Some (Sym 7)) None 0x12345 O_symbol)
    Htab Hok eq_refl eq_refl) as [Hc _].
  destruct (macros_expand 0xcc g la_entry 0 0 (mk_expr None None 5 O_constant)
    Htab Hok eq_refl eq_refl) as (_ & _ & _ & Hl).
  destruct (macros_expand 0xcc g la_entry 0 0 (mk_expr (Some (Sym 7)) None 0x100000000 O_symbol)
    Htab Hok eq_refl eq_refl) as (_ & _ & Hb & _).
  destruct (Hc eq_refl eq_refl) as (g' & i1 & o1 & i2 & o2 & E & A).
  exists g, g'. split; [exact Hg|]. split; [exact E|]. split; [|split; [|split]].
  - rewrite (as_image _ _ _ _ A), Hf. reflexivity.
  - rewrite (as_fixes _ _ _ _ A), Hx. reflexivity.
  - apply Hl; [reflexivity|discriminate].
  - exact (Hb eq_refl eq_refl).
Defined.
