(* ===== verification/FusionFix.v ===== *)
(** * Fixups: gas/config/tc-fusion.c and [fixup_segment] of gas/write.c

    At the end of the assembly every fixup gets its value, [md_apply_fix] puts
    it into the bytes of its frag, and what is not settled becomes a relocation
    ([tc_gen_reloc]).  The symbol table is a parameter: what a symbol's segment,
    value and binding are once every symbol is resolved.  The target does not
    relax at link time and does not support [DIFF_EXPR_OK], so two of the
    branches of [fixup_segment] are constant conditions; marking a symbol as
    used in a relocation is not part of the state. *)
From S2P Require Import Prelude Bits FusionOpc Endian GasHash BfdReloc FusionReloc GasState.
From S2P Require Import GasResolve FusionParse FusionAsm FusionIsa.
#[local] Open Scope Z_scope.

(** ** Symbols *)
Record sym_info : Type := mk_sym {
  sy_segment : segT;
  sy_value : Z;
  sy_weak : bool;
  sy_global : bool;
  sy_ifunc : bool
}.

(** The resolved symbol table; [abs_section_sym] is the symbol of the absolute
    section, [extern_force_reloc] the configured [EXTERN_FORCE_RELOC]. *)
Class SymTab : Type := {
  sym : symbolS -> sym_info;
  abs_section_sym : symbolS;
  extern_force_reloc : bool
}.

Section fix_.
  Context {symtab : SymTab}.

Definition S_GET_VALUE (s : symbolS) : Z := sy_value (sym s).
Definition S_GET_SEGMENT (s : symbolS) : segT := sy_segment (sym s).

Definition S_FORCE_RELOC (s : symbolS) (strict : bool) : bool :=
  (strict && (sy_weak (sym s) || (extern_force_reloc && sy_global (sym s)))) || sy_ifunc (sym s)
  || bool_decide (S_GET_SEGMENT s = seg_undefined) || bool_decide (S_GET_SEGMENT s = seg_common).

Definition generic_force_reloc (f : fixS) : bool :=
  match fx_addsy f with
  | None => false
  | Some s => S_FORCE_RELOC s (bool_decide (fx_subsy f = None))
  end.

Definition TC_FORCE_RELOCATION_ABS (f : fixS) : bool := generic_force_reloc f.
Definition TC_FORCE_RELOCATION_LOCAL (f : fixS) : bool := negb (fx_pcrel f) || generic_force_reloc f.
Definition TC_FORCE_RELOCATION_SUB_SAME (seg : segT) : bool := negb (SEG_NORMAL seg).

(** ** Applying a fixup *)
Definition set_addnumber (v : Z) (f : fixS) : fixS :=
  mk_fix (fx_pcrel f) (fx_tcbit f) (fx_done f) (fx_no_overflow f) (fx_signed f) (fx_size f)
    (fx_frag f) (fx_where f) (fx_addsy f) (fx_subsy f) (fx_offset f) (fx_dot_value f)
    (fx_dot_frag f) (fx_r_type f) v.
Definition set_done (b : bool) (f : fixS) : fixS :=
  mk_fix (fx_pcrel f) (fx_tcbit f) b (fx_no_overflow f) (fx_signed f) (fx_size f)
    (fx_frag f) (fx_where f) (fx_addsy f) (fx_subsy f) (fx_offset f) (fx_dot_value f)
    (fx_dot_frag f) (fx_r_type f) (fx_addnumber f).
Definition set_syms (add sub : option symbolS) (off : Z) (pcrel : bool) (f : fixS) : fixS :=
  mk_fix pcrel (fx_tcbit f) (fx_done f) (fx_no_overflow f) (fx_signed f) (fx_size f)
    (fx_frag f) (fx_where f) add sub off (fx_dot_value f) (fx_dot_frag f) (fx_r_type f)
    (fx_addnumber f).

(** A [long]. *)
Definition md_pcrel_from (f : fixS) : M Z :=
  x ← get_frag (fx_frag f); mret (s64 (u64 (fx_where f + fr_address x))).

(** [bfd_putb32 (bits | bfd_getb32 (buf), buf)] at the fixup's place. *)
Definition or_word (f : fixS) (bits : Z) : M unit :=
  x ← get_frag (fx_frag f);
  w ← lift (bfd_getb32 (fr_literal x) (fx_where f));
  l ← lift (bfd_putb32 (Z.lor bits w) (fr_literal x) (fx_where f));
  match fx_frag f with
  | Some i => put_frag i (mk_frag (fr_address x) (fr_fix x) (fr_var x) (fr_offset x) (fr_type x) l)
  | None => fail Foob
  end.

(** [if (fixP->fx_addsy == NULL) fixP->fx_done = TRUE;] *)
Definition done_if_absolute (f : fixS) : fixS :=
  if decide (fx_addsy f = None) then set_done true f else f.

Definition const_fix (f : fixS) (v : Z) : M fixS :=
  b ← lift (fusion_apply_const_reloc (fx_r_type f) v);
  _ ← or_word f b;
  mret (done_if_absolute f).

(** The three pc-relative cases: a value of 0 and a fixup without symbol are
    left alone; otherwise the distance is checked against [lo] and [hi] and its
    bits [gen] put into the word. *)
Definition pcrel_fix (f : fixS) (v lo hi : Z) (msg : string) (gen : Z -> Z) : M fixS :=
  if v =? 0 then mret f else
  match fx_addsy f with
  | None => mret f
  | Some s =>
      let target := u64 (S_GET_VALUE s + v) in
      from ← md_pcrel_from f;
      let delta := u64 (target - from) in
      _ ← when ((s32 delta <? lo) || (hi <? s32 delta)) (as_bad msg);
      _ ← or_word f (gen delta);
      mret f
  end.

Definition jump_fix (f : fixS) (v : Z) : M fixS :=
  if v =? 0 then mret f else
  match fx_addsy f with
  | Some s =>
      let target := u64 (S_GET_VALUE s + v) in
      _ ← when (0x001fffff <? target) (as_bad "too large jump offset");
      _ ← or_word f (GEN_J_IMM target);
      mret f
  | None =>
      b ← lift (fusion_apply_const_reloc (fx_r_type f) v);
      _ ← or_word f b;
      mret (set_done true f)
  end.

(** Returns the fixup as it leaves it; what follows [as_fatal] in the default
    case is not reached. *)
Definition md_apply_fix (f : fixS) (v : Z) : M fixS :=
  let f := set_addnumber v f in
  match fx_r_type f with
  | BFD_RELOC_32 | BFD_RELOC_8 | BFD_RELOC_FUSION_HI16 | BFD_RELOC_16 | BFD_RELOC_FUSION_STORE
  | BFD_RELOC_FUSION_LOAD => const_fix f v
  | BFD_RELOC_FUSION_12 => const_fix f v
  | BFD_RELOC_FUSION_14_PCREL =>
      pcrel_fix f v (-8192) 8191 "too large pc relative branch" GEN_B_IMM
  | BFD_RELOC_FUSION_21_PCREL =>
      pcrel_fix f v (-1048576) 1048576 "too large pc relative jump" GEN_J_IMM
  | BFD_RELOC_16_PCREL | BFD_RELOC_HI16_PCREL =>
      pcrel_fix f v (-32768) 32767
        "too large pc relative load. No loading in a white zone" GEN_LI_IMM
  | BFD_RELOC_FUSION_21 => jump_fix f v
  | _ => as_fatal "Unknown reloc code: %d. Please report this to the devs"
  end.

(** ** All the fixups of a segment *)

(** The subtracted symbol: the fixup and the value so far. *)
Definition fix_sub (f : fixS) (add_number : Z) (this : segT) : M (fixS * Z) :=
  match fx_subsy f with
  | None => mret (f, add_number)
  | Some sub =>
      let sub_seg := S_GET_SEGMENT sub in
      let no_force := negb (S_FORCE_RELOC sub false) in
      let same :=
        match fx_addsy f with
        | Some add =>
            bool_decide (sub_seg = S_GET_SEGMENT add) && negb (S_FORCE_RELOC add false) && no_force
            && negb (TC_FORCE_RELOCATION_SUB_SAME (S_GET_SEGMENT add))
        | None => false
        end in
      match same, fx_addsy f with
      | true, Some add =>
          let n := u64 (u64 (add_number + S_GET_VALUE add) - S_GET_VALUE sub) in
          mret (set_syms None None n (fx_pcrel f) f, n)
      | _, _ =>
          if bool_decide (sub_seg = seg_absolute) && no_force then
            let n := u64 (add_number - S_GET_VALUE sub) in
            mret (set_syms (fx_addsy f) None n (fx_pcrel f) f, n)
          else
            _ ← as_bad "can't resolve `%s' {%s section} - `%s' {%s section}";
            mret (f, add_number)
      end
  end.

(** The added symbol. *)
Definition fix_add (f : fixS) (add_number : Z) (this : segT) : M (fixS * Z) :=
  match fx_addsy f with
  | None => mret (f, add_number)
  | Some add =>
      let seg := S_GET_SEGMENT add in
      if bool_decide (seg = this) && negb (S_FORCE_RELOC add false)
         && negb (TC_FORCE_RELOCATION_LOCAL f) then
        let n := u64 (add_number + S_GET_VALUE add) in
        n' ← (if fx_pcrel f then from ← md_pcrel_from f; mret (u64 (n - from)) else mret n);
        mret (set_syms None (fx_subsy f) n false f, n')
      else if bool_decide (seg = seg_absolute) && negb (S_FORCE_RELOC add false)
              && negb (TC_FORCE_RELOCATION_ABS f) then
        let n := u64 (add_number + S_GET_VALUE add) in
        mret (set_syms None (fx_subsy f) n (fx_pcrel f) f, n)
      else if negb (bool_decide (seg = seg_undefined)) && negb (bool_decide (seg = seg_common)) then
        mret (f, u64 (add_number + S_GET_VALUE add))
      else mret (f, add_number)
  end.

Definition fix_pcrel (f : fixS) (add_number : Z) : M (fixS * Z) :=
  if fx_pcrel f then
    from ← md_pcrel_from f;
    mret (if negb (fx_done f) && bool_decide (fx_addsy f = None)
          then set_syms (Some abs_section_sym) (fx_subsy f) (fx_offset f) (fx_pcrel f) f else f,
          u64 (add_number - from))
  else mret (f, add_number).

(** The generic overflow check of a field of [fx_size] bytes. *)
Definition field_overflow (f : fixS) (add_number : Z) : bool :=
  negb (fx_no_overflow f) && negb (fx_size f =? 0) && (fx_size f <? 8)
  && (let mask := u64 (Z.shiftl (2 ^ 64 - 1) (fx_size f * 8 - (if fx_signed f then 1 else 0))) in
      negb (Z.land add_number mask =? 0) && negb (Z.land add_number mask =? mask)).

Definition fixup_one (f : fixS) (this : segT) : M fixS :=
  let add_number := fx_offset f in
  '(f, add_number) ← fix_sub f add_number this;
  '(f, add_number) ← fix_add f add_number this;
  '(f, add_number) ← fix_pcrel f add_number;
  f ← (if fx_done f then mret f else md_apply_fix f add_number);
  let f := if negb (fx_done f) && bool_decide (fx_addsy f = None)
           then set_syms (Some abs_section_sym) (fx_subsy f) (fx_offset f) (fx_pcrel f) f else f in
  _ ← when (field_overflow f add_number) (as_bad "value of %s too large for field of %d bytes at %s");
  mret f.

Definition fixup_segment (this : segT) : M unit := for_fixes (fun f => fixup_one f this).

(** ** Relocations *)

(** An [arelent] as [tc_gen_reloc] fills it: [None] is a field it leaves as
    [xmalloc] returned it. *)
Record gen_reloc : Type := mk_gen {
  gr_sym : option symbolS;
  gr_address : option Z;
  gr_addend : option Z;
  gr_howto : reloc_howto
}.

Definition pcrel_addend (delta lo hi : Z) (msg : string) (gen : Z -> Z) (address : Z)
  : M (option Z * option Z) :=
  if (s32 delta <? lo) || (hi <? s32 delta) then _ ← as_bad msg; mret (None, None)
  else mret (Some (gen delta), Some address).

(** The addend is a [bfd_vma]. *)
Definition tc_gen_reloc (f : fixS) : M (option gen_reloc) :=
  x ← get_frag (fx_frag f);
  let address := u64 (fr_address x + fx_where f) in
  let delta := u64 (fr_address x + fx_addnumber f) in
  '(addend, address) ←
    (match fx_r_type f with
     | BFD_RELOC_FUSION_21_PCREL =>
         pcrel_addend delta (-1048576) 1048575 "too large pc relative jump" GEN_J_IMM address
     | BFD_RELOC_FUSION_14_PCREL =>
         pcrel_addend delta (-8192) 8191 "too large pc relative branch" (fun d => d) address
     | BFD_RELOC_FUSION_21 => mret (Some (GEN_J_IMM (fx_addnumber f)), Some address)
     | _ => mret (Some (fx_addnumber f), Some address)
     end);
  match fusion_reloc_type_lookup (fx_r_type f) with
  | None => _ ← as_bad "Cannot represent relocation type %s"; mret None
  | Some howto => mret (Some (mk_gen (fx_addsy f) address addend howto))
  end.


(** ** Storing into a frag *)

(** The fixup lies inside its frag, whose bytes are bytes. *)
Record fix_in (g : gas) (f : fixS) (n : nat) (x : frag) : Prop := {
  fi_frag : fx_frag f = Some n;
  fi_at : frags g !! n = Some x;
  fi_lo : 0 <= fx_where f;
  fi_hi : fx_where f + 4 <= Z.of_nat (length (fr_literal x));
  fi_bytes : bytes_ok (fr_literal x)
}.

(** The frag [x] with other bytes. *)
Definition with_bytes (x : frag) (l : list Z) : frag :=
  mk_frag (fr_address x) (fr_fix x) (fr_var x) (fr_offset x) (fr_type x) l.

Lemma or_word_ok (g : gas) (f : fixS) (n : nat) (x : frag) (w bits : Z) :
  fix_in g f n x -> bfd_getb32 (fr_literal x) (fx_where f) = Ret w ->
  exists l, or_word f bits g
    = Ret (tt, set_frags (<[n := with_bytes x l]> (frags g)) (frch_obstack g) g)
    /\ bfd_getb32 l (fx_where f) = Ret (u32 (Z.lor bits w))
    /\ same_outside (fr_literal x) l (fx_where f) 4 /\ bytes_ok l.
Proof.
  intros [H1 H2 H3 H4 H5] Hw.
  destruct (bfd_put_32_spec (Z.lor bits w) (fr_literal x) (fx_where f) H3 H4 H5) as (l & P1 & P2 & P3 & P4).
  exists l. split; [|done]. unfold or_word. rewrite H1.
  assert (E : get_frag (Some n) g = Ret (x, g)) by (unfold get_frag; by rewrite H2).
  pnext E. rewrite (lift_ret _ _ _ _ Hw). unfold bfd_put_32 in P1. rewrite (lift_ret _ _ _ _ P1).
  reflexivity.
Qed.

Lemma fix_in_addnumber (g : gas) (f : fixS) (n : nat) (x : frag) (v : Z) :
  fix_in g f n x -> fix_in g (set_addnumber v f) n x.
Proof. intros []. by split. Qed.

(** ** Constants *)

(** A fixup for a plain constant: no symbol, not relative. *)
Definition plain_const (f : fixS) : Prop :=
  fx_addsy f = None /\ fx_subsy f = None /\ fx_pcrel f = false /\ fx_done f = false.

Lemma fixup_plain (f : fixS) (this : segT) (g : gas) :
  plain_const f ->
  fixup_one f this g =
  (f' ← md_apply_fix f (fx_offset f);
   let f' := if negb (fx_done f') && bool_decide (fx_addsy f' = None)
             then set_syms (Some abs_section_sym) (fx_subsy f') (fx_offset f') (fx_pcrel f') f' else f' in
   _ ← when (field_overflow f' (fx_offset f)) (as_bad "value of %s too large for field of %d bytes at %s");
   mret f') g.
Proof.
  intros (H1 & H2 & H3 & H4). unfold fixup_one, fix_sub. rewrite H2.
  erewrite mbind_ret; [|reflexivity]. cbv beta iota. unfold fix_add. rewrite H1.
  erewrite mbind_ret; [|reflexivity]. cbv beta iota. unfold fix_pcrel. rewrite H3.
  erewrite mbind_ret; [|reflexivity]. cbv beta iota. rewrite H4. reflexivity.
Qed.

(** The fixups a constant is put into at once. *)
Definition const_reloc (r : bfd_reloc_code_real) : bool :=
  match r with
  | BFD_RELOC_32 | BFD_RELOC_8 | BFD_RELOC_FUSION_HI16 | BFD_RELOC_16 | BFD_RELOC_FUSION_STORE
  | BFD_RELOC_FUSION_LOAD | BFD_RELOC_FUSION_12 => true
  | _ => false
  end.

Lemma const_reloc_bits (r : bfd_reloc_code_real) (v : Z) :
  const_reloc r = true \/ r = BFD_RELOC_FUSION_21 ->
  exists b, fusion_apply_const_reloc r v = Ret b /\ 0 <= b < 2 ^ 32.
Proof.
  intros [H| ->]; [destruct r; try done|]; eexists; (split; [reflexivity|apply u32_range]).
Qed.

Lemma md_apply_const (f : fixS) (v : Z) (g : gas) (n : nat) (x : frag) (w : Z) :
  plain_const f -> fix_in g f n x ->
  const_reloc (fx_r_type f) = true \/ (fx_r_type f = BFD_RELOC_FUSION_21 /\ v <> 0) ->
  bfd_getb32 (fr_literal x) (fx_where f) = Ret w ->
  exists b l, fusion_apply_const_reloc (fx_r_type f) v = Ret b
    /\ md_apply_fix f v g
       = Ret (set_done true (set_addnumber v f),
              set_frags (<[n := with_bytes x l]> (frags g)) (frch_obstack g) g)
    /\ bfd_getb32 l (fx_where f) = Ret (Z.lor b w)
    /\ same_outside (fr_literal x) l (fx_where f) 4 /\ bytes_ok l.
Proof.
  intros (Ha & _) Hin Hr Hw.
  destruct (const_reloc_bits (fx_r_type f) v) as (b & Hb & Hbr); [destruct Hr as [|[]]; auto|].
  destruct (or_word_ok g (set_addnumber v f) n x w b (fix_in_addnumber g f n x v Hin) Hw)
    as (l & E & Hg & Hs & Hok).
  assert (Hwr : 0 <= w < 2 ^ 32).
  { destruct (bfd_get_32_ret (fr_literal x) (fx_where f) (fi_lo _ _ _ _ Hin) (fi_hi _ _ _ _ Hin)
      (fi_bytes _ _ _ _ Hin)) as (w' & Hw' & Hr'). unfold bfd_get_32 in Hw'. congruence. }
  rewrite u32_small in Hg by (apply lor_range; lia).
  exists b, l. split; [done|]. split; [|done]. unfold md_apply_fix. cbv zeta.
  change (fx_r_type (set_addnumber v f)) with (fx_r_type f).
  destruct Hr as [Hr|[Hr Hv]].
  - assert (Hc : const_fix (set_addnumber v f) v g
      = Ret (set_done true (set_addnumber v f),
             set_frags (<[n := with_bytes x l]> (frags g)) (frch_obstack g) g)).
    { unfold const_fix. change (fx_r_type (set_addnumber v f)) with (fx_r_type f).
      rewrite (lift_ret _ _ _ _ Hb). pnext E. unfold done_if_absolute.
      change (fx_addsy (set_addnumber v f)) with (fx_addsy f). by rewrite decide_True. }
    destruct (fx_r_type f); done.
  - rewrite Hr. unfold jump_fix. rewrite (proj2 (Z.eqb_neq v 0) Hv).
    change (fx_addsy (set_addnumber v f)) with (fx_addsy f). rewrite Ha.
    change (fx_r_type (set_addnumber v f)) with (fx_r_type f).
    rewrite (lift_ret _ _ _ _ Hb). by pnext E.
Qed.

(** A fixup for a constant is settled by the assembler: its word is replaced
    by the word [or]ed with the constant's bits for its relocation, the other
    bytes of its frag and the other frags stay, the fixup is marked done, and
    the only report is the generic one when the value does not fit 32 bits. *)
Lemma fixup_constant (f : fixS) (this : segT) (g : gas) (n : nat) (x : frag) (w : Z) :
  plain_const f -> fix_in g f n x ->
  const_reloc (fx_r_type f) = true \/ (fx_r_type f = BFD_RELOC_FUSION_21 /\ fx_offset f <> 0) ->
  bfd_getb32 (fr_literal x) (fx_where f) = Ret w ->
  exists b l g', fusion_apply_const_reloc (fx_r_type f) (fx_offset f) = Ret b
    /\ fixup_one f this g = Ret (set_done true (set_addnumber (fx_offset f) f), g')
    /\ frags g' = <[n := with_bytes x l]> (frags g)
    /\ bfd_getb32 l (fx_where f) = Ret (Z.lor b w)
    /\ same_outside (fr_literal x) l (fx_where f) 4 /\ bytes_ok l /\ fixes g' = fixes g
    /\ log g' = log g ++ (if field_overflow f (fx_offset f)
                          then [Bad "value of %s too large for field of %d bytes at %s"] else []).
Proof.
  intros Hp Hin Hr Hw. rewrite fixup_plain by done.
  destruct (md_apply_const f (fx_offset f) g n x w Hp Hin Hr Hw) as (b & l & Hb & E & Hg & Hs & Hok).
  pnext E. cbv zeta. cbn [fx_done set_done negb andb].
  change (field_overflow (set_done true (set_addnumber (fx_offset f) f)) (fx_offset f))
    with (field_overflow f (fx_offset f)).
  exists b, l. destruct (field_overflow f (fx_offset f)); eexists; (split; [done|]);
    (split; [reflexivity|]); split_and!; try done. cbn. by rewrite app_nil_r.
Qed.
(** ** Branches *)

(** What [fixup_segment] makes the value of a fixup against a symbol outside
    the absolute section. *)
Definition sym_value (f : fixS) (s : symbolS) : Z :=
  if bool_decide (S_GET_SEGMENT s = seg_undefined) || bool_decide (S_GET_SEGMENT s = seg_common)
  then fx_offset f else u64 (fx_offset f + S_GET_VALUE s).

(** A fixup as [append_insn] makes it for an operand with a symbol. *)
Definition symbolic (f : fixS) (s : symbolS) : Prop :=
  fx_addsy f = Some s /\ fx_subsy f = None /\ fx_pcrel f = false /\ fx_done f = false
  /\ S_GET_SEGMENT s <> seg_absolute.

Lemma fixup_symbolic (f : fixS) (s : symbolS) (this : segT) (g : gas) :
  symbolic f s ->
  fixup_one f this g =
  (f' ← md_apply_fix f (sym_value f s);
   let f' := if negb (fx_done f') && bool_decide (fx_addsy f' = None)
             then set_syms (Some abs_section_sym) (fx_subsy f') (fx_offset f') (fx_pcrel f') f' else f' in
   _ ← when (field_overflow f' (sym_value f s)) (as_bad "value of %s too large for field of %d bytes at %s");
   mret f') g.
Proof.
  intros (H1 & H2 & H3 & H4 & H5). unfold fixup_one, fix_sub. rewrite H2.
  erewrite mbind_ret; [|reflexivity]. cbv beta iota. unfold fix_add, TC_FORCE_RELOCATION_LOCAL.
  rewrite H1, H3, (bool_decide_eq_false_2 _ H5). cbn [negb orb]. rewrite andb_false_r. cbn [andb].
  assert (E : (if negb (bool_decide (S_GET_SEGMENT s = seg_undefined))
                  && negb (bool_decide (S_GET_SEGMENT s = seg_common))
               then (mret (f, u64 (fx_offset f + S_GET_VALUE s)) : M (fixS * Z))
               else mret (f, fx_offset f)) g = Ret ((f, sym_value f s), g)).
  { unfold sym_value. by destruct (bool_decide _), (bool_decide _). }
  erewrite mbind_ret; [|exact E]. cbv beta iota. unfold fix_pcrel. rewrite H3.
  erewrite mbind_ret; [|reflexivity]. cbv beta iota. rewrite H4. reflexivity.
Qed.

(** The distance [md_apply_fix] checks and stores. *)
Definition branch_delta (f : fixS) (s : symbolS) (x : frag) : Z :=
  u64 (u64 (S_GET_VALUE s + sym_value f s) - s64 (u64 (fx_where f + fr_address x))).

Definition branch_far (d : Z) : bool := (s32 d <? -8192) || (8191 <? s32 d).

Lemma md_apply_branch (f : fixS) (s : symbolS) (g : gas) (n : nat) (x : frag) (w : Z) :
  fx_addsy f = Some s -> fx_r_type f = BFD_RELOC_FUSION_14_PCREL -> fix_in g f n x ->
  bfd_getb32 (fr_literal x) (fx_where f) = Ret w ->
  let v := sym_value f s in
  exists l g', md_apply_fix f v g = Ret (set_addnumber v f, g')
    /\ (frags g' = <[n := with_bytes x l]> (frags g) /\ fixes g' = fixes g)
    /\ bfd_getb32 l (fx_where f)
       = Ret (if v =? 0 then w else u32 (Z.lor (GEN_B_IMM (branch_delta f s x)) w))
    /\ same_outside (fr_literal x) l (fx_where f) 4 /\ bytes_ok l
    /\ log g' = log g ++ (if negb (v =? 0) && branch_far (branch_delta f s x)
                          then [Bad "too large pc relative branch"] else []).
Proof.
  intros Hs Hr Hin Hw v. pose proof Hin as [F1 F2 _ _ F5].
  unfold md_apply_fix. cbv zeta. change (fx_r_type (set_addnumber v f)) with (fx_r_type f).
  rewrite Hr. unfold pcrel_fix. change (fx_addsy (set_addnumber v f)) with (fx_addsy f). rewrite Hs.
  destruct (Z.eqb_spec v 0) as [Hv|Hv].
  { exists (fr_literal x), g. split; [done|]. split.
    { split; [|done]. symmetry. apply list_insert_id. rewrite F2. by destruct x. }
    split; [done|]. split; [done|]. split; [done|]. cbn. by rewrite app_nil_r. }
  set (g1 := set_log (log g ++ if branch_far (branch_delta f s x)
                               then [Bad "too large pc relative branch"] else []) g).
  assert (Hin1 : fix_in g1 (set_addnumber v f) n x) by (destruct Hin; by split).
  destruct (or_word_ok g1 (set_addnumber v f) n x w (GEN_B_IMM (branch_delta f s x)) Hin1 Hw)
    as (l & E & Hg & Ho & Hb).
  exists l. eexists. split.
  - assert (Ep : md_pcrel_from (set_addnumber v f) g = Ret (s64 (u64 (fx_where f + fr_address x)), g)).
    { unfold md_pcrel_from. cbn [fx_frag set_addnumber]. rewrite F1. unfold get_frag.
      erewrite mbind_ret; [|by rewrite F2]. reflexivity. }
    cbv zeta. pnext Ep. fold (branch_delta f s x). fold v.
    change (u64 (u64 (S_GET_VALUE s + v) - s64 (u64 (fx_where f + fr_address x))))
      with (branch_delta f s x). fold (branch_far (branch_delta f s x)).
    assert (El : when (branch_far (branch_delta f s x)) (as_bad "too large pc relative branch") g
                 = Ret (tt, g1)).
    { unfold g1. destruct (branch_far _); [done|]. rewrite app_nil_r. by destruct g. }
    pnext El. pnext E. reflexivity.
  - split; [split; reflexivity|]. split; [exact Hg|]. split; [exact Ho|]. split; [exact Hb|]. reflexivity.
Qed.

Lemma gen_branch (f : fixS) (s : symbolS) (g : gas) (n : nat) (x : frag) :
  fx_addsy f = Some s -> fx_r_type f = BFD_RELOC_FUSION_14_PCREL ->
  fx_frag f = Some n -> frags g !! n = Some x ->
  let a := u64 (fr_address x + fx_addnumber f) in
  exists h, fusion_reloc_type_lookup BFD_RELOC_FUSION_14_PCREL = Some h /\ type h = R_FUSION_BRANCH
    /\ tc_gen_reloc f g
       = if branch_far a
         then Ret (Some (mk_gen (Some s) None None h),
                   set_log (log g ++ [Bad "too large pc relative branch"]) g)
         else Ret (Some (mk_gen (Some s) (Some (u64 (fr_address x + fx_where f))) (Some a) h), g).
Proof.
  intros Hs Hr Hf Hx a. destruct (fusion_reloc_type_lookup BFD_RELOC_FUSION_14_PCREL) as [h|] eqn:Eh; [|done].
  exists h. split; [done|]. split; [injection Eh as <-; reflexivity|].
  unfold tc_gen_reloc. rewrite Hf, Hr, Hs. unfold get_frag.
  erewrite mbind_ret; [|by rewrite Hx]. cbv zeta. fold a. unfold pcrel_addend. fold (branch_far a).
  destruct (branch_far a); rewrite Eh; reflexivity.
Qed.

(** C30.  A branch to a symbol.  With a value of 0 the word is left as assembled.
    Otherwise the B-type bits of the distance are put into the word, after a
    report when it does not fit 14 bits; since the value already holds the
    symbol's own value, the distance counts it twice.  The fixup is never done;
    its relocation is of type 14_PCREL, at the fixup's address, with the addend
    the frag's address plus the value (the addend and the address left
    uninitialised, after a report, when this does not fit). *)
Theorem branch_to_symbol (f : fixS) (s : symbolS) (this : segT) (g : gas) (n : nat) (x : frag) (w : Z) :
  symbolic f s -> fx_r_type f = BFD_RELOC_FUSION_14_PCREL -> fix_in g f n x ->
  bfd_getb32 (fr_literal x) (fx_where f) = Ret w ->
  let v := sym_value f s in
  let a := u64 (fr_address x + v) in
  exists l g' h,
    fixup_one f this g = Ret (set_addnumber v f, g')
    /\ frags g' = <[n := with_bytes x l]> (frags g)
    /\ bfd_getb32 l (fx_where f)
       = Ret (if v =? 0 then w else u32 (Z.lor (GEN_B_IMM (branch_delta f s x)) w))
    /\ same_outside (fr_literal x) l (fx_where f) 4
    /\ log g' = log g ++ (if negb (v =? 0) && branch_far (branch_delta f s x)
                          then [Bad "too large pc relative branch"] else [])
                      ++ (if field_overflow f v
                          then [Bad "value of %s too large for field of %d bytes at %s"] else [])
    /\ fusion_reloc_type_lookup BFD_RELOC_FUSION_14_PCREL = Some h
    /\ type h = R_FUSION_BRANCH
    /\ tc_gen_reloc (set_addnumber v f) g'
       = if branch_far a
         then Ret (Some (mk_gen (Some s) None None h),
                   set_log (log g' ++ [Bad "too large pc relative branch"]) g')
         else Ret (Some (mk_gen (Some s) (Some (u64 (fr_address x + fx_where f))) (Some a) h), g').
Proof.
  intros Hs Hr Hin Hw v a. rewrite (fixup_symbolic f s) by done. pose proof Hs as (Hs1 & _ & _ & Hd & _).
  destruct (md_apply_branch f s g n x w Hs1 Hr Hin Hw) as (l & g1 & E & [Hf _] & Hg & Ho & _ & Hl).
  fold v in E, Hg, Hl |- *. pnext E. cbv zeta.
  change (fx_addsy (set_addnumber v f)) with (fx_addsy f). rewrite Hs1, bool_decide_eq_false_2 by done.
  rewrite andb_false_r. change (field_overflow (set_addnumber v f) v) with (field_overflow f v).
  set (g2 := set_log (log g1 ++ if field_overflow f v
    then [Bad "value of %s too large for field of %d bytes at %s"] else []) g1).
  destruct (gen_branch (set_addnumber v f) s g2 n (with_bytes x l) Hs1 Hr (fi_frag _ _ _ _ Hin))
    as (h & H1 & H2 & H3).
  { cbn. rewrite Hf. apply list_lookup_insert_eq. by eapply lookup_lt_Some, (fi_at _ _ _ _ Hin). }
  exists l, g2, h. split.
  { unfold g2. destruct (field_overflow f v); [reflexivity|]. rewrite app_nil_r. by destruct g1. }
  split; [exact Hf|]. split; [exact Hg|]. split; [exact Ho|].
  split; [cbn; by rewrite Hl, <- app_assoc|]. split; [exact H1|]. split; [exact H2|exact H3].
Qed.
End fix_.

(** ** The constant is already in the word *)

Lemma land_cong (a b m : Z) :
  a mod 2 ^ 32 = b mod 2 ^ 32 -> 0 <= m < 2 ^ 32 -> Z.land a m = Z.land b m.
Proof.
  intros H Hm. apply Z.bits_inj'. intros i Hi. rewrite !Z.land_spec.
  destruct (Z.ltb_spec i 32) as [Hlt|Hge].
  - f_equal. rewrite <- (Z.mod_pow2_bits_low a 32 i), <- (Z.mod_pow2_bits_low b 32 i) by lia. by rewrite H.
  - rewrite (testbit_u 32 m i) by done. by rewrite !andb_false_r.
Qed.

Lemma land_shift_cong (a b k m : Z) :
  a mod 2 ^ 32 = b mod 2 ^ 32 -> 0 <= k -> 0 <= m < 2 ^ 32 ->
  Z.land (Z.shiftl a k) m = Z.land (Z.shiftl b k) m.
Proof.
  intros H Hk Hm. apply land_cong; [|done]. rewrite !Z.shiftl_mul_pow2 by done.
  rewrite (Z.mul_mod a), (Z.mul_mod b) by lia. by rewrite H.
Qed.

(** The immediate fields depend on the value modulo 2^32 only. *)
Lemma gen_cong (a b : Z) :
  a mod 2 ^ 32 = b mod 2 ^ 32 ->
  GEN_I_IMM a = GEN_I_IMM b /\ GEN_S_IMM a = GEN_S_IMM b /\ GEN_J_IMM a = GEN_J_IMM b
  /\ GEN_SYS_IMM a = GEN_SYS_IMM b /\ GEN_L_IMM a = GEN_L_IMM b /\ GEN_LI_IMM a = GEN_LI_IMM b.
Proof.
  intros H. unfold GEN_S_IMM, GEN_J_IMM, GEN_SYS_IMM, GEN_L_IMM, GEN_LI_IMM, GET_IMM_L, GET_IMM_LI,
    GET_SPLIT_S_IMM_HI, GET_SPLIT_S_IMM_LO, GET_SPLIT_J_IMM_HI, GET_SPLIT_J_IMM_LO.
  split_and!.
  - apply land_shift_cong; [done|lia|cst_range].
  - rewrite (land_cong a b SPLIT_S_IMM_HI), (land_cong a b SPLIT_S_IMM_LO); first [done|cst_range].
  - rewrite (land_cong a b SPLIT_J_IMM_HI), (land_cong a b SPLIT_J_IMM_LO); first [done|cst_range].
  - apply land_cong; [done|cst_range].
  - rewrite !(Z.land_comm MASK_IMM_L). apply land_cong; [done|cst_range].
  - rewrite !(Z.land_comm MASK_IMM_LI). apply land_cong; [done|cst_range].
Qed.

Lemma s32_cong (v : Z) : s32 v mod 2 ^ 32 = v mod 2 ^ 32.
Proof. wrap64. Qed.

Lemma u64_cong (v : Z) : u64 v mod 2 ^ 32 = v mod 2 ^ 32.
Proof. wrap64. Qed.

(** Each word with its immediate is unchanged by [or]ing the immediate in again. *)
Lemma or_again (rd rsa rsb ix v : Z) :
  is_reg rd -> is_reg rsa -> is_reg rsb -> 0 <= ix < 256 ->
  Z.lor (GEN_I_IMM v) (MAKE_I_TYPE rd rsa v ix) = MAKE_I_TYPE rd rsa v ix
  /\ Z.lor (GEN_L_IMM v) (MAKE_L_TYPE rd rsa ix v) = MAKE_L_TYPE rd rsa ix v
  /\ Z.lor (GEN_S_IMM v) (MAKE_S_TYPE ix rsa rsb v) = MAKE_S_TYPE ix rsa rsb v
  /\ Z.lor (GEN_LI_IMM v) (MAKE_LI_TYPE rd ix v) = MAKE_LI_TYPE rd ix v
  /\ Z.lor (GEN_J_IMM v) (MAKE_J_TYPE rsa v) = MAKE_J_TYPE rsa v
  /\ Z.lor (GEN_J_IMM v) (MAKE_JL_TYPE rsa v) = MAKE_JL_TYPE rsa v
  /\ Z.lor (GEN_SYS_IMM v) (MAKE_SYS_TYPE rd rsa ix v) = MAKE_SYS_TYPE rd rsa ix v.
Proof. intros H1 H2 H3 H4. split_and!; isa. Qed.

Lemma normalize_cong (e : expressionS) :
  X_add_number (normalize_constant_expr e) mod 2 ^ 32 = X_add_number e mod 2 ^ 32.
Proof.
  unfold normalize_constant_expr. case_match; [|done]. cbn [X_add_number set_number].
  rewrite <- u32_land. change 0x80000000 with (2 ^ 31).
  rewrite lxor_sign; [|lia|apply u32_range].
  change (31 + 1) with 32. destruct (sext_spec 32 (u32 (X_add_number e))) as [_ ->]; [lia|].
  unfold u32. by rewrite Z.mod_mod.
Qed.

Lemma final_cong (mo : fusion_opc_info_t) (e : expressionS) :
  u64 (X_add_number (final_expr mo e)) mod 2 ^ 32 = X_add_number e mod 2 ^ 32.
Proof. rewrite u64_cong. unfold final_expr. case_match; [apply normalize_cong|done]. Qed.

(** A value already the size of a word. *)
Lemma u32_or (b w : Z) : Z.lor b w = w -> u32 w = w -> Z.lor (u32 b) w = w.
Proof.
  intros H Hw. rewrite u32_land. rewrite u32_land in Hw.
  apply Z.bits_inj'. intros i Hi. apply (f_equal (fun z => Z.testbit z i)) in H, Hw.
  rewrite Z.lor_spec in H |- *. rewrite !Z.land_spec in *.
  destruct (Z.testbit b i), (Z.testbit w i), (Z.testbit 0xffffffff i); cbn in *; congruence.
Qed.

(** The immediate of a word can be given modulo 2^32. *)
Lemma make_cong (rd rsa rsb ix a b : Z) :
  a mod 2 ^ 32 = b mod 2 ^ 32 ->
  MAKE_I_TYPE rd rsa a ix = MAKE_I_TYPE rd rsa b ix
  /\ MAKE_L_TYPE rd rsa ix a = MAKE_L_TYPE rd rsa ix b
  /\ MAKE_S_TYPE ix rsa rsb a = MAKE_S_TYPE ix rsa rsb b
  /\ MAKE_LI_TYPE rd ix a = MAKE_LI_TYPE rd ix b
  /\ MAKE_J_TYPE rsa a = MAKE_J_TYPE rsa b /\ MAKE_JL_TYPE rsa a = MAKE_JL_TYPE rsa b
  /\ MAKE_SYS_TYPE rd rsa ix a = MAKE_SYS_TYPE rd rsa ix b.
Proof.
  intros H. destruct (gen_cong a b H) as (G1 & G2 & G3 & G4 & _).
  unfold MAKE_I_TYPE, MAKE_L_TYPE, MAKE_S_TYPE, MAKE_LI_TYPE, MAKE_J_TYPE, MAKE_JL_TYPE, MAKE_SYS_TYPE.
  rewrite G1, G2, G3, G4, (land_cong a b 0x3fff), (land_cong a b 0xffff); first [done|cst_range].
Qed.

(** The word of [lui rd, v] after its fixup. *)
Lemma lui_fixed (rd ix v : Z) :
  is_reg rd -> 0 <= ix < 16 ->
  decode (Z.lor (GET_IMM_LI (Z.shiftr v 16)) (MAKE_LI_TYPE rd ix v))
  = Some (InsnLI ix rd (Z.lor (v mod 2 ^ 16) ((v / 2 ^ 16) mod 2 ^ 16))).
Proof.
  intros H1 H2. rewrite decode_fields. cbn [has_fields].
  assert (E : Z.lor (v mod 2 ^ 16) ((v / 2 ^ 16) mod 2 ^ 16)
              = Z.land 0xffff (Z.lor v (Z.shiftr v 16))).
  { rewrite Z.land_comm, Z.shiftr_div_pow2 by lia.
    change 0xffff with (Z.ones 16). rewrite Z.land_lor_distr_l, !Z.land_ones by lia. done. }
  rewrite E. clear E. unfold is_reg in H1. split_and!; isa.
Qed.

(** The relocation of an entry by its opcode. *)
Lemma reloc_by_opc (mo : fusion_opc_info_t) :
  entry_ok mo ->
  (opc mo = OPC_IMM -> reloc_of mo = BFD_RELOC_FUSION_12)
  /\ (opc mo = OPC_LD -> reloc_of mo = BFD_RELOC_FUSION_LOAD)
  /\ (opc mo = OPC_ST -> reloc_of mo = BFD_RELOC_FUSION_STORE)
  /\ (opc mo = OPC_LI -> reloc_of mo = BFD_RELOC_FUSION_HI16 \/ reloc_of mo = BFD_RELOC_16)
  /\ (opc mo = OPC_BRANCH -> reloc_of mo = BFD_RELOC_FUSION_14_PCREL)
  /\ (opc mo = OPC_INT -> reloc_of mo = BFD_RELOC_UNUSED)
  /\ (opc mo = OPC_SYS -> reloc_of mo = BFD_RELOC_8 \/ reloc_of mo = BFD_RELOC_UNUSED)
  /\ (opc mo = OPC_JMP \/ opc mo = OPC_JLNK ->
      reloc_of mo = BFD_RELOC_FUSION_21_PCREL \/ reloc_of mo = BFD_RELOC_FUSION_21).
Proof.
  intros [H _ _ _ _ _]. apply (f_equal (fun m => m demo_gas)) in H. unfold return_reloc in H. cbv zeta in H.
  change (@mret M _ _ (reloc_of mo) demo_gas) with (Ret (reloc_of mo, demo_gas)) in H.
  split_and!; intros Ho; [rewrite Ho in H; cbn in H..|].
  8:{ assert (jump_reloc mo demo_gas = Ret (reloc_of mo, demo_gas)) as Hj by (destruct Ho as [Ho|Ho]; by rewrite Ho in H).
      unfold jump_reloc in Hj. repeat case_match; try done; injection Hj as Hj; auto. }
  all: try (injection H as H; congruence).
  all: case_match; injection H as H; auto.
Qed.

(** The upper half of a value depends on it modulo 2^32. *)
Lemma hi_cong (a b : Z) :
  a mod 2 ^ 32 = b mod 2 ^ 32 -> GET_IMM_LI (Z.shiftr a 16) = GET_IMM_LI (Z.shiftr b 16).
Proof.
  intros H. unfold GET_IMM_LI.
  assert (E : forall x, Z.land MASK_IMM_LI (Z.shiftr x 16) = Z.shiftr (Z.land x 0xffff0000) 16).
  { intros x. by rewrite Z.shiftr_land, Z.land_comm. }
  rewrite !E. f_equal. apply land_cong; [done|lia].
Qed.

(** Reduces a constant fixup to the word with its immediate [or]ed in again. *)
Ltac settle G K Hu :=
  rewrite decide_False by done;
  match goal with Ha : _ = Ret _ |- _ => injection Ha as <- end;
  apply u32_or; [|exact Hu]; unfold GEN_L_IMM, GEN_LI_IMM in *; rewrite G, K.

Ltac by_or Rd RSa RSb ix v :=
  let F := fresh in
  pose proof (or_again Rd RSa RSb ix v ltac:(done) ltac:(done) ltac:(done) ltac:(done || lia)) as F;
  unfold GEN_L_IMM, GEN_LI_IMM in F; tauto.

(** A jump whose constant is put in at once has the 21-bit relocation. *)
Lemma jump_r (mo : fusion_opc_info_t) (RSa : Z) (r : bfd_reloc_code_real) :
  (opc mo = OPC_JMP \/ opc mo = OPC_JLNK ->
     reloc_of mo = BFD_RELOC_FUSION_21_PCREL \/ reloc_of mo = BFD_RELOC_FUSION_21) ->
  opc mo = OPC_JMP \/ opc mo = OPC_JLNK ->
  (if negb (RSa =? 0) then BFD_RELOC_FUSION_21 else reloc_of mo) = r ->
  const_reloc r = true \/ r = BFD_RELOC_FUSION_21 -> r = BFD_RELOC_FUSION_21.
Proof.
  intros Q Ho <- Hr. destruct (negb (RSa =? 0)); [done|].
  destruct (Q Ho) as [H|H]; rewrite H in *; [by destruct Hr|done].
Qed.

Lemma constant_word (mo : fusion_opc_info_t) (Rd RSa RSb w b v : Z)
    (e e' : expressionS) (r : bfd_reloc_code_real) (g : gas) :
  mo ∈ until_null fusion_insn_all -> cpid mo = CPID_MAIN -> opc mo <> 0 ->
  is_reg Rd -> is_reg RSa -> is_reg RSb -> X_op e = O_constant -> X_add_number e = v ->
  build_word mo (Rd, RSa, RSb, s32 v, e) (reloc_of mo) g = Ret ((w, e', r), g) ->
  const_reloc r = true \/ r = BFD_RELOC_FUSION_21 ->
  fusion_apply_const_reloc r (u64 (X_add_number e')) = Ret b ->
  if decide (r = BFD_RELOC_FUSION_HI16)
  then decode (Z.lor b w)
       = Some (InsnLI (index mo) Rd (Z.lor (v mod 2 ^ 16) ((v / 2 ^ 16) mod 2 ^ 16)))
  else Z.lor b w = w.
Proof.
  intros Hin Hm Ho H1 H2 H3 Hc Hv Hb Hr Ha.
  pose proof (entry_ok_in mo Hin) as Hent. pose proof (eo_index mo Hent Hm Ho) as Hix.
  destruct (reloc_by_opc mo Hent) as (Q1 & Q2 & Q3 & Q4 & Q5 & Q6 & Q7 & Q8). clear Hent.
  destruct (build_word_ok mo Rd RSa RSb (s32 v) e (reloc_of mo) g Hix H1 H2 H3 (fun _ => Hc))
    as (w' & i & Hw & _ & _ & Hu).
  rewrite Hw in Hb. injection Hb as -> <- Hr'.
  pose proof (final_cong mo e) as Hcg. rewrite Hv in Hcg.
  set (n := u64 (X_add_number (final_expr mo e))) in *. clearbody n.
  destruct (gen_cong n v Hcg) as (G1 & G2 & G3 & G4 & G5 & G6).
  destruct (make_cong Rd RSa RSb (index mo) (s32 v) v (s32_cong v)) as (K1 & K2 & K3 & K4 & K5 & K6 & K7).
  assert (Hopc : opc mo = OPC_INT \/ opc mo = OPC_IMM \/ opc mo = OPC_LD \/ opc mo = OPC_ST
    \/ opc mo = OPC_LI \/ opc mo = OPC_JMP \/ opc mo = OPC_JLNK \/ opc mo = OPC_BRANCH
    \/ opc mo = OPC_SYS).
  { unfold index_fits in Hix. cbv zeta in Hix.
    repeat match goal with H : context [opc mo =? ?c] |- _ =>
      destruct (Z.eqb_spec (opc mo) c); [tauto|] end. done. }
  assert (Hix' : (opc mo =? OPC_JMP) || (opc mo =? OPC_JLNK) = false -> 0 <= index mo < 256).
  { unfold index_fits in Hix. cbv zeta in Hix. intros Hj. rewrite Hj in Hix.
    repeat case_match; try done; lia. }
  unfold build_word, final_reloc in *.
  destruct Hopc as [Eo|[Eo|[Eo|[Eo|[Eo|[Eo|[Eo|[Eo|Eo]]]]]]]]; rewrite Eo in Hw, Hr', Hix'; cbn in Hw, Hr', Hix'; try specialize (Hix' eq_refl).
  - rewrite (Q6 Eo) in Hr'. subst r. by destruct Hr.
  - unfold check_absolute_expr in Hw. rewrite Hc in Hw. cbn in Hw. injection Hw as <-.
    rewrite (Q1 Eo) in Hr'. subst r. settle G1 K1 Hu. by_or Rd RSa RSb (index mo) v.
  - injection Hw as <-. rewrite (Q2 Eo) in Hr'. subst r. settle G5 K2 Hu. by_or Rd RSa RSb (index mo) v.
  - injection Hw as <-. rewrite (Q3 Eo) in Hr'. subst r. settle G2 K3 Hu. by_or Rd RSa RSb (index mo) v.
  - injection Hw as <- _. destruct (Q4 Eo) as [Q|Q]; rewrite Q in Hr'; subst r.
    + rewrite decide_True by done. injection Ha as <-. rewrite (hi_cong n v Hcg).
      rewrite K4 in *. rewrite u32_small by (apply land_range_l; [lia|cst_range]).
      apply lui_fixed; [done|]. unfold index_fits in Hix. rewrite Eo in Hix. cbn in Hix. lia.
    + settle G6 K4 Hu. by_or Rd RSa RSb (index mo) v.
  - injection Hw as <- _. assert (r = BFD_RELOC_FUSION_21) as -> by (eapply (jump_r mo RSa); eauto).
    settle G3 K5 Hu. by_or Rd RSa RSb 0 v.
  - injection Hw as <- _. assert (r = BFD_RELOC_FUSION_21) as -> by (eapply (jump_r mo RSa); eauto).
    settle G3 K6 Hu. by_or Rd RSa RSb 0 v.
  - rewrite (Q5 Eo) in Hr'. subst r. by destruct Hr.
  - injection Hw as <- _. destruct (Q7 Eo) as [Q|Q]; rewrite Q in Hr'; subst r; [|by destruct Hr].
    settle G4 K7 Hu. by_or Rd RSa RSb (index mo) v.
Qed.

(** C29.  Assembling a constant and then applying its fixup gives the same word as
    assembling it: for every machine instruction whose constant operand is put
    in by both, the bits [md_apply_fix] [or]s in are already there.  The one
    exception is the upper-half relocation, where assembling puts in the low
    half and the fixup the high half: the field ends up with the [or] of the two
    halves, which is the high half only when the low half's bits are all in it. *)
Theorem constant_fixup_word (mo : fusion_opc_info_t) (Rd RSa RSb w b v : Z)
    (e e' : expressionS) (r : bfd_reloc_code_real) (g : gas) :
  mo ∈ until_null fusion_insn_all -> cpid mo = CPID_MAIN -> opc mo <> 0 ->
  is_reg Rd -> is_reg RSa -> is_reg RSb -> X_op e = O_constant -> X_add_number e = v ->
  build_word mo (Rd, RSa, RSb, s32 v, e) (reloc_of mo) g = Ret ((w, e', r), g) ->
  const_reloc r = true \/ r = BFD_RELOC_FUSION_21 ->
  fusion_apply_const_reloc r (u64 (X_add_number e')) = Ret b ->
  if decide (r = BFD_RELOC_FUSION_HI16)
  then decode (Z.lor b w)
       = Some (InsnLI (index mo) Rd (Z.lor (v mod 2 ^ 16) ((v / 2 ^ 16) mod 2 ^ 16)))
  else Z.lor b w = w.
Proof. apply constant_word. Qed.

(** ** Witnesses *)

(** One symbol, at 0x100 of the first section; no forced relocations. *)
Definition demo_symtab : SymTab :=
  Build_SymTab (fun _ => mk_sym (seg_normal 0) 0x100 false false false) (Sym 0) true.

(** A frag of three words at 0x40. *)
Definition demo_frag (w : Z) : frag :=
  mk_frag 0x40 12 0 0 rs_fill ([0; 0; 0; 0] ++ be32 w ++ [0; 0; 0; 0]).
Definition demo_fix (add : option symbolS) (off : Z) (r : bfd_reloc_code_real) : fixS :=
  mk_fix false 0 false false false 4 (Some 0%nat) 4 add None off 0 None r 0.
Definition fix_gas (w : Z) : gas := set_frags [demo_frag w] (frch_obstack demo_gas) demo_gas.

Lemma fixup_constant_witness :
  exists l g',
    @fixup_one demo_symtab (demo_fix None 77 BFD_RELOC_FUSION_12) (seg_normal 0)
      (fix_gas (encode (InsnI 0 6 7 0)))
    = Ret (set_done true (set_addnumber 77 (demo_fix None 77 BFD_RELOC_FUSION_12)), g')
    /\ bfd_getb32 l 4 = Ret (encode (InsnI 0 6 7 77)) /\ log g' = [].
Proof.
  destruct (@fixup_constant demo_symtab (demo_fix None 77 BFD_RELOC_FUSION_12) (seg_normal 0)
    (fix_gas (encode (InsnI 0 6 7 0))) 0 (demo_frag (encode (InsnI 0 6 7 0)))
    (encode (InsnI 0 6 7 0))) as (b & l & g' & Hb & E & _ & Hw & _ & _ & _ & Hl).
  - by split_and!.
  - split; [reflexivity|reflexivity|cbn; lia|cbn; lia|]. repeat constructor; vm_compute; congruence.
  - by left.
  - vm_compute. reflexivity.
  - exists l, g'. split; [exact E|]. split; [|exact Hl].
    cbn in Hw. rewrite Hw. f_equal. injection Hb as <-. vm_compute. reflexivity.
Defined.

Lemma branch_to_symbol_witness :
  exists l g',
    @fixup_one demo_symtab (demo_fix (Some (Sym 7)) 0 BFD_RELOC_FUSION_14_PCREL) (seg_normal 0)
      (fix_gas (encode (InsnB 0 6 7 0)))
    = Ret (set_addnumber 0x100 (demo_fix (Some (Sym 7)) 0 BFD_RELOC_FUSION_14_PCREL), g')
    /\ bfd_getb32 l 4 = Ret (encode (InsnB 0 6 7 0x1bc)) /\ log g' = [].
Proof.
  destruct (@branch_to_symbol demo_symtab (demo_fix (Some (Sym 7)) 0 BFD_RELOC_FUSION_14_PCREL) (Sym 7)
    (seg_normal 0) (fix_gas (encode (InsnB 0 6 7 0))) 0 (demo_frag (encode (InsnB 0 6 7 0)))
    (encode (InsnB 0 6 7 0))) as (l & g' & h & E & _ & Hw & _ & Hl & _).
  - by split_and!.
  - reflexivity.
  - split; [reflexivity|reflexivity|cbn; lia|cbn; lia|]. repeat constructor; vm_compute; congruence.
  - vm_compute. reflexivity.
  - exists l, g'. split; [exact E|]. split; [|exact Hl]. etransitivity; [exact Hw|].
    vm_compute. reflexivity.
Defined.

Lemma constant_fixup_word_witness :
  exists w b, build_word lui_entry (6, 0, 0, 0x12345, mk_expr None None 0x12345 O_constant)
      (reloc_of lui_entry) demo_gas
    = Ret ((w, mk_expr None None 0x12345 O_constant, BFD_RELOC_FUSION_HI16), demo_gas)
    /\ fusion_apply_const_reloc BFD_RELOC_FUSION_HI16 0x12345 = Ret b
    /\ decode (Z.lor b w) = Some (InsnLI 4 6 0x2345).
Proof.
  eexists _, _. split; [vm_compute; reflexivity|]. split; [vm_compute; reflexivity|].
  pose proof (constant_fixup_word lui_entry 6 0 0 (encode (InsnLI 4 6 0x2345)) 1 0x12345
    (mk_expr None None 0x12345 O_constant) (mk_expr None None 0x12345 O_constant)
    BFD_RELOC_FUSION_HI16 demo_gas) as H.
  assert (H' : _) by (apply H; [apply (bool_decide_unpack _); vm_compute; exact I|reflexivity|done|split; lia..|reflexivity|reflexivity|vm_compute; reflexivity|by left|vm_compute; reflexivity]).
  exact H'.
Defined.
