(* ===== verification/ConstLine.v ===== *)
(** * Lines with constant expressions

    The assembler with gas/expr.c's own parser in the place of the parameter of
    [FusionParse]: a line whose immediate is the text of a constant expression
    ([GasConst]) assembles to the instruction with the value of the expression, and
    the fixup it leaves ([FusionFix]) changes none of its bits. *)
From Stdlib Require Import Ascii.
From S2P Require Import Prelude FusionOpc Endian GasHash BfdReloc FusionReloc GasState GasSymbols GasResolve.
From S2P Require Import GasLabels GasExpr GasExprEnds FusionParse GasNumber GasConst FusionAsm FusionFix FusionIsa.
#[local] Open Scope Z_scope.

(** [#define expression(result) expr (0, result, expr_normal)] *)
Definition gas_expression (float_parser : FloatParser) (flag_keep_locals : bool) : ExprParser :=
  fun g => ('(e, _) ← expr flag_keep_locals 0 expr_normal; mret e) g.

Section line.
Context {float_parser : FloatParser} {forward : FloatForward float_parser} (keep : bool) (junk : Z).

#[local] Instance line_parser : ExprParser := gas_expression float_parser keep.

(** What the parser does to the state when it is called at [q], the input pointer
    apart. *)
Definition expr_effect (q : Z) (g : gas) : gas :=
  match expression (set_ilp q g) with
  | Ret (_, g') => set_ilp (input_line_pointer g) g'
  | Fail _ => g
  end.

Lemma ready_ilp (q : Z) (g : gas) : ready g -> ready (set_ilp q g).
Proof. by intros [H1 H2 H3]. Qed.

Lemma ready_hash (t : hash_control) (g : gas) : ready g -> ready (set_op_hash t g).
Proof. by intros [H1 H2 H3]. Qed.

Lemma constant_at (e : cexp) (v c q : Z) (rest : list Z) (g : gas) :
  cexp_ok e -> const_value e = Some v -> closes c = true -> ready g ->
  text g q (print 0 e ++ c :: rest) ->
  expr_at g q (constant v) (q + Z.of_nat (length (print 0 e))) (expr_effect q).
Proof.
  intros Hok Hv Hc Hr Ht t. cbv zeta. set (g1 := set_op_hash t g).
  destruct (constant_parsed keep expr_normal ltac:(done) e v c rest (set_ilp q g1) Hok Hv Hc
    (ready_ilp q _ (ready_hash t g Hr)) Ht) as (g2 & E & Hp).
  assert (expression (set_ilp q g1) = Ret (constant v, g2)) as E1
    by (unfold expression, line_parser, gas_expression; by rewrite (mbind_ret _ _ _ _ _ E)).
  unfold expr_effect. rewrite E1. destruct Hp as (H1 & H2 & _). split.
  - rewrite set_ilp_twice. cbn in H1. rewrite <- H1. by destruct g2.
  - unfold spares. clear - H2. unfold rest_of in H2. destruct g2, g. cbn in *. injection H2. intros. by subst.
Qed.

(** The operand text of an instruction with an immediate: blanks where the code
    skips them, the immediate's text [t], then the end of the line; a load, a store
    and a jump through a register have their base register in parentheses after
    it, and a blank between its name and the parenthesis. *)
Definition imm_text (mo : fusion_opc_info_t) (b0 b1 b2 : list Z) (rd rsa rsb : nat) (t : list Z)
  : option (list Z) :=
  let base := base_text t rsa 32 [chr ")"] 0 in
  if args mo =? USE_RDAI then Some (rri_pre b0 b1 b2 rd rsa ++ t ++ [0])
  else if args mo =? USE_RDI then Some (ri_pre b0 b1 rd ++ t ++ [0])
  else if args mo =? USE_RABI then Some (rri_pre b0 [] b2 rsa rsb ++ t ++ [0])
  else if args mo =? USE_RDAI_O then Some (ri_pre b0 b1 rd ++ base)
  else if args mo =? USE_RABI_O then Some (ri_pre b0 b1 rsb ++ base)
  else if args mo =? USE_RAI_O then Some (b0 ++ base)
  else if args mo =? USE_I then Some (b0 ++ t ++ [0])
  else None.

(** The operands it stands for. *)
Definition imm_operands (mo : fusion_opc_info_t) (rd rsa rsb : nat) (v : Z) : operands :=
  let has l (r : nat) := if bool_decide (args mo ∈ l) then Z.of_nat r else 0 in
  (has [USE_RDAI; USE_RDI; USE_RDAI_O] rd,
   has [USE_RDAI; USE_RABI; USE_RDAI_O; USE_RABI_O; USE_RAI_O] rsa,
   has [USE_RABI; USE_RABI_O] rsb, s32 v, constant v).

(** The register [final_reloc] looks at: a jump through one keeps its own relocation. *)
Definition base_of (ops : operands) : Z := let '(_, RSa, _, _, _) := ops in RSa.

(** [find_paren] takes the first parenthesis of the operand for the base's. *)
Definition paren_ok (mo : fusion_opc_info_t) (t : list Z) : Prop :=
  args mo ∈ [USE_RDAI_O; USE_RABI_O; USE_RAI_O] -> Forall (fun c => c <> chr "(") t.

Lemma print_chars (l : Z) (e : cexp) : cexp_ok e -> Forall (fun c => c <> 0 /\ c <> 9) (print l e).
Proof.
  revert l. induction e as [radix ds|c a IH|op a IHa b IHb]; intros l H; cbn [print].
  - destruct H as (Hr & Hd & _). apply Forall_app. split.
    + destruct Hr as [-> | [-> | [-> | ->]]]; repeat constructor; done.
    + eapply Forall_impl; [exact Hd|]. intros d [_ Hv]. split; intros ->; vm_compute in Hv;
        destruct Hr as [-> | [-> | [-> | ->]]]; discriminate Hv.
  - destruct H as [Hc Ha]. constructor; [|by apply IH]. split; intros ->; discriminate Hc.
  - destruct H as (Hop & Ha & Hb). specialize (IHa (op_rank op - 1) Ha). specialize (IHb (op_rank op) Hb).
    assert (Forall (fun c => c <> 0 /\ c <> 9) (op_text op)) as Ho
      by (destruct op; try discriminate Hop; repeat constructor; done).
    cbv zeta. destruct (l <? op_rank op); [|constructor; [done|]]; rewrite ?Forall_app; split_and!; try done.
    all: try (constructor; [done|]); try done; by constructor.
Qed.

Lemma print_split (e : cexp) : cexp_ok e -> exists c s, print 0 e = c :: s /\ is_blank c = false.
Proof.
  intros H. destruct (print_head 0 e H) as (c & s & E & Hc). exists c, s. split; [done|].
  pose proof (print_chars 0 e H) as Hp. rewrite E in Hp. inversion_clear Hp as [|? ? [_ H9] _].
  unfold is_blank. apply orb_false_iff. split; by apply Z.eqb_neq.
Qed.

Lemma print_base (e : cexp) (rsa : nat) :
  cexp_ok e -> (rsa < 32)%nat -> Forall (fun c => c <> chr "(") (print 0 e) ->
  base_ok (print 0 e) rsa 32 [chr ")"] 0.
Proof.
  intros H Hr Hp. split; [done| |reflexivity|by repeat constructor|done].
  eapply Forall_impl; [exact (proj2 (Forall_and _ _) (conj Hp (print_chars 0 e H)))|].
  intros c (H1 & H2 & _). by rewrite (proj2 (Z.eqb_neq _ _) H1), (proj2 (Z.eqb_neq _ _) H2).
Qed.

Lemma imm_line (g : gas) (p : Z) (mo : fusion_opc_info_t) (b0 b1 b2 : list Z) (rd rsa rsb : nat)
    (e : cexp) (v : Z) (t : list Z) :
  imm_mask mo <> 0 -> (rd < 32)%nat -> (rsa < 32)%nat -> (rsb < 32)%nat ->
  blanks b0 -> blanks b1 -> blanks b2 -> cexp_ok e -> const_value e = Some v -> ready g ->
  paren_ok mo (print 0 e) -> imm_text mo b0 b1 b2 rd rsa rsb (print 0 e) = Some t -> text g p t ->
  exists r q, operand_line g p mo (imm_operands mo rd rsa rsb v) r (expr_effect q).
Proof.
  intros Hm Hrd Hrsa Hrsb H0 H1 H2 Hok Hv Hr Hp Ht Htext.
  destruct (print_split e Hok) as (c & s & Es & Hc).
  assert (forall pre k rest, t = pre ++ print 0 e ++ k :: rest -> closes k = true ->
    exists r q, expr_at g (p + Z.of_nat (length pre)) (constant v) r (expr_effect q)) as Hat.
  { intros pre k rest -> Hk. do 2 eexists. eapply constant_at; try done. exact (text_r _ _ _ _ Htext). }
  unfold imm_text in Ht. unfold imm_operands, paren_ok in *.
  repeat match type of Ht with (if ?b then _ else _) = _ =>
    let E := fresh "E" in destruct b eqn:E; [apply Z.eqb_eq in E|clear E] end; [..|done].
  all: injection Ht as <-; rewrite E in Hp |- *;
    repeat match goal with |- context [bool_decide ?P] =>
      let b := eval vm_compute in (bool_decide P) in change (bool_decide P) with b; cbv iota end.
  all: try (pose proof (print_base e rsa Hok Hrsa (Hp ltac:(by repeat constructor))) as Hb; unfold base_text in Hat).
  all: edestruct Hat as (r & q & He); [reflexivity|reflexivity|]; exists r, q.
  - rewrite Es in Htext. by apply (ol_rdai g p mo b0 b1 b2 rd rsa c (s ++ [0]) (constant v) r).
  - rewrite Es in Htext. by apply (ol_rdi g p mo b0 b1 rd c (s ++ [0]) (constant v) r).
  - rewrite Es in Htext. by apply (ol_rabi g p mo b0 b2 rsa rsb c (s ++ [0]) (constant v) r).
  - rewrite Es in Htext, Hb. by apply (ol_rdai_o g p mo b0 b1 rd rsa c s 32 [chr ")"] 0 (constant v) r).
  - rewrite Es in Htext, Hb. by apply (ol_rabi_o g p mo b0 b1 rsb rsa c s 32 [chr ")"] 0 (constant v) r).
  - rewrite Es in Htext, Hb. by apply (ol_rai_o g p mo b0 rsa c s 32 [chr ")"] 0 (constant v) r).
  - rewrite Es in Htext. by apply (ol_i g p mo b0 c (s ++ [0]) (constant v) r).
Qed.

Lemma final_reloc_used (mo : fusion_opc_info_t) (RSa : Z) :
  entry_ok mo -> imm_mask mo <> 0 -> final_reloc mo RSa (reloc_of mo) <> BFD_RELOC_UNUSED.
Proof.
  intros [_ _ _ _ H5 _] Hm E. unfold final_reloc in E. case_match; [discriminate E|].
  specialize (H5 Hm). by rewrite E in H5.
Qed.

Definition imm_args : list Z := [USE_RDAI; USE_RDI; USE_RABI; USE_RDAI_O; USE_RABI_O; USE_RAI_O; USE_I].

Lemma imm_entry (mo : fusion_opc_info_t) :
  mo ∈ until_null fusion_insn_all -> args mo ∈ imm_args -> imm_mask mo <> 0.
Proof.
  assert (Forall (fun mo => args mo ∈ imm_args -> imm_mask mo <> 0) (until_null fusion_insn_all)) as H.
  { apply (bool_decide_unpack _). vm_compute. exact I. }
  rewrite Forall_forall in H. apply H.
Qed.

Lemma imm_text_args (mo : fusion_opc_info_t) (b0 b1 b2 : list Z) (rd rsa rsb : nat) (l t : list Z) :
  imm_text mo b0 b1 b2 rd rsa rsb l = Some t -> args mo ∈ imm_args.
Proof.
  unfold imm_text. repeat case_match; try done; intros _;
    repeat match goal with H : (_ =? _) = true |- _ => apply Z.eqb_eq in H; rewrite H end; by repeat constructor.
Qed.

Lemma imm_text_blank (mo : fusion_opc_info_t) (b0 b1 b2 : list Z) (rd rsa rsb : nat) (l t : list Z) :
  imm_text mo (32 :: b0) b1 b2 rd rsa rsb l = Some t -> exists t', t = 32 :: t'.
Proof. unfold imm_text, rri_pre, ri_pre. intros H. repeat case_match; simplify_eq; cbn [app]; eauto. Qed.

Lemma rd_be32 (l : list Z) (w j : Z) :
  0 <= j < 4 -> rd (l ++ be32 w) (Z.of_nat (length l) + byte_pos true 4 j) = Ret (byte_of w j).
Proof.
  intros Hj. unfold rd. rewrite (proj2 (Z.leb_le 0 _)) by (unfold byte_pos; lia).
  rewrite Z2Nat.inj_add, Nat2Z.id by (unfold byte_pos; lia).
  rewrite lookup_app_r by lia. replace (length l + _ - length l)%nat with (Z.to_nat (byte_pos true 4 j)) by lia.
  assert (j = 0 \/ j = 1 \/ j = 2 \/ j = 3) as [-> | [-> | [-> | ->]]] by lia; reflexivity.
Qed.

Lemma getb32_be32 (l : list Z) (w : Z) :
  bytes_ok (l ++ be32 w) -> 0 <= w < 2 ^ 32 -> bfd_getb32 (l ++ be32 w) (Z.of_nat (length l)) = Ret w.
Proof.
  intros Hb Hw. rewrite getb32_bits by done.
  pose proof (get_bits_ret 4 w (l ++ be32 w) (Z.of_nat (length l)) true ltac:(lia) (rd_be32 l w)) as H.
  rewrite Z.mod_small in H by done. exact H.
Qed.

Lemma be32_bytes (w : Z) : bytes_ok (be32 w).
Proof. repeat constructor; apply land_byte. Qed.

(** The fixup of a constant whose bits are in the word leaves the frags alone. *)
Lemma settled (f : fixS) (st : SymTab) (this : segT) (g : gas) (n : nat) (x : frag) (l : list Z) (w b : Z) :
  plain_const f -> const_reloc (fx_r_type f) = true \/ (fx_r_type f = BFD_RELOC_FUSION_21 /\ fx_offset f <> 0) ->
  bytes_ok (image (frags g)) -> 0 <= w < 2 ^ 32 -> fx_frag f = Some n -> frags g !! n = Some x ->
  fr_literal x = l ++ be32 w -> fx_where f = Z.of_nat (length l) ->
  fusion_apply_const_reloc (fx_r_type f) (fx_offset f) = Ret b -> Z.lor b w = w ->
  exists g', fixup_one f this g = Ret (set_done true (set_addnumber (fx_offset f) f), g') /\ frags g' = frags g.
Proof.
  intros Hp Hr Hb Hw Hn Hx Hl Hwh Hbits Hor.
  pose proof (image_bytes _ _ _ Hb Hx) as Hbx.
  assert (bfd_getb32 (fr_literal x) (fx_where f) = Ret w) as Ew
    by (rewrite Hl, Hwh; apply getb32_be32; [by rewrite <- Hl|done]).
  assert (fix_in g f n x) as Hin.
  { split; [done|done|lia| |done]. rewrite Hwh, Hl, length_app. cbn [length be32]. lia. }
  destruct (fixup_constant f this g n x w Hp Hin Hr Ew) as (b' & l' & g' & Hb' & E & Hg & Ew' & Hs & Hbl & _).
  rewrite Hbits in Hb'. injection Hb' as <-. rewrite Hor in Ew'.
  exists g'. split; [exact E|]. rewrite Hg, (same_word _ _ _ _ Hbx Hbl Hs Ew Ew').
  replace (with_bytes x (fr_literal x)) with x by (by destruct x). by apply list_insert_id.
Qed.

(** What the theorem says of a line with the operands [ops] and the value [v]. *)
Definition constant_assembled (g : gas) (p : Z) (mo : fusion_opc_info_t) (ops : operands) (v : Z) : Prop :=
  exists g' w i f, md_assemble junk p g = Ret (tt, g')
    /\ image (frags g') = image (frags g) ++ be32 w /\ chain_ext (frags g) (frags g')
    /\ asm_insn mo ops = Some i /\ decode w = Some i /\ 0 <= w < 2 ^ 32
    /\ log g' = log g /\ buffer g' = buffer g /\ tables_ok g' /\ frags_ok g'
    /\ fixes g' = fixes g ++ [f] /\ fx_addsy f = None
    /\ fx_offset f = u64 (X_add_number (final_expr mo (constant v)))
    /\ fx_r_type f = final_reloc mo (base_of ops) (reloc_of mo)
    /\ (bytes_ok (image (frags g)) -> fx_r_type f <> BFD_RELOC_FUSION_HI16 ->
        const_reloc (fx_r_type f) = true \/ (fx_r_type f = BFD_RELOC_FUSION_21 /\ fx_offset f <> 0) ->
        forall (st : SymTab) (this : segT), exists g2,
          fixup_one f this g' = Ret (set_done true (set_addnumber (fx_offset f) f), g2)
          /\ frags g2 = frags g').

Lemma constant_operands (g : gas) (p : Z) (bl : list Z) (nm : string) (mo : fusion_opc_info_t)
    (Rd RSa RSb v r : Z) (eff : gas -> gas) :
  tables_ok g -> frags_ok g -> pending_reloc g = 0 ->
  mo ∈ until_null fusion_insn_all -> name mo = Some nm -> cpid mo = CPID_MAIN -> opc mo <> 0 -> imm_mask mo <> 0 ->
  blanks bl -> text g p (bl ++ chars nm ++ [32]) ->
  operand_line g (p + Z.of_nat (length bl) + Z.of_nat (String.length nm)) mo
    (Rd, RSa, RSb, s32 v, constant v) r eff ->
  constant_assembled g p mo (Rd, RSa, RSb, s32 v, constant v) v.
Proof.
  intros Htab Hfr Hpend Hin Hnm Hmain Ho Hm Hbl Hmn Hl.
  destruct (operand_line_regs _ _ _ _ _ _ _ _ _ _ Hl) as (R1 & R2 & R3).
  destruct (md_assemble_line junk g p bl nm 32 mo _ _ _ _ _ r _ Htab Hfr Hpend Hin Hnm Hmain Ho Hbl eq_refl
    Hmn Hl eq_refl ltac:(done))
    as (g' & w & i & fx & h & A1 & A2 & A3 & A4 & A5 & A6 & A7 & A8 & A9 & A10 & A11 & A12 & A13 & gb & A14).
  unfold fixes_for in A8. rewrite decide_False in A8
    by (apply final_reloc_used; [exact (entry_ok_in mo Hin)|done]).
  destruct A8 as (n & off & ->). apply Forall_cons in A9 as [(n' & x & l & L1 & L2 & L3 & L4) _].
  match type of A7 with _ = _ ++ [?f] => set (fx := f) in *; exists g', w, i, fx end.
  assert (X_op (final_expr mo (constant v)) = O_constant) as Hop
    by (unfold final_expr, normalize_constant_expr; by repeat case_match).
  assert (fx_addsy fx = None /\ fx_offset fx = u64 (X_add_number (final_expr mo (constant v)))) as [F1 F2]
    by (unfold fx; cbn [new_fix fx_addsy fx_offset]; unfold expr_sym, expr_off; by rewrite Hop).
  do 14 (split; [done|]). intros Hby Hhi Hc st this.
  destruct (const_reloc_bits (fx_r_type fx) (fx_offset fx)) as (b & Eb & _); [tauto|].
  apply (settled fx st this g' n' x l w b); try done.
  - by rewrite A2; apply Forall_app; split; [|apply be32_bytes].
  - rewrite F2 in Eb.
    pose proof (constant_word mo _ _ _ w b v (constant v) _ _ gb Hin Hmain Ho R1 R2 R3 eq_refl eq_refl A14
      ltac:(tauto) Eb) as Hw.
    by rewrite decide_False in Hw.
Qed.

(** C3.  A line of a machine instruction whose immediate is a constant expression.
    The mnemonic, the registers and the text of the expression, with blanks where
    the code skips them, assemble with gas's own expression parser to the
    instruction with these registers and the 64-bit value of the expression,
    reduced to the immediate's field: four bytes are appended to the section, they
    decode to it, and one fixup is recorded, with the value.  Nothing is reported.
    Before a base register in parentheses the expression has none of its own.
    Where [md_apply_fix] can put the constant in ([lui] apart), it settles the
    fixup and the section's bytes are the instruction's already. *)
Theorem constant_line (g : gas) (p : Z) (bl : list Z) (nm : string) (mo : fusion_opc_info_t)
    (b0 b1 b2 : list Z) (rd rsa rsb : nat) (e : cexp) (v : Z) (t : list Z) :
  tables_ok g -> frags_ok g -> pending_reloc g = 0 -> ready g ->
  mo ∈ until_null fusion_insn_all -> name mo = Some nm -> cpid mo = CPID_MAIN -> opc mo <> 0 ->
  (rd < 32)%nat -> (rsa < 32)%nat -> (rsb < 32)%nat -> blanks bl -> blanks b0 -> blanks b1 -> blanks b2 ->
  cexp_ok e -> const_value e = Some v -> paren_ok mo (print 0 e) ->
  imm_text mo (32 :: b0) b1 b2 rd rsa rsb (print 0 e) = Some t -> text g p (bl ++ chars nm ++ t) ->
  constant_assembled g p mo (imm_operands mo rd rsa rsb v) v.
Proof.
  intros Htab Hfr Hpend Hr Hin Hnm Hmain Ho Hrd Hrsa Hrsb Hbl H0 H1 H2 Hok Hv Hp Ht Htext.
  pose proof (imm_entry mo Hin (imm_text_args _ _ _ _ _ _ _ _ _ Ht)) as Hm.
  assert (text g (p + Z.of_nat (length bl) + Z.of_nat (String.length nm)) t) as Hops
    by (rewrite <- chars_length; exact (text_r _ _ _ _ (text_r _ _ _ _ Htext))).
  destruct (imm_line g _ mo (32 :: b0) b1 b2 rd rsa rsb e v t Hm Hrd Hrsa Hrsb
    ltac:(by constructor) H1 H2 Hok Hv Hr Hp Ht Hops) as (r & q & Hl).
  destruct (imm_text_blank _ _ _ _ _ _ _ _ _ Ht) as [t' ->].
  apply (constant_operands g p bl nm mo _ _ _ v r (expr_effect q)); try done.
  rewrite app_assoc in Htext |- *. exact (text_snoc _ _ _ _ _ Htext).
Qed.
End line.

(** [0xfF* 2- ~0] is 510 - (-1). *)
Definition line_cexp : cexp :=
  Bin O_subtract (Bin O_multiply (Num 16 (chars "fF")) (Num 10 (chars "2"))) (Un (chr "~") (Num 8 [])).

Lemma line_cexp_ok : cexp_ok line_cexp.
Proof.
  assert (forall r l, forallb (fun d => hex_value d <? r) l = true -> Forall (is_digit r) l) as Hd.
  { intros r l Hl. apply Forall_forall. intros d Hd%list_elem_of_In. rewrite forallb_forall in Hl.
    apply Hl, Z.ltb_lt in Hd. split; [apply hex_value_range|done]. }
  unfold radix_ok; repeat split; unfold number_ok, radix_ok;
    (tauto || (apply Hd; reflexivity) || discriminate || reflexivity).
Qed.

Definition sw_entry : fusion_opc_info_t :=
  mk_opc (Some "sw"%string) 0x0 USE_RABI_O FRMT_S CPID_MAIN MASK_IMM_S OPC_ST.

Definition const_gas : gas :=
  set_xst (mk_xstate (seg_normal 0) 0 (repeat 0 26) 0) (line_gas "sw  arg1, 0xfF* 2- ~0(sp )").

Lemma constant_line_witness :
  exists g g' w, md_begin true const_gas = Ret (tt, g)
    /\ @md_assemble (gas_expression no_float false) 0xcc 0 g = Ret (tt, g')
    /\ image (frags g') = be32 w /\ decode w = Some (InsnS 0 6 1 511)
    /\ forall st this, exists f g2, @fixup_one st f this g' = Ret (set_done true (set_addnumber 511 f), g2)
         /\ frags g2 = frags g'.
Proof.
  destruct (md_begin_ok true const_gas) as (g & Hg & Htab & Hf & Hob & _ & Hb & Hp & Hs & Hx).
  exists g.
  destruct (@constant_line no_float no_float_forward false 0xcc g 0 [] "sw" sw_entry [32] [32] [] 0 1 6
    line_cexp 511 (chars "  arg1, 0xfF* 2- ~0(sp )" ++ [0])) as (g' & w & i & f & H1 & H2 & _ & H4 & H5 & _ & _ & _ & _ & _ & _ & _ & H6 & H7 & H8).
  - exact Htab.
  - unfold frags_ok. rewrite Hf, Hob. exact demo_gas_ok.
  - by rewrite Hp.
  - split; [rewrite Hf; by exists [], (mk_frag 0 0 0 0 rs_fill [])|by rewrite Hs|rewrite Hx; cbn; lia].
  - apply (bool_decide_unpack _). vm_compute. exact I.
  - reflexivity.
  - reflexivity.
  - discriminate.
  - lia.
  - lia.
  - lia.
  - constructor.
  - repeat constructor.
  - repeat constructor.
  - constructor.
  - exact line_cexp_ok.
  - reflexivity.
  - intros _. apply (bool_decide_unpack _). vm_compute. exact I.
  - reflexivity.
  - apply textb_text. rewrite Hb. reflexivity.
  - exists g', w. split; [exact Hg|]. split; [exact H1|]. split; [rewrite H2, Hf; reflexivity|].
    split; [rewrite H5; rewrite <- H4; reflexivity|]. intros st this.
    destruct (H8 ltac:(rewrite Hf; constructor) ltac:(by rewrite H7) ltac:(left; by rewrite H7) st this) as (g2 & E & Hg2).
    exists f, g2. rewrite H6 in E. by split.
Defined.
