(* ===== verification/GasData.v ===== *)
(** * Data directives of gas/read.c: .byte, .word, .long, .quad, .octa, .ascii, .asciz

    [cons_worker] with [emit_expr] below it, and [stringer] with [next_char_of_string]
    below it, as Fusion-Core's gas has them: big-endian, without the TC_CONS_ hooks and
    the MRI syntax; WORKING_DOT_WORD is defined.  Not in the state, and left out: the line
    counters, the listing's search for DWARF 1 file names and lines in the sections .line
    and .debug, and [check_eh_frame] (the section is not one of unwind information,
    for which it returns 0).  [need_pass_2] is never set.

    [expressionS] has no [X_unsigned]; the flag the parser leaves with an expression is a
    parameter, which only .octa looks at. *)
From Stdlib Require Import Ascii.
From S2P Require Import Prelude FusionReloc GasState GasSymbols GasExpr GasResolve FusionAsm Leb128.
#[local] Open Scope Z_scope.

(** ** Ends of statements *)
Definition is_it_end_of_statement : M bool := _ ← SKIP_WHITESPACE; c ← look_ahead 0; mret (end_of_line c).

Definition ISPRINT (c : Z) : bool := between 32 126 (uchar c).

Definition demand_empty_rest_of_line : M unit :=
  _ ← SKIP_WHITESPACE;
  c ← look_ahead 0;
  if end_of_line c then advance 1
  else
    _ ← (if ISPRINT c then as_bad "junk at end of line, first unrecognized character is `%c'"
         else as_bad "junk at end of line, first unrecognized character valued 0x%x");
    ignore_rest_of_line.

(** ** One character at a time (frags.c) *)

(** A frag's bytes follow it in its chunk: were there no room after [frag_new], the
    obstack would put the character elsewhere. *)
Definition frag_append_1_char (datum : Z) : M unit :=
  ob ← gets frch_obstack;
  _ ← (if obstack_room ob <=? 1 then now ← frag_now; _ ← frag_wane now; frag_new 0 else mret tt);
  now ← frag_now;
  x ← get_frag (Some now);
  ob ← gets frch_obstack;
  if obstack_room ob <? 1 then fail Foob
  else
    _ ← put_frag now (mk_frag (fr_address x) (fr_fix x) (fr_var x) (fr_offset x) (fr_type x)
                        (fr_literal x ++ [Z.land datum 0xff]));
    modify (fun g => set_frags (frags g) (obstack_blank_fast 1 (frch_obstack g)) g).

Section data.
Context (section_flags : segT -> Z) {float_parser : FloatParser} (flag_keep_locals : bool) (junk : Z).
Context (X_unsigned : expressionS -> bool).

Definition in_bss : M bool :=
  x ← gets xst;
  let flags := section_flags (now_seg x) in
  mret (negb (Z.land flags 0x001 =? 0) && (Z.land flags (Z.lor 0x002 0x100) =? 0)).

(** ** Strings *)
Definition CHAR_MASK : Z := 0xff.
Definition NOT_A_CHAR : Z := CHAR_MASK + 1.
Definition is_a_char (c : Z) : bool := c <=? CHAR_MASK.

Definition ISDIGIT (c : Z) : bool := between 48 57 (uchar c).
Definition ISXDIGIT (c : Z) : bool := between 48 57 (uchar c) || between 65 70 (uchar c) || between 97 102 (uchar c).

(** [for (i = 0, number = 0; ISDIGIT (c) && i < 3; c = *input_line_pointer++, i++)] *)
Fixpoint octal_loop (turns : nat) (c number : Z) : M Z :=
  match turns with
  | O => mret number
  | S n => if ISDIGIT c then c' ← next_char; octal_loop n c' (number * 8 + c - 48) else mret number
  end.

Fixpoint hex_loop (fuel : nat) (c number : Z) : M Z :=
  match fuel with
  | O => fail Floop
  | S n =>
      if ISXDIGIT c then
        let digit := if between 48 57 c then c - 48 else if between 65 90 c then c - 65 + 10 else c - 97 + 10 in
        c ← next_char; hex_loop n c (s64 (number * 16 + digit))
      else mret number
  end.

(** After a backslash; the pointer is at the character [c] was read from, plus one. *)
Definition escape_char (c : Z) : M Z :=
  if c =? 98 then mret 8 else if c =? 102 then mret 12 else if c =? 110 then mret 10
  else if c =? 114 then mret 13 else if c =? 116 then mret 9 else if c =? 118 then mret 11
  else if (c =? 92) || (c =? 34) then mret c
  else if between 48 57 c then
    number ← octal_loop 3 c 0;
    _ ← advance (-1);
    mret (Z.land number CHAR_MASK)
  else if (c =? 120) || (c =? 88) then
    c ← next_char;
    n ← input_fuel;
    number ← hex_loop n c 0;
    _ ← advance (-1);
    mret (Z.land number CHAR_MASK)
  else if c =? 10 then _ ← as_warn "unterminated string; newline inserted"; mret 10
  else if c =? 0 then _ ← advance (-1); mret NOT_A_CHAR
  else mret c.

Definition next_char_of_string : M Z :=
  c ← next_char;
  let c := Z.land c CHAR_MASK in
  if c =? 0 then _ ← advance (-1); mret NOT_A_CHAR
  else if c =? 34 then mret NOT_A_CHAR
  else if c =? 10 then _ ← as_warn "unterminated string; newline inserted"; mret c
  else if c =? 92 then c ← next_char; escape_char (Z.land c CHAR_MASK)
  else mret c.

Fixpoint append_zeros (n : nat) : M unit :=
  match n with O => mret tt | S n => _ ← frag_append_1_char 0; append_zeros n end.

(** The target is big-endian. *)
Definition stringer_append_char (c bitsize : Z) : M unit :=
  bss ← in_bss;
  _ ← when (negb (c =? 0) && bss) (as_bad "attempt to store non-empty string in section `%s'");
  _ ← (if bitsize =? 64 then append_zeros 7 else if bitsize =? 32 then append_zeros 3
       else if bitsize =? 16 then append_zeros 1 else if bitsize =? 8 then mret tt else fail Fabort);
  frag_append_1_char c.

(** [while (is_a_char (c = next_char_of_string ()))] *)
Fixpoint chars_loop (fuel : nat) (bitsize : Z) : M unit :=
  match fuel with
  | O => fail Floop
  | S n =>
      c ← next_char_of_string;
      if is_a_char c then _ ← stringer_append_char c bitsize; chars_loop n bitsize else mret tt
  end.

Fixpoint strings_loop (fuel : nat) (bitsize : Z) (append_zero : bool) (c : Z) : M unit :=
  match fuel with
  | O => fail Floop
  | S n =>
      if (c =? 44) || (c =? 60) || (c =? 34) then
        _ ← SKIP_WHITESPACE;
        d ← look_ahead 0;
        _ ← (if d =? 34 then
               _ ← advance 1;
               k ← input_fuel;
               _ ← chars_loop k bitsize;
               when append_zero (stringer_append_char 0 bitsize)
             else if d =? 60 then
               _ ← advance 1;
               e ← get_single_number flag_keep_locals;
               _ ← stringer_append_char e bitsize;
               d ← look_ahead 0;
               _ ← when (negb (d =? 62)) (as_bad "expected <nn>");
               advance 1
             else if d =? 44 then advance 1 else mret tt);
        _ ← SKIP_WHITESPACE;
        c ← look_ahead 0;
        strings_loop n bitsize append_zero c
      else mret tt
  end.

(** The first turn may read nothing. *)
Definition stringer (bits_appendzero : Z) : M unit :=
  let bitsize := Z.land bits_appendzero (Z.lnot 7) in
  let append_zero := negb (Z.land bits_appendzero 1 =? 0) in
  x ← gets xst;
  if decide (now_seg x = seg_absolute) then
    _ ← as_bad "strings must be placed into a section"; ignore_rest_of_line
  else
    stop ← is_it_end_of_statement;
    c ← (if (stop : bool) then _ ← advance 1; mret 0 else mret 44);
    n ← input_fuel;
    _ ← strings_loop (S n) bitsize append_zero c;
    demand_empty_rest_of_line.

(** ** Numbers *)
Definition put_literal (f : list Z -> res (list Z)) : M unit :=
  now ← frag_now;
  x ← get_frag (Some now);
  l ← lift (f (fr_literal x));
  put_frag now (mk_frag (fr_address x) (fr_fix x) (fr_var x) (fr_offset x) (fr_type x) l).

(** [md_number_to_chars] into the current frag. *)
Definition put_chars (p use nbytes : Z) : M unit := put_literal (fun l => md_number_to_chars l p use nbytes).

Fixpoint clear_bytes (n : nat) (p : Z) (l : list Z) : res (list Z) :=
  match n with O => Ret l | S n => let! l := wr l p 0 in clear_bytes n (p + 1) l end.

(** [r] is [TC_PARSE_CONS_RETURN_NONE]. *)
Definition emit_expr_fix (exp : expressionS) (nbytes : Z) (p : Z) : M unit :=
  _ ← put_literal (clear_bytes (Z.to_nat nbytes) p);
  now ← frag_now;
  let new r := _ ← fix_new_exp (Some now) p nbytes exp false r; mret tt in
  if nbytes =? 1 then new BFD_RELOC_8 else if nbytes =? 2 then new BFD_RELOC_16
  else if nbytes =? 3 then new BFD_RELOC_24 else if nbytes =? 4 then new BFD_RELOC_32
  else if nbytes =? 8 then new BFD_RELOC_64 else as_bad "unsupported BFD relocation size %u".

(** The case O_constant, [nbytes] not above 8. *)
Definition emit_integer (X_add_number nbytes p : Z) : M unit :=
  let mask := if 8 <=? nbytes then 0 else u64 (Z.shiftl (u64 (-1)) (8 * nbytes)) in
  let hibit := u64 (Z.shiftl 1 (nbytes * 8 - 1)) in
  let unmask := u64 (Z.lnot mask) in
  let get := u64 X_add_number in
  let use := Z.land get unmask in
  _ ← when (negb (Z.land get mask =? 0) && (negb (Z.land get mask =? mask) || (Z.land get hibit =? 0)))
        (as_warn "value 0x%llx truncated to 0x%llx");
  put_chars p use nbytes.

(** [while (++i < exp->X_add_number) if (generic_bignum[i] != sign) break;] *)
Fixpoint sign_run (fuel : nat) (i : nat) (sign X_add_number : Z) : M nat :=
  match fuel with
  | O => fail Floop
  | S n =>
      if Z.of_nat (S i) <? X_add_number then
        d ← big_get (S i); if d =? sign then sign_run n (S i) sign X_add_number else mret (S i)
      else mret (S i)
  end.

(** The first littlenum that is not the sign of what is stored. *)
Definition truncated_at (nbytes X_add_number : Z) : M nat :=
  let fuel := S (Z.to_nat X_add_number) in
  let i := Z.to_nat (nbytes / 2) in
  if negb (i =? 0)%nat then
    d ← big_get (i - 1);
    sign_run fuel (i - 1) (if Z.land d 0x8000 =? 0 then 0 else LITTLENUM_MASK) X_add_number
  else if nbytes =? 1 then
    d ← big_get 0;
    let sign := if Z.land d 0x80 =? 0 then 0 else LITTLENUM_MASK in
    if Z.land d 0xff00 =? Z.land sign 0xff00 then sign_run fuel 0 sign X_add_number else mret 0%nat
  else mret 0%nat.

(** [while (nbytes > size)] from the left, then the littlenums from the top. *)
Fixpoint extra_loop (fuel : nat) (nbytes size p extra_digit : Z) : M Z :=
  match fuel with
  | O => fail Floop
  | S n => if size <? nbytes then _ ← put_chars p extra_digit 2; extra_loop n (nbytes - 2) size (p + 2) extra_digit
           else mret p
  end.

Fixpoint nums_loop (nums : nat) (p : Z) : M unit :=
  match nums with
  | O => mret tt
  | S n => d ← big_get n; _ ← put_chars p d 2; nums_loop n (p + 2)
  end.

(** The case O_big. *)
Definition emit_bignum (X_add_number nbytes p extra_digit : Z) : M unit :=
  let size := u32 (X_add_number * 2) in
  size ← (if nbytes <? size then
            i ← truncated_at nbytes X_add_number;
            _ ← when (Z.of_nat i <? X_add_number) (as_warn "bignum truncated to %d bytes");
            mret nbytes
          else mret size);
  if nbytes =? 1 then d ← big_get 0; put_chars p d 1
  else
    p ← extra_loop (S (Z.to_nat nbytes)) nbytes size p extra_digit;
    nums_loop (Z.to_nat (size / 2)) p.

Definition set_bignum_digits (l : list Z) : M unit :=
  (fix go (i : nat) (l : list Z) : M unit :=
     match l with [] => mret tt | d :: l => _ ← big_put i d; go (S i) l end) 0%nat l.

(** Negating a bignum in place. *)
Fixpoint negate_loop (k i : nat) (carry : Z) : M unit :=
  match k with
  | O => mret tt
  | S k =>
      d ← big_get i;
      let next := u64 (Z.land (Z.lnot (Z.land d LITTLENUM_MASK)) LITTLENUM_MASK + carry) in
      _ ← big_put i (Z.land next LITTLENUM_MASK);
      negate_loop k (S i) (Z.shiftr next 16)
  end.

Definition negative_bignum (exp : expressionS) : M (option expressionS) :=
  match X_op exp, X_add_symbol exp with
  | O_uminus, Some s =>
      if X_add_number exp =? 0 then
        e ← with_syms (fun _ => symbol_get_value_expression s);
        mret (if decide (X_op e = O_big) then (if 0 <? X_add_number e then Some e else None) else None)
      else mret None
  | _, _ => mret None
  end.

Definition add_abs_offset (n : Z) (g : gas) : gas :=
  let x := xst g in set_xst (mk_xstate (now_seg x) (u64 (abs_section_offset x + n)) (generic_bignum x) (flonum_sign x)) g.

(** The expression with what is known of it: its number, its operator and the digit
    above its bignum. *)
Definition expression_kind (exp : expressionS) : M (expressionS * Z * operatorT * Z) :=
  neg ← negative_bignum exp;
  match neg with
  | Some e => _ ← negate_loop (Z.to_nat (X_add_number e)) 0 1; mret (e, X_add_number e, O_big, u64 (-1))
  | None =>
      match X_op exp with
      | O_absent | O_illegal => _ ← as_warn "zero assumed for missing expression"; mret (exp, 0, O_constant, 0)
      | O_big =>
          if X_add_number exp <=? 0 then _ ← as_bad "floating point number invalid"; mret (exp, 0, O_constant, 0)
          else mret (exp, X_add_number exp, O_big, 0)
      | O_register => _ ← as_warn "register value used as expression"; mret (exp, X_add_number exp, O_constant, 0)
      | op => mret (exp, X_add_number exp, op, 0)
      end
  end.

Definition emit_expr (exp : expressionS) (nbytes : Z) : M unit :=
  _ ← frag_grow nbytes;
  v ← frag_now_fix;
  now ← frag_now;
  _ ← modify (set_dot v (Some now));
  '(exp, number, op, extra_digit) ← expression_kind exp;
  let zero := bool_decide (op = O_constant) && (number =? 0) in
  x ← gets xst;
  if decide (now_seg x = seg_absolute) then
    _ ← when (negb zero) (as_bad "attempt to store value in absolute section");
    modify (add_abs_offset nbytes)
  else
    bss ← in_bss;
    _ ← when (negb zero && bss) (as_bad "attempt to store non-zero value in section `%s'");
    p ← frag_more junk nbytes;
    match op with
    | O_constant =>
        if 8 <? nbytes then
          let digits := convert_to_bignum number (negb (X_unsigned exp)) in
          _ ← set_bignum_digits digits;
          emit_bignum (Z.of_nat (length digits)) nbytes p (if X_unsigned exp then 0 else u64 (-1))
        else emit_integer number nbytes p
    | O_big => emit_bignum number nbytes p extra_digit
    | _ => emit_expr_fix exp nbytes p
    end.

(** [do ... while ( *input_line_pointer++ == ',')] *)
Fixpoint cons_loop (fuel : nat) (nbytes : Z) (rva : bool) : M unit :=
  match fuel with
  | O => fail Floop
  | S n =>
      '(exp, _) ← expr flag_keep_locals 0 expr_normal;
      exp ← (if rva then
               if decide (X_op exp = O_symbol)
               then mret (mk_expr (X_add_symbol exp) (X_op_symbol exp) (X_add_number exp) O_symbol_rva)
               else as_fatal "rva without symbol"
             else mret exp);
      _ ← emit_expr exp nbytes;
      c ← next_char;
      if c =? 44 then cons_loop n nbytes rva else mret tt
  end.

Definition cons_worker (nbytes : Z) (rva : bool) : M unit :=
  stop ← is_it_end_of_statement;
  if (stop : bool) then demand_empty_rest_of_line
  else
    n ← input_fuel;
    _ ← cons_loop n nbytes rva;
    _ ← advance (-1);
    demand_empty_rest_of_line.

Definition cons (size : Z) : M unit := cons_worker size false.
Definition s_rva (size : Z) : M unit := cons_worker size true.
End data.
