(* ===== verification/GasDataOk.v ===== *)
(** * What the data directives put out

    A line of strings puts out their characters, each as wide as the directive says
    ([spells]: the ways to write one); a line of constant expressions their values, high
    byte first, with a warning for each that does not fit. *)
From Stdlib Require Import Ascii.
From S2P Require Import Prelude Endian FusionReloc GasState GasResolve GasExpr GasExprEnds GasNumber GasConst FusionParse FusionAsm ConstLine Leb128 LebOk GasData.
#[local] Open Scope Z_scope.

(** ** Steps that put out bytes *)

(** What a data directive does not write. *)
Definition unwritten (g : gas) : gas := rest_of (set_log [] (set_frags [] (mk_obstack 0 0 0 0) g)).

(** From [g] to [g']: the bytes and diagnostics put out, the input pointer at [q]. *)
Record put_out (bytes : list Z) (diags : list diag) (q : Z) (g g' : gas) : Prop := {
  po_image : image (frags g') = image (frags g) ++ bytes;
  po_ext : chain_ext (frags g) (frags g');
  po_ok : frags_ok g';
  po_ilp : input_line_pointer g' = q;
  po_log : log g' = log g ++ diags;
  po_rest : unwritten g' = unwritten g;
  po_big : length (generic_bignum (xst g')) = length (generic_bignum (xst g))
}.

Lemma put_out_trans (b1 b2 : list Z) (d1 d2 : list diag) (q1 q2 : Z) (g1 g2 g3 : gas) :
  put_out b1 d1 q1 g1 g2 -> put_out b2 d2 q2 g2 g3 -> put_out (b1 ++ b2) (d1 ++ d2) q2 g1 g3.
Proof.
  intros [A1 A2 _ _ A5 A6 A7] [B1 B2 B3 B4 B5 B6 B7]. split; try done; try congruence.
  - by rewrite B1, A1, app_assoc.
  - by eapply chain_ext_trans.
  - by rewrite B5, A5, app_assoc.
Qed.

Lemma put_out_next (b1 b2 : list Z) (q1 q2 : Z) (g1 g2 g3 : gas) :
  put_out b1 [] q1 g1 g2 -> put_out b2 [] q2 g2 g3 -> put_out (b1 ++ b2) [] q2 g1 g3.
Proof. apply put_out_trans. Qed.

Lemma put_out_ilp (g : gas) (q : Z) : frags_ok g -> put_out [] [] q g (set_ilp q g).
Proof. intros H. split; try done; [by rewrite app_nil_r|apply chain_ext_refl|by rewrite app_nil_r]. Qed.

Lemma put_out_refl (g : gas) (q : Z) : frags_ok g -> q = input_line_pointer g -> put_out [] [] q g g.
Proof. intros H E. rewrite <- (set_ilp_same g q E) at 2. by apply put_out_ilp. Qed.

Lemma put_out_warn (g : gas) (d : list diag) : frags_ok g -> put_out [] d (input_line_pointer g) g (set_log (log g ++ d) g).
Proof. intros H. split; try done; [by rewrite app_nil_r|apply chain_ext_refl]. Qed.

Lemma put_out_parsed (g g' : gas) (q : Z) : frags_ok g -> parsed q g g' -> put_out [] [] q g g'.
Proof.
  intros Hok (E & R & L).
  assert (frags g' = frags g) as Ef by exact (f_equal frags R).
  assert (frch_obstack g' = frch_obstack g) as Eo by exact (f_equal frch_obstack R).
  assert (log g' = log g) as El by exact (f_equal log R).
  split; [by rewrite Ef, app_nil_r|rewrite Ef; apply chain_ext_refl| |done|by rewrite El, app_nil_r| |done].
  - destruct Hok. split; [by rewrite Ef|by rewrite Eo].
  - change (set_log [] (set_frags [] (mk_obstack 0 0 0 0) (rest_of g')) = set_log [] (set_frags [] (mk_obstack 0 0 0 0) (rest_of g))).
    by rewrite R.
Qed.

Lemma put_out_frags (g g' : gas) (bytes : list Z) :
  image (frags g') = image (frags g) ++ bytes -> chain_ext (frags g) (frags g') -> frags_only g g' -> frags_ok g' ->
  put_out bytes [] (input_line_pointer g) g g'.
Proof. intros H1 H2 H3 H4. rewrite H3 in H1, H2, H4 |- *. split; try done. by rewrite app_nil_r. Qed.

Section frame.
Context {bytes : list Z} {diags : list diag} {q : Z} {g g' : gas} (H : put_out bytes diags q g g').

Lemma po_buffer : buffer g' = buffer g.
Proof. exact (f_equal buffer (po_rest _ _ _ _ _ H)). Qed.

Lemma po_text (p : Z) (l : list Z) : text g p l -> text g' p l.
Proof. intros Ht k c Hk. rewrite po_buffer. by apply Ht. Qed.

Lemma po_seg : now_seg (xst g') = now_seg (xst g).
Proof. exact (f_equal (fun g => now_seg (xst g)) (po_rest _ _ _ _ _ H)). Qed.

Lemma po_fixes : fixes g' = fixes g.
Proof. exact (f_equal fixes (po_rest _ _ _ _ _ H)). Qed.

Lemma po_ready : ready g -> ready g'.
Proof.
  intros [_ H2 H3]. split; [apply H| |by rewrite (po_big _ _ _ _ _ H)].
  by rewrite (f_equal symtab (po_rest _ _ _ _ _ H) : symtab g' = symtab g).
Qed.
End frame.

(** ** One character *)
Lemma frag_new_run (g : gas) (fs : list frag) (x : frag) : frags g = fs ++ [x] ->
  (now ← frag_now; _ ← frag_wane now; frag_new 0) g
  = Ret (tt, set_frags ((fs ++ [mk_frag (fr_address x) (Z.of_nat (length (fr_literal x)) - 0) 0 0 rs_fill (fr_literal x)])
                        ++ [mk_frag 0 0 0 0 rs_dummy []])
               (frag_alloc (obstack_finish DEFAULT_MASK (frch_obstack g))).2 g).
Proof.
  intros Hfs. pose proof (frag_new_step g fs x (mret tt) Hfs) as E. cbv zeta in E. revert E. unfold mbind, M_bind.
  destruct (frag_now g) as [[n g1]|]; [|done]. destruct (frag_wane n g1) as [[u g2]|]; [|done].
  destruct (frag_new 0 g2) as [[[] g3]|]; [|done]. intros E. exact E.
Qed.

(** Room for a character in the current frag. *)
Lemma room_for_char (g : gas) : frags_ok g ->
  exists g1, (if obstack_room (frch_obstack g) <=? 1 then now ← frag_now; _ ← frag_wane now; frag_new 0 else mret tt) g
      = Ret (tt, g1) /\ frags_only g g1 /\ image (frags g1) = image (frags g) /\ chain_ext (frags g) (frags g1) /\
    obstack_ok (frch_obstack g1) /\ 1 <= obstack_room (frch_obstack g1) /\ exists fs x, frags g1 = fs ++ [x].
Proof.
  intros [(fs & x & Hfs) Hob]. destruct (Z.leb_spec (obstack_room (frch_obstack g)) 1) as [Hr|Hr].
  - rewrite (frag_new_run g fs x Hfs). destruct (frag_alloc_room _ Hob) as (Hob' & _ & Hroom).
    eexists. split; [reflexivity|]. cbn [set_frags frags frch_obstack]. split_and!.
    + by destruct g.
    + rewrite Hfs, !image_snoc. apply app_nil_r.
    + rewrite Hfs. eapply chain_ext_trans; [|apply chain_ext_snoc]. apply chain_ext_last. by split.
    + done.
    + destruct Hroom as [Hroom|Hroom]; [|lia]. exfalso. unfold SIZEOF_STRUCT_FRAG in Hroom.
      destruct Hob'. unfold obstack_room in *. lia.
    + by eexists _, _.
  - exists g. split_and!; try done; [by destruct g|apply chain_ext_refl|lia|by eauto].
Qed.

Lemma frag_append_ok (datum : Z) (g : gas) : frags_ok g ->
  exists g', frag_append_1_char datum g = Ret (tt, g') /\ put_out [Z.land datum 0xff] [] (input_line_pointer g) g g'.
Proof.
  intros Hok. unfold frag_append_1_char. erewrite mbind_ret; [|reflexivity].
  destruct (room_for_char g Hok) as (g1 & E & Ho & Hi & Hc & Hob & Hr & fs & x & Hfs).
  rewrite (mbind_ret _ _ _ _ _ E), (mbind_ret _ _ _ _ _ (frag_now_last g1 fs x Hfs)),
    (mbind_ret _ _ _ _ _ (get_frag_last g1 fs x Hfs)).
  erewrite mbind_ret; [|reflexivity]. destruct (Z.ltb_spec (obstack_room (frch_obstack g1)) 1); [lia|].
  rewrite (mbind_ret _ _ _ _ _ (put_frag_last g1 fs x _ Hfs)). eexists. split; [reflexivity|].
  apply put_out_frags; cbn [set_frags frags frch_obstack].
  - rewrite <- Hi, Hfs, !image_snoc. cbn [fr_literal]. apply app_assoc.
  - eapply chain_ext_trans; [exact Hc|]. rewrite Hfs. apply chain_ext_last. split; [done|by eexists].
  - eapply frags_only_trans; [exact Ho|]. unfold frags_only. reflexivity.
  - split; [by eexists _, _|]. destruct Hob. unfold obstack_room in *. split; cbn; lia.
Qed.

Section line.
Context (section_flags : segT -> Z) {float_parser : FloatParser} {forward : FloatForward float_parser}.
Context (keep : bool) (junk : Z) (X_unsigned : expressionS -> bool).

(** A section with contents. *)
Definition stores (g : gas) : Prop :=
  now_seg (xst g) <> seg_absolute /\
  (Z.land (section_flags (now_seg (xst g))) 0x001 = 0 \/ Z.land (section_flags (now_seg (xst g))) 0x102 <> 0).

Lemma in_bss_no (g : gas) : stores g -> in_bss section_flags g = Ret (false, g).
Proof.
  intros [_ H]. unfold in_bss. mrun. unfold mret, M_ret. do 2 f_equal. change (Z.lor 0x002 0x100) with 0x102.
  apply andb_false_iff. destruct H as [->|H]; [by left|right; by apply Z.eqb_neq].
Qed.

Lemma po_stores {bytes diags q g g'} : put_out bytes diags q g g' -> stores g -> stores g'.
Proof. intros H. unfold stores. by rewrite (po_seg H). Qed.

(** ** Strings *)

(** A character as wide as a directive stores it. *)
Definition widen (bits c : Z) : list Z := replicate (Z.to_nat (bits / 8) - 1) 0 ++ [c].

Lemma append_zeros_ok (n : nat) (g : gas) : frags_ok g ->
  exists g', append_zeros n g = Ret (tt, g') /\ put_out (replicate n 0) [] (input_line_pointer g) g g'.
Proof.
  revert g. induction n as [|n IH]; intros g Hok; [exists g; split; [done|by apply put_out_refl]|].
  destruct (frag_append_ok 0 g Hok) as (g1 & E1 & P1). destruct (IH g1 (po_ok _ _ _ _ _ P1)) as (g2 & E2 & P2).
  exists g2. cbn [append_zeros]. rewrite (mbind_ret _ _ _ _ _ E1). split; [done|].
  rewrite (po_ilp _ _ _ _ _ P1) in P2. exact (put_out_next _ _ _ _ _ _ _ P1 P2).
Qed.

Lemma append_char_ok (c bits : Z) (g : gas) : frags_ok g -> stores g -> bits ∈ [8; 16; 32; 64] ->
  exists g', stringer_append_char section_flags c bits g = Ret (tt, g')
    /\ put_out (widen bits (Z.land c 0xff)) [] (input_line_pointer g) g g'.
Proof.
  intros Hok Hst Hb. unfold stringer_append_char. rewrite (mbind_ret _ _ _ _ _ (in_bss_no g Hst)).
  rewrite andb_false_r. cbn [when]. erewrite mbind_ret; [|reflexivity].
  destruct (append_zeros_ok (Z.to_nat (bits / 8) - 1) g Hok) as (g1 & E1 & P1).
  destruct (frag_append_ok c g1 (po_ok _ _ _ _ _ P1)) as (g2 & E2 & P2).
  exists g2. erewrite mbind_ret; [split; [exact E2|]|].
  - rewrite (po_ilp _ _ _ _ _ P1) in P2. exact (put_out_next _ _ _ _ _ _ _ P1 P2).
  - rewrite <- E1. rewrite !elem_of_cons, elem_of_nil in Hb. by destruct_or! Hb; subst.
Qed.

(** The ways to write a character in a string, [d] being the character after it: itself, a
    letter or another character after a backslash, up to three digits read in octal (8 and
    9 among them), or x and any number of hexadecimal digits. *)
Definition letters : list (Z * Z) := [(98, 8); (102, 12); (110, 10); (114, 13); (116, 9); (118, 11)].
Definition special (a : Z) : bool :=
  (a =? 0) || (a =? 10) || (a =? 120) || (a =? 88) || between 48 57 a || bool_decide (a ∈ letters.*1).

Definition octal_number (ds : list Z) : Z := fold_left (fun n d => n * 8 + (d - 48)) ds 0.
Definition xdigit_value (d : Z) : Z := if d <=? 57 then d - 48 else if d <=? 70 then d - 55 else d - 87.
Definition hex_number (hs : list Z) : Z := fold_left (fun n d => n * 16 + xdigit_value d) hs 0.

Inductive spells : list Z -> Z -> Z -> Prop :=
| spell_plain d c : 0 < c < 128 -> c <> 10 -> c <> 34 -> c <> 92 -> spells [c] d c
| spell_letter d a c : (a, c) ∈ letters -> spells [92; a] d c
| spell_other d a : 0 < a < 128 -> special a = false -> spells [92; a] d a
| spell_octal d ds : Forall (fun d => ISDIGIT d = true) ds -> (1 <= length ds <= 3)%nat ->
    length ds = 3%nat \/ ISDIGIT d = false -> spells (92 :: ds) d (octal_number ds mod 256)
| spell_hex d x hs : x = 120 \/ x = 88 -> Forall (fun d => ISXDIGIT d = true) hs -> ISXDIGIT d = false ->
    spells (92 :: x :: hs) d (hex_number hs mod 256).

Lemma spells_byte (l : list Z) (d c : Z) : spells l d c -> 0 <= c < 256.
Proof.
  intros [? ? ?|? a b Ha|? a Ha _|? ? _ _ _|? ? ? _ _ _]; [lia| |lia|by apply Z.mod_pos_bound..].
  unfold letters in Ha. rewrite !elem_of_cons, elem_of_nil in Ha. destruct_or! Ha; injection Ha as -> ->; lia.
Qed.

Lemma mask_char (c : Z) : 0 <= c < 256 -> Z.land c CHAR_MASK = c.
Proof. intros H. change CHAR_MASK with (Z.ones 8). rewrite Z.land_ones by lia. by apply Z.mod_small. Qed.

Lemma land_char_mask (x : Z) : Z.land x CHAR_MASK = x mod 256.
Proof. change CHAR_MASK with (Z.ones 8). by rewrite Z.land_ones by lia. Qed.

Lemma octal_ok (ds : list Z) (turns : nat) (d number : Z) (rest : list Z) (g : gas) :
  Forall (fun d => ISDIGIT d = true) ds -> (length ds <= turns)%nat -> length ds = turns \/ ISDIGIT d = false ->
  text g (input_line_pointer g) (ds ++ d :: rest) ->
  (c ← next_char; octal_loop turns c number) g
  = Ret (fold_left (fun n d => n * 8 + (d - 48)) ds number,
         set_ilp (input_line_pointer g + Z.of_nat (length ds) + 1) g).
Proof.
  intros Hds. revert turns number g. induction Hds as [|c ds Hc Hds IH]; intros turns number g Hn Hd Ht; cbn [app] in Ht.
  - rewrite (mbind_ret _ _ _ _ _ (next_text g _ _ Ht)). cbn [length fold_left]. rewrite Z.add_0_r.
    destruct turns as [|turns]; [done|]. destruct Hd as [|Hd]; [done|]. cbn [octal_loop]. by rewrite Hd.
  - rewrite (mbind_ret _ _ _ _ _ (next_text g _ _ Ht)). cbn [length] in *. destruct turns as [|turns]; [lia|].
    cbn [octal_loop]. rewrite Hc. pose proof (text_tail _ _ _ _ Ht) as Ht2. set (g2 := set_ilp _ g) in *.
    rewrite (IH turns _ g2) by (done || lia || (destruct Hd; [left; lia|by right])). cbn [fold_left].
    do 2 f_equal; [f_equal; lia|]. unfold g2. rewrite set_ilp_twice. cbn [input_line_pointer set_ilp]. f_equal. lia.
Qed.

Lemma xdigit_cases (c : Z) : 0 <= c < 128 -> ISXDIGIT c = true ->
  (if between 48 57 c then c - 48 else if between 65 90 c then c - 65 + 10 else c - 97 + 10) = xdigit_value c.
Proof.
  intros Hc. unfold ISXDIGIT, uchar, xdigit_value. change (Z.land c 0xff) with (Z.land c CHAR_MASK).
  rewrite mask_char by lia. unfold between. intros H. repeat case_match; lia.
Qed.

Lemma s64_mod (x : Z) : s64 x mod 256 = x mod 256.
Proof.
  unfold s64. change (2 ^ 64) with (2 ^ 56 * 256). rewrite Zminus_mod, (Z.mul_comm (2 ^ 56)), <- Zminus_mod.
  rewrite Z.rem_mul_r by lia. change (2 ^ 63) with (2 ^ 55 * 256). Z.to_euclidean_division_equations; lia.
Qed.

Lemma hex_fold (hs : list Z) (n : Z) :
  fold_left (fun n d => s64 (n * 16 + xdigit_value d)) hs n mod 256
  = fold_left (fun n d => n * 16 + xdigit_value d) hs n mod 256.
Proof.
  enough (forall n m, n mod 256 = m mod 256 ->
    fold_left (fun n d => s64 (n * 16 + xdigit_value d)) hs n mod 256
    = fold_left (fun n d => n * 16 + xdigit_value d) hs m mod 256) by auto.
  clear n. induction hs as [|d hs IH]; intros n m H; cbn [fold_left]; [done|]. apply IH. rewrite s64_mod.
  rewrite (Z.add_mod (n * 16)), (Z.mul_mod n), H, <- Z.mul_mod, <- Z.add_mod by lia. done.
Qed.

Lemma hex_ok (hs : list Z) (fuel : nat) (d number : Z) (rest : list Z) (g : gas) :
  Forall (fun d => ISXDIGIT d = true) hs -> (length hs < fuel)%nat -> ISXDIGIT d = false ->
  text g (input_line_pointer g) (hs ++ d :: rest) ->
  (c ← next_char; hex_loop fuel c number) g
  = Ret (fold_left (fun n d => s64 (n * 16 + xdigit_value d)) hs number,
         set_ilp (input_line_pointer g + Z.of_nat (length hs) + 1) g).
Proof.
  intros Hhs. revert fuel number g. induction Hhs as [|c hs Hc Hhs IH]; intros fuel number g Hn Hd Ht; cbn [app] in Ht;
    cbn [length] in *; (destruct fuel as [|fuel]; [lia|]); rewrite (mbind_ret _ _ _ _ _ (next_text g _ _ Ht)); cbn [hex_loop].
  - rewrite Hd. cbn [fold_left]. by rewrite Z.add_0_r.
  - rewrite Hc. cbv zeta. rewrite xdigit_cases by (done || apply (Ht 0%nat c eq_refl)).
    pose proof (text_tail _ _ _ _ Ht) as Ht2. set (g2 := set_ilp _ g) in *.
    rewrite (IH fuel _ g2) by (done || lia). cbn [fold_left].
    do 2 f_equal. unfold g2. rewrite set_ilp_twice. cbn [input_line_pointer set_ilp]. f_equal. lia.
Qed.

(** After the backslash. *)
Lemma escape_ok (a d c : Z) (l rest : list Z) (g : gas) :
  spells (92 :: a :: l) d c -> text g (input_line_pointer g) (a :: l ++ d :: rest) ->
  (c ← next_char; escape_char (Z.land c CHAR_MASK)) g
  = Ret (c, set_ilp (input_line_pointer g + Z.of_nat (S (length l))) g).
Proof.
  intros Hs Ht. pose proof (text_tail _ _ _ _ Ht) as Ht2. rewrite (mbind_ret _ _ _ _ _ (next_text g a _ Ht)).
  assert (Ha8 : 0 <= a < 128) by apply (Ht 0%nat a eq_refl). rewrite mask_char by lia.
  set (g2 := set_ilp _ g) in *.
  inversion Hs as [|? ? ? Ha|? ? Ha Hn|? ? Hds Hn Hd|? ? hs Hx Hhs Hd]; subst.
  - unfold letters in Ha. rewrite !elem_of_cons, elem_of_nil in Ha. destruct_or! Ha; by injection Ha as -> ->.
  - unfold special in Hn. rewrite !orb_false_iff, bool_decide_eq_false in Hn.
    destruct Hn as [[[[[N1 N2] N3] N4] N5] N6]. unfold escape_char. rewrite N1, N2, N3, N4, N5. cbn [orb].
    unfold letters in N6. cbn in N6. rewrite !not_elem_of_cons in N6. destruct N6 as (M1 & M2 & M3 & M4 & M5 & M6 & _).
    rewrite (proj2 (Z.eqb_neq c 98)), (proj2 (Z.eqb_neq c 102)), (proj2 (Z.eqb_neq c 110)), (proj2 (Z.eqb_neq c 114)),
      (proj2 (Z.eqb_neq c 116)), (proj2 (Z.eqb_neq c 118)) by done. by destruct ((c =? 92) || (c =? 34)).
  - pose proof (octal_ok (a :: l) 3 d 0 rest g Hds ltac:(lia) Hd Ht) as E.
    rewrite (mbind_ret _ _ _ _ _ (next_text g a _ Ht)) in E. fold g2 in E.
    assert (between 48 57 a = true) as Hb.
    { apply Forall_inv in Hds. unfold ISDIGIT, uchar in Hds. change (Z.land a 0xff) with (Z.land a CHAR_MASK) in Hds.
      by rewrite mask_char in Hds by lia. }
    assert (48 <= a <= 57) by (unfold between in Hb; lia).
    unfold escape_char. rewrite !(proj2 (Z.eqb_neq a _)) by lia. cbn [orb]. rewrite Hb, (mbind_ret _ _ _ _ _ E).
    unfold advance, modify. erewrite mbind_ret; [|reflexivity]. unfold mret, M_ret. rewrite land_char_mask. do 2 f_equal.
    rewrite set_ilp_twice. cbn [input_line_pointer set_ilp]. f_equal. cbn [length]. lia.
  - unfold escape_char. rewrite !(proj2 (Z.eqb_neq a _)) by lia.
    assert (between 48 57 a = false) as -> by (unfold between; lia). cbn [orb].
    assert ((a =? 120) || (a =? 88) = true) as -> by lia.
    assert (exists c rest', l ++ d :: rest = c :: rest' /\ length l <= length rest')%nat as (c & rest' & El & Hlen).
    { destruct l as [|c l']; [exists d, rest; split; [done|cbn; lia]|].
      exists c, (l' ++ d :: rest). rewrite length_app. cbn. split; [done|lia]. }
    pose proof Ht2 as Ht2'. rewrite El in Ht2'. pose proof (text_tail _ _ _ _ Ht2') as Ht3.
    set (g3 := set_ilp (input_line_pointer g2 + 1) g2).
    pose proof (left_text g3 _ Ht3) as L.
    pose proof (hex_ok l (S (left_over g3)) d 0 rest g2 Hhs ltac:(lia) Hd Ht2) as E.
    rewrite (mbind_ret _ _ _ _ _ (next_text g2 c rest' Ht2')) in E. fold g3 in E.
    rewrite (mbind_ret _ _ _ _ _ (next_text g2 c rest' Ht2')). fold g3. rewrite (mbind_ret _ _ _ _ _ (fuel_left g3)).
    rewrite (mbind_ret _ _ _ _ _ E).
    unfold advance, modify. erewrite mbind_ret; [|reflexivity]. unfold mret, M_ret. rewrite land_char_mask, hex_fold. do 2 f_equal.
    unfold g2. rewrite !set_ilp_twice. cbn [input_line_pointer set_ilp]. f_equal. lia.
Qed.

Lemma next_char_ok (l : list Z) (d c : Z) (rest : list Z) (g : gas) :
  spells l d c -> text g (input_line_pointer g) (l ++ d :: rest) ->
  next_char_of_string g = Ret (c, set_ilp (input_line_pointer g + Z.of_nat (length l)) g).
Proof.
  intros Hs Ht. unfold next_char_of_string.
  assert ((exists a l', l = 92 :: a :: l') \/ l = [c] /\ 0 < c < 128 /\ c <> 10 /\ c <> 34 /\ c <> 92) as [(a & l' & ->)|(-> & Hc & H1 & H2 & H3)].
  { destruct Hs as [| | |? [|a ds] ? ?|]; try (left; by eexists _, _); [right; tauto|cbn in *; lia]. }
  - cbn [app] in Ht. rewrite (mbind_ret _ _ _ _ _ (next_text g _ _ Ht)); cbv zeta.
    change (Z.land 92 CHAR_MASK) with 92. cbn [Z.eqb Pos.eqb].
    pose proof (text_tail _ _ _ _ Ht) as Ht2. rewrite (escape_ok a d c l' rest (set_ilp (input_line_pointer g + 1) g) Hs Ht2).
    rewrite set_ilp_twice. cbn [input_line_pointer set_ilp length]. do 3 f_equal. lia.
  - cbn [app] in Ht. rewrite (mbind_ret _ _ _ _ _ (next_text g _ _ Ht)); cbv zeta.
    rewrite mask_char by lia. by rewrite !(proj2 (Z.eqb_neq c _)) by lia.
Qed.

(** The characters [cs] of a string are written as [ts], up to the quote. *)
Fixpoint spelled (ts : list (list Z)) (cs : list Z) : Prop :=
  match ts, cs with
  | [], [] => True
  | t :: ts, c :: cs => spells t (hd 34 (concat ts)) c /\ spelled ts cs
  | _, _ => False
  end.

(** A string: its text between the quotes and the characters it stands for. *)
Definition written_string (s : list (list Z) * list Z) : Prop := spelled s.1 s.2.
Definition quoted (s : list (list Z) * list Z) : list Z := 34 :: concat s.1 ++ [34].
Definition stored (bits : Z) (z : bool) (s : list (list Z) * list Z) : list Z :=
  concat (widen bits <$> s.2) ++ (if z then widen bits 0 else []).

Lemma spells_length (l : list Z) (d c : Z) : spells l d c -> (1 <= length l)%nat.
Proof. intros []; cbn; lia. Qed.

Lemma chars_loop_ok (n : nat) (bits : Z) (ts : list (list Z)) (cs rest : list Z) (g : gas) :
  frags_ok g -> stores g -> bits ∈ [8; 16; 32; 64] -> spelled ts cs ->
  text g (input_line_pointer g) (concat ts ++ 34 :: rest) -> (length (concat ts) < n)%nat ->
  exists g', chars_loop section_flags n bits g = Ret (tt, g')
    /\ put_out (concat (widen bits <$> cs)) [] (input_line_pointer g + Z.of_nat (length (concat ts)) + 1) g g'.
Proof.
  intros Hok Hst Hb. revert n cs g Hok Hst. induction ts as [|t ts IH]; intros [|n] [|c cs] g Hok Hst Hs Ht Hn;
    cbn [spelled concat length app] in Hs, Ht, Hn; try done; try lia; cbn [chars_loop]; [|destruct Hs as [Hc Hs]].
  - assert (next_char_of_string g = Ret (NOT_A_CHAR, set_ilp (input_line_pointer g + 1) g)) as E
      by (unfold next_char_of_string; by rewrite (mbind_ret _ _ _ _ _ (next_text g _ _ Ht))).
    rewrite (mbind_ret _ _ _ _ _ E). eexists. split; [reflexivity|]. cbn. rewrite Z.add_0_r. by apply put_out_ilp.
  - rewrite <- app_assoc in Ht. rewrite length_app in Hn. pose proof (spells_length _ _ _ Hc).
    pose proof (spells_byte _ _ _ Hc) as Hc8.
    assert (exists rest', concat ts ++ 34 :: rest = hd 34 (concat ts) :: rest') as (rest' & Ed)
      by (destruct (concat ts); by eexists).
    pose proof Ht as Ht'. rewrite Ed in Ht'. rewrite (mbind_ret _ _ _ _ _ (next_char_ok t _ c rest' g Hc Ht')).
    set (g1 := set_ilp _ g). pose proof (put_out_ilp g (input_line_pointer g + Z.of_nat (length t)) Hok) as P1. fold g1 in P1.
    unfold is_a_char. rewrite (proj2 (Z.leb_le c CHAR_MASK)) by (unfold CHAR_MASK; lia).
    destruct (append_char_ok c bits g1 (po_ok _ _ _ _ _ P1) (po_stores P1 Hst) Hb) as (g2 & E2 & P2).
    rewrite (mbind_ret _ _ _ _ _ E2). pose proof (put_out_next _ _ _ _ _ _ _ P1 P2) as P12.
    destruct (IH n cs g2 (po_ok _ _ _ _ _ P2) (po_stores P12 Hst) Hs) as (g3 & E3 & P3).
    { apply (po_text P12). rewrite (po_ilp _ _ _ _ _ P12). exact (text_r _ _ _ _ Ht). }
    { lia. }
    exists g3. split; [exact E3|]. rewrite (po_ilp _ _ _ _ _ P12) in P3. cbn [fmap list_fmap concat app] in *.
    change (Z.land c 0xff) with (Z.land c CHAR_MASK) in P12. rewrite mask_char in P12 by done.
    pose proof (put_out_next _ _ _ _ _ _ _ P12 P3) as P. cbn [input_line_pointer set_ilp g1] in P. unfold g1 in P.
    cbn [input_line_pointer set_ilp] in P. rewrite length_app.
    replace (input_line_pointer g + Z.of_nat (length t + length (concat ts)) + 1)
      with (input_line_pointer g + Z.of_nat (length t) + Z.of_nat (length (concat ts)) + 1) by lia. exact P.
Qed.

(** The strings of a line after the first one. *)
Definition more_strings (l : list (list (list Z) * list Z)) : list Z := concat ((fun s => 44 :: quoted s) <$> l).

Lemma no_space (c : Z) (l : list Z) (g : gas) : text g (input_line_pointer g) (c :: l) -> c <> 32 -> SKIP_WHITESPACE g = Ret (tt, g).
Proof.
  intros Ht Hc. unfold SKIP_WHITESPACE. rewrite (mbind_ret _ _ _ _ _ (ahead_text g 0 c _ Ht eq_refl)).
  by rewrite (proj2 (Z.eqb_neq c 32)).
Qed.

Lemma advance_one (g : gas) : advance 1 g = Ret (tt, set_ilp (input_line_pointer g + 1) g).
Proof. done. Qed.

Lemma after_ilp (g : gas) (c : Z) (l : list Z) : frags_ok g -> text g (input_line_pointer g) (c :: l) ->
  exists g1, advance 1 g = Ret (tt, g1) /\ put_out [] [] (input_line_pointer g + 1) g g1 /\ text g1 (input_line_pointer g1) l.
Proof.
  intros Hok Ht. eexists. split; [apply advance_one|]. split; [by apply put_out_ilp|]. exact (text_tail _ _ _ _ Ht).
Qed.

(** A turn that reads a string. *)
Lemma string_turn (n : nat) (bits : Z) (z : bool) (s : list (list Z) * list Z) (c d : Z) (rest : list Z) (g : gas) :
  frags_ok g -> stores g -> bits ∈ [8; 16; 32; 64] -> written_string s -> c = 44 \/ c = 34 -> d <> 32 ->
  text g (input_line_pointer g) (quoted s ++ d :: rest) ->
  exists g1, strings_loop section_flags keep (S n) bits z c g = strings_loop section_flags keep n bits z d g1 /\
    put_out (stored bits z s) [] (input_line_pointer g + Z.of_nat (length (quoted s))) g g1.
Proof.
  intros Hok Hst Hb Hs Hc Hd Ht. cbn [strings_loop].
  assert ((c =? 44) || (c =? 60) || (c =? 34) = true) as -> by (destruct Hc as [->| ->]; done).
  unfold quoted in Ht. cbn [app] in Ht. rewrite <- app_assoc in Ht. cbn [app] in Ht.
  rewrite (mbind_ret _ _ _ _ _ (no_space _ _ g Ht ltac:(done))), (mbind_ret _ _ _ _ _ (ahead_text g 0 34 _ Ht eq_refl)).
  cbn [Z.eqb Pos.eqb]. destruct (after_ilp g 34 _ Hok Ht) as (g1 & E1 & P1 & Ht1).
  destruct (chars_loop_ok (S (left_over g1)) bits s.1 s.2 (d :: rest) g1 (po_ok _ _ _ _ _ P1) (po_stores P1 Hst) Hb Hs Ht1)
    as (g2 & E2 & P2).
  { pose proof (left_text g1 _ Ht1) as L. rewrite length_app in L. lia. }
  pose proof (put_out_next _ _ _ _ _ _ _ P1 P2) as P12. cbn [app] in P12.
  assert (exists g3, when z (stringer_append_char section_flags 0 bits) g2 = Ret (tt, g3)
    /\ put_out (if z then widen bits 0 else []) [] (input_line_pointer g2) g2 g3) as (g3 & E3 & P3).
  { destruct z; cbn [when]; [|exists g2; split; [done|by apply put_out_refl; [apply P2|]]].
    exact (append_char_ok 0 bits g2 (po_ok _ _ _ _ _ P2) (po_stores P12 Hst) Hb). }
  rewrite (po_ilp _ _ _ _ _ P12) in P3. pose proof (put_out_next _ _ _ _ _ _ _ P12 P3) as P.
  erewrite mbind_ret; [|rewrite (mbind_ret _ _ _ _ _ E1), (mbind_ret _ _ _ _ _ (fuel_left g1)),
    (mbind_ret _ _ _ _ _ E2); exact E3].
  assert (text g3 (input_line_pointer g3) (d :: rest)) as Ht3.
  { apply (po_text P). rewrite (po_ilp _ _ _ _ _ P), (po_ilp _ _ _ _ _ P1).
    replace (input_line_pointer g + 1 + Z.of_nat (length (concat s.1)) + 1)
      with (input_line_pointer g + Z.of_nat (length (34 :: concat s.1 ++ [34]))) by (cbn [length]; rewrite length_app; cbn; lia).
    apply (text_r g _ (34 :: concat s.1 ++ [34])). cbn [app]. by rewrite <- app_assoc. }
  rewrite (mbind_ret _ _ _ _ _ (no_space _ _ g3 Ht3 Hd)), (mbind_ret _ _ _ _ _ (ahead_text g3 0 d _ Ht3 eq_refl)).
  exists g3. split; [done|]. rewrite (po_ilp _ _ _ _ _ P1) in P.
  replace (input_line_pointer g + Z.of_nat (length (quoted s))) with
    (input_line_pointer g + 1 + Z.of_nat (length (concat s.1)) + 1)
    by (unfold quoted; cbn [length]; rewrite length_app; cbn; lia). exact P.
Qed.

(** A turn that reads the comma before a string. *)
Lemma comma_turn (n : nat) (bits : Z) (z : bool) (rest : list Z) (g : gas) :
  frags_ok g -> text g (input_line_pointer g) (44 :: 34 :: rest) ->
  exists g1, strings_loop section_flags keep (S n) bits z 44 g = strings_loop section_flags keep n bits z 34 g1 /\
    put_out [] [] (input_line_pointer g + 1) g g1 /\ text g1 (input_line_pointer g1) (34 :: rest).
Proof.
  intros Hok Ht. destruct (after_ilp g 44 _ Hok Ht) as (g1 & E1 & P1 & Ht1). exists g1. split; [|done].
  cbn [strings_loop Z.eqb Pos.eqb orb].
  rewrite (mbind_ret _ _ _ _ _ (no_space _ _ g Ht ltac:(done))), (mbind_ret _ _ _ _ _ (ahead_text g 0 44 _ Ht eq_refl)).
  cbn [Z.eqb Pos.eqb]. rewrite (mbind_ret _ _ _ _ _ E1), (mbind_ret _ _ _ _ _ (no_space _ _ g1 Ht1 ltac:(done))),
    (mbind_ret _ _ _ _ _ (ahead_text g1 0 34 _ Ht1 eq_refl)). done.
Qed.

(** From before a string to the end of the line. *)
Lemma strings_loop_ok (n : nat) (bits : Z) (z : bool) (s : list (list Z) * list Z) (more : list (list (list Z) * list Z))
    (c e : Z) (rest : list Z) (g : gas) :
  frags_ok g -> stores g -> bits ∈ [8; 16; 32; 64] -> written_string s -> Forall written_string more ->
  (c = 44 \/ c = 34) -> (e = 10 \/ e = 59) ->
  text g (input_line_pointer g) (quoted s ++ more_strings more ++ e :: rest) -> (2 * length more + 1 < n)%nat ->
  exists g', strings_loop section_flags keep n bits z c g = Ret (tt, g') /\
    put_out (concat (stored bits z <$> s :: more)) []
      (input_line_pointer g + Z.of_nat (length (quoted s ++ more_strings more))) g g'.
Proof.
  intros Hok Hst Hb Hs Hm Hc He. revert n s c g Hok Hst Hs Hc. induction Hm as [|s' more Hs' Hm IH]; intros n s c g Hok Hst Hs Hc Ht Hn;
    cbn [length] in Hn.
  - destruct n as [|[|n]]; [lia..|].
    destruct (string_turn (S n) bits z s c e rest g) as (g1 & -> & P1); [done..|by destruct He; subst|exact Ht|].
    exists g1. cbn [strings_loop]. assert ((e =? 44) || (e =? 60) || (e =? 34) = false) as -> by (destruct He; by subst).
    split; [done|]. cbn [fmap list_fmap concat more_strings]. by rewrite !app_nil_r.
  - destruct n as [|[|n]]; [lia..|].
    assert (more_strings (s' :: more) = 44 :: quoted s' ++ more_strings more) as Em by done.
    rewrite Em in Ht |- *. cbn [app] in Ht. rewrite <- app_assoc in Ht.
    destruct (string_turn (S n) bits z s c 44 (quoted s' ++ more_strings more ++ e :: rest) g) as (g1 & -> & P1); [done..|].
    assert (text g1 (input_line_pointer g1) (44 :: quoted s' ++ more_strings more ++ e :: rest)) as Ht1.
    { apply (po_text P1). rewrite (po_ilp _ _ _ _ _ P1). exact (text_r _ _ _ _ Ht). }
    destruct (comma_turn n bits z _ g1 (po_ok _ _ _ _ _ P1) Ht1) as (g2 & -> & P2 & Ht2).
    pose proof (put_out_next _ _ _ _ _ _ _ P1 P2) as P12.
    destruct (IH n s' 34 g2 (po_ok _ _ _ _ _ P2) (po_stores P12 Hst) Hs' (or_intror eq_refl) Ht2 ltac:(lia)) as (g3 & E3 & P3).
    exists g3. split; [exact E3|]. pose proof (put_out_next _ _ _ _ _ _ _ P12 P3) as P. rewrite app_nil_r in P.
    rewrite (po_ilp _ _ _ _ _ P2), (po_ilp _ _ _ _ _ P1) in P. 
    replace (input_line_pointer g + Z.of_nat (length (quoted s ++ 44 :: quoted s' ++ more_strings more))) with
      (input_line_pointer g + Z.of_nat (length (quoted s)) + 1 + Z.of_nat (length (quoted s' ++ more_strings more)))
      by (rewrite (length_app (quoted s)); cbn [length]; lia). exact P.
Qed.

(** A line ends with a newline or a semicolon. *)
Definition line_end (e : Z) : Prop := e = 10 \/ e = 59.

Lemma demand_empty_ok (e : Z) (rest : list Z) (g : gas) : line_end e -> text g (input_line_pointer g) (e :: rest) ->
  demand_empty_rest_of_line g = Ret (tt, set_ilp (input_line_pointer g + 1) g).
Proof.
  intros He Ht. unfold demand_empty_rest_of_line.
  rewrite (mbind_ret _ _ _ _ _ (no_space _ _ g Ht ltac:(by destruct He; subst))),
    (mbind_ret _ _ _ _ _ (ahead_text g 0 e _ Ht eq_refl)). by destruct He; subst.
Qed.

Lemma not_the_end (c : Z) (l : list Z) (g : gas) : text g (input_line_pointer g) (c :: l) -> c <> 32 -> end_of_line c = false ->
  is_it_end_of_statement g = Ret (false, g).
Proof.
  intros Ht Hc He. unfold is_it_end_of_statement.
  rewrite (mbind_ret _ _ _ _ _ (no_space _ _ g Ht Hc)), (mbind_ret _ _ _ _ _ (ahead_text g 0 c _ Ht eq_refl)). by rewrite He.
Qed.

Lemma more_strings_length (l : list (list (list Z) * list Z)) : (3 * length l <= length (more_strings l))%nat.
Proof.
  induction l as [|s l IH]; [cbn; lia|]. change (more_strings (s :: l)) with (44 :: quoted s ++ more_strings l).
  cbn [length]. rewrite length_app. unfold quoted. cbn [length]. rewrite length_app. cbn [length]. lia.
Qed.

Lemma stringer_ok (bits : Z) (z : bool) (s : list (list Z) * list Z) (more : list (list (list Z) * list Z))
    (e : Z) (rest : list Z) (g : gas) :
  frags_ok g -> stores g -> bits ∈ [8; 16; 32; 64] -> written_string s -> Forall written_string more -> line_end e ->
  text g (input_line_pointer g) (quoted s ++ more_strings more ++ e :: rest) ->
  exists g', stringer section_flags keep (bits + Z.b2z z) g = Ret (tt, g') /\
    put_out (concat (stored bits z <$> s :: more)) []
      (input_line_pointer g + Z.of_nat (length (quoted s ++ more_strings more)) + 1) g g'.
Proof.
  intros Hok Hst Hb Hs Hm He Ht. unfold stringer.
  assert (Z.land (bits + Z.b2z z) (Z.lnot 7) = bits /\ negb (Z.land (bits + Z.b2z z) 1 =? 0) = z) as [-> ->].
  { rewrite !elem_of_cons, elem_of_nil in Hb. destruct_or! Hb; subst bits; by destruct z. }
  erewrite mbind_ret; [|reflexivity]. destruct (decide _) as [Ea|_]; [by destruct Hst|].
  rewrite (mbind_ret _ _ _ _ _ (not_the_end 34 _ g Ht ltac:(done) eq_refl)).
  erewrite mbind_ret; [|reflexivity]. rewrite (mbind_ret _ _ _ _ _ (fuel_left g)).
  destruct (strings_loop_ok (S (S (left_over g))) bits z s more 44 e rest g) as (g1 & E1 & P1); try done; [by left| |].
  { pose proof (left_text g _ Ht) as L. rewrite !length_app in L. pose proof (more_strings_length more). cbn [length] in L. lia. }
  rewrite (mbind_ret _ _ _ _ _ E1).
  assert (text g1 (input_line_pointer g1) (e :: rest)) as Ht1.
  { apply (po_text P1). rewrite (po_ilp _ _ _ _ _ P1). rewrite app_assoc in Ht. exact (text_r _ _ _ _ Ht). }
  rewrite (demand_empty_ok e rest g1 He Ht1). eexists. split; [reflexivity|].
  pose proof (put_out_next _ _ _ _ _ _ _ P1 (put_out_ilp g1 (input_line_pointer g1 + 1) (po_ok _ _ _ _ _ P1))) as P.
  rewrite app_nil_r in P. rewrite <- (po_ilp _ _ _ _ _ P1). exact P.
Qed.

(** ** Numbers *)

(** [n] bytes of [v], the highest first. *)
Fixpoint be (n : nat) (v : Z) : list Z :=
  match n with O => [] | S n => be n (v / 256) ++ [v mod 256] end.

Lemma be_length (n : nat) (v : Z) : length (be n v) = n.
Proof. revert v. induction n as [|n IH]; intros v; [done|]. cbn [be]. rewrite length_app, IH. cbn. lia. Qed.

Lemma be_mod (n : nat) (v k : Z) : 8 * Z.of_nat n <= k -> be n (v mod 2 ^ k) = be n v.
Proof.
  revert v k. induction n as [|n IH]; intros v k Hk; [done|]. cbn [be].
  assert (2 ^ k = 256 * 2 ^ (k - 8)) as E by (rewrite <- (Z.pow_add_r 2 8) by lia; f_equal; lia).
  pose proof (Z.pow_pos_nonneg 2 (k - 8) ltac:(lia) ltac:(lia)).
  assert ((v mod 2 ^ k) / 256 = (v / 256) mod 2 ^ (k - 8)) as -> by (rewrite E, Z.rem_mul_r, Z.mul_comm, Z.div_add by lia;
    rewrite (Z.div_small (v mod 256)) by (apply Z.mod_pos_bound; lia); lia).
  assert ((v mod 2 ^ k) mod 256 = v mod 256) as -> by (rewrite E, Z.rem_mul_r, Z.mul_comm, Z.mod_add by lia; by apply Z.mod_mod).
  by rewrite IH by lia.
Qed.

Lemma be_stored (n : nat) (l r : list Z) (w : Z) : (n <= length r)%nat ->
  chars_big_loop n w (l ++ r) (Z.of_nat (length l)) = Ret (l ++ be n w ++ drop n r).
Proof.
  revert w r. induction n as [|n IH]; intros w r Hn; [done|]. cbn [chars_big_loop]. rewrite wr_app by lia. cbn [rbind].
  rewrite IH by (rewrite length_insert; lia). f_equal. f_equal. cbn [be]. rewrite <- app_assoc. f_equal; [by rewrite Z.shiftr_div_pow2|].
  rewrite drop_insert_ge by lia. rewrite Nat.sub_diag. destruct (drop n r) as [|y r'] eqn:E.
  - apply (f_equal length) in E. rewrite length_drop in E. cbn in E. lia.
  - cbn [insert list_insert app]. change (Z.land w 0xff) with (Z.land w (Z.ones 8)). rewrite (Z.land_ones w 8) by lia. f_equal. rewrite <- Nat.add_1_r, <- drop_drop, E. done.
Qed.

Lemma put_chars_ok (n : nat) (w : Z) (fs : list frag) (x : frag) (l r : list Z) (g : gas) :
  frags g = fs ++ [x] -> fr_literal x = l ++ r -> length r = S n ->
  put_chars (Z.of_nat (length l)) w (Z.of_nat (S n)) g
  = Ret (tt, set_frags (fs ++ [mk_frag (fr_address x) (fr_fix x) (fr_var x) (fr_offset x) (fr_type x) (l ++ be (S n) w)])
               (frch_obstack g) g).
Proof.
  intros Hfs Hx Hr. unfold put_chars, put_literal.
  rewrite (mbind_ret _ _ _ _ _ (frag_now_last g fs x Hfs)), (mbind_ret _ _ _ _ _ (get_frag_last g fs x Hfs)).
  assert (md_number_to_chars (fr_literal x) (Z.of_nat (length l)) w (Z.of_nat (S n)) = Ret (l ++ be (S n) w)) as E.
  { unfold md_number_to_chars, number_to_chars_bigendian. destruct (Z.leb_spec (Z.of_nat (S n)) 0); [lia|].
    rewrite Nat2Z.id, Hx, be_stored by lia. by rewrite drop_ge, app_nil_r by lia. }
  rewrite (mbind_ret _ _ g g (l ++ be (S n) w)) by (unfold lift; by rewrite E). by apply (put_frag_last g fs x).
Qed.

(** A value of [n] bytes, signed or unsigned. *)
Definition fits (n v : Z) : bool := (- 2 ^ (8 * n - 1) <=? v) && (v <? 2 ^ (8 * n)).

Definition truncated (n v : Z) : list diag :=
  if fits n v then [] else [Warn "value 0x%llx truncated to 0x%llx"].

Lemma land_high (x k : Z) : 0 <= k < 64 -> 0 <= x < 2 ^ 64 -> Z.land x (2 ^ 64 - 2 ^ k) = 2 ^ k * (x / 2 ^ k).
Proof.
  intros Hk Hx. assert (2 ^ 64 - 2 ^ k = Z.shiftl (Z.ones (64 - k)) k) as ->.
  { rewrite Z.shiftl_mul_pow2, Z.ones_equiv, <- Z.sub_1_r, Z.mul_sub_distr_r, <- Z.pow_add_r by lia. f_equal; [f_equal; lia|lia]. }
  rewrite Z.mul_comm, <- Z.shiftl_mul_pow2, <- Z.shiftr_div_pow2 by lia. apply Z.bits_inj'. intros i Hi.
  rewrite Z.land_spec. destruct (Z_lt_ge_dec i k) as [H|H].
  - rewrite !(Z.shiftl_spec_low _ _ i) by lia. apply andb_false_r.
  - rewrite !Z.shiftl_spec_high, Z.shiftr_spec by lia. replace (i - k + k) with i by lia.
    destruct (Z_lt_ge_dec i 64) as [H6|H6]; [rewrite Z.ones_spec_low by lia; apply andb_true_r|].
    by rewrite (testbit_u 64 x i Hx) by lia.
Qed.

(** The test for lost bits is that the value does not fit. *)
Lemma lost_bits (k v : Z) : 1 <= k < 8 -> - 2 ^ 63 <= v < 2 ^ 63 ->
  let get := u64 v in let mask := 2 ^ 64 - 2 ^ (8 * k) in
  negb (Z.land get mask =? 0) && (negb (Z.land get mask =? mask) || (Z.land get (2 ^ (8 * k - 1)) =? 0)) = negb (fits k v).
Proof.
  intros Hk Hv get mask. pose proof (u64_range v) as Hg. fold get in Hg. unfold mask. rewrite land_high by (done || lia).
  rewrite <- (negb_involutive (Z.land get (2 ^ (8 * k - 1)) =? 0)), land_bit, leb_testbit_top by lia.
  replace (8 * k - 1 + 1) with (8 * k) by lia. unfold fits.
  assert (get = if v <? 0 then v + 2 ^ 64 else v) as Hget by (unfold get; destruct (Z.ltb_spec v 0); wrap64).
  assert (2 <= 2 ^ (64 - 8 * k)) as P2 by (apply (Z.pow_le_mono_r 2 1); lia).
  assert (2 ^ (8 * k) = 2 * 2 ^ (8 * k - 1)) as E2 by (rewrite <- Z.pow_succ_r by lia; f_equal; lia).
  pose proof (Z.pow_pos_nonneg 2 (8 * k - 1) ltac:(lia) ltac:(lia)) as P1.
  assert (2 ^ 63 = 2 ^ (64 - 8 * k) * 2 ^ (8 * k - 1)) as E1 by (rewrite <- Z.pow_add_r by lia; f_equal; lia).
  assert (2 ^ 64 = 2 * (2 ^ (64 - 8 * k) * 2 ^ (8 * k - 1))) as E by (rewrite <- E1; done).
  rewrite E1 in Hv. rewrite E in Hget |- *. clear E E1 mask Hg. clearbody get. rewrite E2. clear E2.
  set (a := 2 ^ (8 * k - 1)) in *. set (b := 2 ^ (64 - 8 * k)) in *. clearbody a b.
  pose proof (Z.div_mod get (2 * a) ltac:(lia)) as D. pose proof (Z.mod_pos_bound get (2 * a) ltac:(lia)) as B.
  set (h := get / (2 * a)) in *. set (low := get mod (2 * a)) in *. clearbody h low.
  assert ((2 * a * h =? 0) = (h =? 0)) as -> by (destruct (Z.eqb_spec (2 * a * h) 0), (Z.eqb_spec h 0); nia).
  assert ((2 * a * h =? 2 * (b * a) - 2 * a) = (h =? b - 1)) as ->
    by (destruct (Z.eqb_spec (2 * a * h) (2 * (b * a) - 2 * a)), (Z.eqb_spec h (b - 1)); nia).
  destruct (Z.ltb_spec v 0), (Z.eqb_spec h 0), (Z.eqb_spec h (b - 1)), (Z.leb_spec a low), (Z.leb_spec (- a) v),
    (Z.ltb_spec v (2 * a)); cbn; try done; nia.
Qed.

Lemma emit_integer_ok (n v : Z) (fs : list frag) (x : frag) (l r : list Z) (g : gas) :
  n ∈ [1; 2; 4; 8] -> - 2 ^ 63 <= v < 2 ^ 63 -> frags g = fs ++ [x] -> fr_literal x = l ++ r -> Z.of_nat (length r) = n ->
  emit_integer v n (Z.of_nat (length l)) g
  = Ret (tt, set_frags (fs ++ [mk_frag (fr_address x) (fr_fix x) (fr_var x) (fr_offset x) (fr_type x) (l ++ be (Z.to_nat n) v)])
               (frch_obstack g) (set_log (log g ++ truncated n v) g)).
Proof.
  intros Hn Hv Hfs Hx Hr. unfold emit_integer.
  assert (exists k, n = Z.of_nat (S k) /\ length r = S k) as (k & -> & Hk).
  { exists (Nat.pred (length r)). rewrite !elem_of_cons, elem_of_nil in Hn. destruct_or! Hn; subst; lia. }
  set (warn := negb _ && _). set (use := Z.land (u64 v) _).
  assert (warn = negb (fits (Z.of_nat (S k)) v) /\ be (S k) use = be (S k) v) as [-> Eu].
  { unfold warn, use. clear warn use Hr Hk. rewrite !elem_of_cons, elem_of_nil in Hn. destruct_or! Hn; rewrite Hn.
    - split; [exact (lost_bits 1 v ltac:(lia) Hv)|]. assert (S k = 1%nat) as -> by lia.
      change (u64 (Z.lnot _)) with (Z.ones 8). rewrite Z.land_ones by lia. unfold u64. by rewrite !be_mod by lia.
    - split; [exact (lost_bits 2 v ltac:(lia) Hv)|]. assert (S k = 2%nat) as -> by lia.
      change (u64 (Z.lnot _)) with (Z.ones 16). rewrite Z.land_ones by lia. unfold u64. by rewrite !be_mod by lia.
    - split; [exact (lost_bits 4 v ltac:(lia) Hv)|]. assert (S k = 4%nat) as -> by lia.
      change (u64 (Z.lnot _)) with (Z.ones 32). rewrite Z.land_ones by lia. unfold u64. by rewrite !be_mod by lia.
    - split.
      + change (Z.land (u64 v) (if 8 <=? 8 then 0 else _)) with (Z.land (u64 v) 0). rewrite Z.land_0_r. symmetry.
        apply negb_false_iff. unfold fits. change (2 ^ (8 * 8 - 1)) with (2 ^ 63). change (2 ^ (8 * 8)) with (2 ^ 64).
        apply andb_true_iff. split; [apply Z.leb_le|apply Z.ltb_lt]; lia.
      + change (if 8 <=? 8 then 0 else _) with 0. change (u64 (Z.lnot 0)) with (Z.ones 64). rewrite Z.land_ones by lia.
        assert (S k = 8%nat) as -> by lia. unfold u64. by rewrite !be_mod by lia. }
  clearbody use. erewrite mbind_ret.
  - rewrite (put_chars_ok k use fs x l r (set_log (log g ++ truncated (Z.of_nat (S k)) v) g) Hfs Hx Hk).
    rewrite Nat2Z.id, Eu. reflexivity.
  - unfold truncated. destruct (fits _ v); cbn [negb when]; [|reflexivity]. unfold mret, M_ret. rewrite app_nil_r. by destruct g.
Qed.

(** Making room first, and the saved dot, change nothing that counts. *)
Lemma room_and_dot (n : Z) (g : gas) : 0 <= n < 2 ^ 63 -> frags_ok g -> stores g ->
  exists g1 v now, frag_grow n g = Ret (tt, g1) /\ frag_now_fix g1 = Ret (v, g1) /\ frag_now g1 = Ret (now, g1) /\
    put_out [] [] (input_line_pointer g) g (set_dot v (Some now) g1).
Proof.
  intros Hn [Hl Ho] Hst. destruct (frag_grow_spec n g Hn Hl Ho) as (g1 & E & [K1 K2 K3 (fs & x & Hfs) K5 _] & _).
  assert (now_seg (xst g1) = now_seg (xst g)) as Es by (rewrite K1; done).
  exists g1, (Z.of_nat (length (fr_literal x))), (length fs). split; [done|]. split; [|split; [by apply (frag_now_last g1 fs x)|]].
  - unfold frag_now_fix. destruct (decide _) as [Ea|_]; [by rewrite Es in Ea; destruct Hst|].
    by rewrite (mbind_ret _ _ _ _ _ (frag_now_last g1 fs x Hfs)), (mbind_ret _ _ _ _ _ (get_frag_last g1 fs x Hfs)).
  - rewrite K1 in K2, K3, K5 |- *. split; try done.
    + by rewrite app_nil_r.
    + split; [|done]. exists fs, x. by rewrite K1 in Hfs.
    + by rewrite app_nil_r.
Qed.

Lemma emit_expr_ok (n v : Z) (g : gas) :
  n ∈ [1; 2; 4; 8] -> - 2 ^ 63 <= v < 2 ^ 63 -> frags_ok g -> stores g ->
  exists g', emit_expr section_flags junk X_unsigned (constant v) n g = Ret (tt, g') /\
    put_out (be (Z.to_nat n) v) (truncated n v) (input_line_pointer g) g g'.
Proof.
  intros Hn Hv Hok Hst. assert (0 < n <= 8) as Hn8.
  { rewrite !elem_of_cons, elem_of_nil in Hn. destruct_or! Hn; lia. }
  destruct (room_and_dot n g ltac:(lia) Hok Hst) as (g1 & d & now & E1 & E2 & E3 & P1).
  unfold emit_expr. rewrite (mbind_ret _ _ _ _ _ E1), (mbind_ret _ _ _ _ _ E2), (mbind_ret _ _ _ _ _ E3).
  erewrite mbind_ret; [|reflexivity]. set (g2 := set_dot d (Some now) g1) in *.
  rewrite (mbind_ret _ _ g2 g2 (constant v, v, O_constant, 0)) by done.
  erewrite mbind_ret; [|reflexivity]. pose proof (po_stores P1 Hst) as Hst2.
  destruct (decide _) as [Ea|_]; [by destruct Hst2|].
  rewrite (mbind_ret _ _ _ _ _ (in_bss_no g2 Hst2)), andb_false_r. cbn [when]. erewrite mbind_ret; [|reflexivity].
  destruct (frag_more_ok junk n g2 ltac:(lia) (po_ok _ _ _ _ _ P1)) as (g3 & fs & x & l & E & Hfs & Hx & Hi & Hc & Ho & Hok3).
  rewrite (mbind_ret _ _ _ _ _ E). rewrite (proj2 (Z.ltb_ge 8 n)) by lia.
  rewrite (emit_integer_ok n v fs x l _ g3 Hn Hv Hfs Hx) by (rewrite length_replicate; lia).
  eexists. split; [reflexivity|]. rewrite <- (po_ilp _ _ _ _ _ P1). apply (put_out_trans [] _ [] _ _ _ _ _ _ P1).
  rewrite Ho. split; cbn [set_frags set_log frags frch_obstack input_line_pointer log generic_bignum xst]; try done.
  - by rewrite image_snoc, Hi, <- app_assoc.
  - apply Hc; [done|by eexists].
  - destruct Hok3 as [_ Ho3]. split; [by eexists _, _|exact Ho3].
Qed.

(** Constants are 64-bit values. *)
Definition int64 (v : Z) : Prop := - 2 ^ 63 <= v < 2 ^ 63.

Lemma int64_s64 (v : Z) : int64 (s64 v).
Proof. unfold int64. wrap64. Qed.

Lemma int64_top (v : Z) : int64 v <-> Z.shiftr v 63 = 0 \/ Z.shiftr v 63 = -1.
Proof. unfold int64. rewrite Z.shiftr_div_pow2 by lia. Z.to_euclidean_division_equations. lia. Qed.

Lemma int64_bits (a b : Z) : int64 a -> int64 b -> int64 (Z.lor a b) /\ int64 (Z.land a b) /\ int64 (Z.lxor a b) /\ int64 (Z.lnot b).
Proof.
  rewrite !int64_top, Z.shiftr_lor, Z.shiftr_land, Z.shiftr_lxor, <- Z.lnot_shiftr by lia.
  intros [-> | ->] [-> | ->]; cbn; tauto.
Qed.

Lemma quot_range (a b : Z) : int64 a -> int64 b -> negb (b =? 0) && negb ((a =? - 2 ^ 63) && (b =? -1)) = true ->
  int64 (Z.quot a b) /\ int64 (Z.rem a b).
Proof.
  unfold int64. intros Ha Hb. destruct (Z.eqb_spec b 0), (Z.eqb_spec a (- 2 ^ 63)), (Z.eqb_spec b (-1)); cbn; try done; intros _;
    (split; [|Z.to_euclidean_division_equations; nia]); subst; try (Z.to_euclidean_division_equations; nia).
Qed.

Lemma int64_truth (b : bool) : int64 (c_bool b) /\ int64 (all_ones b).
Proof. unfold int64. destruct b; cbn; lia. Qed.

Lemma const_range (e : cexp) (v : Z) : const_value e = Some v -> int64 v.
Proof.
  revert v. induction e as [radix ds|c a IH|op a IHa b IHb]; intros v H; cbn [const_value] in H.
  - injection H as <-. apply int64_s64.
  - apply fmap_Some in H as (w & Ew & ->). specialize (IH w Ew). unfold unary_const.
    repeat case_match; [apply int64_s64|unfold int64 in *; lia|apply int64_truth|done].
  - apply bind_Some in H as (x & Ex & H). apply bind_Some in H as (y & Ey & H). specialize (IHa x Ex). specialize (IHb y Ey).
    destruct (int64_bits x y IHa IHb) as (B1 & B2 & B3 & B4). destruct (int64_bits x (Z.lnot y) IHa B4) as (B5 & _).
    destruct op; cbn in H; try discriminate H;
      try (injection H as <-; first [apply int64_s64|apply int64_truth|done]);
      (case_match eqn:E; [injection H as <-|discriminate H]); try apply int64_s64; by apply quot_range.
Qed.

(** The expressions of a line after the first one. *)
Definition more_numbers (l : list cexp) : list Z := concat ((fun e => 44 :: print 0 e) <$> l).

Definition number (e : cexp) (v : Z) : Prop := cexp_ok e /\ const_value e = Some v.

(** A turn: an expression and the character after it. *)
Lemma number_turn (k : nat) (n : Z) (e : cexp) (v c : Z) (rest : list Z) (g : gas) :
  n ∈ [1; 2; 4; 8] -> frags_ok g -> stores g -> ready g -> number e v -> closes c = true ->
  text g (input_line_pointer g) (print 0 e ++ c :: rest) ->
  exists g1, cons_loop section_flags keep junk X_unsigned (S k) n false g
      = (if c =? 44 then cons_loop section_flags keep junk X_unsigned k n false g1 else Ret (tt, g1)) /\
    put_out (be (Z.to_nat n) v) (truncated n v) (input_line_pointer g + Z.of_nat (length (print 0 e)) + 1) g g1.
Proof.
  intros Hn Hok Hst Hr [He Ev] Hc Ht. cbn [cons_loop].
  destruct (constant_parsed keep expr_normal ltac:(done) e v c rest g He Ev Hc Hr Ht) as (g1 & E1 & Hp).
  pose proof (put_out_parsed g g1 _ Hok Hp) as P1. rewrite (mbind_ret _ _ _ _ _ E1). erewrite mbind_ret; [|reflexivity].
  destruct (emit_expr_ok n v g1 Hn (const_range e v Ev) (po_ok _ _ _ _ _ P1) (po_stores P1 Hst)) as (g2 & E2 & P2).
  rewrite (mbind_ret _ _ _ _ _ E2). pose proof (put_out_trans _ _ _ _ _ _ _ _ _ P1 P2) as P12. cbn [app] in P12.
  assert (text g2 (input_line_pointer g2) (c :: rest)) as Ht2.
  { apply (po_text P12). rewrite (po_ilp _ _ _ _ _ P2), (po_ilp _ _ _ _ _ P1). exact (text_r _ _ _ _ Ht). }
  rewrite (mbind_ret _ _ _ _ _ (next_text g2 c rest Ht2)).
  exists (set_ilp (input_line_pointer g2 + 1) g2). split; [by destruct (c =? 44)|].
  pose proof (put_out_trans _ _ _ _ _ _ _ _ _ P12 (put_out_ilp g2 (input_line_pointer g2 + 1) (po_ok _ _ _ _ _ P2))) as P.
  rewrite !app_nil_r in P. rewrite <- (po_ilp _ _ _ _ _ P1), <- (po_ilp _ _ _ _ _ P2). exact P.
Qed.

Lemma cons_loop_ok (k : nat) (n : Z) (e : cexp) (v : Z) (es : list cexp) (vs : list Z) (c : Z) (rest : list Z) (g : gas) :
  n ∈ [1; 2; 4; 8] -> frags_ok g -> stores g -> ready g -> number e v -> Forall2 number es vs -> line_end c ->
  text g (input_line_pointer g) (print 0 e ++ more_numbers es ++ c :: rest) -> (length es < k)%nat ->
  exists g', cons_loop section_flags keep junk X_unsigned k n false g = Ret (tt, g') /\
    put_out (concat (be (Z.to_nat n) <$> v :: vs)) (concat (truncated n <$> v :: vs))
      (input_line_pointer g + Z.of_nat (length (print 0 e ++ more_numbers es)) + 1) g g'.
Proof.
  intros Hn Hok Hst Hr Hv Hs Hc. revert k e v g Hok Hst Hr Hv. induction Hs as [|e' v' es vs Hv' Hs IH];
    intros k e v g Hok Hst Hr Hv Ht Hk; (destruct k as [|k]; [cbn in Hk; lia|]).
  - destruct (number_turn k n e v c rest g) as (g1 & -> & P1); try done; [by destruct Hc; subst|].
    exists g1. split; [by destruct Hc; subst|]. cbn [fmap list_fmap concat more_numbers]. by rewrite !app_nil_r.
  - assert (more_numbers (e' :: es) = 44 :: print 0 e' ++ more_numbers es) as Em by done.
    rewrite Em in Ht |- *. cbn [app] in Ht. rewrite <- app_assoc in Ht.
    destruct (number_turn k n e v 44 (print 0 e' ++ more_numbers es ++ c :: rest) g) as (g1 & -> & P1); try done.
    cbn [Z.eqb Pos.eqb].
    destruct (IH k e' v' g1 (po_ok _ _ _ _ _ P1) (po_stores P1 Hst) (po_ready P1 Hr) Hv') as (g2 & E2 & P2).
    { apply (po_text P1). rewrite (po_ilp _ _ _ _ _ P1). pose proof (text_tail _ _ _ _ (text_r _ _ _ _ Ht)) as Ht'. exact Ht'. }
    { cbn [length] in Hk. lia. }
    exists g2. split; [exact E2|]. pose proof (put_out_trans _ _ _ _ _ _ _ _ _ P1 P2) as P.
    rewrite (po_ilp _ _ _ _ _ P1) in P.
    replace (input_line_pointer g + Z.of_nat (length (print 0 e ++ 44 :: print 0 e' ++ more_numbers es)) + 1) with
      (input_line_pointer g + Z.of_nat (length (print 0 e)) + 1 + Z.of_nat (length (print 0 e' ++ more_numbers es)) + 1)
      by (rewrite (length_app (print 0 e)); cbn [length]; lia). exact P.
Qed.

(** An expression does not begin like the end of a line. *)
Lemma print_first (l : Z) (e : cexp) (c : Z) (s : list Z) : cexp_ok e -> print l e = c :: s -> end_of_line c = false.
Proof.
  revert l s. induction e as [radix ds|b a _|op a IHa b _]; intros l s H E; cbn [print] in E.
  - destruct H as (Hr & Hd & _ & H8 & _). pose proof Hr as Hr'. destruct Hr as [-> | [-> | [-> | ->]]]; try by injection E as <- _.
    cbn in E. subst ds. apply Forall_cons in Hd as [Hd _]. by apply (digit_not_end 10).
  - injection E as <- _. destruct H as [H _]. cbn in H. repeat (apply orb_true_iff in H as [H|H]); 
      first [discriminate H|apply Z.eqb_eq in H; by subst].
  - destruct H as (_ & Ha & _). cbv zeta in E. destruct (l <? op_rank op); [|by injection E as <- _].
    destruct (print_head (op_rank op - 1) a Ha) as (c' & s' & E' & _). rewrite E' in E. injection E as <- _.
    by apply (IHa (op_rank op - 1) s' Ha).
Qed.

Lemma cons_ok (n : Z) (e : cexp) (v : Z) (es : list cexp) (vs : list Z) (c : Z) (rest : list Z) (g : gas) :
  n ∈ [1; 2; 4; 8] -> frags_ok g -> stores g -> ready g -> number e v -> Forall2 number es vs -> line_end c ->
  text g (input_line_pointer g) (print 0 e ++ more_numbers es ++ c :: rest) ->
  exists g', cons section_flags keep junk X_unsigned n g = Ret (tt, g') /\
    put_out (concat (be (Z.to_nat n) <$> v :: vs)) (concat (truncated n <$> v :: vs))
      (input_line_pointer g + Z.of_nat (length (print 0 e ++ more_numbers es)) + 1) g g'.
Proof.
  intros Hn Hok Hst Hr Hv Hs Hc Ht. unfold cons, cons_worker.
  destruct (print_head 0 e (proj1 Hv)) as (d & l & Ed & Hd). pose proof (print_first 0 e d l (proj1 Hv) Ed) as Hd'.
  pose proof Ht as Ht0. rewrite Ed in Ht0. cbn [app] in Ht0. rewrite (mbind_ret _ _ _ _ _ (not_the_end d _ g Ht0 Hd Hd')).
  rewrite (mbind_ret _ _ _ _ _ (fuel_left g)).
  assert (length es <= length (more_numbers es))%nat as Hl.
  { clear. induction es as [|e es IH]; [done|]. change (more_numbers (e :: es)) with (44 :: print 0 e ++ more_numbers es).
    cbn [length]. rewrite length_app. lia. }
  destruct (cons_loop_ok (S (left_over g)) n e v es vs c rest g) as (g1 & E1 & P1); try done.
  { pose proof (left_text g _ Ht) as L. rewrite !length_app in L. lia. }
  rewrite (mbind_ret _ _ _ _ _ E1). set (q := input_line_pointer g + Z.of_nat (length (print 0 e ++ more_numbers es))) in *.
  set (g2 := set_ilp q g1). rewrite (mbind_ret _ _ g1 g2 tt).
  2:{ unfold advance, modify, g2. rewrite (po_ilp _ _ _ _ _ P1). do 3 f_equal. lia. }
  pose proof (put_out_trans _ _ _ _ _ _ _ _ _ P1 (put_out_ilp g1 q (po_ok _ _ _ _ _ P1))) as P2. fold g2 in P2.
  assert (text g2 (input_line_pointer g2) (c :: rest)) as Ht2.
  { apply (po_text P2). cbn [g2 set_ilp input_line_pointer]. unfold q. rewrite app_assoc in Ht. exact (text_r _ _ _ _ Ht). }
  rewrite (demand_empty_ok c rest g2 Hc Ht2). eexists. split; [reflexivity|].
  pose proof (put_out_trans _ _ _ _ _ _ _ _ _ P2 (put_out_ilp g2 (input_line_pointer g2 + 1) (po_ok _ _ _ _ _ P2))) as P.
  rewrite !app_nil_r in P. exact P.
Qed.
End line.

(** ** The claims *)

(** C34.  A string directive (.ascii, .asciz and the wider ones) on a line of strings
    separated by commas, in ASCII, puts out exactly the characters the strings stand for,
    each as wide as the directive says, with a NUL after each string if it says so,
    reports nothing, and leaves the input pointer after the line.  The characters may be
    written in every way [next_char_of_string] reads without a report: plain, as a letter
    after a backslash, with up to three octal digits, with any number of hexadecimal ones,
    or as any other character after a backslash, which stands for itself.  (For the last
    the manual promises a warning; the code gives none.) *)
Theorem string_directive (section_flags : segT -> Z) {float_parser : FloatParser} (keep : bool)
    (bits : Z) (z : bool) (s : list (list Z) * list Z) (more : list (list (list Z) * list Z)) (e : Z) (rest : list Z) (g : gas) :
  frags_ok g -> stores section_flags g -> bits ∈ [8; 16; 32; 64] ->
  written_string s -> Forall written_string more -> line_end e ->
  text g (input_line_pointer g) (quoted s ++ more_strings more ++ e :: rest) ->
  exists g', stringer section_flags keep (bits + Z.b2z z) g = Ret (tt, g') /\
    put_out (concat (stored bits z <$> s :: more)) []
      (input_line_pointer g + Z.of_nat (length (quoted s ++ more_strings more)) + 1) g g'.
Proof. apply stringer_ok. Qed.

(** C33.  A directive for integers of 1, 2, 4 or 8 bytes on a line of constant expressions
    separated by commas puts out their values in that many bytes, the highest first; it
    warns for exactly those that fit neither as signed nor as unsigned numbers, and
    leaves the input pointer after the line. *)
Theorem number_directive (section_flags : segT -> Z) {float_parser : FloatParser} {forward : FloatForward float_parser}
    (keep : bool) (junk : Z) (X_unsigned : expressionS -> bool)
    (n : Z) (e : cexp) (v : Z) (es : list cexp) (vs : list Z) (c : Z) (rest : list Z) (g : gas) :
  n ∈ [1; 2; 4; 8] -> frags_ok g -> stores section_flags g -> ready g ->
  number e v -> Forall2 number es vs -> line_end c ->
  text g (input_line_pointer g) (print 0 e ++ more_numbers es ++ c :: rest) ->
  exists g', cons section_flags keep junk X_unsigned n g = Ret (tt, g') /\
    put_out (concat (be (Z.to_nat n) <$> v :: vs)) (concat (truncated n <$> v :: vs))
      (input_line_pointer g + Z.of_nat (length (print 0 e ++ more_numbers es)) + 1) g g'.
Proof. exact (cons_ok section_flags keep junk X_unsigned n e v es vs c rest g). Qed.

(** *** Witnesses *)

(** A line in a section with contents. *)
Definition data_gas (line : list Z) : gas := set_buffer (line ++ [10; 0]) (expr_gas "").

Lemma data_text (line : list Z) : forallb (fun c => (0 <=? c) && (c <? 128)) line = true ->
  text (data_gas line) 0 (line ++ [10; 0]).
Proof.
  intros H. apply (text_buffer _ _ []); [|by rewrite app_nil_r]. apply Forall_app. split; [|by repeat constructor].
  apply Forall_forall. intros c Hc%list_elem_of_In. rewrite forallb_forall in H. specialize (H c Hc). lia.
Qed.

Lemma data_gas_ok (line : list Z) : frags_ok (data_gas line) /\ stores (fun _ => 0x107) (data_gas line) /\ ready (data_gas line).
Proof.
  split_and!.
  - split; [by exists [], (mk_frag 0 0 0 0 rs_fill [])|]. split; cbn; lia.
  - split; [done|by right].
  - split; [by exists [], (mk_frag 0 0 0 0 rs_fill [])|done|cbn; lia].
Qed.

(** An a, a newline, a quote, a byte above 127 in octal and another in hexadecimal, and a
    backslash that means nothing; then a string that ends with a short octal number. *)
Definition two_strings : list (list (list Z) * list Z) :=
  [([[97]; [92; 110]; [92; 34]; [92; 51; 55; 55]; [92; 120; 101; 57]; [92; 113]], [97; 10; 34; 255; 0xe9; 113]);
   ([[98]; [92; 55]], [98; 7])].

Lemma two_strings_ok : Forall written_string two_strings.
Proof.
  constructor; [|constructor; [|constructor]]; unfold written_string; cbn; repeat split.
  - by apply spell_plain.
  - by apply spell_letter, list_elem_of_In; cbn; tauto.
  - by apply spell_other.
  - apply (spell_octal _ [51; 55; 55]); [by repeat constructor|cbn; lia|by left].
  - apply (spell_hex _ 120 [101; 57]); [by left|by repeat constructor|done].
  - by apply spell_other.
  - by apply spell_plain.
  - apply (spell_octal _ [55]); [by repeat constructor|cbn; lia|by right].
Qed.

Lemma string_directive_witness :
  let first := ([[97]; [92; 110]; [92; 34]; [92; 51; 55; 55]; [92; 120; 101; 57]; [92; 113]], [97; 10; 34; 255; 0xe9; 113]) in
  let line := quoted first ++ more_strings [([[98]; [92; 55]], [98; 7])] in
  exists g', @stringer (fun _ => 0x107) no_float false 17 (data_gas line) = Ret (tt, g')
    /\ image (frags g') = [0; 97; 0; 10; 0; 34; 0; 255; 0; 0xe9; 0; 113; 0; 0; 0; 98; 0; 7; 0; 0].
Proof.
  intros first line. destruct (data_gas_ok line) as (H1 & H2 & _).
  destruct (@string_directive (fun _ => 0x107) no_float false 16 true first [([[98]; [92; 55]], [98; 7])] 10 [0]
    (data_gas line) H1 H2) as (g' & E & [I _ _ _ _ _ _]).
  - apply list_elem_of_In. cbn. tauto.
  - exact (Forall_inv two_strings_ok).
  - exact (Forall_inv_tail two_strings_ok).
  - by left.
  - rewrite app_assoc. by apply data_text.
  - exists g'. split; [exact E|]. rewrite I. by vm_compute.
Defined.

(** 2- 3 fits in two bytes, 0x1ffff does not. *)
Definition two_numbers : list cexp :=
  [Bin O_subtract (Num 10 (chars "2")) (Num 10 (chars "3")); Num 16 (chars "1ffff")].

Lemma two_numbers_ok : Forall2 number two_numbers [-1; 0x1ffff].
Proof.
  assert (forall r l, forallb (fun d => hex_value d <? r) l = true -> Forall (is_digit r) l) as Hd.
  { intros r l Hl. apply Forall_forall. intros d Hd%list_elem_of_In. rewrite forallb_forall in Hl.
    apply Hl, Z.ltb_lt in Hd. split; [apply hex_value_range|done]. }
  constructor; [|constructor; [|constructor]]; (split; [|reflexivity]); unfold number_ok, radix_ok; repeat split;
    unfold radix_ok; (tauto || (apply Hd; reflexivity) || discriminate || reflexivity).
Qed.

Lemma number_directive_witness :
  let line := print 0 (Bin O_subtract (Num 10 (chars "2")) (Num 10 (chars "3"))) ++ more_numbers [Num 16 (chars "1ffff")] in
  exists g', @cons (fun _ => 0x107) no_float false 0xcc (fun _ => true) 2 (data_gas line) = Ret (tt, g')
    /\ image (frags g') = [255; 255; 255; 255] /\ log g' = [Warn "value 0x%llx truncated to 0x%llx"].
Proof.
  intros line. destruct (data_gas_ok line) as (H1 & H2 & H3). pose proof two_numbers_ok as H.
  inversion H as [|? ? ? ? Hn Hm]. subst. assert (2 ∈ [1; 2; 4; 8]) as H0 by (apply list_elem_of_In; cbn; tauto).
  destruct (@number_directive (fun _ => 0x107) no_float no_float_forward false 0xcc (fun _ => true) 2
    (Bin O_subtract (Num 10 (chars "2")) (Num 10 (chars "3"))) (-1) [Num 16 (chars "1ffff")] [0x1ffff] 10 [0] (data_gas line)
    H0 H1 H2 H3 Hn Hm (or_introl eq_refl)) as (g' & E & [I _ _ _ L _ _]).
  - rewrite app_assoc. by apply data_text.
  - exists g'. split; [exact E|]. rewrite I, L. split; vm_compute; reflexivity.
Defined.
