(* ===== verification/GasWrite.v ===== *)
(** * Writing the object file: gas/write.c

    What happens to the fixups of a section between the end of the assembly and
    the object file: [adjust_reloc_syms] replaces local symbols by their section's
    symbol before [fixup_segment] runs (FusionFix.v), and [write_relocs] turns the
    fixups that are left into relocation entries after it.  There are no .reloc
    directives, so the list of relocations to merge in is empty.  The class
    [WriteTab] adds to the resolved symbol table what these two functions read:
    the BFD symbol behind a symbol, its flags, the section symbols, the sections'
    flags.  Marking symbols and debugging output are not part of the state. *)
From S2P Require Import Prelude BfdReloc FusionReloc GasState FusionParse FusionFix.
#[local] Open Scope Z_scope.

(** ** The symbol table, continued *)
Record sym_detail : Type := mk_detail {
  sd_bfdsym : asymbol;
  (** [BSF_KEEP] of the BFD symbol. *)
  sd_keep : bool;
  (** [symbol_equated_reloc_p (s) || S_IS_WEAKREFR (s)] *)
  sd_equated : bool;
  (** [symbol_get_value_expression (s)] *)
  sd_expression : expressionS;
  sd_mri_common : bool;
  sd_section_p : bool;
  sd_local : bool
}.

(** [seg_linkonce]: SEC_LINK_ONCE or a name that begins with .gnu.linkonce;
    [n_symbols] bounds the number of symbols. *)
Class WriteTab {symtab : SymTab} : Type := {
  detail : symbolS -> sym_detail;
  section_symbol : segT -> symbolS;
  seg_linkonce : segT -> bool;
  seg_merge : segT -> bool;
  seg_tls : segT -> bool;
  n_symbols : nat
}.

Section write.
  Context {symtab : SymTab} {tab : WriteTab}.

(** ** Reducing symbols *)

(** [fixp->fx_addsy = add; fixp->fx_offset += n;] *)
Definition redirect (add : option symbolS) (n : Z) (f : fixS) : fixS :=
  set_syms add (fx_subsy f) (u64 (fx_offset f + n)) (fx_pcrel f) f.

(** The [while] over equated symbols.  A chain longer than the number of symbols
    has come back on itself. *)
Fixpoint equate_loop (fuel : nat) (f : fixS) (s : symbolS) : M (fixS * symbolS) :=
  match fuel with
  | O => fail Floop
  | S fuel' =>
      if sd_equated (detail s) then
        match X_add_symbol (sd_expression (detail s)) with
        | None => fail Foob
        | Some newsym =>
            if decide (s = newsym) then mret (f, s)
            else equate_loop fuel' (redirect (Some newsym) (X_add_number (sd_expression (detail s))) f)
                   newsym
        end
      else mret (f, s)
  end.

Definition adjust_one (this : segT) (f : fixS) : M fixS :=
  match fx_done f, fx_addsy f with
  | false, Some s =>
      '(f, s) ← equate_loop (S n_symbols) f s;
      if sd_mri_common (detail s) then
        mret (redirect (X_add_symbol (sd_expression (detail s))) (S_GET_VALUE s) f)
      else if S_FORCE_RELOC s true then mret f
      else if sd_section_p (detail s) then mret f
      else
        let symsec := S_GET_SEGMENT s in
        if bool_decide (symsec = seg_absolute) || bool_decide (symsec = seg_reg) then mret f
        else if negb (bool_decide (symsec = this)) && negb (sd_local (detail s))
                && seg_linkonce symsec then mret f
        else if seg_merge symsec
                && (negb (fx_offset f =? 0) || negb (bool_decide (fx_subsy f = None))) then mret f
        else if seg_tls symsec then mret f
        else mret (redirect (Some (section_symbol symsec)) (S_GET_VALUE s) f)
  | _, _ => mret f
  end.

Definition adjust_reloc_syms (this : segT) : M unit := for_fixes (adjust_one this).

(** ** Relocation entries *)

(** The entry [tc_gen_reloc] allocated; reading a field it did not set is a
    fault. *)
Definition to_arelent (r : gen_reloc) : M (arelent * bool) :=
  match gr_sym r, gr_address r, gr_addend r with
  | Some s, Some address, Some addend =>
      mret (mk_arelent address addend (Some (gr_howto r)) (sd_bfdsym (detail s)), sd_keep (detail s))
  | None, _, _ => fail Foob
  | _, _, _ => fail Funinit
  end.

Section sec.
  Context (stdoutput : bfd) (sec : asection).

(** [keep] is [BSF_KEEP] of the entry's symbol. *)
Definition install_reloc (reloc : arelent) (keep : bool) (frag : option nat) : M arelent :=
  let sym := BfdReloc.sym reloc in
  _ ← when (negb keep
            && (negb (section_sym sym) || negb (bool_decide (sec_kind (section sym) = sec_abs))))
        (as_bad "redefined symbol cannot be used on reloc");
  x ← get_frag frag;
  '(s, reloc, data) ← lift (bfd_install_relocation stdoutput reloc (fr_literal x) (fr_address x) sec);
  _ ← (match frag with
       | Some i =>
           put_frag i (mk_frag (fr_address x) (fr_fix x) (fr_var x) (fr_offset x) (fr_type x) data)
       | None => fail Foob
       end);
  _ ← (match s with
       | bfd_reloc_ok => mret tt
       | bfd_reloc_overflow => as_bad "relocation overflow"
       | bfd_reloc_outofrange => as_bad "relocation out of range"
       | _ => as_fatal "%s:%u: bad return from bfd_install_relocation: %x"
       end);
  mret reloc.

(** One fixup: its entry, if it makes one. *)
Definition write_one (f : fixS) : M (option arelent) :=
  if fx_done f then mret None else
  x ← get_frag (fx_frag f);
  _ ← when (fr_fix x <? fx_where f + fx_size f)
        (as_bad "internal error: fixup not contained within frag");
  r ← tc_gen_reloc f;
  match r with
  | None => mret None
  | Some r =>
      '(reloc, keep) ← to_arelent r;
      reloc ← install_reloc reloc keep (fx_frag f);
      mret (Some reloc)
  end.

Fixpoint write_relocs_of (fs : list fixS) : M (list arelent) :=
  match fs with
  | [] => mret []
  | f :: fs' =>
      r ← write_one f;
      rs ← write_relocs_of fs';
      mret (match r with Some r => r :: rs | None => rs end)
  end.

Definition write_relocs : M (list arelent) := fs ← gets fixes; write_relocs_of fs.
End sec.

(** ** Reducing symbols keeps every fixup's target *)

(** The laws of a resolved table: a section symbol is at the start of its
    section; an equated symbol is defined by another one that is closer to the
    end of its chain, in the same section, at the distance its expression says;
    no symbol is in an MRI common block. *)
Record table_ok (rank : symbolS -> nat) : Prop := {
  to_section : forall s, S_GET_SEGMENT (section_symbol (S_GET_SEGMENT s)) = S_GET_SEGMENT s
                 /\ S_GET_VALUE (section_symbol (S_GET_SEGMENT s)) = 0;
  to_equated : forall s, sd_equated (detail s) = true ->
                 exists s', X_add_symbol (sd_expression (detail s)) = Some s'
                   /\ (rank s' < rank s)%nat /\ S_GET_SEGMENT s' = S_GET_SEGMENT s
                   /\ S_GET_VALUE s = S_GET_VALUE s' + X_add_number (sd_expression (detail s));
  to_rank : forall s, (rank s <= n_symbols)%nat;
  to_mri : forall s, sd_mri_common (detail s) = false
}.

(** What a fixup refers to: a section and an offset in it. *)
Definition fix_target (f : fixS) : option (segT * Z) :=
  (fun s => (S_GET_SEGMENT s, u64 (S_GET_VALUE s + fx_offset f))) <$> fx_addsy f.

(** [f'] is [f] with another symbol and offset that make the same target. *)
Definition same_target (f f' : fixS) : Prop :=
  fix_target f' = fix_target f /\ f' = set_syms (fx_addsy f') (fx_subsy f) (fx_offset f') (fx_pcrel f) f.

Lemma same_target_refl (f : fixS) : same_target f f.
Proof. split; [done|]. by destruct f. Qed.

Lemma same_target_trans (f1 f2 f3 : fixS) :
  same_target f1 f2 -> same_target f2 f3 -> same_target f1 f3.
Proof.
  intros [H1 E1] [H2 E2]. split; [congruence|].
  rewrite E2, E1. destruct f1, f3. cbn in *. by injection E2; intros; subst.
Qed.

Lemma redirect_target (f : fixS) (s s' : symbolS) (n : Z) :
  fx_addsy f = Some s -> S_GET_SEGMENT s' = S_GET_SEGMENT s ->
  S_GET_VALUE s = S_GET_VALUE s' + n -> same_target f (redirect (Some s') n f).
Proof.
  intros Hs Hseg Hv. split; [|by destruct f].
  unfold fix_target. rewrite Hs. cbn. rewrite Hseg, Hv. do 2 f_equal. wrap64.
Qed.

Section targets.
  Context (rank : symbolS -> nat) (Htab : table_ok rank).

Lemma equate_loop_target (f : fixS) (s : symbolS) (fuel : nat) (g : gas) :
  fx_addsy f = Some s -> (rank s < fuel)%nat ->
  exists f' s', equate_loop fuel f s g = Ret ((f', s'), g) /\ same_target f f'
    /\ fx_addsy f' = Some s' /\ sd_equated (detail s') = false.
Proof.
  revert f s. induction fuel as [|fuel IH]; intros f s Hs Hr; [lia|]. cbn [equate_loop].
  destruct (sd_equated (detail s)) eqn:Eq.
  2:{ exists f, s. split; [done|]. split; [apply same_target_refl|done]. }
  destruct (to_equated _ Htab s Eq) as (s' & He & Hlt & Hseg & Hv). rewrite He.
  rewrite decide_False by (intros ->; lia).
  set (n := X_add_number (sd_expression (detail s))) in *.
  destruct (IH (redirect (Some s') n f) s' eq_refl) as (f' & s'' & E & Ht & ?); [lia|].
  exists f', s''. split; [exact E|]. split; [|done].
  eapply same_target_trans; [|exact Ht]. by eapply redirect_target.
Qed.

Lemma adjust_one_target (this : segT) (f : fixS) (g : gas) :
  exists f', adjust_one this f g = Ret (f', g) /\ same_target f f'.
Proof.
  unfold adjust_one. destruct (fx_done f); [by exists f; split; [|apply same_target_refl]|].
  destruct (fx_addsy f) as [s|] eqn:Hs; [|by exists f; split; [|apply same_target_refl]].
  destruct (equate_loop_target f s (S n_symbols) g Hs) as (f' & s' & E & Ht & Hs' & _).
  { pose proof (to_rank _ Htab s). lia. }
  pnext E. rewrite (to_mri _ Htab). destruct (to_section _ Htab s') as [H1 H2].
  assert (Hr : same_target f (redirect (Some (section_symbol (S_GET_SEGMENT s'))) (S_GET_VALUE s') f')).
  { eapply same_target_trans; [exact Ht|]. apply (redirect_target f' s'); [done|done|lia]. }
  repeat (match goal with |- context [if ?b then _ else _] => destruct b end); eauto.
Qed.

Lemma fix_loop_target (this : segT) (n i : nat) (g : gas) :
  (i + n = length (fixes g))%nat ->
  exists g', fix_loop (adjust_one this) n i g = Ret (tt, g') /\ Forall2 same_target (fixes g) (fixes g')
    /\ g' = set_fixes (fixes g') g.
Proof.
  revert i g. induction n as [|n IH]; intros i g Hi; cbn [fix_loop].
  - exists g. split; [done|]. split; [|by destruct g].
    apply Forall2_same_length_lookup_2; [done|]. intros j x y Hx Hy.
    assert (x = y) as -> by congruence. apply same_target_refl.
  - destruct (lookup_lt_is_Some_2 (fixes g) i) as [f Hf]; [lia|].
    rewrite (mbind_ret _ _ _ g f) by (by rewrite Hf).
    destruct (adjust_one_target this f g) as (f' & E & Ht). pnext E.
    set (g1 := set_fixes (<[i := f']> (fixes g)) g).
    erewrite mbind_ret; [|reflexivity].
    destruct (IH (S i) g1) as (g' & E2 & Hg & He); [cbn; rewrite length_insert; lia|].
    exists g'. split; [exact E2|]. split.
    + apply Forall2_same_length_lookup_2.
      { rewrite <- (Forall2_length _ _ _ Hg). cbn. by rewrite length_insert. }
      intros j x y Hx Hy. assert (Hx1 : exists x1, fixes g1 !! j = Some x1 /\ same_target x x1).
      { cbn. destruct (decide (i = j)) as [<-|Hne].
        - rewrite list_lookup_insert_eq by lia. exists f'. split; [done|]. by assert (x = f) as -> by congruence.
        - rewrite list_lookup_insert_ne by done. exists x. split; [done|apply same_target_refl]. }
      destruct Hx1 as (x1 & Hx1 & Hs1). eapply same_target_trans; [exact Hs1|].
      by eapply (Forall2_lookup_lr _ _ _ _ _ _ Hg).
    + rewrite He. reflexivity.
Qed.
End targets.

(** C31.  Reducing symbols never changes what is referred to: on a resolved table
    [adjust_reloc_syms] returns, changes nothing but the fixups' symbols and
    offsets, and every fixup still refers to the same offset of the same
    section. *)
Theorem adjust_keeps_targets (rank : symbolS -> nat) (this : segT) (g : gas) :
  table_ok rank ->
  exists g', adjust_reloc_syms this g = Ret (tt, g') /\ Forall2 same_target (fixes g) (fixes g')
    /\ g' = set_fixes (fixes g') g.
Proof.
  intros Htab. unfold adjust_reloc_syms, for_fixes.
  erewrite mbind_ret; [|reflexivity]. by apply (fix_loop_target rank).
Qed.
End write.

(** ** Witness *)

(** Symbol 1 is the section's symbol, symbol 0 a label 0x20 into it, symbol 3 is
    equated to symbol 0 plus 4. *)
Definition demo_symtab_eq : SymTab :=
  Build_SymTab (fun s => mk_sym (seg_normal 0)
                           (if decide (s = Sym 1) then 0 else if decide (s = Sym 3) then 0x24 else 0x20)
                           false false false) (Sym 2) true.
Definition demo_writetab : @WriteTab demo_symtab_eq :=
  Build_WriteTab demo_symtab_eq
    (fun s => mk_detail (mk_symbol 0 false (bool_decide (s = Sym 1)) demo_section) true
                (bool_decide (s = Sym 3)) (mk_expr (Some (Sym 0)) None 4 O_symbol) false
                (bool_decide (s = Sym 1)) true)
    (fun _ => Sym 1) (fun _ => false) (fun _ => false) (fun _ => false) 3.
Definition demo_rank (s : symbolS) : nat := if decide (s = Sym 3) then 1 else 0.

Lemma demo_table_ok : @table_ok demo_symtab_eq demo_writetab demo_rank.
Proof.
  split; [done| |intros s; unfold demo_rank; cbn; destruct (decide _); lia|done].
  intros s Hs. cbn in Hs. apply bool_decide_eq_true in Hs as ->. exists (Sym 0).
  split_and!; try done. unfold demo_rank. rewrite decide_False, decide_True by done. lia.
Qed.

Lemma adjust_keeps_targets_witness :
  exists g', @adjust_reloc_syms demo_symtab_eq demo_writetab (seg_normal 0)
               (set_fixes [demo_fix (Some (Sym 3)) 8 BFD_RELOC_16] demo_gas) = Ret (tt, g')
    /\ Forall2 (@same_target demo_symtab_eq) [demo_fix (Some (Sym 3)) 8 BFD_RELOC_16] (fixes g').
Proof.
  destruct (@adjust_keeps_targets demo_symtab_eq demo_writetab demo_rank (seg_normal 0)
    (set_fixes [demo_fix (Some (Sym 3)) 8 BFD_RELOC_16] demo_gas) demo_table_ok) as (g' & E & H & _).
  exists g'. split; [exact E|exact H].
Defined.
