(* ===== verification/FusionChain.v ===== *)
(** * From the assembler to the linked image

    The way of one local reference through the tools: the fixup [md_assemble]
    left is reduced to its section's symbol ([adjust_reloc_syms]), valued and put
    into the word ([fixup_segment], [md_apply_fix]), written as a relocation
    ([tc_gen_reloc], [write_relocs], [elf_write_relocs]), read back by the linker
    and applied there ([fusion_elf_relocate_section]).  The contents the linker
    relocates are the frags' bytes one after the other. *)
From S2P Require Import Prelude FusionIsa Endian BfdReloc FusionReloc ElfReloc GasState.
From S2P Require Import FusionParse FusionAsm FusionFix GasWrite.
#[local] Open Scope Z_scope.

(** ** The section's contents *)

(** Each frag's address is the number of bytes before it. *)
Definition laid_out (fs : list frag) : Prop :=
  forall n x, fs !! n = Some x -> fr_address x = Z.of_nat (length (image (take n fs))).

Lemma image_app (fs gs : list frag) : image (fs ++ gs) = image fs ++ image gs.
Proof. unfold image. by rewrite fmap_app, concat_app. Qed.

Lemma image_split (fs : list frag) (n : nat) (x : frag) :
  fs !! n = Some x -> image fs = image (take n fs) ++ fr_literal x ++ image (drop (S n) fs).
Proof.
  intros Hx. rewrite <- (take_drop_middle fs n x Hx) at 1. by rewrite image_app.
Qed.

Lemma image_rd (fs : list frag) (n : nat) (x : frag) (j : Z) :
  laid_out fs -> fs !! n = Some x -> 0 <= j < Z.of_nat (length (fr_literal x)) ->
  rd (image fs) (fr_address x + j) = rd (fr_literal x) j.
Proof.
  intros Hlay Hx Hj. rewrite (Hlay n x Hx), (image_split fs n x Hx). unfold rd.
  rewrite !(proj2 (Z.leb_le 0 _)) by lia.
  rewrite lookup_app_r by lia. rewrite lookup_app_l by lia.
  by replace (Z.to_nat _ - _)%nat with (Z.to_nat j) by lia.
Qed.

Lemma image_get32 (fs : list frag) (n : nat) (x : frag) (p : Z) :
  laid_out fs -> fs !! n = Some x -> 0 <= p -> p + 4 <= Z.of_nat (length (fr_literal x)) ->
  bfd_get_32 (image fs) (fr_address x + p) = bfd_getb32 (fr_literal x) p.
Proof.
  intros Hlay Hx H0 H1. unfold bfd_get_32, bfd_getb32. rewrite <- !Z.add_assoc.
  by rewrite !(image_rd fs n x) by (done || lia).
Qed.

Lemma image_length_insert (fs : list frag) (n : nat) (x y : frag) :
  fs !! n = Some x -> length (fr_literal y) = length (fr_literal x) ->
  length (image (<[n := y]> fs)) = length (image fs).
Proof.
  intros Hx Hl. rewrite (image_split fs n x Hx), (image_split (<[n := y]> fs) n y).
  - rewrite take_insert_ge, drop_insert_lt by lia. rewrite !length_app. lia.
  - apply list_lookup_insert_eq. by eapply lookup_lt_Some.
Qed.

Lemma laid_out_insert (fs : list frag) (n : nat) (x y : frag) :
  laid_out fs -> fs !! n = Some x -> fr_address y = fr_address x ->
  length (fr_literal y) = length (fr_literal x) -> laid_out (<[n := y]> fs).
Proof.
  intros Hlay Hx Ha Hl m z Hz.
  assert (E : length (image (take m (<[n := y]> fs))) = length (image (take m fs))).
  { destruct (decide (n < m)%nat).
    - rewrite take_insert_lt by done. apply (image_length_insert _ _ x); [|done].
      by rewrite lookup_take_lt.
    - by rewrite take_insert_ge by lia. }
  rewrite E. destruct (decide (n = m)) as [->|Hne].
  - rewrite list_lookup_insert_eq in Hz by (by eapply lookup_lt_Some). injection Hz as <-.
    rewrite Ha. by apply Hlay.
  - rewrite list_lookup_insert_ne in Hz by done. by apply Hlay.
Qed.

Section chain.
  Context {symtab : SymTab} {tab : WriteTab}.

(** ** Reduction to the section's symbol *)

(** A label of a section the assembler may reduce to the section's symbol. *)
Record local_label (s : symbolS) : Prop := {
  ll_plain : sd_equated (detail s) = false /\ sd_mri_common (detail s) = false;
  ll_free : S_FORCE_RELOC s true = false;
  ll_label : sd_section_p (detail s) = false;
  ll_seg : exists k, S_GET_SEGMENT s = seg_normal k;
  ll_flags : seg_linkonce (S_GET_SEGMENT s) = false /\ seg_merge (S_GET_SEGMENT s) = false
             /\ seg_tls (S_GET_SEGMENT s) = false
}.

(** A section symbol: at the start of its section, which the output file has. *)
Record section_sym_ok (ss : symbolS) (seg : segT) : Prop := {
  so_seg : S_GET_SEGMENT ss = seg;
  so_value : S_GET_VALUE ss = 0;
  so_bfdsym : section_sym (sd_bfdsym (detail ss)) = true /\ value (sd_bfdsym (detail ss)) = 0;
  so_section : output_offset (section (sd_bfdsym (detail ss))) = 0
               /\ sec_kind (section (sd_bfdsym (detail ss))) = sec_normal;
  so_keep : sd_keep (detail ss) = true
}.

Lemma adjust_local (this : segT) (f : fixS) (s : symbolS) (g : gas) :
  fx_done f = false -> fx_addsy f = Some s -> local_label s ->
  adjust_one this f g
  = Ret (redirect (Some (section_symbol (S_GET_SEGMENT s))) (S_GET_VALUE s) f, g).
Proof.
  intros Hd Hs [[H1 H2] H3 H4 [k H5] (H6 & H7 & H8)]. unfold adjust_one. rewrite Hd, Hs.
  assert (E : equate_loop (S n_symbols) f s g = Ret ((f, s), g)) by (cbn; by rewrite H1).
  pnext E. rewrite H2, H3, H4. cbv zeta. rewrite H6, H7, H8, H5. cbn. by rewrite andb_false_r.
Qed.

(** ** The word *)

(** The fixups followed here, with the bits of the word they may change. *)
Definition field_mask (r : bfd_reloc_code_real) : option Z :=
  match r with
  | BFD_RELOC_16 | BFD_RELOC_FUSION_HI16 => Some 0xffff
  | BFD_RELOC_FUSION_14_PCREL => Some MASK_IMM_B
  | _ => None
  end.

Lemma md_apply_half (f : fixS) (s : symbolS) (v : Z) (g : gas) (n : nat) (x : frag) (w : Z) :
  fx_addsy f = Some s -> field_mask (fx_r_type f) = Some 0xffff -> fix_in g f n x ->
  bfd_getb32 (fr_literal x) (fx_where f) = Ret w ->
  exists b l, Z.land b 0xffff = b
    /\ md_apply_fix f v g
       = Ret (set_addnumber v f, set_frags (<[n := with_bytes x l]> (frags g)) (frch_obstack g) g)
    /\ bfd_getb32 l (fx_where f) = Ret (u32 (Z.lor b w))
    /\ same_outside (fr_literal x) l (fx_where f) 4 /\ bytes_ok l.
Proof.
  intros Hs Hr Hin Hw.
  assert (Hb : exists b, fusion_apply_const_reloc (fx_r_type f) v = Ret b /\ Z.land b 0xffff = b
    /\ const_reloc (fx_r_type f) = true).
  { destruct (fx_r_type f); try done; eexists; (split; [reflexivity|]); (split; [|done]).
    all: rewrite u32_small by (apply land_range_l; [lia|cst_range]);
      unfold GET_IMM_LI, MASK_IMM_LI; by rewrite Z.land_comm, Z.land_assoc, Z.land_diag. }
  destruct Hb as (b & Hb & Hm & Hc).
  destruct (or_word_ok g (set_addnumber v f) n x w b (fix_in_addnumber g f n x v Hin) Hw)
    as (l & E & Hg & Ho & Hok).
  exists b, l. split; [done|]. split; [|done].
  assert (Hcf : const_fix (set_addnumber v f) v g
    = Ret (set_addnumber v f, set_frags (<[n := with_bytes x l]> (frags g)) (frch_obstack g) g)).
  { unfold const_fix. change (fx_r_type (set_addnumber v f)) with (fx_r_type f).
    rewrite (lift_ret _ _ _ _ Hb). pnext E. unfold done_if_absolute.
    change (fx_addsy (set_addnumber v f)) with (fx_addsy f). by rewrite Hs. }
  unfold md_apply_fix. cbv zeta. change (fx_r_type (set_addnumber v f)) with (fx_r_type f).
  by destruct (fx_r_type f).
Qed.

(** No diagnostic is due: the value fits the fixup's size and a branch's distance
    its field. *)
Definition quiet (f : fixS) (s : symbolS) (x : frag) : Prop :=
  field_overflow f (sym_value f s) = false
  /\ (fx_r_type f = BFD_RELOC_FUSION_14_PCREL ->
      sym_value f s = 0 \/ branch_far (branch_delta f s x) = false).

Lemma md_apply_followed (f : fixS) (s : symbolS) (g : gas) (n : nat) (x : frag) (w m : Z) :
  fx_addsy f = Some s -> field_mask (fx_r_type f) = Some m -> fix_in g f n x ->
  bfd_getb32 (fr_literal x) (fx_where f) = Ret w ->
  exists b l g', Z.land b m = b
    /\ md_apply_fix f (sym_value f s) g = Ret (set_addnumber (sym_value f s) f, g')
    /\ (frags g' = <[n := with_bytes x l]> (frags g) /\ fixes g' = fixes g)
    /\ bfd_getb32 l (fx_where f) = Ret (u32 (Z.lor b w))
    /\ same_outside (fr_literal x) l (fx_where f) 4 /\ bytes_ok l
    /\ (quiet f s x -> log g' = log g).
Proof.
  intros Hs Hm Hin Hw. set (v := sym_value f s).
  destruct (decide (fx_r_type f = BFD_RELOC_FUSION_14_PCREL)) as [Hr|Hr].
  - rewrite Hr in Hm. injection Hm as <-.
    destruct (md_apply_branch f s g n x w Hs Hr Hin Hw) as (l & g1 & E & Hf & Hg & Ho & Hb & Hl).
    fold v in E, Hg, Hl. destruct (bfd_get_32_ret (fr_literal x) (fx_where f) (fi_lo _ _ _ _ Hin)
      (fi_hi _ _ _ _ Hin) (fi_bytes _ _ _ _ Hin)) as (w' & Hw' & Hrange).
    assert (w' = w) as -> by (unfold bfd_get_32 in Hw'; congruence).
    exists (if v =? 0 then 0 else GEN_B_IMM (branch_delta f s x)), l, g1.
    split; [|split; [exact E|split; [exact Hf|split; [|split; [done|split; [done|]]]]]].
    + destruct (v =? 0); [done|]. unfold GEN_B_IMM. by rewrite <- Z.land_assoc, Z.land_diag.
    + rewrite Hg. destruct (v =? 0); [|done]. by rewrite Z.lor_0_l, u32_small.
    + intros [_ Hq]. rewrite Hl. destruct (Hq Hr) as [Hz|Hz].
      * unfold v. rewrite Hz. cbn. apply app_nil_r.
      * rewrite Hz, andb_false_r. apply app_nil_r.
  - assert (field_mask (fx_r_type f) = Some 0xffff) as Hm'
      by (destruct (fx_r_type f); done).
    assert (m = 0xffff) as -> by congruence.
    destruct (md_apply_half f s v g n x w Hs Hm' Hin Hw) as (b & l & Hb & E & Hg & Ho & Hok).
    exists b, l. eexists. split; [done|]. split; [exact E|]. done.
Qed.

(** [fixup_segment] on a followed fixup: its value is stored for the relocation,
    and only bits of its field are [or]ed into the word. *)
Lemma fixup_puts (f : fixS) (s : symbolS) (this : segT) (g : gas) (n : nat) (x : frag) (w m : Z) :
  symbolic f s -> field_mask (fx_r_type f) = Some m -> fix_in g f n x ->
  bfd_getb32 (fr_literal x) (fx_where f) = Ret w ->
  exists b l g', Z.land b m = b
    /\ fixup_one f this g = Ret (set_addnumber (sym_value f s) f, g')
    /\ (frags g' = <[n := with_bytes x l]> (frags g) /\ fixes g' = fixes g)
    /\ bfd_getb32 l (fx_where f) = Ret (u32 (Z.lor b w))
    /\ same_outside (fr_literal x) l (fx_where f) 4 /\ bytes_ok l
    /\ (quiet f s x -> log g' = log g).
Proof.
  intros Hsym Hm Hin Hw. pose proof Hsym as (Hs & _).
  destruct (md_apply_followed f s g n x w m Hs Hm Hin Hw)
    as (b & l & g1 & Hb & E & [Hf Hfx] & Hg & Ho & Hok & Hl).
  rewrite (fixup_symbolic f s) by done. pnext E. cbv zeta.
  change (fx_addsy (set_addnumber (sym_value f s) f)) with (fx_addsy f).
  rewrite Hs, bool_decide_eq_false_2 by done. rewrite andb_false_r.
  change (field_overflow (set_addnumber (sym_value f s) f) (sym_value f s))
    with (field_overflow f (sym_value f s)).
  exists b, l. destruct (field_overflow f (sym_value f s)) eqn:Eo; eexists;
    (split; [done|]); (split; [reflexivity|]); (split; [done|]); (split; [done|]);
    (split; [done|]); (split; [done|]).
  - intros [Hq _]. by rewrite Hq in Eo.
  - exact Hl.
Qed.

(** The instruction with another immediate. *)
Definition with_imm (i : insn) (imm : Z) : option insn :=
  match i with
  | InsnLI d rd _ => Some (InsnLI d rd imm)
  | InsnB f ra rb _ => Some (InsnB f ra rb imm)
  | _ => None
  end.

(** The instruction has the field the fixup is for. *)
Definition field_of (r : bfd_reloc_code_real) (i : insn) : bool :=
  match r, i with
  | BFD_RELOC_16, InsnLI _ _ _ | BFD_RELOC_FUSION_HI16, InsnLI _ _ _
  | BFD_RELOC_FUSION_14_PCREL, InsnB _ _ _ _ => true
  | _, _ => false
  end.

Lemma or_li (b w d rd imm : Z) :
  0 <= w < 2 ^ 32 -> Z.land b 0xffff = b -> decode w = Some (InsnLI d rd imm) ->
  exists imm', decode (u32 (Z.lor b w)) = Some (InsnLI d rd imm').
Proof.
  intros Hw Hb Hd. exists (GET_IMM_LI (Z.lor b w)). apply decode_fields in Hd. apply decode_fields.
  rewrite <- Hb. rewrite u32_small by (apply lor_range; [lia|apply land_range_r; [lia|cst_range]|lia]).
  cbn [has_fields] in *. decompose [and] Hd. subst. split_and!; [|isa..].
  rewrite <- H. isa.
Qed.

Lemma or_branch (b w f ra rb imm : Z) :
  0 <= w < 2 ^ 32 -> Z.land b MASK_IMM_B = b -> decode w = Some (InsnB f ra rb imm) ->
  exists imm', decode (u32 (Z.lor b w)) = Some (InsnB f ra rb imm').
Proof.
  intros Hw Hb Hd. exists (GET_IMM_B (Z.lor b w)). apply decode_fields in Hd. apply decode_fields.
  rewrite <- Hb. rewrite u32_small by (apply lor_range; [lia|apply land_range_r; [lia|cst_range]|lia]).
  cbn [has_fields] in *. decompose [and] Hd. subst. split_and!; [|isa..].
  rewrite <- H. isa.
Qed.

Lemma or_field (r : bfd_reloc_code_real) (m b w : Z) (i : insn) :
  field_mask r = Some m -> field_of r i = true -> 0 <= w < 2 ^ 32 -> Z.land b m = b ->
  decode w = Some i -> exists imm i', with_imm i imm = Some i' /\ decode (u32 (Z.lor b w)) = Some i'.
Proof.
  intros Hm Hf Hw Hb Hd.
  destruct r; try done; injection Hm as <-; destruct i; try done.
  - destruct (or_li _ _ _ _ _ Hw Hb Hd) as [imm' E]. by exists imm'; eauto.
  - destruct (or_li _ _ _ _ _ Hw Hb Hd) as [imm' E]. by exists imm'; eauto.
  - destruct (or_branch _ _ _ _ _ _ Hw Hb Hd) as [imm' E]. by exists imm'; eauto.
Qed.

(** ** The relocation entry *)

Definition link_type (r : bfd_reloc_code_real) : Z :=
  match r with
  | BFD_RELOC_16 => R_FUSION_LI
  | BFD_RELOC_FUSION_HI16 => R_FUSION_LUI
  | _ => R_FUSION_BRANCH
  end.

(** What [tc_gen_reloc] makes of the value: a branch's addend has the address of
    the frag added to it. *)
Definition entry_addend (r : bfd_reloc_code_real) (x : frag) (v : Z) : Z :=
  if decide (r = BFD_RELOC_FUSION_14_PCREL) then u64 (fr_address x + v) else v.

(** [tc_gen_reloc] accepts the value. *)
Definition entry_near (r : bfd_reloc_code_real) (x : frag) (v : Z) : Prop :=
  r = BFD_RELOC_FUSION_14_PCREL -> branch_far (u64 (fr_address x + v)) = false.

(** The output section of an object file the assembler writes, [size] bytes long. *)
Record object_section (stdoutput : bfd) (sec : asection) (size : Z) : Prop := {
  os_octets : bfd_octets_per_byte stdoutput = 1;
  os_vma : output_offset sec = 0 /\ output_vma sec = Some 0;
  os_limit : bfd_get_section_limit_octets stdoutput sec = size;
  os_small : size < 2 ^ 63
}.

Lemma link_howto (r : bfd_reloc_code_real) (m : Z) :
  field_mask r = Some m ->
  exists h, fusion_reloc_type_lookup r = Some h /\ type h = link_type r
    /\ special_function h = Some sf_bfd_elf_generic_reloc /\ partial_inplace h = false
    /\ bfd_get_reloc_size h = Ret 4.
Proof. destruct r; try done; intros _; eexists; split_and!; reflexivity. Qed.

Lemma gen_followed (f : fixS) (ss : symbolS) (g : gas) (n : nat) (x : frag) (m : Z) :
  fx_addsy f = Some ss -> field_mask (fx_r_type f) = Some m -> fx_frag f = Some n ->
  frags g !! n = Some x -> entry_near (fx_r_type f) x (fx_addnumber f) ->
  exists h, fusion_reloc_type_lookup (fx_r_type f) = Some h
    /\ tc_gen_reloc f g
       = Ret (Some (mk_gen (Some ss) (Some (u64 (fr_address x + fx_where f)))
                      (Some (entry_addend (fx_r_type f) x (fx_addnumber f))) h), g).
Proof.
  intros Hs Hm Hf Hx Hn. destruct (link_howto _ _ Hm) as (h & Hh & _). exists h. split; [done|].
  unfold entry_near in Hn. unfold tc_gen_reloc, entry_addend. rewrite Hf, Hs, Hh. unfold get_frag.
  erewrite mbind_ret; [|by rewrite Hx]. cbv zeta.
  destruct (fx_r_type f); try done. unfold pcrel_addend. fold (branch_far (u64 (fr_address x + fx_addnumber f))).
  by rewrite Hn.
Qed.

Lemma write_followed (stdoutput : bfd) (sec : asection) (size : Z) (f : fixS) (ss : symbolS)
    (seg : segT) (g : gas) (n : nat) (x : frag) (m : Z) :
  object_section stdoutput sec size -> section_sym_ok ss seg ->
  fx_done f = false -> fx_addsy f = Some ss -> field_mask (fx_r_type f) = Some m -> fx_size f = 4 ->
  fx_frag f = Some n -> frags g !! n = Some x -> 0 <= fr_address x -> 0 <= fx_where f ->
  fx_where f + 4 <= fr_fix x -> fr_address x + fx_where f + 4 <= size ->
  0 <= fx_addnumber f < 2 ^ 64 -> entry_near (fx_r_type f) x (fx_addnumber f) ->
  exists h e, write_one stdoutput sec f g = Ret (Some e, g)
    /\ howto_of e = Some h /\ type h = link_type (fx_r_type f)
    /\ address e = fr_address x + fx_where f
    /\ addend e = entry_addend (fx_r_type f) x (fx_addnumber f)
    /\ BfdReloc.sym e = sd_bfdsym (detail ss).
Proof.
  intros [Ho [Hoff Hv] Hlim Hsmall] [_ _ [Hss Hsv] [Hso Hsk] Hkeep] Hd Hs Hm Hsz Hf Hx H0 H1 H2 H3 Ha Hn.
  destruct (link_howto _ _ Hm) as (h & Hh & Ht & Hsp & Hpi & Hrs).
  destruct (gen_followed f ss g n x m Hs Hm Hf Hx Hn) as (h' & Hh' & E).
  assert (h' = h) as -> by congruence.
  set (A := entry_addend (fx_r_type f) x (fx_addnumber f)) in *.
  assert (HA : 0 <= A < 2 ^ 64).
  { unfold A, entry_addend. destruct (decide _); [apply u64_range|done]. }
  rewrite u64_small in E by lia. set (a := fr_address x + fx_where f) in *.
  set (e0 := mk_arelent a A (Some h) (sd_bfdsym (detail ss))).
  assert (Ei : bfd_install_relocation stdoutput e0 (fr_literal x) (fr_address x) sec
               = Ret (bfd_reloc_ok, e0, fr_literal x)).
  { rewrite (install_rela stdoutput e0 h 4 0 _ _ sec) by (done || (cbn; lia) || (cbn; by rewrite Hsk)).
    cbn [e0 BfdReloc.sym address addend set_address set_addend howto_of]. rewrite Hss, Hsk, Hso, Hsv, Hoff.
    cbn [negb orb]. rewrite bool_decide_eq_false_2 by done.
    unfold in_section. rewrite Hlim. rewrite (proj2 (Z.leb_le a size)) by lia.
    rewrite u64_small, (proj2 (Z.leb_le (a + 4) size)) by lia. cbn [andb].
    rewrite Z.add_0_r, (u64_small a) by lia.
    replace (u64 (0 + 0 + A - (if pc_relative h then 0 + 0 else 0))) with A; [done|].
    destruct (pc_relative h); rewrite u64_small; lia. }
  exists h, e0. split; [|done]. unfold write_one. rewrite Hd, Hf. unfold get_frag at 1.
  erewrite mbind_ret; [|by rewrite Hx]. rewrite Hsz.
  rewrite (proj2 (Z.ltb_ge (fr_fix x) (fx_where f + 4))) by lia.
  erewrite mbind_ret; [|reflexivity]. pnext E. erewrite mbind_ret; [|reflexivity]. cbv beta iota.
  cbn [gr_howto]. fold e0. rewrite Hkeep.
  assert (Eii : install_reloc stdoutput sec e0 true (Some n) g = Ret (e0, g)).
  { unfold install_reloc. cbn [negb andb]. erewrite mbind_ret; [|reflexivity]. unfold get_frag.
    erewrite mbind_ret; [|by rewrite Hx]. rewrite (lift_ret _ _ _ _ Ei). cbv beta iota.
    erewrite mbind_ret; [|reflexivity]. erewrite mbind_ret; [|reflexivity].
    unfold mret, M_ret. do 2 f_equal. rewrite list_insert_id by (rewrite Hx; by destruct x).
    by destruct g. }
  pnext Eii. reflexivity.
Qed.
End chain.
