(* ===== verification/FusionObject.v ===== *)
(** * A section's local references, assembled and linked

    The whole way of a section whose fixups refer to local labels: the three
    passes of gas/write.c over its fixups, the relocation section in the object
    file, and the linker's pass over it.  The lemmas on one fixup are in
    FusionChain.v. *)
From S2P Require Import Prelude FusionIsa Endian BfdReloc FusionReloc ElfReloc FusionLink.
From S2P Require Import GasState FusionParse FusionAsm FusionFix GasWrite FusionChain.
#[local] Open Scope Z_scope.

(** ** Changing a word of the image *)

(** [x'] is [x] with other bytes, as many. *)
Definition rewritten (x x' : frag) : Prop :=
  exists l, x' = with_bytes x l /\ length l = length (fr_literal x).

Lemma rewritten_refl (x : frag) : rewritten x x.
Proof. exists (fr_literal x). split; [by destruct x|done]. Qed.

Lemma rewritten_trans (x y z : frag) : rewritten x y -> rewritten y z -> rewritten x z.
Proof.
  intros (l & -> & Hl) (k & -> & Hk). exists k. split; [done|]. cbn in Hk. by rewrite Hk.
Qed.

Lemma image_insert_bytes (fs : list frag) (n : nat) (x : frag) (l : list Z) :
  bytes_ok (image fs) -> fs !! n = Some x -> bytes_ok l ->
  bytes_ok (image (<[n := with_bytes x l]> fs)).
Proof.
  intros Hb Hx Hl. rewrite (image_split fs n x Hx) in Hb.
  rewrite (image_split _ n (with_bytes x l)) by (apply list_lookup_insert_eq; by eapply lookup_lt_Some).
  rewrite take_insert_ge, drop_insert_lt by lia.
  apply Forall_app in Hb as [H1 Hb]. apply Forall_app in Hb as [H2 H3].
  apply Forall_app. split; [done|]. apply Forall_app. by split.
Qed.

Lemma image_insert_outside (fs : list frag) (n : nat) (x : frag) (l : list Z) (p : Z) :
  laid_out fs -> fs !! n = Some x -> same_outside (fr_literal x) l p 4 ->
  same_outside (image fs) (image (<[n := with_bytes x l]> fs)) (fr_address x + p) 4.
Proof.
  intros Hlay Hx [Hlen Hout]. split; [by apply (image_length_insert _ _ x)|]. intros j Hj.
  rewrite (Hlay n x Hx) in Hj. rewrite (image_split fs n x Hx).
  rewrite (image_split _ n (with_bytes x l)) by (apply list_lookup_insert_eq; by eapply lookup_lt_Some).
  rewrite take_insert_ge, drop_insert_lt by lia. cbn [fr_literal with_bytes].
  set (a := image (take n fs)) in *. specialize (Hout (j - Z.of_nat (length a))).
  unfold rd in *. destruct (Z.leb_spec 0 j); [|done].
  destruct (decide (Z.to_nat j < length a)%nat).
  { by rewrite !lookup_app_l by lia. }
  rewrite !(lookup_app_r a) by lia.
  rewrite (proj2 (Z.leb_le 0 _)) in Hout by lia.
  replace (Z.to_nat (j - Z.of_nat (length a))) with (Z.to_nat j - length a)%nat in Hout by lia.
  destruct (decide (Z.to_nat j - length a < length l)%nat).
  - rewrite !lookup_app_l by lia. apply Hout. lia.
  - rewrite !lookup_app_r by lia. by rewrite Hlen.
Qed.

(** ** The passes over the fixups *)

Lemma fix_loop_step (body : fixS -> M fixS) (pre rest : list fixS) (f f' : fixS) (n : nat) (g g1 : gas) :
  fixes g = pre ++ f :: rest -> body f g = Ret (f', g1) -> fixes g1 = fixes g ->
  fix_loop body (S n) (length pre) g
  = fix_loop body n (length (pre ++ [f'])) (set_fixes ((pre ++ [f']) ++ rest) g1).
Proof.
  intros Hg Hb Hg1. cbn [fix_loop]. erewrite mbind_ret; [|by rewrite Hg, list_lookup_middle].
  pnext Hb. erewrite mbind_ret; [|reflexivity].
  rewrite length_app, Hg1, Hg, insert_app_r_alt, Nat.sub_diag by lia. cbn.
  by rewrite <- app_assoc, Nat.add_1_r.
Qed.

(** A reference: a fixup, the label it names, the frag it lies in with its
    number, and the instruction it is for. *)
Record ref : Type := mk_ref {
  rf_fix : fixS;
  rf_sym : symbolS;
  rf_index : nat;
  rf_frag : frag;
  rf_insn : insn
}.

Definition place (r : ref) : Z := fr_address (rf_frag r) + fx_where (rf_fix r).

(** The two words do not overlap. *)
Definition places_apart (r1 r2 : ref) : Prop := place r1 + 4 <= place r2 \/ place r2 + 4 <= place r1.

Section object.
  Context {symtab : SymTab} {tab : WriteTab}.

Definition rf_value (r : ref) : Z := u64 (fx_offset (rf_fix r) + S_GET_VALUE (rf_sym r)).
Definition rf_section (r : ref) : symbolS := section_symbol (S_GET_SEGMENT (rf_sym r)).

(** The fixup after [adjust_reloc_syms], and after [fixup_segment]. *)
Definition reduced (r : ref) : fixS :=
  redirect (Some (rf_section r)) (S_GET_VALUE (rf_sym r)) (rf_fix r).
Definition valued (r : ref) : fixS := set_addnumber (rf_value r) (reduced r).

(** A reference to a local label, with a fixup as [append_insn] makes it. *)
Record local_ref (r : ref) : Prop := {
  lr_open : fx_done (rf_fix r) = false /\ fx_addsy (rf_fix r) = Some (rf_sym r)
            /\ fx_subsy (rf_fix r) = None /\ fx_pcrel (rf_fix r) = false /\ fx_size (rf_fix r) = 4;
  lr_label : local_label (rf_sym r);
  lr_section : section_sym_ok (rf_section r) (S_GET_SEGMENT (rf_sym r));
  lr_frag : fx_frag (rf_fix r) = Some (rf_index r);
  lr_room : 0 <= fx_where (rf_fix r) /\ fx_where (rf_fix r) + 4 <= fr_fix (rf_frag r)
            /\ fx_where (rf_fix r) + 4 <= Z.of_nat (length (fr_literal (rf_frag r)))
            /\ 0 <= fr_address (rf_frag r);
  lr_field : field_of (fx_r_type (rf_fix r)) (rf_insn r) = true;
  lr_near : entry_near (fx_r_type (rf_fix r)) (rf_frag r) (rf_value r)
}.

(** In [g], the place of the reference still holds its instruction, with some
    immediate. *)
Definition holds (g : gas) (r : ref) : Prop :=
  exists x w imm, frags g !! rf_index r = Some x /\ rewritten (rf_frag r) x
    /\ bfd_get_32 (image (frags g)) (place r) = Ret w /\ decode w = with_imm (rf_insn r) imm.

(** The frags are where their addresses say and hold bytes. *)
Definition image_ok (g : gas) : Prop := laid_out (frags g) /\ bytes_ok (image (frags g)).

Lemma field_mask_some (r : bfd_reloc_code_real) (i : insn) :
  field_of r i = true -> exists m, field_mask r = Some m.
Proof. destruct r; try done; eauto. Qed.

Lemma with_imm_trans (i i' : insn) (a b : Z) :
  with_imm i a = Some i' -> with_imm i' b = with_imm i b.
Proof. destruct i; try done; by intros [= <-]. Qed.

Lemma with_imm_some (r : bfd_reloc_code_real) (i : insn) (a : Z) :
  field_of r i = true -> exists i', with_imm i a = Some i' /\ field_of r i' = true.
Proof. destruct r, i; try done; cbn; eauto. Qed.

Lemma reduced_symbolic (r : ref) : local_ref r -> symbolic (reduced r) (rf_section r).
Proof.
  intros [(H1 & H2 & H3 & H4 & H5) [_ _ _ [k Hk] _] [Hs _ _ _ _] _ _ _ _].
  split_and!; try done. rewrite Hs, Hk. done.
Qed.

Lemma reduced_value (r : ref) : local_ref r -> sym_value (reduced r) (rf_section r) = rf_value r.
Proof.
  intros [_ [_ _ _ [k Hk] _] [Hs Hv _ _ _] _ _ _ _]. unfold sym_value. rewrite Hs, Hk, Hv. cbn.
  rewrite Z.add_0_r. apply u64_small, u64_range.
Qed.

Lemma adjust_ref (this : segT) (r : ref) (g : gas) :
  local_ref r -> adjust_one this (rf_fix r) g = Ret (reduced r, g).
Proof. intros [(H1 & H2 & _) Hl _ _ _ _ _]. by apply adjust_local. Qed.

Lemma holds_apart (g g' : gas) (r r' : ref) (n : nat) (x : frag) (l : list Z) :
  holds g r' -> places_apart r r' -> frags g' = <[n := with_bytes x l]> (frags g) ->
  frags g !! n = Some x -> length l = length (fr_literal x) ->
  same_outside (image (frags g)) (image (frags g')) (place r) 4 -> holds g' r'.
Proof.
  intros (x' & w & imm & Hx' & Hrw & Hw & Hd) Hap Hf Hx Hl Ho.
  assert (exists x2, frags g' !! rf_index r' = Some x2 /\ rewritten x' x2) as (x2 & Hx2 & Hrw2).
  { rewrite Hf. destruct (decide (n = rf_index r')) as [->|Hne].
    - rewrite list_lookup_insert_eq by (by eapply lookup_lt_Some).
      assert (x' = x) as -> by congruence. eexists. split; [reflexivity|]. by exists l.
    - rewrite list_lookup_insert_ne by done. exists x'. split; [done|apply rewritten_refl]. }
  exists x2, w, imm. split; [done|]. split; [by eapply rewritten_trans|]. split; [|done].
  rewrite <- Hw. eapply get_32_outside; [exact Ho|]. unfold places_apart in Hap. lia.
Qed.

Lemma fixup_ref (this : segT) (r : ref) (g : gas) :
  local_ref r -> holds g r -> image_ok g ->
  exists g', fixup_one (reduced r) this g = Ret (valued r, g') /\ fixes g' = fixes g
    /\ image_ok g' /\ holds g' r
    /\ same_outside (image (frags g)) (image (frags g')) (place r) 4
    /\ (forall r', holds g r' -> places_apart r r' -> holds g' r')
    /\ (quiet (reduced r) (rf_section r) (rf_frag r) -> log g' = log g).
Proof.
  intros Hr (x & w & imm & Hx & (l0 & -> & Hl0) & Hw & Hd) [Hlay Hok].
  pose proof (reduced_symbolic r Hr) as Hsym. pose proof (reduced_value r Hr) as Hval.
  destruct (field_mask_some _ _ (lr_field r Hr)) as [m Hm].
  destruct (lr_room r Hr) as (R1 & R2 & R3 & R4).
  set (x := with_bytes (rf_frag r) l0) in *.
  assert (Hin : fix_in g (reduced r) (rf_index r) x).
  { split; [exact (lr_frag r Hr)|exact Hx|exact R1| |exact (image_bytes _ _ _ Hok Hx)]. cbn. lia. }
  assert (Hwx : bfd_getb32 (fr_literal x) (fx_where (reduced r)) = Ret w).
  { rewrite <- (image_get32 (frags g) (rf_index r) x) by (done || (cbn; lia)). exact Hw. }
  destruct (fixup_puts (reduced r) (rf_section r) this g (rf_index r) x w m Hsym Hm Hin Hwx)
    as (b & l & g' & Hb & E & [Hf Hfx] & Hg & Ho & Hlok & Hq).
  rewrite Hval in E. fold (valued r) in E.
  assert (Hlay' : laid_out (frags g')).
  { rewrite Hf. by apply (laid_out_insert _ _ x); [| | |apply Ho]. }
  assert (Himg : same_outside (image (frags g)) (image (frags g')) (place r) 4).
  { rewrite Hf. by apply (image_insert_outside _ _ x). }
  exists g'. split; [exact E|]. split; [exact Hfx|]. split.
  { split; [done|]. rewrite Hf. by apply image_insert_bytes. }
  split; [|split; [exact Himg|split; [|exact Hq]]].
  - destruct (with_imm_some _ _ imm (lr_field r Hr)) as (i & Hi & Hfi). rewrite Hi in Hd.
    destruct (bfd_get_32_ret (fr_literal x) (fx_where (reduced r)) (fi_lo _ _ _ _ Hin)
      (fi_hi _ _ _ _ Hin) (fi_bytes _ _ _ _ Hin)) as (w' & Hw' & Hrange).
    assert (w' = w) as -> by (unfold bfd_get_32 in Hw'; congruence).
    destruct (or_field _ m b w i Hm Hfi Hrange Hb Hd) as (imm' & i' & Hi' & Hd').
    exists (with_bytes x l), (u32 (Z.lor b w)), imm'. split.
    { rewrite Hf. apply list_lookup_insert_eq. by eapply lookup_lt_Some. }
    split; [exists l; split; [done|]; rewrite (proj1 Ho); exact Hl0|]. split.
    + change (place r) with (fr_address (with_bytes x l) + fx_where (reduced r)).
      rewrite (image_get32 (frags g') (rf_index r) (with_bytes x l)); [exact Hg|done| |exact R1|].
      * rewrite Hf. apply list_lookup_insert_eq. by eapply lookup_lt_Some.
      * cbn. rewrite (proj1 Ho). cbn. cbn in Hin. lia.
    + by rewrite Hd', <- Hi', (with_imm_trans _ _ _ _ Hi).
  - intros r' Hh Hap. by eapply (holds_apart g g' r r' _ x l); [| | | |apply Ho|].
Qed.

(** ** The three passes *)

(** References at different positions are apart. *)
Definition separate (rs : list ref) : Prop :=
  forall i j r1 r2, i <> j -> rs !! i = Some r1 -> rs !! j = Some r2 -> places_apart r1 r2.

(** [j] is in none of the places. *)
Definition untouched (rs : list ref) (j : Z) : Prop :=
  Forall (fun r => ~ (place r <= j < place r + 4)) rs.

Lemma adjust_pass (this : segT) (pre : list fixS) (rs : list ref) (g : gas) :
  Forall local_ref rs -> fixes g = pre ++ (rf_fix <$> rs) ->
  fix_loop (adjust_one this) (length rs) (length pre) g
  = Ret (tt, set_fixes (pre ++ (reduced <$> rs)) g).
Proof.
  intros Hr. revert pre g. induction Hr as [|r rs Hr _ IH]; intros pre g Hg.
  { cbn. unfold mret, M_ret. cbn in Hg. rewrite <- Hg. by destruct g. }
  change (length (r :: rs)) with (S (length rs)).
  rewrite (fix_loop_step _ pre _ _ _ _ g g Hg (adjust_ref this r g Hr) eq_refl).
  rewrite (IH (pre ++ [reduced r])) by done. cbn. by rewrite <- !app_assoc.
Qed.

Lemma holds_all (g g' : gas) (pre rest : list ref) (r : ref) :
  separate (pre ++ r :: rest) -> Forall (holds g) (pre ++ r :: rest) -> holds g' r ->
  (forall r', holds g r' -> places_apart r r' -> holds g' r') -> Forall (holds g') (pre ++ r :: rest).
Proof.
  intros Hsep Hh Hr Hap. apply Forall_lookup. intros i r' Hi.
  assert (Hm : (pre ++ r :: rest) !! length pre = Some r) by by apply list_lookup_middle.
  destruct (decide (length pre = i)) as [<-|Hne]; [by assert (r' = r) as -> by congruence|].
  apply Hap; [by eapply Forall_lookup_1|]. by eapply (Hsep (length pre) i).
Qed.

Lemma fixup_pass (this : segT) (pre rs : list ref) (g : gas) :
  Forall local_ref rs -> separate (pre ++ rs) -> fixes g = (valued <$> pre) ++ (reduced <$> rs) ->
  image_ok g -> Forall (holds g) (pre ++ rs) ->
  exists g', fix_loop (fun f => fixup_one f this) (length rs) (length pre) g = Ret (tt, g')
    /\ fixes g' = valued <$> (pre ++ rs) /\ image_ok g' /\ Forall (holds g') (pre ++ rs)
    /\ length (image (frags g')) = length (image (frags g))
    /\ (forall j, untouched rs j -> rd (image (frags g')) j = rd (image (frags g)) j)
    /\ (Forall (fun r => quiet (reduced r) (rf_section r) (rf_frag r)) rs -> log g' = log g).
Proof.
  intros Hr. revert pre g. induction Hr as [|r rs Hr _ IH]; intros pre g Hsep Hg Hok Hh.
  { exists g. cbn in Hg. rewrite app_nil_r in *. split_and!; done. }
  destruct (fixup_ref this r g Hr) as (g1 & E & Hf1 & Hok1 & Hh1 & [Hl1 Ho1] & Hap & Hq1); [|done|].
  { eapply Forall_lookup_1; [exact Hh|]. by apply (list_lookup_middle pre rs r (length pre)). }
  pose proof (holds_all g g1 pre rs r Hsep Hh Hh1 Hap) as Hh2.
  assert (Eap : pre ++ r :: rs = (pre ++ [r]) ++ rs) by by rewrite <- app_assoc.
  rewrite Eap in Hsep, Hh2 |- *.
  set (g2 := set_fixes (((valued <$> pre) ++ [valued r]) ++ (reduced <$> rs)) g1).
  destruct (IH (pre ++ [r]) g2 Hsep) as (g' & E' & Hf' & Hok' & Hh' & Hl' & Ho' & Hq').
  { cbn. by rewrite fmap_app. }
  { exact Hok1. }
  { exact Hh2. }
  exists g'. split; [|split; [exact Hf'|split; [exact Hok'|split; [exact Hh'|split; [|split]]]]].
  - change (length (r :: rs)) with (S (length rs)).
    rewrite <- (length_fmap valued pre), (fix_loop_step _ _ _ (reduced r) (valued r) _ g g1 Hg E Hf1)
      by done.
    rewrite <- E'. rewrite !length_app, !length_fmap. reflexivity.
  - rewrite Hl'. exact Hl1.
  - intros j [Hj Hjs]%Forall_cons. rewrite Ho' by done. by apply Ho1.
  - intros [Hq Hqs]%Forall_cons. rewrite Hq' by done. by apply Hq1.
Qed.

(** The relocation entry of a reference. *)
Definition entry_of (r : ref) (e : arelent) : Prop :=
  exists h, howto_of e = Some h /\ type h = link_type (fx_r_type (rf_fix r)) /\ address e = place r
    /\ addend e = entry_addend (fx_r_type (rf_fix r)) (rf_frag r) (rf_value r)
    /\ BfdReloc.sym e = sd_bfdsym (detail (rf_section r)).

Lemma place_bounds (g : gas) (r : ref) :
  local_ref r -> laid_out (frags g) -> holds g r ->
  0 <= place r /\ place r + 4 <= Z.of_nat (length (image (frags g))).
Proof.
  intros Hr Hlay (x & _ & _ & Hx & (l & -> & Hl) & _). destruct (lr_room r Hr) as (R1 & R2 & R3 & R4).
  pose proof (Hlay _ _ Hx) as Ha. cbn in Ha. rewrite (image_split _ _ _ Hx), !length_app. cbn.
  unfold place. lia.
Qed.

Lemma write_ref (stdoutput : bfd) (sec : asection) (r : ref) (g : gas) :
  local_ref r -> laid_out (frags g) -> holds g r ->
  object_section stdoutput sec (Z.of_nat (length (image (frags g)))) ->
  exists e, write_one stdoutput sec (valued r) g = Ret (Some e, g) /\ entry_of r e.
Proof.
  intros Hr Hlay Hh Hos. destruct (place_bounds g r Hr Hlay Hh) as [_ Hp].
  destruct Hh as (x & _ & _ & Hx & (l & -> & Hl) & _).
  destruct (lr_room r Hr) as (R1 & R2 & R3 & R4). destruct (field_mask_some _ _ (lr_field r Hr)) as [m Hm].
  destruct (lr_open r Hr) as (O1 & _ & _ & _ & O5).
  destruct (write_followed stdoutput sec _ (valued r) (rf_section r) _ g (rf_index r) _ m Hos
              (lr_section r Hr) O1 eq_refl Hm O5 (lr_frag r Hr) Hx R4 R1 R2 Hp (u64_range _) (lr_near r Hr))
    as (h & e & E & He). exists e. split; [exact E|]. by exists h.
Qed.

Lemma write_pass (stdoutput : bfd) (sec : asection) (rs : list ref) (g : gas) :
  Forall local_ref rs -> laid_out (frags g) -> Forall (holds g) rs ->
  object_section stdoutput sec (Z.of_nat (length (image (frags g)))) ->
  exists es, write_relocs_of stdoutput sec (valued <$> rs) g = Ret (es, g) /\ Forall2 entry_of rs es.
Proof.
  intros Hr Hlay Hh Hos. induction Hr as [|r rs Hr _ IH]; [by exists []|].
  apply Forall_cons in Hh as [Hh Hhs]. destruct (IH Hhs) as (es & E & He).
  destruct (write_ref stdoutput sec r g Hr Hlay Hh Hos) as (e & E1 & He1).
  exists (e :: es). split; [|by constructor].
  rewrite fmap_cons. cbn [write_relocs_of]. pnext E1. pnext E. reflexivity.
Qed.

(** What [write_object_file] does to one section's fixups: the three calls of
    [bfd_map_over_sections], lines 2036, 2045 and 2204.  [fix_segment] only calls
    [fixup_segment]. *)
Definition section_relocs (stdoutput : bfd) (sec : asection) (this : segT) : M (list arelent) :=
  _ ← adjust_reloc_syms this; _ ← fixup_segment this; write_relocs stdoutput sec.

Lemma section_relocs_ok (stdoutput : bfd) (sec : asection) (this : segT) (rs : list ref) (g : gas) :
  Forall local_ref rs -> separate rs -> fixes g = rf_fix <$> rs -> image_ok g -> Forall (holds g) rs ->
  object_section stdoutput sec (Z.of_nat (length (image (frags g)))) ->
  exists es g', section_relocs stdoutput sec this g = Ret (es, g') /\ Forall2 entry_of rs es
    /\ image_ok g' /\ Forall (holds g') rs
    /\ length (image (frags g')) = length (image (frags g))
    /\ (forall j, untouched rs j -> rd (image (frags g')) j = rd (image (frags g)) j)
    /\ (Forall (fun r => quiet (reduced r) (rf_section r) (rf_frag r)) rs -> log g' = log g).
Proof.
  intros Hr Hsep Hg Hok Hh Hos. set (g1 := set_fixes (reduced <$> rs) g).
  destruct (fixup_pass this [] rs g1 Hr Hsep eq_refl Hok Hh) as (g' & E & Hf & Hok' & Hh' & Hl & Ho & Hq).
  cbn [app] in *. destruct (write_pass stdoutput sec rs g' Hr (proj1 Hok') Hh') as (es & Ew & He).
  { by rewrite Hl. }
  exists es, g'. split; [|done]. unfold section_relocs.
  assert (Ea : adjust_reloc_syms this g = Ret (tt, g1)).
  { unfold adjust_reloc_syms, for_fixes. erewrite mbind_ret; [|reflexivity].
    rewrite Hg, length_fmap. exact (adjust_pass this [] rs g Hr Hg). }
  pnext Ea.
  assert (Ef : fixup_segment this g1 = Ret (tt, g')).
  { unfold fixup_segment, for_fixes. erewrite mbind_ret; [|reflexivity].
    cbn [g1 fixes set_fixes]. rewrite length_fmap. exact E. }
  pnext Ef. unfold write_relocs. erewrite mbind_ret; [|reflexivity]. by rewrite Hf.
Qed.

End object.

(** ** The link *)

(** The immediate a reference is linked to, when the label's section is placed at
    [base], the label plus the operand's offset is [target] in it, the frag is at
    [frag_at] of its own section, and the instruction is placed at [here]. *)
Definition linked_imm (r : bfd_reloc_code_real) (base target frag_at here : Z) : Z :=
  match r with
  | BFD_RELOC_16 => (base + target) mod 2 ^ 16
  | BFD_RELOC_FUSION_HI16 => (base + target) / 2 ^ 16 mod 2 ^ 16
  | _ => (base + frag_at + target - here) mod 2 ^ 14
  end.

(** The addend the linker reads back for the entry. *)
Definition read_addend (a : Z) : Z := u64 (sext 32 (u32 a)).

Lemma read_addend_mod (a : Z) : read_addend a mod 2 ^ 32 = a mod 2 ^ 32.
Proof.
  unfold read_addend. rewrite u64_sext_mod by lia. unfold u32. by rewrite Z.mod_mod.
Qed.

Lemma half_mod (x y : Z) :
  x mod 2 ^ 32 = y mod 2 ^ 32 ->
  x mod 2 ^ 16 = y mod 2 ^ 16 /\ x / 2 ^ 16 mod 2 ^ 16 = y / 2 ^ 16 mod 2 ^ 16
  /\ x mod 2 ^ 14 = y mod 2 ^ 14.
Proof. intros H. Z.to_euclidean_division_equations. lia. Qed.

Lemma mod_add_mod (a b c d m : Z) : 0 < m -> a mod m = b mod m -> c mod m = d mod m -> (a + c) mod m = (b + d) mod m.
Proof. intros Hm H1 H2. rewrite Z.add_mod, H1, H2, <- Z.add_mod by lia. done. Qed.

Lemma u64_mod32 (a : Z) : u64 a mod 2 ^ 32 = a mod 2 ^ 32.
Proof. wrap64. Qed.

Lemma reloc_insn_linked (r : bfd_reloc_code_real) (i i1 : insn) (x : frag) (imm base T P : Z) :
  field_of r i = true -> with_imm i imm = Some i1 ->
  reloc_insn (link_type r) (u64 base) (read_addend (entry_addend r x (u64 T))) P i1
  = with_imm i (linked_imm r base T (fr_address x) P).
Proof.
  intros Hf Hi. unfold entry_addend.
  destruct r; try done; destruct i; try done; injection Hi as <-.
  - rewrite decide_False by done. cbn [reloc_insn with_imm linked_imm link_type]. 
    change (R_FUSION_LI =? R_FUSION_LI) with true. cbn [orb]. do 2 f_equal.
    apply half_mod. apply mod_add_mod; [lia|apply u64_mod32|]. rewrite read_addend_mod. apply u64_mod32.
  - rewrite decide_False by done. cbn [reloc_insn with_imm linked_imm link_type].
    change (R_FUSION_LUI =? R_FUSION_LUI) with true. cbn. do 2 f_equal.
    apply half_mod. apply mod_add_mod; [lia|apply u64_mod32|]. rewrite read_addend_mod. apply u64_mod32.
  - rewrite decide_True by done. cbn [reloc_insn with_imm linked_imm link_type].
    change (R_FUSION_BRANCH =? R_FUSION_BRANCH) with true. do 2 f_equal.
    apply half_mod. rewrite <- !Z.add_opp_r, <- (Z.add_assoc base). apply mod_add_mod; [lia| |done].
    apply mod_add_mod; [lia|apply u64_mod32|].
    rewrite read_addend_mod, u64_mod32. apply mod_add_mod; [lia|done|apply u64_mod32].
Qed.

Section linked.
  Context {symtab : SymTab} {tab : WriteTab}.
  Context (merged_section_offset : lsec -> Z -> lsec * Z) (unwrap_hash_lookup : nat -> nat).
  Context (input_bfd : bfd) (info : bfd_link_info) (input : lsec) (sh_info sh_entsize : Z).
  Context (local_syms : list Elf_Internal_Sym) (local_sections : list lsec).
  Context (sym_hashes : option (list nat)) (hashes : list link_hash_entry).
  Context (sym_index : asymbol -> Z) (nsyms : Z).

#[local] Abbreviation good_target := (good merged_section_offset unwrap_hash_lookup info input sh_info
  local_syms local_sections sym_hashes hashes).

(** The label's section symbol is a local symbol of the file, of a section that
    the link keeps and places at [base]. *)
Definition linked_at (r : ref) (base : Z) : Prop :=
  exists k sy sec vma,
    reloc_symndx sym_index (sd_bfdsym (detail (rf_section r))) = Some k /\ k < sh_info
    /\ local_syms !! Z.to_nat k = Some sy /\ st_value sy = 0
    /\ local_sections !! Z.to_nat k = Some sec /\ flag_merge sec = false
    /\ discarded_section sec = false /\ output_vma (ls sec) = Some vma
    /\ base = vma + output_offset (ls sec).

(** The relocation read back, and what it resolves to. *)
Definition resolved (r : ref) (base : Z) (rel : Elf_Internal_Rela) (t : target) : Prop :=
  good_target rel t /\ tg_rel t = rel /\ r_offset rel = place r
  /\ ELF32_R_TYPE (r_info rel) = link_type (fx_r_type (rf_fix r)) /\ tg_value t = u64 base
  /\ r_addend rel = read_addend (entry_addend (fx_r_type (rf_fix r)) (rf_frag r) (rf_value r)).

Lemma link_type_range (r : bfd_reloc_code_real) : 0 <= link_type r < 256 /\ supported (link_type r) = true.
Proof. by destruct r. Qed.

Lemma r_type_info (n t : Z) : 0 <= t < 256 -> ELF32_R_TYPE (u32 (ELF32_R_INFO n t)) = t.
Proof.
  intros Ht. unfold ELF32_R_TYPE, ELF32_R_INFO, u32.
  change 255 with (Z.ones 8). rewrite !Z.land_ones, Z.shiftl_mul_pow2 by lia.
  Z.to_euclidean_division_equations. lia.
Qed.

Lemma ref_resolved (r : ref) (base : Z) (e : arelent) :
  sh_info <= nsyms <= 2 ^ 24 -> entry_of r e -> linked_at r base -> 0 <= place r < 2 ^ 32 ->
  exists rel t, writable sym_index nsyms e rel /\ resolved r base rel t.
Proof.
  intros Hn (h & Hh & Ht & Ha & Had & Hs) (k & sy & sec & vma & K1 & K2 & K3 & K4 & K5 & K6 & K7 & K8 & K9) Hp.
  pose proof (reloc_symndx_pos _ _ _ K1) as K0.
  set (rel := through_file k h e). rewrite <- Hs in K1.
  set (name := match st_name sy with Some n => n | None => sec_name (ls sec) end).
  destruct (link_type_range (fx_r_type (rf_fix r))) as [Hty Hsup].
  assert (Hr : ELF32_R_SYM (r_info rel) = k).
  { unfold rel, through_file. cbn [r_info]. rewrite <- u32_u64. apply r_sym_info. lia. }
  assert (Htype : ELF32_R_TYPE (r_info rel) = link_type (fx_r_type (rf_fix r))).
  { unfold rel, through_file. cbn [r_info]. rewrite Ht. by apply r_type_info. }
  exists rel, (mk_target (u64 base) (Some sec) name rel None). split; [exists h, k; split_and!; (done || lia)|].
  split; [|split; [done|split; [|split; [done|split; [done|]]]]].
  - split; [|done|exact K7|cbn [tg_rel]; by rewrite Htype|apply u64_range].
    unfold find_target. rewrite Hr, (proj2 (Z.ltb_lt k sh_info)), K3, K5 by done.
    unfold _bfd_elf_rela_local_sym, out_vma. rewrite K8. cbn [rbind]. rewrite K6, K4, Z.add_0_r, <- K9. done.
  - cbn. rewrite Ha. by apply u32_small.
  - cbn. by rewrite Had.
Qed.

(** The link's own section: [size] bytes, placed at [vma]. *)
Record input_section (size vma : Z) : Prop := {
  is_octets : bfd_octets_per_byte input_bfd = 1;
  is_vma : output_vma (ls input) = Some vma;
  is_limit : bfd_get_section_limit_octets input_bfd (ls input) = size;
  is_small : size <= 2 ^ 32
}.

Lemma placed_at (m : list Z) (off vma : Z) :
  input_section (Z.of_nat (length m)) vma -> bytes_ok m -> 0 <= off ->
  off + 4 <= Z.of_nat (length m) -> placed input_bfd (ls input) m off vma.
Proof. intros [H1 H2 H3 H4] Hm H0 Ho. split; try done. lia. Qed.

(** The relocations of the whole section. *)
Definition all_resolved (base : segT -> Z) (rs : list ref) (rels : list Elf_Internal_Rela)
    (ts : list target) : Prop :=
  Forall3 (fun r rel t => resolved r (base (S_GET_SEGMENT (rf_sym r))) rel t) rs rels ts.

Lemma refs_resolved (base : segT -> Z) (rs : list ref) (es : list arelent) :
  sh_info <= nsyms <= 2 ^ 24 -> Forall2 entry_of rs es ->
  Forall (fun r => linked_at r (base (S_GET_SEGMENT (rf_sym r)))) rs ->
  Forall (fun r => 0 <= place r < 2 ^ 32) rs ->
  exists rels ts, Forall2 (writable sym_index nsyms) es rels /\ all_resolved base rs rels ts.
Proof.
  intros Hn He Hl Hp. induction He as [|r e rs es He _ IH]; [exists [], []; by split; constructor|].
  apply Forall_cons in Hl as [Hl Hls]. apply Forall_cons in Hp as [Hp Hps].
  destruct (IH Hls Hps) as (rels & ts & H1 & H2).
  destruct (ref_resolved r _ e Hn He Hl Hp) as (rel & t & H3 & H4).
  exists (rel :: rels), (t :: ts). by split; constructor.
Qed.

Lemma all_resolved_good (base : segT -> Z) (rs : list ref) (rels : list Elf_Internal_Rela)
    (ts : list target) :
  all_resolved base rs rels ts ->
  Forall2 good_target rels ts /\ tg_rel <$> ts = rels
  /\ Forall2 (fun r t => tg_off t = place r) rs ts.
Proof.
  induction 1 as [|r rel t rs rels ts (G & R & O & _) _ (I1 & I2 & I3)]; [by split_and!; constructor|].
  split; [by constructor|]. split; [cbn; by rewrite R, I2|]. constructor; [|done].
  unfold tg_off. by rewrite R.
Qed.

Lemma targets_apart (rs : list ref) (ts : list target) :
  Forall2 (fun r t => tg_off t = place r) rs ts -> separate rs -> ForallOrdPairs apart ts.
Proof.
  induction 1 as [|r t rs ts Ht Hts IH]; intros Hsep; constructor.
  - apply List.Forall_forall. intros t' Ht'. apply list_elem_of_In, list_elem_of_lookup_1 in Ht' as [i Hi].
    destruct (Forall2_lookup_r _ _ _ _ _ Hts Hi) as (r' & Hr' & E).
    specialize (Hsep O (S i) r r'). unfold apart. rewrite Ht, E. apply Hsep; done.
  - apply IH. intros i j r1 r2 Hne H1 H2. apply (Hsep (S i) (S j)); [lia|done|done].
Qed.

(** The word the link leaves at one place. *)
Lemma resolved_word (base : segT -> Z) (r : ref) (rel : Elf_Internal_Rela) (t : target) (g : gas)
    (w vma : Z) :
  local_ref r -> holds g r -> resolved r (base (S_GET_SEGMENT (rf_sym r))) rel t ->
  bfd_get_32 (image (frags g)) (tg_off t) = Ret w -> 0 <= w < 2 ^ 32 ->
  decode (tg_patched input vma t w)
  = with_imm (rf_insn r) (linked_imm (fx_r_type (rf_fix r)) (base (S_GET_SEGMENT (rf_sym r)))
      (fx_offset (rf_fix r) + S_GET_VALUE (rf_sym r)) (fr_address (rf_frag r))
      (vma + output_offset (ls input) + place r)).
Proof.
  intros Hr (x & w0 & imm & _ & _ & Hw0 & Hd) (_ & R & O & T & V & A) Hw Hrange.
  unfold tg_off in *. rewrite R, O in Hw. assert (w0 = w) as -> by congruence.
  destruct (with_imm_some _ _ imm (lr_field r Hr)) as (i1 & Hi1 & _). rewrite Hi1 in Hd.
  destruct (with_imm_some _ _ (linked_imm (fx_r_type (rf_fix r)) (base (S_GET_SEGMENT (rf_sym r)))
      (fx_offset (rf_fix r) + S_GET_VALUE (rf_sym r)) (fr_address (rf_frag r))
      (vma + output_offset (ls input) + place r)) (lr_field r Hr)) as (i' & Hi' & _).
  rewrite Hi'. unfold tg_patched, tg_off. rewrite R, O, T, V, A.
  eapply patched_insn; [done|exact Hd|]. rewrite <- Hi'.
  apply (reloc_insn_linked _ _ _ _ imm); [exact (lr_field r Hr)|exact Hi1].
Qed.

Lemma link_resolved (base : segT -> Z) (rs : list ref) (rels : list Elf_Internal_Rela)
    (ts : list target) (g : gas) (out_size in_size vma : Z) :
  relocatable info = false -> Forall local_ref rs -> separate rs -> image_ok g ->
  Forall (holds g) rs -> all_resolved base rs rels ts ->
  input_section (Z.of_nat (length (image (frags g)))) vma ->
  exists m',
    fusion_elf_relocate_section merged_section_offset unwrap_hash_lookup input_bfd info input sh_info
      sh_entsize local_syms local_sections sym_hashes hashes (image (frags g)) out_size in_size rels
    = Ret (mk_lstate m' rels out_size in_size [], TRUE)
    /\ length m' = length (image (frags g))
    /\ (forall j, untouched rs j -> rd m' j = rd (image (frags g)) j)
    /\ Forall (fun r => exists w', bfd_get_32 m' (place r) = Ret w'
         /\ decode w' = with_imm (rf_insn r)
              (linked_imm (fx_r_type (rf_fix r)) (base (S_GET_SEGMENT (rf_sym r)))
                (fx_offset (rf_fix r) + S_GET_VALUE (rf_sym r)) (fr_address (rf_frag r))
                (vma + output_offset (ls input) + place r))) rs.
Proof.
  intros Hrel Hr Hsep [Hlay Hok] Hh Hres His.
  destruct (all_resolved_good base rs rels ts Hres) as (Hgood & Htg & Hoff).
  assert (Hpl : Forall (fun t => placed input_bfd (ls input) (image (frags g)) (tg_off t) vma) ts).
  { apply Forall_lookup. intros i t Ht. destruct (Forall2_lookup_r _ _ _ _ _ Hoff Ht) as (r & Hri & E).
    destruct (place_bounds g r) as [P1 P2]; [by eapply Forall_lookup_1|done|by eapply Forall_lookup_1|].
    rewrite E. by apply placed_at. }
  destruct (loop_good merged_section_offset unwrap_hash_lookup input_bfd info input sh_info sh_entsize
    local_syms local_sections sym_hashes hashes (mk_lstate (image (frags g)) [] out_size in_size [])
    rels ts vma Hrel Hgood Hpl) as (m' & E & Hlen & Hout & Hin).
  specialize (E []). rewrite app_nil_r in E. cbn in Hlen, Hout, Hin, E. rewrite Htg in E.
  exists m'. split; [exact E|]. split; [exact Hlen|]. split.
  - intros j Hj. apply Hout. apply Forall_lookup. intros i t Ht.
    destruct (Forall2_lookup_r _ _ _ _ _ Hoff Ht) as (r & Hri & ->). by eapply (Forall_lookup_1 _ _ _ _ Hj).
  - specialize (Hin (targets_apart rs ts Hoff Hsep)). apply Forall_lookup. intros i r Hri.
    destruct (Forall3_lookup_l _ _ _ _ _ _ Hres Hri) as (rel & t & Hreli & Hti & Hrt).
    destruct (Forall_lookup_1 _ _ _ _ Hin Hti) as (w & Hw & Hw').
    pose proof (Forall2_lookup_lr _ _ _ _ _ _ Hoff Hri Hti) as Ho. rewrite <- Ho.
    eexists. split; [exact Hw'|]. rewrite Ho.
    destruct (place_word _ _ _ _ _ (Forall_lookup_1 _ _ _ _ Hpl Hti)) as (w1 & Hw1 & Hrange).
    assert (w1 = w) as -> by congruence.
    eapply (resolved_word base r rel t g w vma); eauto; by eapply Forall_lookup_1.
Qed.

(** C4.  Local references survive the whole way.  For any section whose fixups are
    references to local labels, 16-bit immediates (low or high half of an
    address) and branches, in words that do not overlap, and an output where the
    label's section starts at [base]: assembling, writing and reading the
    relocation section, and linking all succeed without a callback; every
    instruction keeps its operation and registers and gets the immediate
    [linked_imm] says; no other byte of the section changes; and the assembler
    reports nothing when the values fit.  A half-word immediate is the half of
    the label's final address plus the operand's offset.  A branch's distance
    has the address of its frag added to it, so it is right in the section's
    first frag only, or where that address is a multiple of 2^14. *)
Theorem local_references_link (this : segT) (stdoutput : bfd) (sec : asection) (base : segT -> Z)
    (rs : list ref) (g : gas) (alloc : list Z) (out_size in_size vma : Z) :
  let size := Z.of_nat (length (image (frags g))) in
  Forall local_ref rs -> separate rs -> fixes g = rf_fix <$> rs -> image_ok g -> Forall (holds g) rs ->
  object_section stdoutput sec size -> bytes_ok alloc -> length alloc = (12 * length rs)%nat ->
  relocatable info = false -> sh_info <= nsyms <= 2 ^ 24 -> input_section size vma ->
  Forall (fun r => linked_at r (base (S_GET_SEGMENT (rf_sym r)))) rs ->
  exists es g' d rels m',
    section_relocs stdoutput sec this g = Ret (es, g')
    /\ elf_write_relocs sym_index true 0 es alloc = Ret (Some d)
    /\ elf_link_read_relocs_from_section SIZEOF_RELA nsyms d = Ret (Some rels)
    /\ fusion_elf_relocate_section merged_section_offset unwrap_hash_lookup input_bfd info input sh_info
         sh_entsize local_syms local_sections sym_hashes hashes (image (frags g')) out_size in_size rels
       = Ret (mk_lstate m' rels out_size in_size [], TRUE)
    /\ (forall j, untouched rs j -> rd m' j = rd (image (frags g)) j)
    /\ Forall (fun r => exists w', bfd_get_32 m' (place r) = Ret w'
         /\ decode w' = with_imm (rf_insn r)
              (linked_imm (fx_r_type (rf_fix r)) (base (S_GET_SEGMENT (rf_sym r)))
                (fx_offset (rf_fix r) + S_GET_VALUE (rf_sym r)) (fr_address (rf_frag r))
                (vma + output_offset (ls input) + place r))) rs
    /\ (Forall (fun r => quiet (reduced r) (rf_section r) (rf_frag r)) rs -> log g' = log g).
Proof.
  intros size Hr Hsep Hf Hok Hh Hos Ha Hla Hrel Hn His Hl.
  destruct (section_relocs_ok stdoutput sec this rs g Hr Hsep Hf Hok Hh Hos)
    as (es & g' & E & He & Hok' & Hh' & Hlen & Hout & Hq).
  unfold size in His. rewrite <- Hlen in His.
  assert (Hp : Forall (fun r => 0 <= place r < 2 ^ 32) rs).
  { apply Forall_lookup. intros i r Hi.
    destruct (place_bounds g' r) as [P1 P2]; [by eapply Forall_lookup_1|apply Hok'|by eapply Forall_lookup_1|].
    pose proof (is_small _ _ His). lia. }
  destruct (refs_resolved base rs es Hn He Hl Hp) as (rels & ts & Hw & Hres).
  destruct (file_roundtrip sym_index nsyms (proj2 Hn) es rels alloc Hw Ha) as (d & Ew & Er).
  { by rewrite Hla, (Forall2_length _ _ _ He). }
  destruct (link_resolved base rs rels ts g' out_size in_size vma Hrel Hr Hsep Hok' Hh' Hres His)
    as (m' & El & _ & Ho & Hi).
  exists es, g', d, rels, m'. split_and!; try done. intros j Hj. by rewrite Ho, Hout.
Qed.
End linked.

(** ** Witness *)

(** The label is 0x20 into the first section, whose symbol is [Sym 1]; nothing is
    equated, merged or thread-local. *)
Definition w_text_sec : asection := mk_section ".text" sec_normal 12 0 0 (Some 0).
Definition w_symtab : SymTab :=
  Build_SymTab (fun s => FusionFix.mk_sym (seg_normal 0) (if decide (s = Sym 1) then 0 else 0x20)
                           false false false) (Sym 2) true.
Definition w_expr : expressionS := mk_expr None None 0 O_constant.
Definition w_writetab : @WriteTab w_symtab :=
  Build_WriteTab w_symtab
    (fun s => mk_detail (mk_symbol 0 false (bool_decide (s = Sym 1)) w_text_sec) true false w_expr
                false (bool_decide (s = Sym 1)) true)
    (fun _ => Sym 1) (fun _ => false) (fun _ => false) (fun _ => false) 3.

(** [lui]/[li] of the label's address plus 0x50000, and in a second frag a branch
    to the label. *)
Definition w_frag0 : frag := mk_frag 0 8 0 0 rs_fill (be32 (encode (InsnLI 4 6 0)) ++ be32 (encode (InsnLI 0 6 0))).
Definition w_frag1 : frag := mk_frag 8 4 0 0 rs_fill (be32 (encode (InsnB 1 6 7 0))).
Definition w_fix (n : nat) (wh off : Z) (r : bfd_reloc_code_real) : fixS :=
  mk_fix false 0 false false false 4 (Some n) wh (Some (Sym 0)) None off 0 None r 0.
Definition w_refs : list ref :=
  [mk_ref (w_fix 0 0 0x50000 BFD_RELOC_FUSION_HI16) (Sym 0) 0 w_frag0 (InsnLI 4 6 0);
   mk_ref (w_fix 0 4 0x50000 BFD_RELOC_16) (Sym 0) 0 w_frag0 (InsnLI 0 6 0);
   mk_ref (w_fix 1 0 0 BFD_RELOC_FUSION_14_PCREL) (Sym 0) 1 w_frag1 (InsnB 1 6 7 0)].
Definition w_gas : gas :=
  set_fixes (rf_fix <$> w_refs) (set_frags [w_frag0; w_frag1] (frch_obstack demo_gas) demo_gas).

Lemma w_local : Forall (@local_ref w_symtab w_writetab) w_refs.
Proof.
  assert (Hl : @local_label w_symtab w_writetab (Sym 0)).
  { split; try done. by exists 0%nat. }
  assert (Hs : @section_sym_ok w_symtab w_writetab (Sym 1) (seg_normal 0)) by by split.
  repeat (apply Forall_cons; split); [..|done];
    (split; [done|exact Hl|exact Hs|done|split_and!; cbn; lia|done|
      intros Hr; (discriminate Hr || (vm_compute; reflexivity))]).
Qed.

Lemma w_separate : separate w_refs.
Proof.
  intros i j r1 r2 Hne H1 H2. unfold places_apart.
  destruct i as [|[|[|i]]], j as [|[|[|j]]]; cbn in H1, H2;
    try done; injection H1 as <-; injection H2 as <-; vm_compute; intuition congruence.
Qed.

Lemma w_image : image_ok w_gas.
Proof.
  split.
  - intros n x Hx. destruct n as [|[|n]]; cbn in Hx; simplify_eq; vm_compute; reflexivity.
  - repeat (apply Forall_cons; split); [..|done]; vm_compute; by split.
Qed.

Lemma w_holds : Forall (holds w_gas) w_refs.
Proof.
  repeat (apply Forall_cons; split); [..|done].
  all: eexists _, _, 0; (split; [reflexivity|]); (split; [apply rewritten_refl|]).
  all: (split; [vm_compute; reflexivity|]); vm_compute; reflexivity.
Qed.

Lemma w_linked :
  Forall (fun r => @linked_at w_symtab w_writetab 2 w_syms [w_sec; w_sec] (fun _ => 1) r 0x1010) w_refs.
Proof.
  repeat (apply Forall_cons; split); [..|done]; exists 1, (FusionLink.mk_sym None 0 3 1), w_sec, 0x1000;
    (split_and!; (reflexivity || lia)).
Qed.

(** [lui] and [li] hold 0x51030 = 0x1000 + 0x10 + 0x20 + 0x50000; the branch at
    0x1018 goes 0x20 bytes ahead, not the 0x18 to the label. *)
Lemma local_references_link_witness :
  exists es g' d rels m',
    @section_relocs w_symtab w_writetab demo_bfd w_text_sec (seg_normal 0) w_gas = Ret (es, g')
    /\ elf_write_relocs (fun _ => 1) true 0 es (replicate 36 0) = Ret (Some d)
    /\ elf_link_read_relocs_from_section SIZEOF_RELA 2 d = Ret (Some rels)
    /\ fusion_elf_relocate_section w_merge id demo_bfd w_info w_sec 2 12 w_syms [w_sec; w_sec] None []
         (image (frags g')) 36 36 rels = Ret (mk_lstate m' rels 36 36 [], TRUE)
    /\ (exists w, bfd_get_32 m' 0 = Ret w /\ decode w = Some (InsnLI 4 6 5))
    /\ (exists w, bfd_get_32 m' 4 = Ret w /\ decode w = Some (InsnLI 0 6 0x1030))
    /\ (exists w, bfd_get_32 m' 8 = Ret w /\ decode w = Some (InsnB 1 6 7 0x20))
    /\ log g' = [].
Proof.
  destruct (@local_references_link w_symtab w_writetab w_merge id demo_bfd w_info w_sec 2 12 w_syms
    [w_sec; w_sec] None [] (fun _ => 1) 2 (seg_normal 0) demo_bfd w_text_sec (fun _ => 0x1010) w_refs w_gas
    (replicate 36 0) 36 36 0x1000) as (es & g' & d & rels & m' & H1 & H2 & H3 & H4 & _ & H5 & H6).
  - exact w_local.
  - exact w_separate.
  - reflexivity.
  - exact w_image.
  - exact w_holds.
  - split; [reflexivity|by split|vm_compute; reflexivity|vm_compute; reflexivity].
  - repeat constructor; lia.
  - reflexivity.
  - reflexivity.
  - lia.
  - split; [reflexivity|reflexivity|vm_compute; reflexivity|vm_compute; congruence].
  - exact w_linked.
  - exists es, g', d, rels, m'. repeat (split; [assumption|]).
    apply Forall_cons in H5 as [P1 H5]. apply Forall_cons in H5 as [P2 H5]. apply Forall_cons in H5 as [P3 _].
    split; [exact P1|]. split; [exact P2|]. split; [exact P3|]. rewrite H6; [reflexivity|].
    repeat (apply Forall_cons; split); [..|done]; (split; [vm_compute; reflexivity|]); intros Hr;
      (discriminate Hr || (right; vm_compute; reflexivity)).
Defined.
