(* ===== verification/BfdHash.v ===== *)
(** * The linker's string hash table: bfd/hash.c

    A table is an array of chains of entries that doubles when it is three
    quarters full.  Entries begin with a [struct bfd_hash_entry] and are
    otherwise the client's ([Entry], [newfunc]); they live in a heap and are
    addressed by index, so that a client can hold on to one.  A chain is the
    list of the entries its [next] fields link.  A C string is the sequence of
    characters before its NUL.  The theorem says the table is a finite map from
    strings to entries; the interface a client of the table is proved against is
    the class [StringTable] at the end. *)
From Stdlib Require Import Sorting.Sorted.
From S2P Require Import Prelude.
#[local] Open Scope Z_scope.

(** What a structure that begins with a [struct bfd_hash_entry] is: its string
    and hash can be read and set. *)
Class Entry (E : Type) : Type := {
  string_of : E -> string;
  hash_of : E -> Z;
  set_root : string -> Z -> E -> E;
  string_of_set : forall s h e, string_of (set_root s h e) = s;
  hash_of_set : forall s h e, hash_of (set_root s h e) = h
}.

(** Whether the system has memory for an allocation of so many bytes. *)
Class Memory : Type := has_memory : Z -> bool.

(** ** Sizes *)

Definition DEFAULT_SIZE : Z := 4051.

Definition primes : list Z :=
  [31; 61; 127; 251; 509; 1021; 2039; 4093; 8191; 16381; 32749; 65521; 131071; 262139; 524287;
   1048573; 2097143; 4194301; 8388593; 16777213; 33554393; 67108859; 134217689; 268435399;
   536870909; 1073741789; 2147483647; 2147483647 + 2147483644].

(** [while (low != high)], over indices; the fuel is the number of primes. *)
Fixpoint prime_search (fuel : nat) (n : Z) (low high : nat) : res nat :=
  if (low =? high)%nat then Ret low
  else
    match fuel with
    | O => Fail Floop
    | S fuel' =>
        let mid := (low + (high - low) / 2)%nat in
        match primes !! mid with
        | None => Fail Foob
        | Some p => if p <=? n then prime_search fuel' n (S mid) high else prime_search fuel' n low mid
        end
    end.

(** [*low] is past the array when no prime is above [n]. *)
Definition higher_prime_number (n : Z) : res Z :=
  let! low := prime_search (length primes) n 0 (length primes) in
  match primes !! low with
  | None => Fail Foob
  | Some p => Ret (if p <=? n then 0 else p)
  end.

Definition hash_size_primes : list Z :=
  [31; 61; 127; 251; 509; 1021; 2039; 4091; 8191; 16381; 32749; 65537].

(** The loop stops at the last prime at the latest. *)
Fixpoint default_size_loop (hash_size : Z) (ps : list Z) : res Z :=
  match ps with
  | [] => Fail Foob
  | [p] => Ret p
  | p :: ps' => if hash_size <=? p then Ret p else default_size_loop hash_size ps'
  end.

Definition bfd_hash_set_default_size (hash_size : Z) : res Z :=
  default_size_loop hash_size hash_size_primes.

Lemma sorted_lookup (l : list Z) (i j : nat) (a b : Z) :
  StronglySorted Z.lt l -> l !! i = Some a -> l !! j = Some b -> (i < j)%nat -> a < b.
Proof.
  intros Hl. revert i j. induction Hl as [|x l Hl IH Hx]; intros i j Hi Hj Hij; [done|].
  destruct j as [|j]; [lia|]. cbn in Hj. destruct i as [|i]; cbn in Hi.
  - injection Hi as <-. by apply (Forall_lookup_1 _ _ _ _ Hx Hj).
  - apply (IH i j); [done|done|lia].
Qed.

Lemma primes_sorted : StronglySorted Z.lt primes.
Proof. unfold primes. repeat constructor. Qed.

(** The search keeps the primes below [low] at most [n] and those from [high] on
    above it. *)
Lemma prime_search_spec (fuel : nat) (n : Z) (low high : nat) :
  (high - low <= fuel)%nat -> (low <= high <= length primes)%nat ->
  (forall i p, primes !! i = Some p -> (i < low)%nat -> p <= n) ->
  (forall i p, primes !! i = Some p -> (high <= i)%nat -> n < p) ->
  exists r, prime_search fuel n low high = Ret r /\ (r <= length primes)%nat
    /\ forall i p, primes !! i = Some p -> (i < r)%nat <-> p <= n.
Proof.
  revert low high. induction fuel as [|fuel IH]; intros low high Hf Hr Hlo Hhi; cbn [prime_search].
  all: destruct (Nat.eqb_spec low high) as [->|Hne].
  1,3: exists high; split; [done|]; split; [lia|]; intros i p Hp; split;
    [by apply Hlo|]; intros Hle; apply Nat.lt_nge; intros Hge; specialize (Hhi i p Hp Hge); lia.
  { lia. }
  set (mid := (low + (high - low) / 2)%nat).
  assert (Hm : (low <= mid < high)%nat).
  { unfold mid. pose proof (Nat.div_lt (high - low) 2). lia. }
  destruct (lookup_lt_is_Some_2 primes mid) as [q Hq]; [lia|]. rewrite Hq.
  pose proof (fun i j a b => sorted_lookup primes i j a b primes_sorted) as Hs.
  destruct (Z.leb_spec q n); apply IH; try lia; try done.
  - intros i p Hp Hi. destruct (decide (i = mid)) as [->|Hne']; [congruence|].
    specialize (Hs i mid p q Hp Hq). lia.
  - intros i p Hp Hi. destruct (decide (i = mid)) as [->|Hne']; [congruence|].
    specialize (Hs mid i q p Hq Hp). lia.
Qed.

(** The next prime of the list, for every size a table of fewer than 2^30
    entries can have. *)
Lemma higher_prime_next (n : Z) :
  n < 2147483647 + 2147483644 ->
  exists i p, higher_prime_number n = Ret p /\ primes !! i = Some p /\ n < p
    /\ forall j q, primes !! j = Some q -> (j < i)%nat <-> q <= n.
Proof.
  intros Hn. unfold higher_prime_number.
  destruct (prime_search_spec (length primes) n 0 (length primes)) as (r & -> & Hr & Hspec);
    [lia|lia|lia| |].
  { intros i p Hp Hi. apply lookup_lt_Some in Hp. lia. }
  cbn [rbind]. destruct (lookup_lt_is_Some_2 primes r) as [p Hp].
  { specialize (Hspec 27%nat _ eq_refl). change (length primes) with 28%nat in *. lia. }
  rewrite Hp. pose proof (Hspec r p Hp). destruct (Z.leb_spec p n); [lia|]. by exists r, p.
Qed.

(** ** The hash function *)

(** [hash += c + (c << 17); hash ^= hash >> 2], the addend in 32 bits. *)
Definition hash_mix (hash c : Z) : Z :=
  let hash := u64 (hash + u32 (c + u32 (Z.shiftl c 17))) in
  Z.lxor hash (Z.shiftr hash 2).

Fixpoint hash_chars (string : string) (hash : Z) : Z :=
  match string with
  | EmptyString => hash
  | String c string' => hash_chars string' (hash_mix hash (Z.of_N (Ascii.N_of_ascii c)))
  end.

Definition bfd_hash_hash (string : string) : Z :=
  hash_mix (hash_chars string 0) (u32 (Z.of_nat (String.length string))).

(** ** The table *)
Record bfd_hash_table : Type := mk_table {
  table : list (list nat);
  size : Z;
  count : Z;
  frozen : bool
}.

Section hash.
  Context {E : Type} {entry : Entry E} {memory : Memory}.
  (** [table->newfunc (NULL, table, string)], before [bfd_hash_insert] sets
      its string and hash; [None] when there is no memory. *)
  Context (newfunc : string -> option E).

Definition SIZEOF_POINTER : Z := 8.

(** [None] for [FALSE]. *)
Definition bfd_hash_table_init_n (size : Z) : option bfd_hash_table :=
  let alloc := u64 (size * SIZEOF_POINTER) in
  if negb (alloc / SIZEOF_POINTER =? size) then None
  else if negb (has_memory alloc) then None
  else Some (mk_table (replicate (Z.to_nat size) []) size 0 false).

(** [bfd_hash_table_init], where [bfd_default_hash_table_size] is [default]. *)
Definition bfd_hash_table_init (default : Z) : option bfd_hash_table :=
  bfd_hash_table_init_n (u32 default).

Definition get_entry (heap : list E) (p : nat) : res E :=
  match heap !! p with Some e => Ret e | None => Fail Foob end.

(** [hash % table->size] *)
Definition index_of (t : bfd_hash_table) (hash : Z) : res nat :=
  if size t =? 0 then Fail Fdiv0 else Ret (Z.to_nat (u32 (hash mod size t))).

Definition get_chain (chains : list (list nat)) (i : nat) : res (list nat) :=
  match chains !! i with Some b => Ret b | None => Fail Foob end.

(** The search of one chain. *)
Fixpoint find_chain (heap : list E) (hash : Z) (string : string) (chain : list nat)
  : res (option nat) :=
  match chain with
  | [] => Ret None
  | hashp :: chain' =>
      let! e := get_entry heap hashp in
      if (hash_of e =? hash) && String.eqb (string_of e) string then Ret (Some hashp)
      else find_chain heap hash string chain'
  end.

(** ** Growing *)

(** The entries after [chain] with the same hash, and the rest. *)
Fixpoint take_run (heap : list E) (hash : Z) (l : list nat) : res (list nat * list nat) :=
  match l with
  | [] => Ret ([], [])
  | p :: l' =>
      let! e := get_entry heap p in
      if hash_of e =? hash then let! (run, rest) := take_run heap hash l' in Ret (p :: run, rest)
      else Ret ([], l)
  end.

(** [while (table->table[hi])]: runs of one hash go to the head of their new
    chain.  Every turn takes at least one entry off. *)
Fixpoint rehash_chain (fuel : nat) (heap : list E) (newsize : Z) (chain : list nat)
    (newtable : list (list nat)) : res (list (list nat)) :=
  match chain, fuel with
  | [], _ => Ret newtable
  | _ :: _, O => Fail Floop
  | p :: l, S fuel' =>
      let! e := get_entry heap p in
      let! (run, rest) := take_run heap (hash_of e) l in
      let i := Z.to_nat (u32 (hash_of e mod newsize)) in
      let! b := get_chain newtable i in
      rehash_chain fuel' heap newsize rest (<[i := (p :: run) ++ b]> newtable)
  end.

(** [for (hi = 0; hi < table->size; hi ++)] *)
Fixpoint rehash (heap : list E) (newsize : Z) (chains newtable : list (list nat))
  : res (list (list nat)) :=
  match chains with
  | [] => Ret newtable
  | chain :: chains' =>
      let! newtable := rehash_chain (length chain) heap newsize chain newtable in
      rehash heap newsize chains' newtable
  end.

Definition set_frozen (b : bool) (t : bfd_hash_table) : bfd_hash_table :=
  mk_table (table t) (size t) (count t) b.

(** The second half of [bfd_hash_insert]. *)
Definition grow (heap : list E) (t : bfd_hash_table) : res bfd_hash_table :=
  if negb (frozen t) && (u32 (size t * 3) / 4 <? count t) then
    let! newsize := higher_prime_number (size t) in
    let alloc := u64 (newsize * SIZEOF_POINTER) in
    if (newsize =? 0) || negb (alloc / SIZEOF_POINTER =? newsize) then Ret (set_frozen true t)
    else if negb (has_memory alloc) then Ret (set_frozen true t)
    else
      let! newtable := rehash heap newsize (table t) (replicate (Z.to_nat newsize) []) in
      Ret (mk_table newtable (u32 newsize) (count t) (frozen t))
  else Ret t.

(** ** The operations: the heap and the table afterwards, [None] for NULL. *)

Definition bfd_hash_insert (heap : list E) (t : bfd_hash_table) (string : string) (hash : Z)
  : res (option nat * list E * bfd_hash_table) :=
  match newfunc string with
  | None => Ret (None, heap, t)
  | Some e =>
      let hashp := length heap in
      let heap := heap ++ [set_root string hash e] in
      let! i := index_of t hash in
      let! b := get_chain (table t) i in
      let! t := grow heap (mk_table (<[i := hashp :: b]> (table t)) (size t) (u32 (count t + 1)) (frozen t)) in
      Ret (Some hashp, heap, t)
  end.

Definition bfd_hash_lookup (heap : list E) (t : bfd_hash_table) (string : string)
    (create copy : bool) : res (option nat * list E * bfd_hash_table) :=
  let hash := bfd_hash_hash string in
  let! i := index_of t hash in
  let! b := get_chain (table t) i in
  let! r := find_chain heap hash string b in
  match r with
  | Some hashp => Ret (Some hashp, heap, t)
  | None =>
      if negb create then Ret (None, heap, t)
      else if copy && negb (has_memory (u32 (u32 (Z.of_nat (String.length string)) + 1))) then Ret (None, heap, t)
      else bfd_hash_insert heap t string hash
  end.

(** [if ( *pph == old) { *pph = nw; return; }], the first place of [old].  The
    rest of the chain is [nw->next], which is [old->next]: the callers copy the
    entry first. *)
Fixpoint replace_chain (old nw : nat) (chain : list nat) : res (list nat) :=
  match chain with
  | [] => Fail Fabort
  | p :: chain' =>
      if decide (p = old) then Ret (nw :: chain')
      else let! chain' := replace_chain old nw chain' in Ret (p :: chain')
  end.

Definition bfd_hash_replace (heap : list E) (t : bfd_hash_table) (old nw : nat) : res bfd_hash_table :=
  let! e := get_entry heap old in
  let! i := index_of t (hash_of e) in
  let! b := get_chain (table t) i in
  let! b := replace_chain old nw b in
  Ret (mk_table (<[i := b]> (table t)) (size t) (count t) (frozen t)).

(** [*pph = ent->next] at the first place of [ent]. *)
Fixpoint unlink_chain (ent : nat) (chain : list nat) : res (list nat) :=
  match chain with
  | [] => Fail Fabort
  | p :: chain' =>
      if decide (p = ent) then Ret chain'
      else let! chain' := unlink_chain ent chain' in Ret (p :: chain')
  end.

Definition bfd_hash_rename (heap : list E) (t : bfd_hash_table) (string : string) (ent : nat)
  : res (list E * bfd_hash_table) :=
  let! e := get_entry heap ent in
  let! i := index_of t (hash_of e) in
  let! b := get_chain (table t) i in
  let! b := unlink_chain ent b in
  let t := mk_table (<[i := b]> (table t)) (size t) (count t) (frozen t) in
  let hash := bfd_hash_hash string in
  let heap := <[ent := set_root string hash e]> heap in
  let! i := index_of t hash in
  let! b := get_chain (table t) i in
  Ret (heap, mk_table (<[i := ent :: b]> (table t)) (size t) (count t) (frozen t)).

(** ** Traversal *)
Section traverse.
  (** [( *func) (p, info)]: what it returns, the heap and the info it leaves. *)
  Context {I : Type} (func : nat -> list E -> I -> res (bool * list E * I)).

Fixpoint traverse_chain (l : list nat) (heap : list E) (info : I) : res (bool * list E * I) :=
  match l with
  | [] => Ret (true, heap, info)
  | p :: l' =>
      let! (go, heap, info) := func p heap info in
      if go then traverse_chain l' heap info else Ret (false, heap, info)
  end.

Fixpoint traverse_table (chains : list (list nat)) (heap : list E) (info : I)
  : res (list E * I) :=
  match chains with
  | [] => Ret (heap, info)
  | l :: chains' =>
      let! (go, heap, info) := traverse_chain l heap info in
      if go then traverse_table chains' heap info else Ret (heap, info)
  end.

(** The table is frozen during the traversal and not afterwards. *)
Definition bfd_hash_traverse (heap : list E) (t : bfd_hash_table) (info : I)
  : res (list E * bfd_hash_table * I) :=
  let! (heap, info) := traverse_table (table t) heap info in
  Ret (heap, set_frozen false t, info).
End traverse.

(** ** A well-formed table *)

Definition members (t : bfd_hash_table) : list nat := concat (table t).

Definition slot (n hash : Z) : nat := Z.to_nat (hash mod n).

(** [n] chains, each entry in the chain of its hash. *)
Definition chains_ok (heap : list E) (n : Z) (chains : list (list nat)) : Prop :=
  length chains = Z.to_nat n
  /\ forall i b p, chains !! i = Some b -> p ∈ b ->
       exists e, heap !! p = Some e /\ i = slot n (hash_of e).

(** The table holds the map [m] from strings to entries. *)
Record holds (heap : list E) (t : bfd_hash_table) (m : gmap string nat) : Prop := {
  ho_size : 0 < size t <= 2 ^ 30;
  ho_chains : chains_ok heap (size t) (table t);
  ho_hash : forall p e, p ∈ members t -> heap !! p = Some e -> hash_of e = bfd_hash_hash (string_of e);
  ho_nodup : NoDup (members t);
  ho_count : count t = Z.of_nat (length (members t));
  ho_map : forall s p, m !! s = Some p <-> p ∈ members t /\ string_of <$> heap !! p = Some s
}.

Lemma slot_index (t : bfd_hash_table) (hash : Z) :
  0 < size t <= 2 ^ 30 -> index_of t hash = Ret (slot (size t) hash).
Proof.
  intros Hs. unfold index_of, slot. destruct (Z.eqb_spec (size t) 0); [lia|].
  rewrite u32_small; [done|]. pose proof (Z.mod_pos_bound hash (size t)). lia.
Qed.

Lemma slot_bound (n hash : Z) : 0 < n -> (slot n hash < Z.to_nat n)%nat.
Proof. intros Hn. unfold slot. pose proof (Z.mod_pos_bound hash n). lia. Qed.

Lemma chain_at (heap : list E) (n hash : Z) (chains : list (list nat)) :
  0 < n -> chains_ok heap n chains -> exists b, chains !! slot n hash = Some b.
Proof. intros Hn [Hl _]. apply lookup_lt_is_Some_2. rewrite Hl. by apply slot_bound. Qed.

Lemma member_entry (heap : list E) (n : Z) (chains : list (list nat)) (p : nat) :
  chains_ok heap n chains -> p ∈ concat chains -> exists e, heap !! p = Some e.
Proof. intros [_ H] (i & b & Hi & Hp)%elem_of_concat. destruct (H i b p Hi Hp) as (e & He & _). eauto. Qed.

Lemma get_chain_ret (chains : list (list nat)) (i : nat) (b : list nat) :
  chains !! i = Some b -> get_chain chains i = Ret b.
Proof. unfold get_chain. by intros ->. Qed.

Lemma get_entry_ret (heap : list E) (p : nat) (e : E) : heap !! p = Some e -> get_entry heap p = Ret e.
Proof. unfold get_entry. by intros ->. Qed.

(** Changing one chain for another with entries of that slot. *)
Lemma chains_ok_insert (heap : list E) (n : Z) (chains : list (list nat)) (i : nat) (b' : list nat) :
  chains_ok heap n chains ->
  (forall p, p ∈ b' -> exists e, heap !! p = Some e /\ i = slot n (hash_of e)) ->
  chains_ok heap n (<[i := b']> chains).
Proof.
  intros [Hl Hc] Hb. split; [by rewrite length_insert|]. intros j b p Hj Hp.
  apply list_lookup_insert_Some in Hj as [(-> & -> & _)|[_ Hj]]; [by apply Hb|by eapply Hc].
Qed.

(** ** Searching *)

Lemma find_chain_spec (heap : list E) (s : string) (b : list nat) :
  (forall p, p ∈ b -> exists e, heap !! p = Some e /\ hash_of e = bfd_hash_hash (string_of e)) ->
  exists r, find_chain heap (bfd_hash_hash s) s b = Ret r
    /\ match r with
       | Some p => p ∈ b /\ string_of <$> heap !! p = Some s
       | None => forall p, p ∈ b -> string_of <$> heap !! p <> Some s
       end.
Proof.
  induction b as [|p b IH]; intros Hb.
  { exists None. split; [done|]. intros p Hp. set_solver. }
  destruct (Hb p) as (e & He & Hh); [set_solver|]. cbn [find_chain].
  rewrite (get_entry_ret _ _ _ He). cbn [rbind].
  destruct (String.eqb_spec (string_of e) s) as [Hs|Hs].
  - rewrite Hh, Hs, Z.eqb_refl. exists (Some p). split; [done|]. split; [set_solver|]. by rewrite He, <- Hs.
  - rewrite andb_false_r. destruct IH as (r & Er & Hr); [intros q Hq; apply Hb; set_solver|].
    exists r. split; [done|]. destruct r as [q|].
    + split; [set_solver|apply Hr].
    + intros q [->|Hq]%elem_of_cons; [|by apply Hr]. rewrite He. cbn. congruence.
Qed.

Lemma holds_search (heap : list E) (t : bfd_hash_table) (m : gmap string nat) (s : string) :
  holds heap t m ->
  exists b, table t !! slot (size t) (bfd_hash_hash s) = Some b
    /\ find_chain heap (bfd_hash_hash s) s b = Ret (m !! s).
Proof.
  intros [Hsz Hch Hhash Hnd Hct Hmap].
  destruct (chain_at heap (size t) (bfd_hash_hash s) (table t)) as [b Hb]; [lia|done|].
  exists b. split; [done|].
  assert (Hin : forall p, p ∈ b -> p ∈ members t) by (intros p Hp; apply elem_of_concat; eauto).
  destruct (find_chain_spec heap s b) as (r & -> & Hr).
  { intros p Hp. destruct (member_entry heap _ _ p Hch (Hin p Hp)) as [e He].
    exists e. split; [done|]. apply (Hhash p); auto. }
  f_equal. destruct r as [p|].
  - symmetry. apply Hmap. split; [apply Hin|]; apply Hr.
  - destruct (m !! s) as [p|] eqn:Hm; [|done]. exfalso.
    apply Hmap in Hm as [Hp Hs]. pose proof Hp as (i & b' & Hi & Hp')%elem_of_concat.
    destruct (proj2 Hch i b' p Hi Hp') as (e & He & Hslot).
    assert (Hse : string_of e = s) by (rewrite He in Hs; cbn in Hs; congruence).
    rewrite (Hhash p e Hp He), Hse in Hslot. subst i.
    assert (b' = b) as -> by congruence. by apply (Hr p).
Qed.

(** ** Growing keeps the table *)

Lemma take_run_spec (heap : list E) (h : Z) (l : list nat) :
  (forall p, p ∈ l -> exists e, heap !! p = Some e) ->
  exists run rest, take_run heap h l = Ret (run, rest) /\ l = run ++ rest
    /\ forall p, p ∈ run -> exists e, heap !! p = Some e /\ hash_of e = h.
Proof.
  induction l as [|p l IH]; intros Hl; cbn [take_run].
  { exists [], []. split; [done|]. split; [done|]. intros p Hp. set_solver. }
  destruct (Hl p) as [e He]; [set_solver|]. rewrite (get_entry_ret _ _ _ He). cbn [rbind].
  destruct (Z.eqb_spec (hash_of e) h) as [Hh|Hh].
  - destruct IH as (run & rest & -> & -> & Hrun); [intros q Hq; apply Hl; set_solver|].
    exists (p :: run), rest. split; [done|]. split; [done|].
    intros q [->|Hq]%elem_of_cons; [by exists e|by apply Hrun].
  - exists [], (p :: l). split; [done|]. split; [done|]. intros q Hq. set_solver.
Qed.

Lemma rehash_chain_spec (heap : list E) (n : Z) (fuel : nat) (chain : list nat)
    (nt : list (list nat)) :
  0 < n < 2 ^ 32 -> (length chain <= fuel)%nat -> chains_ok heap n nt ->
  (forall p, p ∈ chain -> exists e, heap !! p = Some e) ->
  exists nt', rehash_chain fuel heap n chain nt = Ret nt' /\ chains_ok heap n nt'
    /\ Permutation (concat nt') (chain ++ concat nt).
Proof.
  intros Hn. revert chain nt. induction fuel as [|fuel IH]; intros chain nt Hf Hok Hc.
  { destruct chain; [|cbn in Hf; lia]. by exists nt. }
  destruct chain as [|p l]; [by exists nt|]. cbn [rehash_chain].
  destruct (Hc p) as [e He]; [set_solver|]. rewrite (get_entry_ret _ _ _ He). cbn [rbind].
  destruct (take_run_spec heap (hash_of e) l) as (run & rest & -> & -> & Hrun); [intros q Hq; apply Hc; set_solver|].
  cbn [rbind]. rewrite u32_small by (pose proof (Z.mod_pos_bound (hash_of e) n); lia).
  change (Z.to_nat (hash_of e mod n)) with (slot n (hash_of e)).
  destruct (chain_at heap n (hash_of e) nt) as [b Hb]; [lia|done|].
  rewrite (get_chain_ret _ _ _ Hb). cbn [rbind].
  destruct (IH rest (<[slot n (hash_of e) := (p :: run) ++ b]> nt)) as (nt' & E' & Hok' & Hp').
  - cbn in Hf. rewrite length_app in Hf. lia.
  - apply chains_ok_insert; [done|]. intros q [Hq|Hq]%elem_of_app.
    + apply elem_of_cons in Hq as [->|Hq]; [by exists e|].
      destruct (Hrun q Hq) as (e' & He' & <-). by exists e'.
    + by apply (proj2 Hok _ b).
  - intros q Hq. apply Hc. set_solver.
  - exists nt'. split; [exact E'|]. split; [done|]. rewrite Hp'.
    apply (Permutation_app_inv_l b). rewrite Permutation_app_swap_app.
    rewrite (concat_insert_perm nt _ b _ Hb). cbn. solve_Permutation.
Qed.

Lemma rehash_spec (heap : list E) (n : Z) (chains nt : list (list nat)) :
  0 < n < 2 ^ 32 -> chains_ok heap n nt ->
  (forall p, p ∈ concat chains -> exists e, heap !! p = Some e) ->
  exists nt', rehash heap n chains nt = Ret nt' /\ chains_ok heap n nt'
    /\ Permutation (concat nt') (concat chains ++ concat nt).
Proof.
  intros Hn. revert nt. induction chains as [|c chains IH]; intros nt Hok Hc; [by exists nt|].
  cbn [rehash]. destruct (rehash_chain_spec heap n (length c) c nt) as (nt1 & -> & Hok1 & Hp1);
    [done|done|done|intros p Hp; apply Hc; set_solver|]. cbn [rbind].
  destruct (IH nt1 Hok1) as (nt' & -> & Hok' & Hp'); [intros p Hp; apply Hc; set_solver|].
  exists nt'. split; [done|]. split; [done|]. rewrite Hp', Hp1. cbn. solve_Permutation.
Qed.

(** The most entries the theorems consider; no size reaches 2^30 before. *)
Definition max_entries : Z := 2 ^ 28.

Lemma next_size (n c : Z) :
  0 < n <= 2 ^ 30 -> c <= max_entries -> u32 (n * 3) / 4 < c ->
  exists p, higher_prime_number n = Ret p /\ 0 < p <= 2 ^ 30.
Proof.
  unfold max_entries. intros Hn Hc Hlt. rewrite u32_small in Hlt by lia.
  assert (Hn' : n < 2 ^ 29 - 3) by (Z.to_euclidean_division_equations; lia).
  destruct (higher_prime_next n) as (i & p & Heq & Hp & Hnp & Hi); [lia|]. exists p. split; [done|].
  split; [lia|]. destruct (Hi 25%nat _ eq_refl) as [H25 _].
  destruct (decide (25 < i)%nat) as [Hlt25|Hge]; [specialize (H25 Hlt25); lia|].
  destruct (decide (i = 25%nat)) as [->|Hne]; [injection Hp as <-; lia|].
  pose proof (sorted_lookup primes i 25 p _ primes_sorted Hp eq_refl). lia.
Qed.

(** What growing keeps: everything but the chains' order. *)
Record shaped (heap : list E) (t : bfd_hash_table) : Prop := {
  sh_size : 0 < size t <= 2 ^ 30;
  sh_chains : chains_ok heap (size t) (table t);
  sh_count : count t = Z.of_nat (length (members t))
}.

Lemma chains_ok_empty (heap : list E) (n : Z) : chains_ok heap n (replicate (Z.to_nat n) []).
Proof.
  split; [by rewrite length_replicate|]. intros i b p Hi Hp.
  apply lookup_replicate in Hi as [-> _]. set_solver.
Qed.

Lemma concat_empty (n : nat) : concat (replicate n ([] : list nat)) = [].
Proof. induction n as [|n IH]; [done|]. exact IH. Qed.

Lemma grow_spec (heap : list E) (t : bfd_hash_table) :
  shaped heap t -> count t <= max_entries ->
  exists t', grow heap t = Ret t' /\ shaped heap t' /\ Permutation (members t') (members t).
Proof.
  intros [Hs Hc Hn] Hmax. unfold grow.
  destruct (negb (frozen t)); cbn [andb]; [|by exists t].
  destruct (Z.ltb_spec (u32 (size t * 3) / 4) (count t)) as [Hlt|_]; [|by exists t].
  destruct (next_size (size t) (count t) Hs Hmax Hlt) as (p & -> & Hp). cbn [rbind].
  assert (Hfr : exists t', Ret (set_frozen true t) = Ret t' /\ shaped heap t'
                  /\ Permutation (members t') (members t)) by by exists (set_frozen true t).
  destruct (_ || _); [done|]. destruct (negb _); [done|]. clear Hfr.
  destruct (rehash_spec heap p (table t) (replicate (Z.to_nat p) [])) as (nt & -> & Hok & HP);
    [lia|apply chains_ok_empty|by intros q Hq; eapply member_entry|].
  rewrite concat_empty, app_nil_r in HP. cbn [rbind]. rewrite u32_small by lia.
  eexists. split; [reflexivity|]. split; [|exact HP]. split; [cbn; lia|exact Hok|].
  cbn. rewrite Hn. f_equal. apply Permutation_length. symmetry. exact HP.
Qed.

(** ** Insertion and lookup *)

Lemma chains_ok_app (heap : list E) (n : Z) (chains : list (list nat)) (e : E) :
  chains_ok heap n chains -> chains_ok (heap ++ [e]) n chains.
Proof.
  intros [Hl H]. split; [done|]. intros i b p Hi Hp. destruct (H i b p Hi Hp) as (e' & He' & ?).
  exists e'. split; [|done]. apply lookup_app_l_Some. exact He'.
Qed.

Lemma fresh_not_member (heap : list E) (t : bfd_hash_table) (n : Z) :
  chains_ok heap n (table t) -> length heap ∉ members t.
Proof.
  intros Hok Hin. destruct (member_entry _ _ _ _ Hok Hin) as [e He].
  apply lookup_lt_Some in He. lia.
Qed.

Lemma members_le (heap : list E) (t : bfd_hash_table) (m : gmap string nat) :
  holds heap t m -> (length (members t) <= length heap)%nat.
Proof.
  intros [_ Hc _ Hnd _ _]. rewrite <- (length_seq (length heap) 0).
  apply submseteq_length, NoDup_submseteq; [done|]. intros p Hp.
  destruct (member_entry _ _ _ _ Hc Hp) as [e He]. apply lookup_lt_Some in He.
  apply elem_of_seq. lia.
Qed.

Lemma bfd_hash_insert_spec (heap : list E) (t : bfd_hash_table) (m : gmap string nat)
    (s : string) (e : E) :
  holds heap t m -> m !! s = None -> newfunc s = Some e -> Z.of_nat (length heap) < max_entries ->
  exists t', bfd_hash_insert heap t s (bfd_hash_hash s)
             = Ret (Some (length heap), heap ++ [set_root s (bfd_hash_hash s) e], t')
    /\ holds (heap ++ [set_root s (bfd_hash_hash s) e]) t' (<[s := length heap]> m).
Proof.
  intros Hh Hs Hnew Hmax. pose proof (members_le heap t m Hh) as Hle.
  destruct Hh as [Hsz Hch Hhash Hnd Hct Hmap]. unfold bfd_hash_insert. rewrite Hnew.
  set (p := length heap). set (h := bfd_hash_hash s). set (heap' := heap ++ [set_root s h e]).
  assert (Hp : heap' !! p = Some (set_root s h e)) by (apply list_lookup_middle; done).
  rewrite slot_index by done. cbn [rbind]. destruct (chain_at heap (size t) h (table t)) as [b Hb]; [lia|done|].
  rewrite (get_chain_ret _ _ _ Hb). cbn [rbind]. rewrite Hct. rewrite u32_small by (unfold max_entries in *; lia).
  set (t1 := mk_table _ _ _ _).
  assert (HP : Permutation (members t1) (p :: members t)).
  { apply (Permutation_app_inv_l b). unfold members. cbn.
    rewrite (concat_insert_perm (table t) _ b (p :: b) Hb). cbn. apply Permutation_middle. }
  destruct (grow_spec heap' t1) as (t' & Hg & [Hsz' Hch' Hct'] & HP').
  { split; [done| |].
    - apply chains_ok_insert; [by apply chains_ok_app|]. intros q [->|Hq]%elem_of_cons.
      + exists (set_root s h e). by rewrite hash_of_set.
      + by apply (proj2 (chains_ok_app _ _ _ _ Hch) _ b).
    - rewrite HP. cbn. lia. }
  { cbn. unfold max_entries in *. lia. }
  rewrite Hg. cbn [rbind]. exists t'. split; [done|].
  assert (Hin : forall q, q ∈ members t' <-> q = p \/ q ∈ members t).
  { intros q. by rewrite HP', HP, elem_of_cons. }
  pose proof (fresh_not_member heap t _ Hch) as Hfresh.
  assert (Hold : forall q, q ∈ members t -> heap' !! q = heap !! q).
  { intros q Hq. destruct (member_entry _ _ _ _ Hch Hq) as [e' He']. apply lookup_app_l.
    by eapply lookup_lt_Some. }
  split; [done|done| | |done|].
  - intros q e' Hq He'. apply Hin in Hq as [->|Hq].
    + rewrite Hp in He'. injection He' as <-. by rewrite hash_of_set, string_of_set.
    + rewrite Hold in He' by done. by apply (Hhash q).
  - rewrite HP', HP. by constructor.
  - intros s' q. rewrite Hin. destruct (decide (s = s')) as [<-|Hne].
    + rewrite lookup_insert_eq. split.
      * intros [= <-]. split; [by left|]. rewrite Hp. cbn. by rewrite string_of_set.
      * intros [[->|Hq] Hstr]; [done|]. rewrite Hold in Hstr by done.
        assert (m !! s = Some q) by by apply Hmap. congruence.
    + rewrite lookup_insert_ne, Hmap by done. split.
      * intros [Hq Hstr]. split; [by right|]. by rewrite Hold.
      * intros [[->|Hq] Hstr]; [|by rewrite Hold in Hstr].
        rewrite Hp in Hstr. cbn in Hstr. rewrite string_of_set in Hstr. congruence.
Qed.

(** Every case of a lookup. *)
Lemma bfd_hash_lookup_spec (heap : list E) (t : bfd_hash_table) (m : gmap string nat)
    (s : string) (create copy : bool) :
  holds heap t m -> Z.of_nat (length heap) < max_entries ->
  match m !! s with
  | Some p => bfd_hash_lookup heap t s create copy = Ret (Some p, heap, t)
  | None =>
      bfd_hash_lookup heap t s create copy = Ret (None, heap, t)
      \/ create = true /\ exists e t', newfunc s = Some e
          /\ bfd_hash_lookup heap t s create copy
             = Ret (Some (length heap), heap ++ [set_root s (bfd_hash_hash s) e], t')
          /\ holds (heap ++ [set_root s (bfd_hash_hash s) e]) t' (<[s := length heap]> m)
  end.
Proof.
  intros Hh Hmax. destruct (holds_search heap t m s Hh) as (b & Hb & Hf).
  unfold bfd_hash_lookup. rewrite slot_index by apply Hh. cbn [rbind].
  rewrite (get_chain_ret _ _ _ Hb). cbn [rbind]. rewrite Hf. cbn [rbind].
  destruct (m !! s) as [p|] eqn:Hs; [done|].
  destruct create; [|by left]. cbn [negb]. destruct (_ && _); [by left|].
  destruct (newfunc s) as [e|] eqn:Hn.
  - right. split; [done|]. destruct (bfd_hash_insert_spec heap t m s e Hh Hs Hn Hmax) as (t' & Ht & Hh').
    by exists e, t'.
  - left. unfold bfd_hash_insert. by rewrite Hn.
Qed.

(** A lookup that creates always finds an entry when there is memory. *)
Lemma bfd_hash_lookup_create (heap : list E) (t : bfd_hash_table) (m : gmap string nat)
    (s : string) (copy : bool) (e : E) :
  holds heap t m -> Z.of_nat (length heap) < max_entries -> newfunc s = Some e ->
  (forall n, has_memory n = true) -> m !! s = None ->
  exists t', bfd_hash_lookup heap t s true copy
             = Ret (Some (length heap), heap ++ [set_root s (bfd_hash_hash s) e], t')
    /\ holds (heap ++ [set_root s (bfd_hash_hash s) e]) t' (<[s := length heap]> m).
Proof.
  intros Hh Hmax Hn Hmem Hs. destruct (holds_search heap t m s Hh) as (b & Hb & Hf).
  destruct (bfd_hash_insert_spec heap t m s e Hh Hs Hn Hmax) as (t' & Ht & Hh'). exists t'.
  split; [|done]. unfold bfd_hash_lookup. rewrite slot_index by apply Hh. cbn [rbind].
  rewrite (get_chain_ret _ _ _ Hb). cbn [rbind]. rewrite Hf, Hs. cbn [rbind negb].
  by rewrite Hmem, andb_false_r.
Qed.

(** ** Replacing and renaming *)

Lemma replace_chain_spec (old nw : nat) (b : list nat) :
  old ∈ b -> exists l1 l2, b = l1 ++ old :: l2 /\ replace_chain old nw b = Ret (l1 ++ nw :: l2).
Proof.
  induction b as [|p b IH]; intros Hin; [set_solver|]. cbn [replace_chain].
  destruct (decide (p = old)) as [->|Hne]; [by exists [], b|].
  destruct IH as (l1 & l2 & -> & ->); [set_solver|]. by exists (p :: l1), l2.
Qed.

Lemma unlink_chain_spec (ent : nat) (b : list nat) :
  ent ∈ b -> exists l1 l2, b = l1 ++ ent :: l2 /\ unlink_chain ent b = Ret (l1 ++ l2).
Proof.
  induction b as [|p b IH]; intros Hin; [set_solver|]. cbn [unlink_chain].
  destruct (decide (p = ent)) as [->|Hne]; [by exists [], b|].
  destruct IH as (l1 & l2 & -> & ->); [set_solver|]. by exists (p :: l1), l2.
Qed.

(** The chain a member is in. *)
Lemma member_chain (heap : list E) (t : bfd_hash_table) (m : gmap string nat) (s : string) (p : nat) :
  holds heap t m -> m !! s = Some p ->
  exists e b, heap !! p = Some e /\ string_of e = s /\ hash_of e = bfd_hash_hash s
    /\ table t !! slot (size t) (hash_of e) = Some b /\ p ∈ b.
Proof.
  intros [_ Hch Hhash _ _ Hmap] Hm. apply Hmap in Hm as [Hp Hs].
  pose proof Hp as (i & b & Hi & Hpb)%elem_of_concat. destruct (proj2 Hch i b p Hi Hpb) as (e & He & ->).
  exists e, b. rewrite He in Hs. cbn in Hs. assert (string_of e = s) by congruence.
  split_and!; try done. rewrite (Hhash p e Hp He). congruence.
Qed.

Lemma bfd_hash_replace_spec (heap : list E) (t : bfd_hash_table) (m : gmap string nat)
    (s : string) (old nw : nat) (e : E) :
  holds heap t m -> m !! s = Some old -> heap !! nw = Some e -> string_of e = s ->
  hash_of e = bfd_hash_hash s -> nw ∉ members t ->
  exists t', bfd_hash_replace heap t old nw = Ret t' /\ holds heap t' (<[s := nw]> m)
    /\ Permutation (old :: members t') (nw :: members t).
Proof.
  clear newfunc. intros Hh Hm Hnw Hstr Hhe Hfresh.
  destruct (member_chain heap t m s old Hh Hm) as (e0 & b & He0 & Hs0 & Hh0 & Hb & Hin).
  pose proof Hh as [Hsz Hch Hhash Hnd Hct Hmap].
  destruct (replace_chain_spec old nw b Hin) as (l1 & l2 & -> & Er).
  unfold bfd_hash_replace. rewrite (get_entry_ret _ _ _ He0). cbn [rbind]. rewrite slot_index by done.
  cbn [rbind]. rewrite (get_chain_ret _ _ _ Hb). cbn [rbind]. rewrite Er. cbn [rbind].
  set (t' := mk_table _ _ _ _).
  assert (HP : Permutation (old :: members t') (nw :: members t)).
  { apply (Permutation_app_inv_l (l1 ++ l2)).
    transitivity ((l1 ++ old :: l2) ++ members t'); [solve_Permutation|].
    unfold members at 1. cbn. rewrite (concat_insert_perm (table t) _ _ (l1 ++ nw :: l2) Hb).
    fold (members t). solve_Permutation. }
  exists t'. split; [done|]. split; [|done].
  assert (Hold : old ∈ members t) by (apply elem_of_concat; eauto).
  assert (Hnd' : NoDup (old :: members t')) by (rewrite HP; by constructor).
  apply NoDup_cons in Hnd' as [Hno Hnd'].
  assert (Hin' : forall q, q ∈ members t' <-> q = nw \/ (q ∈ members t /\ q <> old)).
  { intros q. assert (Hq : q ∈ old :: members t' <-> q ∈ nw :: members t) by by rewrite HP.
    rewrite !elem_of_cons in Hq. destruct (decide (q = old)) as [->|Hne].
    - split; [done|]. intros [->|[_ ?]]; [done|done].
    - split; [|intros [->|[? ?]]]; tauto. }
  split; [done| | |done| |].
  - apply chains_ok_insert; [done|]. intros q Hq. apply elem_of_app in Hq as [Hq|[->|Hq]%elem_of_cons].
    + apply (proj2 Hch _ _ _ Hb). set_solver.
    + exists e. split; [done|]. by rewrite Hh0, Hhe.
    + apply (proj2 Hch _ _ _ Hb). set_solver.
  - intros q e' [->|[Hq _]]%Hin' He'; [congruence|by apply (Hhash q)].
  - change (count t') with (count t). rewrite Hct. f_equal. apply Permutation_length in HP. cbn in HP |- *. lia.
  - intros s' q. rewrite Hin'. destruct (decide (s = s')) as [<-|Hne].
    + rewrite lookup_insert_eq. split.
      * intros [= <-]. split; [by left|]. by rewrite Hnw, <- Hstr.
      * intros [[->|[Hq Hqo]] Hs']; [done|]. assert (m !! s = Some q) by by apply Hmap. congruence.
    + rewrite lookup_insert_ne, Hmap by done. split.
      * intros [Hq Hs']. split; [|done]. right. split; [done|]. intros ->. rewrite He0 in Hs'. cbn in Hs'. congruence.
      * intros [[->|[Hq _]] Hs']; [|done]. rewrite Hnw in Hs'. cbn in Hs'. congruence.
Qed.

Lemma bfd_hash_rename_spec (heap : list E) (t : bfd_hash_table) (m : gmap string nat)
    (s0 s : string) (ent : nat) (e : E) :
  holds heap t m -> m !! s0 = Some ent -> m !! s = None -> heap !! ent = Some e ->
  exists t', bfd_hash_rename heap t s ent = Ret (<[ent := set_root s (bfd_hash_hash s) e]> heap, t')
    /\ holds (<[ent := set_root s (bfd_hash_hash s) e]> heap) t' (<[s := ent]> (delete s0 m)).
Proof.
  clear newfunc. intros Hh Hm Hs He. set (h := bfd_hash_hash s). set (heap' := <[ent := set_root s h e]> heap).
  destruct (member_chain heap t m s0 ent Hh Hm) as (e0 & b & He0 & Hs0 & Hh0 & Hb & Hin).
  assert (e0 = e) as -> by congruence. pose proof Hh as [Hsz Hch Hhash Hnd Hct Hmap].
  destruct (unlink_chain_spec ent b Hin) as (l1 & l2 & -> & Er).
  unfold bfd_hash_rename. rewrite (get_entry_ret _ _ _ He). cbn [rbind]. rewrite slot_index by done.
  cbn [rbind]. rewrite (get_chain_ret _ _ _ Hb). cbn [rbind]. rewrite Er. cbn [rbind].
  set (c1 := <[slot (size t) (hash_of e) := l1 ++ l2]> (table t)).
  assert (HP1 : Permutation (ent :: concat c1) (members t)).
  { apply (Permutation_app_inv_l (l1 ++ l2)).
    transitivity ((l1 ++ ent :: l2) ++ concat c1); [solve_Permutation|].
    unfold c1. by rewrite (concat_insert_perm (table t) _ _ (l1 ++ l2) Hb). }
  assert (Hnd1 : NoDup (ent :: concat c1)) by by rewrite HP1.
  apply NoDup_cons in Hnd1 as [Hno Hnd1].
  assert (Hlt : (ent < length heap)%nat) by (by eapply lookup_lt_Some).
  assert (Hent : heap' !! ent = Some (set_root s h e)) by by apply list_lookup_insert_eq.
  assert (Hother : forall q, q <> ent -> heap' !! q = heap !! q) by (intros q Hq; by apply list_lookup_insert_ne).
  assert (Hch1 : chains_ok heap' (size t) c1).
  { assert (Hc1 : chains_ok heap (size t) c1).
    { apply chains_ok_insert; [done|]. intros q Hq. apply (proj2 Hch _ _ _ Hb). set_solver. }
    split; [apply Hc1|]. intros i b' q Hi Hq. destruct (proj2 Hc1 i b' q Hi Hq) as (e' & He' & ?).
    exists e'. split; [|done]. rewrite Hother; [done|]. intros ->. apply Hno, elem_of_concat. eauto. }
  fold h. rewrite (slot_index (mk_table c1 _ _ _)) by done. cbn [rbind size table].
  destruct (chain_at heap' (size t) h c1) as [b2 Hb2]; [lia|done|].
  rewrite (get_chain_ret _ _ _ Hb2). cbn [rbind]. eexists. split; [reflexivity|].
  set (c2 := <[slot (size t) h := ent :: b2]> c1).
  assert (HP2 : Permutation (concat c2) (members t)).
  { rewrite <- HP1. apply (Permutation_app_inv_l b2). unfold c2.
    rewrite (concat_insert_perm c1 _ b2 (ent :: b2) Hb2). cbn. solve_Permutation. }
  split; [done| | | | |].
  - apply chains_ok_insert; [done|]. intros q [->|Hq]%elem_of_cons.
    + exists (set_root s h e). by rewrite hash_of_set.
    + by apply (proj2 Hch1 _ b2).
  - intros q e' Hq He'. destruct (decide (q = ent)) as [->|Hne].
    + rewrite Hent in He'. injection He' as <-. by rewrite hash_of_set, string_of_set.
    + rewrite Hother in He' by done. apply (Hhash q); [by rewrite <- HP2|done].
  - unfold members. cbn. by rewrite HP2.
  - unfold members. cbn. by rewrite HP2.
  - intros s' q. unfold members. cbn. rewrite HP2. destruct (decide (s = s')) as [<-|Hne].
    + rewrite lookup_insert_eq. split.
      * intros [= <-]. split; [by apply (Hmap s0)|]. rewrite Hent. cbn. by rewrite string_of_set.
      * intros [Hq Hs']. destruct (decide (q = ent)) as [->|Hqe]; [done|]. rewrite Hother in Hs' by done.
        assert (m !! s = Some q) by by apply Hmap. congruence.
    + rewrite lookup_insert_ne by done. destruct (decide (s0 = s')) as [<-|Hne0].
      * rewrite lookup_delete_eq. split; [done|]. intros [Hq Hs'].
        destruct (decide (q = ent)) as [->|Hqe].
        -- rewrite Hent in Hs'. cbn in Hs'. rewrite string_of_set in Hs'. congruence.
        -- rewrite Hother in Hs' by done. assert (m !! s0 = Some q) by by apply Hmap. congruence.
      * rewrite lookup_delete_ne, Hmap by done. destruct (decide (q = ent)) as [->|Hqe]; [|by rewrite Hother].
        rewrite Hent, He. cbn. rewrite string_of_set. split; intros [_ ?]; exfalso; congruence.
Qed.

(** ** A fresh table *)

Lemma bfd_hash_table_init_holds (heap : list E) (size : Z) (t : bfd_hash_table) :
  0 < size <= 2 ^ 30 -> bfd_hash_table_init_n size = Some t -> holds heap t (empty : gmap string nat).
Proof.
  intros Hs. unfold bfd_hash_table_init_n. destruct (negb _); [done|]. destruct (negb _); [done|].
  intros [= <-].
  split; [done|apply chains_ok_empty|..]; unfold members; cbn; rewrite ?concat_empty;
    [set_solver|constructor|done|]. intros s p. rewrite lookup_empty. set_solver.
Qed.

(** ** The table is a map *)

(** What a client does with a table; [call_replace] puts a copy of an entry in
    the place of the entry, as the linker does for warning symbols. *)
Inductive hash_call : Type :=
| call_lookup (string : string) (create copy : bool)
| call_rename (string : string) (ent : nat)
| call_replace (old : nat).

Definition do_call (heap : list E) (t : bfd_hash_table) (c : hash_call)
  : res (option nat * list E * bfd_hash_table) :=
  match c with
  | call_lookup s create copy => bfd_hash_lookup heap t s create copy
  | call_rename s ent =>
      let! (heap, t) := bfd_hash_rename heap t s ent in Ret (None, heap, t)
  | call_replace old =>
      let! e := get_entry heap old in
      let! t := bfd_hash_replace (heap ++ [e]) t old (length heap) in
      Ret (Some (length heap), heap ++ [e], t)
  end.

Fixpoint do_calls (heap : list E) (t : bfd_hash_table) (cs : list hash_call)
  : res (list (option nat) * list E * bfd_hash_table) :=
  match cs with
  | [] => Ret ([], heap, t)
  | c :: cs' =>
      let! (r, heap, t) := do_call heap t c in
      let! (rs, heap, t) := do_calls heap t cs' in
      Ret (r :: rs, heap, t)
  end.

(** The same on a map, with the number of the next new entry. *)
Inductive map_call : gmap string nat * nat -> hash_call -> option nat -> gmap string nat * nat -> Prop :=
| mc_found (m : gmap string nat) (n : nat) (s : string) (create copy : bool) (p : nat) :
    m !! s = Some p -> map_call (m, n) (call_lookup s create copy) (Some p) (m, n)
| mc_absent (m : gmap string nat) (n : nat) (s : string) (copy : bool) :
    m !! s = None -> map_call (m, n) (call_lookup s false copy) None (m, n)
| mc_create (m : gmap string nat) (n : nat) (s : string) (copy : bool) :
    m !! s = None -> map_call (m, n) (call_lookup s true copy) (Some n) (<[s := n]> m, S n)
| mc_rename (m : gmap string nat) (n : nat) (s0 s : string) (ent : nat) :
    m !! s0 = Some ent -> m !! s = None ->
    map_call (m, n) (call_rename s ent) None (<[s := ent]> (delete s0 m), n)
| mc_replace (m : gmap string nat) (n : nat) (s : string) (old : nat) :
    m !! s = Some old -> map_call (m, n) (call_replace old) (Some n) (<[s := n]> m, S n).

Inductive map_calls : gmap string nat * nat -> list hash_call -> list (option nat)
    -> gmap string nat * nat -> Prop :=
| mcs_nil (a : gmap string nat * nat) : map_calls a [] [] a
| mcs_cons (a b c : gmap string nat * nat) (k : hash_call) (ks : list hash_call) (r : option nat)
    (rs : list (option nat)) :
    map_call a k r b -> map_calls b ks rs c -> map_calls a (k :: ks) (r :: rs) c.

Lemma holds_app (heap : list E) (t : bfd_hash_table) (m : gmap string nat) (e : E) :
  holds heap t m -> holds (heap ++ [e]) t m.
Proof.
  intros [Hsz Hch Hhash Hnd Hct Hmap].
  assert (Hsame : forall q, q ∈ members t -> (heap ++ [e]) !! q = heap !! q).
  { intros q Hq. destruct (member_entry _ _ _ _ Hch Hq) as [e' He']. apply lookup_app_l.
    by eapply lookup_lt_Some. }
  split; [done|by apply chains_ok_app| |done|done|].
  - intros q e' Hq He'. rewrite Hsame in He' by done. by apply (Hhash q).
  - intros s' q. rewrite Hmap. split; intros [Hq Hs']; (split; [done|]); by rewrite ?Hsame in * by done.
Qed.

Section refines.
  Context (Hnew : forall s, is_Some (newfunc s)) (Hmem : forall n, has_memory n = true).

Lemma do_call_map (heap : list E) (t : bfd_hash_table) (m m' : gmap string nat) (n' : nat)
    (c : hash_call) (r : option nat) :
  holds heap t m -> Z.of_nat (length heap) < max_entries ->
  map_call (m, length heap) c r (m', n') ->
  exists heap' t', do_call heap t c = Ret (r, heap', t') /\ holds heap' t' m' /\ length heap' = n'
    /\ (n' <= S (length heap))%nat.
Proof.
  intros Hh Hmax Hc. inversion Hc; subst; clear Hc; cbn [do_call].
  - pose proof (bfd_hash_lookup_spec heap t m' s create copy Hh Hmax) as Hl.
    match goal with H : m' !! s = Some _ |- _ => rewrite H in Hl end. exists heap, t. auto.
  - pose proof (bfd_hash_lookup_spec heap t m' s false copy Hh Hmax) as Hl.
    match goal with H : m' !! s = None |- _ => rewrite H in Hl end.
    destruct Hl as [Hl|[? _]]; [|done]. exists heap, t. auto.
  - destruct (Hnew s) as [e He].
    destruct (bfd_hash_lookup_create heap t m s copy e) as (t' & Hl & Hh'); try done.
    eexists _, t'. split; [exact Hl|]. split; [done|]. rewrite length_app. cbn. lia.
  - match goal with H : m !! s0 = Some ent |- _ => rename H into H0 end.
    destruct (member_chain heap t m s0 ent Hh H0) as (e & _ & He & _).
    destruct (bfd_hash_rename_spec heap t m s0 s ent e) as (t' & Hr & Hh'); try done.
    rewrite Hr. eexists _, t'. split; [reflexivity|]. split; [done|]. by rewrite length_insert; auto.
  - match goal with H : m !! s = Some old |- _ => rename H into H0 end.
    destruct (member_chain heap t m s old Hh H0) as (e & _ & He & Hs & Hhe & _).
    rewrite (get_entry_ret _ _ _ He). cbn [rbind].
    pose proof (holds_app heap t m e Hh) as Hh2.
    destruct (bfd_hash_replace_spec (heap ++ [e]) t m s old (length heap) e) as (t' & Hr & Hh' & _);
      try done; [by apply list_lookup_middle|by apply (fresh_not_member heap t _ (ho_chains _ _ _ Hh))|].
    rewrite Hr. eexists _, t'. split; [reflexivity|]. split; [done|]. rewrite length_app. cbn. lia.
Qed.

Lemma do_calls_map (heap : list E) (t : bfd_hash_table) (m m' : gmap string nat) (n' : nat)
    (cs : list hash_call) (rs : list (option nat)) :
  holds heap t m -> Z.of_nat (length heap + length cs) < max_entries ->
  map_calls (m, length heap) cs rs (m', n') ->
  exists heap' t', do_calls heap t cs = Ret (rs, heap', t') /\ holds heap' t' m' /\ length heap' = n'.
Proof.
  revert heap t m rs. induction cs as [|c cs IH]; intros heap t m rs Hh Hmax Hc;
    inversion Hc as [|? [m1 n1] ? ? ? ? ? Hk Hks]; subst; clear Hc; [by exists heap, t|].
  cbn in Hmax. destruct (do_call_map heap t m m1 n1 c r Hh) as (heap1 & t1 & Hd & Hh1 & Hl1 & Hle);
    [lia|done|].
  subst n1. destruct (IH heap1 t1 m1 rs0 Hh1) as (heap' & t' & Hds & Hh' & Hl'); [lia|done|].
  exists heap', t'. cbn [do_calls]. rewrite Hd. cbn [rbind]. by rewrite Hds.
Qed.

(** C20.  A hash table is a finite map: while memory lasts, on a fresh table of any
    size up to 2^30, any sequence of fewer than 2^28 lookups, creations, renamings
    and replacements that is meaningful on a map returns exactly the entries the
    map gives, never faults and leaves the table holding that map, whether or
    not it grew on the way. *)
Theorem bfd_hash_refines_map (sz : Z) (cs : list hash_call) (rs : list (option nat))
    (m' : gmap string nat) (n' : nat) :
  0 < sz <= 2 ^ 30 -> Z.of_nat (length cs) < max_entries -> map_calls (empty, 0%nat) cs rs (m', n') ->
  exists t heap' t', bfd_hash_table_init_n sz = Some t /\ do_calls [] t cs = Ret (rs, heap', t')
    /\ holds heap' t' m' /\ length heap' = n'.
Proof.
  intros Hsz Hmax Hc.
  destruct (bfd_hash_table_init_n sz) as [t|] eqn:Ht.
  - exists t. destruct (do_calls_map [] t empty m' n' cs rs) as (heap' & t' & H);
      [by eapply bfd_hash_table_init_holds|exact Hmax|exact Hc|]. by exists heap', t'.
  - unfold bfd_hash_table_init_n in Ht. rewrite Hmem in Ht. unfold SIZEOF_POINTER in Ht.
    rewrite u64_small, Z.div_mul, Z.eqb_refl in Ht by lia. done.
Qed.
End refines.

(** ** Traversal *)

(** A traversal that is not stopped visits every entry once. *)
Lemma traverse_members (I : Type) (step : I -> nat -> I) (heap : list E) (t : bfd_hash_table) (info : I) :
  bfd_hash_traverse (fun p hp i => Ret (true, hp, step i p)) heap t info
  = Ret (heap, set_frozen false t, fold_left step (members t) info).
Proof.
  assert (Hch : forall l i, traverse_chain (fun p hp j => Ret (true, hp, step j p)) l heap i
                  = Ret (true, heap, fold_left step l i)).
  { induction l as [|p l IH]; intros i; [done|]. cbn. apply IH. }
  unfold bfd_hash_traverse, members. revert info.
  assert (Hall : forall cs i, traverse_table (fun p hp j => Ret (true, hp, step j p)) cs heap i
                   = Ret (heap, fold_left step (concat cs) i)).
  { induction cs as [|c cs IH]; intros i; [done|]. cbn [traverse_table]. rewrite Hch. cbn [rbind].
    rewrite IH. cbn. by rewrite fold_left_app. }
  intros info. by rewrite Hall.
Qed.
End hash.

(** ** The interface of a string table *)

(** The operations a client with entries of type [E] calls. *)
Class StringTable (E T : Type) : Type := {
  st_lookup : list E -> T -> string -> bool -> bool -> res (option nat * list E * T);
  st_replace : list E -> T -> nat -> nat -> res T
}.

(** What they promise: [st_holds heap t m] says that the table is the map [m].  New
    entries go to the end of the heap and start as [fresh] says. *)
Class StringTableLaws (E T : Type) {entry : Entry E} {ops : StringTable E T} (fresh : string -> E)
  : Type := {
  st_holds : list E -> T -> gmap string nat -> Prop;
  st_entry (heap : list E) (t : T) (m : gmap string nat) (s : string) (p : nat) :
    st_holds heap t m -> m !! s = Some p -> exists e, heap !! p = Some e /\ string_of e = s;
  st_fresh_string (s : string) : string_of (fresh s) = s;
  st_found (heap : list E) (t : T) (m : gmap string nat) (s : string) (create copy : bool) (p : nat) :
    st_holds heap t m -> Z.of_nat (length heap) < max_entries -> m !! s = Some p ->
    st_lookup heap t s create copy = Ret (Some p, heap, t);
  st_absent (heap : list E) (t : T) (m : gmap string nat) (s : string) (copy : bool) :
    st_holds heap t m -> Z.of_nat (length heap) < max_entries -> m !! s = None ->
    st_lookup heap t s false copy = Ret (None, heap, t);
  st_create (heap : list E) (t : T) (m : gmap string nat) (s : string) (copy : bool) :
    st_holds heap t m -> Z.of_nat (length heap) < max_entries -> m !! s = None ->
    exists t', st_lookup heap t s true copy = Ret (Some (length heap), heap ++ [fresh s], t')
      /\ st_holds (heap ++ [fresh s]) t' (<[s := length heap]> m);
  st_replaced (heap : list E) (t : T) (m : gmap string nat) (s : string) (old : nat) (e e' : E) :
    st_holds heap t m -> m !! s = Some old -> heap !! old = Some e ->
    string_of e' = string_of e -> hash_of e' = hash_of e ->
    exists t', st_replace (heap ++ [e']) t old (length heap) = Ret t'
      /\ st_holds (heap ++ [e']) t' (<[s := length heap]> m);
  st_update (heap heap' : list E) (t : T) (m : gmap string nat) :
    st_holds heap t m -> string_of <$> heap' = string_of <$> heap -> hash_of <$> heap' = hash_of <$> heap ->
    st_holds heap' t m
}.

Section bfd_table.
  Context {E : Type} {entry : Entry E} {memory : Memory} (newfunc : string -> option E).

#[local] Instance bfd_string_table : StringTable E bfd_hash_table := {
  st_lookup := bfd_hash_lookup newfunc;
  st_replace := bfd_hash_replace
}.

Lemma holds_update (heap heap' : list E) (t : bfd_hash_table) (m : gmap string nat) :
  holds heap t m -> string_of <$> heap' = string_of <$> heap -> hash_of <$> heap' = hash_of <$> heap ->
  holds heap' t m.
Proof.
  intros [Hsz [Hlen Hch] Hhash Hnd Hct Hmap] Hs Hh.
  assert (Hs1 : forall q, string_of <$> heap' !! q = string_of <$> heap !! q)
    by (intros q; by rewrite <- !list_lookup_fmap, Hs).
  assert (Hh1 : forall q, hash_of <$> heap' !! q = hash_of <$> heap !! q)
    by (intros q; by rewrite <- !list_lookup_fmap, Hh).
  split; [done| | |done|done|].
  - split; [done|]. intros i b q Hi Hq. destruct (Hch i b q Hi Hq) as (e & He & ->).
    specialize (Hh1 q). rewrite He in Hh1. destruct (heap' !! q) as [e'|]; [|done].
    exists e'. split; [done|]. cbn in Hh1. congruence.
  - intros q e' Hq He'. specialize (Hs1 q). specialize (Hh1 q). rewrite He' in Hs1, Hh1.
    destruct (heap !! q) as [e|] eqn:He; [|done]. cbn in Hs1, Hh1.
    specialize (Hhash q e Hq He). congruence.
  - intros s q. by rewrite Hmap, Hs1.
Qed.

(** bfd/hash.c keeps the promises while memory lasts. *)
Lemma bfd_table_laws (fresh : string -> E) :
  (forall n, has_memory n = true) ->
  (forall s, exists e, newfunc s = Some e /\ fresh s = set_root s (bfd_hash_hash s) e) ->
  StringTableLaws E bfd_hash_table fresh.
Proof.
  intros Hmem Hnew. refine {| st_holds := holds |}.
  - intros heap t m s p Hh Hm. destruct (member_chain heap t m s p Hh Hm) as (e & _ & ? & ? & _). by exists e.
  - intros s. destruct (Hnew s) as (e & _ & ->). apply string_of_set.
  - intros heap t m s create copy p Hh Hmax Hm.
    pose proof (bfd_hash_lookup_spec newfunc heap t m s create copy Hh Hmax) as Hl. by rewrite Hm in Hl.
  - intros heap t m s copy Hh Hmax Hm.
    pose proof (bfd_hash_lookup_spec newfunc heap t m s false copy Hh Hmax) as Hl. rewrite Hm in Hl.
    by destruct Hl as [Hl|[? _]].
  - intros heap t m s copy Hh Hmax Hm. destruct (Hnew s) as (e & He & ->).
    by apply bfd_hash_lookup_create.
  - intros heap t m s old e e' Hh Hm He Hs Hha.
    destruct (member_chain heap t m s old Hh Hm) as (e0 & _ & He0 & Hs0 & Hh0 & _).
    assert (e0 = e) as -> by congruence.
    destruct (bfd_hash_replace_spec (heap ++ [e']) t m s old (length heap) e') as (t' & Hr & Hh' & _).
    + by apply holds_app.
    + done.
    + by apply list_lookup_middle.
    + congruence.
    + congruence.
    + apply (fresh_not_member heap t (size t)), Hh.
    + exists t'. split; [exact Hr|exact Hh'].
  - intros. by eapply holds_update.
Defined.
End bfd_table.

(** ** Witness *)

#[global] Instance pair_entry : Entry (string * Z) := {
  string_of := fst; hash_of := snd; set_root := fun s h _ => (s, h);
  string_of_set := fun _ _ _ => eq_refl; hash_of_set := fun _ _ _ => eq_refl
}.
#[local] Instance enough_memory : Memory := fun _ => true.

(** A table of size 1 grows to 31 at the first entry. *)
Definition demo_calls : list hash_call :=
  [call_lookup "main" true true; call_lookup "f" false true; call_lookup "f" true true;
   call_lookup "main" true true; call_rename "g" 0; call_lookup "main" false true;
   call_lookup "g" false true; call_replace 1; call_lookup "f" false true].

Lemma bfd_hash_refines_map_witness :
  exists t heap' t', bfd_hash_table_init_n 1 = Some t
    /\ do_calls (fun s => Some (s, 0)) [] t demo_calls
       = Ret ([Some 0%nat; None; Some 1%nat; Some 0%nat; None; None; Some 0%nat; Some 2%nat; Some 2%nat],
              heap', t').
Proof.
  destruct (bfd_hash_refines_map (fun s => Some (s, 0)) (fun s => ltac:(by eexists)) (fun _ => eq_refl)
    1 demo_calls [Some 0%nat; None; Some 1%nat; Some 0%nat; None; None; Some 0%nat; Some 2%nat; Some 2%nat]
    (<["f" := 2%nat]> (<["g" := 0%nat]> (delete "main" (<["f" := 1%nat]> (<["main" := 0%nat]> empty))))) 3)
    as (t & heap' & t' & H1 & H2 & _).
  - lia.
  - reflexivity.
  - repeat (eapply mcs_cons; [first [ apply mc_found; reflexivity | apply mc_absent; reflexivity
      | apply mc_create; reflexivity | apply (mc_rename _ _ "main"); reflexivity
      | apply (mc_replace _ _ "f"); reflexivity ]|]). apply mcs_nil.
  - exists t, heap', t'. split; [exact H1|exact H2].
Defined.
