(* ===== verification/LinkAdd.v ===== *)
(** * Adding symbols to the link: bfd/linker.c

    The linker's global symbol table: looking names up (with --wrap), and
    [_bfd_generic_link_add_one_symbol], which merges one symbol of an input file
    into the table by the [link_action] state table.  Entries live in a heap and
    are addressed by index; the table from names to entries is any
    [StringTable] (BfdHash.v provides one).  Each entry has the [next] field that
    all members of the C union begin with.  The callbacks made and the messages
    reported are recorded in order. *)
From Stdlib Require Import Strings.Ascii.
From S2P Require Import Prelude BfdHash.
#[local] Open Scope Z_scope.

(** ** Input files, sections, entries *)
Record bfd : Type := mk_bfd {
  bfd_id : nat;
  (** [flags & BFD_PLUGIN] *)
  bfd_plugin : bool;
  (** [bfd_get_symbol_leading_char]: NUL for ELF. *)
  leading_char : Ascii.ascii
}.

(** The four standard sections, or a section of a file. *)
Inductive sec_kind : Type := k_und | k_com | k_ind | k_abs | k_file (owner : nat).

Record asection : Type := mk_sec {
  s_kind : sec_kind;
  s_name : string;
  (** [flags & SEC_IS_COMMON] *)
  s_common : bool
}.

#[global] Instance sec_kind_eq_dec : EqDecision sec_kind.
Proof. solve_decision. Defined.
#[global] Instance asection_eq_dec : EqDecision asection.
Proof. solve_decision. Defined.

Definition bfd_und_section : asection := mk_sec k_und "*UND*" false.
Definition bfd_com_section : asection := mk_sec k_com "*COM*" true.
Definition bfd_ind_section : asection := mk_sec k_ind "*IND*" false.
Definition bfd_abs_section : asection := mk_sec k_abs "*ABS*" false.

Definition bfd_is_und_section (s : asection) : bool := bool_decide (s_kind s = k_und).
Definition bfd_is_ind_section (s : asection) : bool := bool_decide (s_kind s = k_ind).
Definition bfd_is_com_section (s : asection) : bool := s_common s.

(** [section->owner] *)
Definition owner (s : asection) : option nat :=
  match s_kind s with k_file n => Some n | _ => None end.

(** The entry's [type] with the member of the union it selects; the [next] field
    all members share is [le_next]. *)
Inductive link_hash_type : Type :=
| bfd_link_hash_new
| bfd_link_hash_undefined (abfd : nat)
| bfd_link_hash_undefweak (abfd : nat)
| bfd_link_hash_defined (section : asection) (value : Z)
| bfd_link_hash_defweak (section : asection) (value : Z)
| bfd_link_hash_common (size : Z) (alignment_power : Z) (section : asection)
| bfd_link_hash_indirect (link : nat)
| bfd_link_hash_warning (link : nat) (warning : option string).

#[global] Instance link_hash_type_eq_dec : EqDecision link_hash_type.
Proof. solve_decision. Defined.

Record link_entry : Type := mk_link {
  le_string : string;
  le_hash : Z;
  le_type : link_hash_type;
  le_next : option nat;
  non_ir_ref_regular : bool;
  non_ir_ref_dynamic : bool;
  linker_def : bool
}.

#[global] Instance link_entry_entry : Entry link_entry := {
  string_of := le_string;
  hash_of := le_hash;
  set_root := fun s h e => mk_link s h (le_type e) (le_next e) (non_ir_ref_regular e)
                             (non_ir_ref_dynamic e) (linker_def e);
  string_of_set := fun _ _ _ => eq_refl;
  hash_of_set := fun _ _ _ => eq_refl
}.

Definition set_type (u : link_hash_type) (e : link_entry) : link_entry :=
  mk_link (le_string e) (le_hash e) u (le_next e) (non_ir_ref_regular e) (non_ir_ref_dynamic e)
    (linker_def e).
Definition set_next (n : option nat) (e : link_entry) : link_entry :=
  mk_link (le_string e) (le_hash e) (le_type e) n (non_ir_ref_regular e) (non_ir_ref_dynamic e)
    (linker_def e).
Definition clear_linker_def (e : link_entry) : link_entry :=
  mk_link (le_string e) (le_hash e) (le_type e) (le_next e) (non_ir_ref_regular e)
    (non_ir_ref_dynamic e) false.

(** [_bfd_link_hash_newfunc], with the root [bfd_hash_insert] sets. *)
Definition SIZEOF_LINK_ENTRY : Z := 56.
Definition SIZEOF_COMMON_ENTRY : Z := 16.
Definition blank_entry : link_entry := mk_link "" 0 bfd_link_hash_new None false false false.
Definition _bfd_link_hash_newfunc {memory : Memory} (string : string) : option link_entry :=
  if has_memory SIZEOF_LINK_ENTRY then Some blank_entry else None.
Definition fresh_entry (string : string) : link_entry :=
  mk_link string (bfd_hash_hash string) bfd_link_hash_new None false false false.

(** ** The state *)

(** The callbacks of [info->callbacks], with the types for [multiple_common], and
    what is reported or flagged. *)
Inductive link_event : Type :=
| ev_notice (h : nat) (inh : option nat) (abfd : nat) (section : asection) (value flags : Z)
| ev_multiple_definition (h : nat) (abfd : nat) (section : asection) (value : Z)
| ev_multiple_common (h : nat) (abfd : nat) (ntype : nat) (nsize : Z)
| ev_constructor (ctor : bool) (name : string) (abfd : nat) (section : asection) (value : Z)
| ev_add_to_set (h : nat) (abfd : nat) (section : asection) (value : Z)
| ev_warning (warning symbol : string) (abfd : option nat)
| ev_error (fmt : string)
| ev_assert
| ev_section_alloc (section : asection).

Record link_state (T : Type) : Type := mk_state {
  heap : list link_entry;
  names : T;
  undefs : option nat;
  undefs_tail : option nat;
  events : list link_event
}.
Arguments mk_state {T}.
Arguments heap {T}.
Arguments names {T}.
Arguments undefs {T}.
Arguments undefs_tail {T}.
Arguments events {T}.

(** The parts of [struct bfd_link_info] that are read. *)
Record bfd_link_info : Type := mk_info {
  relocatable : bool;
  lto_plugin_active : bool;
  notice_all : bool;
  notice_hash : option (string -> bool);
  wrap_hash : option (string -> bool);
  wrap_char : Ascii.ascii
}.

Section link.
  Context {T : Type} {ops : StringTable link_entry T} {memory : Memory}.
  (** What the [notice] callback returns. *)
  Context (info : bfd_link_info) (notice : link_event -> bool).
  (** The sections a file has, by name. *)
  Context (section_named : bfd -> string -> option asection).

(** ** The monad *)
Definition L (A : Type) : Type := link_state T -> res (A * link_state T).
#[global] Instance L_ret : MRet L := fun A a st => Ret (a, st).
#[global] Instance L_bind : MBind L :=
  fun A B k m st => match m st with Ret (a, st') => k a st' | Fail f => Fail f end.

Definition fail {A : Type} (f : fault) : L A := fun _ => Fail f.
Definition log (ev : link_event) : L unit :=
  fun st => Ret (tt, mk_state (heap st) (names st) (undefs st) (undefs_tail st) (events st ++ [ev])).
Definition get_link (h : nat) : L link_entry :=
  fun st => match heap st !! h with Some e => Ret (e, st) | None => Fail Foob end.
Definition gets {A : Type} (f : link_state T -> A) : L A := fun st => Ret (f st, st).
Definition modify (f : link_state T -> link_state T) : L unit := fun st => Ret (tt, f st).
Definition set_heap (hp : list link_entry) (st : link_state T) : link_state T :=
  mk_state hp (names st) (undefs st) (undefs_tail st) (events st).
Definition upd (h : nat) (f : link_entry -> link_entry) : L unit :=
  e ← get_link h; modify (fun st => set_heap (<[h := f e]> (heap st)) st).
Definition when (b : bool) (m : L unit) : L unit := if b then m else mret tt.
Definition BFD_ASSERT (b : bool) : L unit := when (negb b) (log ev_assert).

(** ** Lookups *)

(** [while (ret->type == indirect || ret->type == warning) ret = ret->u.i.link] *)
Fixpoint follow_links (fuel : nat) (h : nat) : L nat :=
  match fuel with
  | O => fail Floop
  | S fuel' =>
      e ← get_link h;
      match le_type e with
      | bfd_link_hash_indirect l | bfd_link_hash_warning l _ => follow_links fuel' l
      | _ => mret h
      end
  end.

(** The call of [bfd_hash_lookup]. *)
Definition find_name (string : string) (create copy : bool) : L (option nat) :=
  fun st => match st_lookup (heap st) (names st) string create copy with
            | Ret (r, hp, t) => Ret (r, mk_state hp t (undefs st) (undefs_tail st) (events st))
            | Fail f => Fail f
            end.

(** The call of [bfd_hash_replace]. *)
Definition replace_name (old nw : nat) : L unit :=
  fun st => match st_replace (heap st) (names st) old nw with
            | Ret t => Ret (tt, mk_state (heap st) t (undefs st) (undefs_tail st) (events st))
            | Fail f => Fail f
            end.

Definition bfd_link_hash_lookup (string : string) (create copy follow : bool) : L (option nat) :=
  r ← find_name string create copy;
  match r with
  | Some h =>
      if follow then
        n ← gets (fun st => length (heap st));
        h ← follow_links (S n) h;
        mret (Some h)
      else mret (Some h)
  | None => mret None
  end.

Definition NUL : Ascii.ascii := Ascii.zero.
Definition WRAP : string := "__wrap_".
Definition REAL : string := "__real_".

(** [*s] *)
Definition first_char (s : string) : Ascii.ascii :=
  match s with EmptyString => NUL | String c _ => c end.

(** A string that begins with a character, unless that is NUL. *)
Definition prefixed (c : Ascii.ascii) (s : string) : string :=
  if decide (c = NUL) then s else String c s.

Definition drop_chars (n : nat) (s : string) : string := String.substring n (String.length s - n) s.

(** Past the end of an empty string there is nothing to look up. *)
Definition bfd_wrapped_link_hash_lookup (abfd : bfd) (string : string) (create copy follow : bool)
  : L (option nat) :=
  match wrap_hash info with
  | None => bfd_link_hash_lookup string create copy follow
  | Some wrapped =>
      let c := first_char string in
      '(prefix, l) ← (if bool_decide (c = leading_char abfd) || bool_decide (c = wrap_char info)
                      then match string with
                           | EmptyString => fail Foob
                           | String c l => mret (c, l)
                           end
                      else mret (NUL, string));
      if wrapped l then
        if negb (has_memory (Z.of_nat (String.length l) + 9)) then mret None
        else bfd_link_hash_lookup (prefixed prefix (String.append WRAP l)) create true follow
      else if String.prefix REAL l && wrapped (drop_chars 7 l) then
        if negb (has_memory (Z.of_nat (String.length (drop_chars 7 l)) + 2)) then mret None
        else bfd_link_hash_lookup (prefixed prefix (drop_chars 7 l)) create true follow
      else bfd_link_hash_lookup string create copy follow
  end.

(** For a symbol named __wrap_SYM with SYM wrapped, the entry of SYM, if any. *)
Definition unwrap_hash_lookup (wrapped : string -> bool) (abfd : bfd) (h : nat) : L (option nat) :=
  e ← get_link h;
  let s := le_string e in
  let c := first_char s in
  l ← (if bool_decide (c = leading_char abfd) || bool_decide (c = wrap_char info)
       then match s with EmptyString => fail Foob | String _ l => mret l end
       else mret s);
  if String.prefix WRAP l && wrapped (drop_chars 7 l) then
    let l' := drop_chars 7 l in
    let name := if (String.length l =? String.length s)%nat then l' else String c l' in
    bfd_link_hash_lookup name false false false
  else mret (Some h).

(** ** The list of undefined symbols *)

Definition bfd_link_add_undef (h : nat) : L unit :=
  e ← get_link h;
  _ ← BFD_ASSERT (bool_decide (le_next e = None));
  tail ← gets undefs_tail;
  _ ← (match tail with Some t => upd t (set_next (Some h)) | None => mret tt end);
  _ ← modify (fun st => mk_state (heap st) (names st)
                          (match undefs st with None => Some h | Some u => Some u end)
                          (undefs_tail st) (events st));
  modify (fun st => mk_state (heap st) (names st) (undefs st) (Some h) (events st)).

(** [h->u.undef.next == NULL && info->hash->undefs_tail != h] *)
Definition unreferenced (h : nat) : L bool :=
  e ← get_link h;
  tail ← gets undefs_tail;
  mret (bool_decide (le_next e = None) && negb (bool_decide (tail = Some h))).

(** ** The state table *)
Inductive link_row : Type :=
| UNDEF_ROW | UNDEFW_ROW | DEF_ROW | DEFW_ROW | COMMON_ROW | INDR_ROW | WARN_ROW | SET_ROW.

Inductive link_action : Type :=
| FAIL | UND | WEAK | DEF | DEFW | COM | REF | CREF | CDEF | NOACT | BIG | MDEF | MIND | IND | CIND
| SET | MWARN | WARN | CYCLE | REFC | WARNC.

Definition row_actions (row : link_row) : list link_action :=
  match row with
  | UNDEF_ROW => [UND; NOACT; UND; REF; REF; NOACT; REFC; WARNC]
  | UNDEFW_ROW => [WEAK; NOACT; NOACT; REF; REF; NOACT; REFC; WARNC]
  | DEF_ROW => [DEF; DEF; DEF; MDEF; DEF; CDEF; MDEF; CYCLE]
  | DEFW_ROW => [DEFW; DEFW; DEFW; NOACT; NOACT; NOACT; NOACT; CYCLE]
  | COMMON_ROW => [COM; COM; COM; CREF; COM; BIG; REFC; WARNC]
  | INDR_ROW => [IND; IND; IND; MDEF; IND; CIND; MIND; CYCLE]
  | WARN_ROW => [MWARN; WARN; WARN; WARN; WARN; WARN; WARN; NOACT]
  | SET_ROW => [SET; SET; SET; SET; SET; SET; CYCLE; CYCLE]
  end.

(** The number of the entry's [type] in the enumeration. *)
Definition type_number (u : link_hash_type) : nat :=
  match u with
  | bfd_link_hash_new => 0 | bfd_link_hash_undefined _ => 1 | bfd_link_hash_undefweak _ => 2
  | bfd_link_hash_defined _ _ => 3 | bfd_link_hash_defweak _ _ => 4
  | bfd_link_hash_common _ _ _ => 5 | bfd_link_hash_indirect _ => 6 | bfd_link_hash_warning _ _ => 7
  end.

Definition action_of (row : link_row) (u : link_hash_type) : link_action :=
  nth (type_number u) (row_actions row) FAIL.

(** ** Pieces of the actions *)

Definition BSF_WEAK : Z := Z.shiftl 1 7.
Definition BSF_CONSTRUCTOR : Z := Z.shiftl 1 11.
Definition BSF_WARNING : Z := Z.shiftl 1 12.
Definition BSF_INDIRECT : Z := Z.shiftl 1 13.
Definition has_flag (flags f : Z) : bool := negb (Z.land flags f =? 0).

(** libbfd.c: [do ++result; while ((x >>= 1) != 0)]; 64 shifts leave nothing. *)
Fixpoint log2_loop (fuel : nat) (x result : Z) : res Z :=
  match fuel with
  | O => Fail Floop
  | S fuel' =>
      let result := u32 (result + 1) in
      let x := Z.shiftr x 1 in
      if x =? 0 then Ret result else log2_loop fuel' x result
  end.

Definition bfd_log2 (x : Z) : res Z := if x <=? 1 then Ret 0 else log2_loop 64 (x - 1) 0.

(** The default alignment of a common symbol. *)
Definition common_power (value : Z) : L Z :=
  fun st => match bfd_log2 value with
            | Ret power => Ret (if 4 <? power then 4 else power, st)
            | Fail f => Fail f
            end.

(** section.c, for a file whose output has not begun. *)
Definition bfd_make_section_old_way (abfd : bfd) (name : string) : asection :=
  if decide (name = "*ABS*") then bfd_abs_section
  else if decide (name = "*COM*") then bfd_com_section
  else if decide (name = "*UND*") then bfd_und_section
  else if decide (name = "*IND*") then bfd_ind_section
  else match section_named abfd name with
       | Some s => s
       | None => mk_sec (k_file (bfd_id abfd)) name false
       end.

(** The section of a common symbol; [SEC_ALLOC] is set on one looked up by name. *)
Definition common_section (abfd : bfd) (section : asection) : L asection :=
  if decide (section = bfd_com_section) then
    let s := bfd_make_section_old_way abfd "COMMON" in _ ← log (ev_section_alloc s); mret s
  else if negb (bool_decide (owner section = Some (bfd_id abfd))) then
    let s := bfd_make_section_old_way abfd (s_name section) in _ ← log (ev_section_alloc s); mret s
  else mret section.

(** [s[i]] *)
Definition char_at (s : string) (i : nat) : res Ascii.ascii :=
  match String.get i s with
  | Some c => Ret c
  | None => if (i =? String.length s)%nat then Ret NUL else Fail Foob
  end.

Fixpoint skip_underscores (s : string) : string :=
  match s with
  | String c s' => if decide (c = "_"%char) then skip_underscores s' else s
  | EmptyString => s
  end.

(** Whether a name is that of a global constructor ([Some true]) or destructor
    ([Some false]). *)
Definition constructor_name (name : string) : res (option bool) :=
  match name with
  | String c name' =>
      if decide (c = "_"%char) then
        let s := skip_underscores name' in
        if String.prefix "GLOBAL_" s then
          let! c := char_at s 8 in
          if bool_decide (c = "I"%char) || bool_decide (c = "D"%char) then
            let! a := char_at s 7 in
            let! b := char_at s 9 in
            Ret (if decide (a = b) then Some (bool_decide (c = "I"%char)) else None)
          else Ret None
        else Ret None
      else Ret None
  | EmptyString => Ret None
  end.

Definition lift {A : Type} (m : res A) : L A :=
  fun st => match m with Ret a => Ret (a, st) | Fail f => Fail f end.

(** [while (h->type == bfd_link_hash_warning) h = h->u.i.link;] and the [switch]. *)
Fixpoint hash_entry_bfd_loop (fuel : nat) (h : nat) : L (option nat) :=
  match fuel with
  | O => fail Floop
  | S fuel' =>
      e ← get_link h;
      match le_type e with
      | bfd_link_hash_warning l _ => hash_entry_bfd_loop fuel' l
      | bfd_link_hash_undefined abfd | bfd_link_hash_undefweak abfd => mret (Some abfd)
      | bfd_link_hash_defined section _ | bfd_link_hash_defweak section _ => mret (owner section)
      | bfd_link_hash_common _ _ section => mret (owner section)
      | _ => mret None
      end
  end.

Definition hash_entry_bfd (h : nat) : L (option nat) :=
  n ← gets (fun st => length (heap st)); hash_entry_bfd_loop (S n) h.

(** [h->u.i.link] *)
Definition link_of (h : nat) : L nat :=
  e ← get_link h;
  match le_type e with
  | bfd_link_hash_indirect l | bfd_link_hash_warning l _ => mret l
  | _ => fail Foob
  end.

(** The rows a symbol of the file is turned into, apart from [COMMON_ROW]'s
    message. *)
Definition symbol_row (flags : Z) (section : asection) : link_row :=
  if bfd_is_ind_section section || has_flag flags BSF_INDIRECT then INDR_ROW
  else if has_flag flags BSF_WARNING then WARN_ROW
  else if has_flag flags BSF_CONSTRUCTOR then SET_ROW
  else if bfd_is_und_section section then (if has_flag flags BSF_WEAK then UNDEFW_ROW else UNDEF_ROW)
  else if has_flag flags BSF_WEAK then DEFW_ROW
  else if bfd_is_com_section section then COMMON_ROW
  else DEF_ROW.

(** ** One turn of the loop *)
Section turn.
  Context (abfd : bfd) (name : string) (section : asection) (value : Z) (string : string)
    (copy collect : bool) (inh : nat).

(** [cycle] with the new row and entry, or the end with the value returned and
    what is stored in [*hashp] if it changes. *)
Inductive outcome : Type :=
| again (row : link_row) (h : nat)
| stop (ret : bool) (hashp : option nat).

Definition finish : L outcome := mret (stop true None).

Definition act_define (weak : bool) (h : nat) : L outcome :=
  e ← get_link h;
  _ ← upd h (set_type (if weak then bfd_link_hash_defweak section value
                       else bfd_link_hash_defined section value));
  _ ← upd h clear_linker_def;
  _ ← (if collect then
         c ← lift (constructor_name name);
         match c with
         | Some ctor =>
             match le_type e with
             | bfd_link_hash_defweak _ _ => fail Fabort
             | _ => log (ev_constructor ctor (le_string e) (bfd_id abfd) section value)
             end
         | None => mret tt
         end
       else mret tt);
  finish.

Definition act_common (h : nat) : L outcome :=
  e ← get_link h;
  _ ← when (bool_decide (le_type e = bfd_link_hash_new)) (bfd_link_add_undef h);
  if negb (has_memory SIZEOF_COMMON_ENTRY) then
    _ ← upd h (set_type (bfd_link_hash_common 0 0 bfd_und_section)); mret (stop false None)
  else
    power ← common_power value;
    s ← common_section abfd section;
    _ ← upd h (set_type (bfd_link_hash_common value power s));
    _ ← upd h clear_linker_def;
    finish.

Definition act_big (h : nat) : L outcome :=
  _ ← log (ev_multiple_common h (bfd_id abfd) 5 value);
  e ← get_link h;
  match le_type e with
  | bfd_link_hash_common size _ _ =>
      if size <? value then
        power ← common_power value;
        s ← common_section abfd section;
        _ ← upd h (set_type (bfd_link_hash_common value power s));
        finish
      else finish
  | _ => fail Foob
  end.

Definition act_mdef (h : nat) : L outcome :=
  _ ← log (ev_multiple_definition h (bfd_id abfd) section value); finish.

Definition act_ind (h : nat) : L outcome :=
  ei ← get_link inh;
  if bool_decide (le_type ei = bfd_link_hash_indirect h) then
    _ ← log (ev_error "%B: indirect symbol `%s' to `%s' is a loop"); mret (stop false None)
  else
    _ ← when (bool_decide (le_type ei = bfd_link_hash_new))
          (_ ← upd inh (set_type (bfd_link_hash_undefined (bfd_id abfd))); bfd_link_add_undef inh);
    e ← get_link h;
    _ ← upd h (set_type (bfd_link_hash_indirect inh));
    if bool_decide (le_type e = bfd_link_hash_new) then finish else mret (again UNDEF_ROW h).

Definition act_refer (h : nat) : L unit :=
  b ← unreferenced h; when b (upd h (set_next (Some h))).

Definition act_mwarn (h : nat) : L outcome :=
  e ← get_link h;
  if negb (has_memory SIZEOF_LINK_ENTRY) then mret (stop false None)
  else if copy && negb (has_memory (Z.of_nat (String.length string) + 1)) then mret (stop false None)
  else
    sub ← gets (fun st => length (heap st));
    _ ← modify (fun st => set_heap (heap st ++ [set_type (bfd_link_hash_warning h (Some string)) e]) st);
    _ ← replace_name h sub;
    mret (stop true (Some sub)).

Definition act_warn (h : nat) : L outcome :=
  e ← get_link h;
  b ← unreferenced h;
  if (negb (lto_plugin_active info) && negb b) || non_ir_ref_regular e || non_ir_ref_dynamic e then
    w ← hash_entry_bfd h;
    _ ← log (ev_warning string (le_string e) w);
    finish
  else act_mwarn h.

Definition act_warnc (row : link_row) (h : nat) : L outcome :=
  e ← get_link h;
  match le_type e with
  | bfd_link_hash_warning l (Some w) =>
      _ ← when (negb (bfd_plugin abfd))
            (_ ← log (ev_warning w (le_string e) (Some (bfd_id abfd)));
             upd h (set_type (bfd_link_hash_warning l None)));
      mret (again row l)
  | bfd_link_hash_warning l None => mret (again row l)
  | _ => fail Foob
  end.

Definition turn (row : link_row) (h : nat) : L outcome :=
  e ← get_link h;
  match action_of row (le_type e) with
  | FAIL => fail Fabort
  | NOACT => finish
  | UND =>
      _ ← upd h (set_type (bfd_link_hash_undefined (bfd_id abfd)));
      _ ← bfd_link_add_undef h;
      finish
  | WEAK => _ ← upd h (set_type (bfd_link_hash_undefweak (bfd_id abfd))); finish
  | CDEF => _ ← log (ev_multiple_common h (bfd_id abfd) 3 0); act_define false h
  | DEF => act_define false h
  | DEFW => act_define true h
  | COM => act_common h
  | REF => _ ← act_refer h; finish
  | BIG => act_big h
  | CREF => _ ← log (ev_multiple_common h (bfd_id abfd) 5 value); finish
  | MIND =>
      l ← link_of h;
      el ← get_link l;
      if decide (le_string el = string) then finish else act_mdef h
  | MDEF => act_mdef h
  | CIND => _ ← log (ev_multiple_common h (bfd_id abfd) 6 0); act_ind h
  | IND => act_ind h
  | SET => _ ← log (ev_add_to_set h (bfd_id abfd) section value); finish
  | WARNC => act_warnc row h
  | CYCLE => l ← link_of h; mret (again row l)
  | REFC => _ ← act_refer h; l ← link_of h; mret (again row l)
  | WARN => act_warn h
  | MWARN => act_mwarn h
  end.

(** The [do ... while (cycle)]. *)
Fixpoint turns (fuel : nat) (row : link_row) (h : nat) : L (bool * option nat) :=
  match fuel with
  | O => fail Floop
  | S fuel' =>
      o ← turn row h;
      match o with
      | again row h => turns fuel' row h
      | stop ret hashp => mret (ret, hashp)
      end
  end.
End turn.

(** The value returned and [*hashp] afterwards; [hashp] is not NULL.  A walk along
    the links turns once for each entry, and once more where it makes a link. *)
Definition _bfd_generic_link_add_one_symbol (abfd : bfd) (name : string) (flags : Z)
    (section : asection) (value : Z) (string : string) (copy collect : bool) (hashp : option nat)
  : L (bool * option nat) :=
  let row := symbol_row flags section in
  inh ← (match row with
         | INDR_ROW => bfd_wrapped_link_hash_lookup abfd string true copy false
         | _ => mret None
         end);
  match row, inh with
  | INDR_ROW, None => mret (false, hashp)
  | _, _ =>
      _ ← when (match row with COMMON_ROW => true | _ => false end && negb (relocatable info)
                && bool_decide (name = "__gnu_lto_slim"))
            (log (ev_error "%B: plugin needed to handle lto object"));
      h ← (match hashp with
           | Some h => mret (Some h)
           | None =>
               match row with
               | UNDEF_ROW | UNDEFW_ROW => bfd_wrapped_link_hash_lookup abfd name true copy false
               | _ => bfd_link_hash_lookup name true copy false
               end
           end);
      match h with
      | None => mret (false, None)
      | Some h =>
          let ev := ev_notice h inh (bfd_id abfd) section value flags in
          let noticed := notice_all info
                         || match notice_hash info with Some f => f name | None => false end in
          _ ← when noticed (log ev);
          if noticed && negb (notice ev) then mret (false, hashp)
          else
            n ← gets (fun st => length (heap st));
            '(ret, sub) ← turns abfd name section value string copy collect (default 0%nat inh)
                            (S (S (2 * n))) row h;
            mret (ret, match sub with Some s => Some s | None => Some h end)
      end
  end.
End link.

#[global] Instance link_row_eq_dec : EqDecision link_row.
Proof. solve_decision. Defined.
