(* ===== verification/LinkOk.v ===== *)
(** * The linker's symbol table stays well formed

    The invariant of bfd/linker.c's table (LinkAdd.v): the names are a finite map,
    every walk along indirect and warning links ends, and the list of undefined
    symbols is the list [us], holds every undefined symbol, and is left by no
    symbol.  [_bfd_generic_link_add_one_symbol] returns and keeps it, whatever it
    adds, as long as no indirect symbol closes a cycle. *)
From S2P Require Import Prelude BfdHash LinkAdd.
#[local] Open Scope Z_scope.

(** ** Links *)

(** The entry a symbol points at. *)
Definition link_target (u : link_hash_type) : option nat :=
  match u with
  | bfd_link_hash_indirect l | bfd_link_hash_warning l _ => Some l
  | _ => None
  end.

Definition links (hp : list link_entry) : list (option nat) := (fun e => link_target (le_type e)) <$> hp.

(** The walk from [p] ends after [n] links. *)
Inductive ends (ls : list (option nat)) : nat -> nat -> Prop :=
| ends_here (p : nat) : ls !! p = Some None -> ends ls p 0
| ends_link (p q n : nat) : ls !! p = Some (Some q) -> ends ls q n -> ends ls p (S n).

(** [p] leads to [q]. *)
Inductive leads (ls : list (option nat)) : nat -> nat -> Prop :=
| leads_here (p : nat) : leads ls p p
| leads_link (p q r : nat) : ls !! p = Some (Some q) -> leads ls q r -> leads ls p r.

Definition acyclic (ls : list (option nat)) : Prop :=
  forall p, (p < length ls)%nat -> exists n, ends ls p n.

Lemma ends_fun (ls : list (option nat)) (p n n' : nat) : ends ls p n -> ends ls p n' -> n = n'.
Proof.
  intros H. revert n'. induction H as [p Hp|p q n Hp _ IH]; intros n' H'; inversion H'; subst; try congruence.
  f_equal. apply IH. by simplify_eq.
Qed.

Lemma ends_lt (ls : list (option nat)) (p n : nat) : ends ls p n -> (p < length ls)%nat.
Proof. destruct 1; by eapply lookup_lt_Some. Qed.

(** The entries on the way. *)
Lemma ends_path (ls : list (option nat)) (p n : nat) :
  ends ls p n -> exists path, length path = S n /\ NoDup path
    /\ forall q, q ∈ path -> exists k, ends ls q k /\ (k <= n)%nat.
Proof.
  induction 1 as [p Hp|p q n Hp Hq (path & Hl & Hnd & Hpath)].
  - exists [p]. split; [done|]. split; [apply NoDup_singleton|].
    intros q ->%list_elem_of_singleton. exists 0%nat. split; [by constructor|lia].
  - exists (p :: path). split; [cbn; lia|]. split.
    + apply NoDup_cons. split; [|done]. intros Hin. destruct (Hpath p Hin) as (k & Hk & Hle).
      pose proof (ends_fun _ _ _ _ Hk (ends_link _ _ _ _ Hp Hq)). lia.
    + intros r [->|Hr]%elem_of_cons; [exists (S n); split; [by econstructor|lia]|].
      destruct (Hpath r Hr) as (k & Hk & Hle). exists k. split; [done|lia].
Qed.

(** A walk has fewer links than there are entries. *)
Lemma ends_bound (ls : list (option nat)) (p n : nat) : ends ls p n -> (n < length ls)%nat.
Proof.
  intros H. destruct (ends_path ls p n H) as (path & Hl & Hnd & Hpath).
  assert (Hsub : path ⊆+ seq 0 (length ls)).
  { apply NoDup_submseteq; [done|]. intros q Hq. destruct (Hpath q Hq) as (k & Hk & _).
    apply elem_of_seq. pose proof (ends_lt _ _ _ Hk). lia. }
  apply submseteq_length in Hsub. rewrite length_seq in Hsub. lia.
Qed.

(** Changing an entry the walk does not meet. *)
Lemma ends_insert (ls : list (option nat)) (h p n : nat) (o : option nat) :
  ends ls p n -> ~ leads ls p h -> ends (<[h := o]> ls) p n.
Proof.
  induction 1 as [p Hp|p q n Hp _ IH]; intros Hno.
  - constructor. rewrite list_lookup_insert_ne; [done|]. intros ->. apply Hno. constructor.
  - apply (ends_link _ _ q).
    + rewrite list_lookup_insert_ne; [done|]. intros ->. apply Hno. constructor.
    + apply IH. intros Hl. apply Hno. by econstructor.
Qed.

Lemma acyclic_cut (ls : list (option nat)) (h : nat) : acyclic ls -> acyclic (<[h := None]> ls).
Proof.
  intros Ha p Hp. rewrite length_insert in Hp. destruct (Ha p Hp) as [n Hn]. clear Hp.
  induction Hn as [p Hp|p q n Hp _ [k IH]].
  - exists 0%nat. constructor. apply list_lookup_insert_Some. destruct (decide (h = p)) as [->|]; [left|by right].
    split_and!; try done. by eapply lookup_lt_Some.
  - destruct (decide (h = p)) as [->|Hne].
    + exists 0%nat. constructor. apply list_lookup_insert_eq. by eapply lookup_lt_Some.
    + exists (S k). econstructor; [|exact IH]. by rewrite list_lookup_insert_ne.
Qed.

(** A new link from an entry that its target does not lead to. *)
Lemma acyclic_link (ls : list (option nat)) (h q : nat) :
  acyclic ls -> (q < length ls)%nat -> ~ leads ls q h -> acyclic (<[h := Some q]> ls).
Proof.
  intros Ha Hq Hno p Hp. rewrite length_insert in Hp.
  destruct (Ha q Hq) as [nq Hnq]. pose proof (ends_insert _ _ _ _ (Some q) Hnq Hno) as Hq'.
  destruct (Ha p Hp) as [n Hn]. clear Hp. induction Hn as [p Hp|p r n Hp _ [k IH]].
  all: destruct (decide (h = p)) as [->|Hne];
    [exists (S nq); apply (ends_link _ _ q); [apply list_lookup_insert_eq; by eapply lookup_lt_Some|done]|].
  - exists 0%nat. constructor. by rewrite list_lookup_insert_ne.
  - exists (S k). apply (ends_link _ _ r); [by rewrite list_lookup_insert_ne|done].
Qed.

Lemma ends_app (ls : list (option nat)) (o : option nat) (p n : nat) : ends ls p n -> ends (ls ++ [o]) p n.
Proof.
  induction 1 as [p Hp|p q n Hp _ IH].
  - constructor. by apply lookup_app_l_Some.
  - apply (ends_link _ _ q); [by apply lookup_app_l_Some|done].
Qed.

Lemma acyclic_app (ls : list (option nat)) (o : option nat) :
  acyclic ls -> match o with Some q => (q < length ls)%nat | None => True end -> acyclic (ls ++ [o]).
Proof.
  intros Ha Ho p Hp. rewrite length_app in Hp. cbn in Hp.
  destruct (decide (p = length ls)) as [->|Hne].
  - destruct o as [q|].
    + destruct (Ha q Ho) as [n Hn]. exists (S n). apply (ends_link _ _ q); [by apply list_lookup_middle|].
      by apply ends_app.
    + exists 0%nat. constructor. by apply list_lookup_middle.
  - destruct (Ha p) as [n Hn]; [lia|]. exists n. by apply ends_app.
Qed.

(** ** The invariant *)

Definition is_warning (u : link_hash_type) : Prop :=
  match u with bfd_link_hash_warning _ _ => True | _ => False end.
Definition is_undefined (u : link_hash_type) : Prop :=
  match u with bfd_link_hash_undefined _ => True | _ => False end.
(** Types of symbols never referenced strongly. *)
Definition is_blank (u : link_hash_type) : Prop :=
  match u with bfd_link_hash_new | bfd_link_hash_undefweak _ => True | _ => False end.

(** [next] of an entry outside the list is NULL or marks the entry as referenced;
    undefined symbols are on the list, untouched and weak ones are not. *)
Record entry_ok (us : list nat) (p : nat) (u : link_hash_type) (next : option nat) : Prop := {
  eo_off : p ∉ us -> next = None \/ next = Some p \/ is_warning u;
  eo_undefined : is_undefined u -> p ∈ us;
  eo_blank : is_blank u -> p ∉ us /\ next = None
}.

Section state.
  Context {T : Type} {ops : StringTable link_entry T} {memory : Memory}.
  Context {laws : StringTableLaws link_entry T fresh_entry}.
  Implicit Types (st : link_state T) (m : gmap string nat) (us : list nat).

(** The invariant, but for what [entry_ok] says of [x]. *)
Record okx (x : option nat) st m us : Prop := {
  ok_names : st_holds (heap st) (names st) m;
  ok_links : acyclic (links (heap st));
  ok_head : undefs st = head us;
  ok_tail : undefs_tail st = last us;
  ok_chain : forall i p, us !! i = Some p -> le_next <$> heap st !! p = Some (us !! S i);
  ok_nodup : NoDup us;
  ok_entries : forall p e, Some p <> x -> heap st !! p = Some e -> entry_ok us p (le_type e) (le_next e)
}.

Definition ok st m us : Prop := okx None st m us.

Lemma ok_weaken (x : option nat) st m us : ok st m us -> okx x st m us.
Proof. intros [H1 H2 H3 H4 H5 H6 H7]. split; try done. intros p e _ Hp. by apply H7. Qed.

Lemma ok_close (h : nat) (e : link_entry) st m us :
  okx (Some h) st m us -> heap st !! h = Some e -> entry_ok us h (le_type e) (le_next e) -> ok st m us.
Proof.
  intros [H1 H2 H3 H4 H5 H6 H7] He Hok. split; try done. intros p e' _ Hp.
  destruct (decide (p = h)) as [->|Hne]; [by assert (e' = e) as -> by congruence|]. apply H7; [congruence|done].
Qed.

(** The same entry with another type, [next] or flag. *)
Definition same_name (e e' : link_entry) : Prop := le_string e' = le_string e /\ le_hash e' = le_hash e.

Lemma heap_roots (hp : list link_entry) (h : nat) (e e' : link_entry) :
  hp !! h = Some e -> same_name e e' ->
  le_string <$> <[h := e']> hp = le_string <$> hp /\ le_hash <$> <[h := e']> hp = le_hash <$> hp.
Proof.
  intros He [Hs Hh].
  split; (rewrite list_fmap_insert; apply list_insert_id; rewrite list_lookup_fmap, He; cbn; congruence).
Qed.

Lemma links_insert (hp : list link_entry) (h : nat) (e : link_entry) :
  links (<[h := e]> hp) = <[h := link_target (le_type e)]> (links hp).
Proof. unfold links. by rewrite list_fmap_insert. Qed.

Lemma links_lookup (hp : list link_entry) (p : nat) (e : link_entry) :
  hp !! p = Some e -> links hp !! p = Some (link_target (le_type e)).
Proof. unfold links. rewrite list_lookup_fmap. by intros ->. Qed.

(** Changing one entry. *)
Lemma ok_put_open st m us (h : nat) (e e' : link_entry) :
  okx (Some h) st m us -> heap st !! h = Some e -> same_name e e' ->
  (h ∈ us -> le_next e' = le_next e) ->
  acyclic (<[h := link_target (le_type e')]> (links (heap st))) ->
  okx (Some h) (set_heap (<[h := e']> (heap st)) st) m us.
Proof.
  intros [H1 H2 H3 H4 H5 H6 H7] He Hn Hnext Hac. destruct (heap_roots _ _ _ _ He Hn) as [Hs Hh].
  split; [by eapply st_update|by cbn; rewrite links_insert|done|done| |done|].
  - intros i p Hi. cbn. destruct (decide (h = p)) as [->|Hne].
    + rewrite list_lookup_insert_eq by (by eapply lookup_lt_Some). cbn. rewrite Hnext.
      * rewrite <- (H5 i p Hi), He. done.
      * by eapply list_elem_of_lookup_2.
    + rewrite list_lookup_insert_ne by done. by apply H5.
  - intros p e2 Hp. cbn. rewrite list_lookup_insert_ne by congruence. by apply H7.
Qed.

(** Changing one entry to a good one. *)
Lemma ok_set st m us (h : nat) (e e' : link_entry) :
  ok st m us -> heap st !! h = Some e -> same_name e e' -> le_next e' = le_next e ->
  acyclic (<[h := link_target (le_type e')]> (links (heap st))) ->
  entry_ok us h (le_type e') (le_next e') ->
  ok (set_heap (<[h := e']> (heap st)) st) m us.
Proof.
  intros Hok He Hn Hnext Hac Hent. apply (ok_close h e'); [|by apply list_lookup_insert_eq; eapply lookup_lt_Some|done].
  apply (ok_put_open st m us h e e'); [by apply ok_weaken|done|done|done|done].
Qed.

(** ** Running the operations *)

Lemma lbind_ret {A B : Type} (k : A -> L B) (c : L A) st st' (a : A) :
  c st = Ret (a, st') -> (x ← c; k x) st = k a st'.
Proof. unfold mbind, L_bind. by intros ->. Qed.

Lemma get_link_ret st (h : nat) (e : link_entry) : heap st !! h = Some e -> get_link h st = Ret (e, st).
Proof. unfold get_link. by intros ->. Qed.

Lemma upd_ret st (h : nat) (e : link_entry) (f : link_entry -> link_entry) :
  heap st !! h = Some e -> upd h f st = Ret (tt, set_heap (<[h := f e]> (heap st)) st).
Proof. intros He. unfold upd. by rewrite (lbind_ret _ _ _ _ _ (get_link_ret _ _ _ He)). Qed.

(** [lnext E] runs the step that the equation [E] is about; [lread He] one that
    reads the entry. *)
Ltac lnext E := rewrite (lbind_ret _ _ _ _ _ E); cbv beta iota.
Ltac lread He := lnext (get_link_ret _ _ _ He).

Definition types st : list link_hash_type := le_type <$> heap st.

Lemma types_lookup st (h : nat) (e : link_entry) : heap st !! h = Some e -> types st !! h = Some (le_type e).
Proof. unfold types. rewrite list_lookup_fmap. by intros ->. Qed.

Lemma types_insert st (h : nat) (e : link_entry) :
  types (set_heap (<[h := e]> (heap st)) st) = <[h := le_type e]> (types st).
Proof. unfold types. cbn. by rewrite list_fmap_insert. Qed.

Lemma types_same st (h : nat) (e e' : link_entry) :
  heap st !! h = Some e -> le_type e' = le_type e ->
  types (set_heap (<[h := e']> (heap st)) st) = types st.
Proof.
  intros He Ht. rewrite types_insert, Ht. apply list_insert_id. by apply types_lookup.
Qed.

Lemma acyclic_same st (h : nat) (e e' : link_entry) :
  acyclic (links (heap st)) -> heap st !! h = Some e -> link_target (le_type e') = link_target (le_type e) ->
  acyclic (<[h := link_target (le_type e')]> (links (heap st))).
Proof. intros Ha He ->. rewrite list_insert_id; [done|]. by apply links_lookup. Qed.

(** Entries off the list that are not referenced. *)
Lemma entry_ok_off (us : list nat) (h p : nat) (u : link_hash_type) (n : option nat) :
  p <> h -> entry_ok us p u n -> entry_ok (us ++ [h]) p u n.
Proof.
  intros Hne [H1 H2 H3]. split.
  - intros Hp. apply H1. set_solver.
  - intros Hu. specialize (H2 Hu). set_solver.
  - intros Hb. destruct (H3 Hb). set_solver.
Qed.

Lemma head_snoc (us : list nat) (h : nat) :
  head (us ++ [h]) = match head us with Some u => Some u | None => Some h end.
Proof. by destruct us. Qed.

Lemma nodup_snoc (us : list nat) (h : nat) : NoDup us -> h ∉ us -> NoDup (us ++ [h]).
Proof. intros Hu Hh. apply NoDup_app. split_and!; [done|set_solver|apply NoDup_singleton]. Qed.

(** Appending to the list an entry that is not on it. *)
Lemma add_undef_ok st m us (h : nat) (e : link_entry) :
  okx (Some h) st m us -> heap st !! h = Some e -> h ∉ us -> le_next e = None ->
  exists st', bfd_link_add_undef h st = Ret (tt, st') /\ okx (Some h) st' m (us ++ [h])
    /\ heap st' !! h = Some e /\ types st' = types st /\ events st' = events st.
Proof.
  intros [H1 H2 H3 H4 H5 H6 H7] He Hh Hn. unfold bfd_link_add_undef. lread He.
  rewrite bool_decide_eq_true_2 by done. cbn [BFD_ASSERT when negb].
  erewrite lbind_ret; [|reflexivity]. erewrite lbind_ret; [|reflexivity]. rewrite H4.
  destruct (last us) as [tl|] eqn:Hl.
  - apply last_Some in Hl as [us0 ->]. set (us := us0 ++ [tl]) in *.
    assert (Htl : us !! length us0 = Some tl) by by apply list_lookup_middle.
    pose proof (H5 _ _ Htl) as Hc. destruct (heap st !! tl) as [et|] eqn:Het; [|done]. cbn in Hc.
    injection Hc as Hc. rewrite (lookup_ge_None_2 us) in Hc by (unfold us; rewrite length_app; cbn; lia).
    assert (Hne : tl <> h) by (intros ->; apply Hh; by eapply list_elem_of_lookup_2).
    lnext (upd_ret _ _ _ (set_next (Some h)) Het). erewrite lbind_ret; [|reflexivity].
    eexists. split; [reflexivity|]. cbn [heap names undefs undefs_tail events set_heap].
    assert (Hroot : same_name et (set_next (Some h) et)) by done.
    destruct (heap_roots _ _ _ _ Het Hroot) as [Hs Hhs].
    split; [|split; [by rewrite list_lookup_insert_ne|split; [by eapply types_same|done]]].
    split; cbn [heap names undefs undefs_tail events set_heap]; [by eapply st_update| | | | |by apply nodup_snoc|].
    + rewrite links_insert. by eapply acyclic_same.
    + by rewrite head_snoc, H3.
    + by rewrite last_snoc.
    + intros i p Hi. destruct (decide (i = length us)) as [->|Hil].
      * rewrite list_lookup_middle in Hi by done. injection Hi as <-.
        rewrite list_lookup_insert_ne, He by done. cbn. rewrite Hn. f_equal. symmetry.
        apply lookup_ge_None_2. rewrite length_app. cbn. lia.
      * pose proof (lookup_lt_Some _ _ _ Hi) as Hlt. rewrite length_app in Hlt. cbn in Hlt.
        rewrite lookup_app_l in Hi by lia. destruct (decide (tl = p)) as [<-|Hp].
        -- rewrite list_lookup_insert_eq by (by eapply lookup_lt_Some). cbn. f_equal. symmetry.
           assert (i = length us0) as -> by (by eapply (NoDup_lookup us)).
           apply list_lookup_middle. unfold us. rewrite length_app. cbn. lia.
        -- rewrite list_lookup_insert_ne, (H5 i p Hi) by done. f_equal. symmetry.
           apply lookup_app_l. assert (i <> length us0) by congruence.
           unfold us in *. rewrite length_app in *. cbn in *. lia.
    + intros p e2 Hp He2. destruct (decide (tl = p)) as [<-|Hpt].
      * rewrite list_lookup_insert_eq in He2 by (by eapply lookup_lt_Some). injection He2 as <-.
        destruct (H7 tl et) as [E1 E2 E3]; [congruence|done|].
        assert (Hin : tl ∈ us) by (by eapply list_elem_of_lookup_2).
        split; cbn; [set_solver|set_solver|]. intros Hb. destruct (E3 Hb). set_solver.
      * rewrite list_lookup_insert_ne in He2 by done. apply entry_ok_off; [congruence|]. by apply H7.
  - apply last_None in Hl as ->. erewrite lbind_ret; [|reflexivity]. erewrite lbind_ret; [|reflexivity].
    eexists. split; [reflexivity|]. split; [|by split_and!].
    split; cbn [heap names undefs undefs_tail events]; [done|done|by rewrite H3|done| |by apply NoDup_singleton|].
    + intros i p Hi. apply list_lookup_singleton_Some in Hi as [-> <-]. rewrite He. cbn. by rewrite Hn.
    + intros p e2 Hp He2. apply (entry_ok_off []); [congruence|]. by apply H7.
Qed.

(** ** The actions *)
Section act.
  Context (info : bfd_link_info) (section_named : bfd -> string -> option asection).
  Context (Hmem : forall n, has_memory n = true).
  Context (abfd : bfd) (name : string) (section : asection) (value : Z) (string : string)
    (copy collect : bool) (inh : nat).
  Context (Hvalue : 0 <= value < 2 ^ 64).

(** [c] returns [a], leaves the table well formed with [us'] as its list and the
    entries' types as [ts]. *)
Definition leaves {A : Type} (c : L A) st m (a : A) (ts : list link_hash_type) (us' : list nat)
    (evs : list link_event) : Prop :=
  exists st', c st = Ret (a, st') /\ ok st' m us' /\ types st' = ts /\ events st' = events st ++ evs.

(** A type that needs no link and no place on the list. *)
Definition settled (u : link_hash_type) : Prop :=
  ~ is_blank u /\ ~ is_undefined u /\ ~ is_warning u /\ link_target u = None.

(** On the list, or off it as entries are. *)
Definition put_by (us : list nat) (h : nat) (e : link_entry) : Prop :=
  h ∈ us \/ le_next e = None \/ le_next e = Some h.

Lemma ok_put_by st m us (h : nat) (e : link_entry) :
  ok st m us -> heap st !! h = Some e -> ~ is_warning (le_type e) -> put_by us h e.
Proof.
  intros Hok He Hw. destruct (ok_entries _ _ _ _ Hok h e) as [E1 _ _]; [done|done|].
  destruct (decide (h ∈ us)) as [?|Hh]; [by left|]. destruct (E1 Hh) as [?|[?|?]]; [by right; left|by right; right|done].
Qed.

Lemma ok_settle st m us (h : nat) (e e' : link_entry) :
  okx (Some h) st m us -> heap st !! h = Some e -> same_name e e' -> le_next e' = le_next e ->
  put_by us h e -> settled (le_type e') ->
  ok (set_heap (<[h := e']> (heap st)) st) m us.
Proof.
  intros Hok He Hn Hnext Hp (S1 & S2 & S3 & S4).
  apply (ok_close h e'); [|by apply list_lookup_insert_eq; eapply lookup_lt_Some|].
  - apply (ok_put_open st m us h e e'); try done. rewrite S4. apply acyclic_cut, Hok.
  - rewrite Hnext. split; [|tauto|tauto]. intros Hh. destruct Hp as [?|[?|?]]; tauto.
Qed.

(** The state with events added. *)
Definition add_events (evs : list link_event) st : link_state T :=
  mk_state (heap st) (names st) (undefs st) (undefs_tail st) (events st ++ evs).

Lemma add_nothing st : add_events [] st = st.
Proof. unfold add_events. rewrite app_nil_r. by destruct st. Qed.

Lemma okx_events (x : option nat) (evs : list link_event) st m us :
  okx x st m us -> okx x (add_events evs st) m us.
Proof. by intros [H1 H2 H3 H4 H5 H6 H7]; split. Qed.

Lemma put_events (hp : list link_entry) st : events (set_heap hp st) = events st.
Proof. done. Qed.

Lemma log_ok (ev : link_event) st m us :
  ok st m us -> leaves (log ev) st m tt (types st) us [ev].
Proof. intros [H1 H2 H3 H4 H5 H6 H7]. eexists. split; [reflexivity|]. by split; [split|]. Qed.

Lemma und_ok st m us (h : nat) (e : link_entry) :
  ok st m us -> heap st !! h = Some e -> is_blank (le_type e) ->
  leaves (_ ← upd h (set_type (bfd_link_hash_undefined (bfd_id abfd))); bfd_link_add_undef h) st m tt
    (<[h := bfd_link_hash_undefined (bfd_id abfd)]> (types st)) (us ++ [h]) [].
Proof.
  intros Hok He Hb. set (e' := set_type (bfd_link_hash_undefined (bfd_id abfd)) e).
  destruct (eo_blank _ _ _ _ (ok_entries _ _ _ _ Hok h e ltac:(done) He) Hb) as [Hh Hn].
  unfold leaves. lnext (upd_ret _ _ _ (set_type (bfd_link_hash_undefined (bfd_id abfd))) He).
  assert (He' : heap (set_heap (<[h := e']> (heap st)) st) !! h = Some e')
    by (apply list_lookup_insert_eq; by eapply lookup_lt_Some).
  destruct (add_undef_ok (set_heap (<[h := e']> (heap st)) st) m us h e') as (st' & E & Hok' & Hl & Ht & Hev).
  - apply (ok_put_open st m us h e); [by apply ok_weaken|done|done|done|].
    cbn. apply acyclic_cut, Hok.
  - exact He'.
  - done.
  - exact Hn.
  - exists st'. split; [exact E|]. split; [|split].
    + apply (ok_close h e'); [done|done|]. split; cbn; [set_solver|set_solver|done].
    + by rewrite Ht, types_insert.
    + by rewrite Hev, app_nil_r.
Qed.

Lemma set_weak_ok st m us (h : nat) (e : link_entry) :
  ok st m us -> heap st !! h = Some e -> is_blank (le_type e) ->
  leaves (upd h (set_type (bfd_link_hash_undefweak (bfd_id abfd)))) st m tt
    (<[h := bfd_link_hash_undefweak (bfd_id abfd)]> (types st)) us [].
Proof.
  intros Hok He Hb. unfold leaves. rewrite (upd_ret _ _ _ (set_type _) He). eexists. split; [reflexivity|].
  split; [|split; [apply types_insert|by rewrite app_nil_r]].
  eapply ok_set; eauto; [done|apply acyclic_cut, Hok|].
  destruct (ok_entries _ _ _ _ Hok h e) as [E1 E2 E3]; [done|done|]. split; cbn; [|done|by intros _; apply E3].
  intros Hh. destruct (E3 Hb) as [_ ?]. by left.
Qed.

Definition def_type (weak : bool) : link_hash_type :=
  if weak then bfd_link_hash_defweak section value else bfd_link_hash_defined section value.

(** What the test for constructors does when a symbol of type [u] is defined: it reads
    past the end of the name, or aborts on a second definition. *)
Definition ctor_fault (u : link_hash_type) : option fault :=
  if collect then
    match constructor_name name, u with
    | Fail f, _ => Some f
    | Ret (Some _), bfd_link_hash_defweak _ _ => Some Fabort
    | Ret _, _ => None
    end
  else None.

Definition ctor_events (e : link_entry) : list link_event :=
  if collect then
    match constructor_name name with
    | Ret (Some ctor) => [ev_constructor ctor (le_string e) (bfd_id abfd) section value]
    | _ => []
    end
  else [].

Lemma ctor_no_assert (e : link_entry) : ev_assert ∉ ctor_events e.
Proof. unfold ctor_events. repeat case_match; try set_solver; by intros ?%list_elem_of_singleton. Qed.

Lemma define_fault (weak : bool) (f : fault) st (h : nat) (e : link_entry) :
  heap st !! h = Some e -> ctor_fault (le_type e) = Some f ->
  act_define abfd name section value collect weak h st = Fail f.
Proof.
  intros He Hf. unfold act_define. lread He. lnext (upd_ret _ _ _ (set_type (def_type weak)) He).
  assert (He1 : heap (set_heap (<[h := set_type (def_type weak) e]> (heap st)) st) !! h = Some (set_type (def_type weak) e))
    by (apply list_lookup_insert_eq; by eapply lookup_lt_Some).
  lnext (upd_ret _ _ _ clear_linker_def He1). unfold ctor_fault in Hf. destruct collect; [|done].
  unfold mbind at 1, L_bind, lift. unfold mbind at 1.
  destruct (constructor_name name) as [[ctor|]|f0]; [|done|by injection Hf as ->].
  destruct (le_type e); try done. by injection Hf as <-.
Qed.

Lemma define_ok (weak : bool) st m us (h : nat) (e : link_entry) :
  ok st m us -> heap st !! h = Some e -> ~ is_warning (le_type e) -> ctor_fault (le_type e) = None ->
  leaves (act_define abfd name section value collect weak h) st m (stop true None)
    (<[h := def_type weak]> (types st)) us (ctor_events e).
Proof.
  intros Hok He Hw Hcf. unfold act_define, leaves. lread He. fold (def_type weak).
  lnext (upd_ret _ _ _ (set_type (def_type weak)) He).
  set (st1 := set_heap (<[h := set_type (def_type weak) e]> (heap st)) st).
  assert (He1 : heap st1 !! h = Some (set_type (def_type weak) e))
    by (apply list_lookup_insert_eq; by eapply lookup_lt_Some).
  assert (Hset : settled (def_type weak)) by (destruct weak; split_and!; cbn; tauto).
  assert (Hok1 : ok st1 m us).
  { eapply ok_settle; [by apply ok_weaken|exact He|done|done|by eapply ok_put_by|done]. }
  lnext (upd_ret _ _ _ clear_linker_def He1).
  assert (Hcol : forall s : link_state T, (if collect then
         c ← lift (constructor_name name);
         match c with
         | Some ctor =>
             match le_type e with
             | bfd_link_hash_defweak _ _ => fail Fabort
             | _ => log (ev_constructor ctor (le_string e) (bfd_id abfd) section value)
             end
         | None => mret tt
         end
       else mret tt) s = Ret (tt, add_events (ctor_events e) s)).
  { intros s. unfold ctor_events, ctor_fault in *. destruct collect; [|by rewrite add_nothing].
    unfold lift, mbind, L_bind. destruct (constructor_name name) as [[ctor|]|]; [|by rewrite add_nothing|done].
    by destruct (le_type e). }
  rewrite (lbind_ret _ _ _ _ _ (Hcol _)). cbv beta iota. eexists. split; [reflexivity|]. split.
  - apply okx_events. eapply ok_settle; [by apply ok_weaken|exact He1|done|done| |done].
    eapply ok_put_by; eauto. by destruct Hset as (_ & _ & ? & _).
  - split; [|done].
    change (types (add_events ?l ?s')) with (types s').
    rewrite (types_same _ _ _ _ He1) by done. by unfold st1; rewrite types_insert.
Qed.

(** ** Common symbols *)

Lemma log2_loop_spec (fuel : nat) (x result : Z) :
  1 <= x < 2 ^ Z.of_nat fuel -> 0 <= result -> result + Z.of_nat fuel < 2 ^ 32 ->
  log2_loop fuel x result = Ret (result + Z.log2 x + 1).
Proof.
  revert x result. induction fuel as [|fuel IH]; intros x result Hx H0 H1; [change (2 ^ Z.of_nat 0) with 1 in Hx; lia|].
  cbn [log2_loop]. rewrite u32_small by lia. rewrite Z.shiftr_div_pow2 by lia. change (2 ^ 1) with 2.
  destruct (Z.eqb_spec (x / 2) 0) as [Hz|Hz].
  - assert (x = 1) as -> by (Z.to_euclidean_division_equations; lia). f_equal. change (Z.log2 1) with 0. lia.
  - rewrite Nat2Z.inj_succ, Z.pow_succ_r in Hx by lia. rewrite IH.
    + f_equal. assert (1 < x) by (Z.to_euclidean_division_equations; lia).
      rewrite <- Z.div2_div. pose proof (Z.log2_shiftr x 1) as Hs. rewrite Z.shiftr_div_pow2 in Hs by lia.
      change (2 ^ 1) with 2 in Hs. rewrite Z.div2_div, Hs by lia.
      assert (1 <= Z.log2 x) by (apply Z.log2_pos in H; lia). lia.
    + Z.to_euclidean_division_equations. lia.
    + lia.
    + lia.
Qed.

(** The base-2 logarithm rounded up. *)
Lemma bfd_log2_spec (x : Z) : 0 <= x < 2 ^ 64 -> bfd_log2 x = Ret (Z.log2_up x).
Proof.
  intros Hx. unfold bfd_log2. destruct (Z.leb_spec x 1) as [H|H].
  - by rewrite Z.log2_up_eqn0.
  - rewrite log2_loop_spec by (cbn; lia). rewrite Z.log2_up_eqn by lia. unfold Z.succ, Z.pred. by rewrite Z.add_0_l.
Qed.

Lemma common_power_ret st : common_power value st = Ret (Z.min 4 (Z.log2_up value), st).
Proof.
  unfold common_power. rewrite bfd_log2_spec by done. do 2 f_equal.
  destruct (Z.ltb_spec 4 (Z.log2_up value)); lia.
Qed.

(** The section a common symbol is put in, and the event that flags it. *)
Definition common_home : asection * list link_event :=
  if decide (section = bfd_com_section) then
    let s := bfd_make_section_old_way section_named abfd "COMMON" in (s, [ev_section_alloc s])
  else if decide (owner section = Some (bfd_id abfd)) then (section, [])
  else let s := bfd_make_section_old_way section_named abfd (s_name section) in (s, [ev_section_alloc s]).

Definition com_type : link_hash_type :=
  bfd_link_hash_common value (Z.min 4 (Z.log2_up value)) common_home.1.

Lemma common_section_ret st :
  common_section section_named abfd section st = Ret (common_home.1, add_events common_home.2 st).
Proof.
  unfold common_section, common_home. destruct (decide (section = bfd_com_section)); [done|].
  destruct (decide (owner section = Some (bfd_id abfd))) as [Ho|Ho].
  - rewrite bool_decide_eq_true_2 by done. cbn. unfold mret, L_ret, add_events. rewrite app_nil_r. by destruct st.
  - by rewrite bool_decide_eq_false_2.
Qed.

(** What both common actions do, before whatever [k] does. *)
Lemma make_common_ok {A : Type} (k : L A) st m us (h : nat) (e : link_entry) :
  okx (Some h) st m us -> heap st !! h = Some e -> put_by us h e ->
  exists st', (power ← common_power value; s ← common_section section_named abfd section;
               _ ← upd h (set_type (bfd_link_hash_common value power s)); k) st = k st'
    /\ ok st' m us /\ types st' = <[h := com_type]> (types st) /\ events st' = events st ++ common_home.2.
Proof.
  intros Hok He Hp. lnext (common_power_ret st). lnext (common_section_ret st). fold com_type.
  set (st1 := add_events _ st). assert (He1 : heap st1 !! h = Some e) by exact He.
  lnext (upd_ret _ _ _ (set_type com_type) He1). eexists. split; [reflexivity|].
  split; [|split; [apply (types_insert st1)|done]].
  eapply ok_settle; [by apply okx_events|exact He1|done|done|done|]. split_and!; cbn; tauto.
Qed.

(** The entry behind a type. *)
Lemma types_entry st (h : nat) (u : link_hash_type) :
  types st !! h = Some u -> exists e, heap st !! h = Some e /\ le_type e = u.
Proof.
  unfold types. rewrite list_lookup_fmap. destruct (heap st !! h) as [e|]; [|done].
  intros [= <-]. by exists e.
Qed.

(** [leaves] in sequence. *)
Lemma leaves_bind {A B : Type} (c : L A) (k : A -> L B) st m (a : A) (b : B) (ts ts' : list link_hash_type)
    (us us' : list nat) (evs evs' : list link_event) :
  leaves c st m a ts us evs ->
  (forall st1, ok st1 m us -> types st1 = ts -> leaves (k a) st1 m b ts' us' evs') ->
  leaves (x ← c; k x) st m b ts' us' (evs ++ evs').
Proof.
  intros (st1 & E & Hok & Ht & Hev) Hk. destruct (Hk st1 Hok Ht) as (st2 & E2 & Hok2 & Ht2 & Hev2).
  exists st2. unfold leaves. lnext E. split; [exact E2|]. split; [done|]. split; [done|].
  by rewrite Hev2, Hev, app_assoc.
Qed.

Lemma leaves_ret {A : Type} (a : A) st m us : ok st m us -> leaves (mret a) st m a (types st) us [].
Proof. intros Hok. exists st. split_and!; try done. by rewrite app_nil_r. Qed.

Lemma linker_def_ok st m us (h : nat) (u : link_hash_type) :
  ok st m us -> types st !! h = Some u -> leaves (upd h clear_linker_def) st m tt (types st) us [].
Proof.
  intros Hok Hu. destruct (types_entry st h u Hu) as (e & He & _).
  unfold leaves. rewrite (upd_ret _ _ _ clear_linker_def He). eexists. split; [reflexivity|].
  split; [|split; [by apply (types_same st h e)|by rewrite app_nil_r]].
  eapply ok_set; eauto; [done|eapply acyclic_same; [apply Hok|exact He|done]|].
  by apply (ok_entries _ _ _ _ Hok h e).
Qed.

(** Which entries [COM] adds to the list: only new ones. *)
Definition com_list (us : list nat) (h : nat) (u : link_hash_type) : list nat :=
  if decide (u = bfd_link_hash_new) then us ++ [h] else us.

Lemma insert_idem (ts : list link_hash_type) (h : nat) (u : link_hash_type) :
  ts !! h = Some u -> <[h := u]> ts = ts.
Proof. apply list_insert_id. Qed.

Lemma types_lt st (h : nat) (e : link_entry) : heap st !! h = Some e -> (h < length (types st))%nat.
Proof. unfold types. rewrite length_fmap. apply lookup_lt_Some. Qed.

Lemma common_ok st m us (h : nat) (e : link_entry) :
  ok st m us -> heap st !! h = Some e -> ~ is_warning (le_type e) ->
  leaves (act_common section_named abfd section value h) st m (stop true None)
    (<[h := com_type]> (types st)) (com_list us h (le_type e)) common_home.2.
Proof.
  intros Hok He Hw. unfold act_common, leaves. lread He. rewrite Hmem. cbn [negb].
  assert (exists st1, when (bool_decide (le_type e = bfd_link_hash_new)) (bfd_link_add_undef h) st = Ret (tt, st1)
    /\ okx (Some h) st1 m (com_list us h (le_type e)) /\ heap st1 !! h = Some e /\ types st1 = types st
    /\ events st1 = events st /\ put_by (com_list us h (le_type e)) h e)
    as (st1 & E & Hok1 & He1 & Ht1 & Hev1 & Hp1).
  { unfold com_list. destruct (decide (le_type e = bfd_link_hash_new)) as [Hn|Hn].
    - rewrite bool_decide_eq_true_2 by done. cbn [when].
      destruct (eo_blank _ _ _ _ (ok_entries _ _ _ _ Hok h e ltac:(done) He)) as [Hh Hnx]; [by rewrite Hn|].
      destruct (add_undef_ok st m us h e (ok_weaken _ _ _ _ Hok) He Hh Hnx) as (st1 & E & Hok1 & He1 & Ht1 & Hev1).
      exists st1. split_and!; try done. left. set_solver.
    - rewrite bool_decide_eq_false_2 by done. exists st.
      split_and!; try done; [by apply ok_weaken|by eapply ok_put_by]. }
  lnext E. destruct (make_common_ok (_ ← upd h clear_linker_def; finish) st1 m _ h e Hok1 He1 Hp1)
    as (st2 & -> & Hok2 & Ht2 & Hev2).
  destruct (linker_def_ok st2 m _ h com_type Hok2) as (st3 & E3 & Hok3 & Ht3 & Hev3).
  { rewrite Ht2. apply list_lookup_insert_eq. by eapply types_lt. }
  exists st3. split; [by lnext E3|]. split; [done|]. split.
  - by rewrite Ht3, Ht2, Ht1.
  - by rewrite Hev3, Hev2, Hev1, app_nil_r.
Qed.

Definition big_type (old : link_hash_type) : link_hash_type :=
  match old with
  | bfd_link_hash_common size _ _ => if size <? value then com_type else old
  | _ => old
  end.

Definition big_events (h : nat) (old : link_hash_type) : list link_event :=
  ev_multiple_common h (bfd_id abfd) 5 value
  :: match old with
     | bfd_link_hash_common size _ _ => if size <? value then common_home.2 else []
     | _ => []
     end.

Lemma big_ok st m us (h : nat) (e : link_entry) :
  ok st m us -> heap st !! h = Some e -> type_number (le_type e) = 5%nat ->
  leaves (act_big section_named abfd section value h) st m (stop true None)
    (<[h := big_type (le_type e)]> (types st)) us (big_events h (le_type e)).
Proof.
  intros Hok He H5. unfold act_big, leaves. erewrite lbind_ret; [|reflexivity].
  set (st1 := add_events [ev_multiple_common h (bfd_id abfd) 5 value] st).
  assert (Hok1 : ok st1 m us) by by apply okx_events.
  assert (He1 : heap st1 !! h = Some e) by exact He. fold (add_events [ev_multiple_common h (bfd_id abfd) 5 value] st).
  fold st1. lread He1. unfold big_type, big_events.
  pose proof (types_lookup _ _ _ He) as Hty.
  destruct (le_type e) as [| | | | |size power s| |] eqn:Et; try done. destruct (size <? value).
  - destruct (make_common_ok finish st1 m us h e (ok_weaken _ _ _ _ Hok1) He1) as (st2 & -> & Hok2 & Ht2 & Hev2).
    { eapply ok_put_by; eauto. rewrite Et. cbn. tauto. }
    exists st2. split; [done|]. split; [done|]. split; [exact Ht2|]. rewrite Hev2. cbn. by rewrite <- app_assoc.
  - exists st1. split; [done|]. split; [done|]. split; [|done]. by rewrite insert_idem.
Qed.

Lemma mdef_ok st m us (h : nat) :
  ok st m us ->
  leaves (act_mdef abfd section value h) st m (stop true None) (types st) us
    [ev_multiple_definition h (bfd_id abfd) section value].
Proof.
  intros Hok. exists (add_events [ev_multiple_definition h (bfd_id abfd) section value] st).
  split; [done|]. split; [by apply okx_events|done].
Qed.

(** ** References *)

Lemma unreferenced_ret st m us (h : nat) (e : link_entry) :
  ok st m us -> heap st !! h = Some e ->
  unreferenced h st = Ret (bool_decide (le_next e = None /\ h ∉ us), st).
Proof.
  intros Hok He. unfold unreferenced. lread He. erewrite lbind_ret; [|reflexivity].
  unfold mret, L_ret. do 2 f_equal. rewrite (ok_tail _ _ _ _ Hok).
  destruct (decide (le_next e = None)) as [Hn|Hn].
  2:{ rewrite (bool_decide_eq_false_2 (le_next e = None)) by done. cbn.
      symmetry. apply bool_decide_eq_false. tauto. }
  rewrite (bool_decide_eq_true_2 (le_next e = None)) by done. cbn.
  destruct (decide (last us = Some h)) as [Hl|Hl].
  - rewrite (bool_decide_eq_true_2 (last us = Some h)) by done. symmetry. apply bool_decide_eq_false.
    intros [_ Hh]. apply Hh. apply last_Some in Hl as [l ->]. set_solver.
  - rewrite (bool_decide_eq_false_2 (last us = Some h)) by done. symmetry. apply bool_decide_eq_true.
    split; [done|]. intros (i & Hi)%list_elem_of_lookup. apply Hl.
    pose proof (ok_chain _ _ _ _ Hok i h Hi) as Hc. rewrite He in Hc. cbn in Hc. rewrite Hn in Hc.
    injection Hc as Hc. symmetry in Hc. apply lookup_ge_None in Hc.
    pose proof (lookup_lt_Some _ _ _ Hi). rewrite last_lookup. by replace (Nat.pred (length us)) with i by lia.
Qed.

Lemma refer_ok st m us (h : nat) (e : link_entry) :
  ok st m us -> heap st !! h = Some e -> ~ is_blank (le_type e) -> ~ is_undefined (le_type e) ->
  leaves (act_refer h) st m tt (types st) us [].
Proof.
  intros Hok He Hb Hu. unfold act_refer, leaves. lnext (unreferenced_ret st m us h e Hok He).
  case_bool_decide as Hd; cbn [when].
  - destruct Hd as [Hn Hh]. rewrite (upd_ret _ _ _ (set_next (Some h)) He). eexists. split; [reflexivity|].
    split; [|split; [by apply (types_same st h e)|by rewrite app_nil_r]].
    apply (ok_close h (set_next (Some h) e)); [|by apply list_lookup_insert_eq; eapply lookup_lt_Some|].
    + apply (ok_put_open st m us h e); [by apply ok_weaken|done|done|done|].
      by eapply acyclic_same; [apply Hok|exact He|].
    + split; cbn; [by intros _; right; left|tauto|tauto].
  - by apply leaves_ret.
Qed.

(** ** Indirect symbols *)

Lemma links_types st : links (heap st) = link_target <$> types st.
Proof. unfold links, types. by rewrite <- list_fmap_compose. Qed.

Definition indirect_types (ts : list link_hash_type) (h : nat) (ui : link_hash_type) : list link_hash_type :=
  <[h := bfd_link_hash_indirect inh]>
    (if decide (ui = bfd_link_hash_new) then <[inh := bfd_link_hash_undefined (bfd_id abfd)]> ts else ts).

Lemma make_indirect_ok st m us (h : nat) (e : link_entry) :
  ok st m us -> heap st !! h = Some e -> (inh < length (heap st))%nat -> ~ is_warning (le_type e) ->
  ~ leads (links (heap st)) inh h ->
  leaves (upd h (set_type (bfd_link_hash_indirect inh))) st m tt
    (<[h := bfd_link_hash_indirect inh]> (types st)) us [].
Proof.
  intros Hok He Hin Hw Hno. unfold leaves. rewrite (upd_ret _ _ _ (set_type _) He). eexists. split; [reflexivity|].
  split; [|split; [apply types_insert|by rewrite app_nil_r]].
  apply (ok_close h (set_type (bfd_link_hash_indirect inh) e));
    [|by apply list_lookup_insert_eq; eapply lookup_lt_Some|].
  - apply (ok_put_open st m us h e); [by apply ok_weaken|done|done|done|]. cbn.
    apply acyclic_link; [apply Hok|unfold links; by rewrite length_fmap|done].
  - split; cbn; [|tauto|tauto]. intros Hh. destruct (ok_put_by _ _ _ _ _ Hok He Hw) as [?|[?|?]]; tauto.
Qed.

Lemma ind_ok st m us (h : nat) (e ei : link_entry) :
  ok st m us -> heap st !! h = Some e -> heap st !! inh = Some ei -> h <> inh -> ~ is_warning (le_type e) ->
  ~ leads (links (heap st)) inh h ->
  exists us', leaves (act_ind abfd inh h) st m
    (if decide (le_type e = bfd_link_hash_new) then stop true None else again UNDEF_ROW h)
    (indirect_types (types st) h (le_type ei)) us' [].
Proof.
  intros Hok He Hei Hne Hw Hno. unfold act_ind, indirect_types, leaves. lread Hei.
  rewrite bool_decide_eq_false_2.
  2:{ intros Ht. apply Hno. apply (leads_link _ _ h); [|constructor].
      rewrite (links_lookup _ _ _ Hei), Ht. done. }
  assert (exists st1 us1, when (bool_decide (le_type ei = bfd_link_hash_new))
            (_ ← upd inh (set_type (bfd_link_hash_undefined (bfd_id abfd))); bfd_link_add_undef inh) st
            = Ret (tt, st1) /\ ok st1 m us1 /\ events st1 = events st
    /\ types st1 = if decide (le_type ei = bfd_link_hash_new)
                   then <[inh := bfd_link_hash_undefined (bfd_id abfd)]> (types st) else types st)
    as (st1 & us1 & E & Hok1 & Hev1 & Ht1).
  { destruct (decide (le_type ei = bfd_link_hash_new)) as [Hn|Hn].
    - rewrite bool_decide_eq_true_2 by done. destruct (und_ok st m us inh ei Hok Hei) as (st1 & E & Hok1 & Ht & Hev).
      { by rewrite Hn. }
      exists st1, (us ++ [inh]). rewrite app_nil_r in Hev. by split_and!.
    - rewrite bool_decide_eq_false_2 by done. by exists st, us. }
  lnext E.
  assert (Hl1 : links (heap st1) = links (heap st)).
  { rewrite !links_types, Ht1. destruct (decide _) as [Hn|Hn]; [|done]. rewrite list_fmap_insert.
    apply list_insert_id. rewrite list_lookup_fmap, (types_lookup _ _ _ Hei), Hn. done. }
  destruct (types_entry st1 h (le_type e)) as (e1 & He1 & Hte).
  { rewrite Ht1. destruct (decide _); [rewrite list_lookup_insert_ne by done|]; by apply types_lookup. }
  lread He1. destruct (make_indirect_ok st1 m us1 h e1 Hok1 He1) as (st2 & E2 & Hok2 & Ht2 & Hev2).
  { unfold types in Ht1. apply (f_equal length) in Ht1. rewrite length_fmap in Ht1. rewrite Ht1.
    destruct (decide _); rewrite ?length_insert, length_fmap; by eapply lookup_lt_Some. }
  { by rewrite Hte. }
  { by rewrite Hl1. }
  exists us1, st2. lnext E2. rewrite Hte. split; [|split; [done|split]].
  - destruct (decide (le_type e = bfd_link_hash_new)); [by rewrite bool_decide_eq_true_2|by rewrite bool_decide_eq_false_2].
  - by rewrite Ht2, Ht1.
  - by rewrite Hev2, Hev1, app_nil_r.
Qed.

(** A direct loop is refused. *)
Lemma ind_loop_ok st m us (h : nat) (ei : link_entry) :
  ok st m us -> heap st !! inh = Some ei -> le_type ei = bfd_link_hash_indirect h ->
  leaves (act_ind abfd inh h) st m (stop false None) (types st) us
    [ev_error "%B: indirect symbol `%s' to `%s' is a loop"].
Proof.
  intros Hok Hei Ht. exists (add_events [ev_error "%B: indirect symbol `%s' to `%s' is a loop"] st).
  split; [|split; [by apply okx_events|done]]. unfold act_ind. lread Hei.
  by rewrite bool_decide_eq_true_2.
Qed.

(** ** Warnings *)

Lemma hash_entry_bfd_ret st m us (h : nat) :
  ok st m us -> (h < length (heap st))%nat -> exists w, hash_entry_bfd h st = Ret (w, st).
Proof.
  intros Hok Hh. destruct (ok_links _ _ _ _ Hok h) as [n Hn]; [unfold links; by rewrite length_fmap|].
  pose proof (ends_bound _ _ _ Hn) as Hb. unfold links in Hb. rewrite length_fmap in Hb.
  unfold hash_entry_bfd. erewrite lbind_ret; [|reflexivity]. cbv beta.
  assert (Hf : (n < S (length (heap st)))%nat) by lia. clear Hh Hb.
  revert Hf. generalize (S (length (heap st))) as fuel. intros fuel. revert fuel.
  induction Hn as [p Hp|p q n Hp _ IH]; intros [|fuel] Hf; [lia| |lia|].
  all: unfold links in Hp; rewrite list_lookup_fmap in Hp;
    destruct (heap st !! p) as [e|] eqn:He; [|done]; cbn in Hp; injection Hp as Hp;
    cbn [hash_entry_bfd_loop]; lread He.
  - destruct (le_type e); try done; by eexists.
  - destruct (le_type e); try done; [by eexists|]. injection Hp as ->. apply IH. lia.
Qed.

Lemma mwarn_ok st m us (h : nat) (e : link_entry) :
  ok st m us -> heap st !! h = Some e -> m !! le_string e = Some h ->
  leaves (act_mwarn string copy h) st (<[le_string e := length (heap st)]> m)
    (stop true (Some (length (heap st)))) (types st ++ [bfd_link_hash_warning h (Some string)]) us [].
Proof.
  intros Hok He Hm. pose proof Hok as [H1 H2 H3 H4 H5 H6 H7].
  destruct (st_replaced (heap st) (names st) m (le_string e) h e
              (set_type (bfd_link_hash_warning h (Some string)) e) H1 Hm He) as (t' & Er & Ht'); [done|done|].
  unfold act_mwarn, leaves. lread He. rewrite !Hmem, andb_false_r. cbn [negb].
  erewrite lbind_ret; [|reflexivity]. erewrite lbind_ret; [|reflexivity].
  unfold replace_name. cbn [heap names set_heap]. erewrite lbind_ret; [|cbn; rewrite Er; reflexivity].
  eexists. split; [reflexivity|]. split; [|split; [unfold types; cbn; by rewrite fmap_app|by rewrite app_nil_r]].
  split; cbn [heap names undefs undefs_tail events]; [done| |done|done| |done|].
  - unfold links. rewrite fmap_app. apply acyclic_app; [exact H2|]. cbn. rewrite length_fmap.
    by eapply lookup_lt_Some.
  - intros i p Hi. pose proof (H5 i p Hi) as Hc. destruct (heap st !! p) as [ep|] eqn:Hp; [|done].
    by rewrite (lookup_app_l_Some _ _ _ _ Hp).
  - intros p ep _ Hp. apply lookup_app_Some in Hp as [Hp|[Hge Hp]]; [by apply H7|].
    apply list_lookup_singleton_Some in Hp as [Hp <-]. split; cbn; [tauto|tauto|tauto].
Qed.

Lemma warnc_ok (row : link_row) st m us (h l : nat) (e : link_entry) (w : option String.string) :
  ok st m us -> heap st !! h = Some e -> le_type e = bfd_link_hash_warning l w ->
  exists w' evs, leaves (act_warnc abfd row h) st m (again row l)
    (<[h := bfd_link_hash_warning l w']> (types st)) us evs /\ ev_assert ∉ evs.
Proof.
  intros Hok He Ht. unfold act_warnc, leaves. lread He. rewrite Ht.
  assert (Hid : <[h := bfd_link_hash_warning l w]> (types st) = types st).
  { apply insert_idem. by rewrite (types_lookup _ _ _ He), Ht. }
  destruct w as [w|].
  2:{ exists None, []. split; [|set_solver]. rewrite Hid. by apply leaves_ret. }
  destruct (bfd_plugin abfd); cbn [negb when].
  { exists (Some w), []. split; [|set_solver]. rewrite Hid. by apply leaves_ret. }
  set (ev := ev_warning w (le_string e) (Some (bfd_id abfd))).
  exists None, [ev]. split; [|intros Hin%list_elem_of_singleton; done].
  set (st1 := add_events [ev] st). assert (He1 : heap st1 !! h = Some e) by exact He.
  assert (E : (_ ← log ev; upd h (set_type (bfd_link_hash_warning l None))) st
    = Ret (tt, set_heap (<[h := set_type (bfd_link_hash_warning l None) e]> (heap st1)) st1)).
  { erewrite lbind_ret; [|reflexivity]. by rewrite (upd_ret st1 h e). }
  lnext E. eexists. split; [reflexivity|]. split; [|split; [apply (types_insert st1)|done]].
  apply (ok_set st1 m us h e); [by apply okx_events|done|done|done| |].
  - eapply acyclic_same; [apply Hok|exact He|by rewrite Ht].
  - destruct (ok_entries _ _ _ _ Hok h e) as [E1 _ _]; [done|done|]. split; cbn; tauto.
Qed.

Lemma warn_ok st m us (h : nat) (e : link_entry) :
  ok st m us -> heap st !! h = Some e -> m !! le_string e = Some h ->
  exists o m' ts' evs,
    (exists st', act_warn info string copy h st = Ret (stop true o, st') /\ ok st' m' us
      /\ types st' = ts' /\ events st' = events st ++ evs) /\ ev_assert ∉ evs
    /\ (m' = m /\ ts' = types st
        \/ m' = <[le_string e := length (heap st)]> m
          /\ ts' = types st ++ [bfd_link_hash_warning h (Some string)]).
Proof.
  intros Hok He Hm. unfold act_warn. pose proof (unreferenced_ret st m us h e Hok He) as Hu.
  destruct (hash_entry_bfd_ret st m us h Hok) as [w Hw]; [by eapply lookup_lt_Some|].
  assert (Hrun : forall (b : bool) (k1 k2 : L outcome),
    (e0 ← get_link h; b0 ← unreferenced h;
     if (negb (lto_plugin_active info) && negb b0) || non_ir_ref_regular e0 || non_ir_ref_dynamic e0
     then w0 ← hash_entry_bfd h; _ ← log (ev_warning string (le_string e0) w0); k1 else k2) st
    = if (negb (lto_plugin_active info) && negb (bool_decide (le_next e = None /\ h ∉ us)))
         || non_ir_ref_regular e || non_ir_ref_dynamic e
      then k1 (add_events [ev_warning string (le_string e) w] st) else k2 st).
  { intros _ k1 k2. lread He. lnext Hu. destruct (_ || _); [|done]. lnext Hw. by erewrite lbind_ret. }
  rewrite (Hrun true). destruct (_ || _).
  - exists None, m, (types st), [ev_warning string (le_string e) w]. split; [|split; [|by left]].
    + eexists. split; [reflexivity|]. split; [by apply okx_events|done].
    + intros Hin%list_elem_of_singleton. done.
  - destruct (mwarn_ok st m us h e Hok He Hm) as (st' & E & Hok' & Ht & Hev).
    eexists _, _, _, []. split; [exists st'; split_and!; done|]. split; [set_solver|]. by right.
Qed.

(** ** One turn *)

(** An indirect symbol may be made here: the row of actions that make one. *)
Definition linkable (u : link_hash_type) : Prop :=
  match u with
  | bfd_link_hash_new | bfd_link_hash_undefined _ | bfd_link_hash_undefweak _
  | bfd_link_hash_defweak _ _ | bfd_link_hash_common _ _ _ => True
  | _ => False
  end.

(** What [INDR_ROW] needs: wherever the walk from [h] ends in a symbol that can be
    made indirect, the target is another symbol and does not lead back there,
    unless directly. *)
Definition no_loop st (h : nat) : Prop :=
  (inh < length (heap st))%nat
  /\ forall p u, leads (links (heap st)) h p -> types st !! p = Some u -> linkable u ->
       p <> inh /\ (leads (links (heap st)) inh p -> types st !! inh = Some (bfd_link_hash_indirect p)).

(** How a turn ends: the loop goes on at the entry's link, or at the entry just
    made indirect. *)
Definition goes_on (row : link_row) (h : nat) st st' (o : outcome) : Prop :=
  match o with
  | stop _ _ => True
  | again row' h' =>
      row' = row /\ row <> WARN_ROW /\ links (heap st) !! h = Some (Some h') /\ links (heap st') = links (heap st)
      /\ (row = INDR_ROW \/ row = DEF_ROW \/ row = DEFW_ROW -> types st' = types st)
      \/ row = INDR_ROW /\ row' = UNDEF_ROW /\ h' = h /\ length (heap st') = length (heap st)
  end.

Definition turned (row : link_row) (h : nat) st m (r : res (outcome * link_state T)) : Prop :=
  exists o st' m' us' evs, r = Ret (o, st') /\ ok st' m' us' /\ goes_on row h st st' o
    /\ events st' = events st ++ evs /\ ev_assert ∉ evs /\ (row <> WARN_ROW -> m' = m).

Lemma leaves_turned (row : link_row) (h : nat) st m us' (c : L outcome) (ret : bool) (hp : option nat)
    (ts : list link_hash_type) (evs : list link_event) :
  leaves c st m (stop ret hp) ts us' evs -> ev_assert ∉ evs -> turned row h st m (c st).
Proof. intros (st' & E & Hok & _ & Hev) Hno. by exists (stop ret hp), st', m, us', evs. Qed.

Lemma home_no_assert : ev_assert ∉ common_home.2.
Proof. unfold common_home. repeat case_decide; cbn; [|set_solver|]; by intros ?%list_elem_of_singleton. Qed.

Lemma log_events (ev : link_event) {A : Type} (k : L A) st : (_ ← log ev; k) st = k (add_events [ev] st).
Proof. done. Qed.

Lemma turned_log (row : link_row) (h : nat) (ev : link_event) st m (k : L outcome) :
  ev <> ev_assert -> turned row h (add_events [ev] st) m (k (add_events [ev] st)) ->
  turned row h st m ((_ ← log ev; k) st).
Proof.
  intros Hne (o & st' & m' & us' & evs & E & Hok & Hg & Hev & Hno & Hm). rewrite log_events.
  exists o, st', m', us', (ev :: evs). split_and!; try done.
  - rewrite Hev. cbn. by rewrite <- app_assoc.
  - intros [?|?]%elem_of_cons; [by apply Hne|done].
Qed.

Lemma bind_assoc {A B C : Type} (c : L A) (k : A -> L B) (k2 : B -> L C) st :
  (y ← (x ← c; k x); k2 y) st = (x ← c; y ← k x; k2 y) st.
Proof. unfold mbind, L_bind. by destruct (c st) as [[]|]. Qed.

Lemma finish_turned (row : link_row) (h : nat) st m us : ok st m us -> turned row h st m (finish st).
Proof. intros Hok. eapply leaves_turned; [by apply leaves_ret|set_solver]. Qed.

(** An action on the entry and then the end. *)
Lemma then_finish (row : link_row) (h : nat) st m us' (c : L unit) (ts : list link_hash_type)
    (evs : list link_event) :
  leaves c st m tt ts us' evs -> ev_assert ∉ evs -> turned row h st m ((_ ← c; finish) st).
Proof.
  intros (st' & E & Hok & _ & Hev) Hno. exists (stop true None), st', m, us', evs.
  split_and!; try done. by lnext E.
Qed.

Lemma link_of_ret st (h l : nat) (e : link_entry) :
  heap st !! h = Some e -> link_target (le_type e) = Some l -> link_of h st = Ret (l, st).
Proof. intros He Hl. unfold link_of. lread He. destruct (le_type e); try done; by injection Hl as ->. Qed.

Lemma cycle_turned (row : link_row) (h l : nat) (e : link_entry) st m us :
  ok st m us -> heap st !! h = Some e -> link_target (le_type e) = Some l -> row <> WARN_ROW ->
  turned row h st m ((l ← link_of h; mret (again row l)) st).
Proof.
  intros Hok He Hl Hr. lnext (link_of_ret st h l e He Hl). exists (again row l), st, m, us, [].
  split_and!; try done; [|by rewrite app_nil_r|set_solver]. left. by rewrite (links_lookup _ _ _ He), Hl.
Qed.

Lemma refc_turned (row : link_row) (h l : nat) (e : link_entry) st m us :
  ok st m us -> heap st !! h = Some e -> le_type e = bfd_link_hash_indirect l -> row <> INDR_ROW ->
  row <> WARN_ROW -> turned row h st m ((_ ← act_refer h; l ← link_of h; mret (again row l)) st).
Proof.
  intros Hok He Ht Hr Hr'.
  destruct (refer_ok st m us h e Hok He) as (st1 & E & Hok1 & Ht1 & Hev1); [rewrite Ht; cbn; tauto..|].
  lnext E. destruct (types_entry st1 h (le_type e)) as (e1 & He1 & Hte1); [rewrite Ht1; by apply types_lookup|].
  lnext (link_of_ret st1 h l e1 He1 ltac:(by rewrite Hte1, Ht)).
  exists (again row l), st1, m, us, []. split_and!; try done; [|set_solver].
  left. split; [done|]. split; [done|]. rewrite (links_lookup _ _ _ He), Ht. split; [done|].
  split; [by rewrite !links_types, Ht1|done].
Qed.

Lemma mind_turned (h l : nat) (e : link_entry) st m us :
  ok st m us -> heap st !! h = Some e -> le_type e = bfd_link_hash_indirect l ->
  turned INDR_ROW h st m ((l ← link_of h; el ← get_link l;
    if decide (le_string el = string) then finish else act_mdef abfd section value h) st).
Proof.
  intros Hok He Ht. lnext (link_of_ret st h l e He ltac:(by rewrite Ht)).
  destruct (ok_links _ _ _ _ Hok h) as [n Hn].
  { unfold links. rewrite length_fmap. by eapply lookup_lt_Some. }
  assert (exists el, heap st !! l = Some el) as [el Hel].
  { pose proof (links_lookup _ _ _ He) as Hl. rewrite Ht in Hl. cbn in Hl.
    inversion Hn as [? Hx|? q ? Hx Hq]; subst; [congruence|]. assert (q = l) as -> by congruence.
    apply ends_lt in Hq. unfold links in Hq. rewrite length_fmap in Hq. by apply lookup_lt_is_Some_2. }
  lread Hel. case_decide; [by apply (finish_turned _ _ _ _ us)|].
  eapply leaves_turned; [by apply mdef_ok|]. by intros ?%list_elem_of_singleton.
Qed.

Lemma ind_turned (h : nat) (e : link_entry) st m us :
  ok st m us -> heap st !! h = Some e -> linkable (le_type e) -> no_loop st h ->
  turned INDR_ROW h st m (act_ind abfd inh h st).
Proof.
  intros Hok He Hl [Hin Hno]. destruct (Hno h (le_type e)) as [Hne Hd]; [constructor|by apply types_lookup|done|].
  destruct (lookup_lt_is_Some_2 _ _ Hin) as [ei Hei].
  destruct (decide (le_type ei = bfd_link_hash_indirect h)) as [Hlp|Hlp].
  - eapply leaves_turned; [by eapply ind_loop_ok|]. by intros ?%list_elem_of_singleton.
  - destruct (ind_ok st m us h e ei Hok He Hei Hne) as (us' & st' & E & Hok' & Ht & Hev).
    + intros Hw. by destruct (le_type e).
    + intros Hleads. apply Hlp. specialize (Hd Hleads). rewrite (types_lookup _ _ _ Hei) in Hd. congruence.
    + eexists _, st', m, us', []. split; [exact E|]. split; [done|]. split_and!; try done; [|set_solver].
      case_decide; [done|]. right. split_and!; try done.
      apply (f_equal length) in Ht. unfold types, indirect_types in Ht.
      rewrite length_fmap, length_insert in Ht. rewrite Ht. case_decide; by rewrite ?length_insert, length_fmap.
Qed.

Lemma warnc_turned (row : link_row) (h l : nat) (w : option String.string) (e : link_entry) st m us :
  ok st m us -> heap st !! h = Some e -> le_type e = bfd_link_hash_warning l w ->
  ~ (row = INDR_ROW \/ row = DEF_ROW \/ row = DEFW_ROW) ->
  row <> WARN_ROW -> turned row h st m (act_warnc abfd row h st).
Proof.
  intros Hok He Ht Hr Hr'.
  destruct (warnc_ok row st m us h l e w Hok He Ht) as (w' & evs & (st' & E & Hok' & Hts & Hev) & Hno).
  exists (again row l), st', m, us, evs. split_and!; try done. left. rewrite (links_lookup _ _ _ He), Ht.
  split_and!; try done. rewrite !links_types, Hts, list_fmap_insert. apply list_insert_id.
  by rewrite list_lookup_fmap, (types_lookup _ _ _ He), Ht.
Qed.

(** Whether the state table defines a symbol of type [u]. *)
Definition defines (row : link_row) (u : link_hash_type) : bool :=
  match action_of row u with DEF | DEFW | CDEF => true | _ => false end.

Lemma turn_fault (row : link_row) (h : nat) (e : link_entry) (f : fault) st :
  heap st !! h = Some e -> defines row (le_type e) = true -> ctor_fault (le_type e) = Some f ->
  turn info section_named abfd name section value string copy collect inh row h st = Fail f.
Proof.
  intros He Hd Hf. unfold turn. lread He. unfold defines in Hd.
  destruct (action_of row (le_type e)); try done; by apply (define_fault _ f _ h e).
Qed.

(** Every case of the state table. *)
Lemma turn_ok (row : link_row) (h : nat) (e : link_entry) st m us :
  ok st m us -> heap st !! h = Some e -> (row = INDR_ROW -> no_loop st h) ->
  (row = WARN_ROW -> m !! le_string e = Some h) ->
  (defines row (le_type e) = true -> ctor_fault (le_type e) = None) ->
  turned row h st m (turn info section_named abfd name section value string copy collect inh row h st).
Proof.
  intros Hok He Hind Hwarn Hctor. unfold turn. lread He. unfold defines in Hctor.
  assert (Hhome : ev_assert ∉ common_home.2) by apply home_no_assert.
  assert (Hrefer : ~ is_blank (le_type e) -> ~ is_undefined (le_type e) ->
            turned row h st m ((_ ← act_refer h; finish) st)).
  { intros Hb Hu. eapply then_finish; [by eapply refer_ok|set_solver]. }
  assert (Hdef : ~ is_warning (le_type e) -> ctor_fault (le_type e) = None -> forall weak,
            turned row h st m (act_define abfd name section value collect weak h st)).
  { intros Hw Hc weak. eapply leaves_turned; [by eapply define_ok|apply ctor_no_assert]. }
  assert (Hcdef : ~ is_warning (le_type e) -> ctor_fault (le_type e) = None -> forall n v,
            turned row h st m ((_ ← log (ev_multiple_common h (bfd_id abfd) n v);
                                act_define abfd name section value collect false h) st)).
  { intros Hw Hc n v. apply turned_log; [done|].
    eapply leaves_turned; [eapply define_ok; [by apply okx_events|exact He|done|done]|apply ctor_no_assert]. }
  assert (Hcom : ~ is_warning (le_type e) ->
            turned row h st m (act_common section_named abfd section value h st)).
  { intros Hw. eapply leaves_turned; [by eapply common_ok|done]. }
  assert (Hmdef : turned row h st m (act_mdef abfd section value h st)).
  { eapply leaves_turned; [by apply mdef_ok|]. by intros ?%list_elem_of_singleton. }
  assert (Hfin : turned row h st m (finish st)) by by eapply finish_turned.
  assert (Hlog : forall ev, ev <> ev_assert -> turned row h st m ((_ ← log ev; finish) st)).
  { intros ev Hev. apply turned_log; [done|]. by eapply finish_turned, okx_events. }
  assert (Hwrn : row = WARN_ROW -> turned row h st m (act_warn info string copy h st)).
  { intros Hr. destruct (warn_ok st m us h e Hok He (Hwarn Hr)) as (o & m' & ts & evs & (st' & E & ? & _ & ?) & Hno & _).
    exists (stop true o), st', m', us, evs. by split_and!. }
  assert (Hund : is_blank (le_type e) -> turned row h st m
            ((_ ← upd h (set_type (bfd_link_hash_undefined (bfd_id abfd))); _ ← bfd_link_add_undef h; finish) st)).
  { intros Hb. rewrite <- (bind_assoc _ (fun _ => bfd_link_add_undef h) (fun _ => finish)).
    eapply then_finish; [by eapply und_ok|set_solver]. }
  destruct (le_type e) as [|a|a|sc v|sc v|z al sc|l|l w] eqn:Et; destruct row;
    cbn [action_of row_actions type_number nth]; cbn [action_of row_actions type_number nth] in Hctor;
    cbn in Hrefer, Hcom; cbn [is_warning] in Hdef, Hcdef;
    try first [ exact Hfin | exact Hmdef | apply Hrefer; tauto | apply Hdef; [tauto|by apply Hctor] | apply Hcdef; [tauto|by apply Hctor]
              | apply Hcom; tauto | by apply Hlog | by apply Hwrn
              | by (eapply cycle_turned; [done|exact He|by rewrite Et|done])
              | by (eapply refc_turned; [done|exact He|exact Et|done|done])
              | by (eapply mind_turned; [done|exact He|exact Et])
              | by (eapply ind_turned; [done|exact He|by rewrite Et|by apply Hind]) ].
  - by apply Hund.
  - eapply then_finish; [eapply set_weak_ok; [done|exact He|by rewrite Et]|set_solver].
  - destruct (mwarn_ok st m us h e Hok He (Hwarn eq_refl)) as (st' & E & Hok' & _ & Hev).
    eexists _, st', _, us, []. split_and!; try done. set_solver.
  - by apply Hund.
  - eapply leaves_turned; [eapply big_ok; [done|exact He|by rewrite Et]|]. unfold big_events. rewrite Et.
    intros [?|Hin]%elem_of_cons; [done|]. destruct (z <? value); [done|set_solver].
  - apply turned_log; [done|]. apply (ind_turned h e _ m us); [by apply okx_events|exact He|by rewrite Et|].
    by apply Hind.
  - eapply warnc_turned; try done. by intros [?|[?|?]].
  - eapply warnc_turned; try done. by intros [?|[?|?]].
  - eapply warnc_turned; try done. by intros [?|[?|?]].
Qed.

(** ** The loop *)

Definition run (fuel : nat) (row : link_row) (h : nat) : L (bool * option nat) :=
  turns info section_named abfd name section value string copy collect inh fuel row h.

(** What a call leaves: the table well formed, the assertions held. *)
Definition added {A : Type} (row : link_row) st m (r : res (A * link_state T)) : Prop :=
  exists a st' m' us' evs, r = Ret (a, st') /\ ok st' m' us' /\ events st' = events st ++ evs
    /\ ev_assert ∉ evs /\ (row <> WARN_ROW -> m' = m).

Lemma added_after {A : Type} (row row' : link_row) st st1 m m1 (evs1 : list link_event)
    (r : res (A * link_state T)) :
  events st1 = events st ++ evs1 -> ev_assert ∉ evs1 -> (row <> WARN_ROW -> m1 = m) ->
  (row <> WARN_ROW -> row' <> WARN_ROW) -> added row' st1 m1 r -> added row st m r.
Proof.
  intros H1 H2 H3 H4 (a & st' & m' & us' & evs & E & Hok & Hev & Hno & Hm).
  exists a, st', m', us', (evs1 ++ evs). split_and!; try done.
  - by rewrite Hev, H1, app_assoc.
  - intros [?|?]%elem_of_app; done.
  - intros Hr. rewrite Hm by auto. auto.
Qed.

(** The walk from [h] comes to a symbol to define where the test for constructors fails. *)
Definition faults {A : Type} (row : link_row) (h : nat) st (r : res A) : Prop :=
  exists q u f, leads (links (heap st)) h q /\ types st !! q = Some u /\ defines row u = true
    /\ ctor_fault u = Some f /\ r = Fail f.

Lemma defines_row (row : link_row) (u : link_hash_type) : defines row u = true -> row = DEF_ROW \/ row = DEFW_ROW.
Proof. destruct row, u; cbn; auto; done. Qed.

(** Every row but [INDR_ROW] follows the links once. *)
Lemma run_follow (row : link_row) (fuel h n : nat) (e : link_entry) st m us :
  row <> INDR_ROW -> ok st m us -> ends (links (heap st)) h n -> (n < fuel)%nat ->
  heap st !! h = Some e -> (row = WARN_ROW -> m !! le_string e = Some h) ->
  added row st m (run fuel row h st) \/ faults row h st (run fuel row h st).
Proof.
  intros Hr. revert fuel h e st m us. induction n as [|n IH]; intros fuel h e st m us Hok Hn Hf He Hw;
    (destruct fuel as [|fuel]; [lia|]);
    (destruct (decide (defines row (le_type e) = true /\ is_Some (ctor_fault (le_type e)))) as [[Hd [f Hcf]]|Hd];
     [right; exists h, (le_type e), f; split_and!; [constructor|by apply types_lookup|done|done|];
      unfold run; cbn [turns]; unfold mbind, L_bind; by rewrite (turn_fault row h e f st He Hd Hcf)|]);
    (destruct (turn_ok row h e st m us Hok He ltac:(done) Hw) as (o & st1 & m1 & us1 & evs1 & E & Hok1 & Hg & Hev & Hno & Hm);
     [intros Hd'; apply eq_None_not_Some; tauto|]);
    unfold run; cbn [turns]; rewrite (lbind_ret _ _ _ _ _ E); cbv beta iota; destruct o as [row' h'|ret hp].
  2,4: left; by exists (ret, hp), st1, m1, us1, evs1.
  all: destruct Hg as [(-> & Hrw & Hl & Hls & Hts)|(? & _)]; [|done].
  - inversion Hn as [? Hx|]; subst. congruence.
  - inversion Hn as [|? q ? Hx Hq]; subst. assert (q = h') as -> by congruence. rewrite <- Hls in Hq.
    assert (exists e', heap st1 !! h' = Some e') as [e' He'].
    { apply ends_lt in Hq. unfold links in Hq. rewrite length_fmap in Hq. by apply lookup_lt_is_Some_2. }
    destruct (IH fuel h' e' st1 m1 us1) as [Ha|(q & u & f & H1 & H2 & H3 & H4 & H5)]; [done|done|lia|done|done|left|right].
    + by eapply (added_after row row st st1).
    + exists q, u, f. split_and!; [|by rewrite <- Hts by (right; by apply (defines_row row u))|done|done|exact H5].
      rewrite Hls in H1. by econstructor.
Qed.

(** A reference defines nothing. *)
Lemma run_undef (fuel h n : nat) (e : link_entry) st m us :
  ok st m us -> ends (links (heap st)) h n -> (n < fuel)%nat -> heap st !! h = Some e ->
  added UNDEF_ROW st m (run fuel UNDEF_ROW h st).
Proof.
  intros Hok Hn Hf He. destruct (run_follow UNDEF_ROW fuel h n e st m us) as [?|(q & u & f & _ & _ & Hd & _)]; try done.
  by destruct (defines_row _ _ Hd).
Qed.

(** [INDR_ROW] follows the links to where it makes one, and then the links from
    there. *)
Lemma run_indirect (fuel h n : nat) st m us :
  ok st m us -> ends (links (heap st)) h n -> (n + length (heap st) + 1 < fuel)%nat -> no_loop st h ->
  added INDR_ROW st m (run fuel INDR_ROW h st).
Proof.
  revert fuel h st m us. induction n as [|n IH]; intros fuel h st m us Hok Hn Hf Hnl;
    (destruct fuel as [|fuel]; [lia|]);
    (assert (exists e, heap st !! h = Some e) as [e He]
       by (apply ends_lt in Hn; unfold links in Hn; rewrite length_fmap in Hn; by apply lookup_lt_is_Some_2));
    (destruct (turn_ok INDR_ROW h e st m us Hok He ltac:(done) ltac:(done) ltac:(by intros [?|?]%defines_row))
       as (o & st1 & m1 & us1 & evs1 & E & Hok1 & Hg & Hev & Hno & Hm));
    unfold run; cbn [turns]; lnext E; destruct o as [row' h'|ret hp].
  2,4: by exists (ret, hp), st1, m1, us1, evs1.
  all: destruct Hg as [(-> & _ & Hl & Hls & Hts)|(_ & -> & -> & Hlen)].
  - inversion Hn as [? Hx|]; subst. congruence.
  - destruct (ok_links _ _ _ _ Hok1 h) as [k Hk].
    { unfold links. rewrite length_fmap, Hlen. by eapply lookup_lt_Some. }
    pose proof (ends_bound _ _ _ Hk) as Hb. unfold links in Hb. rewrite length_fmap, Hlen in Hb.
    destruct (lookup_lt_is_Some_2 (heap st1) h) as [e1 He1]; [rewrite Hlen; by eapply lookup_lt_Some|].
    eapply (added_after INDR_ROW UNDEF_ROW st st1); [done|done|done|done|].
    apply (run_undef fuel h k e1 st1 m1 us1); [done|done|lia|done].
  - inversion Hn as [|? q ? Hx Hq]; subst. assert (q = h') as -> by congruence.
    rewrite <- Hls in Hq. specialize (Hts (or_introl eq_refl)).
    assert (Hlen : length (heap st1) = length (heap st)).
    { apply (f_equal length) in Hts. unfold types in Hts. by rewrite !length_fmap in Hts. }
    eapply (added_after INDR_ROW INDR_ROW st st1); [done|done|done|done|].
    apply (IH fuel h' st1 m1 us1); [done|done|lia|].
    destruct Hnl as [Hin Hnl]. split; [by rewrite Hlen|]. rewrite Hls, Hts. intros p u Hp.
    apply Hnl. by econstructor.
  - destruct (ok_links _ _ _ _ Hok1 h) as [k Hk].
    { unfold links. rewrite length_fmap, Hlen. by eapply lookup_lt_Some. }
    pose proof (ends_bound _ _ _ Hk) as Hb. unfold links in Hb. rewrite length_fmap, Hlen in Hb.
    destruct (lookup_lt_is_Some_2 (heap st1) h) as [e1 He1]; [rewrite Hlen; by eapply lookup_lt_Some|].
    eapply (added_after INDR_ROW UNDEF_ROW st st1); [done|done|done|done|].
    apply (run_undef fuel h k e1 st1 m1 us1); [done|done|lia|done].
Qed.
End act.

(** ** Looking names up *)

Lemma leads_app_inv (ls : list (option nat)) (p q : nat) :
  acyclic ls -> (p < length ls)%nat -> leads (ls ++ [None]) p q -> leads ls p q.
Proof.
  intros Ha Hp H. revert Hp. induction H as [p|p r q Hr _ IH]; intros Hp; [constructor|].
  rewrite lookup_app_l in Hr by done. apply (leads_link _ _ r); [done|]. apply IH.
  destruct (Ha p Hp) as [n Hn]. inversion Hn as [? Hx|? r' ? Hx Hq]; subst; [congruence|].
  assert (r' = r) as -> by congruence. by eapply ends_lt.
Qed.

Lemma leads_end (ls : list (option nat)) (p q : nat) : ls !! p = Some None -> leads ls p q -> q = p.
Proof. intros Hp H. inversion H; subst; [done|congruence]. Qed.

Lemma leads_in (ls : list (option nat)) (p q : nat) :
  acyclic ls -> (p < length ls)%nat -> leads ls p q -> (q < length ls)%nat.
Proof.
  intros Ha Hp H. induction H as [p|p r q Hr _ IH]; [done|]. apply IH.
  destruct (Ha p Hp) as [n Hn]. inversion Hn as [? Hx|? r' ? Hx Hq]; subst; [congruence|].
  assert (r' = r) as -> by congruence. by eapply ends_lt.
Qed.

Lemma list_on_heap st m us (p : nat) : ok st m us -> p ∈ us -> (p < length (heap st))%nat.
Proof.
  intros Hok (i & Hi)%list_elem_of_lookup. pose proof (ok_chain _ _ _ _ Hok i p Hi) as Hc.
  destruct (heap st !! p) eqn:He; [|done]. by eapply lookup_lt_Some.
Qed.

(** A new entry. *)
Lemma fresh_ok st m us (t' : T) (s : string) :
  ok st m us -> st_holds (heap st ++ [fresh_entry s]) t' (<[s := length (heap st)]> m) ->
  ok (mk_state (heap st ++ [fresh_entry s]) t' (undefs st) (undefs_tail st) (events st))
    (<[s := length (heap st)]> m) us.
Proof.
  intros Hok Ht. pose proof Hok as [H1 H2 H3 H4 H5 H6 H7].
  split; cbn [heap names undefs undefs_tail events]; [done| |done|done| |done|].
  - unfold links. rewrite fmap_app. by apply acyclic_app.
  - intros i p Hi. pose proof (H5 i p Hi) as Hc. destruct (heap st !! p) as [ep|] eqn:Hp; [|done].
    by rewrite (lookup_app_l_Some _ _ _ _ Hp).
  - intros p ep _ Hp. apply lookup_app_Some in Hp as [Hp|[Hge Hp]]; [by apply H7|].
    apply list_lookup_singleton_Some in Hp as [Hp <-]. assert (p = length (heap st)) as -> by lia.
    split; cbn; [by left|done|]. intros _. split; [|done]. intros Hin.
    pose proof (list_on_heap _ _ _ _ Hok Hin). lia.
Qed.

(** The table after a lookup that creates, and the entry found. *)
Definition looked_up (s : string) st m (p : nat) st' m' : Prop :=
  m' !! s = Some p
  /\ match m !! s with
     | Some q => p = q /\ heap st' = heap st /\ m' = m
     | None => p = length (heap st) /\ heap st' = heap st ++ [fresh_entry s] /\ m' = <[s := p]> m
     end.

Lemma lookup_found st m us (s : string) (copy : bool) (q : nat) :
  ok st m us -> Z.of_nat (length (heap st)) < max_entries -> m !! s = Some q ->
  bfd_link_hash_lookup s true copy false st = Ret (Some q, st).
Proof.
  intros Hok Hmax Hm. unfold bfd_link_hash_lookup.
  assert (E : find_name s true copy st = Ret (Some q, st)).
  { unfold find_name. rewrite (st_found _ _ m s true copy q (ok_names _ _ _ _ Hok) Hmax Hm). by destruct st. }
  by lnext E.
Qed.

Lemma lookup_ok st m us (s : string) (copy : bool) :
  ok st m us -> Z.of_nat (length (heap st)) < max_entries ->
  exists p st' m', bfd_link_hash_lookup s true copy false st = Ret (Some p, st') /\ ok st' m' us
    /\ looked_up s st m p st' m' /\ events st' = events st.
Proof.
  intros Hok Hmax. unfold looked_up. destruct (m !! s) as [q|] eqn:Hm.
  - exists q, st, m. split; [by eapply lookup_found|by split_and!].
  - unfold bfd_link_hash_lookup. destruct (st_create (heap st) (names st) m s copy (ok_names _ _ _ _ Hok) Hmax Hm) as (t' & Et & Ht').
    eexists (length (heap st)), _, _. split; [|split; [by apply fresh_ok|]].
    + unfold find_name. erewrite lbind_ret; [|rewrite Et; reflexivity]. reflexivity.
    + split; [|done]. split; [apply lookup_insert_eq|done].
Qed.

Lemma looked_up_entry (s : string) st m (p : nat) st' m' us :
  ok st' m' us -> looked_up s st m p st' m' -> exists e, heap st' !! p = Some e /\ le_string e = s.
Proof. intros Hok [Hm _]. exact (st_entry _ _ _ _ _ (ok_names _ _ _ _ Hok) Hm). Qed.

Lemma looked_up_length (s : string) st m (p : nat) st' m' :
  looked_up s st m p st' m' -> (length (heap st') <= S (length (heap st)))%nat.
Proof.
  intros [_ H]. destruct (m !! s) as [q|]; [destruct H as (_ & -> & _); lia|].
  destruct H as (_ & -> & _). rewrite length_app. cbn. lia.
Qed.

(** A lookup adds no way from one old symbol to another, and none from a new one. *)
Lemma looked_up_leads (s : string) st m (p : nat) st' m' us (a b : nat) :
  ok st m us -> looked_up s st m p st' m' -> (a < length (heap st))%nat ->
  leads (links (heap st')) a b -> leads (links (heap st)) a b.
Proof.
  intros Hok [_ H] Ha Hl. destruct (m !! s) as [q|]; destruct H as (_ & Hh & _); rewrite Hh in Hl; [done|].
  unfold links in Hl. rewrite fmap_app in Hl.
  apply leads_app_inv; [apply Hok|unfold links; by rewrite length_fmap|done].
Qed.

Lemma looked_up_fresh (s : string) st m (p : nat) st' m' (b : nat) :
  looked_up s st m p st' m' -> m !! s = None -> leads (links (heap st')) p b -> b = p.
Proof.
  intros [_ H] Hs Hl. rewrite Hs in H. destruct H as (-> & Hh & _). rewrite Hh in Hl.
  eapply leads_end; [|exact Hl]. unfold links. rewrite fmap_app.
  by rewrite lookup_app_r, length_fmap, Nat.sub_diag by (by rewrite length_fmap).
Qed.

Lemma looked_up_old (s : string) st m (p : nat) st' m' (a : nat) (u : link_hash_type) :
  looked_up s st m p st' m' -> types st !! a = Some u -> types st' !! a = Some u.
Proof.
  intros [_ H] Ha. unfold types in *. destruct (m !! s) as [q|]; destruct H as (_ & Hh & _); rewrite Hh; [done|].
  rewrite fmap_app. by apply lookup_app_l_Some.
Qed.

Lemma map_on_heap st m us (s : string) (p : nat) :
  ok st m us -> m !! s = Some p -> (p < length (heap st))%nat.
Proof.
  intros Hok Hm. destruct (st_entry _ _ _ _ _ (ok_names _ _ _ _ Hok) Hm) as (e & He & _).
  by eapply lookup_lt_Some.
Qed.

(** ** Adding a symbol *)

(** Making [name] an alias of [string] closes no cycle of two or more links. *)
Definition loop_free st m (name string : string) : Prop :=
  name <> string
  /\ forall p q, m !! name = Some p -> m !! string = Some q -> no_loop q st p.

Lemma no_loop_after st m us st1 m1 st2 m2 (name string : String.string) (inh h : nat) :
  ok st m us -> ok st1 m1 us -> looked_up string st m inh st1 m1 -> looked_up name st1 m1 h st2 m2 ->
  ok st2 m2 us -> loop_free st m name string -> no_loop inh st2 h.
Proof.
  intros Hok Hok1 H1 H2 Hok2 [Hne Hlf].
  assert (Hin1 : (inh < length (heap st1))%nat) by (eapply map_on_heap; [exact Hok1|apply H1]).
  destruct (looked_up_entry name st1 m1 h st2 m2 us Hok2 H2) as (eh & Heh & _).
  assert (Hin2 : (inh < length (heap st2))%nat).
  { destruct H2 as [_ H2]. destruct (m1 !! name) as [?|]; destruct H2 as (_ & Hh & _).
    - by rewrite Hh.
    - rewrite Hh, length_app. lia. }
  split; [done|]. destruct (m1 !! name) as [p|] eqn:Hn1.
  - destruct H2 as [_ H2]. rewrite Hn1 in H2. destruct H2 as (-> & Hh2 & ->).
    assert (Ht2 : types st2 = types st1) by (unfold types; by rewrite Hh2).
    rewrite Hh2, Ht2 in *. pose proof H1 as [Hm1 H1']. destruct (m !! string) as [q|] eqn:Hs.
    + destruct H1' as (-> & Hh1 & ->). assert (Ht1 : types st1 = types st) by (unfold types; by rewrite Hh1).
      rewrite Hh1, Ht1 in *. by apply (Hlf p q Hn1 eq_refl).
    + destruct H1' as (-> & Hh & ->). rewrite lookup_insert_ne in Hn1 by done.
      intros x u Hx _ _. pose proof (map_on_heap _ _ _ _ _ Hok Hn1) as Hp.
      pose proof (looked_up_leads _ _ _ _ _ _ _ _ _ Hok H1 Hp Hx) as Hx'.
      pose proof (leads_in _ _ _ (ok_links _ _ _ _ Hok) ltac:(unfold links; by rewrite length_fmap) Hx') as Hlt.
      unfold links in Hlt. rewrite length_fmap in Hlt. split; [lia|]. intros Hi.
      rewrite (looked_up_fresh _ _ _ _ _ _ _ H1 Hs Hi) in Hlt. lia.
  - assert (Hh : h = length (heap st1)).
    { destruct H2 as [_ H2]. rewrite Hn1 in H2. apply H2. }
    intros x u Hx _ _. rewrite (looked_up_fresh _ _ _ _ _ _ _ H2 Hn1 Hx). split; [lia|]. intros Hi.
    pose proof (looked_up_leads _ _ _ _ _ _ _ _ _ Hok1 H2 Hin1 Hi) as Hi'.
    pose proof (leads_in _ _ _ (ok_links _ _ _ _ Hok1) ltac:(unfold links; by rewrite length_fmap) Hi') as Hlt.
    unfold links in Hlt. rewrite length_fmap in Hlt. lia.
Qed.

Section add.
  Context (info : bfd_link_info) (notice : link_event -> bool).
  Context (section_named : bfd -> string -> option asection).
  Context (Hmem : forall n, has_memory n = true) (Hwrap : wrap_hash info = None).
  Context (Hnotice : forall ev, notice ev = true).

Definition add_one := _bfd_generic_link_add_one_symbol info notice section_named.

(** What is reported before the loop. *)
Definition announced (ev : link_event) : Prop :=
  match ev with ev_error _ | ev_notice _ _ _ _ _ _ => True | _ => False end.

(** The lookups of [_bfd_generic_link_add_one_symbol]. *)
Lemma add_one_enter (abfd : bfd) (name : string) (flags : Z) (section : asection) (value : Z)
    (string : String.string) (copy collect : bool) st m us :
  ok st m us -> Z.of_nat (length (heap st)) + 1 < max_entries ->
  let row := symbol_row flags section in
  (row = INDR_ROW -> loop_free st m name string) ->
  exists inh h st' m' e evs,
    add_one abfd name flags section value string copy collect None st
    = (n ← gets (fun st => length (heap st));
       '(ret, sub) ← run info section_named abfd name section value string copy collect inh (S (S (2 * n))) row h;
       mret (ret, match sub with Some s => Some s | None => Some h end)) st'
    /\ ok st' m' us /\ heap st' !! h = Some e /\ le_string e = name /\ m' !! name = Some h
    /\ (row = INDR_ROW -> no_loop inh st' h)
    /\ (row <> INDR_ROW -> exists st1, looked_up name st m h st1 m' /\ types st' = types st1)
    /\ events st' = events st ++ evs /\ Forall announced evs.
Proof.
  intros Hok Hmax row Hlf. unfold add_one, _bfd_generic_link_add_one_symbol. fold row.
  assert (exists inh st1 m1, (match row with
         | INDR_ROW => bfd_wrapped_link_hash_lookup info abfd string true copy false
         | _ => mret None
         end) st = Ret (inh, st1) /\ ok st1 m1 us /\ events st1 = events st
      /\ Z.of_nat (length (heap st1)) < max_entries
      /\ (row = INDR_ROW -> exists i, inh = Some i /\ looked_up string st m i st1 m1)
      /\ (row <> INDR_ROW -> inh = None /\ st1 = st /\ m1 = m))
    as (inh & st1 & m1 & E1 & Hok1 & Hev1 & Hmax1 & Hi1 & Hi2).
  { destruct row eqn:Er.
    6: { unfold bfd_wrapped_link_hash_lookup. rewrite Hwrap.
         destruct (lookup_ok st m us string copy Hok) as (i & st1 & m1 & E & Hok1 & Hl & Hev); [lia|].
         exists (Some i), st1, m1. pose proof (looked_up_length _ _ _ _ _ _ Hl).
         split_and!; [done|done|done|lia|intros _; by exists i|done]. }
    all: exists None, st, m; split_and!; try done; lia. }
  lnext E1.
  assert (Hsome : row = INDR_ROW -> inh <> None) by (intros Hr; by destruct (Hi1 Hr) as (i & -> & _)).
  assert (Hcont : forall k1 k2 : L (bool * option nat), (match row, inh with
    | INDR_ROW, None => k1 | _, _ => k2 end) st1 = k2 st1).
  { intros k1 k2. destruct row, inh; try done; by destruct (Hsome eq_refl). }
  rewrite Hcont. clear Hcont.
  set (err := match row with COMMON_ROW => true | _ => false end && negb (relocatable info)
                && bool_decide (name = "__gnu_lto_slim")).
  set (evs1 := if err then [ev_error "%B: plugin needed to handle lto object"] else []).
  assert (Ee : when err (log (ev_error "%B: plugin needed to handle lto object")) st1
               = Ret (tt, add_events evs1 st1)).
  { unfold evs1. destruct err; [done|]. unfold add_events. rewrite app_nil_r. by destruct st1. }
  lnext Ee. set (st2 := add_events evs1 st1).
  assert (Hok2 : ok st2 m1 us) by by apply okx_events.
  destruct (lookup_ok st2 m1 us name copy Hok2 Hmax1) as (h & st3 & m3 & E3 & Hok3 & Hl3 & Hev3).
  assert (E3' : (match row with
               | UNDEF_ROW | UNDEFW_ROW => bfd_wrapped_link_hash_lookup info abfd name true copy false
               | _ => bfd_link_hash_lookup name true copy false
               end) st2 = Ret (Some h, st3)).
  { unfold bfd_wrapped_link_hash_lookup. rewrite Hwrap. by destruct row. }
  lnext E3'. cbv zeta.
  set (ev := ev_notice h inh (bfd_id abfd) section value flags).
  set (nt := notice_all info || match notice_hash info with Some f => f name | None => false end).
  set (evs2 := if nt then [ev] else []).
  assert (En : when nt (log ev) st3 = Ret (tt, add_events evs2 st3)).
  { unfold evs2. destruct nt; [done|]. unfold add_events. rewrite app_nil_r. by destruct st3. }
  lnext En. rewrite Hnotice, andb_false_r. set (st4 := add_events evs2 st3).
  destruct (looked_up_entry _ _ _ _ _ _ _ Hok3 Hl3) as (e & He & Hs).
  exists (default 0%nat inh), h, st4, m3, e, (evs1 ++ evs2).
  split; [reflexivity|]. split; [by apply okx_events|]. split; [exact He|]. split; [exact Hs|].
  split; [apply Hl3|]. split; [|split; [|split]].
  - intros Hr. destruct (Hi1 Hr) as (i & -> & Hl1). cbn [default].
    apply (no_loop_after st m us st1 m1 st3 m3 name string i h Hok Hok1 Hl1 Hl3 Hok3 (Hlf Hr)).
  - intros Hr. destruct (Hi2 Hr) as (_ & -> & ->). by exists st3.
  - change (events st4) with (events st3 ++ evs2). rewrite Hev3.
    change (events st2) with (events st1 ++ evs1). by rewrite Hev1, <- app_assoc.
  - unfold evs1, evs2. apply Forall_app. split; [destruct err|destruct nt]; by repeat constructor.
Qed.

Lemma char_at_fault (s : string) (i : nat) (f : fault) : char_at s i = Fail f -> f = Foob.
Proof. unfold char_at. repeat case_match; congruence. Qed.

Lemma constructor_name_fault (name : string) (f : fault) : constructor_name name = Fail f -> f = Foob.
Proof.
  unfold constructor_name. destruct name as [|c name]; [done|]. repeat (case_match; [|done]).
  destruct (char_at _ 8) eqn:E8; cbn [rbind]; [|intros [= <-]; by eapply char_at_fault].
  case_match; [|done]. destruct (char_at _ 7) eqn:E7; cbn [rbind]; [|intros [= <-]; by eapply char_at_fault].
  destruct (char_at _ 9) eqn:E9; cbn [rbind]; [done|intros [= <-]; by eapply char_at_fault].
Qed.

(** [name], or what it stands for, has a weak definition. *)
Definition weakly_defined st m (name : string) : Prop :=
  exists p q section value, m !! name = Some p /\ leads (links (heap st)) p q
    /\ types st !! q = Some (bfd_link_hash_defweak section value).

(** A fault in the loop comes from the name, or from a weak definition in the table
    before the call. *)
Lemma faults_before {A : Type} (row : link_row) (name : string) (collect : bool) (h : nat) (r : res A) st m us st1 st2 m2 :
  ok st m us -> looked_up name st m h st1 m2 -> types st2 = types st1 -> faults name collect row h st2 r ->
  collect = true /\
  ((row = DEF_ROW \/ row = DEFW_ROW) /\ constructor_name name = Fail Foob /\ r = Fail Foob
   \/ row = DEF_ROW /\ (exists ctor, constructor_name name = Ret (Some ctor)) /\ weakly_defined st m name /\ r = Fail Fabort).
Proof.
  intros Hok Hl Hts (q & u & f & Hq & Hu & Hd & Hf & ->). unfold ctor_fault in Hf. destruct collect; [|done].
  split; [done|]. destruct (constructor_name name) as [[ctor|]|f0] eqn:Ec; [right|done|left].
  - destruct u; try done. injection Hf as <-. split; [by destruct row|]. split; [eauto|]. split; [|done].
    rewrite links_types, Hts in Hq. rewrite Hts in Hu. rewrite <- links_types in Hq.
    destruct (m !! name) as [p|] eqn:Hm.
    + destruct Hl as [_ Hl]. rewrite Hm in Hl. destruct Hl as (-> & Hh & _). exists p, q. unfold types in Hu.
      rewrite Hh in Hq, Hu. eauto.
    + pose proof (looked_up_fresh _ _ _ _ _ _ _ Hl Hm Hq) as ->. destruct Hl as [_ Hl]. rewrite Hm in Hl.
      destruct Hl as (-> & Hh & _). unfold types in Hu.
      rewrite Hh, fmap_app, lookup_app_r, length_fmap, Nat.sub_diag in Hu by (by rewrite length_fmap). done.
  - apply constructor_name_fault in Ec as Ef. injection Hf as <-. subst f0. split; [by eapply defines_row|done].
Qed.

End add.
End state.

Ltac lnext E := rewrite (lbind_ret _ _ _ _ _ E); cbv beta iota.
Ltac lread He := lnext (get_link_ret _ _ _ He).

(** ** The table of bfd/hash.c *)

Definition all_memory : Memory := fun _ => true.
Definition hash_ops : StringTable link_entry bfd_hash_table :=
  bfd_string_table (memory := all_memory) (_bfd_link_hash_newfunc (memory := all_memory)).

Definition hash_laws : StringTableLaws (ops := hash_ops) link_entry bfd_hash_table fresh_entry.
Proof. apply bfd_table_laws; [done|]. intros s. by exists blank_entry. Defined.

Definition empty_link {T : Type} (t : T) : link_state T := mk_state [] t None None [].

Lemma empty_link_ok {T : Type} {ops : StringTable link_entry T} {laws : StringTableLaws link_entry T fresh_entry}
    (t : T) : st_holds [] t ∅ -> ok (empty_link t) ∅ [].
Proof. intros Ht. split; try done; cbn; [intros p Hp; cbn in Hp; lia|constructor]. Qed.

Definition small_table : bfd_hash_table := mk_table (replicate 31 []) 31 0 false.

Lemma small_table_holds : st_holds (StringTableLaws := hash_laws) [] small_table ∅.
Proof. by apply (bfd_hash_table_init_holds (memory := all_memory) (_bfd_link_hash_newfunc (memory := all_memory)) [] 31). Qed.

(** An object file, and what surrounds a link without --wrap. *)
Definition demo_bfd (n : nat) : bfd := mk_bfd n false NUL.
Definition demo_info : bfd_link_info := mk_info false false false None None NUL.
Definition demo_text : asection := mk_sec (k_file 1) ".text" false.

