(* ===== verification/LinkFiles.v ===== *)
(** * The symbols of input files and archives: bfd/linker.c

    The generic linker's walk over the symbols of an object file
    ([generic_link_add_symbol_list]) and its search of an archive's symbol table
    ([_bfd_generic_link_add_archive_symbols] with
    [generic_link_check_archive_element]), on the symbol table of LinkAdd.v.  A
    file's [outsymbols] are kept by file number, and a symbol is addressed by its
    file and position.  What the object-file format, the archive reader and the
    linker driver supply are parameters. *)
From S2P Require Import Prelude BfdHash LinkAdd.
#[local] Open Scope Z_scope.

(** ** Symbols and the state *)

(** [struct bfd_symbol]; [udata.p] points at an entry of the table or is NULL. *)
Record asymbol : Type := mk_asymbol {
  sy_name : string;
  sy_flags : Z;
  sy_section : asection;
  sy_value : Z;
  sy_udata : option nat
}.

Definition set_udata (h : option nat) (p : asymbol) : asymbol :=
  mk_asymbol (sy_name p) (sy_flags p) (sy_section p) (sy_value p) h.
Definition or_flags (f : Z) (p : asymbol) : asymbol :=
  mk_asymbol (sy_name p) (Z.lor (sy_flags p) f) (sy_section p) (sy_value p) (sy_udata p).

(** The [sym] member a [generic_link_hash_entry] adds to an entry is [g_sym]. *)
Record gen_state (T : Type) : Type := mk_gen {
  g_link : link_state T;
  g_sym : gmap nat (nat * nat);
  g_syms : gmap nat (list asymbol)
}.
Arguments mk_gen {T}.
Arguments g_link {T}.
Arguments g_sym {T}.
Arguments g_syms {T}.

(** An entry of the archive's symbol table. *)
Record carsym : Type := mk_carsym {
  cs_name : string;
  file_offset : Z
}.

(** [bfd_ardata (abfd)], as far as the search reads it. *)
Record archive : Type := mk_archive {
  ar_has_map : bool;
  ar_empty : bool;
  symdefs : list carsym
}.

Inductive bfd_format : Type := bfd_unknown | bfd_object | bfd_archive (ar : archive) | bfd_core.

Definition BSF_GLOBAL : Z := Z.shiftl 1 1.
Definition BSF_OLD_COMMON : Z := Z.shiftl 1 9.

Section files.
  Context {T : Type} {ops : StringTable link_entry T} {memory : Memory}.
  Context (info : bfd_link_info) (notice : link_event -> bool).
  Context (section_named : bfd -> string -> option asection).
  (** [info->output_bfd->xvec == abfd->xvec] *)
  Context (same_xvec : bfd -> bool).
  (** [bfd_get_symtab_upper_bound] and [bfd_canonicalize_symtab]. *)
  Context (upper_bound : bfd -> Z) (canonicalize : bfd -> option (list asymbol)).

Definition G (A : Type) : Type := gen_state T -> res (A * gen_state T).
#[global] Instance G_ret : MRet G := fun A a st => Ret (a, st).
#[global] Instance G_bind : MBind G :=
  fun A B k m st => match m st with Ret (a, st') => k a st' | Fail f => Fail f end.

Definition gfail {A : Type} (f : fault) : G A := fun _ => Fail f.
Definition in_table {A : Type} (c : L A) : G A :=
  fun st => match c (g_link st) with
            | Ret (a, l) => Ret (a, mk_gen l (g_sym st) (g_syms st))
            | Fail f => Fail f
            end.
Definition outsymbols (abfd : bfd) : G (option (list asymbol)) :=
  fun st => Ret (g_syms st !! bfd_id abfd, st).
Definition set_outsymbols (abfd : bfd) (l : list asymbol) : G unit :=
  fun st => Ret (tt, mk_gen (g_link st) (g_sym st) (<[bfd_id abfd := l]> (g_syms st))).

(** [**pp] *)
Definition get_symbol (at_ : nat * nat) : G asymbol :=
  fun st => match g_syms st !! at_.1 with
            | Some l => match l !! at_.2 with Some p => Ret (p, st) | None => Fail Foob end
            | None => Fail Foob
            end.
Definition update_symbol (at_ : nat * nat) (f : asymbol -> asymbol) : G unit :=
  fun st => Ret (tt, mk_gen (g_link st) (g_sym st) (alter (alter f at_.2) at_.1 (g_syms st))).

(** [h->sym] *)
Definition get_sym (h : nat) : G (option (nat * nat)) := fun st => Ret (g_sym st !! h, st).
Definition set_sym (h : nat) (at_ : nat * nat) : G unit :=
  fun st => Ret (tt, mk_gen (g_link st) (<[h := at_]> (g_sym st)) (g_syms st)).
Definition gwhen (b : bool) (m : G unit) : G unit := if b then m else mret tt.

(** A failed [bfd_canonicalize_symtab] leaves the array allocated and nothing
    counted. *)
Definition bfd_generic_link_read_symbols (abfd : bfd) : G bool :=
  o ← outsymbols abfd;
  match o with
  | Some _ => mret true
  | None =>
      let symsize := upper_bound abfd in
      if symsize <? 0 then mret false
      else if negb (has_memory symsize) && negb (symsize =? 0) then mret false
      else
        _ ← set_outsymbols abfd [];
        match canonicalize abfd with
        | None => mret false
        | Some l => _ ← set_outsymbols abfd l; mret true
        end
  end.

(** ** The symbols of an object file *)

Definition interesting (p : asymbol) : bool :=
  has_flag (sy_flags p)
    (Z.lor BSF_INDIRECT (Z.lor BSF_WARNING (Z.lor BSF_GLOBAL (Z.lor BSF_CONSTRUCTOR BSF_WEAK))))
  || bfd_is_und_section (sy_section p)
  || bfd_is_com_section (sy_section p)
  || bfd_is_ind_section (sy_section p).

(** The position the walk is at afterwards, the name and the string. *)
Definition name_and_string (file : nat) (pp ppend : nat) (p : asymbol) : G (nat * string * string) :=
  if (has_flag (sy_flags p) BSF_INDIRECT || bfd_is_ind_section (sy_section p)) && (pp + 1 <? ppend)%nat then
    q ← get_symbol (file, S pp); mret (S pp, sy_name p, sy_name q)
  else if has_flag (sy_flags p) BSF_WARNING && (pp + 1 <? ppend)%nat then
    q ← get_symbol (file, S pp); mret (S pp, sy_name q, sy_name p)
  else mret (pp, sy_name p, sy_name p).

(** Whether [p] is worth more than [h->sym]. *)
Definition better_symbol (h : nat) (p : asymbol) : G bool :=
  o ← get_sym h;
  match o with
  | None => mret true
  | Some q =>
      if bfd_is_und_section (sy_section p) then mret false
      else if bfd_is_com_section (sy_section p) then
        q ← get_symbol q; mret (bfd_is_und_section (sy_section q))
      else mret true
  end.

(** What is done with [p] once it is in the table. *)
Definition record_symbol (abfd : bfd) (at_ : nat * nat) (p : asymbol) (bh : option nat) : G unit :=
  skip ← (if has_flag (sy_flags p) BSF_CONSTRUCTOR then
            match bh with
            | None => mret true
            | Some h => e ← in_table (get_link h); mret (bool_decide (le_type e = bfd_link_hash_new))
            end
          else mret false);
  if (skip : bool) then update_symbol at_ (set_udata None)
  else
    _ ← gwhen (same_xvec abfd)
          (match bh with
           | None => gfail Foob
           | Some h =>
               b ← better_symbol h p;
               gwhen b (_ ← set_sym h at_;
                        gwhen (bfd_is_com_section (sy_section p)) (update_symbol at_ (or_flags BSF_OLD_COMMON)))
           end);
    update_symbol at_ (set_udata bh).

(** The loop from [pp]. *)
Fixpoint symbol_loop (fuel : nat) (abfd : bfd) (pp ppend : nat) : G bool :=
  match fuel with
  | O => gfail Floop
  | S fuel' =>
      if negb (pp <? ppend)%nat then mret true
      else
        p ← get_symbol (bfd_id abfd, pp);
        if interesting p then
          '(pp', name, string) ← name_and_string (bfd_id abfd) pp ppend p;
          '(ok, bh) ← in_table (_bfd_generic_link_add_one_symbol info notice section_named abfd name
                                  (sy_flags p) (sy_section p) (sy_value p) string false false None);
          if negb ok then mret false
          else
            _ ← record_symbol abfd (bfd_id abfd, pp) p bh;
            symbol_loop fuel' abfd (S pp') ppend
        else symbol_loop fuel' abfd (S pp) ppend
  end.

Definition generic_link_add_symbol_list (abfd : bfd) (symbol_count : nat) : G bool :=
  symbol_loop (S symbol_count) abfd 0 symbol_count.

Definition generic_link_add_object_symbols (abfd : bfd) : G bool :=
  ok ← bfd_generic_link_read_symbols abfd;
  if negb ok then mret false
  else
    o ← outsymbols abfd;
    generic_link_add_symbol_list abfd (length (default [] o)).

(** ** Archives *)
Section archive.
  (** The [checkfn] argument, with [*pneeded] before and after. *)
  Context (checkfn : bfd -> nat -> string -> bool -> G (bool * bool)).
  (** [_bfd_get_elt_at_filepos], with its [bfd_check_format]. *)
  Context (element_at : Z -> option bfd).
  Context (pei386_auto_import : bool).

(** What one pass over the symbol table carries from entry to entry. *)
Record pass : Type := mk_pass {
  included : list bool;
  last_ar_offset : Z;
  needed : bool;
  element : option bfd;
  loop : bool
}.

Definition include (indx : nat) (p : pass) : pass :=
  mk_pass (<[indx := true]> (included p)) (last_ar_offset p) (needed p) (element p) (loop p).

(** The backward marking, from [mark]. *)
Fixpoint mark_back (arsyms : list carsym) (last : Z) (mark : nat) (inc : list bool) : list bool :=
  let inc := <[mark := true]> inc in
  match mark with
  | O => inc
  | S mark' =>
      match arsyms !! mark' with
      | Some a => if file_offset a =? last then mark_back arsyms last mark' inc else inc
      | None => inc
      end
  end.

Definition lookup_arsym (name : string) : G (option nat) :=
  h ← in_table (bfd_link_hash_lookup name false false true);
  match h with
  | Some h => mret (Some h)
  | None =>
      if pei386_auto_import && String.prefix "__imp_" name
      then in_table (bfd_link_hash_lookup (drop_chars 6 name) false false true)
      else mret None
  end.

(** The element [arsym] is in; [None] for [goto error_return]. *)
Definition open_element (arsym : carsym) (p : pass) : option pass :=
  if negb (last_ar_offset p =? file_offset arsym) then
    match element_at (file_offset arsym) with
    | Some e => Some (mk_pass (included p) (file_offset arsym) (needed p) (Some e) (loop p))
    | None => None
    end
  else Some p.

(** One entry of the symbol table. *)
Definition arsym_step (arsyms : list carsym) (indx : nat) (arsym : carsym) (p : pass) : G (option pass) :=
  if nth indx (included p) false then mret (Some p)
  else if needed p && (file_offset arsym =? last_ar_offset p) then mret (Some (include indx p))
  else
    h ← lookup_arsym (cs_name arsym);
    match h with
    | None => mret (Some p)
    | Some h =>
        e ← in_table (get_link h);
        match le_type e with
        | bfd_link_hash_undefined _ | bfd_link_hash_common _ _ _ =>
            match open_element arsym p with
            | None => mret None
            | Some p =>
                match element p with
                | None => gfail Foob
                | Some elt =>
                    undefs_tail_ ← in_table (gets undefs_tail);
                    '(ret, needed_) ← checkfn elt h (cs_name arsym) (needed p);
                    if negb ret then mret None
                    else if (needed_ : bool) then
                      tail ← in_table (gets undefs_tail);
                      mret (Some (mk_pass (mark_back arsyms (last_ar_offset p) indx (included p))
                                    (last_ar_offset p) true (Some elt)
                                    (if decide (undefs_tail_ = tail) then loop p else true)))
                    else mret (Some (mk_pass (included p) (last_ar_offset p) false (Some elt) (loop p)))
                end
            end
        | bfd_link_hash_undefweak _ => mret (Some p)
        | _ => mret (Some (include indx p))
        end
    end.

(** The [for] loop, over the rest of the table. *)
Fixpoint pass_loop (arsyms : list carsym) (indx : nat) (rest : list carsym) (p : pass) : G (option pass) :=
  match rest with
  | [] => mret (Some p)
  | a :: rest' =>
      o ← arsym_step arsyms indx a p;
      match o with
      | Some p => pass_loop arsyms (S indx) rest' p
      | None => mret None
      end
  end.

(** The [do ... while (loop)]. *)
Fixpoint search_loop (fuel : nat) (arsyms : list carsym) (inc : list bool) : G bool :=
  match fuel with
  | O => gfail Floop
  | S fuel' =>
      o ← pass_loop arsyms 0 arsyms (mk_pass inc (-1) false None false);
      match o with
      | None => mret false
      | Some p => if loop p then search_loop fuel' arsyms (included p) else mret true
      end
  end.

(** Every pass that is repeated includes an entry. *)
Definition _bfd_generic_link_add_archive_symbols (ar : archive) : G bool :=
  if negb (ar_has_map ar) then mret (ar_empty ar)
  else
    let count := length (symdefs ar) in
    if (count =? 0)%nat then mret true
    else if negb (has_memory (Z.of_nat count)) then mret false
    else search_loop (S count) (symdefs ar) (repeat false count).
End archive.

(** ** The generic check of an element *)
Section check_element.
  (** [info->callbacks->add_archive_element]: the file to add, or [None] if it fails. *)
  Context (add_archive_element : bfd -> string -> option bfd).
  (** The file with a number, and [section->vma]. *)
  Context (bfd_of : nat -> bfd) (vma : asection -> Z).

Definition bfd_asymbol_value (p : asymbol) : Z := u64 (vma (sy_section p) + sy_value p).

(** An undefined symbol made common, without its element; [None] when the storage
    for it runs out. *)
Definition make_common (h : nat) (symbfd : nat) (p : asymbol) : L (T := T) bool :=
  if negb (has_memory SIZEOF_COMMON_ENTRY) then
    _ ← upd h (set_type (bfd_link_hash_common 0 0 bfd_und_section)); mret false
  else
    let size := bfd_asymbol_value p in
    power ← common_power size;
    let s := bfd_make_section_old_way section_named (bfd_of symbfd)
               (if decide (sy_section p = bfd_com_section) then "COMMON" else s_name (sy_section p)) in
    _ ← log (ev_section_alloc s);
    _ ← upd h (set_type (bfd_link_hash_common size power s));
    mret true.

(** A symbol of the element: the end of the search with the value returned and
    [*pneeded], or [None] to go on.  An undefined entry always has a file here. *)
Definition check_symbol (abfd : bfd) (p : asymbol) : G (option (bool * bool)) :=
  if negb (bfd_is_com_section (sy_section p))
     && negb (has_flag (sy_flags p) (Z.lor BSF_GLOBAL (Z.lor BSF_INDIRECT BSF_WEAK)))
  then mret None
  else
    h ← in_table (bfd_link_hash_lookup (sy_name p) false false true);
    match h with
    | None => mret None
    | Some h =>
        e ← in_table (get_link h);
        match le_type e with
        | bfd_link_hash_undefined symbfd =>
            if negb (bfd_is_com_section (sy_section p)) then
              match add_archive_element abfd (sy_name p) with
              | None => mret (Some (false, true))
              | Some sub => r ← generic_link_add_object_symbols sub; mret (Some (r, true))
              end
            else
              r ← in_table (make_common h symbfd p);
              mret (if (r : bool) then None else Some (false, false))
        | bfd_link_hash_common size al sec =>
            if negb (bfd_is_com_section (sy_section p)) then
              match add_archive_element abfd (sy_name p) with
              | None => mret (Some (false, true))
              | Some sub => r ← generic_link_add_object_symbols sub; mret (Some (r, true))
              end
            else
              _ ← in_table (when (size <? bfd_asymbol_value p)
                              (upd h (set_type (bfd_link_hash_common (bfd_asymbol_value p) al sec))));
              mret None
        | _ => mret None
        end
    end.

Fixpoint check_loop (abfd : bfd) (l : list asymbol) : G (bool * bool) :=
  match l with
  | [] => mret (true, false)
  | p :: l' =>
      o ← check_symbol abfd p;
      match o with
      | Some r => mret r
      | None => check_loop abfd l'
      end
  end.

(** The symbols do not change while the element is only looked at. *)
Definition generic_link_check_archive_element (abfd : bfd) (h : nat) (name : string) (pneeded : bool)
  : G (bool * bool) :=
  ok ← bfd_generic_link_read_symbols abfd;
  if negb ok then mret (false, false)
  else o ← outsymbols abfd; check_loop abfd (default [] o).
End check_element.

(** ** Any input file *)
Definition _bfd_generic_link_add_symbols (add_archive_element : bfd -> string -> option bfd)
    (bfd_of : nat -> bfd) (vma : asection -> Z) (element_at : bfd -> Z -> option bfd)
    (pei386_auto_import : bool) (format : bfd_format) (abfd : bfd) : G bool :=
  match format with
  | bfd_object => generic_link_add_object_symbols abfd
  | bfd_archive ar =>
      _bfd_generic_link_add_archive_symbols
        (generic_link_check_archive_element add_archive_element bfd_of vma) (element_at abfd)
        pei386_auto_import ar
  | _ => mret false
  end.
End files.
