(* ===== verification/LinkSyms.v ===== *)
(** * Which symbol wins: what the linker's state table computes

    For the ordinary symbols of the input files, references, definitions and
    commons, weak or not, the sequence of [_bfd_generic_link_add_one_symbol] calls
    (LinkAdd.v) leaves every name with the type a specification without states
    gives it: the first strong definition, else the largest common, else the first
    weak definition, else the first reference.  Also the endless loop on an
    indirect symbol that names itself. *)
From S2P Require Import Prelude BfdHash LinkAdd LinkOk.
#[local] Open Scope Z_scope.

(** ** The specification *)

(** A symbol of an input file. *)
Record input : Type := mk_input {
  in_abfd : bfd;
  in_name : string;
  in_flags : Z;
  in_section : asection;
  in_value : Z
}.

Definition row_of (i : input) : link_row := symbol_row (in_flags i) (in_section i).

Definition ordinary (r : link_row) : bool :=
  match r with UNDEF_ROW | UNDEFW_ROW | DEF_ROW | DEFW_ROW | COMMON_ROW => true | _ => false end.

(** The first symbol with the row [r]. *)
Definition first_of (r : link_row) (l : list input) : option input :=
  List.find (fun i => bool_decide (row_of i = r)) l.

(** The largest common symbol, the first one of its size. *)
Fixpoint largest (l : list input) : option input :=
  match l with
  | [] => None
  | i :: l' =>
      if decide (row_of i = COMMON_ROW) then
        match largest l' with
        | Some j => if in_value i <? in_value j then Some j else Some i
        | None => Some i
        end
      else largest l'
  end.

(** The strong definitions that come after one of the same name. *)
Fixpoint extra_defs (seen : list string) (l : list input) : list (nat * asection * Z) :=
  match l with
  | [] => []
  | i :: l' =>
      if decide (row_of i = DEF_ROW) then
        if decide (in_name i ∈ seen) then
          (bfd_id (in_abfd i), in_section i, in_value i) :: extra_defs seen l'
        else extra_defs (in_name i :: seen) l'
      else extra_defs seen l'
  end.

(** The multiple definitions among the events. *)
Definition mdefs (evs : list link_event) : list (nat * asection * Z) :=
  omap (fun ev => match ev with ev_multiple_definition _ b s v => Some (b, s, v) | _ => None end) evs.

Section spec.
  Context (section_named : bfd -> string -> option asection).

Definition common_of (i : input) : link_hash_type :=
  com_type section_named (in_abfd i) (in_section i) (in_value i).

(** What the symbols [l] of one name amount to. *)
Definition resolved_type (l : list input) : link_hash_type :=
  match first_of DEF_ROW l with
  | Some i => bfd_link_hash_defined (in_section i) (in_value i)
  | None =>
      match largest l with
      | Some i => common_of i
      | None =>
          match first_of DEFW_ROW l with
          | Some i => bfd_link_hash_defweak (in_section i) (in_value i)
          | None =>
              match first_of UNDEF_ROW l with
              | Some i => bfd_link_hash_undefined (bfd_id (in_abfd i))
              | None =>
                  match first_of UNDEFW_ROW l with
                  | Some i => bfd_link_hash_undefweak (bfd_id (in_abfd i))
                  | None => bfd_link_hash_new
                  end
              end
          end
      end
  end.

(** One more symbol. *)
Definition next_type (i : input) (old : link_hash_type) : link_hash_type :=
  match row_of i with
  | UNDEF_ROW =>
      match old with
      | bfd_link_hash_new | bfd_link_hash_undefweak _ => bfd_link_hash_undefined (bfd_id (in_abfd i))
      | _ => old
      end
  | UNDEFW_ROW => if decide (old = bfd_link_hash_new) then bfd_link_hash_undefweak (bfd_id (in_abfd i)) else old
  | DEF_ROW =>
      match old with
      | bfd_link_hash_defined _ _ => old
      | _ => bfd_link_hash_defined (in_section i) (in_value i)
      end
  | DEFW_ROW =>
      match old with
      | bfd_link_hash_new | bfd_link_hash_undefined _ | bfd_link_hash_undefweak _ =>
          bfd_link_hash_defweak (in_section i) (in_value i)
      | _ => old
      end
  | COMMON_ROW =>
      match old with
      | bfd_link_hash_defined _ _ => old
      | bfd_link_hash_common size _ _ => if size <? in_value i then common_of i else old
      | _ => common_of i
      end
  | _ => old
  end.

Lemma first_of_snoc (r : link_row) (l : list input) (i : input) :
  first_of r (l ++ [i])
  = match first_of r l with Some j => Some j | None => if decide (row_of i = r) then Some i else None end.
Proof.
  unfold first_of. induction l as [|j l IH]; cbn; [by repeat case_bool_decide; repeat case_decide|].
  by case_bool_decide.
Qed.

Lemma largest_snoc (l : list input) (i : input) :
  largest (l ++ [i])
  = if decide (row_of i = COMMON_ROW) then
      match largest l with
      | Some j => if in_value j <? in_value i then Some i else Some j
      | None => Some i
      end
    else largest l.
Proof.
  induction l as [|j l IH]; cbn [app largest]; [done|]. rewrite IH.
  destruct (decide (row_of i = COMMON_ROW)) as [Hi|Hi]; [|done].
  destruct (decide (row_of j = COMMON_ROW)) as [Hj|Hj]; [|done].
  destruct (largest l) as [k|]; [|done].
  destruct (Z.ltb_spec (in_value k) (in_value i)), (Z.ltb_spec (in_value j) (in_value k)); cbv iota beta;
    destruct (Z.ltb_spec (in_value j) (in_value i)), (Z.ltb_spec (in_value j) (in_value k)),
      (Z.ltb_spec (in_value k) (in_value i)); done || lia.
Qed.

(** The specification can be computed one symbol at a time. *)
Lemma resolved_snoc (l : list input) (i : input) :
  ordinary (row_of i) = true -> resolved_type (l ++ [i]) = next_type i (resolved_type l).
Proof.
  intros Ho. unfold resolved_type, next_type. rewrite !first_of_snoc, largest_snoc.
  destruct (row_of i) eqn:Er; try done; cbn [decide decide_rel link_row_eq_dec].
  all: destruct (first_of DEF_ROW l), (largest l), (first_of DEFW_ROW l), (first_of UNDEF_ROW l),
    (first_of UNDEFW_ROW l); cbn; try done.
  all: by destruct (_ <? _).
Qed.
End spec.

(** ** One call *)

Definition no_link (u : link_hash_type) : Prop := link_target u = None.

Section syms.
  Context {T : Type} {ops : StringTable link_entry T} {memory : Memory}.
  Context {laws : StringTableLaws link_entry T fresh_entry}.
  Context (info : bfd_link_info) (notice : link_event -> bool).
  Context (section_named : bfd -> string -> option asection).
  Context (Hmem : forall n, has_memory n = true) (Hwrap : wrap_hash info = None).
  Context (Hnotice : forall ev, notice ev = true).
  Implicit Types (st : link_state T) (m : gmap string nat) (us : list nat).

(** The multiple definition reported, if any. *)
Definition clash (i : input) (old : link_hash_type) : list (nat * asection * Z) :=
  match row_of i, old with
  | DEF_ROW, bfd_link_hash_defined _ _ => [(bfd_id (in_abfd i), in_section i, in_value i)]
  | _, _ => []
  end.

Lemma mdefs_app (evs evs' : list link_event) : mdefs (evs ++ evs') = mdefs evs ++ mdefs evs'.
Proof. apply omap_app. Qed.

Lemma home_no_mdefs (i : input) : mdefs (common_home section_named (in_abfd i) (in_section i)).2 = [].
Proof. unfold common_home. by repeat case_decide. Qed.

(** [leaves], with the multiple definitions known. *)
Definition resolves (c : L outcome) st m (u : link_hash_type) (h : nat) us' (dups : list (nat * asection * Z))
  : Prop :=
  exists evs, leaves c st m (stop true None) (<[h := u]> (types st)) us' evs /\ mdefs evs = dups.

(** What joins the list of undefined symbols. *)
Definition listed (i : input) (h : nat) (old : link_hash_type) : list nat :=
  match row_of i, old with
  | UNDEF_ROW, (bfd_link_hash_new | bfd_link_hash_undefweak _) | COMMON_ROW, bfd_link_hash_new => [h]
  | _, _ => []
  end.

Lemma same_resolves (c : L outcome) st m us' (u : link_hash_type) (h : nat) (evs : list link_event)
    (dups : list (nat * asection * Z)) :
  types st !! h = Some u -> leaves c st m (stop true None) (types st) us' evs -> mdefs evs = dups ->
  resolves c st m u h us' dups.
Proof. intros Hu Hl Hd. exists evs. by rewrite insert_idem. Qed.

Lemma leaves_log (ev : link_event) (c : L outcome) st m (ts : list link_hash_type) us' (evs : list link_event) :
  leaves c (add_events [ev] st) m (stop true None) ts us' evs ->
  leaves (_ ← log ev; c) st m (stop true None) ts us' (ev :: evs).
Proof.
  intros (st' & E & Hok & Ht & Hev). exists st'. split; [exact E|]. split; [done|]. split; [done|].
  rewrite Hev. cbn. by rewrite <- app_assoc.
Qed.

Lemma leaves_finish (c : L unit) st m (ts : list link_hash_type) us' (evs : list link_event) :
  leaves c st m tt ts us' evs -> leaves (_ ← c; finish) st m (stop true None) ts us' evs.
Proof. intros (st' & E & H). exists st'. split; [by lnext E|exact H]. Qed.

Lemma leaves_assoc (a b : L unit) (c : L outcome) st m (ts : list link_hash_type) us' (evs : list link_event) :
  leaves (_ ← (_ ← a; b); c) st m (stop true None) ts us' evs ->
  leaves (_ ← a; _ ← b; c) st m (stop true None) ts us' evs.
Proof. unfold leaves. by rewrite (bind_assoc a (fun _ => b) (fun _ => c)). Qed.

Lemma turn_resolves (i : input) (string : String.string) (copy : bool) (inh h : nat) (e : link_entry) st m us :
  ok st m us -> heap st !! h = Some e -> no_link (le_type e) -> ordinary (row_of i) = true ->
  0 <= in_value i < 2 ^ 64 ->
  resolves (turn info section_named (in_abfd i) (in_name i) (in_section i) (in_value i) string copy false inh
              (row_of i) h) st m (next_type section_named i (le_type e)) h
    (us ++ listed i h (le_type e)) (clash i (le_type e)).
Proof.
  intros Hok He Hn Ho Hv. pose proof (types_lookup st h e He) as Hty.
  set (abfd := in_abfd i). set (section := in_section i). set (value := in_value i) in *.
  assert (Hread : forall c : link_entry -> L outcome, forall u us' dups,
    resolves (c e) st m u h us' dups -> resolves (e ← get_link h; c e) st m u h us' dups).
  { intros c u us' dups (evs & (st' & E & H) & Hd). exists evs. split; [|done]. exists st'. split; [|done].
    by lread He. }
  apply Hread. clear Hread.
  assert (Hdef : ~ is_warning (le_type e) -> forall weak,
    resolves (act_define abfd (in_name i) section value false weak h) st m (def_type section value weak) h us []).
  { intros Hw weak. exists []. split; [|done].
    by apply (define_ok section_named abfd (in_name i) section value false Hv weak st m us h e). }
  assert (Hcom : ~ is_warning (le_type e) ->
    resolves (act_common section_named abfd section value h) st m (common_of section_named i) h
      (com_list us h (le_type e)) []).
  { intros Hw. eexists _. split; [by eapply (common_ok _ Hmem _ "" _ _ "")|apply home_no_mdefs]. }
  assert (Hfin : forall u, le_type e = u -> resolves finish st m u h us []).
  { intros u <-. by apply (same_resolves _ _ _ us _ _ []); [|apply leaves_ret|]. }
  assert (Hrefer : forall u, le_type e = u -> ~ is_blank u -> ~ is_undefined u ->
    resolves (_ ← act_refer h; finish) st m u h us []).
  { intros u <- Hb Hu. apply (same_resolves _ _ _ us _ _ []); [done| |done].
    apply leaves_finish. by eapply (refer_ok section_named Hmem abfd "" value ""). }
  assert (Hund : is_blank (le_type e) ->
    resolves (_ ← upd h (set_type (bfd_link_hash_undefined (bfd_id abfd))); _ ← bfd_link_add_undef h; finish)
      st m (bfd_link_hash_undefined (bfd_id abfd)) h (us ++ [h]) []).
  { intros Hb. exists []. split; [|done].
    apply leaves_assoc, leaves_finish. by eapply (und_ok section_named Hmem abfd value ""). }
  assert (Hweak : is_blank (le_type e) ->
    resolves (_ ← upd h (set_type (bfd_link_hash_undefweak (bfd_id abfd))); finish)
      st m (bfd_link_hash_undefweak (bfd_id abfd)) h us []).
  { intros Hb. exists []. split; [|done]. apply leaves_finish. by eapply set_weak_ok. }
  assert (Hbig : forall size al sc, le_type e = bfd_link_hash_common size al sc ->
    resolves (act_big section_named abfd section value h) st m
      (if size <? value then common_of section_named i else le_type e) h us []).
  { intros size al sc Et. eexists _. split.
    - pose proof (big_ok section_named abfd "" section value "" Hv st m us h e Hok He) as Hb.
      unfold big_type in Hb. rewrite Et in Hb |- *. by apply Hb.
    - cbn. destruct (size <? value); [apply home_no_mdefs|done]. }
  assert (Hlog : forall ev u dups, mdefs [ev] = dups -> le_type e = u ->
    resolves (_ ← log ev; finish) st m u h us dups).
  { intros ev u dups Hd <-. apply (same_resolves _ _ _ us _ _ [ev]); [done| |done].
    apply leaves_log. apply (leaves_ret _ (add_events [ev] st) m us). by apply okx_events. }
  assert (Hcdef : ~ is_warning (le_type e) -> forall n v,
    resolves (_ ← log (ev_multiple_common h (bfd_id abfd) n v);
              act_define abfd (in_name i) section value false false h) st m (def_type section value false) h us []).
  { intros Hw n v. exists [ev_multiple_common h (bfd_id abfd) n v]. split; [|done]. apply leaves_log.
    apply (define_ok section_named abfd (in_name i) section value false Hv false
      (add_events [ev_multiple_common h (bfd_id abfd) n v] st) m us h e); [by apply okx_events|done|done|done]. }
  unfold next_type, clash, listed, action_of.
  destruct (le_type e) as [|a|a|sc v|sc v|z al sc|l|l w] eqn:Et; try (unfold no_link in Hn; done);
    destruct (row_of i); try done; cbn [row_actions type_number nth decide decide_rel link_hash_type_eq_dec];
    rewrite ?app_nil_r.
  all: cbn in Hdef, Hcom, Hund, Hweak, Hcdef.
  all: try first [ by apply Hfin | apply Hund; exact I | apply Hweak; exact I | apply (Hdef ltac:(tauto) false)
    | apply (Hdef ltac:(tauto) true) | apply Hcdef; tauto | apply Hcom; tauto | by apply Hlog | by apply (Hbig z al sc)
    | by apply Hrefer; cbn; tauto ].
Qed.

(** The state between two such calls: no indirect symbols and no warnings. *)
Definition plain st : Prop := Forall no_link (types st).

Lemma next_no_link (i : input) (u : link_hash_type) : no_link u -> no_link (next_type section_named i u).
Proof.
  unfold next_type, common_of, com_type. intros Hu.
  destruct (row_of i), u; try done; repeat case_match; done.
Qed.

Lemma announced_mdefs (evs : list link_event) : Forall announced evs -> mdefs evs = [].
Proof. induction 1 as [|ev evs Hev _ IH]; [done|]. unfold mdefs. cbn. by destruct ev. Qed.

Lemma looked_up_types (s : string) st m (h : nat) st1 m' :
  looked_up s st m h st1 m' ->
  types st1 = types st \/ types st1 = types st ++ [bfd_link_hash_new].
Proof.
  intros [_ H]. unfold types. destruct (m !! s); destruct H as (_ & -> & _); [by left|right].
  by rewrite fmap_app.
Qed.

(** One symbol. *)
Lemma add_ordinary (i : input) (string : String.string) st m us :
  ok st m us -> plain st -> ordinary (row_of i) = true -> 0 <= in_value i < 2 ^ 64 ->
  Z.of_nat (length (heap st)) + 1 < max_entries ->
  exists st1 st' m' h u,
    add_one info notice section_named (in_abfd i) (in_name i) (in_flags i) (in_section i) (in_value i)
      string false false None st = Ret ((true, Some h), st')
    /\ ok st' m' (us ++ listed i h u) /\ looked_up (in_name i) st m h st1 m' /\ types st1 !! h = Some u
    /\ types st' = <[h := next_type section_named i u]> (types st1)
    /\ mdefs (events st') = mdefs (events st) ++ clash i u.
Proof.
  intros Hok Hp Ho Hv Hmax.
  assert (Hind : row_of i <> INDR_ROW) by (intros Hr; by rewrite Hr in Ho).
  destruct (add_one_enter info notice section_named Hwrap Hnotice (in_abfd i) (in_name i) (in_flags i)
              (in_section i) (in_value i) string false false st m us Hok Hmax)
    as (inh & h & st2 & m' & e & evs & -> & Hok2 & He & _ & Hm & _ & Hl & Hev & Hann); [done|].
  fold (row_of i) in *. destruct (Hl Hind) as (st1 & Hl1 & Ht2). clear Hl.
  pose proof (types_lookup _ _ _ He) as Hu. rewrite Ht2 in Hu.
  assert (Hn : no_link (le_type e)).
  { assert (Forall no_link (types st1)) as Hall.
    { destruct (looked_up_types _ _ _ _ _ _ Hl1) as [-> | ->]; [done|]. apply Forall_app. by repeat constructor. }
    by eapply Forall_lookup_1. }
  destruct (turn_resolves i string false inh h e st2 m' us Hok2 He Hn Ho Hv)
    as (evs' & (st' & E & Hok' & Ht' & Hev') & Hd).
  exists st1, st', m', h, (le_type e). split; [|split; [done|split; [done|split; [done|split]]]].
  - erewrite lbind_ret; [|reflexivity]. cbv beta. unfold run. cbn [turns].
    rewrite bind_assoc. lnext E. by cbv beta iota.
  - by rewrite Ht', Ht2.
  - by rewrite Hev', Hev, !mdefs_app, (announced_mdefs evs Hann), app_nil_r, Hd.
Qed.

(** ** A sequence of calls *)

Definition named (s : string) (l : list input) : list input := filter (fun i => in_name i = s) l.

(** The table after the symbols [l]. *)
Record linked st m (l : list input) : Prop := {
  linked_ok : exists us, ok st m us;
  linked_plain : plain st;
  linked_none : forall s, named s l = [] -> m !! s = None;
  linked_type : forall s, named s l <> [] ->
    exists h, m !! s = Some h /\ types st !! h = Some (resolved_type section_named (named s l));
  linked_dups : mdefs (events st) = extra_defs [] l;
  linked_size : length (heap st) = base.size m
}.

Lemma named_snoc (s : string) (l : list input) (i : input) :
  named s (l ++ [i]) = if decide (in_name i = s) then named s l ++ [i] else named s l.
Proof. unfold named. rewrite filter_app, filter_cons, filter_nil. case_decide; [done|apply app_nil_r]. Qed.

(** A name has a strong definition when its entry is defined. *)
Lemma resolved_defined (l : list input) :
  (exists sc v, resolved_type section_named l = bfd_link_hash_defined sc v)
  <-> exists i, i ∈ l /\ row_of i = DEF_ROW.
Proof.
  unfold resolved_type, common_of, com_type, first_of. split.
  - intros (sc & v & H). destruct (List.find _ l) as [i|] eqn:Ef; [|by repeat case_match].
    apply List.find_some in Ef as [Hin Hr]. exists i. split; [by apply list_elem_of_In|].
    by apply bool_decide_eq_true in Hr.
  - intros (i & Hin & Hr). destruct (List.find (fun j => bool_decide (row_of j = DEF_ROW)) l) as [j|] eqn:Ef; [by eauto|].
    apply list_elem_of_In in Hin. pose proof (List.find_none _ _ Ef i Hin) as Hn. cbn in Hn.
    by apply bool_decide_eq_false in Hn.
Qed.

Definition defined_names (l : list input) : list string :=
  in_name <$> filter (fun j => row_of j = DEF_ROW) l.

Lemma extra_defs_snoc (seen : list string) (l : list input) (i : input) :
  extra_defs seen (l ++ [i])
  = extra_defs seen l
    ++ (if decide (row_of i = DEF_ROW /\ in_name i ∈ seen ++ defined_names l)
        then [(bfd_id (in_abfd i), in_section i, in_value i)] else []).
Proof.
  unfold defined_names. revert seen. induction l as [|j l IH]; intros seen; cbn [app extra_defs].
  - rewrite filter_nil, fmap_nil, app_nil_r. destruct (decide (row_of i = DEF_ROW)) as [Hr|Hr].
    + destruct (decide (in_name i ∈ seen)); case_decide as Hd; done || tauto.
    + case_decide as Hd; [by destruct Hd|done].
  - rewrite filter_cons. destruct (decide (row_of j = DEF_ROW)) as [Hj|Hj]; [|by rewrite IH].
    assert (Hext : forall P Q : Prop, (P <-> Q) -> row_of i = DEF_ROW /\ P <-> row_of i = DEF_ROW /\ Q) by tauto.
    destruct (decide (in_name j ∈ seen)) as [Hs|Hs]; rewrite IH; cbn [app]; [do 2 f_equal|f_equal];
      apply decide_ext, Hext; rewrite fmap_cons; repeat (rewrite elem_of_app || rewrite elem_of_cons); [|tauto].
    split; [tauto|]. intros [?|[->|?]]; auto.
Qed.

Lemma resolved_no_link (l : list input) : no_link (resolved_type section_named l).
Proof. unfold resolved_type, common_of, com_type. by repeat case_match. Qed.

Lemma names_inj st m us (p : nat) (s s' : string) : ok st m us -> m !! s = Some p -> m !! s' = Some p -> s = s'.
Proof.
  intros Hok Hs Hs'. destruct (st_entry _ _ _ _ _ (ok_names _ _ _ _ Hok) Hs) as (e & He & <-).
  destruct (st_entry _ _ _ _ _ (ok_names _ _ _ _ Hok) Hs') as (e' & He' & <-). congruence.
Qed.

Lemma found_type (i : input) (l : list input) st st1 m m' (h : nat) (u : link_hash_type) :
  linked st m l -> looked_up (in_name i) st m h st1 m' -> types st1 !! h = Some u ->
  u = resolved_type section_named (named (in_name i) l).
Proof.
  intros Hlk [_ Hl] Hu. destruct (named (in_name i) l) as [|j l'] eqn:En.
  - rewrite (linked_none _ _ _ Hlk _ En) in Hl. destruct Hl as (-> & Hh & _). unfold types in Hu.
    rewrite Hh, fmap_app, lookup_app_r, length_fmap, Nat.sub_diag in Hu by (by rewrite length_fmap).
    by injection Hu as <-.
  - destruct (linked_type _ _ _ Hlk (in_name i)) as (h' & Hm & Ht); [by rewrite En|].
    rewrite Hm in Hl. destruct Hl as (-> & Hh & _). unfold types in Hu. rewrite Hh in Hu.
    fold (types st) in Hu. rewrite En in Ht. congruence.
Qed.

Lemma clash_resolved (i : input) (l : list input) :
  clash i (resolved_type section_named (named (in_name i) l))
  = if decide (row_of i = DEF_ROW /\ in_name i ∈ defined_names l)
    then [(bfd_id (in_abfd i), in_section i, in_value i)] else [].
Proof.
  assert (Hiff : in_name i ∈ defined_names l
    <-> exists sc v, resolved_type section_named (named (in_name i) l) = bfd_link_hash_defined sc v).
  { rewrite resolved_defined. unfold defined_names, named. rewrite list_elem_of_fmap.
    split; intros (j & H1 & H2); exists j; rewrite list_elem_of_filter in *; naive_solver. }
  unfold clash. case_decide as Hd.
  - destruct Hd as [-> (sc & v & ->)%Hiff]. done.
  - destruct (row_of i) eqn:Hr; try done. destruct (resolved_type _ _) as [| | |sc v| | | |]; try done.
    exfalso. apply Hd. split; [done|]. apply Hiff. by exists sc, v.
Qed.

Lemma sized_step (s : string) st st1 st' m m' (h : nat) (u : link_hash_type) :
  length (heap st) = base.size m -> looked_up s st m h st1 m' -> types st' = <[h := u]> (types st1) ->
  length (heap st') = base.size m'.
Proof.
  intros Hsize [_ Hl] Ht. apply (f_equal length) in Ht. unfold types in Ht.
  rewrite length_insert, !length_fmap in Ht. rewrite Ht. destruct (m !! s) eqn:Hi; destruct Hl as (_ & -> & ->); [done|].
  rewrite length_app, map_size_insert_None by done. cbn. lia.
Qed.

Lemma resolved_step (i : input) (l : list input) st st1 st' m m' us' (h : nat) (u : link_hash_type) :
  linked st m l -> ordinary (row_of i) = true -> ok st' m' us' -> looked_up (in_name i) st m h st1 m' ->
  types st1 !! h = Some u -> types st' = <[h := next_type section_named i u]> (types st1) ->
  mdefs (events st') = mdefs (events st) ++ clash i u ->
  linked st' m' (l ++ [i]) /\ m ⊆ m' /\ m' !! in_name i = Some h.
Proof.
  intros Hlk Ho Hok' Hl Hu Ht Hd. pose proof Hlk as [[us Hok] Hp Hnone Htype Hdups Hsize].
  pose proof (found_type i l st st1 m m' h u Hlk Hl Hu) as ->.
  assert (Hm' : m' !! in_name i = Some h) by apply Hl.
  assert (Hother : forall s, in_name i <> s -> m' !! s = m !! s).
  { intros s Hs. destruct Hl as [_ Hl]. destruct (m !! in_name i); destruct Hl as (_ & _ & ->); [done|].
    by rewrite lookup_insert_ne. }
  assert (Hin : (h < length (types st1))%nat) by by eapply lookup_lt_Some.
  split; [split|split; [|done]].
  - by exists us'.
  - unfold plain. rewrite Ht. apply Forall_insert; [|by eapply next_no_link, resolved_no_link].
    destruct (looked_up_types _ _ _ _ _ _ Hl) as [-> | ->]; [done|]. apply Forall_app. by repeat constructor.
  - intros s. rewrite named_snoc. case_decide as Hs; [by destruct (named s l)|].
    rewrite Hother by done. apply Hnone.
  - intros s. rewrite named_snoc. case_decide as Hs.
    + intros _. subst s. exists h. split; [done|]. rewrite Ht, list_lookup_insert_eq by done.
      by rewrite resolved_snoc.
    + intros Hn. destruct (Htype s Hn) as (h' & Hh' & Ht'). exists h'. rewrite Hother by done. split; [done|].
      rewrite Ht, list_lookup_insert_ne; [by eapply looked_up_old|]. intros <-. apply Hs.
      apply (names_inj st' m' us' h); [done|done|by rewrite Hother].
  - rewrite Hd, Hdups, extra_defs_snoc. f_equal. cbn [app]. apply clash_resolved.
  - by eapply sized_step.
  - destruct Hl as [_ Hl]. destruct (m !! in_name i) eqn:Hi; destruct Hl as (_ & _ & ->); [done|].
    by apply insert_subseteq.
Qed.
(** ** An alias of itself *)

(** From an entry that is its own alias the loop does not come back. *)
Lemma alias_turns (abfd : bfd) (name : string) (section : asection) (value : Z) (string : String.string)
    (copy collect : bool) (inh fuel h : nat) (e : link_entry) st :
  heap st !! h = Some e -> le_type e = bfd_link_hash_indirect h ->
  run info section_named abfd name section value string copy collect inh fuel UNDEF_ROW h st = Fail Floop.
Proof.
  unfold run. revert st e. induction fuel as [|fuel IH]; intros st e He Ht; [done|]. cbn [turns].
  assert (exists st' e', turn info section_named abfd name section value string copy collect inh UNDEF_ROW h st
            = Ret (again UNDEF_ROW h, st') /\ heap st' !! h = Some e' /\ le_type e' = bfd_link_hash_indirect h)
    as (st' & e' & E & He' & Ht').
  { unfold turn. lread He. rewrite Ht. cbn [action_of row_actions type_number nth].
    set (b := bool_decide (le_next e = None) && negb (bool_decide (undefs_tail st = Some h))).
    set (st' := if b then set_heap (<[h := set_next (Some h) e]> (heap st)) st else st).
    assert (Er : act_refer h st = Ret (tt, st')).
    { unfold act_refer. assert (Eu : unreferenced h st = Ret (b, st)) by (unfold unreferenced; by lread He).
      lnext Eu. unfold st'. destruct b; [|done]. cbn [when]. by rewrite (upd_ret _ _ _ _ He). }
    lnext Er. assert (exists e', heap st' !! h = Some e' /\ le_type e' = bfd_link_hash_indirect h) as (e' & He' & Ht').
    { unfold st'. destruct b; [|by exists e]. cbn. rewrite list_lookup_insert_eq by (by eapply lookup_lt_Some).
      by eexists. }
    exists st', e'. split; [|done]. unfold link_of. rewrite bind_assoc. lread He'. by rewrite Ht'. }
  lnext E. by apply (IH st' e').
Qed.

(** An indirect symbol that names itself, which the code does not refuse, makes
    the loop run forever: no bound on the number of turns is enough. *)
Theorem self_indirect_loops (abfd : bfd) (name : string) (flags : Z) (section : asection) (value : Z)
    (copy collect : bool) (fuel : nat) st m us :
  ok st m us -> Z.of_nat (length (heap st)) + 1 < max_entries -> symbol_row flags section = INDR_ROW ->
  m !! name = None ->
  exists h st', bfd_link_hash_lookup name true copy false st = Ret (Some h, st')
    /\ turns info section_named abfd name section value name copy collect h fuel INDR_ROW h st' = Fail Floop
    /\ add_one info notice section_named abfd name flags section value name copy collect None st = Fail Floop.
Proof.
  intros Hok Hmax Hrow Hm.
  destruct (lookup_ok st m us name copy Hok ltac:(lia)) as (h & st1 & m1 & E1 & Hok1 & Hl1 & _).
  pose proof (looked_up_length _ _ _ _ _ _ Hl1).
  exists h, st1. split; [done|].
  assert (exists e, heap st1 !! h = Some e /\ le_type e = bfd_link_hash_new) as (e & He & Ht).
  { destruct Hl1 as [_ Hl]. rewrite Hm in Hl. destruct Hl as (-> & -> & _).
    rewrite lookup_app_r, Nat.sub_diag by done. by eexists. }
  assert (Hloop : forall fuel st2, heap st2 = heap st1 -> ok st2 m1 us ->
    turns info section_named abfd name section value name copy collect h fuel INDR_ROW h st2 = Fail Floop).
  { clear fuel. intros fuel st2 Hh Hok2. rewrite <- Hh in He. destruct fuel as [|fuel]; [done|]. cbn [turns].
    destruct (und_ok section_named Hmem abfd 0 "" ltac:(lia) st2 m1 us h e Hok2 He)
      as (st3 & E3 & _ & Ht3 & _); [rewrite Ht; exact I|].
    destruct (types_entry st3 h (bfd_link_hash_undefined (bfd_id abfd))) as (e3 & He3 & Hte3).
    { rewrite Ht3. apply list_lookup_insert_eq. unfold types. rewrite length_fmap. by eapply lookup_lt_Some. }
    assert (E : turn info section_named abfd name section value name copy collect h INDR_ROW h st2
      = Ret (again UNDEF_ROW h, set_heap (<[h := set_type (bfd_link_hash_indirect h) e3]> (heap st3)) st3)).
    { unfold turn. lread He. rewrite Ht. cbn [action_of row_actions type_number nth]. unfold act_ind.
      lread He. rewrite Ht, bool_decide_eq_false_2, bool_decide_eq_true_2 by done. cbn [when]. lnext E3.
      lread He3. lnext (upd_ret st3 h e3 (set_type (bfd_link_hash_indirect h)) He3). by rewrite Hte3. }
    lnext E. apply (alias_turns _ _ _ _ _ _ _ _ _ _ (set_type (bfd_link_hash_indirect h) e3)); [|done].
    cbn. apply list_lookup_insert_eq. by eapply lookup_lt_Some. }
  split; [by apply Hloop|].
  unfold add_one, _bfd_generic_link_add_one_symbol, bfd_wrapped_link_hash_lookup. rewrite Hrow, Hwrap.
  lnext E1. erewrite lbind_ret; [|reflexivity]. cbv beta.
  lnext (lookup_found st1 m1 us name copy h Hok1 ltac:(lia) (proj1 Hl1)). cbv zeta.
  set (nt := notice_all info || _).
  assert (En : when nt (log (ev_notice h (Some h) (bfd_id abfd) section value flags)) st1
               = Ret (tt, add_events (if nt then [ev_notice h (Some h) (bfd_id abfd) section value flags] else []) st1)).
  { destruct nt; [done|]. unfold add_events. rewrite app_nil_r. by destruct st1. }
  lnext En. rewrite Hnotice, andb_false_r. erewrite lbind_ret; [|reflexivity]. cbv beta.
  unfold mbind at 1, L_bind at 1. cbn [default from_option]. rewrite Hloop; [done|done|by apply okx_events].
Qed.
End syms.

Lemma self_indirect_loops_witness :
  exists h st', turns (ops := hash_ops) (memory := all_memory) demo_info (fun _ _ => None) (demo_bfd 1) "a"
    bfd_ind_section 0 "a" false false h 1000 INDR_ROW h st' = Fail Floop.
Proof.
  destruct (self_indirect_loops (ops := hash_ops) (memory := all_memory) (laws := hash_laws) demo_info (fun _ => true)
    (fun _ _ => None) (fun _ => eq_refl) eq_refl (fun _ => eq_refl) (demo_bfd 1) "a" BSF_INDIRECT bfd_ind_section 0
    false false 1000 (empty_link small_table) ∅ [] (empty_link_ok small_table small_table_holds))
    as (h & st' & _ & E & _).
  - reflexivity.
  - reflexivity.
  - apply lookup_empty.
  - exists h, st'. exact E.
Defined.
