(* ===== verification/LinkInputs.v ===== *)
(** * The symbols of the input files, and archives

    What reading whole files does: the generic linker's [symbol_loop] over object
    files (LinkFiles.v) resolves every name the way LinkSyms.v specifies, leaves a
    back pointer in every symbol, and the search of an archive comes to an end. *)
From S2P Require Import Prelude BfdHash LinkAdd LinkOk LinkFiles LinkSyms.
#[local] Open Scope Z_scope.

(** The symbol as it was read, but for what the link notes in it. *)
Definition same_symbol (p p' : asymbol) : Prop :=
  sy_name p' = sy_name p /\ sy_section p' = sy_section p /\ sy_value p' = sy_value p
  /\ (sy_flags p' = sy_flags p \/ sy_flags p' = Z.lor (sy_flags p) BSF_OLD_COMMON).

Lemma same_refl (p : asymbol) : same_symbol p p.
Proof. split_and!; try done. by left. Qed.

Definition input_of (abfd : bfd) (p : asymbol) : input :=
  mk_input abfd (sy_name p) (sy_flags p) (sy_section p) (sy_value p).

(** The symbols of a file that take part in the link. *)
Definition inputs_of (abfd : bfd) (l : list asymbol) : list input :=
  input_of abfd <$> filter (fun p => interesting p = true) l.

(** A symbol whose kind LinkSyms.v covers, with a name in [U]. *)
Definition good_symbol (U : gset string) (p : asymbol) : Prop :=
  interesting p = true ->
  ordinary (symbol_row (sy_flags p) (sy_section p)) = true /\ 0 <= sy_value p < 2 ^ 64 /\ sy_name p ∈ U.

(** Entered in the table, with the pointer back to its entry. *)
Definition entered (m : gmap string nat) (p p' : asymbol) : Prop :=
  if interesting p then same_symbol p p' /\ exists h, sy_udata p' = Some h /\ m !! sy_name p = Some h
  else p' = p.

Lemma entered_mono (m m' : gmap string nat) (p p' : asymbol) : m ⊆ m' -> entered m p p' -> entered m' p p'.
Proof.
  intros Hm. unfold entered. destruct (interesting p); [|done]. intros (Hs & h & Hu & Hn).
  split; [done|]. exists h. split; [done|]. by eapply lookup_weaken.
Qed.

(** A symbol of an ordinary row carries none of the special flags. *)
Lemma ordinary_flags (flags : Z) (section : asection) :
  ordinary (symbol_row flags section) = true ->
  has_flag flags BSF_INDIRECT || bfd_is_ind_section section = false
  /\ has_flag flags BSF_WARNING = false /\ has_flag flags BSF_CONSTRUCTOR = false.
Proof.
  unfold symbol_row. rewrite orb_comm. destruct (has_flag flags BSF_INDIRECT || _); [done|].
  destruct (has_flag flags BSF_WARNING); [done|]. by destruct (has_flag flags BSF_CONSTRUCTOR).
Qed.

Section inputs.
  Context {T : Type} {ops : StringTable link_entry T} {memory : Memory}.
  Context {laws : StringTableLaws link_entry T fresh_entry}.
  Context (info : bfd_link_info) (notice : link_event -> bool).
  Context (section_named : bfd -> string -> option asection).
  Context (same_xvec : bfd -> bool) (upper_bound : bfd -> Z) (canonicalize : bfd -> option (list asymbol)).
  Context (Hmem : forall n, has_memory n = true) (Hwrap : wrap_hash info = None).
  Context (Hnotice : forall ev, notice ev = true).
  Implicit Types (g : gen_state T) (m : gmap string nat) (l : list input).

Lemma gbind_ret {A B : Type} (k : A -> G B) (c : G A) g g' (a : A) :
  c g = Ret (a, g') -> (x ← c; k x) g = k a g'.
Proof. unfold mbind, G_bind. by intros ->. Qed.
Ltac gnext E := rewrite (gbind_ret _ _ _ _ _ E); cbv beta iota.

(** Every [h->sym] points at a symbol. *)
Definition valid g : Prop :=
  forall h f i, g_sym g !! h = Some (f, i) -> exists ps p, g_syms g !! f = Some ps /\ ps !! i = Some p.

Lemma valid_update g (f i : nat) (ps : list asymbol) (p' : asymbol) (sy : gmap nat (nat * nat)) :
  valid g -> g_syms g !! f = Some ps -> (i < length ps)%nat ->
  (forall h, sy !! h = g_sym g !! h \/ sy !! h = Some (f, i)) ->
  valid (mk_gen (g_link g) sy (<[f := <[i := p']> ps]> (g_syms g))).
Proof.
  intros Hv Hf Hi Hsy h f' i' Hh. cbn in *. destruct (decide (f' = f)) as [->|Hne].
  - rewrite lookup_insert_eq. eexists. destruct (Hsy h) as [E|E]; rewrite E in Hh.
    + destruct (Hv _ _ _ Hh) as (ps' & p & Hps & Hp). assert (ps' = ps) as -> by congruence.
      destruct (decide (i' = i)) as [->|]; [exists p'|exists p]; (split; [done|]).
      * by apply list_lookup_insert_eq.
      * by rewrite list_lookup_insert_ne by congruence.
    + injection Hh as <-. exists p'. split; [done|]. by apply list_lookup_insert_eq.
  - rewrite lookup_insert_ne by done. destruct (Hsy h) as [E|E]; rewrite E in Hh; [by apply (Hv h)|congruence].
Qed.

Lemma get_symbol_ret g (f i : nat) (ps : list asymbol) (p : asymbol) :
  g_syms g !! f = Some ps -> ps !! i = Some p -> get_symbol (f, i) g = Ret (p, g).
Proof. intros Hf Hi. unfold get_symbol. cbn. by rewrite Hf, Hi. Qed.

Lemma better_ret (h : nat) (p : asymbol) g : valid g -> exists b, better_symbol h p g = Ret (b, g).
Proof.
  intros Hv. unfold better_symbol. erewrite gbind_ret; [|reflexivity].
  destruct (g_sym g !! h) as [[f i]|] eqn:Hh; [|by eexists].
  destruct (bfd_is_und_section _); [by eexists|]. destruct (bfd_is_com_section _); [|by eexists].
  destruct (Hv _ _ _ Hh) as (ps & q & Hf & Hi). erewrite gbind_ret; [|by eapply get_symbol_ret]. by eexists.
Qed.

Lemma update_ret g (f i : nat) (gs : gmap nat (list asymbol)) (ps : list asymbol) (p : asymbol)
    (fn : asymbol -> asymbol) :
  g_syms g = <[f := <[i := p]> ps]> gs -> (i < length ps)%nat ->
  update_symbol (f, i) fn g = Ret (tt, mk_gen (g_link g) (g_sym g) (<[f := <[i := fn p]> ps]> gs)).
Proof.
  intros Hg Hi. unfold update_symbol. cbn. do 3 f_equal. rewrite Hg, alter_insert_eq. f_equal.
  rewrite (list_alter_at fn i _ p) by by apply list_lookup_insert_eq. by rewrite list_insert_insert_eq.
Qed.

(** What the link notes in a symbol it has entered. *)
Lemma record_ok (abfd : bfd) (pp h : nat) (p : asymbol) g (ps : list asymbol) :
  valid g -> g_syms g !! bfd_id abfd = Some ps -> ps !! pp = Some p ->
  has_flag (sy_flags p) BSF_CONSTRUCTOR = false ->
  exists p' g', record_symbol same_xvec abfd (bfd_id abfd, pp) p (Some h) g = Ret (tt, g')
    /\ g_link g' = g_link g /\ valid g' /\ g_syms g' = <[bfd_id abfd := <[pp := p']> ps]> (g_syms g)
    /\ same_symbol p p' /\ sy_udata p' = Some h.
Proof.
  intros Hv Hf Hp Hc. unfold record_symbol. rewrite Hc. erewrite gbind_ret; [|reflexivity]. cbv beta iota.
  assert (Hlt : (pp < length ps)%nat) by by eapply lookup_lt_Some.
  assert (Hid : g_syms g = <[bfd_id abfd := <[pp := p]> ps]> (g_syms g)).
  { rewrite list_insert_id by done. by rewrite insert_id. }
  assert (Hself : g = mk_gen (g_link g) (g_sym g) (<[bfd_id abfd := <[pp := p]> ps]> (g_syms g))).
  { destruct g; cbn in *. by f_equal. }
  assert (exists p1 sy, gwhen (same_xvec abfd)
            (b ← better_symbol h p;
             gwhen b (_ ← set_sym h (bfd_id abfd, pp);
                      gwhen (bfd_is_com_section (sy_section p))
                        (update_symbol (bfd_id abfd, pp) (or_flags BSF_OLD_COMMON)))) g
          = Ret (tt, mk_gen (g_link g) sy (<[bfd_id abfd := <[pp := p1]> ps]> (g_syms g)))
          /\ same_symbol p p1 /\ forall x, sy !! x = g_sym g !! x \/ sy !! x = Some (bfd_id abfd, pp))
    as (p1 & sy & E & Hs & Hsy).
  { assert (Hset : forall x, <[h := (bfd_id abfd, pp)]> (g_sym g) !! x = g_sym g !! x
                         \/ <[h := (bfd_id abfd, pp)]> (g_sym g) !! x = Some (bfd_id abfd, pp)).
    { intros x. destruct (decide (h = x)) as [->|]; [right; apply lookup_insert_eq|left; by apply lookup_insert_ne]. }
    destruct (better_ret h p g Hv) as [b Eb].
    destruct (same_xvec abfd); cbn [gwhen]; [|exists p, (g_sym g); split; [by rewrite <- Hself|split; [apply same_refl|by left]]].
    gnext Eb. destruct b; cbn [gwhen]; [|exists p, (g_sym g); split; [by rewrite <- Hself|split; [apply same_refl|by left]]].
    erewrite gbind_ret; [|reflexivity]. destruct (bfd_is_com_section _); cbn [gwhen].
    - exists (or_flags BSF_OLD_COMMON p), (<[h := (bfd_id abfd, pp)]> (g_sym g)).
      split; [by rewrite (update_ret _ _ _ (g_syms g) ps p)|]. split; [by split_and!; try right|done].
    - exists p, (<[h := (bfd_id abfd, pp)]> (g_sym g)). split; [|by split; [apply same_refl|]].
      unfold mret, G_ret. cbn. by rewrite <- Hid. }
  gnext E. eexists (set_udata (Some h) p1), _. split; [by eapply update_ret|].
  split; [done|]. split; [|done]. cbn. by apply valid_update.
Qed.

(** ** A file *)

(** The loop over a file's symbols keeps what each call keeps: [P], of the table and
    the symbols so far, for symbols with names in [U]. *)
Section reading.
  Context (U : gset string) (P : link_state T -> gmap string nat -> list input -> Prop).
  Context (Hstep : forall i st m l, P st m l -> ordinary (row_of i) = true -> 0 <= in_value i < 2 ^ 64 ->
    in_name i ∈ U -> exists st' m' h,
      add_one info notice section_named (in_abfd i) (in_name i) (in_flags i) (in_section i) (in_value i)
        (in_name i) false false None st = Ret ((true, Some h), st')
      /\ P st' m' (l ++ [i]) /\ m ⊆ m' /\ m' !! in_name i = Some h).

(** What the loop leaves: the symbols [rest] in the table, and noted. *)
Definition read_in (abfd : bfd) m l (rest : list asymbol) (dn : list asymbol) g (r : res (bool * gen_state T)) : Prop :=
  exists g' m' rest', r = Ret (true, g') /\ P (g_link g') m' (l ++ inputs_of abfd rest)
    /\ m ⊆ m' /\ valid g' /\ g_syms g' = <[bfd_id abfd := dn ++ rest']> (g_syms g)
    /\ Forall2 (entered m') rest rest'.

Lemma symbol_loop_ok (abfd : bfd) (rest dn : list asymbol) (fuel : nat) g m l :
  valid g -> g_syms g !! bfd_id abfd = Some (dn ++ rest) -> P (g_link g) m l ->
  Forall (good_symbol U) rest -> (length rest < fuel)%nat ->
  read_in abfd m l rest dn g
    (symbol_loop info notice section_named same_xvec fuel abfd (length dn) (length (dn ++ rest)) g).
Proof.
  revert dn fuel g m l. induction rest as [|p rest IH]; intros dn fuel g m l Hv Hg Hl Hgood Hf;
    (destruct fuel as [|fuel]; [cbn in Hf; lia|]); cbn [symbol_loop].
  - rewrite app_nil_r in *. rewrite Nat.ltb_irrefl. exists g, m, []. cbn. rewrite !app_nil_r.
    split_and!; try done. by rewrite insert_id.
  - assert (Hlt : (length dn <? length (dn ++ p :: rest))%nat = true).
    { apply Nat.ltb_lt. rewrite length_app. cbn. lia. }
    rewrite Hlt. cbn [negb].
    assert (Hp : (dn ++ p :: rest) !! length dn = Some p).
    { by rewrite lookup_app_r, Nat.sub_diag. }
    gnext (get_symbol_ret g _ _ _ _ Hg Hp). apply Forall_cons in Hgood as [Hgp Hgood].
    assert (Hdn : forall q : asymbol, dn ++ q :: rest = (dn ++ [q]) ++ rest) by (intros q; by rewrite <- app_assoc).
    assert (Hlen : forall q : asymbol, length (dn ++ [q]) = S (length dn)) by (intros q; rewrite length_app; cbn; lia).
    destruct (interesting p) eqn:Hi.
    + destruct (Hgp Hi) as (Ho & Hval & HU). destruct (ordinary_flags _ _ Ho) as (Hf1 & Hf2 & Hf3).
      assert (En : name_and_string (bfd_id abfd) (length dn) (length (dn ++ p :: rest)) p g
                   = Ret ((length dn, sy_name p, sy_name p), g)).
      { unfold name_and_string. by rewrite Hf1, Hf2. }
      gnext En. destruct (Hstep (input_of abfd p) (g_link g) m l Hl Ho Hval HU)
        as (st' & m1 & h & Ea & Hl' & Hsub & Hm1).
      unfold add_one in Ea. cbn [input_of in_abfd in_name in_flags in_section in_value] in Ea.
      set (g1 := mk_gen st' (g_sym g) (g_syms g)).
      assert (Ea' : in_table (_bfd_generic_link_add_one_symbol info notice section_named abfd (sy_name p)
                     (sy_flags p) (sy_section p) (sy_value p) (sy_name p) false false None) g
                   = Ret ((true, Some h), g1)).
      { unfold in_table. by rewrite Ea. }
      gnext Ea'. cbn [negb].
      destruct (record_ok abfd (length dn) h p g1 _ Hv Hg Hp Hf3) as (p' & g2 & Er & Hg2 & Hv2 & Hs2 & Hsame & Hud).
      gnext Er. rewrite insert_app_r_alt, Nat.sub_diag in Hs2 by done. cbn in Hs2.
      destruct (IH (dn ++ [p']) fuel g2 m1 (l ++ [input_of abfd p])) as (g' & m' & rest' & E & H1 & H2 & H3 & H4 & H5);
        [done| |by rewrite Hg2|done|cbn in Hf; lia|].
      { rewrite Hs2, <- Hdn. apply lookup_insert_eq. }
      rewrite <- Hdn, Hlen in E. exists g', m', (p' :: rest').
      rewrite length_app in E |- *. unfold inputs_of. rewrite filter_cons_True by done.
      rewrite fmap_cons, <- app_assoc in *.
      split_and!; try done; [by etrans|by rewrite H4, Hs2, insert_insert_eq|].
      constructor; [|done]. unfold entered. rewrite Hi. split; [done|]. exists h. split; [done|].
      by eapply lookup_weaken.
    + destruct (IH (dn ++ [p]) fuel g m l) as (g' & m' & rest' & E & H1 & H2 & H3 & H4 & H5);
        [done|by rewrite <- Hdn|done|done|cbn in Hf; lia|].
      rewrite <- Hdn, Hlen in E. exists g', m', (p :: rest').
      unfold inputs_of. rewrite filter_cons_False by by rewrite Hi.
      split_and!; try done; [by rewrite H4, <- app_assoc|]. constructor; [|done]. unfold entered. by rewrite Hi.
Qed.

(** A file the link can read: its symbols are at hand, or its format gives them. *)
Definition readable g (abfd : bfd) (ps : list asymbol) : Prop :=
  0 <= upper_bound abfd
  /\ (g_syms g !! bfd_id abfd = Some ps
      \/ g_syms g !! bfd_id abfd = None /\ canonicalize abfd = Some ps).

Lemma read_ok g (abfd : bfd) (ps : list asymbol) :
  readable g abfd ps -> valid g ->
  exists g', bfd_generic_link_read_symbols upper_bound canonicalize abfd g = Ret (true, g')
    /\ g_link g' = g_link g /\ g_syms g' = <[bfd_id abfd := ps]> (g_syms g) /\ valid g'.
Proof.
  intros (Hub & [Hs|[Hn Hc]]) Hv; unfold bfd_generic_link_read_symbols; (erewrite gbind_ret; [|reflexivity]); cbv beta.
  - rewrite Hs. exists g. rewrite insert_id by done. by split_and!.
  - rewrite Hn, Hc, Hmem. rewrite (proj2 (Z.ltb_ge _ _)) by done. cbn [negb andb].
    erewrite gbind_ret; [|reflexivity]. erewrite gbind_ret; [|reflexivity]. eexists. split; [reflexivity|].
    cbn. rewrite insert_insert_eq. split_and!; try done. intros h f i Hh. cbn in *.
    destruct (Hv _ _ _ Hh) as (qs & q & Hq & Hi).
    exists qs, q. rewrite lookup_insert_ne; [done|congruence].
Qed.

Lemma object_ok (abfd : bfd) g m l (ps : list asymbol) :
  readable g abfd ps -> valid g -> P (g_link g) m l -> Forall (good_symbol U) ps ->
  read_in abfd m l ps [] g
    (generic_link_add_object_symbols info notice section_named same_xvec upper_bound canonicalize abfd g).
Proof.
  intros Hr Hv Hl Hgood. destruct (read_ok g abfd ps Hr Hv) as (g1 & E1 & Hg1 & Hs1 & Hv1).
  unfold generic_link_add_object_symbols. gnext E1. cbn [negb]. erewrite gbind_ret; [|reflexivity]. cbv beta.
  rewrite Hs1, lookup_insert_eq. cbn [default from_option].
  destruct (symbol_loop_ok abfd ps [] (S (length ps)) g1 m l Hv1)
    as (g' & m' & rest' & E & H1 & H2 & H3 & H4 & H5); try done; [by rewrite Hs1, lookup_insert_eq|by rewrite Hg1|lia|].
  exists g', m', rest'. split_and!; try done. by rewrite H4, Hs1, insert_insert_eq.
Qed.

(** ** The files of a link *)

(** The linker driver adds the files in turn, and gives up at the first failure. *)
Fixpoint add_objects (files : list bfd) : G (T := T) bool :=
  match files with
  | [] => mret true
  | f :: files' =>
      r ← generic_link_add_object_symbols info notice section_named same_xvec upper_bound canonicalize f;
      if (r : bool) then add_objects files' else mret false
  end.

Definition contents (abfd : bfd) : list asymbol := default [] (canonicalize abfd).
Definition all_inputs (files : list bfd) : list input := files ≫= (fun f => inputs_of f (contents f)).
Definition all_contents (files : list bfd) : list asymbol := files ≫= contents.

Lemma add_objects_ok (files : list bfd) g m l :
  NoDup (bfd_id <$> files) -> Forall (fun f => readable g f (contents f)) files ->
  Forall (fun f => Forall (good_symbol U) (contents f)) files -> valid g -> P (g_link g) m l ->
  exists g' m', add_objects files g = Ret (true, g')
    /\ P (g_link g') m' (l ++ all_inputs files) /\ m ⊆ m' /\ valid g'
    /\ (forall n, n ∉ bfd_id <$> files -> g_syms g' !! n = g_syms g !! n)
    /\ forall f, f ∈ files -> exists ps', g_syms g' !! bfd_id f = Some ps' /\ Forall2 (entered m') (contents f) ps'.
Proof.
  revert g m l. induction files as [|f files IH]; intros g m l Hnd Hread Hgood Hv Hl; cbn [add_objects].
  - exists g, m. unfold all_inputs. cbn. rewrite app_nil_r. split_and!; try done. set_solver.
  - apply NoDup_cons in Hnd as [Hf Hnd]. apply Forall_cons in Hread as [Hr Hread].
    apply Forall_cons in Hgood as [Hg Hgood].
    destruct (object_ok f g m l _ Hr Hv Hl Hg) as (g1 & m1 & ps1 & E1 & Hl1 & Hm1 & Hv1 & Hs1 & Hent).
    gnext E1. cbn [app] in Hs1.
    destruct (IH g1 m1 (l ++ inputs_of f (contents f))) as (g' & m' & E' & Hl' & Hm' & Hv' & Hkeep & Hall);
      [done| |done|done|done|].
    { apply Forall_forall. intros f' Hin. destruct (proj1 (Forall_forall _ _) Hread f' Hin) as (? & Hs).
      split; [done|]. rewrite Hs1, lookup_insert_ne; [done|].
      intros Heq. apply Hf. rewrite Heq. by apply list_elem_of_fmap_2. }
    exists g', m'. split; [done|]. split; [by unfold all_inputs in *; cbn; rewrite app_assoc|].
    split; [by etrans|]. split; [done|]. split.
    + intros n Hn. rewrite fmap_cons in Hn. apply not_elem_of_cons in Hn as [Hn1 Hn2].
      rewrite Hkeep, Hs1 by done. by apply lookup_insert_ne.
    + intros f' [->|Hin]%elem_of_cons; [|by apply Hall]. exists ps1. split.
      * rewrite Hkeep, Hs1 by done. apply lookup_insert_eq.
      * eapply Forall2_impl; [exact Hent|]. intros p p'. by apply entered_mono.
Qed.
End reading.

(** Before the link. *)
Definition no_symbols (t : T) : gen_state T := mk_gen (empty_link t) ∅ ∅.

Lemma no_symbols_linked (t : T) :
  st_holds [] t ∅ -> linked section_named (g_link (no_symbols t)) ∅ [].
Proof.
  intros Ht. split; try done.
  - exists []. by apply empty_link_ok.
  - constructor.
Qed.

(** [linked], with room for the names that are left. *)
Definition linked_in (U : gset string) (st : link_state T) m l : Prop :=
  linked section_named st m l /\ Forall (fun i => in_name i ∈ U) l.

Lemma names_size (U : gset string) (st : link_state T) m : dom m ⊆ U -> length (heap st) = base.size m ->
  (length (heap st) <= base.size U)%nat.
Proof. intros Hd ->. rewrite <- size_dom. by apply subseteq_size. Qed.

Lemma linked_dom (st : link_state T) m l : linked section_named st m l -> forall s, is_Some (m !! s) -> s ∈ in_name <$> l.
Proof.
  intros Hl s [h Hs]. destruct (named s l) as [|i l'] eqn:En; [by rewrite (linked_none _ _ _ _ Hl s En) in Hs|].
  assert (Hin : i ∈ named s l) by (rewrite En; left).
  apply list_elem_of_filter in Hin as [<- Hin]. by apply list_elem_of_fmap_2.
Qed.

Lemma linked_in_step (U : gset string) (i : input) (st : link_state T) m l :
  Z.of_nat (base.size U) + 1 < max_entries ->
  linked_in U st m l -> ordinary (row_of i) = true -> 0 <= in_value i < 2 ^ 64 -> in_name i ∈ U ->
  exists st' m' h,
    add_one info notice section_named (in_abfd i) (in_name i) (in_flags i) (in_section i) (in_value i)
      (in_name i) false false None st = Ret ((true, Some h), st')
    /\ linked_in U st' m' (l ++ [i]) /\ m ⊆ m' /\ m' !! in_name i = Some h.
Proof.
  intros Hroom [Hl HU] Ho Hv Hi. destruct (linked_ok _ _ _ _ Hl) as [us Hok].
  assert (Hd : dom m ⊆ U).
  { intros s Hs%elem_of_dom. pose proof (linked_dom _ _ _ Hl s Hs) as (j & -> & Hj)%list_elem_of_fmap.
    by apply (proj1 (Forall_forall _ _) HU). }
  pose proof (names_size _ _ _ Hd (linked_size _ _ _ _ Hl)).
  destruct (add_ordinary info notice section_named Hmem Hwrap Hnotice i (in_name i) st m us Hok)
    as (st1 & st' & m1 & h & u & Ea & Hok1 & Hl1 & Hu & Ht & Hdups); [apply Hl|done|done|lia|].
  destruct (resolved_step section_named i l _ _ _ _ _ _ _ _ Hl Ho Hok1 Hl1 Hu Ht Hdups) as (Hl' & Hsub & Hm1).
  exists st', m1, h. split; [done|]. split; [|done]. split; [done|]. apply Forall_app. by repeat constructor.
Qed.

(** C9.  Adding the symbols of any object files, references, definitions and commons,
    weak or not, succeeds, and the order of the files settles every name as the
    specification says: the first strong definition, else the largest common, else
    the first weak definition, else a reference, with one multiple definition
    reported for every further strong definition.  Every symbol of every file
    then points at the entry of its name. *)
Theorem symbols_resolve (files : list bfd) (U : gset string) (t : T) :
  st_holds [] t ∅ -> NoDup (bfd_id <$> files) -> Z.of_nat (base.size U) + 1 < max_entries ->
  Forall (fun f => 0 <= upper_bound f /\ is_Some (canonicalize f) /\ Forall (good_symbol U) (contents f)) files ->
  exists g m, add_objects files (no_symbols t) = Ret (true, g)
    /\ (forall s, named s (all_inputs files) = [] -> m !! s = None)
    /\ (forall s, named s (all_inputs files) <> [] -> exists h, m !! s = Some h
          /\ le_type <$> heap (g_link g) !! h = Some (resolved_type section_named (named s (all_inputs files))))
    /\ mdefs (events (g_link g)) = extra_defs [] (all_inputs files)
    /\ (exists us, ok (g_link g) m us)
    /\ forall f, f ∈ files -> exists ps, g_syms g !! bfd_id f = Some ps /\ Forall2 (entered m) (contents f) ps.
Proof.
  intros Ht Hnd Hroom Hall.
  destruct (add_objects_ok U (linked_in U) (fun i st m l => linked_in_step U i st m l Hroom) files (no_symbols t) ∅ [])
    as (g & m & E & [Hl _] & _ & _ & _ & Hent); [done| | |done| |].
  - eapply Forall_impl; [exact Hall|]. intros f (? & [ps Hps] & _). split; [done|]. right.
    split; [done|]. unfold contents. by rewrite Hps.
  - eapply Forall_impl; [exact Hall|]. by intros f (_ & _ & ?).
  - split; [by apply no_symbols_linked|constructor].
  - exists g, m. split; [done|]. split_and!; try apply Hl; [|done]. intros s Hs.
    destruct (linked_type _ _ _ _ Hl s Hs) as (h & Hm & Hh). exists h. split; [done|].
    unfold types in Hh. by rewrite list_lookup_fmap in Hh.
Qed.
End inputs.

(** Two files: the first refers to [f] and has a small [buf], the second defines [f],
    [main] weakly and a larger [buf], and [main] again. *)
Definition demo_file (abfd : bfd) : option (list asymbol) :=
  match bfd_id abfd with
  | 1%nat => Some [mk_asymbol "f" 0 bfd_und_section 0 None; mk_asymbol "main" BSF_GLOBAL demo_text 16 None;
                   mk_asymbol "buf" BSF_GLOBAL bfd_com_section 8 None; mk_asymbol "local" 1 demo_text 4 None]
  | 2%nat => Some [mk_asymbol "f" BSF_GLOBAL demo_text 64 None; mk_asymbol "main" BSF_WEAK demo_text 0 None;
                   mk_asymbol "buf" BSF_GLOBAL bfd_com_section 32 None; mk_asymbol "main" BSF_GLOBAL demo_text 80 None]
  | _ => None
  end.
Definition demo_names : gset string := {["f"; "main"; "buf"]}.

Lemma symbols_resolve_witness :
  exists g (m : gmap string nat), add_objects (ops := hash_ops) (memory := all_memory) demo_info (fun _ => true) (fun _ _ => None)
      (fun _ => true) (fun _ => 0) demo_file [demo_bfd 1; demo_bfd 2] (no_symbols small_table) = Ret (true, g)
    /\ m !! "local"%string = None
    /\ (exists h, m !! "buf"%string = Some h /\ le_type <$> heap (g_link g) !! h
          = Some (bfd_link_hash_common 32 4 (mk_sec (k_file 2) "COMMON" false)))
    /\ mdefs (events (g_link g)) = [(2%nat, demo_text, 80)].
Proof.
  destruct (symbols_resolve (ops := hash_ops) (memory := all_memory) (laws := hash_laws) demo_info (fun _ => true)
    (fun _ _ => None) (fun _ => true) (fun _ => 0) demo_file (fun _ => eq_refl) eq_refl (fun _ => eq_refl)
    [demo_bfd 1; demo_bfd 2] demo_names small_table small_table_holds)
    as (g & m & E & Hnone & Htype & Hdup & _).
  - by apply (bool_decide_unpack _).
  - by vm_compute.
  - repeat constructor; cbn; try lia; try done; by apply (bool_decide_unpack _).
  - exists g, m. split; [exact E|]. split; [by apply Hnone|]. split; [by apply (Htype "buf"%string)|exact Hdup].
Defined.
