(* ===== verification/LinkArchive.v ===== *)
(** * Searching an archive

    [_bfd_generic_link_add_archive_symbols] (LinkFiles.v) repeats its passes over
    the archive's symbol table only while elements are added, so it ends, whatever
    function checks the elements; with the generic check no symbol the archive
    lists is left undefined. *)
From S2P Require Import Prelude BfdHash LinkAdd LinkOk LinkFiles LinkSyms LinkInputs.
#[local] Open Scope Z_scope.

(** ** The marks *)

Definition marks (inc : list bool) : nat := length (filter (fun b => b = true) inc).

Lemma marks_app (l l' : list bool) : marks (l ++ l') = (marks l + marks l')%nat.
Proof. unfold marks. by rewrite filter_app, length_app. Qed.

Lemma marks_bound (inc : list bool) : (marks inc <= length inc)%nat.
Proof. apply length_filter. Qed.

Lemma marks_insert (inc : list bool) (k : nat) : (k < length inc)%nat ->
  marks (<[k := true]> inc) = (marks inc + if nth k inc false then 0 else 1)%nat.
Proof.
  intros Hk. destruct (lookup_lt_is_Some_2 _ _ Hk) as [b Hb]. rewrite (nth_lookup_Some _ _ _ _ Hb).
  assert (Hm : forall c l, marks (c :: l) = ((if c then 1 else 0) + marks l)%nat) by by intros [].
  pose proof (f_equal marks (take_drop_middle _ _ _ Hb)) as Hinc. rewrite marks_app, Hm in Hinc.
  rewrite insert_take_drop by done. rewrite marks_app, Hm. destruct b; lia.
Qed.

Lemma mark_back_length (arsyms : list carsym) (last : Z) (k : nat) (inc : list bool) :
  length (mark_back arsyms last k inc) = length inc.
Proof.
  revert inc. induction k as [|k IH]; intros inc; cbn; [apply length_insert|].
  destruct (arsyms !! k) as [a|]; [|apply length_insert].
  destruct (_ =? _); rewrite ?IH; apply length_insert.
Qed.

Lemma mark_back_marks (arsyms : list carsym) (last : Z) (k : nat) (inc : list bool) :
  (k < length inc)%nat ->
  (marks inc + (if nth k inc false then 0 else 1) <= marks (mark_back arsyms last k inc))%nat.
Proof.
  revert inc. induction k as [|k IH]; intros inc Hk; cbn [mark_back]; rewrite <- marks_insert by done; [done|].
  destruct (arsyms !! k) as [a|]; [|done]. destruct (_ =? _); [|done].
  specialize (IH (<[S k := true]> inc)). rewrite length_insert in IH. specialize (IH ltac:(lia)). destruct (nth k _ _) in IH; lia.
Qed.

(** The backward marking marks entries of the element only. *)
Lemma mark_back_same (arsyms : list carsym) (last : Z) (k j : nat) (inc : list bool) (a : carsym) :
  arsyms !! k = Some a -> file_offset a = last ->
  nth j (mark_back arsyms last k inc) false = true ->
  nth j inc false = true \/ exists a', arsyms !! j = Some a' /\ file_offset a' = last.
Proof.
  assert (Hset : forall (i : nat) (l : list bool), nth j (<[i := true]> l) false = true -> j = i \/ nth j l false = true).
  { intros i l Hj. destruct (decide (i = j)) as [<-|Hne]; [by left|right].
    rewrite !nth_lookup in *. by rewrite list_lookup_insert_ne in Hj. }
  revert inc a. induction k as [|k IH]; intros inc a Ha Hl; cbn.
  - intros [->|Hj]%Hset; [right; by exists a|by left].
  - destruct (arsyms !! k) as [a'|] eqn:Ha'.
    2:{ intros [->|Hj]%Hset; [right; by exists a|by left]. }
    destruct (Z.eqb_spec (file_offset a') last) as [He|He].
    + intros Hj. destruct (IH _ a' eq_refl He Hj) as [[->|?]%Hset|?]; [right; by exists a|by left|by right].
    + intros [->|Hj]%Hset; [right; by exists a|by left].
Qed.

Section archive.
  Context {T : Type} {ops : StringTable link_entry T} {memory : Memory}.
  Implicit Types (g : gen_state T).

(** ** Any checking function *)
Section search.
  Context (checkfn : bfd -> nat -> string -> bool -> G (T := T) (bool * bool)).
  Context (element_at : Z -> option bfd) (pei386_auto_import : bool).

#[local] Arguments marks : simpl never.

(** A pass that asks for another one has marked an entry. *)
Definition progress (p p' : pass) : Prop :=
  length (included p') = length (included p) /\ (marks (included p) <= marks (included p'))%nat
  /\ (loop p' = true -> loop p = true \/ (marks (included p) < marks (included p'))%nat).

Lemma progress_refl (p : pass) : progress p p.
Proof. split_and!; auto. Qed.

Lemma progress_trans (p p' p'' : pass) : progress p p' -> progress p' p'' -> progress p p''.
Proof.
  intros (H1 & H2 & H3) (H4 & H5 & H6). split; [congruence|]. split; [lia|].
  intros H. destruct (H6 H) as [H7|?]; [|lia]. destruct (H3 H7); [auto|lia].
Qed.

Lemma include_progress (k : nat) (p : pass) : (k < length (included p))%nat -> progress p (include k p).
Proof.
  intros Hk. unfold progress, include. cbn. rewrite length_insert, marks_insert by done. split_and!; [done|lia|auto].
Qed.

Lemma arsym_step_progress (arsyms : list carsym) (k : nat) (a : carsym) (p p' : pass) g g' :
  (k < length (included p))%nat ->
  arsym_step checkfn element_at pei386_auto_import arsyms k a p g = Ret (Some p', g') -> progress p p'.
Proof.
  intros Hk. unfold arsym_step. destruct (nth k (included p) false) eqn:Hn; [intros [= <- <-]; apply progress_refl|].
  destruct (needed p && _); [intros [= <- <-]; by apply include_progress|].
  unfold mbind, G_bind. destruct (lookup_arsym _ _ g) as [[[h|] g1]|]; [|intros [= <- <-]; apply progress_refl|done].
  destruct (in_table (get_link h) g1) as [[e g2]|]; [|done].
  assert (Hcheck : forall p', (match open_element element_at a p with
            | None => mret None
            | Some p =>
                match element p with
                | None => gfail Foob
                | Some elt =>
                    undefs_tail_ ← in_table (gets undefs_tail);
                    '(ret, needed_) ← checkfn elt h (cs_name a) (needed p);
                    if negb ret then mret None
                    else if (needed_ : bool) then
                      tail ← in_table (gets undefs_tail);
                      mret (Some (mk_pass (mark_back arsyms (last_ar_offset p) k (included p))
                                    (last_ar_offset p) true (Some elt)
                                    (if decide (undefs_tail_ = tail) then loop p else true)))
                    else mret (Some (mk_pass (included p) (last_ar_offset p) false (Some elt) (loop p)))
                end
            end) g2 = Ret (Some p', g') -> progress p p').
  { clear p'. intros p'. assert (Hopen : forall q, open_element element_at a p = Some q -> included q = included p /\ loop q = loop p).
    { unfold open_element. intros q. destruct (negb _); [destruct (element_at _); [|done]|]; by intros [= <-]. }
    destruct (open_element _ a p) as [q|]; [|done]. destruct (Hopen q eq_refl) as [Hi Hl].
    destruct (element q) as [elt|]; [|done]. unfold mbind, G_bind, in_table, gets.
    destruct (checkfn _ _ _ _ _) as [[[ret nd] g3]|]; [|done].
    destruct ret; [|done]. destruct nd; intros [= <- <-]; unfold progress; cbn; rewrite ?Hi, ?Hl.
    - rewrite mark_back_length. pose proof (mark_back_marks arsyms (last_ar_offset q) k (included p) Hk) as Hm.
      rewrite Hn in Hm. split_and!; [done|lia|]. case_decide; [auto|]. intros _. right. lia.
    - split_and!; auto. }
  destruct (le_type e); try apply Hcheck; intros [= <- <-]; first [apply progress_refl | by apply include_progress].
Qed.
(** The loops, for a property [J] of the state, the position and the pass that the
    steps keep; [Fin] of the state when the search fails. *)
Section loops.
  Context (arsyms : list carsym) (J : gen_state T -> nat -> pass -> Prop) (Fin : gen_state T -> Prop).
  Context (Hstep : forall k a p g, J g k p -> arsyms !! k = Some a -> length (included p) = length arsyms ->
    exists o g', arsym_step checkfn element_at pei386_auto_import arsyms k a p g = Ret (o, g')
      /\ match o with Some p' => J g' (S k) p' | None => Fin g' end).

Lemma pass_loop_ok (rest dn : list carsym) (p : pass) g :
  arsyms = dn ++ rest -> J g (length dn) p -> length (included p) = length arsyms ->
  exists o g', pass_loop checkfn element_at pei386_auto_import arsyms (length dn) rest p g = Ret (o, g')
    /\ match o with Some p' => J g' (length arsyms) p' /\ progress p p' | None => Fin g' end.
Proof.
  revert dn p g. induction rest as [|a rest IH]; intros dn p g Har HJ Hlen; cbn [pass_loop].
  - exists (Some p), g. rewrite Har, app_nil_r. split; [done|]. split; [done|apply progress_refl].
  - destruct (Hstep (length dn) a p g HJ) as (o & g1 & E & Ho); [by rewrite Har, lookup_app_r, Nat.sub_diag|done|].
    rewrite (gbind_ret _ _ _ _ _ E). destruct o as [p1|]; [|by eexists None, g1].
    assert (Hp : progress p p1).
    { eapply arsym_step_progress; [|exact E]. rewrite Hlen, Har, length_app. cbn. lia. }
    destruct (IH (dn ++ [a]) p1 g1) as (o & g2 & E2 & Ho2).
    + by rewrite <- app_assoc.
    + by rewrite length_app, Nat.add_1_r.
    + destruct Hp as [-> _]. done.
    + rewrite length_app, Nat.add_1_r in E2. exists o, g2. split; [done|].
      destruct o as [p2|]; [|done]. destruct Ho2 as [? ?]. split; [done|by eapply progress_trans].
Qed.

Context (Hagain : forall g p, J g (length arsyms) p -> loop p = true ->
  J g 0 (mk_pass (included p) (-1) false None false)).

Lemma search_loop_ok (fuel : nat) (inc : list bool) g :
  J g 0 (mk_pass inc (-1) false None false) -> length inc = length arsyms ->
  (length arsyms < fuel + marks inc)%nat ->
  exists b g', search_loop checkfn element_at pei386_auto_import fuel arsyms inc g = Ret (b, g')
    /\ if b then exists p, J g' (length arsyms) p /\ loop p = false else Fin g'.
Proof.
  revert inc g. induction fuel as [|fuel IH]; intros inc g HJ Hlen Hf.
  { pose proof (marks_bound inc). lia. }
  cbn [search_loop]. destruct (pass_loop_ok arsyms [] _ g eq_refl HJ Hlen) as (o & g1 & E & Ho).
  rewrite (gbind_ret _ _ _ _ _ E). destruct o as [p|]; [|by exists false, g1].
  destruct Ho as [HJ' (Hlen' & Hm & Hl)]. cbn in Hlen', Hm, Hl. destruct (loop p) eqn:Hlp.
  - apply IH; [by apply Hagain|congruence|]. destruct (Hl eq_refl); [done|]. lia.
  - exists true, g1. split; [done|]. by exists p.
Qed.
End loops.

(** What the search asks of the checking function and of the table: a state they
    keep, in which they return. *)
Class Searchable (inv : gen_state T -> Prop) : Prop := {
  searchable_lookup (s : string) g : inv g ->
    exists o, in_table (bfd_link_hash_lookup s false false true) g = Ret (o, g)
      /\ forall h, o = Some h -> is_Some (heap (g_link g) !! h);
  searchable_check (off : Z) (elt : bfd) (h : nat) (name : string) (nd : bool) g :
    inv g -> element_at off = Some elt -> exists r g', checkfn elt h name nd g = Ret (r, g') /\ inv g'
}.

Lemma lookup_arsym_ok (inv : gen_state T -> Prop) {S : Searchable inv} (s : string) g : inv g ->
  exists o, lookup_arsym pei386_auto_import s g = Ret (o, g) /\ forall h, o = Some h -> is_Some (heap (g_link g) !! h).
Proof.
  intros Hi. unfold lookup_arsym. destruct (searchable_lookup s g Hi) as (o & E & Ho).
  rewrite (gbind_ret _ _ _ _ _ E). destruct o as [h|]; [by exists (Some h)|].
  destruct (_ && _); [by apply searchable_lookup|by exists None].
Qed.

(** The element a pass is in. *)
Definition at_element (p : pass) : Prop :=
  last_ar_offset p = -1
  \/ exists elt, element p = Some elt /\ element_at (last_ar_offset p) = Some elt.

(** A pass that has gone to the element of [a]. *)
Definition opened (a : carsym) (elt : bfd) (p : pass) : pass :=
  mk_pass (included p) (file_offset a) (needed p) (Some elt) (loop p).

Definition wanted (u : link_hash_type) : Prop :=
  match u with bfd_link_hash_undefined _ | bfd_link_hash_common _ _ _ => True | _ => False end.

(** The pass after an element was added, or refused. *)
Definition added_pass (arsyms : list carsym) (k : nat) (elt : bfd) (tl tl' : option nat) (p : pass) : pass :=
  mk_pass (mark_back arsyms (last_ar_offset p) k (included p)) (last_ar_offset p) true (Some elt)
    (if decide (tl = tl') then loop p else true).
Definition refused_pass (elt : bfd) (p : pass) : pass :=
  mk_pass (included p) (last_ar_offset p) false (Some elt) (loop p).

(** What one entry of the symbol table leads to. *)
Inductive stepped (arsyms : list carsym) (k : nat) (a : carsym) (p : pass) g : option pass -> gen_state T -> Prop :=
| stepped_included : nth k (included p) false = true -> stepped arsyms k a p g (Some p) g
| stepped_same : needed p = true -> file_offset a = last_ar_offset p ->
    stepped arsyms k a p g (Some (include k p)) g
| stepped_absent : lookup_arsym pei386_auto_import (cs_name a) g = Ret (None, g) ->
    stepped arsyms k a p g (Some p) g
| stepped_weak h e f : lookup_arsym pei386_auto_import (cs_name a) g = Ret (Some h, g) ->
    heap (g_link g) !! h = Some e -> le_type e = bfd_link_hash_undefweak f ->
    stepped arsyms k a p g (Some p) g
| stepped_defined h e : lookup_arsym pei386_auto_import (cs_name a) g = Ret (Some h, g) ->
    heap (g_link g) !! h = Some e -> ~ wanted (le_type e) -> type_number (le_type e) <> 2%nat ->
    stepped arsyms k a p g (Some (include k p)) g
| stepped_unreadable : element_at (file_offset a) = None -> stepped arsyms k a p g None g
| stepped_failed h elt nd nd' g' : element_at (file_offset a) = Some elt -> checkfn elt h (cs_name a) nd g = Ret ((false, nd'), g') ->
    stepped arsyms k a p g None g'
| stepped_added h e elt nd g' : lookup_arsym pei386_auto_import (cs_name a) g = Ret (Some h, g) ->
    heap (g_link g) !! h = Some e -> wanted (le_type e) -> element_at (file_offset a) = Some elt ->
    checkfn elt h (cs_name a) nd g = Ret ((true, true), g') ->
    stepped arsyms k a p g
      (Some (added_pass arsyms k elt (undefs_tail (g_link g)) (undefs_tail (g_link g')) (opened a elt p))) g'
| stepped_refused h e elt nd g' : lookup_arsym pei386_auto_import (cs_name a) g = Ret (Some h, g) ->
    heap (g_link g) !! h = Some e -> wanted (le_type e) -> element_at (file_offset a) = Some elt ->
    checkfn elt h (cs_name a) nd g = Ret ((true, false), g') ->
    stepped arsyms k a p g (Some (refused_pass elt (opened a elt p))) g'.

Lemma open_at_element (a : carsym) (p q : pass) : 0 <= file_offset a -> at_element p ->
  open_element element_at a p = Some q ->
  exists elt, element_at (file_offset a) = Some elt /\ q = opened a elt p.
Proof.
  intros Ha Hp. unfold open_element. destruct (Z.eqb_spec (last_ar_offset p) (file_offset a)) as [He|He]; cbn [negb].
  - intros [= <-]. destruct Hp as [Hp|(elt & Hp1 & Hp2)]; [lia|]. exists elt. rewrite <- He. split; [done|].
    unfold opened. rewrite <- He, <- Hp1. by destruct p.
  - destruct (element_at _) as [elt|]; [|done]. intros [= <-]. by exists elt.
Qed.

Lemma arsym_step_cases (inv : gen_state T -> Prop) {S : Searchable inv} (arsyms : list carsym) (k : nat)
    (a : carsym) (p : pass) g :
  inv g -> at_element p -> 0 <= file_offset a ->
  exists o g', arsym_step checkfn element_at pei386_auto_import arsyms k a p g = Ret (o, g')
    /\ inv g' /\ stepped arsyms k a p g o g'.
Proof.
  intros Hi Hp Ha. unfold arsym_step.
  destruct (nth k (included p) false) eqn:Hn; [eexists _, g; by split_and!; [..|constructor]|].
  destruct (needed p && (file_offset a =? last_ar_offset p)) eqn:Hs.
  { apply andb_true_iff in Hs as [Hnd He%Z.eqb_eq]. eexists _, g. split; [reflexivity|]. split; [done|]. by apply stepped_same. }
  destruct (lookup_arsym_ok inv (cs_name a) g Hi) as (o & E & Ho). rewrite (gbind_ret _ _ _ _ _ E).
  destruct o as [h|]; [|eexists _, g; split; [reflexivity|]; split; [done|]; by apply stepped_absent].
  destruct (Ho h eq_refl) as [e He]. clear Ho.
  assert (Eg : in_table (get_link h) g = Ret (e, g)) by (unfold in_table, get_link; rewrite He; by destruct g).
  rewrite (gbind_ret _ _ _ _ _ Eg).
  assert (Hcheck : wanted (le_type e) -> exists o g', (match open_element element_at a p with
            | None => mret None
            | Some p =>
                match element p with
                | None => gfail Foob
                | Some elt =>
                    undefs_tail_ ← in_table (gets undefs_tail);
                    '(ret, needed_) ← checkfn elt h (cs_name a) (needed p);
                    if negb ret then mret None
                    else if (needed_ : bool) then
                      tail ← in_table (gets undefs_tail);
                      mret (Some (mk_pass (mark_back arsyms (last_ar_offset p) k (included p))
                                    (last_ar_offset p) true (Some elt)
                                    (if decide (undefs_tail_ = tail) then loop p else true)))
                    else mret (Some (mk_pass (included p) (last_ar_offset p) false (Some elt) (loop p)))
                end
            end) g = Ret (o, g') /\ inv g' /\ stepped arsyms k a p g o g').
  { intros Hw. destruct (open_element element_at a p) as [q|] eqn:Eo.
    2:{ eexists _, g. split; [reflexivity|]. split; [done|]. apply stepped_unreadable.
        unfold open_element in Eo. destruct (negb _); [|done]. by destruct (element_at _). }
    destruct (open_at_element a p q Ha Hp Eo) as (elt & Hat & ->). clear Eo. cbn [element opened].
    assert (Et : forall x : gen_state T, in_table (gets undefs_tail) x = Ret (undefs_tail (g_link x), x)) by by intros [].
    rewrite (gbind_ret _ _ _ _ _ (Et g)).
    destruct (searchable_check (file_offset a) elt h (cs_name a) (needed (opened a elt p)) g Hi Hat) as ([ret nd] & g' & Ec & Hi').
    rewrite (gbind_ret _ _ _ _ _ Ec). destruct ret; cbn [negb].
    2:{ eexists _, g'. split; [reflexivity|]. split; [done|]. by eapply stepped_failed. }
    destruct nd; [rewrite (gbind_ret _ _ _ _ _ (Et g'))|]; (eexists _, g'; split; [reflexivity|]; split; [done|]).
    - by eapply stepped_added.
    - by eapply stepped_refused. }
  destruct (le_type e) eqn:Hte; try (apply Hcheck; exact I);
    (eexists _, g; split; [reflexivity|]; split; [done|]); try (eapply stepped_defined; try done; rewrite Hte; cbn; tauto || done).
  by eapply stepped_weak.
Qed.

(** C22.  The search of an archive ends, for any checking function that returns and keeps
    the state searchable: the passes are repeated only while entries get included,
    so the number of entries bounds them. *)
Theorem archive_search_returns (inv : gen_state T -> Prop) {S : Searchable inv} (ar : archive) g :
  inv g -> Forall (fun a => 0 <= file_offset a) (symdefs ar) ->
  exists b g', _bfd_generic_link_add_archive_symbols checkfn element_at pei386_auto_import ar g = Ret (b, g')
    /\ inv g'.
Proof.
  intros Hi Hoff. unfold _bfd_generic_link_add_archive_symbols.
  destruct (ar_has_map ar); cbn [negb]; [|by eexists _, g]. cbv zeta.
  destruct (_ =? 0)%nat; [by eexists _, g|]. destruct (negb _); [by eexists _, g|].
  destruct (search_loop_ok (symdefs ar) (fun g _ p => inv g /\ at_element p) inv)
    with (fuel := Datatypes.S (length (symdefs ar))) (inc := repeat false (length (symdefs ar))) (g := g)
    as (b & g' & E & Hb).
  - intros k a p g1 [Hi1 Hp] Ha _.
    destruct (arsym_step_cases inv (symdefs ar) k a p g1 Hi1 Hp (Forall_lookup_1 _ _ _ _ Hoff Ha))
      as (o & g2 & E & Hi2 & Hs).
    exists o, g2. split; [done|]. destruct o as [p'|]; [|done]. split; [done|].
    inversion Hs; subst; try done; right; by exists elt.
  - intros g1 p [Hi1 _] _. split; [done|by left].
  - split; [done|by left].
  - apply repeat_length.
  - lia.
  - exists b, g'. split; [done|]. destruct b; [by destruct Hb as (p & [? _] & _)|done].
Qed.
End search.
End archive.

(** ** Witness: a checking function that always asks for the element *)

Definition eager {T : Type} (elt : bfd) (h : nat) (name : string) (nd : bool) : G (T := T) (bool * bool) :=
  mret (true, true).
Definition untouched (g : gen_state bfd_hash_table) : Prop := g_link g = empty_link small_table.

Lemma eager_searchable (element_at : Z -> option bfd) :
  Searchable (ops := hash_ops) eager element_at untouched.
Proof.
  split.
  - intros s g Hg. exists None. split; [|done]. unfold in_table. rewrite Hg.
    assert (E : find_name (ops := hash_ops) s false false (empty_link small_table) = Ret (None, empty_link small_table)).
    { unfold find_name. cbn [empty_link heap names].
      by rewrite (st_absent (StringTableLaws := hash_laws) [] small_table ∅ s false small_table_holds eq_refl (lookup_empty s)). }
    unfold bfd_link_hash_lookup. rewrite (lbind_ret _ _ _ _ _ E). destruct g; cbn in *. by rewrite <- Hg.
  - intros off elt h name nd g Hg _. by eexists _, g.
Qed.

Lemma archive_search_returns_witness :
  exists b g', _bfd_generic_link_add_archive_symbols (ops := hash_ops) (memory := all_memory) eager
    (fun _ => Some (demo_bfd 2)) true (mk_archive true false [mk_carsym "f" 8; mk_carsym "__imp_g" 96])
    (no_symbols small_table) = Ret (b, g').
Proof.
  destruct (archive_search_returns (ops := hash_ops) (memory := all_memory) eager (fun _ => Some (demo_bfd 2)) true
    untouched (S := eager_searchable _) (mk_archive true false [mk_carsym "f" 8; mk_carsym "__imp_g" 96])
    (no_symbols small_table) eq_refl) as (b & g' & E & _).
  - repeat constructor; cbn; lia.
  - exists b, g'. exact E.
Defined.
