(* ===== verification/LinkPull.v ===== *)
(** * What an archive search pulls in

    With the generic check ([generic_link_check_archive_element], LinkFiles.v) a
    search of an archive whose symbol table tells the truth succeeds and leaves no
    symbol it lists undefined: every element that defines a wanted symbol has been
    added, those wanted by elements added late included. *)
From S2P Require Import Prelude BfdHash LinkAdd LinkOk LinkFiles LinkSyms LinkInputs LinkArchive.
#[local] Open Scope Z_scope.

(** Types a symbol has once something names it. *)
Definition seen (u : link_hash_type) : Prop := no_link u /\ u <> bfd_link_hash_new.
(** Types of symbols that will not be undefined again. *)
Definition settled (u : link_hash_type) : Prop :=
  match u with
  | bfd_link_hash_defined _ _ | bfd_link_hash_defweak _ _ | bfd_link_hash_common _ _ _ => True
  | _ => False
  end.
Definition definition (r : link_row) : Prop := r = DEF_ROW \/ r = DEFW_ROW \/ r = COMMON_ROW.

(** ** Symbols after the link has noted things in them *)

Lemma old_common_flag (flags f : Z) :
  Z.land BSF_OLD_COMMON f = 0 -> has_flag (Z.lor flags BSF_OLD_COMMON) f = has_flag flags f.
Proof. intros Hf. unfold has_flag. by rewrite Z.land_lor_distr_l, Hf, Z.lor_0_r. Qed.

Lemma same_flag (p p' : asymbol) (f : Z) :
  same_symbol p p' -> Z.land BSF_OLD_COMMON f = 0 -> has_flag (sy_flags p') f = has_flag (sy_flags p) f.
Proof. intros (_ & _ & _ & [-> | ->]) Hf; [done|by apply old_common_flag]. Qed.

Lemma same_row (p p' : asymbol) :
  same_symbol p p' -> symbol_row (sy_flags p') (sy_section p') = symbol_row (sy_flags p) (sy_section p).
Proof.
  intros Hs. pose proof Hs as (_ & -> & _). unfold symbol_row.
  by rewrite (same_flag p p' BSF_INDIRECT), (same_flag p p' BSF_WARNING), (same_flag p p' BSF_CONSTRUCTOR),
    (same_flag p p' BSF_WEAK).
Qed.

Lemma same_interesting (p p' : asymbol) : same_symbol p p' -> interesting p' = interesting p.
Proof. intros Hs. pose proof Hs as (_ & He & _). unfold interesting. by rewrite He, (same_flag p p'). Qed.

Lemma same_good (U : gset string) (p p' : asymbol) : same_symbol p p' -> good_symbol U p -> good_symbol U p'.
Proof.
  intros Hs Hg. unfold good_symbol. rewrite (same_interesting p p' Hs), (same_row p p' Hs).
  by destruct Hs as (-> & _ & -> & _).
Qed.

Lemma same_trans (p p' p'' : asymbol) : same_symbol p p' -> same_symbol p' p'' -> same_symbol p p''.
Proof.
  intros (H1 & H2 & H3 & H4) (H5 & H6 & H7 & H8). split_and!; [congruence..|].
  destruct H8 as [-> | ->], H4 as [-> | ->]; auto. right. by rewrite <- Z.lor_assoc, Z.lor_diag.
Qed.

Lemma entered_same (m : gmap string nat) (p p' : asymbol) : entered m p p' -> same_symbol p p'.
Proof. unfold entered. destruct (interesting p); [by intros [? _]|intros ->; apply same_refl]. Qed.

Lemma same_then_entered (m : gmap string nat) (ps ps' ps'' : list asymbol) :
  Forall2 same_symbol ps ps' -> Forall2 (entered m) ps' ps'' -> Forall2 same_symbol ps ps''.
Proof.
  intros H. revert ps''. induction H as [|p p' ps ps' Hp _ IH]; intros ps'' H'; inversion H'; subst; constructor; auto.
  eapply same_trans; [done|by eapply entered_same].
Qed.

Section pull.
  Context {T : Type} {ops : StringTable link_entry T} {memory : Memory}.
  Context {laws : StringTableLaws link_entry T fresh_entry}.
  Context (info : bfd_link_info) (notice : link_event -> bool).
  Context (section_named : bfd -> string -> option asection).
  Context (Hmem : forall n, has_memory n = true) (Hwrap : wrap_hash info = None).
  Context (Hnotice : forall ev, notice ev = true).

(** ** The table and its names *)

(** A table with the map and the list that the invariant ties to it. *)
Record table : Type := mk_table {
  tb_st : link_state T;
  tb_map : gmap string nat;
  tb_list : list nat
}.
Implicit Types (t : table).

Definition type_in t (s : string) : option link_hash_type := tb_map t !! s ≫= fun h => types (tb_st t) !! h.
Definition settled_in t (s : string) : Prop := exists u, type_in t s = Some u /\ settled u.
Definition undef_in t (s : string) : Prop := exists f, type_in t s = Some (bfd_link_hash_undefined f).

Record sound (U : gset string) t : Prop := {
  so_ok : ok (tb_st t) (tb_map t) (tb_list t);
  so_seen : Forall seen (types (tb_st t));
  so_size : length (heap (tb_st t)) = base.size (tb_map t);
  so_dom : dom (tb_map t) ⊆ U
}.

(** What later tables keep of earlier ones; unless the list of undefined symbols
    grows no name becomes undefined. *)
Record grew t t' : Prop := {
  gr_map : tb_map t ⊆ tb_map t';
  gr_list : tb_list t `prefix_of` tb_list t';
  gr_settled : forall s, settled_in t s -> settled_in t' s;
  gr_undef : tb_list t' = tb_list t -> forall s, undef_in t' s -> undef_in t s
}.

#[export] Instance grew_preorder : PreOrder grew.
Proof.
  split; [by split|]. intros t1 t2 t3 [H1 H2 H3 H4] [H5 H6 H7 H8]. split; [by etrans|by etrans|by auto|].
  intros He s Hs. assert (H2' : tb_list t2 = tb_list t1).
  { apply (anti_symm prefix); [|done]. by rewrite <- He. }
  apply H4; [done|]. apply H8; [congruence|done].
Qed.

Lemma next_settled (i : input) (u : link_hash_type) : settled u -> settled (next_type section_named i u).
Proof. unfold next_type, common_of, com_type. destruct (row_of i), u; try done; by repeat case_match. Qed.

Lemma next_seen (i : input) (u : link_hash_type) :
  ordinary (row_of i) = true -> no_link u -> seen (next_type section_named i u).
Proof.
  unfold seen, next_type, common_of, com_type, no_link. intros Ho Hu.
  destruct (row_of i), u; try done; by repeat case_match.
Qed.

Lemma next_defined (i : input) (u : link_hash_type) :
  definition (row_of i) -> no_link u -> settled (next_type section_named i u).
Proof.
  unfold next_type, common_of, com_type. intros [-> | [-> | ->]] Hu; destruct u; try done; by repeat case_match.
Qed.

(** A symbol becomes undefined only by joining the list. *)
Lemma next_undef (i : input) (h : nat) (u : link_hash_type) (f : nat) :
  listed i h u = [] -> next_type section_named i u = bfd_link_hash_undefined f -> u = bfd_link_hash_undefined f.
Proof.
  unfold listed, next_type, common_of, com_type. destruct (row_of i), u; try done; repeat case_match; congruence.
Qed.

(** The types of all names after one symbol. *)
Lemma type_step t t' (i : input) (st1 : link_state T) (h : nat) (u : link_hash_type) :
  ok (tb_st t') (tb_map t') (tb_list t') -> ok (tb_st t) (tb_map t) (tb_list t) ->
  looked_up (in_name i) (tb_st t) (tb_map t) h st1 (tb_map t') ->
  types st1 !! h = Some u -> types (tb_st t') = <[h := next_type section_named i u]> (types st1) ->
  type_in t' (in_name i) = Some (next_type section_named i u)
  /\ type_in t (in_name i) = (if decide (tb_map t !! in_name i = None) then None else Some u)
  /\ (tb_map t !! in_name i = None -> u = bfd_link_hash_new)
  /\ forall s, in_name i <> s -> type_in t' s = type_in t s.
Proof.
  intros Hok' Hok Hl Hu Ht. unfold type_in. pose proof (proj1 Hl) as Hm'. rewrite Hm'. cbn. split_and!.
  - rewrite Ht. apply list_lookup_insert_eq. by eapply lookup_lt_Some.
  - case_decide as Hn; [by rewrite Hn|]. destruct Hl as [_ Hl]. destruct (tb_map t !! in_name i); [|done].
    destruct Hl as (-> & Hh & _). cbn. unfold types in *. by rewrite Hh in Hu.
  - intros Hn. destruct Hl as [_ Hl]. rewrite Hn in Hl. destruct Hl as (-> & Hh & _). unfold types in Hu.
    rewrite Hh, fmap_app, lookup_app_r, length_fmap, Nat.sub_diag in Hu by (by rewrite length_fmap).
    by injection Hu as <-.
  - intros s Hs. assert (Hms : tb_map t' !! s = tb_map t !! s).
    { destruct Hl as [_ Hl]. destruct (tb_map t !! in_name i); destruct Hl as (_ & _ & ->); [done|].
      by rewrite lookup_insert_ne. }
    rewrite Hms. destruct (tb_map t !! s) as [q|] eqn:Hq; [|done]. cbn. rewrite Ht.
    rewrite list_lookup_insert_ne.
    + destruct (lookup_lt_is_Some_2 (types (tb_st t)) q) as [v Hv].
      { unfold types. rewrite length_fmap. by eapply map_on_heap. }
      rewrite Hv. by eapply looked_up_old.
    + intros ->. apply Hs. eapply names_inj; [exact Hok'|exact Hm'|by rewrite Hms].
Qed.

(** ** Adding a symbol *)
Section names.
  Context (U : gset string) (Hroom : Z.of_nat (base.size U) + 1 < max_entries).

Lemma sound_room t : sound U t -> Z.of_nat (length (heap (tb_st t))) + 1 < max_entries.
Proof. intros Ht. pose proof (names_size U _ _ (so_dom _ _ Ht) (so_size _ _ Ht)). lia. Qed.

Lemma sound_plain t : sound U t -> plain (tb_st t).
Proof. intros Ht. eapply Forall_impl; [apply (so_seen _ _ Ht)|]. by intros u []. Qed.

Lemma add_sound t (i : input) :
  sound U t -> ordinary (row_of i) = true -> 0 <= in_value i < 2 ^ 64 -> in_name i ∈ U ->
  exists t' h,
    add_one info notice section_named (in_abfd i) (in_name i) (in_flags i) (in_section i) (in_value i)
      (in_name i) false false None (tb_st t) = Ret ((true, Some h), tb_st t')
    /\ sound U t' /\ grew t t' /\ tb_map t' !! in_name i = Some h
    /\ (definition (row_of i) -> settled_in t' (in_name i)).
Proof.
  intros Hs Ho Hv Hi. pose proof Hs as [Hok Hseen Hsize Hdom].
  destruct (add_ordinary info notice section_named Hmem Hwrap Hnotice i (in_name i) _ _ _ Hok (sound_plain t Hs) Ho Hv
              (sound_room t Hs)) as (st1 & st' & m' & h & u & Ea & Hok' & Hl & Hu & Ht & _).
  set (t' := mk_table st' m' (tb_list t ++ listed i h u)).
  destruct (type_step t t' i st1 h u Hok' Hok Hl Hu Ht) as (H1 & H2 & H3 & H4).
  assert (Hnl : no_link u).
  { destruct (decide (tb_map t !! in_name i = None)) as [Hn|Hn]; [by rewrite H3|].
    unfold type_in in H2. destruct (tb_map t !! in_name i) as [q|]; [|done]. cbn in H2.
    by destruct (Forall_lookup_1 _ _ _ _ Hseen H2). }
  exists t', h. split; [done|]. split; [|split; [|split; [by apply Hl|]]].
  - split; [done| |by eapply sized_step|].
    + change (Forall seen (types st')). rewrite Ht. destruct (decide (tb_map t !! in_name i = None)) as [Hn|Hn].
      * destruct Hl as [_ Hl]. rewrite Hn in Hl. destruct Hl as (-> & Hh & _).
        unfold types. rewrite Hh, fmap_app, insert_app_r_alt by by rewrite length_fmap.
        rewrite length_fmap, Nat.sub_diag. apply Forall_app. split; [exact Hseen|].
        repeat constructor; by apply next_seen.
      * destruct Hl as [_ Hl]. destruct (tb_map t !! in_name i); [|done]. destruct Hl as (_ & Hh & _).
        unfold types. rewrite Hh. apply Forall_insert; [exact Hseen|by apply next_seen].
    + intros s Hd. destruct (decide (in_name i = s)) as [<-|Hne]; [done|]. apply Hdom.
      apply elem_of_dom in Hd. apply elem_of_dom. cbn in Hd. destruct Hl as [_ Hl].
      destruct (tb_map t !! in_name i); destruct Hl as (_ & _ & ->); [done|].
      by rewrite lookup_insert_ne in Hd.
  - split; cbn.
    + destruct Hl as [_ Hl]. destruct (tb_map t !! in_name i) eqn:Hn; destruct Hl as (_ & _ & ->); [done|].
      by apply insert_subseteq.
    + by apply prefix_app_r.
    + intros s (v & Hv' & Hset). destruct (decide (in_name i = s)) as [<-|Hne]; [|exists v; by rewrite H4].
      rewrite H2 in Hv'. case_decide; [done|]. injection Hv' as ->. exists (next_type section_named i v).
      split; [done|by apply next_settled].
    + intros He s [f Hf]. destruct (decide (in_name i = s)) as [<-|Hne]; [|exists f; by rewrite <- H4].
      rewrite H1 in Hf. injection Hf as Hf.
      assert (Hlist : listed i h u = []) by (apply (app_inv_head (tb_list t)); by rewrite app_nil_r).
      pose proof (next_undef i h u f Hlist Hf) as ->. exists f. rewrite H2. case_decide as Hn; [|done].
      by specialize (H3 Hn).
  - intros Hd. exists (next_type section_named i u). split; [done|by apply next_defined].
Qed.

(** ** Adding an element *)
Section elements.
  Context (same_xvec : bfd -> bool) (upper_bound : bfd -> Z) (canonicalize : bfd -> option (list asymbol)).
  Context (bfd_of : nat -> bfd).
  Context (Hgood : forall n, Forall (good_symbol U) (contents canonicalize (bfd_of n))).

(** The link with its table; the symbols in memory are the files'. *)
Record gsound (g : gen_state T) t : Prop := {
  gs_link : g_link g = tb_st t;
  gs_sound : sound U t;
  gs_valid : valid g;
  gs_syms : forall n ps, g_syms g !! n = Some ps -> Forall2 same_symbol (contents canonicalize (bfd_of n)) ps
}.

(** A file that can be read, known by its number. *)
Record openable (elt : bfd) : Prop := {
  op_number : bfd_of (bfd_id elt) = elt;
  op_bound : 0 <= upper_bound elt;
  op_read : is_Some (canonicalize elt)
}.

Definition row_in (p : asymbol) : link_row := symbol_row (sy_flags p) (sy_section p).

Lemma openable_readable (elt : bfd) (g : gen_state T) t : openable elt -> gsound g t ->
  exists ps, readable upper_bound canonicalize g elt ps
    /\ Forall2 same_symbol (contents canonicalize elt) ps /\ Forall (good_symbol U) ps.
Proof.
  intros [Hn Hb [ps0 Hr]] Hg.
  assert (Hall : forall ps, Forall2 same_symbol (contents canonicalize elt) ps -> Forall (good_symbol U) ps).
  { intros ps Hs. pose proof (Hgood (bfd_id elt)) as Hgd. rewrite Hn in Hgd.
    apply Forall_forall. intros p' Hin. apply list_elem_of_lookup in Hin as [i Hi].
    destruct (Forall2_lookup_r _ _ _ _ _ Hs Hi) as (p & Hp & Hsame). eapply same_good; [done|].
    by eapply Forall_lookup_1. }
  destruct (g_syms g !! bfd_id elt) as [ps|] eqn:Hs.
  - pose proof (gs_syms _ _ Hg _ _ Hs) as Hf. rewrite Hn in Hf. exists ps. split_and!; auto. split; auto.
  - exists ps0. assert (Hc : contents canonicalize elt = ps0) by (unfold contents; by rewrite Hr).
    assert (Hrefl : Forall2 same_symbol (contents canonicalize elt) ps0).
    { rewrite Hc. apply Forall_Forall2_diag, Forall_true. apply same_refl. }
    split_and!; auto. split; auto.
Qed.

Lemma element_sound (elt : bfd) (g : gen_state T) t : openable elt -> gsound g t ->
  exists g' t',
    generic_link_add_object_symbols info notice section_named same_xvec upper_bound canonicalize elt g = Ret (true, g')
    /\ gsound g' t' /\ grew t t'
    /\ forall p, p ∈ contents canonicalize elt -> interesting p = true -> definition (row_in p) ->
         settled_in t' (sy_name p).
Proof.
  intros Ho Hg. destruct (openable_readable elt g t Ho Hg) as (ps & Hr & Hsame & Hps).
  set (P := fun st m (l : list input) => exists us, sound U (mk_table st m us) /\ grew t (mk_table st m us)
              /\ forall i, i ∈ l -> definition (row_of i) -> settled_in (mk_table st m us) (in_name i)).
  assert (HP : P (g_link g) (tb_map t) []).
  { exists (tb_list t). rewrite (gs_link _ _ Hg). destruct t as [st m us]; cbn.
    split; [apply Hg|]. split; [done|]. intros i Hi. by apply elem_of_nil in Hi. }
  destruct (object_ok info notice section_named same_xvec upper_bound canonicalize Hmem U P) with
    (abfd := elt) (g := g) (m := tb_map t) (l := @nil input) (ps := ps)
    as (g' & m' & ps' & E & (us & Hs' & Hgr & Hset) & _ & Hv' & Hsy & Hent); try done; [|apply Hg|].
  { intros i st m l (us & Hst & Hgr & Hset) Hord Hv Hi.
    destruct (add_sound (mk_table st m us) i Hst Hord Hv Hi) as ([st' m' us'] & h & Ea & Hst' & Hgr' & Hm' & Hdef).
    exists st', m', h. split; [exact Ea|]. split; [|split; [apply Hgr'|exact Hm']].
    exists us'. split; [done|]. split; [by etrans|]. intros j [Hj|Hj%list_elem_of_singleton]%elem_of_app Hd.
    - by apply (gr_settled _ _ Hgr'), Hset.
    - subst j. by apply Hdef. }
  exists g', (mk_table (g_link g') m' us). split; [exact E|]. split; [|split; [exact Hgr|]].
  - split; [done|done|done|]. intros n qs Hq. rewrite Hsy in Hq.
    destruct (decide (bfd_id elt = n)) as [<-|Hne].
    + rewrite lookup_insert_eq in Hq. injection Hq as <-. rewrite (op_number _ Ho). cbn [app].
      by eapply same_then_entered.
    + rewrite lookup_insert_ne in Hq by done. by apply (gs_syms _ _ Hg).
  - intros p Hp Hi Hd. apply list_elem_of_lookup in Hp as [k Hk].
    destruct (Forall2_lookup_l _ _ _ _ _ Hsame Hk) as (p' & Hp' & Hs).
    pose proof Hs as (Hname & _). rewrite <- Hname. apply (Hset (input_of elt p')).
    + cbn [app]. apply list_elem_of_fmap_2, list_elem_of_filter.
      split; [by rewrite (same_interesting p p' Hs)|by eapply list_elem_of_lookup_2].
    + unfold row_of. cbn. by rewrite (same_row p p' Hs).
Qed.

(** ** Looking at an element *)
Section check_element.
  Context (add_archive_element : bfd -> string -> option bfd) (vma : asection -> Z).
  Context (Hadd : forall elt s, add_archive_element elt s = Some elt).

Definition exported (p : asymbol) : bool :=
  bfd_is_com_section (sy_section p)
  || has_flag (sy_flags p) (Z.lor BSF_GLOBAL (Z.lor BSF_INDIRECT BSF_WEAK)).

Definition added (elt : bfd) t : Prop :=
  forall p, p ∈ contents canonicalize elt -> interesting p = true -> definition (row_in p) ->
    settled_in t (sy_name p).

Lemma names_lookup (g : gen_state T) t (s : string) : gsound g t ->
  in_table (bfd_link_hash_lookup s false false true) g = Ret (tb_map t !! s, g).
Proof.
  intros Hg. unfold in_table. rewrite (gs_link _ _ Hg). pose proof (gs_sound _ _ Hg) as Hs.
  pose proof (ok_names _ _ _ _ (so_ok _ _ Hs)) as Hh. pose proof (sound_room t Hs) as Hr.
  unfold bfd_link_hash_lookup. destruct (tb_map t !! s) as [h|] eqn:Hm.
  - assert (E : find_name s false false (tb_st t) = Ret (Some h, tb_st t)).
    { unfold find_name. rewrite (st_found _ _ _ s false false h Hh ltac:(lia) Hm). by destruct (tb_st t). }
    lnext E. erewrite lbind_ret; [|reflexivity]. cbv beta. cbn [follow_links].
    destruct (st_entry _ _ _ _ _ Hh Hm) as (e & He & _).
    pose proof (Forall_lookup_1 _ _ _ _ (sound_plain t Hs) (types_lookup _ _ _ He)) as Hn.
    rewrite bind_assoc. lread He. destruct g as [gl gy gs]; cbn in *. pose proof (gs_link _ _ Hg) as Hgl. cbn in Hgl.
    subst gl. by destruct (le_type e).
  - assert (E : find_name s false false (tb_st t) = Ret (None, tb_st t)).
    { unfold find_name. rewrite (st_absent _ _ _ s false Hh ltac:(lia) Hm). by destruct (tb_st t). }
    lnext E. destruct g; cbn in *. by rewrite <- (gs_link _ _ Hg).
Qed.

(** A wanted symbol made common, or a larger common. *)
Lemma common_sound t (s : string) (h : nat) (e : link_entry) (z al : Z) (sc : asection) (evs : list link_event) :
  sound U t -> tb_map t !! s = Some h -> heap (tb_st t) !! h = Some e -> wanted (le_type e) ->
  exists t', upd h (set_type (bfd_link_hash_common z al sc)) (add_events evs (tb_st t)) = Ret (tt, tb_st t')
    /\ sound U t' /\ grew t t' /\ tb_list t' = tb_list t
    /\ type_in t' s = Some (bfd_link_hash_common z al sc).
Proof.
  intros Hs Hm He Hw. set (u := bfd_link_hash_common z al sc). pose proof Hs as [Hok Hseen Hsize Hdom].
  assert (He' : heap (add_events evs (tb_st t)) !! h = Some e) by done.
  set (st' := set_heap (<[h := set_type u e]> (heap (tb_st t))) (add_events evs (tb_st t))).
  set (t' := mk_table st' (tb_map t) (tb_list t)).
  assert (Ht : types st' = <[h := u]> (types (tb_st t))) by apply (types_insert (tb_st t) h (set_type u e)).
  assert (Hu : forall s', type_in t' s' = if decide (tb_map t !! s' = Some h) then Some u else type_in t s').
  { intros s'. unfold type_in. cbn [tb_map tb_st t']. destruct (tb_map t !! s') as [q|] eqn:Hq; [|done].
    change (types st' !! q = if decide (Some q = Some h) then Some u else types (tb_st t) !! q).
    rewrite Ht. case_decide as Hd.
    - injection Hd as ->. apply list_lookup_insert_eq. by eapply types_lt.
    - apply list_lookup_insert_ne. congruence. }
  exists t'. split; [apply (upd_ret _ h e _ He')|]. split; [|split; [|split; [done|by rewrite Hu, decide_True]]].
  - split; [|change (Forall seen (types st')); rewrite Ht; by apply Forall_insert|cbn; by rewrite length_insert|done].
    apply (ok_set (add_events evs (tb_st t)) _ _ h e); try done; [by apply okx_events| |].
    + eapply acyclic_same; [apply Hok|exact He|]. by destruct (le_type e).
    + destruct (ok_entries _ _ _ _ Hok h e ltac:(done) He) as [H1 H2 H3]. split; [|done|done].
      intros Hoff. destruct (H1 Hoff) as [?|[?|Hw']]; [by left|by right; left|by destruct (le_type e)].
  - split; [done|done| |].
    + intros s' (v & Hv & Hset). exists (if decide (tb_map t !! s' = Some h) then u else v). rewrite Hu.
      by case_decide.
    + intros _ s' [f Hf]. rewrite Hu in Hf. case_decide; [done|by exists f].
Qed.

Lemma link_gsound (g : gen_state T) t t' : gsound g t -> sound U t' ->
  gsound (mk_gen (tb_st t') (g_sym g) (g_syms g)) t'.
Proof. intros [H1 H2 H3 H4] Ht. by split. Qed.

Lemma table_step {A : Type} (c : L A) (a : A) (g : gen_state T) t t' : gsound g t ->
  c (tb_st t) = Ret (a, tb_st t') -> in_table c g = Ret (a, mk_gen (tb_st t') (g_sym g) (g_syms g)).
Proof. intros Hg E. unfold in_table. by rewrite (gs_link _ _ Hg), E. Qed.

Lemma not_undef t (s : string) : (forall f, type_in t s <> Some (bfd_link_hash_undefined f)) -> ~ undef_in t s.
Proof. intros Hn [f Hf]. by apply (Hn f). Qed.

(** One symbol of an element. *)
Definition looked_at (elt : bfd) (p : asymbol) (g : gen_state T) t (r : res (option (bool * bool) * gen_state T)) : Prop :=
  exists o g' t', r = Ret (o, g') /\ gsound g' t' /\ grew t t'
    /\ match o with
       | None => tb_list t' = tb_list t /\ (exported p = true -> ~ undef_in t' (sy_name p))
       | Some r => r = (true, true) /\ added elt t'
       end.

Lemma stays_out (elt : bfd) (p : asymbol) (g : gen_state T) t :
  gsound g t -> (exported p = true -> ~ undef_in t (sy_name p)) -> looked_at elt p g t (Ret (None, g)).
Proof. intros Hg Hu. by exists None, g, t. Qed.

Lemma check_symbol_ok (elt : bfd) (p : asymbol) (g : gen_state T) t : openable elt -> gsound g t ->
  looked_at elt p g t
    (check_symbol info notice section_named same_xvec upper_bound canonicalize add_archive_element bfd_of vma elt p g).
Proof.
  intros Ho Hg. unfold check_symbol.
  assert (Hex : negb (bfd_is_com_section (sy_section p))
                && negb (has_flag (sy_flags p) (Z.lor BSF_GLOBAL (Z.lor BSF_INDIRECT BSF_WEAK))) = negb (exported p)).
  { unfold exported. by rewrite negb_orb. }
  rewrite Hex. destruct (exported p) eqn:Hp; cbn [negb]; [|by apply stays_out; [|rewrite Hp]].
  rewrite (gbind_ret _ _ _ _ _ (names_lookup g t (sy_name p) Hg)).
  destruct (tb_map t !! sy_name p) as [h|] eqn:Hm.
  2:{ apply stays_out; [done|]. intros _. apply not_undef. intros f. unfold type_in. by rewrite Hm. }
  pose proof (gs_sound _ _ Hg) as Hs.
  destruct (st_entry _ _ _ _ _ (ok_names _ _ _ _ (so_ok _ _ Hs)) Hm) as (e & He & _).
  assert (Et : type_in t (sy_name p) = Some (le_type e)) by (unfold type_in; rewrite Hm; by apply types_lookup).
  assert (Eg : in_table (get_link h) g = Ret (e, g)).
  { unfold in_table, get_link. rewrite (gs_link _ _ Hg), He. destruct g; cbn. by rewrite <- (gs_link _ _ Hg). }
  rewrite (gbind_ret _ _ _ _ _ Eg).
  assert (Hpull : looked_at elt p g t ((match add_archive_element elt (sy_name p) with
              | None => mret (Some (false, true))
              | Some sub => r ← generic_link_add_object_symbols info notice section_named same_xvec upper_bound canonicalize sub;
                            mret (Some (r, true))
              end) g)).
  { rewrite Hadd. destruct (element_sound elt g t Ho Hg) as (g' & t' & E & Hg' & Hgr & Hdef).
    rewrite (gbind_ret _ _ _ _ _ E). by exists (Some (true, true)), g', t'. }
  destruct (le_type e) as [|f|f|sc v|sc v|z al sc|l|l w] eqn:Hte;
    try (apply stays_out; [done|]; intros _; apply not_undef; intros f'; by rewrite Et).
  - destruct (negb (bfd_is_com_section _)); [exact Hpull|].
    set (z := bfd_asymbol_value vma p). set (al := Z.min 4 (Z.log2_up z)).
    set (sc := bfd_make_section_old_way section_named (bfd_of f)
                 (if decide (sy_section p = bfd_com_section) then "COMMON"%string else s_name (sy_section p))).
    destruct (common_sound t (sy_name p) h e z al sc [ev_section_alloc sc] Hs Hm He) as (t' & E & Hs' & Hgr & Hl & Ht);
      [by rewrite Hte|].
    assert (Em : make_common section_named bfd_of vma h f p (tb_st t) = Ret (true, tb_st t')).
    { unfold make_common. rewrite Hmem. cbn [negb]. cbv zeta. fold z sc.
      lnext (common_power_ret section_named elt z "" ltac:(apply u64_range) (tb_st t)). fold al.
      erewrite lbind_ret; [|reflexivity]. cbv beta. by lnext E. }
    rewrite (gbind_ret _ _ _ _ _ (table_step _ _ _ _ _ Hg Em)). eexists None, _, t'. split; [reflexivity|].
    split; [by apply (link_gsound g t t')|]. split; [done|]. split; [done|]. intros _. apply not_undef.
    intros f'. by rewrite Ht.
  - destruct (negb (bfd_is_com_section _)); [exact Hpull|].
    destruct (Z.ltb_spec z (bfd_asymbol_value vma p)) as [Hz|Hz]; cbn [when].
    + destruct (common_sound t (sy_name p) h e (bfd_asymbol_value vma p) al sc [] Hs Hm He)
        as (t' & E & Hs' & Hgr & Hl & Ht); [by rewrite Hte|].
      assert (Ea : add_events [] (tb_st t) = tb_st t) by (unfold add_events; rewrite app_nil_r; by destruct (tb_st t)).
      rewrite Ea in E.
      rewrite (gbind_ret _ _ _ _ _ (table_step _ _ _ _ _ Hg E)). eexists None, _, t'. split; [reflexivity|].
      split; [by apply (link_gsound g t t')|]. split; [done|]. split; [done|]. intros _. apply not_undef.
      intros f'. by rewrite Ht.
    + assert (Er : in_table (mret ()) g = Ret (tt, g)) by by destruct g.
      rewrite (gbind_ret _ _ _ _ _ Er). apply stays_out; [done|]. intros _. apply not_undef. intros f'. by rewrite Et.
Qed.

Lemma settled_not_undef t (s : string) : settled_in t s -> ~ undef_in t s.
Proof. intros (u & Hu & Hs) [f Hf]. rewrite Hu in Hf. by injection Hf as ->. Qed.

(** The state after an element was looked at: added, or of no use. *)
Definition judged (elt : bfd) (b : bool) t t' (ps : list asymbol) : Prop :=
  if b then added elt t'
  else tb_list t' = tb_list t /\ forall p, p ∈ ps -> exported p = true -> ~ undef_in t' (sy_name p).

Lemma check_loop_ok (elt : bfd) (ps : list asymbol) (g : gen_state T) t : openable elt -> gsound g t ->
  exists b g' t',
    check_loop info notice section_named same_xvec upper_bound canonicalize add_archive_element bfd_of vma elt ps g
      = Ret ((true, b), g')
    /\ gsound g' t' /\ grew t t' /\ judged elt b t t' ps.
Proof.
  intros Ho. revert g t. induction ps as [|p ps IH]; intros g t Hg; cbn [check_loop].
  - exists false, g, t. split; [done|]. split; [done|]. split; [done|]. split; [done|].
    intros p Hp. by apply elem_of_nil in Hp.
  - destruct (check_symbol_ok elt p g t Ho Hg) as (o & g1 & t1 & E & Hg1 & Hgr1 & Hcase).
    rewrite (gbind_ret _ _ _ _ _ E). destruct o as [r|].
    + destruct Hcase as [-> Had]. by exists true, g1, t1.
    + destruct Hcase as [Hl Hu]. destruct (IH g1 t1 Hg1) as (b & g2 & t2 & E2 & Hg2 & Hgr2 & Hj).
      exists b, g2, t2. split; [done|]. split; [done|]. split; [by etrans|]. destruct b; [done|].
      destruct Hj as [Hl2 Hj]. split; [congruence|]. intros q [->|Hq]%elem_of_cons Hex; [|by apply Hj].
      intros Hun. apply (Hu Hex). by apply (gr_undef _ _ Hgr2).
Qed.

Lemma check_element_ok (elt : bfd) (h : nat) (name : string) (nd : bool) (g : gen_state T) t :
  openable elt -> gsound g t ->
  exists b g' t',
    generic_link_check_archive_element info notice section_named same_xvec upper_bound canonicalize
      add_archive_element bfd_of vma elt h name nd g = Ret ((true, b), g')
    /\ gsound g' t' /\ grew t t' /\ judged elt b t t' (contents canonicalize elt).
Proof.
  intros Ho Hg. destruct (openable_readable elt g t Ho Hg) as (ps & Hr & Hsame & Hps).
  destruct (read_ok upper_bound canonicalize Hmem g elt ps Hr (gs_valid _ _ Hg)) as (g1 & E1 & Hl1 & Hs1 & Hv1).
  unfold generic_link_check_archive_element. rewrite (gbind_ret _ _ _ _ _ E1). cbn [negb].
  erewrite gbind_ret; [|reflexivity]. cbv beta. rewrite Hs1, lookup_insert_eq. cbn [default from_option].
  assert (Hg1 : gsound g1 t).
  { split; [by rewrite Hl1; apply Hg|apply Hg|done|]. intros n qs Hq. rewrite Hs1 in Hq.
    destruct (decide (bfd_id elt = n)) as [<-|Hne].
    - rewrite lookup_insert_eq in Hq. injection Hq as <-. by rewrite (op_number _ Ho).
    - rewrite lookup_insert_ne in Hq by done. by apply (gs_syms _ _ Hg). }
  destruct (check_loop_ok elt ps g1 t Ho Hg1) as (b & g2 & t2 & E2 & Hg2 & Hgr2 & Hj).
  exists b, g2, t2. split; [done|]. split; [done|]. split; [done|]. destruct b; [done|].
  destruct Hj as [Hl Hj]. split; [done|]. intros p Hp Hex. apply list_elem_of_lookup in Hp as [k Hk].
  destruct (Forall2_lookup_l _ _ _ _ _ Hsame Hk) as (p' & Hp' & Hs).
  pose proof Hs as (Hname & Hsec & _). rewrite <- Hname. apply Hj; [by eapply list_elem_of_lookup_2|].
  unfold exported in *. by rewrite Hsec, (same_flag p p').
Qed.

Lemma exported_interesting (p : asymbol) : exported p = true -> interesting p = true.
Proof.
  unfold exported, interesting. intros [Hc|Hf]%orb_true_iff; [by rewrite Hc, !orb_true_r|].
  assert (Hm : forall f, has_flag f (Z.lor BSF_GLOBAL (Z.lor BSF_INDIRECT BSF_WEAK)) = true ->
    has_flag f (Z.lor BSF_INDIRECT (Z.lor BSF_WARNING (Z.lor BSF_GLOBAL (Z.lor BSF_CONSTRUCTOR BSF_WEAK)))) = true).
  { intros f. unfold has_flag. rewrite !negb_true_iff, !Z.eqb_neq. intros H H0. apply H.
    change (Z.lor BSF_GLOBAL (Z.lor BSF_INDIRECT BSF_WEAK)) with
      (Z.land (Z.lor BSF_INDIRECT (Z.lor BSF_WARNING (Z.lor BSF_GLOBAL (Z.lor BSF_CONSTRUCTOR BSF_WEAK))))
              (Z.lor BSF_GLOBAL (Z.lor BSF_INDIRECT BSF_WEAK))).
    by rewrite Z.land_assoc, H0, Z.land_0_l. }
  by rewrite (Hm _ Hf).
Qed.

(** ** The search *)
Section search.
  Context (element_at : Z -> option bfd) (Helts : forall off elt, element_at off = Some elt -> openable elt).

(** An entry of the symbol table that tells the truth: its element defines the
    symbol. *)
Definition truthful (a : carsym) : Prop :=
  0 <= file_offset a
  /\ exists elt p, element_at (file_offset a) = Some elt /\ p ∈ contents canonicalize elt
       /\ sy_name p = cs_name a /\ exported p = true /\ definition (row_in p).

#[local] Instance generic_searchable :
  Searchable (generic_link_check_archive_element info notice section_named same_xvec upper_bound canonicalize
                add_archive_element bfd_of vma) element_at (fun g => exists t, gsound g t).
Proof.
  split.
  - intros s g [t Hg]. exists (tb_map t !! s). split; [by apply names_lookup|]. intros h Hh.
    destruct (st_entry _ _ _ _ _ (ok_names _ _ _ _ (so_ok _ _ (gs_sound _ _ Hg))) Hh) as (e & He & _).
    rewrite (gs_link _ _ Hg). by exists e.
  - intros off elt h name nd g [t Hg] Hat.
    destruct (check_element_ok elt h name nd g t (Helts _ _ Hat) Hg) as (b & g' & t' & E & Hg' & _).
    eexists _, g'. split; [exact E|]. by exists t'.
Qed.

(** What holds in the middle of a pass: what is included is settled, and unless
    the pass is to be repeated nothing before the position is undefined. *)
Record searched (arsyms : list carsym) t0 (k : nat) (p : pass) (g : gen_state T) t : Prop := {
  se_sound : gsound g t;
  se_grew : grew t0 t;
  se_at : at_element element_at p;
  se_included : forall j a, arsyms !! j = Some a -> nth j (included p) false = true -> settled_in t (cs_name a);
  se_needed : needed p = true -> exists elt, element_at (last_ar_offset p) = Some elt /\ added elt t;
  se_before : loop p = false -> forall j a, (j < k)%nat -> arsyms !! j = Some a -> ~ undef_in t (cs_name a)
}.

Lemma added_settled (a : carsym) (elt : bfd) t : truthful a -> element_at (file_offset a) = Some elt ->
  added elt t -> settled_in t (cs_name a).
Proof.
  intros (_ & elt' & p & Hat & Hp & <- & Hex & Hd) Hat' Ha. assert (elt' = elt) as -> by congruence.
  apply Ha; [done|by apply exported_interesting|done].
Qed.

Lemma added_grew (elt : bfd) t t' : grew t t' -> added elt t -> added elt t'.
Proof. intros Hg Ha p Hp Hi Hd. by apply (gr_settled _ _ Hg), Ha. Qed.

(** One more entry, for which nothing changed. *)
Lemma searched_skip (arsyms : list carsym) t0 (k : nat) (a : carsym) (p : pass) (g : gen_state T) t :
  searched arsyms t0 k p g t -> arsyms !! k = Some a -> ~ undef_in t (cs_name a) ->
  searched arsyms t0 (S k) p g t.
Proof.
  intros [H1 H2 H3 H4 H5 H6] Ha Hu. split; try done. intros Hl j a' Hj Ha'.
  destruct (decide (j = k)) as [->|Hne]; [by assert (a' = a) as -> by congruence|].
  apply (H6 Hl j); [lia|done].
Qed.

Lemma searched_include (arsyms : list carsym) t0 (k : nat) (a : carsym) (p : pass) (g : gen_state T) t :
  searched arsyms t0 k p g t -> arsyms !! k = Some a -> settled_in t (cs_name a) ->
  searched arsyms t0 (S k) (include k p) g t.
Proof.
  intros Hs Ha Hset. destruct (searched_skip _ _ _ _ _ _ _ Hs Ha (settled_not_undef _ _ Hset)) as [H1 H2 H3 H4 H5 H6].
  split; try done. intros j a' Ha' Hn. cbn in Hn. destruct (decide (k = j)) as [<-|Hne].
  - by assert (a' = a) as -> by congruence.
  - apply (H4 j a' Ha'). rewrite !nth_lookup in *. by rewrite list_lookup_insert_ne in Hn.
Qed.

Lemma same_tail (l l' : list nat) : NoDup l' -> l `prefix_of` l' -> last l = last l' -> l' = l.
Proof.
  intros Hnd [k ->] Hl. destruct k as [|x k]; [apply app_nil_r|]. exfalso.
  apply NoDup_app in Hnd as (_ & Hd & _). rewrite last_app_cons in Hl.
  destruct (last (x :: k)) as [y|] eqn:Hy; [|by apply last_None in Hy].
  apply (Hd y); by apply last_Some_elem_of.
Qed.

Lemma tail_of (g : gen_state T) t : gsound g t -> undefs_tail (g_link g) = last (tb_list t).
Proof. intros Hg. rewrite (gs_link _ _ Hg). apply (ok_tail _ _ _ _ (so_ok _ _ (gs_sound _ _ Hg))). Qed.

Lemma list_nodup (g : gen_state T) t : gsound g t -> NoDup (tb_list t).
Proof. intros Hg. apply (ok_nodup _ _ _ _ (so_ok _ _ (gs_sound _ _ Hg))). Qed.

(** An element was added. *)
Lemma searched_added (arsyms : list carsym) t0 t t' (k : nat) (a : carsym) (p : pass) (elt : bfd) (g g' : gen_state T) :
  Forall truthful arsyms -> searched arsyms t0 k p g t -> arsyms !! k = Some a ->
  element_at (file_offset a) = Some elt -> gsound g' t' -> grew t t' -> added elt t' ->
  searched arsyms t0 (S k)
    (added_pass arsyms k elt (undefs_tail (g_link g)) (undefs_tail (g_link g')) (opened a elt p)) g' t'.
Proof.
  intros Htr [H1 H2 H3 H4 H5 H6] Ha Hat Hg' Hgr Had.
  assert (Hset : forall j a', arsyms !! j = Some a' -> file_offset a' = file_offset a -> settled_in t' (cs_name a')).
  { intros j a' Ha' Hoff. eapply added_settled; [by eapply Forall_lookup_1|by rewrite Hoff|done]. }
  split; cbn; [done|by etrans|right; by exists elt| |intros _; by exists elt|].
  - intros j a' Ha' Hn. destruct (mark_back_same _ _ _ _ _ _ Ha eq_refl Hn) as [Hold|(a2 & Ha2 & Hoff)].
    + by apply (gr_settled _ _ Hgr), (H4 j).
    + assert (a2 = a') as -> by congruence. by eapply Hset.
  - case_decide as Hd; [|done]. intros Hl j a' Hj Ha'.
    assert (Hlist : tb_list t' = tb_list t).
    { apply same_tail; [by eapply list_nodup|apply Hgr|].
      by rewrite <- (tail_of g t), <- (tail_of g' t') by done. }
    destruct (decide (j = k)) as [->|Hne].
    + assert (a' = a) as -> by congruence. by eapply settled_not_undef, Hset.
    + intros Hu. apply (H6 Hl j a'); [lia|done|]. by apply (gr_undef _ _ Hgr).
Qed.

(** An element was refused. *)
Lemma searched_refused (arsyms : list carsym) t0 t t' (k : nat) (a : carsym) (p : pass) (elt : bfd) (g g' : gen_state T) :
  truthful a -> searched arsyms t0 k p g t -> arsyms !! k = Some a ->
  element_at (file_offset a) = Some elt -> gsound g' t' -> grew t t' ->
  judged elt false t t' (contents canonicalize elt) ->
  searched arsyms t0 (S k) (refused_pass elt (opened a elt p)) g' t'.
Proof.
  intros (_ & elt' & q & Hat' & Hq & Hname & Hex & _) [H1 H2 H3 H4 H5 H6] Ha Hat Hg' Hgr [Hlist Hj].
  assert (elt' = elt) as -> by congruence.
  split; cbn; [done|by etrans|right; by exists elt| |done|].
  - intros j a' Ha' Hn. by apply (gr_settled _ _ Hgr), (H4 j).
  - intros Hl j a' Hjk Ha'. destruct (decide (j = k)) as [->|Hne].
    + assert (a' = a) as -> by congruence. rewrite <- Hname. by apply Hj.
    + intros Hu. apply (H6 Hl j a'); [lia|done|]. by apply (gr_undef _ _ Hgr).
Qed.

Abbreviation check := (generic_link_check_archive_element info notice section_named same_xvec upper_bound canonicalize
                     add_archive_element bfd_of vma).

Lemma arsym_type (s : string) (h : nat) (e : link_entry) (g : gen_state T) t : gsound g t ->
  lookup_arsym false s g = Ret (Some h, g) -> heap (g_link g) !! h = Some e -> type_in t s = Some (le_type e).
Proof.
  intros Hg E He. unfold lookup_arsym in E. rewrite (gbind_ret _ _ _ _ _ (names_lookup g t s Hg)) in E.
  unfold type_in. destruct (tb_map t !! s) as [h'|]; [|done]. injection E as ->. cbn.
  rewrite (gs_link _ _ Hg) in He. by apply types_lookup.
Qed.

Lemma search_step (arsyms : list carsym) t0 t (k : nat) (a : carsym) (p : pass) (g : gen_state T) :
  Forall truthful arsyms -> searched arsyms t0 k p g t -> arsyms !! k = Some a ->
  exists p' g' t', arsym_step check element_at false arsyms k a p g = Ret (Some p', g')
    /\ searched arsyms t0 (S k) p' g' t'.
Proof.
  intros Htr Hs Ha. pose proof (Forall_lookup_1 _ _ _ _ Htr Ha) as Hta.
  pose proof (se_sound _ _ _ _ _ _ Hs) as Hg.
  destruct (arsym_step_cases check element_at false (fun g => exists t, gsound g t) arsyms k a p g)
    as (o & g' & E & _ & Hcase); [by exists t|apply Hs|apply Hta|].
  assert (Hchk : forall elt h nd r g1, element_at (file_offset a) = Some elt -> check elt h (cs_name a) nd g = Ret (r, g1) ->
    exists b t', r = (true, b) /\ gsound g1 t' /\ grew t t' /\ judged elt b t t' (contents canonicalize elt)).
  { intros elt h nd r g1 Hat Er. destruct (check_element_ok elt h (cs_name a) nd g t (Helts _ _ Hat) Hg)
      as (b & g2 & t2 & E2 & Hg2 & Hgr & Hj). rewrite E2 in Er. injection Er as <- <-. by exists b, t2. }
  rewrite E. destruct Hcase as [Hn|Hnd Hoff|Hl|h e f Hl He Hte|h e Hl He Hw Hn|Hno|h elt nd nd' g' Hat Ec
                                |h e elt nd g' Hl He Hw Hat Ec|h e elt nd g' Hl He Hw Hat Ec].
  - exists p, g, t. split; [done|]. eapply searched_skip; [done|done|].
    apply settled_not_undef. by apply (se_included _ _ _ _ _ _ Hs k).
  - exists (include k p), g, t. split; [done|]. eapply searched_include; [done|done|].
    destruct (se_needed _ _ _ _ _ _ Hs Hnd) as (elt & Hat & Had). rewrite <- Hoff in Hat. by eapply added_settled.
  - exists p, g, t. split; [done|]. eapply searched_skip; [done|done|]. apply not_undef. intros f.
    unfold lookup_arsym in Hl. rewrite (gbind_ret _ _ _ _ _ (names_lookup g t (cs_name a) Hg)) in Hl.
    unfold type_in. by destruct (tb_map t !! cs_name a).
  - exists p, g, t. split; [done|]. eapply searched_skip; [done|done|]. apply not_undef. intros f'.
    by rewrite (arsym_type _ _ _ _ _ Hg Hl He), Hte.
  - exists (include k p), g, t. split; [done|]. eapply searched_include; [done|done|].
    pose proof (arsym_type _ _ _ _ _ Hg Hl He) as Hty. exists (le_type e). split; [done|].
    pose proof (so_seen _ _ (gs_sound _ _ Hg)) as Hall. rewrite (gs_link _ _ Hg) in He.
    destruct (Forall_lookup_1 _ _ _ _ Hall (types_lookup _ _ _ He)) as [Hnl Hnew].
    unfold no_link in Hnl. by destruct (le_type e).
  - exfalso. destruct Hta as (_ & elt & _ & Hat & _). congruence.
  - by destruct (Hchk _ _ _ _ _ Hat Ec) as (b & t' & [=] & _).
  - destruct (Hchk _ _ _ _ _ Hat Ec) as (b & t' & [= <-] & Hg' & Hgr & Hj). eexists _, g', t'. split; [done|].
    by eapply searched_added.
  - destruct (Hchk _ _ _ _ _ Hat Ec) as (b & t' & [= <-] & Hg' & Hgr & Hj). eexists _, g', t'. split; [done|].
    by eapply searched_refused.
Qed.

(** C10.  The search of an archive whose symbol table tells the truth succeeds, and
    afterwards none of the symbols it lists is undefined, also those that elements pulled
    in late, or in a later pass, asked for.  (Not every element that defines one need be
    pulled in: a symbol the element only has as a common one may be made common in the
    table instead, as the code does.)  The table is well formed again, and what was settled
    before stays settled. *)
Theorem archive_search_complete (ar : archive) (g : gen_state T) t :
  gsound g t -> ar_has_map ar = true -> Forall truthful (symdefs ar) ->
  exists g' t',
    _bfd_generic_link_add_archive_symbols check element_at false ar g = Ret (true, g')
    /\ gsound g' t' /\ grew t t' /\ forall a, a ∈ symdefs ar -> ~ undef_in t' (cs_name a).
Proof.
  intros Hg Hmap Htr. unfold _bfd_generic_link_add_archive_symbols. rewrite Hmap, Hmem. cbn [negb].
  destruct (symdefs ar) as [|a0 l] eqn:Hl; [exists g, t; split_and!; try done; intros a Ha; by apply elem_of_nil in Ha|].
  rewrite <- Hl in *. assert (Hne : (length (symdefs ar) =? 0)%nat = false) by by rewrite Hl.
  rewrite Hne. set (arsyms := symdefs ar) in *.
  set (J := fun g k p => exists t', searched arsyms t k p g t').
  destruct (search_loop_ok check element_at false arsyms J (fun _ => False)) with
    (fuel := S (length arsyms)) (inc := repeat false (length arsyms)) (g := g) as (b & g' & E & Hb).
  - intros k a p g1 [t1 Hs] Ha _. destruct (search_step arsyms t t1 k a p g1 Htr Hs Ha) as (p' & g2 & t2 & E & Hs').
    exists (Some p'), g2. split; [done|]. by exists t2.
  - intros g1 p [t1 [H1 H2 H3 H4 H5 H6]] _. exists t1. split; try done; [by left|]. intros _ j a Hj. lia.
  - exists t. split; try done; [by left| |].
    + intros j a _ Hn. cbn in Hn. rewrite nth_repeat in Hn. done.
    + intros _ j a Hj. lia.
  - apply repeat_length.
  - lia.
  - destruct b; [|done]. destruct Hb as (p & (t' & Hs) & Hlp). exists g', t'. split; [exact E|].
    split; [apply Hs|]. split; [apply Hs|]. intros a Ha. apply list_elem_of_lookup in Ha as [j Hj].
    apply (se_before _ _ _ _ _ _ Hs Hlp j a); [by eapply lookup_lt_Some|done].
Qed.
End search.
End check_element.
End elements.
End names.
End pull.

(** ** Witness *)

(** File 1 refers to [f], which element 2, at offset 8, defines with a reference to
    [g], which element 3, at offset 96, defines. *)
Definition library_symbols (n : nat) : list asymbol :=
  match n with
  | 1 => [mk_asymbol "f" 0 bfd_und_section 0 None]
  | 2 => [mk_asymbol "f" BSF_GLOBAL demo_text 64 None; mk_asymbol "g" 0 bfd_und_section 0 None]
  | 3 => [mk_asymbol "g" BSF_GLOBAL demo_text 32 None]
  | _ => []
  end%nat.
Definition library_file (abfd : bfd) : option (list asymbol) := Some (library_symbols (bfd_id abfd)).
Definition library_at (off : Z) : option bfd :=
  if off =? 8 then Some (demo_bfd 2) else if off =? 96 then Some (demo_bfd 3) else None.
Definition library_names : gset string := {["f"; "g"]}.
Definition library : archive := mk_archive true false [mk_carsym "g" 96; mk_carsym "f" 8].

Lemma library_good (n : nat) : Forall (good_symbol library_names) (contents library_file (demo_bfd n)).
Proof.
  destruct n as [|[|[|[|n]]]]; repeat constructor; cbn; try lia; try done; by apply (bool_decide_unpack _).
Qed.

Lemma library_openable (elt : bfd) (n : nat) : elt = demo_bfd n -> openable (fun _ => 0) library_file demo_bfd elt.
Proof. intros ->. split; [done|done|by eexists]. Qed.

Lemma start_gsound :
  gsound (ops := hash_ops) (laws := hash_laws) library_names library_file demo_bfd (no_symbols small_table)
    (mk_table (empty_link small_table) ∅ []).
Proof.
  split; [done| |by intros h f i|by intros n ps].
  split; [by apply empty_link_ok, small_table_holds|constructor|done|]. cbn. by rewrite dom_empty_L.
Qed.

Lemma archive_search_complete_witness :
  exists g g' (t' : table (T := bfd_hash_table)),
    generic_link_add_object_symbols (ops := hash_ops) (memory := all_memory) demo_info (fun _ => true) (fun _ _ => None)
      (fun _ => true) (fun _ => 0) library_file (demo_bfd 1) (no_symbols small_table) = Ret (true, g)
    /\ _bfd_generic_link_add_archive_symbols (ops := hash_ops) (memory := all_memory)
         (generic_link_check_archive_element (ops := hash_ops) (memory := all_memory) demo_info (fun _ => true) (fun _ _ => None) (fun _ => true) (fun _ => 0)
            library_file (fun elt _ => Some elt) demo_bfd (fun _ => 0)) library_at false library g = Ret (true, g')
    /\ ~ undef_in t' "f" /\ ~ undef_in t' "g".
Proof.
  destruct (element_sound (ops := hash_ops) (memory := all_memory) (laws := hash_laws) demo_info (fun _ => true)
    (fun _ _ => None) (fun _ => eq_refl) eq_refl (fun _ => eq_refl) library_names eq_refl (fun _ => true) (fun _ => 0)
    library_file demo_bfd library_good (demo_bfd 1) _ _ (library_openable _ 1 eq_refl) start_gsound)
    as (g & t & E & Hg & _).
  destruct (archive_search_complete (ops := hash_ops) (memory := all_memory) (laws := hash_laws) demo_info (fun _ => true)
    (fun _ _ => None) (fun _ => eq_refl) eq_refl (fun _ => eq_refl) library_names eq_refl (fun _ => true) (fun _ => 0)
    library_file demo_bfd library_good (fun elt _ => Some elt) (fun _ => 0) (fun _ _ => eq_refl) library_at)
    with (ar := library) (g := g) (t := t) as (g' & t' & E' & _ & _ & Hno).
  - intros off elt. unfold library_at. destruct (off =? 8); [|destruct (off =? 96); [|done]];
      intros [= <-]; by eapply library_openable.
  - exact Hg.
  - reflexivity.
  - repeat constructor; cbn; try lia; eexists _, _; (split; [reflexivity|]); (split; [left|by split_and!; [..|left]]).
  - exists g, g', t'. split; [exact E|]. split; [exact E'|]. split; [apply (Hno (mk_carsym "f" 8)); right; left|apply (Hno (mk_carsym "g" 96)); left].
Defined.
