(* ===== verification/ElfStrtab.v ===== *)
(** * ELF string tables: bfd/elf-strtab.c

    The string table of an output file: strings are entered with reference counts,
    in a hash table ([StringTable] of BfdHash.v) and an array; [finalize] gives the
    used ones their offsets and lets a string that is the end of another share its
    bytes; [emit] writes the section.  Entries live in a heap and are addressed by
    index.  Failed assertions are counted. *)
From Stdlib Require Import Strings.Ascii.
From stdpp Require Import sorting.
From S2P Require Import Prelude BfdHash.
#[local] Open Scope Z_scope.

(** ** Entries and the table *)

(** The union: a position, or the entry this one is the end of. *)
Inductive strtab_u : Type :=
| u_index (index : Z)
| u_suffix (suffix : nat).

Record strtab_entry : Type := mk_strent {
  se_string : string;
  se_hash : Z;
  se_len : Z;
  se_refcount : Z;
  se_u : strtab_u
}.

#[global] Instance strtab_entry_entry : Entry strtab_entry := {
  string_of := se_string;
  hash_of := se_hash;
  set_root := fun s h e => mk_strent s h (se_len e) (se_refcount e) (se_u e);
  string_of_set := fun _ _ _ => eq_refl;
  hash_of_set := fun _ _ _ => eq_refl
}.

Definition set_len (n : Z) (e : strtab_entry) : strtab_entry :=
  mk_strent (se_string e) (se_hash e) n (se_refcount e) (se_u e).
Definition set_refcount (n : Z) (e : strtab_entry) : strtab_entry :=
  mk_strent (se_string e) (se_hash e) (se_len e) n (se_u e).
Definition set_u (u : strtab_u) (e : strtab_entry) : strtab_entry :=
  mk_strent (se_string e) (se_hash e) (se_len e) (se_refcount e) u.

(** [(size_t) -1] *)
Definition NO_INDEX : Z := 2 ^ 64 - 1.
Definition SIZEOF_STRENT : Z := 40.
Definition SIZEOF_STRTAB : Z := 72.
Definition blank_strent : strtab_entry := mk_strent "" 0 0 0 (u_index NO_INDEX).
Definition elf_strtab_hash_newfunc {memory : Memory} (string : string) : option strtab_entry :=
  if has_memory SIZEOF_STRENT then Some blank_strent else None.
Definition fresh_strent (string : string) : strtab_entry :=
  mk_strent string (bfd_hash_hash string) 0 0 (u_index NO_INDEX).

(** [array] has [alloced] cells; one that was never set holds [None]. *)
Record elf_strtab (T : Type) : Type := mk_strtab {
  es_heap : list strtab_entry;
  es_table : T;
  es_size : Z;
  es_alloced : Z;
  es_sec_size : Z;
  es_array : list (option nat);
  es_asserts : nat
}.
Arguments mk_strtab {T}.
Arguments es_heap {T}.
Arguments es_table {T}.
Arguments es_size {T}.
Arguments es_alloced {T}.
Arguments es_sec_size {T}.
Arguments es_array {T}.
Arguments es_asserts {T}.

(** [struct strtab_save] *)
Record strtab_save : Type := mk_save {
  sv_size : Z;
  sv_refcount : list Z
}.

(** The bytes of a string. *)
Fixpoint chars (s : string) : list Z :=
  match s with
  | EmptyString => []
  | String c s' => Z.of_N (N_of_ascii c) :: chars s'
  end.

(** ** Sorting *)

(** [*s] at a position inside the string. *)
Definition byte_at (s : string) (i : nat) : Z := nth i (chars s) 0.

(** The loop of [strrevcmp]: the last characters that differ. *)
Fixpoint back_cmp (l : nat) (s t : string) (i j : nat) : option Z :=
  match l with
  | O => None
  | S l' =>
      if byte_at s i =? byte_at t j then back_cmp l' s t (i - 1) (j - 1)
      else Some (byte_at s i - byte_at t j)
  end.

Definition strrevcmp (A B : strtab_entry) : Z :=
  let lenA := Z.to_nat (u32 (se_len A)) in
  let lenB := Z.to_nat (u32 (se_len B)) in
  match back_cmp (Nat.min lenA lenB) (se_string A) (se_string B) (lenA - 1) (lenB - 1) with
  | Some d => d
  | None => s32 (Z.of_nat lenA - Z.of_nat lenB)
  end.

(** [memcmp] of the last bytes of [A] with those of [B]. *)
Definition is_suffix (A B : strtab_entry) : bool :=
  if se_len A <=? se_len B then false
  else
    let n := Z.to_nat (se_len B - 1) in
    bool_decide (String.substring (Z.to_nat (se_len A - se_len B)) n (se_string A) = String.substring 0 n (se_string B)).

(** [*a], in the order of [qsort] by [strrevcmp]. *)
Definition pointed (heap : list strtab_entry) (p : nat) : strtab_entry := nth p heap blank_strent.
Definition sorted_before (heap : list strtab_entry) (p q : nat) : Prop :=
  strrevcmp (pointed heap p) (pointed heap q) <= 0.
#[global] Instance sorted_before_dec (heap : list strtab_entry) (p q : nat) : Decision (sorted_before heap p q).
Proof. unfold sorted_before. apply _. Defined.
Definition qsort (heap : list strtab_entry) (array : list nat) : list nat := merge_sort (sorted_before heap) array.

Section strtab.
  Context {T : Type} {ops : StringTable strtab_entry T} {memory : Memory}.
  (** The hash table [bfd_hash_table_init] makes. *)
  Context (new_table : option T).
  (** Whether [bfd_bwrite] writes these bytes after those. *)
  Context (bwrite : list Z -> list Z -> bool).
  Implicit Types (tab : elf_strtab T).

Definition set_heap tab (heap : list strtab_entry) : elf_strtab T :=
  mk_strtab heap (es_table tab) (es_size tab) (es_alloced tab) (es_sec_size tab) (es_array tab) (es_asserts tab).
Definition update tab (p : nat) (f : strtab_entry -> strtab_entry) : elf_strtab T :=
  set_heap tab (alter f p (es_heap tab)).
Definition bfd_assert (b : bool) tab : elf_strtab T :=
  if b then tab
  else mk_strtab (es_heap tab) (es_table tab) (es_size tab) (es_alloced tab) (es_sec_size tab) (es_array tab)
         (S (es_asserts tab)).

(** [tab->array[idx]], to be followed. *)
Definition slot_at tab (idx : Z) : res nat :=
  match es_array tab !! Z.to_nat idx with Some (Some p) => Ret p | _ => Fail Foob end.
Definition entry_of tab (idx : Z) : res (nat * strtab_entry) :=
  let! p := slot_at tab idx in
  let! e := get_entry (es_heap tab) p in Ret (p, e).

Definition _bfd_elf_strtab_init : option (elf_strtab T) :=
  if negb (has_memory SIZEOF_STRTAB) then None
  else match new_table with
       | None => None
       | Some t =>
           if negb (has_memory (64 * SIZEOF_POINTER)) then None
           else Some (mk_strtab [] t 1 64 0 (replicate 64 None) 0)
       end.

(** A larger array when it is full; [None] when there is no memory, and the old one
    is freed. *)
Definition grow_array tab : option (elf_strtab T) * elf_strtab T :=
  if es_size tab =? es_alloced tab then
    let alloced := u64 (es_alloced tab * 2) in
    if has_memory (u64 (alloced * SIZEOF_POINTER)) then
      let tab' := mk_strtab (es_heap tab) (es_table tab) (es_size tab) alloced (es_sec_size tab)
                    (es_array tab ++ replicate (Z.to_nat alloced - length (es_array tab)) None) (es_asserts tab) in
      (Some tab', tab')
    else (None, mk_strtab (es_heap tab) (es_table tab) (es_size tab) alloced (es_sec_size tab) [] (es_asserts tab))
  else (Some tab, tab).

(** [tab->array[tab->size++] = entry] *)
Definition append_slot tab (p : nat) : res (elf_strtab T) :=
  if (Z.to_nat (es_size tab) <? length (es_array tab))%nat then
    Ret (mk_strtab (es_heap tab) (es_table tab) (u64 (es_size tab + 1)) (es_alloced tab) (es_sec_size tab)
           (<[Z.to_nat (es_size tab) := Some p]> (es_array tab)) (es_asserts tab))
  else Fail Foob.

(** [entry->u.index], where it is the position that is stored. *)
Definition index_in (e : strtab_entry) : res Z :=
  match se_u e with u_index i => Ret i | u_suffix _ => Fail Funinit end.

(** The part of [_bfd_elf_strtab_add] after the lookup. *)
Definition enter_string tab (str : string) (p : nat) : res (Z * elf_strtab T) :=
  let! e := get_entry (es_heap tab) p in
  let tab := update tab p (set_refcount (u32 (se_refcount e + 1))) in
  if se_len e =? 0 then
    let len := s32 (Z.of_nat (String.length str) + 1) in
    let tab := bfd_assert (0 <? len) (update tab p (set_len len)) in
    match grow_array tab with
    | (None, tab) => Ret (NO_INDEX, tab)
    | (Some tab, _) =>
        let index := es_size tab in
        let! tab := append_slot (update tab p (set_u (u_index index))) p in
        Ret (index, tab)
    end
  else
    let! index := index_in e in
    Ret (index, tab).

Definition _bfd_elf_strtab_add tab (str : string) (copy : bool) : res (Z * elf_strtab T) :=
  if decide (str = EmptyString) then Ret (0, tab)
  else
    let tab := bfd_assert (es_sec_size tab =? 0) tab in
    let! (r, heap, t) := st_lookup (es_heap tab) (es_table tab) str true copy in
    let tab := mk_strtab heap t (es_size tab) (es_alloced tab) (es_sec_size tab) (es_array tab) (es_asserts tab) in
    match r with
    | None => Ret (NO_INDEX, tab)
    | Some p => enter_string tab str p
    end.

Definition _bfd_elf_strtab_addref tab (idx : Z) : res (elf_strtab T) :=
  if (idx =? 0) || (idx =? NO_INDEX) then Ret tab
  else
    let tab := bfd_assert (idx <? es_size tab) (bfd_assert (es_sec_size tab =? 0) tab) in
    let! (p, e) := entry_of tab idx in
    Ret (update tab p (set_refcount (u32 (se_refcount e + 1)))).

Definition _bfd_elf_strtab_delref tab (idx : Z) : res (elf_strtab T) :=
  if (idx =? 0) || (idx =? NO_INDEX) then Ret tab
  else
    let tab := bfd_assert (idx <? es_size tab) (bfd_assert (es_sec_size tab =? 0) tab) in
    let! (p, e) := entry_of tab idx in
    Ret (update (bfd_assert (0 <? se_refcount e) tab) p (set_refcount (u32 (se_refcount e - 1)))).

Definition _bfd_elf_strtab_refcount tab (idx : Z) : res Z :=
  let! (p, e) := entry_of tab idx in Ret (se_refcount e).

(** [for (idx = lo; idx < hi; idx++)], the entry at each index changed. *)
Fixpoint for_slots (f : Z -> strtab_entry -> strtab_entry) (n : nat) (idx : Z) tab : res (elf_strtab T) :=
  match n with
  | O => Ret tab
  | S n' =>
      let! p := slot_at tab idx in
      let! e := get_entry (es_heap tab) p in
      for_slots f n' (idx + 1) (update tab p (f idx))
  end.

Definition _bfd_elf_strtab_clear_all_refs tab : res (elf_strtab T) :=
  for_slots (fun _ => set_refcount 0) (Z.to_nat (es_size tab - 1)) 1 tab.

Fixpoint refcounts tab (n : nat) (idx : Z) : res (list Z) :=
  match n with
  | O => Ret []
  | S n' =>
      let! (p, e) := entry_of tab idx in
      let! l := refcounts tab n' (idx + 1) in
      Ret (se_refcount e :: l)
  end.

(** [refcount[0]] is not used: [sv_refcount] starts at index 1. *)
Definition _bfd_elf_strtab_save tab : res (option strtab_save) :=
  if negb (has_memory (u64 (16 + (es_size tab - 1) * 4))) then Ret None
  else
    let! l := refcounts tab (Z.to_nat (es_size tab - 1)) 1 in
    Ret (Some (mk_save (es_size tab) l)).

Definition saved_refcount (save : strtab_save) (idx : Z) : Z := nth (Z.to_nat (idx - 1)) (sv_refcount save) 0.

Definition _bfd_elf_strtab_restore tab (save : strtab_save) : res (elf_strtab T) :=
  let curr_size := es_size tab in
  let tab := bfd_assert (sv_size save <=? curr_size) (bfd_assert (es_sec_size tab =? 0) tab) in
  let tab := mk_strtab (es_heap tab) (es_table tab) (sv_size save) (es_alloced tab) (es_sec_size tab) (es_array tab)
               (es_asserts tab) in
  let! tab := for_slots (fun idx => set_refcount (saved_refcount save idx)) (Z.to_nat (sv_size save - 1)) 1 tab in
  for_slots (fun _ e => set_len 0 (set_refcount 0 e)) (Z.to_nat (curr_size - Z.max 1 (sv_size save)))
    (Z.max 1 (sv_size save)) tab.

Definition _bfd_elf_strtab_size tab : Z := if es_sec_size tab =? 0 then es_size tab else es_sec_size tab.

Definition _bfd_elf_strtab_offset tab (idx : Z) : res (Z * elf_strtab T) :=
  if idx =? 0 then Ret (0, tab)
  else
    let tab := bfd_assert (negb (es_sec_size tab =? 0)) (bfd_assert (idx <? es_size tab) tab) in
    let! (p, e) := entry_of tab idx in
    let tab := update (bfd_assert (0 <? se_refcount e) tab) p (set_refcount (u32 (se_refcount e - 1))) in
    let! off := index_in e in
    Ret (off, tab).

(** ** Writing the section *)

(** The [len] bytes at [str], of which the last is the NUL. *)
Definition bytes_of (str : string) (len : Z) : res (list Z) :=
  if len <=? Z.of_nat (String.length str) + 1 then Ret (take (Z.to_nat len) (chars str ++ [0])) else Fail Foob.

(** The result, the file and [off] at the end. *)
Fixpoint emit_loop (n : nat) (i : Z) (file : list Z) (off : Z) tab : res (bool * list Z * Z * elf_strtab T) :=
  match n with
  | O => Ret (true, file, off, tab)
  | S n' =>
      let! (p, e) := entry_of tab i in
      let tab := bfd_assert (se_refcount e =? 0) tab in
      let len := u32 (se_len e) in
      if s32 len <? 0 then emit_loop n' (i + 1) file off tab
      else
        let! str := bytes_of (se_string e) len in
        if negb (bwrite file str) then Ret (false, file, off, tab)
        else emit_loop n' (i + 1) (file ++ str) (u64 (off + len)) tab
  end.

Definition _bfd_elf_strtab_emit tab : res (bool * list Z * elf_strtab T) :=
  if negb (bwrite [] [0]) then Ret (false, [], tab)
  else
    let! (ok, file, off, tab) := emit_loop (Z.to_nat (es_size tab - 1)) 1 [0] 1 tab in
    if (ok : bool) then Ret (true, file, bfd_assert (off =? es_sec_size tab) tab)
    else Ret (false, file, tab).

(** ** Giving the strings their offsets *)

(** The first loop: the used entries, without the terminator in their lengths. *)
Fixpoint collect (n : nat) (i : Z) tab : res (list nat * elf_strtab T) :=
  match n with
  | O => Ret ([], tab)
  | S n' =>
      let! (p, e) := entry_of tab i in
      if se_refcount e =? 0 then collect n' (i + 1) (update tab p (set_len 0))
      else
        let! (l, tab) := collect n' (i + 1) (update tab p (set_len (s32 (se_len e - 1)))) in
        Ret (p :: l, tab)
  end.

(** The loop from the end of the sorted array; [rest] is what is before [a], the
    nearest first. *)
Fixpoint merge_suffixes (e : nat) (rest : list nat) tab : res (elf_strtab T) :=
  match rest with
  | [] => Ret tab
  | c :: rest' =>
      let! ce := get_entry (es_heap tab) c in
      let tab := update tab c (set_len (s32 (se_len ce + 1))) in
      let! ee := get_entry (es_heap tab) e in
      let! ce := get_entry (es_heap tab) c in
      if is_suffix ee ce then
        merge_suffixes e rest' (update tab c (fun x => set_len (s32 (- se_len x)) (set_u (u_suffix e) x)))
      else merge_suffixes c rest' tab
  end.

Definition merge_sorted (sorted : list nat) tab : res (elf_strtab T) :=
  match reverse sorted with
  | [] => Ret tab
  | e :: rest =>
      let! ee := get_entry (es_heap tab) e in
      merge_suffixes e rest (update tab e (set_len (s32 (se_len ee + 1))))
  end.

(** The positions of the strings that are kept. *)
Fixpoint assign (n : nat) (i sec_size : Z) tab : res (Z * elf_strtab T) :=
  match n with
  | O => Ret (sec_size, tab)
  | S n' =>
      let! (p, e) := entry_of tab i in
      if negb (se_refcount e =? 0) && (0 <? se_len e) then
        assign n' (i + 1) (u64 (sec_size + se_len e)) (update tab p (set_u (u_index sec_size)))
      else assign n' (i + 1) sec_size tab
  end.

(** The positions inside others. *)
Fixpoint adjust (n : nat) (i : Z) tab : res (elf_strtab T) :=
  match n with
  | O => Ret tab
  | S n' =>
      let! (p, e) := entry_of tab i in
      if negb (se_refcount e =? 0) && (se_len e <? 0) then
        match se_u e with
        | u_suffix q =>
            let! s := get_entry (es_heap tab) q in
            let! index := index_in s in
            adjust n' (i + 1) (update tab p (set_u (u_index (u64 (index + s32 (se_len s + se_len e))))))
        | u_index _ => Fail Funinit
        end
      else adjust n' (i + 1) tab
  end.

Definition set_sec_size tab (z : Z) : elf_strtab T :=
  mk_strtab (es_heap tab) (es_table tab) (es_size tab) (es_alloced tab) z (es_array tab) (es_asserts tab).

(** Without memory for the array nothing is merged. *)
Definition _bfd_elf_strtab_finalize tab : res (elf_strtab T) :=
  let n := Z.to_nat (es_size tab - 1) in
  let! tab :=
    (if has_memory (u64 (es_size tab * SIZEOF_POINTER)) then
       let! (array, tab) := collect n 1 tab in
       merge_sorted (qsort (es_heap tab) array) tab
     else Ret tab) in
  let! (sec_size, tab) := assign n 1 1 tab in
  adjust n 1 (set_sec_size tab sec_size).
End strtab.
