(* ===== verification/StrtabSort.v ===== *)
(** * The order and the suffix test of elf-strtab.c

    [strrevcmp] compares strings from their last characters: it is the
    lexicographic order of the reversed strings, in which a string comes right
    before the strings that end in it; [is_suffix] tests for a proper suffix. *)
From Stdlib Require Import Strings.Ascii.
From stdpp Require Import sorting.
From S2P Require Import Prelude BfdHash ElfStrtab.
#[local] Open Scope Z_scope.

(** ** Strings as bytes *)

Lemma string_chars_length (s : string) : length (chars s) = String.length s.
Proof. induction s as [|c s IH]; cbn; [done|by rewrite IH]. Qed.

Lemma chars_inj (s t : string) : chars s = chars t -> s = t.
Proof.
  revert t. induction s as [|c s IH]; intros [|d t]; cbn; try done. intros [= Hc Ht]. f_equal; [|by apply IH].
  apply N2Z.inj in Hc. by rewrite <- (ascii_N_embedding c), Hc, ascii_N_embedding.
Qed.

Lemma chars_substring (n m : nat) (s : string) : chars (String.substring n m s) = take m (drop n (chars s)).
Proof.
  revert n m. induction s as [|c s IH]; intros [|n] [|m]; cbn; try done; by rewrite IH.
Qed.

(** ** The lexicographic order *)

Fixpoint lexcmp (a b : list Z) : Z :=
  match a, b with
  | [], [] => 0
  | [], _ => -1
  | _, [] => 1
  | x :: a', y :: b' => if x =? y then lexcmp a' b' else x - y
  end.

Definition lexle (a b : list Z) : Prop := lexcmp a b <= 0.

Lemma lexcmp_opp (a b : list Z) : lexcmp b a = - lexcmp a b.
Proof.
  revert b. induction a as [|x a IH]; intros [|y b]; cbn; try done.
  rewrite Z.eqb_sym. destruct (x =? y); [apply IH|lia].
Qed.

Lemma lexcmp_eq (a b : list Z) : lexcmp a b = 0 -> a = b.
Proof.
  revert b. induction a as [|x a IH]; intros [|y b]; cbn; try done.
  destruct (Z.eqb_spec x y) as [->|]; [|lia]. intros H. by rewrite (IH b).
Qed.

Lemma lexle_trans (a b c : list Z) : lexle a b -> lexle b c -> lexle a c.
Proof.
  unfold lexle. revert b c. induction a as [|x a IH]; intros [|y b] [|z c]; cbn; try lia.
  destruct (Z.eqb_spec x y), (Z.eqb_spec y z), (Z.eqb_spec x z); try lia. apply IH.
Qed.

Lemma lexle_total (a b : list Z) : lexle a b \/ lexle b a.
Proof. unfold lexle. rewrite (lexcmp_opp a b). lia. Qed.

Lemma lexle_prefix (a b : list Z) : a `prefix_of` b -> lexle a b.
Proof.
  unfold lexle. intros [k ->]. induction a as [|x a IH]; cbn; [by destruct k|]. by rewrite Z.eqb_refl.
Qed.

(** What lies between a list and one that begins with it begins with it too. *)
Lemma lexle_between (a b c : list Z) : a `prefix_of` c -> lexle a b -> lexle b c -> a `prefix_of` b.
Proof.
  unfold lexle. intros [k ->]. revert b. induction a as [|x a IH]; intros b Hab Hbc; [apply prefix_nil|].
  destruct b as [|y b]; cbn in *; [lia|]. rewrite Z.eqb_sym in Hbc.
  destruct (Z.eqb_spec x y) as [->|]; [|lia]. by apply prefix_cons, IH.
Qed.

(** ** The comparison function *)

Lemma take_snoc (s : string) (i : nat) : (i < String.length s)%nat ->
  reverse (take (S i) (chars s)) = byte_at s i :: reverse (take i (chars s)).
Proof.
  intros Hi. rewrite <- string_chars_length in Hi. destruct (lookup_lt_is_Some_2 _ _ Hi) as [x Hx].
  rewrite (take_S_r _ _ x Hx), reverse_snoc. f_equal. unfold byte_at. symmetry. by apply nth_lookup_Some.
Qed.

Lemma back_cmp_spec (s t : string) (a b : nat) :
  (a <= String.length s)%nat -> (b <= String.length t)%nat ->
  let c := lexcmp (reverse (take a (chars s))) (reverse (take b (chars t))) in
  match back_cmp (Nat.min a b) s t (a - 1) (b - 1) with
  | Some d => c = d /\ d <> 0
  | None => Z.sgn c = Z.sgn (Z.of_nat a - Z.of_nat b)
  end.
Proof.
  revert b. induction a as [|a IH]; intros [|b] Ha Hb; cbn [Nat.min back_cmp].
  - done.
  - rewrite take_0, take_snoc by lia. cbn. lia.
  - rewrite take_0, take_snoc by lia. cbn. lia.
  - rewrite !take_snoc by lia. cbn [lexcmp]. replace (S a - 1)%nat with a by lia. replace (S b - 1)%nat with b by lia.
    destruct (Z.eqb_spec (byte_at s a) (byte_at t b)) as [|Hne]; [|cbn; lia].
    specialize (IH b ltac:(lia) ltac:(lia)). cbn zeta in IH |- *.
    replace (Z.of_nat (S a) - Z.of_nat (S b)) with (Z.of_nat a - Z.of_nat b) by lia. exact IH.
Qed.

Definition rev_chars (s : string) : list Z := reverse (chars s).

Lemma strrevcmp_spec (A B : strtab_entry) :
  se_len A = Z.of_nat (String.length (se_string A)) -> se_len B = Z.of_nat (String.length (se_string B)) ->
  se_len A < 2 ^ 31 -> se_len B < 2 ^ 31 ->
  (strrevcmp A B <= 0 <-> lexle (rev_chars (se_string A)) (rev_chars (se_string B))).
Proof.
  intros HA HB HA' HB'. unfold strrevcmp, lexle, rev_chars. rewrite !u32_small, HA, HB, !Nat2Z.id by lia.
  pose proof (back_cmp_spec (se_string A) (se_string B) _ _ (le_n _) (le_n _)) as Hb. cbn zeta in Hb.
  rewrite <- !string_chars_length, !firstn_all in Hb. rewrite !string_chars_length in Hb.
  destruct (back_cmp _ _ _ _ _) as [d|]; [destruct Hb; lia|].
  rewrite s32_small by lia. revert Hb. set (c := lexcmp _ _). set (d := _ - _). clearbody c d. lia.
Qed.

(** ** The suffix test *)

Lemma is_suffix_spec (A B : strtab_entry) :
  se_len A = Z.of_nat (String.length (se_string A)) + 1 -> se_len B = Z.of_nat (String.length (se_string B)) + 1 ->
  is_suffix A B = true
  <-> chars (se_string B) `suffix_of` chars (se_string A) /\ (String.length (se_string B) < String.length (se_string A))%nat.
Proof.
  intros HA HB. unfold is_suffix. rewrite HA, HB.
  set (a := String.length (se_string A)). set (b := String.length (se_string B)).
  destruct (Z.leb_spec (Z.of_nat a + 1) (Z.of_nat b + 1)) as [Hle|Hgt].
  - split; [done|]. intros [_ ?]. lia.
  - replace (Z.to_nat (Z.of_nat b + 1 - 1)) with b by lia.
    replace (Z.to_nat (Z.of_nat a + 1 - (Z.of_nat b + 1))) with (a - b)%nat by lia.
    rewrite bool_decide_eq_true. split.
    + intros He. apply (f_equal chars) in He. rewrite !chars_substring in He.
      rewrite drop_0, (take_ge (chars (se_string B))) in He by (by rewrite string_chars_length).
      rewrite take_ge in He by (rewrite length_drop, string_chars_length; lia). split; [|lia].
      exists (take (a - b) (chars (se_string A))). by rewrite <- He, take_drop.
    + intros [[k Hk] _]. apply chars_inj. rewrite !chars_substring, drop_0.
      rewrite (take_ge (chars (se_string B))) by (by rewrite string_chars_length).
      pose proof (f_equal length Hk) as Hlen. rewrite length_app, !string_chars_length in Hlen.
      rewrite Hk, drop_app_ge by lia. replace (a - b - length k)%nat with 0%nat by lia.
      rewrite drop_0. apply take_ge. by rewrite string_chars_length.
Qed.

Lemma suffix_rev (s t : string) : chars s `suffix_of` chars t <-> rev_chars s `prefix_of` rev_chars t.
Proof. unfold rev_chars. apply suffix_prefix_reverse. Qed.

(** ** Sorting the entries that are used *)

Lemma list_merge_fmap {A B : Type} (f : A -> B) (R : relation B) {dec : forall x y, Decision (R x y)} (l1 l2 : list A) :
  list_merge R (f <$> l1) (f <$> l2)
  = f <$> list_merge (fun x y => R (f x) (f y)) (H := fun x y => dec (f x) (f y)) l1 l2.
Proof.
  revert l2. induction l1 as [|x l1 IH]; induction l2 as [|y l2 IH2]; try done.
  cbn. unfold decide. destruct (dec (f x) (f y)); cbn; f_equal; [apply (IH (y :: l2))|exact IH2].
Qed.

Lemma merge_sort_fmap {A B : Type} (f : A -> B) (R : relation B) {dec : forall x y, Decision (R x y)} (l : list A) :
  merge_sort R (f <$> l) = f <$> merge_sort (fun x y => R (f x) (f y)) (H := fun x y => dec (f x) (f y)) l.
Proof.
  set (R' := fun x y => R (f x) (f y)). set (dec' := fun x y => dec (f x) (f y) : Decision (R' x y)).
  set (g := fmap (M := option) (fmap (M := list) f)).
  assert (Hto : forall (st : list (option (list A))) (k : list A), merge_list_to_stack R (g <$> st) (f <$> k)
    = g <$> merge_list_to_stack R' (H := dec') st k).
  { induction st as [|[k'|] st IH]; intros k; cbn; [done| |done]. f_equal. rewrite list_merge_fmap. apply IH. }
  assert (Hst : forall st : list (option (list A)), merge_stack R (g <$> st) = f <$> merge_stack R' (H := dec') st).
  { induction st as [|[k|] st IH]; cbn; [done| |done]. by rewrite IH, list_merge_fmap. }
  unfold merge_sort. change (@nil (option (list B))) with (g <$> @nil (option (list A))).
  generalize (@nil (option (list A))). induction l as [|x l IH]; intros st; cbn; [apply Hst|].
  change [f x] with (f <$> [x]). by rewrite Hto, IH.
Qed.

(** An order on the elements of the list is enough to sort it. *)
Lemma merge_sort_on {A : Type} (P : A -> Prop) (R : relation A) {dec : forall x y, Decision (R x y)} (l : list A) :
  Forall P l -> (forall x y, P x -> P y -> R x y \/ R y x) ->
  (forall x y z, P x -> P y -> P z -> R x y -> R y z -> R x z) -> StronglySorted R (merge_sort R l).
Proof.
  intros Hl Htot Htr. assert (exists l' : list {x | P x}, l = proj1_sig <$> l') as [l' ->].
  { induction Hl as [|x l Hx _ [l' ->]]; [by exists []|]. by exists (exist _ x Hx :: l'). }
  rewrite merge_sort_fmap. set (R' := fun x y => _). set (dec' := fun x y => _).
  assert (Total R') by (intros [x Hx] [y Hy]; by apply Htot).
  assert (Transitive R') by (intros [x Hx] [y Hy] [z Hz]; by apply Htr).
  pose proof (StronglySorted_merge_sort R' (H := dec') l') as Hs.
  induction Hs as [|x k Hk IH Hx]; cbn; constructor; [done|]. by apply Forall_fmap.
Qed.
