(* ===== verification/StrtabList.v ===== *)
(** * A string table is a list of strings with counts

    The operations of elf-strtab.c (ElfStrtab.v) before [finalize], against lists of
    strings with reference counts: the index of a string is its position, entered
    strings stay where they are, [restore] cuts the list back to a snapshot. *)
From S2P Require Import Prelude BfdHash ElfStrtab.
#[local] Open Scope Z_scope.

(** Conjunctions of known facts. *)
Ltac conjs := repeat (split; [done|]); try first [done | lia].

(** ** The lists *)

Abbreviation string_list := (list (string * Z)).

Definition bump (n : Z) (x : string * Z) : string * Z := (x.1, x.2 + n).

(** The index and the list after a string was entered. *)
Definition list_add (s : string) (l : string_list) : Z * string_list :=
  if decide (s = EmptyString) then (0, l)
  else
    match list_find (fun x : string * Z => x.1 = s) l with
    | Some (i, _) => (Z.of_nat i + 1, alter (bump 1) i l)
    | None => (Z.of_nat (length l) + 1, l ++ [(s, 1)])
    end.

Definition list_ref (n idx : Z) (l : string_list) : string_list :=
  if (idx =? 0) || (idx =? NO_INDEX) then l else alter (bump n) (Z.to_nat (idx - 1)) l.

(** Back to the counts of a snapshot. *)
Definition list_restore (counts : list Z) (l : string_list) : string_list :=
  zip_with (fun x c => (x.1, c)) l counts.

(** ** Calls *)

Inductive strtab_call : Type :=
| call_add (str : string) (copy : bool)
| call_addref (idx : Z)
| call_delref (idx : Z)
| call_refcount (idx : Z)
| call_size
| call_clear
| call_save
| call_restore.

(** [idx] is the index of a string with [n] references at least. *)
Definition has_refs (n idx : Z) (l : string_list) : bool :=
  match l !! Z.to_nat (idx - 1) with Some (_, c) => (1 <=? idx) && (n <=? c) | None => false end.
Definition no_index (idx : Z) : bool := (idx =? 0) || (idx =? NO_INDEX).
Definition counts_below (l : string_list) : bool := forallb (fun x : string * Z => x.2 + 1 <? 2 ^ 32) l.

(** The calls on a list and its snapshots, the newest first: what is returned and the
    new list; [None] when the call is a misuse. *)
Definition list_call (c : strtab_call) (l : string_list) (saves : list (list Z))
  : option (Z * string_list * list (list Z)) :=
  match c with
  | call_add s _ =>
      if (Z.of_nat (String.length s) + 1 <? 2 ^ 31) && counts_below l then
        Some ((list_add s l).1, (list_add s l).2, saves)
      else None
  | call_addref idx =>
      if (no_index idx || has_refs 0 idx l) && counts_below l then Some (0, list_ref 1 idx l, saves) else None
  | call_delref idx =>
      if no_index idx || has_refs 1 idx l then Some (0, list_ref (-1) idx l, saves) else None
  | call_refcount idx =>
      match l !! Z.to_nat (idx - 1) with
      | Some (_, n) => if 1 <=? idx then Some (n, l, saves) else None
      | None => None
      end
  | call_size => Some (Z.of_nat (length l) + 1, l, saves)
  | call_clear => Some (0, (fun x => (x.1, 0)) <$> l, saves)
  | call_save => Some (0, l, (snd <$> l) :: saves)
  | call_restore => match saves with [] => None | counts :: saves => Some (0, list_restore counts l, saves) end
  end.

Fixpoint list_calls (cs : list strtab_call) (l : string_list) (saves : list (list Z))
  : option (list Z * string_list * list (list Z)) :=
  match cs with
  | [] => Some ([], l, saves)
  | c :: cs =>
      match list_call c l saves with
      | None => None
      | Some (r, l, saves) =>
          match list_calls cs l saves with Some (rs, l, saves) => Some (r :: rs, l, saves) | None => None end
      end
  end.

Section strtab.
  Context {T : Type} {ops : StringTable strtab_entry T} {memory : Memory}.
  Context {laws : StringTableLaws strtab_entry T fresh_strent}.
  Context (Hmem : forall n, has_memory n = true).
  Implicit Types (tab : elf_strtab T) (ps : list nat) (l : string_list).

(** ** The invariant *)

Definition good_string (s : string) : Prop := s <> EmptyString /\ Z.of_nat (String.length s) + 1 < 2 ^ 31.

(** The names: the strings of the list have the entries [ps]; any other entry was
    dropped. *)
Record names_ok (heap : list strtab_entry) (m : gmap string nat) ps l : Prop := {
  nk_listed : forall i p s c, ps !! i = Some p -> l !! i = Some (s, c) -> m !! s = Some p;
  nk_dropped : forall s p e, m !! s = Some p -> heap !! p = Some e -> p ∉ ps -> se_len e = 0 /\ se_refcount e = 0
}.

Record strtab_ok tab ps l : Prop := {
  sk_names : exists m, st_holds (es_heap tab) (es_table tab) m /\ names_ok (es_heap tab) m ps l;
  sk_size : es_size tab = Z.of_nat (length l) + 1;
  sk_ps : length ps = length l;
  sk_array : forall i p, ps !! i = Some p -> es_array tab !! S i = Some (Some p);
  sk_length : Z.of_nat (length (es_array tab)) = es_alloced tab;
  sk_alloced : es_size tab <= es_alloced tab <= 64 + 2 * Z.of_nat (length (es_heap tab));
  sk_heap : Z.of_nat (length (es_heap tab)) <= max_entries;
  sk_entry : forall i p s c, ps !! i = Some p -> l !! i = Some (s, c) ->
    exists h, es_heap tab !! p = Some (mk_strent s h (Z.of_nat (String.length s) + 1) c (u_index (Z.of_nat i + 1)));
  sk_string : forall i s c, l !! i = Some (s, c) -> good_string s /\ 0 <= c < 2 ^ 32;
  sk_sec : es_sec_size tab = 0
}.

Lemma listed_at tab ps l (i : nat) (p : nat) : strtab_ok tab ps l -> ps !! i = Some p -> exists s c, l !! i = Some (s, c).
Proof.
  intros Hok Hp. destruct (lookup_lt_is_Some_2 l i) as [[s c] Hl]; [|by exists s, c].
  rewrite <- (sk_ps _ _ _ Hok). by eapply lookup_lt_Some.
Qed.

Lemma pointer_at tab ps l (i : nat) (s : string) (c : Z) : strtab_ok tab ps l -> l !! i = Some (s, c) ->
  exists p, ps !! i = Some p.
Proof. intros Hok Hl. apply lookup_lt_is_Some_2. rewrite (sk_ps _ _ _ Hok). by eapply lookup_lt_Some. Qed.

(** No entry is in two slots. *)
Lemma pointers_inj tab ps l (i j p : nat) : strtab_ok tab ps l -> ps !! i = Some p -> ps !! j = Some p -> i = j.
Proof.
  intros Hok Hi Hj. destruct (listed_at _ _ _ _ _ Hok Hi) as (s & c & Hl), (listed_at _ _ _ _ _ Hok Hj) as (s' & c' & Hl').
  destruct (sk_entry _ _ _ Hok _ _ _ _ Hi Hl) as [h E], (sk_entry _ _ _ Hok _ _ _ _ Hj Hl') as [h' E'].
  rewrite E in E'. injection E' as _ _ _ _ E'. lia.
Qed.

Lemma pointers_nodup tab ps l : strtab_ok tab ps l -> NoDup ps.
Proof. intros Hok. apply NoDup_alt. intros i j p. by apply (pointers_inj tab ps l). Qed.

Lemma pointers_bound tab ps l : strtab_ok tab ps l -> (length ps <= length (es_heap tab))%nat.
Proof.
  intros Hok. rewrite <- (length_seq (length (es_heap tab)) 0).
  apply submseteq_length, NoDup_submseteq; [by eapply pointers_nodup|]. intros p Hp.
  apply list_elem_of_lookup in Hp as [i Hi]. destruct (listed_at _ _ _ _ _ Hok Hi) as (s & c & Hl).
  destruct (sk_entry _ _ _ Hok _ _ _ _ Hi Hl) as [h E]. apply elem_of_seq. apply lookup_lt_Some in E. lia.
Qed.

Lemma strings_inj tab ps l (i j : nat) (s : string) (c c' : Z) :
  strtab_ok tab ps l -> l !! i = Some (s, c) -> l !! j = Some (s, c') -> i = j.
Proof.
  intros Hok Hi Hj. destruct (pointer_at _ _ _ _ _ _ Hok Hi) as [p Hp], (pointer_at _ _ _ _ _ _ Hok Hj) as [q Hq].
  destruct (sk_names _ _ _ Hok) as (m & _ & Hm).
  pose proof (nk_listed _ _ _ _ Hm _ _ _ _ Hp Hi) as E1. pose proof (nk_listed _ _ _ _ Hm _ _ _ _ Hq Hj) as E2.
  eapply pointers_inj; [exact Hok|exact Hp|]. congruence.
Qed.

(** ** Reading *)

Lemma entry_of_ok tab ps l (i p : nat) (s : string) (c : Z) :
  strtab_ok tab ps l -> ps !! i = Some p -> l !! i = Some (s, c) ->
  exists h, let e := mk_strent s h (Z.of_nat (String.length s) + 1) c (u_index (Z.of_nat i + 1)) in
    es_heap tab !! p = Some e /\ entry_of tab (Z.of_nat i + 1) = Ret (p, e).
Proof.
  intros Hok Hp Hl. destruct (sk_entry _ _ _ Hok _ _ _ _ Hp Hl) as [h E]. exists h. split; [done|].
  unfold entry_of, slot_at. replace (Z.to_nat (Z.of_nat i + 1)) with (S i) by lia.
  rewrite (sk_array _ _ _ Hok _ _ Hp). cbn. unfold get_entry. by rewrite E.
Qed.
(** ** Changing one entry *)

(** [f] leaves the root alone. *)
Definition keeps_root (f : strtab_entry -> strtab_entry) : Prop :=
  forall e, se_string (f e) = se_string e /\ se_hash (f e) = se_hash e.

Lemma update_holds (heap : list strtab_entry) (t : T) (m : gmap string nat) (p : nat) (f : strtab_entry -> strtab_entry) :
  keeps_root f -> st_holds heap t m -> st_holds (alter f p heap) t m.
Proof.
  intros Hf Hh. assert (Heq : forall A (g : strtab_entry -> A), (forall e, g (f e) = g e) -> g <$> alter f p heap = g <$> heap).
  { intros A g Hg. apply list_eq. intros q. rewrite !list_lookup_fmap. destruct (decide (p = q)) as [<-|Hne].
    - rewrite list_lookup_alter_eq. destruct (heap !! p); [|done]. cbn. by rewrite Hg.
    - by rewrite list_lookup_alter_ne. }
  eapply st_update; [exact Hh| |]; apply Heq; intros e; apply Hf.
Qed.

Lemma set_refcount_ok tab ps l (i p : nat) (s : string) (c n : Z) :
  strtab_ok tab ps l -> ps !! i = Some p -> l !! i = Some (s, c) -> 0 <= n < 2 ^ 32 ->
  strtab_ok (update tab p (set_refcount n)) ps (<[i := (s, n)]> l).
Proof.
  intros Hok Hp Hl Hn. pose proof Hok as [Hnames Hsize Hps Harray Hlen Hall Hheap Hent Hstr Hsec].
  destruct Hnames as (m & Hh & Hm).
  assert (Hlook : forall j t d, <[i := (s, n)]> l !! j = Some (t, d) ->
    (j = i /\ t = s /\ d = n) \/ (j <> i /\ l !! j = Some (t, d))).
  { intros j t d. destruct (decide (i = j)) as [<-|Hne]; [|rewrite list_lookup_insert_ne by done; auto].
    rewrite list_lookup_insert_eq by (by eapply lookup_lt_Some). intros [= <- <-]. by left. }
  split; cbn; try done.
  - exists m. split; [by apply update_holds|]. split.
    + intros j q t d Hq Ht. destruct (Hlook _ _ _ Ht) as [(-> & -> & ->)|[_ Ht']].
      * assert (q = p) as -> by congruence. by apply (nk_listed _ _ _ _ Hm i p s c).
      * by apply (nk_listed _ _ _ _ Hm j q t d).
    + intros t q e Ht He Hq. assert (p <> q) by (intros ->; apply Hq; by eapply list_elem_of_lookup_2).
      rewrite list_lookup_alter_ne in He by done. by apply (nk_dropped _ _ _ _ Hm t q).
  - by rewrite length_insert.
  - by rewrite length_insert.
  - by rewrite length_alter.
  - by rewrite length_alter.
  - intros j q t d Hq Ht. destruct (Hlook _ _ _ Ht) as [(-> & -> & ->)|[Hne Ht']].
    + assert (q = p) as -> by congruence. destruct (Hent _ _ _ _ Hp Hl) as [h E]. exists h.
      rewrite list_lookup_alter_eq, E. done.
    + destruct (Hent _ _ _ _ Hq Ht') as [h E]. exists h. rewrite list_lookup_alter_ne; [done|].
      intros ->. apply Hne. by apply (pointers_inj tab ps l _ _ q Hok).
  - intros j t d Ht. destruct (Hlook _ _ _ Ht) as [(-> & -> & ->)|[_ Ht']]; [|by apply (Hstr j)].
    split; [apply (Hstr i s c Hl)|done].
Qed.

(** ** Reference counts *)

Lemma ref_ok tab ps l (idx n : Z) (p : nat) (s : string) (c : Z) :
  strtab_ok tab ps l -> l !! Z.to_nat (idx - 1) = Some (s, c) -> 1 <= idx -> 0 <= c + n < 2 ^ 32 ->
  ps !! Z.to_nat (idx - 1) = Some p ->
  strtab_ok (update tab p (set_refcount (u32 (c + n)))) ps (alter (bump n) (Z.to_nat (idx - 1)) l).
Proof.
  intros Hok Hl Hi Hc Hp. rewrite u32_small by done. rewrite (list_alter_at _ _ _ _ Hl). by eapply set_refcount_ok.
Qed.

(** The index of an entered string. *)
Definition listed_idx (idx : Z) l : Prop := 1 <= idx <= Z.of_nat (length l).

Lemma listed_idx_at tab ps l (idx : Z) : strtab_ok tab ps l -> listed_idx idx l -> idx <> NO_INDEX ->
  exists p s c h, ps !! Z.to_nat (idx - 1) = Some p /\ l !! Z.to_nat (idx - 1) = Some (s, c)
    /\ entry_of tab idx = Ret (p, mk_strent s h (Z.of_nat (String.length s) + 1) c (u_index idx))
    /\ es_heap tab !! p = Some (mk_strent s h (Z.of_nat (String.length s) + 1) c (u_index idx)).
Proof.
  intros Hok Hi _. destruct (lookup_lt_is_Some_2 l (Z.to_nat (idx - 1))) as [[s c] Hl]; [destruct Hi; lia|].
  destruct (pointer_at _ _ _ _ _ _ Hok Hl) as [p Hp].
  destruct (entry_of_ok _ _ _ _ _ _ _ Hok Hp Hl) as (h & He & E).
  replace (Z.of_nat (Z.to_nat (idx - 1)) + 1) with idx in * by (destruct Hi; lia). by exists p, s, c, h.
Qed.

Lemma addref_ok tab ps l (idx : Z) :
  strtab_ok tab ps l -> (idx = 0 \/ idx = NO_INDEX \/ listed_idx idx l) ->
  Forall (fun x => x.2 + 1 < 2 ^ 32) l ->
  exists tab', _bfd_elf_strtab_addref tab idx = Ret tab' /\ strtab_ok tab' ps (list_ref 1 idx l)
    /\ es_asserts tab' = es_asserts tab /\ length (es_heap tab') = length (es_heap tab).
Proof.
  intros Hok Hi Hc. unfold _bfd_elf_strtab_addref, list_ref.
  destruct (decide (idx = 0)) as [->|H0]; [by exists tab|].
  destruct (decide (idx = NO_INDEX)) as [->|H1]; [by exists tab|].
  rewrite (proj2 (Z.eqb_neq idx 0)), (proj2 (Z.eqb_neq idx NO_INDEX)) by done. cbn [orb].
  destruct Hi as [?|[?|Hi]]; [done|done|]. rewrite (sk_sec _ _ _ Hok), Z.eqb_refl. cbn [bfd_assert].
  rewrite (proj2 (Z.ltb_lt idx (es_size tab))) by (rewrite (sk_size _ _ _ Hok); destruct Hi; lia). cbn [bfd_assert].
  destruct (listed_idx_at _ _ _ _ Hok Hi H1) as (p & s & c & h & Hp & Hl & E & _). rewrite E. cbn.
  eexists. split; [reflexivity|]. split; [|split; [done|cbn; by rewrite length_alter]].
  pose proof (Forall_lookup_1 _ _ _ _ Hc Hl) as Hb. cbn in Hb. destruct (sk_string _ _ _ Hok _ _ _ Hl) as [_ ?].
  eapply ref_ok; [done|done|destruct Hi; lia|lia|done].
Qed.

Lemma delref_ok tab ps l (idx : Z) :
  strtab_ok tab ps l ->
  (idx = 0 \/ idx = NO_INDEX \/ listed_idx idx l /\ exists s c, l !! Z.to_nat (idx - 1) = Some (s, c) /\ 0 < c) ->
  exists tab', _bfd_elf_strtab_delref tab idx = Ret tab' /\ strtab_ok tab' ps (list_ref (-1) idx l)
    /\ es_asserts tab' = es_asserts tab /\ length (es_heap tab') = length (es_heap tab).
Proof.
  intros Hok Hi. unfold _bfd_elf_strtab_delref, list_ref.
  destruct (decide (idx = 0)) as [->|H0]; [by exists tab|].
  destruct (decide (idx = NO_INDEX)) as [->|H1]; [by exists tab|].
  rewrite (proj2 (Z.eqb_neq idx 0)), (proj2 (Z.eqb_neq idx NO_INDEX)) by done. cbn [orb].
  destruct Hi as [?|[?|[Hi (s' & c' & Hl' & Hpos)]]]; [done|done|]. rewrite (sk_sec _ _ _ Hok), Z.eqb_refl. cbn [bfd_assert].
  rewrite (proj2 (Z.ltb_lt idx (es_size tab))) by (rewrite (sk_size _ _ _ Hok); destruct Hi; lia). cbn [bfd_assert].
  destruct (listed_idx_at _ _ _ _ Hok Hi H1) as (p & s & c & h & Hp & Hl & E & _). rewrite E. cbn.
  rewrite Hl in Hl'. injection Hl' as -> ->. rewrite (proj2 (Z.ltb_lt 0 c')) by done. cbn [bfd_assert].
  eexists. split; [reflexivity|]. split; [|split; [done|cbn; by rewrite length_alter]]. destruct (sk_string _ _ _ Hok _ _ _ Hl) as [_ ?].
  replace (c' - 1) with (c' + -1) by lia. eapply ref_ok; [done|done|destruct Hi; lia|lia|done].
Qed.

Lemma refcount_ok tab ps l (idx : Z) (s : string) (c : Z) :
  strtab_ok tab ps l -> 1 <= idx -> l !! Z.to_nat (idx - 1) = Some (s, c) ->
  _bfd_elf_strtab_refcount tab idx = Ret c.
Proof.
  intros Hok Hi Hl. destruct (pointer_at _ _ _ _ _ _ Hok Hl) as [p Hp].
  destruct (entry_of_ok _ _ _ _ _ _ _ Hok Hp Hl) as (h & He & E).
  replace (Z.of_nat (Z.to_nat (idx - 1)) + 1) with idx in E by lia.
  unfold _bfd_elf_strtab_refcount. by rewrite E.
Qed.

(** ** Entering a string *)

(** Room for one more. *)
Lemma grow_array_ok tab :
  1 <= es_size tab <= es_alloced tab -> es_size tab <= 2 ^ 30 -> Z.of_nat (length (es_array tab)) = es_alloced tab ->
  exists alloced extra,
    (let tab' := mk_strtab (es_heap tab) (es_table tab) (es_size tab) alloced (es_sec_size tab)
                   (es_array tab ++ extra) (es_asserts tab) in
     grow_array tab = (Some tab', tab'))
    /\ es_size tab < alloced /\ (alloced = es_alloced tab \/ alloced = es_size tab * 2)
    /\ Z.of_nat (length (es_array tab ++ extra)) = alloced.
Proof.
  intros Hs Hb Hl. unfold grow_array. destruct (Z.eqb_spec (es_size tab) (es_alloced tab)) as [He|Hne].
  - rewrite Hmem, (u64_small (es_alloced tab * 2)) by lia. eexists _, _. split; [reflexivity|].
    split; [lia|]. split; [lia|]. rewrite length_app, length_replicate. lia.
  - exists (es_alloced tab), []. rewrite app_nil_r. split; [by destruct tab|]. split; [lia|]. by split; [left|].
Qed.

(** An entry in no slot leaves room in the heap. *)
Lemma free_entry_room tab ps l (p : nat) : strtab_ok tab ps l -> (p < length (es_heap tab))%nat -> p ∉ ps ->
  (length ps + 1 <= length (es_heap tab))%nat.
Proof.
  intros Hok Hlt Hp. rewrite <- (length_seq (length (es_heap tab)) 0).
  replace (length ps + 1)%nat with (length (p :: ps)) by (cbn; lia).
  apply submseteq_length, NoDup_submseteq; [apply NoDup_cons; split; [done|by eapply pointers_nodup]|].
  intros q [->|Hq]%elem_of_cons; apply elem_of_seq; [lia|].
  apply list_elem_of_lookup in Hq as [i Hi]. destruct (listed_at _ _ _ _ _ Hok Hi) as (t & c & Hl).
  destruct (sk_entry _ _ _ Hok _ _ _ _ Hi Hl) as [h E]. apply lookup_lt_Some in E. lia.
Qed.

(** The entry of [s] in the next slot. *)
Lemma next_slot_ok tab ps l (m : gmap string nat) (s : string) (p : nat) (e : strtab_entry) (alloced : Z)
    (extra : list (option nat)) :
  strtab_ok tab ps l -> st_holds (es_heap tab) (es_table tab) m -> names_ok (es_heap tab) m ps l ->
  m !! s = Some p -> es_heap tab !! p = Some e -> p ∉ ps -> good_string s ->
  Z.of_nat (length (es_array tab ++ extra)) = alloced -> es_size tab < alloced ->
  (alloced = es_alloced tab \/ alloced = es_size tab * 2) ->
  strtab_ok
    (mk_strtab (<[p := mk_strent s (se_hash e) (Z.of_nat (String.length s) + 1) 1 (u_index (es_size tab))]> (es_heap tab))
       (es_table tab) (es_size tab + 1) alloced (es_sec_size tab)
       (<[S (length l) := Some p]> (es_array tab ++ extra)) (es_asserts tab))
    (ps ++ [p]) (l ++ [(s, 1)]).
Proof.
  intros Hok Hh Hm Hs He Hp Hgood Hlen1 Hlt Halloced.
  pose proof (free_entry_room _ _ _ _ Hok (lookup_lt_Some _ _ _ He) Hp) as Hroom.
  destruct (st_entry _ _ _ _ _ Hh Hs) as (e' & He' & Hse). rewrite He in He'. injection He' as <-. cbn in Hse.
  pose proof Hok as [_ Hsize Hps Harray Hlen Hall Hheap Hent Hstr Hsec]. rewrite Hsize in *.
  assert (Hcases : forall i q t c, (ps ++ [p]) !! i = Some q -> (l ++ [(s, 1)]) !! i = Some (t, c) ->
    (ps !! i = Some q /\ q <> p /\ l !! i = Some (t, c)) \/ (i = length l /\ q = p /\ t = s /\ c = 1)).
  { intros i q t c Hq Ht. apply lookup_app_Some in Hq as [Hq|[Hi Hq]]; apply lookup_app_Some in Ht as [Ht|[Hj Ht]].
    - left. split; [done|]. split; [|done]. intros ->. by eapply Hp, list_elem_of_lookup_2.
    - apply lookup_lt_Some in Hq. lia.
    - apply lookup_lt_Some in Ht. lia.
    - apply list_lookup_singleton_Some in Hq as [? <-], Ht as [? [= <- <-]]. right. split; [lia|done]. }
  split; cbn; rewrite ?length_app, ?length_insert; cbn; try lia; try done.
  - exists m. split; [|split].
    + eapply st_update; [exact Hh| |]; rewrite list_fmap_insert; apply list_insert_id;
        rewrite list_lookup_fmap, He; cbn; by rewrite <- ?Hse.
    + intros i q t c Hq Ht. destruct (Hcases _ _ _ _ Hq Ht) as [(Hq' & _ & Ht')|(_ & -> & -> & _)]; [|done].
      by apply (nk_listed _ _ _ _ Hm i q t c).
    + intros t q x Ht Hx Hq. apply not_elem_of_app in Hq as [Hq Hqp]. apply not_elem_of_cons in Hqp as [Hqp _].
      rewrite list_lookup_insert_ne in Hx by done. by apply (nk_dropped _ _ _ _ Hm t q).
  - intros i q [Hq|[Hi Hq]]%lookup_app_Some.
    + pose proof (lookup_lt_Some _ _ _ Hq). rewrite list_lookup_insert_ne by lia.
      apply lookup_app_l_Some, Harray, Hq.
    + apply list_lookup_singleton_Some in Hq as [Hi' <-]. replace i with (length l) by lia.
      apply list_lookup_insert_eq. lia.
  - intros i q t c Hq Ht. destruct (Hcases _ _ _ _ Hq Ht) as [(Hq' & Hne & Ht')|(-> & -> & -> & ->)].
    + destruct (Hent _ _ _ _ Hq' Ht') as [h E]. exists h. by rewrite list_lookup_insert_ne.
    + exists (se_hash e). by rewrite list_lookup_insert_eq by (by eapply lookup_lt_Some).
  - intros i t c [Ht|[_ Ht]]%lookup_app_Some; [by apply (Hstr i)|].
    apply list_lookup_singleton_Some in Ht as [_ [= <- <-]]. done.
Qed.

(** An entry that is in no slot gets the next one. *)
Lemma append_ok tab ps l (m : gmap string nat) (s : string) (p : nat) (e : strtab_entry) :
  strtab_ok tab ps l -> st_holds (es_heap tab) (es_table tab) m -> names_ok (es_heap tab) m ps l ->
  m !! s = Some p -> es_heap tab !! p = Some e -> p ∉ ps -> good_string s ->
  exists tab', enter_string tab s p = Ret (Z.of_nat (length l) + 1, tab')
    /\ strtab_ok tab' (ps ++ [p]) (l ++ [(s, 1)]) /\ es_asserts tab' = es_asserts tab
    /\ length (es_heap tab') = length (es_heap tab).
Proof.
  intros Hok Hh Hm Hs He Hp Hgood. destruct (nk_dropped _ _ _ _ Hm _ _ _ Hs He Hp) as [Hlen0 Hcount0].
  pose proof (free_entry_room _ _ _ _ Hok (lookup_lt_Some _ _ _ He) Hp) as Hroom.
  destruct (st_entry _ _ _ _ _ Hh Hs) as (e' & He' & Hse). rewrite He in He'. injection He' as <-. cbn in Hse.
  pose proof Hgood as [_ Hlong]. pose proof (sk_heap _ _ _ Hok) as Hheap. pose proof (sk_size _ _ _ Hok) as Hsize.
  pose proof (sk_ps _ _ _ Hok) as Hps. pose proof (sk_alloced _ _ _ Hok) as Hall. unfold max_entries in Hheap.
  unfold enter_string. rewrite (get_entry_ret _ _ _ He). cbn [rbind]. rewrite Hlen0, Hcount0, Z.eqb_refl.
  rewrite (s32_small (_ + 1)) by lia. rewrite (proj2 (Z.ltb_lt 0 _)) by lia. cbn [bfd_assert].
  set (tab1 := update (update tab p _) p _).
  destruct (grow_array_ok tab1) as (alloced & extra & Hgrow & Hlt & Halloced & Hlen1);
    [cbn; lia|cbn; lia|apply (sk_length _ _ _ Hok)|].
  cbn zeta in Hgrow. rewrite Hgrow. unfold tab1 in *. clear Hgrow tab1. unfold append_slot.
  cbn [es_size es_heap es_table es_array es_asserts es_alloced es_sec_size update set_heap rbind] in *.
  rewrite (proj2 (Nat.ltb_lt _ _)) by lia. cbn [rbind].
  eexists. split; [by rewrite <- Hsize|]. split; [|split; [done|cbn; by rewrite !length_alter]].
  rewrite u64_small by lia. rewrite !list_alter_alter_eq, (list_alter_at _ _ _ _ He).
  unfold compose, set_u, set_len, set_refcount. cbn. rewrite Hse.
  replace (Z.to_nat (es_size tab)) with (S (length l)) by lia. by eapply next_slot_ok.
Qed.

Lemma list_find_string tab ps l (i : nat) (s : string) (c : Z) : strtab_ok tab ps l -> l !! i = Some (s, c) ->
  list_find (fun x : string * Z => x.1 = s) l = Some (i, (s, c)).
Proof.
  intros Hok Hl. apply list_find_Some. split; [done|]. split; [done|]. intros j [t d] Hj Hlt Ht. cbn in Ht. subst t.
  pose proof (strings_inj _ _ _ _ _ _ _ _ Hok Hl Hj). lia.
Qed.

Lemma enter_listed tab ps l (i p : nat) (s : string) (c : Z) :
  strtab_ok tab ps l -> ps !! i = Some p -> l !! i = Some (s, c) -> c + 1 < 2 ^ 32 ->
  exists tab', enter_string tab s p = Ret (Z.of_nat i + 1, tab') /\ strtab_ok tab' ps (alter (bump 1) i l)
    /\ es_asserts tab' = es_asserts tab /\ length (es_heap tab') = length (es_heap tab).
Proof.
  intros Hok Hp Hl Hc. destruct (sk_entry _ _ _ Hok _ _ _ _ Hp Hl) as [h E].
  destruct (sk_string _ _ _ Hok _ _ _ Hl) as [_ ?]. unfold enter_string. rewrite (get_entry_ret _ _ _ E). cbn [rbind].
  cbn [se_len se_refcount]. rewrite (proj2 (Z.eqb_neq _ 0)) by lia. cbn. eexists. split; [reflexivity|].
  split; [|split; [done|cbn; by rewrite length_alter]].
  rewrite u32_small, (list_alter_at _ _ _ _ Hl) by lia. apply (set_refcount_ok _ _ _ _ _ _ c); [done..|cbn; lia].
Qed.

(** A new entry of the hash table is in no slot. *)
Lemma new_entry_ok tab ps l (t : T) (m : gmap string nat) (s : string) :
  strtab_ok tab ps l -> Z.of_nat (length (es_heap tab)) < max_entries -> names_ok (es_heap tab) m ps l -> m !! s = None ->
  let heap := es_heap tab ++ [fresh_strent s] in
  let m' := <[s := length (es_heap tab)]> m in
  st_holds heap t m' ->
  names_ok heap m' ps l
  /\ strtab_ok (mk_strtab heap t (es_size tab) (es_alloced tab) (es_sec_size tab) (es_array tab) (es_asserts tab)) ps l.
Proof.
  intros Hok Hmax Hm Hs heap m' Hh.
  assert (Hn : names_ok heap m' ps l).
  { split.
    - intros i p t' c Hp Hl. pose proof (nk_listed _ _ _ _ Hm _ _ _ _ Hp Hl) as E. unfold m'.
      rewrite lookup_insert_ne; [done|congruence].
    - intros t' p e Ht He Hp. unfold m' in Ht. apply lookup_insert_Some in Ht as [[<- <-]|[_ Ht]].
      + unfold heap in He. rewrite list_lookup_middle in He by done. by injection He as <-.
      + apply lookup_app_Some in He as [He|[Hle He]]; [by apply (nk_dropped _ _ _ _ Hm t' p)|].
        apply list_lookup_singleton_Some in He as [_ <-]. done. }
  split; [done|]. pose proof Hok as [_ Hsize Hps Harray Hlen Hall Hheap Hent Hstr Hsec].
  split; cbn; try done.
  - by exists m'.
  - unfold heap. rewrite length_app. cbn. lia.
  - unfold heap. rewrite length_app. cbn. lia.
  - intros i p t' c Hp Hl. destruct (Hent _ _ _ _ Hp Hl) as [h E]. exists h. by apply lookup_app_l_Some.
Qed.

Lemma add_ok tab ps l (s : string) (copy : bool) :
  strtab_ok tab ps l -> Z.of_nat (length (es_heap tab)) < max_entries -> (s = EmptyString \/ good_string s) ->
  Forall (fun x => x.2 + 1 < 2 ^ 32) l ->
  exists tab' ps', _bfd_elf_strtab_add tab s copy = Ret ((list_add s l).1, tab') /\ strtab_ok tab' ps' (list_add s l).2
    /\ es_asserts tab' = es_asserts tab /\ (length (es_heap tab') <= S (length (es_heap tab)))%nat.
Proof.
  intros Hok Hmax Hgood Hc. unfold _bfd_elf_strtab_add, list_add.
  destruct (decide (s = EmptyString)) as [->|Hne]; [exists tab, ps; cbn; by auto|].
  destruct Hgood as [?|Hgood]; [done|]. rewrite (sk_sec _ _ _ Hok), Z.eqb_refl. cbn [bfd_assert].
  destruct (sk_names _ _ _ Hok) as (m & Hh & Hm).
  assert (Habsent : forall p, m !! s = Some p \/ m !! s = None -> (m !! s = Some p -> p ∉ ps) ->
    list_find (fun x : string * Z => x.1 = s) l = None).
  { intros p Hs Hp. apply list_find_None, Forall_lookup_2. intros j [t d] Hj Ht. cbn in Ht. subst t.
    destruct (pointer_at _ _ _ _ _ _ Hok Hj) as [q Hq]. pose proof (nk_listed _ _ _ _ Hm _ _ _ _ Hq Hj) as E.
    destruct Hs as [Hs|Hs]; [|congruence]. apply (Hp Hs). rewrite Hs in E. injection E as ->.
    by eapply list_elem_of_lookup_2. }
  destruct (m !! s) as [p|] eqn:Hs.
  - rewrite (st_found (es_heap tab) (es_table tab) m s true copy p Hh Hmax Hs). cbn [rbind].
    destruct (st_entry _ _ _ _ _ Hh Hs) as (e & He & Hse). cbn in Hse.
    replace (mk_strtab _ _ _ _ _ _ _) with tab by (by destruct tab).
    destruct (decide (p ∈ ps)) as [[i Hi]%list_elem_of_lookup|Hp].
    + destruct (listed_at _ _ _ _ _ Hok Hi) as (t & c & Hl).
      destruct (sk_entry _ _ _ Hok _ _ _ _ Hi Hl) as [h E]. rewrite He in E. injection E as ->. cbn in Hse. subst t.
      rewrite (list_find_string _ _ _ _ _ _ Hok Hl).
      pose proof (Forall_lookup_1 _ _ _ _ Hc Hl) as Hb. cbn in Hb.
      destruct (enter_listed _ _ _ _ _ _ _ Hok Hi Hl Hb) as (tab' & E & Hok' & ? & ?).
      exists tab', ps. split; [done|]. split; [done|]. split; [done|lia].
    + rewrite (Habsent p) by auto.
      destruct (append_ok _ _ _ _ _ _ _ Hok Hh Hm Hs He Hp Hgood) as (tab' & E & Hok' & ? & ?).
      exists tab', (ps ++ [p]). split; [done|]. split; [done|]. split; [done|lia].
  - rewrite (Habsent 0%nat) by (by auto).
    destruct (st_create (es_heap tab) (es_table tab) m s copy Hh Hmax Hs) as (t' & E & Hh'). rewrite E. cbn [rbind].
    destruct (new_entry_ok _ _ _ _ _ _ Hok Hmax Hm Hs Hh') as [Hm' Hok'].
    assert (Hp : length (es_heap tab) ∉ ps).
    { intros [i Hi]%list_elem_of_lookup. destruct (listed_at _ _ _ _ _ Hok Hi) as (t & c & Hl).
      destruct (sk_entry _ _ _ Hok _ _ _ _ Hi Hl) as [h He]. apply lookup_lt_Some in He. lia. }
    destruct (append_ok _ _ _ _ s (length (es_heap tab)) (fresh_strent s) Hok' Hh' Hm') as (tab' & E' & Hok'' & Ha & Hl');
      [apply lookup_insert_eq|by apply list_lookup_middle|done|done|].
    exists tab', (ps ++ [length (es_heap tab)]). split; [done|]. split; [done|]. split; [done|].
    rewrite Hl'. cbn. rewrite length_app. cbn. lia.
Qed.

(** ** All counts at once *)

(** Slots from [i] on change, in a table where every slot of [ps] has its entry. *)
Lemma for_slots_ok (f : Z -> strtab_entry -> strtab_entry) (n i : nat) tab ps :
  NoDup ps -> (i + n <= length ps)%nat ->
  (forall j p, ps !! j = Some p -> es_array tab !! S j = Some (Some p) /\ is_Some (es_heap tab !! p)) ->
  exists heap, for_slots f n (Z.of_nat i + 1) tab = Ret (set_heap tab heap)
    /\ length heap = length (es_heap tab)
    /\ (forall q, q ∉ ps -> heap !! q = es_heap tab !! q)
    /\ forall j q, ps !! j = Some q ->
         heap !! q = (if decide (i <= j < i + n)%nat then f (Z.of_nat j + 1) else id) <$> es_heap tab !! q.
Proof.
  intros Hnd. revert i tab. induction n as [|n IH]; intros i tab Hn Hps; cbn [for_slots].
  - exists (es_heap tab). split; [by destruct tab|]. split; [done|]. split; [done|]. intros j q Hq.
    rewrite decide_False by lia. by rewrite option_fmap_id.
  - destruct (lookup_lt_is_Some_2 ps i) as [p Hp]; [lia|]. destruct (Hps _ _ Hp) as [Harray [e He]].
    unfold slot_at. replace (Z.to_nat (Z.of_nat i + 1)) with (S i) by lia. rewrite Harray. cbn [rbind].
    rewrite (get_entry_ret _ _ _ He). cbn [rbind].
    replace (Z.of_nat i + 1 + 1) with (Z.of_nat (S i) + 1) by lia.
    destruct (IH (S i) (update tab p (f (Z.of_nat i + 1)))) as (heap & E & Hlen & Hout & Hin); [lia| |].
    { intros j q Hq. destruct (Hps _ _ Hq) as [? ?]. split; [done|]. cbn.
      destruct (decide (p = q)) as [<-|]; [rewrite list_lookup_alter_eq, He; by eexists|by rewrite list_lookup_alter_ne]. }
    exists heap. split; [exact E|]. split; [rewrite Hlen; cbn; by rewrite length_alter|]. split.
    + intros q Hq. rewrite Hout by done. cbn. apply list_lookup_alter_ne. intros ->. by eapply Hq, list_elem_of_lookup_2.
    + intros j q Hq. rewrite (Hin j q Hq). cbn. destruct (decide (p = q)) as [<-|Hne].
      * pose proof (proj1 (NoDup_alt ps) Hnd _ _ _ Hp Hq) as <-. rewrite list_lookup_alter_eq, He. cbn.
        rewrite decide_False, decide_True by lia. done.
      * rewrite list_lookup_alter_ne by done. f_equal. assert (i <> j) by congruence.
        repeat case_decide; first [done | exfalso; lia].
Qed.

(** The table cut to the first slots, with other counts. *)
Lemma recount_ok tab ps l (counts : list Z) (heap : list strtab_entry) :
  strtab_ok tab ps l -> (length counts <= length l)%nat -> Forall (fun c => 0 <= c < 2 ^ 32) counts ->
  length heap = length (es_heap tab) ->
  (forall q, q ∉ ps -> heap !! q = es_heap tab !! q) ->
  (forall j q c, ps !! j = Some q -> counts !! j = Some c -> heap !! q = set_refcount c <$> es_heap tab !! q) ->
  (forall j q, ps !! j = Some q -> counts !! j = None ->
     heap !! q = (fun e => set_len 0 (set_refcount 0 e)) <$> es_heap tab !! q) ->
  strtab_ok
    (mk_strtab heap (es_table tab) (Z.of_nat (length counts) + 1) (es_alloced tab) (es_sec_size tab) (es_array tab)
       (es_asserts tab))
    (take (length counts) ps) (list_restore counts l).
Proof.
  intros Hok Hn Hc Hlen Hout Hin Hdrop.
  pose proof Hok as [(m & Hh & Hm) Hsize Hps Harray Halen Hall Hheap Hent Hstr Hsec].
  assert (Hroot : forall A (g : strtab_entry -> A), (forall n e, g (set_refcount n e) = g e) ->
    (forall n e, g (set_len n e) = g e) -> g <$> heap = g <$> es_heap tab).
  { intros A g Hg Hg'. apply list_eq. intros q. rewrite !list_lookup_fmap.
    destruct (decide (q ∈ ps)) as [[j Hj]%list_elem_of_lookup|Hq]; [|by rewrite (Hout q Hq)].
    destruct (counts !! j) as [c|] eqn:Hjc; [rewrite (Hin _ _ _ Hj Hjc)|rewrite (Hdrop _ _ Hj Hjc)];
      destruct (es_heap tab !! q); simpl; rewrite ?Hg', ?Hg; done. }
  assert (Hlook : forall j s c, list_restore counts l !! j = Some (s, c) ->
    exists c', l !! j = Some (s, c') /\ counts !! j = Some c).
  { intros j s c Hj. unfold list_restore in Hj. apply lookup_zip_with_Some in Hj as ([s' c'] & d & [= -> ->] & ? & ?).
    by exists c'. }
  assert (Hlr : length (list_restore counts l) = length counts)
    by (unfold list_restore; rewrite length_zip_with; lia).
  split; cbn; try done.
  - exists m. split; [|split].
    + eapply st_update; [exact Hh| |]; by apply Hroot.
    + intros i p s c [Hp _]%lookup_take_Some Hl. destruct (Hlook _ _ _ Hl) as (c' & Hl' & _).
      by apply (nk_listed _ _ _ _ Hm i p s c').
    + intros s p e Hs He Hp. destruct (decide (p ∈ ps)) as [[j Hj]%list_elem_of_lookup|Hq].
      * destruct (counts !! j) as [c|] eqn:Hjc.
        { exfalso. apply Hp. eapply list_elem_of_lookup_2. apply lookup_take_Some. split; [exact Hj|].
          by eapply lookup_lt_Some. }
        rewrite (Hdrop _ _ Hj Hjc) in He. destruct (es_heap tab !! p); [|done]. by injection He as <-.
      * rewrite Hout in He by done. by apply (nk_dropped _ _ _ _ Hm s p).
  - lia.
  - rewrite length_take, Hlr. lia.
  - intros i p [Hp _]%lookup_take_Some. by apply Harray.
  - lia.
  - by rewrite Hlen.
  - intros i p s c [Hp _]%lookup_take_Some Hl. destruct (Hlook _ _ _ Hl) as (c' & Hl' & Hci).
    destruct (Hent _ _ _ _ Hp Hl') as [h E]. exists h. by rewrite (Hin _ _ _ Hp Hci), E.
  - intros i s c Hl. destruct (Hlook _ _ _ Hl) as (c' & Hl' & Hci). split; [by apply (Hstr i s c')|].
    by apply (Forall_lookup_1 _ _ _ _ Hc Hci).
Qed.

Lemma slots_hold tab ps l : strtab_ok tab ps l ->
  forall j p, ps !! j = Some p -> es_array tab !! S j = Some (Some p) /\ is_Some (es_heap tab !! p).
Proof.
  intros Hok j p Hp. split; [by apply (sk_array _ _ _ Hok)|].
  destruct (listed_at _ _ _ _ _ Hok Hp) as (s & c & Hl). destruct (sk_entry _ _ _ Hok _ _ _ _ Hp Hl) as [h E]. by eexists.
Qed.

Lemma restore_all_zero l : list_restore (replicate (length l) 0) l = (fun x : string * Z => (x.1, 0)) <$> l.
Proof. unfold list_restore. induction l as [|x l IH]; cbn; [done|by rewrite IH]. Qed.

Lemma clear_ok tab ps l : strtab_ok tab ps l ->
  exists tab', _bfd_elf_strtab_clear_all_refs tab = Ret tab'
    /\ strtab_ok tab' ps ((fun x : string * Z => (x.1, 0)) <$> l) /\ es_asserts tab' = es_asserts tab
    /\ length (es_heap tab') = length (es_heap tab).
Proof.
  intros Hok. unfold _bfd_elf_strtab_clear_all_refs. pose proof (sk_size _ _ _ Hok) as Hsize.
  pose proof (sk_ps _ _ _ Hok) as Hps. replace (Z.to_nat (es_size tab - 1)) with (length l) by lia.
  destruct (for_slots_ok (fun _ => set_refcount 0) (length l) 0 tab ps) as (heap & E & Hlen & Hout & Hin);
    [by eapply pointers_nodup|lia|by eapply slots_hold|]. change (Z.of_nat 0 + 1) with 1 in E. rewrite E.
  eexists. split; [reflexivity|]. split; [|by split].
  pose proof (recount_ok tab ps l (replicate (length l) 0) heap Hok) as Hr. rewrite length_replicate in Hr.
  rewrite take_ge in Hr by lia. rewrite restore_all_zero, <- Hsize in Hr. apply Hr; [done| |done|done| |].
  - by apply Forall_replicate.
  - intros j q c Hj Hc. apply lookup_replicate in Hc as [-> Hlt]. rewrite (Hin j q Hj), decide_True by lia. done.
  - intros j q Hj Hc. apply lookup_ge_None in Hc. rewrite length_replicate in Hc. apply lookup_lt_Some in Hj. lia.
Qed.

Lemma restore_ok tab ps l (counts : list Z) :
  strtab_ok tab ps l -> (length counts <= length l)%nat -> Forall (fun c => 0 <= c < 2 ^ 32) counts ->
  exists tab', _bfd_elf_strtab_restore tab (mk_save (Z.of_nat (length counts) + 1) counts) = Ret tab'
    /\ strtab_ok tab' (take (length counts) ps) (list_restore counts l) /\ es_asserts tab' = es_asserts tab
    /\ length (es_heap tab') = length (es_heap tab).
Proof.
  intros Hok Hn Hc. unfold _bfd_elf_strtab_restore. pose proof (sk_size _ _ _ Hok) as Hsize.
  pose proof (sk_ps _ _ _ Hok) as Hps. pose proof (pointers_nodup _ _ _ Hok) as Hnd. cbn [sv_size].
  rewrite (sk_sec _ _ _ Hok), Z.eqb_refl. cbn [bfd_assert].
  rewrite (proj2 (Z.leb_le _ _)) by lia. cbn [bfd_assert]. rewrite Z.max_r by lia.
  set (tab1 := mk_strtab _ _ _ _ _ _ _).
  replace (Z.to_nat (Z.of_nat (length counts) + 1 - 1)) with (length counts) by lia.
  replace (Z.to_nat (es_size tab - (Z.of_nat (length counts) + 1))) with (length l - length counts)%nat by lia.
  set (save := mk_save _ _).
  destruct (for_slots_ok (fun idx => set_refcount (saved_refcount save idx)) (length counts) 0 tab1 ps)
    as (heap1 & E1 & Hlen1 & Hout1 & Hin1); [done|lia|by apply (slots_hold tab ps l)|].
  change (Z.of_nat 0 + 1) with 1 in E1. rewrite E1. cbn [rbind].
  destruct (for_slots_ok (fun _ e => set_len 0 (set_refcount 0 e)) (length l - length counts) (length counts)
              (set_heap tab1 heap1) ps) as (heap2 & E2 & Hlen2 & Hout2 & Hin2); [done|lia| |].
  { intros j p Hp. destruct (slots_hold _ _ _ Hok _ _ Hp) as [Ha [e He]]. split; [done|]. cbn.
    rewrite (Hin1 _ _ Hp). cbn. rewrite He. by eexists. }
  rewrite E2. eexists. split; [reflexivity|]. cbn in *.
  split; [|split; [done|by rewrite Hlen2]].
  apply (recount_ok tab ps l); [done|done|done|by rewrite Hlen2| | |].
  - intros q Hq. by rewrite Hout2, Hout1.
  - intros j q c Hj Hc'. pose proof (lookup_lt_Some _ _ _ Hc'). rewrite (Hin2 _ _ Hj), decide_False by lia.
    rewrite option_fmap_id, (Hin1 _ _ Hj), decide_True by lia. unfold saved_refcount. cbn.
    replace (Z.to_nat (Z.of_nat j + 1 - 1)) with j by lia. by rewrite (nth_lookup_Some _ _ _ _ Hc').
  - intros j q Hj Hc'. apply lookup_ge_None in Hc'. pose proof (lookup_lt_Some _ _ _ Hj).
    rewrite (Hin2 _ _ Hj), decide_True by lia. rewrite (Hin1 _ _ Hj), decide_False by lia. by rewrite option_fmap_id.
Qed.

Lemma refcounts_ok tab ps l (n i : nat) : strtab_ok tab ps l -> (i + n <= length l)%nat ->
  refcounts tab n (Z.of_nat i + 1) = Ret (take n (drop i (snd <$> l))).
Proof.
  intros Hok. revert i. induction n as [|n IH]; intros i Hi; [done|]. cbn [refcounts].
  destruct (lookup_lt_is_Some_2 l i) as [[s c] Hl]; [lia|]. destruct (pointer_at _ _ _ _ _ _ Hok Hl) as [p Hp].
  destruct (entry_of_ok _ _ _ _ _ _ _ Hok Hp Hl) as (h & _ & E). rewrite E. cbn [rbind].
  replace (Z.of_nat i + 1 + 1) with (Z.of_nat (S i) + 1) by lia. rewrite IH by lia. cbn [rbind].
  rewrite (drop_S (snd <$> l) c i) by (by rewrite list_lookup_fmap, Hl). done.
Qed.

Lemma save_ok tab ps l : strtab_ok tab ps l ->
  _bfd_elf_strtab_save tab = Ret (Some (mk_save (Z.of_nat (length l) + 1) (snd <$> l))).
Proof.
  intros Hok. unfold _bfd_elf_strtab_save. rewrite Hmem. cbn [negb]. rewrite (sk_size _ _ _ Hok).
  replace (Z.to_nat (Z.of_nat (length l) + 1 - 1)) with (length l) by lia.
  pose proof (refcounts_ok _ _ _ (length l) 0 Hok (le_n _)) as E. change (Z.of_nat 0 + 1) with 1 in E.
  rewrite E, drop_0, take_ge by (by rewrite length_fmap). done.
Qed.

(** ** Sequences of calls *)

Definition strtab_do (c : strtab_call) tab (saves : list strtab_save) : res (Z * elf_strtab T * list strtab_save) :=
  match c with
  | call_add s copy => let! (idx, tab) := _bfd_elf_strtab_add tab s copy in Ret (idx, tab, saves)
  | call_addref idx => let! tab := _bfd_elf_strtab_addref tab idx in Ret (0, tab, saves)
  | call_delref idx => let! tab := _bfd_elf_strtab_delref tab idx in Ret (0, tab, saves)
  | call_refcount idx => let! n := _bfd_elf_strtab_refcount tab idx in Ret (n, tab, saves)
  | call_size => Ret (_bfd_elf_strtab_size tab, tab, saves)
  | call_clear => let! tab := _bfd_elf_strtab_clear_all_refs tab in Ret (0, tab, saves)
  | call_save =>
      let! save := _bfd_elf_strtab_save tab in
      match save with Some save => Ret (0, tab, save :: saves) | None => Fail Foob end
  | call_restore =>
      match saves with
      | [] => Fail Foob
      | save :: saves => let! tab := _bfd_elf_strtab_restore tab save in Ret (0, tab, saves)
      end
  end.

Fixpoint strtab_run (cs : list strtab_call) tab (saves : list strtab_save)
  : res (list Z * elf_strtab T * list strtab_save) :=
  match cs with
  | [] => Ret ([], tab, saves)
  | c :: cs =>
      let! (r, tab, saves) := strtab_do c tab saves in
      let! (rs, tab, saves) := strtab_run cs tab saves in
      Ret (r :: rs, tab, saves)
  end.

(** A snapshot is of a list no longer than the list is when it is used. *)
Fixpoint saves_ok (n : nat) (saves : list (list Z)) : Prop :=
  match saves with
  | [] => True
  | counts :: saves =>
      (length counts <= n)%nat /\ Forall (fun c => 0 <= c < 2 ^ 32) counts /\ saves_ok (length counts) saves
  end.

Lemma saves_ok_le (n n' : nat) (saves : list (list Z)) : (n <= n')%nat -> saves_ok n saves -> saves_ok n' saves.
Proof. destruct saves as [|counts saves]; cbn; [done|]. intros Hn (? & ? & ?). split; [lia|done]. Qed.

Definition snapshot (counts : list Z) : strtab_save := mk_save (Z.of_nat (length counts) + 1) counts.

Lemma counts_below_spec l : counts_below l = true -> Forall (fun x => x.2 + 1 < 2 ^ 32) l.
Proof.
  unfold counts_below. intros H. apply Forall_forall. intros x Hx. apply Z.ltb_lt.
  rewrite forallb_forall in H. apply H, list_elem_of_In, Hx.
Qed.

Lemma no_index_cases (idx : Z) l (n : Z) : no_index idx || has_refs n idx l = true ->
  idx = 0 \/ idx = NO_INDEX \/ listed_idx idx l /\ exists s c, l !! Z.to_nat (idx - 1) = Some (s, c) /\ n <= c.
Proof.
  unfold no_index, has_refs, listed_idx. intros H. apply orb_prop in H as [H|H].
  - apply orb_prop in H as [H|H]; apply Z.eqb_eq in H; auto.
  - destruct (l !! Z.to_nat (idx - 1)) as [[s c]|] eqn:Hl; [|done]. apply andb_prop in H as [H1 H2].
    apply Z.leb_le in H1, H2. right. right. apply lookup_lt_Some in Hl as Hlt. split; [lia|by exists s, c].
Qed.

Lemma list_add_length (s : string) l : (length l <= length (list_add s l).2)%nat.
Proof.
  unfold list_add. destruct (decide (s = EmptyString)); [done|].
  destruct (list_find _ l) as [[i x]|]; cbn; [by rewrite length_alter|rewrite length_app; lia].
Qed.

Lemma list_ref_length (n idx : Z) l : length (list_ref n idx l) = length l.
Proof. unfold list_ref. destruct (_ || _); [done|apply length_alter]. Qed.

(** One call computes the list's answer and the list's next state. *)
Lemma do_list tab ps l (saves : list (list Z)) (c : strtab_call) (r : Z) l' (saves' : list (list Z)) :
  strtab_ok tab ps l -> saves_ok (length l) saves -> Z.of_nat (length (es_heap tab)) < max_entries ->
  list_call c l saves = Some (r, l', saves') ->
  exists tab' ps', strtab_do c tab (snapshot <$> saves) = Ret (r, tab', snapshot <$> saves')
    /\ strtab_ok tab' ps' l' /\ saves_ok (length l') saves' /\ es_asserts tab' = es_asserts tab
    /\ (length (es_heap tab') <= S (length (es_heap tab)))%nat.
Proof.
  intros Hok Hsaves Hmax Hc. destruct c as [s copy|idx|idx|idx| | | |]; cbn [list_call strtab_do] in *.
  - destruct (_ && _) eqn:Hg in Hc; [|done]. injection Hc as <- <- <-. apply andb_prop in Hg as [Hs Hb].
    apply Z.ltb_lt in Hs. destruct (add_ok tab ps l s copy Hok Hmax) as (tab' & ps' & E & Hok' & Ha & Hl).
    { unfold good_string. destruct (decide (s = EmptyString)); auto. }
    { by apply counts_below_spec. }
    rewrite E. exists tab', ps'. cbn. split; [done|]. split; [done|]. split; [|done].
    by eapply saves_ok_le; [apply list_add_length|].
  - destruct (_ && _) eqn:Hg in Hc; [|done]. injection Hc as <- <- <-. apply andb_prop in Hg as [Hi Hb].
    apply no_index_cases in Hi. destruct (addref_ok tab ps l idx Hok) as (tab' & E & Hok' & Ha & Hl).
    { destruct Hi as [?|[?|[? _]]]; auto. }
    { by apply counts_below_spec. }
    rewrite E. exists tab', ps. cbn. rewrite list_ref_length. conjs.
  - destruct (_ || _) eqn:Hi in Hc; [|done]. injection Hc as <- <- <-.
    apply no_index_cases in Hi. destruct (delref_ok tab ps l idx Hok) as (tab' & E & Hok' & Ha & Hl).
    { destruct Hi as [?|[?|[? (s & c & ? & ?)]]]; [by auto..|]. right. right. split; [done|]. exists s, c. split; [done|lia]. }
    rewrite E. exists tab', ps. cbn. rewrite list_ref_length. conjs.
  - destruct (l !! Z.to_nat (idx - 1)) as [[s n]|] eqn:Hl; [|done]. destruct (Z.leb_spec 1 idx); [|done].
    injection Hc as <- <- <-. rewrite (refcount_ok tab ps l idx s n) by done. exists tab, ps. conjs.
  - injection Hc as <- <- <-. exists tab, ps. unfold _bfd_elf_strtab_size.
    rewrite (sk_sec _ _ _ Hok), (sk_size _ _ _ Hok). conjs.
  - injection Hc as <- <- <-. destruct (clear_ok tab ps l Hok) as (tab' & E & Hok' & Ha & Hl). rewrite E.
    exists tab', ps. cbn. rewrite length_fmap. conjs.
  - injection Hc as <- <- <-. rewrite (save_ok tab ps l Hok). exists tab, ps. cbn. rewrite length_fmap.
    unfold snapshot at 2. rewrite length_fmap. split; [done|]. split; [done|]. split; [|by auto]. split; [done|].
    split; [|done]. apply Forall_fmap, Forall_forall. intros [s n] [i Hi]%list_elem_of_lookup. by apply (sk_string _ _ _ Hok i s n).
  - destruct saves as [|counts saves]; [done|]. injection Hc as <- <- <-. destruct Hsaves as (Hle & Hcs & Hss). cbn.
    destruct (restore_ok tab ps l counts Hok Hle Hcs) as (tab' & E & Hok' & Ha & Hl). unfold snapshot at 1. rewrite E.
    eexists tab', _. cbn. split; [done|]. split; [done|]. unfold list_restore. rewrite length_zip_with.
    split; [by rewrite Nat.min_r|]. split; [done|lia].
Qed.

Lemma run_list tab ps l (saves : list (list Z)) (cs : list strtab_call) (rs : list Z) l' (saves' : list (list Z)) :
  strtab_ok tab ps l -> saves_ok (length l) saves -> Z.of_nat (length (es_heap tab) + length cs) <= max_entries ->
  list_calls cs l saves = Some (rs, l', saves') ->
  exists tab' ps', strtab_run cs tab (snapshot <$> saves) = Ret (rs, tab', snapshot <$> saves')
    /\ strtab_ok tab' ps' l' /\ es_asserts tab' = es_asserts tab.
Proof.
  revert tab ps l saves rs. induction cs as [|c cs IH]; intros tab ps l saves rs Hok Hsaves Hmax Hc; cbn in Hc.
  - injection Hc as <- <- <-. by exists tab, ps.
  - destruct (list_call c l saves) as [[[r l1] saves1]|] eqn:H1; [|done].
    destruct (list_calls cs l1 saves1) as [[[rs1 l2] saves2]|] eqn:H2; [|done]. injection Hc as <- -> ->. cbn in Hmax.
    destruct (do_list _ _ _ _ _ _ _ _ Hok Hsaves ltac:(lia) H1) as (tab1 & ps1 & E1 & Hok1 & Hs1 & Ha1 & Hl1).
    destruct (IH tab1 ps1 l1 saves1 rs1 Hok1 Hs1 ltac:(lia) H2) as (tab2 & ps2 & E2 & Hok2 & Ha2).
    exists tab2, ps2. cbn [strtab_run]. rewrite E1. cbn [rbind]. rewrite E2. cbn [rbind]. split; [done|].
    split; [done|congruence].
Qed.

Lemma init_ok (t : T) : st_holds [] t ∅ ->
  exists tab, _bfd_elf_strtab_init (Some t) = Some tab /\ strtab_ok tab [] [] /\ es_asserts tab = 0%nat
    /\ es_heap tab = [].
Proof.
  intros Ht. unfold _bfd_elf_strtab_init. rewrite !Hmem. cbn [negb]. eexists. split; [reflexivity|].
  split; [|done]. split; try done. by exists ∅.
Qed.

(** C19.  A string table is a list of strings with reference counts: while memory lasts,
    any sequence of up to 2^28 of elf-strtab.c's calls that makes sense on the list (an
    index is in it, no count drops below zero or passes 32 bits, a restore goes back
    to the newest snapshot) returns exactly what the list gives, starting from a
    new table: strings keep their index, a string entered twice has one, and a
    restore forgets what came after the save, whether or not the array grew.  No
    assertion fails. *)
Theorem strtab_refines_list (t : T) (cs : list strtab_call) (rs : list Z) l (saves : list (list Z)) :
  st_holds [] t ∅ -> Z.of_nat (length cs) <= max_entries -> list_calls cs [] [] = Some (rs, l, saves) ->
  exists tab tab' ps, _bfd_elf_strtab_init (Some t) = Some tab
    /\ strtab_run cs tab [] = Ret (rs, tab', snapshot <$> saves)
    /\ strtab_ok tab' ps l /\ es_asserts tab' = 0%nat.
Proof.
  intros Ht Hmax Hc. destruct (init_ok t Ht) as (tab & Ei & Hok & Ha & Hh). exists tab.
  destruct (run_list tab [] [] [] cs rs l saves Hok) as (tab' & ps & E & Hok' & Ha'); [done|by rewrite Hh|done|].
  exists tab', ps. split; [done|]. split; [done|]. split; [done|congruence].
Qed.
End strtab.

(** ** Witness *)

Definition enough : Memory := fun _ => true.
Definition strtab_ops : StringTable strtab_entry bfd_hash_table :=
  bfd_string_table (memory := enough) (elf_strtab_hash_newfunc (memory := enough)).

Definition strtab_laws : StringTableLaws (ops := strtab_ops) strtab_entry bfd_hash_table fresh_strent.
Proof.
  apply (bfd_table_laws (memory := enough) (elf_strtab_hash_newfunc (memory := enough))); [done|].
  intros s. by exists blank_strent.
Defined.

Definition new_names : bfd_hash_table := mk_table (replicate 31 []) 31 0 false.

Lemma new_names_hold : st_holds (StringTableLaws := strtab_laws) [] new_names ∅.
Proof. by apply (bfd_hash_table_init_holds (memory := enough) (elf_strtab_hash_newfunc (memory := enough)) [] 31). Qed.

(** Strings entered twice, dropped by a restore, entered again at another index. *)
Definition demo_strtab : list strtab_call :=
  [call_add "main" true; call_add "printf" true; call_add "main" false; call_delref 2; call_save;
   call_add "libfoo" true; call_add "f" true; call_add "printf" true; call_restore; call_size; call_refcount 2;
   call_add "f" true; call_add "libfoo" true; call_size; call_refcount 1; call_add "" true].

Lemma strtab_refines_list_witness :
  list_calls demo_strtab [] []
  = Some ([1; 2; 1; 0; 0; 3; 4; 2; 0; 3; 0; 3; 4; 5; 2; 0], [("main", 2); ("printf", 0); ("f", 1); ("libfoo", 1)], [])
  /\ exists tab tab' ps, _bfd_elf_strtab_init (memory := enough) (Some new_names) = Some tab
       /\ strtab_run (ops := strtab_ops) (memory := enough) demo_strtab tab []
          = Ret ([1; 2; 1; 0; 0; 3; 4; 2; 0; 3; 0; 3; 4; 5; 2; 0], tab', [])
       /\ strtab_ok (laws := strtab_laws) tab' ps [("main", 2); ("printf", 0); ("f", 1); ("libfoo", 1)]
       /\ es_asserts tab' = 0%nat.
Proof.
  split; [vm_compute; reflexivity|].
  apply (strtab_refines_list (ops := strtab_ops) (memory := enough) (laws := strtab_laws) (fun _ => eq_refl) new_names
           demo_strtab _ _ []); [exact new_names_hold|vm_compute; discriminate|vm_compute; reflexivity].
Defined.
