(* ===== verification/StrtabMerge.v ===== *)
(** * Finalizing a string table

    The passes of [_bfd_elf_strtab_finalize] (ElfStrtab.v), one lemma each: the used
    strings are collected, sorted from their ends and merged, the kept ones placed
    one after the other, the others placed inside them. *)
From stdpp Require Import sorting functions.
From S2P Require Import Prelude BfdHash ElfStrtab StrtabSort StrtabList.
#[local] Open Scope Z_scope.

Definition strlen (s : string) : Z := Z.of_nat (String.length s).

Section strtab.
  Context {T : Type} {ops : StringTable strtab_entry T} {memory : Memory}.
  Context {laws : StringTableLaws strtab_entry T fresh_strent}.
  Context (Hmem : forall n, has_memory n = true).
  Implicit Types (tab : elf_strtab T) (heap : list strtab_entry) (len : nat -> Z) (us : nat -> strtab_u).

  (** The entries in the slots, their strings and their counts. *)
  Context (ps : list nat) (name : nat -> string) (cnt : nat -> Z).
  Context (Hnodup : NoDup ps).
  Context (Hgood : forall p, p ∈ ps -> good_string (name p)).
  Context (Hname : forall p q, p ∈ ps -> q ∈ ps -> name p = name q -> p = q).

(** [len] and [u] of every entry. *)
Record view tab heap len us : Prop := {
  vw_array : forall i p, ps !! i = Some p -> es_array tab !! S i = Some (Some p);
  vw_entry : forall p, p ∈ ps -> exists h, heap !! p = Some (mk_strent (name p) h (len p) (cnt p) (us p))
}.

Lemma view_at tab heap len us (i p : nat) : view tab heap len us -> ps !! i = Some p ->
  exists h, entry_of (set_heap tab heap) (Z.of_nat i + 1) = Ret (p, mk_strent (name p) h (len p) (cnt p) (us p)).
Proof.
  intros Hv Hp. destruct (vw_entry _ _ _ _ Hv p) as [h E]; [by eapply list_elem_of_lookup_2|]. exists h.
  unfold entry_of, slot_at. replace (Z.to_nat (Z.of_nat i + 1)) with (S i) by lia. cbn.
  rewrite (vw_array _ _ _ _ Hv _ _ Hp). cbn. by rewrite (get_entry_ret _ _ _ E).
Qed.

Lemma view_alter tab heap len us (p : nat) (n : Z) (u : strtab_u) (f : strtab_entry -> strtab_entry) :
  view tab heap len us ->
  (forall h, f (mk_strent (name p) h (len p) (cnt p) (us p)) = mk_strent (name p) h n (cnt p) u) ->
  view tab (alter f p heap) (<[p := n]> len) (<[p := u]> us).
Proof.
  intros [Ha He] Hf. split; [done|]. intros q Hq. destruct (He q Hq) as [h E]. exists h.
  destruct (decide (p = q)) as [<-|Hne].
  - rewrite list_lookup_alter_eq, E, !fn_lookup_insert. cbn. by rewrite Hf.
  - by rewrite list_lookup_alter_ne, !fn_lookup_insert_ne.
Qed.

Lemma view_ext tab heap len us len' us' : view tab heap len us ->
  (forall p, p ∈ ps -> len p = len' p /\ us p = us' p) -> view tab heap len' us'.
Proof. intros [Ha He] Heq. split; [done|]. intros p Hp. destruct (Heq p Hp) as [<- <-]. by apply He. Qed.

Lemma view_set_len tab heap len us (p : nat) (n : Z) :
  view tab heap len us -> view tab (alter (set_len n) p heap) (<[p := n]> len) us.
Proof.
  intros Hv. eapply view_ext; [eapply (view_alter _ _ _ _ p n (us p)); [exact Hv|done]|].
  intros q _. split; [done|]. destruct (decide (p = q)) as [<-|]; [by rewrite fn_lookup_insert|by rewrite fn_lookup_insert_ne].
Qed.

Lemma view_set_u tab heap len us (p : nat) (u : strtab_u) :
  view tab heap len us -> view tab (alter (set_u u) p heap) len (<[p := u]> us).
Proof.
  intros Hv. eapply view_ext; [eapply (view_alter _ _ _ _ p (len p) u); [exact Hv|done]|].
  intros q _. split; [|done]. destruct (decide (p = q)) as [<-|]; [by rewrite fn_lookup_insert|by rewrite fn_lookup_insert_ne].
Qed.

(** ** Collecting *)

Definition used (p : nat) : bool := negb (cnt p =? 0).

Lemma collect_ok (n i : nat) tab heap len us :
  (i + n = length ps)%nat -> view tab heap len us ->
  (forall p, p ∈ drop i ps -> len p = strlen (name p) + 1) ->
  exists heap' len',
    collect n (Z.of_nat i + 1) (set_heap tab heap) = Ret (List.filter used (drop i ps), set_heap tab heap')
    /\ view tab heap' len' us
    /\ (forall p, p ∈ drop i ps -> len' p = if used p then strlen (name p) else 0)
    /\ (forall p, p ∉ drop i ps -> len' p = len p).
Proof.
  revert i heap len. induction n as [|n IH]; intros i heap len Hi Hv Hlen; cbn [collect].
  - exists heap, len. rewrite drop_ge by lia. split; [done|]. split; [done|]. split; [|done]. intros p Hp. by inversion Hp.
  - destruct (lookup_lt_is_Some_2 ps i) as [p Hp]; [lia|]. pose proof (list_elem_of_lookup_2 _ _ _ Hp) as Hin.
    destruct (view_at _ _ _ _ _ _ Hv Hp) as [h E]. rewrite E. cbn [rbind se_refcount se_len].
    rewrite (drop_S _ _ _ Hp). cbn [List.filter].
    assert (Hout : p ∉ drop (S i) ps).
    { intros [j Hj]%list_elem_of_lookup. rewrite lookup_drop in Hj.
      pose proof (proj1 (NoDup_alt ps) Hnodup _ _ _ Hp Hj). lia. }
    rewrite (drop_S _ _ _ Hp) in Hlen. pose proof (Hgood p Hin) as [_ Hlong]. unfold strlen in *.
    replace (Z.of_nat i + 1 + 1) with (Z.of_nat (S i) + 1) by lia.
    set (n' := if used p then Z.of_nat (String.length (name p)) else 0).
    destruct (IH (S i) (alter (set_len n') p heap) (<[p := n']> len)) as (heap' & len' & E' & Hv' & Hin' & Hout');
      [lia|by apply view_set_len| |].
    { intros q Hq. rewrite fn_lookup_insert_ne by congruence. apply Hlen. by right. }
    exists heap', len'. split; [|split; [done|split]].
    + unfold used in *. destruct (Z.eqb_spec (cnt p) 0); cbn [negb] in *; [exact E'|].
      rewrite (Hlen p), s32_small by (by left || lia).
      replace (Z.of_nat (String.length (name p)) + 1 - 1) with n' by (unfold n'; lia).
      change (update (set_heap tab heap) p (set_len n')) with (set_heap tab (alter (set_len n') p heap)).
      rewrite E'. done.
    + intros q [->|Hq]%elem_of_cons; [|by apply Hin']. rewrite Hout' by done. by rewrite fn_lookup_insert.
    + intros q Hq. apply not_elem_of_cons in Hq as [Hne Hq]. rewrite Hout' by done. by rewrite fn_lookup_insert_ne.
Qed.

(** ** Merging *)

Definition above (p q : nat) : Prop := lexle (rev_chars (name p)) (rev_chars (name q)).
Definition ends (p q : nat) : Prop := chars (name p) `suffix_of` chars (name q).

Definition kept len (q : nat) : Prop := len q = strlen (name q) + 1.
Definition merged_into len us (q t : nat) : Prop :=
  len q = - (strlen (name q) + 1) /\ us q = u_suffix t /\ kept len t /\ t <> q /\ ends q t.

Lemma ends_above (p q : nat) : ends p q -> above p q.
Proof. intros H. by apply lexle_prefix, suffix_rev. Qed.

Lemma above_both (p q : nat) : p ∈ ps -> q ∈ ps -> above p q -> above q p -> p = q.
Proof.
  intros Hp Hq Hpq Hqp. apply Hname; [done|done|]. apply chars_inj, (inj reverse), lexcmp_eq.
  unfold above, lexle, rev_chars in *. rewrite lexcmp_opp in Hqp. lia.
Qed.

(** A string that lies between one and its extension is another extension. *)
Lemma ends_between (p q t : nat) : ends p t -> above p q -> above q t -> ends p q.
Proof. unfold ends, above. rewrite !suffix_rev. apply lexle_between. Qed.

Lemma ends_shorter (p q : nat) : p ∈ ps -> q ∈ ps -> ends p q -> p <> q -> (String.length (name p) < String.length (name q))%nat.
Proof.
  intros Hp Hq [k Hk] Hne. pose proof (f_equal length Hk) as Hl. rewrite length_app, !string_chars_length in Hl.
  destruct k; [|cbn in Hl; lia]. exfalso. apply Hne, Hname; [done|done|]. by apply chars_inj.
Qed.

Lemma is_suffix_ends (p q : nat) (A B : strtab_entry) : p ∈ ps -> q ∈ ps -> p <> q ->
  se_string A = name q -> se_string B = name p -> se_len A = strlen (name q) + 1 -> se_len B = strlen (name p) + 1 ->
  is_suffix A B = true <-> ends p q.
Proof.
  intros Hp Hq Hne HA HB HlA HlB. rewrite is_suffix_spec by (by rewrite ?HA, ?HB). rewrite HA, HB. split; [by intros [? _]|].
  intros He. split; [done|by apply ends_shorter].
Qed.

Definition merge_result (e : nat) (rest : list nat) len len' us us' : Prop :=
  (forall q, q ∉ rest -> len' q = len q /\ us' q = us q)
  /\ (forall q, q ∈ rest -> kept len' q /\ us' q = us q \/ exists t, t ∈ e :: rest /\ merged_into len' us' q t)
  /\ (forall p q, p ∈ rest -> kept len' p -> q ∈ ps -> p <> q -> above e q \/ q ∈ rest /\ kept len' q -> ~ ends p q).

Lemma above_refl (p : nat) : above p p.
Proof. apply ends_above. by exists []. Qed.

(** One more string at the front, merged or kept. *)
Lemma merge_result_merged (e c : nat) (rest : list nat) len len2 len' us us2 us' :
  c ∈ ps -> c ∉ rest -> e ∉ c :: rest -> kept len e -> ends c e ->
  len2 c = - (strlen (name c) + 1) -> us2 c = u_suffix e -> (forall q, q <> c -> len2 q = len q /\ us2 q = us q) ->
  merge_result e rest len2 len' us2 us' -> merge_result e (c :: rest) len len' us us'.
Proof.
  intros Hc Hcr Her He Hends Hlc Huc Hother (Hout & Hres & Hmax). apply not_elem_of_cons in Her as [Hec Her].
  destruct (Hout c Hcr) as [Hlc' Huc'], (Hout e Her) as [Hle' _], (Hother e Hec) as [Hle _].
  assert (Hnk : ~ kept len' c) by (unfold kept, strlen in *; lia).
  split; [|split].
  - intros q Hq. apply not_elem_of_cons in Hq as [Hqc Hq]. destruct (Hout q Hq) as [-> ->]. by apply Hother.
  - intros q [->|Hq]%elem_of_cons.
    + right. exists e. split; [left|]. unfold merged_into, kept in *. repeat split; [congruence|congruence|congruence|done|done].
    + destruct (Hres q Hq) as [[Hk Hu]|(t & Ht & Hm)].
      * left. split; [done|]. rewrite Hu. apply Hother. by intros ->.
      * right. exists t. split; [|done]. apply elem_of_cons in Ht as [->|Ht]; [left|by do 2 right].
  - intros p q [->|Hp]%elem_of_cons Hkp; [done|]. intros Hq Hpq [Hab|[[->|Hqr]%elem_of_cons Hkq]]; [by apply Hmax; auto|done|].
    by apply Hmax; auto.
Qed.

Lemma merge_result_kept (e c : nat) (rest : list nat) len len1 len' us us' :
  c ∈ ps -> c ∉ rest -> ~ ends c e -> above c e -> Forall (fun q => above q c) rest ->
  kept len1 c -> (forall q, q <> c -> len1 q = len q) ->
  merge_result c rest len1 len' us us' -> merge_result e (c :: rest) len len' us us'.
Proof.
  intros Hc Hcr Hends Hce Hrest Hlc Hother (Hout & Hres & Hmax). destruct (Hout c Hcr) as [Hlc' Huc'].
  split; [|split].
  - intros q Hq. apply not_elem_of_cons in Hq as [Hqc Hq]. destruct (Hout q Hq) as [-> ->]. split; [by apply Hother|done].
  - intros q [->|Hq]%elem_of_cons.
    + left. unfold kept in *. split; [congruence|done].
    + destruct (Hres q Hq) as [Hk|(t & Ht & Hm)]; [by left|]. right. exists t. split; [by right|done].
  - intros p q [->|Hp]%elem_of_cons Hkp Hq Hpq Hcase.
    + intros Hcq. destruct Hcase as [Hab|[[->|Hqr]%elem_of_cons Hkq]]; [|done|].
      * apply Hends. by eapply ends_between.
      * apply Hpq, above_both; [done|done|by apply ends_above|]. by apply (proj1 (Forall_forall _ _) Hrest).
    + apply Hmax; [done..|]. destruct Hcase as [Hab|[[->|Hqr]%elem_of_cons Hkq]].
      * left. by eapply lexle_trans.
      * left. apply above_refl.
      * by right.
Qed.

Lemma merge_suffixes_ok (rest : list nat) (e : nat) tab heap len us :
  view tab heap len us -> Forall (fun q => q ∈ ps) (e :: rest) -> NoDup (e :: rest) ->
  StronglySorted (fun p q => above q p) (e :: rest) -> kept len e -> (forall q, q ∈ rest -> len q = strlen (name q)) ->
  exists heap' len' us', merge_suffixes e rest (set_heap tab heap) = Ret (set_heap tab heap')
    /\ view tab heap' len' us' /\ merge_result e rest len len' us us'.
Proof.
  revert e heap len us. induction rest as [|c rest IH]; intros e heap len us Hv Hin Hnd Hsort He Hlen.
  { exists heap, len, us. split; [done|]. split; [done|]. split; [done|]. split; intros ? **; by set_solver. }
  cbn [merge_suffixes].
  apply Forall_cons in Hin as [Hein [Hcin Hrin]%Forall_cons].
  pose proof (Hgood c Hcin) as [_ Hclong]. pose proof (Hgood e Hein) as [_ Helong]. unfold strlen in *.
  assert (Hne : c <> e) by (intros ->; apply NoDup_cons in Hnd as [Hnd _]; apply Hnd; left).
  assert (Hcr : c ∉ rest) by (apply NoDup_cons in Hnd as [_ Hnd]; by apply NoDup_cons in Hnd as [Hnd _]).
  destruct (vw_entry _ _ _ _ Hv c Hcin) as [hc Ec]. cbn [es_heap set_heap]. rewrite (get_entry_ret _ _ _ Ec).
  cbn [rbind se_len]. rewrite (Hlen c), s32_small by (by left || lia).
  set (n := Z.of_nat (String.length (name c)) + 1) in *.
  change (es_heap (update (set_heap tab heap) c (set_len n))) with (alter (set_len n) c heap).
  pose proof (view_set_len _ _ _ _ c n Hv) as Hv1. set (heap1 := alter (set_len n) c heap) in *.
  set (len1 := <[c := n]> len) in *.
  assert (Hl1c : len1 c = n) by apply fn_lookup_insert.
  assert (Hl1 : forall q, q <> c -> len1 q = len q) by (intros q Hq; by apply fn_lookup_insert_ne).
  destruct (vw_entry _ _ _ _ Hv1 e Hein) as [he Ee]. rewrite (get_entry_ret _ _ _ Ee). cbn [rbind].
  destruct (vw_entry _ _ _ _ Hv1 c Hcin) as [hc1 Ec1]. rewrite (get_entry_ret _ _ _ Ec1). cbn [rbind].
  rewrite Hl1c, (Hl1 e) in * by done.
  assert (Hsuf : forall A B, A = mk_strent (name e) he (len e) (cnt e) (us e) -> B = mk_strent (name c) hc1 n (cnt c) (us c) ->
    is_suffix A B = true <-> ends c e).
  { intros A B -> ->. by apply is_suffix_ends. }
  apply StronglySorted_inv in Hsort as [Hsort Habove]. apply Forall_cons in Habove as [Hce Hrest_e].
  pose proof (StronglySorted_inv Hsort) as [Hsort' Hrest_c].
  destruct (is_suffix _ _) eqn:His.
  - apply (proj1 (Hsuf _ _ eq_refl eq_refl)) in His.
    destruct (IH e (alter (fun x => set_len (s32 (- se_len x)) (set_u (u_suffix e) x)) c heap1)
                (<[c := - n]> len1) (<[c := u_suffix e]> us)) as (heap' & len' & us' & E & Hv' & Hout & Hres & Hmax).
    + eapply view_alter; [exact Hv1|]. intros h. cbn. rewrite Hl1c, s32_small by lia. done.
    + by constructor.
    + apply NoDup_cons in Hnd as [Hout Hnd]. apply NoDup_cons in Hnd as [_ Hnd]. constructor; [|done].
      by intros ?%(list_elem_of_further _ c).
    + by constructor.
    + unfold kept. rewrite fn_lookup_insert_ne, Hl1 by done. exact He.
    + intros q Hq. rewrite fn_lookup_insert_ne, Hl1 by (by intros ->).  apply Hlen. by right.
    + exists heap', len', us'. split; [exact E|]. split; [done|].
      eapply merge_result_merged; [done|done| | | | | | |done].
      * by apply NoDup_cons in Hnd as [Hnd _].
      * exact He.
      * exact His.
      * by rewrite fn_lookup_insert.
      * by rewrite fn_lookup_insert.
      * intros q Hq. by rewrite !fn_lookup_insert_ne, Hl1.
  - assert (Hno : ~ ends c e) by (intros H; by rewrite (proj2 (Hsuf _ _ eq_refl eq_refl) H) in His).
    destruct (IH c heap1 len1 us) as (heap' & len' & us' & E & Hv' & Hres); [done|by constructor| |by constructor|done| |].
    + by apply NoDup_cons in Hnd as [_ Hnd].
    + intros q Hq. rewrite Hl1 by (by intros ->). apply Hlen. by right.
    + exists heap', len', us'. split; [exact E|]. split; [done|]. by eapply merge_result_kept.
Qed.

Lemma sorted_reverse (l : list nat) : StronglySorted above l -> StronglySorted (fun p q => above q p) (reverse l).
Proof.
  induction 1 as [|x l Hl IH Hx]; [constructor|]. rewrite reverse_cons. apply StronglySorted_app.
  split; [|split; [done|by repeat constructor]]. intros p q Hp Hq. apply list_elem_of_singleton in Hq as ->.
  rewrite elem_of_reverse in Hp. by apply (proj1 (Forall_forall _ _) Hx).
Qed.

(** Every one of the strings is kept or is the end of one that is; no kept one is the
    end of another. *)
Definition all_merged (l : list nat) len us len' us' : Prop :=
  (forall q, q ∉ l -> len' q = len q /\ us' q = us q)
  /\ (forall q, q ∈ l -> kept len' q /\ us' q = us q \/ exists t, t ∈ l /\ merged_into len' us' q t)
  /\ (forall p q, p ∈ l -> q ∈ l -> kept len' p -> kept len' q -> p <> q -> ~ ends p q).

Lemma merge_sorted_ok (l : list nat) tab heap len us :
  view tab heap len us -> Forall (fun q => q ∈ ps) l -> NoDup l -> StronglySorted above l ->
  (forall q, q ∈ l -> len q = strlen (name q)) ->
  exists heap' len' us', merge_sorted l (set_heap tab heap) = Ret (set_heap tab heap')
    /\ view tab heap' len' us' /\ all_merged l len us len' us'.
Proof.
  intros Hv Hin Hnd Hsort Hlen. unfold merge_sorted. apply sorted_reverse in Hsort.
  rewrite <- (reverse_Permutation l) in Hnd. apply Forall_reverse in Hin.
  assert (Hmem' : forall q, q ∈ l <-> q ∈ reverse l) by (intros q; by rewrite elem_of_reverse).
  destruct (reverse l) as [|e rest].
  { exists heap, len, us. split; [done|]. split; [done|]. split; [done|].
    split; [intros q Hq|intros p q Hq]; apply Hmem' in Hq; by inversion Hq. }
  pose proof Hin as [He _]%Forall_cons. pose proof Hnd as [Her _]%NoDup_cons.
  destruct (vw_entry _ _ _ _ Hv e He) as [h E]. cbn [es_heap set_heap]. rewrite (get_entry_ret _ _ _ E). cbn [rbind se_len].
  pose proof (Hgood e He) as [_ Hlong]. rewrite (Hlen e) by (apply Hmem'; left).
  unfold strlen. rewrite s32_small by lia.
  destruct (merge_suffixes_ok rest e tab (alter (set_len (strlen (name e) + 1)) e heap)
              (<[e := strlen (name e) + 1]> len) us) as (heap' & len' & us' & E' & Hv' & Hout & Hres & Hmax);
    [by apply view_set_len|done|done|done|unfold kept; apply fn_lookup_insert| |].
  { intros q Hq. rewrite fn_lookup_insert_ne by (by intros ->). apply Hlen, Hmem'. by right. }
  exists heap', len', us'. split; [exact E'|]. split; [done|].
  destruct (Hout e Her) as [Hle Hue]. rewrite fn_lookup_insert in Hle. split; [|split].
  - intros q Hq. rewrite Hmem' in Hq. apply not_elem_of_cons in Hq as [Hqe Hq]. destruct (Hout q Hq) as [-> ->].
    by rewrite fn_lookup_insert_ne.
  - intros q Hq. apply Hmem' in Hq. apply elem_of_cons in Hq as [->|Hq]; [by left|].
    destruct (Hres q Hq) as [Hk|(t & Ht & Hm)]; [by left|]. right. exists t. split; [by apply Hmem'|done].
  - intros p q Hp Hq Hkp Hkq Hpq. apply Hmem' in Hp, Hq. rewrite Forall_forall in Hin.
    apply elem_of_cons in Hp as [->|Hp]; apply elem_of_cons in Hq as [->|Hq]; [done| | |].
    + (* [e] is above the rest *) intros Hends. apply StronglySorted_inv in Hsort as [_ Hrest]. rewrite Forall_forall in Hrest.
      apply Hpq, above_both; [done|apply Hin; by right|by apply ends_above|by apply Hrest].
    + apply Hmax; [done|done|done|done|]. left. apply above_refl.
    + apply Hmax; [done|done|apply Hin; by right|done|]. by right.
Qed.

(** The comparison function sorts the collected strings from their ends. *)
Lemma qsort_ok (l : list nat) tab heap len us : view tab heap len us -> Forall (fun q => q ∈ ps) l ->
  (forall q, q ∈ l -> len q = strlen (name q)) -> StronglySorted above (qsort heap l).
Proof.
  intros Hv Hin Hlen. unfold qsort.
  assert (Heq : forall p q, p ∈ l -> q ∈ l -> sorted_before heap p q <-> above p q).
  { intros p q Hp Hq. rewrite Forall_forall in Hin. unfold sorted_before, pointed, above.
    destruct (vw_entry _ _ _ _ Hv p (Hin p Hp)) as [hp Ep], (vw_entry _ _ _ _ Hv q (Hin q Hq)) as [hq Eq].
    rewrite !(nth_lookup_Some _ _ _ _ Ep), !(nth_lookup_Some _ _ _ _ Eq).
    pose proof (Hgood p (Hin p Hp)) as [_ ?]. pose proof (Hgood q (Hin q Hq)) as [_ ?].
    apply strrevcmp_spec; cbn; rewrite Hlen by done; unfold strlen; lia. }
  pose proof (merge_sort_on (fun q => q ∈ l) (sorted_before heap) l) as Hs.
  assert (Hk : forall q, q ∈ merge_sort (sorted_before heap) l -> q ∈ l) by (intros q; by rewrite merge_sort_Permutation).
  revert Hs Hk. generalize (merge_sort (sorted_before heap) l). intros k Hs Hk.
  assert (Hsorted : StronglySorted (sorted_before heap) k).
  { apply Hs; [by apply Forall_forall| |].
    - intros p q Hp Hq. rewrite !Heq by done. apply lexle_total.
    - intros p q r Hp Hq Hr. rewrite !Heq by done. apply lexle_trans. }
  clear Hs. induction Hsorted as [|x k Hsort IH Hx]; constructor.
  - apply IH. intros q Hq. apply Hk. by right.
  - rewrite Forall_forall in Hx |- *. intros q Hq. apply Heq; [apply Hk; left|apply Hk; by right|by apply Hx].
Qed.

(** ** Placing *)

(** What the strings at [qs] take in the section. *)
Definition room len (q : nat) : Z := if used q && (0 <? len q) then len q else 0.
Definition total len (qs : list nat) : Z := foldr (fun q n => room len q + n) 0 qs.

Lemma total_app len (a b : list nat) : total len (a ++ b) = total len a + total len b.
Proof. unfold total. induction a as [|x a IH]; cbn; [done|]. rewrite IH. lia. Qed.

Lemma total_nonneg len (a : list nat) : 0 <= total len a.
Proof.
  unfold total. induction a as [|x a IH]; cbn; [done|]. unfold room at 1. destruct (used x); cbn; [|lia].
  destruct (Z.ltb_spec 0 (len x)); lia.
Qed.

Lemma assign_ok (n i : nat) tab heap len us :
  (i + n = length ps)%nat -> view tab heap len us -> 1 + total len ps < 2 ^ 63 ->
  exists heap' us',
    assign n (Z.of_nat i + 1) (1 + total len (take i ps)) (set_heap tab heap) = Ret (1 + total len ps, set_heap tab heap')
    /\ view tab heap' len us'
    /\ (forall j p, (i <= j)%nat -> ps !! j = Some p -> used p = true -> 0 < len p ->
         us' p = u_index (1 + total len (take j ps)))
    /\ (forall p, p ∉ drop i ps \/ used p = false \/ len p <= 0 -> us' p = us p).
Proof.
  revert i heap us. induction n as [|n IH]; intros i heap us Hi Hv Htotal; cbn [assign].
  { exists heap, us. rewrite take_ge by lia. split; [done|]. split; [done|]. split; [|done].
    intros j p Hj Hp. apply lookup_lt_Some in Hp. lia. }
  destruct (lookup_lt_is_Some_2 ps i) as [p Hp]; [lia|].
  destruct (view_at _ _ _ _ _ _ Hv Hp) as [h E]. rewrite E. cbn [rbind se_refcount se_len]. fold (used p).
  replace (Z.of_nat i + 1 + 1) with (Z.of_nat (S i) + 1) by lia.
  pose proof (take_S_r _ _ _ Hp) as Htake. pose proof (total_app len (take i ps) [p]) as Htot.
  rewrite <- Htake in Htot. cbn [total foldr] in Htot.
  assert (Hle : total len (take (S i) ps) <= total len ps).
  { rewrite <- (take_drop (S i) ps) at 2. rewrite total_app. pose proof (total_nonneg len (drop (S i) ps)). lia. }
  pose proof (total_nonneg len (take i ps)) as Hpos.
  assert (Hout : p ∉ drop (S i) ps).
  { intros [j Hj]%list_elem_of_lookup. rewrite lookup_drop in Hj.
    pose proof (proj1 (NoDup_alt ps) Hnodup _ _ _ Hp Hj). lia. }
  destruct (used p && (0 <? len p)) eqn:Hplace.
  - assert (Hroom : room len p = len p) by (unfold room; by rewrite Hplace).
    rewrite u64_small by lia.
    replace (1 + total len (take i ps) + len p) with (1 + total len (take (S i) ps)) by lia.
    destruct (IH (S i) (alter (set_u (u_index (1 + total len (take i ps)))) p heap)
                (<[p := u_index (1 + total len (take i ps))]> us)) as (heap' & us' & E' & Hv' & Hin & Hout');
      [lia|by apply view_set_u|done|].
    exists heap', us'. split; [exact E'|]. split; [done|]. split.
    + intros j q Hj Hq Huq Hlq. destruct (decide (i = j)) as [<-|Hne]; [|apply Hin; [lia|done|done|done]].
      assert (q = p) as -> by congruence. rewrite Hout' by auto. apply fn_lookup_insert.
    + intros q Hq. assert (Hqp : q <> p).
      { intros ->. apply andb_prop in Hplace as [Hu Hl]. apply Z.ltb_lt in Hl.
        destruct Hq as [Hq|[Hq|Hq]]; [|congruence|lia]. rewrite (drop_S _ _ _ Hp) in Hq. apply Hq. left. }
      rewrite Hout'; [by apply fn_lookup_insert_ne|]. destruct Hq as [Hq|Hq]; [left|by right].
      rewrite (drop_S _ _ _ Hp) in Hq. intros H. apply Hq. by right.
  - assert (Hroom : room len p = 0) by (unfold room; by rewrite Hplace).
    replace (1 + total len (take i ps)) with (1 + total len (take (S i) ps)) by lia.
    destruct (IH (S i) heap us) as (heap' & us' & E' & Hv' & Hin & Hout'); [lia|done|done|].
    exists heap', us'. split; [exact E'|]. split; [done|]. split.
    + intros j q Hj Hq Huq Hlq. destruct (decide (i = j)) as [<-|Hne]; [|apply Hin; [lia|done|done|done]].
      assert (q = p) as -> by congruence. rewrite Huq in Hplace. cbn in Hplace. apply Z.ltb_ge in Hplace. lia.
    + intros q Hq. apply Hout'. destruct Hq as [Hq|Hq]; [left|by right].
      rewrite (drop_S _ _ _ Hp) in Hq. intros H. apply Hq. by right.
Qed.

(** ** Placing the ends *)

(** A used string that is kept at [place], or is the end of one. *)
Definition inside len (place : nat -> Z) (p t : nat) (o : Z) : Prop :=
  t ∈ ps /\ used t = true /\ kept len t /\ len p = - (strlen (name p) + 1) /\ t <> p /\ ends p t
  /\ o = place t + (strlen (name t) - strlen (name p)).

Lemma adjust_ok (place : nat -> Z) (n i : nat) tab heap len us :
  (i + n = length ps)%nat -> view tab heap len us ->
  (forall t, t ∈ ps -> used t = true -> kept len t -> us t = u_index (place t) /\ 0 <= place t < 2 ^ 63) ->
  (forall p, p ∈ drop i ps -> used p = true ->
     kept len p \/ exists t o, us p = u_suffix t /\ inside len place p t o) ->
  exists heap' us',
    adjust n (Z.of_nat i + 1) (set_heap tab heap) = Ret (set_heap tab heap') /\ view tab heap' len us'
    /\ (forall p, p ∈ drop i ps -> used p = true ->
         kept len p /\ us' p = us p \/ exists t o, us' p = u_index o /\ inside len place p t o)
    /\ (forall p, p ∉ drop i ps -> us' p = us p).
Proof.
  revert i heap us. induction n as [|n IH]; intros i heap us Hi Hv Hkept Hused; cbn [adjust].
  { exists heap, us. rewrite drop_ge by lia. split; [done|]. split; [done|]. split; [|done].
    intros p Hp. by inversion Hp. }
  destruct (lookup_lt_is_Some_2 ps i) as [p Hp]; [lia|]. pose proof (list_elem_of_lookup_2 _ _ _ Hp) as Hin.
  destruct (view_at _ _ _ _ _ _ Hv Hp) as [h E]. rewrite E. cbn [rbind se_refcount se_len se_u]. fold (used p).
  replace (Z.of_nat i + 1 + 1) with (Z.of_nat (S i) + 1) by lia. rewrite (drop_S _ _ _ Hp) in *.
  assert (Hout : p ∉ drop (S i) ps).
  { intros [j Hj]%list_elem_of_lookup. rewrite lookup_drop in Hj.
    pose proof (proj1 (NoDup_alt ps) Hnodup _ _ _ Hp Hj). lia. }
  destruct (used p && (len p <? 0)) eqn:Hend.
  - apply andb_prop in Hend as [Hup Hneg]. apply Z.ltb_lt in Hneg.
    destruct (Hused p ltac:(left) Hup) as [Hk|(t & o & Hu & Ht & Hut & Hkt & Hlp & Htp & Hpt & Ho)];
      [unfold kept, strlen in *; lia|].
    rewrite Hu. destruct (vw_entry _ _ _ _ Hv t Ht) as [ht Et]. cbn [es_heap set_heap].
    rewrite (get_entry_ret _ _ _ Et). cbn [rbind se_len]. destruct (Hkept t Ht Hut Hkt) as [Hust Hplace].
    unfold index_in. cbn [se_u]. rewrite Hust. cbn [rbind].
    pose proof (Hgood t Ht) as [_ Hlt]. pose proof (ends_shorter p t Hin Ht Hpt ltac:(done)) as Hsh.
    rewrite Hkt, Hlp. unfold strlen in *. rewrite s32_small, u64_small by (rewrite ?s32_small by lia; lia).
    replace (place t + _) with o by lia.
    destruct (IH (S i) (alter (set_u (u_index o)) p heap) (<[p := u_index o]> us)) as (heap' & us' & E' & Hv' & Hin' & Hout').
    + lia.
    + by apply view_set_u.
    + intros q Hq Huq Hkq. rewrite fn_lookup_insert_ne; [by apply Hkept|]. intros <-. unfold kept, strlen in Hkq. lia.
    + intros q Hq. rewrite fn_lookup_insert_ne by congruence. apply Hused. by right.
    + exists heap', us'. split; [exact E'|]. split; [done|]. split.
      * intros q [->|Hq]%elem_of_cons Huq.
        -- right. exists t, o. rewrite Hout' by done. rewrite fn_lookup_insert. unfold inside, strlen. conjs.
        -- destruct (Hin' q Hq Huq) as [[Hk Hus]|Hx]; [left|by right]. split; [done|]. rewrite Hus.
           apply fn_lookup_insert_ne. congruence.
      * intros q Hq. apply not_elem_of_cons in Hq as [Hqp Hq]. rewrite Hout' by done. by apply fn_lookup_insert_ne.
  - destruct (IH (S i) heap us) as (heap' & us' & E' & Hv' & Hin' & Hout'); [lia|done|done| |].
    { intros q Hq. apply Hused. by right. }
    exists heap', us'. split; [exact E'|]. split; [done|]. split.
    + intros q [->|Hq]%elem_of_cons Huq; [|by apply Hin'].
      destruct (Hused p ltac:(left) Huq) as [Hk|(t & o & Hu & Ht & Hut & Hkt & Hlp & _)].
      * left. split; [done|]. by apply Hout'.
      * rewrite Huq in Hend. cbn in Hend. apply Z.ltb_ge in Hend. unfold strlen in Hlp. lia.
    + intros q Hq. apply not_elem_of_cons in Hq as [Hqp Hq]. by apply Hout'.
Qed.

(** ** The whole of finalize *)

(** The position of a kept string: after the kept ones in earlier slots. *)
Definition place_of len (p : nat) : Z :=
  match list_find (p =.) ps with Some (j, _) => 1 + total len (take j ps) | None => 0 end.

Lemma place_of_at len (j p : nat) : ps !! j = Some p -> place_of len p = 1 + total len (take j ps).
Proof.
  intros Hp. unfold place_of. assert (list_find (p =.) ps = Some (j, p)) as ->; [|done].
  apply list_find_Some. split; [done|]. split; [done|]. intros k q Hq Hlt <-.
  pose proof (proj1 (NoDup_alt ps) Hnodup _ _ _ Hp Hq). lia.
Qed.

Definition demand (qs : list nat) : Z := foldr (fun q n => strlen (name q) + 1 + n) 0 qs.

Lemma total_demand len (qs : list nat) : (forall q, q ∈ qs -> len q <= strlen (name q) + 1) -> total len qs <= demand qs.
Proof.
  induction qs as [|q qs IH]; intros Hq; [cbn; lia|].
  change (total len (q :: qs)) with (room len q + total len qs).
  change (demand (q :: qs)) with (strlen (name q) + 1 + demand qs).
  assert (total len qs <= demand qs) by (apply IH; intros; apply Hq; by right).
  specialize (Hq q ltac:(left)). unfold room, strlen in *. destruct (used q && (0 <? len q)); lia.
Qed.

(** Where every used string is. *)
Record placed len us : Prop := {
  pl_dropped : forall p, p ∈ ps -> used p = false -> len p = 0;
  pl_used : forall p, p ∈ ps -> used p = true ->
    kept len p /\ us p = u_index (place_of len p) \/ exists t o, us p = u_index o /\ inside len (place_of len) p t o;
  pl_kept : forall p q, p ∈ ps -> q ∈ ps -> used p = true -> used q = true -> kept len p -> kept len q -> p <> q -> ~ ends p q
}.

Lemma finalize_ok tab heap len us :
  view tab heap len us -> es_size tab = Z.of_nat (length ps) + 1 ->
  (forall p, p ∈ ps -> len p = strlen (name p) + 1) -> 1 + demand ps < 2 ^ 63 ->
  exists heap' len' us',
    _bfd_elf_strtab_finalize (set_heap tab heap) = Ret (set_sec_size (set_heap tab heap') (1 + total len' ps))
    /\ view tab heap' len' us' /\ placed len' us' /\ 1 + total len' ps < 2 ^ 63.
Proof.
  intros Hv Hsize Hlen Hdemand. unfold _bfd_elf_strtab_finalize. cbn [es_size set_heap]. rewrite Hsize, Hmem.
  replace (Z.to_nat (Z.of_nat (length ps) + 1 - 1)) with (length ps) by lia.
  destruct (collect_ok (length ps) 0 tab heap len us) as (heap1 & len1 & E1 & Hv1 & Hl1 & _); [lia|done|done|].
  rewrite drop_0 in *. change (Z.of_nat 0 + 1) with 1 in E1. rewrite E1. cbn [rbind]. clear E1.
  set (l := List.filter used ps) in *.
  assert (Hl : forall q, q ∈ l <-> q ∈ ps /\ used q = true).
  { intros q. unfold l. by rewrite !list_elem_of_In, List.filter_In. }
  assert (Hlps : Forall (fun q => q ∈ ps) l) by (apply Forall_forall; intros q Hq; by apply Hl).
  assert (Hl1l : forall q, q ∈ l -> len1 q = strlen (name q)).
  { intros q [Hq Hu]%Hl. by rewrite Hl1, Hu. }
  pose proof (qsort_ok l tab heap1 len1 us Hv1 Hlps Hl1l) as Hsort. cbn [es_heap set_heap].
  assert (Hperm : qsort heap1 l ≡ₚ l) by apply merge_sort_Permutation.
  destruct (merge_sorted_ok (qsort heap1 l) tab heap1 len1 us Hv1) as (heap2 & len2 & us2 & E2 & Hv2 & Hout2 & Hres2 & Hmax2).
  { by rewrite Hperm. }
  { rewrite Hperm. unfold l. apply NoDup_ListNoDup, List.NoDup_filter. by apply NoDup_ListNoDup. }
  { done. }
  { intros q. rewrite Hperm. apply Hl1l. }
  rewrite E2. cbn [rbind]. clear E2.
  assert (Hin2 : forall q, q ∈ qsort heap1 l <-> q ∈ ps /\ used q = true) by (intros q; by rewrite Hperm).
  assert (Hdropped : forall p, p ∈ ps -> used p = false -> len2 p = 0).
  { intros p Hp Hu. destruct (Hout2 p) as [-> _]; [rewrite Hin2; intros [_ ?]; congruence|]. by rewrite Hl1, Hu. }
  assert (Hbound : total len2 ps <= demand ps).
  { apply total_demand. intros q Hq. destruct (used q) eqn:Hu; [|rewrite Hdropped by done; unfold strlen; lia].
    destruct (Hres2 q) as [[Hk _]|(t & _ & Hk & _)]; [by apply Hin2|unfold kept in Hk; lia|unfold strlen in *; lia]. }
  destruct (assign_ok (length ps) 0 tab heap2 len2 us2) as (heap3 & us3 & E3 & Hv3 & Hin3 & Hout3); [lia|done|lia|].
  change (Z.of_nat 0 + 1) with 1 in E3. rewrite take_0 in E3. change (1 + total len2 []) with 1 in E3.
  rewrite E3. cbn [rbind]. clear E3. set (sec := 1 + total len2 ps).
  assert (Hkept3 : forall t, t ∈ ps -> used t = true -> kept len2 t ->
    us3 t = u_index (place_of len2 t) /\ 0 <= place_of len2 t < 2 ^ 63).
  { intros t Ht Hut Hkt. apply list_elem_of_lookup in Ht as [j Hj]. rewrite (place_of_at _ _ _ Hj).
    split; [apply Hin3; [lia|done|done|unfold kept, strlen in Hkt; lia]|].
    pose proof (total_nonneg len2 (take j ps)). pose proof (total_nonneg len2 (drop j ps)).
    pose proof (total_app len2 (take j ps) (drop j ps)) as Htot. rewrite take_drop in Htot. lia. }
  destruct (adjust_ok (place_of len2) (length ps) 0 (set_sec_size tab sec) heap3 len2 us3)
    as (heap4 & us4 & E4 & Hv4 & Hin4 & _); [lia|by destruct Hv3|done| |].
  { rewrite drop_0. intros p Hp Hu. destruct (Hres2 p) as [[Hk _]|(t & Ht & Hlp & Hup & Hkt & Htp & Hpt)]; [by apply Hin2|by left|].
    apply Hin2 in Ht as [Ht Hut]. right. exists t, (place_of len2 t + (strlen (name t) - strlen (name p))).
    split; [|unfold inside; conjs]. rewrite Hout3; [done|]. right. right. unfold strlen in Hlp. lia. }
  change (Z.of_nat 0 + 1) with 1 in E4. rewrite drop_0 in Hin4.
  exists heap4, len2, us4. split; [exact E4|]. split; [by destruct Hv4|]. split; [|unfold sec in *; lia].
  split; [done| |].
  - intros p Hp Hu. destruct (Hin4 p Hp Hu) as [[Hk Hus]|Hi]; [left|by right].
    split; [done|]. rewrite Hus. by apply Hkept3.
  - intros p q Hp Hq Hup Huq. apply Hmax2; by apply Hin2.
Qed.
End strtab.
