(* ===== verification/StrtabFinal.v ===== *)
(** * The string section of a file

    A string table's last steps: [finalize], one [offset] for every reference, [emit].
    The section holds each used string that is not the end of another, in the order
    of the indices; every offset leads to its string. *)
From stdpp Require Import sorting functions.
From S2P Require Import Prelude BfdHash ElfStrtab StrtabSort StrtabList StrtabMerge.
#[local] Open Scope Z_scope.

(** ** What the section is *)

Definition ends_in (s t : string) : bool := bool_decide (chars s `suffix_of` chars t /\ s <> t).

(** A string with references that is not the end of another one with references. *)
Definition stored (l : list (string * Z)) (x : string * Z) : bool :=
  negb (x.2 =? 0) && negb (existsb (fun y => negb (y.2 =? 0) && ends_in x.1 y.1) l).

Definition chunk (l : list (string * Z)) (x : string * Z) : list Z := if stored l x then chars x.1 ++ [0] else [].

Definition section_of (l : list (string * Z)) : list Z := 0 :: flat_map (chunk l) l.

(** The bytes at [o] are the string and its NUL. *)
Definition string_at (file : list Z) (o : Z) (s : string) : Prop :=
  take (String.length s + 1) (drop (Z.to_nat o) file) = chars s ++ [0].

Definition string_of_index (l : list (string * Z)) (idx : Z) : string :=
  if idx =? 0 then EmptyString else (nth (Z.to_nat (idx - 1)) l (EmptyString, 0)).1.

Definition demand_of (l : list (string * Z)) : Z := foldr (fun x n => strlen x.1 + 1 + n) 0 l.

Section strtab.
  Context {T : Type} {ops : StringTable strtab_entry T} {memory : Memory}.
  Context {laws : StringTableLaws strtab_entry T fresh_strent}.
  Context (Hmem : forall n, has_memory n = true).
  Context (bwrite : list Z -> list Z -> bool).
  Implicit Types (tab : elf_strtab T) (heap : list strtab_entry) (len : nat -> Z) (us : nat -> strtab_u).

(** One [_bfd_elf_strtab_offset] for every reference in the file's tables. *)
Fixpoint offsets (refs : list Z) tab : res (list Z * elf_strtab T) :=
  match refs with
  | [] => Ret ([], tab)
  | idx :: refs =>
      let! (off, tab) := _bfd_elf_strtab_offset tab idx in
      let! (offs, tab) := offsets refs tab in
      Ret (off :: offs, tab)
  end.

Section slots.
  Context (ps : list nat) (name : nat -> string).
  Context (Hnodup : NoDup ps).
  Context (Hgood : forall p, p ∈ ps -> good_string (name p)).
  Context (Hname : forall p q, p ∈ ps -> q ∈ ps -> name p = name q -> p = q).

(** ** Offsets *)

Lemma view_set_refcount (cnt : nat -> Z) tab heap len us (p : nat) (n : Z) :
  view ps name cnt tab heap len us -> view ps name (<[p := n]> cnt) tab (alter (set_refcount n) p heap) len us.
Proof.
  intros [Ha He]. split; [done|]. intros q Hq. destruct (He q Hq) as [h E]. exists h.
  destruct (decide (p = q)) as [<-|Hne].
  - by rewrite list_lookup_alter_eq, E, fn_lookup_insert.
  - by rewrite list_lookup_alter_ne, fn_lookup_insert_ne.
Qed.

Lemma offset_ok (cnt : nat -> Z) tab heap len us (i p : nat) (o : Z) :
  view ps name cnt tab heap len us -> ps !! i = Some p -> us p = u_index o -> 0 < cnt p < 2 ^ 32 ->
  es_size tab = Z.of_nat (length ps) + 1 -> es_sec_size tab <> 0 ->
  _bfd_elf_strtab_offset (set_heap tab heap) (Z.of_nat i + 1)
  = Ret (o, set_heap tab (alter (set_refcount (cnt p - 1)) p heap)).
Proof.
  intros Hv Hp Hu Hc Hsize Hsec. unfold _bfd_elf_strtab_offset. rewrite (proj2 (Z.eqb_neq _ 0)) by lia.
  cbn [es_sec_size es_size set_heap]. apply lookup_lt_Some in Hp as Hlt. rewrite Hsize, (proj2 (Z.ltb_lt _ _)) by lia.
  cbn [bfd_assert es_sec_size set_heap]. rewrite (proj2 (Z.eqb_neq _ 0)) by done. cbn [negb bfd_assert].
  destruct (view_at _ _ _ _ _ _ _ _ _ Hv Hp) as [h E]. rewrite E. cbn [rbind se_refcount].
  rewrite (proj2 (Z.ltb_lt 0 _)) by lia. cbn [bfd_assert]. unfold index_in. cbn [se_u]. rewrite Hu. cbn [rbind].
  by rewrite u32_small by lia.
Qed.

(** Every reference gets its string's position, and no reference is left. *)
Lemma offsets_ok (refs : list Z) (cnt : nat -> Z) tab heap len us :
  view ps name cnt tab heap len us -> es_size tab = Z.of_nat (length ps) + 1 -> es_sec_size tab <> 0 ->
  (forall i p, ps !! i = Some p -> cnt p = Z.of_nat (count_occ Z.eq_dec refs (Z.of_nat i + 1)) /\ cnt p < 2 ^ 32) ->
  (forall p, p ∈ ps -> 0 < cnt p -> exists o, us p = u_index o) ->
  Forall (fun idx => 0 <= idx <= Z.of_nat (length ps)) refs ->
  exists offs heap' cnt', offsets refs (set_heap tab heap) = Ret (offs, set_heap tab heap')
    /\ view ps name cnt' tab heap' len us /\ (forall p, p ∈ ps -> cnt' p = 0)
    /\ Forall2 (fun idx o => idx = 0 /\ o = 0 \/ exists i p,
         idx = Z.of_nat i + 1 /\ ps !! i = Some p /\ us p = u_index o /\ 0 < cnt p) refs offs.
Proof.
  revert cnt heap. induction refs as [|idx refs IH]; intros cnt heap Hv Hsize Hsec Hcnt Hus Hrefs; cbn [offsets].
  { exists [], heap, cnt. split; [done|]. split; [done|]. split; [|constructor].
    intros p [i Hi]%list_elem_of_lookup. by apply (Hcnt i p). }
  apply Forall_cons in Hrefs as [Hidx Hrefs]. destruct (decide (idx = 0)) as [->|Hne].
  - cbn [_bfd_elf_strtab_offset Z.eqb rbind].
    destruct (IH cnt heap Hv Hsize Hsec) as (offs & heap' & cnt' & E & Hv' & H0 & Hf); [|done|done|].
    { intros i p Hp. destruct (Hcnt i p Hp) as [Hc ?]. rewrite count_occ_cons_neq in Hc by lia. done. }
    exists (0 :: offs), heap', cnt'. unfold _bfd_elf_strtab_offset. cbn [Z.eqb rbind]. rewrite E. conjs.
    constructor; [by left|done].
  - destruct (lookup_lt_is_Some_2 ps (Z.to_nat (idx - 1))) as [p Hp]; [lia|]. set (i := Z.to_nat (idx - 1)) in *.
    replace idx with (Z.of_nat i + 1) in * by lia.
    destruct (Hcnt i p Hp) as [Hc Hc32]. rewrite count_occ_cons_eq in Hc by done.
    destruct (Hus p) as [o Ho]; [by eapply list_elem_of_lookup_2|lia|].
    rewrite (offset_ok _ _ _ _ _ _ _ _ Hv Hp Ho) by (done || lia). cbn [rbind].
    destruct (IH (<[p := cnt p - 1]> cnt) (alter (set_refcount (cnt p - 1)) p heap))
      as (offs & heap' & cnt' & E & Hv' & H0 & Hf); [by apply view_set_refcount|done|done| | |done|].
    { intros j q Hq. destruct (decide (p = q)) as [<-|Hpq].
      - pose proof (proj1 (NoDup_alt ps) Hnodup _ _ _ Hp Hq) as <-. rewrite fn_lookup_insert. lia.
      - rewrite fn_lookup_insert_ne by done. destruct (Hcnt j q Hq) as [Hcq ?].
        rewrite count_occ_cons_neq in Hcq; [done|]. intros Hij. assert (i = j) by lia. congruence. }
    { intros q Hq Hcq. apply Hus; [done|]. destruct (decide (p = q)) as [<-|Hpq]; [lia|].
      by rewrite fn_lookup_insert_ne in Hcq. }
    exists (o :: offs), heap', cnt'. rewrite E. conjs. constructor; [right; exists i, p; conjs|].
    eapply Forall2_impl; [exact Hf|]. intros idx' o' [?|(j & q & ? & ? & ? & Hcq)]; [by left|]. right. exists j, q. conjs.
    destruct (decide (p = q)) as [<-|Hpq]; [lia|]. by rewrite fn_lookup_insert_ne in Hcq.
Qed.

(** ** Emitting *)

(** What an entry of this length writes. *)
Definition written len (p : nat) : list Z := if 0 <? len p then chars (name p) ++ [0] else [].

Lemma written_cases len (p : nat) : p ∈ ps ->
  (len p = 0 \/ len p = strlen (name p) + 1 \/ len p = - (strlen (name p) + 1)) ->
  (s32 (u32 (len p)) <? 0) = true /\ written len p = []
  \/ (s32 (u32 (len p)) <? 0) = false /\ bytes_of (name p) (u32 (len p)) = Ret (written len p)
     /\ u32 (len p) = Z.of_nat (length (written len p)).
Proof.
  intros Hin Hlen. pose proof (Hgood p Hin) as [_ Hlong]. unfold written, strlen in *.
  assert (Hs : s32 (u32 (len p)) = len p) by (destruct Hlen as [-> | [-> | ->]]; wrap64).
  rewrite Hs. destruct Hlen as [-> | [-> | ->]].
  - right. split; [done|]. split; [|done]. unfold bytes_of. cbn [u32]. change (u32 0) with 0.
    rewrite (proj2 (Z.leb_le _ _)) by lia. done.
  - right. rewrite (proj2 (Z.ltb_ge _ 0)), (proj2 (Z.ltb_lt 0 _)), u32_small by lia. split; [done|]. split.
    + unfold bytes_of. rewrite Z.leb_refl. f_equal. apply take_ge. rewrite length_app, string_chars_length. cbn. lia.
    + rewrite length_app, string_chars_length. cbn. lia.
  - left. rewrite (proj2 (Z.ltb_lt _ 0)), (proj2 (Z.ltb_ge 0 _)) by lia. done.
Qed.

Lemma emit_loop_ok (n i : nat) (cnt : nat -> Z) tab heap len us (file : list Z) (off : Z) :
  (forall f b, bwrite f b = true) ->
  view ps name cnt tab heap len us -> (i + n = length ps)%nat -> (forall p, p ∈ ps -> cnt p = 0) ->
  (forall p, p ∈ ps -> len p = 0 \/ len p = strlen (name p) + 1 \/ len p = - (strlen (name p) + 1)) ->
  0 <= off -> off + Z.of_nat (length (flat_map (written len) (drop i ps))) < 2 ^ 64 ->
  emit_loop bwrite n (Z.of_nat i + 1) file off (set_heap tab heap)
  = Ret (true, file ++ flat_map (written len) (drop i ps),
         off + Z.of_nat (length (flat_map (written len) (drop i ps))), set_heap tab heap).
Proof.
  intros Hw Hv Hi Hcnt Hlen. revert i file off Hi. induction n as [|n IH]; intros i file off Hi Hoff Hmax; cbn [emit_loop].
  { rewrite drop_ge by lia. cbn. by rewrite app_nil_r, Z.add_0_r. }
  destruct (lookup_lt_is_Some_2 ps i) as [p Hp]; [lia|]. pose proof (list_elem_of_lookup_2 _ _ _ Hp) as Hin.
  destruct (view_at _ _ _ _ _ _ _ _ _ Hv Hp) as [h E]. rewrite E. cbn [rbind se_refcount se_len se_string].
  rewrite Hcnt by done. cbn [Z.eqb bfd_assert]. rewrite (drop_S _ _ _ Hp) in *. cbn [flat_map] in *.
  replace (Z.of_nat i + 1 + 1) with (Z.of_nat (S i) + 1) by lia. rewrite length_app, Nat2Z.inj_add in *.
  destruct (written_cases len p Hin (Hlen p Hin)) as [(Hneg & Hw0)|(Hneg & Hb & Hu)]; rewrite Hneg.
  - rewrite Hw0 in *. cbn [app length] in *. rewrite (IH (S i)) by (cbn in Hmax; lia). done.
  - rewrite Hb. cbn [rbind]. rewrite Hw. cbn [negb]. rewrite Hu, u64_small by lia.
    rewrite (IH (S i)) by lia. by rewrite <- app_assoc, <- Z.add_assoc.
Qed.

Lemma written_length (cnt : nat -> Z) len (qs : list nat) :
  (forall q, q ∈ qs -> used cnt q = false -> len q = 0) ->
  (forall q, q ∈ qs -> 0 < len q -> len q = strlen (name q) + 1) ->
  Z.of_nat (length (flat_map (written len) qs)) = total cnt len qs.
Proof.
  intros H0 Hk. induction qs as [|q qs IH]; [done|]. cbn [flat_map]. rewrite length_app, Nat2Z.inj_add, IH;
    [|by intros ? ?; apply H0; right|by intros ? ?; apply Hk; right].
  change (total cnt len (q :: qs)) with (room cnt len q + total cnt len qs). f_equal.
  specialize (H0 q ltac:(left)). specialize (Hk q ltac:(left)). unfold written, room, strlen in *.
  destruct (Z.ltb_spec 0 (len q)); [|by rewrite andb_false_r].
  destruct (used cnt q); [|specialize (H0 eq_refl); lia]. cbn. rewrite length_app, string_chars_length. cbn. lia.
Qed.

(** ** The section *)

Definition listed (cnt : nat -> Z) (p : nat) : string * Z := (name p, cnt p).

Lemma ends_in_spec (p q : nat) : p ∈ ps -> q ∈ ps -> ends_in (name p) (name q) = true <-> ends name p q /\ p <> q.
Proof.
  intros Hp Hq. unfold ends_in, ends. rewrite bool_decide_eq_true. split; intros [He Hne]; (split; [done|]).
  - intros ->. by apply Hne.
  - intros Heq. by apply Hne, Hname.
Qed.

(** The kept strings are the stored ones. *)
Lemma stored_kept (cnt : nat -> Z) len us (p : nat) : placed ps name cnt len us -> p ∈ ps ->
  written len p = chunk (listed cnt <$> ps) (listed cnt p).
Proof.
  intros [H0 Hused Hkept] Hp. unfold written, chunk, stored. cbn [fst snd listed]. fold (used cnt p).
  destruct (used cnt p) eqn:Hu; cbn [andb]; [|by rewrite H0].
  destruct (existsb _ _) eqn:He; cbn [negb].
  - apply existsb_exists in He as (y & Hy & Hye). apply list_elem_of_In, list_elem_of_fmap in Hy as (q & -> & Hq).
    cbn [fst snd listed] in Hye. apply andb_prop in Hye as [Huq Hye]. apply ends_in_spec in Hye as [Hpq Hne]; [|done|done].
    destruct (Hused p Hp Hu) as [[Hk _]|(t & o & _ & _ & _ & _ & Hl & _)].
    2:{ rewrite (proj2 (Z.ltb_ge 0 _)); [done|unfold strlen in *; lia]. }
    exfalso. destruct (Hused q Hq Huq) as [[Hkq _]|(t & o & _ & Ht & Hut & Hkt & _ & Htq & Hqt & _)].
    { by apply (Hkept p q). }
    assert (Hpt : ends name p t) by (unfold ends in *; by etransitivity).
    destruct (decide (p = t)) as [->|Hne']; [|by apply (Hkept p t)].
    pose proof (ends_shorter ps name Hname _ _ Hp Hq Hpq Hne). pose proof (ends_shorter ps name Hname _ _ Hq Hp Hqt (not_eq_sym Htq)). lia.
  - destruct (Hused p Hp Hu) as [[Hk _]|(t & o & _ & Ht & Hut & Hkt & Hl & Htp & Hpt & _)].
    { unfold kept, strlen in Hk. rewrite (proj2 (Z.ltb_lt 0 _)) by lia. done. }
    exfalso. assert (existsb (fun y => negb (y.2 =? 0) && ends_in (name p) y.1) (listed cnt <$> ps) = true); [|congruence].
    apply existsb_exists. exists (listed cnt t). split; [by apply list_elem_of_In, list_elem_of_fmap_2|].
    cbn [fst snd listed]. fold (used cnt t). rewrite Hut. cbn [andb]. apply ends_in_spec; [done|done|]. split; [done|by apply not_eq_sym].
Qed.

Lemma section_written (cnt : nat -> Z) len us : placed ps name cnt len us ->
  section_of (listed cnt <$> ps) = 0 :: flat_map (written len) ps.
Proof.
  intros Hpl. unfold section_of. f_equal.
  assert (H : forall qs, (forall q, q ∈ qs -> q ∈ ps) ->
    flat_map (chunk (listed cnt <$> ps)) (listed cnt <$> qs) = flat_map (written len) qs); [|by apply H].
  induction qs as [|q qs IH]; intros Hqs; [done|]. rewrite fmap_cons. cbn [flat_map].
  rewrite IH by (intros; apply Hqs; by right). f_equal. symmetry. eapply stored_kept; [exact Hpl|]. apply Hqs. left.
Qed.

Lemma placed_len (cnt : nat -> Z) len us (p : nat) : placed ps name cnt len us -> p ∈ ps ->
  len p = 0 \/ len p = strlen (name p) + 1 \/ len p = - (strlen (name p) + 1).
Proof.
  intros [H0 Hused _] Hp. destruct (used cnt p) eqn:Hu; [|left; by apply H0].
  right. destruct (Hused p Hp Hu) as [[Hk _]|(t & o & _ & _ & _ & _ & Hl & _)]; [by left|by right].
Qed.

Lemma placed_length (cnt : nat -> Z) len us (qs : list nat) : placed ps name cnt len us ->
  (forall q, q ∈ qs -> q ∈ ps) -> Z.of_nat (length (flat_map (written len) qs)) = total cnt len qs.
Proof.
  intros Hpl Hqs. apply written_length.
  - intros q Hq Hu. apply (pl_dropped _ _ _ _ _ Hpl); [by apply Hqs|done].
  - intros q Hq Hl. destruct (placed_len _ _ _ _ Hpl (Hqs q Hq)) as [?|[?|?]]; unfold strlen in *; lia.
Qed.

(** The bytes at the position of a kept string. *)
Lemma kept_string (cnt : nat -> Z) len us (t : nat) :
  placed ps name cnt len us -> t ∈ ps -> kept name len t ->
  exists rest, drop (Z.to_nat (place_of ps cnt len t)) (0 :: flat_map (written len) ps) = chars (name t) ++ [0] ++ rest
    /\ 0 <= place_of ps cnt len t.
Proof.
  intros Hpl [j Hj]%list_elem_of_lookup Hk. rewrite (place_of_at ps cnt Hnodup _ _ _ Hj).
  rewrite <- (placed_length cnt len us (take j ps) Hpl) by (intros q [k Hk']%list_elem_of_lookup;
    apply lookup_take_Some in Hk' as [Hk' _]; by eapply list_elem_of_lookup_2).
  exists (flat_map (written len) (drop (S j) ps)). split; [|lia].
  rewrite <- (take_drop_middle _ _ _ Hj) at 2. rewrite flat_map_app.
  replace (Z.to_nat (1 + _)) with (S (length (flat_map (written len) (take j ps)))) by lia. cbn [drop].
  rewrite drop_app_length. cbn [flat_map]. unfold kept, strlen in *. unfold written at 1.
  rewrite (proj2 (Z.ltb_lt 0 _)) by lia. by rewrite <- app_assoc.
Qed.

(** The bytes at the position of a used string. *)
Lemma placed_string (cnt : nat -> Z) len us (p : nat) (o : Z) :
  placed ps name cnt len us -> p ∈ ps -> used cnt p = true -> us p = u_index o ->
  string_at (0 :: flat_map (written len) ps) o (name p).
Proof.
  intros Hpl Hp Hu Ho.
  assert (Hgo : forall rest, take (String.length (name p) + 1) (chars (name p) ++ [0] ++ rest) = chars (name p) ++ [0]).
  { intros rest. rewrite app_assoc, take_app_length'; [done|]. rewrite length_app, string_chars_length. cbn. lia. }
  unfold string_at. destruct (pl_used _ _ _ _ _ Hpl p Hp Hu) as [[Hk Hus]|(t & o' & Hus & Ht & Hut & Hkt & Hl & Htp & [k Hpt] & Ho')].
  - rewrite Ho in Hus. injection Hus as ->. destruct (kept_string _ _ _ _ Hpl Hp Hk) as (rest & -> & _). apply Hgo.
  - rewrite Ho in Hus. injection Hus as <-. destruct (kept_string _ _ _ _ Hpl Ht Hkt) as (rest & E & Hpos).
    pose proof (f_equal length Hpt) as Hlen. rewrite length_app, !string_chars_length in Hlen. unfold strlen in *.
    replace (Z.to_nat o) with (Z.to_nat (place_of ps cnt len t) + length k)%nat by lia.
    rewrite <- drop_drop, E, Hpt, <- !app_assoc, drop_app_length. apply Hgo.
Qed.
End slots.

(** ** From the list to the section *)

Lemma strtab_view tab ps (l : list (string * Z)) : strtab_ok tab ps l ->
  exists name cnt us, l = listed name cnt <$> ps /\ NoDup ps
    /\ (forall p, p ∈ ps -> good_string (name p)) /\ (forall p q, p ∈ ps -> q ∈ ps -> name p = name q -> p = q)
    /\ view ps name cnt tab (es_heap tab) (fun p => strlen (name p) + 1) us
    /\ (forall p, p ∈ ps -> 0 <= cnt p < 2 ^ 32).
Proof.
  intros Hok. set (at_ := pointed (es_heap tab)).
  assert (Hat : forall i p s c, ps !! i = Some p -> l !! i = Some (s, c) ->
    es_heap tab !! p = Some (at_ p) /\ se_string (at_ p) = s /\ se_refcount (at_ p) = c /\ se_len (at_ p) = strlen s + 1).
  { intros i p s c Hp Hl. destruct (sk_entry _ _ _ Hok _ _ _ _ Hp Hl) as [h E]. unfold at_, pointed.
    by rewrite (nth_lookup_Some _ _ _ _ E). }
  assert (Hin : forall p, p ∈ ps -> exists i s c, ps !! i = Some p /\ l !! i = Some (s, c)).
  { intros p [i Hi]%list_elem_of_lookup. destruct (listed_at _ _ _ _ _ Hok Hi) as (s & c & Hl). by exists i, s, c. }
  exists (fun p => se_string (at_ p)), (fun p => se_refcount (at_ p)), (fun p => se_u (at_ p)).
  split; [|split; [by eapply pointers_nodup|split; [|split; [|split; [split|]]]]].
  - apply list_eq. intros i. rewrite list_lookup_fmap. destruct (ps !! i) as [p|] eqn:Hp.
    + destruct (listed_at _ _ _ _ _ Hok Hp) as (s & c & Hl). destruct (Hat _ _ _ _ Hp Hl) as (_ & Hs & Hc & _).
      cbn. unfold listed. by rewrite Hs, Hc.
    + apply lookup_ge_None in Hp. rewrite (sk_ps _ _ _ Hok) in Hp. by apply lookup_ge_None.
  - intros p Hp. destruct (Hin p Hp) as (i & s & c & Hi & Hl). destruct (Hat _ _ _ _ Hi Hl) as (_ & -> & _).
    by apply (sk_string _ _ _ Hok i s c).
  - intros p q Hp Hq Heq. destruct (Hin p Hp) as (i & s & c & Hi & Hl), (Hin q Hq) as (j & t & d & Hj & Hm).
    destruct (Hat _ _ _ _ Hi Hl) as (_ & Hs & _), (Hat _ _ _ _ Hj Hm) as (_ & Ht & _).
    assert (s = t) as <- by congruence. pose proof (strings_inj _ _ _ _ _ _ _ _ Hok Hl Hm) as <-. congruence.
  - apply (sk_array _ _ _ Hok).
  - intros p Hp. destruct (Hin p Hp) as (i & s & c & Hi & Hl). destruct (Hat _ _ _ _ Hi Hl) as (E & <- & _ & Hlen).
    exists (se_hash (at_ p)). rewrite E, <- Hlen. by destruct (at_ p).
  - intros p Hp. destruct (Hin p Hp) as (i & s & c & Hi & Hl). destruct (Hat _ _ _ _ Hi Hl) as (_ & _ & -> & _).
    by apply (sk_string _ _ _ Hok i s c).
Qed.

(** As many references to every string as its count says. *)
Definition all_refs (refs : list Z) (l : list (string * Z)) : Prop :=
  Forall (fun idx => 0 <= idx <= Z.of_nat (length l)) refs
  /\ forall i s c, l !! i = Some (s, c) -> Z.of_nat (count_occ Z.eq_dec refs (Z.of_nat i + 1)) = c.

Lemma demand_listed (name : nat -> string) (cnt : nat -> Z) (ps : list nat) :
  demand_of (listed name cnt <$> ps) = demand name ps.
Proof.
  induction ps as [|p ps IH]; [done|]. rewrite fmap_cons.
  change (demand_of (listed name cnt p :: (listed name cnt <$> ps)))
    with (strlen (name p) + 1 + demand_of (listed name cnt <$> ps)).
  by rewrite IH.
Qed.

Lemma final_ok tab ps (l : list (string * Z)) (refs : list Z) :
  strtab_ok tab ps l -> 1 + demand_of l < 2 ^ 63 -> all_refs refs l -> (forall f b, bwrite f b = true) ->
  exists tab1 offs tab2 tab3,
    _bfd_elf_strtab_finalize tab = Ret tab1
    /\ _bfd_elf_strtab_size tab1 = Z.of_nat (length (section_of l))
    /\ offsets refs tab1 = Ret (offs, tab2)
    /\ Forall2 (fun idx o => string_at (section_of l) o (string_of_index l idx)) refs offs
    /\ _bfd_elf_strtab_emit bwrite tab2 = Ret (true, section_of l, tab3)
    /\ es_asserts tab3 = es_asserts tab.
Proof.
  intros Hok Hdemand [Hrange Hrefs] Hw.
  destruct (strtab_view _ _ _ Hok) as (name & cnt & us & -> & Hnd & Hgood & Hinj & Hv & Hcnt).
  rewrite demand_listed in Hdemand. pose proof (sk_size _ _ _ Hok) as Hsize. rewrite length_fmap in *.
  destruct (finalize_ok Hmem ps name cnt Hnd Hgood Hinj tab (es_heap tab) _ us Hv Hsize)
    as (heap1 & len & us1 & E1 & Hv1 & Hpl & Hmax); [done|done|].
  replace (set_heap tab (es_heap tab)) with tab in E1 by (by destruct tab).
  pose proof (placed_length ps name cnt len us1 ps Hpl (fun _ H => H)) as Htotal.
  pose proof (section_written ps name Hinj cnt len us1 Hpl) as Hsec.
  set (tab0 := set_sec_size tab (1 + total cnt len ps)).
  assert (Hv0 : view ps name cnt tab0 heap1 len us1) by (by destruct Hv1).
  pose proof (total_nonneg cnt len ps) as Hpos.
  destruct (offsets_ok ps name Hnd refs cnt tab0 heap1 len us1 Hv0) as (offs & heap2 & cnt2 & E2 & Hv2 & H0 & Hf);
    [done|cbn; lia| | |done|].
  { intros i p Hp. split; [|apply Hcnt; by eapply list_elem_of_lookup_2].
    symmetry. apply (Hrefs i (name p)). by rewrite list_lookup_fmap, Hp. }
  { intros p Hp Hc. destruct (pl_used _ _ _ _ _ Hpl p Hp) as [[_ ?]|(t & o & ? & _)]; [|by eexists|by eexists].
    unfold used. by rewrite (proj2 (Z.eqb_neq _ 0)) by lia. }
  pose proof (emit_loop_ok ps name Hgood (length ps) 0 cnt2 tab0 heap2 len us1 [0] 1 Hw Hv2) as E3.
  rewrite drop_0, Htotal in E3. change (Z.of_nat 0 + 1) with 1 in E3.
  specialize (E3 (eq_refl _) H0 (fun p => placed_len ps name cnt len us1 p Hpl) ltac:(lia) ltac:(lia)).
  exists (set_heap tab0 heap1), offs, (set_heap tab0 heap2), (set_heap tab0 heap2).
  split; [exact E1|]. split; [|split; [exact E2|split; [|split; [|done]]]].
  - unfold _bfd_elf_strtab_size. cbn [es_sec_size set_heap set_sec_size tab0]. rewrite (proj2 (Z.eqb_neq _ 0)) by lia.
    rewrite Hsec. cbn [length]. lia.
  - eapply Forall2_impl; [exact Hf|]. intros idx o [[-> ->]|(i & p & -> & Hp & Ho & Hc)].
    + rewrite Hsec. done.
    + rewrite Hsec. replace (string_of_index _ _) with (name p).
      * eapply placed_string; [done|exact Hpl|by eapply list_elem_of_lookup_2| |done].
        unfold used. by rewrite (proj2 (Z.eqb_neq _ 0)) by lia.
      * unfold string_of_index. rewrite (proj2 (Z.eqb_neq _ 0)) by lia.
        replace (Z.to_nat (Z.of_nat i + 1 - 1)) with i by lia.
        by rewrite (nth_lookup_Some _ _ _ (listed name cnt p)) by (by rewrite list_lookup_fmap, Hp).
  - unfold _bfd_elf_strtab_emit. rewrite Hw. cbn [negb es_size set_heap set_sec_size tab0].
    rewrite Hsize. replace (Z.to_nat (Z.of_nat (length ps) + 1 - 1)) with (length ps) by lia.
    rewrite E3. cbn [rbind]. cbn [es_sec_size set_heap set_sec_size tab0]. rewrite Z.eqb_refl. cbn [bfd_assert].
    by rewrite Hsec.
Qed.

(** C18.  What a file's string section holds: for any sequence of up to 2^28 calls that
    makes sense on a list, [finalize], one [offset] for every reference that was
    counted and [emit] write exactly the used strings that are not the end of another
    used string, in the order of their indices; the size is what was written, every
    offset leads to the bytes of its string and a NUL, and no assertion fails. *)
Theorem strtab_written (t : T) (cs : list strtab_call) (rs : list Z) (l : list (string * Z)) (saves : list (list Z))
    (refs : list Z) :
  st_holds [] t ∅ -> Z.of_nat (length cs) <= max_entries -> list_calls cs [] [] = Some (rs, l, saves) ->
  1 + demand_of l < 2 ^ 63 -> all_refs refs l -> (forall f b, bwrite f b = true) ->
  exists tab0 tab tab1 offs tab2 tab3,
    _bfd_elf_strtab_init (Some t) = Some tab0
    /\ strtab_run cs tab0 [] = Ret (rs, tab, snapshot <$> saves)
    /\ _bfd_elf_strtab_finalize tab = Ret tab1
    /\ _bfd_elf_strtab_size tab1 = Z.of_nat (length (section_of l))
    /\ offsets refs tab1 = Ret (offs, tab2)
    /\ Forall2 (fun idx o => string_at (section_of l) o (string_of_index l idx)) refs offs
    /\ _bfd_elf_strtab_emit bwrite tab2 = Ret (true, section_of l, tab3)
    /\ es_asserts tab3 = 0%nat.
Proof.
  intros Ht Hmax Hc Hdemand Hrefs Hw. destruct (init_ok Hmem t Ht) as (tab0 & Ei & Hok0 & Ha & Hh).
  destruct (run_list Hmem tab0 [] [] [] cs rs l saves Hok0) as (tab & ps & E & Hok & Ha'); [done|by rewrite Hh|done|].
  destruct (final_ok tab ps l refs Hok Hdemand Hrefs Hw) as (tab1 & offs & tab2 & tab3 & E1 & Hs & E2 & Hf & E3 & Ha3).
  exists tab0, tab, tab1, offs, tab2, tab3. conjs.
Qed.
End strtab.

(** ** Without memory *)

Definition whole (x : string * Z) : list Z := chars x.1 ++ [0].
Definition has_count (x : string * Z) : bool := negb (x.2 =? 0).

(** What the offsets count: the strings with references. *)
Definition short_section (l : list (string * Z)) : Z := 1 + demand_of (List.filter has_count l).

Section no_memory.
  Context {T : Type} {ops : StringTable strtab_entry T} {memory : Memory}.
  Context {laws : StringTableLaws strtab_entry T fresh_strent}.
  Context (bwrite : list Z -> list Z -> bool).
  Implicit Types (tab : elf_strtab T).

Lemma total_has_count (name : nat -> string) (cnt : nat -> Z) (qs : list nat) :
  total cnt (fun p => strlen (name p) + 1) qs = demand_of (List.filter has_count (listed name cnt <$> qs)).
Proof.
  induction qs as [|q qs IH]; [done|]. rewrite fmap_cons. cbn [List.filter].
  change (total cnt ?f (q :: qs)) with (room cnt f q + total cnt f qs). rewrite IH. unfold room.
  change (has_count (listed name cnt q)) with (used cnt q). destruct (used cnt q); [|done].
  rewrite (proj2 (Z.ltb_lt 0 _)) by (unfold strlen; lia). done.
Qed.

Lemma whole_written (name : nat -> string) (cnt : nat -> Z) (qs : list nat) :
  flat_map (written name (fun p => strlen (name p) + 1)) qs = flat_map whole (listed name cnt <$> qs).
Proof.
  induction qs as [|q qs IH]; [done|]. rewrite fmap_cons. cbn [flat_map]. rewrite IH. f_equal. unfold written, whole.
  by rewrite (proj2 (Z.ltb_lt 0 _)) by (unfold strlen; lia).
Qed.

Lemma whole_length (l : list (string * Z)) : Z.of_nat (length (flat_map whole l)) = demand_of l.
Proof.
  induction l as [|x l IH]; [done|]. cbn [flat_map].
  change (demand_of (x :: l)) with (strlen x.1 + 1 + demand_of l). rewrite length_app, Nat2Z.inj_add, IH.
  unfold whole, strlen. rewrite length_app, string_chars_length. cbn. lia.
Qed.

Lemma filter_demand (l : list (string * Z)) : demand_of (List.filter has_count l) <= demand_of l.
Proof.
  induction l as [|x l IH]; [done|]. cbn [List.filter].
  change (demand_of (x :: l)) with (strlen x.1 + 1 + demand_of l). unfold strlen in *.
  destruct (has_count x); [|lia]. change (demand_of (x :: ?k)) with (strlen x.1 + 1 + demand_of k). unfold strlen. lia.
Qed.

Lemma filter_demand_eq (l : list (string * Z)) :
  (demand_of l =? demand_of (List.filter has_count l)) = forallb has_count l.
Proof.
  induction l as [|x l IH]; [done|]. cbn [List.filter forallb]. pose proof (filter_demand l) as Hle.
  change (demand_of (x :: l)) with (strlen x.1 + 1 + demand_of l). destruct (has_count x); cbn [andb].
  - rewrite <- IH. change (demand_of (x :: ?k)) with (strlen x.1 + 1 + demand_of k).
    destruct (Z.eqb_spec (demand_of l) (demand_of (List.filter has_count l))); [apply Z.eqb_eq|apply Z.eqb_neq]; lia.
  - apply Z.eqb_neq. unfold strlen. lia.
Qed.

Lemma forall2_fmap {A B : Type} (f : A -> B) (l : list A) (k : list B) : Forall2 (fun x y => y = f x) l k -> k = f <$> l.
Proof. induction 1 as [|x y l k -> _ IH]; [done|]. by rewrite fmap_cons, <- IH. Qed.

(** Nothing is merged: the strings with references come one after the other. *)
Lemma finalize_bare tab heap (ps : list nat) (name : nat -> string) (cnt : nat -> Z) (us : nat -> strtab_u) :
  let len := fun p => strlen (name p) + 1 in
  NoDup ps -> (forall p, p ∈ ps -> good_string (name p)) ->
  (forall p q, p ∈ ps -> q ∈ ps -> name p = name q -> p = q) ->
  view ps name cnt tab heap len us -> es_size tab = Z.of_nat (length ps) + 1 ->
  has_memory (u64 (es_size tab * SIZEOF_POINTER)) = false -> 1 + total cnt len ps < 2 ^ 63 ->
  exists heap' us', _bfd_elf_strtab_finalize (set_heap tab heap) = Ret (set_sec_size (set_heap tab heap') (1 + total cnt len ps))
    /\ view ps name cnt tab heap' len us'
    /\ forall p, p ∈ ps -> 0 < cnt p -> us' p = u_index (place_of ps cnt len p).
Proof.
  intros len Hnd Hgood Hinj Hv Hsize Hmem Hmax. unfold _bfd_elf_strtab_finalize. cbn [es_size set_heap].
  rewrite Hmem. cbn [rbind]. rewrite Hsize.
  replace (Z.to_nat (Z.of_nat (length ps) + 1 - 1)) with (length ps) by lia.
  destruct (assign_ok ps name cnt Hnd (length ps) 0 tab heap len us) as (heap1 & us1 & E1 & Hv1 & Hin1 & Hout1);
    [lia|done|lia|].
  change (Z.of_nat 0 + 1) with 1 in E1. rewrite take_0 in E1. change (1 + total cnt len []) with 1 in E1.
  rewrite E1. cbn [rbind]. clear E1. set (tab0 := set_sec_size tab (1 + total cnt len ps)).
  change (set_sec_size (set_heap tab heap1) (1 + total cnt len ps)) with (set_heap tab0 heap1).
  assert (Hplace : forall p, p ∈ ps -> used cnt p = true -> us1 p = u_index (place_of ps cnt len p) /\ 0 <= place_of ps cnt len p < 2 ^ 63).
  { intros p [j Hj]%list_elem_of_lookup Hu. rewrite (place_of_at ps cnt Hnd _ _ _ Hj). split.
    - apply (Hin1 j); [lia|done|done|unfold len, strlen; lia].
    - pose proof (total_nonneg cnt len (take j ps)). pose proof (total_nonneg cnt len (drop j ps)).
      pose proof (total_app cnt len (take j ps) (drop j ps)) as Htot. rewrite take_drop in Htot. lia. }
  destruct (adjust_ok ps name cnt Hnd Hgood Hinj (place_of ps cnt len) (length ps) 0 tab0 heap1 len us1)
    as (heap2 & us2 & E2 & Hv2 & Hin2 & _); [lia|by destruct Hv1|by intros; apply Hplace|by left|].
  change (Z.of_nat 0 + 1) with 1 in E2. rewrite drop_0 in Hin2. rewrite E2. clear E2.
  exists heap2, us2. split; [done|]. split; [by destruct Hv2|].
  intros p Hp Hc. assert (Hu : used cnt p = true) by (unfold used; by rewrite (proj2 (Z.eqb_neq _ 0)) by lia).
  destruct (Hin2 p Hp Hu) as [[_ ->]|(t & o & _ & _ & _ & _ & Hl & _)]; [by apply Hplace|].
  unfold len, strlen in Hl. lia.
Qed.

(** C40.  When [finalize] gets no memory for its array, it still gives offsets to the
    strings with references only, one after the other, but [emit] writes every string
    of the table, with references or not: the section is not what the offsets and
    the size say as soon as one string has no references, and only an assertion
    tells. *)
Theorem finalize_without_memory tab (ps : list nat) (l : list (string * Z)) (refs : list Z) :
  strtab_ok tab ps l -> has_memory (u64 (es_size tab * SIZEOF_POINTER)) = false ->
  1 + demand_of l < 2 ^ 63 -> all_refs refs l -> (forall f b, bwrite f b = true) ->
  exists tab1 tab2 tab3,
    _bfd_elf_strtab_finalize tab = Ret tab1
    /\ _bfd_elf_strtab_size tab1 = short_section l
    /\ offsets refs tab1
       = Ret ((fun idx => if idx =? 0 then 0 else short_section (take (Z.to_nat (idx - 1)) l)) <$> refs, tab2)
    /\ _bfd_elf_strtab_emit bwrite tab2 = Ret (true, 0 :: flat_map whole l, tab3)
    /\ es_asserts tab3 = (es_asserts tab + if forallb has_count l then 0 else 1)%nat.
Proof.
  intros Hok Hmem Hdemand [Hrange Hrefs] Hw.
  destruct (strtab_view _ _ _ Hok) as (name & cnt & us & -> & Hnd & Hgood & Hinj & Hv & Hcnt).
  set (len := fun p => strlen (name p) + 1) in *. rewrite length_fmap in *. pose proof (sk_size _ _ _ Hok) as Hsize.
  rewrite length_fmap in Hsize. pose proof (filter_demand (listed name cnt <$> ps)) as Hfilter.
  pose proof (total_has_count name cnt ps) as Htotal. fold len in Htotal.
  destruct (finalize_bare tab (es_heap tab) ps name cnt us Hnd Hgood Hinj Hv Hsize Hmem) as (heap2 & us2 & E1 & Hv2 & Hus2);
    [fold len; lia|]. fold len in E1, Hv2, Hus2.
  replace (set_heap tab (es_heap tab)) with tab in E1 by (by destruct tab).
  set (tab0 := set_sec_size tab (1 + total cnt len ps)).
  change (set_sec_size (set_heap tab heap2) (1 + total cnt len ps)) with (set_heap tab0 heap2) in E1.
  assert (Hv2' : view ps name cnt tab0 heap2 len us2) by (by destruct Hv2).
  destruct (offsets_ok ps name Hnd refs cnt tab0 heap2 len us2 Hv2') as (offs & heap3 & cnt3 & E3 & Hv3 & H0 & Hf);
    [done|cbn; pose proof (total_nonneg cnt len ps); lia| | |done|].
  { intros i p Hp. split; [|apply Hcnt; by eapply list_elem_of_lookup_2].
    symmetry. apply (Hrefs i (name p)). by rewrite list_lookup_fmap, Hp. }
  { intros p Hp Hc. eexists. by apply Hus2. }
  pose proof (emit_loop_ok bwrite ps name Hgood (length ps) 0 cnt3 tab0 heap3 len us2 [0] 1 Hw Hv3 eq_refl H0) as E4.
  rewrite drop_0 in E4. change (Z.of_nat 0 + 1) with 1 in E4.
  pose proof (whole_written name cnt ps) as Hwhole. fold len in Hwhole. rewrite Hwhole, whole_length in E4. specialize (E4 ltac:(by right; left) ltac:(lia) ltac:(lia)).
  exists (set_heap tab0 heap2), (set_heap tab0 heap3), (bfd_assert (forallb has_count (listed name cnt <$> ps)) (set_heap tab0 heap3)).
  split; [done|]. split; [|split; [|split]].
  - unfold _bfd_elf_strtab_size, short_section. cbn [es_sec_size set_heap set_sec_size tab0].
    pose proof (total_nonneg cnt len ps). rewrite (proj2 (Z.eqb_neq _ 0)) by lia. by rewrite Htotal.
  - rewrite E3. do 2 f_equal. apply forall2_fmap. eapply Forall2_impl; [exact Hf|].
    intros idx o [[-> ->]|(i & p & -> & Hp & Ho & Hc)]; [done|]. rewrite (proj2 (Z.eqb_neq _ 0)) by lia.
    rewrite Hus2 in Ho by (done || by eapply list_elem_of_lookup_2). injection Ho as <-.
    rewrite (place_of_at ps cnt Hnd _ _ _ Hp). unfold short_section, len. rewrite total_has_count, fmap_take.
    by replace (Z.to_nat (Z.of_nat i + 1 - 1)) with i by lia.
  - unfold _bfd_elf_strtab_emit. rewrite Hw. cbn [negb es_size set_heap set_sec_size tab0].
    rewrite Hsize. replace (Z.to_nat (Z.of_nat (length ps) + 1 - 1)) with (length ps) by lia.
    rewrite E4. cbn [rbind]. cbn [es_sec_size set_heap set_sec_size tab0]. rewrite Htotal, <- filter_demand_eq.
    assert (Heqb : forall a b, (1 + a =? 1 + b) = (a =? b))
      by (intros a b; apply Bool.eq_iff_eq_true; rewrite !Z.eqb_eq; lia).
    by rewrite Heqb.
  - destruct (forallb _ _); cbn; lia.
Qed.
End no_memory.

(** ** Witnesses *)

Definition demo_names : list strtab_call :=
  [call_add "d" true; call_add "abcd" true; call_add "bcd" true; call_add "printf" true; call_add "gone" true;
   call_add "bcd" true; call_delref 5].
Definition demo_list : list (string * Z) := [("d", 1); ("abcd", 1); ("bcd", 2); ("printf", 1); ("gone", 0)].
Definition demo_refs : list Z := [3; 1; 0; 4; 3; 2].

Lemma demo_refs_all : all_refs demo_refs demo_list.
Proof.
  split; [repeat constructor; cbn; lia|].
  intros i s c Hi. do 5 (destruct i as [|i]; [by injection Hi as <- <-|]). done.
Qed.

Lemma strtab_written_witness :
  section_of demo_list = [0; 97; 98; 99; 100; 0; 112; 114; 105; 110; 116; 102; 0]
  /\ exists (tab0 tab tab1 : elf_strtab bfd_hash_table) offs tab2 tab3,
    _bfd_elf_strtab_init (memory := enough) (Some new_names) = Some tab0
    /\ strtab_run (ops := strtab_ops) (memory := enough) demo_names tab0 [] = Ret ([1; 2; 3; 4; 5; 3; 0], tab, [])
    /\ _bfd_elf_strtab_finalize (memory := enough) tab = Ret tab1
    /\ _bfd_elf_strtab_size tab1 = Z.of_nat (length (section_of demo_list))
    /\ offsets demo_refs tab1 = Ret (offs, tab2)
    /\ Forall2 (fun idx o => string_at (section_of demo_list) o (string_of_index demo_list idx)) demo_refs offs
    /\ _bfd_elf_strtab_emit (fun _ _ => true) tab2 = Ret (true, section_of demo_list, tab3)
    /\ es_asserts tab3 = 0%nat.
Proof.
  split; [vm_compute; reflexivity|].
  apply (strtab_written (ops := strtab_ops) (memory := enough) (laws := strtab_laws) (fun _ => eq_refl) (fun _ _ => true)
           new_names demo_names _ demo_list [] demo_refs);
    [exact new_names_hold|vm_compute; discriminate|vm_compute; reflexivity|vm_compute; reflexivity|exact demo_refs_all|done].
Defined.

(** The array of three pointers is refused. *)
Definition no_array : Memory := fun n => negb (n =? 24).
Definition half_used : list (string * Z) := [("gone", 0); ("main", 1)].

Lemma half_used_table : exists tab ps, strtab_ok (ops := strtab_ops) (laws := strtab_laws) tab ps half_used.
Proof.
  destruct (init_ok (ops := strtab_ops) (memory := enough) (laws := strtab_laws) (fun _ => eq_refl) new_names new_names_hold)
    as (tab0 & _ & Hok0 & _ & Hh).
  destruct (run_list (ops := strtab_ops) (memory := enough) (laws := strtab_laws) (fun _ => eq_refl) tab0 [] [] []
              [call_add "gone" true; call_add "main" true; call_delref 1] [1; 2; 0] half_used [] Hok0)
    as (tab & ps & _ & Hok & _); [done|rewrite Hh; vm_compute; discriminate|vm_compute; reflexivity|]. by exists tab, ps.
Qed.

(** The offset of "main" leads to "gone". *)
Lemma finalize_without_memory_witness :
  exists tab tab1 tab2 tab3 : elf_strtab bfd_hash_table,
    _bfd_elf_strtab_finalize (memory := no_array) tab = Ret tab1
    /\ _bfd_elf_strtab_size tab1 = 6
    /\ offsets [2] tab1 = Ret ([1], tab2)
    /\ _bfd_elf_strtab_emit (fun _ _ => true) tab2
       = Ret (true, [0; 103; 111; 110; 101; 0; 109; 97; 105; 110; 0], tab3)
    /\ es_asserts tab3 = (es_asserts tab + 1)%nat.
Proof.
  destruct half_used_table as (tab & ps & Hok). exists tab.
  apply (finalize_without_memory (ops := strtab_ops) (memory := no_array) (laws := strtab_laws) (fun _ _ => true)
           tab ps half_used [2] Hok).
  - by rewrite (sk_size _ _ _ Hok).
  - vm_compute. reflexivity.
  - split; [repeat constructor; cbn; lia|]. intros i s c Hi. do 2 (destruct i as [|i]; [by injection Hi as <- <-|]). done.
  - done.
Defined.
